(* ===== verification/_CoqProject ===== *)
-Q . S2P
Prelude.v
Bytes.v
Core.v
Wire.v
WireLogic.v
Messages.v
MessageCodecs.v
RequestOpcode.v
Request.v
RequestProps.v
ResponseOpcode.v
Response.v
ResponseProps.v
Frame.v
FrameProps.v
Record.v
SparseIndex.v
Segment.v
SegmentProps.v
SegmentTheorems.v
GroupCommit.v
PartitionLog.v
SharedLog.v
PartitionLogProps.v
LogRetention.v
PartitionRaft.v
PartitionRaftProps.v
Assignor.v
AssignorProps.v
OffsetStore.v
OffsetStoreProps.v
Group.v
GroupProps.v
GroupWire.v
Text.v
Cluster.v
Placement.v
KafkaWire.v
KafkaWireProps.v
KafkaRecords.v
KafkaRecordsProps.v
KafkaTheorems.v
FetchSession.v
FetchSessionProps.v
FetchSessionMirror.v
FetchSessionTheorems.v
BrokerLog.v
Broker.v
Txn.v
LeaderEpoch.v
Replication.v
ReplicationProps.v
TxnRecovery.v
TxnProps.v
TxnSafety.v
TxnTrace.v
TxnProducers.v
LeaderEpochProps.v
TxnFencing.v
ProduceProps.v
TxnOutcome.v
TxnWitnesses.v
ReplicationWitnesses.v
Acl.v
AclProps.v
Scram.v
ScramProps.v
Auth.v
StreamState.v
StreamOps.v
Client.v
Dispatch.v
ClientBroker.v
ClientProps.v
ClientTraffic.v
Consumer.v
ConsumerProps.v
ConsumerBroker.v
