(* ===== verification/Prelude.v ===== *)
(** * Volant: a verification library for the Volant message broker

    Volant ([src/crates]) is a message broker in Rust: clients send produce,
    fetch, group and transaction requests over a framed binary protocol, or
    over Kafka's; the broker authenticates and authorizes them, appends messages
    to the logs of partitions, keeps consumer groups and their offsets, makes
    idempotent producers and transactions exactly-once, and replicates
    partitions and settings to the other brokers of a cluster; a log is a list
    of segment files that survives crashes.  A client library with a group
    consumer, and a stream library on top of it, talk to the broker.  These
    parts are translated here into Rocq functions, with proofs of what they
    promise to each other and to applications.

    ** How the model follows the code

    A function of the source is a function here with the same name; a method
    that changes its object returns the next object.  Machine integers are [Z],
    with [as_u32], [u64_saturating_add] and the like of this file where the
    source casts, wraps or saturates.  Strings and buffers are immutable values.
    A [Result] is [result]; its [?] is [let? x := c in k], and
    [let! (x, s) := c in k] threads a state as well.  A panic is a value of its
    own ([Panic] of [Wire]) where the code could reach one.  Clocks, fresh
    identifiers, random bytes and the iteration order of a [HashMap]
    ([IterOrder]) are arguments: the theorems hold for all of them.  Loops that
    are not structural take fuel: the bytes left to read ([Segment], [Frame],
    [Record], [KafkaRecords], [Text]), the digits of a varint or a number
    ([KafkaWire], [OffsetStore]), the segments, entries or elements left
    ([PartitionLog], [SparseIndex], [PartitionRaft], [Assignor], [StreamOps]),
    the offsets between the two ends of a log ([Dispatch]), one second round
    for the id of a fetch session ([FetchSession]); the loops of [Client] recurse on the
    retries and redirections left, as the code counts them.  Each is proved to
    be enough: the theorems state the result a call returns, not what holds if
    it returns.

    Code outside the repository is an interface, a class of operations with a
    class of the laws relied on: CRC-32 and CRC-32C ([Crc32], [Crc32c], no law
    assumed), the compression libraries ([Compressors]), serde_json for each
    kind of file ([SessionJson], [AdminJson], [ScramJson]), hashes, HMAC and
    Base64 ([ScramCrypto]), the database redb ([Redb]), the network between a
    client and its brokers ([Network], no law).  Components meet at interfaces
    of the same form: [CommitLog] and [LogStore] below the broker,
    [KeyValueStore] below the operators of a stream, [GroupServer] below the
    group consumer, each with the modelled component as an instance, and
    [AuthBroker] for the handlers behind the gate.  Locks are modelled where threads meet inside an operation:
    [SharedLog] (appenders that share a flush) and [GroupProps] (Joins parked on
    a condition variable) are step relations, and operations that release a
    lock in the middle are split there.  What several machines do is a step
    relation too, over messages that may be lost, repeated and reordered
    ([ReplicationProps], [AclProps], [ClientBroker], [ConsumerProps]).

    ** Storage: [volant-storage]

    - [Bytes], [Core]: fixed-width integers as bytes, UTF-8; offsets, messages
      and records ([volant-core]).
    - [Record] ([record.rs]): headers and records on disk, their size, encoder
      and decoder.  What is encoded is decoded, followed by any bytes; every
      proper prefix is reported as torn.
    - [SparseIndex] ([index.rs]): [lookup] finds the greatest entry below.
    - [Segment], [SegmentProps], [SegmentTheorems] ([segment.rs], [io.rs]): one
      segment with its two files, buffered or direct.  [seg_inv] ties it to the
      list of its records; reads are limited filters of the list, opening a file
      with a torn tail recovers the list; three error paths that do not.
    - [PartitionLog], [PartitionLogProps], [LogRetention] ([log.rs],
      [config.rs]): the log as a list of records.  Appends extend it
      at the end, reads filter it, deletion and retention remove a prefix of it,
      compaction keeps the latest record of each key, reopening after a crash
      gives it back.
    - [GroupCommit], [SharedLog] ([group_commit.rs] and [SharedPartitionLog]):
      a thread returns from its append only when a flush covers its records;
      some thread can always step.

    ** Protocol: [volant-protocol]

    - [Wire], [WireLogic]: readers and writers of [payload.rs], a weakest
      precondition for readers, and the interface [Codec] of a writer and the
      reader that undoes it.
    - [Messages], [MessageCodecs], [RequestOpcode], [Request], [RequestProps],
      [ResponseOpcode], [Response], [ResponseProps]: all structures, requests
      and responses.  What is encoded is decoded to itself; decoders do not
      panic on any bytes and return values of the Rust types.
    - [Frame], [FrameProps]: frames with checksums and the loops that read them
      from a stream ([codec.rs], [net/mod.rs], [net/rpc.rs], the client's
      [round_trip]).  A connection answers exactly the complete frames in order,
      however the stream is cut; a call returns the dispatcher's answer.

    ** Broker: [volant-broker]

    - [PartitionRaft], [PartitionRaftProps] ([replica/partition_raft.rs]): one
      replica with its files, and the group with a fixed leader.  Logs match,
      commits need a majority, a replica votes once per term; an AppendEntries
      of an old term can cut committed entries away.
    - [Assignor], [AssignorProps] ([assignor.rs]): range and sticky assignment
      give every partition to exactly one member, in equal shares.
    - [OffsetStore], [OffsetStoreProps] ([offset_store.rs]): the directory of
      committed offsets is a finite map, over an explicit file system.
    - [Group], [GroupProps], [GroupWire] ([group.rs]): the coordinator, its
      invariant in every interleaving, fencing of Joins and of commits.
    - [BrokerLog]: the interface [LogStore] with [LogStoreLaws] between broker
      and storage, and [PartitionLog] as its instance.  Everything below is
      proved for any instance.
    - [Broker] ([partition.rs], [topic.rs], [broker/mod.rs]): partitions,
      watermarks, produce, flush.
    - [Text]: the methods of [str] and the text files of the settings.
    - [Txn], [TxnRecovery] ([broker/txn.rs], [producer_state.rs], the fetch paths
      and the start-up of [broker/mod.rs], [handle_produce] of
      [net/dispatch.rs]): producer ids and epochs, transactions in one and two
      phases, time-outs, markers, and the reload of all of it.
    - [TxnProps], [TxnSafety], [TxnTrace], [TxnFencing]: no operation but its
      producer's commit makes a record of a transaction readable, so there are
      no dirty reads along any run, restarts included.
    - [TxnProducers], [TxnFencing]: the tables of producers equal their file, so
      a stale producer stays fenced and a prepared transaction survives a
      restart.
    - [ProduceProps]: an idempotent producer that resends is written once.
    - [TxnOutcome]: what commit, abort, time-outs and the fetches do, exactly,
      and two ways in which readers see too much or get stuck.
    - [TxnWitnesses]: those theorems on a concrete broker.

    - [Dispatch] ([net/dispatch.rs], [broker/topics.rs]): the handlers of the
      requests that produce, read, coordinate groups and run transactions.  The
      client and the broker route a key alike; an offset is found by its time.

    ** Cluster: [volant-broker]

    - [Cluster], [Placement] ([cluster/membership.rs], [cluster/state.rs],
      [cluster/assignment.rs]): members and their time-outs, the assignment and
      its wire form, placement of replicas on distinct brokers and racks.
    - [LeaderEpoch], [LeaderEpochProps] ([leader_epoch.rs]): the history of
      epochs; an epoch ends where the next one begins, also after a restart.
    - [Replication], [ReplicationProps], [ReplicationWitnesses]
      ([broker/cluster.rs], [replica/follower.rs]): replica fetches, in-sync
      sets, deaths and elections.  Under one leader every committed record is on
      every in-sync replica, and a follower catches up; two failovers lose a
      record.

    ** Kafka protocol: [volant-broker/src/kafka]

    - [KafkaWire], [KafkaWireProps], [KafkaRecords], [KafkaRecordsProps],
      [KafkaTheorems] ([codec.rs], [wire.rs], [compress.rs], the records of
      [produce_fetch.rs]): primitives, request frames, record batches and
      message sets, plain and compressed, and control batches: what is encoded
      is decoded.
    - [FetchSession], [FetchSessionProps], [FetchSessionMirror],
      [FetchSessionTheorems] ([fetch_session.rs], the session part of
      [net/fanout.rs]): the table of incremental fetch sessions, their limits,
      their copies at other brokers, their files.  A copy follows its owner; a
      partition is left out of a response only if nothing about it is new.

    ** Who may do what

    - [Acl], [AclProps] ([acl.rs], [cluster_admin.rs], [broker/admin.rs], the
      gate of [net/dispatch.rs]): bindings, their file and generation.  The gate
      decides as the bindings say, a deny overriding; brokers that do not lag
      decide alike.
    - [Scram], [ScramProps] ([scram.rs], [kafka/sasl.rs], the client's
      [scram.rs], the SASL requests of [kafka/handler.rs]): who has the password
      logs in, and a connection has a name only by a password or a proof.
    - [Auth] ([dispatch_with_auth]): a request that reaches a handler was let
      through by the gate for a principal proved on its connection.

    ** Client: [volant-client]

    - [Client], [ClientProps], [ClientTraffic] ([client.rs], [config.rs]): every
      call, with retries, redirections and authentication, over any network.
      Calls end after a bounded number of requests.
    - [ClientBroker]: the client and [Dispatch] joined by a line that loses
      requests and answers.  An idempotent producer's batches are stored once
      each and in order.
    - [Consumer], [ConsumerProps], [ConsumerBroker] ([group.rs]): the group
      consumer.  Against what [GroupServer] promises, which the broker is shown
      to keep, a group skips no record in any interleaving of its members.

    ** Streams: [volant-stream]

    - [StreamState] ([state/]): the stores of operators with checkpoints and
      changelog.  [StreamOps] ([operator.rs], [ops/], [window.rs],
      [pipeline.rs]): the operators over any store; what a tumbling window emits
      adds up to what it received.

    ** Bounds

    Appends assume room below 2^64 for offsets and flush generations
    ([ls_room]), sizes the source can represent ([batch_ok], [message_ok]), and
    [zombie_fenced] that fewer than 65535 epochs are handed out in between, where
    the 16-bit epoch comes round.

    ** Not modelled

    Sockets, TLS, tasks and time-outs of the network layer; the Kafka handlers
    beyond the parts above; the openraft adapter, the registry of transaction
    coordinators, the optional transaction-state topic and the journals of
    cluster-wide truncation; topic creation and configuration; the runtime,
    sources and sinks of streams; the executables and the clients in other
    languages.  Files in JSON are the values serialized into them where no
    interface says more, and system calls succeed except where the text of a
    file says otherwise. *)

From stdpp Require Export base tactics list option numbers strings gmap sorting.
From Stdlib Require Export ZArith Lia.
#[global] Open Scope Z_scope.

(** ** Errors and results: [volant_core::error]

    The message carried by an error is the literal part of the source's
    [format!] template; the interpolated values are not kept. *)

Inductive Error : Type :=
| Io (msg : string)
| Protocol (msg : string)
| Storage (msg : string)
| NotFound (msg : string)
| InvalidArgument (msg : string)
| NotImplemented (msg : string).

Inductive result (A : Type) : Type :=
| Ok (a : A)
| Err (e : Error).
Arguments Ok {A} a.
Arguments Err {A} e.

#[export] Instance Error_eq_dec : EqDecision Error.
Proof. solve_decision. Defined.

Definition is_ok {A} (r : result A) : bool :=
  match r with Ok _ => true | Err _ => false end.

Definition is_err {A} (r : result A) : bool :=
  match r with Ok _ => false | Err _ => true end.

(** The [?] operator of a pure fallible computation. *)
Declare Scope volant_scope.
Delimit Scope volant_scope with volant.
#[global] Open Scope volant_scope.

Notation "'let?' x ':=' c 'in' k" :=
  (match c with Ok x => k | Err e => Err e end)
  (at level 10, x pattern, c at level 200, k at level 200)
  : volant_scope.

(** The [?] operator of a method on [&mut self]: the state reached when the
    error is returned is kept. *)
Definition bind_st {S A B} (p : result A * S) (k : A → S → result B * S) : result B * S :=
  match p with
  | (Ok a, s) => k a s
  | (Err e, s) => (Err e, s)
  end.

Notation "'let!' ( x , s ) ':=' c 'in' k" :=
  (bind_st c (λ x s, k))
  (at level 10, x name, s name, c at level 200, k at level 200)
  : volant_scope.

Lemma bind_st_ok {S A B} (p : result A * S) (k : A → S → result B * S) b s' :
  bind_st p k = (Ok b, s') ↔ ∃ a s, p = (Ok a, s) ∧ k a s = (Ok b, s').
Proof.
  split.
  - destruct p as [[a|e] s]; simpl; [eauto | done].
  - by intros (a & s & -> & ?).
Qed.

(** ** Machine integers

    An unsigned w-bit integer is a [Z] in [[0, 2^w)]; casts wrap and the
    saturating operations clamp, as in the source. *)

Definition u16_max : Z := 65535.
Definition u32_max : Z := 4294967295.
Definition u64_max : Z := 18446744073709551615.
Definition usize_max : Z := u64_max.
Definition i64_min : Z := -9223372036854775808.
Definition i64_max : Z := 9223372036854775807.

Definition as_u16 (z : Z) : Z := z mod 65536.
Definition as_u32 (z : Z) : Z := z mod 4294967296.
Definition as_u64 (z : Z) : Z := z mod 18446744073709551616.

(** Two's complement reading of a w-bit pattern ([x as i32], [x as i64]). *)
Definition signed (w z : Z) : Z :=
  let m := z mod 2 ^ w in if m <? 2 ^ (w - 1) then m else m - 2 ^ w.
Definition as_i32 (z : Z) : Z := signed 32 z.
Definition as_i64 (z : Z) : Z := signed 64 z.

Definition u64_saturating_add (a b : Z) : Z := Z.min (a + b) u64_max.
Definition u64_saturating_mul (a b : Z) : Z := Z.min (a * b) u64_max.
Definition saturating_sub (a b : Z) : Z := Z.max 0 (a - b).
Definition u64_wrapping_add (a b : Z) : Z := as_u64 (a + b).
Definition u32_wrapping_add (a b : Z) : Z := as_u32 (a + b).
Definition i64_saturating_sub (a b : Z) : Z := Z.max i64_min (Z.min i64_max (a - b)).

Lemma u64_wrapping_add_small a b : 0 ≤ a + b ≤ u64_max → u64_wrapping_add a b = a + b.
Proof. intros. apply Z.mod_small. unfold u64_max in *. lia. Qed.

Lemma as_u16_small z : 0 ≤ z < 65536 → as_u16 z = z.
Proof. apply Z.mod_small. Qed.

Lemma as_u32_small z : 0 ≤ z < 4294967296 → as_u32 z = z.
Proof. apply Z.mod_small. Qed.

Lemma as_u32_le z : 0 ≤ z → 0 ≤ as_u32 z ≤ z.
Proof.
  intros Hz. unfold as_u32. split; [by apply Z.mod_pos_bound|].
  by apply Z.mod_le.
Qed.

Lemma as_i32_small z : 0 ≤ z < 2147483648 → as_i32 z = z.
Proof.
  unfold as_i32, signed. change (2 ^ (32 - 1)) with 2147483648. change (2 ^ 32) with 4294967296. intros Hz.
  rewrite Z.mod_small by lia. destruct (Z.ltb_spec z 2147483648); lia.
Qed.

Lemma as_i64_small z : i64_min ≤ z ≤ i64_max → as_i64 z = z.
Proof.
  unfold as_i64, signed, i64_min, i64_max; intros Hz.
  change (2 ^ (64 - 1)) with 9223372036854775808.
  change (2 ^ 64) with 18446744073709551616.
  destruct (decide (0 ≤ z)).
  - rewrite Z.mod_small by lia. destruct (Z.ltb_spec z 9223372036854775808); lia.
  - rewrite <- (Z.mod_add z 1) by lia. rewrite Z.mod_small by lia.
    destruct (Z.ltb_spec (z + 1 * 18446744073709551616) 9223372036854775808); lia.
Qed.

(** ** Lists indexed by [usize]

    Positions and lengths are [Z]; a slice is only taken after the source's
    bounds test, so the conversion to [nat] never meets a large number. *)

Definition zlen {A} (l : list A) : Z := Z.of_nat (length l).
Definition ztake {A} (n : Z) (l : list A) : list A := take (Z.to_nat n) l.
Definition zdrop {A} (n : Z) (l : list A) : list A := drop (Z.to_nat n) l.
(** [&l[a..b]] *)
Definition zslice {A} (a b : Z) (l : list A) : list A := ztake (b - a) (zdrop a l).

Create Rewrite HintDb zlen.

Lemma zlen_nil {A} : zlen (@nil A) = 0.
Proof. done. Qed.

Lemma zlen_cons {A} (x : A) l : zlen (x :: l) = 1 + zlen l.
Proof. unfold zlen. simpl. lia. Qed.

Lemma zlen_app {A} (l k : list A) : zlen (l ++ k) = zlen l + zlen k.
Proof. unfold zlen. rewrite length_app. lia. Qed.

Lemma zlen_nonneg {A} (l : list A) : 0 ≤ zlen l.
Proof. unfold zlen. lia. Qed.

Lemma zlen_ztake {A} n (l : list A) : 0 ≤ n ≤ zlen l → zlen (ztake n l) = n.
Proof. unfold zlen, ztake. rewrite length_take. lia. Qed.

Lemma zlen_zdrop {A} n (l : list A) : 0 ≤ n ≤ zlen l → zlen (zdrop n l) = zlen l - n.
Proof. unfold zlen, zdrop. rewrite length_drop. lia. Qed.

Lemma zlen_replicate {A} n (x : A) : zlen (replicate n x) = Z.of_nat n.
Proof. unfold zlen. by rewrite length_replicate. Qed.

Lemma zlen_map {A B} (f : A → B) l : zlen (map f l) = zlen l.
Proof. unfold zlen. by rewrite length_map. Qed.

Lemma filter_all {A} (P : A → Prop) `{∀ x, Decision (P x)} (l : list A) :
  Forall P l → filter P l = l.
Proof. induction 1 as [|x l Hx HF IH]; [done|]. by rewrite filter_cons_True, IH. Qed.

Lemma zlen_0_nil {A} (l : list A) : zlen l = 0 → l = [].
Proof. destruct l; [done|]. rewrite zlen_cons. pose proof (zlen_nonneg l). lia. Qed.

#[export] Hint Rewrite @zlen_nil @zlen_cons @zlen_app @zlen_replicate @zlen_map : zlen.

(** Solves arithmetic goals about list lengths. *)
Ltac zlen_facts :=
  repeat match goal with
  | |- context [zlen ?l] =>
      lazymatch goal with
      | _ : 0 ≤ zlen l |- _ => fail
      | _ => pose proof (zlen_nonneg l)
      end
  | _ : context [zlen ?l] |- _ =>
      lazymatch goal with
      | _ : 0 ≤ zlen l |- _ => fail
      | _ => pose proof (zlen_nonneg l)
      end
  end.
Ltac zlen_lia := autorewrite with zlen in *; zlen_facts; lia.

Lemma ztake_0 {A} (l : list A) : ztake 0 l = [].
Proof. done. Qed.

Lemma zdrop_0 {A} (l : list A) : zdrop 0 l = l.
Proof. done. Qed.

Lemma ztake_app_exact {A} n (l k : list A) : n = zlen l → ztake n (l ++ k) = l.
Proof. intros ->. unfold ztake, zlen. rewrite Nat2Z.id. apply take_app_length. Qed.

Lemma zdrop_app_exact {A} n (l k : list A) : n = zlen l → zdrop n (l ++ k) = k.
Proof. intros ->. unfold zdrop, zlen. rewrite Nat2Z.id. apply drop_app_length. Qed.

Lemma ztake_app_le {A} n (l k : list A) : n ≤ zlen l → ztake n (l ++ k) = ztake n l.
Proof. intros ?. unfold ztake, zlen in *. apply take_app_le. lia. Qed.

Lemma zdrop_app_le {A} n (l k : list A) : n ≤ zlen l → zdrop n (l ++ k) = zdrop n l ++ k.
Proof. intros ?. unfold zdrop, zlen in *. apply drop_app_le. lia. Qed.

Lemma zdrop_app_ge {A} n (l k : list A) : zlen l ≤ n → zdrop n (l ++ k) = zdrop (n - zlen l) k.
Proof.
  intros ?. unfold zdrop, zlen in *. rewrite drop_app_ge by lia. f_equal. lia.
Qed.

Lemma zdrop_zdrop {A} a b (l : list A) : 0 ≤ a → 0 ≤ b → zdrop a (zdrop b l) = zdrop (b + a) l.
Proof. intros. unfold zdrop. rewrite drop_drop. f_equal. lia. Qed.

Lemma ztake_ge {A} n (l : list A) : zlen l ≤ n → ztake n l = l.
Proof. intros ?. unfold ztake, zlen in *. apply take_ge. lia. Qed.

Lemma zdrop_ge {A} n (l : list A) : zlen l ≤ n → zdrop n l = [].
Proof. intros ?. unfold zdrop, zlen in *. apply drop_ge. lia. Qed.

Lemma ztake_zdrop {A} n (l : list A) : ztake n l ++ zdrop n l = l.
Proof. apply take_drop. Qed.

Lemma zlen_zslice {A} a b (l : list A) : 0 ≤ a ≤ b → b ≤ zlen l → zlen (zslice a b l) = b - a.
Proof. intros. unfold zslice. rewrite zlen_ztake; [done|]. rewrite zlen_zdrop; lia. Qed.

(** ** Proof automation shared by the components *)

(** Case analysis on a boolean, through the specification of the integer
    comparisons. *)
Ltac destruct_bool c :=
  lazymatch c with
  | Z.eqb ?a ?b => destruct (Z.eqb_spec a b)
  | Z.ltb ?a ?b => destruct (Z.ltb_spec a b)
  | Z.leb ?a ?b => destruct (Z.leb_spec a b)
  | negb ?c => destruct_bool c; cbn [negb]
  | ?c && ?d => destruct_bool c; cbn [andb]
  | ?c || ?d => destruct_bool c; cbn [orb]
  | _ => destruct c eqn:?
  end.

(** Splits a conditional of the goal, of a hypothesis. *)
Ltac case_if :=
  match goal with |- context [if ?c then _ else _] => destruct_bool c end.
Ltac case_if_in H :=
  match type of H with context [if ?c then _ else _] => destruct_bool c end.

(** Decides an equation between integer comparisons. *)
Ltac zb_eq :=
  repeat match goal with
  | |- context [Z.eqb ?a ?b] => destruct (Z.eqb_spec a b)
  | |- context [Z.ltb ?a ?b] => destruct (Z.ltb_spec a b)
  | |- context [Z.leb ?a ?b] => destruct (Z.leb_spec a b)
  end; (lia || done).

(** Rewrites boolean comparisons that arithmetic decides. *)
Lemma Zltb_true a b : a < b → (a <? b) = true.
Proof. by intros ?%Z.ltb_lt. Qed.
Lemma Zltb_false a b : b ≤ a → (a <? b) = false.
Proof. by intros ?%Z.ltb_ge. Qed.
Lemma Zleb_true a b : a ≤ b → (a <=? b) = true.
Proof. by intros ?%Z.leb_le. Qed.
Lemma Zleb_false a b : b < a → (a <=? b) = false.
Proof. by intros ?%Z.leb_gt. Qed.
Lemma Zeqb_true (a b : Z) : a = b → (a =? b) = true.
Proof. by intros ?%Z.eqb_eq. Qed.
Lemma Zeqb_false (a b : Z) : a ≠ b → (a =? b) = false.
Proof. by intros ?%Z.eqb_neq. Qed.

(** ** Iteration orders

    [HashMap] and [read_dir] list their entries in an order the program
    cannot know.  Operations that iterate take such an order as an instance. *)

Class IterOrder := {
  reorder : ∀ {A}, list A → list A;
  reorder_perm : ∀ {A} (l : list A), reorder l ≡ₚ l;
}.

Definition order_id : IterOrder := {| reorder := λ _ l, l; reorder_perm := λ _ l, Permutation_refl l |}.
Definition order_rev : IterOrder :=
  {| reorder := λ _ l, rev l; reorder_perm := λ _ l, Permutation_sym (Permutation_rev l) |}.

Lemma elem_of_reorder `{IterOrder} {A} (l : list A) x : x ∈ reorder l ↔ x ∈ l.
Proof. by rewrite reorder_perm. Qed.

(** ** Maps rebuilt from their entries *)

Lemma foldl_insert_map {K V} `{Countable K} (l : list (K * V)) (m : gmap K V) :
  l ≡ₚ map_to_list m → foldl (λ m '(k, v), <[k := v]> m) ∅ l = m.
Proof.
  intros E. assert (Hf : ∀ l (acc : gmap K V), NoDup l.*1 → (∀ k, k ∈ l.*1 → acc !! k = None) →
    foldl (λ m '(k, v), <[k := v]> m) acc l = list_to_map l ∪ acc).
  { clear. induction l as [|[k v] l IH]; intros acc Hnd Ha; cbn; [by rewrite (left_id_L ∅ (∪))|].
    cbn in Hnd. apply NoDup_cons in Hnd as [Hk Hnd]. rewrite IH; [|done|].
    - rewrite <- insert_union_r by by apply not_elem_of_list_to_map_1. by rewrite insert_union_l.
    - intros k' Hk'. rewrite lookup_insert_ne by (intros ->; done). apply Ha. by right. }
  assert (Hnd : NoDup l.*1) by (rewrite E; apply NoDup_fst_map_to_list).
  rewrite Hf by done. rewrite (right_id_L ∅ (∪)).
  rewrite (list_to_map_proper l (map_to_list m)) by done. apply list_to_map_to_list.
Qed.

(** Entries taken out of a map in another form and in another order. *)
Lemma rebuild_map {K A V} `{Countable K} (key : A → K) (val : A → V) (m : gmap K V) (l : list A) :
  map (λ x, (key x, val x)) l ≡ₚ map_to_list m → foldl (λ m x, <[key x := val x]> m) ∅ l = m.
Proof.
  intros Hp. rewrite <- (foldl_insert_map _ m Hp). generalize (∅ : gmap K V). clear Hp.
  induction l as [|x l IH]; intros m0; [done|]. apply IH.
Qed.
