(* ===== verification/Bytes.v ===== *)
(** * Byte strings

    Fixed-width integers as bytes ([to_le_bytes], [from_le_bytes], the
    big-endian accessors of [bytes::{Buf, BufMut}]), UTF-8 validity
    ([std::str::from_utf8]) and Rust strings as byte strings. *)

From S2P Require Import Prelude.
From Stdlib Require Import Strings.Byte.
From Stdlib Require Export Strings.Byte.

Abbreviation bytes := (list byte).

#[export] Instance byte_eq_dec : EqDecision byte := Byte.byte_eq_dec.

#[export] Program Instance byte_countable : Countable byte :=
  inj_countable Byte.to_N Byte.of_N _.
Next Obligation. intros b. apply Byte.of_to_N. Qed.

(** ** Bytes and integers *)

Definition byte_val (b : byte) : Z := Z.of_N (Byte.to_N b).

Definition byte_of (z : Z) : byte :=
  match Byte.of_N (Z.to_N (z mod 256)) with Some b => b | None => x00 end.

Fixpoint le_bytes (n : nat) (z : Z) : bytes :=
  match n with
  | O => []
  | S n => byte_of z :: le_bytes n (z / 256)
  end.

Fixpoint le_val (l : bytes) : Z :=
  match l with
  | [] => 0
  | b :: l => byte_val b + 256 * le_val l
  end.

Definition be_bytes (n : nat) (z : Z) : bytes := rev (le_bytes n z).
Definition be_val (l : bytes) : Z := le_val (rev l).

Definition u16_le (z : Z) : bytes := le_bytes 2 z.
Definition u32_le (z : Z) : bytes := le_bytes 4 z.
Definition u64_le (z : Z) : bytes := le_bytes 8 z.
Definition i64_le (z : Z) : bytes := le_bytes 8 z.

Lemma byte_val_range b : 0 ≤ byte_val b < 256.
Proof. unfold byte_val. pose proof (Byte.to_N_bounded b). lia. Qed.

Lemma byte_val_of z : byte_val (byte_of z) = z mod 256.
Proof.
  unfold byte_val, byte_of.
  pose proof (Z.mod_pos_bound z 256 ltac:(lia)).
  destruct (Byte.of_N (Z.to_N (z mod 256))) as [b|] eqn:E.
  - apply Byte.to_of_N in E. lia.
  - apply Byte.of_N_None_iff in E. lia.
Qed.

Lemma byte_of_val b : byte_of (byte_val b) = b.
Proof.
  unfold byte_of, byte_val. pose proof (Byte.to_N_bounded b).
  rewrite Z.mod_small by lia. rewrite N2Z.id. by rewrite Byte.of_to_N.
Qed.

Lemma byte_val_inj b1 b2 : byte_val b1 = byte_val b2 → b1 = b2.
Proof. intros H. by rewrite <- (byte_of_val b1), H, byte_of_val. Qed.

Lemma zlen_le_bytes n z : zlen (le_bytes n z) = Z.of_nat n.
Proof.
  revert z. induction n as [|n IH]; intros z; simpl; [done|].
  rewrite zlen_cons, IH. lia.
Qed.

Lemma zlen_be_bytes n z : zlen (be_bytes n z) = Z.of_nat n.
Proof. rewrite <- (zlen_le_bytes n z). unfold be_bytes, zlen. by rewrite length_rev. Qed.

Lemma le_val_range l : 0 ≤ le_val l < 256 ^ zlen l.
Proof.
  induction l as [|b l IH]; [done|]. rewrite zlen_cons. simpl.
  rewrite Z.pow_add_r by (zlen_facts; lia).
  pose proof (byte_val_range b). lia.
Qed.

Lemma le_val_bytes n z : le_val (le_bytes n z) = z mod 256 ^ Z.of_nat n.
Proof.
  revert z. induction n as [|n IH]; intros z; simpl le_bytes; simpl le_val.
  - by rewrite Z.mod_1_r.
  - rewrite byte_val_of, IH, Nat2Z.inj_succ, Z.pow_succ_r by lia.
    pose proof (Z.pow_pos_nonneg 256 (Z.of_nat n) ltac:(lia) ltac:(lia)).
    rewrite Z.rem_mul_r by lia. lia.
Qed.

Lemma le_bytes_val l : le_bytes (length l) (le_val l) = l.
Proof.
  induction l as [|b l IH]; simpl; [done|].
  pose proof (byte_val_range b).
  f_equal.
  - apply byte_val_inj. rewrite byte_val_of, (Z.mul_comm 256), Z.mod_add by lia.
    by apply Z.mod_small.
  - rewrite (Z.mul_comm 256), Z.div_add by lia.
    rewrite (Z.div_small (byte_val b)) by lia. apply IH.
Qed.

Lemma be_val_bytes n z : be_val (be_bytes n z) = z mod 256 ^ Z.of_nat n.
Proof. unfold be_val, be_bytes. by rewrite rev_involutive, le_val_bytes. Qed.

Lemma be_val_range l : 0 ≤ be_val l < 256 ^ zlen l.
Proof.
  unfold be_val. pose proof (le_val_range (rev l)) as H.
  unfold zlen in *. by rewrite length_rev in H.
Qed.

#[export] Hint Rewrite zlen_le_bytes zlen_be_bytes : zlen.

(** A value of the width is read back. *)
Lemma le_val_small n z : 0 ≤ z < 256 ^ Z.of_nat n → le_val (le_bytes n z) = z.
Proof. intros. rewrite le_val_bytes. by apply Z.mod_small. Qed.

Lemma be_val_small n z : 0 ≤ z < 256 ^ Z.of_nat n → be_val (be_bytes n z) = z.
Proof. intros. rewrite be_val_bytes. by apply Z.mod_small. Qed.

Lemma le_bytes_mod n z : le_bytes n (z mod 256 ^ Z.of_nat n) = le_bytes n z.
Proof.
  rewrite <- le_val_bytes.
  replace n with (length (le_bytes n z)) at 1.
  - apply le_bytes_val.
  - pose proof (zlen_le_bytes n z). unfold zlen in *. lia.
Qed.

Lemma i64_le_signed z : i64_min ≤ z ≤ i64_max → as_i64 (le_val (i64_le z)) = z.
Proof.
  intros Hz. unfold i64_le. rewrite le_val_bytes.
  rewrite <- (as_i64_small z Hz) at 2. unfold as_i64, signed.
  change (256 ^ Z.of_nat 8) with (2 ^ 64). by rewrite Z.mod_mod.
Qed.

(** ** UTF-8 validity (RFC 3629, as [std::str::from_utf8] checks it) *)

Definition in_range (lo hi : Z) (b : byte) : bool := (lo <=? byte_val b) && (byte_val b <=? hi).

Fixpoint utf8_valid (l : bytes) : bool :=
  match l with
  | [] => true
  | b0 :: l1 =>
    if in_range 0 127 b0 then utf8_valid l1 else
    match l1 with
    | [] => false
    | b1 :: l2 =>
      if in_range 194 223 b0 then in_range 128 191 b1 && utf8_valid l2 else
      match l2 with
      | [] => false
      | b2 :: l3 =>
        let second :=
          if byte_val b0 =? 224 then in_range 160 191 b1
          else if byte_val b0 =? 237 then in_range 128 159 b1
          else in_range 128 191 b1 in
        if in_range 224 239 b0 then second && in_range 128 191 b2 && utf8_valid l3 else
        match l3 with
        | [] => false
        | b3 :: l4 =>
          let second :=
            if byte_val b0 =? 240 then in_range 144 191 b1
            else if byte_val b0 =? 244 then in_range 128 143 b1
            else in_range 128 191 b1 in
          if in_range 240 244 b0
          then second && in_range 128 191 b2 && in_range 128 191 b3 && utf8_valid l4
          else false
        end
      end
    end
  end.

(** ** Rust strings

    A [String] is a [string] whose bytes are valid UTF-8. *)

Definition as_bytes (s : string) : bytes := String.list_byte_of_string s.
Definition of_bytes (l : bytes) : string := String.string_of_list_byte l.
Definition str_len (s : string) : Z := zlen (as_bytes s).
Definition str_valid (s : string) : bool := utf8_valid (as_bytes s).

Definition from_utf8 (l : bytes) : option string :=
  if utf8_valid l then Some (of_bytes l) else None.

Lemma of_as_bytes s : of_bytes (as_bytes s) = s.
Proof. apply String.string_of_list_byte_of_string. Qed.

Lemma as_of_bytes l : as_bytes (of_bytes l) = l.
Proof. apply String.list_byte_of_string_of_list_byte. Qed.

Lemma from_utf8_as_bytes s : str_valid s = true → from_utf8 (as_bytes s) = Some s.
Proof. unfold from_utf8, str_valid. intros ->. by rewrite of_as_bytes. Qed.

Lemma from_utf8_valid l s : from_utf8 l = Some s → str_valid s = true ∧ as_bytes s = l.
Proof.
  unfold from_utf8, str_valid. destruct (utf8_valid l) eqn:E; [|done].
  intros [= <-]. by rewrite as_of_bytes.
Qed.

(** [String::from_utf8_lossy]: each maximal invalid part becomes U+FFFD. *)
Definition replacement : bytes := [xef; xbf; xbd].

Definition is_cont (b : byte) : bool := in_range 128 191 b.
Definition second_of_3 (b0 b1 : byte) : bool :=
  if byte_val b0 =? 224 then in_range 160 191 b1
  else if byte_val b0 =? 237 then in_range 128 159 b1
  else in_range 128 191 b1.
Definition second_of_4 (b0 b1 : byte) : bool :=
  if byte_val b0 =? 240 then in_range 144 191 b1
  else if byte_val b0 =? 244 then in_range 128 143 b1
  else in_range 128 191 b1.

Fixpoint utf8_lossy (l : bytes) : bytes :=
  match l with
  | [] => []
  | b0 :: l1 =>
    if in_range 0 127 b0 then b0 :: utf8_lossy l1
    else if in_range 194 223 b0 then
      match l1 with
      | b1 :: l2 => if is_cont b1 then b0 :: b1 :: utf8_lossy l2 else replacement ++ utf8_lossy l1
      | [] => replacement
      end
    else if in_range 224 239 b0 then
      match l1 with
      | b1 :: l2 =>
        if second_of_3 b0 b1 then
          match l2 with
          | b2 :: l3 =>
            if is_cont b2 then b0 :: b1 :: b2 :: utf8_lossy l3 else replacement ++ utf8_lossy l2
          | [] => replacement
          end
        else replacement ++ utf8_lossy l1
      | [] => replacement
      end
    else if in_range 240 244 b0 then
      match l1 with
      | b1 :: l2 =>
        if second_of_4 b0 b1 then
          match l2 with
          | b2 :: l3 =>
            if is_cont b2 then
              match l3 with
              | b3 :: l4 =>
                if is_cont b3 then b0 :: b1 :: b2 :: b3 :: utf8_lossy l4
                else replacement ++ utf8_lossy l3
              | [] => replacement
              end
            else replacement ++ utf8_lossy l2
          | [] => replacement
          end
        else replacement ++ utf8_lossy l1
      | [] => replacement
      end
    else replacement ++ utf8_lossy l1
  end.

Definition from_utf8_lossy (l : bytes) : string := of_bytes (utf8_lossy l).

Lemma utf8_lossy_valid l : utf8_valid l = true → utf8_lossy l = l.
Proof.
  remember (length l) as n eqn:Hn. assert (Hle : (length l ≤ n)%nat) by lia. clear Hn. revert l Hle.
  induction n as [|n IH]; intros l Hle Hv; [by destruct l; [|cbn in Hle; lia]|].
  destruct l as [|b0 l1]; [done|]. cbn [utf8_valid utf8_lossy] in *.
  destruct (in_range 0 127 b0); [f_equal; apply IH; [cbn in Hle; lia|done]|].
  destruct l1 as [|b1 l2]; [done|].
  destruct (in_range 194 223 b0).
  { apply andb_prop in Hv as [Hc Hv]. unfold is_cont. rewrite Hc. do 2 f_equal.
    apply IH; [cbn in Hle; lia|done]. }
  destruct l2 as [|b2 l3]; [done|]. destruct (in_range 224 239 b0).
  { apply andb_prop in Hv as [[H1 H2]%andb_prop Hv]. unfold second_of_3, is_cont. rewrite H1, H2.
    do 3 f_equal. apply IH; [cbn in Hle; lia|done]. }
  destruct l3 as [|b3 l4]; [done|]. destruct (in_range 240 244 b0); [|done].
  apply andb_prop in Hv as [[[H1 H2]%andb_prop H3]%andb_prop Hv].
  unfold second_of_4, is_cont. rewrite H1, H2, H3. do 4 f_equal. apply IH; [cbn in Hle; lia|done].
Qed.

Lemma from_utf8_lossy_as_bytes s : str_valid s = true → from_utf8_lossy (as_bytes s) = s.
Proof. intros Hv. unfold from_utf8_lossy. by rewrite utf8_lossy_valid, of_as_bytes. Qed.

(** ** The checksum of the [crc32fast] crate

    [crc32fast::hash] is code outside the repository: it is an operation of
    this interface, of which the source relies only on its result being a
    [u32].  Determinism is that of a function. *)

Class Crc32 := {
  crc32_hash : bytes → Z;
  crc32_range : ∀ l, 0 ≤ crc32_hash l < 4294967296;
}.

(** A checksum used to evaluate the definitions on concrete inputs. *)
Definition sum32 (l : bytes) : Z := as_u32 (foldr (λ b acc, as_u32 (byte_val b + 31 * acc)) 7 l).

Lemma sum32_range l : 0 ≤ sum32 l < 4294967296.
Proof. by apply Z.mod_pos_bound. Qed.

Definition crc_sum32 : Crc32 := {| crc32_hash := sum32; crc32_range := sum32_range |}.

#[global] Arguments le_bytes : simpl never.
#[global] Arguments le_val : simpl never.
#[global] Arguments be_bytes : simpl never.
#[global] Arguments be_val : simpl never.
#[global] Arguments u16_le : simpl never.
#[global] Arguments u32_le : simpl never.
#[global] Arguments u64_le : simpl never.
#[global] Arguments i64_le : simpl never.
