(* ===== verification/Core.v ===== *)
(** * Shared types: the [volant-core] crate

    Offsets, messages and log records ([offset.rs], [message.rs]).  Strings
    and byte buffers are immutable values here, as [Bytes] is. *)

From S2P Require Import Prelude Bytes.

(** An [Offset] is a [u64]; [Offset::next] saturates. *)
Definition offset_next (o : Z) : Z := u64_saturating_add o 1.

Record LogRecord := mkLogRecord {
  rec_offset : Z;
  rec_key : option bytes;
  rec_value : bytes;
  rec_timestamp_ms : Z;
  rec_headers : list (string * bytes);
}.

Record Message := mkMessage {
  msg_key : option bytes;
  msg_value : bytes;
  msg_timestamp_ms : option Z;
  msg_headers : list (string * bytes);
}.

Definition from_value (v : bytes) : Message := mkMessage None v None [].
Definition with_key (k v : bytes) : Message := mkMessage (Some k) v None [].

(** The record the log stores for a message: the three places of the storage
    crate that rebuild one from the other use these field-by-field copies. *)
Definition record_of (off ts : Z) (m : Message) : LogRecord :=
  mkLogRecord off (msg_key m) (msg_value m) ts (msg_headers m).
Definition message_of (r : LogRecord) : Message :=
  mkMessage (rec_key r) (rec_value r) (Some (rec_timestamp_ms r)) (rec_headers r).

#[export] Instance LogRecord_eq_dec : EqDecision LogRecord.
Proof. solve_decision. Defined.
#[export] Instance Message_eq_dec : EqDecision Message.
Proof. solve_decision. Defined.

Lemma record_of_message_of r : record_of (rec_offset r) (rec_timestamp_ms r) (message_of r) = r.
Proof. by destruct r. Qed.

Lemma offset_next_small o : 0 ≤ o < u64_max → offset_next o = o + 1.
Proof. unfold offset_next, u64_saturating_add. lia. Qed.

Lemma offset_next_gt o : 0 ≤ o < u64_max → o < offset_next o.
Proof. intros. rewrite offset_next_small; lia. Qed.
