(* ===== verification/Wire.v ===== *)
(** * Wire encoding: the helpers of [volant-protocol/src/payload.rs]

    A payload is written by appending to a buffer and read from a cursor
    ([bytes::{BufMut, Buf}]).  A writer is the [result] of the bytes it
    appends; a reader takes the bytes that remain and returns a value and the
    rest, an error, or [Panic]: [Buf::get_*] and [copy_to_slice] panic when
    fewer bytes remain than they take.  The second half of the file is the
    proof method of the codecs: a weakest precondition for readers, which
    tracks the bytes known to remain, and the [Codec] interface, a writer and
    the reader that undoes it. *)

From Stdlib Require Import Strings.String.
From S2P Require Import Prelude Bytes.
#[local] Open Scope Z_scope.

(** ** Integer types *)

Definition is_u8 (v : Z) : bool := (0 <=? v) && (v <? 256).
Definition is_u16 (v : Z) : bool := (0 <=? v) && (v <? 65536).
Definition is_u32 (v : Z) : bool := (0 <=? v) && (v <? 4294967296).
Definition is_u64 (v : Z) : bool := (0 <=? v) && (v <? 18446744073709551616).
Definition is_i16 (v : Z) : bool := (-32768 <=? v) && (v <? 32768).
Definition is_i32 (v : Z) : bool := (-2147483648 <=? v) && (v <? 2147483648).
Definition is_i64 (v : Z) : bool := (i64_min <=? v) && (v <=? i64_max).

(** ** Readers *)

Inductive outcome (A : Type) : Type :=
| Got (a : A) (src : bytes)
| Bad (e : Error)
| Panic.
Arguments Got {A} a src.
Arguments Bad {A} e.
Arguments Panic {A}.

Definition reader (A : Type) : Type := bytes → outcome A.

#[export] Instance reader_ret : MRet reader := λ A a src, Got a src.
#[export] Instance reader_bind : MBind reader := λ A B f m src,
  match m src with
  | Got a src => f a src
  | Bad e => Bad e
  | Panic => Panic
  end.

(** [src.remaining()] *)
Definition remaining : reader Z := λ src, Got (zlen src) src.

(** [if src.remaining() < n { return Err(Error::Protocol(msg)) }] *)
Definition need (n : Z) (msg : string) : reader unit := λ src,
  if zlen src <? n then Bad (Protocol msg) else Got tt src.

(** [return Err(Error::Protocol(msg))] *)
Definition fail {A} (msg : string) : reader A := λ _, Bad (Protocol msg).

Definition get_slice (n : Z) : reader bytes := λ src,
  if zlen src <? n then Panic else Got (ztake n src) (zdrop n src).

Definition get_le (n : Z) : reader Z := b ← get_slice n; mret (le_val b).

Definition get_u8 : reader Z := get_le 1.
Definition get_u16_le : reader Z := get_le 2.
Definition get_u32_le : reader Z := get_le 4.
Definition get_u64_le : reader Z := get_le 8.
Definition get_i16_le : reader Z := v ← get_le 2; mret (signed 16 v).
Definition get_i32_le : reader Z := v ← get_le 4; mret (signed 32 v).
Definition get_i64_le : reader Z := v ← get_le 8; mret (signed 64 v).

Definition get_bool : reader bool := v ← get_u8; mret (negb (v =? 0)).

(** [if src.remaining() >= n { g } else { d }] *)
Definition when_remaining {A} (n : Z) (g : reader A) (d : A) : reader A :=
  rem ← remaining; if n <=? rem then g else mret d.

(** [for _ in 0..n { v.push(item?) }]: by halves, so that a reader that fails
    stops at once whatever the count. *)
Fixpoint times_pos {A} (n : positive) (item : reader A) : reader (list A) :=
  match n with
  | xH => x ← item; mret [x]
  | xO n => xs ← times_pos n item; ys ← times_pos n item; mret (xs ++ ys)
  | xI n => x ← item; xs ← times_pos n item; ys ← times_pos n item; mret (x :: xs ++ ys)
  end.

Definition times {A} (n : Z) (item : reader A) : reader (list A) :=
  match n with
  | Zpos n => times_pos n item
  | _ => mret []
  end.

(** ** Writers *)

Definition seq_put (a b : result bytes) : result bytes :=
  let? x := a in let? y := b in Ok (x ++ y).

Infix "⊕" := seq_put (at level 60, right associativity) : volant_scope.

Definition put_u8 (v : Z) : result bytes := Ok (le_bytes 1 v).
Definition put_u16_le (v : Z) : result bytes := Ok (le_bytes 2 v).
Definition put_u32_le (v : Z) : result bytes := Ok (le_bytes 4 v).
Definition put_u64_le (v : Z) : result bytes := Ok (le_bytes 8 v).
Definition put_i16_le (v : Z) : result bytes := Ok (le_bytes 2 v).
Definition put_i32_le (v : Z) : result bytes := Ok (le_bytes 4 v).
Definition put_i64_le (v : Z) : result bytes := Ok (le_bytes 8 v).
Definition put_bool (b : bool) : result bytes := put_u8 (if b then 1 else 0).
Definition put_nothing : result bytes := Ok [].

(** [for x in xs { item(x)?; }] *)
Fixpoint put_each {A} (item : A → result bytes) (xs : list A) : result bytes :=
  match xs with
  | [] => Ok []
  | x :: xs => item x ⊕ put_each item xs
  end.

(** [dst.put_u32_le(xs.len() as u32); for x in &xs { .. }] *)
Definition put_vec {A} (item : A → result bytes) (xs : list A) : result bytes :=
  put_u32_le (as_u32 (zlen xs)) ⊕ put_each item xs.

(** ** Strings and byte strings *)

Definition MAX_PAYLOAD : Z := 16 * 1024 * 1024.

Definition put_string (s : string) : result bytes :=
  if u16_max <? str_len s then Err (Protocol "string too long") else
  put_u16_le (as_u16 (str_len s)) ⊕ Ok (as_bytes s).

Definition get_string : reader string :=
  need 2 "truncated string length";;
  len ← get_u16_le;
  need len "truncated string body";;
  buf ← get_slice len;
  match from_utf8 buf with
  | Some s => mret s
  | None => fail "invalid utf-8"
  end.

Definition put_bytes (b : bytes) : result bytes := put_u32_le (as_u32 (zlen b)) ⊕ Ok b.

Definition put_optional_bytes (b : option bytes) : result bytes :=
  match b with
  | None => put_u32_le u32_max
  | Some v => put_bytes v
  end.

Definition get_bytes : reader bytes :=
  need 4 "truncated bytes length";;
  len ← get_u32_le;
  if len =? u32_max then fail "unexpected optional null in required bytes" else
  need len "truncated bytes body";;
  get_slice len.

Definition get_optional_bytes : reader (option bytes) :=
  need 4 "truncated optional bytes length";;
  len ← get_u32_le;
  if len =? u32_max then mret None else
  need len "truncated optional bytes body";;
  buf ← get_slice len;
  mret (Some buf).

Definition put_header (h : string * bytes) : result bytes := put_string h.1 ⊕ put_bytes h.2.
Definition put_headers (headers : list (string * bytes)) : result bytes := put_vec put_header headers.

Definition get_header : reader (string * bytes) :=
  name ← get_string; value ← get_bytes; mret (name, value).

Definition get_headers : reader (list (string * bytes)) :=
  need 4 "truncated header count";;
  count ← get_u32_le;
  times count get_header.

(** [put_string(k)?; put_string(v)?] of the configuration lists. *)
Definition put_pair (kv : string * string) : result bytes := put_string kv.1 ⊕ put_string kv.2.
Definition get_pair : reader (string * string) :=
  k ← get_string; v ← get_string; mret (k, v).

Definition finish_payload (dst : bytes) : result bytes :=
  if MAX_PAYLOAD <? zlen dst then Err (Protocol "payload too large") else Ok dst.

#[global] Arguments seq_put : simpl never.
#[global] Arguments put_each {A} item xs : simpl never.
#[global] Arguments put_vec {A} item xs : simpl never.
#[global] Arguments put_string : simpl never.
#[global] Arguments put_bytes : simpl never.
#[global] Arguments put_optional_bytes : simpl never.
#[global] Arguments put_headers : simpl never.
#[global] Arguments put_pair : simpl never.
#[global] Arguments str_valid : simpl never.
#[global] Arguments is_u8 : simpl never.
#[global] Arguments is_u16 : simpl never.
#[global] Arguments is_u32 : simpl never.
#[global] Arguments is_u64 : simpl never.
#[global] Arguments is_i16 : simpl never.
#[global] Arguments is_i32 : simpl never.
#[global] Arguments is_i64 : simpl never.
