(* ===== verification/WireLogic.v ===== *)
(** * Reasoning about wire codecs

    [times] against its recursive reference; a weakest precondition for
    readers, which shows that a reader never panics and what it returns; and
    the [Codec] interface with its instances for strings, byte strings,
    headers and integers. *)

From Stdlib Require Import Strings.String.
From S2P Require Import Prelude Bytes Wire.
#[local] Open Scope Z_scope.

(** ** The monad *)

Lemma bind_unfold {A B} (m : reader A) (f : A → reader B) src :
  (m ≫= f) src = match m src with Got a src => f a src | Bad e => Bad e | Panic => Panic end.
Proof. done. Qed.

Lemma bind_got {A B} (m : reader A) (f : A → reader B) src a rest :
  m src = Got a rest → (m ≫= f) src = f a rest.
Proof. intros E. by rewrite bind_unfold, E. Qed.

Lemma bind_assoc {A B C} (m : reader A) (f : A → reader B) (g : B → reader C) src :
  ((m ≫= f) ≫= g) src = (m ≫= λ x, f x ≫= g) src.
Proof. rewrite !bind_unfold. by destruct (m src). Qed.

Lemma bind_ret {A B} (a : A) (f : A → reader B) src : (mret a ≫= f) src = f a src.
Proof. done. Qed.

Lemma bind_ext {A B} (m : reader A) (f g : A → reader B) src :
  (∀ a src, f a src = g a src) → (m ≫= f) src = (m ≫= g) src.
Proof. intros E. rewrite !bind_unfold. by destruct (m src). Qed.

(** ** [times] *)

Fixpoint times_nat {A} (n : nat) (item : reader A) : reader (list A) :=
  match n with
  | O => mret []
  | S n => x ← item; xs ← times_nat n item; mret (x :: xs)
  end.

Lemma times_nat_add {A} n m (item : reader A) src :
  times_nat (n + m) item src =
  (xs ← times_nat n item; ys ← times_nat m item; mret (xs ++ ys)) src.
Proof.
  revert src. induction n as [|n IH]; intros src; cbn [times_nat Nat.add].
  - rewrite bind_ret, bind_unfold. by destruct (times_nat m item src).
  - rewrite bind_assoc. apply bind_ext. intros x src'. rewrite bind_assoc.
    rewrite bind_unfold, IH, !bind_unfold.
    destruct (times_nat n item src'); [|done..].
    rewrite bind_unfold, bind_ret, bind_unfold. by destruct (times_nat m item src0).
Qed.

Lemma times_pos_nat {A} n (item : reader A) src :
  times_pos n item src = times_nat (Pos.to_nat n) item src.
Proof.
  revert src. induction n as [n IH|n IH|]; intros src; cbn [times_pos].
  - replace (Pos.to_nat n~1) with (S (Pos.to_nat n + Pos.to_nat n)) by lia.
    cbn [times_nat]. apply bind_ext. intros x src'.
    rewrite bind_unfold, IH, (bind_unfold _ _ src'), times_nat_add, bind_unfold.
    destruct (times_nat (Pos.to_nat n) item src') as [xs s| |]; [|done..].
    rewrite !bind_unfold, IH. by destruct (times_nat (Pos.to_nat n) item s).
  - replace (Pos.to_nat n~0) with (Pos.to_nat n + Pos.to_nat n)%nat by lia.
    rewrite times_nat_add, bind_unfold, IH, bind_unfold.
    destruct (times_nat (Pos.to_nat n) item src) as [xs s| |]; [|done..].
    rewrite !bind_unfold, IH. by destruct (times_nat (Pos.to_nat n) item s).
  - change (Pos.to_nat 1) with 1%nat. cbn [times_nat].
    rewrite !bind_unfold. by destruct (item src).
Qed.

(** The loop over [0..n] reads [n] items one after the other. *)
Lemma times_eq {A} n (item : reader A) src : times n item src = times_nat (Z.to_nat n) item src.
Proof. destruct n as [|n|n]; [done| |done]. apply times_pos_nat. Qed.

(** ** Weakest preconditions

    [wp k g Q]: started with at least [k] bytes, [g] does not panic, and if
    it returns [a] then [Q a k'] for some [k'] of bytes that still remain. *)

Definition wp {A} (k : Z) (g : reader A) (Q : A → Z → Prop) : Prop :=
  ∀ src, k ≤ zlen src →
  match g src with
  | Got a rest => ∃ k', k' ≤ zlen rest ∧ Q a k'
  | Bad _ => True
  | Panic => False
  end.

Section wp.
Context {A : Type}.
Implicit Types (g : reader A) (Q : A → Z → Prop).

Lemma wp_weaken k k' g Q R : k' ≤ k → (∀ a j, Q a j → R a j) → wp k' g Q → wp k g R.
Proof.
  intros Hk HQ H src Hs. specialize (H src ltac:(lia)). destruct (g src) as [a rest| |]; [|done..].
  destruct H as (j & Hj & Ha). eauto.
Qed.

Lemma wp_ret k a Q : Q a k → wp k (mret a) Q.
Proof. intros H src Hs. exists k. done. Qed.

Lemma wp_bind {B} k (m : reader B) (f : B → reader A) Q :
  wp k m (λ b j, wp j (f b) Q) → wp k (m ≫= f) Q.
Proof.
  intros H src Hs. rewrite bind_unfold. specialize (H src Hs).
  destruct (m src) as [b rest| |]; [|done..]. destruct H as (j & Hj & Hf). by apply Hf.
Qed.

Lemma wp_fail k msg Q : wp k (fail msg) Q.
Proof. by intros src Hs. Qed.

Lemma wp_if k (b : bool) g1 g2 Q : wp k g1 Q → wp k g2 Q → wp k (if b then g1 else g2) Q.
Proof. by destruct b. Qed.

End wp.

Lemma wp_need k n msg Q : (∀ j, k ≤ j → n ≤ j → Q tt j) → wp k (need n msg) Q.
Proof.
  intros HQ src Hs. unfold need. case_if; [done|]. exists (Z.max k n). split; [lia|].
  apply HQ; lia.
Qed.

(** The guards that count the integers to come. *)
Lemma sat_mul_4 n j : is_u32 n = true → u64_saturating_mul n 4 ≤ j → 4 * n ≤ j.
Proof. unfold u64_saturating_mul, u64_max, is_u32. lia. Qed.
Lemma sat_mul_4_add_4 n j :
  is_u32 n = true → u64_saturating_add (u64_saturating_mul n 4) 4 ≤ j → 4 * n + 4 ≤ j.
Proof. unfold u64_saturating_add, u64_saturating_mul, u64_max, is_u32. lia. Qed.

Lemma wp_need_u32s k n msg Q :
  is_u32 n = true → (∀ j, k ≤ j → 4 * n ≤ j → Q tt j) → wp k (need (u64_saturating_mul n 4) msg) Q.
Proof.
  intros Hn HQ. apply wp_need. intros j Hj Hs. apply HQ; [done|]. by apply sat_mul_4.
Qed.

Lemma wp_need_u32s_and_more k n msg Q :
  is_u32 n = true → (∀ j, k ≤ j → 4 * n + 4 ≤ j → Q tt j) →
  wp k (need (u64_saturating_add (u64_saturating_mul n 4) 4) msg) Q.
Proof.
  intros Hn HQ. apply wp_need. intros j Hj Hs. apply HQ; [done|]. by apply sat_mul_4_add_4.
Qed.

Lemma wp_remaining k Q : (∀ n, k ≤ n → Q n n) → wp k remaining Q.
Proof. intros HQ src Hs. exists (zlen src). auto with lia. Qed.

Lemma wp_get_slice k n Q :
  0 ≤ n ≤ k → (∀ b, zlen b = n → Q b (k - n)) → wp k (get_slice n) Q.
Proof.
  intros Hn HQ src Hs. unfold get_slice. case_if; [lia|]. exists (k - n).
  rewrite zlen_zdrop by lia. split; [lia|]. apply HQ, zlen_ztake. lia.
Qed.

Lemma wp_get_le k n Q :
  0 ≤ n ≤ k → (∀ v, 0 ≤ v < 256 ^ n → Q v (k - n)) → wp k (get_le n) Q.
Proof.
  intros Hn HQ. apply wp_bind, wp_get_slice; [done|]. intros b Hb. apply wp_ret, HQ.
  pose proof (le_val_range b). by rewrite Hb in *.
Qed.

Lemma signed_range w z : 0 < w → - 2 ^ (w - 1) ≤ signed w z < 2 ^ (w - 1).
Proof.
  intros Hw. unfold signed.
  assert (2 ^ w = 2 * 2 ^ (w - 1)) as E.
  { rewrite <- Z.pow_succ_r by lia. f_equal. lia. }
  pose proof (Z.mod_pos_bound z (2 ^ w)). pose proof (Z.pow_pos_nonneg 2 (w - 1)).
  case_if; lia.
Qed.

Lemma wp_get_signed k n w Q :
  0 ≤ n ≤ k → 0 < w → (∀ v, - 2 ^ (w - 1) ≤ v < 2 ^ (w - 1) → Q v (k - n)) →
  wp k (v ← get_le n; mret (signed w v)) Q.
Proof.
  intros Hn Hw HQ. apply wp_bind, wp_get_le; [done|]. intros v Hv. by apply wp_ret, HQ, signed_range.
Qed.

(** A loop whose items need nothing to be known about what remains. *)
Lemma wp_times {A} k n (item : reader A) (P : A → Prop) Q :
  wp 0 item (λ a j, P a ∧ 0 ≤ j) → (∀ xs, Forall P xs → Q xs 0) → wp k (times n item) Q.
Proof.
  intros Hi HQ src Hs. rewrite times_eq.
  cut (wp 0 (times_nat (Z.to_nat n) item) (λ xs j, Forall P xs ∧ 0 ≤ j)).
  { intros Hw. specialize (Hw src ltac:(zlen_facts; lia)).
    destruct (times_nat (Z.to_nat n) item src) as [xs rest| |]; [|done..].
    destruct Hw as (j & Hj & HP & ?). exists 0. split; [lia|]. auto. }
  clear src Hs. induction (Z.to_nat n) as [|m IH]; cbn [times_nat].
  - by apply wp_ret.
  - apply wp_bind. eapply wp_weaken, Hi; [done|]. intros a j [Ha Hj]. apply wp_bind.
    eapply wp_weaken, IH; [done|]. intros xs j' [Hxs Hj']. apply wp_ret. auto.
Qed.

(** A loop that reads integers the guard before it has counted. *)
Lemma wp_times_nat_le c m k :
  0 ≤ c → c * Z.of_nat m ≤ k →
  wp k (times_nat m (get_le c)) (λ xs j, Forall (λ v, 0 ≤ v < 256 ^ c) xs ∧ j = k - c * Z.of_nat m).
Proof.
  intros Hc. revert k. induction m as [|m IH]; intros k Hk; cbn [times_nat].
  - apply wp_ret. split; [done|lia].
  - apply wp_bind, wp_get_le; [nia|]. intros v Hv. apply wp_bind.
    eapply wp_weaken, IH; [done| |nia]. intros xs j [Hxs ->]. apply wp_ret.
    split; [by constructor|nia].
Qed.

Lemma wp_times_le k n c Q :
  0 ≤ c → 0 ≤ n → c * n ≤ k → (∀ xs, Forall (λ v, 0 ≤ v < 256 ^ c) xs → Q xs (k - c * n)) →
  wp k (times n (get_le c)) Q.
Proof.
  intros Hc Hn Hk HQ src Hs. rewrite times_eq.
  pose proof (wp_times_nat_le c (Z.to_nat n) k Hc) as Hw. rewrite Z2Nat.id in Hw by done.
  specialize (Hw Hk src Hs). destruct (times_nat (Z.to_nat n) (get_le c) src); [|done..].
  destruct Hw as (j & Hj & Hxs & ->). eauto.
Qed.

Lemma wp_get_u8 k Q : 1 ≤ k → (∀ v, is_u8 v = true → Q v (k - 1)) → wp k get_u8 Q.
Proof. intros Hk HQ. apply wp_get_le; [lia|]. intros v Hv. apply HQ. unfold is_u8. zb_eq. Qed.
Lemma wp_get_u16_le k Q : 2 ≤ k → (∀ v, is_u16 v = true → Q v (k - 2)) → wp k get_u16_le Q.
Proof. intros Hk HQ. apply wp_get_le; [lia|]. intros v Hv. apply HQ. unfold is_u16. zb_eq. Qed.
Lemma wp_get_u32_le k Q : 4 ≤ k → (∀ v, is_u32 v = true → Q v (k - 4)) → wp k get_u32_le Q.
Proof. intros Hk HQ. apply wp_get_le; [lia|]. intros v Hv. apply HQ. unfold is_u32. zb_eq. Qed.
Lemma wp_get_u64_le k Q : 8 ≤ k → (∀ v, is_u64 v = true → Q v (k - 8)) → wp k get_u64_le Q.
Proof. intros Hk HQ. apply wp_get_le; [lia|]. intros v Hv. apply HQ. unfold is_u64. zb_eq. Qed.
Lemma wp_get_i16_le k Q : 2 ≤ k → (∀ v, is_i16 v = true → Q v (k - 2)) → wp k get_i16_le Q.
Proof. intros Hk HQ. apply wp_get_signed; [lia..|]. intros v Hv. apply HQ. unfold is_i16. zb_eq. Qed.
Lemma wp_get_i32_le k Q : 4 ≤ k → (∀ v, is_i32 v = true → Q v (k - 4)) → wp k get_i32_le Q.
Proof. intros Hk HQ. apply wp_get_signed; [lia..|]. intros v Hv. apply HQ. unfold is_i32. zb_eq. Qed.
Lemma wp_get_i64_le k Q : 8 ≤ k → (∀ v, is_i64 v = true → Q v (k - 8)) → wp k get_i64_le Q.
Proof.
  intros Hk HQ. apply wp_get_signed; [lia..|]. intros v Hv. apply HQ.
  unfold is_i64, i64_min, i64_max. zb_eq.
Qed.

Lemma wp_times_u32 k n Q :
  is_u32 n = true → 4 * n ≤ k → (∀ xs, forallb is_u32 xs = true → Q xs (k - 4 * n)) →
  wp k (times n get_u32_le) Q.
Proof.
  intros Hn Hk HQ. apply wp_times_le; [lia|unfold is_u32 in Hn; lia|done|]. intros xs Hxs. apply HQ.
  apply forallb_forall. intros v Hv%list_elem_of_In. eapply Forall_forall in Hxs; [|done].
  unfold is_u32. zb_eq.
Qed.

Lemma wp_get_string k Q : (∀ s, str_valid s = true → Q s 0) → wp k get_string Q.
Proof.
  intros HQ. apply wp_bind, wp_need. intros j _ Hj. apply wp_bind, wp_get_u16_le; [lia|].
  intros len Hlen. apply wp_bind, wp_need. intros j' _ Hj'. apply wp_bind, wp_get_slice.
  { unfold is_u16 in Hlen. lia. }
  intros b Hb. destruct (from_utf8 b) as [s|] eqn:E; [|apply wp_fail].
  apply from_utf8_valid in E as [Hs _]. intros src Hsrc. exists 0. split; [zlen_facts; lia|]. auto.
Qed.

(** ** Codecs *)

Class Codec {A} (put : A → result bytes) (get : reader A) (ok : A → bool) : Prop := {
  codec_nonempty : ∀ x b, put x = Ok b → 1 ≤ zlen b;
  codec_reads : ∀ x b rest,
    ok x = true → put x = Ok b → zlen b ≤ MAX_PAYLOAD → get (b ++ rest) = Got x rest;
}.

(** A reader that never panics and returns values of its type. *)
Class SafeReader {A} (get : reader A) (ok : A → bool) : Prop :=
  reader_safe : wp 0 get (λ x j, ok x = true ∧ 0 ≤ j).

Lemma seq_put_inv a b c :
  a ⊕ b = Ok c → ∃ x y, a = Ok x ∧ b = Ok y ∧ c = x ++ y.
Proof.
  unfold seq_put. destruct a as [x|]; [|done]. destruct b as [y|]; [|done]. intros [= <-]. eauto.
Qed.

Section safe.
Context {A} {get : reader A} {ok : A → bool} `{!SafeReader get ok}.

Lemma wp_safe k Q : (∀ x, ok x = true → Q x 0) → wp k get Q.
Proof.
  intros HQ src Hs. pose proof (reader_safe src ltac:(zlen_facts; lia)) as Hw.
  destruct (get src) as [x rest| |]; [|done..]. destruct Hw as (j & Hj & Hx & ?).
  exists 0. split; [lia|]. auto.
Qed.

Lemma wp_vec k n Q : (∀ xs, forallb ok xs = true → Q xs 0) → wp k (times n get) Q.
Proof.
  intros HQ. apply (wp_times _ _ _ (λ x, ok x = true)); [apply reader_safe|].
  intros xs Hxs. apply HQ, forallb_forall. intros x Hx.
  by eapply Forall_forall in Hxs; [|apply list_elem_of_In].
Qed.

End safe.

Section codec.
Context {A} {put : A → result bytes} {get : reader A} {ok : A → bool} `{!Codec put get ok}.

Lemma put_each_length xs b : put_each put xs = Ok b → zlen xs ≤ zlen b.
Proof.
  revert b. induction xs as [|x xs IH]; intros b; cbn [put_each]; [intros [= <-]; done|].
  intros (b1 & b2 & H1 & H2 & ->)%seq_put_inv. apply codec_nonempty in H1. apply IH in H2. zlen_lia.
Qed.

Lemma times_reads xs b rest :
  forallb ok xs = true → put_each put xs = Ok b → zlen b ≤ MAX_PAYLOAD →
  times (zlen xs) get (b ++ rest) = Got xs rest.
Proof.
  rewrite times_eq. unfold zlen at 2. rewrite Nat2Z.id. revert b.
  induction xs as [|x xs IH]; intros b; cbn [put_each forallb times_nat length].
  - by intros _ [= <-].
  - intros [Hx Hxs]%andb_prop (b1 & b2 & H1 & H2 & ->)%seq_put_inv Hb.
    assert (zlen b1 ≤ MAX_PAYLOAD ∧ zlen b2 ≤ MAX_PAYLOAD) as [??] by zlen_lia.
    rewrite <- app_assoc, (bind_got _ _ _ x (b2 ++ rest)) by by apply codec_reads.
    by rewrite (bind_got _ _ _ xs rest) by auto.
Qed.

Lemma rd_codec {B} x b rest (f : A → reader B) :
  ok x = true → put x = Ok b → zlen b ≤ MAX_PAYLOAD → (get ≫= f) (b ++ rest) = f x rest.
Proof. intros. by apply bind_got, codec_reads. Qed.

Lemma rd_vec {B} xs b rest (f : list A → reader B) :
  forallb ok xs = true → put_each put xs = Ok b → zlen b ≤ MAX_PAYLOAD →
  (times (zlen xs) get ≫= f) (b ++ rest) = f xs rest.
Proof. intros. by apply bind_got, times_reads. Qed.

End codec.

(** ** Reading back what was written *)

Lemma rd_end {A} (m : reader A) src : m src = (m ≫= mret) src.
Proof. rewrite bind_unfold. by destruct (m src). Qed.

Lemma rd_need {B} n msg src (f : unit → reader B) :
  n ≤ zlen src → (need n msg ≫= f) src = f tt src.
Proof. intros. apply bind_got. unfold need. by rewrite Zltb_false. Qed.

Lemma rd_remaining {B} src (f : Z → reader B) : (remaining ≫= f) src = f (zlen src) src.
Proof. done. Qed.

Lemma rd_get_slice {B} n b rest (f : bytes → reader B) :
  n = zlen b → (get_slice n ≫= f) (b ++ rest) = f b rest.
Proof.
  intros ->. apply bind_got. unfold get_slice. rewrite Zltb_false by zlen_lia.
  by rewrite ztake_app_exact, zdrop_app_exact.
Qed.

Lemma rd_get_le {B} n m v rest (f : Z → reader B) :
  n = Z.of_nat m → 0 ≤ v < 256 ^ n → (get_le n ≫= f) (le_bytes m v ++ rest) = f v rest.
Proof.
  intros -> Hv. unfold get_le. rewrite bind_assoc, rd_get_slice by by rewrite zlen_le_bytes.
  by rewrite bind_ret, le_val_small.
Qed.

Lemma signed_le_val w n v :
  256 ^ Z.of_nat n = 2 ^ w → 0 < w → - 2 ^ (w - 1) ≤ v < 2 ^ (w - 1) →
  signed w (le_val (le_bytes n v)) = v.
Proof.
  intros Hw Hp Hv. rewrite le_val_bytes, Hw. unfold signed. rewrite Z.mod_mod by lia.
  assert (2 ^ w = 2 * 2 ^ (w - 1)) as E.
  { rewrite <- Z.pow_succ_r by lia. f_equal. lia. }
  destruct (decide (0 ≤ v)).
  - rewrite Z.mod_small by lia. rewrite Zltb_true by lia. done.
  - rewrite <- (Z.mod_add v 1) by lia. rewrite Z.mod_small by lia. rewrite Zltb_false by lia. lia.
Qed.

Lemma rd_get_signed {B} n m w v rest (f : Z → reader B) :
  n = Z.of_nat m → 256 ^ Z.of_nat m = 2 ^ w → 0 < w → - 2 ^ (w - 1) ≤ v < 2 ^ (w - 1) →
  ((x ← get_le n; mret (signed w x)) ≫= f) (le_bytes m v ++ rest) = f v rest.
Proof.
  intros -> Hw Hp Hv. unfold get_le. rewrite !bind_assoc, rd_get_slice by by rewrite zlen_le_bytes.
  change (f (signed w (le_val (le_bytes m v))) rest = f v rest). by rewrite signed_le_val.
Qed.

Section integers.
Context {B : Type}.
Implicit Type f : Z → reader B.

Lemma rd_u8 v rest f : is_u8 v = true → (get_u8 ≫= f) (le_bytes 1 v ++ rest) = f v rest.
Proof. unfold is_u8. intros. apply rd_get_le; [done|]. lia. Qed.
Lemma rd_u16 v rest f : is_u16 v = true → (get_u16_le ≫= f) (le_bytes 2 v ++ rest) = f v rest.
Proof. unfold is_u16. intros. apply rd_get_le; [done|]. lia. Qed.
Lemma rd_u32 v rest f : is_u32 v = true → (get_u32_le ≫= f) (le_bytes 4 v ++ rest) = f v rest.
Proof. unfold is_u32. intros. apply rd_get_le; [done|]. lia. Qed.
Lemma rd_u64 v rest f : is_u64 v = true → (get_u64_le ≫= f) (le_bytes 8 v ++ rest) = f v rest.
Proof. unfold is_u64. intros. apply rd_get_le; [done|]. lia. Qed.
Lemma rd_i16 v rest f : is_i16 v = true → (get_i16_le ≫= f) (le_bytes 2 v ++ rest) = f v rest.
Proof. unfold is_i16. intros. apply rd_get_signed; [done..|]. lia. Qed.
Lemma rd_i32 v rest f : is_i32 v = true → (get_i32_le ≫= f) (le_bytes 4 v ++ rest) = f v rest.
Proof. unfold is_i32. intros. apply rd_get_signed; [done..|]. lia. Qed.
Lemma rd_i64 v rest f : is_i64 v = true → (get_i64_le ≫= f) (le_bytes 8 v ++ rest) = f v rest.
Proof. unfold is_i64, i64_min, i64_max. intros. apply rd_get_signed; [done..|]. lia. Qed.

Lemma rd_bool (b : bool) rest (f : bool → reader B) :
  (get_bool ≫= f) (le_bytes 1 (if b then 1 else 0) ++ rest) = f b rest.
Proof. unfold get_bool. rewrite bind_assoc, rd_u8 by by destruct b. by destruct b. Qed.

(** The count of a list that fits a payload. *)
Lemma rd_count {A} (xs : list A) rest f :
  zlen xs ≤ MAX_PAYLOAD →
  (get_u32_le ≫= f) (le_bytes 4 (as_u32 (zlen xs)) ++ rest) = f (zlen xs) rest.
Proof.
  unfold MAX_PAYLOAD. intros Hn. pose proof (zlen_nonneg xs). rewrite as_u32_small by lia.
  apply rd_u32. unfold is_u32. zb_eq.
Qed.

End integers.

(** ** Tactics

    [put_inv] splits the success of a writer into its parts; [rd] reads the
    next part back; [wp_step] applies the rule of the next reader. *)

Ltac put_inv H :=
  lazymatch type of H with
  | _ ⊕ _ = Ok _ =>
    let x := fresh "b" in let y := fresh "b" in let H1 := fresh "Hp" in let H2 := fresh "Hp" in
    apply seq_put_inv in H as (x & y & H1 & H2 & ->); put_inv H1; put_inv H2
  | put_vec _ _ = Ok _ => unfold put_vec in H; put_inv H
  | put_nothing = Ok _ => injection H as <-
  | put_bool _ = Ok _ => unfold put_bool in H; put_inv H
  | put_u8 _ = Ok _ => injection H as <-
  | put_u16_le _ = Ok _ => injection H as <-
  | put_u32_le _ = Ok _ => injection H as <-
  | put_u64_le _ = Ok _ => injection H as <-
  | put_i16_le _ = Ok _ => injection H as <-
  | put_i32_le _ = Ok _ => injection H as <-
  | put_i64_le _ = Ok _ => injection H as <-
  | Ok _ = Ok _ => injection H as <-
  | _ => idtac
  end.

(** Splits the boolean conjunctions of a type invariant. *)
Ltac ok_inv :=
  repeat match goal with
  | H : _ && _ = true |- _ =>
    let H1 := fresh "Hok" in let H2 := fresh "Hok" in apply andb_prop in H as [H1 H2]
  end.

Lemma put_each_u32_length xs b : put_each put_u32_le xs = Ok b → zlen b = 4 * zlen xs.
Proof.
  revert b. induction xs as [|x xs IH]; intros b; [by intros [= <-]|]. cbn [put_each].
  intros (b1 & b2 & Hx & Hxs%IH & ->)%seq_put_inv. put_inv Hx. zlen_lia.
Qed.

Lemma zlen_put_string s b : put_string s = Ok b → zlen b = 2 + str_len s.
Proof. unfold put_string. case_if; [done|]. intros Hb. put_inv Hb. unfold str_len. zlen_lia. Qed.

Lemma put_string_nonempty s b : put_string s = Ok b → 2 ≤ zlen b.
Proof. intros Hb%zlen_put_string. unfold str_len in *. zlen_lia. Qed.

(** The lengths of the parts, and of the lists they encode. *)
Ltac size_facts :=
  repeat match goal with
  | H : put_string ?s = Ok ?b |- _ =>
    lazymatch goal with
    | _ : 2 ≤ zlen b |- _ => fail
    | _ => pose proof (put_string_nonempty s b H)
    end
  | H : put_each put_u32_le ?xs = Ok ?b |- _ =>
    lazymatch goal with
    | _ : zlen b = 4 * zlen xs |- _ => fail
    | _ => pose proof (put_each_u32_length xs b H)
    end
  | H : put_each ?put ?xs = Ok ?b |- _ =>
    lazymatch goal with
    | _ : zlen xs ≤ zlen b |- _ => fail
    | _ => assert (zlen xs ≤ zlen b)
        by (unshelve (eapply (put_each_length (put := put)); exact H); exact ""%string)
    end
  end;
  autorewrite with zlen in *; zlen_facts.
Ltac size :=
  autorewrite with zlen; zlen_facts;
  unfold MAX_PAYLOAD, u64_saturating_add, u64_saturating_mul in *; lia.

(** Evaluates the condition of a trailer. *)
Ltac decide_if c :=
  first
  [ let v := eval cbn in c in
    lazymatch v with true => change c with true | false => change c with false end
  | rewrite (Zleb_true _ _) by size
  | rewrite (Zleb_false _ _) by size
  | rewrite (Zltb_true _ _) by size
  | rewrite (Zltb_false _ _) by size ].

Ltac rd :=
  lazymatch goal with
  | |- mret _ _ = Got _ _ => reflexivity
  | |- (mret _ ≫= _) _ = _ => rewrite bind_ret
  | |- ((_ ≫= _) ≫= _) _ = _ => rewrite bind_assoc
  | |- ((if ?c then _ else _) ≫= _) _ = _ =>
    decide_if c
  | |- (if ?c then _ else _) _ = _ =>
    decide_if c
  | |- (need _ _ ≫= _) _ = _ => rewrite rd_need by size
  | |- (remaining ≫= _) _ = _ => rewrite rd_remaining
  | |- (when_remaining _ _ _ ≫= _) _ = _ => unfold when_remaining at 1
  | |- (get_bool ≫= _) (le_bytes _ _ ++ _) = _ => rewrite rd_bool
  | |- (get_u32_le ≫= _) (le_bytes 4 (as_u32 (zlen _)) ++ _) = _ => rewrite rd_count by size
  | |- (get_u8 ≫= _) (le_bytes _ _ ++ _) = _ => rewrite rd_u8 by done
  | |- (get_u16_le ≫= _) (le_bytes _ _ ++ _) = _ => rewrite rd_u16 by done
  | |- (get_u32_le ≫= _) (le_bytes _ _ ++ _) = _ => rewrite rd_u32 by done
  | |- (get_u64_le ≫= _) (le_bytes _ _ ++ _) = _ => rewrite rd_u64 by done
  | |- (get_i16_le ≫= _) (le_bytes _ _ ++ _) = _ => rewrite rd_i16 by done
  | |- (get_i32_le ≫= _) (le_bytes _ _ ++ _) = _ => rewrite rd_i32 by done
  | |- (get_i64_le ≫= _) (le_bytes _ _ ++ _) = _ => rewrite rd_i64 by done
  | H : put_each ?put ?xs = Ok ?b |- (times (zlen ?xs) _ ≫= _) (?b ++ _) = _ =>
    rewrite (rd_vec (put := put) xs b) by (done || size)
  | H : ?put ?x = Ok ?b |- (_ ≫= _) (?b ++ _) = _ =>
    rewrite (rd_codec (put := put) x b) by (done || size)
  | |- _ ?src = Got _ _ => rewrite rd_end
  end; cbn beta iota.

Ltac reads := size_facts; rewrite <- ?app_assoc; repeat rd.

Ltac wp_step :=
  lazymatch goal with
  | |- wp _ (_ ≫= _) _ => apply wp_bind
  | |- wp _ (mret _) _ => apply wp_ret
  | |- wp _ (fail _) _ => apply wp_fail
  | |- wp _ (need (u64_saturating_mul _ 4) _) _ => apply wp_need_u32s; [done|intros ? ? ?]
  | |- wp _ (need (u64_saturating_add (u64_saturating_mul _ 4) 4) _) _ =>
    apply wp_need_u32s_and_more; [done|intros ? ? ?]
  | |- wp _ (need _ _) _ => apply wp_need; intros ? ? ?
  | |- wp _ (when_remaining _ _ _) _ => unfold when_remaining
  | |- wp _ get_bool _ => unfold get_bool
  | |- wp _ remaining _ => apply wp_remaining; intros ? ?
  | |- wp _ get_string _ => apply wp_get_string; intros ? ?
  | |- wp _ get_u8 _ => apply wp_get_u8; [lia|intros ? ?]
  | |- wp _ get_u16_le _ => apply wp_get_u16_le; [lia|intros ? ?]
  | |- wp _ get_u32_le _ => apply wp_get_u32_le; [lia|intros ? ?]
  | |- wp _ get_u64_le _ => apply wp_get_u64_le; [lia|intros ? ?]
  | |- wp _ get_i16_le _ => apply wp_get_i16_le; [lia|intros ? ?]
  | |- wp _ get_i32_le _ => apply wp_get_i32_le; [lia|intros ? ?]
  | |- wp _ get_i64_le _ => apply wp_get_i64_le; [lia|intros ? ?]
  | |- wp _ (times _ get_u32_le) _ => 
    apply wp_times_u32;
    [done|lia|intros ? ?]
  | |- wp _ (times _ _) _ => eapply wp_vec; intros ? ?
  | |- wp _ (if _ then _ else _) _ => case_if
  | |- wp _ (match ?x with (_, _) => _ end) _ => destruct x
  | |- wp _ _ _ => eapply wp_safe; intros ? ?
  end; cbn beta.

(** The type invariant of what was read, from the invariants of its parts. *)
Ltac ok_goal :=
  cbn; repeat match goal with H : _ = true |- _ => rewrite H; clear H end; done.

(** The reader is safe and what it returns is of its type. *)
Ltac wp_ok :=
  repeat wp_step; (split; [ok_goal | lia]).

(** ** The codecs of strings, byte strings and integers *)

#[export] Instance string_codec : Codec put_string get_string str_valid.
Proof.
  split.
  - intros s b Hb%zlen_put_string. unfold str_len in *. zlen_lia.
  - intros s b rest Hs. unfold put_string. case_if; [done|]. intros Hb Hmax. put_inv Hb.
    unfold u16_max in *. pose proof (zlen_nonneg (as_bytes s)). fold (str_len s) in *.
    rewrite as_u16_small by lia. size_facts. rewrite <- app_assoc. unfold get_string.
    rewrite rd_need by (fold (str_len s); size). rewrite rd_u16 by (unfold is_u16; zb_eq).
    rewrite rd_need by (unfold str_len; size). rewrite rd_get_slice by done.
    by rewrite from_utf8_as_bytes.
Qed.

#[export] Instance string_safe : SafeReader get_string str_valid.
Proof. apply wp_get_string. auto with lia. Qed.

#[export] Instance u32_codec : Codec put_u32_le get_u32_le is_u32.
Proof.
  split.
  - intros v b Hb. put_inv Hb. zlen_lia.
  - intros v b rest Hv Hb Hmax. put_inv Hb. rewrite rd_end. by rewrite rd_u32.
Qed.

Definition any {A} (x : A) : bool := true.

#[export] Instance bytes_codec : Codec put_bytes get_bytes any.
Proof.
  split.
  - intros v b Hb. put_inv Hb. unfold put_bytes in Hb. put_inv Hb. zlen_lia.
  - intros v b rest _ Hb Hmax. unfold put_bytes in Hb. put_inv Hb. size_facts.
    unfold MAX_PAYLOAD in *. rewrite as_u32_small, <- app_assoc by lia. unfold get_bytes.
    rewrite rd_need by size. rewrite rd_u32 by (unfold is_u32; zb_eq).
    rewrite Zeqb_false by (unfold u32_max; lia). rewrite rd_need by size.
    rewrite rd_end. by rewrite rd_get_slice.
Qed.

#[export] Instance bytes_safe : SafeReader get_bytes any.
Proof.
  unfold SafeReader, get_bytes. do 4 wp_step. case_if; [apply wp_fail|]. do 2 wp_step.
  apply wp_get_slice; [unfold is_u32 in *; lia|]. intros b <-. split; [done|lia].
Qed.

#[export] Instance optional_bytes_codec : Codec put_optional_bytes get_optional_bytes any.
Proof.
  split.
  - intros [v|] b Hb; [by eapply codec_nonempty|]. unfold put_optional_bytes in Hb. put_inv Hb. zlen_lia.
  - intros [v|] b rest _ Hb Hmax; unfold put_optional_bytes, put_bytes in Hb; put_inv Hb;
      unfold get_optional_bytes.
    + size_facts. unfold MAX_PAYLOAD in *. rewrite as_u32_small, <- app_assoc by lia.
      rewrite rd_need by size. rewrite rd_u32 by (unfold is_u32; zb_eq).
      rewrite Zeqb_false by (unfold u32_max; lia). rewrite rd_need by size.
      by rewrite rd_get_slice.
    + rewrite rd_need by size. by rewrite rd_u32.
Qed.

#[export] Instance optional_bytes_safe : SafeReader get_optional_bytes any.
Proof.
  unfold SafeReader, get_optional_bytes. do 4 wp_step. case_if; [apply wp_ret; split; [done|lia]|].
  do 3 wp_step. apply wp_get_slice; [unfold is_u32 in *; lia|]. intros b <-. apply wp_ret.
  split; [done|lia].
Qed.

(** A reader of one field after the other. *)
Definition header_ok (h : string * bytes) : bool := str_valid h.1.
Definition pair_ok (kv : string * string) : bool := str_valid kv.1 && str_valid kv.2.

#[export] Instance header_codec : Codec put_header get_header header_ok.
Proof.
  split; intros [name value] b.
  - intros Hb. unfold put_header in Hb. put_inv Hb. apply zlen_put_string in Hp. unfold str_len in *. zlen_lia.
  - intros rest Hn Hb Hmax. unfold put_header in Hb. put_inv Hb. unfold get_header. cbn in *. by reads.
Qed.

#[export] Instance header_safe : SafeReader get_header header_ok.
Proof. unfold SafeReader, get_header. wp_ok. Qed.

#[export] Instance headers_codec : Codec put_headers get_headers (forallb header_ok).
Proof.
  split; intros hs b; unfold put_headers.
  - intros Hb. put_inv Hb. size.
  - intros rest Hh Hb Hmax. put_inv Hb. unfold get_headers. by reads.
Qed.

#[export] Instance headers_safe : SafeReader get_headers (forallb header_ok).
Proof. unfold SafeReader, get_headers. wp_ok. Qed.

#[export] Instance pair_codec : Codec put_pair get_pair pair_ok.
Proof.
  split; intros [k v] b; unfold put_pair.
  - intros Hb. put_inv Hb. apply zlen_put_string in Hp. unfold str_len in *. size.
  - intros rest Hh Hb Hmax. put_inv Hb. unfold pair_ok in Hh. ok_inv. unfold get_pair. cbn in *. by reads.
Qed.

#[export] Instance pair_safe : SafeReader get_pair pair_ok.
Proof. unfold SafeReader, get_pair, pair_ok. wp_ok. Qed.
