(* ===== verification/Messages.v ===== *)
(** * The structures of the native protocol

    The structs of [volant-protocol/src/request.rs] and [response.rs], the
    writer and the reader of each as [payload.rs] has them inside the arms of
    its four codec functions, and the invariant of each type: integers within
    their width and strings of valid UTF-8.  A reader used under several error
    messages takes the message as an argument. *)

From Stdlib Require Import Strings.String.
From S2P Require Import Prelude Bytes Wire.
#[local] Open Scope Z_scope.

(** ** [request.rs] *)

Record AclBinding := mkAclBinding {
  acl_principal : string;
  acl_resource_type : Z;
  acl_resource : string;
  acl_operation : Z;
  acl_permission : Z;
}.

Record TxnOffsetCommit := mkTxnOffsetCommit {
  toc_group_id : string;
  toc_topic : string;
  toc_partition : Z;
  toc_offset : Z;
  toc_metadata : string;
}.

Record ProduceMessage := mkProduceMessage {
  pm_key : option bytes;
  pm_value : bytes;
  pm_timestamp_ms : Z;
  pm_headers : list (string * bytes);
}.

Record OffsetEntry := mkOffsetEntry {
  oe_topic : string;
  oe_partition : Z;
}.

Record OffsetCommitEntry := mkOffsetCommitEntry {
  oce_topic : string;
  oce_partition : Z;
  oce_offset : Z;
  oce_metadata : string;
}.

Record MembershipBroker := mkMembershipBroker {
  mb_id : Z;
  mb_host : string;
  mb_port : Z;
  mb_rack : option string;
}.

Record ClusterPartitionState := mkClusterPartitionState {
  cps_partition_id : Z;
  cps_leader : Z;
  cps_leader_epoch : Z;
  cps_replicas : list Z;
  cps_isr : list Z;
}.

Record ClusterTopicState := mkClusterTopicState {
  cts_name : string;
  cts_topic_id : Z;
  cts_partitions : list ClusterPartitionState;
}.

Record MetadataRaftLogEntry := mkMetadataRaftLogEntry {
  mre_term : Z;
  mre_index : Z;
  mre_command_kind : Z;
  mre_generation : Z;
  mre_topics : list ClusterTopicState;
}.

Definition LIST_OFFSETS_LATEST : Z := -1.
Definition LIST_OFFSETS_READ_UNCOMMITTED : Z := 0.

(** ** [response.rs] *)

Record FetchRecord := mkFetchRecord {
  fr_offset : Z;
  fr_timestamp_ms : Z;
  fr_key : option bytes;
  fr_value : bytes;
  fr_headers : list (string * bytes);
}.

Record BrokerInfo := mkBrokerInfo {
  bi_node_id : Z;
  bi_host : string;
  bi_port : Z;
}.

Record PartitionInfo := mkPartitionInfo {
  pi_partition_id : Z;
  pi_leader : Z;
  pi_hwm : Z;
  pi_replicas : list Z;
  pi_isr : list Z;
  pi_leader_epoch : Z;
}.

Record TopicInfo := mkTopicInfo {
  ti_name : string;
  ti_topic_id : Z;
  ti_error_code : Z;
  ti_partitions : list PartitionInfo;
}.

Record Assignment := mkAssignment {
  as_topic : string;
  as_partition : Z;
}.

Record GroupMemberInfo := mkGroupMemberInfo {
  gmi_member_id : string;
  gmi_topics : list string;
  gmi_assignment : list Assignment;
}.

Inductive GroupState := Empty | Stable | CompletingRebalance | PreparingRebalance.

Definition group_state_as_u8 (s : GroupState) : Z :=
  match s with
  | Empty => 0
  | Stable => 1
  | CompletingRebalance => 2
  | PreparingRebalance => 3
  end.

Definition group_state_from_u8 (v : Z) : GroupState :=
  match v with
  | 1 => Stable
  | 2 => CompletingRebalance
  | 3 => PreparingRebalance
  | _ => Empty
  end.

Record GroupListing := mkGroupListing {
  gl_group_id : string;
  gl_state : GroupState;
  gl_member_count : Z;
  gl_generation : Z;
}.

Record OffsetFetchEntry := mkOffsetFetchEntry {
  ofe_topic : string;
  ofe_partition : Z;
  ofe_offset : Z;
  ofe_metadata : string;
}.

Record OffsetListing := mkOffsetListing {
  ol_partition : Z;
  ol_earliest : Z;
  ol_latest : Z;
}.

Record TxnProduceResult := mkTxnProduceResult {
  tpr_topic : string;
  tpr_partition : Z;
  tpr_base_offset : Z;
  tpr_count : Z;
}.

(** ** Writers and readers *)

Definition put_acl_binding (e : AclBinding) : result bytes :=
  put_string (acl_principal e) ⊕
  put_u8 (acl_resource_type e) ⊕
  put_string (acl_resource e) ⊕
  put_u8 (acl_operation e) ⊕
  put_u8 (acl_permission e).

Definition get_acl_binding : reader AclBinding :=
  principal ← get_string;
  need 1 "truncated acl resource_type";;
  resource_type ← get_u8;
  resource ← get_string;
  need 2 "truncated acl op/perm";;
  operation ← get_u8;
  permission ← get_u8;
  mret (mkAclBinding principal resource_type resource operation permission).

Definition put_membership_broker (b : MembershipBroker) : result bytes :=
  put_u32_le (mb_id b) ⊕
  put_string (mb_host b) ⊕
  put_u16_le (mb_port b) ⊕
  match mb_rack b with
  | Some r => put_u8 1 ⊕ put_string r
  | None => put_u8 0
  end.

Definition get_membership_broker : reader MembershipBroker :=
  need 4 "truncated membership broker id";;
  id ← get_u32_le;
  host ← get_string;
  need (2 + 1) "truncated membership broker port/rack";;
  port ← get_u16_le;
  has_rack ← get_u8;
  rack ← (if negb (has_rack =? 0) then r ← get_string; mret (Some r) else mret None);
  mret (mkMembershipBroker id host port rack).

Definition put_cluster_partition (p : ClusterPartitionState) : result bytes :=
  put_u32_le (cps_partition_id p) ⊕
  put_u32_le (cps_leader p) ⊕
  put_u32_le (cps_leader_epoch p) ⊕
  put_vec put_u32_le (cps_replicas p) ⊕
  put_vec put_u32_le (cps_isr p).

Definition put_cluster_topic (t : ClusterTopicState) : result bytes :=
  put_string (cts_name t) ⊕
  put_u32_le (cts_topic_id t) ⊕
  put_vec put_cluster_partition (cts_partitions t).

Definition put_cluster_topics (topics : list ClusterTopicState) : result bytes :=
  put_vec put_cluster_topic topics.

Definition get_cluster_partition : reader ClusterPartitionState :=
  need (4 + 4 + 4 + 4) "truncated cluster partition header";;
  partition_id ← get_u32_le;
  leader ← get_u32_le;
  leader_epoch ← get_u32_le;
  replica_count ← get_u32_le;
  need (u64_saturating_add (u64_saturating_mul replica_count 4) 4) "truncated cluster replicas";;
  replicas ← times replica_count get_u32_le;
  isr_count ← get_u32_le;
  need (u64_saturating_mul isr_count 4) "truncated cluster isr";;
  isr ← times isr_count get_u32_le;
  mret (mkClusterPartitionState partition_id leader leader_epoch replicas isr).

Definition get_cluster_topic : reader ClusterTopicState :=
  name ← get_string;
  need (4 + 4) "truncated cluster topic header";;
  topic_id ← get_u32_le;
  part_count ← get_u32_le;
  partitions ← times part_count get_cluster_partition;
  mret (mkClusterTopicState name topic_id partitions).

Definition get_cluster_topics : reader (list ClusterTopicState) :=
  need 4 "truncated cluster topics count";;
  topic_count ← get_u32_le;
  times topic_count get_cluster_topic.

Definition put_produce_message (m : ProduceMessage) : result bytes :=
  put_optional_bytes (pm_key m) ⊕
  put_bytes (pm_value m) ⊕
  put_i64_le (pm_timestamp_ms m) ⊕
  put_headers (pm_headers m).

Definition get_produce_message : reader ProduceMessage :=
  key ← get_optional_bytes;
  value ← get_bytes;
  need 8 "truncated produce timestamp";;
  timestamp_ms ← get_i64_le;
  headers ← get_headers;
  mret (mkProduceMessage key value timestamp_ms headers).

Definition put_offset_commit_entry (e : OffsetCommitEntry) : result bytes :=
  put_string (oce_topic e) ⊕
  put_u32_le (oce_partition e) ⊕
  put_u64_le (oce_offset e) ⊕
  put_string (oce_metadata e).

Definition get_offset_commit_entry : reader OffsetCommitEntry :=
  topic ← get_string;
  need (4 + 8) "truncated offset commit entry";;
  partition ← get_u32_le;
  offset ← get_u64_le;
  metadata ← get_string;
  mret (mkOffsetCommitEntry topic partition offset metadata).

Definition put_offset_entry (e : OffsetEntry) : result bytes :=
  put_string (oe_topic e) ⊕ put_u32_le (oe_partition e).

Definition get_offset_entry (msg : string) : reader OffsetEntry :=
  topic ← get_string;
  need 4 msg;;
  partition ← get_u32_le;
  mret (mkOffsetEntry topic partition).

Definition put_txn_offset (o : TxnOffsetCommit) : result bytes :=
  put_string (toc_group_id o) ⊕
  put_string (toc_topic o) ⊕
  put_u32_le (toc_partition o) ⊕
  put_u64_le (toc_offset o) ⊕
  put_string (toc_metadata o).

Definition get_txn_offset : reader TxnOffsetCommit :=
  group_id ← get_string;
  topic ← get_string;
  need (4 + 8) "truncated end txn offset entry";;
  partition ← get_u32_le;
  offset ← get_u64_le;
  metadata ← get_string;
  mret (mkTxnOffsetCommit group_id topic partition offset metadata).

Definition put_raft_entry (e : MetadataRaftLogEntry) : result bytes :=
  put_u64_le (mre_term e) ⊕
  put_u64_le (mre_index e) ⊕
  put_u8 (mre_command_kind e) ⊕
  put_u32_le (mre_generation e) ⊕
  put_cluster_topics (mre_topics e).

Definition get_raft_entry : reader MetadataRaftLogEntry :=
  need (8 + 8 + 1 + 4) "truncated metadata raft log entry header";;
  e_term ← get_u64_le;
  e_index ← get_u64_le;
  command_kind ← get_u8;
  generation ← get_u32_le;
  topics ← get_cluster_topics;
  mret (mkMetadataRaftLogEntry e_term e_index command_kind generation topics).

(** [if src.remaining() < 4 { return Err } v.push(src.get_u32_le())] *)
Definition get_u32_checked (msg : string) : reader Z := need 4 msg;; get_u32_le.

Definition put_fetch_record (r : FetchRecord) : result bytes :=
  put_u64_le (fr_offset r) ⊕
  put_i64_le (fr_timestamp_ms r) ⊕
  put_optional_bytes (fr_key r) ⊕
  put_bytes (fr_value r) ⊕
  put_headers (fr_headers r).

Definition get_fetch_record (msg : string) : reader FetchRecord :=
  need (8 + 8) msg;;
  offset ← get_u64_le;
  timestamp_ms ← get_i64_le;
  key ← get_optional_bytes;
  value ← get_bytes;
  headers ← get_headers;
  mret (mkFetchRecord offset timestamp_ms key value headers).

Definition put_broker_info (b : BrokerInfo) : result bytes :=
  put_u32_le (bi_node_id b) ⊕ put_string (bi_host b) ⊕ put_u16_le (bi_port b).

Definition get_broker_info : reader BrokerInfo :=
  need 4 "truncated broker node_id";;
  node_id ← get_u32_le;
  host ← get_string;
  need 2 "truncated broker port";;
  port ← get_u16_le;
  mret (mkBrokerInfo node_id host port).

Definition put_partition_info (p : PartitionInfo) : result bytes :=
  put_u32_le (pi_partition_id p) ⊕
  put_u32_le (pi_leader p) ⊕
  put_u64_le (pi_hwm p) ⊕
  put_vec put_u32_le (pi_replicas p) ⊕
  put_vec put_u32_le (pi_isr p) ⊕
  put_u32_le (pi_leader_epoch p).

Definition get_partition_info : reader PartitionInfo :=
  need (4 + 4 + 8 + 4) "truncated partition info";;
  partition_id ← get_u32_le;
  leader ← get_u32_le;
  hwm ← get_u64_le;
  replica_count ← get_u32_le;
  replicas ← times replica_count (get_u32_checked "truncated replica id");
  need 4 "truncated isr count";;
  isr_count ← get_u32_le;
  isr ← times isr_count (get_u32_checked "truncated isr id");
  need 4 "truncated leader_epoch";;
  leader_epoch ← get_u32_le;
  mret (mkPartitionInfo partition_id leader hwm replicas isr leader_epoch).

Definition put_topic_info (t : TopicInfo) : result bytes :=
  put_string (ti_name t) ⊕
  put_u32_le (ti_topic_id t) ⊕
  put_u16_le (ti_error_code t) ⊕
  put_vec put_partition_info (ti_partitions t).

Definition get_topic_info : reader TopicInfo :=
  name ← get_string;
  need (4 + 2 + 4) "truncated topic meta header";;
  topic_id ← get_u32_le;
  error_code ← get_u16_le;
  partition_count ← get_u32_le;
  partitions ← times partition_count get_partition_info;
  mret (mkTopicInfo name topic_id error_code partitions).

Definition put_offset_fetch_entry (e : OffsetFetchEntry) : result bytes :=
  put_string (ofe_topic e) ⊕
  put_u32_le (ofe_partition e) ⊕
  put_u64_le (ofe_offset e) ⊕
  put_string (ofe_metadata e).

Definition get_offset_fetch_entry : reader OffsetFetchEntry :=
  topic ← get_string;
  need (4 + 8) "truncated offset fetch entry";;
  partition ← get_u32_le;
  offset ← get_u64_le;
  metadata ← get_string;
  mret (mkOffsetFetchEntry topic partition offset metadata).

Definition put_assignment (a : Assignment) : result bytes :=
  put_string (as_topic a) ⊕ put_u32_le (as_partition a).

Definition get_assignment (msg : string) : reader Assignment :=
  topic ← get_string;
  need 4 msg;;
  partition ← get_u32_le;
  mret (mkAssignment topic partition).

Definition put_txn_result (r : TxnProduceResult) : result bytes :=
  put_string (tpr_topic r) ⊕
  put_u32_le (tpr_partition r) ⊕
  put_u64_le (tpr_base_offset r) ⊕
  put_u32_le (tpr_count r).

Definition get_txn_result : reader TxnProduceResult :=
  topic ← get_string;
  need (4 + 8 + 4) "truncated end txn result";;
  partition ← get_u32_le;
  base_offset ← get_u64_le;
  count ← get_u32_le;
  mret (mkTxnProduceResult topic partition base_offset count).

Definition put_member_info (m : GroupMemberInfo) : result bytes :=
  put_string (gmi_member_id m) ⊕
  put_vec put_string (gmi_topics m) ⊕
  put_vec put_assignment (gmi_assignment m).

Definition get_member_info : reader GroupMemberInfo :=
  member_id ← get_string;
  need 4 "truncated describe group topic count";;
  topic_count ← get_u32_le;
  topics ← times topic_count get_string;
  need 4 "truncated describe group assignment count";;
  assignment_count ← get_u32_le;
  assignment ← times assignment_count (get_assignment "truncated describe group assignment partition");
  mret (mkGroupMemberInfo member_id topics assignment).

Definition put_group_listing (g : GroupListing) : result bytes :=
  put_string (gl_group_id g) ⊕
  put_u8 (group_state_as_u8 (gl_state g)) ⊕
  put_u32_le (gl_member_count g) ⊕
  put_u32_le (gl_generation g).

Definition get_group_listing : reader GroupListing :=
  group_id ← get_string;
  need (1 + 4 + 4) "truncated list groups entry";;
  state ← get_u8;
  member_count ← get_u32_le;
  generation ← get_u32_le;
  mret (mkGroupListing group_id (group_state_from_u8 state) member_count generation).

Definition put_offset_listing (e : OffsetListing) : result bytes :=
  put_u32_le (ol_partition e) ⊕ put_u64_le (ol_earliest e) ⊕ put_u64_le (ol_latest e).

Definition get_offset_listing : reader OffsetListing :=
  need (4 + 8 + 8) "truncated list offsets entry";;
  partition ← get_u32_le;
  earliest ← get_u64_le;
  latest ← get_u64_le;
  mret (mkOffsetListing partition earliest latest).

(** ** Type invariants *)

Definition acl_ok (e : AclBinding) : bool :=
  str_valid (acl_principal e) && is_u8 (acl_resource_type e) && str_valid (acl_resource e) &&
  is_u8 (acl_operation e) && is_u8 (acl_permission e).

Definition rack_ok (r : option string) : bool :=
  match r with Some r => str_valid r | None => true end.
Definition membership_broker_ok (b : MembershipBroker) : bool :=
  is_u32 (mb_id b) && str_valid (mb_host b) && is_u16 (mb_port b) && rack_ok (mb_rack b).

Definition cluster_partition_ok (p : ClusterPartitionState) : bool :=
  is_u32 (cps_partition_id p) && is_u32 (cps_leader p) && is_u32 (cps_leader_epoch p) &&
  forallb is_u32 (cps_replicas p) && forallb is_u32 (cps_isr p).
Definition cluster_topic_ok (t : ClusterTopicState) : bool :=
  str_valid (cts_name t) && is_u32 (cts_topic_id t) && forallb cluster_partition_ok (cts_partitions t).

Definition headers_ok (hs : list (string * bytes)) : bool := forallb (λ h, str_valid h.1) hs.
Definition produce_message_ok (m : ProduceMessage) : bool :=
  is_i64 (pm_timestamp_ms m) && headers_ok (pm_headers m).
Definition offset_commit_entry_ok (e : OffsetCommitEntry) : bool :=
  str_valid (oce_topic e) && is_u32 (oce_partition e) && is_u64 (oce_offset e) &&
  str_valid (oce_metadata e).
Definition offset_entry_ok (e : OffsetEntry) : bool := str_valid (oe_topic e) && is_u32 (oe_partition e).
Definition txn_offset_ok (o : TxnOffsetCommit) : bool :=
  str_valid (toc_group_id o) && str_valid (toc_topic o) && is_u32 (toc_partition o) &&
  is_u64 (toc_offset o) && str_valid (toc_metadata o).
Definition raft_entry_ok (e : MetadataRaftLogEntry) : bool :=
  is_u64 (mre_term e) && is_u64 (mre_index e) && is_u8 (mre_command_kind e) &&
  is_u32 (mre_generation e) && forallb cluster_topic_ok (mre_topics e).

Definition fetch_record_ok (r : FetchRecord) : bool :=
  is_u64 (fr_offset r) && is_i64 (fr_timestamp_ms r) && headers_ok (fr_headers r).
Definition broker_info_ok (b : BrokerInfo) : bool :=
  is_u32 (bi_node_id b) && str_valid (bi_host b) && is_u16 (bi_port b).
Definition partition_info_ok (p : PartitionInfo) : bool :=
  is_u32 (pi_partition_id p) && is_u32 (pi_leader p) && is_u64 (pi_hwm p) &&
  forallb is_u32 (pi_replicas p) && forallb is_u32 (pi_isr p) && is_u32 (pi_leader_epoch p).
Definition topic_info_ok (t : TopicInfo) : bool :=
  str_valid (ti_name t) && is_u32 (ti_topic_id t) && is_u16 (ti_error_code t) &&
  forallb partition_info_ok (ti_partitions t).
Definition offset_fetch_entry_ok (e : OffsetFetchEntry) : bool :=
  str_valid (ofe_topic e) && is_u32 (ofe_partition e) && is_u64 (ofe_offset e) &&
  str_valid (ofe_metadata e).
Definition wire_assignment_ok (a : Assignment) : bool := str_valid (as_topic a) && is_u32 (as_partition a).
Definition txn_result_ok (r : TxnProduceResult) : bool :=
  str_valid (tpr_topic r) && is_u32 (tpr_partition r) && is_u64 (tpr_base_offset r) &&
  is_u32 (tpr_count r).
Definition member_info_ok (m : GroupMemberInfo) : bool :=
  str_valid (gmi_member_id m) && forallb str_valid (gmi_topics m) &&
  forallb wire_assignment_ok (gmi_assignment m).
Definition group_listing_ok (g : GroupListing) : bool :=
  str_valid (gl_group_id g) && is_u32 (gl_member_count g) && is_u32 (gl_generation g).
Definition offset_listing_ok (e : OffsetListing) : bool :=
  is_u32 (ol_partition e) && is_u64 (ol_earliest e) && is_u64 (ol_latest e).
