(* ===== verification/MessageCodecs.v ===== *)
(** * The codecs of the protocol structures

    Every writer of [Messages] is undone by its reader, which never panics
    and returns values of the type. *)

From Stdlib Require Import Strings.String.
From S2P Require Import Prelude Bytes Wire WireLogic Messages.
#[local] Open Scope Z_scope.

(** [codec put get ok]: a record written field after field. *)
Ltac codec put get ok :=
  split; intros [] b; unfold put, ok; cbn;
  [ let Hb := fresh in intros Hb; put_inv Hb; size_facts; lia
  | let Hb := fresh in intros rest ? Hb Hmax; put_inv Hb; ok_inv; unfold get; cbn; by reads ].
Ltac safe get ok := unfold SafeReader, get, ok; wp_ok.

#[export] Instance acl_codec : Codec put_acl_binding get_acl_binding acl_ok.
Proof. codec put_acl_binding get_acl_binding acl_ok. Qed.
#[export] Instance acl_safe : SafeReader get_acl_binding acl_ok.
Proof. safe get_acl_binding acl_ok. Qed.

#[export] Instance cluster_partition_codec : Codec put_cluster_partition get_cluster_partition cluster_partition_ok.
Proof. codec put_cluster_partition get_cluster_partition cluster_partition_ok. Qed.
#[export] Instance cluster_partition_safe : SafeReader get_cluster_partition cluster_partition_ok.
Proof. safe get_cluster_partition cluster_partition_ok. Qed.

#[export] Instance cluster_topic_codec : Codec put_cluster_topic get_cluster_topic cluster_topic_ok.
Proof. codec put_cluster_topic get_cluster_topic cluster_topic_ok. Qed.
#[export] Instance cluster_topic_safe : SafeReader get_cluster_topic cluster_topic_ok.
Proof. safe get_cluster_topic cluster_topic_ok. Qed.

#[export] Instance cluster_topics_codec :
  Codec put_cluster_topics get_cluster_topics (forallb cluster_topic_ok).
Proof.
  split; intros ts b; unfold put_cluster_topics.
  - intros Hb. put_inv Hb. size.
  - intros rest Hh Hb Hmax. put_inv Hb. unfold get_cluster_topics. by reads.
Qed.
#[export] Instance cluster_topics_safe : SafeReader get_cluster_topics (forallb cluster_topic_ok).
Proof. unfold SafeReader, get_cluster_topics. wp_ok. Qed.

#[export] Instance produce_message_codec :
  Codec put_produce_message get_produce_message produce_message_ok.
Proof. codec put_produce_message get_produce_message produce_message_ok. Qed.
#[export] Instance produce_message_safe : SafeReader get_produce_message produce_message_ok.
Proof. safe get_produce_message produce_message_ok. Qed.

#[export] Instance offset_commit_entry_codec : Codec put_offset_commit_entry get_offset_commit_entry offset_commit_entry_ok.
Proof. codec put_offset_commit_entry get_offset_commit_entry offset_commit_entry_ok. Qed.
#[export] Instance offset_commit_entry_safe : SafeReader get_offset_commit_entry offset_commit_entry_ok.
Proof. safe get_offset_commit_entry offset_commit_entry_ok. Qed.

#[export] Instance offset_entry_codec msg : Codec put_offset_entry (get_offset_entry msg) offset_entry_ok.
Proof. codec put_offset_entry get_offset_entry offset_entry_ok. Qed.
#[export] Instance offset_entry_safe msg : SafeReader (get_offset_entry msg) offset_entry_ok.
Proof. safe get_offset_entry offset_entry_ok. Qed.

#[export] Instance txn_offset_codec : Codec put_txn_offset get_txn_offset txn_offset_ok.
Proof. codec put_txn_offset get_txn_offset txn_offset_ok. Qed.
#[export] Instance txn_offset_safe : SafeReader get_txn_offset txn_offset_ok.
Proof. safe get_txn_offset txn_offset_ok. Qed.

#[export] Instance raft_entry_codec : Codec put_raft_entry get_raft_entry raft_entry_ok.
Proof. codec put_raft_entry get_raft_entry raft_entry_ok. Qed.
#[export] Instance raft_entry_safe : SafeReader get_raft_entry raft_entry_ok.
Proof. safe get_raft_entry raft_entry_ok. Qed.

#[export] Instance u32_checked_codec msg : Codec put_u32_le (get_u32_checked msg) is_u32.
Proof.
  split; intros v b.
  - intros Hb. put_inv Hb. zlen_lia.
  - intros rest Hv Hb Hmax. put_inv Hb. unfold get_u32_checked. by reads.
Qed.
#[export] Instance u32_checked_safe msg : SafeReader (get_u32_checked msg) is_u32.
Proof. unfold SafeReader, get_u32_checked. wp_ok. Qed.

#[export] Instance fetch_record_codec msg : Codec put_fetch_record (get_fetch_record msg) fetch_record_ok.
Proof. codec put_fetch_record get_fetch_record fetch_record_ok. Qed.
#[export] Instance fetch_record_safe msg : SafeReader (get_fetch_record msg) fetch_record_ok.
Proof. safe get_fetch_record fetch_record_ok. Qed.

#[export] Instance broker_info_codec : Codec put_broker_info get_broker_info broker_info_ok.
Proof. codec put_broker_info get_broker_info broker_info_ok. Qed.
#[export] Instance broker_info_safe : SafeReader get_broker_info broker_info_ok.
Proof. safe get_broker_info broker_info_ok. Qed.

#[export] Instance partition_info_codec : Codec put_partition_info get_partition_info partition_info_ok.
Proof. codec put_partition_info get_partition_info partition_info_ok. Qed.
#[export] Instance partition_info_safe : SafeReader get_partition_info partition_info_ok.
Proof. safe get_partition_info partition_info_ok. Qed.

#[export] Instance topic_info_codec : Codec put_topic_info get_topic_info topic_info_ok.
Proof. codec put_topic_info get_topic_info topic_info_ok. Qed.
#[export] Instance topic_info_safe : SafeReader get_topic_info topic_info_ok.
Proof. safe get_topic_info topic_info_ok. Qed.

#[export] Instance offset_fetch_entry_codec : Codec put_offset_fetch_entry get_offset_fetch_entry offset_fetch_entry_ok.
Proof. codec put_offset_fetch_entry get_offset_fetch_entry offset_fetch_entry_ok. Qed.
#[export] Instance offset_fetch_entry_safe : SafeReader get_offset_fetch_entry offset_fetch_entry_ok.
Proof. safe get_offset_fetch_entry offset_fetch_entry_ok. Qed.

#[export] Instance assignment_codec msg : Codec put_assignment (get_assignment msg) wire_assignment_ok.
Proof. codec put_assignment get_assignment wire_assignment_ok. Qed.
#[export] Instance assignment_safe msg : SafeReader (get_assignment msg) wire_assignment_ok.
Proof. safe get_assignment wire_assignment_ok. Qed.

#[export] Instance txn_result_codec : Codec put_txn_result get_txn_result txn_result_ok.
Proof. codec put_txn_result get_txn_result txn_result_ok. Qed.
#[export] Instance txn_result_safe : SafeReader get_txn_result txn_result_ok.
Proof. safe get_txn_result txn_result_ok. Qed.

#[export] Instance member_info_codec : Codec put_member_info get_member_info member_info_ok.
Proof. codec put_member_info get_member_info member_info_ok. Qed.
#[export] Instance member_info_safe : SafeReader get_member_info member_info_ok.
Proof. safe get_member_info member_info_ok. Qed.

#[export] Instance offset_listing_codec : Codec put_offset_listing get_offset_listing offset_listing_ok.
Proof. codec put_offset_listing get_offset_listing offset_listing_ok. Qed.
#[export] Instance offset_listing_safe : SafeReader get_offset_listing offset_listing_ok.
Proof. safe get_offset_listing offset_listing_ok. Qed.

#[export] Instance membership_broker_codec :
  Codec put_membership_broker get_membership_broker membership_broker_ok.
Proof.
  split; intros [id host port rack] b; unfold put_membership_broker, membership_broker_ok; cbn.
  - intros Hb. put_inv Hb. size_facts; lia.
  - intros rest Hok Hb Hmax. destruct rack as [r|]; put_inv Hb; cbn in Hok; ok_inv;
      unfold get_membership_broker; by reads.
Qed.
#[export] Instance membership_broker_safe : SafeReader get_membership_broker membership_broker_ok.
Proof. safe get_membership_broker membership_broker_ok. Qed.

#[export] Instance group_listing_codec : Codec put_group_listing get_group_listing group_listing_ok.
Proof.
  split; intros [gid st n gen] b; unfold put_group_listing, group_listing_ok; cbn.
  - intros Hb. put_inv Hb. size_facts; lia.
  - intros rest Hok Hb Hmax. ok_inv. put_inv Hb. unfold get_group_listing. destruct st; by reads.
Qed.
#[export] Instance group_listing_safe : SafeReader get_group_listing group_listing_ok.
Proof. safe get_group_listing group_listing_ok. Qed.
