(* ===== verification/RequestOpcode.v ===== *)
(** * The request opcodes: [RequestOpcode] of [volant-protocol/src/request.rs] *)

From S2P Require Import Prelude.
#[local] Open Scope Z_scope.

Inductive RequestOpcode :=
| Produce
| Fetch
| CreateTopic
| Metadata
| DeleteTopic
| OffsetCommit
| OffsetFetch
| JoinGroup
| Heartbeat
| LeaveGroup
| ReplicaFetch
| HeartbeatBroker
| ClusterState
| Auth
| InitProducerId
| DescribeGroup
| ListGroups
| DeleteOffsets
| DescribeConfigs
| AlterConfigs
| DeleteRecords
| CreatePartitions
| ListOffsets
| BeginTxn
| EndTxn
| CreateAcls
| DeleteAcls
| ListAcls
| ScramFirst
| ScramFinal
| CreateScramUser
| DeleteScramUser
| ListScramUsers
| ReplicaDeleteRecords
| ClusterBrokerConfig
| ClusterAclSnapshot
| TxnParticipantOpen
| TxnParticipantPrepare
| TxnParticipantComplete
| KafkaFetchForward
| KafkaTxnForward
| TruncateJournalNote
| TruncateJournalPush
| FetchSessionMirrorPut
| FetchSessionMirrorDelete
| IsrUpdate
| AssignmentConsensusNote
| MetadataRaftAppend
| MembershipPut
| AddBroker
| RemoveBroker
| ListMembers
| OpenraftAppend
| OpenraftVote
| OpenraftInstallSnapshot
| ReassignPartitions
| SyncGroup.

(** [op as u16] *)
Definition opcode_u16 (op : RequestOpcode) : Z :=
  match op with
  | Produce => 1
  | Fetch => 2
  | CreateTopic => 3
  | Metadata => 4
  | DeleteTopic => 5
  | OffsetCommit => 6
  | OffsetFetch => 7
  | JoinGroup => 8
  | Heartbeat => 9
  | LeaveGroup => 10
  | ReplicaFetch => 20
  | HeartbeatBroker => 22
  | ClusterState => 24
  | Auth => 30
  | InitProducerId => 32
  | DescribeGroup => 34
  | ListGroups => 36
  | DeleteOffsets => 38
  | DescribeConfigs => 40
  | AlterConfigs => 42
  | DeleteRecords => 44
  | CreatePartitions => 46
  | ListOffsets => 48
  | BeginTxn => 50
  | EndTxn => 52
  | CreateAcls => 54
  | DeleteAcls => 56
  | ListAcls => 58
  | ScramFirst => 60
  | ScramFinal => 62
  | CreateScramUser => 64
  | DeleteScramUser => 66
  | ListScramUsers => 68
  | ReplicaDeleteRecords => 70
  | ClusterBrokerConfig => 72
  | ClusterAclSnapshot => 74
  | TxnParticipantOpen => 76
  | TxnParticipantPrepare => 78
  | TxnParticipantComplete => 80
  | KafkaFetchForward => 82
  | KafkaTxnForward => 84
  | TruncateJournalNote => 86
  | TruncateJournalPush => 88
  | FetchSessionMirrorPut => 90
  | FetchSessionMirrorDelete => 92
  | IsrUpdate => 94
  | AssignmentConsensusNote => 96
  | MetadataRaftAppend => 98
  | MembershipPut => 100
  | AddBroker => 102
  | RemoveBroker => 104
  | ListMembers => 106
  | OpenraftAppend => 108
  | OpenraftVote => 110
  | OpenraftInstallSnapshot => 112
  | ReassignPartitions => 114
  | SyncGroup => 116
  end.

Definition from_u16 (v : Z) : option RequestOpcode :=
  match v with
  | 1 => Some Produce
  | 2 => Some Fetch
  | 3 => Some CreateTopic
  | 4 => Some Metadata
  | 5 => Some DeleteTopic
  | 6 => Some OffsetCommit
  | 7 => Some OffsetFetch
  | 8 => Some JoinGroup
  | 9 => Some Heartbeat
  | 10 => Some LeaveGroup
  | 20 => Some ReplicaFetch
  | 22 => Some HeartbeatBroker
  | 24 => Some ClusterState
  | 30 => Some Auth
  | 32 => Some InitProducerId
  | 34 => Some DescribeGroup
  | 36 => Some ListGroups
  | 38 => Some DeleteOffsets
  | 40 => Some DescribeConfigs
  | 42 => Some AlterConfigs
  | 44 => Some DeleteRecords
  | 46 => Some CreatePartitions
  | 48 => Some ListOffsets
  | 50 => Some BeginTxn
  | 52 => Some EndTxn
  | 54 => Some CreateAcls
  | 56 => Some DeleteAcls
  | 58 => Some ListAcls
  | 60 => Some ScramFirst
  | 62 => Some ScramFinal
  | 64 => Some CreateScramUser
  | 66 => Some DeleteScramUser
  | 68 => Some ListScramUsers
  | 70 => Some ReplicaDeleteRecords
  | 72 => Some ClusterBrokerConfig
  | 74 => Some ClusterAclSnapshot
  | 76 => Some TxnParticipantOpen
  | 78 => Some TxnParticipantPrepare
  | 80 => Some TxnParticipantComplete
  | 82 => Some KafkaFetchForward
  | 84 => Some KafkaTxnForward
  | 86 => Some TruncateJournalNote
  | 88 => Some TruncateJournalPush
  | 90 => Some FetchSessionMirrorPut
  | 92 => Some FetchSessionMirrorDelete
  | 94 => Some IsrUpdate
  | 96 => Some AssignmentConsensusNote
  | 98 => Some MetadataRaftAppend
  | 100 => Some MembershipPut
  | 102 => Some AddBroker
  | 104 => Some RemoveBroker
  | 106 => Some ListMembers
  | 108 => Some OpenraftAppend
  | 110 => Some OpenraftVote
  | 112 => Some OpenraftInstallSnapshot
  | 114 => Some ReassignPartitions
  | 116 => Some SyncGroup
  | _ => None
  end.

#[export] Instance request_opcode_eq_dec : EqDecision RequestOpcode.
Proof. solve_decision. Defined.

(** Every opcode is read back from its number. *)
Lemma request_from_u16_opcode op : from_u16 (opcode_u16 op) = Some op.
Proof. by destruct op. Qed.

Lemma request_opcode_from_u16 v op : from_u16 v = Some op → opcode_u16 op = v.
Proof.
  unfold from_u16. intros E.
  repeat match type of E with
  | match ?x with _ => _ end = _ => destruct x; try discriminate E
  end; injection E as <-; reflexivity.
Qed.
