(* ===== verification/Request.v ===== *)
(** * The requests of the native protocol: [volant-protocol/src/request.rs]

    Client to broker messages, the opcode of each, and the invariant of the
    Rust types: integers within their width, strings of valid UTF-8. *)

From Stdlib Require Import Strings.String.
From S2P Require Import Prelude Bytes Wire WireLogic Messages RequestOpcode.
#[local] Open Scope Z_scope.

Inductive Request :=
| Produce (topic : string) (partition acks : Z) (messages : list ProduceMessage)
    (producer_id producer_epoch base_sequence : Z)
| Fetch (topic : string) (partition from_offset max_messages max_bytes max_wait_ms : Z)
    (group_id member_id : string)
| CreateTopic (name : string) (partitions : Z) (configs : list (string * string))
| Metadata (topics : list string)
| DeleteTopic (name : string)
| OffsetCommit (group_id member_id : string) (generation : Z) (entries : list OffsetCommitEntry)
| OffsetFetch (group_id : string) (entries : list OffsetEntry)
| JoinGroup (group_id member_id : string) (session_timeout_ms : Z) (topics : list string)
    (group_instance_id : string) (rebalance_timeout_ms : Z)
| Heartbeat (group_id member_id : string) (generation : Z)
| LeaveGroup (group_id member_id : string)
| ReplicaFetch (topic : string) (partition from_offset max_bytes replica_id : Z)
| HeartbeatBroker
    (broker_id controller_id_known generation applied_config_generation applied_acl_generation applied_journal_generation : Z)
| ClusterState (known_generation : Z)
| Auth (token : string)
| InitProducerId (transactional_id : string)
| BeginTxn (producer_id producer_epoch : Z)
| EndTxn (producer_id producer_epoch : Z) (committed : bool) (offsets : list TxnOffsetCommit)
| DescribeGroup (group_id : string)
| ListGroups
| DeleteOffsets (group_id : string) (entries : list OffsetEntry)
| DescribeConfigs (topic : string)
| AlterConfigs (topic : string) (configs : list (string * string))
| DeleteRecords (topic : string) (partition before_offset wait_majority : Z)
| CreatePartitions (topic : string) (total_count : Z)
| ListOffsets (topic : string) (partitions : list Z) (timestamp_ms isolation : Z)
| CreateAcls (entries : list AclBinding)
| DeleteAcls (entries : list AclBinding)
| ListAcls (principal : string) (resource_type : Z) (resource : string)
| ScramFirst (username client_nonce : string) (hash : Z)
| ScramFinal (username combined_nonce : string) (client_proof : bytes)
| CreateScramUser (username password : string) (iterations : Z)
| DeleteScramUser (username : string)
| ListScramUsers
| ReplicaDeleteRecords (topic : string) (partition before_offset leader_epoch : Z)
| ClusterBrokerConfig (generation : Z) (entries : list (string * string))
| ClusterAclSnapshot (generation : Z) (snapshot : bytes)
| TxnParticipantOpen (transactional_id : string) (producer_id producer_epoch : Z)
    (enable_2pc : bool) (coordinator_node_id : Z) (install_open : bool)
| TxnParticipantPrepare (transactional_id : string) (producer_id producer_epoch : Z)
    (commit : bool)
| TxnParticipantComplete (transactional_id : string) (producer_id producer_epoch : Z)
    (commit : bool)
| KafkaFetchForward (api_version : Z) (principal : string) (body : bytes)
| KafkaTxnForward (api_key api_version : Z) (principal : string) (body : bytes)
| TruncateJournalNote (topic : string) (partition before_offset leader_epoch : Z)
| TruncateJournalPush (generation : Z) (snapshot : bytes)
| FetchSessionMirrorPut (session_id : Z) (snapshot : bytes)
| FetchSessionMirrorDelete (session_id : Z)
| IsrUpdate (topic : string) (partition leader_id leader_epoch : Z) (isr : list Z)
    (generation_hint : Z)
| AssignmentConsensusNote (generation controller_id : Z) (topics : list ClusterTopicState)
| MetadataRaftAppend (leader_id term prev_log_index prev_log_term : Z)
    (entries : list MetadataRaftLogEntry) (leader_commit : Z)
| MembershipPut (generation : Z) (brokers : list MembershipBroker)
| AddBroker (id : Z) (host : string) (port : Z) (rack : option string)
| RemoveBroker (id : Z)
| ListMembers
| OpenraftAppend (payload : bytes)
| OpenraftVote (payload : bytes)
| OpenraftInstallSnapshot (payload : bytes)
| ReassignPartitions (topic : string) (partition : Z) (replicas : list Z)
| SyncGroup (group_id member_id : string) (generation : Z) (assignment_bytes : bytes).

(** [Request::opcode] *)
Definition opcode (r : Request) : Z :=
  opcode_u16
  match r with
  | Produce _ _ _ _ _ _ _ => RequestOpcode.Produce
  | Fetch _ _ _ _ _ _ _ _ => RequestOpcode.Fetch
  | CreateTopic _ _ _ => RequestOpcode.CreateTopic
  | Metadata _ => RequestOpcode.Metadata
  | DeleteTopic _ => RequestOpcode.DeleteTopic
  | OffsetCommit _ _ _ _ => RequestOpcode.OffsetCommit
  | OffsetFetch _ _ => RequestOpcode.OffsetFetch
  | JoinGroup _ _ _ _ _ _ => RequestOpcode.JoinGroup
  | Heartbeat _ _ _ => RequestOpcode.Heartbeat
  | LeaveGroup _ _ => RequestOpcode.LeaveGroup
  | ReplicaFetch _ _ _ _ _ => RequestOpcode.ReplicaFetch
  | HeartbeatBroker _ _ _ _ _ _ => RequestOpcode.HeartbeatBroker
  | ClusterState _ => RequestOpcode.ClusterState
  | Auth _ => RequestOpcode.Auth
  | InitProducerId _ => RequestOpcode.InitProducerId
  | BeginTxn _ _ => RequestOpcode.BeginTxn
  | EndTxn _ _ _ _ => RequestOpcode.EndTxn
  | DescribeGroup _ => RequestOpcode.DescribeGroup
  | ListGroups => RequestOpcode.ListGroups
  | DeleteOffsets _ _ => RequestOpcode.DeleteOffsets
  | DescribeConfigs _ => RequestOpcode.DescribeConfigs
  | AlterConfigs _ _ => RequestOpcode.AlterConfigs
  | DeleteRecords _ _ _ _ => RequestOpcode.DeleteRecords
  | CreatePartitions _ _ => RequestOpcode.CreatePartitions
  | ListOffsets _ _ _ _ => RequestOpcode.ListOffsets
  | CreateAcls _ => RequestOpcode.CreateAcls
  | DeleteAcls _ => RequestOpcode.DeleteAcls
  | ListAcls _ _ _ => RequestOpcode.ListAcls
  | ScramFirst _ _ _ => RequestOpcode.ScramFirst
  | ScramFinal _ _ _ => RequestOpcode.ScramFinal
  | CreateScramUser _ _ _ => RequestOpcode.CreateScramUser
  | DeleteScramUser _ => RequestOpcode.DeleteScramUser
  | ListScramUsers => RequestOpcode.ListScramUsers
  | ReplicaDeleteRecords _ _ _ _ => RequestOpcode.ReplicaDeleteRecords
  | ClusterBrokerConfig _ _ => RequestOpcode.ClusterBrokerConfig
  | ClusterAclSnapshot _ _ => RequestOpcode.ClusterAclSnapshot
  | TxnParticipantOpen _ _ _ _ _ _ => RequestOpcode.TxnParticipantOpen
  | TxnParticipantPrepare _ _ _ _ => RequestOpcode.TxnParticipantPrepare
  | TxnParticipantComplete _ _ _ _ => RequestOpcode.TxnParticipantComplete
  | KafkaFetchForward _ _ _ => RequestOpcode.KafkaFetchForward
  | KafkaTxnForward _ _ _ _ => RequestOpcode.KafkaTxnForward
  | TruncateJournalNote _ _ _ _ => RequestOpcode.TruncateJournalNote
  | TruncateJournalPush _ _ => RequestOpcode.TruncateJournalPush
  | FetchSessionMirrorPut _ _ => RequestOpcode.FetchSessionMirrorPut
  | FetchSessionMirrorDelete _ => RequestOpcode.FetchSessionMirrorDelete
  | IsrUpdate _ _ _ _ _ _ => RequestOpcode.IsrUpdate
  | AssignmentConsensusNote _ _ _ => RequestOpcode.AssignmentConsensusNote
  | MetadataRaftAppend _ _ _ _ _ _ => RequestOpcode.MetadataRaftAppend
  | MembershipPut _ _ => RequestOpcode.MembershipPut
  | AddBroker _ _ _ _ => RequestOpcode.AddBroker
  | RemoveBroker _ => RequestOpcode.RemoveBroker
  | ListMembers => RequestOpcode.ListMembers
  | OpenraftAppend _ => RequestOpcode.OpenraftAppend
  | OpenraftVote _ => RequestOpcode.OpenraftVote
  | OpenraftInstallSnapshot _ => RequestOpcode.OpenraftInstallSnapshot
  | ReassignPartitions _ _ _ => RequestOpcode.ReassignPartitions
  | SyncGroup _ _ _ _ => RequestOpcode.SyncGroup
  end.

Definition request_ok (r : Request) : bool :=
  match r with
  | Produce topic partition acks messages producer_id producer_epoch base_sequence =>
    str_valid topic && is_i32 partition && is_u8 acks && forallb produce_message_ok messages &&
    is_u64 producer_id && is_u16 producer_epoch && is_i32 base_sequence
  | Fetch topic partition from_offset max_messages max_bytes max_wait_ms group_id member_id =>
    str_valid topic && is_u32 partition && is_u64 from_offset && is_u32 max_messages &&
    is_u32 max_bytes && is_u32 max_wait_ms && str_valid group_id && str_valid member_id
  | CreateTopic name partitions configs =>
    str_valid name && is_u32 partitions && forallb pair_ok configs
  | Metadata topics => forallb str_valid topics
  | DeleteTopic name => str_valid name
  | OffsetCommit group_id member_id generation entries =>
    str_valid group_id && str_valid member_id && is_u32 generation &&
    forallb offset_commit_entry_ok entries
  | OffsetFetch group_id entries => str_valid group_id && forallb offset_entry_ok entries
  | JoinGroup group_id member_id session_timeout_ms topics group_instance_id rebalance_timeout_ms =>
    str_valid group_id && str_valid member_id && is_u32 session_timeout_ms &&
    forallb str_valid topics && str_valid group_instance_id && is_u32 rebalance_timeout_ms
  | Heartbeat group_id member_id generation =>
    str_valid group_id && str_valid member_id && is_u32 generation
  | LeaveGroup group_id member_id => str_valid group_id && str_valid member_id
  | ReplicaFetch topic partition from_offset max_bytes replica_id =>
    str_valid topic && is_u32 partition && is_u64 from_offset && is_u32 max_bytes &&
    is_u32 replica_id
  | HeartbeatBroker broker_id controller_id_known generation applied_config_generation applied_acl_generation applied_journal_generation =>
    is_u32 broker_id && is_u32 controller_id_known && is_u32 generation &&
    is_u64 applied_config_generation && is_u64 applied_acl_generation &&
    is_u64 applied_journal_generation
  | ClusterState known_generation => is_u32 known_generation
  | Auth token => str_valid token
  | InitProducerId transactional_id => str_valid transactional_id
  | BeginTxn producer_id producer_epoch => is_u64 producer_id && is_u16 producer_epoch
  | EndTxn producer_id producer_epoch _ offsets =>
    is_u64 producer_id && is_u16 producer_epoch && forallb txn_offset_ok offsets
  | DescribeGroup group_id => str_valid group_id
  | ListGroups => true
  | DeleteOffsets group_id entries => str_valid group_id && forallb offset_entry_ok entries
  | DescribeConfigs topic => str_valid topic
  | AlterConfigs topic configs => str_valid topic && forallb pair_ok configs
  | DeleteRecords topic partition before_offset wait_majority =>
    str_valid topic && is_u32 partition && is_u64 before_offset && is_u8 wait_majority
  | CreatePartitions topic total_count => str_valid topic && is_u32 total_count
  | ListOffsets topic partitions timestamp_ms isolation =>
    str_valid topic && forallb is_u32 partitions && is_i64 timestamp_ms && is_u8 isolation
  | CreateAcls entries => forallb acl_ok entries
  | DeleteAcls entries => forallb acl_ok entries
  | ListAcls principal resource_type resource =>
    str_valid principal && is_u8 resource_type && str_valid resource
  | ScramFirst username client_nonce hash =>
    str_valid username && str_valid client_nonce && is_u8 hash
  | ScramFinal username combined_nonce _ => str_valid username && str_valid combined_nonce
  | CreateScramUser username password iterations =>
    str_valid username && str_valid password && is_u32 iterations
  | DeleteScramUser username => str_valid username
  | ListScramUsers => true
  | ReplicaDeleteRecords topic partition before_offset leader_epoch =>
    str_valid topic && is_u32 partition && is_u64 before_offset && is_i32 leader_epoch
  | ClusterBrokerConfig generation entries => is_u64 generation && forallb pair_ok entries
  | ClusterAclSnapshot generation _ => is_u64 generation
  | TxnParticipantOpen transactional_id producer_id producer_epoch _ coordinator_node_id _ =>
    str_valid transactional_id && is_u64 producer_id && is_u16 producer_epoch &&
    is_u32 coordinator_node_id
  | TxnParticipantPrepare transactional_id producer_id producer_epoch _ =>
    str_valid transactional_id && is_u64 producer_id && is_u16 producer_epoch
  | TxnParticipantComplete transactional_id producer_id producer_epoch _ =>
    str_valid transactional_id && is_u64 producer_id && is_u16 producer_epoch
  | KafkaFetchForward api_version principal _ => is_i16 api_version && str_valid principal
  | KafkaTxnForward api_key api_version principal _ =>
    is_i16 api_key && is_i16 api_version && str_valid principal
  | TruncateJournalNote topic partition before_offset leader_epoch =>
    str_valid topic && is_u32 partition && is_u64 before_offset && is_i32 leader_epoch
  | TruncateJournalPush generation _ => is_u64 generation
  | FetchSessionMirrorPut session_id _ => is_i32 session_id
  | FetchSessionMirrorDelete session_id => is_i32 session_id
  | IsrUpdate topic partition leader_id leader_epoch isr generation_hint =>
    str_valid topic && is_u32 partition && is_u32 leader_id && is_u32 leader_epoch &&
    forallb is_u32 isr && is_u32 generation_hint
  | AssignmentConsensusNote generation controller_id topics =>
    is_u32 generation && is_u32 controller_id && forallb cluster_topic_ok topics
  | MetadataRaftAppend leader_id term prev_log_index prev_log_term entries leader_commit =>
    is_u32 leader_id && is_u64 term && is_u64 prev_log_index && is_u64 prev_log_term &&
    forallb raft_entry_ok entries && is_u64 leader_commit
  | MembershipPut generation brokers => is_u64 generation && forallb membership_broker_ok brokers
  | AddBroker id host port rack => is_u32 id && str_valid host && is_u16 port && rack_ok rack
  | RemoveBroker id => is_u32 id
  | ListMembers => true
  | OpenraftAppend _ => true
  | OpenraftVote _ => true
  | OpenraftInstallSnapshot _ => true
  | ReassignPartitions topic partition replicas =>
    str_valid topic && is_u32 partition && forallb is_u32 replicas
  | SyncGroup group_id member_id generation _ =>
    str_valid group_id && str_valid member_id && is_u32 generation
  end.
