(* ===== verification/RequestProps.v ===== *)
(** * Request payloads: [encode_request] and [decode_request] of [volant-protocol/src/payload.rs]

    The arms of the two functions in the order of the source, in groups.  A
    field added to a request after its first version is a trailer: the encoder
    always writes it, the decoder takes a default when the bytes end before. *)

From Stdlib Require Import Strings.String.
From S2P Require Import Prelude Bytes Wire Messages RequestOpcode Request.
#[local] Open Scope Z_scope.

(** The arms of [IsrUpdate] to [SyncGroup]; the other requests have theirs before. *)
Definition encode_cluster_request (req : Request) : result bytes :=
  match req with
  | IsrUpdate topic partition leader_id leader_epoch isr generation_hint =>
    put_string topic ⊕ put_u32_le partition ⊕ put_u32_le leader_id ⊕ put_u32_le leader_epoch ⊕
    put_vec put_u32_le isr ⊕ put_u32_le generation_hint
  | AssignmentConsensusNote generation controller_id topics =>
    put_u32_le generation ⊕ put_u32_le controller_id ⊕ put_cluster_topics topics
  | MetadataRaftAppend leader_id term prev_log_index prev_log_term entries leader_commit =>
    put_u32_le leader_id ⊕ put_u64_le term ⊕ put_u64_le prev_log_index ⊕
    put_u64_le prev_log_term ⊕ put_vec put_raft_entry entries ⊕ put_u64_le leader_commit
  | MembershipPut generation brokers =>
    put_u64_le generation ⊕ put_vec put_membership_broker brokers
  | AddBroker id host port rack =>
    put_membership_broker (mkMembershipBroker id host port rack)
  | RemoveBroker id =>
    put_u32_le id
  | ListMembers =>
    put_nothing
  | OpenraftAppend payload =>
    put_bytes payload
  | OpenraftVote payload =>
    put_bytes payload
  | OpenraftInstallSnapshot payload =>
    put_bytes payload
  | ReassignPartitions topic partition replicas =>
    put_string topic ⊕ put_u32_le partition ⊕ put_vec put_u32_le replicas
  | SyncGroup group_id member_id generation assignment_bytes =>
    put_string group_id ⊕ put_string member_id ⊕ put_u32_le generation ⊕
    put_bytes assignment_bytes
  | _ => put_nothing
  end.

(** The arms of [CreateScramUser] to [FetchSessionMirrorDelete]. *)
Definition encode_txn_request (req : Request) : result bytes :=
  match req with
  | CreateScramUser username password iterations =>
    put_string username ⊕ put_string password ⊕ put_u32_le iterations
  | DeleteScramUser username =>
    put_string username
  | ListScramUsers =>
    put_nothing
  | ReplicaDeleteRecords topic partition before_offset leader_epoch =>
    put_string topic ⊕ put_u32_le partition ⊕ put_u64_le before_offset ⊕ put_i32_le leader_epoch
  | ClusterBrokerConfig generation entries =>
    put_u64_le generation ⊕
    if u16_max <? zlen entries
    then Err (Protocol "cluster broker config entry count too large")
    else put_u16_le (as_u16 (zlen entries)) ⊕ put_each put_pair entries
  | ClusterAclSnapshot generation snapshot =>
    put_u64_le generation ⊕ put_bytes snapshot
  | TxnParticipantOpen transactional_id producer_id producer_epoch enable_2pc coordinator_node_id
    install_open =>
    put_string transactional_id ⊕ put_u64_le producer_id ⊕ put_u16_le producer_epoch ⊕
    put_bool enable_2pc ⊕ put_u32_le coordinator_node_id ⊕ put_bool install_open
  | TxnParticipantPrepare transactional_id producer_id producer_epoch commit =>
    put_string transactional_id ⊕ put_u64_le producer_id ⊕ put_u16_le producer_epoch ⊕
    put_bool commit
  | TxnParticipantComplete transactional_id producer_id producer_epoch commit =>
    put_string transactional_id ⊕ put_u64_le producer_id ⊕ put_u16_le producer_epoch ⊕
    put_bool commit
  | KafkaFetchForward api_version principal body =>
    put_i16_le api_version ⊕ put_string principal ⊕ put_bytes body
  | KafkaTxnForward api_key api_version principal body =>
    put_i16_le api_key ⊕ put_i16_le api_version ⊕ put_string principal ⊕ put_bytes body
  | TruncateJournalNote topic partition before_offset leader_epoch =>
    put_string topic ⊕ put_u32_le partition ⊕ put_u64_le before_offset ⊕ put_i32_le leader_epoch
  | TruncateJournalPush generation snapshot =>
    put_u64_le generation ⊕ put_bytes snapshot
  | FetchSessionMirrorPut session_id snapshot =>
    put_i32_le session_id ⊕ put_bytes snapshot
  | FetchSessionMirrorDelete session_id =>
    put_i32_le session_id
  | _ => encode_cluster_request req
  end.

(** The arms of [HeartbeatBroker] to [ScramFinal]. *)
Definition encode_admin_request (req : Request) : result bytes :=
  match req with
  | HeartbeatBroker broker_id controller_id_known generation applied_config_generation
    applied_acl_generation applied_journal_generation =>
    put_u32_le broker_id ⊕ put_u32_le controller_id_known ⊕ put_u32_le generation ⊕
    put_u64_le applied_config_generation ⊕ put_u64_le applied_acl_generation ⊕
    put_u64_le applied_journal_generation
  | ClusterState known_generation =>
    put_u32_le known_generation
  | Auth token =>
    put_string token
  | InitProducerId transactional_id =>
    put_string transactional_id
  | BeginTxn producer_id producer_epoch =>
    put_u64_le producer_id ⊕ put_u16_le producer_epoch
  | EndTxn producer_id producer_epoch committed offsets =>
    put_u64_le producer_id ⊕ put_u16_le producer_epoch ⊕ put_bool committed ⊕
    put_vec put_txn_offset offsets
  | DescribeGroup group_id =>
    put_string group_id
  | ListGroups =>
    put_nothing
  | DeleteOffsets group_id entries =>
    put_string group_id ⊕ put_vec put_offset_entry entries
  | DescribeConfigs topic =>
    put_string topic
  | AlterConfigs topic configs =>
    put_string topic ⊕ put_vec put_pair configs
  | DeleteRecords topic partition before_offset wait_majority =>
    put_string topic ⊕ put_u32_le partition ⊕ put_u64_le before_offset ⊕ put_u8 wait_majority
  | CreatePartitions topic total_count =>
    put_string topic ⊕ put_u32_le total_count
  | ListOffsets topic partitions timestamp_ms isolation =>
    put_string topic ⊕ put_vec put_u32_le partitions ⊕ put_i64_le timestamp_ms ⊕
    (if negb (isolation =? 0) then put_u8 isolation else put_nothing)
  | CreateAcls entries =>
    put_vec put_acl_binding entries
  | DeleteAcls entries =>
    put_vec put_acl_binding entries
  | ListAcls principal resource_type resource =>
    put_string principal ⊕ put_u8 resource_type ⊕ put_string resource
  | ScramFirst username client_nonce hash =>
    put_string username ⊕ put_string client_nonce ⊕ put_u8 hash
  | ScramFinal username combined_nonce client_proof =>
    put_string username ⊕ put_string combined_nonce ⊕ put_bytes client_proof
  | _ => encode_txn_request req
  end.

(** [encode_request], the arms of [Produce] to [ReplicaFetch]. *)
Definition encode_client_request (req : Request) : result bytes :=
  match req with
  | Produce topic partition acks messages producer_id producer_epoch base_sequence =>
    put_string topic ⊕ put_i32_le partition ⊕ put_u8 acks ⊕ put_vec put_produce_message messages ⊕
    put_u64_le producer_id ⊕ put_u16_le producer_epoch ⊕ put_i32_le base_sequence
  | Fetch topic partition from_offset max_messages max_bytes max_wait_ms group_id member_id =>
    put_string topic ⊕ put_u32_le partition ⊕ put_u64_le from_offset ⊕ put_u32_le max_messages ⊕
    put_u32_le max_bytes ⊕ put_u32_le max_wait_ms ⊕ put_string group_id ⊕ put_string member_id
  | CreateTopic name partitions configs =>
    put_string name ⊕ put_u32_le partitions ⊕ put_vec put_pair configs
  | Metadata topics =>
    put_vec put_string topics
  | DeleteTopic name =>
    put_string name
  | OffsetCommit group_id member_id generation entries =>
    put_string group_id ⊕ put_string member_id ⊕ put_u32_le generation ⊕
    put_vec put_offset_commit_entry entries
  | OffsetFetch group_id entries =>
    put_string group_id ⊕ put_vec put_offset_entry entries
  | JoinGroup group_id member_id session_timeout_ms topics group_instance_id rebalance_timeout_ms
    =>
    put_string group_id ⊕ put_string member_id ⊕ put_u32_le session_timeout_ms ⊕
    put_vec put_string topics ⊕ put_string group_instance_id ⊕ put_u32_le rebalance_timeout_ms
  | Heartbeat group_id member_id generation =>
    put_string group_id ⊕ put_string member_id ⊕ put_u32_le generation
  | LeaveGroup group_id member_id =>
    put_string group_id ⊕ put_string member_id
  | ReplicaFetch topic partition from_offset max_bytes replica_id =>
    put_string topic ⊕ put_u32_le partition ⊕ put_u64_le from_offset ⊕ put_u32_le max_bytes ⊕
    put_u32_le replica_id
  | _ => encode_admin_request req
  end.

Definition encode_request (req : Request) : result bytes :=
  let? dst := encode_client_request req in finish_payload dst.

(** ** Trailers *)

(** Produce: producer id, epoch and base sequence. *)
Definition get_producer : reader (Z * Z * Z) :=
  when_remaining (8 + 2 + 4)
    (producer_id ← get_u64_le;
     producer_epoch ← get_u16_le;
     base_sequence ← get_i32_le;
     mret (producer_id, producer_epoch, base_sequence))
    (0, 0, -1).

(** HeartbeatBroker: three generations, or the first two. *)
Definition get_applied_generations : reader (Z * Z * Z) :=
  rem ← remaining;
  if 24 <=? rem then
    config ← get_u64_le; acl ← get_u64_le; journal ← get_u64_le; mret (config, acl, journal)
  else if 16 <=? rem then
    config ← get_u64_le; acl ← get_u64_le; mret (config, acl, 0)
  else mret (0, 0, 0).

(** ListOffsets: timestamp, then isolation. *)
Definition get_list_offsets_trailer : reader (Z * Z) :=
  when_remaining 8
    (ts ← get_i64_le;
     iso ← when_remaining 1 get_u8 LIST_OFFSETS_READ_UNCOMMITTED;
     mret (ts, iso))
    (LIST_OFFSETS_LATEST, LIST_OFFSETS_READ_UNCOMMITTED).

(** TxnParticipantOpen: coordinator node and the install flag. *)
Definition get_coordinator : reader (Z * bool) :=
  rem ← remaining;
  if 5 <=? rem then c ← get_u32_le; install ← get_bool; mret (c, install)
  else if 4 <=? rem then c ← get_u32_le; mret (c, true)
  else mret (0, true).

(** ** Decoding *)

(** The arms of [AssignmentConsensusNote] to [SyncGroup]; the other opcodes have theirs before. *)
Definition decode_cluster_request (op : RequestOpcode) : reader Request :=
  match op with
  | RequestOpcode.AssignmentConsensusNote =>
    need (4 + 4 + 4) "truncated assignment consensus note header";;
    generation ← get_u32_le;
    controller_id ← get_u32_le;
    topics ← get_cluster_topics;
    mret (Request.AssignmentConsensusNote generation controller_id topics)
  | RequestOpcode.MetadataRaftAppend =>
    need (4 + 8 + 8 + 8 + 4) "truncated metadata raft append header";;
    leader_id ← get_u32_le;
    term ← get_u64_le;
    prev_log_index ← get_u64_le;
    prev_log_term ← get_u64_le;
    entry_count ← get_u32_le;
    entries ← times entry_count get_raft_entry;
    need 8 "truncated metadata raft leader_commit";;
    leader_commit ← get_u64_le;
    mret (Request.MetadataRaftAppend leader_id term prev_log_index prev_log_term entries
      leader_commit)
  | RequestOpcode.MembershipPut =>
    need (8 + 4) "truncated membership put header";;
    generation ← get_u64_le;
    count ← get_u32_le;
    brokers ← times count get_membership_broker;
    mret (Request.MembershipPut generation brokers)
  | RequestOpcode.AddBroker =>
    b ← get_membership_broker;
    mret (Request.AddBroker (mb_id b) (mb_host b) (mb_port b) (mb_rack b))
  | RequestOpcode.RemoveBroker =>
    need 4 "truncated remove broker";;
    id ← get_u32_le;
    mret (Request.RemoveBroker id)
  | RequestOpcode.ListMembers =>
    mret Request.ListMembers
  | RequestOpcode.OpenraftAppend =>
    payload ← get_bytes;
    mret (Request.OpenraftAppend payload)
  | RequestOpcode.OpenraftVote =>
    payload ← get_bytes;
    mret (Request.OpenraftVote payload)
  | RequestOpcode.OpenraftInstallSnapshot =>
    payload ← get_bytes;
    mret (Request.OpenraftInstallSnapshot payload)
  | RequestOpcode.ReassignPartitions =>
    topic ← get_string;
    need (4 + 4) "truncated reassign partitions header";;
    partition ← get_u32_le;
    count ← get_u32_le;
    need (u64_saturating_mul count 4) "truncated reassign partitions replicas";;
    replicas ← times count get_u32_le;
    mret (Request.ReassignPartitions topic partition replicas)
  | RequestOpcode.SyncGroup =>
    group_id ← get_string;
    member_id ← get_string;
    need 4 "truncated sync group generation";;
    generation ← get_u32_le;
    assignment_bytes ← get_bytes;
    mret (Request.SyncGroup group_id member_id generation assignment_bytes)
  | _ => fail "unknown opcode"
  end.

(** The arms of [TxnParticipantPrepare] to [IsrUpdate]. *)
Definition decode_txn_request (op : RequestOpcode) : reader Request :=
  match op with
  | RequestOpcode.TxnParticipantPrepare =>
    transactional_id ← get_string;
    need (8 + 2 + 1) "truncated txn participant prepare";;
    producer_id ← get_u64_le;
    producer_epoch ← get_u16_le;
    commit ← get_bool;
    mret (Request.TxnParticipantPrepare transactional_id producer_id producer_epoch commit)
  | RequestOpcode.TxnParticipantComplete =>
    transactional_id ← get_string;
    need (8 + 2 + 1) "truncated txn participant complete";;
    producer_id ← get_u64_le;
    producer_epoch ← get_u16_le;
    commit ← get_bool;
    mret (Request.TxnParticipantComplete transactional_id producer_id producer_epoch commit)
  | RequestOpcode.KafkaFetchForward =>
    need 2 "truncated kafka fetch forward version";;
    api_version ← get_i16_le;
    principal ← get_string;
    body ← get_bytes;
    mret (Request.KafkaFetchForward api_version principal body)
  | RequestOpcode.KafkaTxnForward =>
    need 4 "truncated kafka txn forward header";;
    api_key ← get_i16_le;
    api_version ← get_i16_le;
    principal ← get_string;
    body ← get_bytes;
    mret (Request.KafkaTxnForward api_key api_version principal body)
  | RequestOpcode.TruncateJournalNote =>
    topic ← get_string;
    need (4 + 8 + 4) "truncated truncate journal note";;
    partition ← get_u32_le;
    before_offset ← get_u64_le;
    leader_epoch ← get_i32_le;
    mret (Request.TruncateJournalNote topic partition before_offset leader_epoch)
  | RequestOpcode.TruncateJournalPush =>
    need 8 "truncated truncate journal push generation";;
    generation ← get_u64_le;
    snapshot ← get_bytes;
    mret (Request.TruncateJournalPush generation snapshot)
  | RequestOpcode.FetchSessionMirrorPut =>
    need 4 "truncated fetch session mirror put session_id";;
    session_id ← get_i32_le;
    snapshot ← get_bytes;
    mret (Request.FetchSessionMirrorPut session_id snapshot)
  | RequestOpcode.FetchSessionMirrorDelete =>
    need 4 "truncated fetch session mirror delete session_id";;
    session_id ← get_i32_le;
    mret (Request.FetchSessionMirrorDelete session_id)
  | RequestOpcode.IsrUpdate =>
    topic ← get_string;
    need (4 + 4 + 4 + 4) "truncated isr update header";;
    partition ← get_u32_le;
    leader_id ← get_u32_le;
    leader_epoch ← get_u32_le;
    isr_count ← get_u32_le;
    need (u64_saturating_add (u64_saturating_mul isr_count 4) 4) "truncated isr update
      isr/generation";;
    isr ← times isr_count get_u32_le;
    generation_hint ← get_u32_le;
    mret (Request.IsrUpdate topic partition leader_id leader_epoch isr generation_hint)
  | _ => decode_cluster_request op
  end.

(** The arms of [DeleteAcls] to [TxnParticipantOpen]. *)
Definition decode_security_request (op : RequestOpcode) : reader Request :=
  match op with
  | RequestOpcode.DeleteAcls =>
    need 4 "truncated delete acls count";;
    n ← get_u32_le;
    entries ← times n get_acl_binding;
    mret (Request.DeleteAcls entries)
  | RequestOpcode.ListAcls =>
    principal ← get_string;
    need 1 "truncated list acls resource_type";;
    resource_type ← get_u8;
    resource ← get_string;
    mret (Request.ListAcls principal resource_type resource)
  | RequestOpcode.ScramFirst =>
    username ← get_string;
    client_nonce ← get_string;
    hash ← when_remaining 1 get_u8 0;
    mret (Request.ScramFirst username client_nonce hash)
  | RequestOpcode.ScramFinal =>
    username ← get_string;
    combined_nonce ← get_string;
    client_proof ← get_bytes;
    mret (Request.ScramFinal username combined_nonce client_proof)
  | RequestOpcode.CreateScramUser =>
    username ← get_string;
    password ← get_string;
    need 4 "truncated create scram user iterations";;
    iterations ← get_u32_le;
    mret (Request.CreateScramUser username password iterations)
  | RequestOpcode.DeleteScramUser =>
    username ← get_string;
    mret (Request.DeleteScramUser username)
  | RequestOpcode.ListScramUsers =>
    mret Request.ListScramUsers
  | RequestOpcode.ReplicaDeleteRecords =>
    topic ← get_string;
    need (4 + 8 + 4) "truncated replica delete records";;
    partition ← get_u32_le;
    before_offset ← get_u64_le;
    leader_epoch ← get_i32_le;
    mret (Request.ReplicaDeleteRecords topic partition before_offset leader_epoch)
  | RequestOpcode.ClusterBrokerConfig =>
    need (8 + 2) "truncated cluster broker config header";;
    generation ← get_u64_le;
    n ← get_u16_le;
    entries ← times n get_pair;
    mret (Request.ClusterBrokerConfig generation entries)
  | RequestOpcode.ClusterAclSnapshot =>
    need 8 "truncated cluster acl snapshot generation";;
    generation ← get_u64_le;
    snapshot ← get_bytes;
    mret (Request.ClusterAclSnapshot generation snapshot)
  | RequestOpcode.TxnParticipantOpen =>
    transactional_id ← get_string;
    need (8 + 2 + 1) "truncated txn participant open";;
    producer_id ← get_u64_le;
    producer_epoch ← get_u16_le;
    enable_2pc ← get_bool;
    '(coordinator_node_id, install_open) ← get_coordinator;
    mret (Request.TxnParticipantOpen transactional_id producer_id producer_epoch enable_2pc
      coordinator_node_id install_open)
  | _ => decode_txn_request op
  end.

(** The arms of [EndTxn] to [CreateAcls]. *)
Definition decode_admin_request (op : RequestOpcode) : reader Request :=
  match op with
  | RequestOpcode.EndTxn =>
    need (8 + 2 + 1 + 4) "truncated end txn";;
    producer_id ← get_u64_le;
    producer_epoch ← get_u16_le;
    committed ← get_bool;
    offset_count ← get_u32_le;
    offsets ← times offset_count get_txn_offset;
    mret (Request.EndTxn producer_id producer_epoch committed offsets)
  | RequestOpcode.DescribeGroup =>
    group_id ← get_string;
    mret (Request.DescribeGroup group_id)
  | RequestOpcode.ListGroups =>
    mret Request.ListGroups
  | RequestOpcode.DeleteOffsets =>
    group_id ← get_string;
    need 4 "truncated delete offsets count";;
    entry_count ← get_u32_le;
    entries ← times entry_count (get_offset_entry "truncated delete offsets partition");
    mret (Request.DeleteOffsets group_id entries)
  | RequestOpcode.DescribeConfigs =>
    topic ← get_string;
    mret (Request.DescribeConfigs topic)
  | RequestOpcode.AlterConfigs =>
    topic ← get_string;
    need 4 "truncated alter configs count";;
    n ← get_u32_le;
    configs ← times n get_pair;
    mret (Request.AlterConfigs topic configs)
  | RequestOpcode.DeleteRecords =>
    topic ← get_string;
    need (4 + 8) "truncated delete records";;
    partition ← get_u32_le;
    before_offset ← get_u64_le;
    wait_majority ← when_remaining 1 get_u8 0;
    mret (Request.DeleteRecords topic partition before_offset wait_majority)
  | RequestOpcode.CreatePartitions =>
    topic ← get_string;
    need 4 "truncated create partitions";;
    total_count ← get_u32_le;
    mret (Request.CreatePartitions topic total_count)
  | RequestOpcode.ListOffsets =>
    topic ← get_string;
    need 4 "truncated list offsets count";;
    n ← get_u32_le;
    partitions ← times n (get_u32_checked "truncated list offsets partition");
    '(timestamp_ms, isolation) ← get_list_offsets_trailer;
    mret (Request.ListOffsets topic partitions timestamp_ms isolation)
  | RequestOpcode.CreateAcls =>
    need 4 "truncated create acls count";;
    n ← get_u32_le;
    entries ← times n get_acl_binding;
    mret (Request.CreateAcls entries)
  | _ => decode_security_request op
  end.

(** The arms of [OffsetFetch] to [BeginTxn]. *)
Definition decode_group_request (op : RequestOpcode) : reader Request :=
  match op with
  | RequestOpcode.OffsetFetch =>
    group_id ← get_string;
    need 4 "truncated offset fetch entry count";;
    entry_count ← get_u32_le;
    entries ← times entry_count (get_offset_entry "truncated offset fetch partition");
    mret (Request.OffsetFetch group_id entries)
  | RequestOpcode.JoinGroup =>
    group_id ← get_string;
    member_id ← get_string;
    need (4 + 4) "truncated join group header";;
    session_timeout_ms ← get_u32_le;
    topic_count ← get_u32_le;
    topics ← times topic_count get_string;
    group_instance_id ← when_remaining 1 get_string ""%string;
    rebalance_timeout_ms ← when_remaining 4 get_u32_le 0;
    mret (Request.JoinGroup group_id member_id session_timeout_ms topics group_instance_id
      rebalance_timeout_ms)
  | RequestOpcode.Heartbeat =>
    group_id ← get_string;
    member_id ← get_string;
    need 4 "truncated heartbeat generation";;
    generation ← get_u32_le;
    mret (Request.Heartbeat group_id member_id generation)
  | RequestOpcode.LeaveGroup =>
    group_id ← get_string;
    member_id ← get_string;
    mret (Request.LeaveGroup group_id member_id)
  | RequestOpcode.ReplicaFetch =>
    topic ← get_string;
    need (4 + 8 + 4 + 4) "truncated replica fetch";;
    partition ← get_u32_le;
    from_offset ← get_u64_le;
    max_bytes ← get_u32_le;
    replica_id ← get_u32_le;
    mret (Request.ReplicaFetch topic partition from_offset max_bytes replica_id)
  | RequestOpcode.HeartbeatBroker =>
    need (4 + 4 + 4) "truncated heartbeat broker";;
    broker_id ← get_u32_le;
    controller_id_known ← get_u32_le;
    generation ← get_u32_le;
    '(config, acl, journal) ← get_applied_generations;
    mret (Request.HeartbeatBroker broker_id controller_id_known generation config acl journal)
  | RequestOpcode.ClusterState =>
    need 4 "truncated cluster state request";;
    known_generation ← get_u32_le;
    mret (Request.ClusterState known_generation)
  | RequestOpcode.Auth =>
    token ← get_string;
    mret (Request.Auth token)
  | RequestOpcode.InitProducerId =>
    transactional_id ← when_remaining 1 get_string ""%string;
    mret (Request.InitProducerId transactional_id)
  | RequestOpcode.BeginTxn =>
    need (8 + 2) "truncated begin txn";;
    producer_id ← get_u64_le;
    producer_epoch ← get_u16_le;
    mret (Request.BeginTxn producer_id producer_epoch)
  | _ => decode_admin_request op
  end.

(** [decode_request], the arms of [Produce] to [OffsetCommit]. *)
Definition decode_produce_request (op : RequestOpcode) : reader Request :=
  match op with
  | RequestOpcode.Produce =>
    topic ← get_string;
    need (4 + 1 + 4) "truncated produce header";;
    partition ← get_i32_le;
    acks ← get_u8;
    message_count ← get_u32_le;
    messages ← times message_count get_produce_message;
    '(producer_id, producer_epoch, base_sequence) ← get_producer;
    mret (Request.Produce topic partition acks messages producer_id producer_epoch base_sequence)
  | RequestOpcode.Fetch =>
    topic ← get_string;
    need (4 + 8 + 4 + 4 + 4) "truncated fetch request";;
    partition ← get_u32_le;
    from_offset ← get_u64_le;
    max_messages ← get_u32_le;
    max_bytes ← get_u32_le;
    max_wait_ms ← get_u32_le;
    '(group_id, member_id) ← when_remaining 1 get_pair ("", "")%string;
    mret (Request.Fetch topic partition from_offset max_messages max_bytes max_wait_ms group_id
      member_id)
  | RequestOpcode.CreateTopic =>
    name ← get_string;
    need 4 "truncated create topic partitions";;
    partitions ← get_u32_le;
    configs ← when_remaining 4 (n ← get_u32_le; times n get_pair) [];
    mret (Request.CreateTopic name partitions configs)
  | RequestOpcode.Metadata =>
    need 4 "truncated metadata topic count";;
    count ← get_u32_le;
    topics ← times count get_string;
    mret (Request.Metadata topics)
  | RequestOpcode.DeleteTopic =>
    name ← get_string;
    mret (Request.DeleteTopic name)
  | RequestOpcode.OffsetCommit =>
    group_id ← get_string;
    member_id ← get_string;
    need (4 + 4) "truncated offset commit header";;
    generation ← get_u32_le;
    entry_count ← get_u32_le;
    entries ← times entry_count get_offset_commit_entry;
    mret (Request.OffsetCommit group_id member_id generation entries)
  | _ => decode_group_request op
  end.

Definition decode_request (opcode : Z) (payload : bytes) : outcome Request :=
  if MAX_PAYLOAD <? zlen payload then Bad (Protocol "payload too large") else
  match from_u16 opcode with
  | None => Bad (Protocol "unknown request opcode")
  | Some op => decode_produce_request op payload
  end.

(** * Requests survive the wire *)

From S2P Require Import WireLogic MessageCodecs.
#[local] Open Scope Z_scope.

Ltac unfold_trailers :=
  unfold get_producer, get_applied_generations, get_list_offsets_trailer, get_coordinator.

Lemma rd_count16 {A B} (xs : list A) rest (f : Z → reader B) :
  zlen xs ≤ u16_max →
  (get_u16_le ≫= f) (le_bytes 2 (as_u16 (zlen xs)) ++ rest) = f (zlen xs) rest.
Proof.
  unfold u16_max. intros Hn. pose proof (zlen_nonneg xs). rewrite as_u16_small by lia.
  apply rd_u16. unfold is_u16. zb_eq.
Qed.

(** What the encoder of the body writes, the decoder of the opcode reads. *)
Lemma request_body_roundtrip r b :
  request_ok r = true → encode_client_request r = Ok b → zlen b ≤ MAX_PAYLOAD →
  ∃ op, from_u16 (opcode r) = Some op ∧ decode_produce_request op (b ++ []) = Got r [].
Proof.
  intros Hok Hd Hmax. unfold opcode. eexists. split; [apply request_from_u16_opcode|].
  destruct r; cbn in Hok, Hd; ok_inv; put_inv Hd; cbn; unfold_trailers; try solve [reads].
  - unfold get_pair. reads.
  - destruct (Z.eqb_spec isolation 0); cbn in *; put_inv Hp1; reads. by subst.
  - destruct (Z.ltb_spec u16_max (zlen entries)); [done|]. put_inv Hp0. size_facts.
    rewrite <- ?app_assoc. do 2 rd. rewrite rd_count16 by done. repeat rd.
  - match goal with H : put_cluster_topics _ = Ok ?b |- _ =>
      assert (4 ≤ zlen b) by (clear Hmax; unfold put_cluster_topics in H; put_inv H; size) end.
    reads.
  - rewrite (rd_codec (put := put_membership_broker) (mkMembershipBroker id host port rack)); [done| |done..].
    unfold membership_broker_ok. cbn. by rewrite Hok0, Hok1, Hok2, Hok3.
Qed.

(** The decoder of every opcode is safe and returns a request of that opcode. *)
Lemma decode_body_safe op :
  wp 0 (decode_produce_request op) (λ r _, request_ok r = true ∧ opcode r = opcode_u16 op).
Proof.
  destruct op; cbn; unfold_trailers; repeat (wp_step; cbn beta iota); (split; [ok_goal|done]).
Qed.

(** C16: every request survives the wire: if its fields are of their types
    and it is encoded without error, the decoder called with its opcode
    returns it, with nothing left over. *)
Theorem request_roundtrip r bs :
  request_ok r = true → encode_request r = Ok bs → decode_request (opcode r) bs = Got r [].
Proof.
  intros Hok He. unfold encode_request, finish_payload in He.
  destruct (encode_client_request r) as [b|] eqn:Hd; [|done]. case_if_in He; [done|].
  injection He as <-. destruct (request_body_roundtrip r b) as (op & Hop & Hr); [done..|].
  unfold decode_request. rewrite Zltb_false, Hop by done. by rewrite app_nil_r in Hr.
Qed.

Lemma request_roundtrip_witness :
  let r := Produce "t" (-1) 1 [mkProduceMessage None [x61] 5 [("h"%string, [x62])]] 7 1 (-1) in
  ∃ bs, encode_request r = Ok bs ∧ decode_request (opcode r) bs = Got r [].
Proof.
  eexists. split; [reflexivity|]. apply (request_roundtrip _); reflexivity.
Defined.

(** C17: the decoder of requests is total on hostile input: for any opcode and
    any bytes it never panics, and a request it returns has that opcode and
    fields of their types. *)
Theorem decode_request_safe code payload :
  match decode_request code payload with
  | Got r _ => request_ok r = true ∧ opcode r = code
  | Bad _ => True
  | Panic => False
  end.
Proof.
  unfold decode_request. case_if; [done|]. destruct (from_u16 code) as [op|] eqn:E; [|done].
  pose proof (decode_body_safe op payload ltac:(zlen_facts; lia)) as Hs.
  destruct (decode_produce_request op payload) as [r rest| |]; [|done..].
  destruct Hs as (_ & _ & Hok & Hop). split; [done|].
  rewrite Hop. by apply request_opcode_from_u16.
Qed.
