(* ===== verification/ResponseOpcode.v ===== *)
(** * The response opcodes: [ResponseOpcode] of [volant-protocol/src/response.rs] *)

From S2P Require Import Prelude.
#[local] Open Scope Z_scope.

Inductive ResponseOpcode :=
| Produce
| Fetch
| CreateTopic
| Metadata
| DeleteTopic
| OffsetCommit
| OffsetFetch
| JoinGroup
| Heartbeat
| LeaveGroup
| ReplicaFetch
| HeartbeatBroker
| ClusterState
| Auth
| InitProducerId
| DescribeGroup
| ListGroups
| DeleteOffsets
| DescribeConfigs
| AlterConfigs
| DeleteRecords
| CreatePartitions
| ListOffsets
| BeginTxn
| EndTxn
| CreateAcls
| DeleteAcls
| ListAcls
| ScramFirst
| ScramFinal
| CreateScramUser
| DeleteScramUser
| ListScramUsers
| ReplicaDeleteRecords
| ClusterBrokerConfig
| ClusterAclSnapshot
| TxnParticipantOpen
| TxnParticipantPrepare
| TxnParticipantComplete
| KafkaFetchForward
| KafkaTxnForward
| TruncateJournalNote
| TruncateJournalPush
| FetchSessionMirrorPut
| FetchSessionMirrorDelete
| IsrUpdate
| AssignmentConsensusNote
| MetadataRaftAppend
| MembershipPut
| AddBroker
| RemoveBroker
| ListMembers
| OpenraftAppend
| OpenraftVote
| OpenraftInstallSnapshot
| ReassignPartitions
| SyncGroup
| Error.

(** [op as u16] *)
Definition opcode_u16 (op : ResponseOpcode) : Z :=
  match op with
  | Produce => 1
  | Fetch => 2
  | CreateTopic => 3
  | Metadata => 4
  | DeleteTopic => 5
  | OffsetCommit => 6
  | OffsetFetch => 7
  | JoinGroup => 8
  | Heartbeat => 9
  | LeaveGroup => 10
  | ReplicaFetch => 21
  | HeartbeatBroker => 23
  | ClusterState => 25
  | Auth => 31
  | InitProducerId => 33
  | DescribeGroup => 35
  | ListGroups => 37
  | DeleteOffsets => 39
  | DescribeConfigs => 41
  | AlterConfigs => 43
  | DeleteRecords => 45
  | CreatePartitions => 47
  | ListOffsets => 49
  | BeginTxn => 51
  | EndTxn => 53
  | CreateAcls => 55
  | DeleteAcls => 57
  | ListAcls => 59
  | ScramFirst => 61
  | ScramFinal => 63
  | CreateScramUser => 65
  | DeleteScramUser => 67
  | ListScramUsers => 69
  | ReplicaDeleteRecords => 71
  | ClusterBrokerConfig => 73
  | ClusterAclSnapshot => 75
  | TxnParticipantOpen => 77
  | TxnParticipantPrepare => 79
  | TxnParticipantComplete => 81
  | KafkaFetchForward => 83
  | KafkaTxnForward => 85
  | TruncateJournalNote => 87
  | TruncateJournalPush => 89
  | FetchSessionMirrorPut => 91
  | FetchSessionMirrorDelete => 93
  | IsrUpdate => 95
  | AssignmentConsensusNote => 97
  | MetadataRaftAppend => 99
  | MembershipPut => 101
  | AddBroker => 103
  | RemoveBroker => 105
  | ListMembers => 107
  | OpenraftAppend => 109
  | OpenraftVote => 111
  | OpenraftInstallSnapshot => 113
  | ReassignPartitions => 115
  | SyncGroup => 117
  | Error => 65535
  end.

Definition from_u16 (v : Z) : option ResponseOpcode :=
  match v with
  | 1 => Some Produce
  | 2 => Some Fetch
  | 3 => Some CreateTopic
  | 4 => Some Metadata
  | 5 => Some DeleteTopic
  | 6 => Some OffsetCommit
  | 7 => Some OffsetFetch
  | 8 => Some JoinGroup
  | 9 => Some Heartbeat
  | 10 => Some LeaveGroup
  | 21 => Some ReplicaFetch
  | 23 => Some HeartbeatBroker
  | 25 => Some ClusterState
  | 31 => Some Auth
  | 33 => Some InitProducerId
  | 35 => Some DescribeGroup
  | 37 => Some ListGroups
  | 39 => Some DeleteOffsets
  | 41 => Some DescribeConfigs
  | 43 => Some AlterConfigs
  | 45 => Some DeleteRecords
  | 47 => Some CreatePartitions
  | 49 => Some ListOffsets
  | 51 => Some BeginTxn
  | 53 => Some EndTxn
  | 55 => Some CreateAcls
  | 57 => Some DeleteAcls
  | 59 => Some ListAcls
  | 61 => Some ScramFirst
  | 63 => Some ScramFinal
  | 65 => Some CreateScramUser
  | 67 => Some DeleteScramUser
  | 69 => Some ListScramUsers
  | 71 => Some ReplicaDeleteRecords
  | 73 => Some ClusterBrokerConfig
  | 75 => Some ClusterAclSnapshot
  | 77 => Some TxnParticipantOpen
  | 79 => Some TxnParticipantPrepare
  | 81 => Some TxnParticipantComplete
  | 83 => Some KafkaFetchForward
  | 85 => Some KafkaTxnForward
  | 87 => Some TruncateJournalNote
  | 89 => Some TruncateJournalPush
  | 91 => Some FetchSessionMirrorPut
  | 93 => Some FetchSessionMirrorDelete
  | 95 => Some IsrUpdate
  | 97 => Some AssignmentConsensusNote
  | 99 => Some MetadataRaftAppend
  | 101 => Some MembershipPut
  | 103 => Some AddBroker
  | 105 => Some RemoveBroker
  | 107 => Some ListMembers
  | 109 => Some OpenraftAppend
  | 111 => Some OpenraftVote
  | 113 => Some OpenraftInstallSnapshot
  | 115 => Some ReassignPartitions
  | 117 => Some SyncGroup
  | 65535 => Some Error
  | _ => None
  end.

#[export] Instance response_opcode_eq_dec : EqDecision ResponseOpcode.
Proof. solve_decision. Defined.

(** Every opcode is read back from its number. *)
Lemma response_from_u16_opcode op : from_u16 (opcode_u16 op) = Some op.
Proof. by destruct op. Qed.

Lemma response_opcode_from_u16 v op : from_u16 v = Some op → opcode_u16 op = v.
Proof.
  unfold from_u16. intros E.
  repeat match type of E with
  | match ?x with _ => _ end = _ => destruct x; try discriminate E
  end; injection E as <-; reflexivity.
Qed.
