(* ===== verification/Response.v ===== *)
(** * The responses of the native protocol: [volant-protocol/src/response.rs]

    Broker to client messages, the opcode of each, and the invariant of the
    Rust types: integers within their width, strings of valid UTF-8. *)

From Stdlib Require Import Strings.String.
From S2P Require Import Prelude Bytes Wire WireLogic Messages ResponseOpcode.
#[local] Open Scope Z_scope.

Inductive Response :=
| Produce (topic : string) (partition base_offset count error_code : Z)
| Fetch (topic : string) (partition high_watermark error_code : Z) (records : list FetchRecord)
| CreateTopic (topic_id : Z) (name : string) (partitions error_code : Z)
| DeleteTopic (name : string) (error_code : Z)
| Metadata (brokers : list BrokerInfo) (topics : list TopicInfo) (controller_id : Z)
| OffsetCommit (error_code : Z)
| OffsetFetch (error_code : Z) (entries : list OffsetFetchEntry)
| JoinGroup (error_code generation : Z) (member_id : string)
    (assignment revoked : list Assignment) (members : list string)
| Heartbeat (error_code : Z)
| LeaveGroup (error_code : Z)
| ReplicaFetch (error_code : Z) (topic : string) (partition high_watermark leader_epoch : Z)
    (records : list FetchRecord)
| HeartbeatBroker (error_code controller_id generation : Z) (alive_brokers : list Z)
| ClusterState (error_code generation controller_id : Z) (topics : list ClusterTopicState)
| Auth (error_code : Z)
| InitProducerId (producer_id epoch error_code : Z)
| DescribeGroup (error_code : Z) (group_id : string) (generation : Z)
    (members : list GroupMemberInfo)
| ListGroups (error_code : Z) (groups : list GroupListing)
| DeleteOffsets (error_code deleted_count : Z)
| DescribeConfigs (error_code : Z) (topic : string) (topic_id partition_count : Z)
    (configs : list (string * string))
| AlterConfigs (error_code : Z) (topic : string)
| DeleteRecords (error_code : Z) (topic : string) (partition low_watermark : Z)
| CreatePartitions (error_code : Z) (topic : string) (partitions : Z)
| ListOffsets (error_code : Z) (topic : string) (entries : list OffsetListing)
| BeginTxn (error_code : Z)
| EndTxn (error_code : Z) (results : list TxnProduceResult)
| CreateAcls (error_code : Z)
| DeleteAcls (error_code removed : Z)
| ListAcls (error_code : Z) (entries : list AclBinding)
| ScramFirst (error_code : Z) (combined_nonce : string) (salt : bytes) (iterations : Z)
| ScramFinal (error_code : Z) (server_signature : bytes)
| CreateScramUser (error_code : Z)
| DeleteScramUser (error_code : Z)
| ListScramUsers (error_code : Z) (usernames : list string)
| ReplicaDeleteRecords (error_code low_watermark : Z)
| ClusterBrokerConfig (error_code applied_generation : Z)
| ClusterAclSnapshot (error_code applied_generation : Z)
| TxnParticipantOpen (error_code : Z)
| TxnParticipantPrepare (error_code : Z)
| TxnParticipantComplete (error_code : Z)
| KafkaFetchForward (error_code : Z) (body : bytes)
| KafkaTxnForward (error_code : Z) (body : bytes)
| TruncateJournalNote (error_code generation : Z)
| TruncateJournalPush (error_code : Z)
| FetchSessionMirrorPut (error_code : Z)
| FetchSessionMirrorDelete (error_code : Z)
| IsrUpdate (error_code generation : Z)
| AssignmentConsensusNote (error_code generation : Z)
| MetadataRaftAppend (term success match_index : Z)
| MembershipPut (error_code applied_generation : Z)
| AddBroker (error_code generation : Z)
| RemoveBroker (error_code generation : Z)
| ListMembers (error_code generation : Z) (brokers : list MembershipBroker) (live : list Z)
| OpenraftAppend (payload : bytes)
| OpenraftVote (payload : bytes)
| OpenraftInstallSnapshot (payload : bytes)
| ReassignPartitions (error_code generation : Z)
| SyncGroup (error_code : Z) (assignment : list Assignment)
| Error (code : Z) (message : string).

(** [Response::opcode] *)
Definition opcode (r : Response) : Z :=
  opcode_u16
  match r with
  | Produce _ _ _ _ _ => ResponseOpcode.Produce
  | Fetch _ _ _ _ _ => ResponseOpcode.Fetch
  | CreateTopic _ _ _ _ => ResponseOpcode.CreateTopic
  | DeleteTopic _ _ => ResponseOpcode.DeleteTopic
  | Metadata _ _ _ => ResponseOpcode.Metadata
  | OffsetCommit _ => ResponseOpcode.OffsetCommit
  | OffsetFetch _ _ => ResponseOpcode.OffsetFetch
  | JoinGroup _ _ _ _ _ _ => ResponseOpcode.JoinGroup
  | Heartbeat _ => ResponseOpcode.Heartbeat
  | LeaveGroup _ => ResponseOpcode.LeaveGroup
  | ReplicaFetch _ _ _ _ _ _ => ResponseOpcode.ReplicaFetch
  | HeartbeatBroker _ _ _ _ => ResponseOpcode.HeartbeatBroker
  | ClusterState _ _ _ _ => ResponseOpcode.ClusterState
  | Auth _ => ResponseOpcode.Auth
  | InitProducerId _ _ _ => ResponseOpcode.InitProducerId
  | DescribeGroup _ _ _ _ => ResponseOpcode.DescribeGroup
  | ListGroups _ _ => ResponseOpcode.ListGroups
  | DeleteOffsets _ _ => ResponseOpcode.DeleteOffsets
  | DescribeConfigs _ _ _ _ _ => ResponseOpcode.DescribeConfigs
  | AlterConfigs _ _ => ResponseOpcode.AlterConfigs
  | DeleteRecords _ _ _ _ => ResponseOpcode.DeleteRecords
  | CreatePartitions _ _ _ => ResponseOpcode.CreatePartitions
  | ListOffsets _ _ _ => ResponseOpcode.ListOffsets
  | BeginTxn _ => ResponseOpcode.BeginTxn
  | EndTxn _ _ => ResponseOpcode.EndTxn
  | CreateAcls _ => ResponseOpcode.CreateAcls
  | DeleteAcls _ _ => ResponseOpcode.DeleteAcls
  | ListAcls _ _ => ResponseOpcode.ListAcls
  | ScramFirst _ _ _ _ => ResponseOpcode.ScramFirst
  | ScramFinal _ _ => ResponseOpcode.ScramFinal
  | CreateScramUser _ => ResponseOpcode.CreateScramUser
  | DeleteScramUser _ => ResponseOpcode.DeleteScramUser
  | ListScramUsers _ _ => ResponseOpcode.ListScramUsers
  | ReplicaDeleteRecords _ _ => ResponseOpcode.ReplicaDeleteRecords
  | ClusterBrokerConfig _ _ => ResponseOpcode.ClusterBrokerConfig
  | ClusterAclSnapshot _ _ => ResponseOpcode.ClusterAclSnapshot
  | TxnParticipantOpen _ => ResponseOpcode.TxnParticipantOpen
  | TxnParticipantPrepare _ => ResponseOpcode.TxnParticipantPrepare
  | TxnParticipantComplete _ => ResponseOpcode.TxnParticipantComplete
  | KafkaFetchForward _ _ => ResponseOpcode.KafkaFetchForward
  | KafkaTxnForward _ _ => ResponseOpcode.KafkaTxnForward
  | TruncateJournalNote _ _ => ResponseOpcode.TruncateJournalNote
  | TruncateJournalPush _ => ResponseOpcode.TruncateJournalPush
  | FetchSessionMirrorPut _ => ResponseOpcode.FetchSessionMirrorPut
  | FetchSessionMirrorDelete _ => ResponseOpcode.FetchSessionMirrorDelete
  | IsrUpdate _ _ => ResponseOpcode.IsrUpdate
  | AssignmentConsensusNote _ _ => ResponseOpcode.AssignmentConsensusNote
  | MetadataRaftAppend _ _ _ => ResponseOpcode.MetadataRaftAppend
  | MembershipPut _ _ => ResponseOpcode.MembershipPut
  | AddBroker _ _ => ResponseOpcode.AddBroker
  | RemoveBroker _ _ => ResponseOpcode.RemoveBroker
  | ListMembers _ _ _ _ => ResponseOpcode.ListMembers
  | OpenraftAppend _ => ResponseOpcode.OpenraftAppend
  | OpenraftVote _ => ResponseOpcode.OpenraftVote
  | OpenraftInstallSnapshot _ => ResponseOpcode.OpenraftInstallSnapshot
  | ReassignPartitions _ _ => ResponseOpcode.ReassignPartitions
  | SyncGroup _ _ => ResponseOpcode.SyncGroup
  | Error _ _ => ResponseOpcode.Error
  end.

Definition response_ok (r : Response) : bool :=
  match r with
  | Produce topic partition base_offset count error_code =>
    str_valid topic && is_u32 partition && is_u64 base_offset && is_u32 count && is_u16 error_code
  | Fetch topic partition high_watermark error_code records =>
    str_valid topic && is_u32 partition && is_u64 high_watermark && is_u16 error_code &&
    forallb fetch_record_ok records
  | CreateTopic topic_id name partitions error_code =>
    is_u32 topic_id && str_valid name && is_u32 partitions && is_u16 error_code
  | DeleteTopic name error_code => str_valid name && is_u16 error_code
  | Metadata brokers topics controller_id =>
    forallb broker_info_ok brokers && forallb topic_info_ok topics && is_u32 controller_id
  | OffsetCommit error_code => is_u16 error_code
  | OffsetFetch error_code entries => is_u16 error_code && forallb offset_fetch_entry_ok entries
  | JoinGroup error_code generation member_id assignment revoked members =>
    is_u16 error_code && is_u32 generation && str_valid member_id &&
    forallb wire_assignment_ok assignment && forallb wire_assignment_ok revoked &&
    forallb str_valid members
  | Heartbeat error_code => is_u16 error_code
  | LeaveGroup error_code => is_u16 error_code
  | ReplicaFetch error_code topic partition high_watermark leader_epoch records =>
    is_u16 error_code && str_valid topic && is_u32 partition && is_u64 high_watermark &&
    is_u32 leader_epoch && forallb fetch_record_ok records
  | HeartbeatBroker error_code controller_id generation alive_brokers =>
    is_u16 error_code && is_u32 controller_id && is_u32 generation && forallb is_u32 alive_brokers
  | ClusterState error_code generation controller_id topics =>
    is_u16 error_code && is_u32 generation && is_u32 controller_id &&
    forallb cluster_topic_ok topics
  | Auth error_code => is_u16 error_code
  | InitProducerId producer_id epoch error_code =>
    is_u64 producer_id && is_u16 epoch && is_u16 error_code
  | DescribeGroup error_code group_id generation members =>
    is_u16 error_code && str_valid group_id && is_u32 generation && forallb member_info_ok members
  | ListGroups error_code groups => is_u16 error_code && forallb group_listing_ok groups
  | DeleteOffsets error_code deleted_count => is_u16 error_code && is_u32 deleted_count
  | DescribeConfigs error_code topic topic_id partition_count configs =>
    is_u16 error_code && str_valid topic && is_u32 topic_id && is_u32 partition_count &&
    forallb pair_ok configs
  | AlterConfigs error_code topic => is_u16 error_code && str_valid topic
  | DeleteRecords error_code topic partition low_watermark =>
    is_u16 error_code && str_valid topic && is_u32 partition && is_u64 low_watermark
  | CreatePartitions error_code topic partitions =>
    is_u16 error_code && str_valid topic && is_u32 partitions
  | ListOffsets error_code topic entries =>
    is_u16 error_code && str_valid topic && forallb offset_listing_ok entries
  | BeginTxn error_code => is_u16 error_code
  | EndTxn error_code results => is_u16 error_code && forallb txn_result_ok results
  | CreateAcls error_code => is_u16 error_code
  | DeleteAcls error_code removed => is_u16 error_code && is_u32 removed
  | ListAcls error_code entries => is_u16 error_code && forallb acl_ok entries
  | ScramFirst error_code combined_nonce _ iterations =>
    is_u16 error_code && str_valid combined_nonce && is_u32 iterations
  | ScramFinal error_code _ => is_u16 error_code
  | CreateScramUser error_code => is_u16 error_code
  | DeleteScramUser error_code => is_u16 error_code
  | ListScramUsers error_code usernames => is_u16 error_code && forallb str_valid usernames
  | ReplicaDeleteRecords error_code low_watermark => is_u16 error_code && is_u64 low_watermark
  | ClusterBrokerConfig error_code applied_generation =>
    is_u16 error_code && is_u64 applied_generation
  | ClusterAclSnapshot error_code applied_generation =>
    is_u16 error_code && is_u64 applied_generation
  | TxnParticipantOpen error_code => is_u16 error_code
  | TxnParticipantPrepare error_code => is_u16 error_code
  | TxnParticipantComplete error_code => is_u16 error_code
  | KafkaFetchForward error_code _ => is_u16 error_code
  | KafkaTxnForward error_code _ => is_u16 error_code
  | TruncateJournalNote error_code generation => is_u16 error_code && is_u64 generation
  | TruncateJournalPush error_code => is_u16 error_code
  | FetchSessionMirrorPut error_code => is_u16 error_code
  | FetchSessionMirrorDelete error_code => is_u16 error_code
  | IsrUpdate error_code generation => is_u16 error_code && is_u32 generation
  | AssignmentConsensusNote error_code generation => is_u16 error_code && is_u32 generation
  | MetadataRaftAppend term success match_index =>
    is_u64 term && is_u8 success && is_u64 match_index
  | MembershipPut error_code applied_generation => is_u16 error_code && is_u64 applied_generation
  | AddBroker error_code generation => is_u16 error_code && is_u64 generation
  | RemoveBroker error_code generation => is_u16 error_code && is_u64 generation
  | ListMembers error_code generation brokers live =>
    is_u16 error_code && is_u64 generation && forallb membership_broker_ok brokers &&
    forallb is_u32 live
  | OpenraftAppend _ => true
  | OpenraftVote _ => true
  | OpenraftInstallSnapshot _ => true
  | ReassignPartitions error_code generation => is_u16 error_code && is_u32 generation
  | SyncGroup error_code assignment => is_u16 error_code && forallb wire_assignment_ok assignment
  | Error code message => is_u16 code && str_valid message
  end.
