(* ===== verification/ResponseProps.v ===== *)
(** * Response payloads: [encode_response] and [decode_response] of [volant-protocol/src/payload.rs]

    The arms of the two functions in the order of the source, in groups, with
    trailers as for requests. *)

From Stdlib Require Import Strings.String.
From S2P Require Import Prelude Bytes Wire Messages ResponseOpcode Response.
#[local] Open Scope Z_scope.

(** The arms of [FetchSessionMirrorDelete] to [Error]; the other responses have theirs before. *)
Definition encode_cluster_response (resp : Response) : result bytes :=
  match resp with
  | FetchSessionMirrorDelete error_code =>
    put_u16_le error_code
  | IsrUpdate error_code generation =>
    put_u16_le error_code ⊕ put_u32_le generation
  | AssignmentConsensusNote error_code generation =>
    put_u16_le error_code ⊕ put_u32_le generation
  | MetadataRaftAppend term success match_index =>
    put_u64_le term ⊕ put_u8 success ⊕ put_u64_le match_index
  | MembershipPut error_code applied_generation =>
    put_u16_le error_code ⊕ put_u64_le applied_generation
  | AddBroker error_code generation =>
    put_u16_le error_code ⊕ put_u64_le generation
  | RemoveBroker error_code generation =>
    put_u16_le error_code ⊕ put_u64_le generation
  | ListMembers error_code generation brokers live =>
    put_u16_le error_code ⊕ put_u64_le generation ⊕ put_vec put_membership_broker brokers ⊕
    put_vec put_u32_le live
  | OpenraftAppend payload =>
    put_bytes payload
  | OpenraftVote payload =>
    put_bytes payload
  | OpenraftInstallSnapshot payload =>
    put_bytes payload
  | ReassignPartitions error_code generation =>
    put_u16_le error_code ⊕ put_u32_le generation
  | SyncGroup error_code assignment =>
    put_u16_le error_code ⊕ put_vec put_assignment assignment
  | Error code message =>
    put_u16_le code ⊕ put_string message
  | _ => put_nothing
  end.

(** The arms of [AlterConfigs] to [FetchSessionMirrorPut]. *)
Definition encode_admin_response (resp : Response) : result bytes :=
  match resp with
  | AlterConfigs error_code topic =>
    put_u16_le error_code ⊕ put_string topic
  | DeleteRecords error_code topic partition low_watermark =>
    put_u16_le error_code ⊕ put_string topic ⊕ put_u32_le partition ⊕ put_u64_le low_watermark
  | CreatePartitions error_code topic partitions =>
    put_u16_le error_code ⊕ put_string topic ⊕ put_u32_le partitions
  | ListOffsets error_code topic entries =>
    put_u16_le error_code ⊕ put_string topic ⊕ put_vec put_offset_listing entries
  | CreateAcls error_code =>
    put_u16_le error_code
  | DeleteAcls error_code removed =>
    put_u16_le error_code ⊕ put_u32_le removed
  | ListAcls error_code entries =>
    put_u16_le error_code ⊕ put_vec put_acl_binding entries
  | ScramFirst error_code combined_nonce salt iterations =>
    put_u16_le error_code ⊕ put_string combined_nonce ⊕ put_bytes salt ⊕ put_u32_le iterations
  | ScramFinal error_code server_signature =>
    put_u16_le error_code ⊕ put_bytes server_signature
  | CreateScramUser error_code =>
    put_u16_le error_code
  | DeleteScramUser error_code =>
    put_u16_le error_code
  | ListScramUsers error_code usernames =>
    put_u16_le error_code ⊕ put_vec put_string usernames
  | ReplicaDeleteRecords error_code low_watermark =>
    put_u16_le error_code ⊕ put_u64_le low_watermark
  | ClusterBrokerConfig error_code applied_generation =>
    put_u16_le error_code ⊕ put_u64_le applied_generation
  | ClusterAclSnapshot error_code applied_generation =>
    put_u16_le error_code ⊕ put_u64_le applied_generation
  | TxnParticipantOpen error_code =>
    put_u16_le error_code
  | TxnParticipantPrepare error_code =>
    put_u16_le error_code
  | TxnParticipantComplete error_code =>
    put_u16_le error_code
  | KafkaFetchForward error_code body =>
    put_u16_le error_code ⊕ put_bytes body
  | KafkaTxnForward error_code body =>
    put_u16_le error_code ⊕ put_bytes body
  | TruncateJournalNote error_code generation =>
    put_u16_le error_code ⊕ put_u64_le generation
  | TruncateJournalPush error_code =>
    put_u16_le error_code
  | FetchSessionMirrorPut error_code =>
    put_u16_le error_code
  | _ => encode_cluster_response resp
  end.

(** The arms of [Heartbeat] to [DescribeConfigs]. *)
Definition encode_group_response (resp : Response) : result bytes :=
  match resp with
  | Heartbeat error_code =>
    put_u16_le error_code
  | LeaveGroup error_code =>
    put_u16_le error_code
  | ReplicaFetch error_code topic partition high_watermark leader_epoch records =>
    put_u16_le error_code ⊕ put_string topic ⊕ put_u32_le partition ⊕ put_u64_le high_watermark ⊕
    put_u32_le leader_epoch ⊕ put_vec put_fetch_record records
  | HeartbeatBroker error_code controller_id generation alive_brokers =>
    put_u16_le error_code ⊕ put_u32_le controller_id ⊕ put_u32_le generation ⊕
    put_vec put_u32_le alive_brokers
  | ClusterState error_code generation controller_id topics =>
    put_u16_le error_code ⊕ put_u32_le generation ⊕ put_u32_le controller_id ⊕
    put_cluster_topics topics
  | Auth error_code =>
    put_u16_le error_code
  | InitProducerId producer_id epoch error_code =>
    put_u64_le producer_id ⊕ put_u16_le epoch ⊕ put_u16_le error_code
  | BeginTxn error_code =>
    put_u16_le error_code
  | EndTxn error_code results =>
    put_u16_le error_code ⊕ put_vec put_txn_result results
  | DescribeGroup error_code group_id generation members =>
    put_u16_le error_code ⊕ put_string group_id ⊕ put_u32_le generation ⊕
    put_vec put_member_info members
  | ListGroups error_code groups =>
    put_u16_le error_code ⊕ put_vec put_group_listing groups
  | DeleteOffsets error_code deleted_count =>
    put_u16_le error_code ⊕ put_u32_le deleted_count
  | DescribeConfigs error_code topic topic_id partition_count configs =>
    put_u16_le error_code ⊕ put_string topic ⊕ put_u32_le topic_id ⊕ put_u32_le partition_count ⊕
    put_vec put_pair configs
  | _ => encode_admin_response resp
  end.

(** [encode_response], the arms of [Produce] to [JoinGroup]. *)
Definition encode_client_response (resp : Response) : result bytes :=
  match resp with
  | Produce topic partition base_offset count error_code =>
    put_string topic ⊕ put_u32_le partition ⊕ put_u64_le base_offset ⊕ put_u32_le count ⊕
    put_u16_le error_code
  | Fetch topic partition high_watermark error_code records =>
    put_string topic ⊕ put_u32_le partition ⊕ put_u64_le high_watermark ⊕ put_u16_le error_code ⊕
    put_vec put_fetch_record records
  | CreateTopic topic_id name partitions error_code =>
    put_u32_le topic_id ⊕ put_string name ⊕ put_u32_le partitions ⊕ put_u16_le error_code
  | DeleteTopic name error_code =>
    put_string name ⊕ put_u16_le error_code
  | Metadata brokers topics controller_id =>
    put_vec put_broker_info brokers ⊕ put_vec put_topic_info topics ⊕ put_u32_le controller_id
  | OffsetCommit error_code =>
    put_u16_le error_code
  | OffsetFetch error_code entries =>
    put_u16_le error_code ⊕ put_vec put_offset_fetch_entry entries
  | JoinGroup error_code generation member_id assignment revoked members =>
    put_u16_le error_code ⊕ put_u32_le generation ⊕ put_string member_id ⊕
    put_vec put_assignment assignment ⊕ put_vec put_assignment revoked ⊕
    put_vec put_string members
  | _ => encode_group_response resp
  end.

Definition encode_response (resp : Response) : result bytes :=
  let? dst := encode_client_response resp in finish_payload dst.

(** ** Decoding *)

(** The arms of [OpenraftAppend] to [Error]; the other opcodes have theirs before. *)
Definition decode_last_response (op : ResponseOpcode) : reader Response :=
  match op with
  | ResponseOpcode.OpenraftAppend =>
    payload ← get_bytes;
    mret (Response.OpenraftAppend payload)
  | ResponseOpcode.OpenraftVote =>
    payload ← get_bytes;
    mret (Response.OpenraftVote payload)
  | ResponseOpcode.OpenraftInstallSnapshot =>
    payload ← get_bytes;
    mret (Response.OpenraftInstallSnapshot payload)
  | ResponseOpcode.ReassignPartitions =>
    need (2 + 4) "truncated reassign partitions response";;
    error_code ← get_u16_le;
    generation ← get_u32_le;
    mret (Response.ReassignPartitions error_code generation)
  | ResponseOpcode.SyncGroup =>
    need (2 + 4) "truncated sync group header";;
    error_code ← get_u16_le;
    assignment_count ← get_u32_le;
    assignment ← times assignment_count (get_assignment "truncated sync group partition");
    mret (Response.SyncGroup error_code assignment)
  | ResponseOpcode.Error =>
    need 2 "truncated error code";;
    code ← get_u16_le;
    message ← get_string;
    mret (Response.Error code message)
  | _ => fail "unknown opcode"
  end.

(** The arms of [KafkaTxnForward] to [ListMembers]. *)
Definition decode_cluster_response (op : ResponseOpcode) : reader Response :=
  match op with
  | ResponseOpcode.TruncateJournalNote =>
    need (2 + 8) "truncated truncate journal note response";;
    error_code ← get_u16_le;
    generation ← get_u64_le;
    mret (Response.TruncateJournalNote error_code generation)
  | ResponseOpcode.TruncateJournalPush =>
    need 2 "truncated truncate journal push response";;
    error_code ← get_u16_le;
    mret (Response.TruncateJournalPush error_code)
  | ResponseOpcode.FetchSessionMirrorPut =>
    need 2 "truncated fetch session mirror put response";;
    error_code ← get_u16_le;
    mret (Response.FetchSessionMirrorPut error_code)
  | ResponseOpcode.FetchSessionMirrorDelete =>
    need 2 "truncated fetch session mirror delete response";;
    error_code ← get_u16_le;
    mret (Response.FetchSessionMirrorDelete error_code)
  | ResponseOpcode.IsrUpdate =>
    need (2 + 4) "truncated isr update response";;
    error_code ← get_u16_le;
    generation ← get_u32_le;
    mret (Response.IsrUpdate error_code generation)
  | ResponseOpcode.AssignmentConsensusNote =>
    need (2 + 4) "truncated assignment consensus note response";;
    error_code ← get_u16_le;
    generation ← get_u32_le;
    mret (Response.AssignmentConsensusNote error_code generation)
  | ResponseOpcode.MetadataRaftAppend =>
    need (8 + 1 + 8) "truncated metadata raft append response";;
    term ← get_u64_le;
    success ← get_u8;
    match_index ← get_u64_le;
    mret (Response.MetadataRaftAppend term success match_index)
  | ResponseOpcode.MembershipPut =>
    need (2 + 8) "truncated membership put response";;
    error_code ← get_u16_le;
    applied_generation ← get_u64_le;
    mret (Response.MembershipPut error_code applied_generation)
  | ResponseOpcode.AddBroker =>
    need (2 + 8) "truncated add broker response";;
    error_code ← get_u16_le;
    generation ← get_u64_le;
    mret (Response.AddBroker error_code generation)
  | ResponseOpcode.RemoveBroker =>
    need (2 + 8) "truncated remove broker response";;
    error_code ← get_u16_le;
    generation ← get_u64_le;
    mret (Response.RemoveBroker error_code generation)
  | ResponseOpcode.ListMembers =>
    need (2 + 8 + 4) "truncated list members header";;
    error_code ← get_u16_le;
    generation ← get_u64_le;
    count ← get_u32_le;
    brokers ← times count get_membership_broker;
    need 4 "truncated list members live count";;
    live_count ← get_u32_le;
    need (u64_saturating_mul live_count 4) "truncated list members live ids";;
    live ← times live_count get_u32_le;
    mret (Response.ListMembers error_code generation brokers live)
  | _ => decode_last_response op
  end.

(** The arms of [ScramFirst] to [KafkaFetchForward]. *)
Definition decode_security_response (op : ResponseOpcode) : reader Response :=
  match op with
  | ResponseOpcode.ScramFirst =>
    need 2 "truncated scram first error";;
    error_code ← get_u16_le;
    combined_nonce ← get_string;
    salt ← get_bytes;
    need 4 "truncated scram first iterations";;
    iterations ← get_u32_le;
    mret (Response.ScramFirst error_code combined_nonce salt iterations)
  | ResponseOpcode.ScramFinal =>
    need 2 "truncated scram final error";;
    error_code ← get_u16_le;
    server_signature ← get_bytes;
    mret (Response.ScramFinal error_code server_signature)
  | ResponseOpcode.CreateScramUser =>
    need 2 "truncated create scram user error";;
    error_code ← get_u16_le;
    mret (Response.CreateScramUser error_code)
  | ResponseOpcode.DeleteScramUser =>
    need 2 "truncated delete scram user error";;
    error_code ← get_u16_le;
    mret (Response.DeleteScramUser error_code)
  | ResponseOpcode.ListScramUsers =>
    need (2 + 4) "truncated list scram users header";;
    error_code ← get_u16_le;
    n ← get_u32_le;
    usernames ← times n get_string;
    mret (Response.ListScramUsers error_code usernames)
  | ResponseOpcode.ReplicaDeleteRecords =>
    need (2 + 8) "truncated replica delete records response";;
    error_code ← get_u16_le;
    low_watermark ← get_u64_le;
    mret (Response.ReplicaDeleteRecords error_code low_watermark)
  | ResponseOpcode.ClusterBrokerConfig =>
    need (2 + 8) "truncated cluster broker config response";;
    error_code ← get_u16_le;
    applied_generation ← get_u64_le;
    mret (Response.ClusterBrokerConfig error_code applied_generation)
  | ResponseOpcode.ClusterAclSnapshot =>
    need (2 + 8) "truncated cluster acl snapshot response";;
    error_code ← get_u16_le;
    applied_generation ← get_u64_le;
    mret (Response.ClusterAclSnapshot error_code applied_generation)
  | ResponseOpcode.TxnParticipantOpen =>
    need 2 "truncated txn participant open response";;
    error_code ← get_u16_le;
    mret (Response.TxnParticipantOpen error_code)
  | ResponseOpcode.TxnParticipantPrepare =>
    need 2 "truncated txn participant prepare response";;
    error_code ← get_u16_le;
    mret (Response.TxnParticipantPrepare error_code)
  | ResponseOpcode.TxnParticipantComplete =>
    need 2 "truncated txn participant complete response";;
    error_code ← get_u16_le;
    mret (Response.TxnParticipantComplete error_code)
  | ResponseOpcode.KafkaFetchForward =>
    need 2 "truncated kafka fetch forward response";;
    error_code ← get_u16_le;
    body ← get_bytes;
    mret (Response.KafkaFetchForward error_code body)
  | ResponseOpcode.KafkaTxnForward =>
    need 2 "truncated kafka txn forward response";;
    error_code ← get_u16_le;
    body ← get_bytes;
    mret (Response.KafkaTxnForward error_code body)
  | _ => decode_cluster_response op
  end.

(** The arms of [DeleteOffsets] to [ListAcls]. *)
Definition decode_admin_response (op : ResponseOpcode) : reader Response :=
  match op with
  | ResponseOpcode.DeleteOffsets =>
    need (2 + 4) "truncated delete offsets response";;
    error_code ← get_u16_le;
    deleted_count ← get_u32_le;
    mret (Response.DeleteOffsets error_code deleted_count)
  | ResponseOpcode.DescribeConfigs =>
    need 2 "truncated describe configs error";;
    error_code ← get_u16_le;
    topic ← get_string;
    need (4 + 4 + 4) "truncated describe configs header";;
    topic_id ← get_u32_le;
    partition_count ← get_u32_le;
    n ← get_u32_le;
    configs ← times n get_pair;
    mret (Response.DescribeConfigs error_code topic topic_id partition_count configs)
  | ResponseOpcode.AlterConfigs =>
    need 2 "truncated alter configs error";;
    error_code ← get_u16_le;
    topic ← get_string;
    mret (Response.AlterConfigs error_code topic)
  | ResponseOpcode.DeleteRecords =>
    need 2 "truncated delete records error";;
    error_code ← get_u16_le;
    topic ← get_string;
    need (4 + 8) "truncated delete records body";;
    partition ← get_u32_le;
    low_watermark ← get_u64_le;
    mret (Response.DeleteRecords error_code topic partition low_watermark)
  | ResponseOpcode.CreatePartitions =>
    need 2 "truncated create partitions error";;
    error_code ← get_u16_le;
    topic ← get_string;
    need 4 "truncated create partitions count";;
    partitions ← get_u32_le;
    mret (Response.CreatePartitions error_code topic partitions)
  | ResponseOpcode.ListOffsets =>
    need 2 "truncated list offsets error";;
    error_code ← get_u16_le;
    topic ← get_string;
    need 4 "truncated list offsets count";;
    n ← get_u32_le;
    entries ← times n get_offset_listing;
    mret (Response.ListOffsets error_code topic entries)
  | ResponseOpcode.CreateAcls =>
    need 2 "truncated create acls error";;
    error_code ← get_u16_le;
    mret (Response.CreateAcls error_code)
  | ResponseOpcode.DeleteAcls =>
    need (2 + 4) "truncated delete acls";;
    error_code ← get_u16_le;
    removed ← get_u32_le;
    mret (Response.DeleteAcls error_code removed)
  | ResponseOpcode.ListAcls =>
    need (2 + 4) "truncated list acls header";;
    error_code ← get_u16_le;
    n ← get_u32_le;
    entries ← times n get_acl_binding;
    mret (Response.ListAcls error_code entries)
  | _ => decode_security_response op
  end.

(** The arms of [ClusterState] to [ListGroups]. *)
Definition decode_group_response (op : ResponseOpcode) : reader Response :=
  match op with
  | ResponseOpcode.ClusterState =>
    need (2 + 4 + 4) "truncated cluster state response";;
    error_code ← get_u16_le;
    generation ← get_u32_le;
    controller_id ← get_u32_le;
    topics ← get_cluster_topics;
    mret (Response.ClusterState error_code generation controller_id topics)
  | ResponseOpcode.Auth =>
    need 2 "truncated auth error";;
    error_code ← get_u16_le;
    mret (Response.Auth error_code)
  | ResponseOpcode.InitProducerId =>
    need (8 + 2 + 2) "truncated init producer id response";;
    producer_id ← get_u64_le;
    epoch ← get_u16_le;
    error_code ← get_u16_le;
    mret (Response.InitProducerId producer_id epoch error_code)
  | ResponseOpcode.BeginTxn =>
    need 2 "truncated begin txn error";;
    error_code ← get_u16_le;
    mret (Response.BeginTxn error_code)
  | ResponseOpcode.EndTxn =>
    need (2 + 4) "truncated end txn header";;
    error_code ← get_u16_le;
    result_count ← get_u32_le;
    results ← times result_count get_txn_result;
    mret (Response.EndTxn error_code results)
  | ResponseOpcode.DescribeGroup =>
    need 2 "truncated describe group error";;
    error_code ← get_u16_le;
    group_id ← get_string;
    need (4 + 4) "truncated describe group header";;
    generation ← get_u32_le;
    member_count ← get_u32_le;
    members ← times member_count get_member_info;
    mret (Response.DescribeGroup error_code group_id generation members)
  | ResponseOpcode.ListGroups =>
    need (2 + 4) "truncated list groups header";;
    error_code ← get_u16_le;
    group_count ← get_u32_le;
    groups ← times group_count get_group_listing;
    mret (Response.ListGroups error_code groups)
  | _ => decode_admin_response op
  end.

(** The arms of [JoinGroup] to [HeartbeatBroker]. *)
Definition decode_join_response (op : ResponseOpcode) : reader Response :=
  match op with
  | ResponseOpcode.JoinGroup =>
    need (2 + 4) "truncated join group header";;
    error_code ← get_u16_le;
    generation ← get_u32_le;
    member_id ← get_string;
    need 4 "truncated join group assignment count";;
    assignment_count ← get_u32_le;
    assignment ← times assignment_count (get_assignment "truncated join group partition");
    revoked ← when_remaining 4
      (n ← get_u32_le; times n (get_assignment "truncated join group revoked partition")) [];
    members ← when_remaining 4 (n ← get_u32_le; times n get_string) [];
    mret (Response.JoinGroup error_code generation member_id assignment revoked members)
  | ResponseOpcode.Heartbeat =>
    need 2 "truncated heartbeat error";;
    error_code ← get_u16_le;
    mret (Response.Heartbeat error_code)
  | ResponseOpcode.LeaveGroup =>
    need 2 "truncated leave group error";;
    error_code ← get_u16_le;
    mret (Response.LeaveGroup error_code)
  | ResponseOpcode.ReplicaFetch =>
    need 2 "truncated replica fetch error";;
    error_code ← get_u16_le;
    topic ← get_string;
    need (4 + 8 + 4 + 4) "truncated replica fetch header";;
    partition ← get_u32_le;
    high_watermark ← get_u64_le;
    leader_epoch ← get_u32_le;
    record_count ← get_u32_le;
    records ← times record_count (get_fetch_record "truncated replica fetch record");
    mret (Response.ReplicaFetch error_code topic partition high_watermark leader_epoch records)
  | ResponseOpcode.HeartbeatBroker =>
    need (2 + 4 + 4 + 4) "truncated heartbeat broker response";;
    error_code ← get_u16_le;
    controller_id ← get_u32_le;
    generation ← get_u32_le;
    alive_count ← get_u32_le;
    alive_brokers ← times alive_count (get_u32_checked "truncated alive broker id");
    mret (Response.HeartbeatBroker error_code controller_id generation alive_brokers)
  | _ => decode_group_response op
  end.

(** The arms of [Metadata] to [OffsetFetch]. *)
Definition decode_metadata_response (op : ResponseOpcode) : reader Response :=
  match op with
  | ResponseOpcode.Metadata =>
    need 4 "truncated broker count";;
    broker_count ← get_u32_le;
    brokers ← times broker_count get_broker_info;
    need 4 "truncated topic count";;
    topic_count ← get_u32_le;
    topics ← times topic_count get_topic_info;
    controller_id ← when_remaining 4 get_u32_le 0;
    mret (Response.Metadata brokers topics controller_id)
  | ResponseOpcode.OffsetCommit =>
    need 2 "truncated offset commit error";;
    error_code ← get_u16_le;
    mret (Response.OffsetCommit error_code)
  | ResponseOpcode.OffsetFetch =>
    need (2 + 4) "truncated offset fetch header";;
    error_code ← get_u16_le;
    entry_count ← get_u32_le;
    entries ← times entry_count get_offset_fetch_entry;
    mret (Response.OffsetFetch error_code entries)
  | _ => decode_join_response op
  end.

(** [decode_response], the arms of [Produce] to [DeleteTopic]. *)
Definition decode_produce_response (op : ResponseOpcode) : reader Response :=
  match op with
  | ResponseOpcode.Produce =>
    topic ← get_string;
    need (4 + 8 + 4 + 2) "truncated produce response";;
    partition ← get_u32_le;
    base_offset ← get_u64_le;
    count ← get_u32_le;
    error_code ← get_u16_le;
    mret (Response.Produce topic partition base_offset count error_code)
  | ResponseOpcode.Fetch =>
    topic ← get_string;
    need (4 + 8 + 2 + 4) "truncated fetch response header";;
    partition ← get_u32_le;
    high_watermark ← get_u64_le;
    error_code ← get_u16_le;
    record_count ← get_u32_le;
    records ← times record_count (get_fetch_record "truncated fetch record header");
    mret (Response.Fetch topic partition high_watermark error_code records)
  | ResponseOpcode.CreateTopic =>
    need 4 "truncated create topic id";;
    topic_id ← get_u32_le;
    name ← get_string;
    need (4 + 2) "truncated create topic tail";;
    partitions ← get_u32_le;
    error_code ← get_u16_le;
    mret (Response.CreateTopic topic_id name partitions error_code)
  | ResponseOpcode.DeleteTopic =>
    name ← get_string;
    need 2 "truncated delete topic error";;
    error_code ← get_u16_le;
    mret (Response.DeleteTopic name error_code)
  | _ => decode_metadata_response op
  end.

Definition decode_response (opcode : Z) (payload : bytes) : outcome Response :=
  if MAX_PAYLOAD <? zlen payload then Bad (Protocol "payload too large") else
  match from_u16 opcode with
  | None => Bad (Protocol "unknown response opcode")
  | Some op => decode_produce_response op payload
  end.

(** * Responses survive the wire

    As for requests: what is encoded is decoded, and the decoder is safe on
    any bytes. *)

From S2P Require Import WireLogic MessageCodecs.
#[local] Open Scope Z_scope.

Lemma response_body_roundtrip r b :
  response_ok r = true → encode_client_response r = Ok b → zlen b ≤ MAX_PAYLOAD →
  ∃ op, from_u16 (opcode r) = Some op ∧ decode_produce_response op (b ++ []) = Got r [].
Proof.
  intros Hok Hd Hmax. unfold opcode. eexists. split; [apply response_from_u16_opcode|].
  destruct r; cbn in Hok, Hd; ok_inv; put_inv Hd; cbn; reads.
Qed.

Lemma decode_response_body_safe op :
  wp 0 (decode_produce_response op) (λ r _, response_ok r = true ∧ opcode r = opcode_u16 op).
Proof.
  destruct op; cbn; repeat (wp_step; cbn beta iota); (split; [ok_goal|done]).
Qed.

(** C38: every response survives the wire: if its fields are of their types
    and it is encoded without error, the decoder called with its opcode
    returns it, with nothing left over. *)
Theorem response_roundtrip r bs :
  response_ok r = true → encode_response r = Ok bs → decode_response (opcode r) bs = Got r [].
Proof.
  intros Hok He. unfold encode_response, finish_payload in He.
  destruct (encode_client_response r) as [b|] eqn:Hd; [|done]. case_if_in He; [done|].
  injection He as <-. destruct (response_body_roundtrip r b) as (op & Hop & Hr); [done..|].
  unfold decode_response. rewrite Zltb_false, Hop by done. by rewrite app_nil_r in Hr.
Qed.

Lemma response_roundtrip_witness :
  let r := JoinGroup 0 3 "m" [mkAssignment "t" 0] [mkAssignment "u" 1] ["m"%string] in
  ∃ bs, encode_response r = Ok bs ∧ decode_response (opcode r) bs = Got r [].
Proof. eexists. split; [reflexivity|]. apply (response_roundtrip _); reflexivity. Defined.

(** The decoder of responses is total on hostile input: it never panics,
    and a response it returns has the opcode asked for and fields of their
    types. *)
Theorem decode_response_safe code payload :
  match decode_response code payload with
  | Got r _ => response_ok r = true ∧ opcode r = code
  | Bad _ => True
  | Panic => False
  end.
Proof.
  unfold decode_response. case_if; [done|]. destruct (from_u16 code) as [op|] eqn:E; [|done].
  pose proof (decode_response_body_safe op payload ltac:(zlen_facts; lia)) as Hs.
  destruct (decode_produce_response op payload) as [r rest| |]; [|done..].
  destruct Hs as (_ & _ & Hok & Hop). split; [done|].
  rewrite Hop. by apply response_opcode_from_u16.
Qed.
