(* ===== verification/Frame.v ===== *)
(** * Frames and connections

    [volant-protocol/src/frame.rs] and [codec.rs]: the CRC-protected frame
    around every payload; [pack_request] and [pack_response] of [payload.rs];
    and the loops that read frames from a byte stream: [handle_connection] of
    [volant-broker/src/net/mod.rs] on the server, [round_trip] of
    [volant-client/src/client.rs] and [read_one_response] of
    [volant-broker/src/net/rpc.rs] on the client.  A stream is the list of the
    chunks its reads return, in order, followed by the end of the stream. *)

From Stdlib Require Import Strings.String.
From S2P Require Import Prelude Bytes Wire Messages RequestOpcode Request RequestProps ResponseOpcode Response ResponseProps.
#[local] Open Scope Z_scope.

Definition FRAME_MAGIC : Z := 86. (* b'V' *)
Definition PROTOCOL_VERSION : Z := 1.

Record FrameHeader := mkFrameHeader {
  fh_version : Z;
  fh_opcode : Z;
  fh_correlation_id : Z;
  fh_payload_len : Z;
  fh_checksum : Z;
}.

Record Frame := mkFrame {
  header : FrameHeader;
  payload : bytes;
}.

Definition HEADER_LEN : Z := 1 + 1 + 2 + 4 + 4 + 4.

Section frames.
Context `{Crc32}.

Definition checksum (payload : bytes) : Z := crc32_hash payload.

(** The bytes appended to [dst]. *)
Definition encode_frame (frame : Frame) : bytes :=
  be_bytes 1 FRAME_MAGIC ++
  be_bytes 1 (fh_version (header frame)) ++
  be_bytes 2 (fh_opcode (header frame)) ++
  be_bytes 4 (fh_correlation_id (header frame)) ++
  be_bytes 4 (fh_payload_len (header frame)) ++
  be_bytes 4 (fh_checksum (header frame)) ++
  payload frame.

(** The result and what is left in [src]. *)
Definition decode_frame (src : bytes) : result (option Frame) * bytes :=
  if zlen src <? HEADER_LEN then (Ok None, src) else
  let magic := be_val (zslice 0 1 src) in
  if negb (magic =? FRAME_MAGIC) then (Err (Protocol "invalid frame magic"), src) else
  let payload_len := be_val (zslice 8 12 src) in
  let total := HEADER_LEN + payload_len in
  if zlen src <? total then (Ok None, src) else
  let buf := ztake total src in
  let src := zdrop total src in
  let version := be_val (zslice 1 2 buf) in
  let opcode := be_val (zslice 2 4 buf) in
  let correlation_id := be_val (zslice 4 8 buf) in
  let payload_len_u32 := be_val (zslice 8 12 buf) in
  let checksum_wire := be_val (zslice 12 16 buf) in
  let payload := zdrop 16 buf in
  if negb (version =? PROTOCOL_VERSION) then (Err (Protocol "unsupported protocol version"), src) else
  if MAX_PAYLOAD <? zlen payload then (Err (Protocol "payload too large"), src) else
  let expected := checksum payload in
  if negb (checksum_wire =? expected) then (Err (Protocol "checksum mismatch"), src) else
  (Ok (Some (mkFrame (mkFrameHeader version opcode correlation_id payload_len_u32 checksum_wire)
                     payload)), src).

Definition frame_of (opcode corr : Z) (payload : bytes) : Frame :=
  mkFrame (mkFrameHeader PROTOCOL_VERSION opcode corr (as_u32 (zlen payload)) (checksum payload))
    payload.

Definition pack_request (corr : Z) (req : Request) : result Frame :=
  let? payload := encode_request req in Ok (frame_of (Request.opcode req) corr payload).

Definition pack_response (corr : Z) (resp : Response) : result Frame :=
  let? payload := encode_response resp in Ok (frame_of (Response.opcode resp) corr payload).

(** ** The server side of a connection

    [dispatch] answers a frame and steps the state of the connection and the
    broker. *)

Section server.
Context {St : Type} (dispatch : Frame → St → Response * St).

Definition write_response (corr : Z) (response : Response) : result bytes :=
  let? frame := pack_response corr response in Ok (encode_frame frame).

(** What a loop leaves behind: the buffer, the bytes written, the state. *)
Record conn := mkConn { buf : bytes; written : bytes; st : St }.

(** [loop { match decode_frame(&mut buf)? { Some(frame) => .., None => break } }];
    a frame takes at least a header, so the length of the buffer is enough
    fuel. *)
Fixpoint drain_frames (fuel : nat) (c : conn) : result unit * conn :=
  match fuel with
  | O => (Ok tt, c)
  | S fuel =>
    match decode_frame (buf c) with
    | (Err e, b) => (Err e, mkConn b (written c) (st c))
    | (Ok None, b) => (Ok tt, mkConn b (written c) (st c))
    | (Ok (Some frame), b) =>
      let '(response, s) := dispatch frame (st c) in
      match write_response (fh_correlation_id (header frame)) response with
      | Err e => (Err e, mkConn b (written c) s)
      | Ok out => drain_frames fuel (mkConn b (written c ++ out) s)
      end
    end
  end.

Fixpoint handle_connection (chunks : list bytes) (c : conn) : result unit * conn :=
  match drain_frames (S (length (buf c))) c with
  | (Err e, c) => (Err e, c)
  | (Ok _, c) =>
    match chunks with
    | [] => (Ok tt, c)
    | chunk :: chunks =>
      if bool_decide (chunk = []) then (Ok tt, c)
      else handle_connection chunks (mkConn (buf c ++ chunk) (written c) (st c))
    end
  end.

End server.

(** ** The client side *)

(** [decode_response] of a complete frame; a panic of the decoder is [None]. *)
Definition response_of (o : outcome Response) : option (result Response) :=
  match o with
  | Got r _ => Some (Ok r)
  | Bad e => Some (Err e)
  | Panic => None
  end.

(** [round_trip] after its request is written. *)
Fixpoint await_response (corr : Z) (b : bytes) (chunks : list bytes) : option (result Response) :=
  match decode_frame b with
  | (Err e, _) => Some (Err e)
  | (Ok (Some f), _) =>
    if negb (fh_correlation_id (header f) =? corr) then Some (Err (Protocol "correlation mismatch"))
    else response_of (decode_response (fh_opcode (header f)) (payload f))
  | (Ok None, b) =>
    match chunks with
    | [] => Some (Err (Io "connection closed while waiting for response"))
    | chunk :: chunks =>
      if bool_decide (chunk = []) then Some (Err (Io "connection closed while waiting for response"))
      else await_response corr (b ++ chunk) chunks
    end
  end.

(** [read_one_response]: reads before it decodes. *)
Fixpoint read_one_response (b : bytes) (chunks : list bytes) : option (result Response) :=
  match chunks with
  | [] => Some (Err (Protocol "peer closed during rpc"))
  | chunk :: chunks =>
    if bool_decide (chunk = []) then Some (Err (Protocol "peer closed during rpc")) else
    match decode_frame (b ++ chunk) with
    | (Err e, _) => Some (Err e)
    | (Ok (Some f), _) => response_of (decode_response (fh_opcode (header f)) (payload f))
    | (Ok None, b) => read_one_response b chunks
    end
  end.

End frames.
