(* ===== verification/FrameProps.v ===== *)
(** * Frames over a byte stream

    [decode_frame] accepts exactly the encodings of well-formed frames, waits
    on every proper prefix of one, and the loops that use it see the same
    frames however the stream is cut into chunks. *)

From Stdlib Require Import Strings.String.
From S2P Require Import Prelude Bytes Wire WireLogic Messages MessageCodecs RequestOpcode Request RequestProps ResponseOpcode Response ResponseProps Frame.
#[local] Open Scope Z_scope.

(** ** Slices of a concatenation *)

Lemma zslice_head {A} n (x y : list A) : zlen x = n → zslice 0 n (x ++ y) = x.
Proof. intros <-. unfold zslice. rewrite Z.sub_0_r. by apply ztake_app_exact. Qed.

Lemma zslice_skip {A} n a b (x y : list A) :
  zlen x = n → n ≤ a → zslice a b (x ++ y) = zslice (a - n) (b - n) y.
Proof.
  intros <- Ha. unfold zslice. rewrite zdrop_app_ge by done. f_equal. lia.
Qed.

Lemma zslice_ztake {A} a b k (l : list A) : 0 ≤ a → b ≤ k → zslice a b (ztake k l) = zslice a b l.
Proof.
  intros Ha Hb. unfold zslice, ztake, zdrop. rewrite skipn_firstn_comm, take_take. f_equal. lia.
Qed.

Lemma zslice_split {A} a b (l : list A) :
  0 ≤ a ≤ b → zdrop a l = zslice a b l ++ zdrop b l.
Proof.
  intros Hab. unfold zslice. rewrite <- (ztake_zdrop (b - a) (zdrop a l)) at 1. f_equal.
  rewrite zdrop_zdrop by lia. f_equal. lia.
Qed.

Lemma be_bytes_val l : be_bytes (length l) (be_val l) = l.
Proof.
  unfold be_bytes, be_val. rewrite <- (length_rev l), le_bytes_val. apply rev_involutive.
Qed.

Lemma be_slice n a b (l : bytes) :
  Z.of_nat n = b - a → 0 ≤ a → b ≤ zlen l → be_bytes n (be_val (zslice a b l)) = zslice a b l.
Proof.
  intros Hn Ha Hb. rewrite <- (be_bytes_val (zslice a b l)) at 2. f_equal.
  pose proof (zlen_zslice a b l ltac:(lia) Hb). unfold zlen in *. lia.
Qed.

Section frames.
Context `{Crc32}.

(** The frames the protocol uses. *)
Definition frame_ok (f : Frame) : Prop :=
  fh_version (header f) = PROTOCOL_VERSION ∧
  is_u16 (fh_opcode (header f)) = true ∧
  is_u32 (fh_correlation_id (header f)) = true ∧
  fh_payload_len (header f) = zlen (payload f) ∧
  zlen (payload f) ≤ MAX_PAYLOAD ∧
  fh_checksum (header f) = checksum (payload f).

Lemma zlen_encode_frame f : zlen (encode_frame f) = HEADER_LEN + zlen (payload f).
Proof. unfold encode_frame, HEADER_LEN. zlen_lia. Qed.

(** The fields of an encoded frame, at their places. *)
Lemma encode_frame_fields f rest :
  let e := encode_frame f ++ rest in
  zslice 0 1 e = be_bytes 1 FRAME_MAGIC ∧
  zslice 1 2 e = be_bytes 1 (fh_version (header f)) ∧
  zslice 2 4 e = be_bytes 2 (fh_opcode (header f)) ∧
  zslice 4 8 e = be_bytes 4 (fh_correlation_id (header f)) ∧
  zslice 8 12 e = be_bytes 4 (fh_payload_len (header f)) ∧
  zslice 12 16 e = be_bytes 4 (fh_checksum (header f)) ∧
  zdrop 16 e = payload f ++ rest.
Proof.
  cbn zeta. unfold encode_frame. rewrite <- !app_assoc.
  repeat split;
    repeat (rewrite (zslice_skip 1) || rewrite (zslice_skip 2) || rewrite (zslice_skip 4));
    try (rewrite zslice_head; [done|]); rewrite ?zlen_be_bytes; done.
Qed.

Lemma crc_u32 l : is_u32 (checksum l) = true.
Proof. unfold is_u32. pose proof (crc32_range l). unfold checksum. zb_eq. Qed.

Lemma decode_encode_frame f rest :
  frame_ok f → decode_frame (encode_frame f ++ rest) = (Ok (Some f), rest).
Proof.
  intros (Hv & Ho & Hc & Hl & Hm & Hs). pose proof (zlen_encode_frame f) as Hlen.
  destruct (encode_frame_fields f rest) as (E0 & E1 & E2 & E4 & E8 & E12 & E16).
  unfold decode_frame. rewrite E0, E8, be_val_small by done.
  pose proof (zlen_nonneg (payload f)). unfold MAX_PAYLOAD, HEADER_LEN in *.
  rewrite Zltb_false by zlen_lia. cbn [negb]. rewrite Z.eqb_refl. cbn [negb].
  rewrite be_val_small by (rewrite Hl; cbn; lia). rewrite Hl.
  rewrite Zltb_false by zlen_lia.
  rewrite ztake_app_exact, zdrop_app_exact by lia.
  destruct (encode_frame_fields f []) as (_ & F1 & F2 & F4 & F8 & F12 & F16).
  rewrite !app_nil_r in *. rewrite F1, F2, F4, F8, F12, F16.
  unfold is_u16, is_u32 in *.
  pose proof (crc32_range (payload f)). unfold checksum, PROTOCOL_VERSION in *.
  rewrite !be_val_small by (cbn; lia).
  rewrite Hv. cbn [negb Z.eqb Pos.eqb]. rewrite Zltb_false by (unfold MAX_PAYLOAD; lia).
  rewrite Hs, Z.eqb_refl. cbn [negb].
  destruct f as [[v o c l cs] p]; cbn in *. by subst.
Qed.

(** A buffer that holds only part of a frame. *)
Lemma decode_partial f k :
  frame_ok f → k < zlen (encode_frame f) →
  decode_frame (ztake k (encode_frame f)) = (Ok None, ztake k (encode_frame f)).
Proof.
  intros (_ & _ & _ & Hl & Hm & _) Hk. unfold decode_frame. case_if; [done|].
  assert (HEADER_LEN ≤ k).
  { destruct (decide (0 ≤ k)) as [Hp|Hp].
    - pose proof (zlen_ztake k (encode_frame f) ltac:(lia)). lia.
    - unfold HEADER_LEN, ztake in *. replace (Z.to_nat k) with 0%nat in * by lia. by cbn in *. }
  pose proof (zlen_ztake k (encode_frame f) ltac:(unfold HEADER_LEN in *; lia)) as Hlen.
  destruct (encode_frame_fields f []) as (E0 & _ & _ & _ & E8 & _). rewrite app_nil_r in *.
  unfold HEADER_LEN, MAX_PAYLOAD in *. pose proof (zlen_nonneg (payload f)).
  rewrite !zslice_ztake, E0, E8, !be_val_small by (rewrite ?Hl; unfold FRAME_MAGIC; cbn; lia).
  rewrite Z.eqb_refl. cbn [negb].
  rewrite Hl, Zltb_true; [done|]. rewrite zlen_encode_frame in *. unfold HEADER_LEN in *. lia.
Qed.

(** What is accepted is the encoding of a well-formed frame. *)
Lemma decode_frame_sound src f rest :
  decode_frame src = (Ok (Some f), rest) → frame_ok f ∧ src = encode_frame f ++ rest.
Proof.
  unfold decode_frame. intros E. case_if_in E; [done|].
  destruct (Z.eqb_spec (be_val (zslice 0 1 src)) FRAME_MAGIC) as [Hmagic|]; cbn [negb] in E; [|done].
  set (n := be_val (zslice 8 12 src)) in *. case_if_in E; [done|].
  assert (0 ≤ n) by apply be_val_range. unfold HEADER_LEN in *.
  set (t := ztake (1 + 1 + 2 + 4 + 4 + 4 + n) src) in *.
  assert (Ht : zlen t = 16 + n) by (apply zlen_ztake; lia).
  destruct (Z.eqb_spec (be_val (zslice 1 2 t)) PROTOCOL_VERSION); cbn [negb] in E; [|done].
  case_if_in E; [done|].
  destruct (Z.eqb_spec (be_val (zslice 12 16 t)) (checksum (zdrop 16 t))); cbn [negb] in E; [|done].
  injection E as <- <-. rewrite zlen_zdrop in * by lia.
  assert (Hn : be_val (zslice 8 12 t) = n) by (unfold t; rewrite zslice_ztake by lia; done).
  split.
  - unfold frame_ok; cbn. rewrite zlen_zdrop by lia.
    pose proof (be_val_range (zslice 2 4 t)) as R1. pose proof (be_val_range (zslice 4 8 t)) as R2.
    rewrite zlen_zslice in R1, R2 by lia. unfold is_u16, is_u32.
    split_and!; [lia|zb_eq|zb_eq|lia|lia|lia].
  - rewrite <- (ztake_zdrop (1 + 1 + 2 + 4 + 4 + 4 + n) src) at 1. fold t. f_equal.
    unfold encode_frame; cbn.
    rewrite <- (zdrop_0 t) at 1.
    rewrite (zslice_split 0 1 t), (zslice_split 1 2 t), (zslice_split 2 4 t), (zslice_split 4 8 t),
      (zslice_split 8 12 t), (zslice_split 12 16 t) by lia.
    assert (M : zslice 0 1 t = be_bytes 1 FRAME_MAGIC).
    { unfold t. rewrite zslice_ztake by lia. rewrite <- (be_slice 1 0 1 src) by lia.
      by rewrite Hmagic. }
    rewrite M. f_equal.
    by rewrite (be_slice 1 1 2), (be_slice 2 2 4), (be_slice 4 4 8), (be_slice 4 8 12), (be_slice 4 12 16)
      by lia.
Qed.

(** ** Streams *)

Definition stream (fs : list Frame) : bytes := concat (map encode_frame fs).

(** A buffer that starts a stream either holds its first frame or part of it. *)
Lemma stream_front f fs b more :
  frame_ok f → b ++ more = encode_frame f ++ stream fs →
  decode_frame b = (Ok None, b) ∨
  ∃ b', b = encode_frame f ++ b' ∧ b' ++ more = stream fs ∧ decode_frame b = (Ok (Some f), b').
Proof.
  intros Hf E. destruct (decide (zlen b < zlen (encode_frame f))) as [Hlt|Hge].
  - left. assert (b = ztake (zlen b) (encode_frame f)) as Hb.
    { rewrite <- (ztake_app_le (zlen b) (encode_frame f) (stream fs)) by lia.
      by rewrite <- E, ztake_app_exact. }
    rewrite Hb. by apply decode_partial.
  - right. exists (zdrop (zlen (encode_frame f)) b).
    assert (Hb : b = encode_frame f ++ zdrop (zlen (encode_frame f)) b).
    { rewrite <- (ztake_zdrop (zlen (encode_frame f)) b) at 1. f_equal.
      rewrite <- (ztake_app_le _ b more) by lia. by rewrite E, ztake_app_exact. }
    split_and!; [done| |].
    + rewrite Hb, <- app_assoc in E. by apply app_inv_head in E.
    + rewrite Hb at 1. by apply decode_encode_frame.
Qed.

Section server.
Context {St : Type} (dispatch : Frame → St → Response * St).

(** The specification of a connection: the frames are answered in order, up
    to the first response that cannot be written. *)
Fixpoint answer (fs : list Frame) (w : bytes) (s : St) : result unit * bytes * St :=
  match fs with
  | [] => (Ok tt, w, s)
  | f :: fs =>
    let '(response, s) := dispatch f s in
    match write_response (fh_correlation_id (header f)) response with
    | Err e => (Err e, w, s)
    | Ok out => answer fs (w ++ out) s
    end
  end.

Lemma answer_app fs1 fs2 w s :
  answer (fs1 ++ fs2) w s =
  match answer fs1 w s with
  | (Ok _, w, s) => answer fs2 w s
  | r => r
  end.
Proof.
  revert w s. induction fs1 as [|f fs1 IH]; intros w s; [done|]. cbn.
  destruct (dispatch f s) as [response s']. by destruct (write_response _ response).
Qed.

(** What a loop leaves of the input [b] that starts the stream [fs]: it has
    answered the frames [fs1], and unless it failed it waits for the rest of
    the next one. *)
Definition answered (b : bytes) (fs : list Frame) (w : bytes) (s : St)
    (res : result unit * conn (St := St)) : Prop :=
  ∃ fs1 fs2 b' u, fs = fs1 ++ fs2 ∧ b = stream fs1 ++ u ∧
    let '(r, w', s') := answer fs1 w s in
    res = (r, mkConn b' w' s') ∧ (r = Ok tt → u = b' ∧ decode_frame b' = (Ok None, b')).

Lemma stream_app fs1 fs2 : stream (fs1 ++ fs2) = stream fs1 ++ stream fs2.
Proof. unfold stream. by rewrite map_app, concat_app. Qed.

Lemma drain_frames_spec fuel b more fs w s :
  Forall frame_ok fs → b ++ more = stream fs → (length b < fuel)%nat →
  answered b fs w s (drain_frames dispatch fuel (mkConn b w s)).
Proof.
  revert b fs w s. induction fuel as [|fuel IH]; intros b fs w s Hfs E Hfuel; [lia|].
  destruct fs as [|f fs].
  - apply app_eq_nil in E as [-> ->]. by exists [], [], [], [].
  - apply Forall_cons in Hfs as [Hf Hfs].
    destruct (stream_front f fs b more Hf E) as [Hnone|(b' & Hb & E' & Hsome)].
    + exists [], (f :: fs), b, b. cbn. by rewrite Hnone.
    + cbn [drain_frames buf]. rewrite Hsome. cbn [st written].
      destruct (dispatch f s) as [response s'] eqn:Ed.
      destruct (write_response (fh_correlation_id (header f)) response) as [out|e] eqn:Ew.
      * destruct (IH b' fs (w ++ out) s') as (fs1 & fs2 & b'' & u & -> & -> & Hd); [done..| |].
        { rewrite Hb, length_app in Hfuel. pose proof (zlen_encode_frame f).
          pose proof (zlen_nonneg (payload f)). unfold zlen, HEADER_LEN in *. lia. }
        exists (f :: fs1), fs2, b'', u. split; [done|]. split; [by rewrite Hb; cbn; rewrite app_assoc|].
        cbn. by rewrite Ed, Ew.
      * exists [f], fs, b', b'. split; [done|]. split; [by rewrite Hb; cbn; rewrite app_nil_r|].
        cbn. by rewrite Ed, Ew.
Qed.

Lemma handle_spec chunks b missing fs w s :
  Forall frame_ok fs → Forall (λ c, c ≠ []) chunks → b ++ concat chunks ++ missing = stream fs →
  answered (b ++ concat chunks) fs w s (handle_connection dispatch chunks (mkConn b w s)).
Proof.
  revert b fs w s. induction chunks as [|c chunks IH]; intros b fs w s Hfs Hc E; cbn [handle_connection].
  - destruct (drain_frames_spec (S (length b)) b missing fs w s) as (fs1 & fs2 & b' & u & -> & Hb & Hd);
      [done..|lia|]. exists fs1, fs2, b', u. cbn [concat]. rewrite app_nil_r.
    cbn [buf]. destruct (answer fs1 w s) as [[r w'] s']. destruct Hd as [-> Hd]. by destruct r as [[]|].
  - destruct (drain_frames_spec (S (length b)) b (concat (c :: chunks) ++ missing) fs w s)
      as (fs1 & fs2 & b' & u & -> & Hb & Hd); [done..|lia|].
    destruct (answer fs1 w s) as [[r w'] s'] eqn:Ea. destruct Hd as [Hd Hb']. cbn [buf] in *. rewrite Hd.
    destruct r as [[]|e].
    + destruct Hb' as [-> _]; [done|]. apply Forall_cons in Hc as [Hc Hcs].
      rewrite bool_decide_false by done. cbn [buf written st].
      apply Forall_app in Hfs as [_ Hfs2].
      destruct (IH (b' ++ c) fs2 w' s') as (g1 & g2 & b'' & u & -> & Hu & Hg); [done..| |].
      { rewrite Hb, stream_app, <- !app_assoc in E. apply app_inv_head in E. cbn in E.
        by rewrite <- !app_assoc in *. }
      exists (fs1 ++ g1), g2, b'', u. rewrite app_assoc, stream_app. split; [done|]. split.
      { rewrite Hb. cbn. rewrite <- !app_assoc. f_equal. by rewrite <- app_assoc in Hu. }
      by rewrite answer_app, Ea.
    + exists fs1, fs2, b', (u ++ concat (c :: chunks)). split; [done|].
      split; [by rewrite Hb, <- app_assoc|]. by rewrite Ea.
Qed.

Lemma stream_split_unique fs f k fs1 fs2 u :
  Forall frame_ok fs → frame_ok f → 0 ≤ k < zlen (encode_frame f) →
  fs ++ [f] = fs1 ++ fs2 → stream fs ++ ztake k (encode_frame f) = stream fs1 ++ u →
  ∃ fs3, fs = fs1 ++ fs3 ∧ u = stream fs3 ++ ztake k (encode_frame f).
Proof.
  intros Hfs Hf Hk Hsplit E. destruct fs2 as [|f' fs3 _] using rev_ind.
  - rewrite app_nil_r in Hsplit. subst fs1. exfalso. apply (f_equal zlen) in E.
    rewrite stream_app in E. cbn in E. rewrite app_nil_r in E.
    autorewrite with zlen in E. rewrite (zlen_ztake k) in E by lia. zlen_facts. lia.
  - rewrite app_assoc in Hsplit. apply app_inj_tail in Hsplit as [-> <-].
    exists fs3. split; [done|]. rewrite stream_app, <- app_assoc in E. by apply app_inv_head in E.
Qed.

Lemma stream_partial_stuck fs f k :
  Forall frame_ok fs → frame_ok f →
  decode_frame (stream fs ++ ztake k (encode_frame f)) = (Ok None, stream fs ++ ztake k (encode_frame f)) →
  fs = [].
Proof.
  intros Hfs Hf E. destruct fs as [|g fs]; [done|]. apply Forall_cons in Hfs as [Hg _].
  cbn in E. rewrite <- app_assoc in E. by rewrite decode_encode_frame in E.
Qed.

Lemma connection_spec fs f k chunks s :
  Forall frame_ok fs → frame_ok f → 0 ≤ k < zlen (encode_frame f) → Forall (λ c, c ≠ []) chunks →
  concat chunks = stream fs ++ ztake k (encode_frame f) →
  ∃ b, let '(r, w, s') := answer fs [] s in
    handle_connection dispatch chunks (mkConn [] [] s) = (r, mkConn b w s').
Proof.
  intros Hfs Hf Hk Hc E.
  destruct (handle_spec chunks [] (zdrop k (encode_frame f)) (fs ++ [f]) [] s)
    as (fs1 & fs2 & b' & u & Hs & Hu & Ha).
  { apply Forall_app. auto. }
  { done. }
  { cbn [app]. rewrite E, stream_app, <- app_assoc, ztake_zdrop. cbn. by rewrite app_nil_r. }
  cbn [app] in Hu. rewrite E in Hu.
  destruct (stream_split_unique fs f k fs1 fs2 u) as (fs3 & -> & ->); [done..|].
  exists b'. rewrite answer_app. destruct (answer fs1 [] s) as [[r w] s'].
  destruct Ha as [-> Hstuck]. destruct r as [[]|e]; [|done].
  destruct Hstuck as [<- Hn]; [done|]. apply Forall_app in Hfs as [_ Hfs3].
  by rewrite (stream_partial_stuck fs3 f k).
Qed.

End server.

(** ** The client *)

Lemma await_spec corr f b chunks :
  frame_ok f → Forall (λ c, c ≠ []) chunks → b ++ concat chunks = encode_frame f →
  await_response corr b chunks =
  if negb (fh_correlation_id (header f) =? corr) then Some (Err (Protocol "correlation mismatch"))
  else response_of (decode_response (fh_opcode (header f)) (payload f)).
Proof.
  intros Hf. revert b. induction chunks as [|c chunks IH]; intros b Hc E; cbn [await_response].
  - cbn in E. rewrite app_nil_r in E. subst b. rewrite <- (app_nil_r (encode_frame f)).
    by rewrite decode_encode_frame.
  - destruct (stream_front f [] b (concat (c :: chunks)) Hf) as [->|(b' & -> & _ & ->)]; [| |done].
    + by rewrite E; cbn; rewrite app_nil_r.
    + apply Forall_cons in Hc as [Hc Hcs]. rewrite bool_decide_false by done.
      apply IH; [done|]. by rewrite <- app_assoc.
Qed.

Lemma read_one_spec f b chunks :
  frame_ok f → Forall (λ c, c ≠ []) chunks → b ++ concat chunks = encode_frame f →
  decode_frame b = (Ok None, b) →
  read_one_response b chunks = response_of (decode_response (fh_opcode (header f)) (payload f)).
Proof.
  intros Hf. revert b. induction chunks as [|c chunks IH]; intros b Hc E Hb; cbn [read_one_response].
  - cbn in E. rewrite app_nil_r in E. subst b. rewrite <- (app_nil_r (encode_frame f)) in Hb.
    by rewrite decode_encode_frame in Hb.
  - apply Forall_cons in Hc as [Hc Hcs]. rewrite bool_decide_false by done.
    cbn in E. rewrite app_assoc in E.
    destruct (stream_front f [] (b ++ c) (concat chunks) Hf) as [Hn|(b' & _ & _ & ->)]; [| |done].
    + by rewrite E; cbn; rewrite app_nil_r.
    + rewrite Hn. by apply IH.
Qed.

Lemma frame_of_ok op corr p :
  is_u16 op = true → is_u32 corr = true → zlen p ≤ MAX_PAYLOAD → frame_ok (frame_of op corr p).
Proof.
  intros Ho Hc Hm. unfold frame_ok, frame_of. cbn. split_and!; try done.
  apply as_u32_small. unfold MAX_PAYLOAD in Hm. zlen_facts. lia.
Qed.

Lemma finish_payload_ok dst b : finish_payload dst = Ok b → b = dst ∧ zlen b ≤ MAX_PAYLOAD.
Proof. unfold finish_payload. intros E. case_if_in E; [done|]. by injection E as <-. Qed.

Lemma pack_request_ok corr req f :
  is_u32 corr = true → request_ok req = true → pack_request corr req = Ok f →
  frame_ok f ∧ fh_correlation_id (header f) = corr ∧
  decode_request (fh_opcode (header f)) (payload f) = Got req [].
Proof.
  unfold pack_request, encode_request. intros Hc Hr E.
  destruct (encode_client_request req) as [dst|] eqn:Ed; [|done].
  destruct (finish_payload dst) as [p|] eqn:Ep; [|done]. injection E as <-.
  apply finish_payload_ok in Ep as [-> Hm]. split; [|split; [done|]].
  - apply frame_of_ok; [by destruct req|done..].
  - cbn. destruct (request_body_roundtrip req dst) as (op & Hop & Hd); [done..|].
    unfold decode_request. rewrite Zltb_false, Hop by done. by rewrite app_nil_r in Hd.
Qed.

Lemma pack_response_ok corr resp f :
  is_u32 corr = true → response_ok resp = true → pack_response corr resp = Ok f →
  frame_ok f ∧ fh_correlation_id (header f) = corr ∧
  decode_response (fh_opcode (header f)) (payload f) = Got resp [].
Proof.
  unfold pack_response, encode_response. intros Hc Hr E.
  destruct (encode_client_response resp) as [dst|] eqn:Ed; [|done].
  destruct (finish_payload dst) as [p|] eqn:Ep; [|done]. injection E as <-.
  apply finish_payload_ok in Ep as [-> Hm]. split; [|split; [done|]].
  - apply frame_of_ok; [by destruct resp|done..].
  - cbn. destruct (response_body_roundtrip resp dst) as (op & Hop & Hd); [done..|].
    unfold decode_response. rewrite Zltb_false, Hop by done. by rewrite app_nil_r in Hd.
Qed.

End frames.

(** ** Theorems *)

(** An [Auth] request and a dispatcher that counts, for the examples. *)
Definition demo_request : Request := Request.Auth "t".
Definition demo_frame : Frame := frame_of (H := crc_sum32) 30 7 [x01; x00; x74].
Definition demo_dispatch (f : Frame) (s : Z) : Response * Z := (Response.Auth 0, s + 1).
Definition demo_answer : Frame := frame_of (H := crc_sum32) 31 7 [x00; x00].

Lemma demo_frame_ok : frame_ok (H := crc_sum32) demo_frame.
Proof. apply frame_of_ok; [done..|]. by vm_compute. Qed.

(** [decode_frame] accepts exactly the encodings of frames with the
    current version, fields of their width, a payload within the limit and a
    matching checksum, and takes exactly those bytes. *)
Theorem decode_frame_exact `{Crc32} src f rest :
  decode_frame src = (Ok (Some f), rest) ↔ frame_ok f ∧ src = encode_frame f ++ rest.
Proof.
  split; [apply decode_frame_sound|]. intros [Hf ->]. by apply decode_encode_frame.
Qed.

(** C19: a connection does not depend on how the stream is cut: whatever the
    chunks, and also when the client stops within a frame, the server answers
    exactly the complete frames, in order, up to the first response that
    cannot be written. *)
Theorem connection_refines `{Crc32} {St} (dispatch : Frame → St → Response * St) fs f k chunks s :
  Forall frame_ok fs → frame_ok f → 0 ≤ k < zlen (encode_frame f) → Forall (λ c, c ≠ []) chunks →
  concat chunks = stream fs ++ ztake k (encode_frame f) →
  ∃ b, let '(r, w, s') := answer dispatch fs [] s in
    handle_connection dispatch chunks (mkConn [] [] s) = (r, mkConn b w s').
Proof. apply connection_spec. Qed.

Lemma connection_refines_witness :
  let e := encode_frame demo_frame in
  ∃ b, handle_connection (H := crc_sum32) demo_dispatch [ztake 3 e; zdrop 3 e ++ ztake 5 e] (mkConn [] [] 0) =
    (Ok tt, mkConn b (encode_frame demo_answer) 1).
Proof.
  apply (connection_refines (H := crc_sum32) demo_dispatch [demo_frame] demo_frame 5).
  - constructor; [exact demo_frame_ok|constructor].
  - exact demo_frame_ok.
  - vm_compute. split; [discriminate|reflexivity].
  - repeat constructor; discriminate.
  - reflexivity.
Defined.

(** C18: a request and its response across two connections: the server decodes
    the request that was sent, writes the frame of the response, and both
    clients ([Client::round_trip] and the inter-broker [read_one_response])
    return that response, however the bytes are cut in either direction. *)
Theorem rpc_end_to_end `{Crc32} {St} (dispatch : Frame → St → Response * St) s s' corr req resp f f' up down :
  request_ok req = true → response_ok resp = true → is_u32 corr = true →
  pack_request corr req = Ok f → dispatch f s = (resp, s') → pack_response corr resp = Ok f' →
  Forall (λ c, c ≠ []) up → concat up = encode_frame f →
  Forall (λ c, c ≠ []) down → concat down = encode_frame f' →
  decode_request (fh_opcode (header f)) (payload f) = Got req [] ∧
  (∃ b, handle_connection dispatch up (mkConn [] [] s) = (Ok tt, mkConn b (encode_frame f') s')) ∧
  await_response corr [] down = Some (Ok resp) ∧ read_one_response [] down = Some (Ok resp).
Proof.
  intros Hreq Hresp Hc Hp Hd Hp' Hup Eup Hdown Edown.
  destruct (pack_request_ok corr req f) as (Hf & Hfc & Hr); [done..|].
  destruct (pack_response_ok corr resp f') as (Hf' & Hfc' & Hr'); [done..|].
  split; [done|]. split; [|split].
  - destruct (connection_spec dispatch [f] f 0 up s) as [b Hb]; [by constructor|done| |done| |].
    { rewrite zlen_encode_frame. unfold HEADER_LEN. zlen_facts. lia. }
    { rewrite Eup. cbn. by rewrite !app_nil_r. }
    exists b. cbn in Hb. unfold write_response in Hb. by rewrite Hd, Hfc, Hp' in Hb.
  - rewrite (await_spec corr f') by done. rewrite Hfc', Z.eqb_refl. cbn. by rewrite Hr'.
  - rewrite (read_one_spec f') by done. by rewrite Hr'.
Qed.

Lemma rpc_end_to_end_witness :
  decode_request 30 (payload demo_frame) = Got demo_request [] ∧
  (∃ b, handle_connection (H := crc_sum32) demo_dispatch [encode_frame demo_frame] (mkConn [] [] 4) =
        (Ok tt, mkConn b (encode_frame demo_answer) 5)) ∧
  await_response (H := crc_sum32) 7 [] [encode_frame demo_answer] = Some (Ok (Response.Auth 0)) ∧
  read_one_response (H := crc_sum32) [] [encode_frame demo_answer] = Some (Ok (Response.Auth 0)).
Proof.
  apply (rpc_end_to_end (H := crc_sum32) demo_dispatch 4 5 7 demo_request (Response.Auth 0)
           demo_frame demo_answer);
    try reflexivity; repeat constructor; discriminate.
Defined.

(** The payload limit does not bound what is buffered: a frame whose
    header announces more than [MAX_PAYLOAD] bytes is not refused until all of
    them have arrived. *)
Theorem oversized_frame_buffered `{Crc32} op corr n crc p :
  MAX_PAYLOAD < n ≤ u32_max → zlen p < n →
  let src := encode_frame (mkFrame (mkFrameHeader PROTOCOL_VERSION op corr n crc) p) in
  decode_frame src = (Ok None, src).
Proof.
  intros Hn Hp src. unfold decode_frame. case_if; [done|].
  destruct (encode_frame_fields (mkFrame (mkFrameHeader PROTOCOL_VERSION op corr n crc) p) [])
    as (E0 & _ & _ & _ & E8 & _). rewrite app_nil_r in *. fold src in E0, E8. cbn in E8.
  unfold u32_max, MAX_PAYLOAD in *. rewrite E0, E8, !be_val_small by (unfold FRAME_MAGIC; cbn; lia).
  rewrite Z.eqb_refl. cbn [negb]. rewrite Zltb_true; [done|].
  unfold src. rewrite zlen_encode_frame. cbn. lia.
Qed.

Lemma oversized_frame_buffered_witness :
  let src := encode_frame (mkFrame (mkFrameHeader 1 1 0 16777217 0) [x00]) in
  decode_frame (H := crc_sum32) src = (Ok None, src).
Proof.
  apply (oversized_frame_buffered (H := crc_sum32) 1 0 16777217 0 [x00]).
  - vm_compute. split; [reflexivity|discriminate].
  - reflexivity.
Defined.
