(* ===== verification/Record.v ===== *)
(** * On-disk records: [volant-storage/src/record.rs]

    The segment header and the record encoding
    [record_length | crc32 | offset | timestamp | key | value | headers],
    little-endian throughout, with the decoder used by reads and recovery. *)

From S2P Require Import Prelude Bytes Core.

Definition MAGIC : Z := 1447841364. (* 0x564C_4E54, "VLNT" *)
Definition VERSION : Z := 1.
Definition HEADER_SIZE : Z := 32.
Definition NULL_KEY_LEN : Z := u32_max.

(** ** Segment header *)

Definition encode_header (base_offset created_at_ms : Z) : bytes :=
  u32_le MAGIC ++ u16_le VERSION ++ u16_le 0 ++ u64_le base_offset ++
  i64_le created_at_ms ++ replicate 8 x00.

Record SegmentHeader := mkSegmentHeader {
  hdr_version : Z;
  hdr_flags : Z;
  hdr_base_offset : Z;
  hdr_created_at_ms : Z;
}.

Definition decode_header (buf : bytes) : result SegmentHeader :=
  if zlen buf <? HEADER_SIZE then Err (Storage "segment header too short") else
  let magic := le_val (zslice 0 4 buf) in
  if negb (magic =? MAGIC) then Err (Storage "bad segment magic") else
  let version := le_val (zslice 4 6 buf) in
  if negb (version =? VERSION) then Err (Storage "unsupported segment version") else
  let flags := le_val (zslice 6 8 buf) in
  let base_offset := le_val (zslice 8 16 buf) in
  let created_at_ms := as_i64 (le_val (zslice 16 24 buf)) in
  Ok (mkSegmentHeader version flags base_offset created_at_ms).

(** ** Encoding a record *)

Definition add_header_size (acc : Z) (h : string * bytes) : Z :=
  let '(name, value) := h in acc + (2 + str_len name + 4 + zlen value).

Definition record_body_size (message : Message) : Z :=
  let key_field :=
    match msg_key message with Some k => 4 + zlen k | None => 4 end in
  let headers_size :=
    foldl add_header_size 4 (msg_headers message) in
  8 + 8 + key_field + 4 + zlen (msg_value message) + headers_size.

Definition encoded_record_size (message : Message) : Z := 4 + 4 + record_body_size message.

Definition encode_record_header (h : string * bytes) : bytes :=
  let '(name, value) := h in
  u16_le (as_u16 (str_len name)) ++ as_bytes name ++
  u32_le (as_u32 (zlen value)) ++ value.

Definition encode_body (offset timestamp_ms : Z) (message : Message) : bytes :=
  u64_le offset ++ i64_le timestamp_ms ++
  match msg_key message with
  | Some key => u32_le (as_u32 (zlen key)) ++ key
  | None => u32_le NULL_KEY_LEN
  end ++
  u32_le (as_u32 (zlen (msg_value message))) ++ msg_value message ++
  u32_le (as_u32 (zlen (msg_headers message))) ++
  concat (map encode_record_header (msg_headers message)).

Section codec.
Context `{Crc32}.

(** Appends the encoded record to [buf]; returns the bytes written. *)
Definition encode_record (buf : bytes) (offset timestamp_ms : Z) (message : Message)
    : bytes * Z :=
  let start := zlen buf in
  let body := encode_body offset timestamp_ms message in
  let stop := start + 4 + 4 + zlen body in
  let crc := crc32_hash body in
  let record_length := as_u32 (stop - start - 4) in
  (buf ++ u32_le record_length ++ u32_le crc ++ body, stop - start).

(** The bytes of one record, as written by [encode_record] to an empty buffer. *)
Definition record_bytes (r : LogRecord) : bytes :=
  fst (encode_record [] (rec_offset r) (rec_timestamp_ms r) (message_of r)).

(** ** Decoding a record *)

Inductive DecodeStatus :=
| DecodeOk (record : LogRecord) (position next_pos size : Z)
| Incomplete
| Corrupt.

Definition truncated {A} : result A := Err (Storage "truncated record body").

Definition read_le (n : Z) (buf : bytes) : result (Z * bytes) :=
  if zlen buf <? n then truncated else Ok (le_val (ztake n buf), zdrop n buf).

Definition read_u16 (buf : bytes) : result (Z * bytes) := read_le 2 buf.
Definition read_u32 (buf : bytes) : result (Z * bytes) := read_le 4 buf.
Definition read_u64 (buf : bytes) : result (Z * bytes) := read_le 8 buf.
Definition read_i64 (buf : bytes) : result (Z * bytes) :=
  let? (v, buf) := read_le 8 buf in Ok (as_i64 v, buf).

Definition read_bytes (buf : bytes) (len : Z) : result (bytes * bytes) :=
  if zlen buf <? len then truncated else Ok (ztake len buf, zdrop len buf).

(** One iteration of the header loop. *)
Definition parse_header (body : bytes) : result ((string * bytes) * bytes) :=
  let? (name_len, body) := read_u16 body in
  let? (name_bytes, body) := read_bytes body name_len in
  match from_utf8 name_bytes with
  | None => Err (Storage "header name utf8")
  | Some name =>
    let? (vlen, body) := read_u32 body in
    let? (v, body) := read_bytes body vlen in
    Ok ((name, v), body)
  end.

(** [for _ in 0..header_count].  An iteration that does not fail consumes at
    least six bytes, so a fuel above the length of the body is never used up
    ([parse_headers_fuel] below). *)
Fixpoint parse_headers (fuel : nat) (count : Z) (body : bytes)
    : result (list (string * bytes) * bytes) :=
  if count <=? 0 then Ok ([], body) else
  match fuel with
  | O => truncated
  | S fuel =>
    let? (h, body) := parse_header body in
    let? (hs, body) := parse_headers fuel (count - 1) body in
    Ok (h :: hs, body)
  end.

Definition parse_body (body : bytes) : result LogRecord :=
  let? (offset, body) := read_u64 body in
  let? (timestamp_ms, body) := read_i64 body in
  let? (key_len, body) := read_u32 body in
  let? (key, body) :=
    (if key_len =? NULL_KEY_LEN then Ok (None, body)
     else let? (k, body) := read_bytes body key_len in Ok (Some k, body)) in
  let? (value_len, body) := read_u32 body in
  let? (value, body) := read_bytes body value_len in
  let? (header_count, body) := read_u32 body in
  let? (headers, _) := parse_headers (S (length body)) header_count body in
  Ok (mkLogRecord offset key value timestamp_ms headers).

Definition decode_record_at (data : bytes) (pos : Z) : DecodeStatus :=
  if zlen data <? pos + 4 then Incomplete else
  let record_length := le_val (zslice pos (pos + 4) data) in
  if record_length <? 4 then Corrupt else
  let total := 4 + record_length in
  if zlen data <? pos + total then Incomplete else
  let rec := zslice (pos + 4) (pos + total) data in
  let stored_crc := le_val (zslice 0 4 rec) in
  let body := zdrop 4 rec in
  let computed := crc32_hash body in
  if negb (stored_crc =? computed) then Corrupt else
  match parse_body body with
  | Ok record => DecodeOk record pos (pos + total) total
  | Err _ => Corrupt
  end.

End codec.

(** ** What the encoder expects

    Lengths that fit their fields.  The record length field bounds every
    other length except those of header names, which have 16 bits. *)

Definition header_ok (h : string * bytes) : Prop :=
  str_valid (fst h) = true ∧ str_len (fst h) ≤ u16_max.

Definition message_ok (m : Message) : Prop :=
  encoded_record_size m - 4 ≤ u32_max ∧ Forall header_ok (msg_headers m).

Definition record_ok (r : LogRecord) : Prop :=
  0 ≤ rec_offset r ≤ u64_max ∧
  i64_min ≤ rec_timestamp_ms r ≤ i64_max ∧
  message_ok (message_of r).

#[export] Instance header_ok_dec h : Decision (header_ok h).
Proof. unfold header_ok. apply _. Defined.
#[export] Instance message_ok_dec m : Decision (message_ok m).
Proof. unfold message_ok. apply _. Defined.
#[export] Instance record_ok_dec r : Decision (record_ok r).
Proof. unfold record_ok. apply _. Defined.

(** ** Lengths *)

Lemma zlen_encode_header b c : zlen (encode_header b c) = HEADER_SIZE.
Proof. unfold encode_header, u32_le, u16_le, u64_le, i64_le. by autorewrite with zlen. Qed.

Lemma headers_size_shift hs (a c : Z) :
  foldl add_header_size (a + c) hs =
  a + foldl add_header_size c hs.
Proof.
  revert c. induction hs as [|[n v] hs IH]; intros c; simpl; [done|].
  rewrite <- IH. f_equal. lia.
Qed.

Lemma zlen_encode_headers hs :
  4 + zlen (concat (map encode_record_header hs)) =
  foldl add_header_size 4 hs.
Proof.
  induction hs as [|[n v] hs IH]; simpl; [done|].
  replace (4 + (2 + str_len n + 4 + zlen v)) with ((2 + str_len n + 4 + zlen v) + 4) by lia.
  rewrite headers_size_shift, <- IH.
  unfold u16_le, u32_le, str_len. autorewrite with zlen. lia.
Qed.

Lemma zlen_encode_body o t m : zlen (encode_body o t m) = record_body_size m.
Proof.
  unfold encode_body, record_body_size. rewrite <- zlen_encode_headers.
  unfold u64_le, i64_le, u32_le.
  destruct (msg_key m); autorewrite with zlen; lia.
Qed.

Lemma record_body_size_min m : 28 ≤ record_body_size m.
Proof.
  unfold record_body_size. rewrite <- zlen_encode_headers.
  destruct (msg_key m); zlen_facts; lia.
Qed.

#[export] Hint Rewrite zlen_encode_header zlen_encode_body : zlen.

(** ** Readers on encoder output *)

Lemma read_le_app n z rest :
  read_le (Z.of_nat n) (le_bytes n z ++ rest) = Ok (z mod 256 ^ Z.of_nat n, rest).
Proof.
  unfold read_le. rewrite Zltb_false by zlen_lia.
  rewrite ztake_app_exact, zdrop_app_exact by by rewrite zlen_le_bytes.
  by rewrite le_val_bytes.
Qed.

Lemma read_u16_app z rest : 0 ≤ z ≤ u16_max → read_u16 (u16_le z ++ rest) = Ok (z, rest).
Proof.
  intros Hz. unfold read_u16, u16_le. rewrite (read_le_app 2).
  rewrite Z.mod_small; [done|]. unfold u16_max in Hz. simpl. lia.
Qed.

Lemma read_u32_app z rest : 0 ≤ z ≤ u32_max → read_u32 (u32_le z ++ rest) = Ok (z, rest).
Proof.
  intros Hz. unfold read_u32, u32_le. rewrite (read_le_app 4).
  rewrite Z.mod_small; [done|]. unfold u32_max in Hz. simpl. lia.
Qed.

Lemma read_u64_app z rest : 0 ≤ z ≤ u64_max → read_u64 (u64_le z ++ rest) = Ok (z, rest).
Proof.
  intros Hz. unfold read_u64, u64_le. rewrite (read_le_app 8).
  rewrite Z.mod_small; [done|]. unfold u64_max in Hz. simpl. lia.
Qed.

Lemma read_i64_app z rest :
  i64_min ≤ z ≤ i64_max → read_i64 (i64_le z ++ rest) = Ok (z, rest).
Proof.
  intros Hz. unfold read_i64, i64_le. rewrite (read_le_app 8). simpl.
  rewrite <- (as_i64_small z Hz) at 2. unfold as_i64, signed.
  change (256 ^ 8) with (2 ^ 64). by rewrite Z.mod_mod.
Qed.

Lemma read_bytes_app l rest n : n = zlen l → read_bytes (l ++ rest) n = Ok (l, rest).
Proof.
  intros ->. unfold read_bytes. rewrite Zltb_false by zlen_lia.
  by rewrite ztake_app_exact, zdrop_app_exact.
Qed.

Lemma parse_header_app h rest :
  header_ok h → zlen (snd h) ≤ u32_max →
  parse_header (encode_record_header h ++ rest) = Ok (h, rest).
Proof.
  destruct h as [name v]; intros [Hv Hn] Hz; cbn [fst snd encode_record_header] in *.
  unfold parse_header.
  rewrite <- !app_assoc.
  rewrite as_u16_small by (unfold str_len, u16_max in *; zlen_facts; lia).
  rewrite read_u16_app by (unfold str_len in *; zlen_facts; lia).
  rewrite read_bytes_app by done. rewrite from_utf8_as_bytes by done.
  rewrite as_u32_small by (unfold u32_max in *; zlen_facts; lia).
  rewrite read_u32_app by (zlen_facts; lia).
  by rewrite read_bytes_app.
Qed.

Lemma parse_headers_app hs rest fuel :
  Forall header_ok hs → Forall (λ h, zlen (snd h) ≤ u32_max) hs →
  (length hs ≤ fuel)%nat →
  parse_headers fuel (zlen hs) (concat (map encode_record_header hs) ++ rest) = Ok (hs, rest).
Proof.
  intros Hok Hsz. revert fuel. induction hs as [|h hs IH]; intros fuel Hf.
  - by destruct fuel.
  - apply Forall_cons in Hok as [Hh Hok]. apply Forall_cons in Hsz as [Hz Hsz].
    destruct fuel as [|fuel]; [simpl in Hf; lia|].
    rewrite zlen_cons. cbn [parse_headers map concat].
    rewrite Zleb_false by (zlen_facts; lia).
    rewrite <- app_assoc, parse_header_app by done.
    replace (1 + zlen hs - 1) with (zlen hs) by lia.
    by rewrite IH by (simpl in Hf; lia || done).
Qed.

Lemma headers_count_bound hs : zlen hs ≤ zlen (concat (map encode_record_header hs)).
Proof.
  induction hs as [|[n v] hs IH]; [done|]. cbn [map concat encode_record_header].
  unfold u16_le, u32_le. autorewrite with zlen. zlen_facts; lia.
Qed.

Lemma header_value_bound hs :
  Forall (λ h, zlen (snd h) ≤ zlen (concat (map encode_record_header hs))) hs.
Proof.
  induction hs as [|[n v] hs IH]; [by constructor|].
  cbn [map concat encode_record_header].
  constructor; [|eapply Forall_impl; [exact IH|intros h Hh; cbv beta in *]];
    unfold u16_le, u32_le; autorewrite with zlen; zlen_facts; simpl; lia.
Qed.

Lemma parse_body_encode off ts m :
  0 ≤ off ≤ u64_max → i64_min ≤ ts ≤ i64_max → message_ok m →
  parse_body (encode_body off ts m) = Ok (record_of off ts m).
Proof.
  intros Ho Ht [Hsz Hh].
  assert (Hb : record_body_size m ≤ u32_max - 4) by (unfold encoded_record_size in Hsz; lia).
  unfold record_body_size in Hb. rewrite <- zlen_encode_headers in Hb.
  pose proof (headers_count_bound (msg_headers m)).
  pose proof (header_value_bound (msg_headers m)) as Hv.
  set (hs := concat (map encode_record_header (msg_headers m))) in *.
  zlen_facts. unfold parse_body, encode_body.
  rewrite read_u64_app, read_i64_app by done.
  assert (Hhead : ∀ key rest,
    msg_key m = key →
    (let? (key_len, body) := read_u32 (match key with
       | Some key => u32_le (as_u32 (zlen key)) ++ key
       | None => u32_le NULL_KEY_LEN end ++ rest) in
     if key_len =? NULL_KEY_LEN then Ok (None, body)
     else let? (k, body) := read_bytes body key_len in Ok (Some k, body)) = Ok (key, rest)).
  { intros [k|] rest Hk; rewrite Hk in Hb; unfold u32_max in *.
    - zlen_facts. rewrite <- app_assoc, as_u32_small by lia.
      rewrite read_u32_app by (unfold u32_max; lia).
      rewrite Zeqb_false by (unfold NULL_KEY_LEN, u32_max; lia). by rewrite read_bytes_app.
    - by rewrite read_u32_app by (unfold NULL_KEY_LEN, u32_max; lia). }
  specialize (Hhead (msg_key m) (u32_le (as_u32 (zlen (msg_value m))) ++ msg_value m ++
    u32_le (as_u32 (zlen (msg_headers m))) ++ hs) eq_refl).
  destruct (read_u32 (_ ++ _)) as [[kl body]|] eqn:Ek; [|done].
  rewrite Hhead. unfold u32_max in *.
  assert (zlen (msg_value m) ≤ 4294967295) by (destruct (msg_key m); zlen_facts; lia).
  assert (zlen hs ≤ 4294967295) by (destruct (msg_key m); zlen_facts; lia).
  rewrite as_u32_small, read_u32_app by (unfold u32_max; lia).
  rewrite read_bytes_app by done.
  rewrite as_u32_small, read_u32_app by (unfold u32_max; lia).
  rewrite <- (app_nil_r hs). unfold hs. rewrite parse_headers_app; try done.
  - eapply Forall_impl; [exact Hv|]. intros h Hz; cbv beta in *. unfold u32_max. lia.
  - rewrite app_nil_r. unfold zlen in *. fold hs. lia.
Qed.

(** ** The decoder on a position of a buffer *)

Section decode_facts.
Context `{Crc32}.

Lemma record_bytes_app r :
  record_bytes r =
  u32_le (as_u32 (4 + record_body_size (message_of r))) ++
  u32_le (crc32_hash (encode_body (rec_offset r) (rec_timestamp_ms r) (message_of r))) ++
  encode_body (rec_offset r) (rec_timestamp_ms r) (message_of r).
Proof.
  unfold record_bytes, encode_record. cbn [fst app]. rewrite zlen_nil, zlen_encode_body.
  do 3 f_equal. lia.
Qed.

Lemma zlen_record_bytes r : zlen (record_bytes r) = encoded_record_size (message_of r).
Proof.
  rewrite record_bytes_app. unfold u32_le, encoded_record_size. autorewrite with zlen. lia.
Qed.

Lemma record_bytes_pos r : 36 ≤ zlen (record_bytes r).
Proof.
  rewrite zlen_record_bytes. unfold encoded_record_size.
  pose proof (record_body_size_min (message_of r)). lia.
Qed.

Lemma encode_record_bytes buf off ts m :
  encode_record buf off ts m =
  (buf ++ record_bytes (record_of off ts m), encoded_record_size m).
Proof.
  rewrite record_bytes_app. unfold encode_record, encoded_record_size. cbn [record_of].
  rewrite zlen_encode_body.
  assert (Hm : ∀ o t, encode_body o t (message_of (record_of off ts m)) = encode_body o t m) by done.
  assert (Hs : record_body_size (message_of (record_of off ts m)) = record_body_size m) by done.
  rewrite Hm, Hs. cbn [rec_offset rec_timestamp_ms record_of].
  f_equal; [do 4 f_equal|]; lia.
Qed.

(** Moving the origin of the buffer. *)
Definition shift_status (d : Z) (s : DecodeStatus) : DecodeStatus :=
  match s with
  | DecodeOk r p np sz => DecodeOk r (d + p) (d + np) sz
  | Incomplete => Incomplete
  | Corrupt => Corrupt
  end.

Lemma decode_record_at_shift pre data :
  decode_record_at (pre ++ data) (zlen pre) = shift_status (zlen pre) (decode_record_at data 0).
Proof.
  unfold decode_record_at, zslice. rewrite !zlen_app, !Z.add_0_l, !Z.sub_0_r.
  assert (Hd : ∀ n, 0 ≤ n → zdrop (zlen pre + n) (pre ++ data) = zdrop n data).
  { intros n Hn. rewrite zdrop_app_ge by lia. f_equal. lia. }
  replace (zlen pre + zlen data <? zlen pre + 4) with (zlen data <? 4)
    by zb_eq.
  case_if; [done|].
  rewrite (zdrop_app_exact (zlen pre)) by done.
  replace (zlen pre + 4 - zlen pre) with 4 by lia.
  rewrite !zdrop_0. set (rl := le_val (ztake 4 data)).
  case_if; [done|].
  replace (zlen pre + zlen data <? zlen pre + (4 + rl)) with (zlen data <? 4 + rl)
    by zb_eq.
  case_if; [done|].
  rewrite Hd by lia. replace (zlen pre + (4 + rl) - (zlen pre + 4)) with (4 + rl - 4) by lia.
  destruct (negb _); [done|]. destruct (parse_body _); [|done].
  simpl. f_equal; lia.
Qed.

Lemma decode_record_at_zdrop data pos :
  0 ≤ pos ≤ zlen data →
  decode_record_at data pos = shift_status pos (decode_record_at (zdrop pos data) 0).
Proof.
  intros Hp. pose proof (decode_record_at_shift (ztake pos data) (zdrop pos data)) as Hs.
  by rewrite ztake_zdrop, zlen_ztake in Hs by done.
Qed.

(** A successful decode stays inside the buffer and makes progress. *)
Lemma decode_record_at_ok_inv data pos r p np sz :
  decode_record_at data pos = DecodeOk r p np sz →
  p = pos ∧ np = pos + sz ∧ 8 ≤ sz ∧ np ≤ zlen data ∧ 0 ≤ rec_offset r ≤ u64_max.
Proof.
  unfold decode_record_at. case_if; [done|]. case_if; [done|]. case_if; [done|].
  destruct (negb _); [done|].
  destruct (parse_body _) as [r'|] eqn:E; [|done]. intros [= -> <- <- <-].
  repeat split; try lia; clear -E; unfold parse_body, read_u64, read_le in E;
    case_if_in E; try done;
    repeat match type of E with
    | match ?x with _ => _ end = _ => destruct x; try discriminate
    | (let '(_, _) := ?p in _) = _ => destruct p
    end; injection E as <-; cbn [rec_offset];
    match goal with |- context [le_val ?l] => pose proof (le_val_range l) as Hr end;
    rewrite zlen_ztake in Hr by lia; unfold u64_max; lia.
Qed.

Lemma decode_record_at_record r post :
  record_ok r →
  decode_record_at (record_bytes r ++ post) 0 =
  DecodeOk r 0 (zlen (record_bytes r)) (zlen (record_bytes r)).
Proof.
  intros (Ho & Ht & Hm). pose proof Hm as [Hsz _].
  pose proof (record_body_size_min (message_of r)).
  rewrite zlen_record_bytes. rewrite record_bytes_app.
  set (body := encode_body _ _ _).
  assert (Hlen : zlen body = record_body_size (message_of r)) by apply zlen_encode_body.
  unfold encoded_record_size, u32_max in *.
  rewrite as_u32_small by lia.
  unfold decode_record_at, zslice, u32_le.
  rewrite Zltb_false by (autorewrite with zlen; zlen_facts; lia).
  rewrite zdrop_0, Z.add_0_l, Z.sub_0_r, <- !app_assoc.
  rewrite ztake_app_exact, le_val_small by (autorewrite with zlen; simpl; lia).
  rewrite !Zltb_false by (autorewrite with zlen; zlen_facts; lia).
  rewrite zdrop_app_exact by by autorewrite with zlen.
  rewrite app_assoc.
  rewrite (ztake_app_exact (0 + _ - 4) (le_bytes 4 (crc32_hash body) ++ body) post)
    by (autorewrite with zlen; lia).
  rewrite zdrop_0, ztake_app_exact by by autorewrite with zlen.
  rewrite zdrop_app_exact by by autorewrite with zlen.
  rewrite le_val_small by (pose proof (crc32_range body); simpl; lia).
  rewrite Z.eqb_refl. cbn [negb]. unfold body.
  rewrite parse_body_encode by done.
  rewrite record_of_message_of. f_equal; lia.
Qed.

Lemma decode_record_at_torn r n :
  record_ok r → 0 ≤ n < zlen (record_bytes r) →
  decode_record_at (ztake n (record_bytes r)) 0 = Incomplete.
Proof.
  intros (_ & _ & [Hsz _]) Hn. rewrite zlen_record_bytes in Hn.
  pose proof (record_body_size_min (message_of r)).
  unfold decode_record_at. rewrite zlen_ztake by (rewrite zlen_record_bytes; lia).
  case_if; [done|].
  assert (Hl : le_val (zslice 0 (0 + 4) (ztake n (record_bytes r))) =
               4 + record_body_size (message_of r)).
  { unfold zslice. rewrite zdrop_0. unfold ztake. rewrite take_take.
    rewrite Nat.min_l by lia. rewrite record_bytes_app.
    change (take (Z.to_nat (0 + 4 - 0))) with (@ztake byte 4). unfold u32_le.
    rewrite ztake_app_exact by by autorewrite with zlen.
    unfold encoded_record_size, u32_max in *.
    rewrite as_u32_small by lia. apply le_val_small. simpl. lia. }
  rewrite Hl. unfold encoded_record_size in *.
  rewrite Zltb_false by lia. by rewrite Zltb_true by lia.
Qed.

(** Zero padding never decodes as a record. *)
Lemma decode_record_at_zeros n :
  decode_record_at (replicate n x00) 0 = (if (n <? 4)%nat then Incomplete else Corrupt).
Proof.
  unfold decode_record_at. rewrite zlen_replicate.
  destruct (Nat.ltb_spec n 4); [by rewrite Zltb_true by lia|].
  rewrite Zltb_false by lia.
  replace (le_val _) with 0; [done|]. unfold zslice, ztake. rewrite zdrop_0.
  rewrite take_replicate. by rewrite Nat.min_l by lia.
Qed.

End decode_facts.

(** ** Soundness of the decoder *)

Lemma read_le_inv n buf v rest :
  read_le n buf = Ok (v, rest) →
  n ≤ zlen buf ∧ v = le_val (ztake n buf) ∧ rest = zdrop n buf.
Proof. unfold read_le. case_if; [done|]. by intros [= <- <-]. Qed.

Lemma read_bytes_inv n buf v rest :
  read_bytes buf n = Ok (v, rest) → n ≤ zlen buf ∧ v = ztake n buf ∧ rest = zdrop n buf.
Proof. unfold read_bytes. case_if; [done|]. by intros [= <- <-]. Qed.

Lemma read_u16_range buf v rest : read_u16 buf = Ok (v, rest) → 0 ≤ v ≤ u16_max.
Proof.
  intros (Hn & -> & _)%read_le_inv. pose proof (le_val_range (ztake 2 buf)) as Hr.
  rewrite zlen_ztake in Hr by lia. unfold u16_max. lia.
Qed.

Lemma zdrop_zlen_le {A} n (l : list A) : zlen (zdrop n l) ≤ zlen l.
Proof. unfold zlen, zdrop. rewrite length_drop. lia. Qed.

Lemma parse_header_inv body h rest :
  parse_header body = Ok (h, rest) → header_ok h ∧ zlen rest + 6 ≤ zlen body.
Proof.
  unfold parse_header. intros E.
  destruct (read_u16 body) as [[nl b1]|] eqn:E1; [|done].
  pose proof (read_u16_range _ _ _ E1). apply read_le_inv in E1 as (? & _ & ->).
  destruct (read_bytes _ nl) as [[nb b2]|] eqn:E2; [|done].
  apply read_bytes_inv in E2 as (? & -> & ->).
  destruct (from_utf8 _) as [name|] eqn:E3; [|done].
  apply from_utf8_valid in E3 as [Hv Hb].
  destruct (read_u32 _) as [[vl b3]|] eqn:E4; [|done]. apply read_le_inv in E4 as (? & _ & ->).
  destruct (read_bytes _ vl) as [[v b4]|] eqn:E5; [|done].
  apply read_bytes_inv in E5 as (? & _ & ->). injection E as <- <-.
  split; [split; [done|]|].
  - cbn [fst]. unfold str_len. rewrite Hb, zlen_ztake by lia. lia.
  - etrans; [apply Z.add_le_mono_r, zdrop_zlen_le|].
    rewrite zlen_zdrop by lia. pose proof (zdrop_zlen_le nl (zdrop 2 body)).
    rewrite (zlen_zdrop 2) in * by lia. lia.
Qed.

Lemma parse_headers_ok fuel count body hs rest :
  parse_headers fuel count body = Ok (hs, rest) → Forall header_ok hs.
Proof.
  revert count body hs rest. induction fuel as [|fuel IH]; intros count body hs rest;
    cbn [parse_headers]; case_if; try (by intros [= <- <-]).
  destruct (parse_header body) as [[h b1]|] eqn:E1; [|done].
  destruct (parse_headers fuel _ b1) as [[hs' b2]|] eqn:E2; [|done].
  intros [= <- <-]. apply parse_header_inv in E1 as [? _]. constructor; eauto.
Qed.

(** The loop over headers never runs out of fuel: with any fuel above the
    length of the body the result is the same. *)
Lemma parse_headers_fuel f1 f2 count body :
  zlen body < Z.of_nat f1 → zlen body < Z.of_nat f2 →
  parse_headers f1 count body = parse_headers f2 count body.
Proof.
  revert f2 count body. induction f1 as [|f1 IH]; intros f2 count body H1 H2.
  { zlen_facts; lia. }
  destruct f2 as [|f2]; [zlen_facts; lia|]. cbn [parse_headers]. case_if; [done|].
  destruct (parse_header body) as [[h b1]|] eqn:E1; [|done].
  apply parse_header_inv in E1 as [_ ?]. by rewrite (IH f2) by lia.
Qed.

Section decode_sound.
Context `{Crc32}.

Lemma decode_record_at_headers_ok data pos r p np sz :
  decode_record_at data pos = DecodeOk r p np sz → Forall header_ok (rec_headers r).
Proof.
  unfold decode_record_at. case_if; [done|]. case_if; [done|]. case_if; [done|].
  destruct (negb _); [done|].
  destruct (parse_body _) as [r'|] eqn:E; [|done]. intros [= -> <- <- <-].
  unfold parse_body in E.
  destruct (read_u64 _) as [[? b1]|]; [|done].
  destruct (read_i64 b1) as [[? b2]|]; [|done].
  destruct (read_u32 b2) as [[? b3]|]; [|done].
  destruct (if _ =? NULL_KEY_LEN then _ else _) as [[? b4]|]; [|done].
  destruct (read_u32 b4) as [[? b5]|]; [|done].
  destruct (read_bytes b5 _) as [[? b6]|]; [|done].
  destruct (read_u32 b6) as [[? b7]|]; [|done].
  destruct (parse_headers _ _ b7) as [[hs b8]|] eqn:Eh; [|done].
  injection E as <-. by eapply parse_headers_ok.
Qed.

Lemma decode_record_at_crc data pos r p np sz :
  0 ≤ pos → decode_record_at data pos = DecodeOk r p np sz →
  le_val (zslice (pos + 4) (pos + 8) data) = crc32_hash (zslice (pos + 8) np data).
Proof.
  intros Hp. unfold decode_record_at. case_if; [done|]. case_if; [done|]. case_if; [done|].
  set (rl := le_val (zslice pos (pos + 4) data)) in *.
  destruct (Z.eqb_spec (le_val (zslice 0 4 (zslice (pos + 4) (pos + (4 + rl)) data)))
    (crc32_hash (zdrop 4 (zslice (pos + 4) (pos + (4 + rl)) data)))) as [Hc|]; [|done].
  cbn [negb]. destruct (parse_body _); [|done]. intros [= -> <- <- <-].
  replace (zslice 0 4 _) with (zslice (pos + 4) (pos + 8) data) in Hc.
  2:{ unfold zslice, ztake, zdrop. rewrite drop_0, take_take. f_equal. lia. }
  rewrite Hc. f_equal. unfold zslice, ztake, zdrop. rewrite skipn_firstn_comm, drop_drop.
  f_equal; [lia|]. f_equal. lia.
Qed.

End decode_sound.

(** ** Decoding the segment header *)

Lemma decode_header_encode base created rest :
  0 ≤ base ≤ u64_max → i64_min ≤ created ≤ i64_max →
  decode_header (encode_header base created ++ rest) =
    Ok (mkSegmentHeader VERSION 0 base created).
Proof.
  intros Hb Hc.
  unfold decode_header. rewrite Zltb_false by zlen_lia.
  unfold encode_header, zslice. rewrite <- !app_assoc.
  unfold u32_le, u16_le, u64_le, i64_le.
  rewrite zdrop_0, (ztake_app_exact (4 - 0)) by by autorewrite with zlen.
  rewrite (zdrop_app_exact 4), (ztake_app_exact (6 - 4)) by by autorewrite with zlen.
  rewrite (zdrop_app_ge 6), (zdrop_app_exact (6 - _)), (ztake_app_exact (8 - 6))
    by by autorewrite with zlen.
  rewrite (zdrop_app_ge 8), (zdrop_app_ge (8 - _)), (zdrop_app_exact (8 - _ - _)),
    (ztake_app_exact (16 - 8)) by by autorewrite with zlen.
  rewrite (zdrop_app_ge 16), (zdrop_app_ge (16 - _)), (zdrop_app_ge (16 - _ - _)),
    (zdrop_app_exact (16 - _ - _ - _)), (ztake_app_exact (24 - 16)) by by autorewrite with zlen.
  rewrite (le_val_small 8 base) by (unfold u64_max in Hb; simpl; lia).
  fold (i64_le created). by rewrite i64_le_signed by done.
Qed.

(** ** Properties of the record codec *)

Section properties.
Context `{Crc32}.

(** A segment header written for a [u64] base offset and an [i64] creation
    time is 32 bytes long and is decoded, whatever follows it, to the same
    base offset and creation time, with the current version and no flags. *)
Theorem header_roundtrip base created rest :
  0 ≤ base ≤ u64_max → i64_min ≤ created ≤ i64_max →
  zlen (encode_header base created) = HEADER_SIZE ∧
  decode_header (encode_header base created ++ rest) =
    Ok (mkSegmentHeader VERSION 0 base created).
Proof. intros. split; [apply zlen_encode_header|]. by apply decode_header_encode. Qed.

(** C1: a message whose lengths fit their fields, appended by [encode_record]
    after any bytes, is read back by [decode_record_at] at the position where
    it was written, with its offset and timestamp, whatever follows; the
    reported size is [encoded_record_size] and the next position is the end of
    what was written. *)
Theorem record_roundtrip buf off ts m post buf' n :
  0 ≤ off ≤ u64_max → i64_min ≤ ts ≤ i64_max → message_ok m →
  encode_record buf off ts m = (buf', n) →
  n = encoded_record_size m ∧
  decode_record_at (buf' ++ post) (zlen buf) =
    DecodeOk (record_of off ts m) (zlen buf) (zlen buf') n.
Proof.
  intros Ho Ht Hm E. rewrite encode_record_bytes in E. injection E as <- <-.
  split; [done|]. rewrite <- app_assoc, decode_record_at_shift, decode_record_at_record by done.
  simpl. rewrite zlen_app, zlen_record_bytes.
  change (encoded_record_size (message_of (record_of off ts m))) with (encoded_record_size m).
  f_equal; lia.
Qed.

(** A torn write is recognised: if only the first [k] bytes of an encoded
    record reached the file, the decoder reports [Incomplete] at its position
    and never a record. *)
Theorem torn_record_incomplete buf off ts m k :
  0 ≤ off ≤ u64_max → i64_min ≤ ts ≤ i64_max → message_ok m →
  0 ≤ k < encoded_record_size m →
  decode_record_at (ztake (zlen buf + k) (fst (encode_record buf off ts m))) (zlen buf) =
    Incomplete.
Proof.
  intros Ho Ht Hm Hk. rewrite encode_record_bytes. cbn [fst].
  assert (Hl : zlen (record_bytes (record_of off ts m)) = encoded_record_size m)
    by apply zlen_record_bytes.
  replace (ztake (zlen buf + k) (buf ++ record_bytes (record_of off ts m)))
    with (buf ++ ztake k (record_bytes (record_of off ts m))).
  - by rewrite decode_record_at_shift, decode_record_at_torn by (done || lia).
  - unfold ztake, zlen. rewrite Z2Nat.inj_add, Nat2Z.id by lia. by rewrite take_app_add.
Qed.

(** The decoder is sound: a record it returns lies inside the buffer and
    takes at least eight bytes, its stored checksum is the checksum of its
    body, and its headers have valid UTF-8 names of at most 65535 bytes. *)
Theorem decode_sound data pos r p np sz :
  0 ≤ pos → decode_record_at data pos = DecodeOk r p np sz →
  p = pos ∧ np = pos + sz ∧ 8 ≤ sz ∧ np ≤ zlen data ∧
  le_val (zslice (pos + 4) (pos + 8) data) = crc32_hash (zslice (pos + 8) np data) ∧
  Forall header_ok (rec_headers r).
Proof.
  intros Hp E. pose proof (decode_record_at_ok_inv _ _ _ _ _ _ E) as (-> & -> & ? & ? & _).
  repeat split; try done.
  - by eapply decode_record_at_crc.
  - by eapply decode_record_at_headers_ok.
Qed.

(** The length of a header name is written in 16 bits without a check, so
    a message with a header name of more than 65535 bytes is encoded without
    error but no decoder result carries its headers again. *)
Theorem long_header_name_lost m name v data pos r p np sz :
  (name, v) ∈ msg_headers m → u16_max < str_len name →
  decode_record_at data pos = DecodeOk r p np sz →
  rec_headers r ≠ msg_headers m.
Proof.
  intros Hin Hlong E%decode_record_at_headers_ok Heq. rewrite Heq in E.
  rewrite Forall_forall in E. destruct (E _ Hin) as [_ ?]. simpl in *. lia.
Qed.

End properties.

(** ** Witnesses: a keyed message with one header *)

Definition sample_message : Message :=
  mkMessage (Some (as_bytes "k")) (as_bytes "hello") (Some 123) [("h", as_bytes "v")].

Lemma header_roundtrip_witness :
  decode_header (encode_header 42 1700000000000 ++ [x01]) =
    Ok (mkSegmentHeader VERSION 0 42 1700000000000).
Proof.
  apply (header_roundtrip 42 1700000000000 [x01]); vm_compute; split; discriminate.
Defined.

Lemma record_roundtrip_witness :
  decode_record_at (H := crc_sum32)
    (fst (encode_record (H := crc_sum32) [x00; x01] 7 123 sample_message) ++ [x02]) 2 =
  DecodeOk (record_of 7 123 sample_message) 2 52 50.
Proof.
  refine (proj2 (record_roundtrip (H := crc_sum32) [x00; x01] 7 123 sample_message [x02] _ 50
    _ _ _ _)).
  - vm_compute; split; discriminate.
  - vm_compute; split; discriminate.
  - apply (bool_decide_unpack _). vm_compute. exact I.
  - vm_compute. reflexivity.
Defined.

Lemma torn_record_incomplete_witness :
  decode_record_at (H := crc_sum32)
    (ztake 20 (fst (encode_record (H := crc_sum32) [x00; x01] 7 123 sample_message))) 2 =
  Incomplete.
Proof.
  apply (torn_record_incomplete (H := crc_sum32) [x00; x01] 7 123 sample_message 18).
  - vm_compute; split; discriminate.
  - vm_compute; split; discriminate.
  - apply (bool_decide_unpack _). vm_compute. exact I.
  - vm_compute. split; [discriminate|reflexivity].
Defined.

Lemma decode_sound_witness :
  Forall header_ok (rec_headers (record_of 7 123 sample_message)).
Proof.
  refine (proj2 (proj2 (proj2 (proj2 (proj2 (decode_sound (H := crc_sum32)
    (fst (encode_record (H := crc_sum32) [] 7 123 sample_message)) 0
    (record_of 7 123 sample_message) 0 50 50 _ _)))))).
  - discriminate.
  - vm_compute. reflexivity.
Defined.

(** A name of 65536 bytes: its length field is written as zero. *)
Definition long_name_message : Message :=
  mkMessage None [] None [(of_bytes (replicate (Z.to_nat 65536) x61), [])].

Lemma long_header_name_lost_witness :
  rec_headers (record_of 7 123 sample_message) ≠ msg_headers long_name_message.
Proof.
  refine (long_header_name_lost (H := crc_sum32) long_name_message
    (of_bytes (replicate (Z.to_nat 65536) x61)) []
    (fst (encode_record (H := crc_sum32) [] 7 123 sample_message)) 0
    (record_of 7 123 sample_message) 0 50 50 _ _ _).
  - left.
  - unfold str_len. rewrite as_of_bytes, zlen_replicate. reflexivity.
  - vm_compute. reflexivity.
Defined.
