(* ===== verification/SparseIndex.v ===== *)
(** * Sparse index: [volant-storage/src/index.rs]

    Entries mapping offset deltas to file positions, their 16-byte encoding,
    the index file, and the binary search used to start a read. *)

From S2P Require Import Prelude Bytes.

Definition INDEX_ENTRY_SIZE : Z := 16.

Record IndexEntry := mkIndexEntry {
  offset_delta : Z;
  position : Z;
}.

#[export] Instance IndexEntry_eq_dec : EqDecision IndexEntry.
Proof. solve_decision. Defined.

Definition encode (e : IndexEntry) : bytes :=
  u32_le (offset_delta e) ++ u32_le (position e) ++ replicate 8 x00.

Definition decode (buf : bytes) : result IndexEntry :=
  if zlen buf <? INDEX_ENTRY_SIZE then Err (Storage "index entry too short") else
  Ok (mkIndexEntry (le_val (zslice 0 4 buf)) (le_val (zslice 4 8 buf))).

(** A [SparseIndex] is its vector of entries. *)
Definition push (entries : list IndexEntry) (e : IndexEntry) : list IndexEntry :=
  entries ++ [e].

(** [while lo < hi]: the interval [[lo, hi)] shrinks at each iteration, so
    its length is enough fuel.  [entries[mid]] is in range. *)
Fixpoint lookup_loop (fuel : nat) (entries : list IndexEntry) (target_delta : Z)
    (lo hi : nat) : nat :=
  match fuel with
  | O => lo
  | S fuel =>
    if (lo <? hi)%nat then
      let mid := (lo + (hi - lo) / 2)%nat in
      match entries !! mid with
      | Some e =>
        if offset_delta e <=? target_delta
        then lookup_loop fuel entries target_delta (mid + 1) hi
        else lookup_loop fuel entries target_delta lo mid
      | None => lo
      end
    else lo
  end.

(** When the search ends at 0 the first entry is beyond the target
    ([lookup_loop_0]); the source re-tests it and returns [None]. *)
Definition lookup (entries : list IndexEntry) (target_delta : Z) : option Z :=
  match entries with
  | [] => None
  | _ =>
    match lookup_loop (length entries) entries target_delta 0 (length entries) with
    | O => None
    | S lo => position <$> entries !! lo
    end
  end.

Definition write_to (entries : list IndexEntry) : bytes := concat (map encode entries).

Fixpoint decode_chunks (n : nat) (b : bytes) : result (list IndexEntry) :=
  match n with
  | O => Ok []
  | S n =>
    let? e := decode (ztake INDEX_ENTRY_SIZE b) in
    let? es := decode_chunks n (zdrop INDEX_ENTRY_SIZE b) in
    Ok (e :: es)
  end.

(** [SparseIndex::load] of the bytes of an existing file. *)
Definition load (b : bytes) : result (list IndexEntry) :=
  decode_chunks (Z.to_nat (zlen b / INDEX_ENTRY_SIZE)) (ztake (zlen b - zlen b mod INDEX_ENTRY_SIZE) b).

(** ** Entries *)

Definition entry_ok (e : IndexEntry) : Prop :=
  0 ≤ offset_delta e ≤ u32_max ∧ 0 ≤ position e ≤ u32_max.

#[export] Instance entry_ok_dec e : Decision (entry_ok e).
Proof. unfold entry_ok. apply _. Defined.

Lemma zlen_encode e : zlen (encode e) = INDEX_ENTRY_SIZE.
Proof. unfold encode, u32_le. by autorewrite with zlen. Qed.

Lemma zlen_write_to es : zlen (write_to es) = INDEX_ENTRY_SIZE * zlen es.
Proof.
  unfold write_to, INDEX_ENTRY_SIZE. induction es as [|e es IH]; [done|].
  cbn [map concat]. rewrite zlen_app, zlen_cons, zlen_encode, IH. unfold INDEX_ENTRY_SIZE. lia.
Qed.

Lemma write_to_push es e : write_to (push es e) = write_to es ++ encode e.
Proof. unfold write_to, push. rewrite map_app, concat_app. cbn [map concat]. by rewrite app_nil_r. Qed.

Lemma decode_encode e : entry_ok e → decode (encode e) = Ok e.
Proof.
  destruct e as [d p]. intros [Hd Hp]. unfold u32_max in *; cbn [offset_delta position] in *.
  unfold decode. rewrite zlen_encode, Zltb_false by done.
  unfold encode, zslice, u32_le. cbn [offset_delta position].
  rewrite zdrop_0, (ztake_app_exact (4 - 0)), (zdrop_app_exact 4), (ztake_app_exact (8 - 4))
    by by autorewrite with zlen.
  by rewrite !le_val_small by (simpl; lia).
Qed.

Lemma decode_chunks_write es rest :
  Forall entry_ok es → decode_chunks (length es) (write_to es ++ rest) = Ok es.
Proof.
  induction 1 as [|e es He Hes IH]; [done|]. cbn [length decode_chunks].
  change (write_to (e :: es)) with (encode e ++ write_to es). rewrite <- app_assoc.
  rewrite ztake_app_exact, zdrop_app_exact by by rewrite zlen_encode.
  by rewrite decode_encode, IH.
Qed.

(** ** The binary search *)

Definition index_sorted (entries : list IndexEntry) : Prop :=
  StronglySorted (λ e1 e2, offset_delta e1 ≤ offset_delta e2) entries.

Lemma index_sorted_lookup es i j ei ej :
  index_sorted es → (i ≤ j)%nat → es !! i = Some ei → es !! j = Some ej →
  offset_delta ei ≤ offset_delta ej.
Proof.
  intros Hs. revert i j. induction Hs as [|e es Hs IH Hall]; intros i j Hij Hi Hj; [done|].
  destruct i as [|i], j as [|j]; simpl in *; simplify_eq; try lia.
  - rewrite Forall_forall in Hall. apply Hall. by eapply list_elem_of_lookup_2.
  - apply (IH i j); [lia|done..].
Qed.

(** What the loop establishes: entries before the result are at most the
    target, entries from it on are beyond. *)
Lemma lookup_loop_split fuel es t lo hi :
  index_sorted es → (lo ≤ hi ≤ length es)%nat → (hi - lo ≤ fuel)%nat →
  (∀ i e, (i < lo)%nat → es !! i = Some e → offset_delta e ≤ t) →
  (∀ i e, (hi ≤ i)%nat → es !! i = Some e → t < offset_delta e) →
  let r := lookup_loop fuel es t lo hi in
  (r ≤ length es)%nat ∧
  (∀ i e, (i < r)%nat → es !! i = Some e → offset_delta e ≤ t) ∧
  (∀ i e, (r ≤ i)%nat → es !! i = Some e → t < offset_delta e).
Proof.
  intros Hs. revert lo hi. induction fuel as [|fuel IH]; intros lo hi Hb Hf Hlo Hhi;
    cbn [lookup_loop].
  { replace hi with lo in * by lia. repeat split; [lia|done..]. }
  destruct (Nat.ltb_spec lo hi) as [Hlt|].
  2:{ replace hi with lo in * by lia. repeat split; [lia|done..]. }
  set (mid := (lo + (hi - lo) / 2)%nat).
  assert (Hmid : (lo ≤ mid < hi)%nat).
  { unfold mid. pose proof (Nat.div_lt (hi - lo) 2 ltac:(lia) ltac:(lia)). lia. }
  destruct (lookup_lt_is_Some_2 es mid ltac:(lia)) as [em Hem]. rewrite Hem.
  case_if.
  - apply IH; [lia..| |done]. intros i e Hi He.
    pose proof (index_sorted_lookup es i mid e em Hs ltac:(lia) He Hem). lia.
  - apply IH; [lia..|done|]. intros i e Hi He.
    pose proof (index_sorted_lookup es mid i em e Hs ltac:(lia) Hem He). lia.
Qed.

(** Sortedness is not needed for the source's remark on a result of 0. *)
Lemma lookup_loop_0 fuel es t lo hi e0 :
  (hi ≤ length es)%nat → (hi - lo ≤ fuel)%nat →
  (hi = length es ∨ ∃ e, es !! hi = Some e ∧ t < offset_delta e) →
  es !! 0%nat = Some e0 → lookup_loop fuel es t lo hi = O → t < offset_delta e0.
Proof.
  revert lo hi. induction fuel as [|fuel IH]; intros lo hi Hl Hf Hhi H0; cbn [lookup_loop].
  { intros ->. assert (hi = 0%nat) as -> by lia.
    destruct Hhi as [?|(e & He & ?)]; [|congruence].
    apply lookup_lt_Some in H0. lia. }
  destruct (Nat.ltb_spec lo hi) as [Hlt|].
  2:{ intros ->. assert (hi = 0%nat) as -> by lia.
      destruct Hhi as [?|(e & He & ?)]; [|congruence].
      apply lookup_lt_Some in H0. lia. }
  set (mid := (lo + (hi - lo) / 2)%nat).
  assert (Hmid : (lo ≤ mid < hi)%nat).
  { unfold mid. pose proof (Nat.div_lt (hi - lo) 2 ltac:(lia) ltac:(lia)). lia. }
  destruct (lookup_lt_is_Some_2 es mid ltac:(lia)) as [em Hem]. rewrite Hem.
  case_if; apply IH; eauto; lia.
Qed.

(** The reference: scan all entries, keep those at most the target, take the
    last one. *)
Definition lookup_ref (entries : list IndexEntry) (target_delta : Z) : option Z :=
  position <$> last (filter (λ e, offset_delta e ≤ target_delta) entries).

Lemma filter_split_at {A} (P : A → Prop) `{∀ x, Decision (P x)} (l : list A) r :
  (∀ i x, (i < r)%nat → l !! i = Some x → P x) →
  (∀ i x, (r ≤ i)%nat → l !! i = Some x → ¬ P x) →
  filter P l = take r l.
Proof.
  revert r. induction l as [|x l IH]; intros r H1 H2; [by destruct r|].
  destruct r as [|r].
  - rewrite filter_cons_False by (apply (H2 0%nat); [lia|done]).
    rewrite (IH 0%nat); [done|intros i y ? _; lia|].
    intros i y _ Hi. apply (H2 (S i)); [lia|done].
  - rewrite filter_cons_True by (apply (H1 0%nat); [lia|done]). simpl. f_equal.
    apply IH; intros i y Hi Hy; [apply (H1 (S i))|apply (H2 (S i))]; (lia || done).
Qed.

Lemma last_take_S {A} (l : list A) r : (r < length l)%nat → last (take (S r) l) = l !! r.
Proof.
  intros Hr. destruct (lookup_lt_is_Some_2 l r Hr) as [x Hx].
  by rewrite (take_S_r l r x Hx), last_snoc.
Qed.

Lemma lookup_lookup_ref es t : index_sorted es → lookup es t = lookup_ref es t.
Proof.
  intros Hs. unfold lookup, lookup_ref. destruct es as [|e0 es]; [done|].
  set (l := e0 :: es) in *.
  destruct (lookup_loop_split (length l) l t 0 (length l) Hs) as (Hr & H1 & H2);
    [lia|lia|lia| |].
  { intros i e Hi He. apply lookup_lt_Some in He. lia. }
  set (r := lookup_loop (length l) l t 0 (length l)) in *.
  rewrite (filter_split_at _ l r) by (eauto; intros i e Hi He; specialize (H2 i e Hi He); lia).
  destruct r as [|r]; [done|]. by rewrite last_take_S by lia.
Qed.

(** ** Properties of the index *)

(** An index file round-trips: [load] of what [write_to] wrote, followed by
    a partial trailing entry of fewer than 16 bytes, gives the entries back. *)
Theorem index_file_roundtrip entries partial :
  Forall entry_ok entries → zlen partial < INDEX_ENTRY_SIZE →
  load (write_to entries ++ partial) = Ok entries.
Proof.
  intros Hok Hp. unfold load. rewrite zlen_app, zlen_write_to.
  unfold INDEX_ENTRY_SIZE in *.
  assert (Hm : (16 * zlen entries + zlen partial) mod 16 = zlen partial).
  { rewrite Z.add_comm, Z.mul_comm, Z.mod_add by lia. apply Z.mod_small. zlen_facts; lia. }
  assert (Hd : (16 * zlen entries + zlen partial) / 16 = zlen entries).
  { rewrite Z.add_comm, Z.mul_comm, Z.div_add by lia.
    rewrite Z.div_small by (zlen_facts; lia). lia. }
  rewrite Hm, Hd. rewrite ztake_app_exact by (rewrite zlen_write_to; unfold INDEX_ENTRY_SIZE; lia).
  rewrite <- (app_nil_r (write_to entries)). unfold zlen. rewrite Nat2Z.id.
  by apply decode_chunks_write.
Qed.

(** On entries sorted by offset delta the binary search of [lookup] returns
    the position of the last entry at most the target, and [None] when there is
    no such entry: it agrees with a scan of the whole index. *)
Theorem lookup_is_greatest_below entries target_delta :
  index_sorted entries →
  lookup entries target_delta =
    position <$> last (filter (λ e, offset_delta e ≤ target_delta) entries).
Proof. apply lookup_lookup_ref. Qed.

Definition sample_index : list IndexEntry :=
  [mkIndexEntry 0 32; mkIndexEntry 5 200; mkIndexEntry 10 400].

Lemma index_file_roundtrip_witness :
  load (write_to sample_index ++ [x01; x02]) = Ok sample_index.
Proof.
  apply (index_file_roundtrip sample_index [x01; x02]).
  - apply (bool_decide_unpack _). vm_compute. exact I.
  - reflexivity.
Defined.

Lemma lookup_is_greatest_below_witness :
  lookup sample_index 7 = Some 200.
Proof.
  rewrite (lookup_is_greatest_below sample_index 7); [reflexivity|].
  unfold sample_index. repeat constructor; simpl; lia.
Defined.
