(* ===== verification/Segment.v ===== *)
(** * Log segments: [volant-storage/src/segment.rs]

    A segment is a [.log] file (header, then records) and its sparse
    [.index].  The record below holds the fields of [Segment] together with
    the contents of the two files it owns; writers and handles are booleans
    saying whether the source's [Option] is [Some].

    Calls to the operating system succeed: a [BufWriter] is modelled by its
    file (the source flushes it before an append returns), [write_all_at] by
    [write_at], [set_len] by truncation, a memory map by the bytes it maps.
    The encode buffer pool only provides scratch space and is left out. *)

From S2P Require Import Prelude Bytes Core Record SparseIndex.

Definition DIRECT_IO_ALIGN : Z := 4096.

(** [io::align_up] *)
Definition align_up (n align : Z) : Z :=
  if align =? 0 then n else (n + align - 1) / align * align.

(** A positional write: bytes beyond the end of the file read as zeros. *)
Definition write_at (file : bytes) (offset : Z) (buf : bytes) : bytes :=
  ztake offset (file ++ replicate (Z.to_nat (offset - zlen file)) x00) ++ buf ++
  zdrop (offset + zlen buf) file.

(** [Vec::resize(n, 0)] to a length at least the current one. *)
Definition pad_to (n : Z) (buf : bytes) : bytes := buf ++ replicate (Z.to_nat (n - zlen buf)) x00.

(** Whether the build and platform grant O_DIRECT ([io::apply_direct_io_flag])
    and whether re-opening an existing file with it succeeds. *)
Record Platform := mkPlatform {
  direct_io_supported : bool;
  direct_reopen_ok : bool;
}.

Record SegmentOptions := mkSegmentOptions {
  opt_index_interval_bytes : Z;
  opt_use_mmap : bool;
  opt_direct_io : bool;
}.

Record Segment := mkSegment {
  base_offset : Z;
  next_offset : Z;
  size : Z;
  last_timestamp_ms : Z;
  created_at_ms : Z;
  index_interval_bytes : Z;
  bytes_since_index : Z;
  index : list IndexEntry;
  log_writer : bool;
  log_file : bool;
  index_writer : bool;
  mmap : option bytes;
  use_mmap : bool;
  sealed : bool;
  direct_io : bool;
  physical_size : Z;
  pending : bytes;
  backend : bool;
  log_bytes : bytes;    (* the [.log] file *)
  index_bytes : bytes;  (* the [.index] file *)
}.

(** Field updates. *)
Definition set_file (s : Segment) (size' physical' : Z) (pending' log' : bytes) : Segment :=
  mkSegment (base_offset s) (next_offset s) size' (last_timestamp_ms s) (created_at_ms s)
    (index_interval_bytes s) (bytes_since_index s) (index s) (log_writer s) (log_file s)
    (index_writer s) (mmap s) (use_mmap s) (sealed s) (direct_io s) physical' pending'
    (backend s) log' (index_bytes s).

Definition set_index (s : Segment) (bsi : Z) (index' : list IndexEntry) (ibytes : bytes) : Segment :=
  mkSegment (base_offset s) (next_offset s) (size s) (last_timestamp_ms s) (created_at_ms s)
    (index_interval_bytes s) bsi index' (log_writer s) (log_file s)
    (index_writer s) (mmap s) (use_mmap s) (sealed s) (direct_io s) (physical_size s)
    (pending s) (backend s) (log_bytes s) ibytes.

Definition set_tail (s : Segment) (next' ts' : Z) (mmap' : option bytes) : Segment :=
  mkSegment (base_offset s) next' (size s) ts' (created_at_ms s)
    (index_interval_bytes s) (bytes_since_index s) (index s) (log_writer s) (log_file s)
    (index_writer s) mmap' (use_mmap s) (sealed s) (direct_io s) (physical_size s)
    (pending s) (backend s) (log_bytes s) (index_bytes s).

Definition set_use_mmap (s : Segment) (b : bool) : Segment :=
  mkSegment (base_offset s) (next_offset s) (size s) (last_timestamp_ms s) (created_at_ms s)
    (index_interval_bytes s) (bytes_since_index s) (index s) (log_writer s) (log_file s)
    (index_writer s) (mmap s) b (sealed s) (direct_io s) (physical_size s)
    (pending s) (backend s) (log_bytes s) (index_bytes s).

(** Writers dropped, file mapped when [use_mmap]. *)
Definition set_sealed (s : Segment) : Segment :=
  mkSegment (base_offset s) (next_offset s) (size s) (last_timestamp_ms s) (created_at_ms s)
    (index_interval_bytes s) (bytes_since_index s) (index s) false false false
    (if use_mmap s then Some (log_bytes s) else mmap s) (use_mmap s) true (direct_io s)
    (physical_size s) (pending s) false (log_bytes s) (index_bytes s).

(** ** The direct-I/O write path *)

(** Flush pending direct-I/O bytes; when [force], pad with zeros first. *)
Definition flush_pending_aligned (force : bool) (s : Segment) : result unit * Segment :=
  if negb (direct_io s) then (Ok tt, s) else
  if negb (log_file s) then (Err (Storage "direct_io segment missing file"), s) else
  if negb (backend s) then (Err (Storage "direct_io segment missing backend"), s) else
  let align := DIRECT_IO_ALIGN in
  if force && (zlen (pending s) =? 0) then (Ok tt, s) else
  let pending1 :=
    if force then pad_to (align_up (zlen (pending s)) align) (pending s) else pending s in
  let s := set_file s (size s) (physical_size s) pending1 (log_bytes s) in
  let writable := zlen (pending s) / align * align in
  if writable =? 0 then (Ok tt, s) else
  let offset := physical_size s in
  if negb (offset mod align =? 0)
  then (Err (Storage "direct_io physical offset not aligned"), s) else
  let chunk := ztake writable (pending s) in
  (Ok tt, set_file s (size s) (physical_size s + writable) (zdrop writable (pending s))
            (write_at (log_bytes s) offset chunk)).

(** Write already-encoded record bytes to the log (buffered or direct). *)
Definition write_encoded (buf : bytes) (s : Segment) : result unit * Segment :=
  if direct_io s then
    let s := set_file s (size s + zlen buf) (physical_size s) (pending s ++ buf) (log_bytes s) in
    flush_pending_aligned false s
  else if log_writer s then
    (Ok tt, set_file s (size s + zlen buf) (size s + zlen buf) (pending s) (log_bytes s ++ buf))
  else if log_file s then
    if negb (backend s) then (Err (Storage "no I/O backend"), s) else
    (Ok tt, set_file s (size s + zlen buf) (size s + zlen buf) (pending s)
              (write_at (log_bytes s) (size s) buf))
  else (Err (Storage "segment has no writer"), s).

(** ** Creation *)

Definition create_with_options (plat : Platform) (base created : Z) (opts : SegmentOptions)
    : result Segment :=
  let used_direct := opt_direct_io opts && direct_io_supported plat in
  let header := encode_header base created in
  let seg :=
    mkSegment base base HEADER_SIZE created created (opt_index_interval_bytes opts) 0 []
      (negb used_direct) used_direct true None (opt_use_mmap opts) false used_direct
      (if used_direct then 0 else HEADER_SIZE)
      (if used_direct then header else [])
      true
      (if used_direct then [] else header)
      [] in
  if direct_io seg then
    match flush_pending_aligned false seg with
    | (Ok _, seg) => Ok seg
    | (Err e, _) => Err e
    end
  else Ok seg.

(** ** Appending *)

Section append.
Context `{Crc32}.

Definition append_encoded (offset : Z) (message : Message) (timestamp_ms : Z) (s : Segment)
    : result LogRecord * Segment :=
  let '(buf, written) := encode_record [] offset timestamp_ms message in
  let! (_u, s) := write_encoded buf s in
  let pos := size s - written in
  let should_index :=
    bool_decide (index s = []) || (index_interval_bytes s <=? bytes_since_index s) in
  let! (_u, s) :=
    (if should_index then
       let delta := offset - base_offset s in
       if delta <? 0 then (Err (Storage "offset before base"), s) else
       if u32_max <? delta then (Err (Storage "offset_delta exceeds u32"), s) else
       if u32_max <? pos then (Err (Storage "segment position exceeds u32"), s) else
       let entry := mkIndexEntry delta pos in
       (Ok tt, set_index s 0 (push (index s) entry)
                 (if index_writer s then index_bytes s ++ encode entry else index_bytes s))
     else (Ok tt, s)) in
  let s := set_index s (bytes_since_index s + written) (index s) (index_bytes s) in
  let s := set_tail s (offset_next offset) timestamp_ms None in
  (Ok (record_of offset timestamp_ms message), s).

Definition append (offset : Z) (message : Message) (timestamp_ms : Z) (s : Segment)
    : result LogRecord * Segment :=
  if sealed s then (Err (Storage "cannot append to sealed segment"), s) else
  if negb (offset =? next_offset s) then (Err (Storage "append offset mismatch"), s) else
  append_encoded offset message timestamp_ms s.

Definition append_allow_gap (offset : Z) (message : Message) (timestamp_ms : Z) (s : Segment)
    : result LogRecord * Segment :=
  if sealed s then (Err (Storage "cannot append to sealed segment"), s) else
  if offset <? next_offset s then (Err (Storage "append_allow_gap offset before next"), s) else
  append_encoded offset message timestamp_ms s.

Definition set_next_offset (next : Z) (s : Segment) : result unit * Segment :=
  if next <? next_offset s then (Err (Storage "set_next_offset before current"), s) else
  (Ok tt, set_tail s next (last_timestamp_ms s) (mmap s)).

(** ** Reading *)

(** Physical file and pending tail on the direct path, the map or the file
    otherwise.  [read_exact] fails when the file is shorter than asked. *)
Definition load_data (s : Segment) : result bytes :=
  match mmap s with
  | Some m => Ok m
  | None =>
    if direct_io s then
      if zlen (log_bytes s) <? physical_size s then Err (Io "failed to fill whole buffer") else
      let data := ztake (physical_size s) (log_bytes s) ++ pending s in
      Ok (if size s <? zlen data then ztake (size s) data else data)
    else Ok (log_bytes s)
  end.

(** The decode loop of [read_from] on the bytes below the logical end, with
    the number of records already returned. *)
Fixpoint read_loop (fuel : nat) (data : bytes) (from next max_messages max_bytes : Z)
    (pos n_out bytes_acc : Z) : list LogRecord :=
  match fuel with
  | O => []
  | S fuel =>
    if (pos <? zlen data) && (n_out <? max_messages) then
      match decode_record_at data pos with
      | DecodeOk record _ next_pos sz =>
        if rec_offset record <? from
        then read_loop fuel data from next max_messages max_bytes next_pos n_out bytes_acc
        else if next <=? rec_offset record then []
        else if negb (n_out =? 0) && negb (max_bytes =? usize_max)
                && (max_bytes <? u64_saturating_add bytes_acc sz) then []
        else record :: read_loop fuel data from next max_messages max_bytes next_pos
               (n_out + 1) (u64_saturating_add bytes_acc sz)
      | Incomplete | Corrupt => []
      end
    else []
  end.

Definition read_from (s : Segment) (from max_messages max_bytes : Z) : result (list LogRecord) :=
  if max_messages =? 0 then Ok [] else
  if next_offset s <=? from then Ok [] else
  if next_offset s =? base_offset s then Ok [] else
  let? data := load_data s in
  if zlen data <? HEADER_SIZE then Err (Storage "segment data shorter than header") else
  let start_pos :=
    if from <=? base_offset s then HEADER_SIZE else
    let delta := as_u32 (from - base_offset s) in
    match SparseIndex.lookup (index s) delta with Some pos => pos | None => HEADER_SIZE end in
  let logical_end := Z.min (size s) (zlen data) in
  Ok (read_loop (S (length data)) (ztake logical_end data) from (next_offset s)
        max_messages max_bytes start_pos 0 0).

(** ** Flush and seal *)

Definition flush (s : Segment) : result unit * Segment :=
  if direct_io s then
    let! (_u, s) := flush_pending_aligned true s in
    let logical := size s in
    let align := DIRECT_IO_ALIGN in
    let aligned_logical_floor := logical / align * align in
    if aligned_logical_floor <? physical_size s then
      if aligned_logical_floor <? logical then
        (* the tail of the last block is read back from the file *)
        if zlen (log_bytes s) <? logical then (Err (Io "failed to fill whole buffer"), s) else
        (Ok tt, set_file s (size s) aligned_logical_floor
                  (zslice aligned_logical_floor logical (log_bytes s)) (log_bytes s))
      else (Ok tt, set_file s (size s) aligned_logical_floor [] (log_bytes s))
    else (Ok tt, s)
  else (Ok tt, s).

Definition seal (s : Segment) : result unit * Segment :=
  if sealed s then (Ok tt, s) else
  let! (_u, s) := flush s in
  let s :=
    if direct_io s then
      let s :=
        if zlen (pending s) =? 0 then s else
        let chunk := pad_to (align_up (zlen (pending s)) DIRECT_IO_ALIGN) (pending s) in
        set_file s (size s) (physical_size s + zlen chunk) []
          (write_at (log_bytes s) (physical_size s) chunk) in
      (* [set_len] to the logical size *)
      set_file s (size s) (physical_size s) (pending s) (ztake (size s) (log_bytes s))
    else s in
  (Ok tt, set_sealed s).

(** ** Recovery *)

Record recovery := mkRecovery {
  rv_pos : Z;
  rv_next : Z;
  rv_last_ts : option Z;
  rv_index : list IndexEntry;
}.

(** The scan of [recover_and_index]; a record takes at least eight bytes, so
    the length of the data is enough fuel. *)
Fixpoint recover_loop (fuel : nat) (data : bytes) (base interval : Z)
    (pos next : Z) (last_ts : option Z) (idx : list IndexEntry) (bsi : Z) : recovery :=
  match fuel with
  | O => mkRecovery pos next last_ts idx
  | S fuel =>
    if pos <? zlen data then
      match decode_record_at data pos with
      | DecodeOk record position next_pos sz =>
        if rec_offset record <? next then mkRecovery pos next last_ts idx else
        if rec_offset record <? base then mkRecovery pos next last_ts idx else
        let should_index := bool_decide (idx = []) || (interval <=? bsi) in
        let delta := rec_offset record - base in
        let idx' :=
          if should_index && (delta <=? u32_max) && (position <=? u32_max)
          then push idx (mkIndexEntry delta position) else idx in
        let bsi' := (if should_index then 0 else bsi) + sz in
        recover_loop fuel data base interval next_pos (offset_next (rec_offset record))
          (Some (rec_timestamp_ms record)) idx' bsi'
      | Incomplete | Corrupt => mkRecovery pos next last_ts idx
      end
    else mkRecovery pos next last_ts idx
  end.

Definition recover_and_index (data : bytes) (base interval : Z) : result recovery :=
  if zlen data <? HEADER_SIZE then Err (Storage "segment file truncated in header") else
  Ok (recover_loop (S (length data)) data base interval HEADER_SIZE base None [] 0).

Definition compute_bytes_since_index (data : bytes) (idx : list IndexEntry) : Z :=
  if zlen data <=? HEADER_SIZE then 0 else
  let last_pos := match last idx with Some e => position e | None => HEADER_SIZE end in
  if last_pos <? zlen data then zlen data - last_pos else 0.

(** Open the [.log] file with contents [file], recovering from a torn tail. *)
Definition open_with_options (plat : Platform) (file : bytes) (base : Z) (opts : SegmentOptions)
    (seal_it : bool) : result Segment :=
  if zlen file <? HEADER_SIZE then Err (Io "failed to fill whole buffer") else
  let? header := decode_header (ztake HEADER_SIZE file) in
  if negb (hdr_base_offset header =? base)
  then Err (Storage "segment base_offset mismatch") else
  let? rv := recover_and_index file base (opt_index_interval_bytes opts) in
  let valid_end := rv_pos rv in
  let file' := if valid_end <? zlen file then ztake valid_end file else file in
  let bsi := compute_bytes_since_index (ztake valid_end file) (rv_index rv) in
  let want_direct := opt_direct_io opts && negb seal_it in
  let used := want_direct && direct_io_supported plat in
  let fallback := used && negb (direct_reopen_ok plat) in
  let lw := negb seal_it && (negb want_direct || fallback) in
  let lf := negb seal_it && want_direct && negb fallback in
  Ok (mkSegment base (rv_next rv) valid_end
        (match rv_last_ts rv with Some t => t | None => hdr_created_at_ms header end)
        (hdr_created_at_ms header) (opt_index_interval_bytes opts) bsi (rv_index rv)
        lw lf (negb seal_it)
        (if seal_it && opt_use_mmap opts then Some file' else None)
        (opt_use_mmap opts) seal_it (used && negb fallback) valid_end []
        (negb seal_it) file' (write_to (rv_index rv))).

End append.
