(* ===== verification/SegmentProps.v ===== *)
(** * Correctness of log segments

    The abstraction of a segment is the list of records it holds.  [seg_inv]
    ties the fields and files of a [Segment] to that list; the theorems say
    that appends, flushes and sealing preserve it on the buffered and on the
    direct-I/O path, that [read_from] is a limited filter of the list, and
    that opening a segment file recovers the list from any torn tail. *)

From S2P Require Import Prelude Bytes Core Record SparseIndex Segment.

(** Shapes shared by the statements. *)
Definition off_lt (r1 r2 : LogRecord) : Prop := rec_offset r1 < rec_offset r2.

Section abstraction.
Context `{Crc32}.

Definition records_bytes (recs : list LogRecord) : bytes := concat (map record_bytes recs).

Definition content (base created : Z) (recs : list LogRecord) : bytes :=
  encode_header base created ++ records_bytes recs.

(** An index entry points at the start of a record. *)
Definition entry_at (base : Z) (recs : list LogRecord) (e : IndexEntry) : Prop :=
  ∃ r1 r r2, recs = r1 ++ r :: r2 ∧
    offset_delta e = rec_offset r - base ∧
    position e = HEADER_SIZE + zlen (records_bytes r1).

Record index_inv (base : Z) (recs : list LogRecord) (idx : list IndexEntry) : Prop := {
  index_inv_sorted : index_sorted idx;
  index_inv_entries : Forall (entry_at base recs) idx;
}.

(** The files hold the records. *)
Record disk_inv (s : Segment) (recs : list LogRecord) : Prop := {
  disk_size : size s = zlen (content (base_offset s) (created_at_ms s) recs);
  disk_active : sealed s = false → mmap s = None ∧
    (direct_io s = true ∨ log_writer s = true ∨ (log_file s = true ∧ backend s = true));
  disk_plain : direct_io s = false →
    log_bytes s = content (base_offset s) (created_at_ms s) recs;
  disk_direct : direct_io s = true → sealed s = false →
    log_file s = true ∧ backend s = true ∧
    0 ≤ physical_size s ≤ zlen (log_bytes s) ∧
    ztake (physical_size s) (log_bytes s) ++ pending s =
      content (base_offset s) (created_at_ms s) recs;
  disk_sealed : sealed s = true →
    log_bytes s = content (base_offset s) (created_at_ms s) recs ∧
    (mmap s = Some (content (base_offset s) (created_at_ms s) recs) ∨
     (mmap s = None ∧ direct_io s = false));
}.

Record seg_inv (s : Segment) (recs : list LogRecord) : Prop := {
  inv_base : 0 ≤ base_offset s ≤ next_offset s;
  inv_next : next_offset s ≤ u64_max;
  inv_created : i64_min ≤ created_at_ms s ≤ i64_max;
  inv_recs : Forall record_ok recs;
  inv_sorted : StronglySorted off_lt recs;
  inv_lo : Forall (λ r, base_offset s ≤ rec_offset r) recs;
  inv_hi : Forall (λ r, rec_offset r < next_offset s) recs;
  inv_disk : disk_inv s recs;
  inv_index : index_inv (base_offset s) recs (index s);
}.

(** ** Bytes of record lists *)

Lemma records_bytes_app l k : records_bytes (l ++ k) = records_bytes l ++ records_bytes k.
Proof. unfold records_bytes. by rewrite map_app, concat_app. Qed.

Lemma records_bytes_cons r l : records_bytes (r :: l) = record_bytes r ++ records_bytes l.
Proof. done. Qed.

Lemma records_bytes_singleton r : records_bytes [r] = record_bytes r.
Proof. unfold records_bytes. cbn [map concat]. by rewrite app_nil_r. Qed.

Lemma content_snoc b c recs r : content b c (recs ++ [r]) = content b c recs ++ record_bytes r.
Proof.
  unfold content. by rewrite records_bytes_app, records_bytes_singleton, app_assoc.
Qed.

Lemma zlen_content b c recs : zlen (content b c recs) = HEADER_SIZE + zlen (records_bytes recs).
Proof. unfold content. by rewrite zlen_app, zlen_encode_header. Qed.

Lemma records_bytes_length recs : (length recs ≤ length (records_bytes recs))%nat.
Proof.
  induction recs as [|r recs IH]; [done|].
  rewrite records_bytes_cons, length_app. pose proof (record_bytes_pos r).
  unfold zlen in *. simpl. lia.
Qed.

Lemma record_ok_offset r : record_ok r → 0 ≤ rec_offset r ≤ u64_max.
Proof. by intros (? & _). Qed.

Lemma record_of_ok off ts m :
  0 ≤ off ≤ u64_max → i64_min ≤ ts ≤ i64_max → message_ok m → record_ok (record_of off ts m).
Proof. intros ? ? [Hs Hh]. split; [done|]. split; [done|]. split; [exact Hs|exact Hh]. Qed.

(** ** Reading *)

(** Whatever the mode, [load_data] returns the logical contents. *)
Lemma load_data_content s recs :
  disk_inv s recs → load_data s = Ok (content (base_offset s) (created_at_ms s) recs).
Proof.
  intros D. unfold load_data. destruct (sealed s) eqn:Es.
  - destruct (disk_sealed _ _ D Es) as [Hl [->|[-> Hd]]]; [done|]. by rewrite Hd, Hl.
  - destruct (disk_active _ _ D Es) as [-> _]. destruct (direct_io s) eqn:Ed.
    + destruct (disk_direct _ _ D Ed Es) as (_ & _ & Hp & Hc).
      rewrite Zltb_false by lia. rewrite Hc. by rewrite Zltb_false by (rewrite (disk_size _ _ D); lia).
    + by rewrite (disk_plain _ _ D Ed).
Qed.

(** The records a read returns, from those at or after the start offset: at
    most [max_messages], and after the first one none that would take the
    encoded bytes above [max_bytes]. *)
Fixpoint take_limited (max_messages max_bytes n_out bytes_acc : Z) (recs : list LogRecord)
    : list LogRecord :=
  match recs with
  | [] => []
  | r :: recs =>
    if n_out <? max_messages then
      let sz := zlen (record_bytes r) in
      if negb (n_out =? 0) && negb (max_bytes =? usize_max)
         && (max_bytes <? u64_saturating_add bytes_acc sz) then []
      else r :: take_limited max_messages max_bytes (n_out + 1) (u64_saturating_add bytes_acc sz) recs
    else []
  end.

Lemma take_limited_full max_messages max_bytes n_out acc recs :
  max_messages ≤ n_out → take_limited max_messages max_bytes n_out acc recs = [].
Proof. intros. destruct recs as [|r recs]; [done|]. simpl. by rewrite Zltb_false. Qed.

Lemma decode_at_records pre r rest :
  record_ok r →
  decode_record_at (pre ++ record_bytes r ++ rest) (zlen pre) =
  DecodeOk r (zlen pre) (zlen (pre ++ record_bytes r)) (zlen (record_bytes r)).
Proof.
  intros Hr. rewrite decode_record_at_shift, decode_record_at_record by done.
  simpl. by rewrite zlen_app, Z.add_0_r.
Qed.

Lemma read_loop_scan rs fuel pre from next mm mb n acc :
  Forall record_ok rs → Forall (λ r, rec_offset r < next) rs →
  (length rs < fuel)%nat →
  read_loop fuel (pre ++ records_bytes rs) from next mm mb (zlen pre) n acc =
  take_limited mm mb n acc (filter (λ r, from ≤ rec_offset r) rs).
Proof.
  intros Hok Hhi. revert fuel pre n acc.
  induction rs as [|r rs IH]; intros fuel pre n acc Hf; (destruct fuel as [|fuel]; [simpl in Hf; lia|]).
  { cbn [read_loop]. rewrite app_nil_r, Z.ltb_irrefl. done. }
  apply Forall_cons in Hok as [Hr Hok]. apply Forall_cons in Hhi as [Hn Hhi].
  pose proof (record_bytes_pos r).
  cbn [read_loop]. rewrite records_bytes_cons.
  rewrite (Zltb_true (zlen pre)) by (autorewrite with zlen; zlen_facts; lia). cbn [andb].
  destruct (Z.ltb_spec n mm) as [Hmm|Hmm]; [|by rewrite take_limited_full].
  rewrite decode_at_records by done. rewrite app_assoc.
  destruct (Z.ltb_spec (rec_offset r) from).
  - rewrite filter_cons_False by lia. apply IH; [done..|simpl in Hf; lia].
  - rewrite filter_cons_True by lia. cbn [take_limited].
    rewrite (Zltb_true n mm) by done. rewrite Zleb_false by lia.
    case_match; [done|]. f_equal. apply IH; [done..|simpl in Hf; lia].
Qed.

Lemma filter_none_below {A} (f : A → Z) (l : list A) from :
  Forall (λ x, f x < from) l → filter (λ x, from ≤ f x) l = [].
Proof.
  induction 1 as [|x l Hx Hl IH]; [done|]. by rewrite filter_cons_False by lia.
Qed.

Lemma sorted_before r1 r r2 :
  StronglySorted off_lt (r1 ++ r :: r2) → Forall (λ x, rec_offset x < rec_offset r) r1.
Proof.
  intros Hs. apply StronglySorted_app in Hs as (Hs & _ & _).
  rewrite Forall_forall. intros x Hx. apply Hs; [done|]. left.
Qed.

(** Starting from an index entry at most the target skips nothing. *)
Lemma filter_from_entry base recs e from :
  StronglySorted off_lt recs → entry_at base recs e →
  offset_delta e ≤ from - base →
  ∃ r1 r2, recs = r1 ++ r2 ∧ position e = HEADER_SIZE + zlen (records_bytes r1) ∧
    filter (λ r, from ≤ rec_offset r) recs = filter (λ r, from ≤ rec_offset r) r2.
Proof.
  intros Hs (r1 & r & r2 & -> & Hd & Hp) Hle. exists r1, (r :: r2). repeat split; [done|].
  rewrite filter_app, (filter_none_below rec_offset r1); [done|].
  eapply Forall_impl; [exact (sorted_before _ _ _ Hs)|].
  intros x Hx; simpl in *. lia.
Qed.

Lemma last_filter_elem {A} (P : A → Prop) `{∀ x, Decision (P x)} (l : list A) x :
  last (filter P l) = Some x → P x ∧ x ∈ l.
Proof. intros Hl%last_Some_elem_of. by apply list_elem_of_filter in Hl. Qed.

(** [read_from] is a limited filter of the records; the sparse index only
    changes where the scan starts. *)
Lemma read_from_spec s recs from mm mb :
  seg_inv s recs →
  read_from s from mm mb =
    Ok (if mm =? 0 then [] else
        take_limited mm mb 0 0 (filter (λ r, from ≤ rec_offset r) recs)).
Proof.
  intros I. unfold read_from. case_if; [done|].
  destruct (Z.leb_spec (next_offset s) from).
  { rewrite (filter_none_below rec_offset); [done|].
    eapply Forall_impl; [apply (inv_hi _ _ I)|]. intros x Hx; simpl in *. lia. }
  destruct (Z.eqb_spec (next_offset s) (base_offset s)).
  { destruct recs as [|r recs]; [done|].
    pose proof (Forall_inv (inv_lo _ _ I)). pose proof (Forall_inv (inv_hi _ _ I)).
    simpl in *. lia. }
  rewrite (load_data_content _ _ (inv_disk _ _ I)).
  set (data := content (base_offset s) (created_at_ms s) recs) in *.
  assert (Hlen : zlen data = HEADER_SIZE + zlen (records_bytes recs)) by apply zlen_content.
  rewrite Zltb_false by (zlen_facts; lia).
  rewrite (disk_size _ _ (inv_disk _ _ I)). fold data.
  rewrite Z.min_id, ztake_ge by lia. f_equal.
  assert (Hstart : ∃ r1 r2, recs = r1 ++ r2 ∧
    (if from <=? base_offset s then HEADER_SIZE else
     match SparseIndex.lookup (index s) (as_u32 (from - base_offset s)) with
     | Some pos => pos | None => HEADER_SIZE end) = HEADER_SIZE + zlen (records_bytes r1) ∧
    filter (λ r, from ≤ rec_offset r) recs = filter (λ r, from ≤ rec_offset r) r2).
  { destruct (Z.leb_spec from (base_offset s)).
    { exists [], recs. unfold records_bytes; simpl. rewrite zlen_nil. repeat split; lia. }
    rewrite lookup_lookup_ref by apply (inv_index _ _ I). unfold lookup_ref.
    destruct (last _) as [e|] eqn:El; cbn [fmap option_fmap option_map].
    - apply last_filter_elem in El as [Hle Hin].
      apply (filter_from_entry (base_offset s)); [apply (inv_sorted _ _ I)| |].
      + pose proof (index_inv_entries _ _ _ (inv_index _ _ I)) as HF.
        rewrite Forall_forall in HF. by apply HF.
      + pose proof (as_u32_le (from - base_offset s) ltac:(lia)). lia.
    - exists [], recs. unfold records_bytes; simpl. rewrite zlen_nil. repeat split; lia. }
  destruct Hstart as (r1 & r2 & Hr & -> & ->).
  pose proof (inv_recs _ _ I) as Hok. pose proof (inv_hi _ _ I) as Hhi.
  rewrite Hr in Hok, Hhi. apply Forall_app in Hok as [_ Hok]. apply Forall_app in Hhi as [_ Hhi].
  replace data with ((encode_header (base_offset s) (created_at_ms s) ++ records_bytes r1)
                       ++ records_bytes r2)
    by (unfold data, content; by rewrite Hr, records_bytes_app, app_assoc).
  replace (HEADER_SIZE + zlen (records_bytes r1))
    with (zlen (encode_header (base_offset s) (created_at_ms s) ++ records_bytes r1))
    by (by rewrite zlen_app, zlen_encode_header).
  apply read_loop_scan; [done..|].
  pose proof (records_bytes_length r2). rewrite length_app. lia.
Qed.

(** ** Writing *)

(** On the direct path the file is written in whole blocks: the physical size
    is a multiple of the block size and less than a block is pending. *)
Definition aligned (s : Segment) : Prop :=
  direct_io s = true → sealed s = false →
  physical_size s mod DIRECT_IO_ALIGN = 0 ∧ zlen (pending s) < DIRECT_IO_ALIGN.

(** Fields no operation on an open segment changes. *)
Definition same_shape (s s' : Segment) : Prop :=
  base_offset s' = base_offset s ∧ created_at_ms s' = created_at_ms s ∧
  use_mmap s' = use_mmap s ∧ direct_io s' = direct_io s.

Lemma same_shape_refl s : same_shape s s.
Proof. done. Qed.

Lemma write_at_end file buf : write_at file (zlen file) buf = file ++ buf.
Proof.
  unfold write_at. rewrite Z.sub_diag. cbn [replicate Z.to_nat]. rewrite app_nil_r.
  rewrite ztake_ge by lia. rewrite zdrop_ge by (zlen_facts; lia). by rewrite app_nil_r.
Qed.

Lemma write_at_inside file off buf :
  0 ≤ off ≤ zlen file → write_at file off buf = ztake off file ++ buf ++ zdrop (off + zlen buf) file.
Proof.
  intros Ho. unfold write_at. replace (Z.to_nat (off - zlen file)) with 0%nat by lia.
  simpl. by rewrite app_nil_r.
Qed.

Lemma ztake_write_at file off buf :
  0 ≤ off ≤ zlen file → ztake (off + zlen buf) (write_at file off buf) = ztake off file ++ buf.
Proof.
  intros Ho. rewrite write_at_inside, app_assoc by done. apply ztake_app_exact.
  by rewrite zlen_app, zlen_ztake.
Qed.

Lemma zlen_write_at file off buf :
  0 ≤ off ≤ zlen file → off + zlen buf ≤ zlen (write_at file off buf).
Proof.
  intros Ho. rewrite write_at_inside by done. rewrite !zlen_app, zlen_ztake by done.
  zlen_facts; lia.
Qed.

Lemma align_down_bounds n : 0 ≤ n → 0 ≤ n / DIRECT_IO_ALIGN * DIRECT_IO_ALIGN ≤ n ∧
  n - n / DIRECT_IO_ALIGN * DIRECT_IO_ALIGN < DIRECT_IO_ALIGN.
Proof.
  intros Hn. unfold DIRECT_IO_ALIGN.
  pose proof (Z.div_mod n 4096 ltac:(lia)). pose proof (Z.mod_pos_bound n 4096 ltac:(lia)). lia.
Qed.

Lemma align_down_mod n : (n / DIRECT_IO_ALIGN * DIRECT_IO_ALIGN) mod DIRECT_IO_ALIGN = 0.
Proof. by apply Z.mod_mul. Qed.

(** Writing out whole blocks moves bytes from [pending] to the file. *)
Lemma flush_pending_blocks s :
  direct_io s = true → log_file s = true → backend s = true →
  0 ≤ physical_size s ≤ zlen (log_bytes s) →
  physical_size s mod DIRECT_IO_ALIGN = 0 →
  ∃ ph pe lo,
    flush_pending_aligned false s = (Ok tt, set_file s (size s) ph pe lo) ∧
    0 ≤ ph ≤ zlen lo ∧ ph mod DIRECT_IO_ALIGN = 0 ∧ zlen pe < DIRECT_IO_ALIGN ∧
    ztake ph lo ++ pe = ztake (physical_size s) (log_bytes s) ++ pending s.
Proof.
  intros Hd Hf Hb Hp Ha. unfold flush_pending_aligned. rewrite Hd, Hf, Hb. cbn [negb andb].
  cbn [physical_size pending log_bytes size set_file].
  pose proof (align_down_bounds (zlen (pending s)) (zlen_nonneg _)) as [Hw Hr].
  set (w := zlen (pending s) / DIRECT_IO_ALIGN * DIRECT_IO_ALIGN) in *.
  destruct (Z.eqb_spec w 0) as [Hw0|Hw0].
  - exists (physical_size s), (pending s), (log_bytes s). repeat split; try done; lia.
  - rewrite Ha. cbn [negb Z.eqb].
    exists (physical_size s + w), (zdrop w (pending s)),
      (write_at (log_bytes s) (physical_size s) (ztake w (pending s))).
    assert (Hl : zlen (ztake w (pending s)) = w) by (apply zlen_ztake; lia).
    split; [done|].
    pose proof (zlen_write_at (log_bytes s) (physical_size s) (ztake w (pending s)) Hp).
    split; [lia|]. split; [|split].
    + unfold w. rewrite Z.mod_add by done. done.
    + rewrite zlen_zdrop by lia. lia.
    + rewrite <- Hl at 1. rewrite ztake_write_at by done.
      by rewrite <- app_assoc, ztake_zdrop.
Qed.

Lemma write_encoded_ok s recs r :
  disk_inv s recs → aligned s → sealed s = false →
  ∃ ph pe lo,
    let s' := set_file s (size s + zlen (record_bytes r)) ph pe lo in
    write_encoded (record_bytes r) s = (Ok tt, s') ∧
    disk_inv s' (recs ++ [r]) ∧ aligned s'.
Proof.
  intros D A Es. destruct (disk_active _ _ D Es) as [Hm Hw].
  assert (Hsz : size s + zlen (record_bytes r) =
    zlen (content (base_offset s) (created_at_ms s) (recs ++ [r])))
    by (rewrite content_snoc, zlen_app, <- (disk_size _ _ D); done).
  unfold write_encoded. destruct (direct_io s) eqn:Ed.
  - destruct (disk_direct _ _ D Ed Es) as (Hf & Hb & Hp & Hc). destruct (A Ed Es) as [Ha _].
    set (s1 := set_file s (size s + zlen (record_bytes r)) (physical_size s)
                 (pending s ++ record_bytes r) (log_bytes s)).
    destruct (flush_pending_blocks s1) as (ph & pe & lo & E & H1 & H2 & H3 & H4); try done.
    exists ph, pe, lo. split; [exact E|]. simpl in H4. rewrite app_assoc, Hc, <- content_snoc in H4.
    split; [|by intros _ _].
    split; cbn [set_file size base_offset created_at_ms sealed mmap direct_io log_writer
      log_file backend log_bytes physical_size pending]; [done| |congruence|done|congruence].
    intros _. split; [done|]. by left.
  - assert (Hpl := disk_plain _ _ D Ed). destruct (log_writer s) eqn:El.
    + exists (size s + zlen (record_bytes r)), (pending s), (log_bytes s ++ record_bytes r).
      split; [done|]. split; [|intros H'; simpl in H'; congruence].
      split; cbn [set_file size base_offset created_at_ms sealed mmap direct_io log_writer
        log_file backend log_bytes physical_size pending]; try congruence.
      * intros _. split; [done|]. by right; left.
      * intros _. by rewrite content_snoc, Hpl.
    + destruct Hw as [?|[?|[Hf Hb]]]; [congruence..|]. rewrite Hf, Hb. cbn [negb].
      eexists _, _, _. split; [done|]. split; [|intros H'; simpl in H'; congruence].
      split; cbn [set_file size base_offset created_at_ms sealed mmap direct_io log_writer
        log_file backend log_bytes physical_size pending]; try congruence.
      * intros _. split; [done|]. right; right. by split.
      * intros _. rewrite (disk_size _ _ D), Hpl, write_at_end. by rewrite content_snoc.
Qed.

(** ** Appending *)

Lemma entry_at_app base recs recs' e : entry_at base recs e → entry_at base (recs ++ recs') e.
Proof.
  intros (r1 & r & r2 & -> & ? & ?). exists r1, r, (r2 ++ recs'). by rewrite <- app_assoc.
Qed.

Lemma index_inv_app base recs recs' idx :
  index_inv base recs idx → index_inv base (recs ++ recs') idx.
Proof.
  intros [Hs He]. split; [done|]. eapply Forall_impl; [exact He|].
  intros e. apply entry_at_app.
Qed.

Lemma StronglySorted_snoc {A} (R : A → A → Prop) l x :
  StronglySorted R l → Forall (λ y, R y x) l → StronglySorted R (l ++ [x]).
Proof.
  induction 1 as [|y l Hs IH Hall]; intros HF; simpl; [by repeat constructor|].
  apply Forall_cons in HF as [Hy HF]. constructor; [by apply IH|].
  apply Forall_app; split; [done|]. by constructor.
Qed.

Lemma index_inv_push base recs r idx bound :
  index_inv base recs idx → Forall (λ x, rec_offset x < bound) recs → bound ≤ rec_offset r →
  index_inv base (recs ++ [r])
    (push idx (mkIndexEntry (rec_offset r - base) (HEADER_SIZE + zlen (records_bytes recs)))).
Proof.
  intros I Hb Hr. pose proof I as [Hs He]. split.
  - apply StronglySorted_snoc; [done|]. eapply Forall_impl; [exact He|].
    intros e (r1 & r' & r2 & -> & -> & _). simpl.
    apply Forall_app in Hb as [_ Hb]. apply Forall_cons in Hb as [Hb _]. lia.
  - apply Forall_app; split; [by apply (index_inv_app _ _ [r] _ I)|].
    constructor; [|done]. by exists recs, r, [].
Qed.

Lemma seg_inv_snoc s s' recs r :
  seg_inv s recs → record_ok r → next_offset s ≤ rec_offset r < u64_max →
  same_shape s s' → next_offset s' = offset_next (rec_offset r) →
  disk_inv s' (recs ++ [r]) → index_inv (base_offset s) (recs ++ [r]) (index s') →
  seg_inv s' (recs ++ [r]).
Proof.
  intros I Hr Hn (Hb & Hc & _ & _) Hn' D Ix.
  pose proof (inv_base _ _ I). pose proof (inv_next _ _ I). pose proof (inv_created _ _ I).
  rewrite offset_next_small in Hn' by lia.
  split; rewrite ?Hb, ?Hc, ?Hn'; try done; try lia.
  - apply Forall_app; split; [apply (inv_recs _ _ I)|]. by constructor.
  - apply StronglySorted_snoc; [apply (inv_sorted _ _ I)|].
    eapply Forall_impl; [apply (inv_hi _ _ I)|]. unfold off_lt. intros x Hx; simpl in *. lia.
  - apply Forall_app; split; [apply (inv_lo _ _ I)|]. constructor; [lia|done].
  - apply Forall_app; split; [|constructor; [lia|done]].
    eapply Forall_impl; [apply (inv_hi _ _ I)|]. intros x Hx; simpl in *. lia.
Qed.

Lemma disk_inv_set_index s recs b idx ib : disk_inv s recs → disk_inv (set_index s b idx ib) recs.
Proof. by intros []. Qed.

Lemma disk_inv_set_tail s recs n t : disk_inv s recs → sealed s = false →
  disk_inv (set_tail s n t None) recs.
Proof.
  intros [? HA ? ? HS] Es. split; try done.
  - intros _. destruct (HA Es) as [_ ?]. done.
  - simpl. congruence.
Qed.

(** The index step of an append. *)
Definition index_step (offset pos : Z) (s : Segment) : result unit * Segment :=
  if bool_decide (index s = []) || (index_interval_bytes s <=? bytes_since_index s) then
    let delta := offset - base_offset s in
    if delta <? 0 then (Err (Storage "offset before base"), s) else
    if u32_max <? delta then (Err (Storage "offset_delta exceeds u32"), s) else
    if u32_max <? pos then (Err (Storage "segment position exceeds u32"), s) else
    let entry := mkIndexEntry delta pos in
    (Ok tt, set_index s 0 (push (index s) entry)
              (if index_writer s then index_bytes s ++ encode entry else index_bytes s))
  else (Ok tt, s).

Lemma index_step_ok s recs r bound :
  index_inv (base_offset s) recs (index s) → Forall (λ x, rec_offset x < bound) recs →
  bound ≤ rec_offset r → 0 ≤ rec_offset r - base_offset s ≤ u32_max →
  HEADER_SIZE + zlen (records_bytes recs) ≤ u32_max →
  ∃ b idx ib,
    index_step (rec_offset r) (HEADER_SIZE + zlen (records_bytes recs)) s =
      (Ok tt, set_index s b idx ib) ∧
    index_inv (base_offset s) (recs ++ [r]) idx.
Proof.
  intros Ix Hb Hr Hd Hp. unfold index_step.
  destruct (bool_decide (index s = []) || _) eqn:Esh.
  - rewrite !Zltb_false by lia. eexists _, _, _. split; [done|]. by eapply index_inv_push.
  - exists (bytes_since_index s), (index s), (index_bytes s). split; [by destruct s|].
    by apply index_inv_app.
Qed.

(** A successful append extends the record list by the new record. *)
Lemma append_encoded_ok s recs off m ts :
  seg_inv s recs → aligned s → sealed s = false →
  next_offset s ≤ off < u64_max → i64_min ≤ ts ≤ i64_max → message_ok m →
  size s ≤ u32_max → off - base_offset s ≤ u32_max →
  ∃ s', append_encoded off m ts s = (Ok (record_of off ts m), s') ∧
    seg_inv s' (recs ++ [record_of off ts m]) ∧ aligned s' ∧ same_shape s s' ∧
    sealed s' = false ∧ next_offset s' = off + 1 ∧ last_timestamp_ms s' = ts ∧
    size s' = size s + encoded_record_size m.
Proof.
  intros I A Es Ho Ht Hm Hsz Hd. set (r := record_of off ts m).
  pose proof (inv_base _ _ I) as Hb. pose proof (inv_disk _ _ I) as D.
  assert (Hr : record_ok r) by (apply record_of_ok; [lia|done..]).
  unfold append_encoded. rewrite encode_record_bytes. cbn [app]. fold r.
  destruct (write_encoded_ok s recs r D A Es) as (ph & pe & lo & E & D' & A').
  rewrite E. cbn [bind_st].
  assert (Hlen : zlen (record_bytes r) = encoded_record_size m) by apply zlen_record_bytes.
  set (s1 := set_file s (size s + zlen (record_bytes r)) ph pe lo) in *.
  replace (size s1 - encoded_record_size m) with (HEADER_SIZE + zlen (records_bytes recs))
    by (unfold s1; cbn [size set_file]; rewrite (disk_size _ _ D), zlen_content, Hlen; lia).
  fold (index_step off (HEADER_SIZE + zlen (records_bytes recs)) s1).
  destruct (index_step_ok s1 recs r (next_offset s)) as (b & idx & ib & E2 & Ix);
    [apply (inv_index _ _ I)|apply (inv_hi _ _ I)|cbn; lia|cbn; lia| |].
  { rewrite (disk_size _ _ D), zlen_content in Hsz. done. }
  change (rec_offset r) with off in E2. rewrite E2. cbn [bind_st].
  eexists. split; [done|].
  match goal with |- seg_inv ?s2 _ ∧ _ => set (s' := s2) end.
  assert (same_shape s s') by done.
  split; [|split; [|split; [|split; [|split; [|split]]]]]; try done.
  - eapply (seg_inv_snoc s); try done.
    apply disk_inv_set_tail, Es. by apply disk_inv_set_index, disk_inv_set_index.
  - change (next_offset s') with (offset_next off). by apply offset_next_small; lia.
  - change (size s') with (size s + zlen (record_bytes r)). by rewrite Hlen.
Qed.

(** ** Creation *)

Lemma create_ok plat base created opts :
  0 ≤ base ≤ u64_max → i64_min ≤ created ≤ i64_max →
  ∃ s, create_with_options plat base created opts = Ok s ∧
    seg_inv s [] ∧ aligned s ∧ sealed s = false ∧
    base_offset s = base ∧ next_offset s = base ∧ created_at_ms s = created ∧
    size s = HEADER_SIZE ∧ last_timestamp_ms s = created ∧ use_mmap s = opt_use_mmap opts ∧
    direct_io s = opt_direct_io opts && direct_io_supported plat.
Proof.
  intros Hb Hc. unfold create_with_options.
  set (used := opt_direct_io opts && direct_io_supported plat).
  match goal with |- context [if direct_io ?seg then _ else _] => set (s0 := seg) end.
  assert (Hcnt : content base created [] = encode_header base created)
    by (unfold content, records_bytes; cbn [map concat]; by rewrite app_nil_r).
  assert (Hsz : HEADER_SIZE = zlen (content base created []))
    by by rewrite Hcnt, zlen_encode_header.
  assert (Hinv : ∀ ph pe lo, disk_inv (set_file s0 HEADER_SIZE ph pe lo) [] →
    seg_inv (set_file s0 HEADER_SIZE ph pe lo) []).
  { intros ph pe lo D. split; cbn; try done; try lia; constructor; constructor. }
  destruct used eqn:Eu; cbn [negb] in s0.
  - change (direct_io s0) with true. cbn match.
    destruct (flush_pending_blocks s0) as (ph & pe & lo & E & H1 & H2 & H3 & H4);
      [done..|split; [done|apply zlen_nonneg]|done|].
    rewrite E. eexists. split; [done|]. cbn in H4. rewrite <- Hcnt in H4.
    split; [apply Hinv|by repeat split].
    split; cbn [set_file s0 size base_offset created_at_ms sealed mmap direct_io log_writer
      log_file backend log_bytes physical_size pending]; try done; try congruence.
    intros _. split; [done|]. by left.
  - change (direct_io s0) with false. cbn match. eexists. split; [done|].
    change s0 with (set_file s0 HEADER_SIZE HEADER_SIZE [] (encode_header base created)).
    split; [apply Hinv|by repeat split].
    split; cbn [set_file s0 size base_offset created_at_ms sealed mmap direct_io log_writer
      log_file backend log_bytes physical_size pending]; try done; try congruence.
    intros _. split; [done|]. by right; left.
Qed.

Lemma set_next_offset_ok s recs n :
  seg_inv s recs → next_offset s ≤ n ≤ u64_max →
  ∃ s', set_next_offset n s = (Ok tt, s') ∧ seg_inv s' recs ∧ same_shape s s' ∧
    sealed s' = sealed s ∧ next_offset s' = n ∧ size s' = size s ∧
    last_timestamp_ms s' = last_timestamp_ms s.
Proof.
  intros I Hn. unfold set_next_offset. rewrite Zltb_false by lia. eexists. split; [done|].
  split; [|by repeat split]. destruct I as [? ? ? ? ? ? Hhi D Ix].
  split; cbn; try done; try lia.
  - eapply Forall_impl; [exact Hhi|]. intros x Hx; simpl in *. lia.
  - by destruct D.
Qed.

(** ** Flush *)

Lemma align_up_block n : 0 < n < DIRECT_IO_ALIGN → align_up n DIRECT_IO_ALIGN = DIRECT_IO_ALIGN.
Proof.
  unfold align_up, DIRECT_IO_ALIGN. intros Hn. rewrite Zeqb_false by lia.
  replace (n + 4096 - 1) with (n - 1 + 1 * 4096) by lia.
  rewrite Z.div_add, Z.div_small by lia. lia.
Qed.

Lemma zlen_pad_to n buf : zlen buf ≤ n → zlen (pad_to n buf) = n.
Proof. intros. unfold pad_to. rewrite zlen_app, zlen_replicate. zlen_facts; lia. Qed.

Lemma align_down_exact p q :
  p mod DIRECT_IO_ALIGN = 0 → 0 ≤ q < DIRECT_IO_ALIGN →
  (p + q) / DIRECT_IO_ALIGN * DIRECT_IO_ALIGN = p.
Proof.
  unfold DIRECT_IO_ALIGN. intros Hp Hq.
  pose proof (Z.div_mod p 4096 ltac:(lia)). pose proof (Z.div_mod (p + q) 4096 ltac:(lia)).
  pose proof (Z.mod_pos_bound (p + q) 4096 ltac:(lia)). lia.
Qed.

(** The padded block written by a forced flush. *)
Lemma flush_pending_forced s :
  direct_io s = true → log_file s = true → backend s = true →
  0 ≤ physical_size s ≤ zlen (log_bytes s) →
  physical_size s mod DIRECT_IO_ALIGN = 0 → 0 < zlen (pending s) < DIRECT_IO_ALIGN →
  flush_pending_aligned true s =
    (Ok tt, set_file s (size s) (physical_size s + DIRECT_IO_ALIGN) []
              (write_at (log_bytes s) (physical_size s) (pad_to DIRECT_IO_ALIGN (pending s)))).
Proof.
  intros Hd Hf Hb Hp Ha Hl. unfold flush_pending_aligned. rewrite Hd, Hf, Hb. cbn [negb andb].
  rewrite (Zeqb_false (zlen (pending s))) by lia. rewrite align_up_block by done.
  cbn [physical_size pending log_bytes size set_file].
  rewrite zlen_pad_to by lia. rewrite Z.div_same, Z.mul_1_l by done. cbn [Z.eqb DIRECT_IO_ALIGN].
  rewrite Ha. cbn [negb Z.eqb].
  rewrite ztake_ge, zdrop_ge by (rewrite zlen_pad_to; unfold DIRECT_IO_ALIGN in *; lia).
  done.
Qed.

Lemma ztake_ztake_le {A} a b (l : list A) : 0 ≤ a ≤ b → ztake a (ztake b l) = ztake a l.
Proof. intros. unfold ztake. rewrite take_take. f_equal. lia. Qed.

Lemma ztake_zslice {A} a b (l : list A) : 0 ≤ a ≤ b → ztake a l ++ zslice a b l = ztake b l.
Proof.
  intros Hab. unfold zslice, ztake, zdrop. rewrite take_take_drop. f_equal. lia.
Qed.

Lemma ztake_block_write file off buf n :
  0 ≤ off ≤ zlen file → zlen buf ≤ n →
  ztake (off + zlen buf) (write_at file off (pad_to n buf)) = ztake off file ++ buf.
Proof.
  intros Ho Hn. rewrite <- (ztake_ztake_le _ (off + zlen (pad_to n buf)))
    by (rewrite zlen_pad_to by done; zlen_facts; lia).
  rewrite ztake_write_at by done. unfold pad_to. rewrite app_assoc.
  apply ztake_app_exact. by rewrite zlen_app, zlen_ztake.
Qed.

(** [flush] keeps the records and leaves the file starting with the logical
    contents. *)
Lemma flush_ok s recs :
  seg_inv s recs → aligned s → sealed s = false →
  ∃ ph pe lo, let s' := set_file s (size s) ph pe lo in
    flush s = (Ok tt, s') ∧ disk_inv s' recs ∧ aligned s' ∧
    ztake (size s) lo = content (base_offset s) (created_at_ms s) recs.
Proof.
  intros I A Es. pose proof (inv_disk _ _ I) as D. destruct (disk_active _ _ D Es) as [Hm _].
  pose proof (disk_size _ _ D) as Hsz. unfold flush. destruct (direct_io s) eqn:Ed.
  2:{ exists (physical_size s), (pending s), (log_bytes s).
      split; [by destruct s|]. split; [by destruct D|]. split; [intros H'; simpl in H'; congruence|].
      rewrite (disk_plain _ _ D Ed), Hsz. apply ztake_ge. lia. }
  destruct (disk_direct _ _ D Ed Es) as (Hf & Hb & Hp & Hc). destruct (A Ed Es) as [Ha Hl].
  assert (Hsp : size s = physical_size s + zlen (pending s)).
  { rewrite Hsz, <- Hc, zlen_app, zlen_ztake by done. lia. }
  destruct (decide (zlen (pending s) = 0)) as [H0|H0].
  - assert (flush_pending_aligned true s = (Ok tt, s)) as ->.
    { unfold flush_pending_aligned. rewrite Ed, Hf, Hb. cbn [negb andb]. by rewrite H0. }
    cbn [bind_st]. rewrite Hsp, align_down_exact, Z.ltb_irrefl by (done || lia).
    exists (physical_size s), (pending s), (log_bytes s). split; [rewrite <- Hsp; by destruct s|].
    rewrite <- Hsp. split; [by destruct D|]. split; [done|].
    rewrite Hsp, H0, Z.add_0_r. apply zlen_0_nil in H0. by rewrite <- Hc, H0, app_nil_r.
  - rewrite flush_pending_forced by (done || (zlen_facts; lia)). cbn [bind_st].
    cbn [size physical_size set_file log_bytes].
    set (lo := write_at (log_bytes s) (physical_size s) (pad_to DIRECT_IO_ALIGN (pending s))).
    assert (Hlo : physical_size s + DIRECT_IO_ALIGN ≤ zlen lo).
    { pose proof (zlen_write_at (log_bytes s) (physical_size s)
        (pad_to DIRECT_IO_ALIGN (pending s)) Hp) as Hw. rewrite zlen_pad_to in Hw by lia. exact Hw. }
    assert (Htk : ztake (size s) lo = content (base_offset s) (created_at_ms s) recs)
      by (rewrite Hsp, <- Hc; apply ztake_block_write; [done|lia]).
    assert (Hfl : size s / DIRECT_IO_ALIGN * DIRECT_IO_ALIGN = physical_size s)
      by (rewrite Hsp; apply align_down_exact; [done|zlen_facts; lia]).
    rewrite Hfl. unfold DIRECT_IO_ALIGN in *.
    rewrite (Zltb_true (physical_size s)) by lia. rewrite (Zltb_true (physical_size s)) by (zlen_facts; lia).
    rewrite Zltb_false by (zlen_facts; lia).
    exists (physical_size s), (zslice (physical_size s) (size s) lo), lo. split; [done|].
    split; [|split; [|done]].
    + split; cbn [set_file size base_offset created_at_ms sealed mmap direct_io log_writer
        log_file backend log_bytes physical_size pending]; try done; try congruence.
      * intros _. split; [done|]. by left.
      * intros _ _. rewrite ztake_zslice by (zlen_facts; lia). repeat split; (done || lia).
    + intros _ _. cbn [physical_size pending set_file]. split; [done|]. unfold zslice.
      unfold DIRECT_IO_ALIGN. rewrite zlen_ztake; [lia|]. rewrite zlen_zdrop; zlen_facts; lia.
Qed.

Lemma seg_inv_set_file s recs sz ph pe lo :
  seg_inv s recs → disk_inv (set_file s sz ph pe lo) recs → seg_inv (set_file s sz ph pe lo) recs.
Proof. by intros [] D. Qed.

(** ** Sealing *)

Lemma set_sealed_inv s recs ph pe :
  seg_inv s recs → mmap s = None → (direct_io s = true → use_mmap s = true) →
  seg_inv (set_sealed (set_file s (size s) ph pe
    (content (base_offset s) (created_at_ms s) recs))) recs.
Proof.
  intros [? ? ? ? ? ? ? D ?] Hm Hum. split; try done. pose proof (disk_size _ _ D).
  split; cbn [set_sealed set_file size base_offset created_at_ms sealed mmap direct_io log_writer
    log_file backend log_bytes physical_size pending use_mmap]; try done.
  intros _. split; [done|]. destruct (use_mmap s) eqn:Eu; [by left|].
  right. split; [done|]. destruct (direct_io s); [|done]. by specialize (Hum eq_refl).
Qed.

Lemma seal_ok s recs :
  seg_inv s recs → aligned s → (direct_io s = true → use_mmap s = true) →
  ∃ s', seal s = (Ok tt, s') ∧ seg_inv s' recs ∧ sealed s' = true ∧ same_shape s s' ∧
    next_offset s' = next_offset s ∧ size s' = size s ∧
    last_timestamp_ms s' = last_timestamp_ms s.
Proof.
  intros I A Hum. unfold seal. destruct (sealed s) eqn:Es; [by exists s|].
  destruct (flush_ok s recs I A Es) as (ph & pe & lo & E & D & A' & Htk).
  rewrite E. cbn [bind_st]. set (s1 := set_file s (size s) ph pe lo) in *.
  assert (I1 : seg_inv s1 recs) by by apply seg_inv_set_file.
  change (direct_io s1) with (direct_io s). destruct (direct_io s) eqn:Ed.
  - destruct (disk_direct _ _ D Ed Es) as (Hf & Hb & Hp & Hc).
    set (s2 := if zlen (pending s1) =? 0 then s1 else _).
    assert (Hs2 : ∃ ph2 pe2 lo2, s2 = set_file s1 (size s) ph2 pe2 lo2 ∧
      ztake (size s) lo2 = content (base_offset s) (created_at_ms s) recs).
    { unfold s2. destruct (Z.eqb_spec (zlen (pending s1)) 0) as [H0|H0].
      - by exists ph, pe, lo.
      - eexists _, _, _. split; [done|]. destruct (A' Ed Es) as [_ Hl].
        rewrite align_up_block by (cbn [pending s1 set_file] in *; zlen_facts; lia).
        assert (Hsz : size s = ph + zlen pe).
        { change ph with (physical_size s1). change pe with (pending s1).
          rewrite (disk_size _ _ (inv_disk _ _ I)). change (base_offset s) with (base_offset s1).
          change (created_at_ms s) with (created_at_ms s1).
          rewrite <- Hc, zlen_app, zlen_ztake by done. done. }
        rewrite Hsz. rewrite ztake_block_write; [exact Hc|done|cbn in Hl |- *; lia]. }
    destruct Hs2 as (ph2 & pe2 & lo2 & -> & Hlo2). cbn [size set_file log_bytes s1].
    eexists. split; [done|]. split; [|by repeat split].
    rewrite Hlo2. destruct (disk_active _ _ (inv_disk _ _ I) Es) as [Hm _].
    apply (set_sealed_inv s recs ph2 pe2); auto.
  - eexists. split; [done|]. split; [|by repeat split].
    destruct (disk_active _ _ (inv_disk _ _ I) Es) as [Hm _].
    assert (Hlo : lo = content (base_offset s) (created_at_ms s) recs)
      by exact (disk_plain _ _ D Ed).
    unfold s1. rewrite Hlo. apply set_sealed_inv; [done|done|congruence].
Qed.

(** ** Recovery *)

(** No record can be decoded at the start of these bytes. *)
Definition stops (tail : bytes) : Prop :=
  match decode_record_at tail 0 with DecodeOk _ _ _ _ => False | _ => True end.

Definition next_after (next : Z) (recs : list LogRecord) : Z :=
  match last recs with Some r => offset_next (rec_offset r) | None => next end.

Definition ts_after (ts : option Z) (recs : list LogRecord) : option Z :=
  match last recs with Some r => Some (rec_timestamp_ms r) | None => ts end.

Lemma next_after_cons next r recs : next_after next (r :: recs) = next_after (offset_next (rec_offset r)) recs.
Proof. unfold next_after. rewrite last_cons. by destruct (last recs). Qed.

Lemma ts_after_cons ts r recs : ts_after ts (r :: recs) = ts_after (Some (rec_timestamp_ms r)) recs.
Proof. unfold ts_after. rewrite last_cons. by destruct (last recs). Qed.

Lemma stops_nil : stops [].
Proof. done. Qed.

Lemma recover_loop_scan rs fuel before hdr tail base interval next lt idx bsi :
  zlen hdr = HEADER_SIZE → Forall record_ok rs → Forall (λ r, rec_offset r < u64_max) rs →
  StronglySorted off_lt (before ++ rs) → base ≤ next →
  Forall (λ r, next ≤ rec_offset r) rs → Forall (λ r, rec_offset r < next) before →
  index_inv base before idx → stops tail → (length rs < fuel)%nat →
  let rv := recover_loop fuel ((hdr ++ records_bytes before) ++ records_bytes rs ++ tail)
              base interval (zlen (hdr ++ records_bytes before)) next lt idx bsi in
  rv_pos rv = zlen (hdr ++ records_bytes (before ++ rs)) ∧
  rv_next rv = next_after next rs ∧ rv_last_ts rv = ts_after lt rs ∧
  index_inv base (before ++ rs) (rv_index rv).
Proof.
  intros Hh. revert fuel before next lt idx bsi.
  induction rs as [|r rs IH]; intros fuel before next lt idx bsi Hok Hmx Hs Hbn Hlo Hdone Hix Hst Hf;
    (destruct fuel as [|fuel]; [simpl in Hf; lia|]); cbn [recover_loop].
  - rewrite app_nil_r. change (records_bytes []) with (@nil byte). rewrite app_nil_l.
    case_if; [|done]. rewrite decode_record_at_shift. unfold stops in Hst.
    by destruct (decode_record_at tail 0).
  - apply Forall_cons in Hok as [Hr Hok]. apply Forall_cons in Hlo as [Hn Hlo]. simpl in Hn.
    apply Forall_cons in Hmx as [Hm Hmx]. simpl in Hm.
    rewrite records_bytes_cons, <- (app_assoc (record_bytes r)).
    rewrite Zltb_true by (pose proof (record_bytes_pos r); autorewrite with zlen; zlen_facts; lia).
    rewrite decode_at_records by done. rewrite !Zltb_false by lia.
    set (idx' := if _ && _ && _ then _ else idx).
    assert (Hix' : index_inv base (before ++ [r]) idx').
    { unfold idx'. case_match; [|by apply index_inv_app].
      rewrite zlen_app, Hh. by eapply index_inv_push. }
    rewrite next_after_cons, ts_after_cons.
    replace (before ++ r :: rs) with ((before ++ [r]) ++ rs) in * by by rewrite <- app_assoc.
    assert (Hpre : (hdr ++ records_bytes before) ++ record_bytes r = hdr ++ records_bytes (before ++ [r]))
      by by rewrite records_bytes_app, records_bytes_singleton, app_assoc.
    rewrite app_assoc, Hpre.
    assert (Hsr : Forall (λ x, rec_offset r < rec_offset x) rs).
    { apply StronglySorted_app in Hs as (Hs & _ & _). rewrite Forall_forall. intros x Hx.
      apply Hs; [|done]. apply elem_of_app; right; left. }
    pose proof (record_ok_offset _ Hr). rewrite offset_next_small by lia.
    apply IH; try done.
    + lia.
    + eapply Forall_impl; [exact Hsr|]. intros x Hx; simpl in *. lia.
    + apply Forall_app; split; [|constructor; [|done]].
      * eapply Forall_impl; [exact Hdone|]. intros x Hx; simpl in *. lia.
      * lia.
    + simpl in Hf. lia.
Qed.

(** What a segment file may hold for recovery to be exact. *)
Definition recs_ok (base : Z) (recs : list LogRecord) : Prop :=
  Forall record_ok recs ∧ StronglySorted off_lt recs ∧
  Forall (λ r, base ≤ rec_offset r) recs ∧ Forall (λ r, rec_offset r < u64_max) recs.

Lemma recover_and_index_content base created interval recs tail :
  recs_ok base recs → stops tail →
  ∃ rv, recover_and_index (content base created recs ++ tail) base interval = Ok rv ∧
    rv_pos rv = zlen (content base created recs) ∧ rv_next rv = next_after base recs ∧
    rv_last_ts rv = ts_after None recs ∧ index_inv base recs (rv_index rv).
Proof.
  intros (Hok & Hs & Hlo & Hhi) Hst. unfold recover_and_index.
  rewrite Zltb_false by (rewrite zlen_app, zlen_content; zlen_facts; lia).
  eexists. split; [done|].
  pose proof (recover_loop_scan recs (S (length (content base created recs ++ tail))) []
    (encode_header base created) tail base interval base None [] 0) as Hsc.
  change (records_bytes []) with (@nil byte) in Hsc. rewrite app_nil_r, zlen_encode_header in Hsc.
  unfold content at 1. rewrite <- app_assoc. apply Hsc; try done.
  - constructor; constructor.
  - unfold content. rewrite !length_app. pose proof (records_bytes_length recs). lia.
Qed.

Lemma header_of_content base created recs tail :
  0 ≤ base ≤ u64_max → i64_min ≤ created ≤ i64_max →
  decode_header (ztake HEADER_SIZE (content base created recs ++ tail)) =
    Ok (mkSegmentHeader VERSION 0 base created).
Proof.
  intros Hb Hc. unfold content. rewrite <- app_assoc, ztake_app_exact by by rewrite zlen_encode_header.
  rewrite <- (app_nil_r (encode_header base created)). by apply decode_header_encode.
Qed.

Lemma next_after_bounds base recs :
  0 ≤ base ≤ u64_max → recs_ok base recs →
  base ≤ next_after base recs ≤ u64_max ∧ Forall (λ r, rec_offset r < next_after base recs) recs.
Proof.
  intros Hb (Hok & Hs & Hlo & Hhi). unfold next_after. destruct (last recs) as [r|] eqn:El.
  - apply last_Some in El as [l ->].
    apply Forall_app in Hlo as [_ Hlo]. apply Forall_cons in Hlo as [Hlo _].
    apply Forall_app in Hhi as [_ Hhi]. apply Forall_cons in Hhi as [Hhi _]. simpl in *.
    rewrite offset_next_small by lia. split; [lia|].
    apply Forall_app; split; [|constructor; [lia|done]].
    eapply Forall_impl; [exact (sorted_before _ _ _ Hs)|]. intros x Hx; simpl in *. lia.
  - apply last_None in El as ->. split; [lia|done].
Qed.

(** Opening a file that holds the records and a tail that does not decode
    gives a segment of exactly those records; the tail is cut off. *)
Lemma open_ok plat base created recs tail opts sl :
  0 ≤ base ≤ u64_max → i64_min ≤ created ≤ i64_max → recs_ok base recs → stops tail →
  ∃ s, open_with_options plat (content base created recs ++ tail) base opts sl = Ok s ∧
    seg_inv s recs ∧ sealed s = sl ∧ base_offset s = base ∧ created_at_ms s = created ∧
    next_offset s = next_after base recs ∧
    last_timestamp_ms s = default created (ts_after None recs) ∧
    log_bytes s = content base created recs ∧ use_mmap s = opt_use_mmap opts ∧
    direct_io s = opt_direct_io opts && negb sl && direct_io_supported plat && direct_reopen_ok plat ∧
    physical_size s = zlen (content base created recs) ∧ pending s = [] ∧
    index_bytes s = write_to (index s).
Proof.
  intros Hb Hc Hr Hst. unfold open_with_options.
  rewrite Zltb_false by (rewrite zlen_app, zlen_content; zlen_facts; lia).
  rewrite header_of_content by done. cbn [hdr_base_offset hdr_created_at_ms].
  rewrite Z.eqb_refl. cbn [negb].
  destruct (recover_and_index_content base created (opt_index_interval_bytes opts) recs tail Hr Hst)
    as (rv & -> & Hpos & Hnext & Hts & Hix).
  assert (Hfile : (if rv_pos rv <? zlen (content base created recs ++ tail)
    then ztake (rv_pos rv) (content base created recs ++ tail)
    else content base created recs ++ tail) = content base created recs).
  { rewrite Hpos. case_if; [by apply ztake_app_exact|].
    assert (tail = []) as ->; [|by rewrite app_nil_r].
    apply zlen_0_nil. rewrite zlen_app in *. zlen_facts; lia. }
  rewrite Hfile. eexists. split; [done|].
  destruct (next_after_bounds base recs Hb Hr) as [Hnb Hnf].
  split.
  - destruct Hr as (Hok & Hs & Hlo & Hhi).
    split; cbn [base_offset next_offset created_at_ms index]; rewrite ?Hnext; try done; try lia.
    split; cbn [size base_offset created_at_ms sealed mmap direct_io log_writer
      log_file backend log_bytes physical_size pending].
    + done.
    + intros ->. cbn [negb andb]. split; [done|].
      destruct (opt_direct_io opts), (direct_io_supported plat), (direct_reopen_ok plat); simpl; auto.
    + done.
    + intros Hd ->. rewrite Hpos, app_nil_r.
      split; [|split; [done|split; [zlen_facts; lia|by apply ztake_ge]]].
      destruct (opt_direct_io opts), (direct_io_supported plat), (direct_reopen_ok plat); simpl in *; auto.
    + intros ->. split; [done|]. cbn [negb andb]. rewrite !andb_false_r. cbn [andb].
      destruct (opt_use_mmap opts); auto.
  - repeat split; try done.
    + cbn. rewrite Hts. by destruct (ts_after None recs).
    + cbn. by destruct (opt_direct_io opts), sl, (direct_io_supported plat), (direct_reopen_ok plat).
Qed.

End abstraction.
