(* ===== verification/SegmentTheorems.v ===== *)
(** * Properties of log segments

    What a segment promises to the log that owns it, and three behaviours of
    the direct-I/O and error paths that break the promise. *)

From S2P Require Import Prelude Bytes Core Record SparseIndex Segment SegmentProps.

Section properties.
Context `{Crc32}.

(** Reading a segment from any offset, with limits on messages and bytes,
    returns exactly the limited prefix of its records at or after that offset,
    whichever way the data is held (memory map, file, or file and pending
    direct-I/O tail) and wherever the sparse index lets the scan start. *)
Theorem read_from_exact s recs from mm mb :
  seg_inv s recs →
  read_from s from mm mb =
    Ok (if mm =? 0 then [] else
        take_limited mm mb 0 0 (filter (λ r, from ≤ rec_offset r) recs)).
Proof. apply read_from_spec. Qed.

(** Appending at the next offset of an open segment succeeds while offsets
    and positions fit the index, keeps the segment well formed with exactly
    the new record added at the end (files, index and sizes included), and
    refuses any other offset without a change. *)
Theorem segment_append s recs m ts :
  seg_inv s recs → aligned s → sealed s = false → next_offset s < u64_max →
  i64_min ≤ ts ≤ i64_max → message_ok m → size s ≤ u32_max →
  next_offset s - base_offset s ≤ u32_max →
  (∃ s', Segment.append (next_offset s) m ts s = (Ok (record_of (next_offset s) ts m), s') ∧
     seg_inv s' (recs ++ [record_of (next_offset s) ts m]) ∧ aligned s' ∧
     next_offset s' = next_offset s + 1 ∧ size s' = size s + encoded_record_size m) ∧
  (∀ off, off ≠ next_offset s → ∃ e, Segment.append off m ts s = (Err e, s)).
Proof.
  intros I A Es Hn Ht Hm Hsz Hd. unfold Segment.append. rewrite Es. split.
  - rewrite Z.eqb_refl. cbn [negb].
    destruct (append_encoded_ok s recs (next_offset s) m ts I A Es)
      as (s' & E & I' & A' & _ & _ & Hn' & _ & Hsz'); try done; try lia.
    by exists s'.
  - intros off Hne. rewrite Zeqb_false by done. eauto.
Qed.

(** Crash recovery of a segment: opening a file that holds the records
    and then any bytes that do not decode to a record (in particular a record
    whose write was cut short) recovers exactly the records, continues after
    the last of them, cuts the file back to them and rebuilds the index. *)
Theorem segment_recovery plat base created recs r k opts sl :
  0 ≤ base ≤ u64_max → i64_min ≤ created ≤ i64_max → recs_ok base recs →
  record_ok r → 0 ≤ k < zlen (record_bytes r) →
  ∃ s, open_with_options plat (content base created recs ++ ztake k (record_bytes r)) base opts sl
       = Ok s ∧
    seg_inv s recs ∧ next_offset s = next_after base recs ∧
    log_bytes s = content base created recs ∧ index_bytes s = write_to (index s).
Proof.
  intros Hb Hc Hr Hok Hk.
  destruct (open_ok plat base created recs (ztake k (record_bytes r)) opts sl)
    as (s & E & I & _ & _ & _ & Hn & _ & Hl & _ & _ & _ & _ & Hi); [done..| |by exists s].
  unfold stops. by rewrite decode_record_at_torn.
Qed.

(** Flushing and then sealing an open segment keeps its records readable,
    and the sealed file is exactly the header and the encoded records, the
    zero padding of direct I/O cut off. *)
Theorem flush_seal_durable s recs :
  seg_inv s recs → aligned s → sealed s = false → (direct_io s = true → use_mmap s = true) →
  ∃ s1 s2, flush s = (Ok tt, s1) ∧ seal s1 = (Ok tt, s2) ∧
    ztake (size s) (log_bytes s1) = content (base_offset s) (created_at_ms s) recs ∧
    log_bytes s2 = content (base_offset s) (created_at_ms s) recs ∧
    seg_inv s2 recs ∧ sealed s2 = true.
Proof.
  intros I A Es Hu. destruct (flush_ok s recs I A Es) as (ph & pe & lo & E & D & A1 & Hf).
  pose proof (seg_inv_set_file s recs _ _ _ _ I D) as I1.
  destruct (seal_ok _ recs I1 A1 Hu) as (s2 & E2 & I2 & Es2 & (Hb & Hc & _) & _).
  eexists _, s2. do 3 (split; [done|]). split; [|done].
  destruct (disk_sealed _ _ (inv_disk _ _ I2) Es2) as [-> _]. by rewrite Hb, Hc.
Qed.

(** ** Behaviours that break the promise *)

(** An append that fails for its index entry has already written its
    record: the caller gets an error and the next offset does not move, yet
    the bytes of the record are in the file, where recovery finds them. *)
Theorem failed_append_leaves_record s recs off m ts :
  seg_inv s recs → sealed s = false → direct_io s = false → log_writer s = true →
  index s = [] → next_offset s ≤ off → u32_max < off - base_offset s →
  ∃ e s', append_allow_gap off m ts s = (Err e, s') ∧ next_offset s' = next_offset s ∧
    log_bytes s' = content (base_offset s) (created_at_ms s) (recs ++ [record_of off ts m]).
Proof.
  intros I Es Hd Hw Hi Hn Hoff. unfold append_allow_gap. rewrite Es, Zltb_false by lia.
  unfold append_encoded. rewrite encode_record_bytes. cbn [app]. unfold write_encoded.
  rewrite Hd, Hw. cbn [bind_st].
  match goal with |- context [bool_decide (index ?x = [])] => set (s1 := x) end.
  rewrite bool_decide_true by exact Hi. cbn [orb].
  change (base_offset s1) with (base_offset s).
  rewrite Zltb_false by (unfold u32_max in *; lia). rewrite Zltb_true by done. cbn [bind_st].
  eexists _, s1. split; [done|]. split; [done|].
  rewrite content_snoc, <- (disk_plain _ _ (inv_disk _ _ I) Hd). done.
Qed.

(** Padding to a whole block leaves something to write. *)
Lemma align_up_pos n : 0 < n → 0 < align_up n DIRECT_IO_ALIGN / DIRECT_IO_ALIGN.
Proof.
  intros Hn. unfold align_up, DIRECT_IO_ALIGN. cbn [Z.eqb].
  rewrite Z.div_mul by done. apply Z.div_str_pos. lia.
Qed.

(** A forced flush at an unaligned file position is refused. *)
Lemma flush_unaligned s :
  direct_io s = true → log_file s = true → backend s = true →
  physical_size s mod DIRECT_IO_ALIGN ≠ 0 → 0 < zlen (pending s) →
  ∃ e s', flush s = (Err e, s').
Proof.
  intros Hd Hf Hb Hp Hl. unfold flush. rewrite Hd. unfold flush_pending_aligned.
  rewrite Hd, Hf, Hb. cbn [negb andb]. rewrite Zeqb_false by lia.
  cbn [pending set_file physical_size].
  assert (Hle : zlen (pending s) ≤ align_up (zlen (pending s)) DIRECT_IO_ALIGN).
  { unfold align_up, DIRECT_IO_ALIGN. cbn [Z.eqb].
    pose proof (Z.div_mod (zlen (pending s) + 4096 - 1) 4096 ltac:(done)).
    pose proof (Z.mod_pos_bound (zlen (pending s) + 4096 - 1) 4096 ltac:(done)). lia. }
  rewrite zlen_pad_to by done. pose proof (align_up_pos (zlen (pending s)) Hl).
  rewrite Zeqb_false by (unfold DIRECT_IO_ALIGN in *; lia).
  rewrite Zeqb_false by done. cbn [negb bind_st]. eauto.
Qed.

(** Less than a block only becomes pending. *)
Lemma write_small s buf :
  direct_io s = true → log_file s = true → backend s = true →
  zlen (pending s ++ buf) < DIRECT_IO_ALIGN →
  write_encoded buf s =
    (Ok tt, set_file s (size s + zlen buf) (physical_size s) (pending s ++ buf) (log_bytes s)).
Proof.
  intros Hd Hf Hb Hl. unfold write_encoded. rewrite Hd. unfold flush_pending_aligned.
  cbn [direct_io log_file backend set_file pending]. rewrite Hd, Hf, Hb. cbn [negb andb].
  rewrite Z.div_small, Z.mul_0_l by (zlen_facts; lia). done.
Qed.

(** A direct-I/O segment that is reopened at a length that is not a
    multiple of the block size accepts the next record but cannot flush it:
    the flush is refused for the unaligned file offset, so the record never
    reaches the file. *)
Theorem direct_reopen_never_flushes plat base created recs opts m ts :
  0 ≤ base ≤ u64_max → i64_min ≤ created ≤ i64_max → recs_ok base recs →
  direct_io_supported plat = true → direct_reopen_ok plat = true → opt_direct_io opts = true →
  zlen (content base created recs) mod DIRECT_IO_ALIGN ≠ 0 →
  zlen (content base created recs) ≤ u32_max → next_after base recs - base ≤ u32_max →
  encoded_record_size m < DIRECT_IO_ALIGN →
  ∃ s r s' e s'',
    open_with_options plat (content base created recs) base opts false = Ok s ∧
    Segment.append (next_offset s) m ts s = (Ok r, s') ∧ flush s' = (Err e, s'').
Proof.
  intros Hb Hc Hr Hp1 Hp2 Ho Hsz Hlim Hspan Hm.
  destruct (open_ok plat base created recs [] opts false Hb Hc Hr stops_nil)
    as (s & E & I & Es & Hbs & Hcs & Hns & _ & _ & _ & Hdi & Hph & Hpe & _).
  rewrite app_nil_r in E. exists s. rewrite Ho, Hp1, Hp2 in Hdi. cbn [andb negb] in Hdi.
  destruct (disk_direct _ _ (inv_disk _ _ I) Hdi Es) as (Hlf & Hbk & _).
  pose proof (next_after_bounds base recs Hb Hr) as [Hnb _].
  set (r := record_of (next_offset s) ts m).
  assert (Hlen : zlen (record_bytes r) = encoded_record_size m) by apply zlen_record_bytes.
  unfold Segment.append. rewrite Es, Z.eqb_refl. cbn [negb].
  unfold append_encoded. rewrite encode_record_bytes. cbn [app]. fold r.
  rewrite write_small by (rewrite ?Hpe; cbn [app]; rewrite ?Hlen; done). cbn [bind_st].
  match goal with |- context [size ?x - encoded_record_size m] => set (s1 := x) end.
  replace (size s1 - encoded_record_size m) with (HEADER_SIZE + zlen (records_bytes recs))
    by (unfold s1; cbn [size set_file]; rewrite (disk_size _ _ (inv_disk _ _ I)), zlen_content, Hlen; lia).
  fold (index_step (next_offset s) (HEADER_SIZE + zlen (records_bytes recs)) s1).
  destruct (index_step_ok s1 recs r (next_offset s)) as (b & idx & ib & E2 & _);
    [apply (inv_index _ _ I)|apply (inv_hi _ _ I)|cbn; lia| | |].
  { cbn. rewrite Hns, Hbs. lia. }
  { by rewrite zlen_content in Hlim. }
  change (rec_offset r) with (next_offset s) in E2. rewrite E2. cbn [bind_st].
  eexists _, _. match goal with |- ∃ e s'', _ ∧ (_, ?x) = _ ∧ _ => destruct (flush_unaligned x) as (e & s'' & Ef) end.
  - exact Hdi.
  - exact Hlf.
  - exact Hbk.
  - cbn. by rewrite Hph.
  - change (0 < zlen (pending s ++ record_bytes r)). rewrite Hpe. cbn [app]. rewrite Hlen. unfold encoded_record_size.
    pose proof (record_body_size_min m). lia.
  - by exists e, s''.
Qed.

(** Sealing a direct-I/O segment that is not memory mapped makes it
    unreadable: the file is cut back to its logical size but the recorded
    physical size is not, so every read of a record asks for more bytes than
    the file has and fails. *)
Theorem direct_seal_unreadable s recs from mm mb :
  seg_inv s recs → aligned s → sealed s = false → direct_io s = true → use_mmap s = false →
  size s mod DIRECT_IO_ALIGN ≠ 0 → from < next_offset s → base_offset s < next_offset s → mm ≠ 0 →
  ∃ s' e, seal s = (Ok tt, s') ∧ read_from s' from mm mb = Err e.
Proof.
  intros I A Es Hd Hu Hsz Hfrom Hne Hmm. unfold seal. rewrite Es.
  destruct (flush_ok s recs I A Es) as (ph & pe & lo & E & D & A' & Htk).
  rewrite E. cbn [bind_st]. set (s1 := set_file s (size s) ph pe lo) in *.
  destruct (disk_direct _ _ D Hd Es) as (_ & _ & Hp & Hc).
  cbn [physical_size pending log_bytes s1 set_file] in Hp, Hc.
  destruct (A' Hd Es) as [Hal Hl]. cbn [physical_size pending s1 set_file] in Hal, Hl.
  assert (Hsize : size s = ph + zlen pe).
  { rewrite (disk_size _ _ (inv_disk _ _ I)).
    change (content _ _ recs) with (content (base_offset s1) (created_at_ms s1) recs).
    rewrite <- Hc, zlen_app, zlen_ztake; [done|exact Hp]. }
  assert (Hpe : 0 < zlen pe).
  { destruct (decide (zlen pe = 0)) as [H0|H0]; [|zlen_facts; lia].
    rewrite Hsize, H0, Z.add_0_r in Hsz. done. }
  change (direct_io s1) with (direct_io s). rewrite Hd.
  change (pending s1) with pe. rewrite (Zeqb_false (zlen pe)) by lia.
  rewrite align_up_block by lia.
  eexists _, _. split; [done|]. unfold read_from.
  cbn [next_offset base_offset set_sealed set_file s1].
  rewrite (Zeqb_false mm) by done. rewrite Zleb_false, Zeqb_false by lia.
  unfold load_data. cbn [mmap set_sealed set_file s1 use_mmap direct_io log_bytes physical_size size].
  rewrite Hu, Hd. destruct (disk_active _ _ (inv_disk _ _ I) Es) as [-> _].
  rewrite Zltb_true; [done|]. rewrite zlen_pad_to by lia.
  set (f := write_at _ _ _).
  assert (zlen (ztake (size s) f) ≤ size s) by (unfold zlen, ztake; rewrite length_take; zlen_facts; lia).
  lia.
Qed.

End properties.

(** ** Witnesses *)

Ltac in_range := vm_compute; split; discriminate.

Definition plain_plat : Platform := mkPlatform false false.
Definition direct_plat : Platform := mkPlatform true true.
Definition plain_opts : SegmentOptions := mkSegmentOptions 4096 true false.
Definition direct_opts (um : bool) : SegmentOptions := mkSegmentOptions 4096 um true.

Definition sample_record : LogRecord := record_of 0 123 sample_message.

Lemma sample_record_ok : record_ok sample_record.
Proof. apply (bool_decide_unpack _). vm_compute. exact I. Qed.

Lemma sample_message_ok : message_ok sample_message.
Proof. apply (bool_decide_unpack _). vm_compute. exact I. Qed.

Lemma sample_recs_ok : recs_ok 0 [sample_record].
Proof.
  split; [by constructor; [apply sample_record_ok|]|]. split; [by repeat constructor|].
  split; (constructor; [vm_compute; (discriminate || reflexivity)|constructor]).
Qed.

Lemma read_from_exact_witness :
  ∃ s, read_from (H := crc_sum32) s 0 10 100 = Ok [sample_record].
Proof.
  destruct (open_ok (H := crc_sum32) plain_plat 0 0 [sample_record] [] plain_opts true)
    as (s & _ & I & _); [in_range|in_range|exact sample_recs_ok|apply stops_nil|].
  exists s. rewrite (read_from_exact (H := crc_sum32) s [sample_record] 0 10 100 I).
  vm_compute. reflexivity.
Defined.

Lemma segment_append_witness :
  ∃ s s', Segment.append (H := crc_sum32) 0 sample_message 123 s = (Ok sample_record, s').
Proof.
  destruct (create_ok (H := crc_sum32) plain_plat 0 0 plain_opts)
    as (s & _ & I & A & Es & Hb & Hn & _ & Hsz & _); [in_range|in_range|].
  exists s. destruct (segment_append (H := crc_sum32) s [] sample_message 123 I A Es) as [(s' & E & _) _].
  - rewrite Hn. reflexivity.
  - in_range.
  - exact sample_message_ok.
  - rewrite Hsz. discriminate.
  - rewrite Hn, Hb. discriminate.
  - exists s'. rewrite Hn in E. exact E.
Defined.

Lemma segment_recovery_witness :
  ∃ s, open_with_options (H := crc_sum32) plain_plat
         (content (H := crc_sum32) 0 0 [sample_record] ++
          ztake 20 (record_bytes (H := crc_sum32) sample_record)) 0 plain_opts false = Ok s ∧
       next_offset s = 1.
Proof.
  destruct (segment_recovery (H := crc_sum32) plain_plat 0 0 [sample_record] sample_record 20
    plain_opts false) as (s & E & _ & Hn & _).
  - in_range.
  - in_range.
  - exact sample_recs_ok.
  - exact sample_record_ok.
  - vm_compute. split; [discriminate|reflexivity].
  - exists s. split; [exact E|]. rewrite Hn. reflexivity.
Defined.

Lemma flush_seal_durable_witness :
  ∃ s s1 s2, direct_io s = true ∧ flush s = (Ok tt, s1) ∧ seal s1 = (Ok tt, s2).
Proof.
  destruct (create_ok (H := crc_sum32) direct_plat 0 0 (direct_opts true))
    as (s & _ & I & A & Es & _ & _ & _ & _ & _ & Hu & Hd); [in_range|in_range|].
  destruct (flush_seal_durable (H := crc_sum32) s [] I A Es) as (s1 & s2 & E1 & E2 & _);
    [by intros _|]. by exists s, s1, s2.
Defined.

Lemma failed_append_leaves_record_witness :
  ∃ s e s', append_allow_gap (H := crc_sum32) 4294967296 sample_message 123 s = (Err e, s').
Proof.
  destruct (create_ok (H := crc_sum32) plain_plat 0 0 plain_opts)
    as (s & E & I & A & Es & Hb & Hn & _ & _ & _ & _ & Hd); [in_range|in_range|].
  exists s.
  destruct (failed_append_leaves_record (H := crc_sum32) s [] 4294967296 sample_message 123 I Es)
    as (e & s' & Ea & _).
  - exact Hd.
  - unfold create_with_options in E. cbn in E. injection E as <-. reflexivity.
  - unfold create_with_options in E. cbn in E. injection E as <-. reflexivity.
  - rewrite Hn. discriminate.
  - rewrite Hb. reflexivity.
  - by exists e, s'.
Defined.

Lemma direct_reopen_never_flushes_witness :
  ∃ s e s'', flush s = (Err e, s'').
Proof.
  destruct (direct_reopen_never_flushes (H := crc_sum32) direct_plat 0 0 [] (direct_opts true)
    sample_message 123) as (s & r & s' & e & s'' & _ & _ & E); try reflexivity.
  - in_range.
  - in_range.
  - repeat split; constructor.
  - discriminate.
  - discriminate.
  - discriminate.
  - by exists s', e, s''.
Defined.

Lemma direct_seal_unreadable_witness :
  ∃ s s' e, seal s = (Ok tt, s') ∧ read_from (H := crc_sum32) s' 0 10 100 = Err e.
Proof.
  destruct (create_ok (H := crc_sum32) direct_plat 0 0 (direct_opts false))
    as (s0 & _ & I0 & A0 & Es0 & Hb0 & Hn0 & _ & Hsz0 & _ & Hu0 & Hd0); [in_range|in_range|].
  destruct (append_encoded_ok (H := crc_sum32) s0 [] 0 sample_message 123 I0 A0 Es0)
    as (s & _ & I & A & (Hb & _ & Hu & Hd) & Es & Hn & _ & Hsz).
  - rewrite Hn0. vm_compute. split; [discriminate|reflexivity].
  - in_range.
  - exact sample_message_ok.
  - rewrite Hsz0. discriminate.
  - rewrite Hb0. discriminate.
  - destruct (direct_seal_unreadable (H := crc_sum32) s [sample_record] 0 10 100 I A Es)
      as (s' & e & E & R).
    + by rewrite Hd, Hd0.
    + by rewrite Hu, Hu0.
    + rewrite Hsz, Hsz0. discriminate.
    + rewrite Hn. reflexivity.
    + rewrite Hb, Hn, Hb0. reflexivity.
    + discriminate.
    + by exists s, s', e.
Defined.
