(* ===== verification/GroupCommit.v ===== *)
(** * Group commit: [volant-storage/src/group_commit.rs]

    The shared state of the group-commit coordinator and its operations under
    the state lock.  [wait_or_lead] blocks: its interleavings with other
    threads are the step relation of [SharedLog]; here is the run of a caller
    that holds the log exclusively.  Time is in milliseconds. *)

From S2P Require Import Prelude.

Record GroupCommitTicket := mkTicket { wait_gen : Z }.

Record Inner := mkInner {
  flush_gen : Z;
  pending_records : Z;
  pending_waiters : Z;
  window_start : option Z;
  has_leader : bool;
  last_error : option (Z * Error);
}.

Record GroupCommit := mkGroupCommit {
  state : Inner;
  max_ms : Z;
  max_records : Z;
  flushes : Z;
  records : Z;
}.

Definition new (max_ms max_records : Z) : GroupCommit :=
  mkGroupCommit (mkInner 0 0 0 None false None) max_ms (Z.max max_records 1) 0 0.

Definition with_state (g : GroupCommit) (i : Inner) : GroupCommit :=
  mkGroupCommit i (max_ms g) (max_records g) (flushes g) (records g).

Definition enabled (g : GroupCommit) : bool := 0 <? max_ms g.

Definition add_pending (n : Z) (g : GroupCommit) : GroupCommit :=
  if n =? 0 then g else
  let i := state g in
  with_state g (mkInner (flush_gen i) (u64_saturating_add (pending_records i) n)
    (pending_waiters i) (window_start i) (has_leader i) (last_error i)).

Definition register_waiter (now : Z) (g : GroupCommit) : GroupCommitTicket * GroupCommit :=
  let i := state g in
  let ws := if pending_waiters i =? 0 then Some now else window_start i in
  (mkTicket (flush_gen i),
   with_state g (mkInner (flush_gen i) (pending_records i)
     (u64_saturating_add (pending_waiters i) 1) ws (has_leader i) (last_error i))).

Definition remaining_window (now : Z) (i : Inner) (max_ms : Z) : Z :=
  if max_ms =? 0 then 0 else
  match window_start i with
  | Some s => saturating_sub max_ms (now - s)
  | None => 0
  end.

Definition should_flush_now (now : Z) (g : GroupCommit) : bool :=
  (max_records g <=? pending_records (state g)) ||
  (remaining_window now (state g) (max_ms g) =? 0).

Definition flush_error_for (i : Inner) (ticket : GroupCommitTicket) : result unit :=
  match last_error i with
  | Some (gen, e) =>
    if wait_gen ticket <? gen then Err (Storage "group-commit flush failed") else Ok tt
  | None => Ok tt
  end.

Definition already_done (i : Inner) (ticket : GroupCommitTicket) : option (result unit) :=
  if wait_gen ticket <? flush_gen i then Some (flush_error_for i ticket) else None.

(** Called after a successful fsync. *)
Definition notify_flushed (n_records : Z) (g : GroupCommit) : GroupCommit :=
  let i := state g in
  let n := if 0 <? n_records then n_records else pending_records i in
  mkGroupCommit
    (mkInner (u64_wrapping_add (flush_gen i) 1) 0 (pending_waiters i) None (has_leader i) None)
    (max_ms g) (max_records g)
    (if 0 <? max_ms g then as_u64 (flushes g + 1) else flushes g)
    (if (0 <? max_ms g) && (0 <? n) then as_u64 (records g + n) else records g).

(** Steps of [wait_or_lead] under the lock. *)
Definition leave_waiter (i : Inner) : Inner :=
  mkInner (flush_gen i) (pending_records i) (saturating_sub (pending_waiters i) 1)
    (window_start i) (has_leader i) (last_error i).

Definition set_leader (b : bool) (i : Inner) : Inner :=
  mkInner (flush_gen i) (pending_records i) (pending_waiters i) (window_start i) b (last_error i).

(** The leader's flush failed: the generation advances with the error. *)
Definition note_flush_error (e : Error) (i : Inner) : Inner :=
  let gen := u64_wrapping_add (flush_gen i) 1 in
  mkInner gen (pending_records i) (saturating_sub (pending_waiters i) 1) None (has_leader i)
    (Some (gen, e)).

(** The value standing for a call that waits forever on the condition
    variable (no other thread can wake it). *)
Definition blocked : Error := Storage "blocked".

(** [wait_or_lead] when no other thread can run: the caller is not done, it
    leads unless there is a leader already, the window elapses, it flushes.
    [S] is the flushed object, which carries the coordinator. *)
Definition wait_or_lead_alone {S} (get : S → GroupCommit) (set : S → GroupCommit → S)
    (flush_fn : S → result unit * S) (ticket : GroupCommitTicket) (s : S) : result unit * S :=
  let i := state (get s) in
  match already_done i ticket with
  | Some r => (r, set s (with_state (get s) (leave_waiter i)))
  | None =>
    if has_leader i then (Err blocked, s) else
    let s := set s (with_state (get s) (set_leader true i)) in
    let '(res, s) := flush_fn s in
    let i := set_leader false (state (get s)) in
    match res with
    | Err e => (Err e, set s (with_state (get s) (note_flush_error e i)))
    | Ok _ =>
      (* the loop head again: the flush advanced the generation *)
      match already_done i ticket with
      | Some r => (r, set s (with_state (get s) (leave_waiter i)))
      | None => (Err blocked, set s (with_state (get s) i))
      end
    end
  end.
