(* ===== verification/PartitionLog.v ===== *)
(** * Partition log: [volant-storage/src/log.rs]

    An ordered collection of segments, the last one active.  The directory
    holds exactly the files of [segments]; [create_new] fails when a segment
    of that base is already there.  The clock is an argument. *)

From S2P Require Import Prelude Bytes Core Record SparseIndex Segment GroupCommit.

Record StorageConfig := mkStorageConfig {
  segment_size : Z;
  cfg_use_mmap : bool;
  flush_every_n : Z;
  group_commit_max_ms : Z;
  group_commit_max_records : Z;
  cfg_index_interval_bytes : Z;
  retention_ms : option Z;
  retention_bytes : option Z;
  compact : bool;
  cfg_direct_io : bool;
}.

Definition DEFAULT_GROUP_COMMIT_MAX_RECORDS : Z := 64.

Definition default_config : StorageConfig :=
  mkStorageConfig (256 * 1024 * 1024) true 0 0 0 4096 None None false false.

Definition config_group_commit_enabled (c : StorageConfig) : bool := 0 <? group_commit_max_ms c.

Definition effective_group_commit_max_records (c : StorageConfig) : Z :=
  if 0 <? group_commit_max_records c then group_commit_max_records c
  else if 0 <? flush_every_n c then flush_every_n c
  else DEFAULT_GROUP_COMMIT_MAX_RECORDS.

Record CompactStats := mkCompactStats {
  input_records : Z;
  output_records : Z;
  segments_removed : Z;
}.

Definition no_stats : CompactStats := mkCompactStats 0 0 0.

Record PartitionLog := mkPartitionLog {
  config : StorageConfig;
  segments : list Segment;
  log_next_offset : Z;
  appends_since_flush : Z;
  group : GroupCommit;
  fsync_count : Z;
}.

Definition set_segments (l : PartitionLog) (segs : list Segment) : PartitionLog :=
  mkPartitionLog (config l) segs (log_next_offset l) (appends_since_flush l) (group l) (fsync_count l).
Definition set_config (l : PartitionLog) (c : StorageConfig) : PartitionLog :=
  mkPartitionLog c (segments l) (log_next_offset l) (appends_since_flush l) (group l) (fsync_count l).
Definition set_log_next (l : PartitionLog) (n : Z) : PartitionLog :=
  mkPartitionLog (config l) (segments l) n (appends_since_flush l) (group l) (fsync_count l).
Definition set_appends (l : PartitionLog) (n : Z) : PartitionLog :=
  mkPartitionLog (config l) (segments l) (log_next_offset l) n (group l) (fsync_count l).
Definition set_group (l : PartitionLog) (g : GroupCommit) : PartitionLog :=
  mkPartitionLog (config l) (segments l) (log_next_offset l) (appends_since_flush l) g (fsync_count l).

(** ** Policies *)

Definition set_retention (ms bytes : option Z) (l : PartitionLog) : PartitionLog :=
  let c := config l in
  set_config l (mkStorageConfig (segment_size c) (cfg_use_mmap c) (flush_every_n c)
    (group_commit_max_ms c) (group_commit_max_records c) (cfg_index_interval_bytes c)
    ms bytes (compact c) (cfg_direct_io c)).

Definition set_compact (b : bool) (l : PartitionLog) : PartitionLog :=
  let c := config l in
  set_config l (mkStorageConfig (segment_size c) (cfg_use_mmap c) (flush_every_n c)
    (group_commit_max_ms c) (group_commit_max_records c) (cfg_index_interval_bytes c)
    (retention_ms c) (retention_bytes c) b (cfg_direct_io c)).

Definition set_segment_size (n : Z) (l : PartitionLog) : PartitionLog :=
  if 0 <? n then
    let c := config l in
    set_config l (mkStorageConfig n (cfg_use_mmap c) (flush_every_n c)
      (group_commit_max_ms c) (group_commit_max_records c) (cfg_index_interval_bytes c)
      (retention_ms c) (retention_bytes c) (compact c) (cfg_direct_io c))
  else l.

Definition group_commit_enabled (l : PartitionLog) : bool := config_group_commit_enabled (config l).
Definition has_uncommitted (l : PartitionLog) : bool := 0 <? appends_since_flush l.
Definition segment_count (l : PartitionLog) : Z := zlen (segments l).
Definition total_size (l : PartitionLog) : Z := foldr (λ s acc, size s + acc) 0 (segments l).
Definition high_watermark (l : PartitionLog) : Z := log_next_offset l.
Definition log_start_offset (l : PartitionLog) : Z :=
  match segments l with s :: _ => base_offset s | [] => 0 end.

(** Update of the active (last) segment; [None] when there is none. *)
Fixpoint update_last {A B} (f : A → B * A) (l : list A) : option (B * list A) :=
  match l with
  | [] => None
  | [x] => let '(b, x') := f x in Some (b, [x'])
  | x :: l =>
    match update_last f l with Some (b, l') => Some (b, x :: l') | None => None end
  end.

Section log.
Context `{Crc32} (plat : Platform).

Definition seg_opts (c : StorageConfig) (direct : bool) : SegmentOptions :=
  mkSegmentOptions (cfg_index_interval_bytes c) (cfg_use_mmap c) direct.

(** [Segment::create_with_options] in the directory of the log. *)
Definition create_segment (l : PartitionLog) (base now : Z) : result Segment :=
  if existsb (λ s, base_offset s =? base) (segments l) then Err (Io "file exists") else
  let? seg := create_with_options plat base now (seg_opts (config l) (cfg_direct_io (config l))) in
  Ok (set_use_mmap seg (cfg_use_mmap (config l))).

(** ** Opening *)

(** [windows(2)]: an earlier segment never ends beyond the next base. *)
Fixpoint no_overlap (segs : list Segment) : bool :=
  match segs with
  | s0 :: ((s1 :: _) as rest) => (next_offset s0 <=? base_offset s1) && no_overlap rest
  | _ => true
  end.

(** Files by base offset, in the order of [list_segment_bases]; all but the
    last are opened sealed. *)
Fixpoint open_segments (c : StorageConfig) (files : list (Z * bytes)) : result (list Segment) :=
  match files with
  | [] => Ok []
  | (base, file) :: rest =>
    let sl := negb (bool_decide (rest = [])) in
    let? seg := open_with_options plat file base (seg_opts c (cfg_direct_io c && negb sl)) sl in
    let? segs := open_segments c rest in
    Ok (seg :: segs)
  end.

Definition open (c : StorageConfig) (files : list (Z * bytes)) (now : Z) : result PartitionLog :=
  let g := GroupCommit.new (group_commit_max_ms c) (effective_group_commit_max_records c) in
  match files with
  | [] =>
    let? seg := create_with_options plat 0 now (seg_opts c (cfg_direct_io c)) in
    let seg := set_use_mmap seg (cfg_use_mmap c) in
    Ok (mkPartitionLog c [seg] (next_offset seg) 0 g 0)
  | _ =>
    let? segs := open_segments c files in
    if negb (no_overlap segs) then Err (Storage "segment overlap") else
    let next := match last segs with Some s => next_offset s | None => 0 end in
    Ok (mkPartitionLog c segs next 0 g 0)
  end.

(** ** Appending *)

Definition needs_roll (record_size : Z) (l : PartitionLog) : bool :=
  match last (segments l) with
  | None => false
  | Some active =>
    if next_offset active =? base_offset active then false
    else segment_size (config l) <? u64_saturating_add (size active) record_size
  end.

Definition roll (now : Z) (l : PartitionLog) : result unit * PartitionLog :=
  let base := log_next_offset l in
  match update_last seal (segments l) with
  | None => (Err (Storage "no active segment to roll"), l)
  | Some (r, segs) =>
    let l := set_segments l segs in
    match r with
    | Err e => (Err e, l)
    | Ok _ =>
      match create_segment l base now with
      | Err e => (Err e, l)
      | Ok new_seg => (Ok tt, set_segments l (segments l ++ [new_seg]))
      end
    end
  end.

Definition append_one (message : Message) (now : Z) (l : PartitionLog)
    : result LogRecord * PartitionLog :=
  let timestamp_ms := match msg_timestamp_ms message with Some t => t | None => now end in
  let record_size := encoded_record_size message in
  let! (_u, l) := (if needs_roll record_size l then roll now l else (Ok tt, l)) in
  let offset := log_next_offset l in
  match update_last (Segment.append offset message timestamp_ms) (segments l) with
  | None => (Err (Storage "no active segment"), l)
  | Some (Err e, segs) => (Err e, set_segments l segs)
  | Some (Ok record, segs) => (Ok record, set_log_next (set_segments l segs) (offset_next offset))
  end.

Definition flush (l : PartitionLog) : result unit * PartitionLog :=
  let! (_u, l) :=
    match update_last Segment.flush (segments l) with
    | None => (Ok tt, l)
    | Some (r, segs) => (r, set_segments l segs)
    end in
  let n := appends_since_flush l in
  (Ok tt, mkPartitionLog (config l) (segments l) (log_next_offset l) 0
            (notify_flushed n (group l)) (u64_saturating_add (fsync_count l) 1)).

Definition await_group_commit (now : Z) (l : PartitionLog) : result unit * PartitionLog :=
  if negb (group_commit_enabled l) then (Ok tt, l) else
  let '(ticket, g) := register_waiter now (group l) in
  wait_or_lead_alone group set_group flush ticket (set_group l g).

Definition finish_append (n : Z) (wait_group : bool) (now : Z) (l : PartitionLog)
    : result unit * PartitionLog :=
  let l := set_appends l (u64_saturating_add (appends_since_flush l) n) in
  if group_commit_enabled l then
    let l := set_group l (add_pending n (group l)) in
    if wait_group then await_group_commit now l else (Ok tt, l)
  else if (0 <? flush_every_n (config l)) && (flush_every_n (config l) <=? appends_since_flush l)
  then flush l
  else (Ok tt, l).

Definition append (message : Message) (now : Z) (l : PartitionLog)
    : result LogRecord * PartitionLog :=
  let! (record, l) := append_one message now l in
  let! (_u, l) := finish_append 1 true now l in
  (Ok record, l).

(** [for message in messages { records.push(self.append_one(message)?) }] *)
Fixpoint append_each (messages : list Message) (now : Z) (l : PartitionLog)
    : result (list LogRecord) * PartitionLog :=
  match messages with
  | [] => (Ok [], l)
  | m :: ms =>
    let! (r, l) := append_one m now l in
    let! (rs, l) := append_each ms now l in
    (Ok (r :: rs), l)
  end.

Definition append_batch_inner (messages : list Message) (wait_group : bool) (now : Z)
    (l : PartitionLog) : result (list LogRecord) * PartitionLog :=
  let! (recs, l) := append_each messages now l in
  let! (_u, l) :=
    (if bool_decide (recs = []) then (Ok tt, l)
     else finish_append (zlen recs) wait_group now l) in
  (Ok recs, l).

Definition append_batch (messages : list Message) (now : Z) (l : PartitionLog)
    : result (list LogRecord) * PartitionLog := append_batch_inner messages true now l.

Definition append_batch_uncommitted (messages : list Message) (now : Z) (l : PartitionLog)
    : result (list LogRecord) * PartitionLog := append_batch_inner messages false now l.

(** Follower replication: the offset must be the log end. *)
Definition append_with_offset (offset : Z) (message : Message) (now : Z) (l : PartitionLog)
    : result LogRecord * PartitionLog :=
  if negb (offset =? log_next_offset l) then (Err (Storage "append_with_offset gap"), l) else
  let! (record, l) := append_one message now l in
  let l := set_appends l (u64_saturating_add (appends_since_flush l) 1) in
  let! (_u, l) :=
    (if group_commit_enabled l then (Ok tt, set_group l (add_pending 1 (group l)))
     else if (0 <? flush_every_n (config l)) && (flush_every_n (config l) <=? appends_since_flush l)
     then flush l
     else (Ok tt, l)) in
  (Ok record, l).

Fixpoint append_records_with_offsets (recs : list LogRecord) (now : Z) (l : PartitionLog)
    : result (list LogRecord) * PartitionLog :=
  match recs with
  | [] => (Ok [], l)
  | r :: rs =>
    let! (r', l) := append_with_offset (rec_offset r) (message_of r) now l in
    let! (rs', l) := append_records_with_offsets rs now l in
    (Ok (r' :: rs'), l)
  end.

(** ** Reading *)

Definition approx_size (r : LogRecord) : Z :=
  zlen (rec_value r) + match rec_key r with Some k => zlen k | None => 0 end + 32.

Fixpoint read_segments (segs : list Segment) (from max_messages max_bytes : Z)
    (out : list LogRecord) (bytes_acc : Z) : result (list LogRecord) :=
  match segs with
  | [] => Ok out
  | seg :: segs =>
    if next_offset seg <=? from
    then read_segments segs from max_messages max_bytes out bytes_acc
    else if max_messages <=? zlen out then Ok out
    else if negb (max_bytes =? usize_max) && (max_bytes <=? bytes_acc)
            && negb (bool_decide (out = [])) then Ok out
    else
      let remaining_msgs := max_messages - zlen out in
      let remaining_bytes :=
        if max_bytes =? usize_max then usize_max else saturating_sub max_bytes bytes_acc in
      let start := if from <? base_offset seg then base_offset seg else from in
      let? recs := read_from seg start remaining_msgs remaining_bytes in
      read_segments segs from max_messages max_bytes (out ++ recs)
        (foldl (λ acc r, u64_saturating_add acc (approx_size r)) bytes_acc recs)
  end.

Definition read_bytes (from max_messages max_bytes : Z) (l : PartitionLog)
    : result (list LogRecord) :=
  let log_start := log_start_offset l in
  let from := if from <? log_start then log_start else from in
  if (high_watermark l <=? from) || (max_messages =? 0) then Ok [] else
  read_segments (segments l) from max_messages max_bytes [] 0.

Definition read (from max_messages : Z) (l : PartitionLog) : result (list LogRecord) :=
  read_bytes from max_messages usize_max l.

(** ** Deleting and retention *)

(** How many leading segments end at or before [before_offset]. *)
Fixpoint keep_from (segs : list Segment) (before_offset : Z) : nat :=
  match segs with
  | s :: segs => if next_offset s <=? before_offset then S (keep_from segs before_offset) else O
  | [] => O
  end.

Definition delete_records (before_offset now : Z) (l : PartitionLog) : result Z * PartitionLog :=
  let n := keep_from (segments l) before_offset in
  if (n =? 0)%nat then (Ok (log_start_offset l), l) else
  let l := set_segments l (drop n (segments l)) in
  let! (_u, l) :=
    (if bool_decide (segments l = []) then
       match create_segment l (log_next_offset l) now with
       | Err e => (Err e, l)
       | Ok seg => (Ok tt, set_segments l [seg])
       end
     else (Ok tt, l)) in
  (Ok (log_start_offset l), l).

(** The number of leading segments, the active one excluded, whose last
    record is older than the cutoff. *)
Fixpoint drop_count (segs : list Segment) (cutoff : Z) : nat :=
  match segs with
  | s :: ((_ :: _) as rest) => if last_timestamp_ms s <? cutoff then S (drop_count rest cutoff) else O
  | _ => O
  end.

Definition retain_by_time (ms now : Z) (l : PartitionLog) : result unit * PartitionLog :=
  let cutoff := i64_saturating_sub now (as_i64 ms) in
  let n := drop_count (segments l) cutoff in
  if (0 <? n)%nat then
    match segments l !! n with
    | Some s => let! (_z, l) := delete_records (base_offset s) now l in (Ok tt, l)
    | None => (Err (Storage "index out of bounds"), l)
    end
  else (Ok tt, l).

(** [loop]: each turn removes at least one segment, so their number is
    enough fuel ([retain_by_size_terminates]); [None] is a loop still running. *)
Fixpoint retain_by_size (fuel : nat) (limit now : Z) (l : PartitionLog)
    : option (result unit * PartitionLog) :=
  if total_size l <=? limit then Some (Ok tt, l) else
  match segments l with
  | [] | [_] => Some (Ok tt, l)
  | _ :: s1 :: _ =>
    match fuel with
    | O => None
    | S fuel =>
      match delete_records (base_offset s1) now l with
      | (Err e, l) => Some (Err e, l)
      | (Ok _, l) => retain_by_size fuel limit now l
      end
    end
  end.

(** ** Compaction *)

(** One step of the scan: the latest record per key, and the keyless ones. *)
Definition compact_step (acc : gmap bytes LogRecord * list LogRecord) (r : LogRecord)
    : gmap bytes LogRecord * list LogRecord :=
  let '(latest, null_keys) := acc in
  match rec_key r with
  | None => (latest, null_keys ++ [r])
  | Some k =>
    if bool_decide (rec_value r = []) then (delete k latest, null_keys)
    else (<[k := r]> latest, null_keys)
  end.

Definition off_le (r1 r2 : LogRecord) : Prop := rec_offset r1 ≤ rec_offset r2.

#[export] Instance off_le_dec r1 r2 : Decision (off_le r1 r2).
Proof. unfold off_le. apply _. Defined.

Definition survivors (input : list LogRecord) : list LogRecord :=
  let '(latest, null_keys) := foldl compact_step (∅, []) input in
  merge_sort off_le (map snd (map_to_list latest) ++ null_keys).

(** Records of the sealed segments, in order. *)
Fixpoint read_all (segs : list Segment) : result (list LogRecord) :=
  match segs with
  | [] => Ok []
  | s :: segs =>
    let? recs := read_from s (base_offset s) usize_max usize_max in
    let? rest := read_all segs in
    Ok (recs ++ rest)
  end.

Fixpoint append_survivors (recs : list LogRecord) (s : Segment) : result unit * Segment :=
  match recs with
  | [] => (Ok tt, s)
  | r :: recs =>
    let! (_r, s) := append_allow_gap (rec_offset r) (message_of r) (rec_timestamp_ms r) s in
    append_survivors recs s
  end.

(** The compacted segment, built beside the log. *)
Definition build_compacted (opts : SegmentOptions) (base active_base now : Z)
    (recs : list LogRecord) : result Segment :=
  let? new_seg := create_with_options plat base now opts in
  match (let! (_u, s) := append_survivors recs new_seg in
         let! (_u, s) := set_next_offset active_base s in
         seal s) with
  | (Ok _, s) => Ok s
  | (Err e, _) => Err e
  end.

Definition compact_sealed (now : Z) (l : PartitionLog) : result CompactStats * PartitionLog :=
  match segments l with
  | seg0 :: (_ :: _) =>
    let sealed_count := (length (segments l) - 1)%nat in
    match last (segments l) with
    | None => (Ok no_stats, l)
    | Some active =>
      let active_base := base_offset active in
      let compact_base := base_offset seg0 in
      match read_all (take sealed_count (segments l)) with
      | Err e => (Err e, l)
      | Ok input =>
        if zlen input =? 0 then (Ok no_stats, l) else
        let surv := survivors input in
        if (zlen surv =? zlen input) && (sealed_count =? 1)%nat
        then (Ok (mkCompactStats (zlen input) (zlen surv) 0), l) else
        let opts := seg_opts (config l) false in
        match build_compacted opts compact_base active_base now surv with
        | Err e => (Err e, l)
        | Ok new_seg =>
          (* old sealed files removed, the new file renamed into place *)
          let l := set_segments l (drop sealed_count (segments l)) in
          match open_with_options plat (log_bytes new_seg) compact_base opts true with
          | Err e => (Err e, l)
          | Ok seg =>
            match set_next_offset active_base seg with
            | (Err e, _) => (Err e, l)
            | (Ok _, seg) =>
              (Ok (mkCompactStats (zlen input) (zlen surv) (Z.of_nat sealed_count)),
               set_segments l (seg :: segments l))
            end
          end
        end
      end
    end
  | _ => (Ok no_stats, l)
  end.

Definition apply_retention (now : Z) (l : PartitionLog) : option (result unit * PartitionLog) :=
  let time :=
    match retention_ms (config l) with
    | Some ms => retain_by_time ms now l
    | None => (Ok tt, l)
    end in
  match time with
  | (Err e, l) => Some (Err e, l)
  | (Ok _, l) =>
    let sized :=
      match retention_bytes (config l) with
      | Some limit => retain_by_size (length (segments l)) limit now l
      | None => Some (Ok tt, l)
      end in
    match sized with
    | None => None
    | Some (Err e, l) => Some (Err e, l)
    | Some (Ok _, l) =>
      if compact (config l) then
        Some (let! (_s, l) := compact_sealed now l in (Ok tt, l))
      else Some (Ok tt, l)
    end
  end.

End log.
