(* ===== verification/SharedLog.v ===== *)
(** * The shared partition log: [SharedPartitionLog] of [volant-storage/src/log.rs]
      and [GroupCommit::wait_or_lead] of [volant-storage/src/group_commit.rs]

    Appending threads write under the log lock, register a ticket, release the
    lock and wait: one of them leads, sleeps out the window and flushes for
    all.  The threads run by a step relation, one step per critical section
    (of the log lock or of the coordinator lock).  A spurious or missed
    wake-up of the condition variable is a thread whose next step comes later.

    The coordinator is verified against [CommitLog], what it needs of a log;
    [PartitionLog] implements it. *)

From S2P Require Import Prelude Bytes Core Record SparseIndex Segment GroupCommit PartitionLog.

(** ** What the coordinator needs of a log *)

Class CommitLog (L : Type) := {
  cl_group : L → GroupCommit;
  cl_set_group : GroupCommit → L → L;
  cl_room : list Message → L → Prop;
  cl_write : list Message → Z → L → result (list LogRecord) * L;
  cl_flush : L → result unit * L;
  cl_holds : L → LogRecord → Prop;
  cl_durable : L → LogRecord → Prop;
}.

(** The part of the coordinator state a waiter's fate depends on. *)
Definition same_gen (g g' : GroupCommit) : Prop :=
  flush_gen (state g') = flush_gen (state g) ∧ last_error (state g') = last_error (state g) ∧
  has_leader (state g') = has_leader (state g).

Class CommitLogLaws (L : Type) `{CommitLog L} := {
  cl_get_set : ∀ g l, cl_group (cl_set_group g l) = g;
  cl_set_holds : ∀ g l r, cl_holds (cl_set_group g l) r ↔ cl_holds l r;
  cl_set_durable : ∀ g l r, cl_durable (cl_set_group g l) r ↔ cl_durable l r;
  cl_write_frame : ∀ ms now l res l', cl_room ms l → cl_write ms now l = (res, l') →
    same_gen (cl_group l) (cl_group l') ∧
    (∀ r, cl_holds l r → cl_holds l' r) ∧ (∀ r, cl_durable l r → cl_durable l' r);
  cl_write_ok : ∀ ms now l rs l', cl_room ms l → cl_write ms now l = (Ok rs, l') →
    Forall (cl_holds l') rs;
  cl_flush_ok : ∀ l u l', cl_flush l = (Ok u, l') →
    (∃ n, cl_group l' = notify_flushed n (cl_group l)) ∧
    (∀ r, cl_holds l r → cl_holds l' r ∧ cl_durable l' r) ∧
    (∀ r, cl_durable l r → cl_durable l' r);
  cl_flush_err : ∀ l e l', cl_flush l = (Err e, l') →
    same_gen (cl_group l) (cl_group l') ∧
    (∀ r, cl_holds l r → cl_holds l' r) ∧ (∀ r, cl_durable l r → cl_durable l' r);
}.

(** ** Threads *)

Inductive pc :=
  | Idle
  | Writing (rs : list LogRecord)                 (* holds the log lock, not yet registered *)
  | Waiting (tk : GroupCommitTicket) (rs : list LogRecord) (may_flush : bool)
  | Leading (tk : GroupCommitTicket) (rs : list LogRecord)
  | Flushing (tk : GroupCommitTicket) (rs : list LogRecord)
  | Flushed (tk : GroupCommitTicket) (rs : list LogRecord) (res : result unit)
  | Done (res : result (list LogRecord)).

Section system.
Context {L : Type} `{CommitLog L}.

Record sys := mkSys {
  log : L;
  log_owner : option nat;
  threads : gmap nat pc;
}.

Definition inner (l : L) : Inner := state (cl_group l).

Definition set_inner (i : Inner) (l : L) : L := cl_set_group (with_state (cl_group l) i) l.

(** What [already_done] gives the caller, with its records. *)
Definition finish (rs : list LogRecord) (r : result unit) : result (list LogRecord) :=
  match r with Ok _ => Ok rs | Err e => Err e end.

(** The generation counter has room for one more flush. *)
Definition gen_room (l : L) : Prop := 0 ≤ flush_gen (inner l) < u64_max.

Inductive step : sys → sys → Prop :=
  (* [append] and [append_batch]: lock the log, write *)
  | step_write t ms now l l' rs th :
      th !! t = Some Idle → cl_room ms l → rs ≠ [] →
      cl_write ms now l = (Ok rs, l') →
      step (mkSys l None th) (mkSys l' (Some t) (<[t := Writing rs]> th))
  | step_write_nothing t ms now l l' th :
      th !! t = Some Idle → cl_room ms l → cl_write ms now l = (Ok [], l') →
      step (mkSys l None th) (mkSys l' None (<[t := Done (Ok [])]> th))
  | step_write_err t ms now l l' e th :
      th !! t = Some Idle → cl_room ms l → cl_write ms now l = (Err e, l') →
      step (mkSys l None th) (mkSys l' None (<[t := Done (Err e)]> th))
  (* [register_waiter], then the log lock is released *)
  | step_register t now rs tk g l th :
      th !! t = Some (Writing rs) → register_waiter now (cl_group l) = (tk, g) →
      step (mkSys l (Some t) th)
           (mkSys (cl_set_group g l) None (<[t := Waiting tk rs true]> th))
  (* the head of the loop of [wait_or_lead] *)
  | step_done t tk rs fn r l o th :
      th !! t = Some (Waiting tk rs fn) → already_done (inner l) tk = Some r →
      step (mkSys l o th)
           (mkSys (set_inner (leave_waiter (inner l)) l) o (<[t := Done (finish rs r)]> th))
  | step_lead t tk rs l o th :
      th !! t = Some (Waiting tk rs true) → already_done (inner l) tk = None →
      has_leader (inner l) = false →
      step (mkSys l o th)
           (mkSys (set_inner (set_leader true (inner l)) l) o (<[t := Leading tk rs]> th))
  (* the leader's loop: done meanwhile, or the window is over *)
  | step_lead_done t tk rs r l o th :
      th !! t = Some (Leading tk rs) → already_done (inner l) tk = Some r →
      step (mkSys l o th)
           (mkSys (set_inner (leave_waiter (set_leader false (inner l))) l) o
                  (<[t := Done (finish rs r)]> th))
  | step_lead_flush t tk rs now l o th :
      th !! t = Some (Leading tk rs) → already_done (inner l) tk = None →
      should_flush_now now (cl_group l) = true →
      step (mkSys l o th) (mkSys l o (<[t := Flushing tk rs]> th))
  (* [flush_fn]: lock the log, flush *)
  | step_flush t tk rs res l l' th :
      th !! t = Some (Flushing tk rs) → gen_room l → cl_flush l = (res, l') →
      step (mkSys l None th) (mkSys l' None (<[t := Flushed tk rs res]> th))
  | step_flushed_ok t tk rs u l o th :
      th !! t = Some (Flushed tk rs (Ok u)) →
      step (mkSys l o th)
           (mkSys (set_inner (set_leader false (inner l)) l) o (<[t := Waiting tk rs false]> th))
  | step_flushed_err t tk rs e l o th :
      th !! t = Some (Flushed tk rs (Err e)) → gen_room l →
      step (mkSys l o th)
           (mkSys (set_inner (note_flush_error e (set_leader false (inner l))) l) o
                  (<[t := Done (Err e)]> th))
  (* [SharedPartitionLog::flush] from outside *)
  | step_flush_now res l l' th :
      gen_room l → cl_flush l = (res, l') →
      step (mkSys l None th) (mkSys l' None th).

(** All threads start idle, nobody leads. *)
Definition initial (s : sys) : Prop :=
  log_owner s = None ∧ has_leader (inner (log s)) = false ∧
  map_Forall (λ _ p, p = Idle) (threads s).

End system.
Arguments sys L : clear implicits.

(** ** The invariant *)

Section safety.
Context {L : Type} `{CommitLogLaws L}.
Implicit Types (l : L) (s : sys L) (th : gmap nat pc).

Definition leads (p : pc) : bool :=
  match p with Leading _ _ | Flushing _ _ | Flushed _ _ _ => true | _ => false end.

Definition writes (p : pc) : bool := match p with Writing _ => true | _ => false end.

(** A ticket the generation has passed: its records are durable, or a failed
    flush after the ticket is still on record. *)
Definition covered l (tk : GroupCommitTicket) (rs : list LogRecord) : Prop :=
  wait_gen tk < flush_gen (inner l) →
  Forall (cl_durable l) rs ∨
  ∃ g e, last_error (inner l) = Some (g, e) ∧ wait_gen tk < g.

Definition waits l tk rs : Prop := Forall (cl_holds l) rs ∧ covered l tk rs.

Definition pc_ok l (p : pc) : Prop :=
  match p with
  | Idle => True
  | Writing rs => Forall (cl_holds l) rs
  | Waiting tk rs fn => waits l tk rs ∧ (fn = false → wait_gen tk < flush_gen (inner l))
  | Leading tk rs | Flushing tk rs => waits l tk rs ∧ wait_gen tk ≤ flush_gen (inner l)
  | Flushed tk rs res => waits l tk rs ∧ wait_gen tk ≤ flush_gen (inner l) ∧
      (∀ u, res = Ok u → wait_gen tk < flush_gen (inner l))
  | Done (Ok rs) => Forall (cl_durable l) rs
  | Done (Err _) => True
  end.

Record sys_inv s : Prop := {
  si_pcs : map_Forall (λ _ p, pc_ok (log s) p) (threads s);
  si_leader : ∀ t p, threads s !! t = Some p → leads p = true → has_leader (inner (log s)) = true;
  si_has : has_leader (inner (log s)) = true → ∃ t p, threads s !! t = Some p ∧ leads p = true;
  si_unique : ∀ t1 t2 p1 p2, threads s !! t1 = Some p1 → threads s !! t2 = Some p2 →
    leads p1 = true → leads p2 = true → t1 = t2;
  si_tickets : ∀ t tk rs fn, threads s !! t = Some (Waiting tk rs fn) →
    wait_gen tk ≤ flush_gen (inner (log s));
  si_owner : ∀ t p, threads s !! t = Some p → writes p = true ↔ log_owner s = Some t;
  si_in : ∀ t, log_owner s = Some t → is_Some (threads s !! t);
}.

(** *** How the log may change under the other threads *)

(** The log kept its records and their durability, and the generation either
    stayed, or advanced by a flush that made everything durable, or advanced
    with its error noted. *)
Record evolves l l' : Prop := {
  ev_holds : ∀ r, cl_holds l r → cl_holds l' r;
  ev_durable : ∀ r, cl_durable l r → cl_durable l' r;
  ev_gen : flush_gen (inner l) ≤ flush_gen (inner l');
  ev_cover : (flush_gen (inner l') = flush_gen (inner l) ∧
              last_error (inner l') = last_error (inner l)) ∨
             (∀ r, cl_holds l r → cl_durable l' r) ∨
             ∃ e, last_error (inner l') = Some (flush_gen (inner l'), e);
}.

Lemma waits_evolves l l' tk rs :
  evolves l l' → waits l tk rs → waits l' tk rs.
Proof.
  intros [Hh Hd Hg Hc] [Hr Hcov]. split; [by eapply Forall_impl|].
  intros Hlt. destruct Hc as [[Eg El]|[Hall|[e He]]].
  - rewrite Eg in Hlt. rewrite El. destruct (Hcov Hlt) as [HF|?]; [left; by eapply Forall_impl|by right].
  - left. by eapply Forall_impl.
  - right. eexists _, e. split; [exact He|done].
Qed.

Lemma pc_ok_evolves l l' p : evolves l l' → pc_ok l p → pc_ok l' p.
Proof.
  intros Ev. pose proof (ev_gen _ _ Ev). destruct p; cbn [pc_ok]; try done.
  - intros HF. eapply Forall_impl; [exact HF|apply (ev_holds _ _ Ev)].
  - intros [? Hf]. split; [by eapply waits_evolves|]. intros Hx. specialize (Hf Hx). lia.
  - intros [? ?]. split; [by eapply waits_evolves|lia].
  - intros [? ?]. split; [by eapply waits_evolves|lia].
  - intros (? & ? & Hu). split; [by eapply waits_evolves|]. split; [lia|].
    intros u Hx. specialize (Hu u Hx). lia.
  - destruct res; [|done]. intros HF. eapply Forall_impl; [exact HF|apply (ev_durable _ _ Ev)].
Qed.

Lemma evolves_refl l : evolves l l.
Proof. split; auto with lia. Qed.

Lemma evolves_same_gen l l' :
  same_gen (cl_group l) (cl_group l') →
  (∀ r, cl_holds l r → cl_holds l' r) → (∀ r, cl_durable l r → cl_durable l' r) → evolves l l'.
Proof.
  intros (Hg & He & _) Hh Hd. split; try done; unfold inner.
  - rewrite Hg. done.
  - left. by rewrite Hg, He.
Qed.

Lemma inner_set_inner i l : inner (set_inner i l) = i.
Proof. unfold inner, set_inner. by rewrite cl_get_set. Qed.

Lemma evolves_set_inner i l :
  flush_gen i = flush_gen (inner l) → last_error i = last_error (inner l) →
  evolves l (set_inner i l).
Proof.
  intros Hg He. split; rewrite ?inner_set_inner.
  - intros r ?. unfold set_inner. by apply cl_set_holds.
  - intros r ?. unfold set_inner. by apply cl_set_durable.
  - lia.
  - left. by rewrite Hg, He.
Qed.

Lemma evolves_flush l res l' :
  gen_room l → cl_flush l = (res, l') →
  evolves l l' ∧ has_leader (inner l') = has_leader (inner l) ∧
  (∀ u, res = Ok u → flush_gen (inner l') = flush_gen (inner l) + 1).
Proof.
  intros Hroom E. unfold gen_room, inner in *. destruct res as [u|e].
  - destruct (cl_flush_ok l u l' E) as ([n Hg] & Hall & Hd).
    assert (Hgen : flush_gen (state (cl_group l')) = flush_gen (state (cl_group l)) + 1).
    { rewrite Hg. cbn. apply u64_wrapping_add_small. lia. }
    split; [|split; [by rewrite Hg|by intros]]. split; unfold inner; try done.
    + intros r Hr. by apply Hall.
    + lia.
    + right. left. intros r Hr. by apply Hall.
  - destruct (cl_flush_err l e l' E) as ((Hg & He & Hl) & Hh & Hd).
    split; [by apply evolves_same_gen|]. split; [done|by intros].
Qed.

Lemma evolves_note_error e l :
  gen_room l → evolves l (set_inner (note_flush_error e (set_leader false (inner l))) l) ∧
  flush_gen (note_flush_error e (set_leader false (inner l))) = flush_gen (inner l) + 1.
Proof.
  intros Hroom. unfold gen_room in Hroom.
  assert (Hg : flush_gen (note_flush_error e (set_leader false (inner l))) = flush_gen (inner l) + 1)
    by (cbn; apply u64_wrapping_add_small; lia).
  split; [|done]. split; rewrite ?inner_set_inner.
  - intros r ?. unfold set_inner. by apply cl_set_holds.
  - intros r ?. unfold set_inner. by apply cl_set_durable.
  - lia.
  - right. right. by eexists.
Qed.

(** *** One thread moves *)

Definition leader_moves l l' p p' : Prop :=
  (leads p' = leads p ∧ has_leader (inner l') = has_leader (inner l)) ∨
  (leads p' = true ∧ has_leader (inner l) = false ∧ has_leader (inner l') = true) ∨
  (leads p = true ∧ leads p' = false ∧ has_leader (inner l') = false).

Definition owner_moves (t : nat) o o' p p' : Prop :=
  (o' = o ∧ writes p' = writes p) ∨
  (o = None ∧ o' = Some t ∧ writes p' = true) ∨
  (o = Some t ∧ o' = None ∧ writes p' = false).

Lemma leader_update l l' th t p p' :
  th !! t = Some p → leader_moves l l' p p' →
  (∀ t1 t2 p1 p2, th !! t1 = Some p1 → th !! t2 = Some p2 →
     leads p1 = true → leads p2 = true → t1 = t2) →
  (∀ t p, th !! t = Some p → leads p = true → has_leader (inner l) = true) →
  (has_leader (inner l) = true → ∃ t p, th !! t = Some p ∧ leads p = true) →
  (∀ t0 p0, <[t := p']> th !! t0 = Some p0 → leads p0 = true → has_leader (inner l') = true) ∧
  (has_leader (inner l') = true → ∃ t0 p0, <[t := p']> th !! t0 = Some p0 ∧ leads p0 = true) ∧
  (∀ t1 t2 p1 p2, <[t := p']> th !! t1 = Some p1 → <[t := p']> th !! t2 = Some p2 →
     leads p1 = true → leads p2 = true → t1 = t2).
Proof.
  intros Ht Hm Hu Hl Hh. split; [|split].
  - intros t0 p0 [[<- <-]|[Hne Hl0]]%lookup_insert_Some Hp0.
    + destruct Hm as [[E1 E2]|[[_ [_ E]]|[_ [E _]]]]; [rewrite E2; eapply Hl; [exact Ht|congruence]|done|congruence].
    + pose proof (Hl t0 p0 Hl0 Hp0). destruct Hm as [[_ E2]|[[_ [E _]]|[E _]]]; [congruence|congruence|].
      destruct Hne. by eapply Hu.
  - intros Hx. destruct Hm as [[E1 E2]|[[E _]|[_ [_ E]]]]; [|exists t, p'; by rewrite lookup_insert_eq|congruence].
    rewrite E2 in Hx. destruct (Hh Hx) as (t0 & p0 & Hl0 & Hp0).
    destruct (decide (t0 = t)) as [->|Hne].
    + exists t, p'. rewrite lookup_insert_eq. split; [done|]. rewrite E1. congruence.
    + exists t0, p0. by rewrite lookup_insert_ne by done.
  - intros t1 t2 p1 p2 Hl1 Hl2 L1 L2.
    apply lookup_insert_Some in Hl1 as [[<- <-]|[N1 Hl1]], Hl2 as [[<- <-]|[N2 Hl2]]; [done| | |by eapply Hu].
    + destruct Hm as [[E1 _]|[[_ [E _]]|[_ [E _]]]]; [eapply Hu; [exact Ht|exact Hl2|congruence|done]| |congruence].
      pose proof (Hl t2 p2 Hl2 L2). congruence.
    + destruct Hm as [[E1 _]|[[_ [E _]]|[_ [E _]]]]; [eapply Hu; [exact Hl1|exact Ht|done|congruence]| |congruence].
      pose proof (Hl t1 p1 Hl1 L1). congruence.
Qed.

Lemma owner_update t o o' th p p' :
  th !! t = Some p → owner_moves t o o' p p' →
  (∀ t p, th !! t = Some p → writes p = true ↔ o = Some t) →
  ∀ t0 p0, <[t := p']> th !! t0 = Some p0 → writes p0 = true ↔ o' = Some t0.
Proof.
  intros Ht Hm Ho t0 p0 [[<- <-]|[Hne Hl0]]%lookup_insert_Some.
  - pose proof (Ho _ _ Ht). destruct Hm as [[-> E]|[(_ & -> & E)|(_ & -> & E)]]; rewrite E; [done|done|].
    by split.
  - pose proof (Ho _ _ Hl0) as Hl1. destruct Hm as [[-> _]|[(Eo & -> & _)|(Eo & -> & _)]]; [done| |].
    + rewrite Eo in Hl1. split; [intros ?%Hl1; done|congruence].
    + rewrite Eo in Hl1. split; [intros ?%Hl1; congruence|done].
Qed.

Lemma inv_update l l' o o' th t p p' :
  sys_inv (mkSys l o th) → th !! t = Some p → evolves l l' → pc_ok l' p' →
  leader_moves l l' p p' → owner_moves t o o' p p' →
  (∀ tk rs fn, p' = Waiting tk rs fn → wait_gen tk ≤ flush_gen (inner l')) →
  sys_inv (mkSys l' o' (<[t := p']> th)).
Proof.
  intros [Hp Hl Hh Hu Ht Ho Hin] Hth Ev Hp' Hm Hom Htk. cbn [log threads log_owner] in *.
  destruct (leader_update l l' th t p p' Hth Hm Hu Hl Hh) as (A1 & A2 & A3).
  split; cbn [log threads log_owner]; try done.
  - apply map_Forall_insert_2; [done|]. eapply map_Forall_impl; [exact Hp|].
    intros ? ? ?. by eapply pc_ok_evolves.
  - intros t0 tk rs fn [[<- Heq]|[_ Hl0]]%lookup_insert_Some; [by eapply Htk|].
    specialize (Ht _ _ _ _ Hl0). pose proof (ev_gen _ _ Ev). lia.
  - by eapply owner_update.
  - intros t0 Ht0. apply lookup_insert_is_Some.
    destruct (decide (t = t0)) as [|Hne]; [by left|right; split; [done|]]. apply Hin.
    destruct Hom as [[-> _]|[(_ & -> & _)|(_ & -> & _)]]; congruence.
Qed.

(** *** Every step preserves the invariant *)

Lemma pc_inv l o th t p : sys_inv (mkSys l o th) → th !! t = Some p → pc_ok l p.
Proof. intros I Ht. exact (si_pcs _ I t p Ht). Qed.

(** A done ticket gives durable records, or the error. *)
Lemma done_ok l tk rs r :
  waits l tk rs → already_done (inner l) tk = Some r → pc_ok l (Done (finish rs r)).
Proof.
  intros [_ Hc] E. unfold already_done, flush_error_for in E. revert E. case_if; [|done].
  destruct (last_error (inner l)) as [[g e]|] eqn:He.
  - case_if; intros [= <-]; [done|]. cbn. destruct (Hc ltac:(lia)) as [?|(g' & e' & Hx & ?)]; [done|].
    rewrite He in Hx. injection Hx as <- <-. lia.
  - intros [= <-]. cbn. destruct (Hc ltac:(lia)) as [?|(g' & e' & Hx & ?)]; [done|congruence].
Qed.

Lemma waits_register now l tk g rs :
  register_waiter now (cl_group l) = (tk, g) → Forall (cl_holds l) rs →
  evolves l (cl_set_group g l) ∧ waits (cl_set_group g l) tk rs ∧
  wait_gen tk = flush_gen (inner (cl_set_group g l)) ∧
  has_leader (inner (cl_set_group g l)) = has_leader (inner l).
Proof.
  unfold register_waiter. intros [= <- <-] HF.
  set (l' := cl_set_group _ _).
  assert (flush_gen (inner l') = flush_gen (inner l) ∧ last_error (inner l') = last_error (inner l)
          ∧ has_leader (inner l') = has_leader (inner l)) as (Eg & Ee & El)
    by (unfold l', inner; by rewrite cl_get_set).
  assert (Ev : evolves l l').
  { split; [intros r ?; by apply cl_set_holds|intros r ?; by apply cl_set_durable|lia|].
    left. done. }
  split; [done|]. split; [|split; [by rewrite Eg|done]].
  split; [eapply Forall_impl; [exact HF|apply (ev_holds _ _ Ev)]|].
  intros Hlt. cbn in Hlt. unfold inner in *. lia.
Qed.

Lemma step_register_inv l th t now rs tk g :
  sys_inv (mkSys l (Some t) th) → th !! t = Some (Writing rs) →
  register_waiter now (cl_group l) = (tk, g) →
  sys_inv (mkSys (cl_set_group g l) None (<[t := Waiting tk rs true]> th)).
Proof.
  intros I Ht E. pose proof (pc_inv _ _ _ _ _ I Ht) as Hp. cbn in Hp.
  destruct (waits_register now l tk g rs E Hp) as (Ev & W & Hg & Hl).
  eapply (inv_update l _ (Some t) None); try done.
  - by left.
  - right. right. done.
  - intros ? ? ? [= <- _ _]. lia.
Qed.

Lemma step_write_inv l l' th t ms now res :
  sys_inv (mkSys l None th) → th !! t = Some Idle → cl_room ms l → cl_write ms now l = (res, l') →
  evolves l l' ∧ has_leader (inner l') = has_leader (inner l).
Proof.
  intros I Ht Hr E. destruct (cl_write_frame _ _ _ _ _ Hr E) as (Hg & Hh & Hd).
  split; [by apply evolves_same_gen|]. apply Hg.
Qed.

Lemma set_inner_move l o th t p p' i :
  sys_inv (mkSys l o th) → th !! t = Some p →
  flush_gen i = flush_gen (inner l) → last_error i = last_error (inner l) →
  (pc_ok l p' ∧ writes p = false ∧ writes p' = false) →
  leader_moves l (set_inner i l) p p' →
  (∀ tk rs fn, p' = Waiting tk rs fn → wait_gen tk ≤ flush_gen (inner l)) →
  sys_inv (mkSys (set_inner i l) o (<[t := p']> th)).
Proof.
  intros I Ht Hg He (Hp & Hw & Hw') Hm Htk. pose proof (evolves_set_inner i l Hg He) as Ev.
  eapply inv_update; [exact I|exact Ht|exact Ev|by eapply pc_ok_evolves|done|left; split; congruence|].
  intros tk rs fn Hx. rewrite inner_set_inner, Hg. by eapply Htk.
Qed.

Lemma step_preserves s s' : step s s' → sys_inv s → sys_inv s'.
Proof.
  destruct 1 as [t ms now l l' rs th Ht Hr Hne E|t ms now l l' th Ht Hr E|t ms now l l' e th Ht Hr E
    |t now rs tk g l th Ht E|t tk rs fn r l o th Ht E|t tk rs l o th Ht E Hl|t tk rs r l o th Ht E
    |t tk rs now l o th Ht E Hf|t tk rs res l l' th Ht Hg E|t tk rs u l o th Ht|t tk rs e l o th Ht Hg
    |res l l' th Hg E]; intros I; try (pose proof (pc_inv _ _ _ _ _ I Ht) as Hp; cbn in Hp).
  - destruct (step_write_inv _ _ _ _ _ _ _ I Ht Hr E) as [Ev Hl].
    eapply inv_update; [exact I|exact Ht|exact Ev|by eapply cl_write_ok|by left|right; by left|done].
  - destruct (step_write_inv _ _ _ _ _ _ _ I Ht Hr E) as [Ev Hl].
    eapply inv_update; [exact I|exact Ht|exact Ev|constructor|by left|by left|done].
  - destruct (step_write_inv _ _ _ _ _ _ _ I Ht Hr E) as [Ev Hl].
    eapply inv_update; [exact I|exact Ht|exact Ev|done|by left|by left|done].
  - by eapply step_register_inv.
  - eapply set_inner_move; [exact I|exact Ht|done|done|split; [|done]; by eapply done_ok; [apply Hp|]| |done].
    left. by rewrite inner_set_inner.
  - pose proof (si_tickets _ I _ _ _ _ Ht). cbn in *.
    eapply set_inner_move; [exact I|exact Ht|done|done|split; [split; [apply Hp|done]|done]| |done].
    right. left. by rewrite inner_set_inner.
  - eapply set_inner_move; [exact I|exact Ht|done|done|split; [|done]; by eapply done_ok; [apply Hp|]| |done].
    right. right. by rewrite inner_set_inner.
  - eapply inv_update; [exact I|exact Ht|apply evolves_refl|exact Hp|by left|by left|done].
  - destruct (evolves_flush l res l' Hg E) as (Ev & Hl & Hok). pose proof (ev_gen _ _ Ev).
    eapply inv_update; [exact I|exact Ht|exact Ev| |by left|by left|done].
    cbn. destruct Hp as [W ?]. split; [by eapply waits_evolves|]. split; [lia|].
    intros u ->. specialize (Hok u eq_refl). lia.
  - destruct Hp as (W & Hle & Hlt). specialize (Hlt u eq_refl).
    eapply set_inner_move; [exact I|exact Ht|done|done|split; [split; [exact W|done]|done]| |].
    + right. right. by rewrite inner_set_inner.
    + intros ? ? ? [= <- _ _]. lia.
  - destruct (evolves_note_error e l Hg) as [Ev Hgen].
    eapply inv_update; [exact I|exact Ht|exact Ev|done| |by left|done].
    right. right. by rewrite inner_set_inner.
  - destruct (evolves_flush l res l' Hg E) as (Ev & Hl & _). pose proof (ev_gen _ _ Ev).
    destruct I as [Ip Il Ih Iu It Io Iin]. cbn in *. split; cbn; rewrite ?Hl; try done.
    + eapply map_Forall_impl; [exact Ip|]. intros ? ? ?. by eapply pc_ok_evolves.
    + intros t tk rs fn Ht. specialize (It _ _ _ _ Ht). lia.
Qed.

Lemma initial_inv s : initial s → sys_inv s.
Proof.
  intros (Ho & Hl & Hi).
  assert (Hidle : ∀ t p, threads s !! t = Some p → p = Idle) by (intros t p Ht; exact (Hi t p Ht)).
  split.
  - intros t p Ht. by rewrite (Hidle t p Ht).
  - intros t p Ht Hp. by rewrite (Hidle t p Ht) in Hp.
  - congruence.
  - intros t1 t2 p1 p2 H1 _ Hp. by rewrite (Hidle _ _ H1) in Hp.
  - intros t tk rs fn Ht. by apply Hidle in Ht.
  - intros t p Ht. rewrite (Hidle _ _ Ht), Ho. done.
  - rewrite Ho. done.
Qed.

Lemma steps_preserve s0 s : rtc step s0 s → sys_inv s0 → sys_inv s.
Proof. induction 1; eauto using step_preserves. Qed.

(** *** Somebody can always move *)

Lemma window_ends l : ∃ now, should_flush_now now (cl_group l) = true.
Proof.
  unfold should_flush_now, remaining_window.
  destruct (max_ms (cl_group l) =? 0); [exists 0; by rewrite orb_true_r|].
  destruct (window_start (state (cl_group l))) as [st|]; [|exists 0; by rewrite orb_true_r].
  exists (st + max_ms (cl_group l)). unfold saturating_sub.
  replace (_ - _) with 0 by lia. cbn. by rewrite orb_true_r.
Qed.

Lemma owner_steps l th t : sys_inv (mkSys l (Some t) th) → ∃ s', step (mkSys l (Some t) th) s'.
Proof.
  intros I. destruct (si_in _ I t eq_refl) as [p Hp]. cbn in Hp.
  pose proof (proj2 (si_owner _ I t p Hp) eq_refl) as Hw. destruct p; try done.
  destruct (register_waiter 0 (cl_group l)) as [tk g] eqn:E.
  eexists. by eapply (step_register t 0).
Qed.

Lemma leader_steps l o th t p :
  sys_inv (mkSys l o th) → gen_room l → th !! t = Some p → leads p = true →
  ∃ s', step (mkSys l o th) s'.
Proof.
  intros I Hg Ht Hp. destruct p as [|?|? ? ?|tk rs|tk rs|tk rs res|?]; try done.
  - destruct (already_done (inner l) tk) as [r|] eqn:E.
    + eexists. by eapply step_lead_done.
    + destruct (window_ends l) as [now Hw]. eexists. by eapply (step_lead_flush t tk rs now).
  - destruct o as [t'|]; [by eapply owner_steps|].
    destruct (cl_flush l) as [res l'] eqn:E. eexists. by eapply step_flush.
  - destruct res as [u|e]; eexists; [by eapply step_flushed_ok|by eapply step_flushed_err].
Qed.

Definition in_flight (p : pc) : bool := match p with Idle | Done _ => false | _ => true end.

Lemma in_flight_steps s t p :
  sys_inv s → gen_room (log s) → threads s !! t = Some p → in_flight p = true → ∃ s', step s s'.
Proof.
  destruct s as [l o th]. cbn. intros I Hg Ht Hp.
  destruct (leads p) eqn:Hl; [by eapply leader_steps|].
  destruct p as [|rs|tk rs fn|? ?|? ?|? ? ?|?]; try done.
  - pose proof (proj1 (si_owner _ I _ _ Ht) eq_refl) as Ho. cbn in Ho. subst o. by eapply owner_steps.
  - destruct (already_done (inner l) tk) as [r|] eqn:E; [eexists; by eapply step_done|].
    destruct fn.
    + destruct (has_leader (inner l)) eqn:Hlead; [|eexists; by eapply step_lead].
      destruct (si_has _ I Hlead) as (t' & p' & Ht' & Hp'). by eapply leader_steps.
    + pose proof (pc_inv _ _ _ _ _ I Ht) as [_ Hlt]. specialize (Hlt eq_refl).
      unfold already_done in E. by rewrite Zltb_true in E.
Qed.

End safety.

(** ** Properties *)

Section properties.
Context {L : Type} `{CommitLogLaws L}.

(** C5: group commit never acknowledges early: in every interleaving of
    appending, leading, flushing and failing threads, when an append returns
    without error all its records are durable. *)
Theorem commit_implies_durable (s0 s : sys L) t rs :
  initial s0 → rtc step s0 s → threads s !! t = Some (Done (Ok rs)) →
  Forall (cl_durable (log s)) rs.
Proof.
  intros Hi Hr Ht. pose proof (steps_preserve s0 s Hr (initial_inv s0 Hi)) as I.
  exact (si_pcs _ I t _ Ht).
Qed.

(** Group commit does not deadlock: in every reachable state with an append
    in progress some thread can take a step, so a waiter is never left without
    a leader and a leader never without the lock; and there is never more than
    one leader. *)
Theorem commit_no_deadlock (s0 s : sys L) t p :
  initial s0 → rtc step s0 s → gen_room (log s) → threads s !! t = Some p → in_flight p = true →
  (∃ s', step s s') ∧
  (∀ t1 t2 p1 p2, threads s !! t1 = Some p1 → threads s !! t2 = Some p2 →
     leads p1 = true → leads p2 = true → t1 = t2).
Proof.
  intros Hi Hr Hg Ht Hp. pose proof (steps_preserve s0 s Hr (initial_inv s0 Hi)) as I.
  split; [by eapply in_flight_steps|apply (si_unique _ I)].
Qed.

End properties.

(** ** The partition log as a [CommitLog]

    The log comes with the offset below which everything has been synced: a
    flush syncs the active segment, and the segments before it were flushed
    when they were sealed. *)

Section instance.
Context `{Crc32} (plat : Platform).

Definition synced_log : Type := PartitionLog * Z.

(** The part of [SharedPartitionLog::append] under the log lock, with the
    window on; a batch of one. *)
Definition append_locked (message : Message) (now : Z) (l : PartitionLog)
    : result (list LogRecord) * PartitionLog :=
  let! (record, l) := append_one plat message now l in
  let! (_u, l) := finish_append 1 false now l in
  (Ok [record], l).

(** The same of [SharedPartitionLog::append_batch]. *)
Definition append_batch_locked (messages : list Message) (now : Z) (l : PartitionLog)
    : result (list LogRecord) * PartitionLog :=
  append_batch_uncommitted plat messages now l.

Lemma append_locked_batch m now l : append_locked m now l = append_batch_locked [m] now l.
Proof.
  unfold append_locked, append_batch_locked, append_batch_uncommitted, append_batch_inner.
  cbn [append_each]. by destruct (append_one plat m now l) as [[r|e] l'].
Qed.

#[export] Instance partition_commit_log : CommitLog synced_log := {
  cl_group ls := group (fst ls);
  cl_set_group g ls := (set_group (fst ls) g, snd ls);
  cl_room ms ls := group_commit_enabled (fst ls) = true ∧ 0 ≤ log_next_offset (fst ls) ∧
                   log_next_offset (fst ls) + zlen ms ≤ u64_max;
  cl_write ms now ls :=
    let '(r, l) := append_batch_locked ms now (fst ls) in (r, (l, snd ls));
  cl_flush ls :=
    let '(r, l) := flush (fst ls) in
    (r, (l, match r with Ok _ => Z.max (snd ls) (log_next_offset l) | Err _ => snd ls end));
  cl_holds ls r := rec_offset r < log_next_offset (fst ls);
  cl_durable ls r := rec_offset r < snd ls;
}.

Lemma append_offset off m ts s r s' : Segment.append off m ts s = (Ok r, s') → rec_offset r = off.
Proof.
  unfold Segment.append. destruct (sealed s); [done|]. destruct (negb _); [done|]. unfold append_encoded.
  destruct (encode_record [] off ts m) as [buf n]. intros (u & s1 & _ & E)%bind_st_ok.
  apply bind_st_ok in E as (u' & s2 & _ & E). by injection E as <- <-.
Qed.

Lemma update_last_some {A B} (f : A → B * A) l b l' :
  update_last f l = Some (b, l') → ∃ x x', f x = (b, x').
Proof.
  revert l'. induction l as [|x l IH]; intros l'; [done|]. cbn. destruct l as [|y l].
  - destruct (f x) as [b0 x'] eqn:E. intros [= -> <-]. eauto.
  - destruct (update_last f (y :: l)) as [[b0 l0]|]; [|done]. intros [= -> <-]. by eapply IH.
Qed.

(** What a roll leaves alone. *)
Lemma roll_frame now l res l' :
  roll plat now l = (res, l') →
  group l' = group l ∧ config l' = config l ∧ log_next_offset l' = log_next_offset l.
Proof.
  unfold roll. destruct (update_last seal (segments l)) as [[[u|e] segs]|]; [|by intros [= _ <-]..].
  destruct (create_segment _ _ _ _); by intros [= _ <-].
Qed.

Lemma append_one_frame m now l res l' :
  0 ≤ log_next_offset l < u64_max → append_one plat m now l = (res, l') →
  group l' = group l ∧ config l' = config l ∧
  match res with
  | Ok r => rec_offset r = log_next_offset l ∧ log_next_offset l' = log_next_offset l + 1
  | Err _ => log_next_offset l' = log_next_offset l
  end.
Proof.
  intros Hr. unfold append_one.
  destruct (if needs_roll _ _ then _ else _) as [res1 l1] eqn:E1.
  assert (group l1 = group l ∧ config l1 = config l ∧ log_next_offset l1 = log_next_offset l)
    as (Hg & Hc & Hn).
  { destruct (needs_roll _ _); [by eapply roll_frame|by injection E1 as _ <-]. }
  destruct res1 as [u|e]; cbn [bind_st]; [|intros [= <- <-]; done].
  destruct (update_last _ _) as [[[r|e] segs]|] eqn:Eu; intros [= <- <-]; cbn; try done.
  apply update_last_some in Eu as (s & s' & Ea). apply append_offset in Ea.
  rewrite Ea, Hn, offset_next_small by lia. done.
Qed.

Lemma append_each_frame ms : ∀ now l res l',
  0 ≤ log_next_offset l → log_next_offset l + zlen ms ≤ u64_max →
  append_each plat ms now l = (res, l') →
  group l' = group l ∧ config l' = config l ∧ log_next_offset l ≤ log_next_offset l' ∧
  (∀ rs, res = Ok rs → Forall (λ r, rec_offset r < log_next_offset l') rs).
Proof.
  induction ms as [|m ms IH]; intros now l res l' H0 Hm E; cbn [append_each] in E.
  { injection E as <- <-. do 2 (split; [done|]). split; [lia|]. by intros ? [= <-]. }
  rewrite zlen_cons in Hm. pose proof (zlen_nonneg ms).
  destruct (append_one plat m now l) as [r1 l1] eqn:E1.
  destruct (append_one_frame m now l r1 l1 ltac:(lia) E1) as (Hg & Hc & Hn).
  destruct r1 as [r|e]; cbn [bind_st] in E; [|injection E as <- <-; do 2 (split; [done|]); split; [lia|done]].
  destruct Hn as [Hro Hn1].
  destruct (append_each plat ms now l1) as [r2 l2] eqn:E2.
  destruct (IH now l1 r2 l2 ltac:(lia) ltac:(lia) E2) as (Hg2 & Hc2 & Hn2 & HF).
  destruct r2 as [rs|e]; cbn [bind_st] in E; injection E as <- <-.
  - do 2 (split; [congruence|]). split; [lia|]. intros ? [= <-]. constructor; [lia|by apply HF].
  - do 2 (split; [congruence|]). split; [lia|done].
Qed.

Lemma append_batch_locked_frame ms now l res l' :
  group_commit_enabled l = true → 0 ≤ log_next_offset l → log_next_offset l + zlen ms ≤ u64_max →
  append_batch_locked ms now l = (res, l') →
  same_gen (group l) (group l') ∧ log_next_offset l ≤ log_next_offset l' ∧
  (∀ rs, res = Ok rs → Forall (λ r, rec_offset r < log_next_offset l') rs).
Proof.
  intros Hen H0 Hm E. unfold append_batch_locked, append_batch_uncommitted, append_batch_inner in E.
  destruct (append_each plat ms now l) as [r1 l1] eqn:E1.
  destruct (append_each_frame ms now l r1 l1 H0 Hm E1) as (Hg & Hc & Hn & HF).
  destruct r1 as [rs|e]; cbn [bind_st] in E; [|injection E as <- <-; rewrite Hg; split; [done|by split]].
  case_bool_decide; cbn [bind_st] in E; [injection E as <- <-; rewrite Hg; split; [done|by split]|].
  unfold finish_append, group_commit_enabled in E. cbn [config set_appends] in E.
  unfold group_commit_enabled in Hen. rewrite Hc, Hen in E. cbn [bind_st] in E.
  injection E as <- <-. cbn. rewrite Hg. split; [|by split].
  unfold same_gen, add_pending. by destruct (_ =? 0).
Qed.

Lemma flush_frame l res l' :
  flush l = (res, l') →
  log_next_offset l' = log_next_offset l ∧
  match res with
  | Ok _ => ∃ n, group l' = notify_flushed n (group l)
  | Err _ => group l' = group l
  end.
Proof.
  unfold flush. destruct (update_last Segment.flush (segments l)) as [[[u|e] segs]|]; cbn [bind_st];
    intros [= <- <-]; cbn; eauto.
Qed.

#[export] Instance partition_commit_laws : CommitLogLaws synced_log.
Proof.
  split; try done.
  - intros ms now [l s] res [l' s'] (Hen & H0 & Hm) E. cbn in *.
    destruct (append_batch_locked ms now l) as [r1 l1] eqn:E1. injection E as <- <- <-.
    destruct (append_batch_locked_frame _ _ _ _ _ Hen H0 Hm E1) as (Hg & Hn & _).
    split; [done|]. split; [intros r Hr; lia|done].
  - intros ms now [l s] rs [l' s'] (Hen & H0 & Hm) E. cbn in *.
    destruct (append_batch_locked ms now l) as [r1 l1] eqn:E1. injection E as -> <- <-.
    destruct (append_batch_locked_frame _ _ _ _ _ Hen H0 Hm E1) as (_ & _ & HF). by apply HF.
  - intros [l s] u [l' s'] E. cbn in *. destruct (flush l) as [r1 l1] eqn:E1.
    injection E as -> <- <-. destruct (flush_frame _ _ _ E1) as [Hn Hg].
    split; [done|]. split; intros r Hr; lia.
  - intros [l s] e [l' s'] E. cbn in *. destruct (flush l) as [r1 l1] eqn:E1.
    injection E as -> <- <-. destruct (flush_frame _ _ _ E1) as [Hn Hg].
    split; [by rewrite Hg|]. split; [intros r Hr; lia|done].
Qed.

End instance.

(** ** Witnesses: one thread appends, leads and flushes *)

Definition run_plat : Platform := mkPlatform false false.
Definition run_config : StorageConfig :=
  mkStorageConfig 1048576 true 0 5 0 4096 None None false false.
Definition run_log : synced_log :=
  match open (H := crc_sum32) run_plat run_config [] 0 with
  | Ok l => (l, 0)
  | Err _ => (mkPartitionLog run_config [] 0 0 (new 5 1) 0, 0)
  end.

Definition run_message : Message := from_value [x01].
Definition run_record : LogRecord := record_of 0 7 run_message.

#[local] Instance run_commit_log : CommitLog synced_log := partition_commit_log (H := crc_sum32) run_plat.
#[local] Instance run_commit_laws : CommitLogLaws synced_log :=
  partition_commit_laws (H := crc_sum32) run_plat.

Definition run_ticket : GroupCommitTicket := mkTicket 0.
Definition run_written : synced_log := snd (cl_write [run_message] 7 run_log).
Definition run_registered : synced_log :=
  cl_set_group (snd (register_waiter 7 (cl_group run_written))) run_written.
Definition run_led : synced_log := set_inner (set_leader true (inner run_registered)) run_registered.
Definition run_flushed : synced_log := snd (cl_flush run_led).
Definition run_unled : synced_log := set_inner (set_leader false (inner run_flushed)) run_flushed.
Definition run_left : synced_log := set_inner (leave_waiter (inner run_unled)) run_unled.

Definition run_start : sys synced_log := mkSys run_log None {[0%nat := Idle]}.

Lemma run_waits :
  rtc step run_start (mkSys run_registered None {[0%nat := Waiting run_ticket [run_record] true]}).
Proof.
  eapply rtc_l; [|eapply rtc_l; [|apply rtc_refl]].
  - apply (step_write 0%nat [run_message] 7 run_log run_written [run_record]).
    + reflexivity.
    + vm_compute. repeat split; discriminate.
    + discriminate.
    + vm_compute. reflexivity.
  - apply (step_register 0%nat 7 [run_record] run_ticket (snd (register_waiter 7 (cl_group run_written)))).
    + reflexivity.
    + vm_compute. reflexivity.
Qed.

Lemma run_completes :
  rtc step run_start (mkSys run_left None {[0%nat := Done (Ok [run_record])]}).
Proof.
  etrans; [exact run_waits|].
  eapply rtc_l; [apply (step_lead 0%nat run_ticket [run_record] run_registered); vm_compute; reflexivity|].
  eapply rtc_l; [apply (step_lead_flush 0%nat run_ticket [run_record] 12 run_led); vm_compute; reflexivity|].
  eapply rtc_l.
  { apply (step_flush 0%nat run_ticket [run_record] (Ok tt) run_led run_flushed).
    - vm_compute. reflexivity.
    - vm_compute. split; [discriminate|reflexivity].
    - vm_compute. reflexivity. }
  eapply rtc_l; [apply (step_flushed_ok 0%nat run_ticket [run_record] tt run_flushed); vm_compute; reflexivity|].
  eapply rtc_l; [apply (step_done 0%nat run_ticket [run_record] false (Ok tt) run_unled); vm_compute; reflexivity|].
  apply rtc_refl.
Qed.

Lemma run_initial : initial run_start.
Proof.
  split; [reflexivity|]. split; [vm_compute; reflexivity|]. by apply map_Forall_singleton.
Qed.

Lemma commit_implies_durable_witness : Forall (cl_durable run_left) [run_record].
Proof.
  apply (commit_implies_durable run_start
    (mkSys run_left None {[0%nat := Done (Ok [run_record])]}) 0%nat [run_record]).
  - exact run_initial.
  - exact run_completes.
  - reflexivity.
Defined.

Lemma commit_no_deadlock_witness :
  ∃ s', step (mkSys run_registered None {[0%nat := Waiting run_ticket [run_record] true]}) s'.
Proof.
  apply (commit_no_deadlock run_start
    (mkSys run_registered None {[0%nat := Waiting run_ticket [run_record] true]})
    0%nat (Waiting run_ticket [run_record] true)).
  - exact run_initial.
  - exact run_waits.
  - vm_compute. split; [discriminate|reflexivity].
  - reflexivity.
  - reflexivity.
Defined.
