(* ===== verification/PartitionLogProps.v ===== *)
(** * Correctness of the partition log

    The abstraction of a log is the list of all its records in offset order.
    [log_rep] ties the segments to that list.  Appends extend it at the high
    watermark with consecutive offsets, reads are filters of it, deletion and
    retention remove whole leading segments, compaction keeps the latest
    record of each key. *)

From S2P Require Import Prelude Bytes Core Record SparseIndex Segment SegmentProps GroupCommit PartitionLog.

(** A segment entirely before another. *)
Definition seg_before (s0 s1 : Segment) : Prop :=
  base_offset s0 < base_offset s1 ∧ next_offset s0 ≤ base_offset s1.

Lemma update_last_snoc {A B} (f : A → B * A) l x :
  update_last f (l ++ [x]) = Some (fst (f x), l ++ [snd (f x)]).
Proof.
  induction l as [|y l IH]; simpl; [by destruct (f x)|].
  destruct (l ++ [x]) eqn:E; [by destruct l|]. by rewrite IH.
Qed.

Section log.
Context `{Crc32} (plat : Platform).

Definition config_ok (c : StorageConfig) : Prop :=
  HEADER_SIZE ≤ segment_size c ≤ u32_max ∧
  (cfg_direct_io c && direct_io_supported plat = true → cfg_use_mmap c = true).

(** The active segment: open, writable in blocks, densely numbered. *)
Record active_ok (a : Segment) (ca : list LogRecord) : Prop := {
  act_inv : seg_inv a ca;
  act_open : sealed a = false;
  act_aligned : aligned a;
  act_mmap : direct_io a = true → use_mmap a = true;
  act_dense : next_offset a - base_offset a ≤ zlen ca;
}.

Record log_inv (l : PartitionLog) (init : list Segment) (a : Segment)
    (ci : list (list LogRecord)) (ca : list LogRecord) : Prop := {
  li_segs : segments l = init ++ [a];
  li_init : Forall2 seg_inv init ci;
  li_sealed : Forall (λ s, sealed s = true) init;
  li_active : active_ok a ca;
  li_order : StronglySorted seg_before (init ++ [a]);
  li_next : next_offset a = log_next_offset l;
  li_config : config_ok (config l);
}.

(** The log holds these records. *)
Definition log_rep (l : PartitionLog) (recs : list LogRecord) : Prop :=
  ∃ init a ci ca, log_inv l init a ci ca ∧ recs = concat ci ++ ca.

(** ** The records of a log are in offset order *)

Lemma seg_inv_range s recs r :
  seg_inv s recs → r ∈ recs → base_offset s ≤ rec_offset r < next_offset s.
Proof.
  intros I Hr. pose proof (inv_lo _ _ I) as Hl. pose proof (inv_hi _ _ I) as Hh.
  rewrite Forall_forall in Hl, Hh. split; [by apply Hl|by apply Hh].
Qed.

Lemma StronglySorted_app_2 {A} (R : A → A → Prop) l k :
  StronglySorted R l → StronglySorted R k → (∀ x y, x ∈ l → y ∈ k → R x y) →
  StronglySorted R (l ++ k).
Proof.
  induction 1 as [|x l Hs IH Hall]; intros Hk Hlk; simpl; [done|]. constructor.
  - apply IH; [done|]. intros y z Hy Hz. apply Hlk; [by right|done].
  - apply Forall_app; split; [done|]. rewrite Forall_forall. intros y Hy. apply Hlk; [left|done].
Qed.

Lemma segs_sorted segs cs :
  Forall2 seg_inv segs cs → StronglySorted seg_before segs → StronglySorted off_lt (concat cs).
Proof.
  induction 1 as [|s c segs cs I HF IH]; intros Hs; simpl; [constructor|].
  inversion Hs as [|s' segs' Hs' Hall]; subst.
  apply StronglySorted_app_2; [apply (inv_sorted _ _ I)|by apply IH|].
  intros x y Hx Hy. apply list_elem_of_In, in_concat in Hy as (c' & Hc' & Hy).
  apply list_elem_of_In in Hc', Hy. apply list_elem_of_lookup in Hc' as [i Hi].
  destruct (Forall2_lookup_r _ _ _ _ _ HF Hi) as (s1 & Hs1 & I1).
  rewrite Forall_forall in Hall. destruct (Hall s1) as [_ ?]; [by eapply list_elem_of_lookup_2|].
  pose proof (seg_inv_range _ _ _ I Hx). pose proof (seg_inv_range _ _ _ I1 Hy).
  unfold off_lt. lia.
Qed.

Lemma log_inv_all l init a ci ca :
  log_inv l init a ci ca → Forall2 seg_inv (segments l) (ci ++ [ca]).
Proof.
  intros L. rewrite (li_segs _ _ _ _ _ L). apply Forall2_app; [apply (li_init _ _ _ _ _ L)|].
  constructor; [apply (li_active _ _ _ _ _ L)|constructor].
Qed.

Lemma log_rep_sorted l recs : log_rep l recs → StronglySorted off_lt recs.
Proof.
  intros (init & a & ci & ca & L & ->).
  pose proof (log_inv_all _ _ _ _ _ L) as HF.
  replace (concat ci ++ ca) with (concat (ci ++ [ca])) by (rewrite concat_app; simpl; by rewrite app_nil_r).
  eapply segs_sorted; [exact HF|]. rewrite (li_segs _ _ _ _ _ L). apply (li_order _ _ _ _ _ L).
Qed.

(** ** Replacing and adding the active segment *)

Lemma order_replace init a a' :
  StronglySorted seg_before (init ++ [a]) → base_offset a' = base_offset a →
  StronglySorted seg_before (init ++ [a']).
Proof.
  intros Hs Hb. apply StronglySorted_app in Hs as (H1 & H2 & _).
  apply StronglySorted_snoc; [done|]. rewrite Forall_forall. intros s Hin.
  destruct (H1 s a Hin ltac:(left)) as [? ?]. split; lia.
Qed.

Lemma order_extend init a n :
  StronglySorted seg_before (init ++ [a]) → base_offset a < base_offset n →
  next_offset a ≤ base_offset n → StronglySorted seg_before ((init ++ [a]) ++ [n]).
Proof.
  intros Hs Hb Hn. apply StronglySorted_snoc; [done|].
  apply StronglySorted_app in Hs as (H1 & _ & _).
  apply Forall_app; split; [|by constructor].
  rewrite Forall_forall. intros s Hin. destruct (H1 s a Hin ltac:(left)) as [? ?]. split; lia.
Qed.

Lemma active_bases init a :
  StronglySorted seg_before (init ++ [a]) → ∀ s, s ∈ init → base_offset s < base_offset a.
Proof.
  intros Hs s Hin. apply StronglySorted_app in Hs as (H1 & _ & _).
  by destruct (H1 s a Hin ltac:(left)).
Qed.

(** Appending to the active segment. *)
Lemma active_append a ca m ts :
  active_ok a ca → next_offset a < u64_max → i64_min ≤ ts ≤ i64_max → message_ok m →
  size a ≤ u32_max →
  let r := record_of (next_offset a) ts m in
  ∃ a', Segment.append (next_offset a) m ts a = (Ok r, a') ∧ active_ok a' (ca ++ [r]) ∧
    base_offset a' = base_offset a ∧ next_offset a' = next_offset a + 1.
Proof.
  intros [I Es A Hum Hd] Hn Ht Hm Hlim r. unfold Segment.append.
  rewrite Es, Z.eqb_refl. cbn [negb].
  assert (zlen ca ≤ size a).
  { rewrite (disk_size _ _ (inv_disk _ _ I)), zlen_content.
    pose proof (records_bytes_length ca). unfold HEADER_SIZE, zlen in *. lia. }
  pose proof (inv_base _ _ I).
  destruct (append_encoded_ok a ca (next_offset a) m ts I A Es) as
    (a' & E & I' & A' & (Hb & Hc & Hu & Hdi) & Es' & Hn' & _ & Hsz'); try done; try lia.
  exists a'. split; [exact E|]. split; [|done].
  split; try done.
  - by rewrite Hdi, Hu.
  - rewrite Hn', Hb, zlen_app, zlen_cons, zlen_nil. lia.
Qed.

Lemma set_use_mmap_id s b : use_mmap s = b → set_use_mmap s b = s.
Proof. intros <-. by destruct s. Qed.

Lemma active_created base now opts :
  0 ≤ base ≤ u64_max → i64_min ≤ now ≤ i64_max →
  (opt_direct_io opts && direct_io_supported plat = true → opt_use_mmap opts = true) →
  ∃ s, create_with_options plat base now opts = Ok s ∧ active_ok s [] ∧
    base_offset s = base ∧ next_offset s = base ∧ size s = HEADER_SIZE ∧
    use_mmap s = opt_use_mmap opts ∧ direct_io s = opt_direct_io opts && direct_io_supported plat.
Proof.
  intros Hb Hn Hd.
  destruct (create_ok plat base now opts Hb Hn) as
    (s & E & I & A & Es & Hbs & Hns & _ & Hsz & _ & Hu & Hdi).
  exists s. split; [done|]. split; [|done]. split; try done.
  - rewrite Hdi, Hu. exact Hd.
  - rewrite Hbs, Hns, zlen_nil. lia.
Qed.

Lemma create_segment_ok l base now :
  config_ok (config l) → 0 ≤ base ≤ u64_max → i64_min ≤ now ≤ i64_max →
  (∀ s, s ∈ segments l → base_offset s ≠ base) →
  ∃ s, create_segment plat l base now = Ok s ∧ active_ok s [] ∧
    base_offset s = base ∧ next_offset s = base ∧ size s = HEADER_SIZE.
Proof.
  intros [_ Hd] Hb Hn Hnew. unfold create_segment.
  destruct (existsb _ _) eqn:Ex.
  { apply existsb_exists in Ex as (s & Hin & ?%Z.eqb_eq). apply list_elem_of_In in Hin.
    by destruct (Hnew s Hin). }
  destruct (active_created base now (seg_opts (config l) (cfg_direct_io (config l))) Hb Hn Hd)
    as (s & -> & A & Hbs & Hns & Hsz & Hu & _).
  rewrite set_use_mmap_id by done. by exists s.
Qed.

(** ** Rolling and appending *)

Lemma roll_ok l init a ci ca now :
  log_inv l init a ci ca → base_offset a < next_offset a → i64_min ≤ now ≤ i64_max →
  ∃ l' a' n, roll plat now l = (Ok tt, l') ∧
    log_inv l' (init ++ [a']) n (ci ++ [ca]) [] ∧ size n = HEADER_SIZE ∧
    log_next_offset l' = log_next_offset l ∧ config l' = config l ∧ group l' = group l ∧
    appends_since_flush l' = appends_since_flush l.
Proof.
  intros [Hsegs Hinit Hsl [I Es A Hum Hd] Hord Hnext Hcfg] Hlt Hnow. unfold roll.
  rewrite Hsegs, update_last_snoc.
  destruct (seal_ok a ca I A Hum) as (a' & E & I' & Es' & (Hb & _) & Hn' & _ & _).
  rewrite E. cbn [fst snd].
  pose proof (inv_base _ _ I). pose proof (inv_next _ _ I).
  pose proof (order_replace init a a' Hord Hb) as Hord'.
  destruct (create_segment_ok (set_segments l (init ++ [a'])) (log_next_offset l) now)
    as (n & -> & An & Hbn & Hnn & Hsn); [done|lia|done| |].
  { cbn. intros s [Hs| ->%list_elem_of_singleton]%elem_of_app.
    - pose proof (active_bases init a Hord s Hs). lia.
    - lia. }
  exists (set_segments (set_segments l (init ++ [a'])) ((init ++ [a']) ++ [n])), a', n.
  split; [done|]. split; [|done]. split; try done.
  - apply Forall2_app; [done|]. by constructor.
  - apply Forall_app; split; [done|]. by constructor.
  - apply order_extend; [done|lia..].
Qed.

Lemma needs_roll_last l init a sz :
  segments l = init ++ [a] →
  needs_roll sz l = (if next_offset a =? base_offset a then false
                     else segment_size (config l) <? u64_saturating_add (size a) sz).
Proof. intros Hs. unfold needs_roll. by rewrite Hs, last_snoc. Qed.

Definition message_ts (m : Message) (now : Z) : Z :=
  match msg_timestamp_ms m with Some t => t | None => now end.

(** What an append requires of its message. *)
Definition message_ts_ok (m : Message) : Prop :=
  message_ok m ∧
  match msg_timestamp_ms m with Some t => i64_min ≤ t ≤ i64_max | None => True end.

Lemma saturating_add_le a b n : u64_saturating_add a b ≤ n → n < u64_max → a + b ≤ n.
Proof. unfold u64_saturating_add. lia. Qed.

Lemma encoded_record_size_pos m : 0 ≤ encoded_record_size m.
Proof. unfold encoded_record_size. pose proof (record_body_size_min m). lia. Qed.

Lemma make_room l init a ci ca m now :
  log_inv l init a ci ca → i64_min ≤ now ≤ i64_max →
  ∃ l1 init1 a1 ci1 ca1,
  (if needs_roll (encoded_record_size m) l then roll plat now l else (Ok tt, l)) = (Ok tt, l1) ∧
  log_inv l1 init1 a1 ci1 ca1 ∧ concat ci1 ++ ca1 = concat ci ++ ca ∧ size a1 ≤ u32_max ∧
  log_next_offset l1 = log_next_offset l ∧ config l1 = config l ∧ group l1 = group l ∧
  appends_since_flush l1 = appends_since_flush l.
Proof.
  intros L Hnow.
  pose proof (li_active _ _ _ _ _ L) as [I Es A Hum Hd].
  pose proof (inv_base _ _ I). destruct (li_config _ _ _ _ _ L) as [Hss _].
  rewrite (needs_roll_last l init a) by apply (li_segs _ _ _ _ _ L).
  destruct (Z.eqb_spec (next_offset a) (base_offset a)) as [Heq|Hne].
  - exists l, init, a, ci, ca. do 3 (split; [done|]). split; [|done].
    rewrite (disk_size _ _ (inv_disk _ _ I)), zlen_content.
    destruct ca as [|x ca]; [change (zlen (records_bytes [])) with 0; unfold HEADER_SIZE, u32_max; lia|]. exfalso.
    pose proof (seg_inv_range _ _ x I ltac:(left)). lia.
  - case_if.
    + destruct (roll_ok l init a ci ca now L) as (l1 & a' & n & E & L1 & Hsn & ? & ? & ? & ?);
        [lia|done|].
      exists l1, (init ++ [a']), n, (ci ++ [ca]), []. rewrite E. split; [done|]. split; [done|].
      rewrite concat_app. cbn [concat]. rewrite !app_nil_r, Hsn.
      split; [done|]. split; [|done]. unfold HEADER_SIZE, u32_max. lia.
    + exists l, init, a, ci, ca. do 3 (split; [done|]). split; [|done].
      pose proof (saturating_add_le (size a) (encoded_record_size m) (segment_size (config l))
        ltac:(lia) ltac:(unfold u32_max, u64_max in *; lia)).
      pose proof (encoded_record_size_pos m). lia.
Qed.

Lemma append_one_ok l recs m now :
  log_rep l recs → log_next_offset l < u64_max → i64_min ≤ now ≤ i64_max → message_ts_ok m →
  let r := record_of (log_next_offset l) (message_ts m now) m in
  ∃ l', append_one plat m now l = (Ok r, l') ∧ log_rep l' (recs ++ [r]) ∧
    log_next_offset l' = log_next_offset l + 1 ∧ config l' = config l ∧ group l' = group l ∧
    appends_since_flush l' = appends_since_flush l.
Proof.
  intros (init & a & ci & ca & L & ->) Hmax Hnow [Hm Hmt] r.
  assert (Hts : i64_min ≤ message_ts m now ≤ i64_max)
    by (unfold message_ts; destruct (msg_timestamp_ms m); done).
  destruct (make_room l init a ci ca m now L Hnow) as (l1 & init1 & a1 & ci1 & ca1 & E1 & L1 & Hrecs & Hsz & Hnx & Hcf & Hgr & Hap).
  destruct (active_append a1 ca1 m (message_ts m now)) as (a' & E & Aa' & Hb' & Hn');
    [apply (li_active _ _ _ _ _ L1)|by rewrite (li_next _ _ _ _ _ L1), Hnx|done..|].
  rewrite (li_next _ _ _ _ _ L1), Hnx in E, Aa', Hn'. fold r in E, Aa'.
  exists (set_log_next (set_segments l1 (init1 ++ [a'])) (offset_next (log_next_offset l))).
  pose proof (inv_base _ _ (act_inv _ _ (li_active _ _ _ _ _ L1))) as Hb0.
  rewrite (li_next _ _ _ _ _ L1), Hnx in Hb0.
  split; [|split; [|split; [apply offset_next_small; lia|done]]].
  - unfold append_one. rewrite E1. cbn [bind_st].
    rewrite (li_segs _ _ _ _ _ L1), update_last_snoc, Hnx. unfold message_ts in E.
    by rewrite E.
  - exists init1, a', ci1, (ca1 ++ [r]). split; [|by rewrite app_assoc, Hrecs].
    destruct L1 as [? ? ? Ha1 Ho1 ? ?]. split; try done.
    + by eapply order_replace.
    + cbn [log_next_offset set_log_next]. rewrite Hn', offset_next_small; lia.
Qed.

(** ** Flushing and group commit *)

(** Every record is in the files, in the format a reopen reads. *)
Definition on_file (s : Segment) (c : list LogRecord) : Prop :=
  ztake (size s) (log_bytes s) = content (base_offset s) (created_at_ms s) c.

Definition log_on_file (l : PartitionLog) (recs : list LogRecord) : Prop :=
  ∃ cs, Forall2 on_file (segments l) cs ∧ recs = concat cs.

(** No flush is in progress and the generation counter has room. *)
Definition group_ok (g : GroupCommit) : Prop :=
  has_leader (state g) = false ∧ 0 ≤ flush_gen (state g) < u64_max.

Lemma sealed_on_file s c : seg_inv s c → sealed s = true → on_file s c.
Proof.
  intros I Hs. pose proof (inv_disk _ _ I) as D. destruct (disk_sealed _ _ D Hs) as [Hl _].
  unfold on_file. rewrite Hl, (disk_size _ _ D). apply ztake_ge. lia.
Qed.

Lemma init_on_file init ci :
  Forall2 seg_inv init ci → Forall (λ s, sealed s = true) init → Forall2 on_file init ci.
Proof.
  induction 1 as [|s c init ci I HF IH]; intros Hs; [done|].
  inversion Hs; subst. constructor; [by apply sealed_on_file|by apply IH].
Qed.

Lemma active_flush a ca :
  active_ok a ca → ∃ a', Segment.flush a = (Ok tt, a') ∧ active_ok a' ca ∧ on_file a' ca ∧
    base_offset a' = base_offset a ∧ next_offset a' = next_offset a ∧ size a' = size a.
Proof.
  intros [I Es A Hum Hd].
  destruct (flush_ok a ca I A Es) as (ph & pe & lo & E & D & A' & Hf).
  eexists. split; [exact E|]. split; [|done]. split; try done.
  by apply seg_inv_set_file.
Qed.

Lemma flush_log_ok l recs :
  log_rep l recs →
  ∃ l', flush l = (Ok tt, l') ∧ log_rep l' recs ∧ log_on_file l' recs ∧
    config l' = config l ∧ log_next_offset l' = log_next_offset l ∧
    appends_since_flush l' = 0 ∧
    group l' = notify_flushed (appends_since_flush l) (group l).
Proof.
  intros (init & a & ci & ca & L & ->).
  destruct (active_flush a ca (li_active _ _ _ _ _ L)) as (a' & E & Aa' & Hf & Hb & Hn & _).
  unfold flush. rewrite (li_segs _ _ _ _ _ L), update_last_snoc, E. cbn [fst snd bind_st].
  eexists. split; [done|]. split; [|split; [|done]].
  - exists init, a', ci, ca. split; [|done]. destruct L. split; try done.
    + by eapply order_replace.
    + cbn. congruence.
  - exists (ci ++ [ca]). split; [|rewrite concat_app; simpl; by rewrite app_nil_r].
    apply Forall2_app; [|by constructor].
    apply init_on_file; [apply (li_init _ _ _ _ _ L)|apply (li_sealed _ _ _ _ _ L)].
Qed.

Lemma log_rep_same l l' recs :
  log_rep l recs → segments l' = segments l → config l' = config l →
  log_next_offset l' = log_next_offset l → log_rep l' recs.
Proof.
  intros (init & a & ci & ca & L & ->) Hs Hc Hn. exists init, a, ci, ca. split; [|done].
  destruct L. split; congruence.
Qed.

Lemma log_on_file_same l l' recs :
  log_on_file l recs → segments l' = segments l → log_on_file l' recs.
Proof. intros (cs & HF & ->) Hs. exists cs. by rewrite Hs. Qed.

Lemma await_group_commit_ok l recs now :
  log_rep l recs → group_ok (group l) → group_commit_enabled l = true →
  ∃ l', await_group_commit now l = (Ok tt, l') ∧ log_rep l' recs ∧ log_on_file l' recs ∧
    config l' = config l ∧ log_next_offset l' = log_next_offset l ∧
    flush_gen (state (group l')) = flush_gen (state (group l)) + 1 ∧
    has_leader (state (group l')) = false.
Proof.
  intros R [Hnl Hgen] Hen. unfold await_group_commit. rewrite Hen. cbn [negb].
  unfold wait_or_lead_alone, register_waiter, already_done.
  cbn -[Z.ltb u64_saturating_add flush]. rewrite Hnl, Z.ltb_irrefl.
  match goal with |- context [flush ?x] =>
    destruct (flush_log_ok x recs) as (l1 & E & R1 & F1 & Hc & Hn & _ & Hg);
      [by eapply log_rep_same|]
  end.
  rewrite E, Hg. cbn -[Z.ltb u64_saturating_add u64_wrapping_add].
  rewrite u64_wrapping_add_small by lia.
  rewrite Zltb_true by lia. cbn -[Z.add].
  eexists. split; [done|]. split; [by eapply log_rep_same|].
  split; [by eapply log_on_file_same|]. done.
Qed.

(** What the flush policy of the configuration promises after an append. *)
Definition policy_met (wait_group : bool) (l : PartitionLog) (recs : list LogRecord) : Prop :=
  (group_commit_enabled l = true → wait_group = true → log_on_file l recs) ∧
  (group_commit_enabled l = false → 0 < flush_every_n (config l) →
   log_on_file l recs ∨ appends_since_flush l < flush_every_n (config l)).

Lemma finish_append_ok l recs n w now :
  log_rep l recs → group_ok (group l) →
  ∃ l', finish_append n w now l = (Ok tt, l') ∧ log_rep l' recs ∧ policy_met w l' recs ∧
    config l' = config l ∧ log_next_offset l' = log_next_offset l.
Proof.
  intros R G. unfold finish_append, policy_met.
  set (l0 := set_appends _ _). assert (R0 : log_rep l0 recs) by by eapply log_rep_same.
  unfold group_commit_enabled at 1 3. change (config l0) with (config l).
  destruct (config_group_commit_enabled (config l)) eqn:Hen.
  - set (l1 := set_group _ _). assert (R1 : log_rep l1 recs) by by eapply log_rep_same.
    destruct w.
    + destruct (await_group_commit_ok l1 recs now) as (l' & E & R' & F & Hc & Hn & _); try done.
      { unfold group_ok, l1, add_pending. cbn. by destruct (n =? 0). }
      exists l'. split; [done|]. split; [done|]. unfold group_commit_enabled. rewrite Hc.
      by change (config l1) with (config l); rewrite Hen.
    + exists l1. split; [done|]. split; [done|]. unfold group_commit_enabled.
      change (config l1) with (config l). by rewrite Hen.
  - destruct (_ && _) eqn:Hf.
    + destruct (flush_log_ok l0 recs R0) as (l' & E & R' & F & Hc & Hn & _).
      exists l'. split; [done|]. split; [done|]. unfold group_commit_enabled. rewrite Hc.
      change (config l0) with (config l). rewrite Hen. split; [|done]. split; [done|by left].
    + exists l0. split; [done|]. split; [done|]. unfold group_commit_enabled.
      change (config l0) with (config l). rewrite Hen. split; [|done]. split; [done|].
      intros Hfl. right. rewrite Zltb_true in Hf by done. cbn [andb] in Hf. lia.
Qed.

(** The records a batch becomes. *)
Fixpoint batch_records (next now : Z) (ms : list Message) : list LogRecord :=
  match ms with
  | [] => []
  | m :: ms => record_of next (message_ts m now) m :: batch_records (next + 1) now ms
  end.

Lemma append_each_ok ms : ∀ l recs now,
  log_rep l recs → log_next_offset l + zlen ms ≤ u64_max → i64_min ≤ now ≤ i64_max →
  Forall message_ts_ok ms →
  ∃ l', append_each plat ms now l = (Ok (batch_records (log_next_offset l) now ms), l') ∧
    log_rep l' (recs ++ batch_records (log_next_offset l) now ms) ∧
    log_next_offset l' = log_next_offset l + zlen ms ∧ config l' = config l ∧ group l' = group l.
Proof.
  induction ms as [|m ms IH]; intros l recs now R Hmax Hnow HF.
  - exists l. cbn [append_each batch_records]. rewrite app_nil_r, zlen_nil, Z.add_0_r. done.
  - apply Forall_cons in HF as [Hm HF]. rewrite zlen_cons in *. pose proof (zlen_nonneg ms).
    destruct (append_one_ok l recs m now R) as (l1 & E1 & R1 & Hn1 & Hc1 & Hg1 & _); [lia|done..|].
    destruct (IH l1 _ now R1) as (l' & E & R' & Hn & Hc & Hg); [lia|done..|].
    exists l'. cbn [append_each batch_records]. rewrite E1. cbn [bind_st]. rewrite E. cbn [bind_st].
    rewrite Hn1 in R', Hn |- *. split; [done|]. rewrite <- app_assoc in R'. split; [exact R'|].
    split; [lia|]. split; congruence.
Qed.

Lemma zlen_batch_records next now ms : zlen (batch_records next now ms) = zlen ms.
Proof.
  revert next. induction ms as [|m ms IH]; intros next; [done|].
  cbn [batch_records]. by rewrite !zlen_cons, IH.
Qed.

Lemma append_batch_inner_ok l recs ms w now :
  log_rep l recs → group_ok (group l) → log_next_offset l + zlen ms ≤ u64_max →
  i64_min ≤ now ≤ i64_max → Forall message_ts_ok ms →
  let rs := batch_records (log_next_offset l) now ms in
  ∃ l', append_batch_inner plat ms w now l = (Ok rs, l') ∧ log_rep l' (recs ++ rs) ∧
    log_next_offset l' = log_next_offset l + zlen ms ∧ config l' = config l ∧
    (ms ≠ [] → policy_met w l' (recs ++ rs)).
Proof.
  intros R G Hmax Hnow HF rs.
  destruct (append_each_ok ms l recs now R Hmax Hnow HF) as (l1 & E1 & R1 & Hn1 & Hc1 & Hg1).
  unfold append_batch_inner. rewrite E1. cbn [bind_st]. fold rs in R1 |- *.
  case_bool_decide as Hnil.
  - exists l1. split; [done|]. split; [done|]. split; [done|]. split; [done|].
    intros Hms. destruct ms; [done|]. discriminate Hnil.
  - destruct (finish_append_ok l1 _ (zlen rs) w now R1) as (l' & E & R' & P & Hc & Hn);
      [by rewrite Hg1|].
    exists l'. rewrite E. cbn [bind_st]. split; [done|]. split; [done|].
    split; [congruence|]. split; [congruence|done].
Qed.

(** ** Reading *)

Lemma take_limited_unbounded mm n acc recs :
  take_limited mm usize_max n acc recs = take (Z.to_nat (mm - n)) recs.
Proof.
  revert n acc. induction recs as [|r recs IH]; intros n acc; cbn [take_limited].
  - by rewrite take_nil.
  - destruct (Z.ltb_spec n mm).
    + rewrite Z.eqb_refl, andb_false_r. cbn [andb]. rewrite IH.
      replace (Z.to_nat (mm - n)) with (S (Z.to_nat (mm - (n + 1)))) by lia. done.
    + by replace (Z.to_nat (mm - n)) with O by lia.
Qed.

Lemma filter_from_start from start (c : list LogRecord) :
  Forall (λ r, start ≤ rec_offset r) c → from < start →
  filter (λ r, start ≤ rec_offset r) c = filter (λ r, from ≤ rec_offset r) c.
Proof.
  intros HF Hlt. induction HF as [|r c Hr HF IH]; [done|].
  rewrite !filter_cons, !decide_True by lia. by rewrite IH.
Qed.

Lemma read_segments_ok segs cs from mm out acc :
  Forall2 seg_inv segs cs → zlen out ≤ mm →
  read_segments segs from mm usize_max out acc =
    Ok (out ++ take (Z.to_nat (mm - zlen out)) (filter (λ r, from ≤ rec_offset r) (concat cs))).
Proof.
  intros HF. revert out acc. induction HF as [|s c segs cs I HF IH]; intros out acc Hout.
  - cbn. by rewrite take_nil, app_nil_r.
  - cbn [read_segments concat]. rewrite filter_app.
    destruct (Z.leb_spec (next_offset s) from) as [Hn|Hn].
    { rewrite IH by done. rewrite (filter_none_below rec_offset c), app_nil_l; [done|].
      eapply Forall_impl; [apply (inv_hi _ _ I)|]. cbn. lia. }
    destruct (Z.leb_spec mm (zlen out)).
    { replace (Z.to_nat (mm - zlen out)) with O by lia. by rewrite app_nil_r. }
    rewrite Z.eqb_refl. cbn [negb andb].
    rewrite (read_from_spec s c) by done. rewrite Zeqb_false by lia.
    set (f := filter _ c).
    assert (Hf : f = filter (λ r, from ≤ rec_offset r) c).
    { unfold f. destruct (Z.ltb_spec from (base_offset s)); [|done].
      apply filter_from_start; [apply (inv_lo _ _ I)|done]. }
    rewrite take_limited_unbounded, Z.sub_0_r, IH, <- app_assoc, Hf.
    + do 2 f_equal. rewrite take_app. f_equal. f_equal.
      rewrite zlen_app. unfold zlen. rewrite length_take. lia.
    + rewrite zlen_app. unfold zlen. rewrite length_take. unfold zlen in *. lia.
Qed.

Lemma log_offsets l recs :
  log_rep l recs →
  Forall (λ r, log_start_offset l ≤ rec_offset r < log_next_offset l) recs ∧
  0 ≤ log_start_offset l ≤ log_next_offset l ∧ log_next_offset l ≤ u64_max.
Proof.
  intros (init & a & ci & ca & L & ->). rewrite <- (li_next _ _ _ _ _ L).
  assert (Hst : ∀ s, s ∈ segments l → log_start_offset l ≤ base_offset s ∧
                                       next_offset s ≤ next_offset a).
  { intros s Hs. pose proof (li_order _ _ _ _ _ L) as Ho.
    rewrite <- (li_segs _ _ _ _ _ L) in Ho. split.
    - unfold log_start_offset. destruct (segments l) as [|s0 segs]; [by apply not_elem_of_nil in Hs|].
      apply elem_of_cons in Hs as [->|Hs]; [lia|].
      inversion Ho as [|? ? _ Hall]; subst. rewrite Forall_forall in Hall.
      destruct (Hall s Hs). lia.
    - rewrite (li_segs _ _ _ _ _ L) in Hs, Ho.
      apply elem_of_app in Hs as [Hs| ->%list_elem_of_singleton]; [|lia].
      apply StronglySorted_app in Ho as (H1 & _ & _).
      destruct (H1 s a Hs ltac:(left)). pose proof (inv_base _ _ (act_inv _ _ (li_active _ _ _ _ _ L))).
      lia. }
  split; [|split].
  - replace (concat ci ++ ca) with (concat (ci ++ [ca]))
      by (rewrite concat_app; simpl; by rewrite app_nil_r).
    rewrite Forall_forall. intros r Hr. apply list_elem_of_In, in_concat in Hr as (c & Hc & Hr).
    apply list_elem_of_In in Hc, Hr. apply list_elem_of_lookup in Hc as [i Hi].
    destruct (Forall2_lookup_r _ _ _ _ _ (log_inv_all _ _ _ _ _ L) Hi) as (s & Hs & I).
    apply list_elem_of_lookup_2 in Hs. pose proof (Hst s Hs). pose proof (seg_inv_range _ _ _ I Hr). lia.
  - assert (Ha : a ∈ segments l) by (rewrite (li_segs _ _ _ _ _ L); apply elem_of_app; right; left).
    pose proof (Hst a Ha). pose proof (inv_base _ _ (act_inv _ _ (li_active _ _ _ _ _ L))).
    split; [|lia]. unfold log_start_offset.
    pose proof (log_inv_all _ _ _ _ _ L) as HF. destruct HF as [|s0 ? ? ? I0 _]; [lia|].
    pose proof (inv_base _ _ I0). lia.
  - apply (inv_next _ _ (act_inv _ _ (li_active _ _ _ _ _ L))).
Qed.

Lemma read_ok l recs from mm :
  log_rep l recs → 0 ≤ mm →
  read from mm l = Ok (take (Z.to_nat mm) (filter (λ r, from ≤ rec_offset r) recs)).
Proof.
  intros R Hmm. destruct (log_offsets l recs R) as (HF & Hlo & Hhi). unfold read, read_bytes.
  set (from' := if from <? log_start_offset l then _ else _).
  assert (Hfl : filter (λ r, from' ≤ rec_offset r) recs = filter (λ r, from ≤ rec_offset r) recs).
  { unfold from'. destruct (Z.ltb_spec from (log_start_offset l)); [|done].
    apply filter_from_start; [|done]. eapply Forall_impl; [exact HF|]. cbn. lia. }
  destruct (Z.leb_spec (high_watermark l) from') as [Hh|Hh]; cbn [orb].
  { rewrite <- Hfl, filter_none_below, take_nil; [done|].
    eapply Forall_impl; [exact HF|]. unfold high_watermark in Hh. cbn. lia. }
  destruct (Z.eqb_spec mm 0) as [->|]; [done|].
  destruct R as (init & a & ci & ca & L & ->).
  rewrite (read_segments_ok _ _ _ _ _ _ (log_inv_all _ _ _ _ _ L)) by (rewrite zlen_nil; lia).
  rewrite concat_app, zlen_nil, Z.sub_0_r. cbn [concat]. rewrite app_nil_r. cbn [app].
  by rewrite Hfl.
Qed.

(** ** Replication *)

(** Records numbered from [next] on. *)
Fixpoint consecutive (next : Z) (rs : list LogRecord) : Prop :=
  match rs with
  | [] => True
  | r :: rs => rec_offset r = next ∧ consecutive (next + 1) rs
  end.

Lemma append_with_offset_ok l recs r now :
  log_rep l recs → record_ok r → rec_offset r = log_next_offset l → rec_offset r < u64_max →
  i64_min ≤ now ≤ i64_max →
  ∃ l', append_with_offset plat (rec_offset r) (message_of r) now l = (Ok r, l') ∧
    log_rep l' (recs ++ [r]) ∧ log_next_offset l' = log_next_offset l + 1.
Proof.
  intros R (Ho & Ht & Hm) Hoff Hmax Hnow. unfold append_with_offset.
  rewrite Hoff, Z.eqb_refl. cbn [negb].
  destruct (append_one_ok l recs (message_of r) now R) as (l1 & E & R1 & Hn1 & _);
    [lia|done|done|].
  change (message_ts (message_of r) now) with (rec_timestamp_ms r) in E, R1.
  rewrite <- Hoff, record_of_message_of in E, R1. rewrite E. cbn [bind_st].
  set (l2 := set_appends _ _). assert (R2 : log_rep l2 (recs ++ [r])) by by eapply log_rep_same.
  destruct (group_commit_enabled l2).
  - eexists. split; [done|]. split; [by eapply log_rep_same|done].
  - destruct (_ && _); [|by exists l2].
    destruct (flush_log_ok l2 _ R2) as (l' & -> & R' & _ & _ & Hn' & _).
    exists l'. split; [done|]. split; [done|]. by rewrite Hn'.
Qed.

Lemma append_records_ok rs : ∀ l recs now,
  log_rep l recs → Forall record_ok rs → consecutive (log_next_offset l) rs →
  log_next_offset l + zlen rs ≤ u64_max → i64_min ≤ now ≤ i64_max →
  ∃ l', append_records_with_offsets plat rs now l = (Ok rs, l') ∧ log_rep l' (recs ++ rs) ∧
    log_next_offset l' = log_next_offset l + zlen rs.
Proof.
  induction rs as [|r rs IH]; intros l recs now R HF Hc Hmax Hnow.
  - exists l. rewrite app_nil_r, zlen_nil, Z.add_0_r. done.
  - apply Forall_cons in HF as [Hr HF]. destruct Hc as [Hoff Hc]. rewrite zlen_cons in Hmax |- *.
    pose proof (zlen_nonneg rs).
    destruct (append_with_offset_ok l recs r now R Hr Hoff) as (l1 & E & R1 & Hn); [lia|done|].
    rewrite <- Hn in Hc.
    destruct (IH l1 _ now R1 HF Hc) as (l' & E' & R' & Hn'); [lia|done|].
    exists l'. cbn [append_records_with_offsets]. rewrite E. cbn [bind_st]. rewrite E'. cbn [bind_st].
    rewrite <- app_assoc in R'. split; [done|]. split; [done|lia].
Qed.

(** ** A new log *)

Lemma open_empty_ok c now :
  config_ok c → i64_min ≤ now ≤ i64_max →
  ∃ l, open plat c [] now = Ok l ∧ log_rep l [] ∧ group_ok (group l) ∧ config l = c ∧
    log_next_offset l = 0 ∧
    (cfg_direct_io c = false → Forall (λ s, direct_io s = false) (segments l)).
Proof.
  intros Hc Hnow. pose proof Hc as [_ Hd]. unfold open.
  destruct (active_created 0 now (seg_opts c (cfg_direct_io c))) as
    (s & E & A & Hbs & Hns & Hsz & Hu & Hdi); [done|done|done|].
  rewrite E, set_use_mmap_id by done.
  eexists. split; [done|]. split; [|split; [split; [done|cbn; unfold u64_max; lia]|]].
  - exists [], s, [], []. split; [|done]. split; try done. by repeat constructor.
  - split; [done|]. split; [done|]. intros Hcd. constructor; [|done]. rewrite Hdi. cbn. by rewrite Hcd.
Qed.

End log.

(** ** Properties *)

Section properties.
Context `{Crc32} (plat : Platform).

(** C2: appending a message to a log succeeds and adds exactly one record at
    the end: its offset is the high watermark, which advances by one, its
    timestamp is the one of the message or the clock, every record already
    there stays (also when the active segment is full and the log rolls to a
    new one), and the flush policy is met: with group commit on, the record is
    on file when the call returns. *)
Theorem append_extends l recs m now :
  log_rep plat l recs → group_ok (group l) → log_next_offset l < u64_max →
  i64_min ≤ now ≤ i64_max → message_ts_ok m →
  let r := record_of (log_next_offset l) (message_ts m now) m in
  ∃ l', PartitionLog.append plat m now l = (Ok r, l') ∧ log_rep plat l' (recs ++ [r]) ∧
    high_watermark l' = high_watermark l + 1 ∧ policy_met true l' (recs ++ [r]).
Proof.
  intros R G Hmax Hnow Hm r.
  destruct (append_one_ok plat l recs m now R Hmax Hnow Hm) as (l1 & E1 & R1 & Hn1 & _ & Hg & _).
  destruct (finish_append_ok plat l1 _ 1 true now R1) as (l' & E & R' & P & _ & Hn); [by rewrite Hg|].
  exists l'. unfold PartitionLog.append. rewrite E1. cbn [bind_st]. rewrite E.
  split; [done|]. split; [done|]. split; [unfold high_watermark; lia|done].
Qed.

(** A batch is appended as a whole: the records returned have consecutive
    offsets from the old high watermark, in the order of the messages, and
    they are the new end of the log; a non-empty batch meets the flush policy
    once for the batch. *)
Theorem append_batch_consecutive l recs ms now :
  log_rep plat l recs → group_ok (group l) → log_next_offset l + zlen ms ≤ u64_max →
  i64_min ≤ now ≤ i64_max → Forall message_ts_ok ms →
  let rs := batch_records (log_next_offset l) now ms in
  ∃ l', append_batch plat ms now l = (Ok rs, l') ∧ log_rep plat l' (recs ++ rs) ∧
    high_watermark l' = high_watermark l + zlen ms ∧
    (ms ≠ [] → policy_met true l' (recs ++ rs)).
Proof.
  intros R G Hmax Hnow HF rs.
  destruct (append_batch_inner_ok plat l recs ms true now R G Hmax Hnow HF)
    as (l' & E & R' & Hn & _ & P). by exists l'.
Qed.

(** C3: a read from any offset returns the first records of the log at or
    after it, in offset order, at most [max_messages] of them, across all
    segments, with the sparse index and the memory maps giving the same
    answer as a scan of the whole log. *)
Theorem read_is_filter l recs from mm :
  log_rep plat l recs → 0 ≤ mm →
  read from mm l = Ok (take (Z.to_nat mm) (filter (λ r, from ≤ rec_offset r) recs)) ∧
  StronglySorted off_lt recs.
Proof. intros R Hmm. split; [by apply (read_ok plat)|by eapply log_rep_sorted]. Qed.

(** Replication copies: a follower whose log ends where the leader's
    records start stores exactly those records, offsets and timestamps
    included, and a record that is not next in line is refused without any
    change to the log. *)
Theorem replication_copies l recs rs now :
  log_rep plat l recs → Forall record_ok rs → consecutive (log_next_offset l) rs →
  log_next_offset l + zlen rs ≤ u64_max → i64_min ≤ now ≤ i64_max →
  (∃ l', append_records_with_offsets plat rs now l = (Ok rs, l') ∧ log_rep plat l' (recs ++ rs)) ∧
  (∀ off m, off ≠ log_next_offset l → ∃ e, append_with_offset plat off m now l = (Err e, l)).
Proof.
  intros R HF Hc Hmax Hnow. split.
  - destruct (append_records_ok plat rs l recs now R HF Hc Hmax Hnow) as (l' & E & R' & _). eauto.
  - intros off m Hne. unfold append_with_offset. rewrite Zeqb_false by done. eauto.
Qed.

End properties.

(** ** Witnesses: a new log on a machine without direct I/O *)

Definition demo_plat : Platform := mkPlatform false false.

(** Group commit on: every append waits for its flush. *)
Definition demo_config : StorageConfig :=
  mkStorageConfig 1048576 true 0 5 0 4096 None None false false.

Definition demo_messages : list Message :=
  [mkMessage (Some [x61]) [x01] (Some 10) []; mkMessage None [x02] None [];
   mkMessage (Some [x61]) [x03] (Some 30) []].

Definition demo_records : list LogRecord := batch_records 0 20 demo_messages.

Ltac range := vm_compute; split; discriminate.

Lemma demo_open_with c :
  config_ok demo_plat c → cfg_direct_io c = false →
  ∃ l, open (H := crc_sum32) demo_plat c [] 0 = Ok l ∧
    log_rep (H := crc_sum32) demo_plat l [] ∧ group_ok (group l) ∧ config l = c ∧
    log_next_offset l = 0 ∧ Forall (λ s, direct_io s = false) (segments l).
Proof.
  intros Hc Hd.
  destruct (open_empty_ok (H := crc_sum32) demo_plat c 0 Hc) as (l & E & R & G & C & N & D); [range|].
  exists l. do 5 (split; [done|]). by apply D.
Qed.

Lemma demo_open :
  ∃ l, open (H := crc_sum32) demo_plat demo_config [] 0 = Ok l ∧
    log_rep (H := crc_sum32) demo_plat l [] ∧ group_ok (group l) ∧ config l = demo_config ∧
    log_next_offset l = 0 ∧ Forall (λ s, direct_io s = false) (segments l).
Proof. apply demo_open_with; [split; [range|done]|done]. Qed.

Lemma demo_messages_ok : Forall message_ts_ok demo_messages.
Proof.
  unfold demo_messages. repeat (constructor; [split; [apply (bool_decide_unpack _); vm_compute; exact I|]|]);
    [range|exact I|range|constructor].
Qed.

Lemma demo_log_with c :
  config_ok demo_plat c → cfg_direct_io c = false →
  ∃ l, log_rep (H := crc_sum32) demo_plat l demo_records ∧ config l = c ∧ log_next_offset l = 3.
Proof.
  intros Hc Hd. destruct (demo_open_with c Hc Hd) as (l & _ & R & G & C & N & _).
  destruct (append_batch_inner_ok (H := crc_sum32) demo_plat l [] demo_messages true 20 R G)
    as (l' & E & R' & N' & C' & _); [rewrite N; vm_compute; discriminate|range|exact demo_messages_ok|].
  rewrite N in R', N'. exists l'. split; [exact R'|]. split; [congruence|exact N'].
Qed.

Lemma demo_log :
  ∃ l, log_rep (H := crc_sum32) demo_plat l demo_records ∧ config l = demo_config ∧
    log_next_offset l = 3.
Proof. apply demo_log_with; [split; [range|done]|done]. Qed.

(** Segments of one record each: every append after the first rolls. *)
Lemma demo_rolled_log :
  ∃ l, log_rep (H := crc_sum32) demo_plat l demo_records ∧ log_next_offset l = 3.
Proof.
  destruct (demo_log_with (mkStorageConfig 32 true 0 0 0 4096 None (Some 100) true false))
    as (l & R & _ & N); [split; [range|done]|done|]. by exists l.
Qed.

Lemma append_extends_witness :
  ∃ l l', PartitionLog.append (H := crc_sum32) demo_plat sample_message 5 l =
    (Ok (record_of 0 123 sample_message), l').
Proof.
  destruct demo_open as (l & _ & R & G & _ & N & _). exists l.
  destruct (append_extends (H := crc_sum32) demo_plat l [] sample_message 5 R G) as (l' & E & _).
  - rewrite N. reflexivity.
  - range.
  - split; [apply (bool_decide_unpack _); vm_compute; exact I|range].
  - exists l'. rewrite N in E. exact E.
Defined.

Lemma append_batch_consecutive_witness :
  ∃ l l', append_batch (H := crc_sum32) demo_plat demo_messages 20 l = (Ok demo_records, l').
Proof.
  destruct demo_open as (l & _ & R & G & _ & N & _). exists l.
  destruct (append_batch_consecutive (H := crc_sum32) demo_plat l [] demo_messages 20 R G)
    as (l' & E & _).
  - rewrite N. vm_compute. discriminate.
  - range.
  - exact demo_messages_ok.
  - exists l'. rewrite N in E. exact E.
Defined.

Lemma read_is_filter_witness :
  ∃ l r, read (H := crc_sum32) 2 10 l = Ok [r] ∧ rec_value r = [x03].
Proof.
  destruct demo_log as (l & R & _). exists l.
  destruct (read_is_filter (H := crc_sum32) demo_plat l demo_records 2 10 R) as [E _]; [discriminate|].
  eexists. split; [exact E|reflexivity].
Defined.

Lemma replication_copies_witness :
  ∃ l l', append_records_with_offsets (H := crc_sum32) demo_plat demo_records 0 l =
    (Ok demo_records, l').
Proof.
  destruct demo_open as (l & _ & R & _ & _ & N & _). exists l.
  destruct (replication_copies (H := crc_sum32) demo_plat l [] demo_records 0 R) as [(l' & E & _) _].
  - repeat (constructor; [apply (bool_decide_unpack _); vm_compute; exact I|]). constructor.
  - rewrite N. vm_compute. auto.
  - rewrite N. vm_compute. discriminate.
  - range.
  - exists l'. exact E.
Defined.

(** ** A byte limit can skip records *)

(** Two records in the first segment, the third in the second. *)
Definition skip_config : StorageConfig :=
  mkStorageConfig 110 true 0 0 0 4096 None None false false.

Definition skip_messages : list Message :=
  [from_value [x01]; from_value [x02]; from_value [x03]].

(** A read with a byte limit can skip records: when a segment read stops at
    the limit while the log's own approximate count is still below it, the
    loop goes on to the next segment, which always returns its first record,
    so the result jumps over the rest of the earlier segment. *)
Theorem byte_limit_skips_records :
  ∃ l0 l r0 r1 r2,
    open (H := crc_sum32) demo_plat skip_config [] 0 = Ok l0 ∧
    append_batch (H := crc_sum32) demo_plat skip_messages 0 l0 = (Ok [r0; r1; r2], l) ∧
    read (H := crc_sum32) 0 10 l = Ok [r0; r1; r2] ∧
    read_bytes (H := crc_sum32) 0 10 70 l = Ok [r0; r2].
Proof.
  eexists _, _, _, _, _. split; [vm_compute; reflexivity|].
  split; [vm_compute; reflexivity|]. split; vm_compute; reflexivity.
Qed.
