(* ===== verification/LogRetention.v ===== *)
(** * Deletion, retention, compaction and reopening of the partition log

    [delete_records] and retention by time or size remove whole leading
    segments; compaction rewrites the sealed segments to the latest record of
    each key.  The reference for compaction is [latest_only].  Opening the
    files that a crash left gives back what had been flushed. *)

From S2P Require Import Prelude Bytes Core Record SparseIndex Segment SegmentProps GroupCommit PartitionLog PartitionLogProps.

Section retention.
Context `{Crc32} (plat : Platform).

(** ** Deletion and retention *)

Lemma keep_from_dropped segs before :
  Forall (λ s, next_offset s ≤ before) (take (keep_from segs before) segs) ∧
  (keep_from segs before ≤ length segs)%nat.
Proof.
  induction segs as [|s segs [IH1 IH2]]; cbn [keep_from]; [done|].
  destruct (Z.leb_spec (next_offset s) before); cbn; [|split; [constructor|lia]].
  split; [by constructor|lia].
Qed.

Lemma keep_from_first segs before s rest :
  drop (keep_from segs before) segs = s :: rest → before < next_offset s.
Proof.
  induction segs as [|s' segs IH]; cbn [keep_from]; [done|].
  destruct (Z.leb_spec (next_offset s') before); cbn; [apply IH|]. by intros [= <- <-].
Qed.

Lemma Forall_concat {A} (P : A → Prop) (ls : list (list A)) :
  Forall (Forall P) ls → Forall P (concat ls).
Proof. induction 1; simpl; [constructor|]. by apply Forall_app. Qed.

Lemma dropped_below init ci before :
  Forall2 seg_inv init ci → Forall (λ s, next_offset s ≤ before) init →
  Forall (λ r, rec_offset r < before) (concat ci).
Proof.
  intros HF Hb. apply Forall_concat. induction HF as [|s c init ci I HF IH]; [constructor|].
  apply Forall_cons in Hb as [Hs Hb]. constructor; [|by apply IH].
  eapply Forall_impl; [apply (inv_hi _ _ I)|]. cbn. lia.
Qed.

(** Records leave the log only from its front. *)
Definition trimmed (l l' : PartitionLog) (recs recs' : list LogRecord) : Prop :=
  log_rep plat l' recs' ∧ recs' `suffix_of` recs ∧ config l' = config l ∧
  log_next_offset l' = log_next_offset l.

Lemma trimmed_refl l recs : log_rep plat l recs → trimmed l l recs recs.
Proof. done. Qed.

Lemma trimmed_trans l1 l2 l3 r1 r2 r3 :
  trimmed l1 l2 r1 r2 → trimmed l2 l3 r2 r3 → trimmed l1 l3 r1 r3.
Proof.
  intros (_ & S1 & C1 & N1) (R2 & S2 & C2 & N2). split; [done|].
  split; [by etrans|]. split; congruence.
Qed.

Lemma drop_init_inv l init a ci ca n :
  log_inv plat l init a ci ca → (n ≤ length init)%nat →
  log_inv plat (set_segments l (drop n (segments l))) (drop n init) a (drop n ci) ca.
Proof.
  intros [Hs HF Hsl Ha Ho Hn Hc] Hle. split; try done.
  - cbn. rewrite Hs. by rewrite drop_app_le.
  - by apply Forall2_drop.
  - by apply Forall_drop.
  - rewrite <- drop_app_le by done.
    rewrite <- (take_drop n (init ++ [a])) in Ho. by apply StronglySorted_app in Ho as (_ & _ & ?).
Qed.

Lemma fresh_log l now :
  config_ok plat (config l) → 0 ≤ log_next_offset l ≤ u64_max → i64_min ≤ now ≤ i64_max →
  segments l = [] →
  ∃ s, create_segment plat l (log_next_offset l) now = Ok s ∧ log_rep plat (set_segments l [s]) [].
Proof.
  intros Hc Hn Hnow Hs.
  destruct (create_segment_ok plat l (log_next_offset l) now) as (s & E & A & Hb & Hns & _); try done.
  { intros s. rewrite Hs. by intros ?%not_elem_of_nil. }
  exists s. split; [done|]. exists [], s, [], []. split; [|done]. split; try done.
  by repeat constructor.
Qed.


Lemma delete_records_ok l recs before now :
  log_rep plat l recs → i64_min ≤ now ≤ i64_max →
  ∃ l' recs', delete_records plat before now l = (Ok (log_start_offset l'), l') ∧
    trimmed l l' recs recs' ∧
    filter (λ r, before ≤ rec_offset r) recs' = filter (λ r, before ≤ rec_offset r) recs ∧
    (length (segments l') ≤ Nat.max 1 (length (segments l) - keep_from (segments l) before))%nat ∧
    (keep_from (segments l) before ≠ O → length (segments l) ≠ 1%nat →
     length (segments l') < length (segments l))%nat.
Proof.
  intros R Hnow. destruct (log_offsets plat l recs R) as (_ & Hlo & Hhi).
  destruct R as (init & a & ci & ca & L & ->).
  unfold delete_records. set (n := keep_from _ _).
  destruct (keep_from_dropped (segments l) before) as [Hdr Hle]. fold n in Hdr, Hle.
  assert (Hlen : length (segments l) = S (length init))
    by (rewrite (li_segs _ _ _ _ _ _ L), length_app; cbn; lia).
  destruct (Nat.eqb_spec n 0) as [Hn0|Hn0].
  { exists l, (concat ci ++ ca). split; [done|]. split; [by apply trimmed_refl; exists init, a, ci, ca|].
    split; [done|]. split; [lia|done]. }
  destruct (decide (n ≤ length init)%nat) as [Hni|Hni].
  - pose proof (drop_init_inv l init a ci ca n L Hni) as L'.
    assert (Hne : segments (set_segments l (drop n (segments l))) ≠ []).
    { rewrite (li_segs _ _ _ _ _ _ L'). by destruct (drop n init). }
    rewrite bool_decide_false by done. cbn [bind_st].
    eexists _, (concat (drop n ci) ++ ca). split; [done|].
    split; [split; [by exists (drop n init), a, (drop n ci), ca|split; [|done]]|].
    + exists (concat (take n ci)). by rewrite app_assoc, <- concat_app, take_drop.
    + split; [|cbn; rewrite length_drop; lia].
      rewrite <- (take_drop n ci) at 2. rewrite concat_app, !filter_app.
      rewrite (filter_none_below rec_offset (concat (take n ci))); [done|].
      apply (dropped_below (take n init)); [by apply Forall2_take, (li_init _ _ _ _ _ _ L)|].
      rewrite (li_segs _ _ _ _ _ _ L) in Hdr. by rewrite take_app_le in Hdr.
  - assert (n = length (segments l)) as Hnl by lia.
    rewrite Hnl, drop_all. cbn [segments set_segments log_next_offset].
    rewrite bool_decide_true by done.
    destruct (fresh_log (set_segments l []) now) as (s & E & R'); [apply (li_config _ _ _ _ _ _ L)| |done..|].
    { cbn. lia. }
    change (log_next_offset (set_segments l [])) with (log_next_offset l) in E. rewrite E. cbn [bind_st].
    eexists _, []. split; [done|]. split; [split; [exact R'|split; [apply suffix_nil|done]]|].
    split; [|cbn; lia].
    rewrite (filter_none_below rec_offset (concat ci ++ ca)); [done|].
    rewrite Hnl, firstn_all in Hdr.
    replace (concat ci ++ ca) with (concat (ci ++ [ca])) by (rewrite concat_app; simpl; by rewrite app_nil_r).
    eapply dropped_below; [apply (log_inv_all _ _ _ _ _ _ L)|done].
Qed.

Lemma drop_count_lt segs cutoff : segs ≠ [] → (drop_count segs cutoff < length segs)%nat.
Proof.
  induction segs as [|s [|s' segs] IH]; intros Hne; [done|cbn; lia|].
  cbn [drop_count length]. case_if; [|lia]. apply -> Nat.succ_lt_mono. by apply IH.
Qed.

Lemma drop_count_old segs cutoff :
  Forall (λ s, last_timestamp_ms s < cutoff) (take (drop_count segs cutoff) segs).
Proof.
  induction segs as [|s [|s' segs] IH]; [done|constructor|].
  cbn [drop_count]. case_if; [|constructor]. constructor; [lia|exact IH].
Qed.

Lemma log_rep_nonempty l recs : log_rep plat l recs → segments l ≠ [].
Proof. intros (init & a & ci & ca & L & _). rewrite (li_segs _ _ _ _ _ _ L). by destruct init. Qed.

(** The records at or after the first segment that is not old survive. *)
Lemma retain_by_time_ok l recs ms now :
  log_rep plat l recs → i64_min ≤ now ≤ i64_max →
  let n := drop_count (segments l) (i64_saturating_sub now (as_i64 ms)) in
  ∃ l' recs' s, retain_by_time plat ms now l = (Ok tt, l') ∧ trimmed l l' recs recs' ∧
    segments l !! n = Some s ∧
    filter (λ r, base_offset s ≤ rec_offset r) recs' = filter (λ r, base_offset s ≤ rec_offset r) recs.
Proof.
  intros R Hnow n. unfold retain_by_time. fold n.
  destruct (lookup_lt_is_Some_2 (segments l) n) as [s Hs].
  { apply drop_count_lt. by eapply log_rep_nonempty. }
  rewrite Hs. destruct (Nat.ltb_spec 0 n).
  - destruct (delete_records_ok l recs (base_offset s) now R Hnow) as (l' & recs' & E & T & Hf & _).
    exists l', recs', s. rewrite E. done.
  - exists l, recs, s. split; [done|]. split; [by apply trimmed_refl|done].
Qed.

(** One turn of the size loop always removes a segment. *)
Lemma keep_from_second l recs s0 s1 rest :
  log_rep plat l recs → segments l = s0 :: s1 :: rest →
  keep_from (segments l) (base_offset s1) ≠ O.
Proof.
  intros (init & a & ci & ca & L & _) Hs. rewrite Hs. cbn [keep_from].
  pose proof (li_order _ _ _ _ _ _ L) as Ho. rewrite <- (li_segs _ _ _ _ _ _ L), Hs in Ho.
  inversion Ho as [|? ? _ Hall]; subst. apply Forall_cons in Hall as [[_ ?] _].
  by rewrite Zleb_true.
Qed.

Lemma retain_by_size_ok fuel limit now : ∀ l recs,
  log_rep plat l recs → i64_min ≤ now ≤ i64_max → (length (segments l) ≤ fuel)%nat →
  ∃ l' recs', retain_by_size plat fuel limit now l = Some (Ok tt, l') ∧ trimmed l l' recs recs' ∧
    (total_size l' ≤ limit ∨ length (segments l') = 1%nat).
Proof.
  induction fuel as [|fuel IH]; intros l recs R Hnow Hfuel.
  { pose proof (log_rep_nonempty l recs R). destruct (segments l); cbn in *; [done|lia]. }
  cbn [retain_by_size]. destruct (Z.leb_spec (total_size l) limit).
  { exists l, recs. split; [done|]. split; [by apply trimmed_refl|by left]. }
  destruct (segments l) as [|s0 [|s1 rest]] eqn:Hs.
  - by destruct (log_rep_nonempty l recs R).
  - exists l, recs. split; [done|]. split; [by apply trimmed_refl|]. right. by rewrite Hs.
  - destruct (delete_records_ok l recs (base_offset s1) now R Hnow) as (l1 & r1 & E & T & _ & _ & Hlt).
    rewrite E.
    assert (length (segments l1) < length (segments l))%nat.
    { apply Hlt; [by eapply keep_from_second|]. rewrite Hs. cbn. lia. }
    destruct (IH l1 r1) as (l' & r' & E' & T' & Hd); [apply T|done|rewrite Hs in *; cbn in *; lia|].
    exists l', r'. split; [done|]. split; [by eapply trimmed_trans|done].
Qed.

(** ** Compaction *)

(** The reference: a record survives when it has no key, or it is the last of
    its key and not a tombstone. *)
Definition superseded (r : LogRecord) (later : list LogRecord) : bool :=
  match rec_key r with
  | None => false
  | Some k => bool_decide (rec_value r = []) || existsb (λ r', bool_decide (rec_key r' = Some k)) later
  end.

Fixpoint latest_only (recs : list LogRecord) : list LogRecord :=
  match recs with
  | [] => []
  | r :: recs => if superseded r recs then latest_only recs else r :: latest_only recs
  end.

Lemma latest_only_sublist recs : latest_only recs `sublist_of` recs.
Proof. induction recs as [|r recs IH]; cbn; [done|]. case_if; by constructor. Qed.

Lemma superseded_snoc r later x :
  superseded r (later ++ [x]) =
  superseded r later || (bool_decide (is_Some (rec_key r)) && bool_decide (rec_key x = rec_key r)).
Proof.
  unfold superseded. destruct (rec_key r) as [k|] eqn:Ek; [|done].
  rewrite existsb_app. cbn. rewrite orb_false_r, orb_assoc. f_equal.
Qed.

Lemma latest_only_snoc recs x :
  latest_only (recs ++ [x]) =
  filter (λ r, rec_key r = None ∨ rec_key r ≠ rec_key x) (latest_only recs) ++ latest_only [x].
Proof.
  induction recs as [|r recs IH]; [done|]. cbn [app latest_only]. rewrite superseded_snoc, IH.
  destruct (superseded r recs); [done|]. cbn [orb]. rewrite filter_cons.
  destruct (rec_key r) as [k|] eqn:Ek; cbn [bool_decide].
  - destruct (decide (rec_key x = Some k)) as [Hx|Hx].
    + rewrite !bool_decide_true by eauto. rewrite decide_False; [done|]. rewrite Hx. by intros [?|?].
    + rewrite (bool_decide_false (rec_key x = _)) by done. rewrite andb_false_r.
      rewrite decide_True; [done|]. naive_solver.
  - rewrite bool_decide_false by (by intros [? ?]). cbn [andb]. rewrite decide_True; [done|]. by left.
Qed.

(** The invariant of the scan: the map and the keyless list hold the
    survivors so far. *)
Definition scan_inv (recs : list LogRecord) (st : gmap bytes LogRecord * list LogRecord) : Prop :=
  (∀ k r, st.1 !! k = Some r → rec_key r = Some k) ∧
  Forall (λ r, rec_key r = None) st.2 ∧
  map snd (map_to_list st.1) ++ st.2 ≡ₚ latest_only recs.

Lemma delete_key_perm (m : gmap bytes LogRecord) k :
  (∀ k r, m !! k = Some r → rec_key r = Some k) →
  map snd (map_to_list (delete k m)) ≡ₚ
  filter (λ r, rec_key r = None ∨ rec_key r ≠ Some k) (map snd (map_to_list m)).
Proof.
  intros Hm.
  assert (Hd : Forall (λ r, rec_key r = None ∨ rec_key r ≠ Some k)
                 (map snd (map_to_list (delete k m)))).
  { rewrite Forall_forall. intros r ([k' r'] & -> & Hin)%list_elem_of_fmap. cbn.
    apply elem_of_map_to_list, lookup_delete_Some in Hin as [Hne Hl]. right.
    rewrite (Hm _ _ Hl). congruence. }
  destruct (m !! k) as [r|] eqn:Hk.
  - rewrite <- (map_to_list_delete m k r Hk). cbn [map snd]. rewrite filter_cons_False.
    + by rewrite filter_all.
    + rewrite (Hm _ _ Hk). by intros [?|?].
  - rewrite delete_id in Hd |- * by done. by rewrite filter_all.
Qed.

Lemma insert_key_perm (m : gmap bytes LogRecord) k r :
  map snd (map_to_list (<[k := r]> m)) ≡ₚ map snd (map_to_list (delete k m)) ++ [r].
Proof.
  rewrite <- insert_delete_eq, map_to_list_insert by apply lookup_delete_eq. cbn.
  by rewrite Permutation_cons_append.
Qed.

Lemma scan_step recs st r : scan_inv recs st → scan_inv (recs ++ [r]) (compact_step st r).
Proof.
  destruct st as [m nk]. intros (Hm & Hnk & Hp). unfold scan_inv. rewrite latest_only_snoc, <- Hp.
  unfold compact_step. cbn [fst snd] in *. rewrite filter_app.
  rewrite (filter_all _ nk) by (eapply Forall_impl; [exact Hnk|]; by left).
  destruct (rec_key r) as [k|] eqn:Ek.
  - rewrite <- (delete_key_perm m k Hm). cbn [latest_only superseded]. unfold superseded.
    rewrite Ek. cbn [existsb]. rewrite orb_false_r. case_bool_decide; cbn [fst snd].
    + split; [|split; [done|by rewrite app_nil_r]].
      intros k' r' [_ Hl]%lookup_delete_Some. by apply Hm.
    + split; [|split; [done|]].
      * intros k' r' [[<- <-]|[_ Hl]]%lookup_insert_Some; [done|by apply Hm].
      * rewrite insert_key_perm. rewrite <- !app_assoc. f_equiv. apply Permutation_app_comm.
  - rewrite (filter_all _ (map snd _)).
    + cbn [fst snd]. split; [done|]. split; [by apply Forall_app; auto|].
      cbn [latest_only]. unfold superseded. by rewrite Ek, app_assoc.
    + rewrite Forall_forall. intros r' ([k' r''] & -> & Hin)%list_elem_of_fmap. cbn. right.
      apply elem_of_map_to_list, Hm in Hin. by rewrite Hin.
Qed.

Lemma scan_all recs : scan_inv recs (foldl compact_step (∅, []) recs).
Proof.
  induction recs as [|r recs IH] using rev_ind.
  - split; [intros k r Hl; cbn in Hl; by rewrite lookup_empty in Hl|]. split; [constructor|].
    cbn. by rewrite map_to_list_empty.
  - rewrite foldl_snoc. by apply scan_step.
Qed.

Lemma sublist_sorted {A} (R : A → A → Prop) (l k : list A) :
  l `sublist_of` k → StronglySorted R k → StronglySorted R l.
Proof.
  induction 1 as [|x l k Hs IH|x l k Hs IH]; intros Hk; [done| |].
  - inversion Hk as [|? ? Hk' Hall]; subst. constructor; [by apply IH|].
    rewrite Forall_forall in Hall |- *. intros y Hy. apply Hall. by eapply elem_of_sublist.
  - inversion Hk; subst. by apply IH.
Qed.

Lemma sorted_inj recs x y :
  StronglySorted off_lt recs → x ∈ recs → y ∈ recs → rec_offset x = rec_offset y → x = y.
Proof.
  induction 1 as [|r recs Hs IH Hall]; [by intros ?%not_elem_of_nil|].
  rewrite Forall_forall in Hall. unfold off_lt in Hall.
  intros [->|Hx]%elem_of_cons [->|Hy]%elem_of_cons Heq; [done| | |by apply IH].
  - specialize (Hall y Hy). lia.
  - specialize (Hall x Hx). lia.
Qed.

(** The optimised scan with its hash map computes the reference. *)
Lemma survivors_latest recs : StronglySorted off_lt recs → survivors recs = latest_only recs.
Proof.
  intros Hs. unfold survivors. pose proof (scan_all recs) as (_ & _ & Hp).
  destruct (foldl compact_step (∅, []) recs) as [m nk]. cbn [fst snd] in Hp.
  set (l := merge_sort _ _).
  assert (Hl : l ≡ₚ latest_only recs) by (unfold l; by rewrite merge_sort_Permutation).
  pose proof (sublist_sorted _ _ _ (latest_only_sublist recs) Hs) as Hls.
  assert (Htr : Transitive off_le) by (intros a b c ? ?; unfold off_le in *; lia).
  assert (Hto : Total off_le) by (intros a b; unfold off_le; lia).
  apply (StronglySorted_unique_strong off_le); [|apply (StronglySorted_merge_sort _)| |done].
  - intros x y Hx Hy ? ?. rewrite Hl in Hx. apply (sorted_inj (latest_only recs)); try done.
    unfold off_le in *. lia.
  - clear -Hls. induction Hls as [|r rs ? IH Hall]; constructor; [done|].
    eapply Forall_impl; [exact Hall|]. unfold off_lt, off_le. lia.
Qed.

Lemma sorted_length recs lo hi :
  StronglySorted off_lt recs → Forall (λ r, lo ≤ rec_offset r < hi) recs → lo ≤ hi →
  zlen recs ≤ hi - lo.
Proof.
  intros Hs. revert lo. induction Hs as [|r recs Hs IH Hall]; intros lo HF Hle.
  - rewrite zlen_nil. lia.
  - apply Forall_cons in HF as [Hr HF]. rewrite zlen_cons.
    assert (zlen recs ≤ hi - (rec_offset r + 1)); [|lia].
    apply IH; [|lia]. rewrite Forall_forall in Hall, HF |- *. intros x Hx.
    specialize (Hall x Hx). specialize (HF x Hx). unfold off_lt in Hall. lia.
Qed.

Lemma seg_inv_length s c : seg_inv s c → zlen c ≤ usize_max.
Proof.
  intros I. pose proof (inv_base _ _ I). pose proof (inv_next _ _ I).
  pose proof (sorted_length c (base_offset s) (next_offset s) (inv_sorted _ _ I)).
  unfold usize_max. enough (zlen c ≤ next_offset s - base_offset s) by lia.
  apply H2; [|lia]. rewrite Forall_forall. intros r Hr. by eapply seg_inv_range.
Qed.

Lemma read_from_all s c from :
  seg_inv s c → from ≤ base_offset s → read_from s from usize_max usize_max = Ok c.
Proof.
  intros I Hf. rewrite (read_from_spec s c) by done. rewrite Zeqb_false by done.
  rewrite take_limited_unbounded, filter_all.
  - rewrite take_ge; [done|]. pose proof (seg_inv_length s c I). unfold zlen in *. lia.
  - eapply Forall_impl; [apply (inv_lo _ _ I)|]. cbn. lia.
Qed.

Lemma read_all_ok segs cs : Forall2 seg_inv segs cs → read_all segs = Ok (concat cs).
Proof.
  induction 1 as [|s c segs cs I HF IH]; [done|]. cbn [read_all concat].
  rewrite (read_from_all s c) by (done || lia). by rewrite IH.
Qed.

Lemma append_survivors_ok rs : ∀ s recs,
  seg_inv s recs → aligned s → sealed s = false →
  Forall record_ok rs → StronglySorted off_lt rs →
  Forall (λ r, next_offset s ≤ rec_offset r < u64_max) rs →
  Forall (λ r, rec_offset r - base_offset s ≤ u32_max) rs →
  size s + zlen (records_bytes rs) ≤ u32_max →
  ∃ s', append_survivors rs s = (Ok tt, s') ∧ seg_inv s' (recs ++ rs) ∧ aligned s' ∧
    sealed s' = false ∧ same_shape s s' ∧ next_offset s' = next_after (next_offset s) rs.
Proof.
  induction rs as [|r rs IH]; intros s recs I A Es Hok Hs Hlo Hd Hsz.
  - exists s. rewrite app_nil_r. repeat (split; [done|]). done.
  - apply Forall_cons in Hok as [(Hro & Hrt & Hrm) Hok], Hlo as [Hr Hlo], Hd as [Hrd Hd].
    inversion Hs as [|? ? Hs' Hall]; subst. rewrite records_bytes_cons, zlen_app in Hsz.
    pose proof (zlen_nonneg (record_bytes r)). pose proof (zlen_nonneg (records_bytes rs)).
    destruct (append_encoded_ok s recs (rec_offset r) (message_of r) (rec_timestamp_ms r) I A Es)
      as (s1 & E & I1 & A1 & Sh & Es1 & Hn1 & _ & Hsz1); try done; try lia.
    rewrite record_of_message_of in I1. destruct Sh as (Hb & Hc & Hu & Hdi).
    destruct (IH s1 (recs ++ [r])) as (s' & E' & I' & A' & Es' & Sh' & Hn'); try done.
    { rewrite Forall_forall in Hall, Hlo |- *. intros x Hx. specialize (Hall x Hx).
      specialize (Hlo x Hx). unfold off_lt in Hall. rewrite Hn1. lia. }
    { by rewrite Hb. }
    { rewrite Hsz1, <- zlen_record_bytes. lia. }
    exists s'. cbn [append_survivors]. unfold append_allow_gap.
    rewrite Es, Zltb_false, E by lia. cbn [bind_st].
    rewrite <- app_assoc in I'. repeat (split; [done|]).
    split; [destruct Sh' as (? & ? & ? & ?); repeat split; congruence|].
    rewrite Hn', next_after_cons, Hn1, offset_next_small; [done|lia].
Qed.

Lemma records_bytes_sublist l k :
  l `sublist_of` k → zlen (records_bytes l) ≤ zlen (records_bytes k).
Proof.
  induction 1 as [|x l k Hs IH|x l k Hs IH]; [done| |];
    rewrite !records_bytes_cons, !zlen_app; pose proof (zlen_nonneg (record_bytes x)); lia.
Qed.

Lemma Forall_sublist {A} (P : A → Prop) (l k : list A) : l `sublist_of` k → Forall P k → Forall P l.
Proof. intros Hs. rewrite !Forall_forall. intros Hk x Hx. apply Hk. by eapply elem_of_sublist. Qed.

(** Records that fit one segment starting at [base] and ending before [top]. *)
Definition fits (base top : Z) (rs : list LogRecord) : Prop :=
  Forall record_ok rs ∧ StronglySorted off_lt rs ∧
  Forall (λ r, base ≤ rec_offset r < top) rs ∧ top - base ≤ u32_max ∧ top ≤ u64_max ∧
  HEADER_SIZE + zlen (records_bytes rs) ≤ u32_max.

Lemma fits_sublist base top l k : l `sublist_of` k → fits base top k → fits base top l.
Proof.
  intros Hs (H1 & H2 & H3 & H4 & H5 & H6). pose proof (records_bytes_sublist l k Hs).
  split; [by eapply Forall_sublist|]. split; [by eapply sublist_sorted|].
  split; [by eapply Forall_sublist|]. split; [done|]. split; [done|lia].
Qed.

Lemma fits_recs_ok base top rs : fits base top rs → recs_ok base rs.
Proof.
  intros (H1 & H2 & H3 & _ & Ht & _). split; [done|]. split; [done|].
  split; (eapply Forall_impl; [exact H3|]); cbn; lia.
Qed.

Lemma next_after_top base top rs :
  base ≤ top → fits base top rs → next_after base rs ≤ top.
Proof.
  intros Hle (H1 & _ & H3 & _ & Ht & _). unfold next_after.
  destruct (last rs) as [r|] eqn:Hl; [|done]. apply last_Some_elem_of in Hl.
  rewrite Forall_forall in H1, H3. specialize (H3 r Hl). cbn in H3.
  pose proof (record_ok_offset r (H1 r Hl)). rewrite offset_next_small; lia.
Qed.

Lemma build_compacted_ok opts base top now rs :
  opt_direct_io opts = false → 0 ≤ base ≤ top → i64_min ≤ now ≤ i64_max → fits base top rs →
  ∃ s, build_compacted plat opts base top now rs = Ok s ∧ log_bytes s = content base now rs.
Proof.
  intros Hd Hb Hnow Hfit. pose proof Hfit as (Hok & Hs & Hr & Hspan & Htop & Hsz).
  unfold build_compacted.
  destruct (create_ok plat base now opts) as
    (s0 & -> & I0 & A0 & Es0 & Hb0 & Hn0 & Hc0 & Hsz0 & _ & _ & Hdi); [lia|done|].
  destruct (append_survivors_ok rs s0 [] I0 A0 Es0 Hok Hs)
    as (s1 & -> & I1 & A1 & Es1 & (Hb1 & Hc1 & Hu1 & Hd1) & Hn1).
  { eapply Forall_impl; [exact Hr|]. cbn. rewrite Hn0. lia. }
  { eapply Forall_impl; [exact Hr|]. cbn. rewrite Hb0. lia. }
  { lia. }
  cbn [bind_st]. rewrite Hn0 in Hn1.
  destruct (set_next_offset_ok s1 rs top I1) as (s2 & E2 & I2 & (Hb2 & Hc2 & Hu2 & Hd2) & Es2 & Hn2 & _).
  { rewrite Hn1. split; [|done]. apply next_after_top; [lia|done]. }
  unfold set_next_offset in E2 |- *. rewrite Hn1 in E2 |- *.
  rewrite Zltb_false in E2 |- * by (apply next_after_top; [lia|done]).
  injection E2 as E2. cbn [bind_st]. rewrite E2.
  assert (Hdf : direct_io s2 = false) by (rewrite Hd2, Hd1, Hdi, Hd; done).
  destruct (seal_ok s2 rs I2) as (s3 & -> & I3 & Es3 & (Hb3 & Hc3 & _) & _).
  { intros Hx. congruence. }
  { intros Hx. congruence. }
  exists s3. split; [done|]. destruct (disk_sealed _ _ (inv_disk _ _ I3) Es3) as [-> _].
  f_equal; congruence.
Qed.

Lemma inits_fit s0 init a c0 ci :
  Forall2 seg_inv (s0 :: init) (c0 :: ci) → StronglySorted seg_before ((s0 :: init) ++ [a]) →
  next_offset a ≤ u64_max → base_offset a ≤ next_offset a →
  base_offset a - base_offset s0 ≤ u32_max →
  HEADER_SIZE + zlen (records_bytes (concat (c0 :: ci))) ≤ u32_max →
  fits (base_offset s0) (base_offset a) (concat (c0 :: ci)).
Proof.
  intros HF Ho Hmax Hba Hspan Hsz.
  assert (Hel : ∀ r, r ∈ concat (c0 :: ci) →
    record_ok r ∧ base_offset s0 ≤ rec_offset r < base_offset a).
  { intros r Hr. apply list_elem_of_In, in_concat in Hr as (c & Hc & Hr).
    apply list_elem_of_In in Hc, Hr. apply list_elem_of_lookup in Hc as [i Hi].
    destruct (Forall2_lookup_r _ _ _ _ _ HF Hi) as (s & Hs & I).
    apply list_elem_of_lookup_2 in Hs. pose proof (seg_inv_range _ _ _ I Hr).
    pose proof (inv_recs _ _ I) as Hok. rewrite Forall_forall in Hok.
    split; [by apply Hok|]. apply StronglySorted_app in Ho as (H1 & Ho & _).
    destruct (H1 s a Hs ltac:(left)). inversion Ho as [|? ? _ Hall]; subst.
    rewrite Forall_forall in Hall. apply elem_of_cons in Hs as [->|Hs]; [lia|].
    destruct (Hall s Hs). lia. }
  split; [rewrite Forall_forall; intros r Hr; by apply Hel|].
  split; [eapply segs_sorted; [exact HF|]; by apply StronglySorted_app in Ho as (_ & ? & _)|].
  split; [rewrite Forall_forall; intros r Hr; by apply Hel|]. split; [done|]. split; [lia|done].
Qed.

Lemma sublist_same {A} (l k : list A) : l `sublist_of` k → zlen l = zlen k → l = k.
Proof.
  induction 1 as [|x l k Hs IH|x l k Hs IH]; rewrite ?zlen_cons; intros Hl; [done| |].
  - f_equal. apply IH. lia.
  - apply sublist_length in Hs. unfold zlen in Hl. lia.
Qed.

Lemma compacted_log l s0 init a c0 ci ca seg :
  log_inv plat l (s0 :: init) a (c0 :: ci) ca →
  seg_inv seg (latest_only (concat (c0 :: ci))) → sealed seg = true →
  base_offset seg = base_offset s0 → next_offset seg = base_offset a →
  log_inv plat (set_segments l (seg :: [a])) [seg] a [latest_only (concat (c0 :: ci))] ca.
Proof.
  intros [Hs HF Hsl Ha Ho Hn Hc] I Es Hb Hnx. split; try done.
  - by constructor.
  - by constructor.
  - constructor; [by repeat constructor|]. constructor; [|done].
    apply StronglySorted_app in Ho as (H1 & _ & _). destruct (H1 s0 a); [left..|].
    split; lia.
Qed.

(** Building the compacted file, then reopening it under its final name. *)
Lemma rebuilt_segment opts base top now rs :
  opt_direct_io opts = false → 0 ≤ base ≤ top → i64_min ≤ now ≤ i64_max → fits base top rs →
  ∃ ns seg seg', build_compacted plat opts base top now rs = Ok ns ∧
    open_with_options plat (log_bytes ns) base opts true = Ok seg ∧
    set_next_offset top seg = (Ok tt, seg') ∧ seg_inv seg' rs ∧ sealed seg' = true ∧
    base_offset seg' = base ∧ next_offset seg' = top.
Proof.
  intros Hd Hb Hnow Hfit. pose proof Hfit as (_ & _ & _ & _ & Htop & _).
  destruct (build_compacted_ok opts base top now rs) as (ns & E & Hbytes); [done..|].
  destruct (open_ok plat base now rs [] opts true) as (seg & E' & Is & Ess & Hbs & _ & Hns & _);
    [lia|done|by eapply fits_recs_ok|apply stops_nil|].
  rewrite app_nil_r in E'.
  destruct (set_next_offset_ok seg rs top Is) as (seg' & E'' & Is' & (Hb' & _) & Es' & Hn' & _).
  { rewrite Hns. split; [|done]. apply next_after_top; [lia|done]. }
  exists ns, seg, seg'. rewrite Hbytes. repeat (split; [done|]). split; [congruence|]. split; congruence.
Qed.

Lemma compact_sealed_ok l init a ci ca now :
  log_inv plat l init a ci ca → i64_min ≤ now ≤ i64_max →
  base_offset a - log_start_offset l ≤ u32_max →
  HEADER_SIZE + zlen (records_bytes (concat ci)) ≤ u32_max →
  ∃ st l', compact_sealed plat now l = (Ok st, l') ∧
    log_rep plat l' (latest_only (concat ci) ++ ca) ∧
    config l' = config l ∧ log_next_offset l' = log_next_offset l ∧
    (length (segments l') ≤ length (segments l))%nat ∧
    input_records st - output_records st = zlen (concat ci) - zlen (latest_only (concat ci)).
Proof.
  intros L Hnow Hspan Hsz. unfold compact_sealed.
  destruct init as [|s0 init].
  { pose proof (li_segs _ _ _ _ _ _ L) as Hs. cbn in Hs. rewrite Hs.
    pose proof (Forall2_length _ _ _ (li_init _ _ _ _ _ _ L)) as Hl. destruct ci; [|done].
    exists no_stats, l. split; [done|]. split; [by exists [], a, [], ca|].
    do 2 (split; [done|]). split; [rewrite Hs; cbn; rewrite ?length_app; cbn; lia|done]. }
  destruct ci as [|c0 ci]; [by pose proof (Forall2_length _ _ _ (li_init _ _ _ _ _ _ L))|].
  assert (Hlen : length (segments l) = (S (length init) + 1)%nat)
    by (rewrite (li_segs _ _ _ _ _ _ L), length_app; done).
  pose proof (li_segs _ _ _ _ _ _ L) as Hs. cbn [app] in Hs. rewrite Hs.
  destruct (init ++ [a]) as [|s1 rest] eqn:Hia; [by destruct init|]. rewrite <- Hia.
  rewrite app_comm_cons, last_snoc, length_app. cbn [length].
  replace (S (length init) + 1 - 1)%nat with (length (s0 :: init)) by (cbn; lia).
  rewrite take_app_length, drop_app_length.
  rewrite (read_all_ok _ _ (li_init _ _ _ _ _ _ L)).
  set (input := concat (c0 :: ci)) in *.
  pose proof (li_active _ _ _ _ _ _ L) as Aa. pose proof (inv_base _ _ (act_inv _ _ Aa)).
  unfold log_start_offset in Hspan. rewrite Hs in Hspan.
  assert (Hfit : fits (base_offset s0) (base_offset a) input).
  { eapply inits_fit; [apply (li_init _ _ _ _ _ _ L)|apply (li_order _ _ _ _ _ _ L)| |lia|done..].
    apply (inv_next _ _ (act_inv _ _ Aa)). }
  pose proof (proj1 (proj2 Hfit)) as Hsort. rewrite (survivors_latest input Hsort).
  pose proof (latest_only_sublist input) as Hsub.
  assert (R0 : latest_only input = input → log_rep plat l (latest_only input ++ ca)).
  { intros ->. by exists (s0 :: init), a, (c0 :: ci), ca. }
  destruct (Z.eqb_spec (zlen input) 0) as [Hz|Hz].
  { exists no_stats, l. split; [done|]. destruct input; [|rewrite zlen_cons in Hz;
      pose proof (zlen_nonneg input); lia]. split; [by apply R0|].
    do 2 (split; [done|]). split; [lia|done]. }
  destruct (_ && _) eqn:Hsame.
  { apply andb_true_iff in Hsame as [Heq%Z.eqb_eq _].
    eexists _, l. split; [done|]. split; [by apply R0, sublist_same|].
    do 2 (split; [done|]). split; [lia|done]. }
  assert (Hlt : base_offset s0 < base_offset a)
    by (eapply active_bases; [apply (li_order _ _ _ _ _ _ L)|left]).
  pose proof (li_init _ _ _ _ _ _ L) as HF. inversion HF as [|? ? ? ? I0 _]; subst.
  pose proof (inv_base _ _ I0).
  destruct (rebuilt_segment (seg_opts (config l) false) (base_offset s0) (base_offset a) now
    (latest_only input)) as (ns & seg & seg' & -> & -> & -> & Is & Es & Hb & Hn);
    [done|lia|done|by eapply fits_sublist|].
  eexists _, _. split; [done|]. split; [|split; [done|split; [done|]]].
  - exists [seg'], a, [latest_only input], ca. split; [|cbn; by rewrite app_nil_r].
    by apply (compacted_log l s0 init a c0 ci ca seg' L).
  - cbn. split; [lia|done].
Qed.

End retention.

(** ** The table view: the current value of each key *)

Definition latest_value (k : bytes) (recs : list LogRecord) : option bytes :=
  match last (filter (λ r, rec_key r = Some k) recs) with
  | Some r => if bool_decide (rec_value r = []) then None else Some (rec_value r)
  | None => None
  end.

Lemma latest_value_hit k recs x :
  rec_key x = Some k →
  latest_value k (recs ++ [x]) = if bool_decide (rec_value x = []) then None else Some (rec_value x).
Proof. intros Hk. unfold latest_value. by rewrite filter_app, filter_cons_True, filter_nil, last_snoc. Qed.

Lemma latest_value_miss k recs x :
  rec_key x ≠ Some k → latest_value k (recs ++ [x]) = latest_value k recs.
Proof. intros Hk. unfold latest_value. by rewrite filter_app, filter_cons_False, filter_nil, app_nil_r. Qed.

Lemma filter_none {A} (P : A → Prop) `{∀ x, Decision (P x)} (l : list A) :
  Forall (λ x, ¬ P x) l → filter P l = [].
Proof. induction 1 as [|x l Hx HF IH]; [done|]. by rewrite filter_cons_False. Qed.

Lemma filter_filter_impl {A} (P Q : A → Prop) `{∀ x, Decision (P x)} `{∀ x, Decision (Q x)} (l : list A) :
  (∀ x, P x → Q x) → filter P (filter Q l) = filter P l.
Proof.
  intros HPQ. induction l as [|x l IH]; [done|]. rewrite !filter_cons.
  destruct (decide (Q x)) as [HQ|HQ]; destruct (decide (P x)) as [HP|HP];
    rewrite ?filter_cons_True, ?filter_cons_False by done; rewrite ?IH; try done.
  by destruct (HQ (HPQ x HP)).
Qed.

Lemma latest_only_table k recs : latest_value k (latest_only recs) = latest_value k recs.
Proof.
  induction recs as [|x recs IH] using rev_ind; [done|]. rewrite latest_only_snoc.
  cbn [latest_only]. unfold superseded. cbn [existsb].
  destruct (decide (rec_key x = Some k)) as [Hk|Hk].
  - rewrite (latest_value_hit k recs x Hk), Hk, orb_false_r. case_bool_decide as Hv.
    + rewrite app_nil_r. unfold latest_value.
      rewrite filter_none; [done|].
      rewrite Forall_forall. intros r [[Hr|Hr] _]%list_elem_of_filter; congruence.
    + rewrite latest_value_hit by done. by rewrite bool_decide_false.
  - rewrite (latest_value_miss k recs x Hk), <- IH.
    assert (Hf : latest_value k (filter (λ r, rec_key r = None ∨ rec_key r ≠ rec_key x)
      (latest_only recs)) = latest_value k (latest_only recs)).
    { unfold latest_value. rewrite filter_filter_impl; [done|]. intros r Hr. right. congruence. }
    destruct (match rec_key x with None => false | Some _ => _ end).
    + by rewrite app_nil_r.
    + by rewrite latest_value_miss.
Qed.

(** ** Properties *)

Section properties.
Context `{Crc32} (plat : Platform).

(** [delete_records] only removes records below the requested offset, and
    only from the front of the log: what a reader at or after that offset
    sees is unchanged, as is the high watermark; the offset it returns is the
    new log start, at or below every record that is left. *)
Theorem delete_keeps_later l recs before now :
  log_rep plat l recs → i64_min ≤ now ≤ i64_max →
  ∃ l' recs', delete_records plat before now l = (Ok (log_start_offset l'), l') ∧
    log_rep plat l' recs' ∧ recs' `suffix_of` recs ∧
    filter (λ r, before ≤ rec_offset r) recs' = filter (λ r, before ≤ rec_offset r) recs ∧
    high_watermark l' = high_watermark l ∧
    Forall (λ r, log_start_offset l' ≤ rec_offset r) recs'.
Proof.
  intros R Hnow.
  destruct (delete_records_ok plat l recs before now R Hnow)
    as (l' & recs' & E & (R' & Hs & _ & Hn) & Hf & _).
  exists l', recs'. do 5 (split; [done|]).
  destruct (log_offsets plat l' recs' R') as (HF & _). eapply Forall_impl; [exact HF|]. cbn. lia.
Qed.

(** Retention terminates and does its work: with compaction off, it
    returns without error, the log keeps a suffix of its records and its high
    watermark, and when a size limit is set the log ends within it, unless
    only the active segment is left. *)
Theorem retention_bounds_size l recs now :
  log_rep plat l recs → i64_min ≤ now ≤ i64_max → compact (config l) = false →
  ∃ l' recs', apply_retention plat now l = Some (Ok tt, l') ∧
    log_rep plat l' recs' ∧ recs' `suffix_of` recs ∧ high_watermark l' = high_watermark l ∧
    (∀ limit, retention_bytes (config l) = Some limit →
       total_size l' ≤ limit ∨ segment_count l' = 1).
Proof.
  intros R Hnow Hc. unfold apply_retention.
  assert (Ht : ∃ l1 r1, match retention_ms (config l) with
    | Some ms => retain_by_time plat ms now l | None => (Ok tt, l) end = (Ok tt, l1) ∧
    trimmed plat l l1 recs r1).
  { destruct (retention_ms (config l)) as [ms|].
    - destruct (retain_by_time_ok plat l recs ms now R Hnow) as (l1 & r1 & s & E & T & _). eauto.
    - exists l, recs. split; [done|by apply trimmed_refl]. }
  destruct Ht as (l1 & r1 & -> & T1). pose proof T1 as (R1 & _ & Hc1 & _).
  rewrite Hc1. destruct (retention_bytes (config l)) as [limit|] eqn:Hl.
  - destruct (retain_by_size_ok plat (length (segments l1)) limit now l1 r1 R1 Hnow)
      as (l' & r' & -> & T2 & Hd); [done|].
    destruct (trimmed_trans plat _ _ _ _ _ _ T1 T2) as (R' & Hs & Hc' & Hn).
    exists l', r'. rewrite Hc', Hc. do 4 (split; [done|]). intros ? [= <-].
    destruct Hd as [?|Hd]; [by left|right]. unfold segment_count, zlen. by rewrite Hd.
  - destruct T1 as (_ & Hs & Hc' & Hn). exists l1, r1. rewrite Hc', Hc.
    do 4 (split; [done|]). done.
Qed.

(** C40: compaction keeps the table: the sealed segments become one that holds
    exactly the keyless records and the last record of each key that is not a
    tombstone, in offset order; the active segment, the high watermark and the
    current value of every key are unchanged. *)
Theorem compaction_keeps_latest l init a ci ca now :
  log_inv plat l init a ci ca → i64_min ≤ now ≤ i64_max →
  base_offset a - log_start_offset l ≤ u32_max →
  HEADER_SIZE + zlen (records_bytes (concat ci)) ≤ u32_max →
  ∃ st l', compact_sealed plat now l = (Ok st, l') ∧
    log_rep plat l' (latest_only (concat ci) ++ ca) ∧
    high_watermark l' = high_watermark l ∧ segment_count l' ≤ segment_count l ∧
    (∀ k, latest_value k (latest_only (concat ci)) = latest_value k (concat ci)).
Proof.
  intros L Hnow Hspan Hsz.
  destruct (compact_sealed_ok plat l init a ci ca now L Hnow Hspan Hsz)
    as (st & l' & E & R & _ & Hn & Hlen & _).
  exists st, l'. do 3 (split; [done|]). split; [|intros k; apply latest_only_table].
  unfold segment_count, zlen. lia.
Qed.

End properties.

(** The one-pass scan of [compact_sealed] with its hash map and final sort
    computes the reference: the records that no later record of their key
    supersedes, in their order. *)
Theorem survivors_is_latest_only recs :
  StronglySorted off_lt recs → survivors recs = latest_only recs.
Proof. apply survivors_latest. Qed.

(** ** Witnesses *)

Lemma delete_keeps_later_witness :
  ∃ l l', delete_records demo_plat 2 0 l = (Ok (log_start_offset l'), l').
Proof.
  destruct demo_log as (l & R & _). exists l.
  destruct (delete_keeps_later (H := crc_sum32) demo_plat l demo_records 2 0 R) as (l' & r' & E & _);
    [range|]. by exists l'.
Defined.

Lemma retention_bounds_size_witness :
  ∃ l l', apply_retention (H := crc_sum32) demo_plat 0 l = Some (Ok tt, l').
Proof.
  destruct demo_log as (l & R & C & _). exists l.
  destruct (retention_bounds_size (H := crc_sum32) demo_plat l demo_records 0 R) as (l' & r' & E & _);
    [range|by rewrite C|]. by exists l'.
Defined.

Lemma survivors_is_latest_only_witness :
  survivors demo_records = drop 1 demo_records.
Proof.
  rewrite (survivors_is_latest_only demo_records); [reflexivity|].
  repeat constructor.
Defined.

Lemma compaction_keeps_latest_witness :
  ∃ l st l' k v, compact_sealed (H := crc_sum32) demo_plat 0 l = (Ok st, l') ∧
    latest_value k demo_records = Some v.
Proof.
  destruct demo_rolled_log as (l & (init & a & ci & ca & L & E) & N).
  destruct (compaction_keeps_latest (H := crc_sum32) demo_plat l init a ci ca 0 L)
    as (st & l' & Ec & _).
  - range.
  - pose proof (li_next _ _ _ _ _ _ L) as Hn. pose proof (inv_base _ _ (act_inv _ _ (li_active _ _ _ _ _ _ L))).
    destruct (log_offsets (H := crc_sum32) demo_plat l demo_records) as (_ & Hs & _);
      [by exists init, a, ci, ca|]. unfold u32_max. lia.
  - pose proof (records_bytes_sublist (H := crc_sum32) (concat ci) demo_records) as Hb.
    assert (Hp : zlen (records_bytes (H := crc_sum32) demo_records) = 113) by (vm_compute; reflexivity).
    rewrite Hp in Hb. unfold HEADER_SIZE, u32_max.
    assert (zlen (records_bytes (H := crc_sum32) (concat ci)) ≤ 113); [|lia].
    apply Hb. rewrite E. apply sublist_inserts_r. done.
  - exists l, st, l', [x61], [x03]. split; [exact Ec|reflexivity].
Defined.

(** * Reopening a partition log

    Opening the directory a log left behind, with a torn record at the end of
    the last file, gives a log of the same records that continues at the same
    offset. *)

(** The files of a log by base offset, with bytes written after the last
    complete record of the active segment. *)
Fixpoint crash_files (tail : bytes) (segs : list Segment) : list (Z * bytes) :=
  match segs with
  | [] => []
  | [a] => [(base_offset a, log_bytes a ++ tail)]
  | s :: segs => (base_offset s, log_bytes s) :: crash_files tail segs
  end.

Section recovery.
Context `{Crc32} (plat : Platform).

Lemma sorted_split_last (recs : list LogRecord) r :
  last recs = Some r → ∃ rs, recs = rs ++ [r].
Proof. intros Hl. by apply last_Some in Hl. Qed.

(** A densely numbered segment ends right after its last record. *)
Lemma dense_next a ca : active_ok a ca → next_after (base_offset a) ca = next_offset a.
Proof.
  intros [I _ _ _ Hd]. unfold next_after. pose proof (inv_base _ _ I). pose proof (inv_next _ _ I).
  destruct (last ca) as [r|] eqn:Hl.
  - apply sorted_split_last in Hl as [rs ->]. pose proof (inv_sorted _ _ I) as Hs.
    pose proof (seg_inv_range _ _ r I ltac:(apply elem_of_app; right; left)).
    rewrite offset_next_small by lia.
    assert (zlen rs ≤ rec_offset r - base_offset a).
    { apply StronglySorted_app in Hs as (Hlt & Hs & _).
      apply (sorted_length rs _ _ Hs); [|lia]. rewrite Forall_forall. intros x Hx.
      pose proof (seg_inv_range _ _ x I ltac:(apply elem_of_app; by left)).
      specialize (Hlt x r Hx ltac:(left)). unfold off_lt in Hlt. lia. }
    rewrite zlen_app, zlen_cons, zlen_nil in Hd. lia.
  - apply last_None in Hl as ->. rewrite zlen_nil in Hd. lia.
Qed.

Lemma seg_recs_ok s c : seg_inv s c → recs_ok (base_offset s) c.
Proof.
  intros I. pose proof (inv_next _ _ I). split; [apply (inv_recs _ _ I)|].
  split; [apply (inv_sorted _ _ I)|]. split; [apply (inv_lo _ _ I)|].
  eapply Forall_impl; [apply (inv_hi _ _ I)|]. cbn. lia.
Qed.

Lemma seg_next_after s c : seg_inv s c → next_after (base_offset s) c ≤ next_offset s.
Proof.
  intros I. pose proof (inv_base _ _ I). pose proof (inv_next _ _ I). unfold next_after.
  destruct (last c) as [r|] eqn:Hl; [|lia]. apply last_Some_elem_of in Hl.
  pose proof (seg_inv_range _ _ r I Hl). rewrite offset_next_small; lia.
Qed.

(** Opening one file of the log. *)
Lemma reopen_segment s c tail opts sl :
  seg_inv s c → log_bytes s = content (base_offset s) (created_at_ms s) c → stops tail →
  ∃ s', open_with_options plat (log_bytes s ++ tail) (base_offset s) opts sl = Ok s' ∧
    seg_inv s' c ∧ sealed s' = sl ∧ base_offset s' = base_offset s ∧
    next_offset s' = next_after (base_offset s) c ∧ use_mmap s' = opt_use_mmap opts ∧
    (opt_direct_io opts = false → direct_io s' = false).
Proof.
  intros I Hb Ht. pose proof (inv_base _ _ I). pose proof (inv_next _ _ I). rewrite Hb.
  destruct (open_ok plat (base_offset s) (created_at_ms s) c tail opts sl)
    as (s' & E & I' & Es & Hbs & _ & Hn & _ & _ & Hu & Hd & _);
    [lia|apply (inv_created _ _ I)|by apply seg_recs_ok|done|].
  exists s'. repeat (split; [done|]). intros Ho. by rewrite Hd, Ho.
Qed.

Lemma open_segments_ok cfg init ci a ca tail :
  Forall2 seg_inv init ci → Forall (λ s, sealed s = true) init → active_ok a ca →
  direct_io a = false → cfg_direct_io cfg = false → stops tail →
  ∃ init' a', open_segments plat cfg (crash_files tail (init ++ [a])) = Ok (init' ++ [a']) ∧
    Forall2 seg_inv init' ci ∧ Forall (λ s, sealed s = true) init' ∧ active_ok a' ca ∧
    base_offset a' = base_offset a ∧ next_offset a' = next_offset a ∧
    Forall2 (λ s s', base_offset s' = base_offset s ∧ next_offset s' ≤ next_offset s) init init'.
Proof.
  intros HF Hsl Aa Hd Hcd Ht. induction HF as [|s c init ci I HF IH].
  - destruct (reopen_segment a ca tail (seg_opts cfg (cfg_direct_io cfg && true)) false)
      as (a' & E & I' & Es & Hb & Hn & _ & Hd');
      [apply Aa|by apply (disk_plain _ _ (inv_disk _ _ (act_inv _ _ Aa)))|done|].
    cbn [app crash_files open_segments]. rewrite bool_decide_true by done. cbn [negb].
    rewrite E. rewrite Hcd in Hd'. rewrite (dense_next a ca Aa) in Hn.
    exists [], a'. split; [done|]. split; [done|]. split; [done|]. split; [|done].
    destruct Aa. split; try done.
    + intros Hx. cbn in Hd'. rewrite Hd' in Hx; done.
    + intros Hx. cbn in Hd'. rewrite Hd' in Hx; done.
    + rewrite Hn, Hb. done.
  - apply Forall_cons in Hsl as [Hs Hsl]. destruct (IH Hsl) as (init' & a' & E & ? & ? & ? & ? & ? & ?).
    destruct (reopen_segment s c [] (seg_opts cfg (cfg_direct_io cfg && false)) true)
      as (s' & Es & I' & Ess & Hb & Hn & _);
      [done|by apply (disk_sealed _ _ (inv_disk _ _ I) Hs)|apply stops_nil|].
    rewrite app_nil_r in Es.
    exists (s' :: init'), a'. split; [|split; [by constructor|split; [by constructor|]]].
    + cbn [app crash_files]. destruct (init ++ [a]) as [|x rest] eqn:Hx; [by destruct init|].
      cbn [open_segments]. rewrite bool_decide_false by (by destruct rest). cbn [negb].
      rewrite Es. cbn [open_segments] in E. by rewrite E.
    + do 3 (split; [done|]). constructor; [|done]. split; [done|].
      rewrite Hn. by apply seg_next_after.
Qed.

Lemma reopened_order init init' a a' :
  StronglySorted seg_before (init ++ [a]) → base_offset a' = base_offset a →
  Forall2 (λ s s', base_offset s' = base_offset s ∧ next_offset s' ≤ next_offset s) init init' →
  StronglySorted seg_before (init' ++ [a']).
Proof.
  intros Ho Hb HF. induction HF as [|s s' init init' [Hbs Hns] HF IH]; [by repeat constructor|].
  inversion Ho as [|? ? Ho' Hall]; subst. cbn [app]. constructor; [by apply IH|].
  apply Forall_app in Hall as [Hall Ha]. apply Forall_cons in Ha as [[? ?] _].
  apply Forall_app; split; [|constructor; [split; lia|done]].
  rewrite Forall_forall in Hall |- *. intros x' Hx'.
  apply list_elem_of_lookup in Hx' as [i Hi].
  destruct (Forall2_lookup_r _ _ _ _ _ HF Hi) as (x & Hx & Hbx & Hnx).
  destruct (Hall x ltac:(by eapply list_elem_of_lookup_2)). split; lia.
Qed.

Lemma sorted_no_overlap segs : StronglySorted seg_before segs → no_overlap segs = true.
Proof.
  induction 1 as [|s segs Hs IH Hall]; [done|]. destruct segs as [|s1 segs]; [done|].
  cbn [no_overlap]. apply Forall_cons in Hall as [[_ ?] _]. rewrite Zleb_true by done. exact IH.
Qed.

Lemma reopen_ok l recs tail now :
  log_rep plat l recs → Forall (λ s, direct_io s = false) (segments l) →
  cfg_direct_io (config l) = false → stops tail →
  ∃ l', open plat (config l) (crash_files tail (segments l)) now = Ok l' ∧
    log_rep plat l' recs ∧ log_next_offset l' = log_next_offset l ∧ config l' = config l.
Proof.
  intros (init & a & ci & ca & L & ->) Hd Hcd Ht. destruct L as [Hs HF Hsl Aa Ho Hn Hc].
  rewrite Hs in Hd |- *. apply Forall_app in Hd as [_ Hd]. apply Forall_cons in Hd as [Hd _].
  destruct (open_segments_ok (config l) init ci a ca tail HF Hsl Aa Hd Hcd Ht)
    as (init' & a' & E & HF' & Hsl' & Aa' & Hb' & Hn' & HR).
  pose proof (reopened_order init init' a a' Ho Hb' HR) as Ho'.
  exists (mkPartitionLog (config l) (init' ++ [a']) (next_offset a') 0
    (GroupCommit.new (group_commit_max_ms (config l)) (effective_group_commit_max_records (config l))) 0).
  split; [|split; [|split; [cbn; congruence|done]]].
  - unfold open. destruct (crash_files tail (init ++ [a])) as [|f fs] eqn:Ef.
    { destruct init as [|? [|]]; discriminate Ef. }
    rewrite E. rewrite (sorted_no_overlap _ Ho'). cbn [negb]. by rewrite last_snoc.
  - exists init', a', ci, ca. done.
Qed.

End recovery.

(** ** Properties *)


