(* ===== verification/PartitionRaft.v ===== *)
(** * Per-partition Raft log: [volant-broker/src/replica/partition_raft.rs]

    One replica's log and hard state ([PartitionRaftState]) and the in-process
    group that replicates from a fixed leader ([PartitionRaftGroup]).  The two
    files a replica persists are part of its state; serde's encoding of them
    and the file system are not modelled, a save replaces the file. *)

From S2P Require Import Prelude.

Record PartitionRaftPayload := mkPayload { pl_offset : Z; pl_crc : Z }.

Record PartitionRaftEntry := mkEntry {
  e_term : Z;
  e_index : Z;
  e_payload : PartitionRaftPayload;
}.

Record PartitionRaftHardState := mkHardState {
  hs_current_term : Z;
  hs_voted_for : option Z;
  hs_commit_index : Z;
  hs_last_applied : Z;
}.

Definition default_hard_state : PartitionRaftHardState := mkHardState 0 None 0 0.

Record PartitionAppendResult := mkAppendResult {
  ar_term : Z;
  ar_success : bool;
  ar_match_index : Z;
}.

Record PartitionRaftState := mkRaftState {
  current_term : Z;
  voted_for : option Z;
  entries : list PartitionRaftEntry;
  commit_index : Z;
  last_applied : Z;
  match_index : gmap Z Z;
  append_success_total : Z;
  append_fail_total : Z;
  hard_file : option PartitionRaftHardState;
  log_file : option (list PartitionRaftEntry);
}.

#[export] Instance PartitionRaftPayload_eq_dec : EqDecision PartitionRaftPayload.
Proof. solve_decision. Defined.
#[export] Instance PartitionRaftEntry_eq_dec : EqDecision PartitionRaftEntry.
Proof. solve_decision. Defined.

(** [entries.last().map(|e| e.index).unwrap_or(0)] *)
Definition last_of (es : list PartitionRaftEntry) : Z :=
  match last es with Some e => e_index e | None => 0 end.

(** [entries.get((index as usize).saturating_sub(1))] *)
Definition slot (es : list PartitionRaftEntry) (index : Z) : option PartitionRaftEntry :=
  es !! Z.to_nat (saturating_sub index 1).

Definition persist_locked (s : PartitionRaftState) : PartitionRaftState :=
  mkRaftState (current_term s) (voted_for s) (entries s) (commit_index s) (last_applied s)
    (match_index s) (append_success_total s) (append_fail_total s)
    (Some (mkHardState (current_term s) (voted_for s) (commit_index s) (last_applied s)))
    (Some (entries s)).

Definition set_term (s : PartitionRaftState) (term : Z) (vote : option Z) : PartitionRaftState :=
  mkRaftState term vote (entries s) (commit_index s) (last_applied s) (match_index s)
    (append_success_total s) (append_fail_total s) (hard_file s) (log_file s).

Definition set_entries (s : PartitionRaftState) (es : list PartitionRaftEntry) : PartitionRaftState :=
  mkRaftState (current_term s) (voted_for s) es (commit_index s) (last_applied s) (match_index s)
    (append_success_total s) (append_fail_total s) (hard_file s) (log_file s).

Definition set_commit (s : PartitionRaftState) (c : Z) : PartitionRaftState :=
  mkRaftState (current_term s) (voted_for s) (entries s) c (last_applied s) (match_index s)
    (append_success_total s) (append_fail_total s) (hard_file s) (log_file s).

Definition set_applied (s : PartitionRaftState) (a : Z) : PartitionRaftState :=
  mkRaftState (current_term s) (voted_for s) (entries s) (commit_index s) a (match_index s)
    (append_success_total s) (append_fail_total s) (hard_file s) (log_file s).

Definition set_match (s : PartitionRaftState) (m : gmap Z Z) : PartitionRaftState :=
  mkRaftState (current_term s) (voted_for s) (entries s) (commit_index s) (last_applied s) m
    (append_success_total s) (append_fail_total s) (hard_file s) (log_file s).

Definition count_success (s : PartitionRaftState) : PartitionRaftState :=
  mkRaftState (current_term s) (voted_for s) (entries s) (commit_index s) (last_applied s)
    (match_index s) (as_u64 (append_success_total s + 1)) (append_fail_total s)
    (hard_file s) (log_file s).

(** ** One replica *)

(** The files as read: absent or unreadable files give the defaults. *)
Definition open (hard : option PartitionRaftHardState) (log : option (list PartitionRaftEntry))
    : PartitionRaftState :=
  let es := default [] log in
  let h := default default_hard_state hard in
  let last_idx := last_of es in
  let commit := Z.min (hs_commit_index h) last_idx in
  let applied := Z.min (hs_last_applied h) commit in
  mkRaftState (hs_current_term h) (hs_voted_for h) es commit applied ∅ 0 0 hard log.

Definition majority (n : Z) : Z := n / 2 + 1.

Definition last_index (s : PartitionRaftState) : Z := last_of (entries s).

Definition term_at (index : Z) (s : PartitionRaftState) : Z :=
  if index =? 0 then 0 else
  match slot (entries s) index with
  | Some e => if e_index e =? index then e_term e else 0
  | None => 0
  end.

Definition record_vote (term candidate : Z) (s : PartitionRaftState) : bool * PartitionRaftState :=
  let s := if current_term s <? term then set_term s term None else s in
  if term <? current_term s then (false, s) else
  match voted_for s with
  | None => (true, persist_locked (set_term s (current_term s) (Some candidate)))
  | Some id => if id =? candidate then (true, s) else (false, s)
  end.

Definition ensure_term (term : Z) (s : PartitionRaftState) : PartitionRaftState :=
  if current_term s <? term then persist_locked (set_term s term None) else s.

Definition append_produce (offset crc : Z) (s : PartitionRaftState)
    : PartitionRaftEntry * PartitionRaftState :=
  let s := if current_term s =? 0 then set_term s 1 (voted_for s) else s in
  let index := last_of (entries s) + 1 in
  let entry := mkEntry (current_term s) index (mkPayload offset crc) in
  (entry, persist_locked (set_entries s (entries s ++ [entry]))).

Definition record_match (replica_id index : Z) (s : PartitionRaftState) : PartitionRaftState :=
  let e := default 0 (match_index s !! replica_id) in
  set_match s (<[replica_id := if e <? index then index else e]> (match_index s)).

Definition match_index_of (replica_id : Z) (s : PartitionRaftState) : Z :=
  default 0 (match_index s !! replica_id).

Definition ge_Z (a b : Z) : Prop := b ≤ a.

#[export] Instance ge_Z_dec a b : Decision (ge_Z a b).
Proof. unfold ge_Z. apply _. Defined.

#[global] Typeclasses Opaque ge_Z.

Definition try_commit_majority (replica_count : Z) (s : PartitionRaftState)
    : bool * PartitionRaftState :=
  let need := majority (Z.max replica_count 1) in
  let last := last_of (entries s) in
  if last =? 0 then (false, s) else
  let matched := merge_sort ge_Z (map snd (map_to_list (match_index s))) in
  let majority_idx :=
    if need <=? zlen matched then default 0 (matched !! Z.to_nat (need - 1)) else 0 in
  let target := Z.min majority_idx last in
  if commit_index s <? target
  then (true, count_success (persist_locked (set_commit s target)))
  else (false, s).

Definition advance_commit (index : Z) (s : PartitionRaftState) : PartitionRaftState :=
  let target := Z.min index (last_of (entries s)) in
  if commit_index s <? target then persist_locked (set_commit s target) else s.

Definition note_append_fail (s : PartitionRaftState) : PartitionRaftState :=
  mkRaftState (current_term s) (voted_for s) (entries s) (commit_index s) (last_applied s)
    (match_index s) (append_success_total s) (as_u64 (append_fail_total s + 1))
    (hard_file s) (log_file s).

(** The pushes of [append_entries]: stops at the first index that is not next. *)
Fixpoint push_entries (es new : list PartitionRaftEntry) : bool * list PartitionRaftEntry :=
  match new with
  | [] => (true, es)
  | e :: new =>
    if negb (e_index e =? last_of es + 1) then (false, es) else push_entries (es ++ [e]) new
  end.

Definition append_entries (term prev_log_index prev_log_term : Z)
    (new : list PartitionRaftEntry) (leader_commit : Z) (s : PartitionRaftState)
    : PartitionAppendResult * PartitionRaftState :=
  let s := if current_term s <? term then set_term s term None else s in
  let prev_ok :=
    match slot (entries s) prev_log_index with
    | Some e => (e_index e =? prev_log_index) && (e_term e =? prev_log_term)
    | None => false
    end in
  if (0 <? prev_log_index) && negb prev_ok then
    (mkAppendResult (current_term s) false (last_of (entries s)), persist_locked s)
  else if negb (0 <? prev_log_index) && negb (prev_log_term =? 0) then
    (mkAppendResult (current_term s) false 0, persist_locked s)
  else
    let '(ok, s) :=
      match new with
      | first :: _ =>
        let keep := Z.to_nat (saturating_sub (e_index first) 1) in
        let s := set_entries s (take keep (entries s)) in
        (e_index first =? last_of (entries s) + 1, s)
      | [] => (true, s)
      end in
    if negb ok then
      (mkAppendResult (current_term s) false (last_of (entries s)), persist_locked s)
    else
      let '(ok, es) := push_entries (entries s) new in
      let s := set_entries s es in
      if negb ok then
        (mkAppendResult (current_term s) false (last_of (entries s)), persist_locked s)
      else
        let last := last_of (entries s) in
        let new_commit := Z.min leader_commit last in
        let s := if commit_index s <? new_commit then set_commit s new_commit else s in
        (mkAppendResult (current_term s) true last, persist_locked s).

(** The loop drains one entry per turn up to the commit index. *)
Fixpoint drain (fuel : nat) (applied commit : Z) (es : list PartitionRaftEntry)
    : list PartitionRaftEntry * Z :=
  match fuel with
  | O => ([], applied)
  | S fuel =>
    if applied <? commit then
      let next := applied + 1 in
      match slot es next with
      | Some e =>
        if e_index e =? next then
          let '(out, a) := drain fuel next commit es in (e :: out, a)
        else ([], applied)
      | None => ([], applied)
      end
    else ([], applied)
  end.

Definition take_entries_to_apply (s : PartitionRaftState)
    : list PartitionRaftEntry * PartitionRaftState :=
  let '(out, applied) :=
    drain (Z.to_nat (commit_index s - last_applied s)) (last_applied s) (commit_index s) (entries s) in
  let s := set_applied s applied in
  (out, if bool_decide (out = []) then s else persist_locked s).

Definition entry_at (index : Z) (s : PartitionRaftState) : option PartitionRaftEntry :=
  if index =? 0 then None else
  match slot (entries s) index with
  | Some e => if e_index e =? index then Some e else None
  | None => None
  end.

(** ** The group *)

Record PartitionRaftGroup := mkGroup {
  leader_id : Z;
  replica_ids : list Z;
  replicas : gmap Z PartitionRaftState;
}.

Definition set_replicas (g : PartitionRaftGroup) (m : gmap Z PartitionRaftState) : PartitionRaftGroup :=
  mkGroup (leader_id g) (replica_ids g) m.

(** Every replica opened from its files. *)
Definition open_group (files : Z → option PartitionRaftHardState * option (list PartitionRaftEntry))
    (ids : list Z) (leader : Z) : PartitionRaftGroup :=
  mkGroup leader ids
    (foldl (λ m id, <[id := open (fst (files id)) (snd (files id))]> m) ∅ ids).

(** One follower of the first round: AppendEntries, then [record_match]. *)
Definition replicate_one (entry : PartitionRaftEntry) (prev_idx prev_term : Z)
    (st : PartitionRaftState * gmap Z PartitionRaftState) (leader id : Z)
    : PartitionRaftState * gmap Z PartitionRaftState :=
  let '(l, m) := st in
  if id =? leader then (l, m) else
  match m !! id with
  | None => (l, m)
  | Some f =>
    let '(r, f') := append_entries (e_term entry) prev_idx prev_term [entry] 0 f in
    (if ar_success r then record_match id (ar_match_index r) l else l, <[id := f']> m)
  end.

(** One follower of the second round: the commit index is pushed. *)
Definition push_commit (entry : PartitionRaftEntry) (commit leader : Z)
    (m : gmap Z PartitionRaftState) (id : Z) : gmap Z PartitionRaftState :=
  if id =? leader then m else
  match m !! id with
  | None => m
  | Some f =>
    <[id := snd (append_entries (e_term entry) (e_index entry) (e_term entry) [] commit f)]> m
  end.

(** [None] is the panic of the [expect] on a group without its leader. *)
Definition append_replicated (offset crc : Z) (ack_ids : list Z) (g : PartitionRaftGroup)
    : option ((Z * bool) * PartitionRaftGroup) :=
  match replicas g !! leader_id g with
  | None => None
  | Some leader =>
    let '(entry, leader) := append_produce offset crc leader in
    let leader := record_match (leader_id g) (e_index entry) leader in
    let prev_idx := saturating_sub (e_index entry) 1 in
    let prev_term := term_at prev_idx leader in
    let '(leader, m) :=
      foldl (λ st id, replicate_one entry prev_idx prev_term st (leader_id g) id)
        (leader, replicas g) ack_ids in
    let '(committed, leader) := try_commit_majority (zlen (replica_ids g)) leader in
    if committed then
      let m := foldl (push_commit entry (commit_index leader) (leader_id g)) m ack_ids in
      Some ((e_index entry, true), set_replicas g (<[leader_id g := leader]> m))
    else
      Some ((e_index entry, false),
            set_replicas g (<[leader_id g := note_append_fail leader]> m))
  end.

Definition apply (id : Z) (g : PartitionRaftGroup) : list PartitionRaftEntry * PartitionRaftGroup :=
  match replicas g !! id with
  | Some r => let '(out, r') := take_entries_to_apply r in
              (out, set_replicas g (<[id := r']> (replicas g)))
  | None => ([], g)
  end.
