(* ===== verification/PartitionRaftProps.v ===== *)
(** * Correctness of the partition Raft log

    A replica keeps its log densely numbered with
    [last_applied ≤ commit_index ≤ last index] and its files in step with its
    memory; a group with a fixed leader keeps every follower's log a prefix of
    the leader's and commits only what a majority holds. *)

From S2P Require Import Prelude PartitionRaft.

(** ** Densely numbered logs *)

Definition wf_log (es : list PartitionRaftEntry) : Prop :=
  ∀ i e, es !! i = Some e → e_index e = Z.of_nat i + 1.

Lemma wf_nil : wf_log [].
Proof. by intros i e. Qed.

Lemma wf_last es : wf_log es → last_of es = zlen es.
Proof.
  intros Hw. unfold last_of. rewrite last_lookup.
  destruct (es !! pred (length es)) as [e|] eqn:E.
  - rewrite (Hw _ _ E). apply lookup_lt_Some in E. unfold zlen. lia.
  - apply lookup_ge_None in E. unfold zlen. destruct es; cbn in *; lia.
Qed.

Lemma wf_snoc es e : wf_log es → e_index e = zlen es + 1 → wf_log (es ++ [e]).
Proof.
  intros Hw He i x [Hi|(Hi & Hx)]%lookup_app_Some; [by apply Hw|].
  destruct (i - length es)%nat eqn:Ed; [|done]. cbn in Hx. injection Hx as <-.
  rewrite He. unfold zlen. lia.
Qed.

Lemma wf_take es n : wf_log es → wf_log (take n es).
Proof. intros Hw i e [Hi _]%lookup_take_Some. by apply Hw. Qed.

Lemma wf_prefix es es' : es `prefix_of` es' → wf_log es' → wf_log es.
Proof. intros [k ->] Hw i e Hi. apply Hw. by apply lookup_app_l_Some. Qed.

Lemma slot_wf es i :
  wf_log es → 1 ≤ i ≤ zlen es → ∃ e, slot es i = Some e ∧ e_index e = i ∧ es !! Z.to_nat (i - 1) = Some e.
Proof.
  intros Hw Hi. unfold slot, saturating_sub. rewrite Z.max_r by lia.
  destruct (lookup_lt_is_Some_2 es (Z.to_nat (i - 1))) as [e He]; [unfold zlen in *; lia|].
  exists e. split; [done|]. split; [|done]. rewrite (Hw _ _ He). lia.
Qed.

Lemma slot_past es i : 0 ≤ i → zlen es < i → slot es i = None.
Proof.
  intros H0 Hi. unfold slot, saturating_sub. apply lookup_ge_None. unfold zlen in *. lia.
Qed.

Lemma push_entries_spec new : ∀ es ok es',
  wf_log es → push_entries es new = (ok, es') →
  wf_log es' ∧ es `prefix_of` es' ∧ (ok = true → es' = es ++ new).
Proof.
  induction new as [|e new IH]; intros es ok es' Hw; cbn [push_entries].
  - intros [= <- <-]. split; [done|]. split; [done|]. by rewrite app_nil_r.
  - rewrite (wf_last _ Hw). destruct (Z.eqb_spec (e_index e) (zlen es + 1)) as [He|He]; cbn [negb].
    + intros E. destruct (IH _ _ _ (wf_snoc _ _ Hw He) E) as (Hw' & Hp & Hok).
      split; [done|]. split; [|intros Hx; by rewrite (Hok Hx), <- app_assoc].
      etrans; [|exact Hp]. by apply prefix_app_r.
    + intros [= <- <-]. done.
Qed.

(** ** The invariant of a replica *)

Record replica_inv (s : PartitionRaftState) : Prop := {
  ri_wf : wf_log (entries s);
  ri_applied : 0 ≤ last_applied s ≤ commit_index s;
  ri_commit : commit_index s ≤ zlen (entries s);
}.

(** The files hold what a restart needs. *)
Definition synced (s : PartitionRaftState) : Prop :=
  default default_hard_state (hard_file s) =
    mkHardState (current_term s) (voted_for s) (commit_index s) (last_applied s) ∧
  default [] (log_file s) = entries s.

Lemma synced_persist s : synced (persist_locked s).
Proof. done. Qed.

Lemma inv_persist s : replica_inv s → replica_inv (persist_locked s).
Proof. by intros [? ? ?]. Qed.

Lemma open_inv hard log :
  wf_log (default [] log) → 0 ≤ hs_commit_index (default default_hard_state hard) →
  0 ≤ hs_last_applied (default default_hard_state hard) → replica_inv (open hard log).
Proof.
  intros Hw Hc Ha. split; cbn; [done| |]; rewrite (wf_last _ Hw).
  - pose proof (zlen_nonneg (default [] log)). lia.
  - lia.
Qed.

(** A restart of a replica whose files are in step forgets only the volatile
    match table and counters. *)
Lemma open_synced s :
  replica_inv s → synced s →
  let s' := open (hard_file s) (log_file s) in
  current_term s' = current_term s ∧ voted_for s' = voted_for s ∧ entries s' = entries s ∧
  commit_index s' = commit_index s ∧ last_applied s' = last_applied s ∧ match_index s' = ∅.
Proof.
  intros [Hw Ha Hc] [Hh Hl]. cbn. rewrite Hh, Hl. cbn. rewrite (wf_last _ Hw).
  repeat split; lia.
Qed.

(** ** Operations *)

(** Case split on the outermost test of [H]. *)
Ltac top_if H :=
  lazymatch type of H with
  | (if ?b then _ else _) = _ => let E := fresh "Ec" in destruct b eqn:E
  end.

Lemma append_produce_ok off crc s :
  replica_inv s →
  let '(e, s') := append_produce off crc s in
  replica_inv s' ∧ synced s' ∧ entries s' = entries s ++ [e] ∧ e_index e = zlen (entries s) + 1 ∧
  e_payload e = mkPayload off crc ∧ commit_index s' = commit_index s ∧
  last_applied s' = last_applied s ∧ match_index s' = match_index s ∧
  current_term s ≤ current_term s' ∧ e_term e = current_term s'.
Proof.
  intros [Hw Ha Hc]. unfold append_produce.
  assert (Hes : entries (if current_term s =? 0 then set_term s 1 (voted_for s) else s) = entries s)
    by (by destruct (_ =? _)).
  rewrite Hes, (wf_last _ Hw).
  split; [|destruct (Z.eqb_spec (current_term s) 0); cbn; repeat split; try done; lia].
  apply inv_persist. split; cbn.
  - by apply wf_snoc.
  - by destruct (_ =? _).
  - unfold zlen in *. rewrite length_app. cbn [length]. destruct (_ =? _); cbn; lia.
Qed.

(** What AppendEntries does to the log and the commit index. *)
Definition entries_after (prev : Z) (new es : list PartitionRaftEntry) : list PartitionRaftEntry :=
  match new with [] => es | _ => take (Z.to_nat prev) es ++ new end.

Lemma append_entries_keeps term pi pt new lc s r s' :
  replica_inv s → append_entries term pi pt new lc s = (r, s') →
  (∀ e new', new = e :: new' → commit_index s < e_index e) →
  replica_inv s' ∧ synced s' ∧ commit_index s ≤ commit_index s' ∧ last_applied s' = last_applied s ∧
  match_index s' = match_index s ∧ current_term s' = Z.max (current_term s) term ∧
  (voted_for s' = voted_for s ∨ current_term s < term).
Proof.
  intros [Hw Ha Hc] E Hguard. unfold append_entries in E.
  set (s0 := if current_term s <? term then set_term s term None else s) in *.
  assert (H0 : entries s0 = entries s ∧ commit_index s0 = commit_index s ∧
    last_applied s0 = last_applied s ∧ match_index s0 = match_index s ∧
    current_term s0 = Z.max (current_term s) term ∧ (voted_for s0 = voted_for s ∨ current_term s < term)).
  { unfold s0. destruct (Z.ltb_spec (current_term s) term); cbn; repeat split; auto; lia. }
  destruct H0 as (He0 & Hc0 & Ha0 & Hm0 & Ht0 & Hv0).
  assert (I0 : replica_inv s0) by (split; rewrite ?He0, ?Hc0, ?Ha0; done).
  top_if E; [injection E as <- <-; cbn; split; [by apply inv_persist|]; split; [done|]; split; [lia|done]|].
  top_if E; [injection E as <- <-; cbn; split; [by apply inv_persist|]; split; [done|]; split; [lia|done]|].
  set (es1 := match new with e :: _ => take (Z.to_nat (saturating_sub (e_index e) 1)) (entries s0)
              | [] => entries s0 end).
  assert (H1 : wf_log es1 ∧ commit_index s ≤ zlen es1).
  { unfold es1. rewrite He0. destruct new as [|e new']; [done|]. split; [by apply wf_take|].
    specialize (Hguard e new' eq_refl). unfold saturating_sub, zlen in *. rewrite length_take. lia. }
  destruct H1 as [Hw1 Hc1].
  assert (Hset : ∃ ok1, (match new with
      | [] => (true, s0)
      | first :: _ =>
        (e_index first =? last_of (entries (set_entries s0 (take (Z.to_nat (saturating_sub (e_index first) 1)) (entries s0)))) + 1,
         set_entries s0 (take (Z.to_nat (saturating_sub (e_index first) 1)) (entries s0)))
      end) = (ok1, set_entries s0 es1)).
  { unfold es1. destruct new as [|e new']; [|eauto]. exists true. f_equal. by destruct s0. }
  destruct Hset as [ok1 Hset]. rewrite Hset in E. clear Hset.
  top_if E.
  { injection E as <- <-. cbn. rewrite ?Hc0, ?Ha0, ?Hm0. split; [|split; [done|split; [lia|done]]].
    apply inv_persist. split; cbn; rewrite ?Hc0, ?Ha0; done. }
  cbn [entries set_entries] in E. destruct (push_entries es1 new) as [ok2 es2] eqn:Ep.
  destruct (push_entries_spec _ _ _ _ Hw1 Ep) as (Hw2 & [k Hk] & _).
  assert (Hc2 : commit_index s ≤ zlen es2) by (rewrite Hk, zlen_app; pose proof (zlen_nonneg k); lia).
  top_if E.
  { injection E as <- <-. cbn. rewrite ?Hc0, ?Ha0, ?Hm0. split; [|split; [done|split; [lia|done]]].
    apply inv_persist. split; cbn; rewrite ?Hc0, ?Ha0; done. }
  injection E as <- <-. cbn. rewrite (wf_last _ Hw2), Hc0. destruct (Z.ltb_spec (commit_index s) (Z.min lc (zlen es2))); cbn;
    rewrite ?Hc0, ?Ha0, ?Hm0; (split; [|split; [done|split; [lia|done]]]);
    apply inv_persist; split; cbn; rewrite ?Hc0, ?Ha0; try done; lia.
Qed.

Lemma bump_entries s term :
  entries (if current_term s <? term then set_term s term None else s) = entries s ∧
  commit_index (if current_term s <? term then set_term s term None else s) = commit_index s.
Proof. by destruct (_ <? _). Qed.

Lemma prev_check_bound es pi pt :
  wf_log es → 0 ≤ pi →
  (0 <? pi) && negb (match slot es pi with
                     | Some e => (e_index e =? pi) && (e_term e =? pt) | None => false end) = false →
  pi ≤ zlen es.
Proof.
  intros Hw H0 Hp. destruct (decide (zlen es < pi)) as [Hlt|]; [|lia].
  pose proof (zlen_nonneg es). rewrite Zltb_true in Hp by lia.
  by rewrite slot_past in Hp by lia.
Qed.

Lemma zlen_take_le {A} (es : list A) n : 0 ≤ n ≤ zlen es → zlen (take (Z.to_nat n) es) = n.
Proof. intros Hn. unfold zlen in *. rewrite length_take. lia. Qed.

(** Entries that follow on from [pi]: accepted only where the log reaches
    [pi], and then the log is cut there and continued with them. *)
Lemma append_entries_accepts term pi pt new lc s r s' :
  replica_inv s → 0 ≤ pi → append_entries term pi pt new lc s = (r, s') →
  (∀ e new', new = e :: new' → e_index e = pi + 1) →
  ar_success r = true →
  pi ≤ zlen (entries s) ∧ entries s' = entries_after pi new (entries s) ∧
  ar_match_index r = zlen (entries s') ∧
  commit_index s' = Z.max (commit_index s) (Z.min lc (zlen (entries s'))).
Proof.
  intros [Hw Ha Hc] H0 E Hnew Hok. unfold append_entries in E.
  set (s0 := if current_term s <? term then set_term s term None else s) in *.
  destruct (bump_entries s term) as [He0 Hc0]. fold s0 in He0, Hc0.
  top_if E; [injection E as <- <-; done|]. rewrite He0 in Ec.
  apply prev_check_bound in Ec; [|done..].
  top_if E; [injection E as <- <-; done|]. split; [done|].
  assert (Hset : (match new with
      | [] => (true, s0)
      | first :: _ =>
        (e_index first =? last_of (entries (set_entries s0 (take (Z.to_nat (saturating_sub (e_index first) 1)) (entries s0)))) + 1,
         set_entries s0 (take (Z.to_nat (saturating_sub (e_index first) 1)) (entries s0)))
      end) = (true, set_entries s0 (match new with [] => entries s | _ => take (Z.to_nat pi) (entries s) end))).
  { destruct new as [|e new']; [f_equal; rewrite <- He0; by destruct s0|].
    rewrite He0, (Hnew e new' eq_refl). unfold saturating_sub.
    replace (Z.max 0 (pi + 1 - 1)) with pi by lia. cbn [entries set_entries].
    rewrite (wf_last _ (wf_take _ _ Hw)), zlen_take_le by lia. by rewrite Z.eqb_refl. }
  rewrite Hset in E. clear Hset. cbn [negb entries set_entries] in E.
  set (es1 := match new with [] => entries s | _ => _ end) in *.
  assert (Hw1 : wf_log es1) by (unfold es1; destruct new; [done|by apply wf_take]).
  destruct (push_entries es1 new) as [ok2 es2] eqn:Ep.
  destruct (push_entries_spec _ _ _ _ Hw1 Ep) as (Hw2 & _ & Hes2).
  top_if E; [injection E as <- <-; done|]. destruct ok2; [|done].
  injection E as <- <-. cbn [ar_match_index]. rewrite (wf_last _ Hw2).
  assert (es2 = entries_after pi new (entries s)) as <-.
  { rewrite (Hes2 eq_refl). unfold es1, entries_after. destruct new; [by rewrite app_nil_r|done]. }
  cbn [commit_index set_entries]. rewrite Hc0.
  destruct (Z.ltb_spec (commit_index s) (Z.min lc (zlen es2))); cbn; rewrite ?Hc0; repeat split; lia.
Qed.

(** A single entry is either taken or leaves the log as it was. *)
Lemma append_one_refused term pi pt e lc s r s' :
  replica_inv s → 0 ≤ pi → e_index e = pi + 1 →
  append_entries term pi pt [e] lc s = (r, s') → ar_success r = false →
  entries s' = entries s ∧ commit_index s' = commit_index s.
Proof.
  intros [Hw Ha Hc] H0 He E Hok. unfold append_entries in E.
  set (s0 := if current_term s <? term then set_term s term None else s) in *.
  destruct (bump_entries s term) as [He0 Hc0]. fold s0 in He0, Hc0.
  top_if E; [by injection E as <- <-|]. rewrite He0 in Ec. apply prev_check_bound in Ec; [|done..].
  top_if E; [by injection E as <- <-|]. exfalso.
  rewrite He0, He in E. unfold saturating_sub in E.
  replace (Z.max 0 (pi + 1 - 1)) with pi in E by lia. cbn [entries set_entries push_entries] in E.
  rewrite He, (wf_last _ (wf_take _ _ Hw)), zlen_take_le, Z.eqb_refl in E by lia. cbn [negb] in E.
  injection E as <- <-. done.
Qed.

(** ** Applying *)

Lemma drain_spec n : ∀ applied commit es,
  wf_log es → 0 ≤ applied ≤ commit → commit ≤ zlen es → Z.to_nat (commit - applied) = n →
  drain n applied commit es =
    (take n (drop (Z.to_nat applied) es), commit).
Proof.
  induction n as [|n IH]; intros applied commit es Hw Ha Hc Hn; cbn [drain].
  - rewrite take_0. f_equal. lia.
  - rewrite Zltb_true by lia.
    destruct (slot_wf es (applied + 1) Hw ltac:(lia)) as (e & -> & He & Hl).
    rewrite He, Z.eqb_refl, (IH (applied + 1)) by (done || lia).
    replace (Z.to_nat (applied + 1 - 1)) with (Z.to_nat applied) in Hl by lia.
    rewrite (drop_S _ _ _ Hl). cbn [take]. by rewrite Z2Nat.inj_add, Nat.add_1_r by lia.
Qed.

(** The committed entries not applied yet, in order, all at once. *)
Lemma take_entries_spec s :
  replica_inv s →
  let '(out, s') := take_entries_to_apply s in
  out = drop (Z.to_nat (last_applied s)) (take (Z.to_nat (commit_index s)) (entries s)) ∧
  last_applied s' = commit_index s ∧ replica_inv s' ∧ entries s' = entries s ∧
  commit_index s' = commit_index s ∧ match_index s' = match_index s ∧
  current_term s' = current_term s ∧ voted_for s' = voted_for s ∧ (synced s → synced s').
Proof.
  intros [Hw Ha Hc]. unfold take_entries_to_apply.
  rewrite (drain_spec _ _ _ _ Hw Ha Hc eq_refl).
  set (out := take _ _).
  assert (Hout : out = drop (Z.to_nat (last_applied s)) (take (Z.to_nat (commit_index s)) (entries s))).
  { unfold out. rewrite skipn_firstn_comm. f_equal. lia. }
  case_bool_decide as Hb.
  - assert (commit_index s = last_applied s) as Heq.
    { destruct (decide (last_applied s < commit_index s)) as [Hlt|]; [|lia]. exfalso.
      assert (Hl : length out = O) by by rewrite Hb. unfold out in Hl.
      rewrite length_take, length_drop in Hl. unfold zlen in Hc. lia. }
    split; [done|]. split; [done|]. rewrite Heq. cbn.
    split; [split; cbn; [done|lia|lia]|]. do 5 (split; [done|]).
    intros [Hh Hl]. split; cbn; [by rewrite Hh, Heq|done].
  - split; [done|]. split; [done|]. split; [apply inv_persist; split; cbn; [done|lia|done]|].
    do 5 (split; [done|]). done.
Qed.

(** ** Committing *)

Lemma length_filter_snd {A B} (P : B → Prop) `{∀ x, Decision (P x)} (l : list (A * B)) :
  length (filter (λ kv, P kv.2) l) = length (filter P (map snd l)).
Proof.
  induction l as [|[a b] l IH]; [done|]. cbn [map snd]. rewrite !filter_cons. cbn [snd].
  destruct (decide (P b)); cbn; lia.
Qed.

(** The entry at position [i] of a descending list is a lower bound of [i+1]
    elements. *)
Lemma sorted_count (l : list Z) (i : nat) (v : Z) :
  StronglySorted ge_Z l → l !! i = Some v → (S i ≤ length (filter (λ x, (v ≤ x)%Z) l))%nat.
Proof.
  intros Hs. revert i. induction Hs as [|x l Hs IH Hall]; intros i Hi; [done|].
  destruct i as [|i]; cbn in Hi.
  - injection Hi as ->. rewrite filter_cons_True by done. cbn. lia.
  - assert (v ≤ x) by (rewrite Forall_forall in Hall; apply Hall; by eapply list_elem_of_lookup_2).
    rewrite filter_cons_True by done. cbn. specialize (IH i Hi). lia.
Qed.

Lemma matched_ids (m : gmap Z Z) i v :
  merge_sort ge_Z (map snd (map_to_list m)) !! i = Some v →
  ∃ ids, NoDup ids ∧ (S i ≤ length ids)%nat ∧ ∀ id, id ∈ ids → ∃ x, m !! id = Some x ∧ v ≤ x.
Proof.
  intros Hi. exists (map fst (filter (λ kv, v ≤ kv.2) (map_to_list m))). split; [|split].
  - apply (sublist_NoDup _ (map fst (map_to_list m))); [apply (NoDup_fst_map_to_list m)|].
    apply fmap_sublist, sublist_filter.
  - rewrite length_map. pose proof (length_filter_snd (λ x, v ≤ x) (map_to_list m)) as Hl.
    cbn beta in Hl. rewrite Hl, <- (merge_sort_Permutation ge_Z (map snd (map_to_list m))).
    apply sorted_count; [|done]. apply StronglySorted_merge_sort.
    + intros a b c. unfold ge_Z. lia.
    + intros a b. unfold ge_Z. lia.
  - intros id ([k x] & -> & [Hv Hin]%list_elem_of_filter)%list_elem_of_fmap. cbn in *.
    exists x. split; [|done]. by apply elem_of_map_to_list.
Qed.

Lemma try_commit_spec n s b s' :
  replica_inv s → try_commit_majority n s = (b, s') →
  replica_inv s' ∧ entries s' = entries s ∧ match_index s' = match_index s ∧
  last_applied s' = last_applied s ∧ current_term s' = current_term s ∧ voted_for s' = voted_for s ∧
  commit_index s ≤ commit_index s' ∧ (synced s → synced s') ∧
  (b = true → commit_index s < commit_index s' ∧
     ∃ ids, NoDup ids ∧ majority (Z.max n 1) ≤ zlen ids ∧
       ∀ id, id ∈ ids → ∃ i, match_index s !! id = Some i ∧ commit_index s' ≤ i).
Proof.
  intros I E. pose proof I as [Hw Ha Hc]. unfold try_commit_majority in E.
  rewrite (wf_last _ Hw) in E.
  top_if E; [injection E as <- <-; do 6 (split; [done|]); split; [lia|]; split; [done|by intros]|].
  set (matched := merge_sort _ _) in *. set (need := majority _) in *.
  set (target := Z.min _ _) in *.
  top_if E; injection E as <- <-; [|do 6 (split; [done|]); split; [lia|]; split; [done|by intros]].
  apply Z.ltb_lt in Ec0. assert (Ht : target ≤ zlen (entries s)) by (unfold target; lia).
  split; [split; cbn; [done|lia|done]|]. do 5 (split; [done|]). split; [cbn; lia|].
  split; [done|]. intros _. split; [cbn; lia|]. cbn [commit_index count_success persist_locked set_commit].
  assert (Hn : 1 ≤ need) by (unfold need, majority; pose proof (Z.div_pos (Z.max n 1) 2); lia).
  revert Ec0 Ht. unfold target. destruct (Z.leb_spec need (zlen matched)) as [Hle|]; [|lia].
  destruct (matched !! Z.to_nat (need - 1)) as [v|] eqn:Hv; cbn [default]; [|lia]. intros Hlt Ht.
  destruct (matched_ids _ _ _ Hv) as (ids & Hnd & Hlen & Hids).
  exists ids. split; [done|]. split; [unfold zlen; lia|]. intros id Hid.
  destruct (Hids id Hid) as (x & Hx & ?). exists x. split; [done|]. cbn. lia.
Qed.

(** ** The group *)

(** Every follower's log is a prefix of the leader's log [es], and what the
    leader believes about a replica is true of it. *)
Record group_inv (g : PartitionRaftGroup) (es : list PartitionRaftEntry) : Prop := {
  gi_leader : ∃ l, replicas g !! leader_id g = Some l ∧ entries l = es ∧
    ∀ id i, match_index l !! id = Some i → ∃ f, replicas g !! id = Some f ∧ i ≤ zlen (entries f);
  gi_replicas : ∀ id f, replicas g !! id = Some f → replica_inv f ∧ entries f `prefix_of` es;
}.

(** The state between the followers of a round: the leader [l] beside the
    followers [m]. *)
Record round_inv (leader : Z) (es : list PartitionRaftEntry) (e : PartitionRaftEntry)
    (l : PartitionRaftState) (m : gmap Z PartitionRaftState) : Prop := {
  rd_leader : replica_inv l ∧ entries l = es ++ [e];
  rd_followers : ∀ id f, id ≠ leader → m !! id = Some f →
    replica_inv f ∧ entries f `prefix_of` es ++ [e] ∧ commit_index f ≤ zlen es;
  rd_match : ∀ id i, match_index l !! id = Some i →
    (id = leader ∧ i ≤ zlen (es ++ [e])) ∨
    (id ≠ leader ∧ ∃ f, m !! id = Some f ∧ i ≤ zlen (entries f));
}.

Lemma prefix_take_le (es k : list PartitionRaftEntry) n :
  k `prefix_of` es → (n ≤ length k)%nat → take n k = take n es.
Proof. intros [r ->] Hn. by rewrite take_app_le. Qed.

(** A follower that takes the new entry has the leader's whole log. *)
Lemma follower_takes es e f pt lc r f' :
  replica_inv f → entries f `prefix_of` es ++ [e] → commit_index f ≤ zlen es →
  e_index e = zlen es + 1 →
  append_entries (e_term e) (zlen es) pt [e] lc f = (r, f') →
  replica_inv f' ∧ entries f' `prefix_of` es ++ [e] ∧
  zlen (entries f) ≤ zlen (entries f') ∧ commit_index f ≤ commit_index f' ∧
  (lc = 0 → commit_index f' = commit_index f) ∧
  (ar_success r = true → ar_match_index r = zlen (entries f')).
Proof.
  intros I Hp Hc He E. pose proof (zlen_nonneg es).
  destruct (append_entries_keeps _ _ _ _ _ _ _ _ I E) as (I' & _ & Hcm & _).
  { intros x new' [= <- _]. lia. }
  destruct (ar_success r) eqn:Hs.
  - destruct (append_entries_accepts _ _ _ _ _ _ _ _ I H E) as (Hle & Hes & Hm & Hcc); [|done|].
    { intros x new' [= <- _]. done. }
    assert (Heq : entries f' = es ++ [e]).
    { rewrite Hes. unfold entries_after.
      replace (Z.to_nat (zlen es)) with (length es) by (unfold zlen; lia).
      rewrite (prefix_take_le (es ++ [e]) (entries f) (length es) Hp) by (unfold zlen in Hle; lia).
      by rewrite take_app_length. }
    rewrite Heq in Hm, Hcc |- *. split; [done|]. split; [done|].
    split; [apply prefix_length in Hp; unfold zlen; lia|]. split; [done|]. split; [|done].
    intros ->. rewrite Hcc. pose proof (ri_applied _ I). pose proof (zlen_nonneg (es ++ [e])). lia.
  - pose proof (append_one_refused _ _ _ _ _ _ _ _ I H He E Hs) as [Heq Hcq].
    rewrite Heq, Hcq. split; [done|]. split; [done|]. split; [lia|]. split; [lia|]. done.
Qed.

Lemma record_match_frame id i s :
  entries (record_match id i s) = entries s ∧ commit_index (record_match id i s) = commit_index s ∧
  last_applied (record_match id i s) = last_applied s ∧
  (replica_inv s → replica_inv (record_match id i s)).
Proof. repeat split; try done; apply H. Qed.

Lemma record_match_lookup id i s id' x :
  match_index (record_match id i s) !! id' = Some x →
  (id' = id ∧ (x = i ∨ x = 0 ∨ match_index s !! id' = Some x)) ∨ match_index s !! id' = Some x.
Proof.
  cbn. intros [[<- <-]|[_ Hl]]%lookup_insert_Some; [left; split; [done|]|by right].
  destruct (match_index s !! id) as [y|]; cbn; case_if; auto.
Qed.

(** Followers stay, with logs and commit indexes that do not shrink. *)
Definition grows (leader : Z) (m m' : gmap Z PartitionRaftState) : Prop :=
  ∀ j f, j ≠ leader → m !! j = Some f →
    ∃ f', m' !! j = Some f' ∧ zlen (entries f) ≤ zlen (entries f') ∧ commit_index f ≤ commit_index f'.

Lemma grows_refl leader m : grows leader m m.
Proof. intros j f _ Hj. exists f. split; [done|lia]. Qed.

Lemma grows_trans leader m1 m2 m3 : grows leader m1 m2 → grows leader m2 m3 → grows leader m1 m3.
Proof.
  intros G1 G2 j f Hj Hf. destruct (G1 j f Hj Hf) as (f1 & H1 & ? & ?).
  destruct (G2 j f1 Hj H1) as (f2 & H2 & ? & ?). exists f2. split; [done|lia].
Qed.

Lemma grows_insert leader m id f f' :
  m !! id = Some f → zlen (entries f) ≤ zlen (entries f') → commit_index f ≤ commit_index f' →
  grows leader m (<[id := f']> m).
Proof.
  intros Hid Hl Hc j f0 Hj Hf. destruct (decide (j = id)) as [->|Hne].
  - exists f'. rewrite lookup_insert_eq. rewrite Hid in Hf. injection Hf as <-. done.
  - exists f0. rewrite lookup_insert_ne by done. split; [done|lia].
Qed.

Lemma replicate_one_inv leader es e pt l m id l' m' :
  round_inv leader es e l m → e_index e = zlen es + 1 →
  replicate_one e (zlen es) pt (l, m) leader id = (l', m') →
  round_inv leader es e l' m' ∧ commit_index l' = commit_index l ∧ last_applied l' = last_applied l ∧
  grows leader m m'.
Proof.
  intros [[Hl He] Hf Hm] Hidx E. pose proof (grows_refl leader m). unfold replicate_one in E.
  destruct (Z.eqb_spec id leader) as [->|Hne]; [injection E as <- <-; done|].
  destruct (m !! id) as [f|] eqn:Hid; [|injection E as <- <-; done].
  destruct (Hf id f Hne Hid) as (If & Hp & Hc).
  destruct (append_entries _ _ _ _ _ f) as [r f'] eqn:Ea. injection E as <- <-.
  destruct (follower_takes es e f pt 0 r f' If Hp Hc Hidx Ea) as (If' & Hp' & Hlen & _ & Hc0 & Hok).
  specialize (Hc0 eq_refl).
  set (l1 := if ar_success r then _ else l).
  assert (Hl1 : entries l1 = entries l ∧ commit_index l1 = commit_index l ∧
    last_applied l1 = last_applied l ∧ replica_inv l1).
  { unfold l1. destruct (ar_success r); [|done].
    destruct (record_match_frame id (ar_match_index r) l) as (? & ? & ? & Hri). auto. }
  destruct Hl1 as (E1 & E2 & E3 & I1). split; [|do 2 (split; [done|])].
  - split; [by rewrite E1| |].
    + intros id' f0 Hne' [[<- <-]|[_ H0]]%lookup_insert_Some; [|by eapply Hf].
      split; [done|]. split; [done|lia].
    + intros id' i Hi. assert (Hcase : match_index l !! id' = Some i ∨ (id' = id ∧ i ≤ zlen (entries f'))).
      { unfold l1 in Hi. destruct (ar_success r); [|by left].
        apply record_match_lookup in Hi as [[-> [->|[->|?]]]|?]; [right|right|by left..].
        - split; [done|]. by rewrite Hok.
        - split; [done|]. apply zlen_nonneg. }
      destruct Hcase as [Hi'|[-> Hi']].
      * destruct (Hm id' i Hi') as [?|[Hne' (f0 & H0 & Hle)]]; [by left|right]. split; [done|].
        destruct (decide (id' = id)) as [->|].
        -- exists f'. rewrite lookup_insert_eq. split; [done|]. rewrite Hid in H0. injection H0 as <-. lia.
        -- exists f0. by rewrite lookup_insert_ne.
      * right. split; [done|]. exists f'. by rewrite lookup_insert_eq.
  - apply (grows_insert _ _ _ f); [done|done|lia].
Qed.

Lemma replicate_round leader es e pt ids : ∀ l m l' m',
  round_inv leader es e l m → e_index e = zlen es + 1 →
  foldl (λ st id, replicate_one e (zlen es) pt st leader id) (l, m) ids = (l', m') →
  round_inv leader es e l' m' ∧ commit_index l' = commit_index l ∧ last_applied l' = last_applied l ∧
  grows leader m m'.
Proof.
  induction ids as [|id ids IH]; intros l m l' m' R Hidx E; cbn [foldl] in E.
  - injection E as <- <-. repeat (split; [done|]). apply grows_refl.
  - destruct (replicate_one e (zlen es) pt (l, m) leader id) as [l1 m1] eqn:E1.
    destruct (replicate_one_inv _ _ _ _ _ _ _ _ _ R Hidx E1) as (R1 & C1 & A1 & D1).
    destruct (IH l1 m1 l' m' R1 Hidx E) as (R2 & C2 & A2 & D2).
    split; [done|]. split; [congruence|]. split; [congruence|by eapply grows_trans].
Qed.

(** The followers after the commit index was pushed to one of them. *)
Lemma push_commit_inv leader es e c m id :
  (∀ j f, j ≠ leader → m !! j = Some f → replica_inv f ∧ entries f `prefix_of` es) →
  grows leader m (push_commit e c leader m id) ∧
  (∀ j f, j ≠ leader → push_commit e c leader m id !! j = Some f →
     replica_inv f ∧ entries f `prefix_of` es).
Proof.
  intros Hm. unfold push_commit. pose proof (grows_refl leader m).
  destruct (Z.eqb_spec id leader) as [->|Hne]; [done|].
  destruct (m !! id) as [f0|] eqn:Hid; [|done].
  destruct (Hm id f0 Hne Hid) as [I0 P0].
  destruct (append_entries (e_term e) (e_index e) (e_term e) [] c f0) as [r f'] eqn:Ea. cbn [snd].
  destruct (append_entries_keeps _ _ _ _ _ _ _ _ I0 Ea) as (I' & _ & Hc & _); [done|].
  assert (He : entries f' = entries f0).
  { clear -Ea. unfold append_entries in Ea. destruct (bump_entries f0 (e_term e)) as [He0 _].
    top_if Ea; [by injection Ea as <- <-|]. top_if Ea; [by injection Ea as <- <-|].
    cbn in Ea. injection Ea as <- <-. destruct (commit_index _ <? _); cbn; done. }
  split; [apply (grows_insert _ _ _ f0); [done|by rewrite He|done]|].
  intros j f Hj [[<- <-]|[_ Hl]]%lookup_insert_Some; [by rewrite He|by eapply Hm].
Qed.

Lemma push_round leader es e c ids : ∀ m,
  (∀ j f, j ≠ leader → m !! j = Some f → replica_inv f ∧ entries f `prefix_of` es) →
  grows leader m (foldl (push_commit e c leader) m ids) ∧
  (∀ j f, j ≠ leader → foldl (push_commit e c leader) m ids !! j = Some f →
     replica_inv f ∧ entries f `prefix_of` es).
Proof.
  induction ids as [|id ids IH]; intros m Hm; cbn [foldl]; [split; [apply grows_refl|done]|].
  destruct (push_commit_inv leader es e c m id Hm) as [G1 H1].
  destruct (IH _ H1) as [G2 H2]. split; [by eapply grows_trans|done].
Qed.

(** How many replicas hold the first [c] entries of [es]. *)
Definition majority_holds (g : PartitionRaftGroup) (c : Z) (es : list PartitionRaftEntry) : Prop :=
  ∃ ids, NoDup ids ∧ majority (Z.max (zlen (replica_ids g)) 1) ≤ zlen ids ∧
    ∀ id, id ∈ ids → ∃ f, replicas g !! id = Some f ∧ take (Z.to_nat c) es `prefix_of` entries f.

Lemma prefix_holds (es k : list PartitionRaftEntry) c :
  k `prefix_of` es → 0 ≤ c ≤ zlen k → take (Z.to_nat c) es `prefix_of` k.
Proof.
  intros [r ->] Hc. rewrite take_app_le by (unfold zlen in Hc; lia).
  exists (drop (Z.to_nat c) k). by rewrite take_drop.
Qed.

(** The leader's part of a round, before the followers. *)
Lemma round_start g es off crc l e l1 :
  group_inv g es → replicas g !! leader_id g = Some l → append_produce off crc l = (e, l1) →
  round_inv (leader_id g) es e (record_match (leader_id g) (e_index e) l1) (replicas g) ∧
  e_index e = zlen es + 1 ∧ e_payload e = mkPayload off crc ∧
  commit_index l1 = commit_index l ∧ last_applied l1 = last_applied l.
Proof.
  intros [(l0 & Hl0 & Hes & Hm) Hr] Hl Ea. rewrite Hl in Hl0. injection Hl0 as <-.
  destruct (Hr _ _ Hl) as [Il _]. pose proof (append_produce_ok off crc l Il) as Hap.
  rewrite Ea in Hap. destruct Hap as (I1 & _ & He1 & Hidx & Hpl & Hc1 & Ha1 & Hm1 & _).
  rewrite Hes in He1, Hidx. split; [|done].
  destruct (record_match_frame (leader_id g) (e_index e) l1) as (E1 & _ & _ & Hri).
  split; [split; [by apply Hri|by rewrite E1]| |].
  - intros id f Hne Hf. destruct (Hr id f Hf) as [If Hp]. split; [done|].
    split; [by apply prefix_app_r|]. pose proof (ri_commit _ If). apply prefix_length in Hp.
    unfold zlen in *. lia.
  - intros id i Hi. assert (Hmi : ∀ x, match_index l1 !! id = Some x →
      (id = leader_id g ∧ x ≤ zlen (es ++ [e])) ∨
      (id ≠ leader_id g ∧ ∃ f, replicas g !! id = Some f ∧ x ≤ zlen (entries f))).
    { intros x Hx. rewrite Hm1 in Hx. destruct (Hm id x Hx) as (f & Hf & Hle).
      destruct (decide (id = leader_id g)) as [->|]; [left|right; eauto]. split; [done|].
      rewrite Hl in Hf. injection Hf as <-. rewrite Hes in Hle. rewrite zlen_app.
      pose proof (zlen_nonneg [e]). lia. }
    pose proof (zlen_nonneg (es ++ [e])).
    assert (Hlen : zlen (es ++ [e]) = zlen es + 1) by (unfold zlen; rewrite length_app; cbn; lia).
    apply record_match_lookup in Hi as [[-> [->|[->|Hx]]]|Hx]; [left..|by apply Hmi|by apply Hmi].
    + split; [done|lia].
    + split; [done|lia].
Qed.

Definition matches_true (leader : Z) (es : list PartitionRaftEntry) (l : PartitionRaftState)
    (m : gmap Z PartitionRaftState) : Prop :=
  ∀ id i, match_index l !! id = Some i →
    (id = leader ∧ i ≤ zlen es) ∨ (id ≠ leader ∧ ∃ f, m !! id = Some f ∧ i ≤ zlen (entries f)).

(** The group after a round, leader put back. *)
Lemma round_end g es e l m :
  (∀ j f, j ≠ leader_id g → m !! j = Some f → replica_inv f ∧ entries f `prefix_of` es ++ [e]) →
  replica_inv l → entries l = es ++ [e] →
  matches_true (leader_id g) (es ++ [e]) l m →
  group_inv (set_replicas g (<[leader_id g := l]> m)) (es ++ [e]).
Proof.
  intros Hf Il El Hm. split; cbn.
  - exists l. rewrite lookup_insert_eq. split; [done|]. split; [done|]. intros id i Hi.
    destruct (Hm id i Hi) as [[-> ?]|[Hne (f & H0 & ?)]].
    + exists l. rewrite lookup_insert_eq, El. done.
    + exists f. by rewrite lookup_insert_ne.
  - intros id f [[<- <-]|[Hne H0]]%lookup_insert_Some; [by rewrite El|]. by eapply Hf.
Qed.

Lemma matches_grow leader es l m m' :
  matches_true leader es l m → grows leader m m' → matches_true leader es l m'.
Proof.
  intros Hm G id i Hi. destruct (Hm id i Hi) as [?|[Hne (f & Hf & Hle)]]; [by left|right].
  split; [done|]. destruct (G id f Hne Hf) as (f' & Hf' & ? & _). exists f'. split; [done|lia].
Qed.

Lemma matches_majority g es l c :
  group_inv g es → replicas g !! leader_id g = Some l → 0 ≤ c →
  (∃ ids, NoDup ids ∧ majority (Z.max (zlen (replica_ids g)) 1) ≤ zlen ids ∧
     ∀ id, id ∈ ids → ∃ i, match_index l !! id = Some i ∧ c ≤ i) →
  majority_holds g c es.
Proof.
  intros G Hl Hc (ids & Hnd & Hlen & Hids). exists ids. split; [done|]. split; [done|].
  intros id Hid. destruct (Hids id Hid) as (i & Hi & Hle).
  destruct (gi_leader _ _ G) as (l' & Hl' & _ & Hmm). rewrite Hl in Hl'. injection Hl' as <-.
  destruct (Hmm id i Hi) as (f & Hf & ?). exists f. split; [done|].
  apply prefix_holds; [by apply (gi_replicas _ _ G id)|lia].
Qed.

(** Putting the leader back keeps every commit index. *)
Lemma commits_kept g m l l5 :
  replicas g !! leader_id g = Some l → grows (leader_id g) (replicas g) m →
  commit_index l ≤ commit_index l5 →
  ∀ id f, replicas g !! id = Some f →
    ∃ f', <[leader_id g := l5]> m !! id = Some f' ∧ commit_index f ≤ commit_index f'.
Proof.
  intros Hl G Hc id f Hf. destruct (decide (id = leader_id g)) as [->|Hne].
  - exists l5. rewrite lookup_insert_eq. rewrite Hl in Hf. by injection Hf as <-.
  - destruct (G id f Hne Hf) as (f' & Hf' & _ & ?). exists f'. by rewrite lookup_insert_ne.
Qed.

Lemma append_replicated_ok g es off crc acks :
  group_inv g es →
  ∃ e c g', append_replicated off crc acks g = Some ((zlen es + 1, c), g') ∧
    e_payload e = mkPayload off crc ∧ group_inv g' (es ++ [e]) ∧
    leader_id g' = leader_id g ∧ replica_ids g' = replica_ids g ∧
    (∀ id f, replicas g !! id = Some f →
       ∃ f', replicas g' !! id = Some f' ∧ commit_index f ≤ commit_index f') ∧
    (c = true → ∃ l, replicas g' !! leader_id g' = Some l ∧ majority_holds g' (commit_index l) (es ++ [e])).
Proof.
  intros G. destruct (gi_leader _ _ G) as (l & Hl & Hes & _). unfold append_replicated. rewrite Hl.
  destruct (append_produce off crc l) as [e l1] eqn:Ea.
  destruct (round_start g es off crc l e l1 G Hl Ea) as (R1 & Hidx & Hpl & Hc1 & Ha1).
  set (l2 := record_match _ _ _) in *.
  replace (saturating_sub (e_index e) 1) with (zlen es)
    by (unfold saturating_sub; pose proof (zlen_nonneg es); lia).
  destruct (foldl _ _ _) as [l3 m3] eqn:Ef.
  destruct (replicate_round _ _ _ _ _ _ _ _ _ R1 Hidx Ef) as ([[I3 E3] F3 M3] & C3 & A3 & G3).
  destruct (try_commit_majority (zlen (replica_ids g)) l3) as [c l4] eqn:Et.
  destruct (try_commit_spec _ _ _ _ I3 Et) as (I4 & E4 & Hm4 & _ & _ & _ & Hcm & _ & Hmaj).
  assert (Hcl : commit_index l ≤ commit_index l4)
    by (change (commit_index l2) with (commit_index l1) in C3; lia).
  assert (F3' : ∀ j f, j ≠ leader_id g → m3 !! j = Some f → replica_inv f ∧ entries f `prefix_of` es ++ [e])
    by (intros j f Hj Hf; destruct (F3 j f Hj Hf) as (? & ? & _); done).
  assert (M4 : matches_true (leader_id g) (es ++ [e]) l4 m3)
    by (intros id i Hi; rewrite Hm4 in Hi; by apply M3).
  clear Ef. exists e. rewrite Hidx. destruct c.
  - destruct (push_round (leader_id g) (es ++ [e]) e (commit_index l4) acks m3 F3') as [G5 F5].
    set (m5 := foldl _ _ _) in *. set (g' := set_replicas g (<[leader_id g := l4]> m5)).
    assert (G' : group_inv g' (es ++ [e]))
      by (apply round_end; [done|done|congruence|by eapply matches_grow]).
    exists true, g'. do 5 (split; [done|]).
    split; [by apply (commits_kept g m5 l); [|eapply grows_trans|]|]. intros _. exists l4.
    assert (Hl4 : replicas g' !! leader_id g' = Some l4) by (cbn; by rewrite lookup_insert_eq).
    split; [done|]. destruct (Hmaj eq_refl) as (Hlt & Hids). pose proof (ri_applied _ I3).
    apply (matches_majority g' (es ++ [e]) l4 _ G' Hl4); [lia|by rewrite Hm4].
  - exists false, (set_replicas g (<[leader_id g := note_append_fail l4]> m3)).
    split; [done|]. split; [done|]. split; [|do 2 (split; [done|]); split; [by apply (commits_kept g m3 l)|done]].
    apply round_end; [done| |cbn; congruence|exact M4]. destruct I4. by split.
Qed.

(** ** Runs of one replica *)

(** Everything a replica does, restarts included.  AppendEntries comes from a
    leader that never rewrites what this replica committed. *)
Inductive rstep : PartitionRaftState → PartitionRaftState → Prop :=
  | rs_vote t c s b s' : record_vote t c s = (b, s') → rstep s s'
  | rs_term t s : rstep s (ensure_term t s)
  | rs_produce off crc s e s' : append_produce off crc s = (e, s') → rstep s s'
  | rs_match id i s : rstep s (record_match id i s)
  | rs_commit n s b s' : try_commit_majority n s = (b, s') → rstep s s'
  | rs_advance i s : rstep s (advance_commit i s)
  | rs_fail s : rstep s (note_append_fail s)
  | rs_append t pi pt new lc s r s' :
      (∀ e new', new = e :: new' → commit_index s < e_index e) →
      append_entries t pi pt new lc s = (r, s') → rstep s s'
  | rs_apply s out s' : take_entries_to_apply s = (out, s') → rstep s s'
  | rs_restart s : rstep s (open (hard_file s) (log_file s)).

(** A vote is kept as long as the term lasts, and terms only grow. *)
Definition vote_kept (s s' : PartitionRaftState) : Prop :=
  current_term s ≤ current_term s' ∧
  (current_term s' = current_term s → ∀ c, voted_for s = Some c → voted_for s' = Some c).

Lemma vote_kept_refl s : vote_kept s s.
Proof. split; [lia|done]. Qed.

Lemma vote_kept_trans s1 s2 s3 : vote_kept s1 s2 → vote_kept s2 s3 → vote_kept s1 s3.
Proof.
  intros [T1 V1] [T2 V2]. split; [lia|]. intros Heq c Hc. apply V2; [lia|]. apply V1; [lia|done].
Qed.

Lemma record_vote_ok t c s b s' :
  replica_inv s → synced s → record_vote t c s = (b, s') →
  replica_inv s' ∧ synced s' ∧ vote_kept s s' ∧ commit_index s' = commit_index s ∧
  (b = true → voted_for s' = Some c ∧ current_term s' = t).
Proof.
  intros I Sy E. unfold record_vote in E. destruct (Z.ltb_spec (current_term s) t) as [Hlt|Hge].
  - cbn in E. rewrite Z.ltb_irrefl in E. injection E as <- <-. cbn.
    split; [by destruct I|]. split; [done|]. split; [split; cbn; [lia|lia]|done].
  - destruct (Z.ltb_spec t (current_term s)).
    { injection E as <- <-. split; [done|]. split; [done|]. split; [apply vote_kept_refl|done]. }
    destruct (voted_for s) as [id|] eqn:Hv.
    + destruct (Z.eqb_spec id c) as [->|]; injection E as <- <-; (do 2 (split; [done|]));
        (split; [apply vote_kept_refl|split; [done|]]); [|done]. intros _. split; [done|lia].
    + injection E as <- <-. cbn. split; [by destruct I|]. split; [done|].
      split; [split; cbn; [lia|congruence]|]. split; [done|]. intros _. split; [done|lia].
Qed.

Lemma rstep_ok s s' :
  rstep s s' → replica_inv s → synced s →
  replica_inv s' ∧ synced s' ∧ vote_kept s s' ∧ commit_index s ≤ commit_index s'.
Proof.
  destruct 1 as [t c s b s' E|t s|off crc s e s' E|id i s|n s b s' E|i s|s|t pi pt new lc s r s' Hg E
                |s out s' E|s]; intros I Sy; pose proof (vote_kept_refl s).
  - destruct (record_vote_ok _ _ _ _ _ I Sy E) as (? & ? & ? & -> & _). do 3 (split; [done|]). lia.
  - unfold ensure_term. destruct (Z.ltb_spec (current_term s) t); [|do 3 (split; [done|]); lia].
    split; [by destruct I|]. split; [done|]. split; [split; cbn; lia|cbn; lia].
  - pose proof (append_produce_ok off crc s I) as Hp. rewrite E in Hp.
    destruct Hp as (? & ? & _ & _ & _ & -> & _ & _ & Ht & _). do 2 (split; [done|]). split; [|lia].
    split; [done|]. intros _ c Hc. unfold append_produce in E. injection E as _ <-. cbn.
    by destruct (_ =? _).
  - split; [by destruct I|]. split; [done|]. split; [done|cbn; lia].
  - destruct (try_commit_spec _ _ _ _ I E) as (? & _ & _ & _ & Ht & Hv & ? & Hs & _).
    split; [done|]. split; [by apply Hs|]. split; [|done]. split; [lia|]. intros _ c. by rewrite Hv.
  - unfold advance_commit. rewrite (wf_last _ (ri_wf _ I)).
    destruct (Z.ltb_spec (commit_index s) (Z.min i (zlen (entries s)))); [|do 3 (split; [done|]); lia].
    split; [destruct I; split; cbn; [done|lia|lia]|]. split; [done|]. split; [done|cbn; lia].
  - split; [by destruct I|]. split; [done|]. split; [done|cbn; lia].
  - destruct (append_entries_keeps _ _ _ _ _ _ _ _ I E Hg) as (? & ? & ? & _ & _ & Ht & Hv).
    do 2 (split; [done|]). split; [|done]. split; [lia|]. intros Heq c Hc.
    destruct Hv as [->|]; [done|lia].
  - pose proof (take_entries_spec s I) as Ht. rewrite E in Ht.
    destruct Ht as (_ & _ & ? & _ & -> & _ & Htm & Hv & Hs). split; [done|]. split; [by apply Hs|].
    split; [|lia]. split; [lia|]. intros _ c. by rewrite Hv.
  - destruct (open_synced s I Sy) as (Ht & Hv & He & Hc & Ha & _). pose proof Sy as [Hh Hl].
    split; [apply open_inv; rewrite ?Hh, ?Hl; cbn; [apply I|pose proof (ri_applied _ I); lia..]|].
    split; [|split; [split; [lia|intros _ c; by rewrite Hv]|lia]].
    split; [|by rewrite He]. rewrite Ht, Hv, Hc, Ha. exact Hh.
Qed.

Lemma rsteps_ok s s' :
  rtc rstep s s' → replica_inv s → synced s →
  replica_inv s' ∧ synced s' ∧ vote_kept s s' ∧ commit_index s ≤ commit_index s'.
Proof.
  induction 1 as [s|s1 s2 s3 Hs Hr IH]; intros I Sy.
  - do 2 (split; [done|]). split; [apply vote_kept_refl|lia].
  - destruct (rstep_ok _ _ Hs I Sy) as (I2 & S2 & V2 & C2).
    destruct (IH I2 S2) as (I3 & S3 & V3 & C3). do 2 (split; [done|]).
    split; [by eapply vote_kept_trans|lia].
Qed.

(** ** Runs of a group *)

Inductive gstep : PartitionRaftGroup → PartitionRaftGroup → Prop :=
  | gs_append off crc acks g r g' :
      append_replicated off crc acks g = Some (r, g') → gstep g g'
  | gs_apply id g out g' : apply id g = (out, g') → gstep g g'.

Lemma open_group_lookup ids files leader id f :
  replicas (open_group files ids leader) !! id = Some f →
  f = open (fst (files id)) (snd (files id)) ∧ id ∈ ids.
Proof.
  cbn. set (F := λ (m : gmap Z PartitionRaftState) (id : Z), _).
  assert (Hgen : ∀ m, foldl F m ids !! id = Some f →
    (f = open (fst (files id)) (snd (files id)) ∧ id ∈ ids) ∨ m !! id = Some f).
  { induction ids as [|i ids IH]; intros m Hl; [by right|]. cbn [foldl] in Hl.
    destruct (IH _ Hl) as [[-> ?]|Hm]; [left; split; [done|by right]|]. unfold F in Hm.
    apply lookup_insert_Some in Hm as [[<- <-]|[_ ?]]; [left; split; [done|left]|by right]. }
  intros Hl. destruct (Hgen ∅ Hl) as [?|Hx]; [done|]. by rewrite lookup_empty in Hx.
Qed.

Lemma open_group_in ids files leader id :
  id ∈ ids → replicas (open_group files ids leader) !! id = Some (open (fst (files id)) (snd (files id))).
Proof.
  cbn. set (F := λ (m : gmap Z PartitionRaftState) (id : Z), _).
  assert (Hgen : ∀ m, (id ∈ ids ∨ m !! id = Some (open (fst (files id)) (snd (files id)))) →
    foldl F m ids !! id = Some (open (fst (files id)) (snd (files id)))).
  { induction ids as [|i ids IH]; intros m Hor.
    - destruct Hor as [Hx|?]; [by apply not_elem_of_nil in Hx|done].
    - cbn [foldl]. apply IH. destruct (decide (i = id)) as [->|Hne].
      + right. unfold F. by rewrite lookup_insert_eq.
      + destruct Hor as [[<-|?]%elem_of_cons|?]; [done|by left|right]. unfold F. by rewrite lookup_insert_ne. }
  intros Hin. apply Hgen. by left.
Qed.

Definition no_files : Z → option PartitionRaftHardState * option (list PartitionRaftEntry) :=
  λ _, (None, None).

Lemma new_group_inv ids leader : leader ∈ ids → group_inv (open_group no_files ids leader) [].
Proof.
  intros Hin. split.
  - exists (open None None). split; [apply (open_group_in ids no_files leader leader Hin)|done].
  - intros id f Hf. apply open_group_lookup in Hf as [-> _]. cbn. split; [|done].
    split; cbn; [apply wf_nil|done|done].
Qed.

Lemma apply_group_inv g es id out g' :
  group_inv g es → apply id g = (out, g') → group_inv g' es.
Proof.
  intros [(l & Hl & Hes & Hm) Hr] E. unfold apply in E.
  destruct (replicas g !! id) as [f|] eqn:Hf; [|by injection E as <- <-; split; eauto].
  destruct (Hr id f Hf) as [If Hp]. pose proof (take_entries_spec f If) as Ht.
  destruct (take_entries_to_apply f) as [o f'] eqn:Et. injection E as <- <-.
  destruct Ht as (_ & _ & If' & He & _ & Hmm & _). split; cbn.
  - destruct (decide (leader_id g = id)) as [<-|Hne].
    + rewrite Hl in Hf. injection Hf as <-. exists f'. rewrite lookup_insert_eq.
      split; [done|]. split; [congruence|]. rewrite Hmm. intros j i Hi.
      destruct (Hm j i Hi) as (f0 & Hf0 & Hle). destruct (decide (j = leader_id g)) as [->|Hj].
      * exists f'. rewrite lookup_insert_eq. rewrite Hl in Hf0. injection Hf0 as <-.
        split; [done|]. by rewrite He.
      * exists f0. by rewrite lookup_insert_ne.
    + exists l. rewrite lookup_insert_ne by done. do 2 (split; [done|]). intros j i Hi.
      destruct (Hm j i Hi) as (f0 & Hf0 & Hle). destruct (decide (j = id)) as [->|Hj].
      * exists f'. rewrite lookup_insert_eq. rewrite Hf in Hf0. injection Hf0 as <-.
        split; [done|]. by rewrite He.
      * exists f0. by rewrite lookup_insert_ne.
  - intros j f0 [[<- <-]|[_ H0]]%lookup_insert_Some; [by rewrite He|by eapply Hr].
Qed.

Lemma gstep_inv g g' es :
  gstep g g' → group_inv g es → ∃ es', group_inv g' es' ∧ es `prefix_of` es'.
Proof.
  destruct 1 as [off crc acks g r g' E|id g out g' E]; intros G.
  - destruct (append_replicated_ok g es off crc acks G) as (e & c & g0 & E0 & _ & G0 & _).
    rewrite E in E0. injection E0 as -> ->. exists (es ++ [e]). split; [done|]. by apply prefix_app_r.
  - exists es. split; [by eapply apply_group_inv|done].
Qed.

Lemma gsteps_inv g g' : rtc gstep g g' → ∀ es, group_inv g es →
  ∃ es', group_inv g' es' ∧ es `prefix_of` es'.
Proof.
  induction 1 as [g|g1 g2 g3 Hs Hr IH]; intros es G; [by exists es|].
  destruct (gstep_inv _ _ _ Hs G) as (es2 & G2 & P2). destruct (IH _ G2) as (es3 & G3 & P3).
  exists es3. split; [done|by etrans].
Qed.

Lemma prefix_take_take {A} (l : list A) n k : (n ≤ k)%nat → take n l `prefix_of` take k l.
Proof.
  intros Hn. exists (drop n (take k l)). rewrite <- (take_drop n (take k l)) at 1.
  by rewrite take_take, Nat.min_l.
Qed.

(** What a replica has committed. *)
Definition committed (s : PartitionRaftState) : list PartitionRaftEntry :=
  take (Z.to_nat (commit_index s)) (entries s).

(** ** Properties *)

(** A replica's log stays densely numbered from 1, with
    [last_applied ≤ commit_index ≤ last index], its commit index never goes
    back, and a restart at any point between operations brings back the same
    term, vote, entries, commit index and applied index. *)
Theorem replica_invariant_durable s0 s :
  replica_inv s0 → synced s0 → rtc rstep s0 s →
  replica_inv s ∧ commit_index s0 ≤ commit_index s ∧
  let s' := open (hard_file s) (log_file s) in
  current_term s' = current_term s ∧ voted_for s' = voted_for s ∧ entries s' = entries s ∧
  commit_index s' = commit_index s ∧ last_applied s' = last_applied s.
Proof.
  intros I0 S0 Hr. destruct (rsteps_ok s0 s Hr I0 S0) as (I & Sy & _ & Hc).
  split; [done|]. split; [done|]. destruct (open_synced s I Sy) as (? & ? & ? & ? & ? & _). done.
Qed.

(** One vote per term: a replica that granted its vote in a term never
    grants it to another candidate in that term, restarts included. *)
Theorem one_vote_per_term s0 t c s1 s2 c' s3 :
  replica_inv s0 → synced s0 → record_vote t c s0 = (true, s1) → rtc rstep s1 s2 →
  record_vote t c' s2 = (true, s3) → c' = c.
Proof.
  intros I0 S0 E1 Hr E2.
  destruct (record_vote_ok _ _ _ _ _ I0 S0 E1) as (I1 & S1 & _ & _ & Hv1).
  destruct (Hv1 eq_refl) as [V1 T1].
  destruct (rsteps_ok s1 s2 Hr I1 S1) as (I2 & S2 & [T2 V2] & _).
  destruct (record_vote_ok _ _ _ _ _ I2 S2 E2) as (_ & _ & [T3 V3] & _ & Hv3).
  destruct (Hv3 eq_refl) as [V4 T4].
  assert (Hc : voted_for s3 = Some c) by (apply V3; [lia|]; apply V2; [lia|done]).
  congruence.
Qed.


(** Draining hands out each committed entry exactly once: exactly the
    entries after the applied index up to the commit index, in order, after
    which the applied index is the commit index. *)
Theorem apply_drains_committed s out s' :
  replica_inv s → take_entries_to_apply s = (out, s') →
  out = drop (Z.to_nat (last_applied s)) (committed s) ∧ last_applied s' = commit_index s ∧
  entries s' = entries s ∧ fst (take_entries_to_apply s') = [].
Proof.
  intros I E. pose proof (take_entries_spec s I) as Ht. rewrite E in Ht.
  destruct Ht as (Ho & Ha & I' & He & Hc & _). do 3 (split; [done|]).
  pose proof (take_entries_spec s' I') as Ht'. destruct (take_entries_to_apply s') as [o' s''].
  destruct Ht' as (-> & _). cbn. rewrite Ha, Hc. apply drop_ge. rewrite length_take. lia.
Qed.

(** C26: replicas never disagree on what is committed: in every run of a new
    group the committed entries of any two replicas are one a prefix of the
    other, and every log is a prefix of the leader's. *)
Theorem group_agreement ids leader g id1 id2 f1 f2 :
  leader ∈ ids → rtc gstep (open_group no_files ids leader) g →
  replicas g !! id1 = Some f1 → replicas g !! id2 = Some f2 →
  (committed f1 `prefix_of` committed f2 ∨ committed f2 `prefix_of` committed f1) ∧
  ∃ l, replicas g !! leader_id g = Some l ∧ entries f1 `prefix_of` entries l.
Proof.
  intros Hin Hr H1 H2. destruct (gsteps_inv _ _ Hr _ (new_group_inv ids leader Hin)) as (es & G & _).
  destruct (gi_replicas _ _ G _ _ H1) as [I1 P1], (gi_replicas _ _ G _ _ H2) as [I2 P2]. split.
  - assert (C : ∀ f, replica_inv f → entries f `prefix_of` es → committed f = take (Z.to_nat (commit_index f)) es).
    { intros f If Pf. apply prefix_take_le; [done|]. pose proof (ri_commit _ If). unfold zlen in *. lia. }
    rewrite (C f1 I1 P1), (C f2 I2 P2).
    destruct (decide (commit_index f1 ≤ commit_index f2)); [left|right].
    + apply prefix_take_take. lia.
    + apply prefix_take_take. lia.
  - destruct (gi_leader _ _ G) as (l & Hl & <- & _). by exists l.
Qed.


(** AppendEntries does not protect committed entries: a request with a
    term below the replica's own and a first entry at index 1 is accepted, the
    committed entries are cut away and the commit index is left past the end
    of the log. *)
Theorem stale_append_drops_committed term e s :
  replica_inv s → 2 ≤ commit_index s → term < current_term s → e_index e = 1 →
  ∃ r s', append_entries term 0 0 [e] 0 s = (r, s') ∧ ar_success r = true ∧
    entries s' = [e] ∧ commit_index s' = commit_index s ∧ zlen (entries s') < commit_index s'.
Proof.
  intros I Hc Ht He. unfold append_entries. rewrite (Zltb_false (current_term s)) by lia.
  change (0 <? 0) with false. cbn [negb andb Z.eqb]. rewrite He. change (Z.to_nat (saturating_sub 1 1)) with O. rewrite take_0.
  cbn [entries set_entries push_entries app]. rewrite He.
  change (1 =? last_of [] + 1) with true. cbn [negb commit_index set_entries].
  rewrite (Zltb_false (commit_index s)) by lia.
  eexists _, _. split; [done|]. cbn. split; [done|]. split; [done|].
  split; [done|]. change (zlen [e]) with 1. lia.
Qed.

(** ** Witnesses *)

(** Two entries, both committed, in term 5. *)
Definition in_term_5 : PartitionRaftState := ensure_term 5 (open None None).
Definition one_entry : PartitionRaftState := snd (append_produce 10 0 in_term_5).
Definition two_entries : PartitionRaftState := snd (append_produce 11 0 one_entry).
Definition two_committed : PartitionRaftState := advance_commit 2 two_entries.

Lemma open_new_ok : replica_inv (open None None) ∧ synced (open None None).
Proof. split; [|done]. split; cbn; [apply wf_nil|done|done]. Qed.

Lemma two_committed_run : rtc rstep (open None None) two_committed.
Proof.
  apply (rtc_l _ _ in_term_5); [apply (rs_term 5)|].
  apply (rtc_l _ _ one_entry); [apply (rs_produce 10 0 _ (fst (append_produce 10 0 in_term_5))), surjective_pairing|].
  apply (rtc_l _ _ two_entries); [apply (rs_produce 11 0 _ (fst (append_produce 11 0 one_entry))), surjective_pairing|].
  apply (rtc_l _ _ two_committed); [apply (rs_advance 2)|]. apply rtc_refl.
Qed.

Lemma two_committed_inv : replica_inv two_committed.
Proof. by destruct (rsteps_ok _ _ two_committed_run (proj1 open_new_ok) (proj2 open_new_ok)). Qed.

Lemma replica_invariant_durable_witness :
  commit_index (open (hard_file two_committed) (log_file two_committed)) = 2.
Proof.
  destruct (replica_invariant_durable (open None None) two_committed (proj1 open_new_ok)
    (proj2 open_new_ok) two_committed_run) as (_ & _ & H). cbn zeta in H.
  destruct H as (_ & _ & _ & -> & _). reflexivity.
Defined.

Lemma one_vote_per_term_witness : (7 : Z) = 7.
Proof.
  apply (one_vote_per_term (open None None) 3 7 (snd (record_vote 3 7 (open None None)))
    (snd (record_vote 3 7 (open None None))) 7 (snd (record_vote 3 7 (open None None)))).
  - apply open_new_ok.
  - apply open_new_ok.
  - reflexivity.
  - apply rtc_refl.
  - reflexivity.
Defined.

Definition third_entry : PartitionRaftEntry := mkEntry 5 3 (mkPayload 12 0).


Lemma apply_drains_committed_witness : last_applied (snd (take_entries_to_apply two_committed)) = 2.
Proof.
  destruct (apply_drains_committed two_committed (fst (take_entries_to_apply two_committed))
    (snd (take_entries_to_apply two_committed)) two_committed_inv (surjective_pairing _)) as (_ & H & _).
  rewrite H. reflexivity.
Defined.

Definition three_ids : list Z := [1; 2; 3].
Definition group0 : PartitionRaftGroup := open_group no_files three_ids 1.
Definition group1 : PartitionRaftGroup :=
  match append_replicated 10 0 [1; 2] group0 with Some (_, g) => g | None => group0 end.

Lemma group1_run : rtc gstep group0 group1.
Proof.
  eapply rtc_l; [|apply rtc_refl]. eapply (gs_append 10 0 [1; 2]). vm_compute. reflexivity.
Qed.

Lemma group_agreement_witness :
  ∃ f1 f3, replicas group1 !! 1 = Some f1 ∧ replicas group1 !! 3 = Some f3 ∧
    (committed f1 `prefix_of` committed f3 ∨ committed f3 `prefix_of` committed f1).
Proof.
  eexists _, _. split; [vm_compute; reflexivity|]. split; [vm_compute; reflexivity|].
  eapply (proj1 (group_agreement three_ids 1 group1 1 3 _ _ ltac:(left) group1_run
    ltac:(vm_compute; reflexivity) ltac:(vm_compute; reflexivity))).
Defined.


Lemma stale_append_drops_committed_witness :
  ∃ r s', append_entries 1 0 0 [mkEntry 1 1 (mkPayload 99 0)] 0 two_committed = (r, s') ∧
    ar_success r = true.
Proof.
  destruct (stale_append_drops_committed 1 (mkEntry 1 1 (mkPayload 99 0)) two_committed two_committed_inv)
    as (r & s' & E & Hs & _).
  - discriminate.
  - reflexivity.
  - reflexivity.
  - by exists r, s'.
Defined.
