(* ===== verification/Assignor.v ===== *)
(** * Partition assignors: [volant-broker/src/assignor.rs]

    Range and sticky assignment of partitions to the members of a consumer
    group.  Counts and partition numbers are [nat]: every sum in the source is
    bounded by the partition count, so its [u32] arithmetic does not wrap. *)

From Stdlib Require Import Strings.String.
From S2P Require Import Prelude.

(** [String] comparison: bytes in lexicographic order. *)
Definition str_le (a b : string) : Prop := String.leb a b = true.

#[export] Instance str_le_dec a b : Decision (str_le a b).
Proof. unfold str_le. apply _. Defined.
#[global] Typeclasses Opaque str_le.

Definition id_of (member_ids : list string) (i : nat) : string := default ""%string (member_ids !! i).

(** Member indexes in the order of their ids. *)
Definition by_id (member_ids : list string) (i j : nat) : Prop :=
  str_le (id_of member_ids i) (id_of member_ids j).

#[export] Instance by_id_dec ids i j : Decision (by_id ids i j).
Proof. unfold by_id. apply _. Defined.
#[global] Typeclasses Opaque by_id.

Definition sorted_members (member_ids : list string) : list nat :=
  merge_sort (by_id member_ids) (seq 0 (length member_ids)).

(** ** Range *)

(** The loop over the members in order: consecutive ranges. *)
Fixpoint assign_ranges (order : list nat) (rank next base extra : nat) (result : list (list nat))
    : list (list nat) :=
  match order with
  | [] => result
  | orig_idx :: order =>
    let count := (base + if (rank <? extra)%nat then 1 else 0)%nat in
    assign_ranges order (S rank) (next + count) base extra (<[orig_idx := seq next count]> result)
  end.

Definition range_assign (num_partitions : nat) (member_ids : list string) : list (list nat) :=
  let m := length member_ids in
  if (m =? 0)%nat || (num_partitions =? 0)%nat then replicate m [] else
  let base := (num_partitions / m)%nat in
  let extra := (num_partitions mod m)%nat in
  assign_ranges (sorted_members member_ids) 0 0 base extra (replicate m []).

(** ** Sticky *)

(** A member's previous partitions that are valid and not claimed yet. *)
Fixpoint claim (num_partitions : nat) (prev owned : list nat) (claimed : gset nat)
    : list nat * gset nat :=
  match prev with
  | [] => (owned, claimed)
  | p :: prev =>
    if (p <? num_partitions)%nat && negb (bool_decide (p ∈ claimed))
    then claim num_partitions prev (owned ++ [p]) ({[p]} ∪ claimed)
    else claim num_partitions prev owned claimed
  end.

Fixpoint claim_all (num_partitions : nat) (previous : list (list nat)) (claimed : gset nat)
    : list (list nat) * gset nat :=
  match previous with
  | [] => ([], claimed)
  | prev :: previous =>
    let '(owned, claimed) := claim num_partitions prev [] claimed in
    let '(rest, claimed) := claim_all num_partitions previous claimed in
    (owned :: rest, claimed)
  end.

(** The first [extra] members in id order get one more. *)
Fixpoint set_targets (order : list nat) (rank base extra : nat) (target : list nat) : list nat :=
  match order with
  | [] => target
  | idx :: order =>
    set_targets order (S rank) base extra
      (if (rank <? extra)%nat then <[idx := S base]> target else target)
  end.

Definition targets (num_partitions : nat) (member_ids : list string) : list nat :=
  let m := length member_ids in
  let base := (num_partitions / m)%nat in
  let extra := (num_partitions mod m)%nat in
  set_targets (sorted_members member_ids) 0 base extra (replicate m base).

(** [while owned.len() > target]: pop the last (highest) partition; the list
    itself is the fuel, one element less each turn. *)
Fixpoint pop_excess (fuel : nat) (owned : list nat) (target : nat) (free : list nat)
    : list nat * list nat :=
  match fuel with
  | O => (owned, free)
  | S fuel =>
    if (target <? length owned)%nat then
      match last owned with
      | Some p => pop_excess fuel (removelast owned) target (free ++ [p])
      | None => (owned, free)
      end
    else (owned, free)
  end.

Definition strip_one (owned : list nat) (target : nat) (free : list nat) : list nat * list nat :=
  if (target <? length owned)%nat
  then pop_excess (length owned) (merge_sort le owned) target free
  else (owned, free).

Fixpoint strip (owned : list (list nat)) (target free : list nat) : list (list nat) * list nat :=
  match owned, target with
  | o :: owned, t :: target =>
    let '(o, free) := strip_one o t free in
    let '(owned, free) := strip owned target free in
    (o :: owned, free)
  | _, _ => ([], free)
  end.

(** [Vec::dedup]: drop an element equal to the one before. *)
Fixpoint dedup {A} `{EqDecision A} (l : list A) : list A :=
  match l with
  | x :: ((y :: _) as l') => if bool_decide (x = y) then dedup l' else x :: dedup l'
  | _ => l
  end.

Definition owned_len (owned : list (list nat)) (i : nat) : nat := length (default [] (owned !! i)).

(** Fewest partitions first, then member id. *)
Definition fewest_first (member_ids : list string) (owned : list (list nat)) (a b : nat) : Prop :=
  (owned_len owned a < owned_len owned b)%nat ∨
  (owned_len owned a = owned_len owned b ∧ by_id member_ids a b).

#[export] Instance fewest_first_dec ids owned a b : Decision (fewest_first ids owned a b).
Proof. unfold fewest_first. apply _. Defined.
#[global] Typeclasses Opaque fewest_first.

(** Each turn gives the first free partition to the best candidate. *)
Fixpoint fill (member_ids : list string) (target free : list nat) (owned : list (list nat))
    : list (list nat) :=
  match free with
  | [] => owned
  | p :: free =>
    let m := length member_ids in
    let under :=
      filter (λ i, (owned_len owned i < default 0 (target !! i))%nat) (seq 0 m) in
    let candidates := match under with [] => seq 0 m | _ => under end in
    match merge_sort (fewest_first member_ids owned) candidates with
    | i :: _ => fill member_ids target free (<[i := default [] (owned !! i) ++ [p]]> owned)
    | [] => fill member_ids target free owned
    end
  end.

Definition sticky_assign (num_partitions : nat) (member_ids : list string)
    (previous : list (list nat)) : list (list nat) :=
  let m := length member_ids in
  if (m =? 0)%nat || (num_partitions =? 0)%nat then replicate m [] else
  let '(owned, claimed) := claim_all num_partitions previous ∅ in
  let free := filter (λ p, p ∉ claimed) (seq 0 num_partitions) in
  let target := targets num_partitions member_ids in
  let '(owned, free) := strip owned target free in
  let free := dedup (merge_sort le free) in
  map (merge_sort le) (fill member_ids target free owned).

(** ** Several topics *)

Definition TopicPartition : Type := string * nat.

(** Order of [(String, u32)] pairs. *)
Definition tp_le (a b : TopicPartition) : Prop :=
  (a.1 ≠ b.1 ∧ str_le a.1 b.1) ∨ (a.1 = b.1 ∧ (a.2 ≤ b.2)%nat).

#[export] Instance tp_le_dec a b : Decision (tp_le a b).
Proof. unfold tp_le. apply _. Defined.
#[global] Typeclasses Opaque tp_le.

(** The union of all subscriptions, sorted. *)
Definition all_topics (member_topics : list (list string)) : list string :=
  dedup (merge_sort str_le (concat member_topics)).

(** Indexes of the members subscribed to a topic ([sub_orig]). *)
Definition subscribers (topic : string) (member_topics : list (list string)) : list nat :=
  filter (λ i, topic ∈ default [] (member_topics !! i)) (seq 0 (length member_topics)).

(** [for (j, ps) in parts.into_iter().enumerate() { out[sub_orig[j]].push(..) }] *)
Fixpoint add_parts (topic : string) (sub_orig : list nat) (parts : list (list nat))
    (out : list (list TopicPartition)) : list (list TopicPartition) :=
  match sub_orig, parts with
  | orig :: sub_orig, ps :: parts =>
    add_parts topic sub_orig parts
      (<[orig := default [] (out !! orig) ++ map (pair topic) ps]> out)
  | _, _ => out
  end.

(** The loop over the topics, with the assignor of one topic. *)
Fixpoint assign_topics (assign : string → nat → list nat → list (list nat))
    (member_topics : list (list string)) (partition_counts : gmap string nat)
    (topics : list string) (out : list (list TopicPartition)) : list (list TopicPartition) :=
  match topics with
  | [] => out
  | topic :: topics =>
    let out :=
      match partition_counts !! topic with
      | None => out
      | Some n =>
        let sub_orig := subscribers topic member_topics in
        match sub_orig with
        | [] => out
        | _ => add_parts topic sub_orig (assign topic n sub_orig) out
        end
      end in
    assign_topics assign member_topics partition_counts topics out
  end.

Definition range_assign_multi (member_ids : list string) (member_topics : list (list string))
    (partition_counts : gmap string nat) : list (list TopicPartition) :=
  let out :=
    assign_topics (λ _ n sub, range_assign n (map (id_of member_ids) sub))
      member_topics partition_counts (all_topics member_topics)
      (replicate (length member_ids) []) in
  map (merge_sort tp_le) out.

(** The partitions of a topic a member had before. *)
Definition prev_parts (topic : string) (previous : list (list TopicPartition)) (i : nat) : list nat :=
  map snd (filter (λ tp, tp.1 = topic) (default [] (previous !! i))).

Definition sticky_assign_multi (member_ids : list string) (member_topics : list (list string))
    (partition_counts : gmap string nat) (previous : list (list TopicPartition))
    : list (list TopicPartition) :=
  let out :=
    assign_topics
      (λ topic n sub,
         sticky_assign n (map (id_of member_ids) sub) (map (prev_parts topic previous) sub))
      member_topics partition_counts (all_topics member_topics)
      (replicate (length member_ids) []) in
  map (merge_sort tp_le) out.
