(* ===== verification/AssignorProps.v ===== *)
(** * Correctness of the assignors

    Both assignors give every partition to exactly one member, each member
    the same number up to one, and the sticky one keeps what it can; with
    several topics a member only gets partitions of its subscriptions. *)

From Stdlib Require Import Strings.String Strings.Ascii.
From S2P Require Import Prelude Assignor.

#[local] Set Warnings "-clear-no-such-hyp".

Definition nth_list {A} (res : list (list A)) (i : nat) : list A := default [] (res !! i).

Lemma list_by_index {A} (res : list (list A)) :
  res = map (nth_list res) (seq 0 (length res)).
Proof.
  apply list_eq. intros i. rewrite list_lookup_fmap. destruct (decide (i < length res)%nat).
  - rewrite lookup_seq_lt by done. cbn. unfold nth_list.
    by destruct (lookup_lt_is_Some_2 res i) as [x ->].
  - rewrite lookup_seq_ge, lookup_ge_None_2 by lia. done.
Qed.

Lemma concat_perm {A} (ls ks : list (list A)) : ls ≡ₚ ks → concat ls ≡ₚ concat ks.
Proof.
  induction 1 as [|x l k _ IH|x y l|]; simpl; [done|by rewrite IH| |by etrans].
  by rewrite !app_assoc, (Permutation_app_comm x y).
Qed.

Lemma concat_by_order {A} (res : list (list A)) order :
  order ≡ₚ seq 0 (length res) → concat res ≡ₚ concat (map (nth_list res) order).
Proof.
  intros Ho. rewrite (list_by_index res) at 1. apply concat_perm. by apply Permutation_map.
Qed.

Lemma sorted_members_perm ids : sorted_members ids ≡ₚ seq 0 (length ids).
Proof. apply merge_sort_Permutation. Qed.

Lemma sorted_members_NoDup ids : NoDup (sorted_members ids).
Proof. rewrite sorted_members_perm. apply NoDup_seq. Qed.

Lemma sorted_members_length ids : length (sorted_members ids) = length ids.
Proof. by rewrite sorted_members_perm, length_seq. Qed.

Lemma sorted_members_lt ids i : i ∈ sorted_members ids → (i < length ids)%nat.
Proof. rewrite sorted_members_perm, elem_of_seq. lia. Qed.

(** ** Range *)

Definition share (base extra rank : nat) : nat := (base + if (rank <? extra)%nat then 1 else 0)%nat.

(** The consecutive ranges of the members from [rank] on. *)
Fixpoint pieces (k rank next base extra : nat) : list (list nat) :=
  match k with
  | O => []
  | S k => seq next (share base extra rank) ::
           pieces k (S rank) (next + share base extra rank) base extra
  end.

Fixpoint total_share (k rank base extra : nat) : nat :=
  match k with
  | O => 0
  | S k => share base extra rank + total_share k (S rank) base extra
  end.

Lemma concat_pieces k : ∀ rank next base extra,
  concat (pieces k rank next base extra) = seq next (total_share k rank base extra).
Proof.
  induction k as [|k IH]; intros rank next base extra; cbn [pieces concat total_share]; [done|].
  by rewrite IH, <- seq_app.
Qed.

Lemma total_share_eq k : ∀ rank base extra,
  total_share k rank base extra = (k * base + (Nat.min extra (rank + k) - Nat.min extra rank))%nat.
Proof.
  induction k as [|k IH]; intros rank base extra; cbn [total_share]; [lia|].
  rewrite IH. unfold share. destruct (Nat.ltb_spec rank extra); lia.
Qed.

Lemma total_share_all n m : (0 < m)%nat → total_share m 0 (n / m) (n mod m) = n.
Proof.
  intros Hm. rewrite total_share_eq. pose proof (Nat.mod_upper_bound n m ltac:(lia)).
  pose proof (Nat.div_mod n m ltac:(lia)). rewrite Nat.min_l, Nat.min_0_r by lia. lia.
Qed.

Lemma assign_ranges_length order : ∀ rank next base extra res,
  length (assign_ranges order rank next base extra res) = length res.
Proof.
  induction order as [|i order IH]; intros; cbn [assign_ranges]; [done|]. by rewrite IH, length_insert.
Qed.

Lemma assign_ranges_other order : ∀ rank next base extra res i,
  i ∉ order → assign_ranges order rank next base extra res !! i = res !! i.
Proof.
  induction order as [|j order IH]; intros rank next base extra res i Hi; cbn [assign_ranges]; [done|].
  apply not_elem_of_cons in Hi as [Hne Hi]. rewrite IH by done. by apply list_lookup_insert_ne.
Qed.

Lemma assign_ranges_pieces order : ∀ rank next base extra res,
  NoDup order → Forall (λ i, (i < length res)%nat) order →
  map (nth_list (assign_ranges order rank next base extra res)) order =
  pieces (length order) rank next base extra.
Proof.
  induction order as [|i order IH]; intros rank next base extra res Hnd HF; [done|].
  apply NoDup_cons in Hnd as [Hi Hnd]. apply Forall_cons in HF as [Hlt HF].
  cbn [assign_ranges map length pieces]. f_equal.
  - unfold nth_list. rewrite assign_ranges_other by done. by rewrite list_lookup_insert_eq.
  - apply IH; [done|]. by rewrite length_insert.
Qed.

Lemma range_assign_pieces n ids :
  (0 < length ids)%nat → (0 < n)%nat →
  length (range_assign n ids) = length ids ∧
  map (nth_list (range_assign n ids)) (sorted_members ids) =
    pieces (length ids) 0 0 (n / length ids) (n mod length ids).
Proof.
  intros Hm Hn. unfold range_assign.
  rewrite (proj2 (Nat.eqb_neq (length ids) 0)), (proj2 (Nat.eqb_neq n 0)) by lia. cbn [orb].
  split; [by rewrite assign_ranges_length, length_replicate|].
  rewrite assign_ranges_pieces; [by rewrite sorted_members_length|apply sorted_members_NoDup|].
  rewrite Forall_forall. intros i Hi. rewrite length_replicate. by apply sorted_members_lt.
Qed.

Lemma range_assign_length n ids : length (range_assign n ids) = length ids.
Proof.
  unfold range_assign. destruct (_ || _); [by rewrite length_replicate|].
  by rewrite assign_ranges_length, length_replicate.
Qed.

Lemma concat_replicate_nil {A} k : concat (replicate k ([] : list A)) = [].
Proof. by induction k. Qed.

Lemma range_assign_perm n ids :
  (0 < length ids)%nat → concat (range_assign n ids) ≡ₚ seq 0 n.
Proof.
  intros Hm. destruct (decide (n = 0)%nat) as [->|Hn].
  - unfold range_assign. rewrite orb_true_r. by rewrite concat_replicate_nil.
  - destruct (range_assign_pieces n ids) as [Hl Hp]; [done|lia|].
    rewrite (concat_by_order _ (sorted_members ids)) by (by rewrite Hl, sorted_members_perm).
    by rewrite Hp, concat_pieces, total_share_all.
Qed.

Lemma pieces_lengths k : ∀ rank next base extra l,
  l ∈ pieces k rank next base extra → length l = base ∨ length l = S base.
Proof.
  induction k as [|k IH]; intros rank next base extra l; cbn [pieces].
  - by intros ?%not_elem_of_nil.
  - intros [->|Hl]%elem_of_cons; [|by eapply IH]. rewrite length_seq. unfold share.
    destruct (rank <? extra)%nat; lia.
Qed.

(** ** Sums and balance *)

Lemma sum_le (owned : list (list nat)) target :
  Forall2 (λ o t, (length o ≤ t)%nat) owned target →
  (length (concat owned) ≤ sum_list target)%nat.
Proof. induction 1; cbn; [done|]. rewrite length_app. lia. Qed.

(** Below the targets everywhere and as many in total: equal everywhere. *)
Lemma sum_tight (owned : list (list nat)) target :
  Forall2 (λ o t, (length o ≤ t)%nat) owned target →
  length (concat owned) = sum_list target → Forall2 (λ o t, length o = t) owned target.
Proof.
  induction 1 as [|o t owned target Hle HF IH]; cbn; [done|]. rewrite length_app. intros Hs.
  pose proof (sum_le _ _ HF). constructor; [lia|]. apply IH. lia.
Qed.

Lemma sum_room (owned : list (list nat)) target :
  Forall2 (λ o t, (length o ≤ t)%nat) owned target →
  (length (concat owned) < sum_list target)%nat →
  ∃ i, (i < length owned)%nat ∧ (owned_len owned i < default 0 (target !! i))%nat.
Proof.
  induction 1 as [|o t owned target Hle HF IH]; cbn; [lia|]. rewrite length_app. intros Hs.
  destruct (decide (length o < t)%nat).
  - exists O. cbn. split; [lia|done].
  - destruct IH as (i & Hi & Ho); [lia|]. exists (S i). split; [lia|exact Ho].
Qed.

(** ** Targets *)

Definition nth_nat (t : list nat) (i : nat) : nat := default 0%nat (t !! i).

Lemma nat_list_by_index (t : list nat) : t = map (nth_nat t) (seq 0 (length t)).
Proof.
  apply list_eq. intros i. rewrite list_lookup_fmap. destruct (decide (i < length t)%nat).
  - rewrite lookup_seq_lt by done. cbn. unfold nth_nat.
    by destruct (lookup_lt_is_Some_2 t i) as [x ->].
  - rewrite lookup_seq_ge, lookup_ge_None_2 by lia. done.
Qed.

Lemma set_targets_length order : ∀ rank base extra t,
  length (set_targets order rank base extra t) = length t.
Proof.
  induction order as [|i order IH]; intros; cbn [set_targets]; [done|]. rewrite IH.
  destruct (_ <? _)%nat; [by rewrite length_insert|done].
Qed.

Lemma set_targets_other order : ∀ rank base extra t i,
  i ∉ order → set_targets order rank base extra t !! i = t !! i.
Proof.
  induction order as [|j order IH]; intros rank base extra t i Hi; cbn [set_targets]; [done|].
  apply not_elem_of_cons in Hi as [Hne Hi]. rewrite IH by done.
  destruct (_ <? _)%nat; [by apply list_lookup_insert_ne|done].
Qed.

Lemma set_targets_shares order : ∀ rank base extra t,
  NoDup order → Forall (λ i, t !! i = Some base) order →
  sum_list (map (nth_nat (set_targets order rank base extra t)) order) =
    total_share (length order) rank base extra ∧
  Forall (λ i, nth_nat (set_targets order rank base extra t) i = base ∨
               nth_nat (set_targets order rank base extra t) i = S base) order.
Proof.
  induction order as [|i order IH]; intros rank base extra t Hnd HF; [done|].
  apply NoDup_cons in Hnd as [Hi Hnd]. apply Forall_cons in HF as [Ht HF].
  cbn [set_targets map sum_list length total_share].
  set (t1 := if (rank <? extra)%nat then _ else t).
  assert (H1 : nth_nat (set_targets order (S rank) base extra t1) i = share base extra rank).
  { unfold nth_nat. rewrite set_targets_other by done. unfold t1, share.
    destruct (rank <? extra)%nat; [|rewrite Ht; cbn; lia].
    rewrite list_lookup_insert_eq by (by eapply lookup_lt_Some). cbn. lia. }
  destruct (IH (S rank) base extra t1 Hnd) as [Hs Hf].
  { rewrite Forall_forall in HF |- *. intros j Hj. unfold t1.
    destruct (rank <? extra)%nat; [|by apply HF].
    rewrite list_lookup_insert_ne; [by apply HF|]. intros ->. done. }
  cbn in Hs |- *. rewrite H1, Hs. split; [done|]. constructor; [|done]. rewrite H1. unfold share.
  destruct (_ <? _)%nat; lia.
Qed.

Lemma sum_list_perm (l k : list nat) : l ≡ₚ k → sum_list l = sum_list k.
Proof. induction 1; cbn; lia. Qed.

Lemma targets_spec n ids :
  (0 < length ids)%nat →
  length (targets n ids) = length ids ∧ sum_list (targets n ids) = n ∧
  Forall (λ t, t = n / length ids ∨ t = S (n / length ids))%nat (targets n ids).
Proof.
  intros Hm. unfold targets. set (m := length ids). set (base := (n / m)%nat). set (extra := (n mod m)%nat).
  set (t := set_targets _ _ _ _ _).
  assert (Hl : length t = m) by (unfold t; by rewrite set_targets_length, length_replicate).
  destruct (set_targets_shares (sorted_members ids) 0 base extra (replicate m base)) as [Hs HF].
  { apply sorted_members_NoDup. }
  { rewrite Forall_forall. intros i Hi%sorted_members_lt. by apply lookup_replicate_2. }
  fold t in Hs, HF. split; [done|].
  assert (Hp : map (nth_nat t) (sorted_members ids) ≡ₚ t).
  { rewrite (nat_list_by_index t) at 2. rewrite Hl. apply Permutation_map, sorted_members_perm. }
  split.
  - rewrite <- (sum_list_perm _ _ Hp), Hs, sorted_members_length. by apply total_share_all.
  - rewrite <- Hp. rewrite Forall_forall in HF |- *. intros x (i & -> & Hi)%list_elem_of_fmap.
    by apply HF.
Qed.

(** ** Keeping previous ownership *)

Lemma claim_spec n prev : ∀ owned claimed owned' claimed',
  claim n prev owned claimed = (owned', claimed') →
  ∃ new, owned' = owned ++ new ∧ NoDup new ∧ claimed' = claimed ∪ list_to_set new ∧
    ∀ p, p ∈ new ↔ p ∈ prev ∧ (p < n)%nat ∧ p ∉ claimed.
Proof.
  induction prev as [|p prev IH]; intros owned claimed owned' claimed' E; cbn [claim] in E.
  - injection E as <- <-. exists []. rewrite app_nil_r. split; [done|]. split; [constructor|].
    split; [set_solver|]. set_solver.
  - destruct (Nat.ltb_spec p n) as [Hlt|Hge]; cbn [andb] in E.
    + case_bool_decide as Hc; cbn [negb] in E.
      * destruct (IH _ _ _ _ E) as (new & -> & Hnd & -> & Hnew). exists new.
        split; [done|]. split; [done|]. split; [done|]. set_solver.
      * destruct (IH _ _ _ _ E) as (new & -> & Hnd & -> & Hnew). exists (p :: new).
        rewrite <- app_assoc. split; [done|]. split; [constructor; [rewrite Hnew; set_solver|done]|].
        split; [cbn; set_solver|]. intros q. rewrite !elem_of_cons, Hnew.
        destruct (decide (q = p)) as [->|]; [|set_solver]. split; [|by left]. intros _. tauto.
    + destruct (IH _ _ _ _ E) as (new & -> & Hnd & -> & Hnew). exists new.
      split; [done|]. split; [done|]. split; [done|]. intros q. rewrite Hnew, elem_of_cons.
      split; [tauto|]. intros [[->|?] [? ?]]; [lia|done].
Qed.

Lemma claim_all_spec n previous : ∀ claimed owned claimed',
  claim_all n previous claimed = (owned, claimed') →
  length owned = length previous ∧ NoDup (concat owned) ∧
  claimed' = claimed ∪ list_to_set (concat owned) ∧
  (∀ p, p ∈ concat owned → (p < n)%nat ∧ p ∉ claimed) ∧
  Forall2 (λ o prev, ∀ p, p ∈ o → p ∈ prev) owned previous.
Proof.
  induction previous as [|prev previous IH]; intros claimed owned claimed' E; cbn [claim_all] in E.
  - injection E as <- <-. split; [done|]. split; [constructor|]. split; [set_solver|].
    split; [set_solver|constructor].
  - destruct (claim n prev [] claimed) as [o c1] eqn:E1.
    destruct (claim_all n previous c1) as [rest c2] eqn:E2. injection E as <- <-.
    destruct (claim_spec _ _ _ _ _ _ E1) as (new & -> & Hnd & -> & Hnew). cbn [app] in *.
    destruct (IH _ _ _ E2) as (Hl & Hnd2 & -> & Hin & HF). cbn [concat length]. split; [by rewrite Hl|].
    split; [apply NoDup_app; split; [done|split; [|done]]; intros p Hp Hp2; destruct (Hin p Hp2); set_solver|].
    split; [rewrite list_to_set_app_L; set_solver|].
    split; [|constructor; [set_solver|done]].
    intros p [Hp|Hp]%elem_of_app; [set_solver|]. destruct (Hin p Hp). set_solver.
Qed.

(** ** Stripping the excess *)

Lemma pop_excess_spec fuel : ∀ l t free,
  (length l ≤ fuel)%nat → pop_excess fuel l t free = (take t l, free ++ rev (drop t l)).
Proof.
  induction fuel as [|fuel IH]; intros l t free Hf; cbn [pop_excess].
  - destruct l; [|cbn in Hf; lia]. by rewrite take_nil, drop_nil, app_nil_r.
  - destruct (Nat.ltb_spec t (length l)) as [Hlt|Hge].
    + destruct l as [|x l _] using rev_ind; [cbn in Hlt; lia|].
      rewrite last_snoc, removelast_last. rewrite length_app in Hlt, Hf. cbn in Hlt, Hf.
      rewrite IH by lia. rewrite take_app_le, drop_app_le by lia.
      rewrite rev_app_distr. cbn. by rewrite <- app_assoc.
    + rewrite take_ge, drop_ge by done. cbn. by rewrite app_nil_r.
Qed.

Lemma strip_one_spec o t free o' free' :
  strip_one o t free = (o', free') →
  o' ++ free' ≡ₚ o ++ free ∧ length o' = Nat.min t (length o) ∧ (∀ p, p ∈ o' → p ∈ o).
Proof.
  unfold strip_one. destruct (Nat.ltb_spec t (length o)) as [Hlt|Hge].
  - rewrite pop_excess_spec by (by rewrite merge_sort_Permutation). intros [= <- <-].
    pose proof (merge_sort_Permutation le o) as Hp.
    split; [|split; [by rewrite length_take, Hp|]].
    + transitivity (merge_sort le o ++ free); [|by rewrite Hp].
      set (m := merge_sort le o). rewrite <- (take_drop t m) at 3.
      rewrite <- !app_assoc. f_equiv. rewrite <- Permutation_rev. apply Permutation_app_comm.
    + intros p Hin. rewrite <- Hp. by eapply elem_of_sublist; [exact Hin|apply sublist_take].
  - intros [= <- <-]. split; [done|]. split; [lia|done].
Qed.

Lemma strip_spec owned : ∀ target free owned' free',
  length owned = length target → strip owned target free = (owned', free') →
  concat owned' ++ free' ≡ₚ concat owned ++ free ∧
  Forall2 (λ o t, (length o ≤ t)%nat) owned' target ∧
  Forall2 (λ o' o, ∀ p, p ∈ o' → p ∈ o) owned' owned ∧
  Forall2 (λ o' ot, length o' = Nat.min ot.2 (length ot.1)) owned' (zip owned target).
Proof.
  induction owned as [|o owned IH]; intros [|t target] free owned' free' Hl E; cbn [strip] in E; try done.
  - injection E as <- <-. split; [done|]. repeat (split; [constructor|]). done.
  - destruct (strip_one o t free) as [o1 f1] eqn:E1.
    destruct (strip owned target f1) as [owned1 f2] eqn:E2. injection E as <- <-.
    destruct (strip_one_spec _ _ _ _ _ E1) as (Hp1 & Hl1 & Hin1).
    destruct (IH target f1 owned1 f2 ltac:(by injection Hl) E2) as (Hp2 & HF & Hin2 & Hmin).
    cbn [concat zip zip_with]. split; [|split; [constructor; [lia|done]|split; by constructor]].
    rewrite <- app_assoc, Hp2. rewrite (Permutation_app_comm (concat owned) f1), app_assoc, Hp1.
    rewrite <- !app_assoc. f_equiv. apply Permutation_app_comm.
Qed.

Lemma dedup_NoDup {A} `{EqDecision A} (l : list A) : NoDup l → dedup l = l.
Proof.
  induction 1 as [|x l Hx Hnd IH]; [done|]. cbn [dedup]. destruct l as [|y l]; [done|].
  rewrite bool_decide_false by (intros ->; apply Hx; left). by rewrite IH.
Qed.

(** ** Filling up *)

Lemma concat_insert (owned : list (list nat)) i p :
  (i < length owned)%nat →
  concat (<[i := default [] (owned !! i) ++ [p]]> owned) ≡ₚ p :: concat owned.
Proof.
  revert i. induction owned as [|o owned IH]; intros [|i] Hi; cbn in *; try lia.
  - rewrite <- app_assoc. cbn. by rewrite Permutation_middle.
  - rewrite IH by lia. by rewrite Permutation_middle.
Qed.

Lemma fill_pick ids target free (owned : list (list nat)) p :
  length owned = length ids →
  Forall2 (λ o t, (length o ≤ t)%nat) owned target →
  (length (concat owned) < sum_list target)%nat →
  ∃ i, (i < length owned)%nat ∧ (owned_len owned i < default 0 (target !! i))%nat ∧
    fill ids target (p :: free) owned =
    fill ids target free (<[i := default [] (owned !! i) ++ [p]]> owned).
Proof.
  intros Hl HF Hs. destruct (sum_room owned target HF Hs) as (i0 & Hi0 & Hr0).
  cbn [fill]. set (under := filter _ _).
  assert (Hin : i0 ∈ under).
  { unfold under. apply list_elem_of_filter. split; [done|]. apply elem_of_seq. lia. }
  destruct under as [|u under'] eqn:Eu; [by apply not_elem_of_nil in Hin|].
  rewrite <- Eu. pose proof (merge_sort_Permutation (fewest_first ids owned) under) as Hp.
  rewrite Eu in Hp |- *. destruct (merge_sort _ (u :: under')) as [|i rest].
  { by apply Permutation_nil_l in Hp. }
  assert (Hi : i ∈ under) by (rewrite Eu, <- Hp; left).
  unfold under in Hi. apply list_elem_of_filter in Hi as [Hlt Hi%elem_of_seq].
  exists i. split; [lia|]. by split.
Qed.

Lemma fill_spec ids target free : ∀ owned L,
  length owned = length ids → concat owned ++ free ≡ₚ L → length L = sum_list target →
  Forall2 (λ o t, (length o ≤ t)%nat) owned target →
  concat (fill ids target free owned) ≡ₚ L ∧
  Forall2 (λ o t, length o = t) (fill ids target free owned) target ∧
  Forall2 (λ o r, o `prefix_of` r) owned (fill ids target free owned).
Proof.
  induction free as [|p free IH]; intros owned L Hl Hp Hsum HF.
  - rewrite app_nil_r in Hp. cbn [fill]. split; [done|]. split.
    + apply sum_tight; [done|]. by rewrite Hp.
    + by apply Forall2_same_length_lookup_2; [|intros i x y Hx Hy; rewrite Hx in Hy; injection Hy as ->].
  - destruct (fill_pick ids target free owned p Hl HF) as (i & Hi & Hroom & ->).
    { apply Permutation_length in Hp. rewrite length_app in Hp. cbn in Hp. lia. }
    set (owned1 := <[i := _]> owned).
    destruct (IH owned1 L) as (Hc & Ht & Hpre).
    + unfold owned1. by rewrite length_insert.
    + unfold owned1. rewrite concat_insert by done. by rewrite <- Hp, <- Permutation_middle.
    + done.
    + destruct (lookup_lt_is_Some_2 owned i Hi) as [o Ho].
      destruct (Forall2_lookup_l _ _ _ _ _ HF Ho) as (t & Ht & Hle).
      unfold owned1, owned_len in *. rewrite Ho, Ht in Hroom. cbn in Hroom.
      rewrite <- (list_insert_id target i t Ht). apply Forall2_insert; [done|].
      rewrite Ho. cbn. rewrite length_app. cbn. lia.
    + split; [done|]. split; [done|]. apply Forall2_same_length_lookup in Hpre as [Hlen Hpre].
      unfold owned1 in Hlen. rewrite length_insert in Hlen.
      apply Forall2_same_length_lookup_2; [done|]. intros j x y Hx Hy.
      destruct (decide (i = j)) as [<-|Hne].
      * etrans; [|apply (Hpre i (x ++ [p]) y); [|done]]; [by apply prefix_app_r|].
        unfold owned1. rewrite Hx. by apply list_lookup_insert_eq.
      * apply (Hpre j x y); [|done]. unfold owned1. by rewrite list_lookup_insert_ne.
Qed.

(** ** The whole assignment *)

Lemma claimed_or_free n owned claimed :
  NoDup (concat owned) → (∀ p, p ∈ concat owned → (p < n)%nat) →
  claimed = ∅ ∪ list_to_set (C := gset nat) (concat owned) →
  concat owned ++ filter (λ p, p ∉ claimed) (seq 0 n) ≡ₚ seq 0 n.
Proof.
  intros Hnd Hlt ->. apply NoDup_Permutation.
  - apply NoDup_app. split; [done|]. split.
    + intros p Hp Hf. apply list_elem_of_filter in Hf as [Hf _]. apply Hf. set_solver.
    + apply NoDup_filter, NoDup_seq.
  - apply NoDup_seq.
  - intros p. rewrite elem_of_app, list_elem_of_filter, elem_of_seq. split.
    + intros [Hp|[_ Hp]]; [specialize (Hlt p Hp); lia|lia].
    + intros Hp. destruct (decide (p ∈ concat owned)); [by left|right]. split; [set_solver|lia].
Qed.

(** What [sticky_assign] runs through: the stripped lists and the filled ones. *)
Lemma sticky_assign_run n ids previous :
  (0 < length ids)%nat → (0 < n)%nat → length previous = length ids →
  ∃ owned claimed kept free filled,
    claim_all n previous ∅ = (owned, claimed) ∧
    sticky_assign n ids previous = map (merge_sort le) filled ∧
    strip owned (targets n ids) (filter (λ p, p ∉ claimed) (seq 0 n)) = (kept, free) ∧
    concat filled ≡ₚ seq 0 n ∧
    Forall2 (λ o t, length o = t) filled (targets n ids) ∧
    Forall2 (λ o r, o `prefix_of` r) kept filled.
Proof.
  intros Hm Hn Hprev. unfold sticky_assign.
  destruct (Nat.eqb_spec (length ids) 0); [lia|]. destruct (Nat.eqb_spec n 0); [lia|]. cbn [orb].
  destruct (claim_all n previous ∅) as [owned claimed] eqn:Ec.
  destruct (claim_all_spec _ _ _ _ _ Ec) as (Hlo & Hnd & Hcl & Hlt & _).
  destruct (targets_spec n ids Hm) as (Hlt' & Hsum & _).
  destruct (strip owned _ _) as [kept free] eqn:Es.
  assert (Hlen : length owned = length (targets n ids)) by congruence.
  destruct (strip_spec _ _ _ _ _ Hlen Es) as (Hp & HF & Hsub & _).
  rewrite claimed_or_free in Hp by (done || intros p Hp'; by apply Hlt).
  assert (Hndf : NoDup free).
  { assert (Hall : NoDup (concat kept ++ free)) by (rewrite Hp; apply NoDup_seq).
    by apply NoDup_app in Hall as (_ & _ & ?). }
  exists owned, claimed, kept, free, (fill ids (targets n ids) (dedup (merge_sort le free)) kept).
  rewrite dedup_NoDup by (by rewrite merge_sort_Permutation).
  do 3 (split; [done|]). apply fill_spec; [|by rewrite merge_sort_Permutation| |done].
  - apply Forall2_length in HF. congruence.
  - by rewrite length_seq.
Qed.

Lemma concat_map_sort (ls : list (list nat)) : concat (map (merge_sort le) ls) ≡ₚ concat ls.
Proof. induction ls; cbn; [done|]. by rewrite merge_sort_Permutation, IHls. Qed.

Lemma sticky_assign_length n ids previous :
  length previous = length ids → length (sticky_assign n ids previous) = length ids.
Proof.
  intros Hl. destruct (decide ((length ids =? 0)%nat || (n =? 0)%nat = true)) as [Hz|Hz].
  - unfold sticky_assign. rewrite Hz. apply length_replicate.
  - apply not_true_is_false, orb_false_iff in Hz as [?%Nat.eqb_neq ?%Nat.eqb_neq].
    destruct (sticky_assign_run n ids previous) as (?&?&?&?&filled&_&->&_&_&HF&_); [lia..|done|].
    apply Forall2_length in HF. rewrite length_map, HF. by apply targets_spec; lia.
Qed.

Lemma sticky_assign_perm n ids previous :
  (0 < length ids)%nat → length previous = length ids →
  concat (sticky_assign n ids previous) ≡ₚ seq 0 n.
Proof.
  intros Hm Hl. destruct (decide (n = 0)%nat) as [->|Hn].
  - unfold sticky_assign. rewrite orb_true_r. by rewrite concat_replicate_nil.
  - destruct (sticky_assign_run n ids previous) as (?&?&?&?&filled&_&->&_&Hp&_); [lia..|done|].
    by rewrite concat_map_sort.
Qed.

Lemma claim_fresh n prev : ∀ owned claimed,
  NoDup prev → (∀ p, p ∈ prev → (p < n)%nat ∧ p ∉ claimed) →
  claim n prev owned claimed = (owned ++ prev, claimed ∪ list_to_set prev).
Proof.
  induction prev as [|p prev IH]; intros owned claimed Hnd Hok; cbn [claim].
  - rewrite app_nil_r. f_equal. set_solver.
  - apply NoDup_cons in Hnd as [Hp Hnd]. destruct (Hok p) as [Hlt Hc]; [left|].
    rewrite (proj2 (Nat.ltb_lt _ _) Hlt), bool_decide_false by done. cbn.
    rewrite IH; [|done|set_solver]. rewrite <- app_assoc. f_equal. set_solver.
Qed.

(** An assignment with no partition twice is claimed as it is. *)
Lemma claim_all_fresh n previous : ∀ claimed,
  NoDup (concat previous) → (∀ p, p ∈ concat previous → (p < n)%nat ∧ p ∉ claimed) →
  (claim_all n previous claimed).1 = previous.
Proof.
  induction previous as [|prev previous IH]; intros claimed Hnd Hok; cbn [claim_all]; [done|].
  cbn [concat] in *. apply NoDup_app in Hnd as (Hnd1 & Hdis & Hnd2).
  rewrite claim_fresh by (done || intros p Hp; apply Hok; set_solver). cbn.
  specialize (IH (claimed ∪ list_to_set prev)). destruct (claim_all _ _ _) as [rest c]. cbn in *.
  rewrite IH; [done|done|]. intros p Hp. destruct (Hok p) as [? ?]; set_solver.
Qed.

(** ** Theorems on one topic *)

(** [range_assign] shares the partitions out: with at least one member,
    the lists given are disjoint, together are exactly [0 .. n-1], each has
    [n / m] or [n / m + 1] elements, and read in the order of the member ids
    they are the consecutive numbers. *)
Theorem range_assign_shares n ids :
  (0 < length ids)%nat →
  length (range_assign n ids) = length ids ∧
  concat (range_assign n ids) ≡ₚ seq 0 n ∧
  concat (map (nth_list (range_assign n ids)) (sorted_members ids)) = seq 0 n ∧
  Forall (λ l, length l = n / length ids ∨ length l = S (n / length ids))%nat (range_assign n ids).
Proof.
  intros Hm. split; [apply range_assign_length|]. split; [by apply range_assign_perm|].
  destruct (decide (n = 0)%nat) as [->|Hn].
  - unfold range_assign. rewrite orb_true_r, Nat.Div0.div_0_l. split.
    + induction (sorted_members ids) as [|i l IH]; cbn; [done|]. rewrite IH, app_nil_r.
      unfold nth_list. destruct (replicate _ _ !! i) eqn:E; [|done].
      by apply lookup_replicate in E as [-> _].
    + apply Forall_replicate. by left.
  - destruct (range_assign_pieces n ids) as [Hl Hp]; [done|lia|]. split.
    + rewrite Hp, concat_pieces. by rewrite total_share_all.
    + rewrite (list_by_index (range_assign n ids)), Hl, <- sorted_members_perm, Hp.
      apply Forall_forall. intros l. apply pieces_lengths.
Qed.

Lemma range_assign_shares_witness :
  (0 < length ["b"; "a"; "c"])%nat ∧
  concat (range_assign 7 ["b"; "a"; "c"]%string) ≡ₚ seq 0 7 ∧
  range_assign 7 ["b"; "a"; "c"]%string = [[3; 4]; [0; 1; 2]; [5; 6]]%nat.
Proof.
  split; [cbn; lia|]. split; [|reflexivity]. apply (range_assign_shares 7 ["b"; "a"; "c"]%string).
  cbn. lia.
Defined.

(** [sticky_assign] shares the partitions out evenly whatever the previous
    assignment was: with at least one member and one previous list per member
    the lists given together are exactly [0 .. n-1], each partition once, and
    each list has [n / m] or [n / m + 1] elements, in increasing order. *)
Theorem sticky_assign_shares n ids previous :
  (0 < length ids)%nat → length previous = length ids →
  length (sticky_assign n ids previous) = length ids ∧
  concat (sticky_assign n ids previous) ≡ₚ seq 0 n ∧
  Forall (λ l, (length l = n / length ids ∨ length l = S (n / length ids)) ∧ Sorted le l)%nat
    (sticky_assign n ids previous).
Proof.
  intros Hm Hl. split; [by apply sticky_assign_length|]. split; [by apply sticky_assign_perm|].
  destruct (decide (n = 0)%nat) as [->|Hn].
  - unfold sticky_assign. rewrite orb_true_r, Nat.Div0.div_0_l. apply Forall_replicate.
    split; [by left|constructor].
  - destruct (sticky_assign_run n ids previous) as (?&?&?&?&filled&_&->&_&_&HF&_); [lia..|done|].
    destruct (targets_spec n ids Hm) as (_ & _ & Ht). apply Forall_map, Forall_lookup.
    intros i l Hi. destruct (Forall2_lookup_l _ _ _ _ _ HF Hi) as (t & Hti & Hlen).
    split; [|apply Sorted_merge_sort; intros a b; lia].
    rewrite (Permutation_length (merge_sort_Permutation le l)), Hlen.
    exact (Forall_lookup_1 _ _ _ _ Ht Hti).
Qed.

Lemma sticky_assign_shares_witness :
  (0 < length ["b"; "a"; "c"])%nat ∧ length [[0; 1; 2; 3]; []; [3; 9]]%nat = 3%nat ∧
  concat (sticky_assign 7 ["b"; "a"; "c"]%string [[0; 1; 2; 3]; []; [3; 9]]%nat) ≡ₚ seq 0 7 ∧
  sticky_assign 7 ["b"; "a"; "c"]%string [[0; 1; 2; 3]; []; [3; 9]]%nat = [[0; 1]; [2; 4; 6]; [3; 5]]%nat.
Proof.
  split; [cbn; lia|]. split; [done|]. split; [|reflexivity].
  apply (sticky_assign_shares 7 ["b"; "a"; "c"]%string [[0; 1; 2; 3]; []; [3; 9]]%nat); [cbn; lia|done].
Defined.

(** [sticky_assign] is sticky: when the previous lists give no partition
    twice and only partitions below [n], every member keeps as many of its
    previous partitions as its new share allows: all of them when it had no
    more than its share, a full share of them otherwise. *)
Theorem sticky_assign_keeps n ids previous i prev t :
  (0 < length ids)%nat → (0 < n)%nat → length previous = length ids →
  NoDup (concat previous) → (∀ p, p ∈ concat previous → (p < n)%nat) →
  previous !! i = Some prev → targets n ids !! i = Some t →
  ∃ kept new, sticky_assign n ids previous !! i = Some new ∧
    length new = t ∧ length kept = Nat.min t (length prev) ∧
    (∀ p, p ∈ kept → p ∈ prev ∧ p ∈ new) ∧ ∃ rest, kept ++ rest ≡ₚ new.
Proof.
  intros Hm Hn Hl Hnd Hlt Hi Ht.
  destruct (sticky_assign_run n ids previous)
    as (owned & claimed & kepts & free & filled & Ec & -> & Es & _ & HF & Hpre); [done..|].
  pose proof (claim_all_fresh n previous ∅ Hnd) as Hfresh. rewrite Ec in Hfresh. cbn in Hfresh.
  rewrite Hfresh in Es by (intros p Hp; split; [by apply Hlt|set_solver]).
  destruct (targets_spec n ids Hm) as (Htl & _).
  assert (Hlen : length previous = length (targets n ids)) by congruence.
  destruct (strip_spec _ _ _ _ _ Hlen Es) as (_ & _ & Hsub & Hmin).
  destruct (Forall2_lookup_r _ _ _ _ _ Hsub Hi) as (kept & Hk & Hin).
  destruct (Forall2_lookup_l _ _ _ _ _ Hpre Hk) as (r & Hr & [rest ->]).
  destruct (Forall2_lookup_l _ _ _ _ _ HF Hr) as (t' & Ht' & Hrt). rewrite Ht in Ht'. injection Ht' as <-.
  assert (Hz : zip previous (targets n ids) !! i = Some (prev, t)).
  { apply lookup_zip_with_Some. by exists prev, t. }
  pose proof (Forall2_lookup_lr _ _ _ _ _ _ Hmin Hk Hz) as Hmk. cbn in Hmk.
  pose proof (merge_sort_Permutation le (kept ++ rest)) as Hp.
  exists kept, (merge_sort le (kept ++ rest)). split; [by rewrite list_lookup_fmap, Hr|].
  split; [by rewrite (Permutation_length Hp)|]. split; [done|]. split; [|by exists rest].
  intros p Hpk. split; [by apply Hin|]. rewrite Hp. apply elem_of_app. by left.
Qed.

Lemma sticky_assign_keeps_witness :
  ∃ kept new,
    sticky_assign 6 ["b"; "a"; "c"]%string [[0; 1; 2; 3]; [4]; []]%nat !! 0%nat = Some new ∧
    length new = 2%nat ∧ length kept = Nat.min 2 (length [0; 1; 2; 3]%nat) ∧
    (∀ p, p ∈ kept → p ∈ [0; 1; 2; 3]%nat ∧ p ∈ new) ∧ ∃ rest, kept ++ rest ≡ₚ new.
Proof.
  apply (sticky_assign_keeps 6 ["b"; "a"; "c"]%string [[0; 1; 2; 3]; [4]; []]%nat 0 _ 2);
    [cbn; lia|lia|done| | |done|reflexivity].
  - apply (bool_decide_unpack _). reflexivity.
  - intros p Hp. cbn in Hp. repeat (apply elem_of_cons in Hp as [->|Hp]; [lia|]).
    by apply not_elem_of_nil in Hp.
Defined.

(** ** Several topics *)

Lemma str_le_total a b : str_le a b ∨ str_le b a.
Proof. apply String.leb_total. Qed.

Lemma str_le_antisym a b : str_le a b → str_le b a → a = b.
Proof. apply String.leb_antisym. Qed.

Lemma str_le_cons c s d t :
  str_le (String c s) (String d t) ↔
  (N_of_ascii c < N_of_ascii d)%N ∨ (c = d ∧ str_le s t).
Proof.
  unfold str_le, String.leb. cbn [String.compare]. unfold Ascii.compare.
  destruct (N.compare_spec (N_of_ascii c) (N_of_ascii d)) as [E|E|E].
  - assert (c = d) as -> by (by rewrite <- (ascii_N_embedding c), E, ascii_N_embedding).
    split; [auto|intros [?|[_ ?]]; [lia|done]].
  - split; auto.
  - split; [done|]. intros [?|[-> _]]; lia.
Qed.

Lemma str_le_trans a : ∀ b c, str_le a b → str_le b c → str_le a c.
Proof.
  induction a as [|x a IH]; intros b c Hab Hbc; [by destruct c|].
  destruct b as [|y b]; [done|]. destruct c as [|z c]; [done|].
  apply str_le_cons in Hab, Hbc. apply str_le_cons.
  destruct Hab as [?|[-> ?]], Hbc as [?|[-> ?]]; [left; lia|by left|by left|right; eauto].
Qed.

Lemma dedup_cons {A} `{EqDecision A} (x y : A) l :
  dedup (x :: y :: l) = if bool_decide (x = y) then dedup (y :: l) else x :: dedup (y :: l).
Proof. done. Qed.

Lemma dedup_elem {A} `{EqDecision A} (l : list A) x : x ∈ dedup l ↔ x ∈ l.
Proof.
  induction l as [|y [|z l] IH]; [done..|]. rewrite dedup_cons. case_bool_decide as E.
  - rewrite IH, E. set_solver.
  - rewrite !(elem_of_cons _ x y), IH. done.
Qed.

Lemma dedup_sorted_NoDup {A} `{EqDecision A} (R : relation A) (l : list A) :
  (∀ a b, R a b → R b a → a = b) → StronglySorted R l → NoDup (dedup l).
Proof.
  intros Hanti. induction 1 as [|x l Hs IH HF]; [constructor|]. destruct l as [|y l]; [apply NoDup_singleton|].
  rewrite dedup_cons. case_bool_decide as E; [done|]. apply NoDup_cons. split; [|done].
  rewrite dedup_elem. intros Hx. apply E. apply StronglySorted_inv in Hs as [_ Hy].
  apply elem_of_cons in Hx as [?|Hx]; [done|]. apply Hanti.
  - by apply Forall_cons in HF as [? _].
  - by eapply Forall_forall in Hy.
Qed.

Lemma all_topics_spec mts :
  NoDup (all_topics mts) ∧
  ∀ t, t ∈ all_topics mts ↔ ∃ i, (i < length mts)%nat ∧ t ∈ default [] (mts !! i).
Proof.
  split.
  - apply (dedup_sorted_NoDup str_le), StronglySorted_merge_sort; [apply str_le_antisym|intros a b c; apply str_le_trans|].
    intros a b. apply str_le_total.
  - intros t. unfold all_topics. rewrite dedup_elem, merge_sort_Permutation.
    rewrite list_elem_of_In, in_concat. split.
    + intros (l & Hl & Ht). apply list_elem_of_In, list_elem_of_lookup in Hl as [i Hi].
      exists i. split; [by eapply lookup_lt_Some|]. rewrite Hi. by apply list_elem_of_In.
    + intros (i & Hi & Ht). destruct (lookup_lt_is_Some_2 mts i Hi) as [l Hl]. rewrite Hl in Ht.
      exists l. split; apply list_elem_of_In; [by eapply list_elem_of_lookup_2|done].
Qed.

(** The partitions of one topic, if it is known. *)
Definition topic_parts (counts : gmap string nat) (topic : string) : list TopicPartition :=
  match counts !! topic with
  | Some n => map (pair topic) (seq 0 n)
  | None => []
  end.

Lemma concat_app_at {A} (out : list (list A)) i l :
  (i < length out)%nat → concat (<[i := default [] (out !! i) ++ l]> out) ≡ₚ l ++ concat out.
Proof.
  revert i. induction out as [|o out IH]; intros [|i] Hi; cbn in *; try lia.
  - by rewrite <- app_assoc, Permutation_app_swap_app.
  - rewrite IH by lia. apply Permutation_app_swap_app.
Qed.

Lemma add_parts_perm topic sub : ∀ parts out,
  length parts = length sub → Forall (λ i, (i < length out)%nat) sub →
  length (add_parts topic sub parts out) = length out ∧
  concat (add_parts topic sub parts out) ≡ₚ map (pair topic) (concat parts) ++ concat out.
Proof.
  induction sub as [|i sub IH]; intros [|ps parts] out Hl HF; cbn [add_parts]; try done.
  apply Forall_cons in HF as [Hi HF]. injection Hl as Hl.
  destruct (IH parts (<[i := default [] (out !! i) ++ map (pair topic) ps]> out) Hl) as [IHl IHp].
  { by rewrite length_insert. }
  rewrite length_insert in IHl. split; [done|]. rewrite IHp, concat_app_at by done. cbn [concat].
  rewrite map_app, <- app_assoc. apply Permutation_app_swap_app.
Qed.

Lemma add_parts_elem topic sub : ∀ parts out i t p,
  (t, p) ∈ nth_list (add_parts topic sub parts out) i →
  (t, p) ∈ nth_list out i ∨ (t = topic ∧ i ∈ sub).
Proof.
  induction sub as [|j sub IH]; intros [|ps parts] out i t p; cbn [add_parts]; auto.
  intros Hin. apply IH in Hin as [Hin|[-> Hin]]; [|right; split; [done|by right]].
  unfold nth_list in *. destruct (decide (i = j)) as [->|Hne].
  - destruct (decide (j < length out)%nat) as [Hj|Hj].
    + rewrite list_lookup_insert_eq in Hin by done. cbn in Hin.
      apply elem_of_app in Hin as [?|Hin]; [by left|right].
      apply list_elem_of_fmap in Hin as (q & [= -> ->] & _). split; [done|left].
    + rewrite (list_insert_ge out j) in Hin by lia. by left.
  - rewrite list_lookup_insert_ne in Hin by done. by left.
Qed.

(** One topic's assignor gives each subscriber a list, and every partition once. *)
Definition assigns_all (assign : string → nat → list nat → list (list nat)) : Prop :=
  ∀ t n sub, sub ≠ [] →
    length (assign t n sub) = length sub ∧ concat (assign t n sub) ≡ₚ seq 0 n.

Lemma subscribers_spec topic mts i :
  i ∈ subscribers topic mts ↔ (i < length mts)%nat ∧ topic ∈ default [] (mts !! i).
Proof. unfold subscribers. rewrite list_elem_of_filter, elem_of_seq. intuition lia. Qed.

Lemma assign_topics_perm assign mts counts topics : ∀ out,
  assigns_all assign → (∀ t, t ∈ topics → subscribers t mts ≠ []) → (length mts ≤ length out)%nat →
  length (assign_topics assign mts counts topics out) = length out ∧
  concat (assign_topics assign mts counts topics out) ≡ₚ
    concat (map (topic_parts counts) topics) ++ concat out.
Proof.
  induction topics as [|t topics IH]; intros out Ha Hs Hl; [done|]. cbn [assign_topics map concat].
  unfold topic_parts at 1. destruct (counts !! t) as [n|].
  2: { apply IH; [done|set_solver|done]. }
  assert (Ht : subscribers t mts ≠ []) by (apply Hs; left).
  destruct (Ha t n (subscribers t mts) Ht) as [Hal Hap].
  destruct (add_parts_perm t (subscribers t mts) (assign t n (subscribers t mts)) out Hal) as [Hl' Hp'].
  { apply Forall_forall. intros i [? _]%subscribers_spec. lia. }
  destruct (subscribers t mts) as [|s subs] eqn:Esub; [done|]. rewrite <- Esub in *.
  destruct (IH (add_parts t (subscribers t mts) (assign t n (subscribers t mts)) out)) as [IHl IHp];
    [done|set_solver|lia|].
  split; [congruence|]. rewrite IHp, Hp', Hap, <- app_assoc. apply Permutation_app_swap_app.
Qed.

Lemma assign_topics_elem assign mts counts topics : ∀ out i t p,
  (t, p) ∈ nth_list (assign_topics assign mts counts topics out) i →
  (t, p) ∈ nth_list out i ∨ t ∈ default [] (mts !! i).
Proof.
  induction topics as [|t0 topics IH]; intros out i t p Hin; cbn [assign_topics] in Hin; [by left|].
  apply IH in Hin as [Hin|?]; [|by right].
  destruct (counts !! t0) as [n|]; [|by left].
  destruct (subscribers t0 mts) as [|s subs] eqn:Esub; [by left|]. rewrite <- Esub in Hin.
  apply add_parts_elem in Hin as [?|[-> Hi]]; [by left|right]. by apply subscribers_spec in Hi as [_ ?].
Qed.

(** What an assignment of several topics promises: no partition twice, exactly
    the partitions of the known topics somebody subscribes to, and to each
    member only partitions of its own subscriptions. *)
Definition assignment_ok (mts : list (list string)) (counts : gmap string nat)
    (result : list (list TopicPartition)) : Prop :=
  length result = length mts ∧ NoDup (concat result) ∧
  (∀ t p, (t, p) ∈ concat result ↔
     (∃ i mt, mts !! i = Some mt ∧ t ∈ mt) ∧ ∃ n, counts !! t = Some n ∧ (p < n)%nat) ∧
  (∀ i tps t p, result !! i = Some tps → (t, p) ∈ tps → ∃ mt, mts !! i = Some mt ∧ t ∈ mt).

Lemma topic_parts_elem counts topics t p :
  (t, p) ∈ concat (map (topic_parts counts) topics) ↔
  t ∈ topics ∧ ∃ n, counts !! t = Some n ∧ (p < n)%nat.
Proof.
  induction topics as [|t0 topics IH]; cbn [map concat]; [set_solver|].
  rewrite elem_of_app, IH, elem_of_cons. unfold topic_parts. split.
  - intros [Hin|(Ht & Hn)]; [|by auto]. destruct (counts !! t0) as [n|] eqn:En; [|set_solver].
    apply list_elem_of_fmap in Hin as (q & [= -> ->] & Hq%elem_of_seq). split; [by left|].
    exists n. split; [done|lia].
  - intros [[->|Ht] (n & Hn & Hp)]; [left|right; eauto]. rewrite Hn.
    apply list_elem_of_fmap. exists p. split; [done|]. apply elem_of_seq. lia.
Qed.

Lemma topic_parts_NoDup counts topics :
  NoDup topics → NoDup (concat (map (topic_parts counts) topics)).
Proof.
  induction 1 as [|t topics Ht Hnd IH]; cbn [map concat]; [constructor|].
  apply NoDup_app. split; [|split; [|done]].
  - unfold topic_parts. destruct (counts !! t); [|constructor].
    apply NoDup_fmap; [intros ?? [=]; done|apply NoDup_seq].
  - intros [t' p] Hin (Ht' & _)%topic_parts_elem. unfold topic_parts in Hin.
    destruct (counts !! t); [|set_solver].
    apply list_elem_of_fmap in Hin as (q & [= -> ->] & _). done.
Qed.

Lemma concat_map_sort_tp (ls : list (list TopicPartition)) :
  concat (map (merge_sort tp_le) ls) ≡ₚ concat ls.
Proof. induction ls; cbn; [done|]. by rewrite merge_sort_Permutation, IHls. Qed.

Lemma assign_topics_ok assign (ids : list string) mts counts :
  assigns_all assign → length mts = length ids →
  assignment_ok mts counts
    (map (merge_sort tp_le)
       (assign_topics assign mts counts (all_topics mts) (replicate (length ids) []))).
Proof.
  intros Ha Hl. destruct (all_topics_spec mts) as [Hnd Hall].
  destruct (assign_topics_perm assign mts counts (all_topics mts) (replicate (length ids) []))
    as [Hlen Hp]; [done| |by rewrite length_replicate, Hl|].
  { intros t (i & Hi)%Hall Hs. apply subscribers_spec in Hi. rewrite Hs in Hi. by apply not_elem_of_nil in Hi. }
  rewrite concat_replicate_nil, app_nil_r in Hp. rewrite length_replicate in Hlen.
  split; [by rewrite length_map, Hlen|]. split.
  { rewrite concat_map_sort_tp, Hp. by apply topic_parts_NoDup. }
  split.
  - intros t p. rewrite concat_map_sort_tp, Hp, topic_parts_elem, Hall. f_equiv. split.
    + intros (i & Hi & Ht). destruct (lookup_lt_is_Some_2 mts i Hi) as [mt Hmt]. rewrite Hmt in Ht. eauto.
    + intros (i & mt & Hmt & Ht). exists i. rewrite Hmt. split; [by eapply lookup_lt_Some|done].
  - intros i tps t p Hi Hin. rewrite list_lookup_fmap in Hi.
    destruct (_ !! i) as [l|] eqn:El in Hi; [|done]. injection Hi as <-.
    rewrite merge_sort_Permutation in Hin.
    destruct (assign_topics_elem assign mts counts (all_topics mts) (replicate (length ids) []) i t p) as [Hno|Ht].
    + unfold nth_list. by rewrite El.
    + unfold nth_list in Hno. destruct (replicate _ _ !! i) eqn:Er; [|set_solver].
      apply lookup_replicate in Er as [-> _]. set_solver.
    + destruct (mts !! i); [eauto|set_solver].
Qed.

Lemma sticky_assign_multi_ok ids mts counts previous :
  length mts = length ids → assignment_ok mts counts (sticky_assign_multi ids mts counts previous).
Proof.
  intros Hl. apply assign_topics_ok; [|done]. intros t n sub Hsub.
  split; [rewrite sticky_assign_length; by rewrite !length_map|].
  apply sticky_assign_perm; rewrite !length_map; [|done]. destruct sub; [done|cbn; lia].
Qed.

(** [range_assign_multi] over several topics gives every partition of
    every known subscribed topic to exactly one member, nothing else, and to
    each member only partitions of topics it subscribes to. *)
Theorem range_assign_multi_complete ids mts counts :
  length mts = length ids → assignment_ok mts counts (range_assign_multi ids mts counts).
Proof.
  intros Hl. apply assign_topics_ok; [|done]. intros t n sub Hsub.
  split; [by rewrite range_assign_length, length_map|]. apply range_assign_perm.
  rewrite length_map. destruct sub; [done|cbn; lia].
Qed.

Lemma range_assign_multi_complete_witness :
  assignment_ok [["t"; "u"]; ["t"]]%string {[ "t" := 3%nat; "u" := 1%nat ]}
    (range_assign_multi ["m1"; "m2"]%string [["t"; "u"]; ["t"]]%string {[ "t" := 3%nat; "u" := 1%nat ]}) ∧
  range_assign_multi ["m1"; "m2"]%string [["t"; "u"]; ["t"]]%string {[ "t" := 3%nat; "u" := 1%nat ]} =
    [[("t", 0); ("t", 1); ("u", 0)]; [("t", 2)]]%string%nat.
Proof. split; [|reflexivity]. apply range_assign_multi_complete. done. Defined.

(** C39: [sticky_assign_multi], whatever the previous assignment was (stale
    topics, partitions claimed twice or out of range included), gives every
    partition of every known subscribed topic to exactly one member, nothing
    else, and to each member only partitions of topics it subscribes to. *)
Theorem sticky_assign_multi_complete ids mts counts previous :
  length mts = length ids → assignment_ok mts counts (sticky_assign_multi ids mts counts previous).
Proof. apply sticky_assign_multi_ok. Qed.

Lemma sticky_assign_multi_complete_witness :
  assignment_ok [["t"; "u"]; ["t"]]%string {[ "t" := 3%nat; "u" := 1%nat ]}
    (sticky_assign_multi ["m1"; "m2"]%string [["t"; "u"]; ["t"]]%string
       {[ "t" := 3%nat; "u" := 1%nat ]} [[("t", 2)]; [("t", 0); ("t", 2); ("v", 9)]]%string%nat) ∧
  sticky_assign_multi ["m1"; "m2"]%string [["t"; "u"]; ["t"]]%string
    {[ "t" := 3%nat; "u" := 1%nat ]} [[("t", 2)]; [("t", 0); ("t", 2); ("v", 9)]]%string%nat =
    [[("t", 1); ("t", 2); ("u", 0)]; [("t", 0)]]%string%nat.
Proof. split; [|reflexivity]. apply sticky_assign_multi_complete. done. Defined.
