(* ===== verification/OffsetStore.v ===== *)
(** * Committed consumer offsets: [volant-broker/src/offset_store.rs]

    One file per committed offset under
    [root/{group}/{topic}/{partition}].  The part of the file system the store
    uses is explicit: the directories, and the contents of the files, by
    resolved path.  System calls fail where the paths force them to (a file in
    the place of a directory and the converse), and only there. *)

From Stdlib Require Import Strings.String Strings.Ascii.
From S2P Require Import Prelude Bytes Assignor.
#[local] Open Scope Z_scope.

(** ** Paths and files *)

Abbreviation path := (list string).

Record Fs := mkFs {
  fs_files : gmap path bytes;
  fs_dirs : gset path;
}.

(** The components of a [Path]: empty names and [.] disappear. *)
Definition components (p : path) : path :=
  filter (λ c, c ≠ ""%string ∧ c ≠ "."%string) p.

(** [Path::parent] is lexical. *)
Definition parent (p : path) : path := removelast p.

Definition enter (cur : path) (c : string) : path :=
  if bool_decide (c = ".."%string) then removelast cur else cur ++ [c].

(** Resolution from a directory: every name but the last must be in a
    directory that exists. *)
Fixpoint walk (fs : Fs) (cur : path) (p : path) : option path :=
  match p with
  | [] => Some cur
  | c :: p => if bool_decide (cur ∈ fs_dirs fs) then walk fs (enter cur c) p else None
  end.

Definition resolve (fs : Fs) (p : path) : option path := walk fs [] p.

Definition is_dir (fs : Fs) (q : path) : bool := bool_decide (q ∈ fs_dirs fs).
Definition is_file (fs : Fs) (q : path) : bool := bool_decide (is_Some (fs_files fs !! q)).

(** [Path::exists] *)
Definition path_exists (fs : Fs) (p : path) : bool :=
  match resolve fs p with
  | Some q => is_dir fs q || is_file fs q
  | None => false
  end.

(** [fs::create_dir_all] *)
Fixpoint create_dirs (fs : Fs) (cur : path) (p : path) : option Fs :=
  if is_file fs cur then None else
  let fs := mkFs (fs_files fs) ({[cur]} ∪ fs_dirs fs) in
  match p with
  | [] => Some fs
  | c :: p => create_dirs fs (enter cur c) p
  end.

Definition write_file (fs : Fs) (q : path) (data : bytes) : Fs :=
  mkFs (<[q := data]> (fs_files fs)) (fs_dirs fs).

Definition remove_file (fs : Fs) (q : path) : Fs := mkFs (delete q (fs_files fs)) (fs_dirs fs).

Definition child_of (d : path) (q : path) : option string :=
  match last q with
  | Some c => if bool_decide (q = d ++ [c]) then Some c else None
  | None => None
  end.

(** The names in a directory. *)
Definition children (fs : Fs) (d : path) : list string :=
  omap (child_of d) (map fst (map_to_list (fs_files fs)) ++ elements (fs_dirs fs)).

(** [fs::remove_dir], result ignored: only an empty directory goes. *)
Definition remove_dir (fs : Fs) (p : path) : Fs :=
  match resolve fs p with
  | Some q =>
    if is_dir fs q && bool_decide (children fs q = [])
    then mkFs (fs_files fs) (fs_dirs fs ∖ {[q]})
    else fs
  | None => fs
  end.

(** ** Decimal numbers: [to_string] and [parse] of [u32] and [u64] *)

Definition digit (d : Z) : ascii := ascii_of_N (Z.to_N (48 + d)).

Fixpoint decimal (fuel : nat) (z : Z) (acc : string) : string :=
  match fuel with
  | O => acc
  | S fuel =>
    let acc := String (digit (z mod 10)) acc in
    if z <? 10 then acc else decimal fuel (z / 10) acc
  end.

(** A [u32] has at most ten digits. *)
Definition u32_to_string (z : Z) : string := decimal 10 z "".
(** A [u64] has at most twenty. *)
Definition u64_to_string (z : Z) : string := decimal 20 z "".

Definition digit_val (c : ascii) : option Z :=
  let v := Z.of_N (N_of_ascii c) - 48 in
  if (0 <=? v) && (v <=? 9) then Some v else None.

Fixpoint parse_digits (max : Z) (s : string) (acc : Z) : option Z :=
  match s with
  | EmptyString => Some acc
  | String c s =>
    match digit_val c with
    | Some d => let acc := 10 * acc + d in if max <? acc then None else parse_digits max s acc
    | None => None
    end
  end.

(** A leading [+] is accepted, an empty number is not. *)
Definition parse_uint (max : Z) (s : string) : option Z :=
  let s := match s with
           | String c s' => if bool_decide (c = "+"%char) then s' else s
           | EmptyString => s
           end in
  match s with
  | EmptyString => None
  | _ => parse_digits max s 0
  end.
Definition parse_u32 : string → option Z := parse_uint u32_max.
Definition parse_u64 : string → option Z := parse_uint u64_max.

(** ** The store *)

Definition OFFSET_UNKNOWN : Z := u64_max.
Definition LEADER_EPOCH_UNKNOWN : Z := -1.

Record StoredOffset := mkStoredOffset {
  so_topic : string;
  so_partition : Z;
  so_offset : Z;
  so_metadata : string;
  so_leader_epoch : Z;
}.

#[export] Instance StoredOffset_eq_dec : EqDecision StoredOffset.
Proof. solve_decision. Defined.

Definition allowed_char (c : ascii) : bool :=
  let v := Z.of_N (N_of_ascii c) in
  ((48 <=? v) && (v <=? 57)) || ((65 <=? v) && (v <=? 90)) || ((97 <=? v) && (v <=? 122)) ||
  bool_decide (c = "-"%char) || bool_decide (c = "_"%char) || bool_decide (c = "."%char).

(** One character at a time: the continuation bytes of a character belong to
    its first byte. *)
Fixpoint sanitize (s : string) : string :=
  match s with
  | EmptyString => EmptyString
  | String c s =>
    let v := Z.of_N (N_of_ascii c) in
    if (128 <=? v) && (v <=? 191) then sanitize s
    else String (if allowed_char c then c else "_"%char) (sanitize s)
  end.

Definition to_string_lossy (name : string) : string := from_utf8_lossy (as_bytes name).

(** [name.ends_with(".tmp")] *)
Definition ends_with_tmp (name : string) : bool :=
  (4 <=? String.length name)%nat &&
  String.eqb (String.substring (String.length name - 4) 4 name) ".tmp".

Definition so_le (a b : StoredOffset) : Prop :=
  (so_topic a ≠ so_topic b ∧ str_le (so_topic a) (so_topic b)) ∨
  (so_topic a = so_topic b ∧ so_partition a ≤ so_partition b).

#[export] Instance so_le_dec a b : Decision (so_le a b).
Proof. unfold so_le. apply _. Defined.
#[global] Typeclasses Opaque so_le.

Section store.
Context `{IterOrder} (root : path).

Definition entry_path (group_id topic : string) (partition : Z) : path :=
  components (root ++ [sanitize group_id; sanitize topic; u32_to_string partition]).

(** [Path::with_extension("tmp")] on a name without a dot. *)
Definition with_tmp (p : path) : path :=
  match last p with
  | Some name => removelast p ++ [(name ++ ".tmp")%string]
  | None => p
  end.

Definition encode_offset (offset : Z) (metadata : string) (leader_epoch : Z) : bytes :=
  u64_le offset ++ u16_le (str_len metadata) ++ as_bytes metadata ++ u32_le leader_epoch.

(** [OffsetStore::new] *)
Definition new_store (fs : Fs) : result unit * Fs :=
  match create_dirs fs [] root with
  | Some fs => (Ok tt, fs)
  | None => (Err (Storage "create offset store"), fs)
  end.

Definition commit_with_epoch (fs : Fs) (group_id topic : string) (partition offset : Z)
    (metadata : string) (leader_epoch : Z) : result unit * Fs :=
  let p := entry_path group_id topic partition in
  match create_dirs fs [] (parent p) with
  | None => (Err (Storage "create offset dir"), fs)
  | Some fs =>
    match resolve fs (with_tmp p), resolve fs p with
    | Some tmp, Some q =>
      if is_dir fs tmp then (Err (Storage "open offset tmp"), fs) else
      let fs := write_file fs tmp [] in
      if u16_max <? str_len metadata
      then (Err (InvalidArgument "offset metadata too long"), fs) else
      let data := encode_offset offset metadata leader_epoch in
      let fs := write_file fs tmp data in
      if is_dir fs q then (Err (Storage "rename offset file"), fs)
      else (Ok tt, write_file (remove_file fs tmp) q data)
    | _, _ => (Err (Storage "open offset tmp"), fs)
    end
  end.

Definition commit (fs : Fs) (group_id topic : string) (partition offset : Z) (metadata : string)
    : result unit * Fs :=
  commit_with_epoch fs group_id topic partition offset metadata LEADER_EPOCH_UNKNOWN.

(** The contents of a file as [fetch] reads them. *)
Definition decode_offset (buf : bytes) : result (Z * string * Z) :=
  if zlen buf <? 10 then Err (Storage "corrupt offset file") else
  let offset := le_val (zslice 0 8 buf) in
  let meta_len := le_val (zslice 8 10 buf) in
  if zlen buf <? 10 + meta_len then Err (Storage "corrupt offset metadata") else
  let metadata := from_utf8_lossy (zslice 10 (10 + meta_len) buf) in
  let leader_epoch :=
    if 10 + meta_len + 4 <=? zlen buf
    then as_i32 (le_val (zslice (10 + meta_len) (10 + meta_len + 4) buf))
    else LEADER_EPOCH_UNKNOWN in
  Ok (offset, metadata, leader_epoch).

Definition fetch (fs : Fs) (group_id topic : string) (partition : Z) : result (Z * string * Z) :=
  match resolve fs (entry_path group_id topic partition) with
  | Some q =>
    if is_dir fs q then Err (Storage "read offset") else
    match fs_files fs !! q with
    | Some buf => decode_offset buf
    | None => Ok (OFFSET_UNKNOWN, ""%string, LEADER_EPOCH_UNKNOWN)
    end
  | None => Ok (OFFSET_UNKNOWN, ""%string, LEADER_EPOCH_UNKNOWN)
  end.

Definition list_group_ids (fs : Fs) : result (list string) :=
  if negb (path_exists fs root) then Ok [] else
  match resolve fs root with
  | Some q =>
    if is_file fs q then Err (Storage "list offset groups") else
    Ok (merge_sort str_le
          (map to_string_lossy (filter (λ c, is_dir fs (q ++ [c]) = true) (reorder (children fs q)))))
  | None => Ok []
  end.

Definition delete_offset (fs : Fs) (group_id topic : string) (partition : Z) : result bool * Fs :=
  let p := entry_path group_id topic partition in
  if negb (path_exists fs p) then (Ok false, fs) else
  match resolve fs p with
  | Some q =>
    if is_dir fs q then (Err (Storage "delete offset"), fs) else
    let fs := remove_file fs q in
    let fs := remove_dir fs (parent p) in
    let fs := remove_dir fs (parent (parent p)) in
    (Ok true, fs)
  | None => (Ok false, fs)
  end.

(** Deletes in order, counting; stops at the first error. *)
Fixpoint delete_each (fs : Fs) (group_id : string) (entries : list (string * Z)) (n : Z)
    : result Z * Fs :=
  match entries with
  | [] => (Ok n, fs)
  | (topic, partition) :: entries =>
    let! (gone, fs) := delete_offset fs group_id topic partition in
    delete_each fs group_id entries (if gone then n + 1 else n)
  end.

(** The files of one topic directory. *)
Fixpoint fetch_names (fs : Fs) (group_id topic : string) (d : path) (names : list string)
    (out : list StoredOffset) : result (list StoredOffset) :=
  match names with
  | [] => Ok out
  | name :: names =>
    if is_dir fs (d ++ [name]) then fetch_names fs group_id topic d names out else
    let name := to_string_lossy name in
    if ends_with_tmp name then fetch_names fs group_id topic d names out else
    match parse_u32 name with
    | None => fetch_names fs group_id topic d names out
    | Some partition =>
      let? (offset, metadata, leader_epoch) := fetch fs group_id topic partition in
      fetch_names fs group_id topic d names
        (if offset =? OFFSET_UNKNOWN then out
         else out ++ [mkStoredOffset topic partition offset metadata leader_epoch])
    end
  end.

(** The topic directories of a group directory. *)
Fixpoint fetch_topics (fs : Fs) (group_id : string) (d : path) (names : list string)
    (out : list StoredOffset) : result (list StoredOffset) :=
  match names with
  | [] => Ok out
  | name :: names =>
    if negb (is_dir fs (d ++ [name])) then fetch_topics fs group_id d names out else
    let? out := fetch_names fs group_id (to_string_lossy name) (d ++ [name])
                  (reorder (children fs (d ++ [name]))) out in
    fetch_topics fs group_id d names out
  end.

Definition fetch_all (fs : Fs) (group_id : string) : result (list StoredOffset) :=
  let group_dir := components (root ++ [sanitize group_id]) in
  if negb (path_exists fs group_dir) then Ok [] else
  match resolve fs group_dir with
  | Some d =>
    if is_file fs d then Err (Storage "read group offsets") else
    let? out := fetch_topics fs group_id d (reorder (children fs d)) [] in
    Ok (merge_sort so_le out)
  | None => Ok []
  end.

Definition delete_many (fs : Fs) (group_id : string) (entries : list (string * Z))
    : result Z * Fs :=
  match entries with
  | [] =>
    match fetch_all fs group_id with
    | Ok all => delete_each fs group_id (map (λ e, (so_topic e, so_partition e)) all) 0
    | Err e => (Err e, fs)
    end
  | _ => delete_each fs group_id entries 0
  end.

End store.
