(* ===== verification/OffsetStoreProps.v ===== *)
(** * The offset store is a finite map

    A store directory represents a finite map from (group, topic, partition)
    to (offset, metadata, epoch).  Commits, fetches, listings and deletions
    act on the directory as the corresponding operations act on the map. *)

From Stdlib Require Import Strings.String Strings.Ascii.
From S2P Require Import Prelude Bytes Assignor AssignorProps OffsetStore.
#[local] Open Scope Z_scope.
#[local] Set Warnings "-clear-no-such-hyp".

(** ** Characters *)

Fixpoint str_all (P : ascii → bool) (s : string) : bool :=
  match s with
  | EmptyString => true
  | String c s => P c && str_all P s
  end.

Definition is_digit (c : ascii) : bool := bool_decide (is_Some (digit_val c)).

Lemma str_all_get P s n c : str_all P s = true → String.get n s = Some c → P c = true.
Proof.
  revert n. induction s as [|d s IH]; intros n Hs Hg; [by destruct n|].
  apply andb_prop in Hs as [Hd Hs]. destruct n; cbn in Hg; [by injection Hg as <-|by eapply IH].
Qed.

Lemma digit_val_digit d : 0 ≤ d ≤ 9 → digit_val (digit d) = Some d.
Proof.
  intros Hd.
  assert (d = 0 ∨ d = 1 ∨ d = 2 ∨ d = 3 ∨ d = 4 ∨ d = 5 ∨ d = 6 ∨ d = 7 ∨ d = 8 ∨ d = 9) as Hc by lia.
  repeat destruct Hc as [->|Hc]; try reflexivity. by subst d.
Qed.

Lemma mod_10_digit z : 0 ≤ z mod 10 ≤ 9.
Proof. pose proof (Z.mod_pos_bound z 10). lia. Qed.

Lemma decimal_digits fuel : ∀ z acc,
  str_all is_digit acc = true → str_all is_digit (decimal fuel z acc) = true.
Proof.
  induction fuel as [|fuel IH]; intros z acc Ha; cbn [decimal]; [done|].
  assert (Ha' : str_all is_digit (String (digit (z mod 10)) acc) = true).
  { cbn [str_all]. rewrite Ha, andb_true_r. unfold is_digit.
    rewrite digit_val_digit by apply mod_10_digit. done. }
  destruct (z <? 10); [done|by apply IH].
Qed.

Lemma decimal_parse max fuel : ∀ z acc,
  0 ≤ z < 10 ^ Z.of_nat fuel → (0 < fuel)%nat → z ≤ max →
  parse_digits max (decimal fuel z acc) 0 = parse_digits max acc z.
Proof.
  induction fuel as [|fuel IH]; intros z acc Hz Hf Hm; [lia|]. cbn [decimal].
  destruct (Z.ltb_spec z 10) as [Hs|Hs].
  - cbn [parse_digits]. rewrite Z.mod_small, digit_val_digit by lia. cbn.
    rewrite Zltb_false by done. done.
  - assert (Hd : z = 10 * (z / 10) + z mod 10) by (apply Z.div_mod; lia).
    pose proof (mod_10_digit z). rewrite Nat2Z.inj_succ, Z.pow_succ_r in Hz by lia.
    assert (0 < fuel)%nat by (destruct fuel; [cbn in Hz; lia|lia]).
    rewrite IH by lia. cbn [parse_digits]. rewrite digit_val_digit by lia.
    rewrite <- Hd, Zltb_false by done. done.
Qed.

Lemma decimal_head fuel : ∀ z acc,
  (0 < fuel)%nat → ∃ d s, 0 ≤ d ≤ 9 ∧ decimal fuel z acc = String (digit d) s.
Proof.
  induction fuel as [|fuel IH]; intros z acc Hf; [lia|]. cbn [decimal].
  destruct (z <? 10); [eauto using mod_10_digit|]. destruct fuel; [eauto using mod_10_digit|].
  apply IH. lia.
Qed.

Definition is_u32 (z : Z) : Prop := 0 ≤ z ≤ u32_max.

Lemma decimal_parse_uint max fuel z :
  0 ≤ z < 10 ^ Z.of_nat fuel → (0 < fuel)%nat → z ≤ max → parse_uint max (decimal fuel z "") = Some z.
Proof.
  intros Hz Hf Hm. unfold parse_uint. pose proof (decimal_parse max fuel z "" Hz Hf Hm) as Hp.
  destruct (decimal_head fuel z "") as (d & s & Hd & E); [lia|]. rewrite E in *.
  rewrite bool_decide_false; [done|]. clear E. intros E. pose proof (digit_val_digit d Hd) as Hv.
  rewrite E in Hv. done.
Qed.

Lemma u32_to_string_parse z : is_u32 z → parse_u32 (u32_to_string z) = Some z.
Proof. intros [H0 H1]. apply decimal_parse_uint; [unfold u32_max in *; cbn; lia|lia|done]. Qed.

Lemma u64_to_string_parse z : 0 ≤ z ≤ u64_max → parse_u64 (u64_to_string z) = Some z.
Proof. intros [H0 H1]. apply decimal_parse_uint; [unfold u64_max in *; cbn; lia|lia|done]. Qed.

Lemma u32_to_string_inj y z :
  is_u32 y → is_u32 z → u32_to_string y = u32_to_string z → y = z.
Proof. intros Hy Hz E. apply u32_to_string_parse in Hy, Hz. congruence. Qed.

Lemma u32_to_string_digits z : str_all is_digit (u32_to_string z) = true.
Proof. by apply decimal_digits. Qed.

Lemma ends_with_tmp_dot s : ends_with_tmp s = true → ∃ n, String.get n s = Some "."%char.
Proof.
  unfold ends_with_tmp. intros [_ E%String.eqb_eq]%andb_prop.
  pose proof (substring_correct1 s (String.length s - 4) 4 0 ltac:(lia)) as Hg.
  rewrite E in Hg. cbn in Hg. eauto.
Qed.

Lemma digits_not_tmp s : str_all is_digit s = true → ends_with_tmp s = false.
Proof.
  intros Hs. apply not_true_is_false. intros (n & Hn)%ends_with_tmp_dot.
  by pose proof (str_all_get _ _ _ _ Hs Hn).
Qed.

(** ** Clean names *)

Definition is_ascii (c : ascii) : bool := (N_of_ascii c <? 128)%N.

Lemma allowed_ascii c : allowed_char c = true → is_ascii c = true.
Proof. by destruct c as [[] [] [] [] [] [] [] []]; vm_compute. Qed.

Lemma digit_ascii c : is_digit c = true → is_ascii c = true.
Proof. by destruct c as [[] [] [] [] [] [] [] []]; vm_compute. Qed.

Lemma digit_allowed c : is_digit c = true → allowed_char c = true.
Proof. by destruct c as [[] [] [] [] [] [] [] []]; vm_compute. Qed.

Lemma ascii_not_cont c :
  is_ascii c = true → (128 <=? Z.of_N (N_of_ascii c)) && (Z.of_N (N_of_ascii c) <=? 191) = false.
Proof. unfold is_ascii. intros H%N.ltb_lt. rewrite Zleb_false by lia. done. Qed.

Lemma str_all_impl (P Q : ascii → bool) s :
  (∀ c, P c = true → Q c = true) → str_all P s = true → str_all Q s = true.
Proof.
  intros HPQ. induction s as [|c s IH]; cbn; [done|]. intros [Hc Hs]%andb_prop.
  by rewrite (HPQ c Hc), IH.
Qed.

Lemma sanitize_allowed s : str_all allowed_char (sanitize s) = true.
Proof.
  induction s as [|c s IH]; cbn [sanitize]; [done|]. destruct (_ && _); [done|].
  cbn [str_all]. rewrite IH, andb_true_r. by destruct (allowed_char c) eqn:E.
Qed.

Lemma sanitize_id s : str_all allowed_char s = true → sanitize s = s.
Proof.
  induction s as [|c s IH]; cbn [sanitize str_all]; [done|]. intros [Hc Hs]%andb_prop.
  rewrite (ascii_not_cont c) by by apply allowed_ascii. by rewrite Hc, IH.
Qed.

Lemma byte_of_ascii_val c : is_ascii c = true → in_range 0 127 (byte_of_ascii c) = true.
Proof. by destruct c as [[] [] [] [] [] [] [] []]; vm_compute. Qed.

Lemma ascii_valid s : str_all is_ascii s = true → str_valid s = true.
Proof.
  unfold str_valid, as_bytes, String.list_byte_of_string.
  induction s as [|c s IH]; cbn [str_all String.list_ascii_of_string map utf8_valid]; [done|].
  intros [Hc Hs]%andb_prop. rewrite byte_of_ascii_val by done. by apply IH.
Qed.

Lemma lossy_ascii s : str_all is_ascii s = true → to_string_lossy s = s.
Proof. intros Hs. by apply from_utf8_lossy_as_bytes, ascii_valid. Qed.

Definition simple (s : string) : Prop := s ≠ ""%string ∧ s ≠ "."%string ∧ s ≠ ".."%string.
Definition clean (s : string) : Prop := str_all allowed_char s = true ∧ simple s.

(** A group or topic name whose file name is an ordinary one. *)
Definition usable (s : string) : Prop := simple (sanitize s).

Lemma usable_clean s : usable s → clean (sanitize s).
Proof. intros Hs. split; [apply sanitize_allowed|done]. Qed.

Lemma clean_sanitize s : clean s → sanitize s = s.
Proof. intros [Hs _]. by apply sanitize_id. Qed.

Lemma clean_usable s : clean s → usable s.
Proof. intros Hs. unfold usable. rewrite clean_sanitize by done. apply Hs. Qed.

Lemma clean_lossy s : clean s → to_string_lossy s = s.
Proof. intros [Hs _]. apply lossy_ascii. eapply str_all_impl; [|done]. apply allowed_ascii. Qed.

Lemma number_lossy z : to_string_lossy (u32_to_string z) = u32_to_string z.
Proof. apply lossy_ascii. eapply str_all_impl; [apply digit_ascii|apply u32_to_string_digits]. Qed.

Lemma number_simple z : simple (u32_to_string z).
Proof.
  pose proof (u32_to_string_digits z) as Hd. split; [|split]; intros E; rewrite E in Hd; try done.
  unfold u32_to_string in E. destruct (decimal_head 10 z "") as (d & s & _ & E'); [lia|congruence].
Qed.

Lemma number_not_tmp z n : u32_to_string z ≠ (n ++ ".tmp")%string.
Proof.
  intros E. pose proof (u32_to_string_digits z) as Hd. rewrite E in Hd.
  induction n as [|c n IH]; cbn in Hd; [done|]. apply andb_prop in Hd as [_ Hd].
  clear E IH. revert Hd. induction n as [|c' n IH]; cbn; [done|]. intros [_ ?]%andb_prop. auto.
Qed.

(** ** Resolution of simple paths *)

Lemma components_simple p : Forall simple p → components p = p.
Proof.
  unfold components. induction 1 as [|c p (H1 & H2 & _) _ IH]; [done|].
  rewrite filter_cons_True by done. by rewrite IH.
Qed.

Lemma enter_simple cur c : simple c → enter cur c = cur ++ [c].
Proof. intros (_ & _ & ?). unfold enter. by rewrite bool_decide_false. Qed.

Lemma walk_simple fs p : ∀ cur,
  Forall simple p → (∀ q c, q ++ [c] `prefix_of` p → cur ++ q ∈ fs_dirs fs) →
  walk fs cur p = Some (cur ++ p).
Proof.
  induction p as [|c p IH]; intros cur HF Hd; cbn [walk]; [by rewrite app_nil_r|].
  apply Forall_cons in HF as [Hc HF]. rewrite bool_decide_true.
  - rewrite enter_simple, IH; [by rewrite <- app_assoc|done| |done].
    intros q d Hq. rewrite <- app_assoc. apply (Hd ([c] ++ q) d). cbn. by apply prefix_cons.
  - specialize (Hd [] c). rewrite app_nil_r in Hd. apply Hd. cbn. by apply prefix_cons, prefix_nil.
Qed.

Lemma walk_missing fs p q c : ∀ cur,
  Forall simple p → q ++ [c] `prefix_of` p → cur ++ q ∉ fs_dirs fs → walk fs cur p = None.
Proof.
  revert q. induction p as [|d p IH]; intros q cur HF [k E] Hq.
  - by destruct q.
  - apply Forall_cons in HF as [Hd HF]. cbn [walk]. case_bool_decide as Hc; [|done].
    destruct q as [|x q]; [by rewrite app_nil_r in Hq|]. injection E as -> E.
    rewrite enter_simple by done. apply (IH q); [done|by exists k|]. by rewrite <- app_assoc.
Qed.

Lemma create_dirs_simple p : ∀ fs cur,
  Forall simple p → (∀ q, q `prefix_of` p → fs_files fs !! (cur ++ q) = None) →
  ∃ fs', create_dirs fs cur p = Some fs' ∧ fs_files fs' = fs_files fs ∧
    ∀ x, x ∈ fs_dirs fs' ↔ x ∈ fs_dirs fs ∨ ∃ q, q `prefix_of` p ∧ x = cur ++ q.
Proof.
  induction p as [|c p IH]; intros fs cur HF Hn.
  - unfold create_dirs, is_file. specialize (Hn [] (prefix_nil _)). rewrite app_nil_r in Hn.
    rewrite Hn. rewrite bool_decide_false by (by intros [? ?]). eexists. split; [done|]. split; [done|].
    intros x. cbn. rewrite elem_of_union, elem_of_singleton. split.
    + intros [->|?]; [|by left]. right. exists []. by rewrite app_nil_r.
    + intros [?|(q & ->%prefix_nil_inv & ->)]; [by right|left]. by rewrite app_nil_r.
  - apply Forall_cons in HF as [Hc HF]. cbn [create_dirs]. unfold is_file.
    pose proof (Hn [] (prefix_nil _)) as H0. rewrite app_nil_r in H0. rewrite H0.
    rewrite bool_decide_false by (by intros [? ?]). rewrite enter_simple by done.
    destruct (IH (mkFs (fs_files fs) ({[cur]} ∪ fs_dirs fs)) (cur ++ [c]) HF) as (fs' & E & Hf & Hd).
    { intros q Hq. cbn. rewrite <- app_assoc. apply Hn. cbn. by apply prefix_cons. }
    exists fs'. split; [done|]. split; [done|]. intros x. rewrite Hd. cbn.
    rewrite elem_of_union, elem_of_singleton. split.
    + intros [[->|?]|(q & Hq & ->)]; [right; exists []|by left|right; exists (c :: q)].
      * rewrite app_nil_r. split; [apply prefix_nil|done].
      * rewrite <- app_assoc. split; [by apply prefix_cons|done].
    + intros [?|([|d q] & Hq & ->)]; [by left; right|left; left; by rewrite app_nil_r|right].
      exists q. assert (d = c) as -> by (by apply prefix_cons_inv_1 in Hq).
      rewrite <- app_assoc. split; [by apply prefix_cons_inv_2 in Hq|done].
Qed.

Lemma prefix_app_split {A} (l k q : list A) c :
  q ++ [c] `prefix_of` l ++ k → q `prefix_of` l ∨ ∃ k', k' ++ [c] `prefix_of` k ∧ q = l ++ k'.
Proof.
  revert q. induction l as [|x l IH]; intros q Hq; [by right; exists q|].
  destruct q as [|y q]; [left; apply prefix_nil|]. cbn in Hq.
  assert (y = x) as -> by (by apply prefix_cons_inv_1 in Hq). apply prefix_cons_inv_2 in Hq.
  destruct (IH q Hq) as [?|(k' & Hk & ->)]; [left; by apply prefix_cons|right; by exists k'].
Qed.

Lemma prefix_3 {A} (k : list A) c x y z :
  k ++ [c] `prefix_of` [x; y; z] → k = [] ∨ k = [x] ∨ k = [x; y].
Proof. intros [r E]. destruct k as [|? [|? [|? k]]]; simplify_eq/=; auto. by destruct k. Qed.

Lemma prefix_1 {A} (k : list A) c x : k ++ [c] `prefix_of` [x] → k = [].
Proof. intros [r E]. destruct k as [|? k]; simplify_eq/=; auto. by destruct k. Qed.

Lemma prefix_2 {A} (k : list A) x y : k `prefix_of` [x; y] → k = [] ∨ k = [x] ∨ k = [x; y].
Proof. intros [r E]. destruct k as [|? [|? [|? k]]]; simplify_eq/=; auto. Qed.

(** Every prefix of [l ++ k] is a prefix of [l], or [l] and a prefix of [k]. *)
Lemma prefix_app_cases {A} (l k q : list A) :
  q `prefix_of` l ++ k → q `prefix_of` l ∨ ∃ k', k' `prefix_of` k ∧ q = l ++ k'.
Proof.
  revert q. induction l as [|x l IH]; intros q Hq; [by right; exists q|].
  destruct q as [|y q]; [left; apply prefix_nil|]. cbn in Hq.
  assert (y = x) as -> by (by apply prefix_cons_inv_1 in Hq). apply prefix_cons_inv_2 in Hq.
  destruct (IH q Hq) as [?|(k' & Hk & ->)]; [left; by apply prefix_cons|right; by exists k'].
Qed.

Lemma child_of_spec d q c : child_of d q = Some c ↔ q = d ++ [c].
Proof.
  unfold child_of. split.
  - destruct (last q) as [c'|]; [|done]. case_bool_decide as E; [|done]. by intros [= ->].
  - intros ->. rewrite last_snoc. by rewrite bool_decide_true.
Qed.

Lemma children_elem fs d c :
  c ∈ children fs d ↔ is_Some (fs_files fs !! (d ++ [c])) ∨ d ++ [c] ∈ fs_dirs fs.
Proof.
  unfold children. rewrite list_elem_of_omap. split.
  - intros (q & Hq & ->%child_of_spec). apply elem_of_app in Hq as [Hq|Hq]; [left|right].
    + apply list_elem_of_fmap in Hq as ([q' x] & -> & Hx%elem_of_map_to_list). eauto.
    + by apply elem_of_elements.
  - intros [[x Hx]|Hd]; exists (d ++ [c]); (split; [|by apply child_of_spec]); apply elem_of_app.
    + left. apply list_elem_of_fmap. exists (d ++ [c], x). split; [done|]. by apply elem_of_map_to_list.
    + right. by apply elem_of_elements.
Qed.

Lemma NoDup_omap_inj {A B} (f : A → option B) l :
  NoDup l → (∀ x y z, x ∈ l → y ∈ l → f x = Some z → f y = Some z → x = y) → NoDup (omap f l).
Proof.
  induction 1 as [|x l Hx Hnd IH]; intros Hf; cbn; [constructor|].
  assert (IH' : NoDup (omap f l)) by (apply IH; intros; eapply Hf; eauto; by right).
  destruct (f x) as [z|] eqn:E; [|done]. apply NoDup_cons. split; [|done].
  intros (y & Hy & Hz)%list_elem_of_omap. apply Hx.
  by rewrite (Hf x y z ltac:(left) ltac:(by right) E Hz).
Qed.

Lemma NoDup_concat_map {A B} (f : A → list B) (key : B → A) l :
  NoDup l → (∀ x, x ∈ l → NoDup (f x)) → (∀ x y, x ∈ l → y ∈ f x → key y = x) →
  NoDup (concat (map f l)).
Proof.
  induction 1 as [|x l Hx Hnd IH]; intros Hf Hk; cbn; [constructor|]. apply NoDup_app.
  split; [apply Hf; left|]. split; [|apply IH; intros; [apply Hf|eapply Hk]; eauto; by right].
  intros y Hy Hin. apply list_elem_of_In, in_concat in Hin as (ys & Hys & Hyy).
  apply list_elem_of_In, list_elem_of_fmap in Hys as (x' & -> & Hx'). apply list_elem_of_In in Hyy.
  apply Hx. rewrite <- (Hk x y ltac:(left) Hy). rewrite (Hk x' y ltac:(by right) Hyy). done.
Qed.

Lemma children_NoDup fs d :
  (∀ c, is_Some (fs_files fs !! (d ++ [c])) → d ++ [c] ∉ fs_dirs fs) → NoDup (children fs d).
Proof.
  intros Hdis. unfold children. rewrite omap_app.
  assert (Hinj : ∀ l, NoDup l → NoDup (omap (child_of d) l)).
  { intros l Hl. apply NoDup_omap_inj; [done|]. intros x y z _ _ Hx Hy.
    apply child_of_spec in Hx, Hy. congruence. }
  apply NoDup_app. split; [apply Hinj, NoDup_fst_map_to_list|].
  split; [|apply Hinj, NoDup_elements]. intros c (q & Hq & ->%child_of_spec)%list_elem_of_omap
    (q' & Hq' & ->%child_of_spec)%list_elem_of_omap.
  apply list_elem_of_fmap in Hq as ([k x] & E & Hx%elem_of_map_to_list). cbn in E. subst k.
  apply elem_of_elements in Hq'. by eapply Hdis.
Qed.

(** ** The values *)

Definition is_i32 (z : Z) : Prop := -2147483648 ≤ z ≤ 2147483647.

Definition value_ok (v : Z * string * Z) : Prop :=
  0 ≤ v.1.1 ≤ u64_max ∧ str_valid v.1.2 = true ∧ str_len v.1.2 ≤ u16_max ∧ is_i32 v.2.

Lemma i32_roundtrip z : is_i32 z → as_i32 (le_val (u32_le z)) = z.
Proof.
  unfold is_i32. intros Hz. unfold u32_le. rewrite le_val_bytes. unfold as_i32, signed.
  change (256 ^ Z.of_nat 4) with 4294967296. change (2 ^ 32) with 4294967296.
  change (2 ^ (32 - 1)) with 2147483648. rewrite Z.mod_mod by lia.
  destruct (decide (0 ≤ z)).
  - rewrite Z.mod_small by lia. by rewrite Zltb_true by lia.
  - rewrite <- (Z.mod_add z 1) by lia. rewrite Z.mod_small by lia. rewrite Zltb_false by lia. lia.
Qed.

Lemma offset_decode_encode v :
  value_ok v → decode_offset (encode_offset v.1.1 v.1.2 v.2) = Ok v.
Proof.
  destruct v as [[o me] e]. intros (Ho & Hv & Hl & He). cbn in *. unfold decode_offset, encode_offset.
  set (a := u64_le o). set (b := u16_le (str_len me)). set (m := as_bytes me). set (t := u32_le e).
  assert (La : zlen a = 8) by apply zlen_le_bytes.
  assert (Lb : zlen b = 2) by apply zlen_le_bytes.
  assert (Lt : zlen t = 4) by apply zlen_le_bytes.
  assert (Lm : zlen m = str_len me) by done. pose proof (zlen_nonneg m) as H0.
  assert (Lall : zlen (a ++ b ++ m ++ t) = 14 + zlen m) by (rewrite !zlen_app; lia).
  assert (Sa : zslice 0 8 (a ++ b ++ m ++ t) = a) by (unfold zslice; rewrite zdrop_0; by apply ztake_app_exact).
  assert (Sb : zslice 8 10 (a ++ b ++ m ++ t) = b).
  { unfold zslice. rewrite zdrop_app_exact by done. by apply ztake_app_exact. }
  assert (Vb : le_val b = zlen m).
  { unfold b, u16_le. rewrite le_val_small; [done|]. rewrite <- Lm. unfold u16_max in *. cbn. lia. }
  rewrite Sa, Sb, Vb, Lall. rewrite (Zltb_false (14 + zlen m) 10), Zltb_false, Zleb_true by lia.
  assert (Sm : zslice 10 (10 + zlen m) (a ++ b ++ m ++ t) = m).
  { unfold zslice. rewrite (app_assoc a b), zdrop_app_exact by (rewrite zlen_app; lia).
    apply ztake_app_exact. lia. }
  assert (St : zslice (10 + zlen m) (10 + zlen m + 4) (a ++ b ++ m ++ t) = t).
  { unfold zslice. rewrite !app_assoc, zdrop_app_exact by (rewrite !zlen_app; lia). apply ztake_ge. lia. }
  rewrite Sm, St. unfold t, m. rewrite i32_roundtrip, from_utf8_lossy_as_bytes by done.
  unfold a, u64_le. rewrite le_val_small; [done|]. unfold u64_max in *. cbn. lia.
Qed.

(** ** Representation *)

Abbreviation committed := (gmap (string * string * Z) (Z * string * Z)).

Definition tmp_name (p : Z) : string := (u32_to_string p ++ ".tmp")%string.

Lemma tmp_simple p : simple (tmp_name p).
Proof.
  unfold tmp_name, u32_to_string. destruct (decimal_head 10 p "") as (d & s & Hd & ->); [lia|].
  pose proof (digit_val_digit d Hd) as Hv. split; [done|].
  split; intros E; injection E as E _; by rewrite E in Hv.
Qed.

Lemma tmp_not_number p z : tmp_name p ≠ u32_to_string z.
Proof. intros E. by eapply number_not_tmp. Qed.

Record store_rep (root : path) (fs : Fs) (m : committed) : Prop := mk_store_rep {
  sr_root_dirs : ∀ q, q `prefix_of` root → q ∈ fs_dirs fs;
  sr_root_files : ∀ q, q `prefix_of` root → fs_files fs !! q = None;
  sr_entry : ∀ g t p, clean g → clean t → is_u32 p →
    fs_files fs !! (root ++ [g; t; u32_to_string p]) =
      (λ v, encode_offset v.1.1 v.1.2 v.2) <$> m !! (g, t, p);
  sr_keys : ∀ g t p v, m !! (g, t, p) = Some v → clean g ∧ clean t ∧ is_u32 p ∧ value_ok v;
  sr_files : ∀ q, is_Some (fs_files fs !! (root ++ q)) → ∃ g t n,
    q = [g; t; n] ∧ clean g ∧ clean t ∧ root ++ [g; t] ∈ fs_dirs fs ∧
    ∃ p, is_u32 p ∧ (n = u32_to_string p ∨ n = tmp_name p);
  sr_dirs : ∀ q, root ++ q ∈ fs_dirs fs →
    q = [] ∨ (∃ g, q = [g] ∧ clean g) ∨
    (∃ g t, q = [g; t] ∧ clean g ∧ clean t ∧ root ++ [g] ∈ fs_dirs fs);
}.

#[local] Arguments u32_to_string : simpl never.
#[local] Opaque u32_to_string.

Section rep.
Context (root : path) (Hroot : Forall simple root).

Lemma not_a_dir fs m g t n : store_rep root fs m → root ++ [g; t; n] ∉ fs_dirs fs.
Proof. intros R Hd. destruct (sr_dirs _ _ _ R _ Hd) as [?|[(?&?&?)|(?&?&?&?)]]; simplify_eq. Qed.

Lemma group_dir fs m g t : store_rep root fs m → root ++ [g; t] ∈ fs_dirs fs → root ++ [g] ∈ fs_dirs fs.
Proof. intros R Hd. destruct (sr_dirs _ _ _ R _ Hd) as [?|[(?&?&?)|(?&?&?&?&?&?)]]; by simplify_eq. Qed.

Lemma not_a_file fs m q : store_rep root fs m → length q ≠ 3%nat → fs_files fs !! (root ++ q) = None.
Proof.
  intros R Hq. destruct (fs_files fs !! (root ++ q)) eqn:E; [|done].
  destruct (sr_files _ _ _ R q) as (?&?&?&->&_); [by rewrite E|done].
Qed.

Lemma entry_path_simple g t p : usable g → usable t →
  entry_path root g t p = root ++ [sanitize g; sanitize t; u32_to_string p].
Proof.
  intros Hg Ht. apply components_simple, Forall_app. split; [done|].
  repeat constructor; first [apply Hg|apply Ht|apply number_simple].
Qed.

Lemma simple_path3 g t n : clean g → clean t → simple n → Forall simple (root ++ [g; t; n]).
Proof. intros Hg Ht Hn. apply Forall_app. split; [done|]. repeat constructor; (apply Hg || apply Ht || apply Hn). Qed.

Lemma simple_path2 g t : clean g → clean t → Forall simple (root ++ [g; t]).
Proof. intros Hg Ht. apply Forall_app. split; [done|]. repeat constructor; (apply Hg || apply Ht). Qed.

Lemma resolve_file fs m g t n :
  store_rep root fs m → clean g → clean t → simple n → root ++ [g; t] ∈ fs_dirs fs →
  resolve fs (root ++ [g; t; n]) = Some (root ++ [g; t; n]).
Proof.
  intros R Hg Ht Hn Hd. apply (walk_simple fs (root ++ [g; t; n]) []); [by apply simple_path3|].
  intros q c [Hq|(k & [->|[->| ->]]%prefix_3 & ->)]%prefix_app_split; cbn.
  - by apply (sr_root_dirs _ _ _ R).
  - rewrite app_nil_r. by apply (sr_root_dirs _ _ _ R).
  - by eapply group_dir.
  - done.
Qed.

Lemma resolve_nowhere fs g t n :
  clean g → clean t → simple n → root ++ [g; t] ∉ fs_dirs fs → resolve fs (root ++ [g; t; n]) = None.
Proof.
  intros Hg Ht Hn Hd. apply (walk_missing fs _ (root ++ [g; t]) n); [by apply simple_path3| |done].
  by rewrite <- app_assoc.
Qed.

Lemma no_dir_no_entry fs m g t p :
  store_rep root fs m → root ++ [g; t] ∉ fs_dirs fs → m !! (g, t, p) = None.
Proof.
  intros R Hd. destruct (m !! (g, t, p)) as [v|] eqn:E; [|done].
  destruct (sr_keys _ _ _ R _ _ _ _ E) as (Hg & Ht & Hp & _).
  pose proof (sr_entry _ _ _ R g t p Hg Ht Hp) as Hf. rewrite E in Hf.
  destruct (sr_files _ _ _ R [g; t; u32_to_string p]) as (?&?&?&?&_&_&?&_); [by rewrite Hf|].
  by simplify_eq.
Qed.

Lemma fetch_spec fs m g t p :
  store_rep root fs m → usable g → usable t → is_u32 p →
  fetch root fs g t p =
    Ok (default (OFFSET_UNKNOWN, ""%string, LEADER_EPOCH_UNKNOWN) (m !! (sanitize g, sanitize t, p))).
Proof.
  intros R Hg Ht Hp. unfold fetch. rewrite entry_path_simple by done.
  pose proof (usable_clean g Hg) as Cg. pose proof (usable_clean t Ht) as Ct.
  destruct (decide (root ++ [sanitize g; sanitize t] ∈ fs_dirs fs)) as [Hd|Hd].
  - rewrite (resolve_file fs m) by (done || apply number_simple).
    unfold is_dir. rewrite bool_decide_false by (by eapply not_a_dir).
    rewrite (sr_entry _ _ _ R) by done. destruct (m !! _) as [v|] eqn:E; [|done]. cbn.
    apply offset_decode_encode. by eapply (sr_keys _ _ _ R).
  - rewrite resolve_nowhere by (done || apply number_simple).
    by rewrite (no_dir_no_entry fs m).
Qed.

Lemma snoc3 {A} (l : list A) x y z : l ++ [x; y; z] = (l ++ [x; y]) ++ [z].
Proof. by rewrite <- app_assoc. Qed.

Lemma with_tmp_snoc l n : with_tmp (l ++ [n]) = l ++ [(n ++ ".tmp")%string].
Proof. unfold with_tmp. by rewrite last_snoc, removelast_last. Qed.

Lemma parent_snoc l n : parent (l ++ [n]) = l.
Proof. apply removelast_last. Qed.

(** After [create_dir_all] the directory is there and the map is the same. *)
Lemma create_rep fs m g t :
  store_rep root fs m → clean g → clean t →
  ∃ fs', create_dirs fs [] (root ++ [g; t]) = Some fs' ∧ store_rep root fs' m ∧
    root ++ [g; t] ∈ fs_dirs fs'.
Proof.
  intros R Hg Ht. destruct (create_dirs_simple (root ++ [g; t]) fs []) as (fs' & E & Hf & Hd).
  - by apply simple_path2.
  - intros q [Hq|(k & Hk & ->)]%prefix_app_cases; cbn; [by apply (sr_root_files _ _ _ R)|].
    eapply not_a_file; [done|]. by destruct (prefix_2 _ _ _ Hk) as [->|[->| ->]].
  - exists fs'. split; [done|]. cbn in Hd.
    assert (Hgt : root ++ [g; t] ∈ fs_dirs fs') by (apply Hd; right; eauto).
    split; [|done]. destruct R as [R1 R2 R3 R4 R5 R6]. constructor.
    + intros q Hq. apply Hd. left. auto.
    + rewrite Hf. done.
    + rewrite Hf. done.
    + done.
    + rewrite Hf. intros q Hq. destruct (R5 q Hq) as (a & b & n & ? & ? & ? & ? & ?).
      exists a, b, n. rewrite Hd. eauto 10.
    + intros q [Hq|(k & Hk & E')]%Hd.
      { destruct (R6 q Hq) as [?|[?|(a & b & ? & ? & ? & ?)]]; [by auto..|].
        right; right. exists a, b. rewrite Hd. auto. }
      apply prefix_app_cases in Hk as [Hk|(k' & Hk & ->)].
      * apply prefix_length in Hk. rewrite <- E', length_app in Hk. left.
        destruct q; [done|cbn in Hk; lia].
      * apply app_inv_head in E' as <-.
        destruct (prefix_2 _ _ _ Hk) as [->|[->| ->]]; [by left|by right; left; eauto|].
        right; right. exists g, t. repeat (split; [done|]). apply Hd. right.
        exists (root ++ [g]). split; [|done]. apply prefix_app. by exists [t].
Qed.

(** Writing or removing a temporary file leaves the map alone. *)
Lemma files_rep fs fs' m :
  store_rep root fs m → fs_dirs fs' = fs_dirs fs →
  (∀ q, q `prefix_of` root → fs_files fs' !! q = None) →
  (∀ g t p, fs_files fs' !! (root ++ [g; t; u32_to_string p]) =
            fs_files fs !! (root ++ [g; t; u32_to_string p])) →
  (∀ q, is_Some (fs_files fs' !! (root ++ q)) → is_Some (fs_files fs !! (root ++ q)) ∨
     ∃ g t p, q = [g; t; tmp_name p] ∧ clean g ∧ clean t ∧ is_u32 p ∧ root ++ [g; t] ∈ fs_dirs fs) →
  store_rep root fs' m.
Proof.
  intros [R1 R2 R3 R4 R5 R6] Hd Hn Hp Hq. constructor; rewrite ?Hd; auto.
  - intros g t p Hg Ht Hu. rewrite Hp. auto.
  - intros q [?|(g & t & p & -> & ? & ? & ? & ?)]%Hq; [by apply R5|].
    exists g, t, (tmp_name p). eauto 10.
Qed.

Lemma not_prefix_entry g t n q : q `prefix_of` root → q ≠ root ++ [g; t; n].
Proof. intros Hq%prefix_length ->. rewrite length_app in Hq. cbn in Hq. lia. Qed.

Lemma write_tmp_rep fs m g t p data :
  store_rep root fs m → clean g → clean t → is_u32 p → root ++ [g; t] ∈ fs_dirs fs →
  store_rep root (write_file fs (root ++ [g; t; tmp_name p]) data) m.
Proof.
  intros R Hg Ht Hp Hd. eapply files_rep; [exact R|done|..]; cbn.
  - intros q Hq. rewrite lookup_insert_ne by (by apply not_eq_sym, not_prefix_entry).
    by apply (sr_root_files _ _ _ R).
  - intros g' t' p'. apply lookup_insert_ne. intros E%app_inv_head. simplify_eq.
    by eapply tmp_not_number.
  - intros q Hq. destruct (decide (root ++ [g; t; tmp_name p] = root ++ q)) as [<-%app_inv_head|Hne].
    + right. eauto 10.
    + rewrite lookup_insert_ne in Hq by done. by left.
Qed.

Lemma remove_tmp_rep fs m g t p :
  store_rep root fs m → store_rep root (remove_file fs (root ++ [g; t; tmp_name p])) m.
Proof.
  intros R. eapply files_rep; [exact R|done|..]; cbn.
  - intros q Hq. rewrite lookup_delete_ne by (by apply not_eq_sym, not_prefix_entry).
    by apply (sr_root_files _ _ _ R).
  - intros g' t' p'. apply lookup_delete_ne. intros E%app_inv_head. simplify_eq.
    by eapply tmp_not_number.
  - intros q Hq. left. destruct (decide (root ++ [g; t; tmp_name p] = root ++ q)) as [E|Hne].
    + rewrite E, lookup_delete_eq in Hq. by destruct Hq.
    + by rewrite lookup_delete_ne in Hq.
Qed.

Lemma write_entry_rep fs m g t p v :
  store_rep root fs m → clean g → clean t → is_u32 p → value_ok v → root ++ [g; t] ∈ fs_dirs fs →
  store_rep root (write_file fs (root ++ [g; t; u32_to_string p]) (encode_offset v.1.1 v.1.2 v.2))
    (<[(g, t, p) := v]> m).
Proof.
  intros [R1 R2 R3 R4 R5 R6] Hg Ht Hp Hv Hd. constructor; cbn; auto.
  - intros q Hq. rewrite lookup_insert_ne by (by apply not_eq_sym, not_prefix_entry). auto.
  - intros g' t' p' Hg' Ht' Hp'. destruct (decide ((g, t, p) = (g', t', p'))) as [E|Hne].
    + injection E as <- <- <-. by rewrite !lookup_insert_eq.
    + rewrite !lookup_insert_ne; [auto|done|]. intros E%app_inv_head. simplify_eq.
      apply Hne. do 2 f_equal. by apply u32_to_string_inj.
  - intros g' t' p' v' [[E <-]|[_ ?]]%lookup_insert_Some; [by simplify_eq|by eapply R4].
  - intros q Hq.
    destruct (decide (root ++ [g; t; u32_to_string p] = root ++ q)) as [<-%app_inv_head|Hne].
    + exists g, t, (u32_to_string p). eauto 10.
    + rewrite lookup_insert_ne in Hq by done. by apply R5.
Qed.

(** A commit is an insertion. *)
Lemma commit_spec fs m g t p v :
  store_rep root fs m → usable g → usable t → is_u32 p → value_ok v →
  ∃ fs', commit_with_epoch root fs g t p v.1.1 v.1.2 v.2 = (Ok tt, fs') ∧
    store_rep root fs' (<[(sanitize g, sanitize t, p) := v]> m).
Proof.
  intros R Hg Ht Hp Hv. unfold commit_with_epoch. rewrite entry_path_simple by done.
  pose proof (usable_clean g Hg) as Cg. pose proof (usable_clean t Ht) as Ct.
  rewrite snoc3, parent_snoc, with_tmp_snoc, <- !app_assoc.
  destruct (create_rep fs m _ _ R Cg Ct) as (fs1 & -> & R1 & Hd). cbn [app].
  change (u32_to_string p ++ ".tmp")%string with (tmp_name p).
  rewrite (resolve_file fs1 m), (resolve_file fs1 m) by (done || apply number_simple || apply tmp_simple).
  unfold is_dir at 1. rewrite bool_decide_false by (by eapply not_a_dir).
  rewrite Zltb_false by apply Hv.
  unfold is_dir. rewrite bool_decide_false by (cbn; by eapply not_a_dir).
  eexists. split; [done|].
  apply write_entry_rep; auto. apply remove_tmp_rep.
  apply write_tmp_rep; auto. apply write_tmp_rep; auto.
Qed.

(** Metadata too long for its length field is refused and changes nothing. *)
Lemma commit_too_long fs m g t p v :
  store_rep root fs m → usable g → usable t → is_u32 p → u16_max < str_len v.1.2 →
  ∃ fs', commit_with_epoch root fs g t p v.1.1 v.1.2 v.2 =
      (Err (InvalidArgument "offset metadata too long"), fs') ∧ store_rep root fs' m.
Proof.
  intros R Hg Ht Hp Hl. unfold commit_with_epoch. rewrite entry_path_simple by done.
  pose proof (usable_clean g Hg) as Cg. pose proof (usable_clean t Ht) as Ct.
  rewrite snoc3, parent_snoc, with_tmp_snoc, <- !app_assoc.
  destruct (create_rep fs m _ _ R Cg Ct) as (fs1 & -> & R1 & Hd). cbn [app].
  change (u32_to_string p ++ ".tmp")%string with (tmp_name p).
  rewrite (resolve_file fs1 m), (resolve_file fs1 m) by (done || apply number_simple || apply tmp_simple).
  unfold is_dir at 1. rewrite bool_decide_false by (by eapply not_a_dir).
  rewrite Zltb_true by done. eexists. split; [done|]. by apply write_tmp_rep.
Qed.

(** ** Deletion *)

Lemma remove_entry_rep fs m g t p :
  store_rep root fs m → clean g → clean t → is_u32 p →
  store_rep root (remove_file fs (root ++ [g; t; u32_to_string p])) (delete (g, t, p) m).
Proof.
  intros [R1 R2 R3 R4 R5 R6] Hg Ht Hp. constructor; cbn; auto.
  - intros q Hq. rewrite lookup_delete_ne by (by apply not_eq_sym, not_prefix_entry). auto.
  - intros g' t' p' Hg' Ht' Hp'. destruct (decide ((g, t, p) = (g', t', p'))) as [E|Hne].
    + injection E as <- <- <-. by rewrite !lookup_delete_eq.
    + rewrite !lookup_delete_ne; [auto|done|]. intros E%app_inv_head. simplify_eq.
      apply Hne. do 2 f_equal. by apply u32_to_string_inj.
  - intros g' t' p' v' [_ ?]%lookup_delete_Some. by eapply R4.
  - intros q Hq. apply R5.
    destruct (decide (root ++ [g; t; u32_to_string p] = root ++ q)) as [E|Hne].
    + rewrite E, lookup_delete_eq in Hq. by destruct Hq.
    + by rewrite lookup_delete_ne in Hq.
Qed.

(** Pruning an empty directory below the root leaves the map alone. *)
Lemma remove_dir_rep fs m q :
  store_rep root fs m → q ≠ [] → Forall simple (root ++ q) → store_rep root (remove_dir fs (root ++ q)) m.
Proof.
  intros R Hq HF. unfold remove_dir. destruct (resolve fs (root ++ q)) as [d|] eqn:Er; [|done].
  assert (d = root ++ q) as ->.
  { revert Er. clear -HF. unfold resolve. change (root ++ q) with ([] ++ root ++ q) at 2.
    generalize (@nil string). induction HF as [|c p Hc HF IH]; intros cur; cbn [walk].
    - intros [= <-]. by rewrite app_nil_r.
    - case_bool_decide; [|done]. rewrite enter_simple by done. intros ->%IH. by rewrite <- app_assoc. }
  destruct (is_dir fs (root ++ q)) eqn:Ed; [|done]. cbn [andb]. case_bool_decide as Ec; [|done].
  assert (Hno : ∀ c, c ∉ children fs (root ++ q)) by (intros c; rewrite Ec; apply not_elem_of_nil).
  assert (Hkeep : ∀ k c, root ++ k ++ [c] ∈ fs_dirs fs ∨ is_Some (fs_files fs !! (root ++ k ++ [c])) →
                         k ≠ q).
  { intros k c Hk ->. apply (Hno c). apply children_elem. rewrite <- app_assoc. tauto. }
  destruct R as [R1 R2 R3 R4 R5 R6]. constructor; cbn; auto.
  - intros k Hk. apply elem_of_difference. split; [auto|]. intros ->%elem_of_singleton.
    apply prefix_length in Hk. rewrite length_app in Hk. destruct q; [done|cbn in Hk; lia].
  - intros k Hk. destruct (R5 k Hk) as (a & b & n & -> & ? & ? & ? & ?).
    exists a, b, n. do 3 (split; [done|]). split; [|done]. apply elem_of_difference. split; [done|].
    intros E%elem_of_singleton%app_inv_head. revert E. apply (Hkeep [a; b] n). by right.
  - intros k [Hk Hne]%elem_of_difference.
    destruct (R6 k Hk) as [?|[?|(a & b & -> & ? & ? & ?)]]; [by auto..|].
    right; right. exists a, b. do 3 (split; [done|]). apply elem_of_difference. split; [done|].
    intros E%elem_of_singleton%app_inv_head. revert E. apply (Hkeep [a] b). by left.
Qed.

(** A deletion removes the entry and tells whether there was one. *)
Lemma delete_spec fs m g t p :
  store_rep root fs m → usable g → usable t → is_u32 p →
  ∃ fs', delete_offset root fs g t p =
      (Ok (bool_decide (is_Some (m !! (sanitize g, sanitize t, p)))), fs') ∧
    store_rep root fs' (delete (sanitize g, sanitize t, p) m).
Proof.
  intros R Hg Ht Hp. unfold delete_offset, path_exists. rewrite entry_path_simple by done.
  pose proof (usable_clean g Hg) as Cg. pose proof (usable_clean t Ht) as Ct.
  destruct (decide (root ++ [sanitize g; sanitize t] ∈ fs_dirs fs)) as [Hd|Hd].
  - rewrite (resolve_file fs m) by (done || apply number_simple).
    unfold is_dir, is_file. rewrite bool_decide_false by (by eapply not_a_dir).
    rewrite (sr_entry _ _ _ R) by done. cbn [orb].
    destruct (m !! _) as [v|] eqn:E; cbn [fmap option_fmap option_map].
    + rewrite !bool_decide_true by done. cbn [negb]. eexists. split; [done|].
      rewrite snoc3, parent_snoc, <- app_assoc. cbn [app].
      replace (parent (root ++ [sanitize g; sanitize t])) with (root ++ [sanitize g]).
      2: { change [sanitize g; sanitize t] with ([sanitize g] ++ [sanitize t]).
           by rewrite app_assoc, parent_snoc. }
      apply remove_dir_rep; [apply remove_dir_rep; [by apply remove_entry_rep|done|by apply simple_path2]|done|].
      apply Forall_app. split; [done|]. constructor; [apply Cg|constructor].
    + rewrite !bool_decide_false by (by intros [? ?]). cbn [negb]. eexists. split; [done|].
      by rewrite delete_id.
  - rewrite resolve_nowhere by (done || apply number_simple). cbn [negb].
    rewrite (no_dir_no_entry fs m) by done. eexists.
    rewrite bool_decide_false by (by intros [? ?]). split; [done|].
    rewrite delete_id; [done|]. by eapply no_dir_no_entry.
Qed.

(** ** Listing *)

Lemma substring_at_end s x : String.substring (String.length s) (String.length x) (s ++ x) = x.
Proof.
  induction s as [|c s IH]; [|exact IH]. change (String.substring 0 (String.length x) x = x).
  induction x as [|c x IH]; cbn; [done|]. by rewrite IH.
Qed.

Lemma str_length_app s x : String.length (s ++ x) = (String.length s + String.length x)%nat.
Proof. induction s as [|c s IH]; [done|]. by apply (f_equal S) in IH. Qed.

Lemma tmp_ends_with_tmp p : ends_with_tmp (tmp_name p) = true.
Proof.
  unfold ends_with_tmp, tmp_name. pose proof (substring_at_end (u32_to_string p) ".tmp") as E.
  rewrite str_length_app. change (String.length ".tmp") with 4%nat in *. rewrite Nat.add_sub, E.
  rewrite String.eqb_refl, andb_true_r. apply Nat.leb_le. lia.
Qed.

Lemma str_all_app P s x : str_all P (s ++ x) = str_all P s && str_all P x.
Proof.
  induction s as [|c s IH]; [done|]. change (P c && str_all P (s ++ x) = (P c && str_all P s) && str_all P x).
  by rewrite IH, andb_assoc.
Qed.

Lemma tmp_lossy p : to_string_lossy (tmp_name p) = tmp_name p.
Proof.
  apply lossy_ascii. unfold tmp_name. rewrite str_all_app, andb_true_r.
  eapply str_all_impl; [apply digit_ascii|apply u32_to_string_digits].
Qed.

(** The listed entry of a file name, by the map. *)
Definition entry_of (m : committed) (g t n : string) : option StoredOffset :=
  if ends_with_tmp n then None else
  match parse_u32 n with
  | Some p =>
    match m !! (g, t, p) with
    | Some v =>
      if v.1.1 =? OFFSET_UNKNOWN then None else Some (mkStoredOffset t p v.1.1 v.1.2 v.2)
    | None => None
    end
  | None => None
  end.

Lemma fetch_names_spec fs m g t names : ∀ out,
  store_rep root fs m → usable g → clean t →
  (∀ n, n ∈ names → is_Some (fs_files fs !! (root ++ [sanitize g; t; n]))) →
  fetch_names root fs g t (root ++ [sanitize g; t]) names out =
    Ok (out ++ omap (entry_of m (sanitize g) t) names).
Proof.
  intros out R Hg Ht. revert out.
  induction names as [|n names IH]; intros out Hn; cbn [fetch_names omap list_omap];
    [by rewrite app_nil_r|].
  rewrite <- snoc3. unfold is_dir. rewrite bool_decide_false by (by eapply not_a_dir).
  assert (Hrest : ∀ n, n ∈ names → is_Some (fs_files fs !! (root ++ [sanitize g; t; n]))).
  { intros k Hk. apply Hn. by right. }
  destruct (sr_files _ _ _ R _ (Hn n ltac:(left))) as (a & b & n' & E & _ & _ & _ & p & Hp & Hc).
  simplify_eq. unfold entry_of at 1. destruct Hc as [-> | ->].
  - rewrite number_lossy, (digits_not_tmp _ (u32_to_string_digits p)).
    rewrite u32_to_string_parse by done.
    rewrite (fetch_spec fs m) by (done || by apply clean_usable).
    rewrite (clean_sanitize b) by done.
    assert (Hm : is_Some (m !! (sanitize g, b, p))).
    { destruct (Hn (u32_to_string p) ltac:(left)) as [x Hx].
      rewrite (sr_entry _ _ _ R) in Hx by (done || by apply usable_clean).
      destruct (m !! _); [done|discriminate]. }
    destruct Hm as [[[o me] e] Hm]. rewrite Hm. cbn [default].
    destruct (o =? OFFSET_UNKNOWN) eqn:Eo; cbn; rewrite Eo, IH by done; [done|].
    by rewrite <- app_assoc.
  - rewrite tmp_lossy, tmp_ends_with_tmp. by apply IH.
Qed.

Section listing.
Context `{IterOrder}.

(** The entries of one topic directory. *)
Definition topic_entries (fs : Fs) (m : committed) (g t : string) : list StoredOffset :=
  omap (entry_of m g t) (reorder (children fs (root ++ [g; t]))).

Lemma topic_children fs m g t n :
  store_rep root fs m → n ∈ children fs (root ++ [g; t]) → is_Some (fs_files fs !! (root ++ [g; t; n])).
Proof.
  intros R [Hn|Hn]%children_elem; rewrite <- snoc3 in Hn; [done|]. by apply (not_a_dir _ _ _ _ _ R) in Hn.
Qed.

Lemma group_children fs m g t :
  store_rep root fs m → t ∈ children fs (root ++ [g]) → clean t ∧ root ++ [g; t] ∈ fs_dirs fs.
Proof.
  intros R [Ht|Ht]%children_elem; rewrite <- app_assoc in Ht; cbn in Ht.
  - rewrite (not_a_file _ _ _ R) in Ht by done. by destruct Ht.
  - destruct (sr_dirs _ _ _ R _ Ht) as [?|[(?&?&?)|(?&?&?&?&?&?)]]; by simplify_eq.
Qed.

Lemma fetch_topics_spec fs m g names : ∀ out,
  store_rep root fs m → usable g →
  (∀ t, t ∈ names → t ∈ children fs (root ++ [sanitize g])) →
  fetch_topics root fs g (root ++ [sanitize g]) names out =
    Ok (out ++ concat (map (topic_entries fs m (sanitize g)) names)).
Proof.
  intros out R Hg. revert out.
  induction names as [|t names IH]; intros out Hn; cbn [fetch_topics map concat];
    [by rewrite app_nil_r|].
  destruct (group_children fs m (sanitize g) t R) as [Ht Hd]; [apply Hn; left|].
  rewrite <- app_assoc. cbn [app]. unfold is_dir. rewrite bool_decide_true by done. cbn [negb].
  rewrite clean_lossy by done. rewrite (fetch_names_spec fs m); [|done..|].
  - rewrite IH by (intros k Hk; apply Hn; by right). by rewrite app_assoc.
  - intros n Hin. rewrite reorder_perm in Hin. by eapply topic_children.
Qed.

Lemma so_le_total a b : so_le a b ∨ so_le b a.
Proof.
  unfold so_le. destruct (decide (so_topic a = so_topic b)) as [E|Hne].
  - destruct (Z.le_ge_cases (so_partition a) (so_partition b)); [left|right]; right; auto.
  - destruct (str_le_total (so_topic a) (so_topic b)); [left|right]; left; auto.
Qed.

Lemma so_le_trans a b c : so_le a b → so_le b c → so_le a c.
Proof.
  unfold so_le. intros [[Hn1 H1]|[E1 H1]] [[Hn2 H2]|[E2 H2]].
  - left. split; [|by eapply str_le_trans]. intros E. apply Hn1. rewrite E in *. by apply str_le_antisym.
  - left. by rewrite <- E2.
  - left. by rewrite E1.
  - right. split; [congruence|lia].
Qed.

Lemma topic_entries_elem fs m g t e :
  store_rep root fs m → clean g → clean t →
  e ∈ topic_entries fs m g t ↔
    so_topic e = t ∧ so_offset e ≠ OFFSET_UNKNOWN ∧
    m !! (g, t, so_partition e) = Some (so_offset e, so_metadata e, so_leader_epoch e).
Proof.
  intros R Hg Ht. unfold topic_entries. rewrite list_elem_of_omap. split.
  - intros (n & _ & He). unfold entry_of in He. destruct (ends_with_tmp n); [done|].
    destruct (parse_u32 n) as [p|]; [|done]. destruct (m !! _) as [[[o me] ep]|] eqn:Em; [|done].
    cbn in He. destruct (Z.eqb_spec o OFFSET_UNKNOWN); [done|]. injection He as <-. done.
  - intros (<- & Ho & Hm). destruct (sr_keys _ _ _ R _ _ _ _ Hm) as (_ & _ & Hp & _).
    exists (u32_to_string (so_partition e)). rewrite reorder_perm, children_elem, <- snoc3. split.
    + left. rewrite (sr_entry _ _ _ R), Hm by done. done.
    + unfold entry_of. rewrite (digits_not_tmp _ (u32_to_string_digits _)), u32_to_string_parse by done.
      rewrite Hm. cbn. rewrite Zeqb_false by done. by destruct e.
Qed.

Lemma topic_entries_NoDup fs m g t :
  store_rep root fs m → clean g → clean t → NoDup (topic_entries fs m g t).
Proof.
  intros R Hg Ht. apply NoDup_omap_inj.
  - rewrite reorder_perm. apply children_NoDup. intros c _. rewrite <- snoc3. by eapply not_a_dir.
  - assert (Hcanon : ∀ n e, n ∈ reorder (children fs (root ++ [g; t])) →
              entry_of m g t n = Some e → n = u32_to_string (so_partition e)).
    { intros n e Hn He. rewrite reorder_perm in Hn. apply (topic_children _ _ _ _ _ R) in Hn.
      destruct (sr_files _ _ _ R _ Hn) as (a & b & n' & E & _ & _ & _ & p & Hp & Hc). simplify_eq.
      unfold entry_of in He. destruct Hc as [-> | ->]; [|by rewrite tmp_ends_with_tmp in He].
      rewrite (digits_not_tmp _ (u32_to_string_digits p)), u32_to_string_parse in He by done.
      destruct (m !! _); [|done]. destruct (_ =? _); [done|]. by injection He as <-. }
    intros x y z Hx Hy Ex Ey. by rewrite (Hcanon x z), (Hcanon y z).
Qed.

(** The listing of a group is exactly its entries of the map, in order. *)
Lemma fetch_all_spec fs m g :
  store_rep root fs m → usable g →
  ∃ out, fetch_all root fs g = Ok out ∧ StronglySorted so_le out ∧ NoDup out ∧
    ∀ e, e ∈ out ↔ so_offset e ≠ OFFSET_UNKNOWN ∧
      m !! (sanitize g, so_topic e, so_partition e) = Some (so_offset e, so_metadata e, so_leader_epoch e).
Proof.
  intros R Hg. unfold fetch_all. pose proof (usable_clean g Hg) as Cg.
  assert (HF : Forall simple (root ++ [sanitize g])).
  { apply Forall_app. split; [done|]. constructor; [apply Cg|constructor]. }
  rewrite components_simple by done. unfold path_exists.
  assert (Hres : resolve fs (root ++ [sanitize g]) = Some (root ++ [sanitize g])).
  { apply (walk_simple fs _ []); [done|]. intros q c [Hq|(k & ->%prefix_1 & ->)]%prefix_app_split; cbn;
      [|rewrite app_nil_r]; by apply (sr_root_dirs _ _ _ R). }
  rewrite Hres. unfold is_file. rewrite (not_a_file _ _ _ R) by done.
  rewrite bool_decide_false by (by intros [? ?]). rewrite orb_false_r.
  destruct (is_dir fs (root ++ [sanitize g])) eqn:Ed; cbn [negb].
  - rewrite (fetch_topics_spec fs m) by (done || intros t; by rewrite reorder_perm). cbn [app].
    set (names := reorder (children fs (root ++ [sanitize g]))).
    assert (Hnames : ∀ t, t ∈ names → clean t).
    { intros t Ht. unfold names in Ht. rewrite reorder_perm in Ht. by eapply group_children. }
    eexists. split; [done|]. split; [|split].
    + apply StronglySorted_merge_sort; [intros a b c; apply so_le_trans|intros a b; apply so_le_total].
    + rewrite merge_sort_Permutation. apply (NoDup_concat_map _ so_topic).
      * unfold names. rewrite reorder_perm. apply children_NoDup. intros c [x Hx].
        rewrite <- app_assoc in Hx. by rewrite (not_a_file _ _ _ R) in Hx.
      * intros t Ht. by apply topic_entries_NoDup; [|done|apply Hnames].
      * intros t e Ht He. by apply (topic_entries_elem fs m) in He as [? _]; [|done|done|apply Hnames].
    + intros e. rewrite merge_sort_Permutation, list_elem_of_In, in_concat. split.
      * intros (l & (t & -> & Ht)%list_elem_of_In%list_elem_of_fmap & He%list_elem_of_In).
        apply (topic_entries_elem fs m) in He as (<- & Ho & Hm); [done|done|done|by apply Hnames].
      * intros [Ho Hm]. destruct (sr_keys _ _ _ R _ _ _ _ Hm) as (_ & Ct & _).
        exists (topic_entries fs m (sanitize g) (so_topic e)). split; apply list_elem_of_In.
        -- apply list_elem_of_fmap. exists (so_topic e). split; [done|]. unfold names.
           rewrite reorder_perm, children_elem, <- app_assoc. right.
           destruct (decide (root ++ [sanitize g; so_topic e] ∈ fs_dirs fs)) as [?|Hno]; [done|].
           by rewrite (no_dir_no_entry fs m) in Hm.
        -- by apply topic_entries_elem.
  - exists []. split; [done|]. do 2 (split; [constructor|]). intros e. split; [by intros ?%not_elem_of_nil|].
    intros [_ Hm]. exfalso. rewrite (no_dir_no_entry fs m) in Hm; [done..|].
    intros Hd. apply (group_dir _ _ _ _ R) in Hd. unfold is_dir in Ed. by rewrite bool_decide_true in Ed.
Qed.

Lemma delete_each_spec g keys : ∀ fs m n,
  store_rep root fs m → usable g →
  NoDup keys → Forall (λ k, clean k.1 ∧ is_Some (m !! (sanitize g, k.1, k.2))) keys →
  ∃ fs' m', delete_each root fs g keys n = (Ok (n + zlen keys), fs') ∧ store_rep root fs' m' ∧
    ∀ g' t p, m' !! (g', t, p) =
      if bool_decide (g' = sanitize g ∧ (t, p) ∈ keys) then None else m !! (g', t, p).
Proof.
  induction keys as [|[t p] keys IH]; intros fs m n R Hg Hnd HF; cbn [delete_each].
  - exists fs, m. split; [by rewrite zlen_nil, Z.add_0_r|]. split; [done|]. intros g' t p.
    rewrite bool_decide_false; [done|]. by intros [_ ?%not_elem_of_nil].
  - apply NoDup_cons in Hnd as [Hk Hnd]. apply Forall_cons in HF as [[Ht [v Hv]] HF]. cbn in Ht, Hv.
    destruct (sr_keys _ _ _ R _ _ _ _ Hv) as (_ & _ & Hp & _).
    destruct (delete_spec fs m g t p R Hg (clean_usable _ Ht) Hp) as (fs1 & E1 & R1).
    rewrite (clean_sanitize t Ht) in E1, R1. rewrite Hv in E1. rewrite bool_decide_true in E1 by done.
    rewrite E1. cbn [bind_st]. clear E1.
    destruct (IH fs1 (delete (sanitize g, t, p) m) (n + 1) R1 Hg Hnd) as (fs' & m' & E & R' & Hm').
    { eapply Forall_impl; [apply Forall_and; split; [exact HF|apply Forall_forall; intros k Hk'; exact Hk']|].
      intros [t' p'] [[Ct Hs] Hin]. split; [done|]. cbn in *. rewrite lookup_delete_ne; [done|].
      intros [= -> ->]. done. }
    exists fs', m'. split; [rewrite E; do 2 f_equal; rewrite zlen_cons; lia|]. split; [done|].
    intros g' t' p'. rewrite Hm'. destruct (decide ((sanitize g, t, p) = (g', t', p'))) as [Ek|Hne].
    + injection Ek as <- <- <-. rewrite lookup_delete_eq.
      rewrite (bool_decide_true (sanitize g = sanitize g ∧ (t, p) ∈ (t, p) :: keys));
        [|split; [done|left]].
      by destruct (bool_decide (sanitize g = sanitize g ∧ _)).
    + rewrite lookup_delete_ne by done. case_bool_decide as B1; case_bool_decide as B2; try done.
      * destruct B2. split; [apply B1|right; apply B1].
      * destruct B2 as [-> [?|?]%elem_of_cons]; [simplify_eq|by destruct B1].
Qed.

(** Deleting all offsets of a group removes exactly the listed ones. *)
Lemma delete_all_spec fs m g :
  store_rep root fs m → usable g →
  ∃ all fs' m', fetch_all root fs g = Ok all ∧ delete_many root fs g [] = (Ok (zlen all), fs') ∧
    store_rep root fs' m' ∧
    ∀ g' t p, m' !! (g', t, p) =
      match m !! (g', t, p) with
      | Some v => if bool_decide (g' = sanitize g ∧ v.1.1 ≠ OFFSET_UNKNOWN) then None else Some v
      | None => None
      end.
Proof.
  intros R Hg. destruct (fetch_all_spec fs m g R Hg) as (all & Ea & _ & Hnd & Hall).
  set (keys := map (λ e, (so_topic e, so_partition e)) all).
  assert (Hkeys : ∀ t p, (t, p) ∈ keys ↔ ∃ v, m !! (sanitize g, t, p) = Some v ∧ v.1.1 ≠ OFFSET_UNKNOWN).
  { intros t p. unfold keys. rewrite list_elem_of_fmap. split.
    - intros (e & [= -> ->] & [Ho Hm]%Hall). eauto.
    - intros ([[o me] ep] & Hm & Ho). exists (mkStoredOffset t p o me ep). split; [done|]. by apply Hall. }
  destruct (delete_each_spec g keys fs m 0 R Hg) as (fs' & m' & E & R' & Hm').
  - unfold keys. apply NoDup_fmap_2_strong; [|done]. intros [t1 p1 o1 me1 e1] [t2 p2 o2 me2 e2].
    intros [_ H1]%Hall [_ H2]%Hall [= -> ->]. cbn in *. rewrite H1 in H2. by simplify_eq.
  - apply Forall_forall. intros [t p] (v & Hv & _)%Hkeys. cbn. split; [|by rewrite Hv].
    by destruct (sr_keys _ _ _ R _ _ _ _ Hv) as (_ & ? & _).
  - exists all, fs', m'. split; [done|]. unfold delete_many. rewrite Ea. fold keys. rewrite E.
    split; [unfold keys; by rewrite zlen_map|]. split; [done|].
    intros g' t p. rewrite Hm'. destruct (m !! (g', t, p)) as [v|] eqn:Ev; [|by case_bool_decide].
    case_bool_decide as B1; case_bool_decide as B2; try done; exfalso.
    + destruct B1 as [-> (v' & Hv' & ?)%Hkeys]. rewrite Ev in Hv'. simplify_eq. by apply B2.
    + destruct B2 as [-> Ho]. apply B1. split; [done|]. apply Hkeys. eauto.
Qed.

End listing.
End rep.

(** ** Theorems *)

#[local] Transparent u32_to_string.

(** A commit inserts into the finite map the directory stands for: on a
    store for [m] and names whose file names are ordinary it succeeds, its
    result is a store for [m] with the entry replaced, a fetch of the key
    then returns exactly what was committed (offset, metadata, leader epoch),
    and every other key reads as before; metadata of more than 65535 bytes is
    refused and the map stays. *)
Theorem commit_then_fetch root fs m g t p v :
  Forall simple root → store_rep root fs m → usable g → usable t → is_u32 p →
  (value_ok v → ∃ fs',
     commit_with_epoch root fs g t p v.1.1 v.1.2 v.2 = (Ok tt, fs') ∧
     store_rep root fs' (<[(sanitize g, sanitize t, p) := v]> m) ∧
     fetch root fs' g t p = Ok v ∧
     ∀ g' t' p', usable g' → usable t' → is_u32 p' →
       (sanitize g', sanitize t', p') ≠ (sanitize g, sanitize t, p) →
       fetch root fs' g' t' p' = fetch root fs g' t' p') ∧
  (u16_max < str_len v.1.2 → ∃ fs',
     commit_with_epoch root fs g t p v.1.1 v.1.2 v.2 =
       (Err (InvalidArgument "offset metadata too long"), fs') ∧ store_rep root fs' m).
Proof.
  intros Hr R Hg Ht Hp. split; [|by apply commit_too_long]. intros Hv.
  destruct (commit_spec root Hr fs m g t p v R Hg Ht Hp Hv) as (fs' & E & R').
  exists fs'. split; [done|]. split; [done|]. split.
  - rewrite (fetch_spec root Hr fs' _ g t p R') by done. by rewrite lookup_insert_eq.
  - intros g' t' p' Hg' Ht' Hp' Hne.
    rewrite (fetch_spec root Hr fs' _ g' t' p' R'), (fetch_spec root Hr fs _ g' t' p' R) by done.
    by rewrite lookup_insert_ne.
Qed.

Definition demo_root : path := ["data"; "__consumer_offsets"]%string.
Definition demo_fs : Fs := mkFs ∅ (list_to_set [[]; ["data"]; demo_root]%string).

Lemma demo_root_simple : Forall simple demo_root.
Proof. repeat constructor; done. Qed.

Lemma demo_store : store_rep demo_root demo_fs ∅.
Proof.
  assert (Hd : ∀ q, q ∈ fs_dirs demo_fs ↔ q ∈ [[]; ["data"]; demo_root]%string).
  { intros q. unfold demo_fs. cbn [fs_dirs]. apply elem_of_list_to_set. }
  constructor; try done.
  - intros q Hq. apply Hd. unfold demo_root in Hq.
    destruct (prefix_2 _ _ _ Hq) as [->|[->| ->]]; rewrite !elem_of_cons; auto.
  - intros q [x Hx]. done.
  - intros q Hq. left. apply Hd in Hq. rewrite !elem_of_cons in Hq.
    unfold demo_root in Hq. destruct Hq as [Hq|[Hq|[Hq|Hq%not_elem_of_nil]]]; by simplify_eq/=.
Qed.

Lemma commit_then_fetch_witness :
  ∃ fs', commit_with_epoch demo_root demo_fs "g" "t" 7 42 "m" 3 = (Ok tt, fs') ∧
    fetch demo_root fs' "g" "t" 7 = Ok (42, "m"%string, 3).
Proof.
  destruct (commit_then_fetch demo_root demo_fs ∅ "g" "t" 7 (42, "m"%string, 3)) as [H _].
  - exact demo_root_simple.
  - exact demo_store.
  - done.
  - done.
  - done.
  - destruct H as (fs' & E & _ & F & _); [done|]. exists fs'. split; [exact E|exact F].
Defined.

(** The listing and the deletion of a group's offsets are exact: on a
    store for [m], whatever order the directories are read in, [fetch_all]
    returns exactly the entries of the group (an offset of [u64::MAX] counts
    as none), each once, in topic and partition order; [delete_many] without
    entries removes exactly those and reports their number. *)
Theorem fetch_all_and_delete_exact `{IterOrder} root fs m g :
  Forall simple root → store_rep root fs m → usable g →
  ∃ all fs' m', fetch_all root fs g = Ok all ∧ StronglySorted so_le all ∧ NoDup all ∧
    (∀ e, e ∈ all ↔ so_offset e ≠ OFFSET_UNKNOWN ∧
       m !! (sanitize g, so_topic e, so_partition e) =
         Some (so_offset e, so_metadata e, so_leader_epoch e)) ∧
    delete_many root fs g [] = (Ok (zlen all), fs') ∧ store_rep root fs' m' ∧
    ∀ g' t p, m' !! (g', t, p) =
      match m !! (g', t, p) with
      | Some v => if bool_decide (g' = sanitize g ∧ v.1.1 ≠ OFFSET_UNKNOWN) then None else Some v
      | None => None
      end.
Proof.
  intros Hr R Hg. destruct (fetch_all_spec root Hr fs m g R Hg) as (all & Ea & Hs & Hnd & Hin).
  destruct (delete_all_spec root Hr fs m g R Hg) as (all' & fs' & m' & Ea' & Ed & R' & Hm').
  rewrite Ea in Ea'. injection Ea' as <-. exists all, fs', m'. auto 10.
Qed.

Lemma fetch_all_and_delete_exact_witness :
  ∃ fs all, commit_with_epoch demo_root demo_fs "g" "t" 7 42 "m" 3 = (Ok tt, fs) ∧
    fetch_all (H := order_rev) demo_root fs "g" = Ok all ∧ mkStoredOffset "t" 7 42 "m" 3 ∈ all.
Proof.
  assert (U : usable "g") by done.
  destruct (commit_spec demo_root demo_root_simple demo_fs ∅ "g" "t" 7 (42, "m"%string, 3))
    as (fs & E & R); [exact demo_store|done..|].
  destruct (fetch_all_and_delete_exact (H := order_rev) demo_root fs _ "g" demo_root_simple R U)
    as (all & fs' & m' & Ea & _ & _ & Hin & _).
  exists fs, all. split; [exact E|]. split; [exact Ea|]. clear E Ea. apply Hin. split; [done|].
  apply lookup_insert_eq.
Defined.

(** File names do not keep groups apart.  Distinct group names whose
    other characters are all replaced by [_] read each other's offsets, and
    the name [..] is kept as it is, so that the commit of such a group lands
    outside the store's directory. *)
Theorem group_names_collide_and_escape :
  let '(r1, fs1) := commit demo_root demo_fs "a/b" "t" 0 5 "" in
  let '(r2, fs2) := commit demo_root demo_fs ".." "t" 0 5 "" in
  r1 = Ok tt ∧ fetch demo_root fs1 "a:b" "t" 0 = Ok (5, ""%string, -1) ∧
  r2 = Ok tt ∧ fs_files fs2 !! ["data"; "t"; "0"]%string = Some (encode_offset 5 "" (-1)).
Proof. vm_compute. auto. Qed.
