(* ===== verification/Group.v ===== *)
(** * Consumer groups: [volant-broker/src/group.rs]

    The coordinator's groups, the parked Join count and the offset store.
    Every operation is a function from the coordinator to a result and the
    next coordinator.  [Instant::now()] is an argument in nanoseconds, read
    once per locked region; a fresh [Uuid] is an argument; the iteration order
    of a [HashMap] is an [IterOrder].  A Join that waits on the condition
    variable releases the lock, so it is split there: it returns [JoinParked]
    with what the thread keeps on its stack, and [join_resume] is the rest. *)

From Stdlib Require Import Strings.String.
From S2P Require Import Prelude Bytes Messages Assignor OffsetStore.
#[local] Open Scope Z_scope.

(** [ErrorCode] *)
Definition RebalanceInProgress : Z := 9.
Definition UnknownMemberId : Z := 10.
Definition IllegalGeneration : Z := 11.

Definition DEFAULT_JOIN_PARK_MS : Z := 1000.
Definition STATIC_MEMBER_PREFIX : string := "static:".

Record JoinResult := mkJoinResult {
  jr_error_code : Z;
  jr_generation : Z;
  jr_member_id : string;
  jr_assignment : list TopicPartition;
  jr_revoked : list TopicPartition;
  jr_members : list string;
}.

Record SyncGroupResult := mkSyncGroupResult {
  sr_error_code : Z;
  sr_assignment : list TopicPartition;
}.

Inductive Owns := Allow | UnknownMember | NotAssigned.

Record GroupMemberDescription := mkGroupMemberDescription {
  gmd_member_id : string;
  gmd_topics : list string;
  gmd_assignment : list TopicPartition;
}.

Record GroupDescription := mkGroupDescription {
  gd_group_id : string;
  gd_generation : Z;
  gd_members : list GroupMemberDescription;
  gd_state : GroupState;
}.

Record GroupListEntry := mkGroupListEntry {
  gle_group_id : string;
  gle_state : GroupState;
  gle_member_count : Z;
  gle_generation : Z;
}.

Definition static_member_id (instance_id : string) : string := (STATIC_MEMBER_PREFIX ++ instance_id)%string.

Record Member := mkMember {
  member_id : string;
  session_timeout_ms : Z;
  last_heartbeat : Z;
  topics : list string;
  assignment : list TopicPartition;
  delivered : list TopicPartition;
  synced_generation : Z;
}.

Record Group := mkGroup {
  group_id : string;
  generation : Z;
  members : gmap string Member;
}.

Record GroupCoordinator := mkGroupCoordinator {
  groups : gmap string Group;
  join_waiters : gmap string Z;
  offsets : Fs;
}.

Definition with_groups (co : GroupCoordinator) (gs : gmap string Group) : GroupCoordinator :=
  mkGroupCoordinator gs (join_waiters co) (offsets co).
Definition with_group (co : GroupCoordinator) (gid : string) (g : Group) : GroupCoordinator :=
  with_groups co (<[gid := g]> (groups co)).
Definition with_waiters (co : GroupCoordinator) (ws : gmap string Z) : GroupCoordinator :=
  mkGroupCoordinator (groups co) ws (offsets co).
Definition with_offsets (co : GroupCoordinator) (fs : Fs) : GroupCoordinator :=
  mkGroupCoordinator (groups co) (join_waiters co) fs.
Definition with_members (g : Group) (ms : gmap string Member) : Group :=
  mkGroup (group_id g) (generation g) ms.
Definition bump (g : Group) : Group :=
  mkGroup (group_id g) (u32_wrapping_add (generation g) 1) (members g).

Definition set_assignment (a : list TopicPartition) (m : Member) : Member :=
  mkMember (member_id m) (session_timeout_ms m) (last_heartbeat m) (topics m) a (delivered m)
    (synced_generation m).
Definition set_delivered (d : list TopicPartition) (m : Member) : Member :=
  mkMember (member_id m) (session_timeout_ms m) (last_heartbeat m) (topics m) (assignment m) d
    (synced_generation m).

(** [last_heartbeat.elapsed() <= Duration::from_millis(session_timeout_ms)] *)
Definition alive (now : Z) (m : Member) : bool :=
  Z.max 0 (now - last_heartbeat m) <=? session_timeout_ms m * 1000000.

(** ** Helpers *)

Definition all_synced (g : Group) : bool :=
  forallb (λ kv, synced_generation kv.2 =? generation g) (map_to_list (members g)).

(** [groups.get(group_id).map(all_synced).unwrap_or(true)] *)
Definition group_ready (gs : gmap string Group) (gid : string) : bool :=
  match gs !! gid with
  | Some g => all_synced g
  | None => true
  end.

Definition inc_join_waiters (ws : gmap string Z) (gid : string) : gmap string Z :=
  <[gid := default 0 (ws !! gid) + 1]> ws.

Definition dec_join_waiters (ws : gmap string Z) (gid : string) : gmap string Z :=
  match ws !! gid with
  | Some n => if 1 <? n then <[gid := n - 1]> ws else delete gid ws
  | None => ws
  end.

Definition parked_count (ws : gmap string Z) (gid : string) : Z := default 0 (ws !! gid).

Definition listed_state (g : Group) (parked : Z) : GroupState :=
  if 0 <? parked then PreparingRebalance
  else if bool_decide (members g = ∅) then Empty
  else if all_synced g then Stable
  else CompletingRebalance.

Definition partition_diff (old new : list TopicPartition) : list TopicPartition :=
  filter (λ tp, tp ∉ new) old.

(** The partition counts of the subscribed topics the broker knows. *)
Fixpoint collect_counts (partition_counts : string → option nat) (ts : list string)
    (counts : gmap string nat) : gmap string nat :=
  match ts with
  | [] => counts
  | t :: ts =>
    collect_counts partition_counts ts
      (if bool_decide (is_Some (counts !! t)) then counts
       else match partition_counts t with
            | Some n => <[t := n]> counts
            | None => counts
            end)
  end.

(** [for (i, mid) in member_ids.iter().enumerate()]: assign the lists. *)
Fixpoint set_assignments (ids : list string) (assigns : list (list TopicPartition))
    (ms : gmap string Member) : gmap string Member :=
  match ids, assigns with
  | mid :: ids, a :: assigns => set_assignments ids assigns (alter (set_assignment a) mid ms)
  | _, _ => ms
  end.

Section coordinator.
Context `{IterOrder}.

Definition live_member_ids (g : Group) : list string :=
  merge_sort str_le (map fst (reorder (map_to_list (members g)))).

Definition reassign (partition_counts : string → option nat) (g : Group) : Group :=
  if bool_decide (members g = ∅) then g else
  let values := map snd (reorder (map_to_list (members g))) in
  let member_ids := map member_id values in
  let member_topics := map topics values in
  let previous := map assignment values in
  let counts := collect_counts partition_counts (concat member_topics) ∅ in
  let assigns := sticky_assign_multi member_ids member_topics counts previous in
  with_members g (set_assignments member_ids assigns (members g)).

Definition fenced_join (g : Group) (mid : string) : JoinResult :=
  mkJoinResult RebalanceInProgress (generation g) mid [] [] (live_member_ids g).

Definition fenced_join_lookup (gs : gmap string Group) (gid mid : string) : JoinResult :=
  match gs !! gid with
  | Some g => fenced_join g mid
  | None => mkJoinResult RebalanceInProgress 0 mid [] [] []
  end.

(** ** Session expiry *)

Definition retain_alive (now : Z) (ms : gmap string Member) : gmap string Member :=
  filter (λ kv, alive now kv.2 = true) ms.

(** [expire_sessions_inner]: dead members are dropped, nothing else. *)
Definition expire_sessions_inner (now : Z) (co : GroupCoordinator) : GroupCoordinator :=
  let gs := (λ g, with_members g (retain_alive now (members g))) <$> groups co in
  with_groups co (filter (λ kv, members kv.2 ≠ ∅) gs).

Definition expire_group (now : Z) (partition_counts : string → option nat) (g : Group) : Group :=
  let g' := with_members g (retain_alive now (members g)) in
  if bool_decide (size (members g') = size (members g)) then g'
  else reassign partition_counts (bump g').

Definition expire_sessions (now : Z) (partition_counts : string → option nat)
    (co : GroupCoordinator) : GroupCoordinator :=
  let gs := expire_group now partition_counts <$> groups co in
  with_groups co (filter (λ kv, members kv.2 ≠ ∅) gs).

(** ** Join *)

Record JoinRequest := mkJoinRequest {
  rq_group_id : string;
  rq_member_id : string;
  rq_session_timeout_ms : Z;
  rq_rebalance_timeout_ms : Z;
  rq_topics : list string;
  rq_group_instance_id : string;
}.

Definition session_timeout (rq : JoinRequest) : Z :=
  if rq_session_timeout_ms rq =? 0 then 10000 else rq_session_timeout_ms rq.

Definition park_ms (rq : JoinRequest) : Z :=
  if rq_rebalance_timeout_ms rq =? 0 then DEFAULT_JOIN_PARK_MS else rq_rebalance_timeout_ms rq.

(** Explicit id, else the static instance, else none yet. *)
Definition resolved_id (rq : JoinRequest) : string :=
  if negb (String.eqb (rq_member_id rq) "") then rq_member_id rq
  else if negb (String.eqb (rq_group_instance_id rq) "") then static_member_id (rq_group_instance_id rq)
  else ""%string.

(** What a parked thread keeps: its request, whether it waits at the fence of
    a re-join with other topics or at the fence of a new member, and its
    deadline. *)
Record Waiter := mkWaiter {
  w_request : JoinRequest;
  w_rejoin : bool;
  w_deadline : Z;
}.

Inductive JoinOutcome :=
| JoinDone (r : JoinResult)
| JoinParked (w : Waiter).

(** One turn of the loop of [park_until_all_synced]: [Some] breaks. *)
Definition park_turn (now : Z) (gs : gmap string Group) (gid : string) (deadline : Z) : option bool :=
  if group_ready gs gid then Some true
  else if deadline <=? now then Some false
  else None.

(** [park_until_all_synced] up to its first wait. *)
Definition park_enter (now : Z) (co : GroupCoordinator) (rq : JoinRequest)
    : option bool * Z * GroupCoordinator :=
  let gid := rq_group_id rq in
  let deadline := now + park_ms rq * 1000000 in
  if group_ready (groups co) gid then (Some true, deadline, co) else
  let co := with_waiters co (inc_join_waiters (join_waiters co) gid) in
  match park_turn now (groups co) gid deadline with
  | Some synced => (Some synced, deadline, with_waiters co (dec_join_waiters (join_waiters co) gid))
  | None => (None, deadline, co)
  end.

(** The re-join of a member the group has. *)
Definition rejoin (now : Z) (rq : JoinRequest) (partition_counts : string → option nat)
    (topics_changed : bool) (m : Member) (g : Group) : JoinResult * Group :=
  let mid := resolved_id rq in
  let m := mkMember (member_id m) (session_timeout rq) now (rq_topics rq) (assignment m)
             (delivered m) (synced_generation m) in
  let g := with_members g (<[mid := m]> (members g)) in
  let g := if topics_changed then reassign partition_counts (bump g) else g in
  let a := default [] (assignment <$> members g !! mid) in
  let previous := default [] (delivered <$> members g !! mid) in
  let revoked := partition_diff previous a in
  let g := with_members g (alter (set_delivered a) mid (members g)) in
  (mkJoinResult 0 (generation g) mid a revoked (live_member_ids g), g).

(** The insertion of a new member, once the fence is open. *)
Definition join_new (now : Z) (uuid : string) (rq : JoinRequest)
    (partition_counts : string → option nat) (co : GroupCoordinator) : JoinResult * GroupCoordinator :=
  let gid := rq_group_id rq in
  let g := default (mkGroup gid 0 ∅) (groups co !! gid) in
  let mid := if String.eqb (resolved_id rq) "" then uuid else resolved_id rq in
  let m := mkMember mid (session_timeout rq) now (rq_topics rq) [] [] 0 in
  let g := with_members g (<[mid := m]> (members g)) in
  let g := reassign partition_counts (bump g) in
  let a := default [] (assignment <$> members g !! mid) in
  let g := with_members g (alter (set_delivered a) mid (members g)) in
  (mkJoinResult 0 (generation g) mid a [] (live_member_ids g), with_group co gid g).

(** The fence of a new member, and what follows. *)
Definition join_second (now : Z) (uuid : string) (rq : JoinRequest)
    (partition_counts : string → option nat) (co : GroupCoordinator) (synced : bool)
    : JoinOutcome * GroupCoordinator :=
  if synced then
    let '(r, co) := join_new now uuid rq partition_counts co in (JoinDone r, co)
  else (JoinDone (fenced_join_lookup (groups co) (rq_group_id rq) (resolved_id rq)), co).

Definition join_fence (now : Z) (uuid : string) (rq : JoinRequest)
    (partition_counts : string → option nat) (co : GroupCoordinator) : JoinOutcome * GroupCoordinator :=
  match park_enter now co rq with
  | (Some synced, _, co) => join_second now uuid rq partition_counts co synced
  | (None, deadline, co) => (JoinParked (mkWaiter rq false deadline), co)
  end.

(** After the fence of a re-join: the member may have gone meanwhile. *)
Definition join_first (now : Z) (uuid : string) (rq : JoinRequest)
    (partition_counts : string → option nat) (topics_changed : bool) (co : GroupCoordinator)
    (synced : bool) : JoinOutcome * GroupCoordinator :=
  if synced then
    match groups co !! rq_group_id rq with
    | Some g =>
      match members g !! resolved_id rq with
      | Some m =>
        let '(r, g) := rejoin now rq partition_counts topics_changed m g in
        (JoinDone r, with_group co (rq_group_id rq) g)
      | None => join_fence now uuid rq partition_counts co
      end
    | None => join_fence now uuid rq partition_counts co
    end
  else (JoinDone (fenced_join_lookup (groups co) (rq_group_id rq) (resolved_id rq)), co).

(** [join] from the lock on, up to its end or its first wait. *)
Definition join_locked (now : Z) (uuid : string) (rq : JoinRequest)
    (partition_counts : string → option nat) (co : GroupCoordinator) : JoinOutcome * GroupCoordinator :=
  let existing :=
    if String.eqb (resolved_id rq) "" then None
    else groups co !! rq_group_id rq ≫= λ g, members g !! resolved_id rq in
  match existing with
  | Some m =>
    let topics_changed := negb (bool_decide (topics m = rq_topics rq)) in
    if topics_changed then
      match park_enter now co rq with
      | (Some synced, _, co) => join_first now uuid rq partition_counts true co synced
      | (None, deadline, co) => (JoinParked (mkWaiter rq true deadline), co)
      end
    else join_first now uuid rq partition_counts false co true
  | None => join_fence now uuid rq partition_counts co
  end.

(** The wait returned, notified or timed out. *)
Definition join_resume (now : Z) (uuid : string) (partition_counts : string → option nat)
    (timed_out : bool) (w : Waiter) (co : GroupCoordinator) : JoinOutcome * GroupCoordinator :=
  let rq := w_request w in
  let gid := rq_group_id rq in
  let turn := if timed_out then Some (group_ready (groups co) gid)
              else park_turn now (groups co) gid (w_deadline w) in
  match turn with
  | None => (JoinParked w, co)
  | Some synced =>
    let co := with_waiters co (dec_join_waiters (join_waiters co) gid) in
    if w_rejoin w then join_first now uuid rq partition_counts true co synced
    else join_second now uuid rq partition_counts co synced
  end.

(** [join]: drop the dead, then the locked part. *)
Definition join (now : Z) (uuid : string) (rq : JoinRequest)
    (partition_counts : string → option nat) (co : GroupCoordinator) : JoinOutcome * GroupCoordinator :=
  join_locked now uuid rq partition_counts (expire_sessions_inner now co).

(** ** Heartbeat, SyncGroup, LeaveGroup *)

Definition heartbeat_locked (now : Z) (gid mid : string) (gen : Z) (co : GroupCoordinator)
    : Z * GroupCoordinator :=
  match groups co !! gid with
  | None => (UnknownMemberId, co)
  | Some g =>
    match members g !! mid with
    | None => (UnknownMemberId, co)
    | Some m =>
      if negb (gen =? generation g) then (RebalanceInProgress, co) else
      let m := mkMember (member_id m) (session_timeout_ms m) now (topics m) (assignment m)
                 (delivered m) (synced_generation m) in
      (0, with_group co gid (with_members g (<[mid := m]> (members g))))
    end
  end.

Definition heartbeat (now : Z) (gid mid : string) (gen : Z) (co : GroupCoordinator)
    : Z * GroupCoordinator :=
  heartbeat_locked now gid mid gen (expire_sessions_inner now co).

(** [for (mid, parts) in assignments]: members that exist take the list. *)
Fixpoint apply_assignments (assignments : list (string * list TopicPartition))
    (ms : gmap string Member) : gmap string Member :=
  match assignments with
  | [] => ms
  | (mid, parts) :: assignments => apply_assignments assignments (alter (set_assignment parts) mid ms)
  end.

Definition sync_group_locked (now : Z) (gid mid : string) (gen : Z)
    (assignments : list (string * list TopicPartition)) (co : GroupCoordinator)
    : SyncGroupResult * GroupCoordinator :=
  match groups co !! gid with
  | None => (mkSyncGroupResult UnknownMemberId [], co)
  | Some g =>
    if bool_decide (members g !! mid = None) then (mkSyncGroupResult UnknownMemberId [], co) else
    if negb (gen =? generation g) then (mkSyncGroupResult RebalanceInProgress [], co) else
    let ms := apply_assignments assignments (members g) in
    let confirm m := mkMember (member_id m) (session_timeout_ms m) now (topics m) (assignment m)
                       (delivered m) gen in
    let ms := alter confirm mid ms in
    (mkSyncGroupResult 0 (default [] (assignment <$> ms !! mid)),
     with_group co gid (with_members g ms))
  end.

Definition sync_group_with_assignments (now : Z) (gid mid : string) (gen : Z)
    (assignments : list (string * list TopicPartition)) (co : GroupCoordinator)
    : SyncGroupResult * GroupCoordinator :=
  sync_group_locked now gid mid gen assignments (expire_sessions_inner now co).

Definition sync_group (now : Z) (gid mid : string) (gen : Z) (co : GroupCoordinator)
    : SyncGroupResult * GroupCoordinator :=
  sync_group_with_assignments now gid mid gen [] co.

Definition leave (gid mid : string) (partition_counts : string → option nat) (co : GroupCoordinator)
    : Z * GroupCoordinator :=
  match groups co !! gid with
  | None => (0, co)
  | Some g =>
    if bool_decide (members g !! mid = None) then (UnknownMemberId, co) else
    let g := with_members g (delete mid (members g)) in
    let g := reassign partition_counts (bump g) in
    (0, if bool_decide (members g = ∅) then with_groups co (delete gid (groups co))
        else with_group co gid g)
  end.

(** ** Committed offsets *)

Definition check_commit_fence (gid mid : string) (gen : Z) (co : GroupCoordinator) : Z :=
  match groups co !! gid with
  | None => UnknownMemberId
  | Some g =>
    if negb (String.eqb mid "") && bool_decide (members g !! mid = None) then UnknownMemberId else
    if negb (gen =? generation g) then IllegalGeneration else
    if negb (String.eqb mid "") then
      match members g !! mid with
      | Some m => if negb (synced_generation m =? gen) then RebalanceInProgress else 0
      | None => 0
      end
    else 0
  end.

Section offsets.
Context (root : path).

Fixpoint commit_entries (gid : string) (entries : list StoredOffset) (co : GroupCoordinator)
    : result Z * GroupCoordinator :=
  match entries with
  | [] => (Ok 0, co)
  | e :: entries =>
    match commit_with_epoch root (offsets co) gid (so_topic e) (so_partition e) (so_offset e)
            (so_metadata e) (so_leader_epoch e) with
    | (Ok _, fs) => commit_entries gid entries (with_offsets co fs)
    | (Err e, fs) => (Err e, with_offsets co fs)
    end
  end.

Definition commit_offsets_with_epoch (gid mid : string) (gen : Z) (entries : list StoredOffset)
    (co : GroupCoordinator) : result Z * GroupCoordinator :=
  let code := if negb (gen =? 0) then check_commit_fence gid mid gen co else 0 in
  if negb (code =? 0) then (Ok code, co) else commit_entries gid entries co.

Definition commit_offsets (gid mid : string) (gen : Z) (entries : list (string * Z * Z * string))
    (co : GroupCoordinator) : result Z * GroupCoordinator :=
  commit_offsets_with_epoch gid mid gen
    (map (λ '(t, p, o, m), mkStoredOffset t p o m LEADER_EPOCH_UNKNOWN) entries) co.

Fixpoint fetch_entries (gid : string) (entries : list (string * Z)) (co : GroupCoordinator)
    : result (list StoredOffset) :=
  match entries with
  | [] => Ok []
  | (topic, partition) :: entries =>
    let? (offset, metadata, leader_epoch) := fetch root (offsets co) gid topic partition in
    let? out := fetch_entries gid entries co in
    Ok (mkStoredOffset topic partition offset metadata leader_epoch :: out)
  end.

Definition fetch_offsets (gid : string) (entries : list (string * Z)) (co : GroupCoordinator)
    : result (list StoredOffset) :=
  match entries with
  | [] => fetch_all root (offsets co) gid
  | _ => fetch_entries gid entries co
  end.

Definition delete_offsets (gid : string) (entries : list (string * Z)) (co : GroupCoordinator)
    : result Z * GroupCoordinator :=
  let '(r, fs) := delete_many root (offsets co) gid entries in (r, with_offsets co fs).

Definition NON_EMPTY_GROUP : Z := 68.
Definition GROUP_ID_NOT_FOUND : Z := 69.

(** The first locked region of [delete_group]. *)
Definition delete_group_refused (gid : string) (co : GroupCoordinator) : bool :=
  match groups co !! gid with
  | Some g => negb (bool_decide (members g = ∅))
  | None => false
  end.

(** The second one, and the offsets. *)
Definition delete_group_rest (gid : string) (co : GroupCoordinator) : result Z * GroupCoordinator :=
  let had_members := bool_decide (is_Some (groups co !! gid)) in
  let co := with_groups co (delete gid (groups co)) in
  match OffsetStore.list_group_ids root (offsets co) with
  | Err e => (Err e, co)
  | Ok ids =>
    let had_offsets := bool_decide (gid ∈ ids) in
    if negb had_members && negb had_offsets then (Ok GROUP_ID_NOT_FOUND, co) else
    let '(r, fs) := delete_many root (offsets co) gid [] in
    match r with
    | Ok _ => (Ok 0, with_offsets co fs)
    | Err e => (Err e, with_offsets co fs)
    end
  end.

Definition delete_group (gid : string) (co : GroupCoordinator) : result Z * GroupCoordinator :=
  if delete_group_refused gid co then (Ok NON_EMPTY_GROUP, co) else delete_group_rest gid co.

(** ** Describe and list *)

(** Active groups and groups with offsets on disk, each once. *)
Definition known_groups (co : GroupCoordinator) : list string :=
  let disk := match OffsetStore.list_group_ids root (offsets co) with Ok ids => ids | Err _ => [] end in
  reorder (elements (dom (groups co) ∪ list_to_set disk)).

Definition list_group_ids (co : GroupCoordinator) : list string := merge_sort str_le (known_groups co).

Definition list_entry (co : GroupCoordinator) (gid : string) : GroupListEntry :=
  let parked := parked_count (join_waiters co) gid in
  match groups co !! gid with
  | Some g =>
    mkGroupListEntry gid (listed_state g parked) (as_u32 (Z.of_nat (size (members g)))) (generation g)
  | None => mkGroupListEntry gid (if 0 <? parked then PreparingRebalance else Empty) 0 0
  end.

Definition by_group_id (a b : GroupListEntry) : Prop := str_le (gle_group_id a) (gle_group_id b).
#[export] Instance by_group_id_dec a b : Decision (by_group_id a b).
Proof. unfold by_group_id. apply _. Defined.

Definition list_groups (co : GroupCoordinator) : list GroupListEntry :=
  merge_sort by_group_id (map (list_entry co) (known_groups co)).

End offsets.

Definition by_member_id (a b : GroupMemberDescription) : Prop :=
  str_le (gmd_member_id a) (gmd_member_id b).
#[export] Instance by_member_id_dec a b : Decision (by_member_id a b).
Proof. unfold by_member_id. apply _. Defined.

Definition describe_group (gid : string) (co : GroupCoordinator) : option GroupDescription :=
  match groups co !! gid with
  | None => None
  | Some g =>
    let ms := map (λ kv, mkGroupMemberDescription (member_id kv.2) (topics kv.2) (assignment kv.2))
                (reorder (map_to_list (members g))) in
    Some (mkGroupDescription gid (generation g) (merge_sort by_member_id ms)
            (listed_state g (parked_count (join_waiters co) gid)))
  end.

Definition member_assignment (gid mid : string) (co : GroupCoordinator) : option (list TopicPartition) :=
  groups co !! gid ≫= λ g, assignment <$> members g !! mid.

Definition member_owns (gid mid topic : string) (partition : nat) (co : GroupCoordinator) : Owns :=
  match groups co !! gid with
  | None => UnknownMember
  | Some g =>
    match members g !! mid with
    | None => UnknownMember
    | Some m => if bool_decide ((topic, partition) ∈ assignment m) then Allow else NotAssigned
    end
  end.

End coordinator.

(** ** [decode_native_assignment_list] *)

Fixpoint decode_items (n : nat) (data : bytes) (i : Z) (out : list TopicPartition)
    : option (list TopicPartition * Z) :=
  match n with
  | O => Some (out, i)
  | S n =>
    if zlen data <? i + 2 then None else
    let tlen := le_val (zslice i (i + 2) data) in
    let i := i + 2 in
    if zlen data <? i + tlen + 4 then None else
    match from_utf8 (zslice i (i + tlen) data) with
    | None => None
    | Some topic =>
      let i := i + tlen in
      let partition := le_val (zslice i (i + 4) data) in
      decode_items n data (i + 4) (out ++ [(topic, Z.to_nat partition)])
    end
  end.

Definition decode_native_assignment_list (data : bytes) : option (list TopicPartition) :=
  if zlen data <? 4 then None else
  let n := le_val (zslice 0 4 data) in
  if (zlen data - 4) / 6 <? n then None else
  match decode_items (Z.to_nat n) data 4 [] with
  | Some (out, i) => if i =? zlen data then Some out else None
  | None => None
  end.
