(* ===== verification/GroupProps.v ===== *)
(** * Correctness of the group coordinator

    The rebalance of a group gives a complete and disjoint assignment; Join
    is fenced until every live member confirmed the current generation;
    offsets are only committed by members of the current generation; and the
    coordinator's invariant holds in every interleaving of the operations,
    Joins parked on the condition variable included. *)

From Stdlib Require Import Strings.String.
From S2P Require Import Prelude Bytes Messages Assignor AssignorProps OffsetStore OffsetStoreProps Group.
#[local] Open Scope Z_scope.
#[local] Set Warnings "-clear-no-such-hyp".

(** ** Rebalance *)

Definition members_ok (ms : gmap string Member) : Prop :=
  ∀ mid m, ms !! mid = Some m → member_id m = mid.

(** Every partition of every known subscribed topic has exactly one owner,
    a member that subscribes to its topic; nothing else is assigned. *)
Record group_assigned (partition_counts : string → option nat) (ms : gmap string Member) : Prop := {
  ga_sound : ∀ mid m t p, ms !! mid = Some m → (t, p) ∈ assignment m →
    t ∈ topics m ∧ ∃ n, partition_counts t = Some n ∧ (p < n)%nat;
  ga_complete : ∀ mid m t p n, ms !! mid = Some m → t ∈ topics m → partition_counts t = Some n →
    (p < n)%nat → ∃ mid' m', ms !! mid' = Some m' ∧ (t, p) ∈ assignment m';
  ga_disjoint : ∀ mid1 m1 mid2 m2 tp, ms !! mid1 = Some m1 → ms !! mid2 = Some m2 →
    tp ∈ assignment m1 → tp ∈ assignment m2 → mid1 = mid2;
  ga_once : ∀ mid m, ms !! mid = Some m → NoDup (assignment m);
}.

Lemma collect_counts_lookup pc ts t : ∀ counts,
  (∀ u n, counts !! u = Some n → pc u = Some n) →
  collect_counts pc ts counts !! t =
    match counts !! t with
    | Some n => Some n
    | None => if bool_decide (t ∈ ts) then pc t else None
    end.
Proof.
  induction ts as [|u ts IH]; intros counts Hc; cbn [collect_counts].
  - rewrite bool_decide_false by apply not_elem_of_nil. by destruct (counts !! t).
  - assert (Hmem : bool_decide (t ∈ u :: ts) = bool_decide (t = u) || bool_decide (t ∈ ts)).
    { rewrite <- bool_decide_or. apply bool_decide_ext. by rewrite elem_of_cons. }
    rewrite Hmem. clear Hmem. rewrite IH.
    + destruct (decide (is_Some (counts !! u))) as [[k Hk]|Hs].
      * rewrite bool_decide_true by eauto. destruct (counts !! t) eqn:Et; [done|].
        rewrite (bool_decide_false (t = u)) by congruence. done.
      * rewrite (bool_decide_false (is_Some _)) by done.
        destruct (decide (t = u)) as [->|Hne].
        -- rewrite (bool_decide_true (u = u)) by done. cbn [orb].
           destruct (counts !! u) eqn:Eu; [by destruct Hs|].
           destruct (pc u) as [n|] eqn:En; [by rewrite lookup_insert_eq|]. rewrite Eu.
           by destruct (bool_decide (u ∈ ts)).
        -- rewrite (bool_decide_false (t = u)) by done. cbn [orb].
           destruct (pc u); [by rewrite lookup_insert_ne by done|done].
    + intros v n. destruct (bool_decide (is_Some _)); [apply Hc|]. destruct (pc u) eqn:En; [|apply Hc].
      intros [[-> ->]|[_ ?]]%lookup_insert_Some; [done|by apply Hc].
Qed.

Lemma set_assignments_other ids : ∀ assigns ms mid,
  mid ∉ ids → set_assignments ids assigns ms !! mid = ms !! mid.
Proof.
  induction ids as [|i ids IH]; intros [|a assigns] ms mid Hm; cbn [set_assignments]; try done.
  apply not_elem_of_cons in Hm as [Hne Hm]. rewrite IH by done. by apply lookup_alter_ne.
Qed.

Lemma set_assignments_at ids : ∀ assigns ms i mid a,
  NoDup ids → ids !! i = Some mid → assigns !! i = Some a →
  set_assignments ids assigns ms !! mid = set_assignment a <$> ms !! mid.
Proof.
  induction ids as [|j ids IH]; intros [|b assigns] ms i mid a Hnd Hi Ha; try done.
  apply NoDup_cons in Hnd as [Hj Hnd]. cbn [set_assignments]. destruct i as [|i]; cbn in Hi, Ha.
  - injection Hi as ->. injection Ha as ->. rewrite set_assignments_other by done.
    by rewrite lookup_alter_eq.
  - rewrite (IH _ _ i mid a) by done. rewrite lookup_alter_ne; [done|].
    intros <-. by apply list_elem_of_lookup_2 in Hi.
Qed.

Lemma concat_lookup_unique {A} (ls : list (list A)) i j x y z :
  NoDup (concat ls) → ls !! i = Some x → ls !! j = Some y → z ∈ x → z ∈ y → i = j.
Proof.
  revert i j. induction ls as [|l ls IH]; intros i j Hnd Hi Hj Hx Hy; [done|].
  cbn [concat] in Hnd. apply NoDup_app in Hnd as (_ & Hd & Hnd).
  assert (Hc : ∀ k w, ls !! k = Some w → z ∈ w → z ∈ concat ls).
  { intros k w Hk Hz. apply list_elem_of_In, in_concat. exists w.
    split; apply list_elem_of_In; [by eapply list_elem_of_lookup_2|done]. }
  destruct i as [|i], j as [|j]; cbn in Hi, Hj; simplify_eq; [done| | |].
  - exfalso. by eapply Hd; eauto.
  - exfalso. by eapply Hd; eauto.
  - f_equal. by eapply IH.
Qed.

Lemma concat_lookup_NoDup {A} (ls : list (list A)) i x : NoDup (concat ls) → ls !! i = Some x → NoDup x.
Proof.
  revert i. induction ls as [|l ls IH]; intros i Hnd Hi; [done|].
  cbn [concat] in Hnd. apply NoDup_app in Hnd as (Hl & _ & Hnd).
  destruct i; cbn in Hi; [by simplify_eq|by eapply IH].
Qed.

Section coordinator.
Context `{IterOrder}.

(** The members in iteration order. *)
Definition member_values (ms : gmap string Member) : list Member := map snd (reorder (map_to_list ms)).

Lemma member_values_elem ms m : m ∈ member_values ms ↔ ∃ mid, ms !! mid = Some m.
Proof.
  unfold member_values. rewrite list_elem_of_fmap. split.
  - intros ([mid m'] & -> & Hin). rewrite reorder_perm in Hin. apply elem_of_map_to_list in Hin. eauto.
  - intros [mid Hm]. exists (mid, m). split; [done|]. rewrite reorder_perm. by apply elem_of_map_to_list.
Qed.

Lemma member_values_ids ms :
  members_ok ms → map member_id (member_values ms) = map fst (reorder (map_to_list ms)).
Proof.
  intros Hok. unfold member_values. rewrite map_map. apply map_ext_in.
  intros [mid m] Hin%list_elem_of_In. rewrite reorder_perm in Hin. apply elem_of_map_to_list in Hin.
  by apply Hok.
Qed.

Lemma member_values_NoDup ms : members_ok ms → NoDup (map member_id (member_values ms)).
Proof. intros Hok. rewrite member_values_ids by done. rewrite reorder_perm. apply NoDup_fst_map_to_list. Qed.

(** What [reassign] does: every member keeps everything but its assignment,
    which is its entry of the sticky assignment. *)
Lemma reassign_members pc g :
  members_ok (members g) → members g ≠ ∅ →
  let vs := member_values (members g) in
  let counts := collect_counts pc (concat (map topics vs)) ∅ in
  let assigns := sticky_assign_multi (map member_id vs) (map topics vs) counts (map assignment vs) in
  length assigns = length vs ∧
  (∀ i m a, vs !! i = Some m → assigns !! i = Some a →
     members (reassign pc g) !! member_id m = Some (set_assignment a m)) ∧
  (∀ mid, members g !! mid = None → members (reassign pc g) !! mid = None).
Proof.
  intros Hok Hne vs counts assigns. unfold reassign. rewrite bool_decide_false by done.
  fold (member_values (members g)). fold vs. fold counts. fold assigns.
  pose proof (member_values_NoDup _ Hok) as Hnd. fold vs in Hnd. cbn [members with_members].
  assert (Hl : length assigns = length vs).
  { destruct (sticky_assign_multi_ok (map member_id vs) (map topics vs) counts (map assignment vs))
      as (Hl & _); [by rewrite !length_map|]. unfold assigns. by rewrite Hl, length_map. }
  split; [done|]. split.
  - intros i m a Hm Ha. rewrite (set_assignments_at _ _ _ i _ a); [|done|by rewrite list_lookup_fmap, Hm|done].
    assert (Hin : ∃ mid, members g !! mid = Some m) by (apply member_values_elem; by eapply list_elem_of_lookup_2).
    destruct Hin as [mid Hmid]. rewrite (Hok _ _ Hmid), Hmid. done.
  - intros mid Hno. rewrite set_assignments_other; [done|].
    intros (m & -> & (mid' & Hm')%member_values_elem)%list_elem_of_fmap.
    rewrite (Hok _ _ Hm') in Hno. congruence.
Qed.

Lemma reassign_generation pc g : generation (reassign pc g) = generation g.
Proof. unfold reassign. by case_bool_decide. Qed.

Lemma reassign_group_id pc g : group_id (reassign pc g) = group_id g.
Proof. unfold reassign. by case_bool_decide. Qed.

Lemma reassign_lookup pc g mid :
  members_ok (members g) →
  match members g !! mid with
  | Some m => ∃ a, members (reassign pc g) !! mid = Some (set_assignment a m)
  | None => members (reassign pc g) !! mid = None
  end.
Proof.
  intros Hok. destruct (members g !! mid) as [m|] eqn:Em.
  - destruct (reassign_members pc g Hok) as (Hl & Hat & _); [by intros E; rewrite E in Em|].
    assert (Hin : m ∈ member_values (members g)) by (apply member_values_elem; eauto).
    apply list_elem_of_lookup in Hin as [i Hi].
    destruct (lookup_lt_is_Some_2 (sticky_assign_multi (map member_id (member_values (members g)))
       (map topics (member_values (members g)))
       (collect_counts pc (concat (map topics (member_values (members g)))) ∅)
       (map assignment (member_values (members g)))) i) as [a Ha].
    { rewrite Hl. by eapply lookup_lt_Some. }
    exists a. rewrite <- (Hok _ _ Em). by eapply Hat.
  - destruct (decide (members g = ∅)) as [E|Hne].
    + unfold reassign. by rewrite bool_decide_true.
    + by apply reassign_members.
Qed.

Lemma reassign_ok pc g : members_ok (members g) → members_ok (members (reassign pc g)).
Proof.
  intros Hok mid m Hm. pose proof (reassign_lookup pc g mid Hok) as Hl.
  destruct (members g !! mid) as [m0|] eqn:E; [|congruence].
  destruct Hl as [a Ha]. rewrite Ha in Hm. injection Hm as <-. cbn. by apply Hok.
Qed.

Lemma reassign_empty pc g :
  members_ok (members g) → members (reassign pc g) = ∅ ↔ members g = ∅.
Proof.
  intros Hok. split; intros E; [|by unfold reassign; rewrite bool_decide_true].
  apply map_empty. intros mid. pose proof (reassign_lookup pc g mid Hok) as Hl.
  destruct (members g !! mid); [|done]. destruct Hl as [a Ha]. by rewrite E in Ha.
Qed.

(** The new member at a position of the iteration order. *)
Lemma reassign_inv pc g mid m' :
  members_ok (members g) → members (reassign pc g) !! mid = Some m' →
  let vs := member_values (members g) in
  let counts := collect_counts pc (concat (map topics vs)) ∅ in
  ∃ i m, vs !! i = Some m ∧ members g !! mid = Some m ∧
    sticky_assign_multi (map member_id vs) (map topics vs) counts (map assignment vs) !! i =
      Some (assignment m') ∧ topics m' = topics m.
Proof.
  intros Hok Hm' vs counts. pose proof (reassign_lookup pc g mid Hok) as Hl.
  destruct (members g !! mid) as [m|] eqn:Em; [|congruence].
  destruct (reassign_members pc g Hok) as (Hlen & Hat & _); [by intros E; rewrite E in Em|].
  fold vs in Hlen, Hat. fold counts in Hlen, Hat.
  assert (Hin : m ∈ vs) by (apply member_values_elem; eauto).
  apply list_elem_of_lookup in Hin as [i Hi]. set (assigns := sticky_assign_multi _ _ _ _) in *.
  destruct (lookup_lt_is_Some_2 assigns i) as [a Ha]; [rewrite Hlen; by eapply lookup_lt_Some|].
  exists i, m. split; [done|]. split; [done|]. specialize (Hat i m a Hi Ha).
  rewrite (Hok _ _ Em), Hm' in Hat. injection Hat as ->. done.
Qed.

Lemma collect_counts_known pc vs t n :
  collect_counts pc (concat (map topics vs)) ∅ !! t = Some n →
  pc t = Some n ∧ ∃ m, m ∈ vs ∧ t ∈ topics m.
Proof.
  rewrite collect_counts_lookup by (intros u k; by rewrite lookup_empty). rewrite lookup_empty.
  case_bool_decide as Ht; [|done]. intros Hn. split; [done|].
  apply list_elem_of_In, in_concat in Ht as (ts & Hts & Ht).
  apply list_elem_of_In, list_elem_of_fmap in Hts as (m & -> & Hm). exists m.
  split; [done|by apply list_elem_of_In].
Qed.

Lemma collect_counts_known_2 pc vs t n m :
  pc t = Some n → m ∈ vs → t ∈ topics m → collect_counts pc (concat (map topics vs)) ∅ !! t = Some n.
Proof.
  intros Hn Hm Ht. rewrite collect_counts_lookup by (intros u k; by rewrite lookup_empty).
  rewrite lookup_empty, bool_decide_true; [done|]. apply list_elem_of_In, in_concat. exists (topics m).
  split; [|by apply list_elem_of_In]. apply list_elem_of_In, list_elem_of_fmap. eauto.
Qed.

Lemma reassign_assigned pc g :
  members_ok (members g) → group_assigned pc (members (reassign pc g)).
Proof.
  intros Hok. set (vs := member_values (members g)).
  set (counts := collect_counts pc (concat (map topics vs)) ∅).
  destruct (sticky_assign_multi_ok (map member_id vs) (map topics vs) counts (map assignment vs))
    as (Hlen & Hnd & Hin & Hsub); [by rewrite !length_map|].
  pose proof (λ mid m', reassign_inv pc g mid m' Hok) as Hinv. cbv zeta in Hinv.
  fold vs in Hinv. fold counts in Hinv. set (assigns := sticky_assign_multi _ _ _ _) in *.
  assert (Hcat : ∀ i a tp, assigns !! i = Some a → tp ∈ a → tp ∈ concat assigns).
  { intros i a tp Ha Htp. apply list_elem_of_In, in_concat. exists a.
    split; apply list_elem_of_In; [by eapply list_elem_of_lookup_2|done]. }
  constructor.
  - intros mid m' t p Hm' Htp. destruct (Hinv _ _ Hm') as (i & m & Hi & Hm & Ha & ->).
    destruct (Hsub i _ t p Ha Htp) as (mt & Hmt & Ht). rewrite list_lookup_fmap, Hi in Hmt.
    injection Hmt as <-. split; [done|].
    destruct (proj1 (Hin t p) (Hcat _ _ _ Ha Htp)) as [_ (n & Hn & Hp)].
    apply collect_counts_known in Hn as [? _]. eauto.
  - intros mid m' t p n Hm' Ht Hn Hp. destruct (Hinv _ _ Hm') as (i & m & Hi & Hm & _ & Htop).
    rewrite Htop in Ht. assert (Hc : (t, p) ∈ concat assigns).
    { apply Hin. split.
      - exists i, (topics m). split; [by rewrite list_lookup_fmap, Hi|done].
      - exists n. split; [|done]. eapply collect_counts_known_2; [done|by eapply list_elem_of_lookup_2|done]. }
    apply list_elem_of_In, in_concat in Hc as (a & Ha & Htp).
    apply list_elem_of_In, list_elem_of_lookup in Ha as [j Hj]. apply list_elem_of_In in Htp.
    destruct (lookup_lt_is_Some_2 vs j) as [m2 Hm2].
    { rewrite <- (length_map topics), <- Hlen. by eapply lookup_lt_Some. }
    destruct (reassign_members pc g Hok) as (_ & Hat & _); [by intros E; rewrite E in Hm|].
    specialize (Hat j m2 a Hm2 Hj). eauto.
  - intros mid1 m1 mid2 m2 tp H1 H2 Htp1 Htp2.
    destruct (Hinv _ _ H1) as (i & n1 & Hi & Hm1 & Ha1 & _).
    destruct (Hinv _ _ H2) as (j & n2 & Hj & Hm2 & Ha2 & _).
    assert (i = j) as -> by (by eapply concat_lookup_unique).
    rewrite Hi in Hj. injection Hj as ->. apply Hok in Hm1, Hm2. congruence.
  - intros mid m' Hm'. destruct (Hinv _ _ Hm') as (i & m & _ & _ & Ha & _).
    by eapply concat_lookup_NoDup.
Qed.

(** ** Join *)

Lemma group_assigned_ext pc ms ms' :
  (∀ mid, (λ m, (topics m, assignment m)) <$> ms' !! mid = (λ m, (topics m, assignment m)) <$> ms !! mid) →
  group_assigned pc ms → group_assigned pc ms'.
Proof.
  intros E [G1 G2 G3 G4].
  assert (Hto : ∀ mid m', ms' !! mid = Some m' →
            ∃ m, ms !! mid = Some m ∧ topics m' = topics m ∧ assignment m' = assignment m).
  { intros mid m' Hm'. specialize (E mid). rewrite Hm' in E. destruct (ms !! mid) as [m|]; [|done].
    injection E as ??. eauto. }
  assert (Hfrom : ∀ mid m, ms !! mid = Some m → ∃ m', ms' !! mid = Some m' ∧ assignment m' = assignment m).
  { intros mid m Hm. specialize (E mid). rewrite Hm in E. destruct (ms' !! mid) as [m'|]; [|done].
    injection E as ??. eauto. }
  constructor.
  - intros mid m' t p (m & Hm & -> & ->)%Hto. by apply (G1 mid).
  - intros mid m' t p n (m & Hm & -> & _)%Hto Ht Hn Hp.
    destruct (G2 mid m t p n) as (mid2 & m2 & Hm2 & Hin); [done..|].
    destruct (Hfrom _ _ Hm2) as (m2' & ? & E2). exists mid2, m2'. by rewrite E2.
  - intros mid1 m1 mid2 m2 tp (n1 & H1 & _ & ->)%Hto (n2 & H2 & _ & ->)%Hto. by apply (G3 mid1 n1 mid2 n2).
  - intros mid m' (m & Hm & _ & ->)%Hto. by apply (G4 mid).
Qed.

Lemma members_ok_alter f mid ms :
  (∀ m, member_id (f m) = member_id m) → members_ok ms → members_ok (alter f mid ms).
Proof.
  intros Hf Hok k m Hm. destruct (decide (mid = k)) as [->|Hne].
  - rewrite lookup_alter_eq in Hm. destruct (ms !! k) as [m0|] eqn:E; [|done].
    injection Hm as <-. rewrite Hf. by apply Hok.
  - rewrite lookup_alter_ne in Hm by done. by apply Hok.
Qed.

Lemma members_ok_insert mid m ms : member_id m = mid → members_ok ms → members_ok (<[mid := m]> ms).
Proof. intros Hm Hok k x [[<- <-]|[_ ?]]%lookup_insert_Some; [done|by apply Hok]. Qed.

Lemma group_assigned_delivered pc d mid ms :
  group_assigned pc ms → group_assigned pc (alter (set_delivered d) mid ms).
Proof.
  apply group_assigned_ext. intros k. destruct (decide (mid = k)) as [->|Hne].
  - rewrite lookup_alter_eq. by destruct (ms !! k).
  - by rewrite lookup_alter_ne.
Qed.

(** The group as a completed Join of [rq] leaves it, with the reply [r]. *)
Record joined (rq : JoinRequest) (r : JoinResult) (g' : Group) (m' : Member) : Prop := {
  jd_member : members g' !! jr_member_id r = Some m';
  jd_generation : jr_generation r = generation g';
  jd_assignment : jr_assignment r = assignment m';
  jd_delivered : delivered m' = assignment m';
  jd_topics : topics m' = rq_topics rq;
  jd_members : jr_members r = live_member_ids g';
  jd_ok : members_ok (members g');
}.

Lemma rejoin_spec now rq pc changed m g r g' :
  members_ok (members g) → members g !! resolved_id rq = Some m →
  rejoin now rq pc changed m g = (r, g') →
  ∃ m', joined rq r g' m' ∧ jr_error_code r = 0 ∧ jr_member_id r = resolved_id rq ∧
    group_id g' = group_id g ∧ jr_revoked r = partition_diff (delivered m) (assignment m') ∧
    (if changed
     then generation g' = u32_wrapping_add (generation g) 1 ∧ group_assigned pc (members g')
     else generation g' = generation g ∧ assignment m' = assignment m ∧
          ∀ k, k ≠ resolved_id rq → members g' !! k = members g !! k).
Proof.
  intros Hok Hm. unfold rejoin. set (mid := resolved_id rq) in *.
  set (m1 := mkMember _ _ _ _ _ _ _). set (g1 := with_members g _).
  assert (Hok1 : members_ok (members g1)).
  { apply members_ok_insert; [|done]. cbn. by apply Hok. }
  assert (H1 : members g1 !! mid = Some m1) by apply lookup_insert_eq.
  destruct changed.
  - pose proof (reassign_lookup pc (bump g1) mid Hok1) as Hl. cbn [bump members] in Hl.
    rewrite H1 in Hl. destruct Hl as [a Ha]. rewrite Ha. cbn [fmap option_fmap option_map default].
    intros [= <- <-]. exists (set_delivered a (set_assignment a m1)). split.
    { constructor; cbn; [|done..|].
      - by rewrite lookup_alter_eq, Ha.
      - apply members_ok_alter; [done|]. by apply reassign_ok. }
    do 2 (split; [done|]). split; [cbn; by rewrite reassign_group_id|]. split; [done|].
    split; [cbn; by rewrite reassign_generation|].
    apply group_assigned_delivered, reassign_assigned, Hok1.
  - rewrite H1. cbn [fmap option_fmap option_map default]. intros [= <- <-].
    exists (set_delivered (assignment m) m1). split.
    { constructor; cbn [members with_members jr_member_id jr_generation jr_assignment jr_members]; try done.
      - rewrite lookup_alter_eq. by rewrite lookup_insert_eq.
      - by apply members_ok_alter. }
    do 4 (split; [done|]). split; [done|]. split; [done|]. intros k Hk. cbn [members with_members].
    rewrite lookup_alter_ne by done. by apply lookup_insert_ne.
Qed.

Lemma join_new_spec now uuid rq pc co r co' :
  (∀ g, groups co !! rq_group_id rq = Some g → members_ok (members g)) →
  join_new now uuid rq pc co = (r, co') →
  ∃ g' m', joined rq r g' m' ∧ jr_error_code r = 0 ∧ jr_revoked r = [] ∧
    group_id g' = default (rq_group_id rq) (group_id <$> groups co !! rq_group_id rq) ∧
    generation g' = u32_wrapping_add (default 0 (generation <$> groups co !! rq_group_id rq)) 1 ∧
    group_assigned pc (members g') ∧ co' = with_group co (rq_group_id rq) g'.
Proof.
  intros Hok. unfold join_new. set (mid := if String.eqb _ _ then uuid else _).
  set (g := default (mkGroup _ 0 ∅) _). set (m := mkMember mid _ _ _ _ _ _). set (g1 := with_members g _).
  assert (Hok1 : members_ok (members g1)).
  { apply members_ok_insert; [done|]. unfold g. destruct (groups co !! _) eqn:E; [by apply Hok|done]. }
  assert (H1 : members g1 !! mid = Some m) by apply lookup_insert_eq.
  pose proof (reassign_lookup pc (bump g1) mid Hok1) as Hl. cbn [bump members] in Hl.
  rewrite H1 in Hl. destruct Hl as [a Ha]. rewrite Ha. cbn [fmap option_fmap option_map default].
  intros [= <- <-]. set (g2 := reassign pc (bump g1)) in *.
  exists (with_members g2 (alter (set_delivered a) mid (members g2))), (set_delivered a (set_assignment a m)).
  split.
  { constructor; cbn; [by rewrite lookup_alter_eq, Ha|done..|].
    apply members_ok_alter; [done|]. by apply reassign_ok. }
  do 2 (split; [done|]).
  split; [unfold g2; cbn; rewrite reassign_group_id; unfold g1, g; by destruct (groups co !! _)|].
  split; [unfold g2; cbn; rewrite reassign_generation; unfold g1, g; by destruct (groups co !! _)|].
  split; [|done]. apply group_assigned_delivered, reassign_assigned, Hok1.
Qed.

Record group_ok (gid : string) (g : Group) : Prop := {
  go_id : group_id g = gid;
  go_members : members_ok (members g);
  go_nonempty : members g ≠ ∅;
  go_generation : 0 ≤ generation g ≤ u32_max;
}.

Definition groups_ok (gs : gmap string Group) : Prop := ∀ gid g, gs !! gid = Some g → group_ok gid g.

(** A Join that ends with groups [gs] under the lock: refused at the fence
    with nothing changed, or completed in one of three ways: a member with the
    same topics refreshed, a member with new topics, a new member; the last
    two rebalance, and only when every live member had confirmed the
    generation. *)
Definition join_post (pc : string → option nat) (rq : JoinRequest) (gs : gmap string Group)
    (r : JoinResult) (gs' : gmap string Group) : Prop :=
  let gid := rq_group_id rq in
  (jr_error_code r = RebalanceInProgress ∧ group_ready gs gid = false ∧ gs' = gs ∧ jr_assignment r = []) ∨
  (jr_error_code r = 0 ∧ ∃ g' m', gs' = <[gid := g']> gs ∧ group_ok gid g' ∧ joined rq r g' m' ∧
    ((∃ g m, gs !! gid = Some g ∧ members g !! jr_member_id r = Some m ∧ topics m = rq_topics rq ∧
        generation g' = generation g ∧ assignment m' = assignment m ∧
        jr_revoked r = partition_diff (delivered m) (assignment m') ∧
        (∀ k, k ≠ jr_member_id r → members g' !! k = members g !! k)) ∨
     (group_ready gs gid = true ∧ group_assigned pc (members g') ∧
      generation g' = u32_wrapping_add (default 0 (generation <$> gs !! gid)) 1 ∧
      ((∃ g m, gs !! gid = Some g ∧ members g !! jr_member_id r = Some m ∧
          jr_revoked r = partition_diff (delivered m) (assignment m')) ∨
       jr_revoked r = [])))).

Lemma wrapping_range z : 0 ≤ u32_wrapping_add z 1 ≤ u32_max.
Proof. unfold u32_wrapping_add, as_u32, u32_max. pose proof (Z.mod_pos_bound (z + 1) 4294967296). lia. Qed.

Lemma joined_nonempty rq r g' m' : joined rq r g' m' → members g' ≠ ∅.
Proof. intros J E. pose proof (jd_member _ _ _ _ J) as Hm. by rewrite E in Hm. Qed.

Lemma join_second_spec now uuid rq pc co synced r co' :
  groups_ok (groups co) → (synced = group_ready (groups co) (rq_group_id rq)) →
  join_second now uuid rq pc co synced = (JoinDone r, co') →
  join_post pc rq (groups co) r (groups co') ∧
  join_waiters co' = join_waiters co ∧ offsets co' = offsets co.
Proof.
  intros Hok Hs. unfold join_second. destruct synced.
  - destruct (join_new now uuid rq pc co) as [r1 co1] eqn:E. intros [= <- <-].
    destruct (join_new_spec _ _ _ _ _ _ _ (λ g Hg, go_members _ _ (Hok _ g Hg)) E)
      as (g' & m' & J & Hc & Hr & Hid & Hgen & Ha & ->).
    split; [|done]. right. split; [done|]. exists g', m'. split; [done|]. split; [|split; [done|]].
    + constructor; [|apply J|by eapply joined_nonempty|rewrite Hgen; apply wrapping_range].
      rewrite Hid. destruct (groups co !! _) as [g|] eqn:Eg; [|done]. by apply Hok.
    + right. eauto 10.
  - intros [= <- <-]. split; [|done]. left. unfold fenced_join_lookup.
    unfold group_ready in Hs |- *. destruct (groups co !! _); [|done]. by rewrite <- Hs.
Qed.

(** At an open fence a Join does not park. *)
Lemma join_fence_ready now uuid rq pc co :
  group_ready (groups co) (rq_group_id rq) = true →
  join_fence now uuid rq pc co = join_second now uuid rq pc co true.
Proof. intros Hr. unfold join_fence, park_enter. by rewrite Hr. Qed.

Lemma join_first_spec now uuid rq pc changed co synced r co' :
  groups_ok (groups co) →
  (changed = true → synced = group_ready (groups co) (rq_group_id rq)) →
  (changed = false → synced = true ∧ ∃ g m, groups co !! rq_group_id rq = Some g ∧
     members g !! resolved_id rq = Some m ∧ topics m = rq_topics rq) →
  join_first now uuid rq pc changed co synced = (JoinDone r, co') →
  join_post pc rq (groups co) r (groups co') ∧
  join_waiters co' = join_waiters co ∧ offsets co' = offsets co.
Proof.
  intros Hok Hch Hsame. unfold join_first. destruct synced.
  2: { intros [= <- <-]. split; [|done]. left. destruct changed; [|by destruct (Hsame eq_refl)].
       specialize (Hch eq_refl). unfold fenced_join_lookup. unfold group_ready in Hch |- *.
       destruct (groups co !! _); [|done]. by rewrite <- Hch. }
  destruct (groups co !! rq_group_id rq) as [g|] eqn:Eg.
  2: { destruct changed; [|by destruct (Hsame eq_refl) as (_ & ? & ? & ? & _)].
       rewrite join_fence_ready by (by rewrite <- Hch). by apply join_second_spec; [|apply Hch]. }
  destruct (members g !! resolved_id rq) as [m|] eqn:Em.
  2: { destruct changed; [|destruct (Hsame eq_refl) as (_ & ? & ? & ? & ? & _); congruence].
       rewrite join_fence_ready by (by rewrite <- Hch). by apply join_second_spec; [|apply Hch]. }
  pose proof (Hok _ _ Eg) as Gok.
  destruct (rejoin now rq pc changed m g) as [r1 g1] eqn:E. intros [= <- <-].
  destruct (rejoin_spec _ _ _ _ _ _ _ _ (go_members _ _ Gok) Em E)
    as (m' & J & Hc & Hid & Hgid & Hr & Hrest).
  split; [|done]. right. split; [done|]. exists g1, m'. split; [done|].
  assert (Hgok : group_ok (rq_group_id rq) g1).
  { constructor; [rewrite Hgid; apply Gok|apply J|by eapply joined_nonempty|].
    destruct changed; destruct Hrest as [-> _]; [apply wrapping_range|apply Gok]. }
  split; [done|]. split; [done|]. rewrite Hid. destruct changed.
  - right. split; [by rewrite <- Hch|]. destruct Hrest as [Hgen Ha]. split; [done|].
    rewrite Eg. split; [done|]. left. eauto.
  - left. destruct Hrest as (Hgen & Ha & Hk). exists g, m.
    destruct (Hsame eq_refl) as (_ & g0 & m0 & Hg0 & Hm0 & Ht). simplify_eq. auto 10.
Qed.

Definition waiters_pos (ws : gmap string Z) : Prop := ∀ gid n, ws !! gid = Some n → 0 < n.

Lemma dec_inc ws gid : waiters_pos ws → dec_join_waiters (inc_join_waiters ws gid) gid = ws.
Proof.
  intros Hp. unfold dec_join_waiters, inc_join_waiters. rewrite lookup_insert_eq.
  destruct (ws !! gid) as [n|] eqn:E; cbn.
  - specialize (Hp _ _ E). rewrite Zltb_true by lia. rewrite insert_insert_eq.
    rewrite Z.add_simpl_r. by apply insert_id.
  - change (1 <? 0 + 1) with false. cbn. by apply delete_insert_id.
Qed.

Lemma park_enter_spec now co rq res deadline co' :
  waiters_pos (join_waiters co) → park_enter now co rq = (res, deadline, co') →
  match res with
  | Some b => b = group_ready (groups co) (rq_group_id rq) ∧ co' = co
  | None => group_ready (groups co) (rq_group_id rq) = false ∧
      co' = with_waiters co (inc_join_waiters (join_waiters co) (rq_group_id rq))
  end.
Proof.
  intros Hp. unfold park_enter, park_turn. cbn [groups with_waiters].
  destruct (group_ready (groups co) (rq_group_id rq)); [by intros [= <- _ <-]|].
  destruct (_ <=? now); intros [= <- _ <-]; [|done]. split; [done|].
  unfold with_waiters. cbn. rewrite dec_inc by done. by destruct co.
Qed.

Definition join_outcome (pc : string → option nat) (rq : JoinRequest) (co : GroupCoordinator)
    (out : JoinOutcome) (co' : GroupCoordinator) : Prop :=
  match out with
  | JoinDone r => join_post pc rq (groups co) r (groups co') ∧
      join_waiters co' = join_waiters co ∧ offsets co' = offsets co
  | JoinParked w => w_request w = rq ∧ group_ready (groups co) (rq_group_id rq) = false ∧
      co' = with_waiters co (inc_join_waiters (join_waiters co) (rq_group_id rq))
  end.

(** A fence whose value was read under the same lock does not park again. *)
Lemma join_first_done now uuid rq pc changed co synced :
  (changed = true → synced = group_ready (groups co) (rq_group_id rq)) →
  (changed = false → ∃ g m, groups co !! rq_group_id rq = Some g ∧ members g !! resolved_id rq = Some m) →
  ∃ r co', join_first now uuid rq pc changed co synced = (JoinDone r, co').
Proof.
  intros Hch Hsame. unfold join_first. destruct synced; [|eauto].
  assert (Hnew : changed = true → ∃ r co', join_fence now uuid rq pc co = (JoinDone r, co')).
  { intros ->. rewrite join_fence_ready by (by rewrite <- Hch). unfold join_second.
    destruct (join_new _ _ _ _ _). eauto. }
  destruct (groups co !! rq_group_id rq) as [g|] eqn:Eg.
  2: { destruct changed; [by apply Hnew|]. by destruct (Hsame eq_refl) as (? & ? & ? & _). }
  destruct (members g !! resolved_id rq) as [m|] eqn:Em.
  - destruct (rejoin _ _ _ _ _ _). eauto.
  - destruct changed; [by apply Hnew|]. destruct (Hsame eq_refl) as (? & ? & ? & ?). congruence.
Qed.

Lemma join_fence_spec now uuid rq pc co out co' :
  groups_ok (groups co) → waiters_pos (join_waiters co) →
  join_fence now uuid rq pc co = (out, co') → join_outcome pc rq co out co'.
Proof.
  intros Hok Hp. unfold join_fence. destruct (park_enter now co rq) as [[res dl] co1] eqn:Ep.
  apply (park_enter_spec _ _ _ _ _ _ Hp) in Ep. destruct res as [b|].
  - destruct Ep as [Hb ->]. destruct out as [r|w]; [by apply join_second_spec|].
    unfold join_second. destruct b; [by destruct (join_new _ _ _ _ _)|done].
  - destruct Ep as [Hr ->]. by intros [= <- <-].
Qed.

Lemma join_locked_spec now uuid rq pc co out co' :
  groups_ok (groups co) → waiters_pos (join_waiters co) →
  join_locked now uuid rq pc co = (out, co') → join_outcome pc rq co out co'.
Proof.
  intros Hok Hp. unfold join_locked.
  destruct (if String.eqb _ _ then None else _) as [m|] eqn:Ee; [|by apply join_fence_spec].
  destruct (String.eqb (resolved_id rq) ""); [done|].
  apply bind_Some in Ee as (g & Hg & Hm).
  assert (Hex : ∃ g m, groups co !! rq_group_id rq = Some g ∧ members g !! resolved_id rq = Some m) by eauto.
  case_bool_decide as Ht; cbn [negb].
  - intros E. destruct (join_first_done now uuid rq pc false co true) as (r & co1 & E1); [done|done|].
    rewrite E1 in E. injection E as <- <-. eapply join_first_spec; [exact Hok| | |exact E1]; [done|]. eauto 10.
  - destruct (park_enter now co rq) as [[res dl] co1] eqn:Ep.
    apply (park_enter_spec _ _ _ _ _ _ Hp) in Ep. destruct res as [b|].
    + destruct Ep as [Hb ->]. intros E.
      destruct (join_first_done now uuid rq pc true co b) as (r & co1 & E1); [done|done|].
      rewrite E1 in E. injection E as <- <-. by eapply join_first_spec; [exact Hok| | |exact E1].
    + destruct Ep as [Hr ->]. by intros [= <- <-].
Qed.

Lemma join_resume_spec now uuid pc timed_out w co out co' :
  groups_ok (groups co) → join_resume now uuid pc timed_out w co = (out, co') →
  match out with
  | JoinDone r => join_post pc (w_request w) (groups co) r (groups co') ∧
      join_waiters co' = dec_join_waiters (join_waiters co) (rq_group_id (w_request w)) ∧
      offsets co' = offsets co
  | JoinParked w' => w' = w ∧ co' = co ∧ timed_out = false ∧
      group_ready (groups co) (rq_group_id (w_request w)) = false ∧ now < w_deadline w
  end.
Proof.
  intros Hok. unfold join_resume, park_turn. set (rq := w_request w). set (gid := rq_group_id rq).
  assert (Hturn : ∀ synced, synced = group_ready (groups co) gid →
    (if w_rejoin w then join_first now uuid rq pc true (with_waiters co (dec_join_waiters (join_waiters co) gid)) synced
     else join_second now uuid rq pc (with_waiters co (dec_join_waiters (join_waiters co) gid)) synced) = (out, co') →
    ∃ r, out = JoinDone r ∧ join_post pc rq (groups co) r (groups co') ∧
      join_waiters co' = dec_join_waiters (join_waiters co) gid ∧ offsets co' = offsets co).
  { intros synced Hs E. set (co1 := with_waiters co _) in E. destruct (w_rejoin w).
    - destruct (join_first_done now uuid rq pc true co1 synced) as (r & co2 & E1); [done|done|].
      rewrite E1 in E. injection E as <- <-. exists r. split; [done|].
      by apply (join_first_spec _ _ _ _ _ co1) in E1.
    - destruct out as [r|w']; [exists r; split; [done|]; by apply join_second_spec in E|].
      unfold join_second in E. destruct synced; [by destruct (join_new _ _ _ _ _)|done]. }
  destruct timed_out; [|destruct (group_ready (groups co) gid) eqn:Er].
  - intros (r & -> & ?)%Hturn; done.
  - intros (r & -> & ?)%Hturn; done.
  - destruct (Z.leb_spec (w_deadline w) now); [intros (r & -> & ?)%Hturn; done|].
    intros [= <- <-]. done.
Qed.

(** ** The other operations keep the groups well formed *)

(** Members that stay keep their id and their assignment. *)
Definition sub_members (ms' ms : gmap string Member) : Prop :=
  ∀ mid m', ms' !! mid = Some m' →
    ∃ m, ms !! mid = Some m ∧ member_id m' = member_id m ∧ assignment m' = assignment m.

Definition members_disjoint (ms : gmap string Member) : Prop :=
  ∀ mid1 m1 mid2 m2 tp, ms !! mid1 = Some m1 → ms !! mid2 = Some m2 →
    tp ∈ assignment m1 → tp ∈ assignment m2 → mid1 = mid2.

Lemma assigned_disjoint pc ms : group_assigned pc ms → members_disjoint ms.
Proof. intros G mid1 m1 mid2 m2 tp. apply (ga_disjoint _ _ G). Qed.

Definition groups_disjoint (gs : gmap string Group) : Prop :=
  ∀ gid g, gs !! gid = Some g → members_disjoint (members g).

Lemma sub_members_ok ms' ms : sub_members ms' ms → members_ok ms → members_ok ms'.
Proof. intros Hs Hok mid m' (m & Hm & -> & _)%Hs. by apply Hok. Qed.

Lemma sub_members_disjoint ms' ms : sub_members ms' ms → members_disjoint ms → members_disjoint ms'.
Proof.
  intros Hs Hd mid1 m1 mid2 m2 tp (n1 & H1 & _ & ->)%Hs (n2 & H2 & _ & ->)%Hs. by apply (Hd mid1 n1 mid2 n2).
Qed.

Lemma retain_alive_sub now ms : sub_members (retain_alive now ms) ms.
Proof. intros mid m [Hm _]%map_lookup_filter_Some. eauto. Qed.

Lemma filter_nonempty_lookup (gs : gmap string Group) gid g :
  filter (λ kv, members kv.2 ≠ ∅) gs !! gid = Some g ↔ gs !! gid = Some g ∧ members g ≠ ∅.
Proof. by rewrite map_lookup_filter_Some. Qed.

Lemma expire_inner_ok now co :
  groups_ok (groups co) → groups_ok (groups (expire_sessions_inner now co)) ∧
  (groups_disjoint (groups co) → groups_disjoint (groups (expire_sessions_inner now co))).
Proof.
  intros Hok. cbn. split.
  - intros gid g [Hg Hne]%filter_nonempty_lookup. rewrite lookup_fmap in Hg.
    destruct (groups co !! gid) as [g0|] eqn:E; [|done]. injection Hg as <-.
    destruct (Hok _ _ E) as [G1 G2 G3 G4]. constructor; cbn; try done.
    eapply sub_members_ok; [apply retain_alive_sub|done].
  - intros Hd gid g [Hg Hne]%filter_nonempty_lookup. rewrite lookup_fmap in Hg.
    destruct (groups co !! gid) as [g0|] eqn:E; [|done]. injection Hg as <-.
    eapply sub_members_disjoint; [apply retain_alive_sub|by eapply Hd].
Qed.

Lemma expire_group_ok now pc gid g :
  group_ok gid g → members (expire_group now pc g) ≠ ∅ →
  group_ok gid (expire_group now pc g) ∧
  (members_disjoint (members g) → members_disjoint (members (expire_group now pc g))).
Proof.
  intros [G1 G2 G3 G4]. unfold expire_group. set (g1 := with_members g _).
  assert (Hsub : sub_members (members g1) (members g)) by apply retain_alive_sub.
  pose proof (sub_members_ok _ _ Hsub G2) as Hok1.
  case_bool_decide; intros Hne; (split; [constructor|]); try done.
  - by apply sub_members_disjoint.
  - by rewrite reassign_group_id.
  - by apply reassign_ok.
  - rewrite reassign_generation. apply wrapping_range.
  - intros _. eapply assigned_disjoint. by apply (reassign_assigned pc (bump g1)).
Qed.

Lemma expire_ok now pc co :
  groups_ok (groups co) → groups_ok (groups (expire_sessions now pc co)) ∧
  (groups_disjoint (groups co) → groups_disjoint (groups (expire_sessions now pc co))).
Proof.
  intros Hok. cbn. split.
  - intros gid g [Hg Hne]%filter_nonempty_lookup. rewrite lookup_fmap in Hg.
    destruct (groups co !! gid) as [g0|] eqn:E; [|done]. injection Hg as <-.
    by apply expire_group_ok; [apply Hok|].
  - intros Hd gid g [Hg Hne]%filter_nonempty_lookup. rewrite lookup_fmap in Hg.
    destruct (groups co !! gid) as [g0|] eqn:E; [|done]. injection Hg as <-.
    eapply expire_group_ok; [by apply Hok|done|by eapply Hd].
Qed.

(** Replacing one group. *)
Lemma with_group_ok co gid g :
  groups_ok (groups co) → group_ok gid g → groups_ok (groups (with_group co gid g)).
Proof. intros Hok Hg k x. cbn. intros [[<- <-]|[_ ?]]%lookup_insert_Some; [done|by apply Hok]. Qed.

Lemma with_group_disjoint co gid g :
  groups_disjoint (groups co) → members_disjoint (members g) → groups_disjoint (groups (with_group co gid g)).
Proof. intros Hd Hg k x. cbn. intros [[<- <-]|[_ ?]]%lookup_insert_Some; [done|by eapply Hd]. Qed.

Lemma insert_sub mid m m' ms :
  ms !! mid = Some m → member_id m' = member_id m → assignment m' = assignment m →
  sub_members (<[mid := m']> ms) ms.
Proof. intros Hm Hid Ha k x [[<- <-]|[_ ?]]%lookup_insert_Some; eauto. Qed.

Lemma alter_sub f mid ms :
  (∀ m, member_id (f m) = member_id m ∧ assignment (f m) = assignment m) → sub_members (alter f mid ms) ms.
Proof.
  intros Hf k x Hx. destruct (decide (mid = k)) as [->|Hne].
  - rewrite lookup_alter_eq in Hx. destruct (ms !! k) as [m|] eqn:E; [|done]. injection Hx as <-.
    exists m. destruct (Hf m). auto.
  - rewrite lookup_alter_ne in Hx by done. eauto.
Qed.

Lemma heartbeat_ok now gid mid gen co :
  groups_ok (groups co) → groups_ok (groups (heartbeat_locked now gid mid gen co).2) ∧
  (groups_disjoint (groups co) → groups_disjoint (groups (heartbeat_locked now gid mid gen co).2)).
Proof.
  intros Hok. unfold heartbeat_locked. destruct (groups co !! gid) as [g|] eqn:Eg; [|done].
  destruct (members g !! mid) as [m|] eqn:Em; [|done]. destruct (negb _); [done|].
  pose proof (Hok _ _ Eg) as [G1 G2 G3 G4]. cbn [snd].
  set (m' := mkMember _ _ _ _ _ _ _).
  assert (Hs : sub_members (<[mid := m']> (members g)) (members g)) by (by eapply insert_sub).
  split.
  - apply with_group_ok; [done|]. constructor; cbn; try done; [by eapply sub_members_ok|apply insert_non_empty].
  - intros Hd. apply with_group_disjoint; [done|]. eapply sub_members_disjoint; [done|by eapply Hd].
Qed.

Lemma apply_assignments_ok l : ∀ ms, members_ok ms → members_ok (apply_assignments l ms).
Proof.
  induction l as [|[mid a] l IH]; intros ms Hok; cbn [apply_assignments]; [done|].
  apply IH. by apply members_ok_alter.
Qed.

Lemma apply_assignments_some l : ∀ ms mid,
  is_Some (apply_assignments l ms !! mid) ↔ is_Some (ms !! mid).
Proof.
  induction l as [|[k a] l IH]; intros ms mid; cbn [apply_assignments]; [done|].
  rewrite IH. by rewrite lookup_alter_is_Some.
Qed.

Lemma sync_ok now gid mid gen l co :
  groups_ok (groups co) → groups_ok (groups (sync_group_locked now gid mid gen l co).2) ∧
  (l = [] → groups_disjoint (groups co) →
   groups_disjoint (groups (sync_group_locked now gid mid gen l co).2)).
Proof.
  intros Hok. unfold sync_group_locked. destruct (groups co !! gid) as [g|] eqn:Eg; [|done].
  case_bool_decide as Em; [done|]. destruct (negb _); [done|]. cbn [snd].
  pose proof (Hok _ _ Eg) as [G1 G2 G3 G4]. set (confirm := λ m, mkMember _ _ _ _ _ _ _).
  assert (Hm : is_Some (alter confirm mid (apply_assignments l (members g)) !! mid)).
  { rewrite lookup_alter_is_Some. apply apply_assignments_some. by apply not_eq_None_Some. }
  split.
  - apply with_group_ok; [done|]. constructor; cbn; try done.
    + apply members_ok_alter; [done|]. by apply apply_assignments_ok.
    + intros E. rewrite E in Hm. by destruct Hm.
  - intros -> Hd. apply with_group_disjoint; [done|].
    eapply sub_members_disjoint; [by apply alter_sub|by eapply Hd].
Qed.

Lemma delete_sub mid ms : sub_members (delete mid ms) ms.
Proof. intros k x [_ Hx]%lookup_delete_Some. eauto. Qed.

Lemma leave_ok gid mid pc co :
  groups_ok (groups co) → groups_ok (groups (leave gid mid pc co).2) ∧
  (groups_disjoint (groups co) → groups_disjoint (groups (leave gid mid pc co).2)).
Proof.
  intros Hok. unfold leave. destruct (groups co !! gid) as [g|] eqn:Eg; [|done].
  case_bool_decide; [done|]. pose proof (Hok _ _ Eg) as [G1 G2 G3 G4].
  set (g1 := with_members g _).
  assert (Hok1 : members_ok (members g1)) by (eapply sub_members_ok; [apply delete_sub|done]).
  cbn [snd]. case_bool_decide as Ee.
  - split.
    + intros k x. cbn. intros [_ ?]%lookup_delete_Some. by apply Hok.
    + intros Hd k x. cbn. intros [_ ?]%lookup_delete_Some. by eapply Hd.
  - split.
    + apply with_group_ok; [done|]. constructor; [by rewrite reassign_group_id|by apply reassign_ok|done|].
      rewrite reassign_generation. apply wrapping_range.
    + intros Hd. apply with_group_disjoint; [done|]. eapply assigned_disjoint.
      by apply (reassign_assigned pc (bump g1)).
Qed.

Lemma join_post_ok pc rq gs r gs' :
  groups_ok gs → join_post pc rq gs r gs' → groups_ok gs' ∧ (groups_disjoint gs → groups_disjoint gs').
Proof.
  intros Hok [(_ & _ & -> & _)|(_ & g' & m' & -> & Hg' & J & Hcase)]; [done|]. split.
  - intros k x [[<- <-]|[_ ?]]%lookup_insert_Some; [done|by apply Hok].
  - intros Hd k x [[<- <-]|[_ ?]]%lookup_insert_Some; [|by eapply Hd].
    destruct Hcase as [(g & m & Hg & Hm & _ & _ & Ha & _ & Hk)|(_ & Ha & _)]; [|by eapply assigned_disjoint].
    eapply sub_members_disjoint; [|by eapply Hd]. intros mid n Hn.
    destruct (decide (mid = jr_member_id r)) as [->|Hne]; [|rewrite Hk in Hn by done; eauto].
    rewrite (jd_member _ _ _ _ J) in Hn. injection Hn as <-. exists m. split; [done|]. split; [|done].
    rewrite (jd_ok _ _ _ _ J _ _ (jd_member _ _ _ _ J)). symmetry. by apply (go_members _ _ (Hok _ _ Hg)).
Qed.

End coordinator.

(** ** All interleavings

    The coordinator, the Joins parked on the condition variable and the
    commits between their fence and their writes.  Each step is one locked
    region of one call. *)

Record sys := mkSys {
  coord : GroupCoordinator;
  parked : list Waiter;
  committing : list (string * list StoredOffset);
  deleting : list string;
}.

(** [apply] allows SyncGroup calls that carry assignments. *)
Inductive gstep (root : path) (apply : bool) : sys → sys → Prop :=
| gs_expire_inner now co ps cs ds :
    gstep root apply (mkSys co ps cs ds) (mkSys (expire_sessions_inner now co) ps cs ds)
| gs_expire (o : IterOrder) now pc co ps cs ds :
    gstep root apply (mkSys co ps cs ds) (mkSys (expire_sessions now pc co) ps cs ds)
| gs_join (o : IterOrder) now uuid rq pc co co' r ps cs ds :
    join_locked now uuid rq pc co = (JoinDone r, co') →
    gstep root apply (mkSys co ps cs ds) (mkSys co' ps cs ds)
| gs_park (o : IterOrder) now uuid rq pc co co' w ps cs ds :
    join_locked now uuid rq pc co = (JoinParked w, co') →
    gstep root apply (mkSys co ps cs ds) (mkSys co' (ps ++ [w]) cs ds)
| gs_resume (o : IterOrder) now uuid pc timed_out w co co' r ps1 ps2 cs ds :
    join_resume now uuid pc timed_out w co = (JoinDone r, co') →
    gstep root apply (mkSys co (ps1 ++ w :: ps2) cs ds) (mkSys co' (ps1 ++ ps2) cs ds)
| gs_wait (o : IterOrder) now uuid pc w w' co co' ps1 ps2 cs ds :
    join_resume now uuid pc false w co = (JoinParked w', co') →
    gstep root apply (mkSys co (ps1 ++ w :: ps2) cs ds) (mkSys co' (ps1 ++ w' :: ps2) cs ds)
| gs_heartbeat now gid mid gen co ps cs ds :
    gstep root apply (mkSys co ps cs ds) (mkSys (heartbeat_locked now gid mid gen co).2 ps cs ds)
| gs_sync now gid mid gen l co ps cs ds :
    apply = true ∨ l = [] →
    gstep root apply (mkSys co ps cs ds) (mkSys (sync_group_locked now gid mid gen l co).2 ps cs ds)
| gs_leave (o : IterOrder) gid mid pc co ps cs ds :
    gstep root apply (mkSys co ps cs ds) (mkSys (leave gid mid pc co).2 ps cs ds)
| gs_commit_check gid mid gen entries co ps cs ds :
    gen = 0 ∨ check_commit_fence gid mid gen co = 0 →
    gstep root apply (mkSys co ps cs ds) (mkSys co ps (cs ++ [(gid, entries)]) ds)
| gs_commit_write gid entries co ps cs1 cs2 ds :
    gstep root apply (mkSys co ps (cs1 ++ (gid, entries) :: cs2) ds)
      (mkSys (commit_entries root gid entries co).2 ps (cs1 ++ cs2) ds)
| gs_delete_offsets (o : IterOrder) gid entries co ps cs ds :
    gstep root apply (mkSys co ps cs ds) (mkSys (delete_offsets root gid entries co).2 ps cs ds)
| gs_delete_check gid co ps cs ds :
    delete_group_refused gid co = false →
    gstep root apply (mkSys co ps cs ds) (mkSys co ps cs (ds ++ [gid]))
| gs_delete_rest (o : IterOrder) gid co ps cs ds1 ds2 :
    gstep root apply (mkSys co ps cs (ds1 ++ gid :: ds2))
      (mkSys (delete_group_rest root gid co).2 ps cs (ds1 ++ ds2)).

(** The number of Joins of a group that are parked. *)
Definition parked_on (gid : string) (ps : list Waiter) : nat :=
  length (filter (λ w, rq_group_id (w_request w) = gid) ps).

Definition waiters_count (ws : gmap string Z) (ps : list Waiter) : Prop :=
  ∀ gid, ws !! gid = if (parked_on gid ps =? 0)%nat then None else Some (Z.of_nat (parked_on gid ps)).

Record sys_inv (apply : bool) (s : sys) : Prop := {
  si_groups : groups_ok (groups (coord s));
  si_disjoint : apply = false → groups_disjoint (groups (coord s));
  si_waiters : waiters_count (join_waiters (coord s)) (parked s);
}.

Lemma waiters_count_pos ws ps : waiters_count ws ps → waiters_pos ws.
Proof. intros Hc gid n. rewrite Hc. destruct (Nat.eqb_spec (parked_on gid ps) 0); [done|]. intros [= <-]. lia. Qed.

Lemma parked_on_app gid ps1 ps2 : parked_on gid (ps1 ++ ps2) = (parked_on gid ps1 + parked_on gid ps2)%nat.
Proof. unfold parked_on. by rewrite filter_app, length_app. Qed.

Lemma parked_on_cons gid w ps :
  parked_on gid (w :: ps) =
    ((if decide (rq_group_id (w_request w) = gid) then 1 else 0) + parked_on gid ps)%nat.
Proof. unfold parked_on. rewrite filter_cons. by destruct (decide _). Qed.

Lemma waiters_inc ws ps w gid :
  waiters_count ws ps → rq_group_id (w_request w) = gid →
  waiters_count (inc_join_waiters ws gid) (ps ++ [w]).
Proof.
  intros Hc Hw k. rewrite parked_on_app, parked_on_cons.
  change (parked_on k []) with 0%nat.
  unfold inc_join_waiters. destruct (decide (gid = k)) as [<-|Hne].
  - rewrite lookup_insert_eq, (Hc gid). rewrite decide_True by done.
    destruct (Nat.eqb_spec (parked_on gid ps) 0) as [E|E]; cbn [default].
    + rewrite E. done.
    + destruct (Nat.eqb_spec (parked_on gid ps + (1 + 0)) 0); [lia|]. cbn. f_equal. lia.
  - rewrite lookup_insert_ne, (Hc k) by done. rewrite decide_False by congruence. cbn.
    by rewrite !Nat.add_0_r.
Qed.

Lemma waiters_dec ws ps1 ps2 w gid :
  waiters_count ws (ps1 ++ w :: ps2) → rq_group_id (w_request w) = gid →
  waiters_count (dec_join_waiters ws gid) (ps1 ++ ps2).
Proof.
  intros Hc Hw k. unfold dec_join_waiters. rewrite (Hc gid), !parked_on_app, parked_on_cons.
  rewrite decide_True by done.
  destruct (Nat.eqb_spec (parked_on gid ps1 + (1 + parked_on gid ps2)) 0); [lia|].
  destruct (decide (gid = k)) as [<-|Hne].
  - destruct (Z.ltb_spec 1 (Z.of_nat (parked_on gid ps1 + (1 + parked_on gid ps2)))).
    + rewrite lookup_insert_eq. destruct (Nat.eqb_spec (parked_on gid ps1 + parked_on gid ps2) 0); [lia|].
      f_equal. lia.
    + rewrite lookup_delete_eq. destruct (Nat.eqb_spec (parked_on gid ps1 + parked_on gid ps2) 0); [done|lia].
  - assert (Hk : ws !! k = if (parked_on k ps1 + parked_on k ps2 =? 0)%nat then None
                 else Some (Z.of_nat (parked_on k ps1 + parked_on k ps2))).
    { rewrite (Hc k), parked_on_app, parked_on_cons. by rewrite decide_False by congruence. }
    destruct (1 <? _); [rewrite lookup_insert_ne by done|rewrite lookup_delete_ne by done]; exact Hk.
Qed.

Lemma commit_entries_groups root gid entries : ∀ co,
  groups (commit_entries root gid entries co).2 = groups co ∧
  join_waiters (commit_entries root gid entries co).2 = join_waiters co.
Proof.
  induction entries as [|e entries IH]; intros co; cbn [commit_entries]; [done|].
  destruct (commit_with_epoch _ _ _ _ _ _ _ _) as [[u|err] fs]; [|done].
  exact (IH (with_offsets co fs)).
Qed.

Lemma delete_group_effect `{IterOrder} root gid co :
  join_waiters (delete_group_rest root gid co).2 = join_waiters co ∧
  groups (delete_group_rest root gid co).2 = delete gid (groups co).
Proof.
  unfold delete_group_rest. destruct (OffsetStore.list_group_ids _ _); [|by auto].
  destruct (negb _ && negb _); [by auto|]. destruct (delete_many _ _ _ _) as [[n|e] fs]; by auto.
Qed.

Lemma groups_ok_delete gid gs :
  groups_ok gs → groups_ok (delete gid gs) ∧ (groups_disjoint gs → groups_disjoint (delete gid gs)).
Proof.
  intros Hok. split; [intros k x [_ ?]%lookup_delete_Some; by apply Hok|].
  intros Hd k x [_ ?]%lookup_delete_Some. by eapply Hd.
Qed.

(** A step that leaves the parked Joins and their count alone. *)
Lemma same_waiters_inv apply co co' ps cs cs' ds ds' :
  sys_inv apply (mkSys co ps cs ds) → join_waiters co' = join_waiters co →
  groups_ok (groups co') ∧ (groups_disjoint (groups co) → groups_disjoint (groups co')) →
  sys_inv apply (mkSys co' ps cs' ds').
Proof.
  intros [I1 I2 I3] Hw [Hok Hd]. constructor; cbn in *; [done|auto|by rewrite Hw].
Qed.

Lemma coord_step_inv root apply s s' : gstep root apply s s' → sys_inv apply s → sys_inv apply s'.
Proof.
  intros Hs I. pose proof (si_groups _ _ I) as Hok. pose proof (si_waiters _ _ I) as Hw.
  pose proof (si_disjoint _ _ I) as Hdis. pose proof (waiters_count_pos _ _ Hw) as Hp.
  destruct Hs as [| |o now uuid rq pc co co' r ps cs ds E|o now uuid rq pc co co' w ps cs ds E
    |o now uuid pc timed_out w co co' r ps1 ps2 cs ds E|o now uuid pc w w' co co' ps1 ps2 cs ds E
    | |now gid mid gen l co ps cs ds Hl| | | | | |]; cbn in Hok, Hw, Hdis, Hp.
  - eapply same_waiters_inv; [exact I|done|by apply expire_inner_ok].
  - eapply same_waiters_inv; [exact I|done|by apply expire_ok].
  - apply join_locked_spec in E as (J & E1 & _); [|done..].
    eapply same_waiters_inv; [exact I|done|by eapply join_post_ok].
  - apply join_locked_spec in E as (J & _ & ->); [|done..].
    constructor; cbn; [done|done|apply waiters_inc; [done|by rewrite J]].
  - apply join_resume_spec in E as (J & E1 & _); [|done].
    destruct (join_post_ok _ _ _ _ _ Hok J) as [Hok' Hd'].
    constructor; cbn; [done|auto|]. rewrite E1. by eapply waiters_dec.
  - apply join_resume_spec in E as (-> & -> & _); [|done]. destruct I. by constructor.
  - eapply same_waiters_inv; [exact I| |by apply heartbeat_ok]. unfold heartbeat_locked.
    destruct (groups _ !! _) as [g|]; [|done]. destruct (members g !! _); [|done]. by destruct (negb _).
  - destruct (sync_ok now gid mid gen l co Hok) as [Hok' Hd'].
    constructor; cbn; [done| |].
    + intros ->. destruct Hl as [?| ->]; [done|auto].
    + unfold sync_group_locked. destruct (groups _ !! _); [|done]. case_bool_decide; [done|].
      by destruct (negb _).
  - eapply same_waiters_inv; [exact I| |by apply leave_ok]. unfold leave.
    destruct (groups _ !! _); [|done]. case_bool_decide; [done|]. cbn. by case_bool_decide.
  - destruct I. by constructor.
  - eapply same_waiters_inv; [exact I|apply commit_entries_groups|].
    destruct (commit_entries_groups root gid entries co) as [-> _]. done.
  - unfold delete_offsets. destruct (delete_many _ _ _ _).
    eapply same_waiters_inv; [exact I|done|done].
  - destruct I. by constructor.
  - destruct (delete_group_effect root gid co) as [E1 E2].
    eapply same_waiters_inv; [exact I|done|]. rewrite E2. by apply groups_ok_delete.
Qed.

Definition initial (s : sys) : Prop :=
  groups (coord s) = ∅ ∧ join_waiters (coord s) = ∅ ∧ parked s = [] ∧ committing s = [] ∧ deleting s = [].

Lemma coord_initial_inv apply s : initial s → sys_inv apply s.
Proof.
  intros (E1 & E2 & E3 & _). constructor; rewrite ?E1, ?E2, ?E3.
  - intros gid g. by rewrite lookup_empty.
  - intros _ gid g. by rewrite lookup_empty.
  - intros gid. by rewrite lookup_empty.
Qed.

Lemma reachable_inv root apply s0 s : initial s0 → rtc (gstep root apply) s0 s → sys_inv apply s.
Proof.
  intros H0 Hr. pose proof (coord_initial_inv apply s0 H0) as I. clear H0.
  induction Hr as [|x y z Hxy _ IH]; [done|]. apply IH. by eapply coord_step_inv.
Qed.

(** ** Theorems *)

Lemma member_owns_allow gid mid t p co :
  member_owns gid mid t p co = Allow →
  ∃ g m, groups co !! gid = Some g ∧ members g !! mid = Some m ∧ (t, p) ∈ assignment m.
Proof.
  unfold member_owns. destruct (groups co !! gid) as [g|] eqn:Eg; [|done].
  destruct (members g !! mid) as [m|] eqn:Em; [|done]. case_bool_decide; [|done]. eauto.
Qed.


Definition demo_counts (t : string) : option nat := Some 2%nat.
Definition demo_coord : GroupCoordinator := mkGroupCoordinator ∅ ∅ (mkFs ∅ ∅).
Definition demo_join (mid : string) : JoinRequest := mkJoinRequest "g" mid 0 0 ["t"%string] "".
Definition demo_one : GroupCoordinator :=
  (join_locked (H := order_id) 0 "u" (demo_join "a") demo_counts demo_coord).2.

Lemma demo_initial : initial (mkSys demo_coord [] [] []).
Proof. done. Qed.

Lemma demo_one_reached root : rtc (gstep root false) (mkSys demo_coord [] [] []) (mkSys demo_one [] [] []).
Proof. apply rtc_once. eapply (gs_join root false order_id 0 "u" (demo_join "a") demo_counts). reflexivity. Qed.


(** Every way a Join can end, started or resumed in any reachable state:
    it is refused with code 9 and changes no group, and only while some live
    member has not confirmed the generation; or it returns the joiner's
    current assignment, which is recorded as delivered, having either
    refreshed a member with unchanged topics (same generation, nobody's
    assignment touched) or rebalanced: the generation is one more, all live
    members had confirmed the previous one, and the group's assignment is
    complete and disjoint.  What a re-joining member lost is exactly what is
    reported as revoked.  A Join only parks while the fence is closed, and a
    parked one only keeps waiting while it is closed and before the
    deadline. *)
Theorem join_is_fenced `{IterOrder} root apply s0 s now uuid pc :
  initial s0 → rtc (gstep root apply) s0 s →
  (∀ rq out co', join_locked now uuid rq pc (coord s) = (out, co') → join_outcome pc rq (coord s) out co') ∧
  (∀ timed_out w out co', join_resume now uuid pc timed_out w (coord s) = (out, co') →
     match out with
     | JoinDone r => join_post pc (w_request w) (groups (coord s)) r (groups co')
     | JoinParked w' => w' = w ∧ co' = coord s ∧ timed_out = false ∧ now < w_deadline w ∧
         group_ready (groups (coord s)) (rq_group_id (w_request w)) = false
     end).
Proof.
  intros H0 Hr. destruct (reachable_inv _ _ _ _ H0 Hr) as [Hok _ Hw]. split.
  - intros rq out co'. apply join_locked_spec; [done|]. by eapply waiters_count_pos.
  - intros timed_out w out co' E. apply join_resume_spec in E; [|done].
    destruct out; [by destruct E as [? _]|]. by destruct E as (?&?&?&?&?).
Qed.

Lemma join_is_fenced_witness :
  join_outcome (H := order_rev) demo_counts (demo_join "b") demo_one
    (join_locked (H := order_rev) 5 "u" (demo_join "b") demo_counts demo_one).1
    (join_locked (H := order_rev) 5 "u" (demo_join "b") demo_counts demo_one).2.
Proof.
  apply (join_is_fenced (H := order_rev) [] false (mkSys demo_coord [] [] []) (mkSys demo_one [] [] []) 5 "u"
           demo_counts demo_initial (demo_one_reached [])).
  apply surjective_pairing.
Defined.

Lemma reassign_dom `{IterOrder} pc g :
  members_ok (members g) → dom (members (reassign pc g)) = dom (members g).
Proof.
  intros Hok. apply set_eq. intros mid. rewrite !elem_of_dom.
  pose proof (reassign_lookup pc g mid Hok) as Hl. destruct (members g !! mid); [|by rewrite Hl].
  destruct Hl as [a ->]. split; eauto.
Qed.

Lemma reassign_topics `{IterOrder} pc g mid m m' :
  members_ok (members g) → members g !! mid = Some m → members (reassign pc g) !! mid = Some m' →
  topics m' = topics m.
Proof.
  intros Hok Hm Hm'. pose proof (reassign_lookup pc g mid Hok) as Hl. rewrite Hm in Hl.
  destruct Hl as [a Ha]. rewrite Ha in Hm'. by injection Hm' as <-.
Qed.

Lemma leave_spec `{IterOrder} pc co gid mid g :
  groups_ok (groups co) → groups co !! gid = Some g → is_Some (members g !! mid) →
  ∃ co', leave gid mid pc co = (0, co') ∧
    (∀ k, k ≠ gid → groups co' !! k = groups co !! k) ∧
    match groups co' !! gid with
    | None => delete mid (members g) = ∅
    | Some g' => generation g' = u32_wrapping_add (generation g) 1 ∧
        dom (members g') = dom (members g) ∖ {[mid]} ∧ group_assigned pc (members g') ∧
        ∀ k m m', members g !! k = Some m → members g' !! k = Some m' → topics m' = topics m
    end.
Proof.
  intros Hok Hg [m Hm]. pose proof (go_members _ _ (Hok _ _ Hg)) as Gm. unfold leave.
  rewrite Hg, Hm, bool_decide_false by done. set (g1 := bump (with_members g (delete mid (members g)))).
  assert (Hok1 : members_ok (members g1)) by (eapply sub_members_ok; [apply delete_sub|done]).
  eexists. split; [done|]. case_bool_decide as Ee.
  - cbn. split; [intros k Hk; by rewrite lookup_delete_ne|]. rewrite lookup_delete_eq.
    by apply (reassign_empty pc g1 Hok1) in Ee.
  - cbn. split; [intros k Hk; by rewrite lookup_insert_ne|]. rewrite lookup_insert_eq.
    split; [by rewrite reassign_generation|]. split; [rewrite reassign_dom by done; cbn; apply dom_delete_L|].
    split; [by apply reassign_assigned|]. intros k n n' Hn Hn'.
    destruct (decide (mid = k)) as [->|Hne].
    + pose proof (reassign_lookup pc g1 k Hok1) as Hl. cbn in Hl. rewrite lookup_delete_eq in Hl. congruence.
    + eapply (reassign_topics pc g1); [done| |done]. cbn. by rewrite lookup_delete_ne.
Qed.

Lemma retain_alive_all now ms :
  size (retain_alive now ms) = size ms ↔ ∀ k m, ms !! k = Some m → alive now m = true.
Proof.
  split.
  - intros Hs k m Hm. assert (E : retain_alive now ms = ms).
    { apply map_subseteq_size_eq; [apply map_filter_subseteq|by rewrite Hs]. }
    rewrite <- E in Hm. by apply map_lookup_filter_Some in Hm as [_ ?].
  - intros Ha. f_equal. apply map_filter_id. intros k m. apply Ha.
Qed.

Lemma retain_alive_lookup now ms k :
  is_Some (retain_alive now ms !! k) ↔ ∃ m, ms !! k = Some m ∧ alive now m = true.
Proof.
  split; [intros [m Hm%map_lookup_filter_Some]; eauto|].
  intros (m & Hm & Ha). exists m. by apply map_lookup_filter_Some.
Qed.

Lemma expire_group_members `{IterOrder} now pc gid g k :
  group_ok gid g →
  is_Some (members (expire_group now pc g) !! k) ↔ ∃ m, members g !! k = Some m ∧ alive now m = true.
Proof.
  intros G. rewrite <- retain_alive_lookup. unfold expire_group. case_bool_decide; [done|].
  rewrite <- !elem_of_dom, reassign_dom; [done|].
  eapply sub_members_ok; [apply retain_alive_sub|apply G].
Qed.

Lemma expire_spec `{IterOrder} now pc co gid g :
  groups_ok (groups co) → groups co !! gid = Some g →
  match groups (expire_sessions now pc co) !! gid with
  | None => ∀ k m, members g !! k = Some m → alive now m = false
  | Some g' =>
    (∀ k, is_Some (members g' !! k) ↔ ∃ m, members g !! k = Some m ∧ alive now m = true) ∧
    ((∀ k m, members g !! k = Some m → alive now m = true) → g' = g) ∧
    (∀ k m, members g !! k = Some m → alive now m = false →
       generation g' = u32_wrapping_add (generation g) 1 ∧ group_assigned pc (members g'))
  end.
Proof.
  intros Hok Hg. pose proof (Hok _ _ Hg) as G. cbn.
  destruct (filter _ _ !! gid) as [g'|] eqn:E.
  - apply filter_nonempty_lookup in E as [E Hne]. rewrite lookup_fmap, Hg in E. injection E as <-.
    split; [intros k; by eapply expire_group_members|]. unfold expire_group. split.
    + intros Ha. apply retain_alive_all in Ha. rewrite bool_decide_true by done. unfold with_members.
      rewrite (map_subseteq_size_eq (retain_alive now (members g)) (members g));
        [by destruct g|apply map_filter_subseteq|by rewrite Ha].
    + intros k m Hm Hd. rewrite bool_decide_false.
      * split; [by rewrite reassign_generation|]. apply reassign_assigned.
        eapply sub_members_ok; [apply retain_alive_sub|apply G].
      * intros Hs. cbn in Hs. rewrite (proj1 (retain_alive_all _ _) Hs k m Hm) in Hd. done.
  - intros k m Hm. apply not_true_is_false. intros Ha.
    assert (Hk : is_Some (members (expire_group now pc g) !! k)) by (eapply expire_group_members; eauto).
    assert (Hf : filter (λ kv, members kv.2 ≠ ∅) (expire_group now pc <$> groups co) !! gid =
                 Some (expire_group now pc g)); [|congruence].
    apply filter_nonempty_lookup. split; [by rewrite lookup_fmap, Hg|].
    intros E0. rewrite E0 in Hk. by destruct Hk.
Qed.

(** Departures rebalance the group.  LeaveGroup of an unknown member
    changes nothing (code 10); of a live member it returns 0, the member is
    gone, a group without members disappears, and otherwise the generation is
    one more and the remaining members share all partitions of their topics,
    each exactly once.  Session expiry does the same to each group that has a
    member past its timeout, keeps exactly the live members, and leaves a
    group whose members are all live as it is. *)
Theorem departures_rebalance `{IterOrder} pc now co gid mid g :
  groups_ok (groups co) → groups co !! gid = Some g →
  (members g !! mid = None → leave gid mid pc co = (UnknownMemberId, co)) ∧
  (is_Some (members g !! mid) → ∃ co', leave gid mid pc co = (0, co') ∧
     (∀ k, k ≠ gid → groups co' !! k = groups co !! k) ∧
     match groups co' !! gid with
     | None => delete mid (members g) = ∅
     | Some g' => generation g' = u32_wrapping_add (generation g) 1 ∧
         dom (members g') = dom (members g) ∖ {[mid]} ∧ group_assigned pc (members g') ∧
         ∀ k m m', members g !! k = Some m → members g' !! k = Some m' → topics m' = topics m
     end) ∧
  match groups (expire_sessions now pc co) !! gid with
  | None => ∀ k m, members g !! k = Some m → alive now m = false
  | Some g' =>
    (∀ k, is_Some (members g' !! k) ↔ ∃ m, members g !! k = Some m ∧ alive now m = true) ∧
    ((∀ k m, members g !! k = Some m → alive now m = true) → g' = g) ∧
    (∀ k m, members g !! k = Some m → alive now m = false →
       generation g' = u32_wrapping_add (generation g) 1 ∧ group_assigned pc (members g'))
  end.
Proof.
  intros Hok Hg. split; [|split; [by apply leave_spec|by apply expire_spec]].
  intros Hm. unfold leave. by rewrite Hg, Hm, bool_decide_true.
Qed.

Lemma demo_one_ok : groups_ok (groups demo_one).
Proof. exact (si_groups _ _ (reachable_inv [] false _ _ demo_initial (demo_one_reached []))). Qed.

Lemma departures_rebalance_witness :
  ∃ g co', groups demo_one !! "g"%string = Some g ∧
    leave (H := order_id) "g" "a" demo_counts demo_one = (0, co').
Proof.
  destruct (groups demo_one !! "g"%string) as [g|] eqn:E; [|exfalso; vm_compute in E; discriminate].
  destruct (departures_rebalance (H := order_id) demo_counts 0 demo_one "g" "a" g demo_one_ok E) as (_ & Hl & _).
  assert (Ha : is_Some (members g !! "a"%string)).
  { revert E. vm_compute. intros [= <-]. eauto. }
  destruct (Hl Ha) as (co' & El & _). exists g, co'. split; [reflexivity|exact El].
Defined.

(** ** Commits *)

Definition entry_ok (e : StoredOffset) : Prop :=
  usable (so_topic e) ∧ is_u32 (so_partition e) ∧
  value_ok (so_offset e, so_metadata e, so_leader_epoch e).

Definition insert_entries (gid : string) (entries : list StoredOffset) (m : committed) : committed :=
  foldl (λ m e, <[(sanitize gid, sanitize (so_topic e), so_partition e) :=
                    (so_offset e, so_metadata e, so_leader_epoch e)]> m) m entries.

Lemma commit_entries_spec root gid entries : ∀ co m,
  Forall simple root → usable gid → store_rep root (offsets co) m → Forall entry_ok entries →
  ∃ co', commit_entries root gid entries co = (Ok 0, co') ∧ groups co' = groups co ∧
    store_rep root (offsets co') (insert_entries gid entries m).
Proof.
  induction entries as [|e entries IH]; intros co m Hr Hg R HF; cbn [commit_entries insert_entries foldl].
  { eauto. }
  apply Forall_cons in HF as [(Ht & Hp & Hv) HF].
  destruct (commit_spec root Hr _ m gid (so_topic e) (so_partition e) _ R Hg Ht Hp Hv) as (fs & E & R').
  cbn in E. rewrite E. exact (IH (with_offsets co fs) _ Hr Hg R' HF).
Qed.

(** OffsetCommit is fenced by membership.  With a generation other than 0
    it is let through exactly when the group exists, the generation is the
    current one and the member, if named, is live and has confirmed it;
    otherwise the reply is one of the codes 9, 10 and 11 and nothing is
    written.  When it is let through, every entry is stored, a later entry of
    the same partition winning. *)
Theorem commit_is_fenced root gid mid gen entries co m :
  gen ≠ 0 → Forall simple root → usable gid → store_rep root (offsets co) m → Forall entry_ok entries →
  (check_commit_fence gid mid gen co = 0 ↔
     ∃ g, groups co !! gid = Some g ∧ generation g = gen ∧
       (mid = ""%string ∨ ∃ m, members g !! mid = Some m ∧ synced_generation m = gen)) ∧
  (check_commit_fence gid mid gen co ≠ 0 →
     commit_offsets_with_epoch root gid mid gen entries co = (Ok (check_commit_fence gid mid gen co), co) ∧
     check_commit_fence gid mid gen co ∈ [RebalanceInProgress; UnknownMemberId; IllegalGeneration]) ∧
  (check_commit_fence gid mid gen co = 0 →
     ∃ co', commit_offsets_with_epoch root gid mid gen entries co = (Ok 0, co') ∧
       groups co' = groups co ∧ store_rep root (offsets co') (insert_entries gid entries m)).
Proof.
  intros Hgen Hr Hg R HF. unfold commit_offsets_with_epoch. rewrite (Zeqb_false gen 0) by done. cbn [negb].
  assert (Hcode : check_commit_fence gid mid gen co = 0 ∨
            check_commit_fence gid mid gen co ∈ [RebalanceInProgress; UnknownMemberId; IllegalGeneration]).
  { unfold check_commit_fence. rewrite !elem_of_cons.
    repeat (case_match; auto 10). }
  split; [|split].
  - unfold check_commit_fence. split.
    + destruct (groups co !! gid) as [g|]; [|done].
      destruct (String.eqb_spec mid ""); cbn [negb andb].
      * destruct (Z.eqb_spec gen (generation g)); [|done]. intros _. eauto 10.
      * case_bool_decide as Em; [done|]. destruct (Z.eqb_spec gen (generation g)); [|done].
        destruct (members g !! mid) as [mm|] eqn:Emm; [|done]. cbn [negb].
        destruct (Z.eqb_spec (synced_generation mm) gen); [|done]. intros _.
        exists g. do 2 (split; [done|]). right. exists mm. done.
    + intros (g & -> & <- & Hm). rewrite Z.eqb_refl. cbn [negb].
      destruct Hm as [->|(mm & Hmm & <-)]; [done|]. rewrite Hmm, bool_decide_false by done.
      rewrite andb_false_r, Z.eqb_refl. by destruct (negb _).
  - intros Hne. rewrite Zeqb_false by done. destruct Hcode; [done|]. done.
  - intros ->. change (negb (0 =? 0)) with false. by apply commit_entries_spec.
Qed.

Definition demo_synced : GroupCoordinator :=
  with_offsets (sync_group_locked 1 "g" "a" 1 [] demo_one).2 demo_fs.

Lemma commit_is_fenced_witness :
  ∃ co', commit_offsets_with_epoch demo_root "g" "a" 1 [mkStoredOffset "t" 0 5 "" 3] demo_synced = (Ok 0, co') ∧
    commit_offsets_with_epoch demo_root "g" "b" 1 [mkStoredOffset "t" 0 5 "" 3] demo_synced =
      (Ok UnknownMemberId, demo_synced).
Proof.
  assert (Hr : Forall simple demo_root) by exact demo_root_simple.
  assert (R : store_rep demo_root (offsets demo_synced) ∅) by exact demo_store.
  assert (HF : Forall entry_ok [mkStoredOffset "t" 0 5 "" 3]) by (repeat constructor; done).
  assert (U : usable "g") by done. assert (N : 1 ≠ 0) by done.
  destruct (commit_is_fenced demo_root "g" "a" 1 _ demo_synced ∅ N Hr U R HF) as (_ & _ & Ha).
  destruct (commit_is_fenced demo_root "g" "b" 1 _ demo_synced ∅ N Hr U R HF) as (_ & Hb & _).
  destruct Ha as (co' & E & _); [vm_compute; reflexivity|]. exists co'. split; [exact E|].
  assert (Eb : check_commit_fence "g" "b" 1 demo_synced = UnknownMemberId) by (vm_compute; reflexivity).
  rewrite Eb in Hb. apply Hb. discriminate.
Defined.

(** ** Progress of a parked Join *)

(** SyncGroup of the current generation, one member after the other. *)
Definition sync_each (now : Z) (gid : string) (gen : Z) (mids : list string) (co : GroupCoordinator)
    : GroupCoordinator :=
  foldl (λ co mid, (sync_group_locked now gid mid gen [] co).2) co mids.

Lemma sync_confirms now gid mid co g :
  groups co !! gid = Some g → is_Some (members g !! mid) →
  ∃ g', groups (sync_group_locked now gid mid (generation g) [] co).2 !! gid = Some g' ∧
    generation g' = generation g ∧
    ∀ k, match members g !! k with
         | Some m => ∃ m', members g' !! k = Some m' ∧
             synced_generation m' = if decide (k = mid) then generation g else synced_generation m
         | None => members g' !! k = None
         end.
Proof.
  intros Hg [m Hm]. unfold sync_group_locked. rewrite Hg, bool_decide_false by (by rewrite Hm).
  rewrite Z.eqb_refl. cbn [negb snd apply_assignments with_group with_groups groups].
  eexists. split; [apply lookup_insert_eq|]. split; [done|]. intros k. cbn [members with_members].
  destruct (decide (k = mid)) as [->|Hne].
  - rewrite lookup_alter_eq, Hm. eauto.
  - rewrite lookup_alter_ne by done. destruct (members g !! k); eauto.
Qed.

Lemma sync_each_confirms now gid mids : ∀ co g,
  groups co !! gid = Some g → (∀ mid, mid ∈ mids → is_Some (members g !! mid)) →
  ∃ g', groups (sync_each now gid (generation g) mids co) !! gid = Some g' ∧
    generation g' = generation g ∧
    ∀ k, match members g !! k with
         | Some m => ∃ m', members g' !! k = Some m' ∧
             (k ∈ mids ∨ synced_generation m = generation g → synced_generation m' = generation g)
         | None => members g' !! k = None
         end.
Proof.
  induction mids as [|mid mids IH]; intros co g Hg Hm.
  - exists g. split; [done|]. split; [done|]. intros k. destruct (members g !! k) as [m|]; [|done].
    exists m. split; [done|]. by intros [?%not_elem_of_nil|?].
  - destruct (sync_confirms now gid mid co g Hg) as (g1 & Hg1 & Egen & H1); [apply Hm; left|].
    destruct (IH _ g1 Hg1) as (g2 & Hg2 & Egen2 & H2).
    { intros k Hk. specialize (H1 k). destruct (Hm k) as [m Em]; [by right|]. rewrite Em in H1.
      destruct H1 as (m' & -> & _). done. }
    exists g2. rewrite Egen in Hg2, Egen2. split; [exact Hg2|]. split; [done|]. intros k.
    specialize (H1 k). specialize (H2 k). destruct (members g !! k) as [m|].
    + destruct H1 as (m1 & E1 & S1). rewrite E1 in H2. destruct H2 as (m2 & E2 & S2).
      exists m2. split; [done|]. intros Hin. rewrite <- Egen. apply S2. rewrite Egen, S1.
      destruct (decide (k = mid)); [by right|]. destruct Hin as [[?|?]%elem_of_cons|?]; [done|auto..].
    + by rewrite H1 in H2.
Qed.

Lemma all_synced_spec g :
  all_synced g = true ↔ ∀ k m, members g !! k = Some m → synced_generation m = generation g.
Proof.
  unfold all_synced. rewrite forallb_forall. split.
  - intros Hf k m Hm. apply Z.eqb_eq, (Hf (k, m)), list_elem_of_In. by apply elem_of_map_to_list.
  - intros Hf [k m] Hin%list_elem_of_In%elem_of_map_to_list. apply Z.eqb_eq. by apply (Hf k).
Qed.

(** The fence opens.  Once every live member of a group has confirmed the
    current generation with SyncGroup, in any order, no Join of the group can
    wait any longer: a parked one completes when it is resumed, notified or
    timed out, even past its deadline, and a new one completes at once, both
    with code 0. *)
Theorem confirmed_group_admits_joins `{IterOrder} now uuid pc co gid g mids :
  groups_ok (groups co) → groups co !! gid = Some g →
  (∀ mid, mid ∈ mids ↔ is_Some (members g !! mid)) →
  let co' := sync_each now gid (generation g) mids co in
  (∀ later timed_out w, rq_group_id (w_request w) = gid →
     ∃ r co'', join_resume later uuid pc timed_out w co' = (JoinDone r, co'') ∧ jr_error_code r = 0) ∧
  (∀ later rq, rq_group_id rq = gid →
     ∃ r co'', join_locked later uuid rq pc co' = (JoinDone r, co'') ∧ jr_error_code r = 0).
Proof.
  intros Hok Hg Hm co'. destruct (sync_each_confirms now gid mids co g Hg) as (g' & Hg' & Egen & Hk).
  { intros mid. apply Hm. }
  fold co' in Hg'. assert (Hready : group_ready (groups co') gid = true).
  { unfold group_ready. rewrite Hg'. apply all_synced_spec. intros k m' Hm'. specialize (Hk k).
    destruct (members g !! k) as [m|] eqn:E; [|congruence]. destruct Hk as (m2 & E2 & S2).
    rewrite Hm' in E2. injection E2 as <-. rewrite Egen. apply S2. left. apply Hm. by rewrite E. }
  assert (Hfirst : ∀ later rq changed co1, groups co1 = groups co' → rq_group_id rq = gid →
     (changed = false → ∃ g m, groups co1 !! gid = Some g ∧ members g !! resolved_id rq = Some m) →
     ∃ r co'', join_first later uuid rq pc changed co1 true = (JoinDone r, co'') ∧ jr_error_code r = 0).
  { intros later rq changed co1 E1 Eg Hex. unfold join_first. rewrite Eg, E1, Hg'.
    destruct (members g' !! resolved_id rq) as [m|] eqn:Em; [cbn; eauto|].
    rewrite join_fence_ready by (by rewrite Eg, E1). unfold join_second, join_new. eauto. }
  split.
  - intros later timed_out w Ew. unfold join_resume, park_turn. rewrite Ew, Hready.
    replace (if timed_out then Some true else Some true) with (Some true) by (by destruct timed_out).
    destruct (w_rejoin w); [by apply Hfirst|]. unfold join_second, join_new. eauto.
  - intros later rq Eg. unfold join_locked.
    destruct (if String.eqb _ _ then None else _) as [m|] eqn:Ee.
    + assert (Hex : ∃ g m, groups co' !! gid = Some g ∧ members g !! resolved_id rq = Some m).
      { destruct (String.eqb _ _); [done|]. apply bind_Some in Ee as (g0 & ? & ?). rewrite Eg in *. eauto. }
      unfold park_enter. rewrite Eg, Hready. case_bool_decide; cbn [negb]; by apply Hfirst.
    + rewrite join_fence_ready by (by rewrite Eg). unfold join_second, join_new. eauto.
Qed.

Lemma confirmed_group_admits_joins_witness :
  ∃ g r co'', groups demo_one !! "g"%string = Some g ∧
    join_locked (H := order_rev) 9 "u" (demo_join "b") demo_counts
      (sync_each 3 "g" (generation g) ["a"%string] demo_one) = (JoinDone r, co'') ∧ jr_error_code r = 0.
Proof.
  destruct (groups demo_one !! "g"%string) as [g|] eqn:E; [|exfalso; vm_compute in E; discriminate].
  destruct (confirmed_group_admits_joins (H := order_rev) 3 "u" demo_counts demo_one "g" g ["a"%string]
              demo_one_ok E) as [_ Hj].
  { assert (Hd : dom (members g) = {["a"%string]}).
    { revert E. vm_compute. by intros [= <-]. }
    intros mid. rewrite <- elem_of_dom, Hd. by rewrite list_elem_of_singleton, elem_of_singleton. }
  destruct (Hj 9 (demo_join "b") eq_refl) as (r & co'' & Ej & Ec).
  exists g, r, co''. split; [reflexivity|]. split; [exact Ej|exact Ec].
Defined.
