(* ===== verification/GroupWire.v ===== *)
(** * The assignment bytes of SyncGroup

    [decode_native_assignment_list] accepts exactly the encodings of
    assignment lists: a [u32] count, then for each entry a [u16] length, the
    topic and a [u32] partition, with nothing left over.  A commit whose fence
    was passed can still be written after the group has moved on. *)

From Stdlib Require Import Strings.String.
From S2P Require Import Prelude Bytes Assignor OffsetStore OffsetStoreProps Group GroupProps.
#[local] Open Scope Z_scope.

Definition encode_item (tp : TopicPartition) : bytes :=
  u16_le (str_len tp.1) ++ as_bytes tp.1 ++ u32_le (Z.of_nat tp.2).

Definition encode_items (l : list TopicPartition) : bytes := concat (map encode_item l).

(** The documented wire format. *)
Definition encode_assignment_list (l : list TopicPartition) : bytes := u32_le (zlen l) ++ encode_items l.

Definition item_ok (tp : TopicPartition) : Prop :=
  str_valid tp.1 = true ∧ str_len tp.1 ≤ u16_max ∧ Z.of_nat tp.2 ≤ u32_max.

Lemma zlen_item tp : zlen (encode_item tp) = 6 + str_len tp.1.
Proof. unfold encode_item, u16_le, u32_le. rewrite !zlen_app, !zlen_le_bytes. unfold str_len. lia. Qed.

Lemma zlen_items l : 6 * zlen l ≤ zlen (encode_items l).
Proof.
  induction l as [|tp l IH]; [done|]. unfold encode_items in *. cbn [map concat].
  rewrite zlen_app, zlen_item, zlen_cons. unfold str_len. zlen_facts. lia.
Qed.

Lemma zslice_app_exact {A} (pre l post : list A) i j :
  i = zlen pre → j = zlen pre + zlen l → zslice i j (pre ++ l ++ post) = l.
Proof.
  intros -> ->. unfold zslice. rewrite zdrop_app_exact by done. apply ztake_app_exact. lia.
Qed.

Lemma decode_items_complete l : ∀ pre post out,
  Forall item_ok l →
  decode_items (length l) (pre ++ encode_items l ++ post) (zlen pre) out =
    Some (out ++ l, zlen pre + zlen (encode_items l)).
Proof.
  induction l as [|[t p] l IH]; intros pre post out HF; cbn [length decode_items].
  { change (encode_items []) with (@nil byte). rewrite app_nil_r, zlen_nil, Z.add_0_r. done. }
  apply Forall_cons in HF as [(Hv & Hl & Hp) HF]. cbn [fst snd] in *.
  set (a := u16_le (str_len t)). set (b := as_bytes t). set (c := u32_le (Z.of_nat p)).
  assert (La : zlen a = 2) by apply zlen_le_bytes. assert (Lc : zlen c = 4) by apply zlen_le_bytes.
  assert (Lb : zlen b = str_len t) by done. pose proof (zlen_nonneg b). pose proof (zlen_nonneg pre).
  assert (Hdata : pre ++ encode_items (((t, p) : TopicPartition) :: l) ++ post =
                  pre ++ a ++ b ++ c ++ encode_items l ++ post).
  { unfold encode_items. cbn [map concat]. unfold encode_item. cbn [fst snd]. fold a b c.
    by rewrite <- !app_assoc. }
  rewrite Hdata. pose proof (zlen_nonneg (encode_items l)). pose proof (zlen_nonneg post).
  rewrite Zltb_false by (rewrite !zlen_app; lia).
  rewrite (zslice_app_exact pre a) by lia.
  assert (Va : le_val a = zlen b).
  { unfold a, u16_le. rewrite le_val_small; [done|]. unfold u16_max in Hl. cbn. lia. }
  rewrite Va. rewrite Zltb_false by (rewrite !zlen_app; lia).
  rewrite (app_assoc pre a), (zslice_app_exact (pre ++ a) b) by (rewrite zlen_app; lia).
  unfold b at 1. rewrite from_utf8_as_bytes by done.
  rewrite (app_assoc (pre ++ a) b), (zslice_app_exact ((pre ++ a) ++ b) c) by (rewrite !zlen_app; lia).
  assert (Vc : Z.to_nat (le_val c) = p).
  { unfold c, u32_le. rewrite le_val_small; [lia|]. unfold u32_max in Hp. cbn. lia. }
  rewrite Vc, (app_assoc ((pre ++ a) ++ b) c).
  replace (zlen pre + 2 + zlen b + 4) with (zlen (((pre ++ a) ++ b) ++ c)) by (rewrite !zlen_app; lia).
  rewrite IH by done. f_equal. rewrite <- app_assoc. f_equal.
  unfold encode_items. cbn [map concat]. rewrite !zlen_app, zlen_item. cbn [fst]. lia.
Qed.

Lemma zdrop_split {A} (l : list A) i j : 0 ≤ i ≤ j → zdrop i l = zslice i j l ++ zdrop j l.
Proof.
  intros Hij. unfold zslice. rewrite <- (ztake_zdrop (j - i) (zdrop i l)) at 1.
  rewrite zdrop_zdrop by lia. do 2 f_equal. lia.
Qed.

(** Bytes are the little-endian form of their value. *)
Lemma le_bytes_of_slice n (s : bytes) : zlen s = Z.of_nat n → le_bytes n (le_val s) = s.
Proof. intros Hs. replace n with (length s) by (unfold zlen in Hs; lia). apply le_bytes_val. Qed.

Lemma decode_items_sound n : ∀ data i out out' j,
  0 ≤ i ≤ zlen data → decode_items n data i out = Some (out', j) →
  ∃ l, length l = n ∧ out' = out ++ l ∧ Forall item_ok l ∧ i ≤ j ≤ zlen data ∧
    zdrop i data = encode_items l ++ zdrop j data.
Proof.
  induction n as [|n IH]; intros data i out out' j Hi E; cbn [decode_items] in E.
  { injection E as <- <-. exists []. rewrite app_nil_r. repeat (split; [done|]). split; [lia|done]. }
  destruct (Z.ltb_spec (zlen data) (i + 2)); [done|].
  set (tlen := le_val (zslice i (i + 2) data)) in *.
  assert (Ht : 0 ≤ tlen < 65536).
  { pose proof (le_val_range (zslice i (i + 2) data)) as Hr. rewrite zlen_zslice in Hr by lia.
    replace (i + 2 - i) with 2 in Hr by lia. exact Hr. }
  destruct (Z.ltb_spec (zlen data) (i + 2 + tlen + 4)); [done|].
  destruct (from_utf8 _) as [t|] eqn:Eu; [|done].
  apply from_utf8_valid in Eu as [Hv Hb].
  set (k := i + 2 + tlen) in *. set (p := le_val (zslice k (k + 4) data)) in *.
  assert (Hp : 0 ≤ p < 4294967296).
  { pose proof (le_val_range (zslice k (k + 4) data)) as Hr. rewrite zlen_zslice in Hr by lia.
    replace (k + 4 - k) with 4 in Hr by lia. exact Hr. }
  destruct (IH data (k + 4) _ out' j ltac:(lia) E) as (l & Hl & -> & HF & Hj & Hd).
  assert (Hlen : str_len t = tlen) by (unfold str_len; rewrite Hb; apply zlen_zslice || rewrite zlen_zslice; lia).
  exists ((t, Z.to_nat p) :: l). split; [cbn; by rewrite Hl|]. split; [by rewrite <- app_assoc|].
  split; [constructor; [|done]; split; [done|]; unfold u16_max, u32_max; cbn; lia|]. split; [lia|].
  unfold encode_items. cbn [map concat]. unfold encode_item. cbn [fst snd].
  rewrite (zdrop_split data i (i + 2)), (zdrop_split data (i + 2) k), (zdrop_split data k (k + 4)), Hd by lia.
  rewrite <- !app_assoc. f_equal.
  { rewrite Hlen. unfold tlen, u16_le. rewrite le_bytes_of_slice; [done|]. rewrite zlen_zslice by lia. lia. }
  f_equal; [by rewrite Hb|]. f_equal. rewrite Z2Nat.id by lia. unfold p, u32_le.
  rewrite le_bytes_of_slice; [done|]. rewrite zlen_zslice by lia. lia.
Qed.

(** The decoder of SyncGroup's assignment bytes accepts exactly the
    encodings: the bytes of a list of valid topic names and [u32] partitions
    decode to that list, and any bytes that decode are the encoding of the
    result, so nothing truncated, left over or not UTF-8 is accepted. *)
Theorem assignment_bytes_exact data l :
  decode_native_assignment_list data = Some l ↔
  data = encode_assignment_list l ∧ Forall item_ok l ∧ zlen l ≤ u32_max.
Proof.
  unfold decode_native_assignment_list. split.
  - destruct (Z.ltb_spec (zlen data) 4); [done|].
    set (n := le_val (zslice 0 4 data)) in *.
    assert (Hn : 0 ≤ n < 4294967296).
    { pose proof (le_val_range (zslice 0 4 data)) as Hr. rewrite zlen_zslice in Hr by lia. exact Hr. }
    destruct (Z.ltb_spec ((zlen data - 4) / 6) n); [done|].
    destruct (decode_items _ _ _ _) as [[out j]|] eqn:E; [|done].
    destruct (Z.eqb_spec j (zlen data)) as [->|]; [|done]. intros [= ->].
    apply decode_items_sound in E as (l' & Hl & -> & HF & _ & Hd); [|lia]. cbn [app].
    assert (Hz : zlen l' = n) by (unfold zlen; lia).
    split; [|split; [done|unfold u32_max; lia]]. unfold encode_assignment_list.
    rewrite <- (zdrop_0 data), (zdrop_split data 0 4), Hd, zdrop_ge, app_nil_r by lia.
    f_equal. rewrite Hz. unfold n, u32_le. symmetry. apply le_bytes_of_slice. rewrite zlen_zslice; lia.
  - intros (-> & HF & Hl). unfold encode_assignment_list. pose proof (zlen_items l).
    assert (L4 : zlen (u32_le (zlen l)) = 4) by apply zlen_le_bytes. pose proof (zlen_nonneg l).
    rewrite zlen_app, L4. rewrite Zltb_false by lia.
    assert (Hn : le_val (zslice 0 4 (u32_le (zlen l) ++ encode_items l)) = zlen l).
    { change (u32_le (zlen l) ++ encode_items l) with ([] ++ u32_le (zlen l) ++ encode_items l).
      rewrite (zslice_app_exact [] (u32_le (zlen l))) by (done || by rewrite L4). unfold u32_le. apply le_val_small. unfold u32_max in Hl. cbn. lia. }
    rewrite Hn, Zltb_false; [|apply Z.div_le_lower_bound; lia].
    pose proof (decode_items_complete l (u32_le (zlen l)) [] [] HF) as Hc.
    rewrite app_nil_r, L4 in Hc. unfold zlen at 1. rewrite Nat2Z.id, Hc. cbn [app].
    by rewrite Z.eqb_refl.
Qed.

(** ** A commit that passed its fence *)

Definition race_start : GroupCoordinator := mkGroupCoordinator ∅ ∅ demo_fs.
Definition race_joined : GroupCoordinator :=
  (join_locked (H := order_id) 0 "u" (demo_join "a") demo_counts race_start).2.
Definition race_synced : GroupCoordinator := (sync_group_locked 1 "g" "a" 1 [] race_joined).2.
Definition race_left : GroupCoordinator := (leave (H := order_id) "g" "a" demo_counts race_synced).2.
Definition race_entries : list StoredOffset := [mkStoredOffset "t" 0 5 "" (-1)].

Lemma race_reached :
  rtc (gstep demo_root false) (mkSys race_start [] [] []) (mkSys race_left [] [("g"%string, race_entries)] []).
Proof.
  apply (rtc_l _ _ (mkSys race_joined [] [] [])).
  { eapply (gs_join _ _ order_id 0 "u" (demo_join "a") demo_counts). reflexivity. }
  apply (rtc_l _ _ (mkSys race_synced [] [] [])).
  { apply gs_sync. by right. }
  apply (rtc_l _ _ (mkSys race_synced [] [("g"%string, race_entries)] [])).
  { apply (gs_commit_check _ _ "g" "a" 1 race_entries _ [] []). right. by vm_compute. }
  apply rtc_once. apply (gs_leave _ _ order_id "g" "a" demo_counts race_synced).
Qed.

(** Two operations check the groups and act later without holding them.
    A member can pass the fence of OffsetCommit, leave the group, and have its
    offsets written after the departure, in a state where the same commit is
    refused.  DeleteGroup can find the group empty, a member can then join it
    with a successful reply, and the deletion still removes the group with its
    live member, which DeleteGroup refuses to do. *)
Theorem checks_race_with_updates :
  (∃ s s', rtc (gstep demo_root false) (mkSys race_start [] [] []) s ∧ gstep demo_root false s s' ∧
     check_commit_fence "g" "a" 1 (coord s) = UnknownMemberId ∧
     committing s = [("g"%string, race_entries)] ∧ committing s' = [] ∧
     fetch demo_root (offsets (coord s)) "g" "t" 0 = Ok (OFFSET_UNKNOWN, ""%string, -1) ∧
     fetch demo_root (offsets (coord s')) "g" "t" 0 = Ok (5, ""%string, -1)) ∧
  (∃ s s', rtc (gstep demo_root false) (mkSys race_start [] [] []) s ∧ gstep demo_root false s s' ∧
     delete_group_refused "g" (coord s) = true ∧ member_owns "g" "a" "t" 0 (coord s) = Allow ∧
     groups (coord s') !! "g"%string = None).
Proof.
  split.
  - exists (mkSys race_left [] [("g"%string, race_entries)] []),
      (mkSys (commit_entries demo_root "g" race_entries race_left).2 [] [] []).
    split; [exact race_reached|].
    split; [exact (gs_commit_write demo_root false "g" race_entries race_left [] [] [] [])|].
    split; [by vm_compute|]. split; [done|]. split; [done|]. split; by vm_compute.
  - exists (mkSys race_joined [] [] ["g"%string]),
      (mkSys (delete_group_rest (H := order_id) demo_root "g" race_joined).2 [] [] []).
    split; [|split; [exact (gs_delete_rest demo_root false order_id "g" race_joined [] [] [] [])|]].
    + apply (rtc_l _ _ (mkSys race_start [] [] ["g"%string])).
      { by apply (gs_delete_check _ _ "g" race_start [] [] []). }
      apply rtc_once. eapply (gs_join _ _ order_id 0 "u" (demo_join "a") demo_counts). reflexivity.
    + split; [by vm_compute|]. split; by vm_compute.
Qed.
