(* ===== verification/Text.v ===== *)
(** * Text: the methods of [str] the broker uses

    [trim] removes Unicode white space at both ends, here on the UTF-8 bytes;
    [eq_ignore_ascii_case] compares with ASCII letters folded; and the text
    files that are replaced as a whole. *)

From Stdlib Require Import Strings.String Strings.Ascii.
From S2P Require Import Prelude Bytes.
#[local] Open Scope Z_scope.

(** The encodings of the characters with the property White_Space. *)
Definition white_space : list (list Z) :=
  map (λ c, [c]) [9; 10; 11; 12; 13; 32] ++
  [[194; 133]; [194; 160]; [225; 154; 128]; [226; 128; 168]; [226; 128; 169]; [226; 128; 175];
   [226; 129; 159]; [227; 128; 128]] ++
  map (λ c, [226; 128; c]) [128; 129; 130; 131; 132; 133; 134; 135; 136; 137; 138].

Fixpoint strip_prefix (p : list Z) (s : bytes) : option bytes :=
  match p, s with
  | [], _ => Some s
  | c :: p, b :: s => if byte_val b =? c then strip_prefix p s else None
  | _ :: _, [] => None
  end.

Fixpoint strip_any (ps : list (list Z)) (s : bytes) : option bytes :=
  match ps with
  | [] => None
  | p :: ps => match strip_prefix p s with Some s' => Some s' | None => strip_any ps s end
  end.

(** Removes characters from the front as long as there are any; each has at
    least a byte. *)
Fixpoint strip_all (fuel : nat) (ps : list (list Z)) (s : bytes) : bytes :=
  match fuel with
  | O => s
  | S fuel => match strip_any ps s with Some s' => strip_all fuel ps s' | None => s end
  end.

Definition trim_bytes (s : bytes) : bytes :=
  let s := strip_all (length s) white_space s in
  rev (strip_all (length s) (map (@rev Z) white_space) (rev s)).

Definition trim (s : string) : string := of_bytes (trim_bytes (as_bytes s)).

Definition ascii_lower (c : Z) : Z := if (65 <=? c) && (c <=? 90) then c + 32 else c.

(** [str::trim_start] and [str::to_ascii_lowercase] *)
Definition trim_start_bytes (s : bytes) : bytes := strip_all (length s) white_space s.

Definition to_ascii_lowercase (s : string) : string :=
  of_bytes (map (λ c, byte_of (ascii_lower (byte_val c))) (as_bytes s)).

Definition eq_ignore_ascii_case (a b : string) : bool :=
  bool_decide (map (λ c, ascii_lower (byte_val c)) (as_bytes a) =
               map (λ c, ascii_lower (byte_val c)) (as_bytes b)).

(** What the environment flags of the broker accept as on and as off. *)
Definition flag_on (s : string) : bool :=
  let t := trim s in
  String.eqb t "1" || eq_ignore_ascii_case t "true" || eq_ignore_ascii_case t "yes" ||
  eq_ignore_ascii_case t "on".

Definition flag_off (s : string) : bool :=
  let t := trim s in
  String.eqb t "0" || eq_ignore_ascii_case t "false" || eq_ignore_ascii_case t "no" ||
  eq_ignore_ascii_case t "off".

(** [split] at a byte, and [replace] of a pattern that is not empty; the
    result of [strip_prefix] is shorter, so the length is enough fuel. *)
Fixpoint split_byte (c : Z) (s : bytes) : list bytes :=
  match s with
  | [] => [[]]
  | b :: s =>
    if byte_val b =? c then [] :: split_byte c s
    else match split_byte c s with p :: ps => (b :: p) :: ps | [] => [[b]] end
  end.

Definition strip_str (p : string) (s : bytes) : option bytes := strip_prefix (map byte_val (as_bytes p)) s.

Fixpoint replace_from (fuel : nat) (pat to : string) (s : bytes) : bytes :=
  match fuel, s with
  | O, _ => s
  | _, [] => []
  | S fuel, b :: s' =>
    match strip_str pat s with
    | Some rest => as_bytes to ++ replace_from fuel pat to rest
    | None => b :: replace_from fuel pat to s'
    end
  end.

Definition replace (pat to : string) (s : bytes) : bytes := replace_from (length s) pat to s.

(** A file: its text, if it exists, and whether the disk takes a write.  A
    write goes to a temporary file that is renamed, so one that fails leaves
    the text as it was. *)
Record TextFile := mkTextFile {
  text : option bytes;
  disk_ok : bool;
}.

Definition write_file (msg : string) (json : bytes) (f : TextFile) : result unit * TextFile :=
  if disk_ok f then (Ok tt, mkTextFile (Some json) true) else (Err (Storage msg), f).

Example trim_both_ends : trim "	 rack one " = "rack one"%string.
Proof. vm_compute. reflexivity. Qed.

Example flag_off_folds : flag_off " OFF" = true.
Proof. vm_compute. reflexivity. Qed.
