(* ===== verification/Cluster.v ===== *)
(** * Cluster membership, assignment and replica placement:
      [volant-broker/src/cluster/membership.rs], [state.rs] and [assignment.rs]

    Instants and durations are in nanoseconds; the clock is an argument.  An
    assertion that fails is [None]. *)

From Stdlib Require Import Strings.String.
From S2P Require Import Prelude Bytes Text Messages Assignor OffsetStore.
#[local] Open Scope Z_scope.

Definition from_millis (ms : Z) : Z := ms * 1000000.

(** ** [membership.rs] *)

Record Membership := mkMembership {
  last_seen : gmap Z Z;
  session_timeout : Z;
  self_id : Z;
}.

#[export] Instance Membership_eq_dec : EqDecision Membership.
Proof. solve_decision. Defined.

Definition set_last_seen (v : gmap Z Z) (m : Membership) : Membership :=
  mkMembership v (session_timeout m) (self_id m).

Definition new_membership (self session_timeout_ms : Z) (initial_ids : list Z) (now : Z) : Membership :=
  mkMembership (foldl (λ seen id, match seen !! id with Some _ => seen | None => <[id := now]> seen end)
                  {[self := now]} initial_ids) (from_millis session_timeout_ms) self.

Definition heartbeat (broker_id now : Z) (m : Membership) : Membership :=
  set_last_seen (<[broker_id := now]> (last_seen m)) m.

Definition touch_self (now : Z) (m : Membership) : Membership := heartbeat (self_id m) now m.

Definition session_expired (now : Z) (m : Membership) (e : Z * Z) : bool :=
  negb (e.1 =? self_id m) && (session_timeout m <? Z.max 0 (now - e.2)).

Definition expire `{IterOrder} (now : Z) (m : Membership) : list Z * Membership :=
  (map fst (filter (λ e, session_expired now m e = true) (reorder (map_to_list (last_seen m)))),
   set_last_seen (filter (λ e, session_expired now m e = false) (last_seen m)) m).

Definition id_le (a b : Z) : Prop := a ≤ b.
#[export] Instance id_le_dec : RelDecision id_le.
Proof. intros a b. unfold id_le. apply _. Defined.
#[global] Typeclasses Opaque id_le.

Definition live_brokers (m : Membership) : list Z :=
  merge_sort id_le (map fst (map_to_list (last_seen m))).

Definition is_live (id : Z) (m : Membership) : bool := bool_decide (is_Some (last_seen m !! id)).

Definition lowest_live_id (m : Membership) : Z :=
  match live_brokers m with id :: _ => id | [] => self_id m end.

Definition member_is_controller (m : Membership) : bool := lowest_live_id m =? self_id m.

Definition mark_dead (id : Z) (m : Membership) : Membership :=
  if id =? self_id m then m else set_last_seen (delete id (last_seen m)) m.

Definition remove_id (id : Z) (m : Membership) : Membership :=
  if id =? self_id m then m else set_last_seen (delete id (last_seen m)) m.

Definition apply_configured_ids (configured : list Z) (m : Membership) : Membership :=
  set_last_seen (filter (λ e, e.1 = self_id m ∨ e.1 ∈ configured) (last_seen m)) m.

(** ** [state.rs] *)

Record PartitionAssignment := mkPartitionAssignment {
  pa_replicas : list Z;
  pa_leader : Z;
  pa_isr : list Z;
  pa_leader_epoch : Z;
}.

Record TopicAssignment := mkTopicAssignment {
  ta_topic_id : Z;
  ta_name : string;
  ta_partitions : gmap Z PartitionAssignment;
}.

Record AssignmentSnapshot := mkAssignment {
  as_generation : Z;
  as_topics : gmap string TopicAssignment;
}.

#[export] Instance PartitionAssignment_eq_dec : EqDecision PartitionAssignment.
Proof. solve_decision. Defined.
#[export] Instance TopicAssignment_eq_dec : EqDecision TopicAssignment.
Proof. solve_decision. Defined.
#[export] Instance AssignmentSnapshot_eq_dec : EqDecision AssignmentSnapshot.
Proof. solve_decision. Defined.

Definition set_pa_isr (isr : list Z) (p : PartitionAssignment) : PartitionAssignment :=
  mkPartitionAssignment (pa_replicas p) (pa_leader p) isr (pa_leader_epoch p).

Definition set_pa_leader_epoch (epoch : Z) (p : PartitionAssignment) : PartitionAssignment :=
  mkPartitionAssignment (pa_replicas p) (pa_leader p) (pa_isr p) epoch.

Definition get_assignment (topic : string) (partition : Z) (a : AssignmentSnapshot)
    : option PartitionAssignment :=
  t ← as_topics a !! topic; ta_partitions t !! partition.

(** Writes through [get_mut] of the topic and then of the partition. *)
Definition alter_assignment (f : PartitionAssignment → PartitionAssignment) (topic : string)
    (partition : Z) (a : AssignmentSnapshot) : AssignmentSnapshot :=
  mkAssignment (as_generation a)
    (alter (λ t, mkTopicAssignment (ta_topic_id t) (ta_name t) (alter f partition (ta_partitions t)))
       topic (as_topics a)).

Definition set_generation (g : Z) (a : AssignmentSnapshot) : AssignmentSnapshot :=
  mkAssignment g (as_topics a).

Definition u32_saturating_add (a b : Z) : Z := Z.min u32_max (a + b).

Definition bump_generation (a : AssignmentSnapshot) : AssignmentSnapshot :=
  set_generation (u32_saturating_add (as_generation a) 1) a.

Definition cps_le (a b : ClusterPartitionState) : Prop := cps_partition_id a ≤ cps_partition_id b.
#[export] Instance cps_le_dec : RelDecision cps_le.
Proof. intros a b. unfold cps_le. apply _. Defined.
#[global] Typeclasses Opaque cps_le.

Definition cts_le (a b : ClusterTopicState) : Prop := str_le (cts_name a) (cts_name b).
#[export] Instance cts_le_dec : RelDecision cts_le.
Proof. intros a b. unfold cts_le. apply _. Defined.
#[global] Typeclasses Opaque cts_le.

Definition partition_to_wire (e : Z * PartitionAssignment) : ClusterPartitionState :=
  mkClusterPartitionState e.1 (pa_leader e.2) (pa_leader_epoch e.2) (pa_replicas e.2) (pa_isr e.2).

Definition topic_to_wire (t : TopicAssignment) : ClusterTopicState :=
  mkClusterTopicState (ta_name t) (ta_topic_id t)
    (merge_sort cps_le (map partition_to_wire (map_to_list (ta_partitions t)))).

Definition to_wire_topics (a : AssignmentSnapshot) : list ClusterTopicState :=
  merge_sort cts_le (map (λ e, topic_to_wire e.2) (map_to_list (as_topics a))).

Definition partition_of_wire (p : ClusterPartitionState) : PartitionAssignment :=
  mkPartitionAssignment (cps_replicas p) (cps_leader p) (cps_isr p) (cps_leader_epoch p).

Definition topic_of_wire (t : ClusterTopicState) : TopicAssignment :=
  mkTopicAssignment (cts_topic_id t) (cts_name t)
    (foldl (λ m p, <[cps_partition_id p := partition_of_wire p]> m) ∅ (cts_partitions t)).

Definition apply_wire (generation : Z) (topics : list ClusterTopicState) (a : AssignmentSnapshot)
    : AssignmentSnapshot :=
  mkAssignment generation (foldl (λ m t, <[cts_name t := topic_of_wire t]> m) ∅ topics).

(** ** Placement: [assignment.rs] *)

(** FNV-1a. *)
Definition topic_hash (name : string) : Z :=
  foldl (λ h b, as_u32 (Z.lxor h (byte_val b) * 16777619)) 2166136261 (as_bytes name).

(** Off only when the environment says so. *)
Definition rack_aware_assignment_enabled (env : option string) : bool :=
  match env with Some s => negb (flag_off s) | None => true end.

(** A rack that is set and not blank. *)
Definition clean_rack (rack : option string) : option string :=
  match rack with
  | Some r => let t := trim r in if bool_decide (t = ""%string) then None else Some t
  | None => None
  end.

Definition distinct_configured_racks (brokers : list (Z * option string)) : nat :=
  size (list_to_set (omap (λ b, clean_rack b.2) brokers) : gset string).

Definition will_use_rack_aware_assignment (env : option string) (brokers : list (Z * option string)) : bool :=
  rack_aware_assignment_enabled env && (2 <=? distinct_configured_racks brokers)%nat.

Definition clamp_rf (rf n : Z) : Z := Z.max (Z.min rf n) 1.

Definition assign_replicas_round_robin (topic_name : string) (num_partitions : Z) (broker_ids : list Z)
    (rf : Z) : option (list (list Z)) :=
  if bool_decide (broker_ids = []) then None else
  let ids := dedup (merge_sort id_le broker_ids) in
  let n := zlen ids in
  let rf := clamp_rf rf n in
  let th := topic_hash topic_name in
  Some (map (λ p,
    let start := u32_wrapping_add (Z.of_nat p) th mod n in
    map (λ i, default 0 (ids !! Z.to_nat ((start + Z.of_nat i) mod n))) (seq 0 (Z.to_nat rf)))
    (seq 0 (Z.to_nat num_partitions))).

Definition rack_key (id : Z) (rack : option string) : string :=
  match rack with Some r => r | None => String.append "norack-" (u32_to_string id) end.

Definition rack_groups (brokers : list (Z * option string)) : gmap string (list Z) :=
  (λ v, dedup (merge_sort id_le v)) <$>
  foldl (λ g b, let k := rack_key b.1 b.2 in <[k := default [] (g !! k) ++ [b.1]]> g) ∅ brokers.

(** The members of a rack from its cursor on, up to the first that is not
    chosen yet; and the cursor behind it. *)
Fixpoint next_member (rest : list Z) (cursor : nat) (chosen : list Z) : option Z * nat :=
  match rest with
  | [] => (None, cursor)
  | bid :: rest =>
    if bool_decide (bid ∈ chosen) then next_member rest (S cursor) chosen else (Some bid, S cursor)
  end.

(** The attempts of one slot over the racks, from one on. *)
Fixpoint try_racks (groups : list (list Z)) (first : nat) (attempts : list nat) (cursors : list nat)
    (chosen : list Z) : option Z * list nat :=
  match attempts with
  | [] => (None, cursors)
  | attempt :: attempts =>
    let ri := ((first + attempt) mod length groups)%nat in
    let members := default [] (groups !! ri) in
    let cursor := default 0%nat (cursors !! ri) in
    let '(picked, cursor) := next_member (drop cursor members) cursor chosen in
    let cursors := <[ri := cursor]> cursors in
    match picked with
    | Some bid => (Some bid, cursors)
    | None => try_racks groups first attempts cursors chosen
    end
  end.

(** Any broker that is left, when no rack has one. *)
Definition any_remaining (brokers : list (Z * option string)) (chosen : list Z) : option Z :=
  fst <$> head (filter (λ b, b.1 ∉ chosen) brokers).

Fixpoint fill_slots (brokers : list (Z * option string)) (groups : list (list Z)) (start : nat)
    (slots : list nat) (cursors : list nat) (replicas : list Z) : option (list Z) :=
  match slots with
  | [] => Some replicas
  | slot :: slots =>
    let '(picked, cursors) :=
      try_racks groups (start + slot) (seq 0 (length groups)) cursors replicas in
    match (match picked with Some bid => Some bid | None => any_remaining brokers replicas end) with
    | None => None
    | Some bid => fill_slots brokers groups start slots cursors (replicas ++ [bid])
    end
  end.

Definition rack_members (brokers : list (Z * option string)) : list (list Z) :=
  let groups := rack_groups brokers in
  map (λ k, default [] (groups !! k)) (merge_sort str_le (map fst (map_to_list groups))).

Definition assign_replicas_rack_aware (topic_name : string) (num_partitions : Z)
    (brokers : list (Z * option string)) (rf : Z) : option (list (list Z)) :=
  let groups := rack_members brokers in
  if (length groups <? 1)%nat then None else
  let rf := clamp_rf rf (zlen brokers) in
  let th := topic_hash topic_name in
  mapM (λ p,
    let start := Z.to_nat (u32_wrapping_add (Z.of_nat p) th mod zlen groups) in
    fill_slots brokers groups start (seq 0 (Z.to_nat rf)) (replicate (length groups) 0%nat) [])
    (seq 0 (Z.to_nat num_partitions)).

Definition broker_le (a b : Z * option string) : Prop := a.1 ≤ b.1.
#[export] Instance broker_le_dec : RelDecision broker_le.
Proof. intros a b. unfold broker_le. apply _. Defined.
#[global] Typeclasses Opaque broker_le.

(** [dedup_by_key]: of equal neighbours the first stays. *)
Fixpoint dedup_brokers (l : list (Z * option string)) : list (Z * option string) :=
  match l with
  | [] => []
  | x :: rest =>
    match dedup_brokers rest with
    | y :: rest' => if x.1 =? y.1 then x :: rest' else x :: y :: rest'
    | [] => [x]
    end
  end.

Definition assign_replicas (env : option string) (topic_name : string) (num_partitions : Z)
    (brokers : list (Z * option string)) (rf : Z) : option (list (list Z) * bool) :=
  let list := map (λ b, (b.1, clean_rack b.2)) brokers in
  if bool_decide (list = []) then None else
  let list := dedup_brokers (merge_sort broker_le list) in
  if will_use_rack_aware_assignment env list
  then r ← assign_replicas_rack_aware topic_name num_partitions list rf; Some (r, true)
  else r ← assign_replicas_round_robin topic_name num_partitions (map fst list) rf; Some (r, false).

(** ** In-sync replicas: [assignment.rs] *)

Definition compute_hwm (isr : list Z) (leo_of : Z → Z) : Z :=
  match isr with
  | [] => 0
  | id :: isr => foldl (λ m id, Z.min m (leo_of id)) (leo_of id) isr
  end.

Definition shrink_isr (leader : Z) (isr : list Z) (leader_leo max_lag : Z) (leo_of : Z → Z) : list Z :=
  leader :: filter (λ id, id ≠ leader ∧ saturating_sub leader_leo (leo_of id) ≤ max_lag) isr.

(** The members of [l] that [out] does not have yet, the leader aside. *)
Definition push_new (leader : Z) (l out : list Z) : list Z :=
  foldl (λ out id, if bool_decide (id ≠ leader) && negb (bool_decide (id ∈ out)) then out ++ [id] else out)
    out l.

(** A member never seen caught up is kept: nothing says that it is late. *)
Definition caught_up_lately (max_lag_ms now : Z) (last : option Z) : bool :=
  match last with Some t => Z.max 0 (now - t) <=? from_millis max_lag_ms | None => true end.

Definition shrink_isr_by_time (leader : Z) (isr : list Z) (max_lag_ms now : Z)
    (last_caught_up : Z → option Z) : list Z :=
  if max_lag_ms =? 0 then push_new leader isr [leader]
  else leader :: filter (λ id, id ≠ leader ∧ caught_up_lately max_lag_ms now (last_caught_up id) = true) isr.

Definition isr_rejoin_eligible (replica_id : Z) (replicas : list Z)
    (leader_leo replica_leo committed_hwm max_lag : Z) : bool :=
  bool_decide (replica_id ∈ replicas) && (saturating_sub leader_leo replica_leo <=? max_lag) &&
  (committed_hwm <=? replica_leo).

Definition expand_isr (leader : Z) (isr replicas : list Z)
    (replica_id leader_leo replica_leo committed_hwm max_lag : Z) : list Z :=
  let out := push_new leader isr [leader] in
  if negb (replica_id =? leader) && negb (bool_decide (replica_id ∈ out)) &&
     isr_rejoin_eligible replica_id replicas leader_leo replica_leo committed_hwm max_lag
  then out ++ [replica_id] else out.

Definition reconcile_isr (leader : Z) (isr replicas : list Z)
    (leader_leo committed_hwm max_lag max_lag_ms now : Z) (fetching_replica : option (Z * Z))
    (leo_of : Z → Z) (last_caught_up : Z → option Z) : list Z * Z :=
  let after_offset := shrink_isr leader isr leader_leo max_lag leo_of in
  let after_time := shrink_isr_by_time leader after_offset max_lag_ms now last_caught_up in
  let time_shrink := zlen (filter (λ id, id ≠ leader ∧ id ∉ after_time) after_offset) in
  let out := match fetching_replica with
             | Some (rid, rleo) =>
               expand_isr leader after_time replicas rid leader_leo rleo committed_hwm max_lag
             | None => after_time
             end in
  (if bool_decide (leader ∈ out) then out else leader :: out, time_shrink).

Definition elect_leader (replicas isr live : list Z) : option Z :=
  match head (filter (λ r, r ∈ isr ∧ r ∈ live) replicas) with
  | Some r => Some r
  | None => head (filter (λ r, r ∈ live) isr)
  end.

(** * In-sync sets and elections

    A reconciled in-sync set has the leader, the old members that are neither
    behind nor late, and the replica that caught up; a leader is elected among
    the live members. *)

#[local] Open Scope Z_scope.

(** ** In-sync sets *)

Lemma push_new_elem leader l : ∀ out x,
  x ∈ push_new leader l out ↔ x ∈ out ∨ (x ∈ l ∧ x ≠ leader).
Proof.
  unfold push_new. induction l as [|y l IH]; intros out x; cbn [foldl].
  { split; [by left|]. by intros [?|[?%not_elem_of_nil _]]. }
  rewrite IH, elem_of_cons. clear IH. case_bool_decide as Hl; cbn [andb].
  - case_bool_decide as Ho; cbn [negb]; [|rewrite elem_of_app, list_elem_of_singleton]; naive_solver.
  - naive_solver.
Qed.

Lemma shrink_isr_elem leader isr leo max_lag leo_of x :
  x ∈ shrink_isr leader isr leo max_lag leo_of ↔
  x = leader ∨ (x ∈ isr ∧ x ≠ leader ∧ saturating_sub leo (leo_of x) ≤ max_lag).
Proof. unfold shrink_isr. rewrite elem_of_cons, list_elem_of_filter. naive_solver. Qed.

Lemma shrink_time_elem leader isr ms now last x :
  x ∈ shrink_isr_by_time leader isr ms now last ↔
  x = leader ∨ (x ∈ isr ∧ x ≠ leader ∧ (ms = 0 ∨ caught_up_lately ms now (last x) = true)).
Proof.
  unfold shrink_isr_by_time. destruct (Z.eqb_spec ms 0).
  - rewrite push_new_elem, list_elem_of_singleton. naive_solver.
  - rewrite elem_of_cons, list_elem_of_filter. naive_solver.
Qed.

(** Exactly the leader, the members that are neither behind nor late, and the
    fetching replica when it may join. *)
Lemma reconcile_elem leader isr replicas leo hwm max_lag ms now rid rleo leo_of last x :
  x ∈ (reconcile_isr leader isr replicas leo hwm max_lag ms now (Some (rid, rleo)) leo_of last).1 ↔
  x = leader ∨
  (x ∈ isr ∧ x ≠ leader ∧ saturating_sub leo (leo_of x) ≤ max_lag ∧ (ms = 0 ∨ caught_up_lately ms now (last x) = true)) ∨
  (x = rid ∧ isr_rejoin_eligible rid replicas leo rleo hwm max_lag = true).
Proof.
  unfold reconcile_isr, expand_isr. cbn [fst].
  set (after := shrink_isr_by_time _ _ _ _ _). set (out := push_new leader after [leader]).
  set (e := if negb (rid =? leader) && _ && _ then _ else _).
  assert (Ho : ∀ y, y ∈ out ↔ y = leader ∨
    (y ∈ isr ∧ y ≠ leader ∧ saturating_sub leo (leo_of y) ≤ max_lag ∧ (ms = 0 ∨ caught_up_lately ms now (last y) = true))).
  { intros y. unfold out, after. rewrite push_new_elem, list_elem_of_singleton, shrink_time_elem, shrink_isr_elem. naive_solver. }
  assert (He : ∀ y, y ∈ e ↔ y ∈ out ∨ (y = rid ∧ isr_rejoin_eligible rid replicas leo rleo hwm max_lag = true)).
  { intros y. unfold e. destruct (Z.eqb_spec rid leader) as [->|Hr]; cbn [negb andb].
    { split; [by left|]. intros [?|[-> _]]; [done|]. apply Ho. by left. }
    case_bool_decide as Hi; cbn [negb andb].
    { split; [by left|]. intros [?|[-> _]]; done. }
    destruct (isr_rejoin_eligible _ _ _ _ _ _); [rewrite elem_of_app, list_elem_of_singleton|]; naive_solver. }
  rewrite bool_decide_true by (apply He; left; apply Ho; by left). rewrite He, Ho. tauto.
Qed.

Lemma elect_leader_elem replicas isr live r : elect_leader replicas isr live = Some r → r ∈ isr ∧ r ∈ live.
Proof.
  unfold elect_leader. destruct (head (filter _ replicas)) as [x|] eqn:E.
  - intros [= ->]. apply head_Some_elem_of in E. by apply list_elem_of_filter in E as [? _].
  - intros Hh%head_Some_elem_of. by apply list_elem_of_filter in Hh as [? ?].
Qed.
