(* ===== verification/Placement.v ===== *)
(** * Placement of replicas

    Every partition gets as many distinct brokers as asked for, as far as
    there are that many, and its first replicas are on distinct racks as far as
    there are racks, whether the placement goes by racks or round robin; the
    assignment survives its wire form. *)

From Stdlib Require Import Strings.String.
From S2P Require Import Prelude Bytes Text Messages Assignor AssignorProps OffsetStore Cluster.
#[local] Open Scope Z_scope.

Lemma id_le_sorted l : StronglySorted id_le (merge_sort id_le l).
Proof. apply StronglySorted_merge_sort; [intros a b c; unfold id_le; lia|intros a b; unfold id_le; lia]. Qed.

Lemma dedup_ids l : NoDup (dedup (merge_sort id_le l)) ∧ ∀ x, x ∈ dedup (merge_sort id_le l) ↔ x ∈ l.
Proof.
  split.
  - apply (dedup_sorted_NoDup id_le); [unfold id_le; lia|apply id_le_sorted].
  - intros x. by rewrite dedup_elem, merge_sort_Permutation.
Qed.

Lemma mod_shift_inj (a i j n : nat) : (i < n → j < n → (a + i) mod n = (a + j) mod n → i = j)%nat.
Proof.
  intros Hi Hj E. pose proof (Nat.div_mod_eq (a + i) n). pose proof (Nat.div_mod_eq (a + j) n).
  rewrite E in *. set (x := ((a + i) / n)%nat) in *. set (y := ((a + j) / n)%nat) in *.
  destruct (Nat.lt_trichotomy x y) as [Hxy|[Hxy|Hxy]]; nia.
Qed.

Lemma z_mod_shift_inj a i j n : 0 ≤ i < n → 0 ≤ j < n → (a + i) mod n = (a + j) mod n → i = j.
Proof.
  intros Hi Hj E. pose proof (Z.div_mod (a + i) n ltac:(lia)). pose proof (Z.div_mod (a + j) n ltac:(lia)).
  rewrite E in *. set (x := (a + i) / n) in *. set (y := (a + j) / n) in *.
  destruct (Z.lt_trichotomy x y) as [Hxy|[Hxy|Hxy]]; nia.
Qed.

(** ** Filling the slots of one partition *)

Section fill.
Context (brokers : list (Z * option string)) (groups : list (list Z)) (start : nat).
Hypothesis ids_distinct : NoDup (map fst brokers).
Hypothesis groups_known : ∀ id, id ∈ concat groups → id ∈ map fst brokers.

Lemma next_member_spec rest : ∀ cursor chosen b,
  (next_member rest cursor chosen).1 = Some b → b ∈ rest ∧ b ∉ chosen.
Proof.
  induction rest as [|x rest IH]; intros cursor chosen b; cbn; [done|]. case_bool_decide.
  - intros [? ?]%IH. split; [by right|done].
  - intros [= <-]. split; [left|done].
Qed.

Lemma try_racks_spec first attempts : ∀ cursors chosen b,
  (try_racks groups first attempts cursors chosen).1 = Some b → b ∈ concat groups ∧ b ∉ chosen.
Proof.
  induction attempts as [|a attempts IH]; intros cursors chosen b; cbn [try_racks]; [done|].
  set (ri := (_ mod _)%nat). destruct (next_member _ _ _) as [picked cursor] eqn:E. destruct picked as [x|]; [|apply IH].
  cbn [fst]. intros [= <-]. destruct (next_member_spec (drop (default 0%nat (cursors !! ri)) (default [] (groups !! ri)))
    (default 0%nat (cursors !! ri)) chosen x) as [Hx Hc]; [by rewrite E|]. split; [|done].
  apply (sublist_subseteq _ _ (sublist_drop _ _)) in Hx.
  destruct (groups !! ri) as [g|] eqn:Eg; [|by apply not_elem_of_nil in Hx].
  apply list_elem_of_In, in_concat. exists g. split; apply list_elem_of_In; [by eapply list_elem_of_lookup_2|done].
Qed.

(** Somebody is left while not all are chosen. *)
Lemma any_remaining_spec chosen :
  (length chosen < length brokers)%nat → ∃ b, any_remaining brokers chosen = Some b ∧ b ∈ map fst brokers ∧ b ∉ chosen.
Proof.
  intros Hlt. unfold any_remaining. destruct (filter _ brokers) as [|b bs] eqn:E.
  - exfalso. assert (map fst brokers ⊆ chosen) as Hs.
    { intros x (b & -> & Hb)%list_elem_of_fmap. destruct (decide (b.1 ∈ chosen)) as [|Hn]; [done|].
      assert (b ∈ filter (λ b : Z * option string, b.1 ∉ chosen) brokers) as Hf by (by apply list_elem_of_filter).
      rewrite E in Hf. by apply not_elem_of_nil in Hf. }
    apply (NoDup_submseteq _ _ ids_distinct), submseteq_length in Hs. rewrite length_map in Hs. lia.
  - exists b.1. split; [done|]. assert (b ∈ filter (λ b : Z * option string, b.1 ∉ chosen) brokers) as Hf by (rewrite E; left).
    apply list_elem_of_filter in Hf as [? ?]. split; [by apply list_elem_of_fmap_2|done].
Qed.

Lemma fill_slots_ok slots : ∀ cursors replicas,
  NoDup replicas → (∀ id, id ∈ replicas → id ∈ map fst brokers) →
  (length replicas + length slots ≤ length brokers)%nat →
  ∃ out, fill_slots brokers groups start slots cursors replicas = Some out ∧ NoDup out ∧
    length out = (length replicas + length slots)%nat ∧ ∀ id, id ∈ out → id ∈ map fst brokers.
Proof.
  induction slots as [|slot slots IH]; intros cursors replicas Hnd Hin Hlen; cbn [fill_slots length] in *.
  { exists replicas. split_and!; [done..|lia|done]. }
  destruct (try_racks _ _ _ _ _) as [picked cursors'] eqn:E.
  assert (∃ b, (match picked with Some bid => Some bid | None => any_remaining brokers replicas end) = Some b ∧
    b ∈ map fst brokers ∧ b ∉ replicas) as (b & -> & Hb & Hn).
  { destruct picked as [b|]; [|apply any_remaining_spec; lia]. exists b. split; [done|].
    destruct (try_racks_spec (start + slot) (seq 0 (length groups)) cursors replicas b) as [? ?]; [by rewrite E|]. auto. }
  destruct (IH cursors' (replicas ++ [b])) as (out & Hout & Hnd' & Hl & Hin').
  - apply NoDup_app. split; [done|]. split; [|apply NoDup_singleton]. intros x Hx ->%list_elem_of_singleton. done.
  - intros x [Hx| ->%list_elem_of_singleton]%elem_of_app; auto.
  - rewrite length_app. cbn. lia.
  - exists out. rewrite length_app in Hl. cbn in Hl. split_and!; [done..|lia|done].
Qed.

(** *** Racks in turn *)

Hypothesis groups_full : Forall (λ g, g ≠ []) groups.
Hypothesis groups_apart : ∀ i j g h x, groups !! i = Some g → groups !! j = Some h → x ∈ g → x ∈ h → i = j.

(** The replica of slot [j] is a member of the rack whose turn it is. *)
Definition in_turn (j : nat) (x : Z) : Prop :=
  ∃ g, groups !! ((start + j) mod length groups)%nat = Some g ∧ x ∈ g.

(** A rack from which nobody was taken gives its first member. *)
Lemma first_attempt s cursors chosen :
  (s < length groups)%nat → cursors !! ((start + s) mod length groups)%nat = Some 0%nat →
  length chosen = s → (∀ j x, chosen !! j = Some x → in_turn j x) →
  ∃ x, try_racks groups (start + s) (seq 0 (length groups)) cursors chosen =
    (Some x, <[((start + s) mod length groups)%nat := 1%nat]> cursors) ∧ in_turn s x.
Proof.
  intros Hs Hc Hl Hch. set (ri := ((start + s) mod length groups)%nat) in *.
  destruct (lookup_lt_is_Some_2 groups ri) as [g Hg]; [apply Nat.mod_upper_bound; lia|].
  assert (Hne : g ≠ []) by (eapply (Forall_lookup_1 _ _ _ _ groups_full Hg)). destruct g as [|x g]; [done|].
  assert (Hnew : x ∉ chosen).
  { intros [j Hj]%list_elem_of_lookup. destruct (Hch _ _ Hj) as (h & Hh & Hx).
    assert (ri = ((start + j) mod length groups)%nat) as E by (eapply groups_apart; [done..|left|done]).
    apply lookup_lt_Some in Hj. apply mod_shift_inj in E; lia. }
  exists x. split; [|exists (x :: g); split; [done|left]].
  replace (length groups) with (S (length groups - 1)) at 1 by lia. cbn [seq try_racks].
  rewrite Nat.add_0_r. fold ri. rewrite Hg, Hc. cbn.
  by rewrite bool_decide_false.
Qed.

Lemma fill_slots_turns k : ∀ s cursors replicas out,
  fill_slots brokers groups start (seq s k) cursors replicas = Some out → length replicas = s →
  (∀ i, (s ≤ i < length groups)%nat → cursors !! ((start + i) mod length groups)%nat = Some 0%nat) →
  (∀ j x, (j < length groups)%nat → replicas !! j = Some x → in_turn j x) →
  ∀ j x, (j < length groups)%nat → out !! j = Some x → in_turn j x.
Proof.
  induction k as [|k IH]; intros s cursors replicas out Hf Hl Hc Hr; cbn [seq fill_slots] in Hf.
  { by injection Hf as <-. }
  destruct (decide (s < length groups)%nat) as [Hs|Hs].
  - destruct (first_attempt s cursors replicas Hs (Hc s ltac:(lia)) Hl) as (x & E & Hx).
    { intros j y Hj. apply Hr; [|done]. apply lookup_lt_Some in Hj. lia. }
    rewrite E in Hf. eapply (IH (S s)); [exact Hf|rewrite length_app; cbn; lia| |].
    + intros i Hi. rewrite list_lookup_insert_ne; [by apply Hc; lia|].
      intros Heq. apply mod_shift_inj in Heq; lia.
    + intros j y Hj [Hy|[Hle Hy]]%lookup_app_Some; [by apply Hr|].
      apply list_lookup_singleton_Some in Hy as [Hj0 <-]. by replace j with s by lia.
  - destruct (try_racks _ _ _ _ _) as [picked cursors'] eqn:E. case_match; [|done].
    eapply (IH (S s)); [exact Hf|rewrite length_app; cbn; lia|lia|].
    intros j y Hj [Hy|[Hle Hy]]%lookup_app_Some; [by apply Hr|]. lia.
Qed.

End fill.

(** ** The racks *)

Definition key_of (b : Z * option string) : string := rack_key b.1 b.2.

Lemma rack_fold_spec brokers k : ∀ g0 : gmap string (list Z),
  foldl (λ g b, let k := rack_key b.1 b.2 in <[k := default [] (g !! k) ++ [b.1]]> g) g0 brokers !! k =
  match filter (λ b, key_of b = k) brokers with
  | [] => g0 !! k
  | l => Some (default [] (g0 !! k) ++ map fst l)
  end.
Proof.
  induction brokers as [|b brokers IH]; intros g0; cbn [foldl]; [done|]. rewrite IH, filter_cons. clear IH.
  fold (key_of b). destruct (decide (key_of b = k)) as [<-|Hne].
  - rewrite lookup_insert_eq. destruct (filter _ brokers); cbn; [done|]. by rewrite <- app_assoc.
  - by rewrite lookup_insert_ne.
Qed.

Lemma rack_groups_spec brokers k v :
  rack_groups brokers !! k = Some v →
  v ≠ [] ∧ ∀ x, x ∈ v ↔ ∃ b, b ∈ brokers ∧ key_of b = k ∧ b.1 = x.
Proof.
  unfold rack_groups. rewrite lookup_fmap, fmap_Some, rack_fold_spec, lookup_empty. intros (l & Hl & ->).
  destruct (filter _ brokers) as [|b bs] eqn:E; [done|]. injection Hl as <-.
  assert (Hx : ∀ x, x ∈ dedup (merge_sort id_le (map fst (b :: bs))) ↔ ∃ b, b ∈ brokers ∧ key_of b = k ∧ b.1 = x).
  { intros x. rewrite (proj2 (dedup_ids _)), <- E, list_elem_of_fmap. setoid_rewrite list_elem_of_filter. naive_solver. }
  split; [|done]. intros Hnil. change (dedup (merge_sort id_le (map fst (b :: bs))) = []) in Hnil.
  assert (b.1 ∈ dedup (merge_sort id_le (map fst (b :: bs)))) as Hb by (apply (proj2 (dedup_ids _)); left).
  rewrite Hnil in Hb. by apply not_elem_of_nil in Hb.
Qed.

Lemma rack_groups_dom brokers : dom (rack_groups brokers) = list_to_set (map key_of brokers).
Proof.
  apply set_eq. intros k. unfold rack_groups. rewrite dom_fmap, elem_of_dom, rack_fold_spec, lookup_empty.
  rewrite elem_of_list_to_set, list_elem_of_fmap. destruct (filter _ brokers) as [|b bs] eqn:E.
  - split; [by intros [? ?]|]. intros (b & -> & Hb).
    assert (b ∈ filter (λ b', key_of b' = key_of b) brokers) as Hf by (by apply list_elem_of_filter).
    rewrite E in Hf. by apply not_elem_of_nil in Hf.
  - split; [|by eexists]. intros _. assert (b ∈ filter (λ b', key_of b' = k) brokers) as Hf by (rewrite E; left).
    apply list_elem_of_filter in Hf as [<- ?]. by exists b.
Qed.

(** The members of each rack, with its key. *)
Lemma rack_members_spec brokers i g :
  rack_members brokers !! i = Some g →
  ∃ k, merge_sort str_le (map fst (map_to_list (rack_groups brokers))) !! i = Some k ∧ g ≠ [] ∧
    ∀ x, x ∈ g ↔ ∃ b, b ∈ brokers ∧ key_of b = k ∧ b.1 = x.
Proof.
  unfold rack_members. rewrite list_lookup_fmap, fmap_Some. intros (k & Hk & ->). exists k. split; [done|].
  apply list_elem_of_lookup_2 in Hk. rewrite merge_sort_Permutation in Hk.
  apply list_elem_of_fmap in Hk as ([k' v] & -> & Hv%elem_of_map_to_list). cbn. rewrite Hv. by apply rack_groups_spec.
Qed.

Lemma rack_keys_distinct brokers : NoDup (merge_sort str_le (map fst (map_to_list (rack_groups brokers)))).
Proof. rewrite merge_sort_Permutation. apply NoDup_fst_map_to_list. Qed.

Lemma rack_members_length brokers :
  length (rack_members brokers) = size (list_to_set (map key_of brokers) : gset string).
Proof.
  rewrite <- rack_groups_dom, size_dom. unfold rack_members. rewrite length_map.
  rewrite merge_sort_Permutation, length_map. apply length_map_to_list.
Qed.

(** ** One partition *)

Section racks.
Context (brokers : list (Z * option string)).
Hypothesis ids_distinct : NoDup (map fst brokers).

Lemma racks_known id : id ∈ concat (rack_members brokers) → id ∈ map fst brokers.
Proof.
  intros (g & Hg & Hid)%list_elem_of_In%in_concat. apply list_elem_of_In, list_elem_of_lookup in Hg as [i Hi].
  apply list_elem_of_In in Hid. apply rack_members_spec in Hi as (k & _ & _ & Hx).
  apply Hx in Hid as (b & Hb & _ & <-). by apply list_elem_of_fmap_2.
Qed.

Lemma same_broker b b' : b ∈ brokers → b' ∈ brokers → b.1 = b'.1 → b = b'.
Proof.
  intros [i Hi]%list_elem_of_lookup [j Hj]%list_elem_of_lookup E.
  assert (i = j) as ->; [|congruence].
  eapply (NoDup_lookup (map fst brokers)); [done|rewrite list_lookup_fmap, Hi; done|rewrite list_lookup_fmap, Hj; cbn; by rewrite E].
Qed.

Lemma racks_apart i j g h x :
  rack_members brokers !! i = Some g → rack_members brokers !! j = Some h → x ∈ g → x ∈ h → i = j.
Proof.
  intros (k & Hk & _ & Hg)%rack_members_spec (k' & Hk' & _ & Hh)%rack_members_spec.
  intros (b & Hb & <- & Hx)%Hg (b' & Hb' & <- & Hx')%Hh.
  assert (b = b') as -> by (apply same_broker; [done..|congruence]).
  by eapply (NoDup_lookup _ _ _ _ (rack_keys_distinct brokers)).
Qed.

Lemma racks_full : Forall (λ g, g ≠ []) (rack_members brokers).
Proof. apply Forall_lookup_2. by intros i g (k & _ & ? & _)%rack_members_spec. Qed.

End racks.

(** Distinct brokers, as many as asked for as far as there are that many, and
    at least one. *)
Definition placed (ids : list Z) (rf : Z) (rs : list Z) : Prop :=
  NoDup rs ∧ zlen rs = clamp_rf rf (zlen ids) ∧ ∀ id, id ∈ rs → id ∈ ids.

(** The first replicas, as many as there are racks, share none. *)
Definition rack_diverse (brokers : list (Z * option string)) (rs : list Z) : Prop :=
  ∀ i j a b, (i < j < size (list_to_set (map key_of brokers) : gset string))%nat →
    a ∈ brokers → b ∈ brokers → rs !! i = Some a.1 → rs !! j = Some b.1 → key_of a ≠ key_of b.

Lemma clamp_bounds rf n : 1 ≤ n → 1 ≤ clamp_rf rf n ≤ n.
Proof. unfold clamp_rf. lia. Qed.

Lemma fill_diverse brokers start k cursors out :
  NoDup (map fst brokers) → cursors = replicate (length (rack_members brokers)) 0%nat →
  fill_slots brokers (rack_members brokers) start (seq 0 k) cursors [] = Some out → rack_diverse brokers out.
Proof.
  intros Hnd -> E i j a b Hij Ha Hb Hi Hj Hkey. rewrite <- rack_members_length in Hij.
  pose proof (fill_slots_turns brokers _ start (racks_full brokers) (racks_apart brokers Hnd) _ _ _ _ _ E eq_refl) as HT.
  destruct (HT ltac:(intros; apply lookup_replicate_2, Nat.mod_upper_bound; lia) ltac:(done) i a.1 ltac:(lia) Hi) as (g & Hg & Hag).
  destruct (HT ltac:(intros; apply lookup_replicate_2, Nat.mod_upper_bound; lia) ltac:(done) j b.1 ltac:(lia) Hj) as (h & Hh & Hbh).
  pose proof (rack_members_spec _ _ _ Hg) as (k1 & Hk & _ & Hgk). pose proof (rack_members_spec _ _ _ Hh) as (k2 & Hk' & _ & Hhk).
  apply Hgk in Hag as (a' & Ha' & <- & Ea). apply Hhk in Hbh as (b' & Hb' & <- & Eb).
  assert (a' = a) as -> by by eapply same_broker. assert (b' = b) as -> by by eapply same_broker.
  rewrite Hkey in Hk. pose proof (NoDup_lookup _ _ _ _ (rack_keys_distinct brokers) Hk Hk') as Heq.
  apply mod_shift_inj in Heq; lia.
Qed.

Lemma some_rack brokers : brokers ≠ [] → (1 ≤ length (rack_members brokers))%nat.
Proof.
  rewrite rack_members_length. destruct brokers as [|b brokers]; [done|]. intros _.
  assert (key_of b ∈ (list_to_set (map key_of (b :: brokers)) : gset string)) as Hk by set_solver.
  destruct (decide (size (list_to_set (map key_of (b :: brokers)) : gset string) = 0%nat)) as [E|]; [|lia].
  apply size_empty_iff in E. set_solver.
Qed.

Lemma rack_aware_ok topic n brokers rf :
  NoDup (map fst brokers) → brokers ≠ [] →
  ∃ out, assign_replicas_rack_aware topic n brokers rf = Some out ∧ length out = Z.to_nat n ∧
    Forall (λ rs, placed (map fst brokers) rf rs ∧ rack_diverse brokers rs) out.
Proof.
  intros Hnd Hne. unfold assign_replicas_rack_aware. pose proof (some_rack brokers Hne) as Hpos.
  rewrite (proj2 (Nat.ltb_ge _ _)) by lia. set (rf' := clamp_rf rf (zlen brokers)).
  assert (Hrf : 1 ≤ rf' ≤ zlen brokers).
  { apply clamp_bounds. destruct brokers as [|b bs]; [done|]. rewrite zlen_cons. pose proof (zlen_nonneg bs). lia. }
  set (f := λ p : nat, _).
  assert (Hf : ∀ p, ∃ rs, f p = Some rs ∧ placed (map fst brokers) rf rs ∧ rack_diverse brokers rs).
  { intros p. unfold f. set (start := Z.to_nat _).
    destruct (fill_slots_ok brokers (rack_members brokers) start Hnd (racks_known brokers) (seq 0 (Z.to_nat rf'))
      (replicate (length (rack_members brokers)) 0%nat) []) as (rs & E & Hrs & Hl & Hin).
    { constructor. } { by intros id Hid%not_elem_of_nil. } { rewrite length_seq. unfold zlen in Hrf. cbn. lia. }
    exists rs. split; [done|]. split; [|by eapply fill_diverse].
    split; [done|]. split; [|done]. rewrite length_seq in Hl. cbn in Hl. unfold zlen at 1. rewrite Hl, Z2Nat.id by lia.
    unfold zlen at 1. by rewrite length_map. }
  assert (HS : is_Some (mapM f (seq 0 (Z.to_nat n)))).
  { apply mapM_is_Some, Forall_forall. intros p _. destruct (Hf p) as (rs & Hp & _). by exists rs. }
  destruct HS as [out Hout]. exists out. split; [done|]. apply mapM_Some in Hout.
  split; [by rewrite <- (Forall2_length _ _ _ Hout), length_seq|].
  eapply Forall2_Forall_r; [exact Hout|]. apply Forall_forall. intros p _ rs Hp.
  destruct (Hf p) as (rs' & Hp' & ?). by simplify_eq.
Qed.

Lemma round_robin_ok topic n ids rf :
  NoDup ids → ids ≠ [] →
  ∃ out, assign_replicas_round_robin topic n ids rf = Some out ∧ length out = Z.to_nat n ∧ Forall (placed ids rf) out.
Proof.
  intros Hnd Hne. unfold assign_replicas_round_robin. rewrite bool_decide_false by done.
  destruct (dedup_ids ids) as [Hd Hx]. set (l := dedup _) in *.
  assert (Hp : l ≡ₚ ids) by by apply NoDup_Permutation.
  assert (Hz : zlen l = zlen ids) by (unfold zlen; by rewrite Hp). rewrite Hz.
  assert (Hpos : 1 ≤ zlen ids) by (destruct ids as [|i l']; [done|]; rewrite zlen_cons; pose proof (zlen_nonneg l'); lia).
  pose proof (clamp_bounds rf _ Hpos) as Hrf. set (k := clamp_rf rf (zlen ids)) in *.
  eexists. split; [done|]. split; [by rewrite length_map, length_seq|].
  apply Forall_map, Forall_forall. intros p _. cbn zeta. set (start := _ mod zlen ids).
  assert (Hat : ∀ i, (i < Z.to_nat k)%nat → ∃ x, l !! Z.to_nat ((start + Z.of_nat i) mod zlen ids) = Some x).
  { intros i Hi. apply lookup_lt_is_Some_2. pose proof (Z.mod_pos_bound (start + Z.of_nat i) (zlen ids)). unfold zlen in *. lia. }
  split; [|split].
  - apply NoDup_alt. intros i j x. rewrite !list_lookup_fmap, !fmap_Some.
    intros (i' & Hi & ->) (j' & Hj & Hij). apply lookup_seq in Hi as [-> Hi], Hj as [-> Hj]. cbn in Hij.
    destruct (Hat i Hi) as [y Hy]. destruct (Hat j Hj) as [y' Hy']. rewrite Hy, Hy' in Hij. cbn in Hij. subst y'.
    pose proof (NoDup_lookup _ _ _ _ Hd Hy Hy') as E.
    apply Z2Nat.inj in E; [|apply Z.mod_pos_bound; lia..]. apply z_mod_shift_inj in E; lia.
  - unfold zlen at 1. rewrite length_map, length_seq. fold k. lia.
  - intros x (i & -> & Hi)%list_elem_of_fmap. apply elem_of_seq in Hi. destruct (Hat i ltac:(lia)) as [y Hy]. rewrite Hy.
    apply Hx. by eapply list_elem_of_lookup_2.
Qed.

(** ** All partitions of a topic *)

Lemma dedup_brokers_spec l :
  StronglySorted broker_le l →
  StronglySorted Z.lt (map fst (dedup_brokers l)) ∧ (∀ x, x ∈ dedup_brokers l → x ∈ l) ∧
  ∀ x, x ∈ l → ∃ y, y ∈ dedup_brokers l ∧ y.1 = x.1.
Proof.
  induction 1 as [|x l Hs (IH1 & IH2 & IH3) HF]; cbn [dedup_brokers].
  { split; [constructor|]. split; [done|]. by intros x Hx%not_elem_of_nil. }
  destruct (dedup_brokers l) as [|y d] eqn:E.
  { destruct l as [|z l]; [|destruct (IH3 z ltac:(left)) as (? & []%not_elem_of_nil & _)].
    split; [by repeat constructor|]. split; [done|]. intros z Hz. by exists z. }
  assert (Hxy : x.1 ≤ y.1). { rewrite Forall_forall in HF. apply (HF y), IH2. left. }
  destruct (Z.eqb_spec x.1 y.1) as [Heq|Hne].
  - split; [cbn; by rewrite Heq|]. split.
    + intros z [->|Hz]%elem_of_cons; [left|right]. apply IH2. by right.
    + intros z [->|Hz]%elem_of_cons; [exists x; split; [left|done]|].
      destruct (IH3 z Hz) as (w & [->|Hw]%elem_of_cons & Ew); [exists x; split; [left|congruence]|].
      exists w. split; [by right|done].
  - split.
    + cbn [map]. constructor; [done|]. apply StronglySorted_inv in IH1 as [_ Hy]. constructor; [lia|].
      eapply Forall_impl; [exact Hy|]. cbn. lia.
    + split.
      * intros z [->|Hz]%elem_of_cons; [left|right]. by apply IH2.
      * intros z [->|Hz]%elem_of_cons; [exists x; split; [left|done]|].
        destruct (IH3 z Hz) as (w & Hw & Ew). exists w. split; [by right|done].
Qed.

Lemma sorted_lt_NoDup l : StronglySorted Z.lt l → NoDup l.
Proof.
  induction 1 as [|x l _ IH HF]; constructor; [|done]. intros Hx. rewrite Forall_forall in HF. specialize (HF x Hx). lia.
Qed.

(** The brokers as the placement sees them. *)
Definition cleaned (brokers : list (Z * option string)) : list (Z * option string) :=
  map (λ b, (b.1, clean_rack b.2)) brokers.

Lemma cleaned_ids brokers : map fst (cleaned brokers) = map fst brokers.
Proof. unfold cleaned. rewrite map_map. done. Qed.

Lemma placed_perm ids ids' rf rs : ids ≡ₚ ids' → placed ids rf rs → placed ids' rf rs.
Proof. intros Hp (? & Hz & Hin). split; [done|]. unfold zlen in *. split; [by rewrite <- Hp|]. intros id Hid. rewrite <- Hp. auto. Qed.

Lemma rack_diverse_perm bs bs' rs : bs ≡ₚ bs' → rack_diverse bs rs → rack_diverse bs' rs.
Proof.
  intros Hp Hd i j a b Hij Ha Hb. rewrite <- Hp in Ha, Hb. apply Hd; [|done|done].
  by rewrite (list_to_set_perm_L (map key_of bs) (map key_of bs')) by by apply fmap_Permutation.
Qed.

(** C33: Whatever racks, broker list and replication factor: the
    placement never fails on a non-empty list; every partition gets distinct
    brokers of the list, as many as the factor says as far as there are that many, and at
    least one; when racks are taken into account, the first replicas of a
    partition, as many as there are racks, are on distinct racks. *)
Theorem placement_exact env topic n brokers rf :
  brokers ≠ [] →
  ∃ out rack, assign_replicas env topic n brokers rf = Some (out, rack) ∧ length out = Z.to_nat n ∧
    Forall (placed (elements (list_to_set (map fst brokers) : gset Z)) rf) out ∧
    (rack = true → NoDup (map fst brokers) → Forall (rack_diverse (cleaned brokers)) out).
Proof.
  intros Hne. unfold assign_replicas. fold (cleaned brokers). rewrite bool_decide_false by (by destruct brokers).
  set (l := dedup_brokers _).
  destruct (dedup_brokers_spec (merge_sort broker_le (cleaned brokers))) as (Hs & Hsub & Hcov).
  { apply StronglySorted_merge_sort; [intros a b c; unfold broker_le; lia|intros a b; unfold broker_le; lia]. }
  fold l in Hs, Hsub, Hcov. setoid_rewrite merge_sort_Permutation in Hsub. setoid_rewrite merge_sort_Permutation in Hcov.
  apply sorted_lt_NoDup in Hs.
  assert (Hids : map fst l ≡ₚ elements (list_to_set (map fst brokers) : gset Z)).
  { apply NoDup_Permutation; [done|apply NoDup_elements|]. intros x.
    rewrite elem_of_elements, elem_of_list_to_set, <- (cleaned_ids brokers), !list_elem_of_fmap. split.
    - intros (b & -> & Hb). exists b. auto.
    - intros (b & -> & Hb). destruct (Hcov b Hb) as (y & Hy & E). by exists y. }
  assert (Hlne : l ≠ []).
  { intros E. destruct brokers as [|b bs]; [done|]. destruct (Hcov (b.1, clean_rack b.2)) as (y & Hy & _); [left|].
    rewrite E in Hy. by apply not_elem_of_nil in Hy. }
  destruct (will_use_rack_aware_assignment env l).
  - destruct (rack_aware_ok topic n l rf Hs Hlne) as (out & -> & Hlen & Hout). exists out, true. split; [done|]. split; [done|].
    apply Forall_and in Hout as [Hp Hd]. split; [eapply Forall_impl; [exact Hp|]; intros rs; by apply placed_perm|].
    intros _ Hnd. eapply Forall_impl; [exact Hd|]. intros rs. apply rack_diverse_perm.
    apply NoDup_Permutation; [by eapply NoDup_fmap_1|rewrite <- cleaned_ids in Hnd; by eapply NoDup_fmap_1|].
    intros x. split; [apply Hsub|]. intros Hx. destruct (Hcov x Hx) as (y & Hy & E).
    assert (y = x) as <-; [|done]. eapply (same_broker (cleaned brokers)); [by rewrite cleaned_ids|auto|done|done].
  - destruct (round_robin_ok topic n (map fst l) rf Hs) as (out & -> & Hlen & Hout); [by destruct l|].
    exists out, false. split; [done|]. split; [done|]. split; [|done].
    eapply Forall_impl; [exact Hout|]. intros rs. by apply placed_perm.
Qed.

Definition two_racks : list (Z * option string) :=
  [(4, Some "b"%string); (1, Some " a"%string); (2, Some "a"%string); (3, Some "b"%string)].

Lemma placement_exact_witness :
  ∃ out, assign_replicas None "orders" 6 two_racks 3 = Some (out, true) ∧ length out = 6%nat ∧
    Forall (placed (elements (list_to_set (map fst two_racks) : gset Z)) 3) out ∧
    Forall (rack_diverse (cleaned two_racks)) out.
Proof.
  destruct (placement_exact None "orders" 6 two_racks 3) as (out & rack & E & Hl & Hp & Hd); [done|].
  assert (rack = true) as ->.
  { assert (snd <$> assign_replicas None "orders" 6 two_racks 3 = Some true) as Ht by (vm_compute; reflexivity).
    rewrite E in Ht. by injection Ht. }
  exists out. split; [exact E|]. split; [exact Hl|]. split; [exact Hp|]. apply Hd; [done|].
  apply (bool_decide_unpack _). vm_compute. exact I.
Defined.

(** ** The assignment on the wire *)

Lemma topic_wire t : topic_of_wire (topic_to_wire t) = t.
Proof.
  destruct t as [id name parts]. unfold topic_of_wire, topic_to_wire. cbn. f_equal.
  apply (rebuild_map cps_partition_id partition_of_wire). rewrite merge_sort_Permutation, map_map.
  cbn. rewrite (map_ext _ (λ e, e)), map_id; [done|]. by intros [? []].
Qed.

(** A broker that takes over the wire form of an assignment, topics
    and partitions in the order of their names and numbers, has the assignment of
    the broker that sent it, whatever it had before. *)
Theorem assignment_roundtrip a a' generation :
  map_Forall (λ name t, ta_name t = name) (as_topics a) →
  apply_wire generation (to_wire_topics a) a' = set_generation generation a.
Proof.
  intros Hn. unfold apply_wire, set_generation. f_equal. apply (rebuild_map cts_name topic_of_wire).
  unfold to_wire_topics. rewrite merge_sort_Permutation, map_map.
  apply reflexive_eq. rewrite <- (map_id (map_to_list (as_topics a))) at 2. apply map_ext_in.
  intros [name t] Ht%list_elem_of_In%elem_of_map_to_list. cbn. rewrite topic_wire. by rewrite <- (Hn _ _ Ht).
Qed.

Lemma assignment_roundtrip_witness :
  let a := mkAssignment 3 {["orders"%string := mkTopicAssignment 1 "orders" {[0 := mkPartitionAssignment [1; 2] 1 [1] 4]}]} in
  apply_wire 3 (to_wire_topics a) (mkAssignment 0 ∅) = a.
Proof.
  cbn zeta. rewrite (assignment_roundtrip _ (mkAssignment 0 ∅) 3); [reflexivity|].
  apply map_Forall_singleton. reflexivity.
Defined.
