(* ===== verification/KafkaWire.v ===== *)
(** * Kafka wire primitives: [volant-broker/src/kafka/codec.rs] and [wire.rs]

    Big-endian integers, classic and compact strings, byte strings and arrays,
    varints, tagged fields, request frames and headers.  Writers append and
    cannot fail; readers are those of the native protocol.  Shifts by 32 bits or
    more and narrowing casts are those of a release build: the shift count is
    taken modulo 32, casts keep the low bits. *)

From Stdlib Require Import Strings.String.
From S2P Require Import Prelude Bytes Wire.
#[local] Open Scope Z_scope.

(** ** Integers *)

Definition get_be (n : Z) : reader Z := b ← get_slice n; mret (be_val b).
Definition get_i8 : reader Z := v ← get_be 1; mret (signed 8 v).
Definition get_i16 : reader Z := v ← get_be 2; mret (signed 16 v).
Definition get_i32 : reader Z := v ← get_be 4; mret (signed 32 v).
Definition get_i64 : reader Z := v ← get_be 8; mret (signed 64 v).
Definition get_u32 : reader Z := get_be 4.

Definition put_i8 (v : Z) : bytes := be_bytes 1 v.
Definition put_i16 (v : Z) : bytes := be_bytes 2 v.
Definition put_i32 (v : Z) : bytes := be_bytes 4 v.
Definition put_i64 (v : Z) : bytes := be_bytes 8 v.
Definition put_u32 (v : Z) : bytes := be_bytes 4 v.

Definition as_i16 (v : Z) : Z := signed 16 v.

(** ** Strings and byte strings *)

Definition put_string (s : string) : bytes := put_i16 (as_i16 (str_len s)) ++ as_bytes s.

Definition put_nullable_string (s : option string) : bytes :=
  match s with None => put_i16 (-1) | Some v => put_string v end.

(** [String::from_utf8(buf)] *)
Definition utf8 (msg : string) (buf : bytes) : reader string :=
  match from_utf8 buf with Some s => mret s | None => fail msg end.

Definition get_string : reader string :=
  need 2 "truncated kafka string len";;
  len ← get_i16;
  if len <? 0 then fail "unexpected null kafka string" else
  need len "truncated kafka string body";;
  buf ← get_slice len;
  utf8 "kafka string utf8" buf.

Definition get_nullable_string : reader (option string) :=
  need 2 "truncated kafka nullable string len";;
  len ← get_i16;
  if len <? 0 then mret None else
  need len "truncated kafka nullable string body";;
  buf ← get_slice len;
  s ← utf8 "kafka string utf8" buf;
  mret (Some s).

Definition get_bytes : reader (option bytes) :=
  need 4 "truncated kafka bytes len";;
  len ← get_i32;
  if len <? 0 then mret None else
  need len "truncated kafka bytes body";;
  buf ← get_slice len;
  mret (Some buf).

Definition put_bytes (b : option bytes) : bytes :=
  match b with
  | None => put_i32 (-1)
  | Some v => put_i32 (as_i32 (zlen v)) ++ v
  end.

(** ** Varints *)

(** The loop of both writers; a 32-bit value has at most five groups of seven
    bits. *)
Fixpoint put_groups (fuel : nat) (value : Z) : bytes :=
  if Z.land value 4294967168 =? 0 then [byte_of value]
  else byte_of (Z.lor (Z.land value 127) 128) ::
       match fuel with O => [] | S fuel => put_groups fuel (Z.shiftr value 7) end.

Definition put_unsigned_varint (value : Z) : bytes := put_groups 4 value.

(** Zig-zag. *)
Definition write_varint (n : Z) : bytes :=
  put_groups 4 (as_u32 (Z.lxor (as_i32 (Z.shiftl n 1)) (Z.shiftr n 31))).

(** The loop of both readers, up to the shift the check at its end lets
    pass. *)
Fixpoint read_groups (truncated long : string) (limit : Z) (fuel : nat) (shift result : Z) : reader Z :=
  need 1 truncated;;
  b ← get_u8;
  let result := Z.lor result (as_u32 (Z.shiftl (Z.land b 127) (shift mod 32))) in
  if Z.land b 128 =? 0 then mret result else
  let shift := shift + 7 in
  if limit <? shift then fail long else
  match fuel with
  | O => fail long
  | S fuel => read_groups truncated long limit fuel shift result
  end.

Definition read_unsigned_varint : reader Z :=
  read_groups "truncated unsigned varint" "unsigned varint too long" 28 4 0 0.

Definition read_varint : reader Z :=
  result ← read_groups "truncated varint" "varint too long" 35 5 0 0;
  mret (Z.lxor (as_i32 (Z.shiftr result 1)) (- as_i32 (Z.land result 1))).

(** ** Compact forms *)

Definition u32_sat_succ (n : Z) : Z := Z.min u32_max (as_u32 n + 1).

Definition get_compact_bytes : reader (option bytes) :=
  n ← read_unsigned_varint;
  if n =? 0 then mret None else
  need (n - 1) "truncated compact bytes body";;
  buf ← get_slice (n - 1);
  mret (Some buf).

Definition put_compact_bytes (b : option bytes) : bytes :=
  match b with
  | None => put_unsigned_varint 0
  | Some v => put_unsigned_varint (u32_sat_succ (zlen v)) ++ v
  end.

Definition put_compact_string (s : string) : bytes :=
  put_unsigned_varint (u32_sat_succ (str_len s)) ++ as_bytes s.

Definition put_compact_nullable_string (s : option string) : bytes :=
  match s with None => put_unsigned_varint 0 | Some v => put_compact_string v end.

Definition get_compact_string : reader string :=
  n ← read_unsigned_varint;
  if n =? 0 then fail "unexpected null compact string" else
  need (n - 1) "truncated compact string body";;
  buf ← get_slice (n - 1);
  utf8 "compact string utf8" buf.

Definition get_compact_nullable_string : reader (option string) :=
  n ← read_unsigned_varint;
  if n =? 0 then mret None else
  need (n - 1) "truncated compact nullable string";;
  buf ← get_slice (n - 1);
  s ← utf8 "compact string utf8" buf;
  mret (Some s).

Definition put_compact_array_len (n : Z) : bytes := put_unsigned_varint (u32_sat_succ n).

Definition get_compact_array_len : reader (option Z) :=
  n ← read_unsigned_varint;
  if n =? 0 then mret None else mret (Some (n - 1)).

(** ** Tagged fields *)

Definition put_empty_tag_buffer : bytes := put_unsigned_varint 0.

Definition skip_field : reader unit :=
  read_unsigned_varint;;
  len ← read_unsigned_varint;
  need len "truncated tagged field body";;
  get_slice len;;
  mret tt.

Definition skip_tag_buffer : reader unit :=
  n ← read_unsigned_varint;
  times n skip_field;;
  mret tt.

(** One field of [read_delete_records_wait_tag]: the flag, if it is the one. *)
Definition wait_field : reader (option Z) :=
  tag ← read_unsigned_varint;
  len ← read_unsigned_varint;
  need len "truncated tagged field body";;
  if (tag =? 0) && (1 <=? len) then
    flag ← get_u8; get_slice (len - 1);; mret (Some flag)
  else get_slice len;; mret None.

Definition read_delete_records_wait_tag : reader Z :=
  n ← read_unsigned_varint;
  fields ← times n wait_field;
  mret (foldl (λ flag f, default flag f) 0 fields).

(** ** Uuids *)

Definition KAFKA_UUID_LEN : Z := 16.
Definition KAFKA_UUID_ZERO : bytes := replicate 16 x00.

Definition get_uuid : reader bytes := need KAFKA_UUID_LEN "truncated kafka uuid";; get_slice KAFKA_UUID_LEN.

Definition volant_topic_uuid (topic_id : Z) : bytes :=
  as_bytes "volant" ++ replicate 6 x00 ++ be_bytes 4 topic_id.

Definition parse_volant_topic_uuid (uuid : bytes) : option Z :=
  if bool_decide (uuid = KAFKA_UUID_ZERO) then None
  else if bool_decide (take 6 uuid = as_bytes "volant") && forallb (λ b, byte_val b =? 0) (take 6 (drop 6 uuid))
  then Some (be_val (drop 12 uuid))
  else None.

(** ** Frames and headers *)

(** What is left of the buffer and the body of a complete request. *)
Definition try_decode_request (buf : bytes) : result (option bytes * bytes) :=
  if zlen buf <? 4 then Ok (None, buf) else
  let size := signed 32 (be_val (ztake 4 buf)) in
  if size <? 0 then Err (Protocol "negative kafka frame size") else
  if 16 * 1024 * 1024 <? size then Err (Protocol "kafka frame too large") else
  if zlen buf <? 4 + size then Ok (None, buf) else
  Ok (Some (ztake size (zdrop 4 buf)), zdrop size (zdrop 4 buf)).

Definition encode_response_frame (body : bytes) : bytes := put_i32 (as_i32 (zlen body)) ++ body.

Record RequestHeader := mkRequestHeader {
  api_key : Z;
  api_version : Z;
  correlation_id : Z;
  client_id : option string;
}.

Definition decode_request_header : reader RequestHeader :=
  need 8 "truncated kafka request header";;
  key ← get_i16;
  version ← get_i16;
  correlation ← get_i32;
  client ← get_nullable_string;
  mret (mkRequestHeader key version correlation client).

Definition put_response_header (correlation : Z) : bytes := put_i32 correlation.
Definition put_response_header_v1 (correlation : Z) : bytes := put_i32 correlation ++ put_empty_tag_buffer.

(** The two forms of a request, by whether its header ends in a tag buffer. *)
Definition encode_request_inner (flexible : bool) (h : RequestHeader) (body : bytes) : bytes :=
  put_i16 (api_key h) ++ put_i16 (api_version h) ++ put_i32 (correlation_id h) ++
  put_nullable_string (client_id h) ++ (if flexible then put_empty_tag_buffer else []) ++ body.

Definition encode_request (h : RequestHeader) (body : bytes) : bytes :=
  let inner := encode_request_inner false h body in put_i32 (as_i32 (zlen inner)) ++ inner.

Definition encode_request_flexible (h : RequestHeader) (body : bytes) : bytes :=
  let inner := encode_request_inner true h body in put_i32 (as_i32 (zlen inner)) ++ inner.

(** ** Classic or compact: [wire.rs] *)

Definition read_string (flex : bool) : reader string := if flex then get_compact_string else get_string.

Definition read_nullable_string (flex : bool) : reader (option string) :=
  if flex then get_compact_nullable_string else get_nullable_string.

Definition read_array_len (flex : bool) : reader (option Z) :=
  if flex then get_compact_array_len
  else need 4 "truncated classic array length";; n ← get_i32; mret (Some (Z.max n 0)).
