(* ===== verification/KafkaWireProps.v ===== *)
(** * Correctness of the Kafka wire primitives

    What is written is read back: integers, varints, classic and compact
    strings and byte strings, tag buffers, uuids, and whole requests off a
    stream. *)

From Stdlib Require Import Strings.String.
From S2P Require Import Prelude Bytes Wire WireLogic KafkaWire.
#[local] Open Scope Z_scope.

(** ** Integers *)

Lemma signed_mod w z : signed w (z mod 2 ^ w) = signed w z.
Proof. unfold signed. by rewrite Zmod_mod. Qed.

Lemma rd_get_be {B} n m v rest (f : Z → reader B) :
  n = Z.of_nat m → 0 ≤ v < 256 ^ n → (get_be n ≫= f) (be_bytes m v ++ rest) = f v rest.
Proof.
  intros -> Hv. unfold get_be. rewrite bind_assoc, rd_get_slice by by rewrite zlen_be_bytes.
  by rewrite bind_ret, be_val_small.
Qed.

Lemma rd_be_signed {B} n m w v rest (f : Z → reader B) :
  n = Z.of_nat m → 256 ^ Z.of_nat m = 2 ^ w → 0 < w → - 2 ^ (w - 1) ≤ v < 2 ^ (w - 1) →
  ((x ← get_be n; mret (signed w x)) ≫= f) (be_bytes m v ++ rest) = f v rest.
Proof.
  intros -> Hw Hp Hv. unfold get_be. rewrite !bind_assoc, rd_get_slice by by rewrite zlen_be_bytes.
  change (f (signed w (be_val (be_bytes m v))) rest = f v rest).
  rewrite be_val_bytes, <- le_val_bytes. by rewrite signed_le_val.
Qed.

Section integers.
Context {B : Type}.
Implicit Type f : Z → reader B.

Lemma rd_be_i8 v rest f : -128 ≤ v < 128 → (get_i8 ≫= f) (put_i8 v ++ rest) = f v rest.
Proof. intros. by apply rd_be_signed. Qed.
Lemma rd_be_i16 v rest f : is_i16 v = true → (get_i16 ≫= f) (put_i16 v ++ rest) = f v rest.
Proof. unfold is_i16. intros. apply rd_be_signed; [done..|]. lia. Qed.
Lemma rd_be_i32 v rest f : is_i32 v = true → (get_i32 ≫= f) (put_i32 v ++ rest) = f v rest.
Proof. unfold is_i32. intros. apply rd_be_signed; [done..|]. lia. Qed.
Lemma rd_be_i64 v rest f : is_i64 v = true → (get_i64 ≫= f) (put_i64 v ++ rest) = f v rest.
Proof. unfold is_i64, i64_min, i64_max. intros. apply rd_be_signed; [done..|]. lia. Qed.
Lemma rd_be_u32 v rest f : 0 ≤ v < 4294967296 → (get_u32 ≫= f) (put_u32 v ++ rest) = f v rest.
Proof. intros. by apply rd_get_be. Qed.

End integers.

(** ** Varints *)

Lemma lor_shift r x s : 0 ≤ s → 0 ≤ r < 2 ^ s → 0 ≤ x → Z.lor r (x * 2 ^ s) = r + x * 2 ^ s.
Proof.
  intros Hs Hr Hx. assert (Hl : Z.land r (x * 2 ^ s) = 0).
  { apply Z.bits_inj'. intros n Hn. rewrite Z.land_spec, Z.bits_0. destruct (decide (n < s)).
    - rewrite (Z.mul_pow2_bits_low x s n) by lia. apply andb_false_r.
    - destruct (decide (r = 0)) as [->|]; [by rewrite Z.bits_0|].
      rewrite (Z.bits_above_log2 r n); [done|lia|]. apply Z.log2_lt_pow2; [lia|].
      apply Z.lt_le_trans with (2 ^ s); [lia|]. apply Z.pow_le_mono_r; lia. }
  rewrite <- Z.lxor_lor by done. by rewrite <- Z.add_nocarry_lxor.
Qed.

Lemma high_bits v : 0 ≤ v < 4294967296 → (Z.land v 4294967168 =? 0) = (v <? 128).
Proof.
  intros Hv. assert (E : Z.land v 4294967168 = v / 128 * 128).
  { change 128 with (2 ^ 7). rewrite <- Z.shiftr_div_pow2, <- Z.shiftl_mul_pow2 by lia.
    change 4294967168 with (Z.shiftl (Z.ones 25) 7). apply Z.bits_inj'. intros n Hn. rewrite Z.land_spec.
    destruct (decide (n < 7)); [rewrite !Z.shiftl_spec_low by lia; apply andb_false_r|].
    rewrite !Z.shiftl_spec by lia. rewrite Z.shiftr_spec by lia. replace (n - 7 + 7) with n by lia.
    destruct (decide (n < 32)); [rewrite Z.ones_spec_low by lia; apply andb_true_r|].
    rewrite Z.ones_spec_high by lia. rewrite andb_false_r. symmetry. destruct (decide (v = 0)) as [->|]; [apply Z.bits_0|].
    apply Z.bits_above_log2; [lia|]. apply Z.log2_lt_pow2; [lia|]. apply Z.lt_le_trans with (2 ^ 32); [lia|].
    apply Z.pow_le_mono_r; lia. }
  rewrite E. destruct (Z.ltb_spec v 128).
  - by rewrite Z.div_small by lia.
  - apply Z.eqb_neq. pose proof (Z.div_le_lower_bound v 128 1 ltac:(lia) ltac:(lia)). lia.
Qed.

Lemma low_bits v : Z.land v 127 = v mod 128.
Proof. change 127 with (Z.ones 7). by rewrite Z.land_ones. Qed.

Lemma seventh_bit c : 0 ≤ c < 256 → (Z.land c 128 =? 0) = (c <? 128).
Proof.
  intros Hc. assert (Hall : forallb (λ c, Bool.eqb (Z.land c 128 =? 0) (c <? 128)) (map Z.of_nat (seq 0 256)) = true) by (vm_compute; reflexivity).
  rewrite forallb_forall in Hall. apply Bool.eqb_prop, Hall. rewrite <- (Z2Nat.id c) by lia.
  apply in_map, in_seq. lia.
Qed.

Lemma rd_byte {B} z rest (f : Z → reader B) : (get_u8 ≫= f) (byte_of z :: rest) = f (z mod 256) rest.
Proof.
  unfold get_u8, get_le. rewrite bind_assoc. change (byte_of z :: rest) with ([byte_of z] ++ rest). rewrite rd_get_slice by done.
  rewrite bind_ret. f_equal. unfold le_val. rewrite byte_val_of. lia.
Qed.

Section groups.
Context (truncated long : string) (limit : Z).
Hypothesis limit_enough : 28 ≤ limit.

Lemma read_group c fuel j r rest :
  0 ≤ c < 256 → 0 ≤ j ≤ 4 → c mod 128 * 2 ^ (7 * j) < 4294967296 → 0 ≤ r < 2 ^ (7 * j) →
  read_groups truncated long limit fuel (7 * j) r (byte_of c :: rest) =
  if c <? 128 then Got (r + c mod 128 * 2 ^ (7 * j)) rest
  else if limit <? 7 * (j + 1) then fail long rest
  else match fuel with
       | O => fail long rest
       | S fuel => read_groups truncated long limit fuel (7 * (j + 1)) (r + c mod 128 * 2 ^ (7 * j)) rest
       end.
Proof.
  intros Hc Hj Hfit Hr. pose proof (Z.mod_pos_bound c 128 ltac:(lia)) as Hm.
  assert (Hn : 1 ≤ zlen (byte_of c :: rest)) by (rewrite zlen_cons; pose proof (zlen_nonneg rest); lia).
  assert (Hlor : Z.lor r (as_u32 (Z.shiftl (Z.land c 127) ((7 * j) mod 32))) = r + c mod 128 * 2 ^ (7 * j)).
  { rewrite (Z.mod_small (7 * j) 32) by lia. rewrite low_bits, Z.shiftl_mul_pow2, as_u32_small by nia. apply lor_shift; lia. }
  replace (7 * (j + 1)) with (7 * j + 7) by lia.
  destruct fuel as [|fuel]; cbn [read_groups]; rewrite rd_need, rd_byte, (Z.mod_small c 256), Hlor, seventh_bit by lia;
    destruct (c <? 128); [done| |done|]; by destruct (limit <? 7 * j + 7).
Qed.

Lemma groups_read k : ∀ fuel j r v rest,
  (k ≤ fuel)%nat → 0 ≤ v < 2 ^ (7 * (Z.of_nat k + 1)) → 0 ≤ j ≤ 4 → v * 2 ^ (7 * j) < 4294967296 →
  0 ≤ r < 2 ^ (7 * j) →
  read_groups truncated long limit fuel (7 * j) r (put_groups k v ++ rest) = Got (r + v * 2 ^ (7 * j)) rest.
Proof.
  induction k as [|k IH]; intros fuel j r v rest Hf Hv Hj Hfit Hr;
    pose proof (Z.pow_pos_nonneg 2 (7 * j) ltac:(lia) ltac:(lia)) as Hp; cbn [put_groups]; rewrite high_bits by nia.
  - change (2 ^ (7 * (Z.of_nat 0 + 1))) with 128 in Hv. rewrite Zltb_true by lia. cbn [app].
    rewrite read_group by (rewrite ?Z.mod_small by lia; lia). by rewrite Zltb_true, Z.mod_small by lia.
  - destruct (Z.ltb_spec v 128) as [Hs|Hs]; cbn [app].
    { rewrite read_group by (rewrite ?Z.mod_small by lia; lia). by rewrite Zltb_true, Z.mod_small by lia. }
    pose proof (Z.mod_pos_bound v 128 ltac:(lia)) as Hm. pose proof (Z.div_mod v 128 ltac:(lia)) as Hdm.
    assert (Hc : Z.lor (Z.land v 127) 128 = v mod 128 + 128).
    { rewrite low_bits. change 128 with (1 * 2 ^ 7) at 2. rewrite lor_shift; lia. }
    assert (Hcm : (v mod 128 + 128) mod 128 = v mod 128).
    { rewrite <- (Z.mul_1_l 128) at 2. rewrite Z.mod_add, Z.mod_mod by lia. done. }
    assert (Hj4 : j ≤ 3) by (destruct (decide (j = 4)) as [->|]; [change (2 ^ (7 * 4)) with 268435456 in Hfit|]; lia).
    rewrite Hc, read_group by (rewrite ?Hcm; nia). rewrite Zltb_false, Zltb_false, Hcm by lia.
    destruct fuel as [|fuel]; [lia|]. rewrite Z.shiftr_div_pow2 by lia. change (2 ^ 7) with 128.
    assert (Hpow : 2 ^ (7 * (j + 1)) = 128 * 2 ^ (7 * j)).
    { replace (7 * (j + 1)) with (7 + 7 * j) by lia. rewrite Z.pow_add_r by lia. done. }
    rewrite IH; [f_equal; rewrite Hpow; nia|lia| |lia|rewrite Hpow; nia|rewrite Hpow; nia].
    split; [apply Z.div_pos; lia|]. apply Z.div_lt_upper_bound; [lia|].
    replace (7 * (Z.of_nat (S k) + 1)) with (7 + 7 * (Z.of_nat k + 1)) in Hv by lia. rewrite Z.pow_add_r in Hv by lia.
    change (2 ^ 7) with 128 in Hv. lia.
Qed.

End groups.

Lemma rd_unsigned_varint {B} v rest (f : Z → reader B) :
  0 ≤ v < 4294967296 → (read_unsigned_varint ≫= f) (put_unsigned_varint v ++ rest) = f v rest.
Proof.
  intros Hv. apply bind_got. unfold read_unsigned_varint, put_unsigned_varint.
  rewrite (groups_read _ _ 28 ltac:(lia) 4 4 0 0 v rest); [|done|split; [lia|]|lia|lia|lia].
  - f_equal. lia.
  - change (2 ^ (7 * (Z.of_nat 4 + 1))) with 34359738368. lia.
Qed.

(** *** Zig-zag *)

Definition zigzag (n : Z) : Z := if 0 <=? n then 2 * n else - 2 * n - 1.

Lemma zigzag_spec n : is_i32 n = true → as_u32 (Z.lxor (as_i32 (Z.shiftl n 1)) (Z.shiftr n 31)) = zigzag n.
Proof.
  unfold is_i32, zigzag. intros Hn. rewrite Z.shiftl_mul_pow2, Z.shiftr_div_pow2 by lia. change (2 ^ 1) with 2. change (2 ^ 31) with 2147483648.
  unfold as_i32, signed, as_u32. change (2 ^ 32) with 4294967296. change (2 ^ (32 - 1)) with 2147483648.
  destruct (Z.leb_spec 0 n).
  - rewrite (Z.div_small n) by lia. rewrite Z.lxor_0_r. rewrite (Z.mod_small (n * 2)) by lia.
    destruct (Z.ltb_spec (n * 2) 2147483648); [rewrite Z.mod_small by lia; lia|].
    rewrite <- (Z.mod_add _ 1), Z.mod_small by lia. lia.
  - assert (n / 2147483648 = -1) as -> by (symmetry; apply (Z.div_unique n 2147483648 (-1) (n + 2147483648)); lia).
    rewrite Z.lxor_m1_r. unfold Z.lnot. rewrite <- (Z.mod_add (n * 2) 1), (Z.mod_small (n * 2 + 1 * 4294967296)) by lia.
    destruct (Z.ltb_spec (n * 2 + 1 * 4294967296) 2147483648).
    + rewrite <- (Z.mod_add _ 1), Z.mod_small by lia. lia.
    + rewrite Z.mod_small by lia. lia.
Qed.

Lemma unzigzag n : is_i32 n = true →
  Z.lxor (as_i32 (Z.shiftr (zigzag n) 1)) (- as_i32 (Z.land (zigzag n) 1)) = n.
Proof.
  unfold is_i32, zigzag. intros Hn. rewrite Z.shiftr_div_pow2 by lia. change (2 ^ 1) with 2.
  assert (Hl : ∀ x, Z.land x 1 = x mod 2) by (intros x; apply (Z.land_ones x 1); lia). rewrite Hl. destruct (Z.leb_spec 0 n).
  - replace (2 * n) with (n * 2) by lia. rewrite Z.div_mul, Z.mod_mul by lia. rewrite as_i32_small by lia. apply Z.lxor_0_r.
  - replace (-2 * n - 1) with (1 + (- n - 1) * 2) by lia. rewrite Z.div_add, Z.mod_add by lia. change (1 / 2) with 0. change (1 mod 2) with 1.
    rewrite as_i32_small by lia. change (- as_i32 1) with (-1). rewrite Z.lxor_m1_r. unfold Z.lnot. lia.
Qed.

Lemma rd_varint {B} n rest (f : Z → reader B) :
  is_i32 n = true → (read_varint ≫= f) (write_varint n ++ rest) = f n rest.
Proof.
  intros Hn. unfold write_varint. rewrite zigzag_spec by done.
  assert (Hz : 0 ≤ zigzag n < 4294967296) by (unfold zigzag, is_i32 in *; case_if; lia).
  unfold read_varint. rewrite bind_assoc. erewrite bind_got.
  2: { apply (groups_read _ _ 35 ltac:(lia) 4 5 0 0 (zigzag n) rest); [lia| |lia|lia|lia].
       change (2 ^ (7 * (Z.of_nat 4 + 1))) with 34359738368. lia. }
  rewrite bind_ret. replace (0 + zigzag n * 2 ^ (7 * 0)) with (zigzag n) by lia. by rewrite unzigzag.
Qed.

(** ** Strings and byte strings *)

Lemma rd_utf8 {B} msg s rest (f : string → reader B) :
  str_valid s = true → (utf8 msg (as_bytes s) ≫= f) rest = f s rest.
Proof. intros Hs. unfold utf8. by rewrite from_utf8_as_bytes. Qed.

Lemma as_i16_small z : 0 ≤ z < 32768 → as_i16 z = z.
Proof.
  unfold as_i16, signed. change (2 ^ (16 - 1)) with 32768. change (2 ^ 16) with 65536. intros Hz.
  rewrite Z.mod_small by lia. destruct (Z.ltb_spec z 32768); lia.
Qed.

(** A string that fits its length field. *)
Definition kstring_ok (s : string) : Prop := str_valid s = true ∧ str_len s < 32768.
Definition kbytes_ok (b : bytes) : Prop := zlen b < 2147483648.

Lemma str_len_bytes s : str_len s = zlen (as_bytes s).
Proof. done. Qed.

Lemma rd_put_i16_len {B} s rest (f : Z → reader B) :
  kstring_ok s → (get_i16 ≫= f) (put_i16 (as_i16 (str_len s)) ++ rest) = f (str_len s) rest.
Proof.
  intros [_ Hs]. assert (0 ≤ str_len s) by (rewrite str_len_bytes; apply zlen_nonneg).
  rewrite as_i16_small by lia. apply rd_be_i16. unfold is_i16. lia.
Qed.

Lemma rd_string {B} s rest (f : string → reader B) :
  kstring_ok s → (get_string ≫= f) (put_string s ++ rest) = f s rest.
Proof.
  intros Hs. pose proof Hs as [Hv Hl]. pose proof (zlen_nonneg (as_bytes s)) as H0. rewrite str_len_bytes in Hl.
  unfold get_string, put_string. rewrite <- app_assoc, !bind_assoc, rd_need by (unfold put_i16; zlen_lia).
  rewrite !bind_assoc, rd_put_i16_len by done. rewrite str_len_bytes, Zltb_false by lia.
  rewrite bind_assoc, rd_need by zlen_lia. rewrite !bind_assoc, rd_get_slice by done. by apply rd_utf8.
Qed.

Lemma rd_nullable_string {B} s rest (f : option string → reader B) :
  (∀ x, s = Some x → kstring_ok x) → (get_nullable_string ≫= f) (put_nullable_string s ++ rest) = f s rest.
Proof.
  intros Hs. unfold get_nullable_string, put_nullable_string. destruct s as [s|].
  - specialize (Hs s eq_refl). pose proof Hs as [Hv Hl]. pose proof (zlen_nonneg (as_bytes s)) as H0. rewrite str_len_bytes in Hl.
    unfold put_string. rewrite <- app_assoc, !bind_assoc, rd_need by (unfold put_i16; zlen_lia).
    rewrite !bind_assoc, rd_put_i16_len by done. rewrite str_len_bytes, Zltb_false by lia.
    rewrite bind_assoc, rd_need by zlen_lia. rewrite !bind_assoc, rd_get_slice by done. rewrite bind_assoc. by rewrite rd_utf8.
  - rewrite !bind_assoc, rd_need by (unfold put_i16; zlen_lia). rewrite !bind_assoc. by rewrite rd_be_i16.
Qed.

Lemma rd_bytes {B} b rest (f : option bytes → reader B) :
  (∀ x, b = Some x → kbytes_ok x) → (get_bytes ≫= f) (put_bytes b ++ rest) = f b rest.
Proof.
  intros Hb. unfold get_bytes, put_bytes. destruct b as [b|].
  - specialize (Hb b eq_refl). unfold kbytes_ok in Hb. pose proof (zlen_nonneg b).
    rewrite as_i32_small, <- app_assoc, !bind_assoc, rd_need by (unfold put_i32; zlen_lia).
    rewrite !bind_assoc, rd_be_i32 by (unfold is_i32; lia). rewrite Zltb_false by lia.
    rewrite bind_assoc, rd_need by zlen_lia. by rewrite !bind_assoc, rd_get_slice.
  - rewrite !bind_assoc, rd_need by (unfold put_i32; zlen_lia). rewrite !bind_assoc. by rewrite rd_be_i32.
Qed.

(** *** Compact forms *)

Lemma sat_succ n : 0 ≤ n < u32_max → u32_sat_succ n = n + 1.
Proof. unfold u32_sat_succ, u32_max. intros Hn. rewrite as_u32_small by lia. lia. Qed.

Lemma rd_compact_string {B} s rest (f : string → reader B) :
  str_valid s = true → str_len s < u32_max → (get_compact_string ≫= f) (put_compact_string s ++ rest) = f s rest.
Proof.
  intros Hv Hl. pose proof (zlen_nonneg (as_bytes s)) as H0. unfold get_compact_string, put_compact_string.
  rewrite sat_succ by (split; [exact H0|done]). rewrite str_len_bytes in *. unfold u32_max in Hl.
  rewrite <- app_assoc, bind_assoc, rd_unsigned_varint by lia. rewrite Zeqb_false by lia.
  replace (zlen (as_bytes s) + 1 - 1) with (zlen (as_bytes s)) by lia.
  rewrite bind_assoc, rd_need by zlen_lia. rewrite bind_assoc, rd_get_slice by done. by apply rd_utf8.
Qed.

Lemma rd_compact_nullable_string {B} s rest (f : option string → reader B) :
  (∀ x, s = Some x → str_valid x = true ∧ str_len x < u32_max) →
  (get_compact_nullable_string ≫= f) (put_compact_nullable_string s ++ rest) = f s rest.
Proof.
  intros Hs. unfold get_compact_nullable_string, put_compact_nullable_string. destruct s as [s|].
  - destruct (Hs s eq_refl) as [Hv Hl]. pose proof (zlen_nonneg (as_bytes s)) as H0. unfold put_compact_string.
    rewrite sat_succ by (split; [exact H0|done]). rewrite str_len_bytes in *. unfold u32_max in Hl.
    rewrite <- app_assoc, bind_assoc, rd_unsigned_varint by lia. rewrite Zeqb_false by lia.
    replace (zlen (as_bytes s) + 1 - 1) with (zlen (as_bytes s)) by lia.
    rewrite bind_assoc, rd_need by zlen_lia. rewrite bind_assoc, rd_get_slice by done. rewrite bind_assoc. by rewrite rd_utf8.
  - by rewrite bind_assoc, rd_unsigned_varint by lia.
Qed.

Lemma rd_compact_bytes {B} b rest (f : option bytes → reader B) :
  (∀ x, b = Some x → zlen x < u32_max) → (get_compact_bytes ≫= f) (put_compact_bytes b ++ rest) = f b rest.
Proof.
  intros Hb. unfold get_compact_bytes, put_compact_bytes. destruct b as [b|].
  - specialize (Hb b eq_refl). pose proof (zlen_nonneg b) as H0.
    rewrite sat_succ by done. unfold u32_max in Hb. rewrite <- app_assoc, bind_assoc, rd_unsigned_varint by lia.
    rewrite Zeqb_false by lia. replace (zlen b + 1 - 1) with (zlen b) by lia.
    rewrite bind_assoc, rd_need by zlen_lia. by rewrite bind_assoc, rd_get_slice.
  - by rewrite bind_assoc, rd_unsigned_varint by lia.
Qed.

Lemma rd_compact_array_len {B} n rest (f : option Z → reader B) :
  0 ≤ n < u32_max → (get_compact_array_len ≫= f) (put_compact_array_len n ++ rest) = f (Some n) rest.
Proof.
  intros Hn. unfold get_compact_array_len, put_compact_array_len. rewrite sat_succ by done. unfold u32_max in Hn.
  rewrite bind_assoc, rd_unsigned_varint by lia. rewrite Zeqb_false by lia. by replace (n + 1 - 1) with n by lia.
Qed.

(** ** Topic ids as uuids *)

Lemma topic_uuid_roundtrip id : 0 ≤ id < 4294967296 → parse_volant_topic_uuid (volant_topic_uuid id) = Some id.
Proof.
  intros Hid. assert (Hp : ∀ t, parse_volant_topic_uuid (as_bytes "volant" ++ replicate 6 x00 ++ t) = Some (be_val t)).
  { intros t. unfold parse_volant_topic_uuid. rewrite bool_decide_false by done. by rewrite bool_decide_true. }
  unfold volant_topic_uuid. rewrite Hp. f_equal. by apply be_val_small.
Qed.

(** ** Requests off a stream *)

Record header_ok (h : RequestHeader) : Prop := {
  kh_key : is_i16 (api_key h) = true;
  kh_version : is_i16 (api_version h) = true;
  kh_correlation : is_i32 (correlation_id h) = true;
  kh_client : ∀ s, client_id h = Some s → kstring_ok s;
}.

Lemma frame_size (body : bytes) :
  zlen body ≤ 16 * 1024 * 1024 → signed 32 (be_val (put_i32 (as_i32 (zlen body)))) = zlen body.
Proof.
  intros Hb. pose proof (zlen_nonneg body). unfold put_i32. rewrite be_val_bytes, <- le_val_bytes, (as_i32_small (zlen body)) by lia.
  apply signed_le_val; [done|lia|]. change (2 ^ (32 - 1)) with 2147483648. lia.
Qed.

(** A complete frame is taken off the stream, an incomplete one waits. *)
Lemma frame_taken (body rest : bytes) :
  zlen body ≤ 16 * 1024 * 1024 →
  try_decode_request (put_i32 (as_i32 (zlen body)) ++ body ++ rest) = Ok (Some body, rest).
Proof.
  intros Hb. pose proof (zlen_nonneg body). pose proof (zlen_nonneg rest). unfold try_decode_request.
  assert (H4 : zlen (put_i32 (as_i32 (zlen body))) = 4) by apply (zlen_be_bytes 4).
  rewrite Zltb_false by zlen_lia. rewrite ztake_app_exact, zdrop_app_exact by done.
  rewrite frame_size, !Zltb_false by zlen_lia. by rewrite ztake_app_exact, zdrop_app_exact.
Qed.

Lemma frame_waits (body p : bytes) :
  zlen body ≤ 16 * 1024 * 1024 → p `prefix_of` put_i32 (as_i32 (zlen body)) ++ body → zlen p < 4 + zlen body →
  try_decode_request p = Ok (None, p).
Proof.
  intros Hb [k Hp] Hl. pose proof (zlen_nonneg body). unfold try_decode_request.
  assert (H4 : zlen (put_i32 (as_i32 (zlen body))) = 4) by apply (zlen_be_bytes 4).
  destruct (Z.ltb_spec (zlen p) 4); [done|].
  assert (E : signed 32 (be_val (ztake 4 p)) = zlen body).
  { assert (Ht : ztake 4 p = put_i32 (as_i32 (zlen body))).
    { rewrite <- (ztake_app_le 4 p k) by lia. rewrite <- Hp. by apply ztake_app_exact. }
    rewrite Ht. by apply frame_size. }
  rewrite E, !Zltb_false by lia. by rewrite Zltb_true by lia.
Qed.

Lemma header_read h body :
  header_ok h → ∀ flexible, decode_request_header (encode_request_inner flexible h body) =
    Got h ((if flexible then put_empty_tag_buffer else []) ++ body).
Proof.
  intros [H1 H2 H3 H4] flexible. unfold decode_request_header, encode_request_inner.
  set (tail := (if flexible then _ else _) ++ body).
  rewrite rd_need by (unfold put_i16, put_i32; zlen_lia).
  rewrite rd_be_i16, rd_be_i16, rd_be_i32 by done. rewrite rd_nullable_string by done. by destruct h.
Qed.

(** A request of either header form, sent over a stream: any proper
    prefix of it leaves the buffer as it is; with the last byte the body is taken
    off exactly, its header is read back as it was sent, and what follows is the
    request payload, whatever comes after it on the stream. *)
Theorem kafka_request_reads h body rest :
  header_ok h → zlen (encode_request_inner true h body) ≤ 16 * 1024 * 1024 →
  (∀ p, p `prefix_of` encode_request h body → p ≠ encode_request h body → try_decode_request p = Ok (None, p)) ∧
  (∃ inner, try_decode_request (encode_request h body ++ rest) = Ok (Some inner, rest) ∧
     decode_request_header inner = Got h body) ∧
  (∃ inner tagged, try_decode_request (encode_request_flexible h body ++ rest) = Ok (Some inner, rest) ∧
     decode_request_header inner = Got h tagged ∧ skip_tag_buffer tagged = Got tt body).
Proof.
  intros Hh Hz. assert (Hz' : zlen (encode_request_inner false h body) ≤ 16 * 1024 * 1024).
  { etrans; [|exact Hz]. unfold encode_request_inner. rewrite !zlen_app. rewrite zlen_nil.
    pose proof (zlen_nonneg put_empty_tag_buffer). lia. }
  split; [|split].
  - intros p Hp Hne. eapply frame_waits; [exact Hz'|exact Hp|].
    unfold encode_request in Hp, Hne. destruct Hp as [k Hk]. rewrite Hk in Hne. apply (f_equal zlen) in Hk.
    rewrite !zlen_app in Hk. change (zlen (put_i32 _)) with 4 in Hk.
    destruct k as [|x k]; [by rewrite app_nil_r in Hne|]. rewrite zlen_cons in Hk. pose proof (zlen_nonneg k). lia.
  - exists (encode_request_inner false h body). split; [|apply (header_read h body Hh false)].
    unfold encode_request. cbn zeta. rewrite <- app_assoc. exact (frame_taken _ rest Hz').
  - exists (encode_request_inner true h body), (put_empty_tag_buffer ++ body).
    split; [|split; [apply (header_read h body Hh true)|]].
    { unfold encode_request_flexible. cbn zeta. rewrite <- app_assoc. exact (frame_taken _ rest Hz). }
    unfold skip_tag_buffer, put_empty_tag_buffer. by rewrite rd_unsigned_varint by lia.
Qed.

Lemma kafka_request_reads_witness :
  ∃ inner, try_decode_request (encode_request (mkRequestHeader 3 1 7 (Some "app"%string)) [x00; x01] ++ [x02]) = Ok (Some inner, [x02]) ∧
    decode_request_header inner = Got (mkRequestHeader 3 1 7 (Some "app"%string)) [x00; x01].
Proof.
  destruct (kafka_request_reads (mkRequestHeader 3 1 7 (Some "app"%string)) [x00; x01] [x02]) as (_ & H1 & _).
  - split; [reflexivity..|]. intros s [= <-]. split; reflexivity.
  - vm_compute. discriminate.
  - exact H1.
Defined.
