(* ===== verification/KafkaRecords.v ===== *)
(** * Kafka record formats: [volant-broker/src/kafka/codec.rs] and
      [compress.rs]

    Record batches (magic 2) and message sets (magic 0 and 1) with their
    compression, the control batches of transactions, and the metadata of
    consumers.  The compression libraries and CRC-32C are interfaces. *)

From Stdlib Require Import Strings.String.
From S2P Require Import Prelude Bytes Core Wire KafkaWire Assignor.
#[local] Open Scope Z_scope.

(** ** Compression: [compress.rs] *)

(** flate2, snap, lz4_flex and zstd. *)
Class Compressors := {
  gz_encode : bytes → result bytes;
  gz_decode : bytes → result bytes;
  snap_encode : bytes → result bytes;
  snap_decode : bytes → result bytes;
  lz4_frame_encode : bytes → result bytes;
  lz4_frame_decode : bytes → result bytes;
  lz4_sized_decode : bytes → result bytes;
  lz4_block_decode : bytes → Z → result bytes;
  zstd_encode : bytes → result bytes;
  zstd_decode : bytes → result bytes;
}.

Inductive CompressionCodec := NoCompression | Gzip | Snappy | Lz4 | Zstd.

#[export] Instance CompressionCodec_eq_dec : EqDecision CompressionCodec.
Proof. solve_decision. Defined.

Definition from_attributes (attributes : Z) : result CompressionCodec :=
  match Z.land attributes 7 with
  | 0 => Ok NoCompression
  | 1 => Ok Gzip
  | 2 => Ok Snappy
  | 3 => Ok Lz4
  | 4 => Ok Zstd
  | _ => Err (Protocol "unsupported record batch compression codec")
  end.

Definition codec_as_u8 (c : CompressionCodec) : Z :=
  match c with NoCompression => 0 | Gzip => 1 | Snappy => 2 | Lz4 => 3 | Zstd => 4 end.

Definition XERIAL_MAGIC : bytes := [x82; x53; x4e; x41; x50; x50; x59; x00].

Section compress.
Context `{Compressors}.

(** Blocks of a length and a raw snappy block, from [data] on. *)
Fixpoint xerial_blocks (fuel : nat) (data : bytes) : result bytes :=
  if zlen data <? 4 then Ok [] else
  let comp_len := be_val (ztake 4 data) in
  let rest := zdrop 4 data in
  if zlen rest <? comp_len then Err (Protocol "truncated xerial snappy block") else
  let? piece := snap_decode (ztake comp_len rest) in
  match fuel with
  | O => Ok piece
  | S fuel => let? more := xerial_blocks fuel (zdrop comp_len rest) in Ok (piece ++ more)
  end.

Definition snappy_decompress_xerial (data : bytes) : result bytes :=
  if zlen data <? 16 then Err (Protocol "truncated xerial snappy header") else
  xerial_blocks (length data) (zdrop 16 data).

Definition snappy_decompress (data : bytes) : result bytes :=
  if bool_decide (take 8 data = XERIAL_MAGIC) then snappy_decompress_xerial data else snap_decode data.

Definition snappy_compress (data : bytes) : result bytes :=
  let? compressed := snap_encode data in
  Ok (XERIAL_MAGIC ++ be_bytes 4 1 ++ be_bytes 4 1 ++ be_bytes 4 (as_u32 (zlen compressed)) ++ compressed).

Definition or_else {A} (a b : result A) : result A := match a with Ok x => Ok x | Err _ => b end.

Definition lz4_decompress (data : bytes) : result bytes :=
  or_else (lz4_frame_decode data)
    (or_else (lz4_sized_decode data)
       (foldr (λ mult rest, or_else (lz4_block_decode data (Z.max (zlen data * mult) 1024)) rest)
          (Err (Protocol "lz4 decompress failed")) [4; 8; 16; 32; 64])).

Definition decompress (codec : CompressionCodec) (data : bytes) : result bytes :=
  match codec with
  | NoCompression => Ok data
  | Gzip => gz_decode data
  | Snappy => snappy_decompress data
  | Lz4 => lz4_decompress data
  | Zstd => zstd_decode data
  end.

Definition compress (codec : CompressionCodec) (data : bytes) : result bytes :=
  match codec with
  | NoCompression => Ok data
  | Gzip => gz_encode data
  | Snappy => snappy_compress data
  | Lz4 => lz4_frame_encode data
  | Zstd => zstd_encode data
  end.

End compress.

(** A [Result] inside a reader, and a reader on a part of the input. *)
Definition lift {A} (r : result A) : reader A := match r with Ok a => mret a | Err e => λ _, Bad e end.
Definition within {A} (g : reader A) (part : bytes) : reader A := λ src,
  match g part with Got a _ => Got a src | Bad e => Bad e | Panic => Panic end.

(** ** Record batches *)

(** The [crc32c] crate. *)
Class Crc32c := {
  crc32c : bytes → Z;
  crc32c_range : ∀ l, 0 ≤ crc32c l < 4294967296;
}.

Record RecordBatchProducer := mkBatchProducer {
  rb_producer_id : Z;
  rb_producer_epoch : Z;
  rb_base_sequence : Z;
}.

Definition NO_PRODUCER : RecordBatchProducer := mkBatchProducer (-1) (-1) (-1).

Definition is_idempotent (p : RecordBatchProducer) : bool := (0 <=? rb_producer_id p) && (0 <=? rb_base_sequence p).

Record DecodedRecordBatch := mkDecodedBatch {
  db_producer : RecordBatchProducer;
  db_messages : list Message;
}.

Definition read_exact (len : Z) : reader bytes :=
  need len "truncated bytes in record";; get_slice len.

(** A length of -1 stands for nothing. *)
Definition read_nullable : reader (option bytes) :=
  len ← read_varint;
  if len <? 0 then mret None else b ← read_exact len; mret (Some b).

Definition read_record_header : reader (string * bytes) :=
  hk_len ← read_varint;
  if hk_len <? 0 then fail "negative header key len" else
  hk ← read_exact hk_len;
  name ← utf8 "header key utf8" hk;
  hv ← read_nullable;
  mret (name, default [] hv).

Definition i64_saturating_add (a b : Z) : Z := Z.max i64_min (Z.min i64_max (a + b)).

Definition decode_default_record (first_timestamp : Z) : reader Message :=
  length ← read_varint;
  if length <? 0 then fail "negative record length" else
  need length "truncated record body";;
  get_i8;;
  timestamp_delta ← read_varint;
  read_varint;;
  key ← read_nullable;
  value ← read_nullable;
  header_count ← read_varint;
  if header_count <? 0 then fail "negative header count" else
  headers ← times header_count read_record_header;
  mret (mkMessage key (default [] value) (Some (i64_saturating_add first_timestamp timestamp_delta)) headers).

Section batches.
Context `{Crc32c} `{Compressors}.

(** The checksum covers everything behind it. *)
Definition check_crc (crc : Z) : reader unit := λ src,
  if negb (crc32c src =? crc) then Bad (Protocol "record batch crc32c mismatch") else Got tt src.

Definition decode_one_record_batch : reader DecodedRecordBatch :=
  need 49 "truncated record batch header";;
  get_i32;;
  magic ← get_i8;
  if negb (magic =? 2) then fail "expected record batch magic 2" else
  crc ← get_u32;
  check_crc crc;;
  attributes ← get_i16;
  codec ← lift (from_attributes attributes);
  get_i32;;
  first_timestamp ← get_i64;
  get_i64;;
  producer_id ← get_i64;
  producer_epoch ← get_i16;
  base_sequence ← get_i32;
  records_count ← get_i32;
  if records_count <? 0 then fail "negative records count" else
  rem ← remaining;
  payload ← get_slice rem;
  records ← lift (decompress codec payload);
  messages ← within (times records_count (decode_default_record first_timestamp)) records;
  mret (mkDecodedBatch (mkBatchProducer producer_id producer_epoch base_sequence) messages).

(** Contiguous batches; a partial one at the end is left out.  Each takes
    twelve bytes at least, so the length of the input is fuel enough. *)
Fixpoint batches (fuel : nat) : reader (list DecodedRecordBatch) :=
  rem ← remaining;
  if rem <? 61 then mret [] else
  get_i64;;
  batch_length ← get_i32;
  if batch_length <? 0 then fail "negative record batch length" else
  rem ← remaining;
  if rem <? batch_length then mret [] else
  body ← get_slice batch_length;
  b ← within decode_one_record_batch body;
  match fuel with
  | O => mret [b]
  | S fuel => bs ← batches fuel; mret (b :: bs)
  end.

Definition decode_record_batches_detailed (data : bytes) : outcome (list DecodedRecordBatch) :=
  batches (length data) data.

End batches.

(** ** Message sets *)

Definition MAX_MESSAGE_SET_COMPRESSION_DEPTH : Z := 3.

Section message_sets.
Context `{Crc32} `{Crc32c} `{Compressors}.

(** The fields of one message behind its checksum: codec, key, value and
    timestamp. *)
Definition message_fields : reader (CompressionCodec * Message) :=
  magic ← get_i8;
  attributes ← get_i8;
  timestamp ← (if magic =? 1 then need 8 "truncated kafka message timestamp";; t ← get_i64; mret (Some t)
               else if magic =? 0 then mret None
               else fail "unsupported kafka message magic");
  key ← get_bytes;
  value ← get_bytes;
  codec ← lift (from_attributes (Z.land attributes 7));
  mret (codec, mkMessage key (default [] value) timestamp []).

(** [more] is the rest of the set, [nested] the set inside a compressed
    wrapper. *)
Definition one_message (nested : option (bytes → outcome (list Message))) (msg_bytes : bytes)
    : outcome (list Message) :=
  if zlen msg_bytes <? 6 then Bad (Protocol "truncated kafka message") else
  let crc := be_val (ztake 4 msg_bytes) in
  let payload := zdrop 4 msg_bytes in
  if negb (crc32_hash payload =? crc) then Bad (Protocol "kafka message crc mismatch") else
  match message_fields payload with
  | Bad e => Bad e
  | Panic => Panic
  | Got (codec, m) _ =>
    if bool_decide (codec = NoCompression) then Got [m] [] else
    match nested with
    | None => Bad (Protocol "message set compression nesting too deep")
    | Some nested =>
      match decompress codec (msg_value m) with
      | Err e => Bad e
      | Ok plain => nested plain
      end
    end
  end.

Fixpoint messages (nested : option (bytes → outcome (list Message))) (fuel : nat) : reader (list Message) :=
  rem ← remaining;
  if rem <? 12 then mret [] else
  get_i64;;
  msg_size ← get_i32;
  if msg_size <? 0 then fail "negative message size" else
  rem ← remaining;
  if rem <? msg_size then mret [] else
  msg_bytes ← get_slice msg_size;
  ms ← within (one_message nested) msg_bytes;
  match fuel with
  | O => mret ms
  | S fuel => rest ← messages nested fuel; mret (ms ++ rest)
  end.

(** [depth] counts down from the deepest nesting. *)
Fixpoint decode_message_set_depth (depth : nat) (data : bytes) : outcome (list Message) :=
  messages (match depth with O => None | S depth => Some (decode_message_set_depth depth) end) (length data) data.

Definition decode_message_set (data : bytes) : outcome (list Message) :=
  decode_message_set_depth (Z.to_nat MAX_MESSAGE_SET_COMPRESSION_DEPTH) data.

Definition decode_produce_batches (data : bytes) : outcome (list DecodedRecordBatch) :=
  if bool_decide (data = []) then Got [] [] else
  if zlen data <? 17 then Bad (Protocol "kafka records too short") else
  let magic := signed 8 (be_val (ztake 1 (zdrop 16 data))) in
  if (magic =? 0) || (magic =? 1) then
    match decode_message_set data with
    | Got ms rest => Got [mkDecodedBatch NO_PRODUCER ms] rest
    | Bad e => Bad e
    | Panic => Panic
    end
  else if magic =? 2 then decode_record_batches_detailed data
  else Bad (Protocol "unsupported kafka records magic").

Definition decode_records (data : bytes) : outcome (list Message) :=
  match decode_produce_batches data with
  | Got bs rest => Got (flat_map db_messages bs) rest
  | Bad e => Bad e
  | Panic => Panic
  end.

End message_sets.

(** ** Encoders *)

Definition put_nullable (b : option bytes) : bytes :=
  match b with None => write_varint (-1) | Some v => write_varint (as_i32 (zlen v)) ++ v end.

Definition put_record_header (h : string * bytes) : bytes :=
  write_varint (as_i32 (str_len h.1)) ++ as_bytes h.1 ++ write_varint (as_i32 (zlen h.2)) ++ h.2.

Definition default_record_body (r : LogRecord) (first_timestamp offset_delta : Z) : bytes :=
  put_i8 0 ++ write_varint (as_i32 (rec_timestamp_ms r - first_timestamp)) ++ write_varint offset_delta ++
  put_nullable (rec_key r) ++
  write_varint (as_i32 (zlen (rec_value r))) ++ rec_value r ++
  write_varint (as_i32 (zlen (rec_headers r))) ++ concat (map put_record_header (rec_headers r)).

Definition encode_default_record (r : LogRecord) (first_timestamp offset_delta : Z) : bytes :=
  let body := default_record_body r first_timestamp offset_delta in
  write_varint (as_i32 (zlen body)) ++ body.

(** The records of a batch from the one with this delta on. *)
Fixpoint encode_records (rs : list LogRecord) (first_timestamp i : Z) : bytes :=
  match rs with
  | [] => []
  | r :: rs => encode_default_record r first_timestamp (as_i32 i) ++ encode_records rs first_timestamp (i + 1)
  end.

Definition max_timestamp (first : Z) (rs : list LogRecord) : Z :=
  foldl (λ m r, Z.max m (rec_timestamp_ms r)) first rs.

Section encode.
Context `{Crc32} `{Crc32c} `{Compressors}.

(** Attributes through the end of the records, with what comes before. *)
Definition frame_batch (base_offset : Z) (crc_payload : bytes) : bytes :=
  put_i64 base_offset ++ put_i32 (as_i32 (4 + 1 + 4 + zlen crc_payload)) ++ put_i32 (-1) ++ put_i8 2 ++
  put_u32 (crc32c crc_payload) ++ crc_payload.

Definition encode_record_batch_with_options (rs : list LogRecord) (codec : CompressionCodec)
    (producer : RecordBatchProducer) : result bytes :=
  match rs with
  | [] => Ok []
  | r0 :: _ =>
    let first_timestamp := rec_timestamp_ms r0 in
    let? payload := compress codec (encode_records rs first_timestamp 0) in
    Ok (frame_batch (rec_offset r0)
      (put_i16 (codec_as_u8 codec) ++ put_i32 (as_i32 (zlen rs) - 1) ++ put_i64 first_timestamp ++
       put_i64 (max_timestamp first_timestamp rs) ++ put_i64 (rb_producer_id producer) ++
       put_i16 (rb_producer_epoch producer) ++ put_i32 (rb_base_sequence producer) ++
       put_i32 (as_i32 (zlen rs)) ++ payload))
  end.

Definition encode_record_batch (rs : list LogRecord) : result bytes :=
  encode_record_batch_with_options rs NoCompression NO_PRODUCER.
Definition encode_record_batch_compressed (rs : list LogRecord) (codec : CompressionCodec) : result bytes :=
  encode_record_batch_with_options rs codec NO_PRODUCER.
Definition encode_record_batch_idempotent (rs : list LogRecord) (producer_id producer_epoch base_sequence : Z)
    : result bytes :=
  encode_record_batch_with_options rs NoCompression (mkBatchProducer producer_id producer_epoch base_sequence).

(** Offset, size and checksum in front of a message. *)
Definition frame_message (offset : Z) (msg : bytes) : bytes :=
  put_i64 offset ++ put_i32 (as_i32 (4 + zlen msg)) ++ put_i32 (crc32_hash msg) ++ msg.

Definition encode_message_set (rs : list LogRecord) : bytes :=
  concat (map (λ r, frame_message (rec_offset r)
    (put_i8 1 ++ put_i8 0 ++ put_i64 (rec_timestamp_ms r) ++ put_bytes (rec_key r) ++
     put_bytes (Some (rec_value r)))) rs).

Definition encode_message_set_compressed (rs : list LogRecord) (codec : CompressionCodec) : result bytes :=
  match rs, last rs with
  | r0 :: _, Some rl =>
    if bool_decide (codec = NoCompression) then Ok (encode_message_set rs) else
    let codec := if bool_decide (codec = Zstd) then Lz4 else codec in
    let? compressed := compress codec (encode_message_set rs) in
    Ok (frame_message (rec_offset rl)
      (put_i8 1 ++ put_i8 (codec_as_u8 codec) ++ put_i64 (max_timestamp (rec_timestamp_ms r0) rs) ++
       put_bytes None ++ put_bytes (Some compressed)))
  | _, _ => Ok []
  end.

End encode.

(** ** Control records *)

Definition RECORD_BATCH_ATTR_TXN_CONTROL : Z := Z.lor 16 32.

Inductive ControlMarkerType := Abort | Commit.

Definition marker_code (t : ControlMarkerType) : Z := match t with Abort => 0 | Commit => 1 end.

Definition marker_from_i16 (v : Z) : option ControlMarkerType :=
  if v =? 0 then Some Abort else if v =? 1 then Some Commit else None.

Definition marker_name (t : ControlMarkerType) : string :=
  match t with Abort => "abort" | Commit => "commit" end.

Definition TXN_CONTROL_HEADER : string := "volant.control".
Definition TXN_CONTROL_HEADER_VALUE : bytes := as_bytes "txn_marker".
Definition TXN_CONTROL_PID_HEADER : string := "volant.txn.pid".
Definition TXN_CONTROL_EPOCH_HEADER : string := "volant.txn.epoch".
Definition TXN_CONTROL_MARKER_HEADER : string := "volant.txn.marker".

Definition is_txn_control_record (r : LogRecord) : bool :=
  existsb (λ '(k, v), String.eqb k TXN_CONTROL_HEADER && bool_decide (v = TXN_CONTROL_HEADER_VALUE))
    (rec_headers r).

Definition txn_control_message (t : ControlMarkerType) (producer_id producer_epoch now : Z) : Message :=
  mkMessage (Some (be_bytes 2 0 ++ be_bytes 2 (marker_code t))) (be_bytes 2 0 ++ be_bytes 4 0) (Some now)
    [(TXN_CONTROL_HEADER, TXN_CONTROL_HEADER_VALUE);
     (TXN_CONTROL_PID_HEADER, be_bytes 8 producer_id);
     (TXN_CONTROL_EPOCH_HEADER, be_bytes 2 producer_epoch);
     (TXN_CONTROL_MARKER_HEADER, as_bytes (marker_name t))].

Record TxnControlMarker := mkControlMarker {
  cm_marker_type : ControlMarkerType;
  cm_producer_id : Z;
  cm_producer_epoch : Z;
  cm_coordinator_epoch : Z;
}.

(** The last header of each name with enough bytes wins. *)
Definition control_header (st : Z * Z) (h : string * bytes) : Z * Z :=
  if String.eqb h.1 TXN_CONTROL_PID_HEADER && (8 <=? zlen h.2) then (signed 64 (be_val (ztake 8 h.2)), st.2)
  else if String.eqb h.1 TXN_CONTROL_EPOCH_HEADER && (2 <=? zlen h.2) then (st.1, signed 16 (be_val (ztake 2 h.2)))
  else st.

Definition parse_txn_control_record (r : LogRecord) : option TxnControlMarker :=
  if negb (is_txn_control_record r) then None else
  key ← rec_key r;
  if zlen key <? 4 then None else
  t ← marker_from_i16 (signed 16 (be_val (ztake 2 (zdrop 2 key))));
  let '(producer_id, producer_epoch) := foldl control_header (-1, -1) (rec_headers r) in
  let coordinator_epoch := if 6 <=? zlen (rec_value r) then signed 32 (be_val (ztake 4 (zdrop 2 (rec_value r)))) else 0 in
  Some (mkControlMarker t producer_id producer_epoch coordinator_epoch).

Definition encode_control_record_batch `{Crc32c} (base_offset producer_id producer_epoch : Z) (t : ControlMarkerType)
    (coordinator_epoch timestamp_ms : Z) : bytes :=
  let rec_body := put_i8 0 ++ write_varint 0 ++ write_varint 0 ++
    write_varint 4 ++ put_i16 0 ++ put_i16 (marker_code t) ++
    write_varint 6 ++ put_i16 0 ++ put_i32 coordinator_epoch ++ write_varint 0 in
  frame_batch base_offset
    (put_i16 RECORD_BATCH_ATTR_TXN_CONTROL ++ put_i32 0 ++ put_i64 timestamp_ms ++ put_i64 timestamp_ms ++
     put_i64 producer_id ++ put_i16 producer_epoch ++ put_i32 (-1) ++ put_i32 1 ++
     write_varint (as_i32 (zlen rec_body)) ++ rec_body).

Definition peek_record_batch_attributes (data : bytes) : option (Z * Z) :=
  if zlen data <? 21 then None else
  if negb (signed 8 (be_val (ztake 1 (zdrop 16 data))) =? 2) then None else
  if zlen data <? 23 then None else
  Some (signed 16 (be_val (ztake 2 (zdrop 21 data))), signed 64 (be_val (ztake 8 data))).

(** ** Metadata of consumers *)

Definition decode_consumer_subscription (data : bytes) : outcome (list string) :=
  if bool_decide (data = []) then Got [] [] else
  (need 2 "truncated consumer subscription";;
   get_i16;;
   need 4 "truncated subscription topics";;
   n ← get_i32;
   if n <? 0 then fail "negative subscription topic count" else
   times n get_string) data.

Definition encode_consumer_subscription (topics : list string) : bytes :=
  put_i16 0 ++ put_i32 (as_i32 (zlen topics)) ++ concat (map put_string topics) ++ put_bytes (Some []).

(** By topic, the topics in order. *)
Definition by_topic (assignment : list (string * Z)) : gmap string (list Z) :=
  foldl (λ m a, <[a.1 := default [] (m !! a.1) ++ [a.2]]> m) ∅ assignment.

Definition name_le {A} (a b : string * A) : Prop := str_le a.1 b.1.
#[export] Instance name_le_dec {A} : RelDecision (@name_le A).
Proof. intros a b. unfold name_le. apply _. Defined.
#[global] Typeclasses Opaque name_le.

Definition encode_topic_parts (e : string * list Z) : bytes :=
  put_string e.1 ++ put_i32 (as_i32 (zlen e.2)) ++ concat (map put_i32 e.2).

Definition encode_consumer_assignment (assignment : list (string * Z)) : bytes :=
  let topics := merge_sort name_le (map_to_list (by_topic assignment)) in
  put_i16 0 ++ put_i32 (as_i32 (zlen topics)) ++ concat (map encode_topic_parts topics) ++ put_bytes (Some []).

Definition decode_topic_parts : reader (list (string * Z)) :=
  topic ← get_string;
  need 4 "truncated assignment partitions";;
  pc ← get_i32;
  ps ← times (Z.max pc 0) (need 4 "truncated assignment partition id";; p ← get_i32; mret (as_u32 p));
  mret (map (pair topic) ps).

Definition decode_consumer_assignment (data : bytes) : outcome (list (string * Z)) :=
  if bool_decide (data = []) then Got [] [] else
  (need 6 "truncated member assignment";;
   get_i16;;
   n ← get_i32;
   if n <? 0 then fail "negative assignment topic count" else
   parts ← times n decode_topic_parts;
   mret (concat parts)) data.
