(* ===== verification/KafkaRecordsProps.v ===== *)
(** * Correctness of the Kafka record formats

    Record batches and message sets, plain and compressed, decode to the
    messages they were encoded from; control records are recognised; what a
    client sends can make the decoder panic, and a batch that spans more than
    24 days loses timestamps. *)

From Stdlib Require Import Strings.String.
From S2P Require Import Prelude Bytes Core Wire WireLogic KafkaWire KafkaWireProps Assignor KafkaRecords.
#[local] Open Scope Z_scope.

(** The libraries undo what they did. *)
Class CompressorLaws `{Compressors} := {
  gz_law : ∀ x c, gz_encode x = Ok c → gz_decode c = Ok x;
  snap_law : ∀ x c, snap_encode x = Ok c → snap_decode c = Ok x;
  lz4_law : ∀ x c, lz4_frame_encode x = Ok c → lz4_frame_decode c = Ok x;
  zstd_law : ∀ x c, zstd_encode x = Ok c → zstd_decode c = Ok x;
}.

(** ** Compression *)

Lemma from_as_u8 codec : from_attributes (codec_as_u8 codec) = Ok codec.
Proof. by destruct codec. Qed.

Lemma ztake_8 (l : bytes) : take 8 l = ztake 8 l.
Proof. done. Qed.

Lemma compress_undone `{CompressorLaws} codec x c :
  compress codec x = Ok c → zlen c < 2147483648 → decompress codec c = Ok x.
Proof.
  intros E Hz. destruct codec; cbn [compress decompress] in *.
  - by injection E as ->.
  - by apply gz_law.
  - unfold snappy_compress in E. destruct (snap_encode x) as [d|] eqn:Es; [|done].
    set (hd := XERIAL_MAGIC ++ be_bytes 4 1 ++ be_bytes 4 1). set (n := be_bytes 4 (as_u32 (zlen d))).
    assert (Hc : Ok (hd ++ n ++ d) = Ok c) by exact E. assert (c = hd ++ n ++ d) as -> by congruence.
    unfold snappy_decompress. rewrite bool_decide_true by done. unfold snappy_decompress_xerial.
    assert (Hh : zlen hd = 16) by done. assert (Hn : zlen n = 4) by apply (zlen_be_bytes 4). pose proof (zlen_nonneg d) as Hd.
    rewrite !zlen_app in Hz. rewrite Zltb_false by (rewrite !zlen_app; lia). rewrite zdrop_app_exact by done.
    assert (Hv : be_val n = zlen d) by (unfold n; rewrite as_u32_small, be_val_small by (change (256 ^ Z.of_nat 4) with 4294967296; lia); done).
    assert (Hlen : ∃ fuel, length (hd ++ n ++ d) = S fuel) by (by eexists). destruct Hlen as [fuel ->].
    cbn [xerial_blocks]. rewrite zlen_app, Zltb_false by lia. rewrite ztake_app_exact, zdrop_app_exact by done. rewrite Hv.
    rewrite Zltb_false by lia. rewrite ztake_ge, zdrop_ge by lia. rewrite (snap_law _ _ Es). cbn.
    assert (Hx : xerial_blocks fuel [] = Ok []) by by destruct fuel. rewrite Hx. cbn. by rewrite app_nil_r.
  - unfold lz4_decompress. by rewrite (lz4_law _ _ E).
  - by apply zstd_law.
Qed.

(** ** Records *)

Record krecord_ok (first : Z) (r : LogRecord) : Prop := {
  kr_timestamp : is_i64 (rec_timestamp_ms r) = true;
  kr_delta : is_i32 (rec_timestamp_ms r - first) = true;
  kr_size : zlen (default_record_body r first 0) < 2147483640;
  kr_names : Forall (λ h, str_valid h.1 = true) (rec_headers r);
}.

Lemma as_i32_range z : is_i32 (as_i32 z) = true.
Proof. pose proof (signed_range 32 z). unfold is_i32, as_i32. change (2 ^ (32 - 1)) with 2147483648 in *. lia. Qed.

Lemma as_i32_id z : is_i32 z = true → as_i32 z = z.
Proof.
  unfold is_i32, as_i32, signed. change (2 ^ (32 - 1)) with 2147483648. change (2 ^ 32) with 4294967296. intros Hz.
  destruct (decide (0 ≤ z)); [rewrite Z.mod_small by lia; case_if; lia|].
  rewrite <- (Z.mod_add z 1), Z.mod_small by lia. case_if; lia.
Qed.

Lemma rd_read_exact {B} b rest (f : bytes → reader B) : (read_exact (zlen b) ≫= f) (b ++ rest) = f b rest.
Proof.
  unfold read_exact. rewrite bind_assoc, rd_need by zlen_lia. by rewrite rd_get_slice.
Qed.

Lemma rd_nullable {B} b rest (f : option bytes → reader B) :
  (∀ x, b = Some x → kbytes_ok x) → (read_nullable ≫= f) (put_nullable b ++ rest) = f b rest.
Proof.
  intros Hb. unfold read_nullable, put_nullable. destruct b as [b|].
  - specialize (Hb b eq_refl). unfold kbytes_ok in Hb. pose proof (zlen_nonneg b). rewrite as_i32_small by lia.
    rewrite <- app_assoc, bind_assoc, rd_varint by (unfold is_i32; lia). rewrite Zltb_false by lia.
    by rewrite bind_assoc, rd_read_exact.
  - by rewrite bind_assoc, rd_varint.
Qed.

Lemma rd_record_header h rest {B} (f : string * bytes → reader B) :
  str_valid h.1 = true → str_len h.1 < 2147483648 → kbytes_ok h.2 →
  (read_record_header ≫= f) (put_record_header h ++ rest) = f h rest.
Proof.
  destruct h as [name v]. cbn [fst snd]. intros Hn Hl Hv. unfold read_record_header, put_record_header. cbn [fst snd].
  pose proof (zlen_nonneg (as_bytes name)). rewrite str_len_bytes in *. rewrite (as_i32_small (zlen (as_bytes name))) by lia.
  rewrite <- !app_assoc, bind_assoc, rd_varint by (unfold is_i32; lia). rewrite Zltb_false by lia.
  rewrite bind_assoc, rd_read_exact, bind_assoc, rd_utf8, bind_assoc by done.
  change (write_varint (as_i32 (zlen v)) ++ v ++ rest) with ((write_varint (as_i32 (zlen v)) ++ (v ++ rest))).
  rewrite app_assoc. by rewrite (rd_nullable (Some v)) by (by intros x [= <-]).
Qed.

(** A loop reads back what was written item by item. *)
Lemma times_concat {A B} (put : A → bytes) (get : reader B) (g : A → B) xs rest :
  (∀ x rest, x ∈ xs → get (put x ++ rest) = Got (g x) rest) →
  times (zlen xs) get (concat (map put xs) ++ rest) = Got (map g xs) rest.
Proof.
  rewrite times_eq. unfold zlen. rewrite Nat2Z.id. induction xs as [|x xs IH]; intros Hx; [done|].
  cbn [length times_nat map concat]. rewrite <- app_assoc, (bind_got _ _ _ (g x) (concat (map put xs) ++ rest)) by (apply Hx; left).
  by rewrite (bind_got _ _ _ (map g xs) rest) by (apply IH; intros; apply Hx; by right).
Qed.

Lemma zlen_concat_elem {A} (put : A → bytes) xs x : x ∈ xs → zlen (put x) ≤ zlen (concat (map put xs)).
Proof.
  induction xs as [|y xs IH]; [by intros ?%not_elem_of_nil|]. cbn [map concat]. rewrite zlen_app.
  pose proof (zlen_nonneg (put y)). pose proof (zlen_nonneg (concat (map put xs))).
  intros [->|Hx]%elem_of_cons; [lia|]. specialize (IH Hx). lia.
Qed.

Lemma zlen_concat_count {A} (put : A → bytes) xs : (∀ x, 1 ≤ zlen (put x)) → zlen xs ≤ zlen (concat (map put xs)).
Proof.
  intros Hp. induction xs as [|x xs IH]; [done|]. cbn [map concat]. rewrite zlen_cons, zlen_app. specialize (Hp x). lia.
Qed.

Lemma put_groups_nonempty k v : 1 ≤ zlen (put_groups k v).
Proof. destruct k; cbn [put_groups]; case_match; rewrite zlen_cons; zlen_facts; lia. Qed.

Lemma write_varint_nonempty n : 1 ≤ zlen (write_varint n).
Proof. apply put_groups_nonempty. Qed.

(** What the size of a record says about its parts. *)
Lemma body_parts r first i :
  zlen (default_record_body r first i) < 2147483648 →
  (∀ k, rec_key r = Some k → kbytes_ok k) ∧ kbytes_ok (rec_value r) ∧ zlen (rec_headers r) < 2147483648 ∧
  Forall (λ h, str_len h.1 < 2147483648 ∧ kbytes_ok h.2) (rec_headers r).
Proof.
  unfold default_record_body, kbytes_ok. rewrite !zlen_app. intros Hz.
  pose proof (zlen_concat_count put_record_header (rec_headers r)) as Hc.
  assert (Hp : ∀ h, zlen (as_bytes h.1) ≤ zlen (put_record_header h) ∧ zlen h.2 ≤ zlen (put_record_header h) ∧ 1 ≤ zlen (put_record_header h)).
  { intros h. unfold put_record_header. rewrite !zlen_app. pose proof (write_varint_nonempty (as_i32 (str_len h.1))).
    pose proof (zlen_nonneg (as_bytes h.1)). pose proof (zlen_nonneg (write_varint (as_i32 (zlen h.2)))). pose proof (zlen_nonneg h.2). lia. }
  specialize (Hc (λ h, proj2 (proj2 (Hp h)))). zlen_facts. split_and!; [|lia|lia|].
  - intros k Hk. rewrite Hk in Hz. cbn [put_nullable] in Hz. rewrite zlen_app in Hz. zlen_facts. lia.
  - apply Forall_forall. intros h Hh. pose proof (zlen_concat_elem put_record_header _ _ Hh). destruct (Hp h) as (? & ? & _).
    rewrite str_len_bytes. lia.
Qed.

(** The message a record is decoded to; the difference to the first timestamp
    of the batch is kept in 32 bits. *)
Definition delta_message (first : Z) (r : LogRecord) : Message :=
  mkMessage (rec_key r) (rec_value r)
    (Some (i64_saturating_add first (as_i32 (rec_timestamp_ms r - first)))) (rec_headers r).

Lemma read_record r first i rest :
  is_i32 i = true → zlen (default_record_body r first i) < 2147483648 →
  Forall (λ h, str_valid h.1 = true) (rec_headers r) →
  decode_default_record first (encode_default_record r first i ++ rest) = Got (delta_message first r) rest.
Proof.
  intros Hi Hz Hn. destruct (body_parts r first i Hz) as (Hk & Hv & Hc & Hh). unfold decode_default_record, encode_default_record.
  set (body := default_record_body r first i) in *. pose proof (zlen_nonneg body).
  rewrite (as_i32_small (zlen body)) by lia. rewrite <- app_assoc, rd_varint by (unfold is_i32; lia).
  rewrite Zltb_false, rd_need by zlen_lia. unfold body, default_record_body. rewrite <- !app_assoc.
  rewrite rd_be_i8 by lia. rewrite rd_varint by apply as_i32_range. rewrite rd_varint by done. rewrite rd_nullable by done.
  rewrite (app_assoc (write_varint (as_i32 (zlen (rec_value r))))).
  rewrite (rd_nullable (Some (rec_value r))) by (by intros x [= <-]).
  pose proof (zlen_nonneg (rec_headers r)). rewrite (as_i32_small (zlen (rec_headers r))) by lia. rewrite rd_varint by (unfold is_i32; lia).
  rewrite Zltb_false by lia. erewrite bind_got; [|apply (times_concat put_record_header read_record_header id)].
  - rewrite map_id. done.
  - intros h rest' Hin. rewrite Forall_forall in Hn. rewrite Forall_forall in Hh. destruct (Hh h Hin). rewrite rd_end.
    apply rd_record_header; [by apply Hn|done..].
Qed.

Lemma delta_exact first r : krecord_ok first r → delta_message first r = message_of r.
Proof.
  intros [Ht Hd _ _]. unfold delta_message, message_of. repeat f_equal. rewrite as_i32_id by done.
  unfold i64_saturating_add, is_i64 in *. lia.
Qed.

Lemma put_groups_length k : ∀ v, zlen (put_groups k v) ≤ Z.of_nat k + 1.
Proof.
  induction k as [|k IH]; intros v; cbn [put_groups]; case_match; rewrite zlen_cons, ?zlen_nil; [lia..|].
  specialize (IH (Z.shiftr v 7)). lia.
Qed.

Lemma record_size first r i : krecord_ok first r → zlen (default_record_body r first i) < 2147483648.
Proof.
  intros [_ _ Hz _]. unfold default_record_body in *. rewrite !zlen_app in Hz. rewrite !zlen_app.
  pose proof (write_varint_nonempty 0). assert (zlen (write_varint i) ≤ 5) by apply (put_groups_length 4). lia.
Qed.

Lemma read_records first rs : ∀ i rest,
  Forall (krecord_ok first) rs →
  times_nat (length rs) (decode_default_record first) (encode_records rs first i ++ rest) = Got (map message_of rs) rest.
Proof.
  induction rs as [|r rs IH]; intros i rest HF; cbn [length times_nat encode_records map]; [done|].
  apply Forall_cons in HF as [Hr HF]. rewrite <- app_assoc.
  erewrite bind_got; [|apply read_record; [apply as_i32_range|by apply record_size|by destruct Hr]].
  erewrite bind_got; [|by apply IH]. by rewrite delta_exact.
Qed.

(** ** Batches *)

Section batches.
Context `{Crc32c} `{CompressorLaws}.

Record producer_ok (p : RecordBatchProducer) : Prop := {
  kp_id : is_i64 (rb_producer_id p) = true;
  kp_epoch : is_i16 (rb_producer_epoch p) = true;
  kp_sequence : is_i32 (rb_base_sequence p) = true;
}.

(** The part of a batch under its checksum. *)
Definition under_crc (attributes delta first max : Z) (p : RecordBatchProducer) (count : Z) (payload : bytes) : bytes :=
  put_i16 attributes ++ put_i32 delta ++ put_i64 first ++ put_i64 max ++ put_i64 (rb_producer_id p) ++
  put_i16 (rb_producer_epoch p) ++ put_i32 (rb_base_sequence p) ++ put_i32 count ++ payload.

Lemma zlen_under_crc attributes delta first max p count payload :
  zlen (under_crc attributes delta first max p count payload) = 40 + zlen payload.
Proof. unfold under_crc, put_i16, put_i32, put_i64. rewrite !zlen_app, !zlen_be_bytes. lia. Qed.

(** Integers read and dropped. *)
Lemma rd_skip_i32 {B} z rest (f : reader B) : (get_i32 ≫= λ _, f) (put_i32 z ++ rest) = f rest.
Proof. unfold get_i32, get_be. rewrite !bind_assoc. by rewrite rd_get_slice. Qed.
Lemma rd_skip_i64 {B} z rest (f : reader B) : (get_i64 ≫= λ _, f) (put_i64 z ++ rest) = f rest.
Proof. unfold get_i64, get_be. rewrite !bind_assoc. by rewrite rd_get_slice. Qed.

Lemma read_batch attributes codec delta first max p count payload records ms left :
  is_i16 attributes = true → from_attributes attributes = Ok codec → is_i64 first = true → producer_ok p →
  is_i32 count = true → 0 ≤ count → decompress codec payload = Ok records →
  times count (decode_default_record first) records = Got ms left →
  decode_one_record_batch (put_i32 (-1) ++ put_i8 2 ++
    put_u32 (crc32c (under_crc attributes delta first max p count payload)) ++
    under_crc attributes delta first max p count payload) = Got (mkDecodedBatch p ms) [].
Proof.
  intros Ha Hcodec Hf [P1 P2 P3] Hc Hc0 Hd Hm. unfold decode_one_record_batch. set (u := under_crc _ _ _ _ _ _ _).
  pose proof (zlen_under_crc attributes delta first max p count payload) as Hu. fold u in Hu. pose proof (zlen_nonneg payload).
  rewrite rd_need by (unfold put_i32, put_i8, put_u32; rewrite !zlen_app, !zlen_be_bytes; lia).
  rewrite rd_skip_i32, rd_be_i8 by lia. cbn [Z.eqb Pos.eqb negb]. rewrite rd_be_u32 by apply crc32c_range.
  erewrite bind_got; [|unfold check_crc; by rewrite Z.eqb_refl]. unfold u, under_crc.
  rewrite rd_be_i16 by done. rewrite Hcodec. cbn [lift]. rewrite bind_ret.
  rewrite rd_skip_i32, rd_be_i64, rd_skip_i64 by done.
  rewrite rd_be_i64, rd_be_i16, rd_be_i32, rd_be_i32 by done. rewrite Zltb_false by done.
  rewrite rd_remaining. rewrite <- (app_nil_r payload) at 2. rewrite rd_get_slice by done. rewrite Hd. cbn [lift]. rewrite bind_ret.
  erewrite bind_got; [|unfold within; by rewrite Hm]. by destruct p.
Qed.

(** *** A stream of batches *)

Lemma zlen_frame base u : zlen (frame_batch base u) = 21 + zlen u.
Proof. unfold frame_batch, put_i64, put_i32, put_i8, put_u32. rewrite !zlen_app, !zlen_be_bytes. lia. Qed.

Lemma batches_next fuel base u b rest :
  40 ≤ zlen u → zlen u + 9 < 2147483648 →
  decode_one_record_batch (put_i32 (-1) ++ put_i8 2 ++ put_u32 (crc32c u) ++ u) = Got b [] →
  batches (S fuel) (frame_batch base u ++ rest) = (bs ← batches fuel; mret (b :: bs)) rest.
Proof.
  intros Hu Hz Hb. cbn [batches]. rewrite rd_remaining, zlen_app, zlen_frame, Zltb_false by zlen_lia.
  unfold frame_batch. set (body := put_i32 (-1) ++ _) in *. rewrite <- !app_assoc.
  rewrite rd_skip_i64, as_i32_small, rd_be_i32 by (unfold is_i32; lia). rewrite Zltb_false by lia.
  assert (Hl : 4 + 1 + 4 + zlen u = zlen body).
  { unfold body, put_i32, put_i8, put_u32. rewrite !zlen_app, !zlen_be_bytes. lia. }
  rewrite rd_remaining, Hl, zlen_app, Zltb_false by zlen_lia. rewrite rd_get_slice by done.
  erewrite bind_got; [|unfold within; by rewrite Hb]. done.
Qed.

(** The beginning of a batch that has not arrived as a whole. *)
Definition cut_off (tail : bytes) : Prop :=
  ∃ base u, zlen u + 9 < 2147483648 ∧ tail `prefix_of` frame_batch base u ∧ tail ≠ frame_batch base u.

Lemma batches_cut fuel tail : tail = [] ∨ cut_off tail → ∃ left, batches fuel tail = Got [] left.
Proof.
  intros Ht. destruct (decide (zlen tail < 61)) as [Hs|Hs].
  { exists tail. destruct fuel; cbn [batches]; by rewrite rd_remaining, Zltb_true. }
  destruct Ht as [->|(base & u & Hz & [k Hk] & Hne)]; [done|]. pose proof (zlen_nonneg u).
  assert (Hl : zlen tail < 21 + zlen u).
  { rewrite <- (zlen_frame base u), Hk, zlen_app. destruct k as [|x k]; [by rewrite app_nil_r in Hk|].
    rewrite zlen_cons. pose proof (zlen_nonneg k). lia. }
  set (head := put_i64 base ++ put_i32 (as_i32 (4 + 1 + 4 + zlen u))).
  assert (Hh : zlen head = 12) by (unfold head, put_i64, put_i32; rewrite zlen_app, !zlen_be_bytes; lia).
  assert (Hsplit : tail = head ++ zdrop 12 tail).
  { rewrite <- (ztake_zdrop 12 tail) at 1. f_equal. rewrite <- (ztake_app_le 12 tail k) by lia. rewrite <- Hk.
    unfold frame_batch. rewrite app_assoc. by apply ztake_app_exact. }
  assert (Hd : zlen (zdrop 12 tail) = zlen tail - 12) by (rewrite zlen_zdrop; lia).
  exists (zdrop 12 tail). rewrite Hsplit at 1. unfold head. rewrite <- app_assoc.
  destruct fuel; cbn [batches];
    (rewrite rd_remaining, !zlen_app, Hd, Zltb_false by (unfold put_i64, put_i32; rewrite ?zlen_be_bytes; lia);
     rewrite rd_skip_i64, as_i32_small, rd_be_i32 by (unfold is_i32; lia); rewrite Zltb_false by lia;
     by rewrite rd_remaining, Hd, Zltb_true by lia).
Qed.

(** *** What an encoder made *)

Record kbatch := mkKBatch {
  kb_records : list LogRecord;
  kb_codec : CompressionCodec;
  kb_producer : RecordBatchProducer;
}.

Record kbatch_ok (b : kbatch) (d : bytes) : Prop := {
  ko_encoded : encode_record_batch_with_options (kb_records b) (kb_codec b) (kb_producer b) = Ok d;
  ko_size : zlen d < 2147483648;
  ko_count : 0 < zlen (kb_records b) < 2147483648;
  ko_records : Forall (krecord_ok (match kb_records b with r :: _ => rec_timestamp_ms r | [] => 0 end)) (kb_records b);
  ko_producer : producer_ok (kb_producer b);
}.

(** What the broker takes a batch for. *)
Definition kbatch_decoded (b : kbatch) : DecodedRecordBatch :=
  mkDecodedBatch (kb_producer b) (map message_of (kb_records b)).

(** The bytes [d] of one batch that is decoded to [b]. *)
Definition encodes (b : DecodedRecordBatch) (d : bytes) : Prop :=
  ∃ base u, d = frame_batch base u ∧ 40 ≤ zlen u ∧ zlen u + 9 < 2147483648 ∧
    decode_one_record_batch (put_i32 (-1) ++ put_i8 2 ++ put_u32 (crc32c u) ++ u) = Got b [].

Lemma batch_encodes base attributes codec delta first max p count payload records ms left :
  is_i16 attributes = true → from_attributes attributes = Ok codec → is_i64 first = true → producer_ok p →
  is_i32 count = true → 0 ≤ count → decompress codec payload = Ok records → zlen payload + 49 < 2147483648 →
  times count (decode_default_record first) records = Got ms left →
  encodes (mkDecodedBatch p ms) (frame_batch base (under_crc attributes delta first max p count payload)).
Proof.
  intros. exists base, (under_crc attributes delta first max p count payload). rewrite zlen_under_crc. pose proof (zlen_nonneg payload).
  split; [done|]. split; [lia|]. split; [lia|]. by eapply read_batch.
Qed.

Lemma batch_frame b d :
  kbatch_ok b d → encodes (kbatch_decoded b) d.
Proof.
  intros [E Hz Hc HF Hp]. destruct b as [rs codec p]. cbn [kb_records kb_codec kb_producer] in *.
  destruct rs as [|r0 rs0] eqn:Ers; [by destruct Hc|]. cbn [encode_record_batch_with_options] in E.
  rewrite <- Ers in *. destruct (compress codec _) as [payload|] eqn:Ec; [|done].
  set (first := rec_timestamp_ms r0) in *.
  set (u := under_crc (codec_as_u8 codec) (as_i32 (zlen rs) - 1) first (max_timestamp first rs) p (as_i32 (zlen rs)) payload).
  assert (Hd : Ok (frame_batch (rec_offset r0) u) = Ok d) by exact E. assert (d = frame_batch (rec_offset r0) u) as -> by congruence.
  rewrite zlen_frame in Hz. unfold u in Hz. rewrite zlen_under_crc in Hz.
  unfold u. eapply batch_encodes.
  - by destruct codec.
  - apply from_as_u8.
  - rewrite Ers in HF. apply Forall_cons in HF as [[Ht _ _ _] _]. exact Ht.
  - done.
  - apply as_i32_range.
  - rewrite as_i32_small by lia. lia.
  - apply compress_undone; [exact Ec|lia].
  - lia.
  - rewrite as_i32_small by lia. rewrite times_eq. unfold zlen. rewrite Nat2Z.id. rewrite <- (app_nil_r (encode_records rs first 0)).
    apply read_records. exact HF.
Qed.

Lemma batches_read bs ds : Forall2 encodes bs ds → ∀ fuel tail,
  (length bs ≤ fuel)%nat → tail = [] ∨ cut_off tail →
  ∃ left, batches fuel (concat ds ++ tail) = Got bs left.
Proof.
  induction 1 as [|b d bs ds Hb HF IH]; intros fuel tail Hf Ht; [by apply batches_cut|].
  destruct fuel as [|fuel]; cbn [length] in Hf; [lia|]. destruct Hb as (base & u & -> & Hu & Hz & Hone).
  destruct (IH fuel tail) as [left E]; [lia|done|]. exists left. cbn [concat]. rewrite <- app_assoc.
  rewrite (batches_next fuel base u _ _ Hu Hz Hone). by rewrite (bind_got _ _ _ _ _ E).
Qed.

(** The byte that tells the formats apart. *)
Lemma magic_of head m rest :
  zlen head = 16 → -128 ≤ m < 128 → signed 8 (be_val (ztake 1 (zdrop 16 (head ++ put_i8 m ++ rest)))) = m.
Proof.
  intros Hh Hm. rewrite zdrop_app_exact, ztake_app_exact by (done || by rewrite Hh). unfold put_i8.
  rewrite be_val_bytes, <- le_val_bytes. by apply signed_le_val.
Qed.

(** What starts with a batch is taken for batches. *)
Lemma batches_dispatch `{Crc32} bs ds tail :
  bs ≠ [] → Forall2 encodes bs ds → tail = [] ∨ cut_off tail →
  ∃ left, decode_produce_batches (concat ds ++ tail) = Got bs left.
Proof.
  intros Hne HF Ht. destruct (batches_read bs ds HF (length (concat ds ++ tail)) tail) as [left E]; [|done|].
  { rewrite length_app. clear Ht Hne. induction HF as [|b d bs ds Hb HF IH]; cbn [length concat]; [lia|]. rewrite length_app.
    destruct Hb as (base & u & -> & Hu & Hz & _). pose proof (zlen_frame base u). unfold zlen in *. lia. }
  exists left. destruct HF as [|b d bs ds Hb HF]; [done|]. destruct Hb as (base & u & -> & Hu & Hz & _).
  unfold decode_produce_batches. cbn [concat] in *. rewrite <- app_assoc in *.
  set (head := put_i64 base ++ put_i32 (as_i32 (4 + 1 + 4 + zlen u)) ++ put_i32 (-1)).
  assert (Hd : frame_batch base u ++ concat ds ++ tail = head ++ put_i8 2 ++ (put_u32 (crc32c u) ++ u) ++ concat ds ++ tail).
  { unfold frame_batch, head. by rewrite <- !app_assoc. }
  assert (Hh : zlen head = 16) by (unfold head, put_i64, put_i32; rewrite !zlen_app, !zlen_be_bytes; lia).
  assert (Hm : signed 8 (be_val (ztake 1 (zdrop 16 (frame_batch base u ++ concat ds ++ tail)))) = 2) by (rewrite Hd; by apply magic_of).
  rewrite bool_decide_false by (intros Hnil; rewrite Hnil in Hm; done).
  rewrite Zltb_false by (rewrite zlen_app, zlen_frame; zlen_facts; lia). rewrite Hm. exact E.
Qed.


End batches.

(** ** Message sets *)

Section message_sets.
Context `{Crc32} `{Crc32c} `{CompressorLaws}.

(** Message sets have no headers. *)
Definition set_message (r : LogRecord) : Message :=
  mkMessage (rec_key r) (rec_value r) (Some (rec_timestamp_ms r)) [].

Definition plain_message (attributes timestamp : Z) (key : option bytes) (value : bytes) : bytes :=
  put_i8 1 ++ put_i8 attributes ++ put_i64 timestamp ++ put_bytes key ++ put_bytes (Some value).

Lemma read_message nested attributes codec ts key value :
  0 ≤ attributes < 8 → from_attributes attributes = Ok codec → is_i64 ts = true →
  (∀ k, key = Some k → kbytes_ok k) → kbytes_ok value →
  one_message nested (put_i32 (crc32_hash (plain_message attributes ts key value)) ++ plain_message attributes ts key value) =
  if bool_decide (codec = NoCompression) then Got [mkMessage key value (Some ts) []] [] else
  match nested with
  | None => Bad (Protocol "message set compression nesting too deep")
  | Some nested => match decompress codec value with Err e => Bad e | Ok plain => nested plain end
  end.
Proof.
  intros Ha Hcodec Ht Hk Hv. unfold one_message. set (m := plain_message _ _ _ _).
  assert (H4 : zlen (put_i32 (crc32_hash m)) = 4) by apply (zlen_be_bytes 4).
  assert (H10 : 10 ≤ zlen m).
  { unfold m, plain_message, put_i8, put_i64. rewrite !zlen_app, !zlen_be_bytes. zlen_facts. lia. }
  rewrite Zltb_false by (rewrite zlen_app; lia). rewrite ztake_app_exact, zdrop_app_exact by done.
  assert (Hcrc : be_val (put_i32 (crc32_hash m)) = crc32_hash m) by (apply be_val_small, crc32_range).
  rewrite Hcrc, Z.eqb_refl. cbn [negb].
  assert (Hf : message_fields m = Got (codec, mkMessage key value (Some ts) []) []).
  { unfold message_fields, m, plain_message. rewrite rd_be_i8, rd_be_i8 by lia. cbn [Z.eqb Pos.eqb].
    rewrite bind_assoc, rd_need by (unfold put_i64; rewrite !zlen_app, zlen_be_bytes; zlen_facts; lia).
    rewrite bind_assoc, rd_be_i64 by done. rewrite bind_ret, rd_bytes by done.
    rewrite <- (app_nil_r (put_bytes (Some value))), rd_bytes by (by intros x [= <-]).
    assert (Hl : Z.land attributes 7 = attributes) by (change 7 with (Z.ones 3); rewrite Z.land_ones by lia; apply Z.mod_small; lia).
    by rewrite Hl, Hcodec. }
  by rewrite Hf.
Qed.

Lemma messages_next nested fuel off msg ms rest left :
  zlen msg + 4 < 2147483648 → one_message nested (put_i32 (crc32_hash msg) ++ msg) = Got ms left →
  messages nested (S fuel) (frame_message off msg ++ rest) = (more ← messages nested fuel; mret (ms ++ more)) rest.
Proof.
  intros Hz Hm. pose proof (zlen_nonneg msg). pose proof (zlen_nonneg rest). unfold frame_message. cbn [messages].
  set (body := put_i32 (crc32_hash msg) ++ msg) in *.
  assert (Hl : zlen body = 4 + zlen msg) by (unfold body, put_i32; rewrite zlen_app, zlen_be_bytes; lia).
  rewrite rd_remaining, <- !app_assoc, Zltb_false by (unfold put_i64, put_i32; rewrite !zlen_app, !zlen_be_bytes; lia).
  rewrite rd_skip_i64, as_i32_small, rd_be_i32 by (unfold is_i32; lia). rewrite Zltb_false by lia.
  rewrite rd_remaining, zlen_app, Zltb_false by lia. rewrite rd_get_slice by done.
  erewrite bind_got; [|unfold within; by rewrite Hm]. done.
Qed.

Lemma messages_end nested fuel : messages nested fuel [] = Got [] [].
Proof. by destruct fuel. Qed.

Record kmessage_ok (r : LogRecord) : Prop := {
  km_timestamp : is_i64 (rec_timestamp_ms r) = true;
  km_size : zlen (plain_message 0 (rec_timestamp_ms r) (rec_key r) (rec_value r)) + 4 < 2147483648;
}.

Lemma message_parts a ts key value :
  zlen (plain_message a ts key value) + 4 < 2147483648 → (∀ k, key = Some k → kbytes_ok k) ∧ kbytes_ok value.
Proof.
  unfold plain_message, put_bytes, kbytes_ok. rewrite !zlen_app. intros Hz. zlen_facts. split; [|lia].
  intros k ->. rewrite zlen_app in Hz. zlen_facts. lia.
Qed.

Lemma set_read depth rs : ∀ fuel, Forall kmessage_ok rs → (length rs ≤ fuel)%nat →
  messages depth fuel (encode_message_set rs) = Got (map set_message rs) [].
Proof.
  induction rs as [|r rs IH]; intros fuel HF Hf; [apply messages_end|]. apply Forall_cons in HF as [[Ht Hz] HF].
  destruct fuel as [|fuel]; cbn [length] in Hf; [lia|]. cbn [map]. unfold encode_message_set. cbn [map concat].
  destruct (message_parts _ _ _ _ Hz) as [Hk Hv].
  erewrite (messages_next _ _ _ (plain_message 0 (rec_timestamp_ms r) (rec_key r) (rec_value r))); [|done|by rewrite (read_message _ 0 NoCompression)].
  by rewrite (bind_got _ _ _ _ _ (IH fuel HF ltac:(lia))).
Qed.

Lemma set_fuel rs : (length rs ≤ length (encode_message_set rs))%nat.
Proof.
  pose proof (zlen_concat_count (λ r, frame_message (rec_offset r) (plain_message 0 (rec_timestamp_ms r) (rec_key r) (rec_value r))) rs) as Hl.
  assert (Hone : ∀ r : LogRecord, 1 ≤ zlen (frame_message (rec_offset r) (plain_message 0 (rec_timestamp_ms r) (rec_key r) (rec_value r)))).
  { intros r. unfold frame_message, put_i64. rewrite zlen_app, zlen_be_bytes. zlen_facts. lia. }
  apply Nat2Z.inj_le. exact (Hl Hone).
Qed.

Lemma frame_message_split off msg :
  frame_message off msg = (put_i64 off ++ put_i32 (as_i32 (4 + zlen msg)) ++ put_i32 (crc32_hash msg)) ++ msg.
Proof. unfold frame_message. by rewrite <- !app_assoc. Qed.

(** What starts with a message is taken for a message set. *)
Lemma set_dispatch off a ts key value rest ms left :
  decode_message_set (frame_message off (plain_message a ts key value) ++ rest) = Got ms left →
  decode_produce_batches (frame_message off (plain_message a ts key value) ++ rest) = Got [mkDecodedBatch NO_PRODUCER ms] left.
Proof.
  intros E. unfold decode_produce_batches. set (msg := plain_message a ts key value) in *.
  set (head := put_i64 off ++ put_i32 (as_i32 (4 + zlen msg)) ++ put_i32 (crc32_hash msg)).
  assert (Hh : zlen head = 16) by (unfold head, put_i64, put_i32; rewrite !zlen_app, !zlen_be_bytes; lia).
  assert (Hm : signed 8 (be_val (ztake 1 (zdrop 16 (frame_message off msg ++ rest)))) = 1).
  { rewrite frame_message_split. fold head. unfold msg, plain_message. rewrite <- !app_assoc. by apply magic_of. }
  rewrite bool_decide_false by (intros Hnil; rewrite Hnil in Hm; done).
  rewrite Zltb_false.
  2: { rewrite frame_message_split, !zlen_app. unfold put_i64, put_i32, msg, plain_message, put_i8. rewrite !zlen_app, !zlen_be_bytes. zlen_facts. lia. }
  rewrite Hm. cbn [Z.eqb Pos.eqb orb]. by rewrite E.
Qed.

(** Records written as a message set, plain or compressed with any
    codec, are taken for one batch without a producer, with the key, value and
    timestamp of every record; headers, which the format does not have, are
    gone. *)
Theorem message_set_roundtrip rs codec d :
  rs ≠ [] → Forall kmessage_ok rs → encode_message_set_compressed rs codec = Ok d → zlen d < 2147483648 →
  is_i64 (max_timestamp (match rs with r :: _ => rec_timestamp_ms r | [] => 0 end) rs) = true →
  ∃ left, decode_produce_batches d = Got [mkDecodedBatch NO_PRODUCER (map set_message rs)] left.
Proof.
  intros Hne HF E Hz Hmax. destruct rs as [|r0 rs0] eqn:Ers; [done|]. rewrite <- Ers in *.
  assert (Hset : encode_message_set rs = frame_message (rec_offset r0) (plain_message 0 (rec_timestamp_ms r0) (rec_key r0) (rec_value r0)) ++ encode_message_set rs0)
    by (by rewrite Ers).
  destruct (last rs) as [rl|] eqn:El; [|by rewrite Ers, last_cons in El; destruct (last rs0)].
  unfold encode_message_set_compressed in E. rewrite Ers in E at 1. rewrite <- Ers, El in E. case_bool_decide as Hc.
  - exists []. assert (d = encode_message_set rs) as -> by congruence. rewrite Hset. apply set_dispatch. rewrite <- Hset.
    apply set_read; [done|apply set_fuel].
  - set (codec' := if bool_decide (codec = Zstd) then Lz4 else codec) in *.
    destruct (compress codec' (encode_message_set rs)) as [c|] eqn:Ec; [|done].
    set (msg := plain_message (codec_as_u8 codec') (max_timestamp (rec_timestamp_ms r0) rs) None c).
    assert (Hd : Ok (frame_message (rec_offset rl) msg) = Ok d) by exact E. assert (d = frame_message (rec_offset rl) msg) as -> by congruence.
    assert (Hmz : zlen msg + 4 < 2147483648).
    { rewrite frame_message_split, !zlen_app in Hz. unfold put_i64, put_i32 in Hz. rewrite !zlen_be_bytes in Hz. lia. }
    destruct (message_parts _ _ _ _ Hmz) as [_ Hcv]. rewrite Ers in Hmax. rewrite <- Ers in Hmax at 1.
    assert (Hne' : codec' ≠ NoCompression) by (unfold codec'; case_bool_decide; done).
    exists []. rewrite <- (app_nil_r (frame_message _ _)). apply set_dispatch. unfold decode_message_set.
    change (Z.to_nat MAX_MESSAGE_SET_COMPRESSION_DEPTH) with 3%nat. cbn [decode_message_set_depth]. fold msg.
    assert (Hfuel : ∃ fuel, length (frame_message (rec_offset rl) msg ++ []) = S fuel) by (by eexists). destruct Hfuel as [fuel ->].
    rewrite (messages_next _ _ _ msg (map set_message rs) [] []); [|done|].
    + rewrite (bind_got _ _ _ _ _ (messages_end _ fuel)). by rewrite app_nil_r.
    + unfold msg. rewrite (read_message _ _ codec'); [|by destruct codec'|apply from_as_u8|done|done|done].
      rewrite bool_decide_false by done. rewrite (compress_undone _ _ _ Ec) by done. apply set_read; [done|apply set_fuel].
Qed.

End message_sets.
