(* ===== verification/KafkaTheorems.v ===== *)
(** * Records of a Fetch response (kafka/produce_fetch.rs, kafka/compress.rs)

    The codec the broker compresses with, and how the records of a partition
    become a message set or a sequence of record batches, with a control batch
    for every transaction marker among them. *)

From Stdlib Require Import Strings.String.
From S2P Require Import Prelude Bytes Core Wire KafkaWire Text KafkaRecords.
#[local] Open Scope Z_scope.

(** ** The codec *)

Definition named (s : string) (names : list string) : bool := existsb (eq_ignore_ascii_case (trim s)) names.

Definition parse_name (s : string) : option CompressionCodec :=
  if named s ["none"; "0"] then Some NoCompression
  else if named s ["gzip"; "1"] then Some Gzip
  else if named s ["snappy"; "2"] then Some Snappy
  else if named s ["lz4"; "3"] then Some Lz4
  else if named s ["zstd"; "4"] then Some Zstd
  else None.

(** [env] is the value of the environment variable. *)
Definition resolve_fetch_compression_codec (env : option string) : CompressionCodec :=
  match env with
  | Some v => default Lz4 (parse_name v)
  | None => Lz4
  end.

(** ** Record sets *)

Section fetch.
Context `{Crc32} `{Crc32c} `{Compressors}.

(** A batch that cannot be compressed is sent plain; [expect] of the plain
    one never fails, a batch without compression is always made. *)
Definition plain_batch (data : list LogRecord) : bytes :=
  match encode_record_batch data with Ok b => b | Err _ => [] end.

Definition flush_data (codec : CompressionCodec) (data : list LogRecord) : bytes :=
  match data with
  | [] => []
  | _ =>
    if bool_decide (codec = NoCompression) then plain_batch data else
    match encode_record_batch_compressed data codec with Ok b => b | Err _ => plain_batch data end
  end.

(** [data] is what is collected for the next batch. *)
Fixpoint fetch_record_batches (codec : CompressionCodec) (data rs : list LogRecord) : bytes :=
  match rs with
  | [] => flush_data codec data
  | r :: rs =>
    match parse_txn_control_record r with
    | Some ctrl =>
      flush_data codec data ++
      encode_control_record_batch (as_i64 (rec_offset r)) (cm_producer_id ctrl) (cm_producer_epoch ctrl)
        (cm_marker_type ctrl) (cm_coordinator_epoch ctrl) (rec_timestamp_ms r) ++
      fetch_record_batches codec [] rs
    | None => fetch_record_batches codec (data ++ [r]) rs
    end
  end.

Definition encode_fetch_record_batches (rs : list LogRecord) (codec : CompressionCodec) : bytes :=
  fetch_record_batches codec [] rs.

Definition encode_fetch_record_set (codec : CompressionCodec) (rs : list LogRecord) (version : Z) : bytes :=
  match rs with
  | [] => []
  | _ =>
    if version <? 4 then
      let data := filter (λ r, is_txn_control_record r = false) rs in
      match data with
      | [] => []
      | _ =>
        if bool_decide (codec = NoCompression) then encode_message_set data else
        match encode_message_set_compressed data codec with Ok set => set | Err _ => encode_message_set data end
      end
    else encode_fetch_record_batches rs codec
  end.

End fetch.

(** * Control records, consumer metadata and witnesses of the Kafka formats

    Transaction markers keep what they say through the log and through a
    control batch; subscriptions and assignments reach the other member; two
    examples of what the record decoder does with input outside the theorems
    of KafkaRecordsProps; concrete inputs for those. *)

From S2P Require Import WireLogic KafkaWireProps Assignor AssignorProps KafkaRecordsProps.
#[local] Open Scope Z_scope.

(** ** Control records *)

Lemma marker_from_code t : marker_from_i16 (marker_code t) = Some t.
Proof. by destruct t. Qed.

Lemma be_signed n w v :
  256 ^ Z.of_nat n = 2 ^ w → 0 < w → - 2 ^ (w - 1) ≤ v < 2 ^ (w - 1) → signed w (be_val (be_bytes n v)) = v.
Proof. intros Hw Hp Hv. rewrite be_val_bytes, <- le_val_bytes. by apply signed_le_val. Qed.

Lemma stored_marker_parsed off ts t pid epoch now :
  is_i64 pid = true → is_i16 epoch = true →
  let r := record_of off ts (txn_control_message t pid epoch now) in
  is_txn_control_record r = true ∧ parse_txn_control_record r = Some (mkControlMarker t pid epoch 0).
Proof.
  intros Hp He r. assert (Hc : is_txn_control_record r = true) by done. split; [done|].
  unfold is_i64, is_i16, i64_min, i64_max in *. unfold parse_txn_control_record. rewrite Hc. cbn [negb].
  change (rec_key r) with (Some (be_bytes 2 0 ++ be_bytes 2 (marker_code t))). cbn [mbind option_bind].
  rewrite Zltb_false by done. rewrite zdrop_app_exact by done.
  rewrite (ztake_ge 2 (be_bytes 2 (marker_code t))) by done. rewrite be_signed by (done || by destruct t).
  rewrite marker_from_code. cbn [mbind option_bind].
  assert (Hf : foldl control_header (-1, -1) (rec_headers r) = (pid, epoch)).
  { change (rec_headers r) with (msg_headers (txn_control_message t pid epoch now)). cbn [txn_control_message msg_headers foldl].
    assert (E1 : control_header (-1, -1) (TXN_CONTROL_HEADER, TXN_CONTROL_HEADER_VALUE) = (-1, -1)) by done.
    assert (E2 : control_header (-1, -1) (TXN_CONTROL_PID_HEADER, be_bytes 8 pid) = (pid, -1)).
    { unfold control_header. cbn [fst snd]. rewrite String.eqb_refl, zlen_be_bytes. cbn [andb Z.leb Z.compare Pos.compare Pos.compare_cont Z.of_nat].
      rewrite ztake_ge by by rewrite zlen_be_bytes. rewrite be_signed by (done || lia). done. }
    assert (E3 : control_header (pid, -1) (TXN_CONTROL_EPOCH_HEADER, be_bytes 2 epoch) = (pid, epoch)).
    { unfold control_header. cbn [fst snd]. rewrite String.eqb_refl, zlen_be_bytes.
      change (TXN_CONTROL_EPOCH_HEADER =? TXN_CONTROL_PID_HEADER)%string with false. cbn [andb Z.leb Z.compare Pos.compare Pos.compare_cont Z.of_nat].
      rewrite ztake_ge by by rewrite zlen_be_bytes. rewrite be_signed by (done || lia). done. }
    by rewrite E1, E2, E3. }
  rewrite Hf. done.
Qed.

Section control_batches.
Context `{Crc32} `{Crc32c} `{CompressorLaws}.

(** The one record of a control batch. *)
Definition control_record (t : ControlMarkerType) (coordinator_epoch ts : Z) : LogRecord :=
  mkLogRecord 0 (Some (put_i16 0 ++ put_i16 (marker_code t))) (put_i16 0 ++ put_i32 coordinator_epoch) ts [].

Lemma control_batch_shape base pid epoch t ce ts :
  encode_control_record_batch base pid epoch t ce ts =
  frame_batch base (under_crc RECORD_BATCH_ATTR_TXN_CONTROL 0 ts ts (mkBatchProducer pid epoch (-1)) 1
    (encode_default_record (control_record t ce ts) ts 0)).
Proof.
  unfold encode_control_record_batch, under_crc, encode_default_record, default_record_body.
  replace (rec_timestamp_ms (control_record t ce ts) - ts) with 0 by (cbn; lia).
  cbn [control_record rec_key rec_value rec_headers map concat put_nullable].
  assert (E1 : zlen (put_i16 0 ++ put_i16 (marker_code t)) = 4) by (by destruct t).
  assert (E2 : zlen (put_i16 0 ++ put_i32 ce) = 6) by (unfold put_i16, put_i32; rewrite zlen_app, !zlen_be_bytes; lia).
  rewrite E1, E2. change (as_i32 (zlen (@nil (string * bytes)))) with 0.
  change (as_i32 0) with 0. change (as_i32 4) with 4. change (as_i32 6) with 6. cbn [rb_producer_id rb_producer_epoch rb_base_sequence].
  rewrite (app_nil_r (write_varint 0)). by rewrite <- !app_assoc.
Qed.

Lemma control_record_ok t ce ts : is_i64 ts = true → krecord_ok ts (control_record t ce ts).
Proof.
  intros Ht. split; [done| | |constructor].
  - cbn. by rewrite Z.sub_diag.
  - unfold default_record_body, control_record. cbn [rec_timestamp_ms rec_key rec_value rec_headers map concat]. rewrite Z.sub_diag.
    unfold put_i16, put_i32. rewrite !zlen_app, !zlen_be_bytes. by destruct t.
Qed.

Lemma zlen_varint n : zlen (write_varint n) ≤ 5.
Proof. apply (put_groups_length 4). Qed.

Lemma control_record_size t ce ts : zlen (encode_default_record (control_record t ce ts) ts 0) < 100.
Proof.
  unfold encode_default_record. rewrite zlen_app. set (body := default_record_body _ _ _). pose proof (zlen_varint (as_i32 (zlen body))).
  cut (zlen body < 60); [lia|]. unfold body, default_record_body, put_nullable.
  assert (E1 : zlen (put_i16 0 ++ put_i16 (marker_code t)) = 4) by (by destruct t).
  assert (E2 : zlen (put_i16 0 ++ put_i32 ce) = 6) by (unfold put_i16, put_i32; rewrite zlen_app, !zlen_be_bytes; lia).
  assert (E3 : zlen (put_i8 0) = 1) by done.
  cbn [control_record rec_timestamp_ms rec_key rec_value rec_headers map concat].
  set (k := put_i16 0 ++ put_i16 (marker_code t)) in *. set (v := put_i16 0 ++ put_i32 ce) in *. rewrite !zlen_app, E1, E2, E3.
  pose proof (zlen_varint (as_i32 (ts - ts))). pose proof (zlen_varint 0). pose proof (zlen_varint (as_i32 4)).
  pose proof (zlen_varint (as_i32 6)). pose proof (zlen_varint (as_i32 (zlen (@nil (string * bytes))))).
  change (zlen (@nil byte)) with 0. lia.
Qed.

(** The control batch of a marker decodes to the one record with its type and
    the epoch of the coordinator. *)
Lemma control_batch_encodes base pid epoch t ce ts :
  is_i64 pid = true → is_i16 epoch = true → is_i64 ts = true →
  encodes (mkDecodedBatch (mkBatchProducer pid epoch (-1)) [message_of (control_record t ce ts)])
    (encode_control_record_batch base pid epoch t ce ts).
Proof.
  intros Hp He Ht. rewrite control_batch_shape. pose proof (control_record_ok t ce ts Ht) as Hr.
  pose proof (control_record_size t ce ts) as Hz.
  assert (Hread : times 1 (decode_default_record ts) (encode_default_record (control_record t ce ts) ts 0) =
    Got [message_of (control_record t ce ts)] []).
  { rewrite <- (app_nil_r (encode_default_record _ _ _)). rewrite <- (delta_exact ts _ Hr). rewrite (times_eq 1).
    change (Z.to_nat 1) with 1%nat. cbn [times_nat].
    erewrite bind_got by (apply read_record; [done|by apply record_size|constructor]). done. }
  set (payload := encode_default_record (control_record t ce ts) ts 0) in *. clearbody payload.
  by eapply (batch_encodes _ _ NoCompression _ _ _ _ _ payload payload); [done|done|done|by split|done|done|done|lia|].
Qed.

(** ** Records of a Fetch response *)

(** What a consumer finds for a record of the log. *)
Definition fetched_message (r : LogRecord) : Message :=
  match parse_txn_control_record r with
  | Some c => message_of (control_record (cm_marker_type c) (cm_coordinator_epoch c) (rec_timestamp_ms r))
  | None => message_of r
  end.

Record fetched_ok (codec : CompressionCodec) (rs : list LogRecord) : Prop := {
  fo_records : ∀ r0 r, r0 ∈ rs → r ∈ rs → krecord_ok (rec_timestamp_ms r0) r;
  fo_count : zlen rs < 2147483648;
  fo_batches : ∀ data, data `sublist_of` rs → zlen (flush_data codec data) < 2147483648;
}.

Lemma fetched_ok_sub codec rs rs' : rs' `sublist_of` rs → fetched_ok codec rs → fetched_ok codec rs'.
Proof.
  intros Hs [Hr Hc Hb]. pose proof (sublist_length _ _ Hs). split.
  - intros r0 r H0' Hr'. apply Hr; by eapply elem_of_submseteq, sublist_submseteq.
  - unfold zlen in *. lia.
  - intros data Hd. apply Hb. by etrans.
Qed.

Lemma marker_range r c :
  parse_txn_control_record r = Some c → is_i64 (cm_producer_id c) = true ∧ is_i16 (cm_producer_epoch c) = true.
Proof.
  assert (Hfold : ∀ hs st, is_i64 st.1 = true ∧ is_i16 st.2 = true →
    is_i64 (foldl control_header st hs).1 = true ∧ is_i16 (foldl control_header st hs).2 = true).
  { induction hs as [|h hs IH]; intros st Hst; [done|]. cbn [foldl]. apply IH. unfold control_header.
    destruct (_ && _); cbn [fst snd]; [|destruct (_ && _); cbn [fst snd]; [|done]].
    - pose proof (signed_range 64 (be_val (ztake 8 h.2))) as Hs. change (2 ^ (64 - 1)) with 9223372036854775808 in Hs.
      split; [unfold is_i64, i64_min, i64_max; lia|by apply Hst].
    - pose proof (signed_range 16 (be_val (ztake 2 h.2))) as Hs. change (2 ^ (16 - 1)) with 32768 in Hs.
      split; [by apply Hst|unfold is_i16; lia]. }
  unfold parse_txn_control_record. destruct (negb _); [done|]. destruct (rec_key r) as [key|]; cbn [mbind option_bind]; [|done].
  destruct (_ <? _); [done|]. destruct (marker_from_i16 _) as [t|]; cbn [mbind option_bind]; [|done].
  specialize (Hfold (rec_headers r) (-1, -1)). destruct (foldl control_header (-1, -1) (rec_headers r)) as [p e].
  intros [= <-]. by apply Hfold.
Qed.

Lemma flush_encodes codec data :
  data ≠ [] → fetched_ok codec data →
  ∃ b, encodes b (flush_data codec data) ∧ db_messages b = map message_of data.
Proof.
  intros Hne [Hr Hc Hb]. specialize (Hb data ltac:(done)).
  assert (Hz : 0 < zlen data) by (destruct data; [done|rewrite zlen_cons; pose proof (zlen_nonneg data); lia]).
  assert (Hrec : Forall (krecord_ok (match data with r :: _ => rec_timestamp_ms r | [] => 0 end)) data).
  { destruct data as [|r0 data]; [done|]. apply Forall_forall. intros r Hin. apply Hr; [left|done]. }
  assert (Hok : ∃ c', encode_record_batch_with_options data c' NO_PRODUCER = Ok (flush_data codec data)).
  { unfold flush_data, plain_batch, encode_record_batch, encode_record_batch_compressed.
    assert (Hp : ∃ d, encode_record_batch_with_options data NoCompression NO_PRODUCER = Ok d) by (destruct data; by eexists).
    destruct Hp as [d Ed]. destruct data as [|r0 data'] eqn:Ers; [done|]. rewrite <- Ers in *. rewrite Ed.
    case_bool_decide; [by exists NoCompression|].
    destruct (encode_record_batch_with_options data codec NO_PRODUCER) as [d'|] eqn:E; [by exists codec|by exists NoCompression]. }
  destruct Hok as [c' E]. exists (kbatch_decoded (mkKBatch data c' NO_PRODUCER)). split; [|done]. apply batch_frame. by split.
Qed.

Lemma fetch_batches_encode codec rs : ∀ data,
  fetched_ok codec (data ++ rs) → (∀ r, r ∈ data → parse_txn_control_record r = None) →
  ∃ bs ds, Forall2 encodes bs ds ∧ fetch_record_batches codec data rs = concat ds ∧
    concat (map db_messages bs) = map fetched_message (data ++ rs).
Proof.
  assert (Hflush : ∀ data, fetched_ok codec data → (∀ r, r ∈ data → parse_txn_control_record r = None) →
    ∃ bs ds, Forall2 encodes bs ds ∧ flush_data codec data = concat ds ∧ concat (map db_messages bs) = map fetched_message data).
  { intros data Hok Hd. destruct (decide (data = [])) as [->|Hne]; [exists [], []; by repeat constructor|].
    destruct (flush_encodes codec data Hne Hok) as (b & Hb & Hm). exists [b], [flush_data codec data]. split; [by repeat constructor|].
    cbn [concat map]. rewrite !app_nil_r. split; [done|]. rewrite Hm. apply map_ext_in. intros r Hr. unfold fetched_message.
    by rewrite Hd by by apply list_elem_of_In. }
  induction rs as [|r rs IH]; intros data Hok Hd; cbn [fetch_record_batches]; [rewrite app_nil_r in *; by apply Hflush|].
  destruct (parse_txn_control_record r) as [c|] eqn:Ec.
  - destruct (Hflush data) as (bs1 & ds1 & F1 & E1 & M1); [|done|].
    { eapply fetched_ok_sub; [|exact Hok]. by apply sublist_inserts_r. }
    destruct (IH []) as (bs2 & ds2 & F2 & E2 & M2); [|by intros ? ?%not_elem_of_nil|].
    { eapply fetched_ok_sub; [|exact Hok]. cbn [app]. apply sublist_inserts_l. by apply sublist_cons. }
    assert (Ht : is_i64 (rec_timestamp_ms r) = true).
    { destruct (fo_records _ _ Hok r r) as [Ht _ _ _]; [by apply elem_of_app; right; left..|done]. }
    destruct (marker_range r c Ec) as [Hp He].
    pose proof (control_batch_encodes (as_i64 (rec_offset r)) (cm_producer_id c) (cm_producer_epoch c) (cm_marker_type c)
      (cm_coordinator_epoch c) (rec_timestamp_ms r) Hp He Ht) as Hcb.
    eexists (bs1 ++ _ :: bs2), (ds1 ++ _ :: ds2). split; [apply Forall2_app; [exact F1|]; by constructor|].
    rewrite concat_app, map_app, concat_app. cbn [map concat]. rewrite E1, E2, M1, M2. split; [done|].
    assert (Hm : fetched_message r = message_of (control_record (cm_marker_type c) (cm_coordinator_epoch c) (rec_timestamp_ms r)))
      by (unfold fetched_message; by rewrite Ec).
    rewrite !map_app. cbn [map app db_messages]. by rewrite Hm.
  - destruct (IH (data ++ [r])) as (bs & ds & HF & E & M).
    + by rewrite <- app_assoc.
    + intros x [Hx| ->%list_elem_of_singleton]%elem_of_app; [by apply Hd|done].
    + exists bs, ds. split; [done|]. split; [done|]. by rewrite M, <- app_assoc.
Qed.


(** *** Offsets *)

(** A record whose offset is left out. *)
Definition without_offset (r : LogRecord) : LogRecord :=
  mkLogRecord 0 (rec_key r) (rec_value r) (rec_timestamp_ms r) (rec_headers r).

(** The records of a batch with the distances of their offsets to the first
    one, as the format has them. *)
Definition encode_records_at (base : Z) (rs : list LogRecord) (first_timestamp : Z) : bytes :=
  concat (map (λ r, encode_default_record r first_timestamp (as_i32 (rec_offset r - base))) rs).

Lemma records_at_consecutive base first rs : ∀ i,
  map rec_offset rs = seqZ (base + i) (zlen rs) → encode_records rs first i = encode_records_at base rs first.
Proof.
  induction rs as [|r rs IH]; intros i Hs; [done|]. rewrite zlen_cons in Hs. pose proof (zlen_nonneg rs).
  rewrite seqZ_cons in Hs by lia. cbn [map] in Hs. injection Hs as Ho Hs.
  replace (Z.pred (1 + zlen rs)) with (zlen rs) in Hs by lia. replace (Z.succ (base + i)) with (base + (i + 1)) in Hs by lia.
  cbn [encode_records]. unfold encode_records_at. cbn [map concat]. rewrite (IH (i + 1) Hs). by replace (rec_offset r - base) with i by lia.
Qed.

Lemma body_without_offset r first d : default_record_body (without_offset r) first d = default_record_body r first d.
Proof. unfold default_record_body. cbn [without_offset rec_key rec_value rec_timestamp_ms rec_headers]. reflexivity. Qed.

Lemma records_without_offset first rs : ∀ i, encode_records (map without_offset rs) first i = encode_records rs first i.
Proof.
  induction rs as [|r rs IH]; intros i; cbn [map encode_records]; [reflexivity|]. rewrite IH.
  unfold encode_default_record. rewrite body_without_offset. reflexivity.
Qed.

(** The offsets of a batch. Records with consecutive offsets are written with
    the distances the format asks for. Of other records only the first offset
    reaches the client: batches of records that differ in the offsets behind
    the first are the same bytes, so that a consumer takes the records of a
    partition with gaps, made by compaction or by aborted transactions, for
    records at the offsets in the gaps. *)
Theorem batch_offsets r0 rs rs' codec producer :
  (map rec_offset (r0 :: rs) = seqZ (rec_offset r0) (zlen (r0 :: rs)) →
   encode_records (r0 :: rs) (rec_timestamp_ms r0) 0 = encode_records_at (rec_offset r0) (r0 :: rs) (rec_timestamp_ms r0)) ∧
  (map without_offset rs = map without_offset rs' →
   encode_record_batch_with_options (r0 :: rs) codec producer = encode_record_batch_with_options (r0 :: rs') codec producer).
Proof.
  split.
  - intros Hs. apply records_at_consecutive. by rewrite Z.add_0_r.
  - intros E. cbn [encode_record_batch_with_options].
    assert (Hr : encode_records (r0 :: rs) (rec_timestamp_ms r0) 0 = encode_records (r0 :: rs') (rec_timestamp_ms r0) 0).
    { rewrite <- records_without_offset. symmetry. rewrite <- records_without_offset. cbn [map]. by rewrite E. }
    assert (Hz : zlen (r0 :: rs) = zlen (r0 :: rs')).
    { unfold zlen. cbn [length]. rewrite <- (length_map without_offset rs), E, length_map. done. }
    assert (Hm : max_timestamp (rec_timestamp_ms r0) (r0 :: rs) = max_timestamp (rec_timestamp_ms r0) (r0 :: rs')).
    { unfold max_timestamp. cbn [foldl]. generalize (Z.max (rec_timestamp_ms r0) (rec_timestamp_ms r0)). clear -E. revert rs' E.
      induction rs as [|r rs IH]; intros [|r' rs'] E m; try done. cbn [map] in E. injection E as E1 E2 E3 E4 E. cbn [foldl].
      rewrite E3. by apply IH. }
    rewrite Hr, Hz, Hm. done.
Qed.

End control_batches.

(** ** Metadata of consumers *)

Lemma by_topic_snoc a t p : by_topic (a ++ [(t, p)]) = <[t := default [] (by_topic a !! t) ++ [p]]> (by_topic a).
Proof. unfold by_topic. by rewrite foldl_app. Qed.

(** The partitions of one topic, paired with it again. *)
Definition topic_pairs (e : string * list Z) : list (string * Z) := map (pair e.1) e.2.

Lemma by_topic_perm a : concat (map topic_pairs (map_to_list (by_topic a))) ≡ₚ a.
Proof.
  induction a as [|[t p] a IH] using rev_ind; [done|]. rewrite by_topic_snoc.
  assert (Hins : ∀ l, concat (map topic_pairs (map_to_list (<[t := l]> (by_topic a)))) ≡ₚ
    map (pair t) l ++ concat (map topic_pairs (map_to_list (delete t (by_topic a))))).
  { intros l. rewrite <- insert_delete_eq, map_to_list_insert by apply lookup_delete_eq. done. }
  rewrite Hins, map_app. cbn [map].
  assert (Hold : map (pair t) (default [] (by_topic a !! t)) ++ concat (map topic_pairs (map_to_list (delete t (by_topic a)))) ≡ₚ a).
  { rewrite <- IH at 3. destruct (by_topic a !! t) as [l|] eqn:El; cbn [default].
    - by rewrite <- Hins, insert_id.
    - cbn [map app]. by rewrite delete_id. }
  rewrite <- Hold at 3. solve_Permutation.
Qed.

Lemma rd_u32_as_i32 {B} p rest (f : Z → reader B) :
  0 ≤ p < 4294967296 → ((need 4 "truncated assignment partition id";; x ← get_i32; mret (as_u32 x)) ≫= f) (put_i32 p ++ rest) = f p rest.
Proof.
  intros Hp. rewrite !bind_assoc, rd_need by (unfold put_i32; zlen_lia). unfold get_i32, get_be. rewrite !bind_assoc, rd_get_slice by done.
  rewrite !bind_ret. f_equal. unfold put_i32. rewrite be_val_small by done. unfold as_u32, signed.
  change (2 ^ (32 - 1)) with 2147483648. change (2 ^ 32) with 4294967296. rewrite (Z.mod_small p) by done. case_if; [by rewrite Z.mod_small|].
  rewrite <- (Z.mod_add _ 1) by done. rewrite Z.mod_small; lia.
Qed.

(** Names and numbers that fit their fields. *)
Definition kassignment_ok (a : list (string * Z)) : Prop :=
  Forall (λ e, kstring_ok e.1 ∧ 0 ≤ e.2 < 4294967296) a ∧ zlen a < 2147483648.

Lemma topic_parts_read t ps rest :
  kstring_ok t → Forall (λ p, 0 ≤ p < 4294967296) ps → zlen ps < 2147483648 →
  decode_topic_parts (encode_topic_parts (t, ps) ++ rest) = Got (map (pair t) ps) rest.
Proof.
  intros Ht Hps Hz. pose proof (zlen_nonneg ps). unfold decode_topic_parts, encode_topic_parts. cbn [fst snd]. rewrite <- !app_assoc, rd_string by done.
  rewrite rd_need by (unfold put_i32; zlen_lia). rewrite as_i32_small, rd_be_i32 by (unfold is_i32; lia).
  rewrite Z.max_l by lia. erewrite bind_got; [|apply (times_concat put_i32 _ id)].
  - by rewrite map_id.
  - intros p rest' Hin. rewrite Forall_forall in Hps. rewrite rd_end. by rewrite rd_u32_as_i32 by by apply Hps.
Qed.

Lemma by_topic_nonempty a t ps : by_topic a !! t = Some ps → ps ≠ [].
Proof.
  revert t ps. induction a as [|[t' p] a IH] using rev_ind; intros t ps; [done|]. rewrite by_topic_snoc.
  rewrite lookup_insert_Some. intros [[<- <-]|[_ Hl]]; [by destruct (default [] _)|by apply (IH t)].
Qed.

(** The topics of an assignment with their partitions. *)
Lemma sorted_topics_ok a t ps :
  kassignment_ok a → (t, ps) ∈ merge_sort name_le (map_to_list (by_topic a)) →
  kstring_ok t ∧ Forall (λ p, 0 ≤ p < 4294967296) ps ∧ zlen ps < 2147483648.
Proof.
  intros [Hok Hz]. rewrite merge_sort_Permutation. intros Hin. pose proof (by_topic_perm a) as Hp.
  assert (Hsub : map (pair t) ps ⊆+ a).
  { rewrite <- Hp. apply list_elem_of_split in Hin as (l1 & l2 & El). rewrite El, map_app, concat_app. cbn [map concat].
    etrans; [|apply submseteq_inserts_l, submseteq_inserts_r; reflexivity]. done. }
  assert (Hel : ∀ p, p ∈ ps → kstring_ok t ∧ 0 ≤ p < 4294967296).
  { intros p Hps. rewrite Forall_forall in Hok. apply (Hok (t, p)). eapply elem_of_submseteq; [|exact Hsub]. apply list_elem_of_In, in_map. by apply list_elem_of_In. }
  apply elem_of_map_to_list, by_topic_nonempty in Hin. split_and!.
  - destruct ps as [|p ps]; [done|]. apply (Hel p). left.
  - apply Forall_forall. intros p Hps. by apply Hel.
  - apply submseteq_length in Hsub. rewrite length_map in Hsub. unfold zlen in *. lia.
Qed.

Lemma topics_count a : zlen (merge_sort name_le (map_to_list (by_topic a))) ≤ zlen a.
Proof.
  assert (E1 : zlen (merge_sort name_le (map_to_list (by_topic a))) = zlen (map_to_list (by_topic a))) by (unfold zlen; by rewrite merge_sort_Permutation).
  assert (E2 : zlen a = zlen (concat (map topic_pairs (map_to_list (by_topic a))))) by (unfold zlen; by rewrite by_topic_perm).
  rewrite E1, E2. clear E1 E2.
  pose proof (by_topic_nonempty a) as Hne. assert (Hl : ∀ e, e ∈ map_to_list (by_topic a) → e.2 ≠ []).
  { intros [t ps] Hin%elem_of_map_to_list. by apply (Hne t). }
  clear Hne. induction (map_to_list (by_topic a)) as [|e l IH]; [done|]. cbn [map concat]. rewrite zlen_cons, zlen_app.
  assert (1 ≤ zlen (topic_pairs e)).
  { specialize (Hl e ltac:(left)). unfold topic_pairs. destruct e as [t [|p ps]]; [done|]. cbn [map fst snd]. rewrite zlen_cons. pose proof (zlen_nonneg (map (pair t) ps)). lia. }
  specialize (IH (λ e' He, Hl e' (list_elem_of_further _ _ _ He))). lia.
Qed.

(** The metadata of Kafka consumers: the leader of a group reads the topics
    every member subscribed to, in their order; a member reads exactly the
    partitions that were assigned to it. *)
Theorem consumer_metadata_roundtrip topics a :
  Forall kstring_ok topics → zlen topics < 2147483648 → kassignment_ok a →
  (∃ left, decode_consumer_subscription (encode_consumer_subscription topics) = Got topics left) ∧
  (∃ l left, decode_consumer_assignment (encode_consumer_assignment a) = Got l left ∧ l ≡ₚ a).
Proof.
  intros Ht Hz Ha. pose proof (zlen_nonneg topics) as H0. split.
  - exists (put_bytes (Some [])). unfold decode_consumer_subscription. rewrite bool_decide_false by done. unfold encode_consumer_subscription.
    rewrite rd_need by (unfold put_i16; zlen_lia). rewrite rd_be_i16 by done. rewrite rd_need by (unfold put_i32; zlen_lia).
    rewrite as_i32_small, rd_be_i32 by (unfold is_i32; lia). rewrite Zltb_false by lia.
    rewrite (times_concat put_string _ id); [by rewrite map_id|]. intros s rest Hs. rewrite Forall_forall in Ht. rewrite rd_end.
    by apply rd_string, Ht.
  - set (ts := merge_sort name_le (map_to_list (by_topic a))). exists (concat (map topic_pairs ts)), (put_bytes (Some [])).
    pose proof (topics_count a) as Hc. fold ts in Hc. pose proof (zlen_nonneg ts). destruct (Ha) as [_ Haz]. split.
    + unfold decode_consumer_assignment. rewrite bool_decide_false by done. unfold encode_consumer_assignment. fold ts.
      rewrite rd_need by (unfold put_i16, put_i32; zlen_lia). rewrite rd_be_i16 by done.
      rewrite as_i32_small, rd_be_i32 by (unfold is_i32; lia). rewrite Zltb_false by lia.
      erewrite bind_got; [|apply (times_concat encode_topic_parts _ topic_pairs)]; [done|].
      intros [t ps] rest Hin. destruct (sorted_topics_ok a t ps Ha Hin) as (? & ? & ?). by apply topic_parts_read.
    + unfold ts. rewrite <- (by_topic_perm a) at 2. rewrite <- !flat_map_concat_map. apply Permutation_flat_map, merge_sort_Permutation.
Qed.

(** ** What the decoder does with other input *)

Section other_input.
Context `{Crc32} `{Crc32c} `{Compressors}.

(** The difference of two timestamps is kept in 32 bits of milliseconds: a
    record 2^31 of them after the first of its batch comes back as long before
    it. *)
Theorem timestamp_delta_wraps r first i rest :
  is_i64 (first - 2147483648) = true → is_i64 first = true → is_i32 i = true → rec_timestamp_ms r = first + 2147483648 →
  zlen (default_record_body r first i) < 2147483648 → Forall (λ h, str_valid h.1 = true) (rec_headers r) →
  decode_default_record first (encode_default_record r first i ++ rest) =
    Got (mkMessage (rec_key r) (rec_value r) (Some (first - 2147483648)) (rec_headers r)) rest.
Proof.
  intros Hlow Hf Hi Ht Hz Hn. rewrite read_record by done. unfold delta_message. rewrite Ht.
  replace (first + 2147483648 - first) with 2147483648 by lia. change (as_i32 2147483648) with (-2147483648).
  do 3 f_equal. unfold i64_saturating_add, is_i64 in *. lia.
Qed.

(** A record of length 0 is read past its end: a batch that is right in all
    its other fields and checksums makes the decoder panic. *)
Theorem empty_record_panics base :
  decode_produce_batches (frame_batch base (under_crc 0 0 0 0 NO_PRODUCER 1 [x00])) = Panic.
Proof.
  set (u := under_crc 0 0 0 0 NO_PRODUCER 1 [x00]). assert (Hu : zlen u = 41) by done.
  assert (Hone : decode_one_record_batch (put_i32 (-1) ++ put_i8 2 ++ put_u32 (crc32c u) ++ u) = Panic).
  { unfold decode_one_record_batch. rewrite rd_need by (unfold put_i32, put_i8, put_u32; rewrite !zlen_app, !zlen_be_bytes; lia).
    rewrite rd_skip_i32, rd_be_i8 by lia. cbn [Z.eqb Pos.eqb negb]. rewrite rd_be_u32 by apply crc32c_range.
    erewrite bind_got; [|unfold check_crc; by rewrite Z.eqb_refl]. by vm_compute. }
  unfold decode_produce_batches.
  set (head := put_i64 base ++ put_i32 (as_i32 (4 + 1 + 4 + zlen u)) ++ put_i32 (-1)).
  assert (Hd : frame_batch base u = head ++ put_i8 2 ++ (put_u32 (crc32c u) ++ u)) by (unfold frame_batch, head; by rewrite <- !app_assoc).
  assert (Hm : signed 8 (be_val (ztake 1 (zdrop 16 (frame_batch base u)))) = 2).
  { rewrite Hd. apply magic_of; [unfold head, put_i64, put_i32; rewrite !zlen_app, !zlen_be_bytes; lia|lia]. }
  rewrite bool_decide_false by (intros Hnil; rewrite Hnil in Hm; done).
  rewrite Zltb_false by (rewrite zlen_frame; lia). rewrite Hm. cbn [Z.eqb Pos.eqb orb].
  unfold decode_record_batches_detailed. destruct (length (frame_batch base u)) as [|fuel];
    (cbn [batches]; rewrite rd_remaining, zlen_frame, Zltb_false by lia; unfold frame_batch;
     rewrite rd_skip_i64, Hu; change (as_i32 (4 + 1 + 4 + 41)) with 50; rewrite rd_be_i32 by done; cbn [Z.ltb Z.compare];
     rewrite rd_remaining, Zltb_false by (unfold put_i32, put_i8, put_u32; rewrite !zlen_app, !zlen_be_bytes; lia);
     rewrite <- (app_nil_r (put_i32 (-1) ++ _)), rd_get_slice by (unfold put_i32, put_i8, put_u32; rewrite !zlen_app, !zlen_be_bytes; lia);
     unfold within; by rewrite bind_unfold, Hone).
Qed.

End other_input.

(** ** Concrete inputs *)

Definition crc32c_sum : Crc32c := {| crc32c := sum32; crc32c_range := sum32_range |}.

(** Libraries that store. *)
Definition stored : Compressors := {|
  gz_encode := Ok; gz_decode := Ok; snap_encode := Ok; snap_decode := Ok; lz4_frame_encode := Ok; lz4_frame_decode := Ok;
  lz4_sized_decode := Ok; lz4_block_decode := λ x _, Ok x; zstd_encode := Ok; zstd_decode := Ok |}.

#[local] Instance stored_laws : @CompressorLaws stored.
Proof. split; by intros x c [= ->]. Qed.

#[local] Existing Instance crc32c_sum.
#[local] Existing Instance crc_sum32.
#[local] Existing Instance stored.

Definition krecord_demo : LogRecord := mkLogRecord 5 (Some [x6b]) [x76; x77] 1000 [("h"%string, [x01])].
Definition krecord_demo2 : LogRecord := mkLogRecord 6 None [] 990 [].
Definition kmarker_demo : LogRecord := record_of 7 995 (txn_control_message Abort 42 3 995).

Definition kbytes_demo (codec : CompressionCodec) : bytes :=
  match encode_record_batch_with_options [krecord_demo; krecord_demo2] codec (mkBatchProducer 42 1 0) with Ok d => d | Err _ => [] end.

(** A record of the demonstration is in the ranges of the format. *)
Ltac demo_record := split; [reflexivity|reflexivity|vm_compute; reflexivity|repeat (constructor; [vm_compute; reflexivity|]); constructor].

Lemma kbatch_demo_ok codec : kbatch_ok (mkKBatch [krecord_demo; krecord_demo2] codec (mkBatchProducer 42 1 0)) (kbytes_demo codec).
Proof.
  assert (HF : Forall (krecord_ok 1000) [krecord_demo; krecord_demo2]) 
    by (constructor; [demo_record|]; constructor; [demo_record|constructor]).
  destruct codec; (split; [vm_compute; reflexivity|vm_compute; reflexivity|split; reflexivity|exact HF|split; reflexivity]).
Qed.


Lemma message_set_roundtrip_witness :
  ∃ left, decode_produce_batches (match encode_message_set_compressed [krecord_demo; krecord_demo2] Zstd with Ok d => d | Err _ => [] end) =
    Got [mkDecodedBatch NO_PRODUCER (map set_message [krecord_demo; krecord_demo2])] left.
Proof.
  apply (message_set_roundtrip [krecord_demo; krecord_demo2] Zstd); [discriminate| |vm_compute; reflexivity|vm_compute; reflexivity|reflexivity].
  constructor; [split; vm_compute; reflexivity|]. constructor; [split; vm_compute; reflexivity|constructor].
Defined.


Lemma batch_offsets_witness :
  encode_record_batch [krecord_demo; krecord_demo2] = encode_record_batch [krecord_demo; mkLogRecord 9 None [] 990 []].
Proof. apply (batch_offsets krecord_demo [krecord_demo2] [mkLogRecord 9 None [] 990 []] NoCompression NO_PRODUCER). reflexivity. Defined.

Lemma consumer_metadata_roundtrip_witness :
  (∃ left, decode_consumer_subscription (encode_consumer_subscription ["t"; "s"]%string) = Got ["t"; "s"]%string left) ∧
  (∃ l left, decode_consumer_assignment (encode_consumer_assignment [("t", 1); ("s", 0); ("t", 0)]%string) = Got l left ∧
    l ≡ₚ [("t", 1); ("s", 0); ("t", 0)]%string).
Proof.
  apply (consumer_metadata_roundtrip ["t"; "s"]%string [("t", 1); ("s", 0); ("t", 0)]%string).
  - repeat (constructor; [split; vm_compute; reflexivity|]). constructor.
  - reflexivity.
  - split; [|reflexivity]. repeat (constructor; [split; [split; vm_compute; reflexivity|cbn; lia]|]). constructor.
Defined.
