(* ===== verification/FetchSession.v ===== *)
(** * Fetch sessions (kafka/fetch_session.rs)

    The table of incremental fetch sessions of a broker: sessions it owns
    (primaries), copies of the sessions of its peers (mirrors), the operations
    still to be sent to the peers, and what is on disk.  One [Definition] per
    method; the clock is an argument.  Every method takes its locks in the same
    order and releases them before it returns, and is modelled as one step.  JSON
    is an interface ([SessionJson]). *)

From Stdlib Require Import Strings.String Strings.Ascii.
From S2P Require Import Prelude Bytes Core Text Assignor KafkaWire.
#[local] Open Scope Z_scope.

(** ** Identifiers and epochs *)

Definition INITIAL_EPOCH : Z := 0.
Definition FINAL_EPOCH : Z := -1.

Definition SESSION_OWNER_SHIFT : Z := 19.
Definition SESSION_LOCAL_MASK : Z := Z.shiftl 1 SESSION_OWNER_SHIFT - 1.
Definition SESSION_OWNER_MASK : Z := 4095.

Definition encode_session_id (owner_node_id local : Z) : Z :=
  let owner := as_i32 (Z.land owner_node_id SESSION_OWNER_MASK) in
  Z.lor (as_i32 (Z.shiftl owner SESSION_OWNER_SHIFT)) (Z.land local SESSION_LOCAL_MASK).

Definition decode_session_owner (session_id : Z) : option Z :=
  if session_id <=? 0 then None else
  let owner := Z.shiftr (as_u32 session_id) SESSION_OWNER_SHIFT in
  if owner =? 0 then None else Some owner.

Definition session_local_part (session_id : Z) : Z :=
  match decode_session_owner session_id with
  | Some _ => Z.land session_id SESSION_LOCAL_MASK
  | None => session_id
  end.

Definition next_epoch (prev : Z) : Z :=
  if prev <? 0 then FINAL_EPOCH else if prev =? 2147483647 then 1 else prev + 1.

(** ** Sessions *)

Inductive TopicWireId := Name (n : string) | Uuid (u : bytes).

Record SessionPartition := mkSessionPartition {
  sp_fetch_offset : Z;
  sp_current_leader_epoch : Z;
  sp_last_fetched_epoch : Z;
  sp_max_bytes : Z;
  sp_last_hwm : option Z;
  sp_last_lso : option Z;
}.

Definition session_partition_new (fetch_offset current_leader_epoch last_fetched_epoch max_bytes : Z) : SessionPartition :=
  mkSessionPartition fetch_offset current_leader_epoch last_fetched_epoch max_bytes None None.

Definition should_omit_unchanged (p : SessionPartition) (hwm lso : Z) (records_empty : bool) (error : Z) : bool :=
  if negb (error =? 0) || negb records_empty then false else
  match sp_last_hwm p, sp_last_lso p with
  | Some prev_hwm, Some prev_lso => (prev_hwm =? hwm) && (prev_lso =? lso)
  | _, _ => false
  end.

Record SessionTopic := mkSessionTopic {
  st_wire : TopicWireId;
  st_name : string;
  st_partitions : gmap Z SessionPartition;
}.

Record FetchSession := mkFetchSession {
  fs_epoch : Z;
  fs_topics : gmap string SessionTopic;
  fs_last_activity_ms : Z;
  fs_mirror_gen : Z;
  fs_promoted_by : Z;
}.

#[export] Instance TopicWireId_eq_dec : EqDecision TopicWireId.
Proof. solve_decision. Defined.
#[export] Instance SessionPartition_eq_dec : EqDecision SessionPartition.
Proof. solve_decision. Defined.
#[export] Instance SessionTopic_eq_dec : EqDecision SessionTopic.
Proof. solve_decision. Defined.
#[export] Instance FetchSession_eq_dec : EqDecision FetchSession.
Proof. solve_decision. Defined.

(** *** Which copy wins *)

Definition session_is_newer (a b : FetchSession) : bool :=
  if negb (fs_mirror_gen a =? fs_mirror_gen b) then fs_mirror_gen b <? fs_mirror_gen a
  else if negb (fs_epoch a =? fs_epoch b) then fs_epoch b <? fs_epoch a
  else fs_last_activity_ms b <? fs_last_activity_ms a.

(** The lowest claim; 0 is none. *)
Definition claim_wins (incoming existing : Z) : bool :=
  if incoming =? 0 then false else if existing =? 0 then true else incoming <? existing.

Definition session_claim_wins (incoming existing : FetchSession) : bool :=
  if session_is_newer incoming existing then true
  else if session_is_newer existing incoming then false
  else claim_wins (fs_promoted_by incoming) (fs_promoted_by existing).

Definition dual_epoch_claim_id (promoted_by owner_id : Z) : Z :=
  if negb (promoted_by =? 0) then promoted_by else owner_id.

Definition session_dual_epoch_wins (incoming : FetchSession) (incoming_owner : Z) (existing : FetchSession)
    (existing_owner : Z) : bool :=
  if negb (fs_mirror_gen incoming =? fs_mirror_gen existing) then fs_mirror_gen existing <? fs_mirror_gen incoming
  else if negb (fs_epoch incoming =? fs_epoch existing) then fs_epoch existing <? fs_epoch incoming
  else claim_wins (dual_epoch_claim_id (fs_promoted_by incoming) incoming_owner)
                  (dual_epoch_claim_id (fs_promoted_by existing) existing_owner).

Definition both_unclaimed_primary_ish (local incoming : FetchSession) : bool :=
  (fs_promoted_by local =? 0) && (fs_promoted_by incoming =? 0).

(** *** Changes of one session *)

(** Every entry of [src] into [dst], combined with what is there. *)
Definition fold_entries {K A B} `{Countable K} (f : option B → A → B) (src : gmap K A) (dst : gmap K B) : gmap K B :=
  map_fold (λ k a acc, <[k := f (acc !! k) a]> acc) dst src.

(** A partition of a request keeps what was last returned for it. *)
Definition merge_partition (prev : option SessionPartition) (part : SessionPartition) : SessionPartition :=
  match sp_last_hwm part, prev with
  | None, Some p =>
    mkSessionPartition (sp_fetch_offset part) (sp_current_leader_epoch part) (sp_last_fetched_epoch part)
      (sp_max_bytes part) (sp_last_hwm p) (sp_last_lso p)
  | _, _ => part
  end.

Definition merge_topic (entry : option SessionTopic) (topic : SessionTopic) : SessionTopic :=
  let entry := default (mkSessionTopic (st_wire topic) (st_name topic) ∅) entry in
  mkSessionTopic (st_wire topic)
    (if String.eqb (st_name topic) "" then st_name entry else st_name topic)
    (fold_entries merge_partition (st_partitions topic) (st_partitions entry)).

Definition bump_gen (s : FetchSession) (topics : gmap string SessionTopic) : FetchSession :=
  mkFetchSession (fs_epoch s) topics (fs_last_activity_ms s) (u64_saturating_add (fs_mirror_gen s) 1) (fs_promoted_by s).

Definition merge_topics_into (s : FetchSession) (topics : gmap string SessionTopic) : FetchSession :=
  bump_gen s (fold_entries merge_topic topics (fs_topics s)).

(** One entry of the forgotten topics: without partitions the whole topic. *)
Definition forget_entry (topics : gmap string SessionTopic) (f : string * list Z) : gmap string SessionTopic :=
  match f.2 with
  | [] => delete f.1 topics
  | parts =>
    match topics !! f.1 with
    | None => topics
    | Some t =>
      let ps := foldl (λ m p, delete p m) (st_partitions t) parts in
      if bool_decide (ps = ∅) then delete f.1 topics
      else <[f.1 := mkSessionTopic (st_wire t) (st_name t) ps]> topics
    end
  end.

Definition forget_into (s : FetchSession) (forgotten : list (string * list Z)) : FetchSession :=
  bump_gen s (foldl forget_entry (fs_topics s) forgotten).

Definition note_returned_into (s : FetchSession) (topic_key : string) (partition hwm lso : Z) : option FetchSession :=
  t ← fs_topics s !! topic_key;
  p ← st_partitions t !! partition;
  let p := mkSessionPartition (sp_fetch_offset p) (sp_current_leader_epoch p) (sp_last_fetched_epoch p)
             (sp_max_bytes p) (Some hwm) (Some lso) in
  Some (bump_gen s (<[topic_key := mkSessionTopic (st_wire t) (st_name t) (<[partition := p]> (st_partitions t))]> (fs_topics s))).

(** The session after a request with the right epoch. *)
Definition touch (s : FetchSession) (epoch now : Z) : FetchSession :=
  mkFetchSession (next_epoch epoch) (fs_topics s) now (u64_saturating_add (fs_mirror_gen s) 1) (fs_promoted_by s).

(** ** The stored form *)

Definition hex_digit (n : Z) : byte := nth (Z.to_nat n) (as_bytes "0123456789abcdef") x00.

Definition hex_encode (u : bytes) : string :=
  of_bytes (flat_map (λ b, [hex_digit (Z.shiftr (byte_val b) 4); hex_digit (Z.land (byte_val b) 15)]) u).

Definition from_hex (b : byte) : option Z :=
  let c := byte_val b in
  if (48 <=? c) && (c <=? 57) then Some (c - 48)
  else if (97 <=? c) && (c <=? 102) then Some (c - 97 + 10)
  else if (65 <=? c) && (c <=? 70) then Some (c - 65 + 10)
  else None.

Fixpoint hex_pairs (s : bytes) : option bytes :=
  match s with
  | h :: l :: s => hi ← from_hex h; lo ← from_hex l; rest ← hex_pairs s; Some (byte_of (Z.lor (Z.shiftl hi 4) lo) :: rest)
  | _ => Some []
  end.

Definition decode_16 (s : string) : option bytes :=
  if negb (str_len s =? 32) then None else hex_pairs (as_bytes s).

Record StoredSessionPartition := mkStoredPartition {
  sd_id : Z;
  sd_fetch_offset : Z;
  sd_current_leader_epoch : Z;
  sd_last_fetched_epoch : Z;
  sd_max_bytes : Z;
  sd_last_hwm : option Z;
  sd_last_lso : option Z;
}.

Definition partition_to_stored (id : Z) (p : SessionPartition) : StoredSessionPartition :=
  mkStoredPartition id (sp_fetch_offset p) (sp_current_leader_epoch p) (sp_last_fetched_epoch p) (sp_max_bytes p)
    (sp_last_hwm p) (sp_last_lso p).

Definition stored_to_partition (p : StoredSessionPartition) : SessionPartition :=
  mkSessionPartition (sd_fetch_offset p) (sd_current_leader_epoch p) (sd_last_fetched_epoch p) (sd_max_bytes p)
    (sd_last_hwm p) (sd_last_lso p).

Record StoredSessionTopic := mkStoredTopic {
  sd_key : string;
  sd_wire_kind : string;
  sd_wire_name : option string;
  sd_wire_uuid_hex : option string;
  sd_name : string;
  sd_partitions : list StoredSessionPartition;
}.

Record StoredFetchSession := mkStoredSession {
  ss_id : Z;
  ss_epoch : Z;
  ss_last_activity_ms : Z;
  ss_mirror_gen : Z;
  ss_promoted_by : Z;
  ss_from_mirror : bool;
  ss_mode : string;
  ss_remove_topic_keys : list string;
  ss_topics : list StoredSessionTopic;
}.

Record StoredFetchSessionsFile := mkStoredFile {
  sf_version : Z;
  sf_next_id : Z;
  sf_sessions : list StoredFetchSession;
}.

(** serde_json on these records. *)
Class SessionJson := {
  session_to_vec : StoredFetchSession → option bytes;
  session_from_slice : bytes → option StoredFetchSession;
  file_to_string : StoredFetchSessionsFile → option bytes;
  file_from_str : bytes → option StoredFetchSessionsFile;
}.

Definition stored_id_le (a b : StoredSessionPartition) : Prop := sd_id a ≤ sd_id b.
#[export] Instance stored_id_le_dec : RelDecision stored_id_le.
Proof. intros a b. unfold stored_id_le. apply _. Defined.

Definition stored_key_le (a b : StoredSessionTopic) : Prop := str_le (sd_key a) (sd_key b).
#[export] Instance stored_key_le_dec : RelDecision stored_key_le.
Proof. intros a b. unfold stored_key_le. apply _. Defined.
#[global] Typeclasses Opaque stored_id_le stored_key_le.

Definition session_topic_to_stored (key : string) (t : SessionTopic) : StoredSessionTopic :=
  let '(wire_kind, wire_name, wire_uuid_hex) :=
    match st_wire t with
    | Name n => ("name"%string, Some n, None)
    | Uuid u => ("uuid"%string, None, Some (hex_encode u))
    end in
  mkStoredTopic key wire_kind wire_name wire_uuid_hex (st_name t)
    (merge_sort stored_id_le (map (λ e, partition_to_stored e.1 e.2) (map_to_list (st_partitions t)))).

Definition stored_topics (topics : gmap string SessionTopic) : list StoredSessionTopic :=
  merge_sort stored_key_le (map (λ e, session_topic_to_stored e.1 e.2) (map_to_list topics)).

Definition session_to_stored (id : Z) (s : FetchSession) : StoredFetchSession :=
  mkStoredSession id (fs_epoch s) (fs_last_activity_ms s) (fs_mirror_gen s) (fs_promoted_by s) false "full" []
    (stored_topics (fs_topics s)).

Definition session_to_delta_stored (id : Z) (cur prev : FetchSession) : StoredFetchSession :=
  mkStoredSession id (fs_epoch cur) (fs_last_activity_ms cur) (fs_mirror_gen cur) (fs_promoted_by cur) false "delta"
    (merge_sort str_le (map fst (map_to_list (filter (λ e, fs_topics cur !! e.1 = None) (fs_topics prev)))))
    (stored_topics (filter (λ e, fs_topics prev !! e.1 ≠ Some e.2) (fs_topics cur))).

Definition stored_wire (t : StoredSessionTopic) : option TopicWireId :=
  if String.eqb (sd_wire_kind t) "uuid" then
    u ← decode_16 (default ""%string (sd_wire_uuid_hex t)); Some (Uuid u)
  else Some (Name (default (sd_name t) (sd_wire_name t))).

Fixpoint stored_topics_into (out : gmap string SessionTopic) (topics : list StoredSessionTopic) : option (gmap string SessionTopic) :=
  match topics with
  | [] => Some out
  | t :: topics =>
    wire ← stored_wire t;
    let partitions := foldl (λ m p, <[sd_id p := stored_to_partition p]> m) ∅ (sd_partitions t) in
    stored_topics_into (<[sd_key t := mkSessionTopic wire (sd_name t) partitions]> out) topics
  end.

Definition stored_topics_to_map (topics : list StoredSessionTopic) : option (gmap string SessionTopic) :=
  stored_topics_into ∅ topics.

Definition stored_to_session (s : StoredFetchSession) : option (Z * FetchSession) :=
  topics ← stored_topics_to_map (ss_topics s);
  Some (ss_id s, mkFetchSession (ss_epoch s) topics (ss_last_activity_ms s) (ss_mirror_gen s) (ss_promoted_by s)).

Definition FETCH_SESSIONS_FILE_VERSION : Z := 1.

Definition session_id_le (a b : Z * FetchSession) : Prop := a.1 ≤ b.1.
#[export] Instance session_id_le_dec : RelDecision session_id_le.
Proof. intros a b. unfold session_id_le. apply _. Defined.
#[global] Typeclasses Opaque session_id_le.

Definition snapshot_file (sessions : gmap Z FetchSession) (next_id : Z) : StoredFetchSessionsFile :=
  mkStoredFile FETCH_SESSIONS_FILE_VERSION next_id
    (map (λ e, session_to_stored e.1 e.2) (merge_sort session_id_le (map_to_list sessions))).

Definition is_delta_mode (mode : string) : bool := eq_ignore_ascii_case mode "delta".

(** ** The manager *)

Inductive SessionMirrorOp := Put (session_id : Z) | Delete (session_id : Z).

Inductive Counter :=
  | evicted_total | idle_evicted_total | restored | persist_errors_total
  | mirror_puts_applied_total | mirror_deletes_applied_total | promote_total | mirror_puts_coalesced_total
  | mirror_stale_put_rejects_total | promote_supersede_total | mirror_restored | promote_claim_reject_total
  | mirror_delta_puts_total | serve_from_mirror_total | dual_epoch_converge_total | mirror_converge_total.

#[export] Instance Counter_eq_dec : EqDecision Counter.
Proof. solve_decision. Defined.

(** The limits and switches, which paths are durable, and whether the disk
    takes a write. *)
Record SessionConfig := mkSessionConfig {
  idle_timeout_ms : Z;
  max_sessions : Z;
  owner_node_id : Z;
  serve_mirror_without_promote : bool;
  promote_on_miss : bool;
  dual_epoch_converge : bool;
  mirror_converge : bool;
  durable_path : bool;
  mirror_durable_path : bool;
  disk_ok : bool;
}.

Record FetchSessionManager := mkManager {
  config : SessionConfig;
  sessions : gmap Z FetchSession;
  mirrors : gmap Z FetchSession;
  pending_mirror : gmap Z SessionMirrorOp;
  last_mirrored : gmap Z FetchSession;
  next_id : Z;
  counters : Counter → Z;
  sessions_file : option bytes;
  mirrors_file : option bytes;
}.

Definition with_limits_and_owner (config : SessionConfig) : FetchSessionManager :=
  mkManager config ∅ ∅ ∅ ∅ 1 (λ _, 0) None None.

Definition set_sessions (x : gmap Z FetchSession) (m : FetchSessionManager) : FetchSessionManager :=
  mkManager (config m) x (mirrors m) (pending_mirror m) (last_mirrored m) (next_id m) (counters m) (sessions_file m) (mirrors_file m).
Definition set_mirrors (x : gmap Z FetchSession) (m : FetchSessionManager) : FetchSessionManager :=
  mkManager (config m) (sessions m) x (pending_mirror m) (last_mirrored m) (next_id m) (counters m) (sessions_file m) (mirrors_file m).
Definition set_pending (x : gmap Z SessionMirrorOp) (m : FetchSessionManager) : FetchSessionManager :=
  mkManager (config m) (sessions m) (mirrors m) x (last_mirrored m) (next_id m) (counters m) (sessions_file m) (mirrors_file m).
Definition set_last_mirrored (x : gmap Z FetchSession) (m : FetchSessionManager) : FetchSessionManager :=
  mkManager (config m) (sessions m) (mirrors m) (pending_mirror m) x (next_id m) (counters m) (sessions_file m) (mirrors_file m).
Definition set_next_id (x : Z) (m : FetchSessionManager) : FetchSessionManager :=
  mkManager (config m) (sessions m) (mirrors m) (pending_mirror m) (last_mirrored m) x (counters m) (sessions_file m) (mirrors_file m).
Definition set_counter (c : Counter) (n : Z) (m : FetchSessionManager) : FetchSessionManager :=
  mkManager (config m) (sessions m) (mirrors m) (pending_mirror m) (last_mirrored m) (next_id m)
    (λ c', if bool_decide (c' = c) then n else counters m c') (sessions_file m) (mirrors_file m).
Definition set_files (a b : option bytes) (m : FetchSessionManager) : FetchSessionManager :=
  mkManager (config m) (sessions m) (mirrors m) (pending_mirror m) (last_mirrored m) (next_id m) (counters m) a b.

Definition bump (c : Counter) (n : Z) (m : FetchSessionManager) : FetchSessionManager :=
  set_counter c (as_u64 (counters m c + n)) m.

(** *** Operations for the peers *)

Definition queue_mirror_put (id : Z) (m : FetchSessionManager) : FetchSessionManager :=
  if owner_node_id (config m) =? 0 then m else
  match pending_mirror m !! id with
  | Some (Put _) => bump mirror_puts_coalesced_total 1 m
  | _ => set_pending (<[id := Put id]> (pending_mirror m)) m
  end.

Definition queue_mirror_delete (id : Z) (m : FetchSessionManager) : FetchSessionManager :=
  if owner_node_id (config m) =? 0 then m else
  let m := match pending_mirror m !! id with
           | Some (Put _) => bump mirror_puts_coalesced_total 1 m
           | _ => m
           end in
  set_pending (<[id := Delete id]> (pending_mirror m)) m.

Definition op_deletes (e : Z * SessionMirrorOp) : list SessionMirrorOp :=
  match e.2 with Delete sid => [Delete sid] | Put _ => [] end.
Definition op_puts (e : Z * SessionMirrorOp) : list SessionMirrorOp :=
  match e.2 with Put sid => [Put sid] | Delete _ => [] end.

Definition op_id_le (a b : Z * SessionMirrorOp) : Prop := a.1 ≤ b.1.
#[export] Instance op_id_le_dec : RelDecision op_id_le.
Proof. intros a b. unfold op_id_le. apply _. Defined.
#[global] Typeclasses Opaque op_id_le.

Definition drain_mirror_ops (m : FetchSessionManager) : list SessionMirrorOp * FetchSessionManager :=
  let ops := merge_sort op_id_le (map_to_list (pending_mirror m)) in
  (flat_map op_deletes ops ++ flat_map op_puts ops, set_pending ∅ m).

Definition clear_last_mirrored (id : Z) (m : FetchSessionManager) : FetchSessionManager :=
  set_last_mirrored (delete id (last_mirrored m)) m.

Definition note_last_mirrored (id : Z) (m : FetchSessionManager) : FetchSessionManager :=
  match sessions m !! id with
  | Some s => set_last_mirrored (<[id := s]> (last_mirrored m)) m
  | None => m
  end.

Definition contains (id : Z) (m : FetchSessionManager) : bool := bool_decide (is_Some (sessions m !! id)).
Definition mirror_contains (id : Z) (m : FetchSessionManager) : bool := bool_decide (is_Some (mirrors m !! id)).
Definition has_servable_session (id : Z) (m : FetchSessionManager) : bool := contains id m || mirror_contains id m.

Section manager.
Context `{SessionJson}.

(** *** Disk *)

Definition load_file (content : option bytes) : option StoredFetchSessionsFile :=
  buf ← content;
  if bool_decide (trim_bytes buf = []) then None else file_from_str buf.

(** A failed write leaves the old file. *)
Definition save_file (ok : bool) (old : option bytes) (f : StoredFetchSessionsFile) : option bytes * bool :=
  match file_to_string f with
  | Some json => if ok then (Some json, true) else (old, false)
  | None => (old, false)
  end.

Definition persist (m : FetchSessionManager) : FetchSessionManager :=
  if negb (durable_path (config m)) then m else
  let '(file, saved) := save_file (disk_ok (config m)) (sessions_file m) (snapshot_file (sessions m) (next_id m)) in
  let m := set_files file (mirrors_file m) m in
  if saved then m else bump persist_errors_total 1 m.

Definition persist_mirrors (m : FetchSessionManager) : FetchSessionManager :=
  if negb (mirror_durable_path (config m)) then m else
  let '(file, saved) := save_file (disk_ok (config m)) (mirrors_file m) (snapshot_file (mirrors m) 1) in
  let m := set_files (sessions_file m) file m in
  if saved then m else bump persist_errors_total 1 m.

(** *** Eviction *)

Definition is_idle (idle_ms now : Z) (last_activity_ms : Z) : bool :=
  as_i64 idle_ms <? i64_saturating_sub now last_activity_ms.

Definition evict_idle_locked (now : Z) (m : FetchSessionManager) : FetchSessionManager :=
  let idle_ms := idle_timeout_ms (config m) in
  if idle_ms =? 0 then m else
  let removed := filter (λ e, is_idle idle_ms now (fs_last_activity_ms e.2) = true) (sessions m) in
  if bool_decide (removed = ∅) then m else
  let m := set_sessions (filter (λ e, is_idle idle_ms now (fs_last_activity_ms e.2) = false) (sessions m)) m in
  let m := bump evicted_total (Z.of_nat (size removed)) m in
  let m := bump idle_evicted_total (Z.of_nat (size removed)) m in
  map_fold (λ id _ m, queue_mirror_delete id (clear_last_mirrored id m)) m removed.

(** The least recently used of two, the lower id on a tie. *)
Definition lru_min (id : Z) (s : FetchSession) (best : option (Z * Z)) : option (Z * Z) :=
  match best with
  | None => Some (fs_last_activity_ms s, id)
  | Some (t, i) =>
    if (fs_last_activity_ms s <? t) || ((fs_last_activity_ms s =? t) && (id <? i)) then Some (fs_last_activity_ms s, id)
    else best
  end.

Definition evict_lru_if_full_locked (m : FetchSessionManager) : FetchSessionManager :=
  let max := max_sessions (config m) in
  if (max =? 0) || (Z.of_nat (size (sessions m)) <? max) then m else
  match map_fold lru_min None (sessions m) with
  | None => m
  | Some (_, id) =>
    let m := set_sessions (delete id (sessions m)) m in
    queue_mirror_delete id (clear_last_mirrored id (bump evicted_total 1 m))
  end.

Definition evict_idle_at (now : Z) (m : FetchSessionManager) : Z * FetchSessionManager :=
  let before := Z.of_nat (size (sessions m)) in
  let m := evict_idle_locked now m in
  let removed := saturating_sub before (Z.of_nat (size (sessions m))) in
  (removed, if 0 <? removed then persist m else m).

(** *** Identifiers *)

(** One round of the loop: the counter is taken and incremented, and set back
    to 1 when it was out of range. *)
Definition alloc_round (owner local : Z) : option Z * Z :=
  let next := as_i32 (local + 1) in
  if owner =? 0 then
    if 0 <? local then (Some local, next) else (None, 1)
  else if (0 <? local) && (local <=? SESSION_LOCAL_MASK) then (Some (encode_session_id owner local), next)
  else (None, 1).

Fixpoint alloc_loop (fuel : nat) (owner local : Z) : option Z * Z :=
  match alloc_round owner local with
  | (Some id, next) => (Some id, next)
  | (None, next) => match fuel with O => (None, next) | S fuel => alloc_loop fuel owner next end
  end.

(** The second round starts at 1 and returns. *)
Definition alloc_id (m : FetchSessionManager) : option Z * FetchSessionManager :=
  let '(id, next) := alloc_loop 1 (owner_node_id (config m)) (next_id m) in
  (id, set_next_id next m).

Definition topic_key (wire : TopicWireId) (name : string) : string :=
  match wire with
  | Name n => n
  | Uuid u => if String.eqb name "" then ("id:" ++ hex_encode u)%string else name
  end.

(** *** The life of a session *)

Definition close (id : Z) (m : FetchSessionManager) : FetchSessionManager :=
  if id =? 0 then m else
  match sessions m !! id with
  | Some _ =>
    queue_mirror_delete id (clear_last_mirrored id (persist (set_sessions (delete id (sessions m)) m)))
  | None =>
    match mirrors m !! id with
    | Some _ => persist_mirrors (set_mirrors (delete id (mirrors m)) m)
    | None => m
    end
  end.

Definition create_at (topics : gmap string SessionTopic) (now : Z) (m : FetchSessionManager) : option Z * FetchSessionManager :=
  let m := evict_lru_if_full_locked (evict_idle_locked now m) in
  match alloc_id m with
  | (None, m) => (None, m)
  | (Some id, m) =>
    (Some id, queue_mirror_put id (persist (set_sessions (<[id := mkFetchSession 1 topics now 1 0]> (sessions m)) m)))
  end.

Definition begin_incremental_at (id epoch now : Z) (m : FetchSessionManager) : (unit + Z) * FetchSessionManager :=
  let before := size (sessions m) in
  let m := evict_idle_locked now m in
  let idle_removed := negb (bool_decide (size (sessions m) = before)) in
  match sessions m !! id with
  | None => (inr 70, if idle_removed then persist m else m)
  | Some s =>
    if negb (fs_epoch s =? epoch) then (inr 71, if idle_removed then persist m else m) else
    (inl tt, queue_mirror_put id (persist (set_sessions (<[id := touch s epoch now]> (sessions m)) m)))
  end.

Definition begin_incremental_from_any_at (id epoch now : Z) (m : FetchSessionManager) : (unit + Z) * FetchSessionManager :=
  let before := size (sessions m) in
  let m := evict_idle_locked now m in
  let idle_removed := negb (bool_decide (size (sessions m) = before)) in
  match sessions m !! id with
  | Some s =>
    if negb (fs_epoch s =? epoch) then (inr 71, if idle_removed then persist m else m) else
    (inl tt, queue_mirror_put id (persist (set_sessions (<[id := touch s epoch now]> (sessions m)) m)))
  | None =>
    let m := if idle_removed then persist m else m in
    match mirrors m !! id with
    | None => (inr 70, m)
    | Some s =>
      if negb (fs_epoch s =? epoch) then (inr 71, m) else
      let m := persist_mirrors (set_mirrors (<[id := touch s epoch now]> (mirrors m)) m) in
      (inl tt, if mirror_converge (config m) then queue_mirror_put id m else m)
    end
  end.

(** A change of a primary, or of a mirror without telling the peers. *)
Definition update_session (id : Z) (f : FetchSession → FetchSession) (m : FetchSessionManager) : FetchSessionManager :=
  match sessions m !! id with
  | Some s => queue_mirror_put id (persist (set_sessions (<[id := f s]> (sessions m)) m))
  | None =>
    match mirrors m !! id with
    | Some s => persist_mirrors (set_mirrors (<[id := f s]> (mirrors m)) m)
    | None => m
    end
  end.

Definition merge_topics (id : Z) (topics : gmap string SessionTopic) (m : FetchSessionManager) : FetchSessionManager :=
  update_session id (λ s, merge_topics_into s topics) m.

Definition forget (id : Z) (forgotten : list (string * list Z)) (m : FetchSessionManager) : FetchSessionManager :=
  if (id =? 0) || bool_decide (forgotten = []) then m else update_session id (λ s, forget_into s forgotten) m.

Definition snapshot_topics (id : Z) (m : FetchSessionManager) : gmap string SessionTopic :=
  match sessions m !! id with
  | Some s => fs_topics s
  | None => match mirrors m !! id with Some s => fs_topics s | None => ∅ end
  end.

Definition note_returned (id : Z) (topic_key : string) (partition hwm lso : Z) (m : FetchSessionManager) : FetchSessionManager :=
  if id =? 0 then m else
  match sessions m !! id with
  | Some s =>
    match note_returned_into s topic_key partition hwm lso with
    | Some s => queue_mirror_put id (persist (set_sessions (<[id := s]> (sessions m)) m))
    | None => m
    end
  | None =>
    match mirrors m !! id with
    | None => m
    | Some s =>
      match note_returned_into s topic_key partition hwm lso with
      | Some s => persist_mirrors (set_mirrors (<[id := s]> (mirrors m)) m)
      | None => m
      end
    end
  end.

(** *** Snapshots for the peers *)

Definition mirror_snapshot (id : Z) (m : FetchSessionManager) : option StoredFetchSession :=
  s ← mirrors m !! id;
  let st := session_to_stored id s in
  Some (mkStoredSession (ss_id st) (ss_epoch st) (ss_last_activity_ms st) (ss_mirror_gen st) (ss_promoted_by st) true
    (ss_mode st) (ss_remove_topic_keys st) (ss_topics st)).

Definition export_session_bytes (id : Z) (m : FetchSessionManager) : option bytes :=
  match sessions m !! id with
  | Some s => session_to_vec (session_to_stored id s)
  | None => st ← mirror_snapshot id m; session_to_vec st
  end.

Definition export_session_delta_bytes (id : Z) (prev : option FetchSession) (m : FetchSessionManager) : option bytes :=
  match sessions m !! id with
  | Some s =>
    session_to_vec (match prev with
                    | None => session_to_stored id s
                    | Some prev => session_to_delta_stored id s prev
                    end)
  | None => st ← mirror_snapshot id m; session_to_vec st
  end.

Definition export_mirror_put_bytes (id : Z) (m : FetchSessionManager) : option (bytes * bool) :=
  if contains id m then
    let prev := last_mirrored m !! id in
    b ← export_session_delta_bytes id prev m; Some (b, bool_decide (is_Some prev))
  else b ← export_session_bytes id m; Some (b, false).

Definition resolve_delta_put (st : StoredFetchSession) (m : FetchSessionManager) : option (Z * FetchSession) :=
  upserts ← stored_topics_to_map (ss_topics st);
  let base_topics := snapshot_topics (ss_id st) m in
  let topics := foldl (λ t k, delete k t) (upserts ∪ base_topics) (ss_remove_topic_keys st) in
  Some (ss_id st, mkFetchSession (ss_epoch st) topics (ss_last_activity_ms st) (ss_mirror_gen st) (ss_promoted_by st)).

Definition record_put_reject (existing incoming : FetchSession) (m : FetchSessionManager) : FetchSessionManager :=
  if session_is_newer existing incoming then bump mirror_stale_put_rejects_total 1 m
  else bump promote_claim_reject_total 1 m.

Definition count_applied (is_delta : bool) (m : FetchSessionManager) : FetchSessionManager :=
  let m := bump mirror_puts_applied_total 1 m in
  if is_delta then bump mirror_delta_puts_total 1 m else m.

(** A put for a session this broker owns. *)
Definition put_on_primary (id : Z) (session primary : FetchSession) (is_delta : bool) (m : FetchSessionManager)
    : FetchSessionManager :=
  if dual_epoch_converge (config m) && both_unclaimed_primary_ish primary session then
    if session_dual_epoch_wins session (fs_promoted_by session) primary (owner_node_id (config m)) then
      let m := persist (set_sessions (delete id (sessions m)) m) in
      let m := persist_mirrors (set_mirrors (<[id := session]> (mirrors m)) m) in
      count_applied is_delta (bump dual_epoch_converge_total 1 (clear_last_mirrored id m))
    else record_put_reject primary session m
  else if negb (session_claim_wins session primary) then record_put_reject primary session m
  else
    let m := persist (set_sessions (<[id := session]> (sessions m)) m) in
    let m := match mirrors m !! id with
             | Some _ => persist_mirrors (set_mirrors (delete id (mirrors m)) m)
             | None => m
             end in
    count_applied is_delta m.

(** A put for a session this broker does not own. *)
Definition put_on_mirror (id : Z) (session : FetchSession) (from_mirror is_delta : bool) (m : FetchSessionManager)
    : FetchSessionManager :=
  let install m := persist_mirrors (set_mirrors (<[id := session]> (mirrors m)) m) in
  match mirrors m !! id with
  | None => count_applied is_delta (install m)
  | Some existing =>
    if from_mirror && mirror_converge (config m) then
      if session_dual_epoch_wins session (fs_promoted_by session) existing (owner_node_id (config m)) then
        count_applied is_delta (bump mirror_converge_total 1 (install m))
      else m
    else if negb (session_claim_wins session existing) then record_put_reject existing session m
    else count_applied is_delta (install m)
  end.

Definition apply_mirror_put (snapshot : bytes) (m : FetchSessionManager) : (unit + string) * FetchSessionManager :=
  match session_from_slice snapshot with
  | None => (inr "json"%string, m)
  | Some st =>
    if ss_id st <=? 0 then (inr "invalid session id"%string, m) else
    let is_delta := is_delta_mode (ss_mode st) in
    match (if is_delta then resolve_delta_put st m else stored_to_session st) with
    | None => (inr (if is_delta then "invalid delta session snapshot" else "invalid session snapshot")%string, m)
    | Some (id, session) =>
      match sessions m !! id with
      | Some primary =>
        if ss_from_mirror st then (inl tt, m) else (inl tt, put_on_primary id session primary is_delta m)
      | None => (inl tt, put_on_mirror id session (ss_from_mirror st) is_delta m)
      end
    end
  end.

Definition apply_mirror_delete (id : Z) (m : FetchSessionManager) : FetchSessionManager :=
  match mirrors m !! id with
  | Some _ => bump mirror_deletes_applied_total 1 (persist_mirrors (set_mirrors (delete id (mirrors m)) m))
  | None => m
  end.

(** *** Promotion *)

Definition stamp (owner : Z) (s : FetchSession) : FetchSession :=
  if (fs_promoted_by s =? 0) && (0 <? owner)
  then mkFetchSession (fs_epoch s) (fs_topics s) (fs_last_activity_ms s) (fs_mirror_gen s) owner
  else s.

Definition promote_from_mirror (id : Z) (m : FetchSessionManager) : bool * FetchSessionManager :=
  let owner := owner_node_id (config m) in
  let mirror := mirrors m !! id in
  let m := set_mirrors (delete id (mirrors m)) m in
  let install s m := persist_mirrors (persist (set_sessions (<[id := stamp owner s]> (sessions m)) m)) in
  match sessions m !! id, mirror with
  | Some _, None => (true, m)
  | Some primary, Some s =>
    if session_claim_wins s primary then
      (true, queue_mirror_put id (bump promote_total 1 (bump promote_supersede_total 1 (install s m))))
    else
      let m := if negb (session_is_newer primary s) && negb (session_is_newer s primary)
               then bump promote_claim_reject_total 1 m else m in
      (true, persist_mirrors m)
  | None, None => (false, m)
  | None, Some s => (true, queue_mirror_put id (bump promote_total 1 (install s m)))
  end.

Definition install_primary (id : Z) (s : FetchSession) (m : FetchSessionManager) : FetchSessionManager :=
  let m := persist (set_sessions (<[id := s]> (sessions m)) m) in
  match mirrors m !! id with
  | Some _ => persist_mirrors (set_mirrors (delete id (mirrors m)) m)
  | None => m
  end.

Definition install_mirror (id : Z) (s : FetchSession) (m : FetchSessionManager) : FetchSessionManager :=
  persist_mirrors (set_mirrors (<[id := s]> (mirrors m)) m).

Definition try_owner_miss_local_serve (id : Z) (m : FetchSessionManager) : bool * FetchSessionManager :=
  if negb (mirror_contains id m) then (false, m)
  else if promote_on_miss (config m) then promote_from_mirror id m
  else if serve_mirror_without_promote (config m) then
    let m := bump serve_from_mirror_total 1 m in
    (true, if mirror_converge (config m) then queue_mirror_put id m else m)
  else promote_from_mirror id m.

(** *** Convergence of two copies *)

Definition demote_primary_to_winner_mirror (id : Z) (winner : FetchSession) (m : FetchSessionManager) : bool * FetchSessionManager :=
  match sessions m !! id with
  | None => (false, m)
  | Some _ =>
    let m := persist (set_sessions (delete id (sessions m)) m) in
    let m := persist_mirrors (set_mirrors (<[id := winner]> (mirrors m)) m) in
    (true, bump dual_epoch_converge_total 1 (clear_last_mirrored id m))
  end.

Definition converge_dual_epoch_manager (id : Z) (incoming : FetchSession) (m : FetchSessionManager) : bool * FetchSessionManager :=
  if negb (dual_epoch_converge (config m)) then (false, m) else
  match sessions m !! id with
  | None => (false, m)
  | Some local =>
    if negb (both_unclaimed_primary_ish local incoming) then (false, m)
    else if negb (session_dual_epoch_wins incoming (fs_promoted_by incoming) local (owner_node_id (config m))) then (false, m)
    else demote_primary_to_winner_mirror id incoming m
  end.

Definition converge_dual_mirror_manager (id : Z) (incoming : FetchSession) (m : FetchSessionManager) : bool * FetchSessionManager :=
  if negb (mirror_converge (config m)) then (false, m)
  else if contains id m then (false, m)
  else
  match mirrors m !! id with
  | None => (false, m)
  | Some local =>
    if negb (session_dual_epoch_wins incoming (fs_promoted_by incoming) local (owner_node_id (config m))) then (false, m)
    else (true, bump mirror_converge_total 1 (persist_mirrors (set_mirrors (<[id := incoming]> (mirrors m)) m)))
  end.

Definition queue_foreign_mirror_puts (m : FetchSessionManager) : Z * FetchSessionManager :=
  if negb (mirror_converge (config m)) || (owner_node_id (config m) =? 0) then (0, m) else
  let ids := filter (λ e, sessions m !! e.1 = None) (mirrors m) in
  (Z.of_nat (size ids), map_fold (λ id _ m, queue_mirror_put id m) m ids).

(** Two managers with an unclaimed primary each. *)
Definition converge_dual_epoch_pair (id : Z) (a b : FetchSessionManager) : bool * FetchSessionManager * FetchSessionManager :=
  match sessions a !! id, sessions b !! id with
  | Some sa, Some sb =>
    if negb (both_unclaimed_primary_ish sa sb) then (false, a, b) else
    let a_wins := session_dual_epoch_wins sa (owner_node_id (config a)) sb (owner_node_id (config b)) in
    let b_wins := session_dual_epoch_wins sb (owner_node_id (config b)) sa (owner_node_id (config a)) in
    if a_wins && negb b_wins then
      let '(r, b) := converge_dual_epoch_manager id sa b in (r, a, b)
    else if b_wins && negb a_wins then
      let '(r, a) := converge_dual_epoch_manager id sb a in (r, a, b)
    else (false, a, b)
  | _, _ => (false, a, b)
  end.

(** Two managers with a mirror each. *)
Definition converge_dual_mirror_pair (id : Z) (a b : FetchSessionManager) : bool * FetchSessionManager * FetchSessionManager :=
  if contains id a || contains id b then (false, a, b) else
  match mirrors a !! id, mirrors b !! id with
  | Some sa, Some sb =>
    let a_wins := session_dual_epoch_wins sa (owner_node_id (config a)) sb (owner_node_id (config b)) in
    let b_wins := session_dual_epoch_wins sb (owner_node_id (config b)) sa (owner_node_id (config a)) in
    if a_wins && negb b_wins then
      let '(r, b) := converge_dual_mirror_manager id sa b in (r, a, b)
    else if b_wins && negb a_wins then
      let '(r, a) := converge_dual_mirror_manager id sb a in (r, a, b)
    else (false, a, b)
  | _, _ => (false, a, b)
  end.

(** *** Restart *)

(** The sessions of a file that are not idle; how many are, and the highest
    local part of an id. *)
Fixpoint load_sessions (idle_ms now : Z) (ss : list StoredFetchSession) (loaded : gmap Z FetchSession)
    (idle_dropped max_local : Z) : gmap Z FetchSession * Z * Z :=
  match ss with
  | [] => (loaded, idle_dropped, max_local)
  | s :: ss =>
    if ss_id s <=? 0 then load_sessions idle_ms now ss loaded idle_dropped max_local else
    let max_local := Z.max max_local (session_local_part (ss_id s)) in
    if (0 <? idle_ms) && is_idle idle_ms now (ss_last_activity_ms s)
    then load_sessions idle_ms now ss loaded (idle_dropped + 1) max_local else
    let loaded := match stored_to_session s with Some (id, session) => <[id := session]> loaded | None => loaded end in
    load_sessions idle_ms now ss loaded idle_dropped max_local
  end.

Definition i32_saturating_succ (z : Z) : Z := Z.min (z + 1) 2147483647.

Definition restored_next_id (owner file_next_id max_local : Z) : Z :=
  let file_local := Z.max (session_local_part file_next_id) 1 in
  let next := Z.max (Z.max file_local (i32_saturating_succ max_local)) 1 in
  if (0 <? owner) && (SESSION_LOCAL_MASK <? next) then
    let next := Z.max (i32_saturating_succ max_local) 1 in
    if SESSION_LOCAL_MASK <? next then 1 else next
  else next.

Definition load_from_disk_at (now : Z) (m : FetchSessionManager) : FetchSessionManager :=
  if negb (durable_path (config m)) then m else
  match load_file (sessions_file m) with
  | None => set_counter restored 0 m
  | Some file =>
    let '(loaded, idle_dropped, max_local) := load_sessions (idle_timeout_ms (config m)) now (sf_sessions file) ∅ 0 0 in
    let m := if 0 <? idle_dropped then bump idle_evicted_total idle_dropped (bump evicted_total idle_dropped m) else m in
    let m := set_next_id (restored_next_id (owner_node_id (config m)) (sf_next_id file) max_local) m in
    let m := set_counter restored (Z.of_nat (size loaded)) m in
    let m := set_sessions loaded m in
    if 0 <? idle_dropped then persist m else m
  end.

Definition load_mirrors_from_disk_at (now : Z) (m : FetchSessionManager) : FetchSessionManager :=
  if negb (mirror_durable_path (config m)) then m else
  match load_file (mirrors_file m) with
  | None => set_counter mirror_restored 0 m
  | Some file =>
    let '(loaded, idle_dropped, _) := load_sessions (idle_timeout_ms (config m)) now (sf_sessions file) ∅ 0 0 in
    let m := set_counter mirror_restored (Z.of_nat (size loaded)) m in
    let m := set_mirrors loaded m in
    if 0 <? idle_dropped then persist_mirrors m else m
  end.

(** What is found on disk is opened with the limits of the new process. *)
Definition open_with_limits_and_owner (config : SessionConfig) (file mirror_file : option bytes) (now : Z) : FetchSessionManager :=
  let m := set_files file mirror_file (with_limits_and_owner config) in
  load_mirrors_from_disk_at now (load_from_disk_at now m).

(** *** Fan-out to the peers (net/fanout.rs) *)

Inductive MirrorRequest := MirrorPut (session_id : Z) (snapshot : bytes) | MirrorDelete (session_id : Z).

(** The requests of the pending operations; each goes to every peer and may be
    lost. *)
Fixpoint fanout_requests (ops : list SessionMirrorOp) (m : FetchSessionManager) : list MirrorRequest * FetchSessionManager :=
  match ops with
  | [] => ([], m)
  | Put id :: ops =>
    match export_mirror_put_bytes id m with
    | None => fanout_requests ops m
    | Some (snap, is_delta) =>
      let m := if is_delta then bump mirror_delta_puts_total 1 m else m in
      let m := note_last_mirrored id m in
      let '(rs, m) := fanout_requests ops m in (MirrorPut id snap :: rs, m)
    end
  | Delete id :: ops => let '(rs, m) := fanout_requests ops m in (MirrorDelete id :: rs, m)
  end.

(** [peers] tells whether there is another live broker. *)
Definition fanout_session_mirror_ops (peers : bool) (m : FetchSessionManager) : list MirrorRequest * FetchSessionManager :=
  let '(ops, m) := drain_mirror_ops m in
  if peers then fanout_requests ops m else ([], m).

(** A peer's handler of either request; the code is 0 or InvalidArg. *)
Definition handle_mirror_request (r : MirrorRequest) (m : FetchSessionManager) : bool * FetchSessionManager :=
  match r with
  | MirrorPut _ snapshot => let '(e, m) := apply_mirror_put snapshot m in (match e with inl _ => true | inr _ => false end, m)
  | MirrorDelete id => (true, apply_mirror_delete id m)
  end.

(** *** Sessions of a Fetch request (kafka/produce_fetch.rs) *)

Record SessionFetch := mkSessionFetch {
  sr_topics : gmap string SessionTopic;
  sr_order : list string;
  sr_session_id : Z;
  sr_omit_unchanged : bool;
}.

(** What is fetched for a request, in which order and for which session, or
    the error of the whole request. *)
Definition fetch_session_request (version session_id session_epoch : Z) (req_topics : gmap string SessionTopic)
    (req_topic_order : list string) (forgotten : list (string * list Z)) (now : Z) (m : FetchSessionManager)
    : (SessionFetch + Z) * FetchSessionManager :=
  if version <? 7 then (inl (mkSessionFetch req_topics req_topic_order 0 false), m)
  else if session_epoch =? FINAL_EPOCH then
    (inl (mkSessionFetch req_topics req_topic_order 0 false), close session_id m)
  else if (session_id =? 0) || (session_epoch =? INITIAL_EPOCH) then
    let m := if negb (session_id =? 0) then close session_id m else m in
    let fetch_topics := foldl forget_entry req_topics forgotten in
    let fetch_order := filter (λ k, is_Some (fetch_topics !! k)) req_topic_order in
    let '(id, m) := create_at fetch_topics now m in
    (inl (mkSessionFetch fetch_topics fetch_order (default 0 id) false), m)
  else
    match begin_incremental_from_any_at session_id session_epoch now m with
    | (inr code, m) => (inr code, m)
    | (inl _, m) =>
      let m := forget session_id forgotten (merge_topics session_id req_topics m) in
      if bool_decide (req_topics = ∅) then
        let fetch_topics := snapshot_topics session_id m in
        let fetch_order := merge_sort str_le (map fst (map_to_list fetch_topics)) in
        (inl (mkSessionFetch fetch_topics fetch_order session_id true), m)
      else (inl (mkSessionFetch req_topics req_topic_order session_id false), m)
    end.

End manager.
