(* ===== verification/FetchSessionProps.v ===== *)
(** * Correctness of fetch sessions

    Snapshots of sessions, whole or as differences, are read back as they were;
    the copy a peer keeps follows the session; creation respects the limits and
    evicts the least recently used session; epochs are taken in order; of two
    copies of a session the newer one stays. *)

From Stdlib Require Import Strings.String Strings.Ascii.
From S2P Require Import Prelude Bytes Core Wire WireLogic Text Assignor AssignorProps KafkaWire KafkaWireProps FetchSession.
#[local] Open Scope Z_scope.

(** ** Operations that leave the tables alone *)

Class Frames (op : FetchSessionManager → FetchSessionManager) := {
  f_config m : config (op m) = config m;
  f_sessions m : sessions (op m) = sessions m;
  f_mirrors m : mirrors (op m) = mirrors m;
  f_next_id m : next_id (op m) = next_id m;
}.

#[export] Instance bump_frames c n : Frames (bump c n).
Proof. by split. Qed.
#[export] Instance set_counter_frames c n : Frames (set_counter c n).
Proof. by split. Qed.
#[export] Instance set_pending_frames x : Frames (set_pending x).
Proof. by split. Qed.
#[export] Instance set_last_mirrored_frames x : Frames (set_last_mirrored x).
Proof. by split. Qed.
#[export] Instance clear_last_mirrored_frames id : Frames (clear_last_mirrored id).
Proof. by split. Qed.
#[export] Instance set_files_frames a b : Frames (set_files a b).
Proof. by split. Qed.
#[export] Instance queue_mirror_put_frames id : Frames (queue_mirror_put id).
Proof. split; intros m; unfold queue_mirror_put; repeat case_match; done. Qed.
#[export] Instance queue_mirror_delete_frames id : Frames (queue_mirror_delete id).
Proof. split; intros m; unfold queue_mirror_delete; repeat case_match; done. Qed.
#[export] Instance note_last_mirrored_frames id : Frames (note_last_mirrored id).
Proof. split; intros m; unfold note_last_mirrored; case_match; done. Qed.
#[export] Instance persist_frames `{SessionJson} : Frames persist.
Proof. split; intros m; unfold persist; repeat case_match; done. Qed.
#[export] Instance persist_mirrors_frames `{SessionJson} : Frames persist_mirrors.
Proof. split; intros m; unfold persist_mirrors; repeat case_match; done. Qed.
#[export] Instance count_applied_frames d : Frames (count_applied d).
Proof. by destruct d. Qed.
#[export] Instance record_put_reject_frames a b : Frames (record_put_reject a b).
Proof. split; intros m; unfold record_put_reject; case_match; done. Qed.

(** Looks through them. *)
Ltac frames :=
  repeat first
    [ progress cbn [config sessions mirrors next_id set_sessions set_mirrors set_next_id]
    | match goal with
      | |- context [config (?op ?m)] => rewrite (f_config (op := op) m)
      | |- context [sessions (?op ?m)] => rewrite (f_sessions (op := op) m)
      | |- context [mirrors (?op ?m)] => rewrite (f_mirrors (op := op) m)
      | |- context [next_id (?op ?m)] => rewrite (f_next_id (op := op) m)
      end ].

(** ** Identifiers *)

Lemma local_mask : SESSION_LOCAL_MASK = 524287.
Proof. done. Qed.

Lemma encode_session_id_eq owner local :
  0 ≤ owner ≤ 4095 → 0 ≤ local ≤ 524287 → encode_session_id owner local = owner * 524288 + local.
Proof.
  intros Ho Hl. unfold encode_session_id, SESSION_OWNER_MASK, SESSION_OWNER_SHIFT. rewrite local_mask.
  change 4095 with (Z.ones 12). change 524287 with (Z.ones 19). rewrite !Z.land_ones by lia.
  change (2 ^ 12) with 4096. rewrite (Z.mod_small owner) by lia. rewrite (as_i32_small owner) by lia.
  rewrite Z.shiftl_mul_pow2 by lia. change (2 ^ 19) with 524288. rewrite (Z.mod_small local) by lia. rewrite as_i32_small by lia.
  rewrite Z.lor_comm. change 524288 with (2 ^ 19). rewrite (lor_shift local owner 19) by (try lia; change (2 ^ 19) with 524288; lia). lia.
Qed.

Lemma session_id_roundtrip owner local :
  1 ≤ owner ≤ 4095 → 1 ≤ local ≤ 524287 →
  let id := encode_session_id owner local in
  0 < id ≤ 2147483647 ∧ decode_session_owner id = Some owner ∧ session_local_part id = local.
Proof.
  intros Ho Hl id. assert (Hid : id = owner * 524288 + local) by (apply encode_session_id_eq; lia).
  assert (Hd : decode_session_owner id = Some owner).
  { unfold decode_session_owner. rewrite (proj2 (Z.leb_gt _ _)) by lia. rewrite as_u32_small by lia.
    unfold SESSION_OWNER_SHIFT. rewrite Z.shiftr_div_pow2 by lia. change (2 ^ 19) with 524288.
    rewrite Hid, Z.div_add_l, (Z.div_small local) by lia. rewrite Z.add_0_r. destruct (Z.eqb_spec owner 0); [lia|done]. }
  split; [lia|]. split; [done|]. unfold session_local_part. rewrite Hd, local_mask. change 524287 with (Z.ones 19).
  rewrite Z.land_ones by lia. change (2 ^ 19) with 524288. rewrite Hid, Z.add_comm, Z.mod_add by lia. apply Z.mod_small. lia.
Qed.

(** ** Snapshots *)

Lemma hex_byte b rest :
  hex_pairs (hex_digit (Z.shiftr (byte_val b) 4) :: hex_digit (Z.land (byte_val b) 15) :: rest) = r ← hex_pairs rest; Some (b :: r).
Proof. cbn [hex_pairs]. by destruct b. Qed.

Lemma hex_roundtrip u : zlen u = 16 → decode_16 (hex_encode u) = Some u.
Proof.
  intros Hz. unfold decode_16, hex_encode, str_len. rewrite as_of_bytes.
  assert (Hl : ∀ l : bytes, zlen (flat_map (λ b, [hex_digit (Z.shiftr (byte_val b) 4); hex_digit (Z.land (byte_val b) 15)]) l) = 2 * zlen l).
  { induction l as [|b l IH]; [done|]. cbn [flat_map app]. rewrite !zlen_cons, IH. lia. }
  rewrite Hl, Hz. change (negb (2 * 16 =? 32)) with false. cbn iota. clear Hl Hz.
  induction u as [|b u IH]; [done|]. cbn [flat_map app]. rewrite hex_byte, IH. done.
Qed.

Definition wire_ok (w : TopicWireId) : Prop := match w with Name _ => True | Uuid u => zlen u = 16 end.
Definition topics_ok (topics : gmap string SessionTopic) : Prop := map_Forall (λ _ t, wire_ok (st_wire t)) topics.

(** The topic a stored one stands for. *)
Definition topic_of (t : StoredSessionTopic) : SessionTopic :=
  mkSessionTopic (default (Name "") (stored_wire t)) (sd_name t)
    (foldl (λ m p, <[sd_id p := stored_to_partition p]> m) ∅ (sd_partitions t)).

Lemma stored_topic_wire key t : wire_ok (st_wire t) → stored_wire (session_topic_to_stored key t) = Some (st_wire t).
Proof.
  unfold session_topic_to_stored, stored_wire, wire_ok. destruct (st_wire t) as [n|u]; intros Hw; [done|].
  change ((decode_16 (hex_encode u) ≫= λ u', Some (Uuid u')) = Some (Uuid u)). by rewrite hex_roundtrip.
Qed.

Lemma stored_topic_of key t : wire_ok (st_wire t) → topic_of (session_topic_to_stored key t) = t.
Proof.
  intros Hw. unfold topic_of. rewrite stored_topic_wire by done. unfold session_topic_to_stored.
  destruct t as [w n ps]. cbn [st_wire st_name st_partitions default]. f_equal; [by destruct w..|].
  assert (Hp : sd_partitions (let '(k, wn, wh) := match w with Name n => ("name"%string, Some n, None) | Uuid u => ("uuid"%string, None, Some (hex_encode u)) end in
    mkStoredTopic key k wn wh n (merge_sort stored_id_le (map (λ e, partition_to_stored e.1 e.2) (map_to_list ps)))) =
    merge_sort stored_id_le (map (λ e, partition_to_stored e.1 e.2) (map_to_list ps))) by by destruct w.
  rewrite Hp. apply (rebuild_map sd_id stored_to_partition). rewrite merge_sort_Permutation, map_map. cbn [partition_to_stored sd_id].
  rewrite (map_ext _ id); [by rewrite map_id|]. by intros [i []].
Qed.

Lemma stored_topic_key key t : sd_key (session_topic_to_stored key t) = key.
Proof. unfold session_topic_to_stored. by destruct (st_wire t). Qed.

Lemma stored_into ts : ∀ out, Forall (λ t, is_Some (stored_wire t)) ts →
  stored_topics_into out ts = Some (foldl (λ m t, <[sd_key t := topic_of t]> m) out ts).
Proof.
  induction ts as [|t ts IH]; intros out HF; [done|]. apply Forall_cons in HF as [[w Hw] HF]. cbn [stored_topics_into foldl].
  rewrite Hw. cbn [mbind option_bind]. rewrite IH by done. do 3 f_equal. unfold topic_of. by rewrite Hw.
Qed.

Lemma stored_topics_roundtrip topics : topics_ok topics → stored_topics_to_map (stored_topics topics) = Some topics.
Proof.
  intros Hok. unfold stored_topics_to_map. rewrite stored_into.
  - f_equal. apply (rebuild_map sd_key topic_of). unfold stored_topics. rewrite merge_sort_Permutation, map_map.
    rewrite <- (map_id (map_to_list topics)) at 2. erewrite map_ext_in; [reflexivity|]. intros [k t] Hin%list_elem_of_In%elem_of_map_to_list.
    cbn [fst snd]. rewrite stored_topic_key, stored_topic_of; [done|]. by apply (Hok k t).
  - unfold stored_topics. rewrite merge_sort_Permutation. apply Forall_map, Forall_forall. intros [k t] Hin%elem_of_map_to_list.
    cbn [fst snd compose]. rewrite stored_topic_wire; [by eexists|]. by apply (Hok k t).
Qed.

Lemma full_snapshot id s : topics_ok (fs_topics s) → stored_to_session (session_to_stored id s) = Some (id, s).
Proof. intros Hok. unfold stored_to_session. cbn [session_to_stored ss_topics]. rewrite stored_topics_roundtrip by done. by destruct s. Qed.

Lemma foldl_delete {K A} `{Countable K} (ks : list K) (m : gmap K A) k :
  foldl (λ t k, delete k t) m ks !! k = if decide (k ∈ ks) then None else m !! k.
Proof.
  revert m. induction ks as [|k' ks IH]; intros m; cbn [foldl]; [by rewrite decide_False by apply not_elem_of_nil|]. rewrite IH.
  destruct (decide (k = k')) as [->|Hk].
  - rewrite lookup_delete_eq. rewrite (decide_True (P := k' ∈ k' :: ks)) by left. by destruct (decide _).
  - rewrite lookup_delete_ne by done. destruct (decide (k ∈ ks)); [by rewrite decide_True by by right|].
    rewrite decide_False; [done|]. by intros [?|?]%elem_of_cons.
Qed.

(** What is in one map and not, or not so, in the other, on top of the other. *)
Lemma delta_topics (cur prev : gmap string SessionTopic) :
  foldl (λ t k, delete k t) (filter (λ e, prev !! e.1 ≠ Some e.2) cur ∪ prev)
    (merge_sort str_le (map fst (map_to_list (filter (λ e, cur !! e.1 = None) prev)))) = cur.
Proof.
  apply map_eq. intros k. rewrite foldl_delete.
  assert (Hin : k ∈ merge_sort str_le (map fst (map_to_list (filter (λ e, cur !! e.1 = None) prev))) ↔ is_Some (prev !! k) ∧ cur !! k = None).
  { rewrite merge_sort_Permutation, list_elem_of_In, in_map_iff. split.
    - intros ([k' t] & <- & Hk%list_elem_of_In%elem_of_map_to_list). rewrite map_lookup_filter_Some in Hk. destruct Hk as [? ?]. split; [by eexists|done].
    - intros [[t Ht] Hc]. exists (k, t). split; [done|]. apply list_elem_of_In, elem_of_map_to_list. by rewrite map_lookup_filter_Some. }
  destruct (decide _) as [Hk|Hk]; [by rewrite Hin in Hk; destruct Hk as [_ ->]|]. rewrite lookup_union.
  destruct (cur !! k) as [t|] eqn:Ec.
  - destruct (decide (prev !! k = Some t)) as [Ep|Ep].
    + rewrite (proj2 (map_lookup_filter_None _ _ _)); [by rewrite Ep|]. right. intros t' Ht'. rewrite Ec in Ht'. injection Ht' as <-. cbn. by intros ?.
    + rewrite (proj2 (map_lookup_filter_Some _ _ _ t)) by done. by destruct (prev !! k).
  - rewrite (proj2 (map_lookup_filter_None _ _ _)) by by left. destruct (prev !! k) eqn:Ep; [|done]. destruct Hk. apply Hin. split; [by eexists|done].
Qed.

(** ** Eviction *)

(** Operations that keep what was last sent to the peers. *)
Class KeepsLast (op : FetchSessionManager → FetchSessionManager) := k_last m : last_mirrored (op m) = last_mirrored m.

#[export] Instance bump_keeps c n : KeepsLast (bump c n).
Proof. done. Qed.
#[export] Instance set_counter_keeps c n : KeepsLast (set_counter c n).
Proof. done. Qed.
#[export] Instance set_sessions_keeps x : KeepsLast (set_sessions x).
Proof. done. Qed.
#[export] Instance set_mirrors_keeps x : KeepsLast (set_mirrors x).
Proof. done. Qed.
#[export] Instance set_pending_keeps x : KeepsLast (set_pending x).
Proof. done. Qed.
#[export] Instance set_next_id_keeps x : KeepsLast (set_next_id x).
Proof. done. Qed.
#[export] Instance queue_mirror_put_keeps id : KeepsLast (queue_mirror_put id).
Proof. intros m. unfold queue_mirror_put. repeat case_match; done. Qed.
#[export] Instance queue_mirror_delete_keeps id : KeepsLast (queue_mirror_delete id).
Proof. intros m. unfold queue_mirror_delete. repeat case_match; done. Qed.
#[export] Instance persist_keeps `{SessionJson} : KeepsLast persist.
Proof. intros m. unfold persist. repeat case_match; done. Qed.
#[export] Instance persist_mirrors_keeps `{SessionJson} : KeepsLast persist_mirrors.
Proof. intros m. unfold persist_mirrors. repeat case_match; done. Qed.

Ltac lasts := repeat match goal with |- context [last_mirrored (?op ?m)] => rewrite (k_last (op := op) m) end.

(** The sessions that stay. *)
Definition live (now : Z) (m : FetchSessionManager) : gmap Z FetchSession :=
  if idle_timeout_ms (config m) =? 0 then sessions m
  else filter (λ e, is_idle (idle_timeout_ms (config m)) now (fs_last_activity_ms e.2) = false) (sessions m).

(** What eviction does to the tables. *)
Record evicted (m m' : FetchSessionManager) (kept : gmap Z FetchSession) : Prop := {
  ev_config : config m' = config m;
  ev_sessions : sessions m' = kept;
  ev_mirrors : mirrors m' = mirrors m;
  ev_next_id : next_id m' = next_id m;
  ev_last : ∀ id, is_Some (kept !! id) → last_mirrored m' !! id = last_mirrored m !! id;
}.

Lemma drop_fold (removed : gmap Z FetchSession) m :
  let m' := map_fold (λ id _ m, queue_mirror_delete id (clear_last_mirrored id m)) m removed in
  config m' = config m ∧ sessions m' = sessions m ∧ mirrors m' = mirrors m ∧ next_id m' = next_id m ∧
  ∀ id, removed !! id = None → last_mirrored m' !! id = last_mirrored m !! id.
Proof.
  apply (map_fold_weak_ind (λ (m' : FetchSessionManager) (r : gmap Z FetchSession),
    config m' = config m ∧ sessions m' = sessions m ∧ mirrors m' = mirrors m ∧ next_id m' = next_id m ∧
    ∀ id, r !! id = None → last_mirrored m' !! id = last_mirrored m !! id)); [done|].
  intros id s r m' Hr (H1 & H2 & H3 & H4 & H5). frames. split_and!; [done..|].
  intros k Hk. apply lookup_insert_None in Hk as [Hk Hne]. lasts. cbn [clear_last_mirrored last_mirrored set_last_mirrored].
  rewrite lookup_delete_ne by done. by apply H5.
Qed.

Lemma evict_idle_spec now m : evicted m (evict_idle_locked now m) (live now m).
Proof.
  unfold evict_idle_locked, live. destruct (Z.eqb_spec (idle_timeout_ms (config m)) 0) as [E|E]; [done|].
  set (idle := idle_timeout_ms (config m)). case_bool_decide as Hr.
  - split; [done| |done..]. symmetry. apply map_filter_id. intros id s Hs. cbn [snd]. apply not_true_is_false. intros Hi.
    assert (Hn : filter (λ e, is_idle idle now (fs_last_activity_ms e.2) = true) (sessions m) !! id = Some s) by by apply map_lookup_filter_Some.
    by rewrite Hr in Hn.
  - destruct (drop_fold (filter (λ e, is_idle idle now (fs_last_activity_ms e.2) = true) (sessions m))
      (bump idle_evicted_total (Z.of_nat (size (filter (λ e, is_idle idle now (fs_last_activity_ms e.2) = true) (sessions m))))
        (bump evicted_total (Z.of_nat (size (filter (λ e, is_idle idle now (fs_last_activity_ms e.2) = true) (sessions m))))
          (set_sessions (filter (λ e, is_idle idle now (fs_last_activity_ms e.2) = false) (sessions m)) m)))) as (H1 & H2 & H3 & H4 & H5).
    split; [exact H1|exact H2|exact H3|exact H4|]. intros id [s Hs]. rewrite H5; [done|].
    apply map_lookup_filter_Some in Hs as [Hs Hi]. apply map_lookup_filter_None. right. intros s' Hs'. simplify_eq. cbn [snd] in *. congruence.
Qed.

(** The least recently used session, the lowest id among several. *)
Definition least_used (ss : gmap Z FetchSession) (id : Z) : Prop :=
  ∃ s, ss !! id = Some s ∧ ∀ id' s', ss !! id' = Some s' →
    fs_last_activity_ms s < fs_last_activity_ms s' ∨ fs_last_activity_ms s = fs_last_activity_ms s' ∧ id ≤ id'.

Lemma lru_spec ss :
  match map_fold lru_min None ss with
  | None => ss = ∅
  | Some (t, id) => ∃ s, ss !! id = Some s ∧ t = fs_last_activity_ms s ∧ ∀ id' s', ss !! id' = Some s' →
      fs_last_activity_ms s < fs_last_activity_ms s' ∨ fs_last_activity_ms s = fs_last_activity_ms s' ∧ id ≤ id'
  end.
Proof.
  apply (map_fold_weak_ind (λ (best : option (Z * Z)) (ss : gmap Z FetchSession), match best with
    | None => ss = ∅
    | Some (t, id) => ∃ s, ss !! id = Some s ∧ t = fs_last_activity_ms s ∧ ∀ id' s', ss !! id' = Some s' →
        fs_last_activity_ms s < fs_last_activity_ms s' ∨ fs_last_activity_ms s = fs_last_activity_ms s' ∧ id ≤ id'
    end)); [done|].
  intros i x r best Hr IH. unfold lru_min. destruct best as [[t id]|].
  - destruct IH as (s & Hs & -> & Hmin).
    destruct ((fs_last_activity_ms x <? fs_last_activity_ms s) || ((fs_last_activity_ms x =? fs_last_activity_ms s) && (i <? id))) eqn:E.
    + exists x. rewrite lookup_insert_eq. split; [done|]. split; [done|]. intros id' s' [[<- <-]|[_ Hs']]%lookup_insert_Some; [lia|].
      specialize (Hmin _ _ Hs'). lia.
    + assert (Hne : i ≠ id) by (intros ->; congruence). exists s. rewrite lookup_insert_ne by done. split; [done|]. split; [done|].
      intros id' s' [[<- <-]|[_ Hs']]%lookup_insert_Some; [lia|]. by apply Hmin.
  - subst r. exists x. rewrite lookup_insert_eq. split; [done|]. split; [done|].
    intros id' s' [[<- <-]|[_ Hs']]%lookup_insert_Some; [lia|done].
Qed.

Lemma evict_lru_spec m :
  ∃ kept, evicted m (evict_lru_if_full_locked m) kept ∧
    (kept = sessions m ∧ (max_sessions (config m) = 0 ∨ Z.of_nat (size (sessions m)) < max_sessions (config m) ∨ sessions m = ∅) ∨
     ∃ id, least_used (sessions m) id ∧ kept = delete id (sessions m) ∧ max_sessions (config m) ≤ Z.of_nat (size (sessions m))).
Proof.
  unfold evict_lru_if_full_locked. destruct (Z.eqb_spec (max_sessions (config m)) 0) as [E|E]; cbn [orb].
  { exists (sessions m). split; [done|]. left. auto. }
  destruct (Z.ltb_spec (Z.of_nat (size (sessions m))) (max_sessions (config m))) as [Hs|Hs].
  { exists (sessions m). split; [done|]. left. auto. }
  pose proof (lru_spec (sessions m)) as HL. destruct (map_fold lru_min None (sessions m)) as [[t id]|].
  - exists (delete id (sessions m)). split.
    + split; frames; try done. intros k [x Hk]. lasts. cbn [clear_last_mirrored last_mirrored set_last_mirrored]. lasts.
      rewrite lookup_delete_ne; [done|]. intros ->. by rewrite lookup_delete_eq in Hk.
    + right. exists id. destruct HL as (s & Hs' & -> & Hmin). split; [by exists s|]. split; [done|lia].
  - exists (sessions m). split; [done|]. left. auto.
Qed.

(** ** Creation *)

(** The highest local counter before it starts again at 1. *)
Definition last_local (owner : Z) : Z := if owner =? 0 then 2147483647 else 524287.

(** The counter is ahead of every session this broker has numbered. *)
Definition ids_below (m : FetchSessionManager) : Prop :=
  ∀ id, is_Some (sessions m !! id) →
    (owner_node_id (config m) = 0 → id < next_id m) ∧
    (decode_session_owner id = Some (owner_node_id (config m)) → session_local_part id < next_id m).

Definition id_of (owner local : Z) : Z := if owner =? 0 then local else encode_session_id owner local.

Lemma alloc_spec m :
  0 ≤ owner_node_id (config m) ≤ 4095 → is_i32 (next_id m) = true →
  ∃ local next, alloc_id m = (Some (id_of (owner_node_id (config m)) local), set_next_id next m) ∧
    1 ≤ local ≤ last_local (owner_node_id (config m)) ∧ is_i32 next = true ∧
    (1 ≤ next_id m ≤ last_local (owner_node_id (config m)) → local = next_id m) ∧
    (local < 2147483647 → next = local + 1).
Proof.
  intros Ho Hn. assert (Hnext : ∀ z, is_i32 (as_i32 z) = true).
  { intros z. pose proof (signed_range 32 z ltac:(lia)) as Hz. change (2 ^ (32 - 1)) with 2147483648 in Hz. unfold is_i32, as_i32. lia. }
  unfold alloc_id, id_of, last_local, alloc_loop, alloc_round. rewrite local_mask.
  set (owner := owner_node_id (config m)) in *. unfold is_i32 in Hn. destruct (Z.eqb_spec owner 0) as [E|E].
  - destruct (Z.ltb_spec 0 (next_id m)) as [Hp|Hp].
    + exists (next_id m), (as_i32 (next_id m + 1)). split_and!; [done|lia|lia|apply Hnext|done|]. intros. apply as_i32_small. lia.
    + exists 1, 2. split_and!; [done|lia|lia|done|lia|lia].
  - destruct (Z.ltb_spec 0 (next_id m)) as [Hp|Hp]; cbn [andb];
      [destruct (Z.leb_spec (next_id m) 524287) as [Hq|Hq]|].
    + exists (next_id m), (as_i32 (next_id m + 1)). split_and!; [done|lia|lia|apply Hnext|done|]. intros. apply as_i32_small. lia.
    + exists 1, 2. split_and!; [done|lia|lia|done|lia|lia].
    + exists 1, 2. split_and!; [done|lia|lia|done|lia|lia].
Qed.

Lemma id_of_positive owner local : 0 ≤ owner ≤ 4095 → 1 ≤ local ≤ last_local owner → 0 < id_of owner local ≤ 2147483647.
Proof.
  unfold id_of, last_local. intros Ho Hl. destruct (Z.eqb_spec owner 0); [lia|].
  destruct (session_id_roundtrip owner local) as [? _]; lia.
Qed.

Lemma id_of_fresh m local :
  0 ≤ owner_node_id (config m) ≤ 4095 → 1 ≤ local ≤ last_local (owner_node_id (config m)) → ids_below m → next_id m ≤ local →
  sessions m !! id_of (owner_node_id (config m)) local = None.
Proof.
  intros Ho Hl Hb Hn. apply eq_None_not_Some. intros Hs. destruct (Hb _ Hs) as [H1 H2]. unfold id_of, last_local in *.
  set (owner := owner_node_id (config m)) in *. destruct (Z.eqb_spec owner 0) as [E|E]; [specialize (H1 E); lia|].
  destruct (session_id_roundtrip owner local) as (_ & Hd & Hp); [lia..|]. specialize (H2 Hd). lia.
Qed.

Lemma evicted_trans m m1 m2 k1 k2 : evicted m m1 k1 → evicted m1 m2 k2 → k2 ⊆ k1 → evicted m m2 k2.
Proof.
  intros [A1 A2 A3 A4 A5] [B1 B2 B3 B4 B5] Hs. split; [congruence..|]. intros id [s Hid]. rewrite B5 by by eexists.
  apply A5. exists s. by eapply lookup_weaken.
Qed.

Lemma live_subset now m : live now m ⊆ sessions m.
Proof. unfold live. case_match; [done|apply map_filter_subseteq]. Qed.

Section sessions.
Context `{SessionJson}.

(** What a new session finds. *)
Lemma create_spec topics now m :
  0 ≤ owner_node_id (config m) ≤ 4095 → is_i32 (next_id m) = true →
  ∃ kept local m', create_at topics now m = (Some (id_of (owner_node_id (config m)) local), m') ∧
    (kept = live now m ∧ (max_sessions (config m) = 0 ∨ Z.of_nat (size (live now m)) < max_sessions (config m) ∨ live now m = ∅) ∨
     ∃ id, least_used (live now m) id ∧ kept = delete id (live now m) ∧ max_sessions (config m) ≤ Z.of_nat (size (live now m))) ∧
    1 ≤ local ≤ last_local (owner_node_id (config m)) ∧
    (1 ≤ next_id m ≤ last_local (owner_node_id (config m)) → local = next_id m) ∧
    sessions m' = <[id_of (owner_node_id (config m)) local := mkFetchSession 1 topics now 1 0]> kept ∧
    mirrors m' = mirrors m ∧ config m' = config m ∧ is_i32 (next_id m') = true ∧ (local < 2147483647 → next_id m' = local + 1).
Proof.
  intros Ho Hn. unfold create_at. pose proof (evict_idle_spec now m) as E1.
  destruct (evict_lru_spec (evict_idle_locked now m)) as (kept & E2 & Hk). set (m1 := evict_idle_locked now m) in *.
  set (m2 := evict_lru_if_full_locked m1) in *. destruct E1 as [A1 A2 A3 A4 _]. destruct E2 as [B1 B2 B3 B4 _].
  destruct (alloc_spec m2) as (local & next & Ea & Hl & Hi & Hnext & Hsucc); [by rewrite B1, A1|by rewrite B4, A4|].
  rewrite Ea. rewrite B1, A1, ?B4, ?A4 in *. eexists kept, local, _. split; [done|]. rewrite A2 in Hk. split; [exact Hk|].
  split; [done|]. split; [done|]. frames. rewrite B2. split_and!; (done || congruence).
Qed.

(** A Fetch request that starts a session. It is numbered with a positive id,
    which is new as long as the counter has not started again, and starts at
    epoch 1 with the topics of the request. Idle sessions are gone; of the
    others at most one, the least recently used, and only if the table is full;
    the limit holds afterwards; mirrors are not touched. *)
Theorem create_exact topics now m :
  0 ≤ owner_node_id (config m) ≤ 4095 → is_i32 (next_id m) = true → 0 ≤ max_sessions (config m) →
  ∃ id m' kept, create_at topics now m = (Some id, m') ∧ 0 < id ≤ 2147483647 ∧
    sessions m' = <[id := mkFetchSession 1 topics now 1 0]> kept ∧
    (kept = live now m ∨ ∃ lru, least_used (live now m) lru ∧ kept = delete lru (live now m) ∧
       max_sessions (config m) ≤ Z.of_nat (size (live now m))) ∧
    (0 < max_sessions (config m) → Z.of_nat (size (sessions m)) ≤ max_sessions (config m) →
       Z.of_nat (size (sessions m')) ≤ max_sessions (config m)) ∧
    (ids_below m → 1 ≤ next_id m ≤ last_local (owner_node_id (config m)) →
       sessions m !! id = None ∧ (next_id m < 2147483647 → ids_below m')) ∧
    mirrors m' = mirrors m.
Proof.
  intros Ho Hn Hmax. destruct (create_spec topics now m Ho Hn) as (kept & local & m' & E & Hk & Hl & Hloc & Hs & Hm & Hc & _ & Hnext).
  eexists _, m', kept. split; [exact E|]. split; [by apply id_of_positive|]. split; [done|].
  assert (Hsub : kept ⊆ sessions m).
  { pose proof (live_subset now m). destruct Hk as [[-> _]|(lru & _ & -> & _)]; [done|]. etrans; [apply delete_subseteq|done]. }
  split; [destruct Hk as [[? _]|?]; [by left|by right]|]. split_and!; [| |done].
  - intros Hp Hz. rewrite Hs. set (new := mkFetchSession 1 topics now 1 0). set (id := id_of _ _).
    assert (Hins : (size (<[id := new]> kept) ≤ S (size kept))%nat) by (rewrite map_size_insert; case_match; cbn; lia).
    pose proof (map_subseteq_size _ _ (live_subset now m)). destruct Hk as [[-> Hfree]|(lru & (s & Hl' & _) & -> & _)].
    + destruct Hfree as [?|[?|He]]; [lia|lia|]. rewrite He, map_size_empty in *. lia.
    + rewrite map_size_delete_Some in * by (by eexists). assert (size (live now m) ≠ 0%nat); [|lia].
      intros Hno%map_size_empty_inv. by rewrite Hno in Hl'.
  - intros Hb Hrange. specialize (Hloc Hrange). subst local. split; [by apply id_of_fresh|]. intros Hlast.
    specialize (Hnext Hlast). intros id Hid. rewrite Hs in Hid. rewrite Hc, Hnext. unfold id_of, last_local in *.
    destruct (decide (id = if owner_node_id (config m) =? 0 then next_id m else encode_session_id (owner_node_id (config m)) (next_id m))) as [->|Hne].
    + destruct (Z.eqb_spec (owner_node_id (config m)) 0) as [E0|E0].
      * rewrite E0. split; [lia|]. unfold session_local_part, decode_session_owner. intros Hd. repeat case_match; simplify_eq; lia.
      * destruct (session_id_roundtrip (owner_node_id (config m)) (next_id m)) as (_ & _ & ->); lia.
    + rewrite lookup_insert_ne in Hid by done. destruct Hid as [s Hid]. destruct (Hb id) as [H1 H2]; [exists s; by eapply lookup_weaken|].
      split; intros X; [specialize (H1 X)|specialize (H2 X)]; lia.
Qed.

(** The copy of a session a request finds: its own if it is not idle, else a
    peer's. *)
Definition current (now : Z) (m : FetchSessionManager) (id : Z) : option FetchSession :=
  match live now m !! id with Some s => Some s | None => mirrors m !! id end.

Lemma live_frame now m m' : config m' = config m → sessions m' = live now m → live now m' = live now m.
Proof.
  intros Hc Hs. unfold live in *. rewrite Hc, Hs. case_match; [done|]. apply map_filter_id. intros id s. rewrite map_lookup_filter_Some. by intros [_ ?].
Qed.

Lemma live_insert now m m' id s :
  0 ≤ idle_timeout_ms (config m) < 9223372036854775808 → config m' = config m → fs_last_activity_ms s = now → is_i64 now = true →
  sessions m' = <[id := s]> (live now m) → live now m' = <[id := s]> (live now m).
Proof.
  intros Hi Hc Ha Hn Hs. unfold live in *. rewrite Hc, Hs. destruct (Z.eqb_spec (idle_timeout_ms (config m)) 0); [done|].
  apply map_filter_id. intros k x [[<- <-]|[_ Hx]]%lookup_insert_Some; cbn [snd].
  - unfold is_idle, i64_saturating_sub. rewrite Ha, Z.sub_diag, as_i64_small by (unfold i64_min, i64_max; lia).
    unfold i64_min, i64_max. apply Z.ltb_ge. lia.
  - by apply map_lookup_filter_Some in Hx as [_ ?].
Qed.

(** The shared step of the two outcomes of a request. *)
Lemma incremental_spec id epoch now m :
  0 ≤ idle_timeout_ms (config m) < 9223372036854775808 → is_i64 now = true →
  ∃ m', begin_incremental_from_any_at id epoch now m =
      (match current now m id with None => inr 70 | Some s => if fs_epoch s =? epoch then inl tt else inr 71 end, m') ∧
    config m' = config m ∧
    (∀ k, current now m' k = match current now m k with
       | Some s => if (k =? id) && (fs_epoch s =? epoch) then Some (touch s epoch now) else Some s
       | None => None end) ∧
    dom (live now m') = dom (live now m) ∧ dom (mirrors m') = dom (mirrors m).
Proof.
  intros Hi Hn. unfold begin_incremental_from_any_at. destruct (evict_idle_spec now m) as [A1 A2 A3 A4 _].
  set (m1 := evict_idle_locked now m) in *. set (removed := negb _).
  assert (Hp : ∀ b : bool, let m2 := if b then persist m1 else m1 in
    config m2 = config m ∧ sessions m2 = live now m ∧ mirrors m2 = mirrors m) by (intros []; cbn zeta; frames; done).
  assert (Hsame : ∀ b : bool, ∀ k, current now (if b then persist m1 else m1) k = current now m k).
  { intros b k. destruct (Hp b) as (C1 & C2 & C3). unfold current. by rewrite (live_frame now m), C3. }
  assert (Hdom : ∀ b : bool, dom (live now (if b then persist m1 else m1)) = dom (live now m) ∧
    dom (mirrors (if b then persist m1 else m1)) = dom (mirrors m)).
  { intros b. destruct (Hp b) as (C1 & C2 & C3). by rewrite (live_frame now m), C3. }
  rewrite A2. unfold current at 1. destruct (live now m !! id) as [s|] eqn:El.
  - assert (Hcur : current now m id = Some s) by (unfold current; by rewrite El).
    destruct (Z.eqb_spec (fs_epoch s) epoch) as [He|He]; cbn [negb].
    + eexists. split; [done|]. set (m' := queue_mirror_put _ _).
      assert (C1 : config m' = config m) by (unfold m'; by frames).
      assert (C2 : sessions m' = <[id := touch s epoch now]> (live now m)) by (unfold m'; by frames).
      assert (C3 : mirrors m' = mirrors m) by (unfold m'; by frames).
      assert (Hlive : live now m' = <[id := touch s epoch now]> (live now m)) by (by apply live_insert).
      split; [done|]. split; [|rewrite Hlive, C3, dom_insert_lookup_L by (by eexists); done].
      intros k. unfold current. rewrite Hlive, C3. destruct (Z.eqb_spec k id) as [->|Hk].
      * rewrite lookup_insert_eq, El, (proj2 (Z.eqb_eq _ _) He). done.
      * rewrite lookup_insert_ne by done. cbn [andb]. by destruct (live now m !! k), (mirrors m !! k).
    + eexists. split; [done|]. destruct (Hp removed) as (C1 & _). split; [done|]. split; [|apply Hdom]. intros k. rewrite Hsame.
      destruct (current now m k) as [x|] eqn:Ek; [|done]. destruct (Z.eqb_spec k id) as [->|]; [|done].
      assert (x = s) as -> by congruence. by rewrite (proj2 (Z.eqb_neq _ _) He).
  - destruct (Hp removed) as (C1 & C2 & C3). rewrite C3. destruct (mirrors m !! id) as [s|] eqn:Em.
    + assert (Hcur : current now m id = Some s) by (unfold current; by rewrite El).
      destruct (Z.eqb_spec (fs_epoch s) epoch) as [He|He]; cbn [negb].
      * set (m2 := persist_mirrors _). assert (D : ∀ b : bool, let m' := if b then queue_mirror_put id m2 else m2 in
          config m' = config m ∧ sessions m' = live now m ∧ mirrors m' = <[id := touch s epoch now]> (mirrors m))
          by (intros []; cbn zeta; unfold m2; frames; done).
        eexists. split; [done|]. destruct (D (mirror_converge (config m2))) as (D1 & D2 & D3). split; [done|].
        split; [|rewrite (live_frame now m), D3, dom_insert_lookup_L by (done || by eexists); done].
        intros k. unfold current. rewrite (live_frame now m), D3 by done. destruct (Z.eqb_spec k id) as [->|Hk].
        -- rewrite El, lookup_insert_eq, Em, (proj2 (Z.eqb_eq _ _) He). done.
        -- rewrite lookup_insert_ne by done. cbn [andb]. by destruct (live now m !! k), (mirrors m !! k).
      * eexists. split; [done|]. split; [done|]. split; [|apply Hdom]. intros k. rewrite Hsame.
        destruct (current now m k) as [x|] eqn:Ek; [|done]. destruct (Z.eqb_spec k id) as [->|]; [|done].
        assert (x = s) as -> by congruence. by rewrite (proj2 (Z.eqb_neq _ _) He).
    + assert (Hcur : current now m id = None) by (unfold current; by rewrite El).
      eexists. split; [done|]. split; [done|]. split; [|apply Hdom]. intros k. rewrite Hsame.
      destruct (current now m k) as [x|] eqn:Ek; [|done]. destruct (Z.eqb_spec k id) as [->|]; [congruence|done].
Qed.

(** Not idle for as long as the limit, or without one. *)
Definition within_idle (m : FetchSessionManager) (now now' : Z) : Prop :=
  now ≤ now' ∧ (idle_timeout_ms (config m) = 0 ∨ now' - now ≤ idle_timeout_ms (config m)).

Lemma live_some now m id s :
  live now m !! id = Some s ↔ sessions m !! id = Some s ∧
    (idle_timeout_ms (config m) = 0 ∨ is_idle (idle_timeout_ms (config m)) now (fs_last_activity_ms s) = false).
Proof.
  unfold live. destruct (Z.eqb_spec (idle_timeout_ms (config m)) 0) as [E|E]; [intuition|].
  rewrite map_lookup_filter_Some. cbn [snd]. intuition lia.
Qed.

Lemma current_later now now' m id s :
  0 ≤ idle_timeout_ms (config m) < 9223372036854775808 → current now m id = Some s → fs_last_activity_ms s = now →
  is_i64 now = true → is_i64 now' = true → within_idle m now now' → current now' m id = Some s.
Proof.
  intros Hi Hc Ha Hn Hn' [Hle Hw]. unfold current in *. unfold is_i64, i64_min, i64_max in *. destruct (live now m !! id) as [x|] eqn:El.
  - injection Hc as ->. apply live_some in El as [Hs _]. rewrite (proj2 (live_some now' m id s)); [done|]. split; [done|].
    destruct Hw as [?|Hw]; [by left|right]. unfold is_idle, i64_saturating_sub. rewrite as_i64_small by (unfold i64_min, i64_max; lia).
    rewrite Ha. apply Z.ltb_ge. unfold i64_min, i64_max. lia.
  - destruct (live now' m !! id) as [x|] eqn:El'; [|done]. apply live_some in El' as [Hs Hl].
    assert (live now m !! id = Some x) as Hx; [|congruence]. apply live_some. split; [done|].
    destruct Hl as [?|Hl]; [by left|right]. unfold is_idle, i64_saturating_sub in *. rewrite as_i64_small in * by (unfold i64_min, i64_max; lia).
    apply Z.ltb_ge in Hl. apply Z.ltb_ge. unfold i64_min, i64_max in *. lia.
Qed.

(** Epochs are taken once and in order. A request with the epoch the session
    expects is accepted, on the broker that owns the session and on one that
    serves its mirror; sent again within the idle time it is refused as a wrong
    epoch, and the next epoch is accepted. A session nobody has is not found. *)
Theorem epochs_in_order id epoch now now' m :
  0 ≤ idle_timeout_ms (config m) < 9223372036854775808 → is_i64 now = true → is_i64 now' = true → within_idle m now now' →
  0 ≤ epoch →
  match current now m id with
  | None => (begin_incremental_from_any_at id epoch now m).1 = inr 70
  | Some s =>
    if fs_epoch s =? epoch then
      ∃ m', begin_incremental_from_any_at id epoch now m = (inl tt, m') ∧
        current now' m' id = Some (touch s epoch now) ∧
        (begin_incremental_from_any_at id epoch now' m').1 = inr 71 ∧
        (begin_incremental_from_any_at id (next_epoch epoch) now' m').1 = inl tt
    else (begin_incremental_from_any_at id epoch now m).1 = inr 71
  end.
Proof.
  intros Hi Hn Hn' Hw He. destruct (incremental_spec id epoch now m Hi Hn) as (m' & E & Hc & Hcur & _).
  specialize (Hcur id). destruct (current now m id) as [s|] eqn:Ec; [|by rewrite E]. destruct (Z.eqb_spec (fs_epoch s) epoch) as [Hs|Hs]; [|by rewrite E].
  exists m'. split; [done|]. rewrite Z.eqb_refl in Hcur. cbn [andb] in Hcur.
  assert (Hl : current now' m' id = Some (touch s epoch now)) by (eapply current_later; rewrite ?Hc; done || (unfold within_idle in *; by rewrite ?Hc)).
  assert (Hne : next_epoch epoch ≠ epoch) by (unfold next_epoch, FINAL_EPOCH; repeat case_match; lia).
  split; [done|]. destruct (incremental_spec id epoch now' m') as (m2 & E2 & _); [by rewrite Hc|done|].
  destruct (incremental_spec id (next_epoch epoch) now' m') as (m3 & E3 & _); [by rewrite Hc|done|].
  rewrite E2, E3, Hl. cbn [fs_epoch touch fst]. rewrite Z.eqb_refl, (proj2 (Z.eqb_neq _ _) Hne). done.
Qed.

End sessions.
