(* ===== verification/FetchSessionMirror.v ===== *)
(** * Copies of fetch sessions: mirrors, convergence, restart

    A peer that gets every snapshot has the session its owner has; one that
    missed a snapshot may not.  Of two primaries, or two mirrors, the newer stays.
    A restarted broker has the sessions that are not idle. *)

From Stdlib Require Import Strings.String Strings.Ascii.
From S2P Require Import Prelude Bytes Core Wire WireLogic Text Assignor AssignorProps KafkaWire KafkaWireProps FetchSession FetchSessionProps.
#[local] Open Scope Z_scope.

(** What is written in JSON is read back; a file is not empty. *)
Class SessionJsonLaws `{SessionJson} := {
  session_json st : ∃ b, session_to_vec st = Some b ∧ session_from_slice b = Some st;
  file_json f : ∃ b, file_to_string f = Some b ∧ file_from_str b = Some f ∧ trim_bytes b ≠ [];
}.

Section mirror.
Context `{SessionJsonLaws}.

(** ** A peer that gets every snapshot *)

(** What a client's requests do to a session. *)
Inductive SessionOp :=
  | OpBegin (epoch now : Z)
  | OpMerge (topics : gmap string SessionTopic)
  | OpForget (forgotten : list (string * list Z))
  | OpNote (topic_key : string) (partition hwm lso : Z).

Definition run_op (id : Z) (op : SessionOp) (m : FetchSessionManager) : FetchSessionManager :=
  match op with
  | OpBegin epoch now => (begin_incremental_from_any_at id epoch now m).2
  | OpMerge topics => merge_topics id topics m
  | OpForget forgotten => forget id forgotten m
  | OpNote key partition hwm lso => note_returned id key partition hwm lso m
  end.

Definition op_ok (op : SessionOp) : Prop := match op with OpMerge topics => topics_ok topics | _ => True end.

(** The put of a session, sent to one peer. *)
Definition deliver (id : Z) (o p : FetchSessionManager) : FetchSessionManager * FetchSessionManager :=
  let '(rs, o) := fanout_requests [Put id] o in
  (o, foldl (λ p r, (handle_mirror_request r p).2) p rs).

(** Requests at the owner, and puts that arrive. *)
Inductive mirror_step (id : Z) : FetchSessionManager * FetchSessionManager → FetchSessionManager * FetchSessionManager → Prop :=
  | ms_request o p op s :
      op_ok op → sessions o !! id = Some s → fs_mirror_gen s < u64_max → is_Some (sessions (run_op id op o) !! id) →
      mirror_step id (o, p) (run_op id op o, p)
  | ms_put o p : mirror_step id (o, p) (deliver id o p).

(** A session after a change. *)
Definition changed (s s' : FetchSession) : Prop :=
  s' = s ∨ fs_mirror_gen s' = fs_mirror_gen s + 1 ∧ fs_promoted_by s' = fs_promoted_by s.

Lemma fold_entries_lookup {K A B} `{Countable K} (f : option B → A → B) (src : gmap K A) (dst : gmap K B) k :
  fold_entries f src dst !! k = match src !! k with Some a => Some (f (dst !! k) a) | None => dst !! k end.
Proof.
  unfold fold_entries. revert k. apply (map_fold_weak_ind (λ (acc : gmap K B) (src : gmap K A),
    ∀ k, acc !! k = match src !! k with Some a => Some (f (dst !! k) a) | None => dst !! k end)).
  - intros k. by rewrite lookup_empty.
  - intros i a src' acc Hi IH k. destruct (decide (k = i)) as [->|Hk].
    + by rewrite !lookup_insert_eq, IH, Hi.
    + by rewrite !lookup_insert_ne, IH.
Qed.

Lemma merge_ok s topics : topics_ok (fs_topics s) → topics_ok topics → topics_ok (fs_topics (merge_topics_into s topics)).
Proof.
  intros Hs Ht k t. cbn [merge_topics_into bump_gen fs_topics]. rewrite fold_entries_lookup.
  destruct (topics !! k) as [t'|] eqn:E; [|by apply Hs]. intros [= <-]. cbn [merge_topic st_wire]. by apply (Ht k).
Qed.

Lemma forget_ok fs topics : topics_ok topics → topics_ok (foldl forget_entry topics fs).
Proof.
  revert topics. induction fs as [|[k ps] fs IH]; intros topics Ht; [done|]. cbn [foldl]. apply IH. unfold forget_entry. cbn [fst snd].
  destruct ps as [|p ps]; [by apply map_Forall_delete|]. destruct (topics !! k) as [t|] eqn:E; [|done].
  case_bool_decide; [by apply map_Forall_delete|]. apply map_Forall_insert_2; [|done]. cbn [st_wire]. by apply (Ht k).
Qed.

Lemma gen_succ s topics : fs_mirror_gen s < u64_max → changed s (bump_gen s topics).
Proof. intros Hg. right. cbn. unfold u64_saturating_add. split; [lia|done]. Qed.

(** An operation on a session its owner keeps. *)
Lemma op_changes id op o s :
  op_ok op → sessions o !! id = Some s → fs_mirror_gen s < u64_max → topics_ok (fs_topics s) → is_Some (sessions (run_op id op o) !! id) →
  ∃ s', sessions (run_op id op o) !! id = Some s' ∧ changed s s' ∧ topics_ok (fs_topics s') ∧
    last_mirrored (run_op id op o) !! id = last_mirrored o !! id.
Proof.
  intros Hop Hs Hg Ht. destruct op as [epoch now|topics|fs|key part hwm lso]; cbn [run_op op_ok] in *.
  - unfold begin_incremental_from_any_at. destruct (evict_idle_spec now o) as [A1 A2 A3 A4 A5]. set (o1 := evict_idle_locked now o) in *.
    rewrite A2. destruct (live now o !! id) as [x|] eqn:El.
    + assert (x = s) as -> by (pose proof (lookup_weaken _ _ _ _ El (live_subset now o)); congruence).
      specialize (A5 id ltac:(by eexists)). intros _. destruct (negb (fs_epoch s =? epoch)).
      * exists s. cbn [snd]. assert (Hf : ∀ b : bool, sessions (if b then persist o1 else o1) !! id = Some s ∧
          last_mirrored (if b then persist o1 else o1) !! id = last_mirrored o !! id).
        { intros []; frames; lasts; by rewrite A2, El. }
        destruct (Hf (negb (bool_decide (size (live now o) = size (sessions o))))) as [-> ->]. split_and!; [done|by left|done|done].
      * exists (touch s epoch now). cbn [snd]. frames. lasts. rewrite lookup_insert_eq. split_and!; [done| |done|done].
        right. cbn. unfold u64_saturating_add. split; [lia|done].
    + intros Hsome. exfalso. assert (Hno : sessions (if negb (bool_decide (size (live now o) = size (sessions o))) then persist o1 else o1) !! id = None).
      { destruct (negb _); frames; by rewrite A2, El. }
      revert Hsome. destruct (mirrors _ !! id) as [x|]; [destruct (negb (fs_epoch x =? epoch))|]; cbn [snd]; rewrite ?Hno; try (by intros [? ?]).
      destruct (mirror_converge _); frames; rewrite Hno; by intros [? ?].
  - intros _. exists (merge_topics_into s topics). unfold merge_topics, update_session. rewrite Hs. frames. lasts. rewrite lookup_insert_eq.
    split_and!; [done|by apply gen_succ|by apply merge_ok|done].
  - intros _. unfold forget, update_session. destruct (_ || _); [exists s; split_and!; [done|by left|done|done]|].
    exists (forget_into s fs). rewrite Hs. frames. lasts. rewrite lookup_insert_eq. split_and!; [done|by apply gen_succ|by apply forget_ok|done].
  - intros _. unfold note_returned. destruct (id =? 0); [exists s; split_and!; [done|by left|done|done]|]. rewrite Hs.
    unfold note_returned_into. destruct (fs_topics s !! key) as [t|] eqn:Et; cbn [mbind option_bind]; [|exists s; split_and!; [done|by left|done|done]].
    destruct (st_partitions t !! part) as [q|] eqn:Eq; cbn [mbind option_bind]; [|exists s; split_and!; [done|by left|done|done]].
    eexists. frames. lasts. rewrite lookup_insert_eq. split_and!; [done|by apply gen_succ| |done].
    cbn [bump_gen fs_topics]. apply map_Forall_insert_2; [|done]. cbn [st_wire]. by apply (Ht key).
Qed.

(** The owner has the session; what it last sent is what the peer has, and the
    session is that or newer. *)
Definition in_sync (id : Z) (op : FetchSessionManager * FetchSessionManager) : Prop :=
  ∃ s, sessions op.1 !! id = Some s ∧ topics_ok (fs_topics s) ∧ sessions op.2 !! id = None ∧
    match last_mirrored op.1 !! id with
    | None => mirrors op.2 !! id = None
    | Some prev => mirrors op.2 !! id = Some prev ∧ (s = prev ∨ fs_mirror_gen prev < fs_mirror_gen s)
    end.

Lemma newer_by_gen a b : fs_mirror_gen b < fs_mirror_gen a → session_is_newer a b = true.
Proof. intros Hg. unfold session_is_newer. rewrite (proj2 (Z.eqb_neq _ _)) by lia. cbn [negb]. lia. Qed.

Lemma newer_irrefl s : session_is_newer s s = false.
Proof. unfold session_is_newer. rewrite !Z.eqb_refl. cbn [negb]. lia. Qed.

Lemma claim_wins_irrefl s : session_claim_wins s s = false.
Proof. unfold session_claim_wins, claim_wins. rewrite newer_irrefl. repeat case_match; lia. Qed.

(** The put of a session on a peer with an older copy, or the same, or none. *)
Lemma put_installs id s d p :
  (∀ e, mirrors p !! id = Some e → s = e ∨ fs_mirror_gen e < fs_mirror_gen s) →
  let p' := put_on_mirror id s false d p in
  mirrors p' !! id = Some s ∧ sessions p' = sessions p ∧ config p' = config p.
Proof.
  intros He p'. unfold p', put_on_mirror. destruct (mirrors p !! id) as [e|] eqn:Em.
  - cbn [andb]. destruct (He e eq_refl) as [->|Hg].
    + rewrite claim_wins_irrefl. cbn [negb]. frames. done.
    + unfold session_claim_wins. rewrite newer_by_gen by done. cbn [negb]. frames. by rewrite lookup_insert_eq.
  - frames. by rewrite lookup_insert_eq.
Qed.

(** A snapshot of the whole session, or of what changed since the copy the
    peer has, stands for the session. *)
Lemma snapshot_applied id s prev b p :
  0 < id → topics_ok (fs_topics s) → sessions p !! id = None →
  session_to_vec (match prev with None => session_to_stored id s | Some prev => session_to_delta_stored id s prev end) = Some b →
  match prev with None => True | Some prev => snapshot_topics id p = fs_topics prev end →
  apply_mirror_put b p = (inl tt, put_on_mirror id s false (match prev with None => false | Some _ => true end) p).
Proof.
  intros Hid Ht Hp Hb Hprev. unfold apply_mirror_put. destruct prev as [prev|].
  - destruct (session_json (session_to_delta_stored id s prev)) as (b' & Eb & Ed). rewrite Hb in Eb. injection Eb as <-. rewrite Ed.
    cbn [session_to_delta_stored ss_id ss_mode ss_from_mirror]. rewrite (proj2 (Z.leb_gt _ _)) by done.
    change (is_delta_mode "delta") with true. cbn iota. unfold resolve_delta_put. cbn [session_to_delta_stored ss_topics ss_id ss_remove_topic_keys ss_epoch ss_last_activity_ms ss_mirror_gen ss_promoted_by].
    rewrite stored_topics_roundtrip by (intros k t [Hk _]%map_lookup_filter_Some; by apply (Ht k)). cbn [mbind option_bind]. rewrite Hprev, delta_topics, Hp. by destruct s.
  - destruct (session_json (session_to_stored id s)) as (b' & Eb & Ed). rewrite Hb in Eb. injection Eb as <-. rewrite Ed.
    cbn [session_to_stored ss_id ss_mode ss_from_mirror]. rewrite (proj2 (Z.leb_gt _ _)) by done.
    change (is_delta_mode "full") with false. cbn iota. change (mkStoredSession _ _ _ _ _ _ _ _ _) with (session_to_stored id s).
    by rewrite full_snapshot, Hp.
Qed.

Lemma deliver_sync id o p s :
  0 < id → in_sync id (o, p) → sessions o !! id = Some s →
  let '(o', p') := deliver id o p in
  in_sync id (o', p') ∧ sessions o' !! id = Some s ∧ mirrors p' !! id = Some s.
Proof.
  intros Hid (s' & Hs & Ht & Hp & Hlast) Hs'. cbn [fst snd] in *. assert (s' = s) as -> by congruence. clear Hs'.
  unfold deliver. cbn [fanout_requests]. unfold export_mirror_put_bytes, contains. rewrite bool_decide_true by (by eexists).
  unfold export_session_delta_bytes. rewrite Hs. set (prev := last_mirrored o !! id) in *.
  destruct (session_json (match prev with None => session_to_stored id s | Some prev => session_to_delta_stored id s prev end)) as (b & Eb & _).
  rewrite Eb. cbn [mbind option_bind]. set (o1 := if bool_decide (is_Some prev) then _ else o).
  assert (Ho1 : sessions o1 !! id = Some s ∧ last_mirrored o1 = last_mirrored o) by (unfold o1; case_bool_decide; done).
  destruct Ho1 as [Ho1 Ho1l]. unfold note_last_mirrored. rewrite Ho1. cbn [foldl handle_mirror_request].
  rewrite (snapshot_applied id s prev b p Hid Ht Hp Eb).
  2: { destruct prev as [prev|]; [|done]. destruct Hlast as [Hm _]. unfold snapshot_topics. by rewrite Hp, Hm. }
  cbn [snd]. destruct (put_installs id s (match prev with None => false | Some _ => true end) p) as (M1 & M2 & _).
  { intros e He. destruct prev as [prev|]; [|congruence]. destruct Hlast as [Hm Hor]. assert (prev = e) as <- by congruence. exact Hor. }
  split; [|split; [exact Ho1|exact M1]]. exists s. cbn [fst snd set_last_mirrored sessions last_mirrored]. rewrite lookup_insert_eq, M1, M2.
  split_and!; [done..|by left].
Qed.

Lemma step_sync id x y : 0 < id → mirror_step id x y → in_sync id x → in_sync id y.
Proof.
  intros Hid Hstep Hx. destruct Hstep as [o p op s Hop Hs Hg Hkeep|o p].
  - destruct Hx as (s0 & Hs0 & Ht & Hp & Hlast). cbn [fst snd] in *. assert (s0 = s) as -> by congruence.
    destruct (op_changes id op o s Hop Hs Hg Ht Hkeep) as (s' & Hs' & Hc & Ht' & Hl). exists s'. cbn [fst snd]. rewrite Hl. split_and!; [done..|].
    destruct (last_mirrored o !! id) as [prev|]; [|done]. destruct Hlast as [Hm Hor]. split; [done|].
    destruct Hc as [->|[Hg' _]]; [done|]. right. destruct Hor as [->|?]; lia.
  - destruct (Hx) as (s & Hs & _). pose proof (deliver_sync id o p s Hid Hx Hs) as Hd. destruct (deliver id o p) as [o' p']. by destruct Hd.
Qed.

(** C21: The mirror of a session. A session is created on one broker; whatever
    requests of its client follow, and whenever its changes are sent to a peer,
    as a whole or as a difference: as long as the puts arrive, the peer's copy is
    the session, with its epoch, its topics and what was last returned for each
    partition, whenever a put has arrived. *)
Theorem mirror_follows_owner id o p x s :
  0 < id → sessions o !! id = Some s → topics_ok (fs_topics s) → last_mirrored o !! id = None →
  sessions p !! id = None → mirrors p !! id = None →
  rtc (mirror_step id) (o, p) x →
  ∃ s', sessions x.1 !! id = Some s' ∧
    let '(o', p') := deliver id x.1 x.2 in sessions o' !! id = Some s' ∧ mirrors p' !! id = Some s'.
Proof.
  intros Hid Hs Ht Hl Hp Hm Hrun.
  assert (Hx : in_sync id x).
  { assert (Hinit : in_sync id (o, p)) by (exists s; cbn [fst snd]; by rewrite Hl). revert Hinit. induction Hrun as [x|x y z Hxy _ IH]; [done|].
    intros Hx. apply IH. by eapply step_sync. }
  destruct x as [o1 p1]. destruct (Hx) as (s' & Hs' & _). exists s'. split; [done|]. cbn [fst snd].
  pose proof (deliver_sync id o1 p1 s' Hid Hx Hs') as Hd. destruct (deliver id o1 p1) as [o' p']. by destruct Hd as (_ & ? & ?).
Qed.

(** A peer that missed the first put of a session and gets the next one
    takes the difference for the session: it answers that the put was applied and
    has a copy that is as new as the session but lacks every topic the difference
    does not name. *)
Theorem lost_put_loses_topics id o p s topics k t :
  0 < id → sessions o !! id = Some s → topics_ok (fs_topics s) → topics_ok topics → last_mirrored o !! id = None →
  sessions p !! id = None → mirrors p !! id = None → fs_topics s !! k = Some t → topics !! k = None →
  let o1 := (fanout_requests [Put id] o).2 in
  let '(o2, p2) := deliver id (merge_topics id topics o1) p in
  ∃ s2 c, sessions o2 !! id = Some s2 ∧ mirrors p2 !! id = Some c ∧
    fs_mirror_gen c = fs_mirror_gen s2 ∧ fs_epoch c = fs_epoch s2 ∧ fs_topics s2 !! k = Some t ∧ fs_topics c !! k = None.
Proof.
  intros Hid Hs Ht Htt Hl Hp Hm Hk Hnk. cbn zeta.
  assert (Ho1 : ∃ o1, (fanout_requests [Put id] o).2 = o1 ∧ sessions o1 !! id = Some s ∧ last_mirrored o1 !! id = Some s).
  { cbn [fanout_requests]. unfold export_mirror_put_bytes, contains. rewrite bool_decide_true by (by eexists).
    unfold export_session_delta_bytes. rewrite Hs, Hl. destruct (session_json (session_to_stored id s)) as (b & -> & _).
    cbn [mbind option_bind]. rewrite bool_decide_false by (by intros [? ?]). eexists. split; [done|]. unfold note_last_mirrored. rewrite Hs.
    cbn [snd set_last_mirrored sessions last_mirrored]. by rewrite lookup_insert_eq. }
  destruct Ho1 as (o1 & -> & Hs1 & Hl1). set (s2 := merge_topics_into s topics).
  set (o2 := merge_topics id topics o1). assert (Hs2 : sessions o2 !! id = Some s2 ∧ last_mirrored o2 !! id = Some s).
  { unfold o2, merge_topics, update_session. rewrite Hs1. frames. lasts. by rewrite lookup_insert_eq. }
  destruct Hs2 as [Hs2 Hl2]. unfold deliver. cbn [fanout_requests]. unfold export_mirror_put_bytes, contains. rewrite bool_decide_true by (by eexists).
  unfold export_session_delta_bytes. rewrite Hs2, Hl2. destruct (session_json (session_to_delta_stored id s2 s)) as (b & -> & Ed).
  cbn [mbind option_bind]. rewrite bool_decide_true by (by eexists). unfold note_last_mirrored. cbn [sessions bump set_counter]. rewrite Hs2.
  cbn [foldl handle_mirror_request]. unfold apply_mirror_put. rewrite Ed. cbn [session_to_delta_stored ss_id ss_mode ss_from_mirror].
  rewrite (proj2 (Z.leb_gt _ _)) by done. change (is_delta_mode "delta") with true. cbn iota. unfold resolve_delta_put.
  cbn [session_to_delta_stored ss_topics ss_id ss_remove_topic_keys ss_epoch ss_last_activity_ms ss_mirror_gen ss_promoted_by].
  assert (Ht2 : topics_ok (fs_topics s2)) by by apply merge_ok.
  rewrite stored_topics_roundtrip by (intros k' t' [Hk' _]%map_lookup_filter_Some; by apply (Ht2 k')). cbn [mbind option_bind].
  rewrite Hp. cbn [snd]. set (c := mkFetchSession _ _ _ _ _). destruct (put_installs id c true p) as (M & _); [by rewrite Hm|].
  exists s2, c. cbn [sessions set_last_mirrored]. split_and!; [done|done|done|done| |].
  - unfold s2. cbn [merge_topics_into bump_gen fs_topics]. by rewrite fold_entries_lookup, Hnk.
  - cbn [c fs_topics]. rewrite foldl_delete. destruct (decide _); [done|]. rewrite lookup_union. unfold snapshot_topics. rewrite Hp, Hm, lookup_empty.
    rewrite (proj2 (map_lookup_filter_None _ _ _)); [done|]. right. intros t' Ht'. cbn [fst snd].
    unfold s2 in Ht'. cbn [merge_topics_into bump_gen fs_topics] in Ht'. rewrite fold_entries_lookup, Hnk in Ht'. intros Hne. by apply Hne.
Qed.

(** ** Two copies *)

(** The copy that stays when two brokers own a session. *)
Definition fresher (a b : FetchSession) : Prop :=
  fs_mirror_gen b < fs_mirror_gen a ∨ fs_mirror_gen a = fs_mirror_gen b ∧ fs_epoch b < fs_epoch a.

Lemma fresher_wins a oa b ob : fresher a b → session_dual_epoch_wins a oa b ob = true ∧ session_dual_epoch_wins b ob a oa = false.
Proof. unfold fresher, session_dual_epoch_wins. intros Hf. repeat (case_match || split); lia. Qed.

Lemma converge_loser id s m local :
  dual_epoch_converge (config m) = true → sessions m !! id = Some local → fs_promoted_by local = 0 → fs_promoted_by s = 0 → fresher s local →
  ∃ m', converge_dual_epoch_manager id s m = (true, m') ∧ sessions m' = delete id (sessions m) ∧ mirrors m' !! id = Some s.
Proof.
  intros Hc Hl P1 P2 Hf. unfold converge_dual_epoch_manager, both_unclaimed_primary_ish. rewrite Hc, Hl, P1, P2. cbn [negb andb Z.eqb].
  destruct (fresher_wins s 0 local (owner_node_id (config m)) Hf) as [-> _]. cbn [negb]. unfold demote_primary_to_winner_mirror. rewrite Hl.
  eexists. split; [done|]. frames. by rewrite lookup_insert_eq.
Qed.

(** Two brokers that both own a session nobody claimed. If one copy has the
    higher generation, or the same and the higher epoch, its broker keeps the
    session and the other one keeps it as a mirror, whichever asks. If both are
    the same both brokers keep theirs: the ids of the owners, which are to decide
    then, never do. *)
Theorem primaries_converge id a b sa sb :
  dual_epoch_converge (config a) = true → dual_epoch_converge (config b) = true →
  sessions a !! id = Some sa → sessions b !! id = Some sb → fs_promoted_by sa = 0 → fs_promoted_by sb = 0 →
  (fresher sa sb → ∃ b', converge_dual_epoch_pair id a b = (true, a, b') ∧ sessions b' = delete id (sessions b) ∧ mirrors b' !! id = Some sa) ∧
  (fresher sb sa → ∃ a', converge_dual_epoch_pair id a b = (true, a', b) ∧ sessions a' = delete id (sessions a) ∧ mirrors a' !! id = Some sb) ∧
  (¬ fresher sa sb → ¬ fresher sb sa → converge_dual_epoch_pair id a b = (false, a, b)).
Proof.
  intros Ka Kb Ha Hb Pa Pb. unfold converge_dual_epoch_pair. rewrite Ha, Hb. unfold both_unclaimed_primary_ish at 1 2 3. rewrite Pa, Pb. cbn [andb negb Z.eqb].
  split_and!.
  - intros Hf. destruct (fresher_wins sa (owner_node_id (config a)) sb (owner_node_id (config b)) Hf) as [-> ->]. cbn [andb negb].
    destruct (converge_loser id sa b sb Kb Hb Pb Pa Hf) as (b' & -> & ? & ?). by exists b'.
  - intros Hf. destruct (fresher_wins sb (owner_node_id (config b)) sa (owner_node_id (config a)) Hf) as [-> ->]. cbn [andb negb].
    destruct (converge_loser id sb a sa Ka Ha Pa Pb Hf) as (a' & -> & ? & ?). by exists a'.
  - intros N1 N2. assert (Heq : fs_mirror_gen sa = fs_mirror_gen sb ∧ fs_epoch sa = fs_epoch sb) by (unfold fresher in *; lia). destruct Heq as [G E].
    assert (Hlose : ∀ x y o, fs_mirror_gen x = fs_mirror_gen y → fs_epoch x = fs_epoch y → fs_promoted_by x = 0 → session_dual_epoch_wins x (fs_promoted_by x) y o = false).
    { intros x y o G' E' P'. unfold session_dual_epoch_wins. rewrite G', E', P', !Z.eqb_refl. done. }
    unfold converge_dual_epoch_manager. rewrite Ka, Kb, Ha, Hb, (Hlose sa sb), (Hlose sb sa) by done. cbn [negb].
    repeat case_match; simplify_eq; done.
Qed.

End mirror.
