(* ===== verification/FetchSessionTheorems.v ===== *)
(** * Fetch sessions: restart, omitted partitions, requests

    A restarted broker has the sessions that are not idle and numbers new ones
    behind them; a partition is left out of a response only if the client was
    told the same offsets last; which partitions a request is answered for. *)

From Stdlib Require Import Strings.String Strings.Ascii.
From S2P Require Import Prelude Bytes Core Wire WireLogic Text Assignor AssignorProps KafkaWire KafkaWireProps FetchSession FetchSessionProps FetchSessionMirror.
#[local] Open Scope Z_scope.

(** ** Restart *)

(** Whether a stored session is too old for a broker with this limit. *)
Definition too_old (idle now : Z) (s : FetchSession) : bool := (0 <? idle) && is_idle idle now (fs_last_activity_ms s).

Lemma load_spec idle now l : ∀ loaded d ml,
  NoDup l.*1 → Forall (λ e, 0 < e.1 ∧ topics_ok (fs_topics e.2)) l →
  ∃ loaded' d' ml', load_sessions idle now (map (λ e, session_to_stored e.1 e.2) l) loaded d ml = (loaded', d', ml') ∧
    (∀ k, loaded' !! k = match list_to_map (M := gmap Z FetchSession) l !! k with
       | Some s => if too_old idle now s then loaded !! k else Some s
       | None => loaded !! k end) ∧
    ml ≤ ml' ∧ (∀ e, e ∈ l → session_local_part e.1 ≤ ml') ∧ (∀ z, ml ≤ z → (∀ e, e ∈ l → session_local_part e.1 ≤ z) → ml' ≤ z).
Proof.
  induction l as [|[id s] l IH]; intros loaded d ml Hnd HF; cbn [map fmap list_fmap fst snd load_sessions].
  { exists loaded, d, ml. split; [done|]. split; [done|]. split; [done|]. split; [by intros e ?%not_elem_of_nil|]. auto. }
  cbn [fst] in Hnd. apply NoDup_cons in Hnd as [Hni Hnd]. apply Forall_cons in HF as [[Hid Ht] HF]. cbn [fst snd] in *.
  change (ss_id (session_to_stored id s)) with id. rewrite (proj2 (Z.leb_gt _ _)) by done.
  change (ss_last_activity_ms (session_to_stored id s)) with (fs_last_activity_ms s). fold (too_old idle now s).
  assert (Hout : list_to_map (M := gmap Z FetchSession) l !! id = None) by (by apply not_elem_of_list_to_map_1).
  assert (Hstep : ∀ ld d', (∀ k, k ≠ id → ld !! k = loaded !! k) → ld !! id = (if too_old idle now s then loaded !! id else Some s) →
    ∃ loaded' d'' ml', load_sessions idle now (map (λ e, session_to_stored e.1 e.2) l) ld d' (Z.max ml (session_local_part id)) = (loaded', d'', ml') ∧
    (∀ k, loaded' !! k = match list_to_map (M := gmap Z FetchSession) ((id, s) :: l) !! k with
       | Some s => if too_old idle now s then loaded !! k else Some s
       | None => loaded !! k end) ∧
    ml ≤ ml' ∧ (∀ e, e ∈ (id, s) :: l → session_local_part e.1 ≤ ml') ∧
    (∀ z, ml ≤ z → (∀ e, e ∈ (id, s) :: l → session_local_part e.1 ≤ z) → ml' ≤ z)).
  { intros ld d' Hld Hld'. destruct (IH ld d' (Z.max ml (session_local_part id)) Hnd HF) as (loaded' & d'' & ml' & E & Hk & Hm1 & Hm2 & Hm3).
    exists loaded', d'', ml'. split; [done|]. split.
    - intros k. rewrite Hk. cbn [list_to_map foldr uncurry]. destruct (decide (k = id)) as [->|Hne].
      + by rewrite lookup_insert_eq, Hout, Hld'.
      + rewrite lookup_insert_ne by done. by rewrite Hld.
    - split; [lia|]. split; [intros e [->|He]%elem_of_cons; [cbn [fst]; lia|by apply Hm2]|].
      intros z Hz Hall. apply Hm3; [pose proof (Hall (id, s) ltac:(left)) as Hh; cbn [fst] in Hh; lia|]. intros e He. apply Hall. by right. }
  destruct (too_old idle now s) eqn:Eo; [apply Hstep; [done|done]|]. rewrite full_snapshot by done.
  apply Hstep; [intros k Hk; by rewrite lookup_insert_ne|by rewrite lookup_insert_eq].
Qed.

Lemma restored_next owner file_next max_local :
  0 ≤ max_local < last_local owner → 0 ≤ owner → is_i32 file_next = true →
  1 ≤ restored_next_id owner file_next max_local ∧ max_local < restored_next_id owner file_next max_local ∧
  (0 < owner → restored_next_id owner file_next max_local ≤ last_local owner).
Proof.
  unfold restored_next_id, i32_saturating_succ, last_local. rewrite local_mask. intros Hm Ho Hf.
  destruct (Z.eqb_spec owner 0) as [->|Hne]; [cbn [Z.ltb Z.compare andb]; lia|].
  rewrite (proj2 (Z.ltb_lt 0 owner)) by lia. cbn [andb]. repeat case_match; lia.
Qed.

Section restart.
Context `{SessionJsonLaws}.

(** A table that can be written: positive ids, well-formed topic ids, a
    counter that is an i32. *)
Record storable (m : FetchSessionManager) : Prop := {
  so_ids : map_Forall (λ id s, 0 < id ∧ topics_ok (fs_topics s)) (sessions m);
  so_next : is_i32 (next_id m) = true;
  so_durable : durable_path (config m) = true;
  so_disk : disk_ok (config m) = true;
}.

Lemma persist_file m : storable m → ∃ b, sessions_file (persist m) = Some b ∧ load_file (Some b) = Some (snapshot_file (sessions m) (next_id m)).
Proof.
  intros [_ _ Hd Hk]. unfold persist, save_file. rewrite Hd, Hk. cbn [negb].
  destruct (file_json (snapshot_file (sessions m) (next_id m))) as (b & -> & Ef & Hne). exists b. split; [done|].
  unfold load_file. cbn [mbind option_bind]. by rewrite bool_decide_false.
Qed.

(** After any operation that writes, a broker that is started again with its
    files has exactly the sessions of that moment that are not idle by then, with
    their epochs, topics and what was last returned; and it numbers new sessions
    behind the ones it knows. *)
Theorem restart_restores m c now :
  storable m → durable_path c = true → 0 ≤ owner_node_id c ≤ 4095 →
  let m' := open_with_limits_and_owner c (sessions_file (persist m)) None now in
  sessions m' = filter (λ e, too_old (idle_timeout_ms c) now e.2 = false) (sessions m) ∧
  ((∀ id, is_Some (sessions m !! id) → session_local_part id < last_local (owner_node_id c)) →
     1 ≤ next_id m' ∧ ∀ id, is_Some (sessions m !! id) → session_local_part id < next_id m').
Proof.
  intros Hm Hd Ho m'. destruct (persist_file m Hm) as (b & Eb & El). destruct Hm as [Hids Hnext _ _]. unfold m', open_with_limits_and_owner.
  set (l := merge_sort session_id_le (map_to_list (sessions m))). assert (Hp : l ≡ₚ map_to_list (sessions m)) by apply merge_sort_Permutation.
  assert (Hnd : NoDup l.*1) by (rewrite Hp; apply NoDup_fst_map_to_list).
  assert (HF : Forall (λ e, 0 < e.1 ∧ topics_ok (fs_topics e.2)) l).
  { rewrite Hp. apply Forall_forall. intros [id s] Hin%elem_of_map_to_list. by apply (Hids id s). }
  assert (Hlm : list_to_map (M := gmap Z FetchSession) l = sessions m).
  { rewrite (list_to_map_proper l (map_to_list (sessions m))) by done. apply list_to_map_to_list. }
  assert (Hmem : ∀ id, is_Some (sessions m !! id) ↔ ∃ s, (id, s) ∈ l).
  { intros id. split; intros [s Hs]; exists s; [rewrite Hp; by apply elem_of_map_to_list|]. rewrite Hp in Hs. by apply elem_of_map_to_list. }
  destruct (load_spec (idle_timeout_ms c) now l ∅ 0 0 Hnd HF) as (loaded & dropped & ml & Es & Hk & Hml & Hmax & Hleast).
  assert (Hloaded : loaded = filter (λ e, too_old (idle_timeout_ms c) now e.2 = false) (sessions m)).
  { apply map_eq. intros k. rewrite Hk, Hlm, lookup_empty. rewrite map_lookup_filter. destruct (sessions m !! k) as [s|]; [|done]. cbn [mbind option_bind snd].
    destruct (too_old (idle_timeout_ms c) now s); [by rewrite option_guard_False|by rewrite option_guard_True]. }
  unfold load_from_disk_at. cbn [config set_files with_limits_and_owner sessions_file]. rewrite Hd, Eb, El. cbn [negb].
  cbn [snapshot_file sf_sessions sf_next_id]. fold l. rewrite Es.
  set (m3 := if 0 <? dropped then _ else _).
  assert (H3 : sessions m3 = loaded ∧ next_id m3 = restored_next_id (owner_node_id c) (next_id m) ml)
    by (unfold m3; case_match; frames; split; (done || (f_equal; case_match; by frames))).
  assert (H4 : ∀ x, sessions (load_mirrors_from_disk_at now x) = sessions x ∧ next_id (load_mirrors_from_disk_at now x) = next_id x).
  { intros x. unfold load_mirrors_from_disk_at. repeat case_match; frames; done. }
  destruct (H4 m3) as [-> ->]. destruct H3 as [-> ->]. split; [done|]. intros Hloc.
  assert (ml < last_local (owner_node_id c)) as Hlt.
  { cut (ml ≤ last_local (owner_node_id c) - 1); [lia|]. apply Hleast; [unfold last_local; case_match; lia|]. intros [id s] Hin. cbn [fst].
    specialize (Hloc id (proj2 (Hmem id) ltac:(by exists s))). lia. }
  destruct (restored_next (owner_node_id c) (next_id m) ml) as (R1 & R2 & _); [lia|lia|done|]. split; [done|].
  intros id Hid. apply Hmem in Hid as [s Hin]. specialize (Hmax _ Hin). cbn [fst] in Hmax. lia.
Qed.

End restart.

(** ** Omitted partitions *)

(** The offsets a client was last told for a partition. *)
Fixpoint last_note (key : string) (part : Z) (ops : list SessionOp) : option (Z * Z) :=
  match ops with
  | [] => None
  | op :: ops =>
    match last_note key part ops with
    | Some n => Some n
    | None =>
      match op with
      | OpNote k p hwm lso => if String.eqb k key && (p =? part) then Some (hwm, lso) else None
      | _ => None
      end
    end
  end.

Lemma last_note_snoc key part ops op :
  last_note key part (ops ++ [op]) = match last_note key part [op] with Some n => Some n | None => last_note key part ops end.
Proof.
  induction ops as [|o ops IH]; cbn [app]; [by destruct (last_note key part [op])|].
  change (last_note key part (o :: ops ++ [op])) with
    (match last_note key part (ops ++ [op]) with Some n => Some n | None => last_note key part [o] end).
  change (last_note key part (o :: ops)) with (match last_note key part ops with Some n => Some n | None => last_note key part [o] end).
  rewrite IH. by destruct (last_note key part [op]).
Qed.

(** Partitions as a request names them: nothing returned yet. *)
Definition fresh_topics (topics : gmap string SessionTopic) : Prop :=
  map_Forall (λ _ t, map_Forall (λ _ q, sp_last_hwm q = None ∧ sp_last_lso q = None) (st_partitions t)) topics.

Definition fresh_op (op : SessionOp) : Prop := match op with OpMerge topics => fresh_topics topics | _ => True end.

(** What a partition remembers is what the client was told last. *)
Definition remembers (ops : list SessionOp) (topics : gmap string SessionTopic) : Prop :=
  ∀ key t part q, topics !! key = Some t → st_partitions t !! part = Some q →
    sp_last_hwm q = None ∧ sp_last_lso q = None ∨
    ∃ h l, sp_last_hwm q = Some h ∧ sp_last_lso q = Some l ∧ last_note key part ops = Some (h, l).

Lemma remembers_merge ops topics new :
  fresh_topics new → remembers ops topics → remembers ops (fold_entries merge_topic new topics).
Proof.
  intros Hn Hr key t part q. rewrite fold_entries_lookup. destruct (new !! key) as [nt|] eqn:En; [|by apply Hr].
  intros [= <-]. cbn [merge_topic st_partitions]. rewrite fold_entries_lookup. destruct (st_partitions nt !! part) as [nq|] eqn:Eq.
  - intros [= <-]. destruct (Hn key nt En part nq Eq) as [N1 N2]. unfold merge_partition. rewrite N1.
    destruct (topics !! key) as [ot|] eqn:Eo; cbn [default from_option id st_partitions]; [|by rewrite lookup_empty; left].
    destruct (st_partitions ot !! part) as [oq|] eqn:Eoq; [|by left]. apply (Hr key ot part oq Eo Eoq).
  - destruct (topics !! key) as [ot|] eqn:Eo; cbn [default from_option id st_partitions]; [|by rewrite lookup_empty]. by apply Hr.
Qed.

Lemma remembers_sub ops (topics topics' : gmap string SessionTopic) :
  (∀ key t part q, topics' !! key = Some t → st_partitions t !! part = Some q →
     ∃ t0, topics !! key = Some t0 ∧ st_partitions t0 !! part = Some q) → remembers ops topics → remembers ops topics'.
Proof. intros Hsub Hr key t part q Ht Hq. destruct (Hsub key t part q Ht Hq) as (t0 & Ht0 & Hq0). by apply (Hr key t0). Qed.

Lemma remembers_forget ops fs : ∀ topics, remembers ops topics → remembers ops (foldl forget_entry topics fs).
Proof.
  induction fs as [|[k ps] fs IH]; intros topics Hr; [done|]. cbn [foldl]. apply IH. eapply remembers_sub; [|exact Hr].
  intros key t part q. unfold forget_entry. cbn [fst snd].
  assert (Hdel : delete k topics !! key = Some t → st_partitions t !! part = Some q → ∃ t0, topics !! key = Some t0 ∧ st_partitions t0 !! part = Some q).
  { intros [_ Ht]%lookup_delete_Some Hq. eauto. }
  destruct ps as [|p ps]; [done|]. destruct (topics !! k) as [kt|] eqn:Ek; [|eauto]. case_bool_decide; [done|].
  intros [[<- <-]|[_ Ht]]%lookup_insert_Some Hq; [|eauto]. exists kt. split; [done|]. cbn [st_partitions] in Hq. rewrite foldl_delete in Hq.
  by case_decide.
Qed.

Lemma remembers_note ops key t part q hwm lso topics :
  topics !! key = Some t → st_partitions t !! part = Some q → remembers ops topics →
  let q' := mkSessionPartition (sp_fetch_offset q) (sp_current_leader_epoch q) (sp_last_fetched_epoch q) (sp_max_bytes q) (Some hwm) (Some lso) in
  remembers (ops ++ [OpNote key part hwm lso]) (<[key := mkSessionTopic (st_wire t) (st_name t) (<[part := q']> (st_partitions t))]> topics).
Proof.
  intros Ht Hq Hr q' key' t' part' x Hk Hx.
  assert (Hsame : key' = key → part' = part → last_note key' part' (ops ++ [OpNote key part hwm lso]) = Some (hwm, lso)).
  { intros -> ->. rewrite last_note_snoc. cbn [last_note]. by rewrite String.eqb_refl, Z.eqb_refl. }
  assert (Hother : key' ≠ key ∨ part' ≠ part → last_note key' part' (ops ++ [OpNote key part hwm lso]) = last_note key' part' ops).
  { intros Hne. rewrite last_note_snoc. cbn [last_note]. destruct (String.eqb_spec key key') as [->|]; cbn [andb]; [|done].
    destruct (Z.eqb_spec part part') as [->|]; [|done]. by destruct Hne. }
  apply lookup_insert_Some in Hk as [[<- <-]|[Hne Hk]].
  - cbn [st_partitions] in Hx. apply lookup_insert_Some in Hx as [[<- <-]|[Hne Hx]]; [right; exists hwm, lso; by rewrite Hsame|].
    rewrite Hother by (right; by apply not_eq_sym). by apply (Hr key t).
  - rewrite Hother by (left; by apply not_eq_sym). by apply (Hr key' t').
Qed.

Section omit.
Context `{SessionJson}.

Lemma other_note key part ops op : (∀ k p h l, op ≠ OpNote k p h l) → last_note key part (ops ++ [op]) = last_note key part ops.
Proof. intros Hop. rewrite last_note_snoc. destruct op; try done. by edestruct Hop. Qed.

Lemma remembers_other ops op topics : (∀ k p h l, op ≠ OpNote k p h l) → remembers ops topics → remembers (ops ++ [op]) topics.
Proof. intros Hop Hr key t part q Ht Hq. rewrite other_note by done. by apply (Hr key t). Qed.

(** One operation of a client on a session without a mirror here. *)
Lemma remembers_op id op ops m s' :
  0 < id → fresh_op op → mirrors m !! id = None → (∀ s, sessions m !! id = Some s → remembers ops (fs_topics s)) →
  mirrors (run_op id op m) !! id = None ∧ (sessions (run_op id op m) !! id = Some s' → remembers (ops ++ [op]) (fs_topics s')).
Proof.
  intros Hid Hf Hm Hr. destruct op as [epoch now|topics|fs|key part hwm lso]; cbn [run_op fresh_op] in *.
  - unfold begin_incremental_from_any_at. destruct (evict_idle_spec now m) as [A1 A2 A3 A4 _]. set (m1 := evict_idle_locked now m) in *.
    set (b := negb _). assert (Hb : ∀ b : bool, mirrors (if b then persist m1 else m1) = mirrors m ∧ sessions (if b then persist m1 else m1) = live now m)
      by (intros []; frames; done). destruct (Hb b) as [B1 B2]. rewrite A2.
    assert (Hlive : ∀ s, live now m !! id = Some s → remembers (ops ++ [OpBegin epoch now]) (fs_topics s)).
    { intros s Hs. apply remembers_other; [done|]. apply Hr. by eapply lookup_weaken, live_subset. }
    destruct (live now m !! id) as [s|] eqn:El.
    + destruct (negb (fs_epoch s =? epoch)); cbn [snd].
      * rewrite B1, B2, El. split; [done|]. intros [= <-]. by apply Hlive.
      * frames. rewrite A3, lookup_insert_eq. split; [done|]. intros [= <-]. by apply (Hlive s).
    + rewrite B1, Hm. cbn [snd]. rewrite B1, B2, El. done.
  - unfold merge_topics, update_session. destruct (sessions m !! id) as [s|] eqn:Es; [|rewrite Hm; by rewrite Es].
    frames. split; [done|]. rewrite lookup_insert_eq. intros [= <-]. apply remembers_other; [done|]. apply remembers_merge; [done|by apply Hr].
  - unfold forget, update_session. destruct (_ || _); [split; [done|]; intros Hs; apply remembers_other; [done|by apply Hr]|].
    destruct (sessions m !! id) as [s|] eqn:Es; [|rewrite Hm; by rewrite Es].
    frames. split; [done|]. rewrite lookup_insert_eq. intros [= <-]. apply remembers_other; [done|]. apply remembers_forget. by apply Hr.
  - unfold note_returned. rewrite (proj2 (Z.eqb_neq id 0)) by lia. destruct (sessions m !! id) as [s|] eqn:Es; [|rewrite Hm; by rewrite Es].
    specialize (Hr s eq_refl). unfold note_returned_into.
    assert (Hno : (∀ t q, fs_topics s !! key = Some t → st_partitions t !! part ≠ Some q) → remembers (ops ++ [OpNote key part hwm lso]) (fs_topics s)).
    { intros Hno k t p q Ht Hq. rewrite last_note_snoc. cbn [last_note]. destruct (String.eqb_spec key k) as [->|]; cbn [andb]; [|by apply (Hr k t)].
      destruct (Z.eqb_spec part p) as [->|]; [|by apply (Hr k t)]. by edestruct Hno. }
    destruct (fs_topics s !! key) as [t|] eqn:Et; cbn [mbind option_bind]; [|split; [done|]; rewrite Es; intros [= <-]; by apply Hno].
    destruct (st_partitions t !! part) as [q|] eqn:Eq; cbn [mbind option_bind].
    + frames. split; [done|]. rewrite lookup_insert_eq. intros [= <-]. by apply remembers_note.
    + split; [done|]. rewrite Es. intros [= <-]. apply Hno. intros t' q Ht'. assert (t' = t) as -> by congruence. by rewrite Eq.
Qed.

(** C22: What is left out of a response. Whatever requests and responses a client
    and a broker have exchanged in a session: a partition is left out of the next
    response only if there is nothing to return and the client was told exactly
    these offsets last. *)
Theorem omit_sound id m s0 ops s key t part q hwm lso empty err :
  0 < id → sessions m !! id = Some s0 → fresh_topics (fs_topics s0) → mirrors m !! id = None → Forall fresh_op ops →
  sessions (foldl (λ m op, run_op id op m) m ops) !! id = Some s → fs_topics s !! key = Some t → st_partitions t !! part = Some q →
  should_omit_unchanged q hwm lso empty err = true →
  empty = true ∧ err = 0 ∧ last_note key part ops = Some (hwm, lso).
Proof.
  intros Hid Hs0 Hf Hm Hops Hs Ht Hq Ho.
  assert (Hinv : mirrors (foldl (λ m op, run_op id op m) m ops) !! id = None ∧
    ∀ s, sessions (foldl (λ m op, run_op id op m) m ops) !! id = Some s → remembers ops (fs_topics s)).
  { clear Hs Ht Hq Ho. induction ops as [|op ops IH] using rev_ind.
    - split; [done|]. cbn [foldl]. intros s' Hs'. assert (s' = s0) as -> by congruence. intros k t' p q' Ht' Hq'. left. by apply (Hf k t' Ht' p q').
    - apply Forall_app in Hops as [Hops [Hop _]%Forall_cons]. destruct (IH Hops) as [I1 I2]. rewrite foldl_app. cbn [foldl].
      set (m1 := foldl _ m ops) in *. split; [exact (proj1 (remembers_op id op ops m1 s0 Hid Hop I1 I2))|].
      intros s'. exact (proj2 (remembers_op id op ops m1 s' Hid Hop I1 I2)). }
  destruct Hinv as [_ Hinv]. destruct (Hinv s Hs key t part q Ht Hq) as [[N1 N2]|(h & l & N1 & N2 & Hn)]; unfold should_omit_unchanged in Ho; rewrite N1, ?N2 in Ho.
  - by destruct (_ || _).
  - destruct (Z.eqb_spec err 0) as [->|]; cbn [negb orb] in Ho; [|done]. destruct empty; cbn [negb] in Ho; [|done].
    apply andb_true_iff in Ho as [->%Z.eqb_eq ->%Z.eqb_eq]. done.
Qed.

(** ** Which partitions a request is answered for *)

(** An incremental request that names topics is answered for these alone,
    and one that names none for the whole session: whatever topics [req] names, a
    topic of the session that is not among them is not in the response, and the
    session still has it. *)
Theorem partial_request_hides_rest version id epoch req order forgotten now m r m' k :
  7 ≤ version → id ≠ 0 → epoch ≠ FINAL_EPOCH → epoch ≠ INITIAL_EPOCH →
  fetch_session_request version id epoch req order forgotten now m = (inl r, m') →
  (req = ∅ → sr_topics r = snapshot_topics id m' ∧ sr_omit_unchanged r = true) ∧
  (req ≠ ∅ → req !! k = None → sr_topics r !! k = None).
Proof.
  intros Hv Hid Hf Hi. unfold fetch_session_request. rewrite (proj2 (Z.ltb_ge _ _)), (proj2 (Z.eqb_neq epoch FINAL_EPOCH)), (proj2 (Z.eqb_neq epoch INITIAL_EPOCH)), (proj2 (Z.eqb_neq id 0)) by done.
  cbn [orb]. destruct (begin_incremental_from_any_at id epoch now m) as [[[]|e] m1]; [|done]. case_bool_decide as He; intros [= <- <-]; by split.
Qed.

End omit.

(** * Concrete inputs for the theorems on fetch sessions

    A text form of the snapshots in place of JSON, two small brokers, and the
    theorems at them. *)

From stdpp Require Import countable.
#[local] Open Scope Z_scope.

(** ** Snapshots as text *)

#[local] Instance StoredSessionPartition_eq_dec : EqDecision StoredSessionPartition.
Proof. solve_decision. Defined.
#[local] Instance StoredSessionTopic_eq_dec : EqDecision StoredSessionTopic.
Proof. solve_decision. Defined.
#[local] Instance StoredFetchSession_eq_dec : EqDecision StoredFetchSession.
Proof. solve_decision. Defined.
#[local] Instance StoredFetchSessionsFile_eq_dec : EqDecision StoredFetchSessionsFile.
Proof. solve_decision. Defined.

#[local] Instance StoredSessionPartition_countable : Countable StoredSessionPartition.
Proof.
  refine (inj_countable' (λ p, (sd_id p, sd_fetch_offset p, sd_current_leader_epoch p, sd_last_fetched_epoch p, sd_max_bytes p, sd_last_hwm p, sd_last_lso p))
    (λ '(a, b, c, d, e, f, g), mkStoredPartition a b c d e f g) _). by intros [].
Defined.
#[local] Instance StoredSessionTopic_countable : Countable StoredSessionTopic.
Proof.
  refine (inj_countable' (λ t, (sd_key t, sd_wire_kind t, sd_wire_name t, sd_wire_uuid_hex t, sd_name t, sd_partitions t))
    (λ '(a, b, c, d, e, f), mkStoredTopic a b c d e f) _). by intros [].
Defined.
#[local] Instance StoredFetchSession_countable : Countable StoredFetchSession.
Proof.
  refine (inj_countable' (λ s, (ss_id s, ss_epoch s, ss_last_activity_ms s, ss_mirror_gen s, ss_promoted_by s, ss_from_mirror s, ss_mode s, ss_remove_topic_keys s, ss_topics s))
    (λ '(a, b, c, d, e, f, g, h, i), mkStoredSession a b c d e f g h i) _). by intros [].
Defined.
#[local] Instance StoredFetchSessionsFile_countable : Countable StoredFetchSessionsFile.
Proof.
  refine (inj_countable' (λ f, (sf_version f, sf_next_id f, sf_sessions f)) (λ '(a, b, c), mkStoredFile a b c) _). by intros [].
Defined.

(** Digits of a positive number, between two ones. *)
Fixpoint digits (p : positive) : bytes :=
  match p with xH => [x31] | xO p => x30 :: digits p | xI p => x31 :: digits p end.

Fixpoint of_digits (b : bytes) : option positive :=
  match b with
  | [] => None
  | [_] => Some xH
  | d :: b => p ← of_digits b; Some (if bool_decide (d = x30) then xO p else xI p)
  end.

Lemma digits_last p : ∃ l, digits p = l ++ [x31].
Proof. induction p as [p [l E]|p [l E]|]; cbn [digits]; [exists (x31 :: l)|exists (x30 :: l)|by exists []]; by rewrite E. Qed.

Lemma of_digits_digits p : of_digits (digits p) = Some p.
Proof.
  induction p as [p IH|p IH|]; [..|done]; cbn [digits of_digits]; destruct (digits_last p) as [l El];
    (destruct (digits p) as [|d ds] eqn:E; [by destruct l|]); by rewrite IH.
Qed.

Definition write_text {A} `{Countable A} (x : A) : option bytes := Some (x31 :: digits (encode x)).
Definition read_text {A} `{Countable A} (b : bytes) : option A := p ← of_digits (tail b); decode p.

Lemma text_roundtrip {A} `{Countable A} (x : A) : ∃ b, write_text x = Some b ∧ read_text b = Some x ∧ trim_bytes b ≠ [].
Proof.
  eexists. split; [done|]. split.
  - unfold read_text. cbn [tail]. rewrite of_digits_digits. cbn [mbind option_bind]. apply decode_encode.
  - unfold trim_bytes. cbn [length strip_all]. change (strip_any white_space (x31 :: digits (encode x))) with (@None bytes). cbn iota.
    destruct (digits_last (encode x)) as [l ->]. cbn [length strip_all rev]. rewrite rev_app_distr. cbn [rev app].
    change (strip_any (map (@rev Z) white_space) (x31 :: rev l ++ [x31])) with (@None bytes). cbn iota.
    intros E%(f_equal (@length _)). rewrite length_rev in E. done.
Qed.

#[local] Instance text_json : SessionJson := {
  session_to_vec := write_text; session_from_slice := read_text; file_to_string := write_text; file_from_str := read_text }.

#[local] Instance text_laws : SessionJsonLaws.
Proof.
  split.
  - intros st. destruct (text_roundtrip st) as (b & ? & ? & _). by exists b.
  - intros f. apply text_roundtrip.
Qed.

(** ** Two brokers *)

Definition demo_session_config (owner : Z) : SessionConfig := mkSessionConfig 60000 2 owner true false true true true false true.

Definition demo_partition : SessionPartition := session_partition_new 10 (-1) (-1) 1048576.
Definition demo_topics : gmap string SessionTopic := {[ "a"%string := mkSessionTopic (Name "a") "a" {[ 0 := demo_partition ]} ]}.
Definition more_topics : gmap string SessionTopic := {[ "b"%string := mkSessionTopic (Name "b") "b" {[ 1 := demo_partition ]} ]}.

Definition demo_session : FetchSession := mkFetchSession 1 demo_topics 5000 1 0.

Definition demo_manager (owner : Z) : FetchSessionManager := with_limits_and_owner (demo_session_config owner).
Definition demo_owner : FetchSessionManager := set_next_id 4 (set_sessions {[ 3 := demo_session ]} (demo_manager 1)).

Lemma demo_topics_ok : topics_ok demo_topics.
Proof. by apply map_Forall_singleton. Qed.
Lemma more_topics_ok : topics_ok more_topics.
Proof. by apply map_Forall_singleton. Qed.

Lemma create_exact_witness :
  ∃ id m' kept, create_at demo_topics 6000 demo_owner = (Some id, m') ∧ 0 < id ≤ 2147483647 ∧
    sessions m' = <[id := mkFetchSession 1 demo_topics 6000 1 0]> kept.
Proof.
  destruct (create_exact demo_topics 6000 demo_owner) as (id & m' & kept & E & Hid & Hs & _); [cbn; lia|reflexivity|cbn; lia|].
  by exists id, m', kept.
Defined.

Lemma epochs_in_order_witness :
  ∃ m', begin_incremental_from_any_at 3 1 6000 demo_owner = (inl tt, m') ∧
    (begin_incremental_from_any_at 3 1 7000 m').1 = inr 71 ∧ (begin_incremental_from_any_at 3 2 7000 m').1 = inl tt.
Proof.
  pose proof (epochs_in_order 3 1 6000 7000 demo_owner) as Hth. destruct Hth as (m' & E & _ & E1 & E2).
  - cbn. lia.
  - reflexivity.
  - reflexivity.
  - split; [lia|]. right. cbn. lia.
  - lia.
  - by exists m'.
Defined.

Lemma mirror_follows_owner_witness :
  ∃ s', sessions (merge_topics 3 more_topics demo_owner) !! 3 = Some s' ∧
    let '(o', p') := deliver 3 (merge_topics 3 more_topics demo_owner) (demo_manager 2) in
    sessions o' !! 3 = Some s' ∧ mirrors p' !! 3 = Some s'.
Proof.
  apply (mirror_follows_owner 3 demo_owner (demo_manager 2) (merge_topics 3 more_topics demo_owner, demo_manager 2) demo_session).
  - lia.
  - reflexivity.
  - exact demo_topics_ok.
  - reflexivity.
  - reflexivity.
  - reflexivity.
  - apply rtc_once. apply (ms_request 3 demo_owner (demo_manager 2) (OpMerge more_topics) demo_session); [exact more_topics_ok|reflexivity|reflexivity|].
    cbn [run_op]. unfold merge_topics, update_session. cbn [sessions demo_owner set_sessions set_next_id]. rewrite lookup_singleton_eq. frames.
    rewrite lookup_insert_eq. by eexists.
Defined.

Lemma lost_put_loses_topics_witness :
  let o1 := (fanout_requests [Put 3] demo_owner).2 in
  let '(o2, p2) := deliver 3 (merge_topics 3 more_topics o1) (demo_manager 2) in
  ∃ s2 c, sessions o2 !! 3 = Some s2 ∧ mirrors p2 !! 3 = Some c ∧
    fs_mirror_gen c = fs_mirror_gen s2 ∧ fs_epoch c = fs_epoch s2 ∧
    fs_topics s2 !! "a"%string = Some (mkSessionTopic (Name "a") "a" {[ 0 := demo_partition ]}) ∧ fs_topics c !! "a"%string = None.
Proof.
  apply (lost_put_loses_topics 3 demo_owner (demo_manager 2) demo_session more_topics "a" (mkSessionTopic (Name "a") "a" {[ 0 := demo_partition ]}));
    [lia|reflexivity|exact demo_topics_ok|exact more_topics_ok|reflexivity..].
Defined.

Definition demo_other : FetchSessionManager :=
  set_sessions {[ 3 := mkFetchSession 2 demo_topics 5000 2 0 ]} (demo_manager 2).

Lemma primaries_converge_witness :
  ∃ a', converge_dual_epoch_pair 3 demo_owner demo_other = (true, a', demo_other) ∧ sessions a' = delete 3 (sessions demo_owner) ∧
    mirrors a' !! 3 = Some (mkFetchSession 2 demo_topics 5000 2 0).
Proof.
  apply (primaries_converge 3 demo_owner demo_other demo_session (mkFetchSession 2 demo_topics 5000 2 0)); [reflexivity..|]. left. cbn. lia.
Defined.

Lemma restart_restores_witness :
  let m' := open_with_limits_and_owner (demo_session_config 1) (sessions_file (persist demo_owner)) None 9000 in
  sessions m' = filter (λ e, too_old 60000 9000 e.2 = false) (sessions demo_owner).
Proof.
  apply (restart_restores demo_owner (demo_session_config 1) 9000); [|reflexivity|cbn; lia]. split; [|reflexivity..].
  apply map_Forall_singleton. split; [lia|exact demo_topics_ok].
Defined.

Lemma omit_sound_witness :
  last_note "a" 0 [OpBegin 1 6000; OpNote "a" 0 12 11; OpBegin 2 7000] = Some (12, 11).
Proof.
  set (ops := [OpBegin 1 6000; OpNote "a" 0 12 11; OpBegin 2 7000]).
  set (m1 := set_sessions {[ 3 := demo_session ]} (with_limits_and_owner (mkSessionConfig 60000 2 1 true false true true false false true))).
  set (q := mkSessionPartition 10 (-1) (-1) 1048576 (Some 12) (Some 11)).
  destruct (omit_sound 3 m1 demo_session ops (mkFetchSession 3 {[ "a"%string := mkSessionTopic (Name "a") "a" {[ 0 := q ]} ]} 7000 4 0)
    "a" (mkSessionTopic (Name "a") "a" {[ 0 := q ]}) 0 q 12 11 true 0) as (_ & _ & Hn).
  - lia.
  - reflexivity.
  - apply map_Forall_singleton, map_Forall_singleton. done.
  - reflexivity.
  - repeat constructor.
  - vm_compute. reflexivity.
  - reflexivity.
  - reflexivity.
  - reflexivity.
  - exact Hn.
Defined.

Lemma partial_request_hides_rest_witness :
  ∃ r m', fetch_session_request 12 3 1 more_topics ["b"%string] [] 6000 demo_owner = (inl r, m') ∧ sr_topics r !! "a"%string = None.
Proof.
  destruct (fetch_session_request 12 3 1 more_topics ["b"%string] [] 6000 demo_owner) as [[r|e] m'] eqn:E; [|exfalso; revert E].
  - exists r, m'. split; [reflexivity|].
    apply (partial_request_hides_rest 12 3 1 more_topics ["b"%string] [] 6000 demo_owner r m' "a"); [lia|lia|discriminate|discriminate|exact E|discriminate|reflexivity].
  - destruct (incremental_spec 3 1 6000 demo_owner) as (m2 & E2 & _); [cbn; lia|reflexivity|].
    unfold fetch_session_request. rewrite E2. discriminate.
Defined.
