(* ===== verification/BrokerLog.v ===== *)
(** * What the broker needs of a partition log

    The broker appends, flushes, reads and truncates; [LogStore] has those
    operations and [LogStoreLaws] what the broker relies on, in terms of the
    records the log holds.  [PartitionLog] of [volant-storage] implements
    them. *)

From S2P Require Import Prelude Bytes Core Record SparseIndex Segment SegmentProps GroupCommit PartitionLog PartitionLogProps LogRetention.

Class LogStore (L : Type) := {
  ls_append_batch : list Message → Z → L → result (list LogRecord) * L;
  ls_append_batch_uncommitted : list Message → Z → L → result (list LogRecord) * L;
  ls_append_records : list LogRecord → Z → L → result (list LogRecord) * L;
  ls_group_commit_enabled : L → bool;
  ls_has_uncommitted : L → bool;
  ls_flush : L → result unit * L;
  ls_await : Z → L → result unit * L;
  ls_read : Z → Z → L → result (list LogRecord);
  ls_read_bytes : Z → Z → Z → L → result (list LogRecord);
  ls_delete : Z → Z → L → result Z * L;
  ls_start : L → Z;
  ls_end : L → Z;
}.

(** [PartitionLog]; [ls_await] registers a waiter and waits or leads. *)
#[export] Instance partition_log_store `{Crc32} (plat : Platform) : LogStore PartitionLog := {|
  ls_append_batch := append_batch plat;
  ls_append_batch_uncommitted := append_batch_uncommitted plat;
  ls_append_records := append_records_with_offsets plat;
  ls_group_commit_enabled := group_commit_enabled;
  ls_has_uncommitted := has_uncommitted;
  ls_flush := PartitionLog.flush;
  ls_await := await_group_commit;
  ls_read := PartitionLog.read;
  ls_read_bytes := read_bytes;
  ls_delete := delete_records plat;
  ls_start := log_start_offset;
  ls_end := high_watermark;
|}.

(** What an append asks: messages the format can hold, a clock in range. *)
Definition clock_ok (now : Z) : Prop := i64_min ≤ now ≤ i64_max.
Definition batch_ok (ms : list Message) (now : Z) : Prop := clock_ok now ∧ Forall message_ts_ok ms.

(** How many of the records are next in line at [next]. *)
Fixpoint in_line (next : Z) (rs : list LogRecord) : nat :=
  match rs with
  | r :: rs => if rec_offset r =? next then S (in_line (next + 1) rs) else O
  | [] => O
  end.

Class LogStoreLaws (L : Type) `{LogStore L} := {
  ls_rep : L → list LogRecord → Prop;
  (* room for so many more records and flushes *)
  ls_room : Z → L → Prop;
  ls_room_end : ∀ n l, ls_room n l → ls_end l + n ≤ u64_max;
  ls_room_mono : ∀ n m l, ls_room n l → m ≤ n → ls_room m l;
  ls_offsets : ∀ l recs, ls_rep l recs →
    0 ≤ ls_start l ≤ ls_end l ∧ Forall (λ r, ls_start l ≤ rec_offset r < ls_end l) recs;
  ls_records : ∀ l recs, ls_rep l recs → Forall record_ok recs;
  ls_sorted : ∀ l recs, ls_rep l recs → StronglySorted off_lt recs;
  ls_append_batch_ok : ∀ l recs ms now,
    ls_rep l recs → ls_room (zlen ms) l → batch_ok ms now →
    ∃ l', ls_append_batch ms now l = (Ok (batch_records (ls_end l) now ms), l') ∧
      ls_rep l' (recs ++ batch_records (ls_end l) now ms) ∧
      ls_end l' = ls_end l + zlen ms ∧ ∀ n, ls_room (zlen ms + 1 + n) l → ls_room n l';
  ls_append_uncommitted_ok : ∀ l recs ms now,
    ls_rep l recs → ls_room (zlen ms) l → batch_ok ms now →
    ∃ l', ls_append_batch_uncommitted ms now l = (Ok (batch_records (ls_end l) now ms), l') ∧
      ls_rep l' (recs ++ batch_records (ls_end l) now ms) ∧
      ls_end l' = ls_end l + zlen ms ∧ ∀ n, ls_room (zlen ms + 1 + n) l → ls_room n l';
  (* the records next in line are stored, the first other one is refused *)
  ls_append_records_ok : ∀ l recs rs now,
    ls_rep l recs → Forall record_ok rs → ls_room (zlen rs) l → clock_ok now →
    let k := in_line (ls_end l) rs in
    ∃ r l', ls_append_records rs now l = (r, l') ∧ ls_rep l' (recs ++ take k rs) ∧
      ls_end l' = ls_end l + Z.of_nat k ∧ (k = length rs → r = Ok rs) ∧ (k ≠ length rs → is_err r = true) ∧
      ∀ n, ls_room (Z.of_nat k + n) l → ls_room n l';
  ls_flush_ok : ∀ l recs, ls_rep l recs →
    ∃ l', ls_flush l = (Ok tt, l') ∧ ls_rep l' recs ∧ ls_end l' = ls_end l ∧
      ∀ n, 0 ≤ n → ls_room (1 + n) l → ls_room n l';
  ls_await_ok : ∀ l recs now, ls_rep l recs → ls_group_commit_enabled l = true → ls_room 0 l →
    ∃ l', ls_await now l = (Ok tt, l') ∧ ls_rep l' recs ∧ ls_end l' = ls_end l ∧
      ∀ n, ls_room (1 + n) l → ls_room n l';
  ls_read_ok : ∀ l recs from mm, ls_rep l recs → 0 ≤ mm →
    ls_read from mm l = Ok (take (Z.to_nat mm) (filter (λ r, from ≤ rec_offset r) recs));
  (* a limit on the bytes leaves records out, but never the first *)
  ls_read_bytes_ok : ∀ l recs from mm mb, ls_rep l recs → 0 < mm →
    ∃ rs, ls_read_bytes from mm mb l = Ok rs ∧
      rs `sublist_of` filter (λ r, from ≤ rec_offset r) recs ∧
      head rs = head (filter (λ r, from ≤ rec_offset r) recs);
  (* appending and flushing never move the start *)
  ls_append_batch_start : ∀ ms now l, ls_start (ls_append_batch ms now l).2 = ls_start l;
  ls_append_uncommitted_start : ∀ ms now l, ls_start (ls_append_batch_uncommitted ms now l).2 = ls_start l;
  ls_flush_start : ∀ l, ls_start (ls_flush l).2 = ls_start l;
  ls_await_start : ∀ now l, ls_start (ls_await now l).2 = ls_start l;
  ls_delete_ok : ∀ l recs before now, ls_rep l recs → clock_ok now →
    ∃ l' recs', ls_delete before now l = (Ok (ls_start l'), l') ∧ ls_rep l' recs' ∧
      ls_start l ≤ ls_start l' ∧
      recs' `suffix_of` recs ∧
      filter (λ r, before ≤ rec_offset r) recs' = filter (λ r, before ≤ rec_offset r) recs ∧
      ls_end l' = ls_end l;
}.

(** ** [PartitionLog] is such a log *)

Section partition_log.
Context `{Crc32} (plat : Platform).

(** Nobody leads a flush: the calls of one thread at a time. *)
Definition group_idle (g : GroupCommit) : Prop :=
  has_leader (state g) = false ∧ 0 ≤ flush_gen (state g).

Lemma group_idle_notify n g : group_idle g → group_idle (notify_flushed n g).
Proof. intros [Hl Hg]. split; [done|]. cbn. by apply Z.mod_pos_bound. Qed.

Lemma notify_gen n g : 0 ≤ flush_gen (state g) → flush_gen (state (notify_flushed n g)) ≤ flush_gen (state g) + 1.
Proof. intros Hg. apply Z.mod_le; [lia|done]. Qed.

Lemma finish_append_idle l recs n w now l' :
  log_rep plat l recs → group_ok (group l) → finish_append n w now l = (Ok tt, l') →
  group_idle (group l') ∧ flush_gen (state (group l')) ≤ flush_gen (state (group l)) + 1.
Proof.
  intros R G. assert (I : group_idle (group l)) by (destruct G as [? []]; done).
  unfold finish_append. set (l0 := set_appends _ _).
  assert (R0 : log_rep plat l0 recs) by by eapply log_rep_same.
  destruct (group_commit_enabled l0) eqn:Hen.
  - set (l1 := set_group _ _). assert (R1 : log_rep plat l1 recs) by by eapply log_rep_same.
    assert (G1 : group_ok (group l1)) by (unfold group_ok, l1, add_pending; cbn; by destruct (n =? 0)).
    assert (Hgen1 : flush_gen (state (group l1)) = flush_gen (state (group l)))
      by (unfold l1, add_pending; cbn; by destruct (n =? 0)).
    destruct w.
    + destruct (await_group_commit_ok plat l1 recs now R1 G1 Hen) as (l2 & E & _ & _ & _ & _ & Hf & Hl).
      rewrite E. intros [= <-]. rewrite Hgen1 in Hf. split; [split; [done|]|]; destruct G as [_ ?]; lia.
    + intros [= <-]. rewrite Hgen1. destruct G1 as [? []]. split; [done|lia].
  - destruct (_ && _).
    + destruct (flush_log_ok plat l0 recs R0) as (l2 & E & _ & _ & _ & _ & _ & Hg).
      rewrite E. intros [= <-]. rewrite Hg. split; [by apply group_idle_notify|apply notify_gen, I].
    + intros [= <-]. split; [done|]. cbn. lia.
Qed.

Definition pl_rep (l : PartitionLog) (recs : list LogRecord) : Prop :=
  log_rep plat l recs ∧ group_idle (group l).

Definition pl_room (n : Z) (l : PartitionLog) : Prop :=
  log_next_offset l + n ≤ u64_max ∧ flush_gen (state (group l)) + n < u64_max.

Lemma pl_group_ok l recs n : 0 ≤ n → pl_rep l recs → pl_room n l → group_ok (group l).
Proof. intros Hn (_ & ? & ?) [_ ?]. split; [done|]. lia. Qed.

Lemma pl_append_ok l recs ms w now :
  pl_rep l recs → pl_room (zlen ms) l → batch_ok ms now →
  ∃ l', append_batch_inner plat ms w now l = (Ok (batch_records (log_next_offset l) now ms), l') ∧
    pl_rep l' (recs ++ batch_records (log_next_offset l) now ms) ∧
    log_next_offset l' = log_next_offset l + zlen ms ∧ ∀ n, pl_room (zlen ms + 1 + n) l → pl_room n l'.
Proof.
  intros Rp Hroom [Hnow HF]. pose proof (zlen_nonneg ms) as Hz. pose proof (pl_group_ok _ _ _ Hz Rp Hroom) as G.
  destruct Rp as [R I]. destruct Hroom as [Hend _].
  destruct (append_batch_inner_ok plat l recs ms w now R G Hend Hnow HF) as (l' & E & R' & Hn & _).
  assert (HI : group_idle (group l') ∧ flush_gen (state (group l')) ≤ flush_gen (state (group l)) + 1).
  { destruct (append_each_ok plat ms l recs now R Hend Hnow HF) as (l1 & E1 & R1 & _ & _ & Hg1).
    unfold append_batch_inner in E. rewrite E1 in E. cbn [bind_st] in E.
    case_bool_decide; cbn [bind_st] in E; [simplify_eq; rewrite Hg1; split; [done|lia]|].
    destruct (finish_append _ _ _ _) as [[[]|e] l2] eqn:Ef; cbn [bind_st] in E; simplify_eq.
    rewrite <- Hg1. eapply (finish_append_idle l1); [done| |done]. by rewrite Hg1. }
  destruct HI as [HI Hgen]. exists l'. split; [done|]. split; [by split|]. split; [done|].
  intros n [H1 H2]. split; lia.
Qed.

Lemma append_one_group m now l r l' : append_one plat m now l = (r, l') → group l' = group l.
Proof.
  unfold append_one, roll. intros E.
  repeat (case_match; cbn [bind_st] in *; simplify_eq; try done).
Qed.

Lemma flush_idle l r l' : PartitionLog.flush l = (r, l') → group_idle (group l) → group_idle (group l').
Proof.
  unfold PartitionLog.flush. intros E I.
  destruct (update_last _ _) as [[[[]|e] segs]|]; cbn [bind_st] in E; simplify_eq; try done;
    by apply group_idle_notify.
Qed.

Lemma append_with_offset_idle off m now l r l' :
  append_with_offset plat off m now l = (r, l') → group_idle (group l) → group_idle (group l').
Proof.
  unfold append_with_offset. intros E I. destruct (negb _); [by simplify_eq|].
  destruct (append_one plat m now l) as [[r1|e] l1] eqn:E1; cbn [bind_st] in E;
    apply append_one_group in E1; [|by simplify_eq; rewrite E1].
  rewrite <- E1 in I. set (l2 := set_appends _ _) in E. assert (I2 : group_idle (group l2)) by done.
  destruct (group_commit_enabled l2); [by simplify_eq/=|].
  destruct (_ && _); [|by simplify_eq/=].
  destruct (PartitionLog.flush l2) as [[[]|e] l3] eqn:Ef; simplify_eq/=; by eapply flush_idle.
Qed.

Lemma append_with_offset_gen off m now l r l' :
  append_with_offset plat off m now l = (r, l') → group_idle (group l) →
  flush_gen (state (group l')) ≤ flush_gen (state (group l)) + 1.
Proof.
  unfold append_with_offset. intros E [_ I]. destruct (negb _); [simplify_eq; lia|].
  destruct (append_one plat m now l) as [[r1|e] l1] eqn:E1; cbn [bind_st] in E;
    apply append_one_group in E1; [|simplify_eq; rewrite E1; lia].
  set (l2 := set_appends _ _) in E. assert (E2 : group l2 = group l) by exact E1. clearbody l2.
  destruct (group_commit_enabled l2); [simplify_eq/=; unfold add_pending; cbn; rewrite E2; lia|].
  destruct (_ && _); [|simplify_eq/=; rewrite E2; lia].
  unfold PartitionLog.flush in E. destruct (update_last _ _) as [[[[]|e] segs]|]; cbn [bind_st] in E; simplify_eq/=;
    rewrite E2; try lia; pose proof (notify_gen (appends_since_flush l2) (group l) I) as Hn; cbn in Hn; lia.
Qed.

Lemma append_records_idle rs : ∀ now l r l',
  append_records_with_offsets plat rs now l = (r, l') → group_idle (group l) → group_idle (group l').
Proof.
  induction rs as [|r0 rs IH]; intros now l r l' E I; cbn [append_records_with_offsets] in E; [by simplify_eq|].
  destruct (append_with_offset _ _ _ _ _) as [[r1|e] l1] eqn:E1; cbn [bind_st] in E;
    apply append_with_offset_idle in E1; try done; [|by simplify_eq].
  destruct (append_records_with_offsets _ _ _ _) as [[rs2|e] l2] eqn:E2; cbn [bind_st] in E;
    simplify_eq; by eapply IH.
Qed.

Lemma delete_group before now l r l' : delete_records plat before now l = (r, l') → group l' = group l.
Proof.
  unfold delete_records. intros E. case_match; [by simplify_eq|].
  repeat (case_match; cbn [bind_st] in *; simplify_eq; try done).
Qed.

Lemma append_records_line rs : ∀ l recs now,
  log_rep plat l recs → group_idle (group l) → Forall record_ok rs → log_next_offset l + zlen rs ≤ u64_max → clock_ok now →
  let k := in_line (log_next_offset l) rs in
  ∃ r l', append_records_with_offsets plat rs now l = (r, l') ∧ log_rep plat l' (recs ++ take k rs) ∧
    log_next_offset l' = log_next_offset l + Z.of_nat k ∧ (k = length rs → r = Ok rs) ∧
    (k ≠ length rs → is_err r = true) ∧ flush_gen (state (group l')) ≤ flush_gen (state (group l)) + Z.of_nat k.
Proof.
  induction rs as [|r rs IH]; intros l recs now R I HF Hmax Hnow k.
  { exists (Ok []), l. unfold k. cbn. by rewrite app_nil_r, !Z.add_0_r. }
  apply Forall_cons in HF as [Hr HF]. rewrite zlen_cons in Hmax. pose proof (zlen_nonneg rs). unfold k. clear k.
  cbn [in_line append_records_with_offsets]. destruct (Z.eqb_spec (rec_offset r) (log_next_offset l)) as [Ho|Ho].
  - destruct (append_with_offset_ok plat l recs r now R Hr Ho) as (l1 & E & R1 & Hn); [lia|done|].
    pose proof (append_with_offset_gen _ _ _ _ _ _ E I) as Hg1.
    destruct (IH l1 _ now R1) as (r' & l' & E' & R' & Hn' & Hk & Hk' & Hg); [by eapply append_with_offset_idle|done|lia|done|].
    rewrite E. cbn [bind_st]. rewrite E'. rewrite Hn in R', Hn', Hk, Hk', Hg.
    destruct r' as [rs'|e]; cbn [bind_st].
    + exists (Ok (r :: rs')), l'. rewrite <- app_assoc in R'. split; [done|]. split; [done|]. split; [lia|]. split_and!; [| |lia].
      * intros Hl. assert (Hl' : in_line (log_next_offset l + 1) rs = length rs) by (cbn in Hl; lia).
        by injection (Hk Hl') as ->.
      * intros Hl. exfalso. assert (is_err (Ok rs' : result (list LogRecord)) = true) as [=]. apply Hk'. cbn in Hl. lia.
    + exists (Err e), l'. rewrite <- app_assoc in R'. split; [done|]. split; [done|]. split; [lia|].
      split_and!; [|done|lia]. intros Hl. assert (Hl' : in_line (log_next_offset l + 1) rs = length rs) by (cbn in Hl; lia).
      by specialize (Hk Hl').
  - unfold append_with_offset. rewrite Zeqb_false by done. cbn. eexists _, l. rewrite app_nil_r, !Z.add_0_r. done.
Qed.

(** *** Reads with a byte limit *)

Lemma prefix_of_sublist {A} (l k : list A) : l `prefix_of` k → l `sublist_of` k.
Proof. intros [k' ->]. by apply sublist_inserts_r. Qed.

Lemma take_limited_prefix mb recs : ∀ mm n acc, take_limited mm mb n acc recs `prefix_of` recs.
Proof.
  induction recs as [|r recs IH]; intros mm n acc; cbn [take_limited]; [done|].
  destruct (n <? mm); [|apply prefix_nil].
  destruct (negb (n =? 0) && _ && _); [apply prefix_nil|]. by apply prefix_cons.
Qed.

Lemma take_limited_head mm mb acc recs : 0 < mm → head (take_limited mm mb 0 acc recs) = head recs.
Proof. intros Hm. destruct recs as [|r recs]; cbn [take_limited]; [done|]. by rewrite Zltb_true by done. Qed.

Lemma read_segments_limited mb segs cs from mm : ∀ out acc,
  Forall2 seg_inv segs cs → 0 < mm →
  ∃ rs, read_segments segs from mm mb out acc = Ok (out ++ rs) ∧
    rs `sublist_of` filter (λ r, from ≤ rec_offset r) (concat cs) ∧
    (out = [] → head rs = head (filter (λ r, from ≤ rec_offset r) (concat cs))).
Proof.
  intros out acc HF Hmm. revert out acc. induction HF as [|s c segs cs I HF IH]; intros out acc.
  { exists []. cbn. by rewrite app_nil_r. }
  cbn [read_segments concat]. rewrite filter_app.
  destruct (Z.leb_spec (next_offset s) from) as [Hn|Hn].
  { destruct (IH out acc) as (rs & -> & Hs & Hh). exists rs.
    rewrite (filter_none_below rec_offset c), app_nil_l; [done|].
    eapply Forall_impl; [apply (inv_hi _ _ I)|]. cbn. lia. }
  destruct (Z.leb_spec mm (zlen out)) as [Hfull|Hfull].
  { exists []. rewrite app_nil_r. split; [done|]. split; [apply sublist_nil_l|]. intros ->. rewrite zlen_nil in Hfull. lia. }
  destruct (negb (mb =? usize_max) && (mb <=? acc) && negb (bool_decide (out = []))) eqn:Eb.
  { exists []. rewrite app_nil_r. split; [done|]. split; [apply sublist_nil_l|]. intros ->.
    apply andb_prop in Eb as [_ Eb]. done. }
  rewrite (read_from_spec s c) by done. rewrite Zeqb_false by lia.
  set (f := filter _ c).
  assert (Hf : f = filter (λ r, from ≤ rec_offset r) c).
  { unfold f. destruct (Z.ltb_spec from (base_offset s)); [|done].
    apply filter_from_start; [apply (inv_lo _ _ I)|done]. }
  set (rb := if mb =? usize_max then usize_max else saturating_sub mb acc).
  pose proof (take_limited_prefix rb f (mm - zlen out) 0 0) as Hp.
  destruct (IH (out ++ take_limited (mm - zlen out) rb 0 0 f)
    (foldl (λ a r, u64_saturating_add a (approx_size r)) acc (take_limited (mm - zlen out) rb 0 0 f))) as (rs & -> & Hs & Hh).
  exists (take_limited (mm - zlen out) rb 0 0 f ++ rs). rewrite app_assoc. split; [done|]. rewrite <- Hf. split.
  - apply sublist_app; [by apply prefix_of_sublist|done].
  - intros ->. rewrite zlen_nil, Z.sub_0_r in *. pose proof (take_limited_head mm rb 0 f Hmm) as Hl.
    clearbody f. destruct (take_limited mm rb 0 0 f) as [|r0 rs0]; destruct f as [|r f']; try done.
    by apply Hh.
Qed.

Lemma read_bytes_ok l recs from mm mb :
  log_rep plat l recs → 0 < mm →
  ∃ rs, PartitionLog.read_bytes from mm mb l = Ok rs ∧ rs `sublist_of` filter (λ r, from ≤ rec_offset r) recs ∧
    head rs = head (filter (λ r, from ≤ rec_offset r) recs).
Proof.
  intros R Hmm. destruct (log_offsets plat l recs R) as (HF & Hlo & Hhi). unfold PartitionLog.read_bytes.
  set (from' := if from <? log_start_offset l then _ else _).
  assert (Hfl : filter (λ r, from' ≤ rec_offset r) recs = filter (λ r, from ≤ rec_offset r) recs).
  { unfold from'. destruct (Z.ltb_spec from (log_start_offset l)); [|done].
    apply filter_from_start; [|done]. eapply Forall_impl; [exact HF|]. cbn. lia. }
  destruct (Z.leb_spec (high_watermark l) from') as [Hh|Hh]; cbn [orb].
  { exists []. rewrite <- Hfl, filter_none_below; [done|].
    eapply Forall_impl; [exact HF|]. unfold high_watermark in Hh. cbn. lia. }
  rewrite Zeqb_false by lia. destruct R as (init & a & ci & ca & LI & ->).
  destruct (read_segments_limited mb _ _ from' mm [] 0 (log_inv_all _ _ _ _ _ _ LI) Hmm) as (rs & E & Hs & Hhd).
  rewrite concat_app in Hs, Hhd. cbn [concat] in Hs, Hhd. rewrite app_nil_r in Hs, Hhd. rewrite Hfl in Hs, Hhd.
  exists rs. split; [exact E|]. split; [exact Hs|by apply Hhd].
Qed.

Lemma log_records_ok l recs : log_rep plat l recs → Forall record_ok recs.
Proof.
  intros (init & a & ci & ca & LI & ->).
  replace (concat ci ++ ca) with (concat (ci ++ [ca])) by (rewrite concat_app; simpl; by rewrite app_nil_r).
  pose proof (log_inv_all _ _ _ _ _ _ LI) as HF. revert HF. generalize (segments l) (ci ++ [ca]).
  induction 1 as [|s c segs cs I HF IH]; cbn; [constructor|]. apply Forall_app. split; [apply (inv_recs _ _ I)|done].
Qed.

(** *** The start of the log *)

Lemma update_last_start {B} (f : Segment → B * Segment) segs r segs' :
  (∀ s, base_offset (f s).2 = base_offset s) → update_last f segs = Some (r, segs') →
  (base_offset <$> head segs') = (base_offset <$> head segs) ∧ segs' ≠ [].
Proof.
  intros Hf. destruct segs as [|s [|s1 segs]]; cbn; [done|..].
  - intros E. specialize (Hf s). destruct (f s) as [x s']. simplify_eq/=. by rewrite Hf.
  - destruct (match segs with [] => _ | _ :: _ => _ end) as [[x segs1]|]; [|done]. by intros [= <- <-].
Qed.

Definition start_of (segs : list Segment) : Z := default 0 (base_offset <$> head segs).

Lemma log_start_head l : log_start_offset l = start_of (segments l).
Proof. unfold log_start_offset, start_of. by destruct (segments l). Qed.

Lemma pending_aligned_base force s : base_offset (flush_pending_aligned force s).2 = base_offset s.
Proof. unfold flush_pending_aligned. by repeat case_if. Qed.

Lemma write_encoded_base buf s : base_offset (write_encoded buf s).2 = base_offset s.
Proof. unfold write_encoded. destruct (direct_io s); [by rewrite pending_aligned_base|]. by repeat case_match. Qed.

Lemma segment_append_base off m ts s : base_offset (Segment.append off m ts s).2 = base_offset s.
Proof.
  unfold Segment.append, append_encoded. destruct (sealed s); [done|]. case_if; [|done].
  destruct (encode_record _ _ _ _) as [buf w]. pose proof (write_encoded_base buf s).
  destruct (write_encoded buf s) as [[[]|e1] s1]; cbn [bind_st snd] in *; [|done].
  by repeat case_if.
Qed.

Lemma segment_flush_base s : base_offset (Segment.flush s).2 = base_offset s.
Proof.
  unfold Segment.flush. destruct (direct_io s) eqn:E; [|done].
  pose proof (pending_aligned_base true s). destruct (flush_pending_aligned true s) as [[[]|e] s1];
    cbn [bind_st snd] in *; [|done]. by repeat case_if.
Qed.

Lemma segment_seal_base s : base_offset (Segment.seal s).2 = base_offset s.
Proof.
  unfold Segment.seal. destruct (sealed s); [done|]. pose proof (segment_flush_base s).
  destruct (Segment.flush s) as [[[]|e] s1]; cbn [bind_st snd] in *; [|done].
  destruct (direct_io s1); [|done]. by case_if.
Qed.

Lemma append_one_start m now l : log_start_offset (append_one plat m now l).2 = log_start_offset l.
Proof.
  unfold append_one. rewrite !log_start_head.
  assert (Hr : start_of (segments (if needs_roll (encoded_record_size m) l then roll plat now l else (Ok tt, l)).2)
               = start_of (segments l)).
  { destruct (needs_roll _ _); [|done]. unfold roll.
    destruct (update_last seal (segments l)) as [[r segs]|] eqn:E; [|done].
    apply update_last_start in E as [E Hne]; [|apply segment_seal_base].
    destruct r; [|unfold start_of; cbn; by rewrite E].
    case_match; unfold start_of; cbn; [|by rewrite E].
    destruct segs; [done|]. cbn in E |- *. by rewrite <- E. }
  destruct (if needs_roll _ _ then _ else _) as [[[]|e] l1]; cbn [bind_st snd] in *; [|done].
  destruct (update_last _ _) as [[[r|e] segs]|] eqn:E; [..|done];
    apply update_last_start in E as [E _]; try apply segment_append_base;
    rewrite <- Hr; unfold start_of; cbn; by rewrite E.
Qed.

Lemma flush_start l : log_start_offset (PartitionLog.flush l).2 = log_start_offset l.
Proof.
  unfold PartitionLog.flush. rewrite !log_start_head.
  destruct (update_last _ _) as [[[[]|e] segs]|] eqn:E; cbn [bind_st snd]; [..|done];
    apply update_last_start in E as [E _]; try apply segment_flush_base; unfold start_of; cbn; by rewrite E.
Qed.

Lemma await_start now l : log_start_offset (await_group_commit now l).2 = log_start_offset l.
Proof.
  unfold await_group_commit. destruct (negb _); [done|]. destruct (register_waiter _ _) as [tk g].
  unfold wait_or_lead_alone. case_match; [done|]. destruct (has_leader _); [done|].
  match goal with |- context [PartitionLog.flush ?x] => pose proof (flush_start x) as Hf;
    destruct (PartitionLog.flush x) as [[[]|e] l1] end; [case_match|]; exact Hf.
Qed.

Lemma append_batch_inner_start ms w now l :
  log_start_offset (append_batch_inner plat ms w now l).2 = log_start_offset l.
Proof.
  assert (He : ∀ l, log_start_offset (append_each plat ms now l).2 = log_start_offset l).
  { induction ms as [|m ms IH]; intros l1; [done|]. cbn [append_each].
    pose proof (append_one_start m now l1) as H1. destruct (append_one _ _ _ _) as [[r|e] l2]; [|done].
    cbn [bind_st]. specialize (IH l2). destruct (append_each _ _ _ _) as [[rs|e] l3]; cbn in *; congruence. }
  unfold append_batch_inner. specialize (He l).
  destruct (append_each _ _ _ _) as [[rs|e] l1]; cbn [bind_st snd] in *; [|done].
  case_bool_decide; cbn [bind_st snd]; [done|].
  assert (Hf : log_start_offset (finish_append (zlen rs) w now l1).2 = log_start_offset l1).
  { unfold finish_append. set (l2 := set_appends _ _).
    destruct (group_commit_enabled l2); [destruct w; [by rewrite await_start|done]|].
    destruct (_ && _); [by rewrite flush_start|done]. }
  destruct (finish_append _ _ _ _) as [[[]|e] l2]; cbn [bind_st snd] in *; congruence.
Qed.

Lemma drop_start segs n :
  StronglySorted seg_before segs → drop n segs ≠ [] → start_of segs ≤ start_of (drop n segs).
Proof.
  destruct segs as [|s segs]; intros Ho Hne; [by destruct n|]. destruct n as [|n]; [done|].
  cbn [drop] in *. inversion Ho as [|? ? _ HF]; subst. unfold start_of.
  destruct (drop n segs) as [|s' segs'] eqn:E; [done|]. cbn. rewrite Forall_forall in HF.
  destruct (HF s') as [? _]; [|lia]. eapply (subseteq_drop n). rewrite E. left.
Qed.

Lemma delete_start before now l recs :
  log_rep plat l recs → clock_ok now → log_start_offset l ≤ log_start_offset (delete_records plat before now l).2.
Proof.
  intros R Hnow. destruct (log_offsets plat l recs R) as (_ & Hse & Hu).
  destruct R as (init & a & ci & ca & LI & ->). unfold delete_records.
  destruct (Nat.eqb_spec (keep_from (segments l) before) 0) as [|Hn]; [cbn; lia|].
  set (n := keep_from _ _) in *. pose proof (li_order _ _ _ _ _ _ LI) as Ho.
  rewrite <- (li_segs _ _ _ _ _ _ LI) in Ho. case_bool_decide as Hd; cbn [segments set_segments] in Hd.
  - rewrite Hd. destruct (create_segment_ok plat (set_segments l []) (log_next_offset l) now)
      as (s & E & _ & Hb & _); [apply (li_config _ _ _ _ _ _ LI)|lia|done|by intros ? ?%not_elem_of_nil|].
    cbn [log_next_offset set_segments] in E |- *. rewrite E. cbn [bind_st snd].
    rewrite (log_start_head (set_segments _ _)). unfold start_of. cbn. lia.
  - cbn [bind_st snd]. rewrite !log_start_head. by apply drop_start.
Qed.

#[export] Program Instance partition_log_laws : LogStoreLaws PartitionLog (H := partition_log_store plat) := {|
  ls_rep := pl_rep;
  ls_room := pl_room;
|}.
Next Obligation. by intros n l []. Qed.
Next Obligation. intros n m l [] ?. split; lia. Qed.
Next Obligation.
  intros l recs [R _]. destruct (log_offsets plat l recs R) as (HF & Hs & _). by split.
Qed.
Next Obligation. intros l recs [R _]. by eapply log_records_ok. Qed.
Next Obligation. intros l recs [R _]. by eapply log_rep_sorted. Qed.
Next Obligation. intros. by apply pl_append_ok. Qed.
Next Obligation. intros. by apply pl_append_ok. Qed.
Next Obligation.
  intros l recs rs now [R I] HF [Hend _] Hnow.
  destruct (append_records_line rs l recs now R I HF Hend Hnow) as (r & l' & E & R' & Hn & Hk & Hk' & Hg).
  exists r, l'. split; [done|]. split; [split; [done|by eapply append_records_idle]|].
  split; [done|]. split; [done|]. split; [done|]. 
  intros n [H1 H2]. change (ls_end l) with (log_next_offset l) in H1, H2. split; lia.
Qed.
Next Obligation.
  intros l recs [R I]. destruct (flush_log_ok plat l recs R) as (l' & E & R' & _ & _ & Hn & _ & Hg).
  exists l'. split; [done|]. split; [split; [done|by eapply flush_idle]|]. split; [done|].
  intros n Hn0 [H1 H2]. pose proof (notify_gen (appends_since_flush l) (group l) (proj2 I)) as Hle. rewrite <- Hg in Hle.
  split; lia.
Qed.
Next Obligation.
  intros l recs now Rp Hen Hroom. pose proof (pl_group_ok _ _ 0 ltac:(lia) Rp Hroom) as G. destruct Rp as [R I].
  destruct (await_group_commit_ok plat l recs now R G Hen) as (l' & E & R' & _ & _ & Hn & Hf & Hl).
  exists l'. split; [done|]. split; [split; [done|split; [done|]]|split; [done|]]; [destruct I; lia|].
  intros n [H1 H2]. split; lia.
Qed.
Next Obligation. intros l recs from mm [R _] Hmm. by apply (read_ok plat). Qed.
Next Obligation. intros l recs from mm mb [R _] Hmm. by apply read_bytes_ok. Qed.
Next Obligation. intros. apply append_batch_inner_start. Qed.
Next Obligation. intros. apply append_batch_inner_start. Qed.
Next Obligation. apply flush_start. Qed.
Next Obligation. apply await_start. Qed.
Next Obligation.
  intros l recs before now [R I] Hnow.
  destruct (delete_records_ok plat l recs before now R Hnow) as (l' & recs' & E & (R' & Hs & _ & Hn) & Hf & _).
  pose proof (delete_start before now l recs R Hnow) as Hst. rewrite E in Hst.
  exists l', recs'. split; [done|]. split; [split; [done|]|done].
  by rewrite (delete_group _ _ _ _ _ E).
Qed.
End partition_log.

(** A log has one list of records. *)
Lemma ls_rep_unique {L} `{LogStoreLaws L} (l : L) recs recs' : ls_rep l recs → ls_rep l recs' → recs = recs'.
Proof.
  intros R R'. set (mm := Z.max (zlen recs) (zlen recs')).
  assert (Hall : ∀ rs, ls_rep l rs → zlen rs ≤ mm →
    take (Z.to_nat mm) (filter (λ r, 0 ≤ rec_offset r) rs) = rs).
  { intros rs Rs Hle. destruct (ls_offsets _ _ Rs) as [Hs HF]. rewrite filter_all.
    - apply take_ge. unfold zlen in Hle. lia.
    - eapply Forall_impl; [exact HF|]. cbn. lia. }
  assert (Hm : 0 ≤ mm) by (pose proof (zlen_nonneg recs); lia).
  pose proof (ls_read_ok _ _ 0 mm R Hm) as E. rewrite (ls_read_ok _ _ 0 mm R' Hm) in E. injection E as E.
  rewrite !Hall in E; [done|done|lia|done|lia].
Qed.

(** ** Offsets of a batch *)

Lemma consecutive_app rs rs' : ∀ n, consecutive n (rs ++ rs') ↔ consecutive n rs ∧ consecutive (n + zlen rs) rs'.
Proof.
  induction rs as [|r rs IH]; intros n; cbn [app consecutive].
  - rewrite zlen_nil, Z.add_0_r. tauto.
  - rewrite IH, zlen_cons. replace (n + 1 + zlen rs) with (n + (1 + zlen rs)) by lia. tauto.
Qed.

Lemma consecutive_batch ms now : ∀ n, consecutive n (batch_records n now ms).
Proof. induction ms as [|m ms IH]; intros n; cbn; [done|]. split; [done|apply IH]. Qed.

Lemma consecutive_range rs : ∀ n, consecutive n rs → Forall (λ r, n ≤ rec_offset r < n + zlen rs) rs.
Proof.
  induction rs as [|r rs IH]; intros n Hc; [constructor|]. destruct Hc as [Ho Hc].
  rewrite zlen_cons. pose proof (zlen_nonneg rs). constructor; [lia|].
  eapply Forall_impl; [by apply IH|]. cbn. lia.
Qed.
