(* ===== verification/Broker.v ===== *)
(** * The broker's partitions: [volant-broker/src/partition.rs], [topic.rs]
      and the produce, flush and watermark paths of [broker/mod.rs]

    The state of the [Broker] that the produce, fetch and transaction paths
    share, one record field per field of the source.  Every operation is a
    function from a broker to a result and the next broker.  The logs are any
    [LogStore].  The clock is an argument, read once per operation.

    The per-partition Raft log of [partition_raft_enabled_for] and the
    [__transaction_state] topic are switched off, as they are by default. *)

From Stdlib Require Import Strings.String.
From S2P Require Import Prelude Bytes Core Record SparseIndex Segment GroupCommit PartitionLog BrokerLog Messages OffsetStore Group Cluster.
#[local] Open Scope Z_scope.

(** [ErrorCode] *)
Definition UnknownError : Z := 1.
Definition InvalidArg : Z := 3.
Definition TimeoutError : Z := 7.
Definition NotLeaderForPartition : Z := 13.
Definition NotEnoughReplicas : Z := 15.
Definition InvalidProducerEpoch : Z := 19.
Definition OutOfOrderSequence : Z := 20.
Definition UnknownProducerId : Z := 21.
Definition InvalidTxnState : Z := 22.
Definition TransactionAbortable : Z := 24.

(** ** Producers and transactions *)

(** A topic and a partition number. *)
Notation tp := (string * Z)%type.

Record IdempotentBatchState := mkBatchState {
  ib_base_sequence : Z;
  ib_count : Z;
  ib_base_offset : Z;
}.

Record ProducerEpochState := mkProducer {
  pe_epoch : Z;
  pe_transactional : bool;
  pe_transactional_id : string;
  pe_enable_2pc : bool;
  pe_transaction_timeout_ms : Z;
  pe_partitions : gmap tp IdempotentBatchState;
}.

Record TxnWrittenRange := mkWritten {
  wr_topic : string;
  wr_partition : Z;
  wr_first_offset : Z;
  wr_end_offset : Z;
  wr_base_sequence : Z;
  wr_count : Z;
}.

Record AbortedTxnMarker := mkMarker {
  am_producer_id : Z;
  am_first_offset : Z;
  am_end_offset : Z;
}.

(** A deferred consumer offset: group, topic, partition, offset, metadata. *)
Notation txn_offset := (string * string * Z * Z * string)%type.

Record OpenTxn := mkOpenTxn {
  ot_opened_at_ms : Z;
  ot_producer_epoch : Z;
  ot_added : list tp;
  ot_written : list TxnWrittenRange;
  ot_pending : gmap tp IdempotentBatchState;
  ot_deferred_offsets : list txn_offset;
}.

Record PreparedTxn := mkPrepared {
  pt_transactional_id : string;
  pt_producer_id : Z;
  pt_producer_epoch : Z;
  pt_commit : bool;
  pt_prepared_at_ms : Z;
  pt_open : OpenTxn;
}.

Record ClusterPreparedEntry := mkClusterPrepared {
  cp_transactional_id : string;
  cp_producer_id : Z;
  cp_producer_epoch : Z;
  cp_commit : bool;
  cp_prepared_at_ms : Z;
  cp_coordinator_node_id : Z;
}.

(** ** The files of the transaction tables

    [serde_json] turns these values into the bytes of a file and back; the
    file is replaced as a whole by a rename. *)

Record StoredTxnRange := mkStoredRange {
  sr_producer_id : Z;
  sr_producer_epoch : option Z;
  sr_topic : string;
  sr_partition : Z;
  sr_first_offset : Z;
  sr_end_offset : Z;
}.

Record StoredAddedPartition := mkStoredAdded {
  sa_producer_id : Z;
  sa_producer_epoch : option Z;
  sa_topic : string;
  sa_partition : Z;
}.

Record TxnMarkersFile := mkMarkersFile {
  mf_open : list StoredTxnRange;
  mf_open_added : list StoredAddedPartition;
  mf_aborted : list StoredTxnRange;
}.

Record StoredPreparedWritten := mkStoredWritten {
  sw_topic : string;
  sw_partition : Z;
  sw_first_offset : Z;
  sw_end_offset : Z;
  sw_base_sequence : Z;
  sw_count : Z;
}.

Record StoredPreparedPending := mkStoredPending {
  sp_topic : string;
  sp_partition : Z;
  sp_base_sequence : Z;
  sp_count : Z;
  sp_base_offset : Z;
}.

Record StoredPreparedTxn := mkStoredPrepared {
  st_transactional_id : string;
  st_producer_id : Z;
  st_producer_epoch : Z;
  st_commit : bool;
  st_prepared_at_ms : Z;
  st_added : list tp;
  st_written : list StoredPreparedWritten;
  st_pending : list StoredPreparedPending;
  st_deferred_offsets : list txn_offset;
}.

(** [producer_state.rs] *)
Record StoredBatch := mkStoredBatch {
  sb_base_sequence : Z;
  sb_count : Z;
  sb_base_offset : Z;
}.

Record StoredProducer := mkStoredProducer {
  spr_epoch : Z;
  spr_transactional_id : string;
  spr_enable_2pc : bool;
  spr_transaction_timeout_ms : Z;
  spr_partitions : gmap string StoredBatch;
}.

Record ProducerStateFile := mkProducerStateFile {
  pf_next_id : Z;
  pf_producers : gmap string StoredProducer;
}.

(** [None]: the file does not exist. *)
Record TxnFiles := mkTxnFiles {
  tf_markers : option TxnMarkersFile;
  tf_prepared : option (list StoredPreparedTxn);
  tf_producers : option ProducerStateFile;
  tf_cluster_prepared : option (list ClusterPreparedEntry);
}.

Definition set_markers_file v (f : TxnFiles) : TxnFiles :=
  mkTxnFiles (Some v) (tf_prepared f) (tf_producers f) (tf_cluster_prepared f).
Definition set_prepared_file v (f : TxnFiles) : TxnFiles :=
  mkTxnFiles (tf_markers f) (Some v) (tf_producers f) (tf_cluster_prepared f).
Definition set_producers_file v (f : TxnFiles) : TxnFiles :=
  mkTxnFiles (tf_markers f) (tf_prepared f) (Some v) (tf_cluster_prepared f).
Definition set_cluster_prepared_file v (f : TxnFiles) : TxnFiles :=
  mkTxnFiles (tf_markers f) (tf_prepared f) (tf_producers f) (Some v).

(** ** Transaction tables of the broker *)

Record Txns := mkTxns {
  next_producer_id : Z;
  producer_state : gmap Z ProducerEpochState;
  transactional_ids : gmap string Z;
  open_txns : gmap Z OpenTxn;
  prepared_txns : gmap string PreparedTxn;
  aborted_txns : gmap tp (list AbortedTxnMarker);
  abortable_producers : gset Z;
  cluster_prepared_index : gmap string ClusterPreparedEntry;
  open_txn_timeout_ms : Z;
  prepared_txn_timeout_ms : Z;
  transaction_max_timeout_ms : Z;
  open_txns_expired_total : Z;
  prepared_txns_expired_total : Z;
  aborted_markers_gc_total : Z;
}.

Definition set_next_producer_id v (t : Txns) : Txns :=
  mkTxns v (producer_state t) (transactional_ids t) (open_txns t) (prepared_txns t) (aborted_txns
    t) (abortable_producers t) (cluster_prepared_index t) (open_txn_timeout_ms t)
    (prepared_txn_timeout_ms t) (transaction_max_timeout_ms t) (open_txns_expired_total t)
    (prepared_txns_expired_total t) (aborted_markers_gc_total t).
Definition set_producer_state v (t : Txns) : Txns :=
  mkTxns (next_producer_id t) v (transactional_ids t) (open_txns t) (prepared_txns t)
    (aborted_txns t) (abortable_producers t) (cluster_prepared_index t) (open_txn_timeout_ms t)
    (prepared_txn_timeout_ms t) (transaction_max_timeout_ms t) (open_txns_expired_total t)
    (prepared_txns_expired_total t) (aborted_markers_gc_total t).
Definition set_transactional_ids v (t : Txns) : Txns :=
  mkTxns (next_producer_id t) (producer_state t) v (open_txns t) (prepared_txns t) (aborted_txns
    t) (abortable_producers t) (cluster_prepared_index t) (open_txn_timeout_ms t)
    (prepared_txn_timeout_ms t) (transaction_max_timeout_ms t) (open_txns_expired_total t)
    (prepared_txns_expired_total t) (aborted_markers_gc_total t).
Definition set_open_txns v (t : Txns) : Txns :=
  mkTxns (next_producer_id t) (producer_state t) (transactional_ids t) v (prepared_txns t)
    (aborted_txns t) (abortable_producers t) (cluster_prepared_index t) (open_txn_timeout_ms t)
    (prepared_txn_timeout_ms t) (transaction_max_timeout_ms t) (open_txns_expired_total t)
    (prepared_txns_expired_total t) (aborted_markers_gc_total t).
Definition set_prepared_txns v (t : Txns) : Txns :=
  mkTxns (next_producer_id t) (producer_state t) (transactional_ids t) (open_txns t) v
    (aborted_txns t) (abortable_producers t) (cluster_prepared_index t) (open_txn_timeout_ms t)
    (prepared_txn_timeout_ms t) (transaction_max_timeout_ms t) (open_txns_expired_total t)
    (prepared_txns_expired_total t) (aborted_markers_gc_total t).
Definition set_aborted_txns v (t : Txns) : Txns :=
  mkTxns (next_producer_id t) (producer_state t) (transactional_ids t) (open_txns t)
    (prepared_txns t) v (abortable_producers t) (cluster_prepared_index t) (open_txn_timeout_ms t)
    (prepared_txn_timeout_ms t) (transaction_max_timeout_ms t) (open_txns_expired_total t)
    (prepared_txns_expired_total t) (aborted_markers_gc_total t).
Definition set_abortable v (t : Txns) : Txns :=
  mkTxns (next_producer_id t) (producer_state t) (transactional_ids t) (open_txns t)
    (prepared_txns t) (aborted_txns t) v (cluster_prepared_index t) (open_txn_timeout_ms t)
    (prepared_txn_timeout_ms t) (transaction_max_timeout_ms t) (open_txns_expired_total t)
    (prepared_txns_expired_total t) (aborted_markers_gc_total t).
Definition set_cluster_prepared v (t : Txns) : Txns :=
  mkTxns (next_producer_id t) (producer_state t) (transactional_ids t) (open_txns t)
    (prepared_txns t) (aborted_txns t) (abortable_producers t) v (open_txn_timeout_ms t)
    (prepared_txn_timeout_ms t) (transaction_max_timeout_ms t) (open_txns_expired_total t)
    (prepared_txns_expired_total t) (aborted_markers_gc_total t).
Definition set_open_expired v (t : Txns) : Txns :=
  mkTxns (next_producer_id t) (producer_state t) (transactional_ids t) (open_txns t)
    (prepared_txns t) (aborted_txns t) (abortable_producers t) (cluster_prepared_index t)
    (open_txn_timeout_ms t) (prepared_txn_timeout_ms t) (transaction_max_timeout_ms t) v
    (prepared_txns_expired_total t) (aborted_markers_gc_total t).
Definition set_prepared_expired v (t : Txns) : Txns :=
  mkTxns (next_producer_id t) (producer_state t) (transactional_ids t) (open_txns t)
    (prepared_txns t) (aborted_txns t) (abortable_producers t) (cluster_prepared_index t)
    (open_txn_timeout_ms t) (prepared_txn_timeout_ms t) (transaction_max_timeout_ms t)
    (open_txns_expired_total t) v (aborted_markers_gc_total t).
Definition set_markers_gc v (t : Txns) : Txns :=
  mkTxns (next_producer_id t) (producer_state t) (transactional_ids t) (open_txns t)
    (prepared_txns t) (aborted_txns t) (abortable_producers t) (cluster_prepared_index t)
    (open_txn_timeout_ms t) (prepared_txn_timeout_ms t) (transaction_max_timeout_ms t)
    (open_txns_expired_total t) (prepared_txns_expired_total t) v.

(** The time-outs, which may be altered at run time. *)
Record Knobs := mkKnobs {
  kn_open_txn_timeout_ms : Z;
  kn_prepared_txn_timeout_ms : Z;
  kn_transaction_max_timeout_ms : Z;
}.

Definition knobs (t : Txns) : Knobs :=
  mkKnobs (open_txn_timeout_ms t) (prepared_txn_timeout_ms t) (transaction_max_timeout_ms t).

Definition set_knobs (k : Knobs) (t : Txns) : Txns :=
  mkTxns (next_producer_id t) (producer_state t) (transactional_ids t) (open_txns t)
    (prepared_txns t) (aborted_txns t) (abortable_producers t) (cluster_prepared_index t)
    (kn_open_txn_timeout_ms k) (kn_prepared_txn_timeout_ms k) (kn_transaction_max_timeout_ms k)
    (open_txns_expired_total t) (prepared_txns_expired_total t) (aborted_markers_gc_total t).

(** ** Partitions, topics and the broker *)

(** [ClusterState], with the fields of its [config] that the broker reads.
    [openraft_leader] is [None] when the openraft metadata log is off, and
    otherwise the leader it reports, if any. *)
Record Cluster := mkCluster {
  min_insync_replicas : Z;
  replica_lag_max_messages : Z;
  replica_lag_max_ms : Z;
  lag_max_ms_env : option Z;               (* VOLANT_REPLICA_LAG_MAX_MS *)
  openraft_leader : option (option Z);
  membership : Membership;
  assignment : AssignmentSnapshot;
  assignment_file : AssignmentSnapshot;
}.

#[export] Instance Cluster_eq_dec : EqDecision Cluster.
Proof. solve_decision. Defined.

Definition set_membership (v : Membership) (c : Cluster) : Cluster :=
  mkCluster (min_insync_replicas c) (replica_lag_max_messages c) (replica_lag_max_ms c) (lag_max_ms_env c)
    (openraft_leader c) v (assignment c) (assignment_file c).
Definition set_assignment (v : AssignmentSnapshot) (c : Cluster) : Cluster :=
  mkCluster (min_insync_replicas c) (replica_lag_max_messages c) (replica_lag_max_ms c) (lag_max_ms_env c)
    (openraft_leader c) (membership c) v (assignment_file c).

(** The assignment is written to its file as it is. *)
Definition save_assignment (c : Cluster) : Cluster :=
  mkCluster (min_insync_replicas c) (replica_lag_max_messages c) (replica_lag_max_ms c) (lag_max_ms_env c)
    (openraft_leader c) (membership c) (assignment c) (assignment c).

(** [leader_epoch.rs] *)
Record EpochStart := mkEpochStart {
  es_epoch : Z;
  es_start_offset : Z;
}.

#[export] Instance EpochStart_eq_dec : EqDecision EpochStart.
Proof. solve_decision. Defined.

(** [PendingIsrReport] *)
Record PendingIsrReport := mkIsrReport {
  ir_topic : string;
  ir_partition : Z;
  ir_leader_id : Z;
  ir_leader_epoch : Z;
  ir_isr : list Z;
  ir_generation_hint : Z;
}.

(** The fields of the broker on the routing and the replication of
    partitions; [leader_epochs_file] is what [__leader_epochs] holds. *)
Record Meta := mkMeta {
  next_topic_id : Z;
  rr_counters : gmap string Z;
  leader_epochs : gmap tp (list EpochStart);
  leader_epochs_file : gmap string (list EpochStart);
  pending_isr_reports : list PendingIsrReport;
  isr_expand_total : Z;
  isr_shrink_total : Z;
  isr_time_shrink_total : Z;
}.

Definition set_next_topic_id (v : Z) (m : Meta) : Meta :=
  mkMeta v (rr_counters m) (leader_epochs m) (leader_epochs_file m) (pending_isr_reports m)
    (isr_expand_total m) (isr_shrink_total m) (isr_time_shrink_total m).
Definition set_rr_counters (v : gmap string Z) (m : Meta) : Meta :=
  mkMeta (next_topic_id m) v (leader_epochs m) (leader_epochs_file m) (pending_isr_reports m) (isr_expand_total m)
    (isr_shrink_total m) (isr_time_shrink_total m).
Definition set_leader_epochs (v : gmap tp (list EpochStart)) (m : Meta) : Meta :=
  mkMeta (next_topic_id m) (rr_counters m) v (leader_epochs_file m) (pending_isr_reports m) (isr_expand_total m)
    (isr_shrink_total m) (isr_time_shrink_total m).
Definition set_leader_epochs_file (v : gmap string (list EpochStart)) (m : Meta) : Meta :=
  mkMeta (next_topic_id m) (rr_counters m) (leader_epochs m) v (pending_isr_reports m) (isr_expand_total m)
    (isr_shrink_total m) (isr_time_shrink_total m).
Definition set_pending_isr_reports (v : list PendingIsrReport) (m : Meta) : Meta :=
  mkMeta (next_topic_id m) (rr_counters m) (leader_epochs m) (leader_epochs_file m) v (isr_expand_total m)
    (isr_shrink_total m) (isr_time_shrink_total m).
Definition set_isr_totals (expand shrink time_shrink : Z) (m : Meta) : Meta :=
  mkMeta (next_topic_id m) (rr_counters m) (leader_epochs m) (leader_epochs_file m) (pending_isr_reports m) expand shrink
    time_shrink.

Section broker.
Context {L : Type}.

Record Partition := mkPartition {
  p_id : Z;
  p_log : L;
  p_leader : Z;
  p_replicas : list Z;
  p_isr : list Z;
  p_leader_epoch : Z;
  p_committed_hwm : Z;
  p_follower_leo : gmap Z Z;
  p_follower_caught_up_at : gmap Z Z;
}.

Record Topic := mkTopic {
  t_id : Z;
  t_name : string;
  t_partitions : gmap Z Partition;
}.

Record Broker := mkBroker {
  b_node_id : Z;
  b_cluster : option Cluster;
  b_group_commit : bool;                  (* storage.group_commit_enabled() *)
  b_topics : gmap string Topic;
  b_messages_coalesced : Z;
  b_groups : GroupCoordinator;
  b_txns : Txns;
  b_files : TxnFiles;
  b_meta : Meta;
}.

Definition set_log (l : L) (p : Partition) : Partition :=
  mkPartition (p_id p) l (p_leader p) (p_replicas p) (p_isr p) (p_leader_epoch p)
    (p_committed_hwm p) (p_follower_leo p) (p_follower_caught_up_at p).
Definition set_hwm (h : Z) (p : Partition) : Partition :=
  mkPartition (p_id p) (p_log p) (p_leader p) (p_replicas p) (p_isr p) (p_leader_epoch p)
    h (p_follower_leo p) (p_follower_caught_up_at p).
Definition set_isr (v : list Z) (p : Partition) : Partition :=
  mkPartition (p_id p) (p_log p) (p_leader p) (p_replicas p) v (p_leader_epoch p)
    (p_committed_hwm p) (p_follower_leo p) (p_follower_caught_up_at p).
Definition set_follower_leo (v : gmap Z Z) (p : Partition) : Partition :=
  mkPartition (p_id p) (p_log p) (p_leader p) (p_replicas p) (p_isr p) (p_leader_epoch p)
    (p_committed_hwm p) v (p_follower_caught_up_at p).
Definition set_caught_up_at (v : gmap Z Z) (p : Partition) : Partition :=
  mkPartition (p_id p) (p_log p) (p_leader p) (p_replicas p) (p_isr p) (p_leader_epoch p)
    (p_committed_hwm p) (p_follower_leo p) v.
(** What an assignment says of a partition. *)
Definition set_replication (leader : Z) (replicas isr : list Z) (leader_epoch : Z) (p : Partition) : Partition :=
  mkPartition (p_id p) (p_log p) leader replicas isr leader_epoch
    (p_committed_hwm p) (p_follower_leo p) (p_follower_caught_up_at p).

Definition set_topics (v : gmap string Topic) (b : Broker) : Broker :=
  mkBroker (b_node_id b) (b_cluster b) (b_group_commit b) v (b_messages_coalesced b)
    (b_groups b) (b_txns b) (b_files b) (b_meta b).
Definition set_coalesced (v : Z) (b : Broker) : Broker :=
  mkBroker (b_node_id b) (b_cluster b) (b_group_commit b) (b_topics b) v
    (b_groups b) (b_txns b) (b_files b) (b_meta b).
Definition set_groups (v : GroupCoordinator) (b : Broker) : Broker :=
  mkBroker (b_node_id b) (b_cluster b) (b_group_commit b) (b_topics b) (b_messages_coalesced b)
    v (b_txns b) (b_files b) (b_meta b).
Definition set_txns (v : Txns) (b : Broker) : Broker :=
  mkBroker (b_node_id b) (b_cluster b) (b_group_commit b) (b_topics b) (b_messages_coalesced b)
    (b_groups b) v (b_files b) (b_meta b).
Definition set_files (v : TxnFiles) (b : Broker) : Broker :=
  mkBroker (b_node_id b) (b_cluster b) (b_group_commit b) (b_topics b) (b_messages_coalesced b)
    (b_groups b) (b_txns b) v (b_meta b).
Definition set_cluster (v : option Cluster) (b : Broker) : Broker :=
  mkBroker (b_node_id b) v (b_group_commit b) (b_topics b) (b_messages_coalesced b)
    (b_groups b) (b_txns b) (b_files b) (b_meta b).
Definition set_meta (v : Meta) (b : Broker) : Broker :=
  mkBroker (b_node_id b) (b_cluster b) (b_group_commit b) (b_topics b) (b_messages_coalesced b)
    (b_groups b) (b_txns b) (b_files b) v.
Definition map_cluster (f : Cluster → Cluster) (b : Broker) : Broker := set_cluster (f <$> b_cluster b) b.
Definition map_meta (f : Meta → Meta) (b : Broker) : Broker := set_meta (f (b_meta b)) b.
Definition map_txns (f : Txns → Txns) (b : Broker) : Broker := set_txns (f (b_txns b)) b.

Definition map_files (f : TxnFiles → TxnFiles) (b : Broker) : Broker := set_files (f (b_files b)) b.

Context `{LogStore L}.

(** *** [partition.rs] *)

Definition new_single (id : Z) (log : L) (node_id : Z) : Partition :=
  mkPartition id log node_id [node_id] [node_id] 0 0 ∅ ∅.

Definition leo (p : Partition) : Z := ls_end (p_log p).
Definition is_leader (node_id : Z) (p : Partition) : bool := p_leader p =? node_id.
Definition is_replica (node_id : Z) (p : Partition) : bool := bool_decide (node_id ∈ p_replicas p).

(** The log end of a replica as the leader knows it. *)
Definition replica_leo (p : Partition) (id : Z) : Z :=
  if id =? p_leader p then leo p else default 0 (p_follower_leo p !! id).

Definition recompute_hwm (p : Partition) : Partition :=
  if bool_decide (p_isr p = []) then p else
  let min_leo := foldl (λ m id, Z.min m (replica_leo p id)) u64_max (p_isr p) in
  let min_leo := if min_leo =? u64_max then 0 else min_leo in
  if p_committed_hwm p <? min_leo then set_hwm min_leo p else p.

Definition catch_up_hwm (p : Partition) : Partition :=
  if p_committed_hwm p <? leo p then set_hwm (leo p) p else p.

(** *** Lookups *)

Definition get_partition (topic : string) (partition : Z) (b : Broker) : result Partition :=
  match b_topics b !! topic with
  | None => Err (NotFound "topic")
  | Some t =>
    match t_partitions t !! partition with
    | None => Err (NotFound "partition")
    | Some p => Ok p
    end
  end.

(** Writes back a partition obtained with [get_mut]. *)
Definition put_partition (topic : string) (partition : Z) (p : Partition) (b : Broker) : Broker :=
  set_topics (alter (λ t, mkTopic (t_id t) (t_name t) (<[partition := p]> (t_partitions t)))
                topic (b_topics b)) b.

Definition partition_exists (topic : string) (partition : Z) (b : Broker) : bool :=
  match b_topics b !! topic with
  | Some t => bool_decide (is_Some (t_partitions t !! partition))
  | None => false
  end.

(** *** Flush *)

(** With group commit on, concurrent flushers share one flush; alone, the
    caller leads it. *)
Definition flush (topic : string) (partition : Z) (now : Z) (b : Broker) : result unit * Broker :=
  match get_partition topic partition b with
  | Err e => (Err e, b)
  | Ok part =>
    let '(r, l) :=
      if ls_group_commit_enabled (p_log part) then
        if negb (ls_has_uncommitted (p_log part)) then (Ok tt, p_log part)
        else ls_await now (p_log part)
      else ls_flush (p_log part) in
    (r, put_partition topic partition (set_log l part) b)
  end.

(** *** Produce *)

(** A produce that waits for the watermark releases the broker. *)
Inductive ProduceOutcome :=
  | Produced (rs : list LogRecord) (error_code : Z)
  | AwaitHwm (rs : list LogRecord) (target : Z).

(** The watermark after an append, by the acknowledgements asked for. *)
Definition advance_hwm (b : Broker) (acks : Z) (p : Partition) : Partition :=
  let single := bool_decide (b_cluster b = None) || (zlen (p_isr p) <=? 1) in
  if single || negb (acks =? 255) then
    match b_cluster b with
    | None => catch_up_hwm p
    | Some _ => if zlen (p_isr p) =? 1 then catch_up_hwm p else recompute_hwm p
    end
  else recompute_hwm p.

Definition first_offset (rs : list LogRecord) : Z :=
  match rs with r :: _ => rec_offset r | [] => 0 end.

Definition produce_inner (topic : string) (partition : Z) (messages : list Message) (acks : Z)
    (wait : bool) (now : Z) (b : Broker) : result ProduceOutcome * Broker :=
  let n := zlen messages in
  if n =? 0 then (Ok (Produced [] 0), b) else
  match get_partition topic partition b with
  | Err e => (Err e, b)
  | Ok part =>
    if bool_decide (is_Some (b_cluster b)) && negb (is_leader (b_node_id b) part)
    then (Ok (Produced [] NotLeaderForPartition), b) else
    if (acks =? 255) &&
       match b_cluster b with
       | Some c => zlen (p_isr part) <? min_insync_replicas c
       | None => false
       end
    then (Ok (Produced [] NotEnoughReplicas), b) else
    let '(r, l) :=
      if b_group_commit b then ls_append_batch_uncommitted messages now (p_log part)
      else ls_append_batch messages now (p_log part) in
    let part := set_log l part in
    match r with
    | Err e => (Err e, put_partition topic partition part b)
    | Ok rs =>
      let b := if 1 <? n then set_coalesced (u64_wrapping_add (b_messages_coalesced b) n) b else b in
      let part := advance_hwm b acks part in
      let b := put_partition topic partition part b in
      let target := first_offset rs + zlen rs in
      let need_wait := (acks =? 255) && bool_decide (is_Some (b_cluster b)) &&
                       (p_committed_hwm part <? target) in
      let '(r, b) :=
        if negb (acks =? 0) && b_group_commit b && negb (bool_decide (rs = []))
        then flush topic partition now b else (Ok tt, b) in
      match r with
      | Err e => (Err e, b)
      | Ok _ => (Ok (if need_wait && wait then AwaitHwm rs target else Produced rs 0), b)
      end
    end
  end.

Definition committed_hwm (topic : string) (partition : Z) (b : Broker) : result Z :=
  let? p := get_partition topic partition b in Ok (p_committed_hwm p).

Definition high_watermark (topic : string) (partition : Z) (b : Broker) : result Z :=
  let? p := get_partition topic partition b in
  Ok (match b_cluster b with None => leo p | Some _ => p_committed_hwm p end).

Definition log_end_offset (topic : string) (partition : Z) (b : Broker) : result Z :=
  let? p := get_partition topic partition b in Ok (leo p).

(** One round of the loop that waits for the watermark. *)
Definition produce_wake (topic : string) (partition : Z) (rs : list LogRecord) (target : Z)
    (timed_out : bool) (b : Broker) : ProduceOutcome :=
  let hwm := match committed_hwm topic partition b with Ok h => h | Err _ => 0 end in
  if target <=? hwm then Produced rs 0
  else if timed_out then Produced rs TimeoutError
  else AwaitHwm rs target.

(** [produce_with_acks] without a time limit never waits. *)
Definition produce_with_acks (topic : string) (partition : Z) (messages : list Message) (acks : Z)
    (now : Z) (b : Broker) : result (list LogRecord * Z) * Broker :=
  match produce_inner topic partition messages acks false now b with
  | (Ok (Produced rs code), b) => (Ok (rs, code), b)
  | (Ok (AwaitHwm rs _), b) => (Ok (rs, 0), b)
  | (Err e, b) => (Err e, b)
  end.

Definition produce (topic : string) (partition : Z) (messages : list Message) (now : Z) (b : Broker)
    : result (list LogRecord) * Broker :=
  match produce_with_acks topic partition messages 1 now b with
  | (Ok (rs, _), b) => (Ok rs, b)
  | (Err e, b) => (Err e, b)
  end.

Definition produce_one (topic : string) (partition : Z) (message : Message) (now : Z) (b : Broker)
    : result LogRecord * Broker :=
  match produce topic partition [message] now b with
  | (Ok rs, b) =>
    (match last rs with Some r => Ok r | None => Err (Storage "empty produce result") end, b)
  | (Err e, b) => (Err e, b)
  end.

End broker.
Arguments Partition L : clear implicits.
Arguments Topic L : clear implicits.
Arguments Broker L : clear implicits.

(** * Partitions of a broker

    Lookups after updates, what the watermark moves to, and what a flush and a
    produce do to a partition, on a single node and in a cluster. *)

From S2P Require Import SegmentProps PartitionLogProps.
#[local] Open Scope Z_scope.

Section partitions.
Context {L : Type}.
Implicit Types (b : Broker L).

Lemma get_partition_ok t p b part :
  get_partition t p b = Ok part ↔ ∃ top, b_topics b !! t = Some top ∧ t_partitions top !! p = Some part.
Proof.
  unfold get_partition. split.
  - intros E. repeat case_match; simplify_eq. eauto.
  - by intros (top & -> & ->).
Qed.

Lemma get_put t p part part' b :
  get_partition t p b = Ok part → get_partition t p (put_partition t p part' b) = Ok part'.
Proof.
  intros (top & Ht & Hp)%get_partition_ok. unfold get_partition, put_partition. cbn.
  rewrite lookup_alter_eq, Ht. cbn. by rewrite lookup_insert_eq.
Qed.

Lemma put_put t p part part' b : put_partition t p part' (put_partition t p part b) = put_partition t p part' b.
Proof.
  unfold put_partition, set_topics. cbn. f_equal. apply map_eq. intros k. destruct (decide (t = k)) as [->|Hne].
  - rewrite !lookup_alter_eq. destruct (b_topics b !! k); [|done]. cbn. by rewrite insert_insert_eq.
  - by rewrite !lookup_alter_ne.
Qed.

Lemma get_same t p b b' : b_topics b' = b_topics b → get_partition t p b' = get_partition t p b.
Proof. unfold get_partition. by intros ->. Qed.

End partitions.

(** ** The watermark *)

Section watermark.
Context {L : Type} `{LogStore L}.
Implicit Types (part : Partition L).

(** The leader knows every in-sync replica to hold what is below [h]. *)
Definition isr_holds part (h : Z) : Prop := ∀ id, id ∈ p_isr part → h ≤ replica_leo part id.

(** All that matters of a partition but its log and its watermark. *)
Record same_role part part' : Prop := {
  sr_leader : p_leader part' = p_leader part;
  sr_replicas : p_replicas part' = p_replicas part;
  sr_isr : p_isr part' = p_isr part;
  sr_follower_leo : p_follower_leo part' = p_follower_leo part;
}.

#[export] Instance same_role_preorder : PreOrder same_role.
Proof. split; [done|]. intros x y z [] []. split; congruence. Qed.

Lemma same_role_leo part part' id :
  same_role part part' → leo part ≤ leo part' → replica_leo part id ≤ replica_leo part' id.
Proof. intros [El _ _ Ef] Hl. unfold replica_leo. rewrite El, Ef. by case_match. Qed.

Lemma foldl_min_le (f : Z → Z) l : ∀ m, foldl (λ m id, Z.min m (f id)) m l ≤ m ∧
  ∀ id, id ∈ l → foldl (λ m id, Z.min m (f id)) m l ≤ f id.
Proof.
  induction l as [|x l IH]; intros m; cbn [foldl]; [split; [done|by intros id ?%not_elem_of_nil]|].
  destruct (IH (Z.min m (f x))) as [H1 H2]. split; [lia|].
  intros id [->|Hi]%elem_of_cons; [lia|by apply H2].
Qed.

(** Either the watermark stays, or it moves to what the in-sync set holds. *)
Lemma recompute_spec part :
  (∀ id, id ∈ p_isr part → 0 ≤ replica_leo part id) →
  same_role part (recompute_hwm part) ∧ p_log (recompute_hwm part) = p_log part ∧
  p_committed_hwm part ≤ p_committed_hwm (recompute_hwm part) ∧
  (p_committed_hwm (recompute_hwm part) = p_committed_hwm part ∨
   isr_holds part (p_committed_hwm (recompute_hwm part))).
Proof.
  intros H0. unfold recompute_hwm. case_bool_decide; [split_and!; by auto|].
  set (m := foldl _ _ _). destruct (foldl_min_le (replica_leo part) (p_isr part) u64_max) as [_ Hm]. fold m in Hm.
  destruct (Z.ltb_spec (p_committed_hwm part) (if m =? u64_max then 0 else m)) as [Hlt|]; [|split_and!; by auto].
  split; [done|]. split; [done|]. split; [cbn; lia|]. right. cbn. intros id Hi.
  destruct (Z.eqb_spec m u64_max); [by apply H0|by apply Hm].
Qed.

Lemma catch_up_spec part :
  same_role part (catch_up_hwm part) ∧ p_log (catch_up_hwm part) = p_log part ∧
  p_committed_hwm (catch_up_hwm part) = Z.max (p_committed_hwm part) (leo part).
Proof.
  unfold catch_up_hwm. destruct (Z.ltb_spec (p_committed_hwm part) (leo part)); cbn; split_and!; try done; lia.
Qed.

End watermark.

(** ** Flush and produce *)

Section produce.
Context {L : Type} `{LogStoreLaws L}.
Implicit Types (b : Broker L).

(** A flush keeps the records. *)
Lemma flush_part b t p part recs now n :
  get_partition t p b = Ok part → ls_rep (p_log part) recs → 0 ≤ n → ls_room (1 + n) (p_log part) →
  ∃ l', flush t p now b = (Ok tt, put_partition t p (set_log l' part) b) ∧
    ls_rep l' recs ∧ ls_end l' = ls_end (p_log part) ∧ ls_room n l'.
Proof.
  intros Hp HR Hn Hroom. unfold flush. rewrite Hp.
  assert (Hroom' : ∀ m, 0 ≤ m ≤ 1 + n → ls_room m (p_log part))
    by (intros m Hm; eapply ls_room_mono; [exact Hroom|lia]).
  destruct (ls_group_commit_enabled (p_log part)) eqn:Eg.
  - destruct (negb _); [exists (p_log part); split_and!; [done..|apply Hroom'; lia]|].
    destruct (ls_await_ok _ _ now HR Eg (Hroom' 0 ltac:(lia))) as (l' & -> & R' & Ee & Hr). exists l'. auto.
  - destruct (ls_flush_ok _ _ HR) as (l' & -> & R' & Ee & Hr). exists l'. auto.
Qed.

(** The append of a produce. *)
Lemma append_part b part recs ms now n :
  ls_rep (p_log part) recs → batch_ok ms now → ls_room (zlen ms + 1 + n) (p_log part) → 0 ≤ n →
  ∃ l', (if b_group_commit b then ls_append_batch_uncommitted ms now (p_log part)
      else ls_append_batch ms now (p_log part)) = (Ok (batch_records (leo part) now ms), l') ∧
    ls_rep l' (recs ++ batch_records (leo part) now ms) ∧ ls_end l' = leo part + zlen ms ∧ ls_room n l'.
Proof.
  intros HR Hms Hroom Hn. assert (Hr1 : ls_room (zlen ms) (p_log part)) by (eapply ls_room_mono; [exact Hroom|lia]).
  destruct (b_group_commit b).
  - destruct (ls_append_uncommitted_ok _ _ ms now HR Hr1 Hms) as (l' & E & R' & Ee & Hr). exists l'. auto.
  - destruct (ls_append_batch_ok _ _ ms now HR Hr1 Hms) as (l' & E & R' & Ee & Hr). exists l'. auto.
Qed.

End produce.
