(* ===== verification/Txn.v ===== *)
(** * Transactions and idempotent producers: [volant-broker/src/broker/txn.rs]

    The transactional operations of a single-node broker ([Broker::new]:
    [cluster] is [None], so nothing is fanned out to peers and the coordinator
    registry, which ignores node id 0, stays empty).  Each takes the locks it
    needs and releases them before it returns; the write-through produce, which
    releases them in between, is given in the three parts it takes.  Writes of
    the state files succeed. *)

From Stdlib Require Import Strings.String Strings.Ascii.
From S2P Require Import Prelude Bytes Core Record SparseIndex Segment GroupCommit PartitionLog BrokerLog Messages OffsetStore Group Broker KafkaRecords.
#[local] Open Scope Z_scope.

(** ** Results *)

Inductive IdempotentCheck :=
  | Accept (base_offset : Z)
  | Duplicate (base_offset count : Z)
  | Reject (error_code : Z).

Record InitProducerIdResult := mkInitResult {
  ir_error_code : Z;
  ir_producer_id : Z;
  ir_epoch : Z;
  ir_ongoing_txn_producer_id : Z;
  ir_ongoing_txn_producer_epoch : Z;
}.

Record TxnCommitResult := mkCommitResult {
  cr_topic : string;
  cr_partition : Z;
  cr_base_offset : Z;
  cr_count : Z;
}.

Inductive FetchIsolation := CommittedOnly | ReadCommitted | ReadUncommitted.

Definition as_i16 (z : Z) : Z := signed 16 z.
Definition i32_saturating_add (a b : Z) : Z := Z.max (-2147483648) (Z.min 2147483647 (a + b)).
Definition u16_wrapping_add (a b : Z) : Z := as_u16 (a + b).

Definition wr_key (r : TxnWrittenRange) : tp := (wr_topic r, wr_partition r).

Definition default_open_txn : OpenTxn := mkOpenTxn 0 0 [] [] ∅ [].

(** A range written to the partition contains the offset. *)
Definition range_covers (topic : string) (partition offset : Z) (r : TxnWrittenRange) : bool :=
  String.eqb (wr_topic r) topic && (wr_partition r =? partition) &&
  (wr_first_offset r <=? offset) && (offset <? wr_end_offset r).

Definition marker_covers (offset : Z) (m : AbortedTxnMarker) : bool :=
  (am_first_offset m <=? offset) && (offset <? am_end_offset m).

Section txn.
Context {L : Type} `{LogStore L} `{IterOrder} (root : path).
Implicit Types (b : Broker L).

(** ** The files *)

Definition open_ranges (open : list (Z * OpenTxn)) : list StoredTxnRange :=
  flat_map (λ '(pid, txn),
    map (λ r, mkStoredRange pid (Some (ot_producer_epoch txn)) (wr_topic r) (wr_partition r)
                (wr_first_offset r) (wr_end_offset r)) (ot_written txn)) open.

(** Partitions added to the transaction without a write. *)
Definition open_added (open : list (Z * OpenTxn)) : list StoredAddedPartition :=
  flat_map (λ '(pid, txn),
    map (λ '(topic, part), mkStoredAdded pid (Some (ot_producer_epoch txn)) topic part)
      (filter (λ k, existsb (λ r, bool_decide (wr_key r = k)) (ot_written txn) = false)
         (ot_added txn))) open.

Definition aborted_ranges (aborted : list (tp * list AbortedTxnMarker)) : list StoredTxnRange :=
  flat_map (λ '((topic, part), ms),
    map (λ m, mkStoredRange (am_producer_id m) None topic part (am_first_offset m) (am_end_offset m))
      ms) aborted.

Definition persist_txn_markers b : Broker L :=
  let open := reorder (map_to_list (open_txns (b_txns b))) in
  let aborted := reorder (map_to_list (aborted_txns (b_txns b))) in
  map_files (set_markers_file
    (mkMarkersFile (open_ranges open) (open_added open) (aborted_ranges aborted))) b.

Definition store_prepared (p : PreparedTxn) : StoredPreparedTxn :=
  mkStoredPrepared (pt_transactional_id p) (pt_producer_id p) (pt_producer_epoch p) (pt_commit p)
    (pt_prepared_at_ms p) (ot_added (pt_open p))
    (map (λ w, mkStoredWritten (wr_topic w) (wr_partition w) (wr_first_offset w) (wr_end_offset w)
                 (wr_base_sequence w) (wr_count w)) (ot_written (pt_open p)))
    (map (λ '((topic, part), st), mkStoredPending topic part (ib_base_sequence st) (ib_count st)
                 (ib_base_offset st)) (reorder (map_to_list (ot_pending (pt_open p)))))
    (ot_deferred_offsets (pt_open p)).

Definition persist_prepared_txns b : Broker L :=
  map_files (set_prepared_file
    (map (λ '(_, p), store_prepared p) (reorder (map_to_list (prepared_txns (b_txns b)))))) b.

(** [producer_state.rs]: [format!("{topic}:{partition}")] *)
Definition partition_key (topic : string) (partition : Z) : string :=
  (topic ++ ":" ++ u32_to_string partition)%string.

(** [str::rsplit_once(':')] *)
Fixpoint rsplit_colon (s : string) : option (string * string) :=
  match s with
  | EmptyString => None
  | String c s' =>
    match rsplit_colon s' with
    | Some (t, p) => Some (String c t, p)
    | None => if bool_decide (c = ":"%char) then Some (EmptyString, s') else None
    end
  end.

Definition parse_partition_key (key : string) : option (string * Z) :=
  '(t, p) ← rsplit_colon key; partition ← parse_u32 p; Some (t, partition).

Definition store_producer (p : ProducerEpochState) : StoredProducer :=
  mkStoredProducer (pe_epoch p) (pe_transactional_id p) (pe_enable_2pc p) (pe_transaction_timeout_ms p)
    (list_to_map (rev (map (λ '((topic, part), st), (partition_key topic part,
        mkStoredBatch (ib_base_sequence st) (ib_count st) (ib_base_offset st)))
      (reorder (map_to_list (pe_partitions p)))))).

Definition persist_producer_state b : Broker L :=
  map_files (set_producers_file
    (mkProducerStateFile (next_producer_id (b_txns b))
      (list_to_map (rev (map (λ '(pid, p), (u64_to_string pid, store_producer p))
        (reorder (map_to_list (producer_state (b_txns b))))))))) b.

(** ** Aborted ranges and control markers *)

Definition push_aborted_marker (topic : string) (partition : Z) (m : AbortedTxnMarker) b : Broker L :=
  let a := aborted_txns (b_txns b) in
  map_txns (set_aborted_txns
    (<[(topic, partition) := default [] (a !! (topic, partition)) ++ [m]]> a)) b.

(** One range per partition, from the first to the last offset written. *)
Definition collapse_range (acc : gmap tp (Z * Z)) (r : TxnWrittenRange) : gmap tp (Z * Z) :=
  let '(f, e) := default (wr_first_offset r, wr_end_offset r) (acc !! wr_key r) in
  <[wr_key r := (Z.min f (wr_first_offset r), Z.max e (wr_end_offset r))]> acc.

Definition collapse (written : list TxnWrittenRange) : gmap tp (Z * Z) :=
  foldl collapse_range ∅ written.

Definition record_aborted_from_txn (producer_id : Z) (txn : OpenTxn) b : Broker L :=
  persist_txn_markers
    (foldl (λ b '((topic, part), (first, end_)),
              push_aborted_marker topic part (mkMarker producer_id first end_) b)
       b (reorder (map_to_list (collapse (ot_written txn))))).

Definition write_control (t : ControlMarkerType) (producer_id producer_epoch now : Z) (k : tp) b
    : Broker L :=
  let '(_, b) := produce_one k.1 k.2 (txn_control_message t producer_id producer_epoch now) now b in
  let '(_, b) := flush k.1 k.2 now b in
  b.

(** One marker per partition, the written ones first. *)
Definition append_txn_control_markers (producer_id producer_epoch : Z) (t : ControlMarkerType)
    (txn : OpenTxn) (now : Z) b : Broker L :=
  (foldl (λ '(seen, b) k,
     if bool_decide (k ∈ seen) then (seen, b)
     else ({[k]} ∪ seen, write_control t producer_id producer_epoch now k b))
    ((∅ : gset tp), b) (map wr_key (ot_written txn) ++ ot_added txn)).2.

(** ** Producers aborted by a time-out *)

Definition is_txn_abortable (producer_id : Z) b : bool :=
  bool_decide (producer_id ∈ abortable_producers (b_txns b)).
Definition mark_txn_abortable (producer_id : Z) b : Broker L :=
  map_txns (set_abortable ({[producer_id]} ∪ abortable_producers (b_txns b))) b.
Definition clear_txn_abortable (producer_id : Z) b : Broker L :=
  map_txns (set_abortable (abortable_producers (b_txns b) ∖ {[producer_id]})) b.

(** ** Time-outs *)

Definition clamp_txn_timeout_ms (timeout_ms : Z) b : Z :=
  if timeout_ms =? 0 then 0 else
  let max := transaction_max_timeout_ms (b_txns b) in
  if (0 <? max) && (max <? timeout_ms) then max else timeout_ms.

Definition effective_open_txn_timeout_ms (prod : ProducerEpochState) b : Z :=
  clamp_txn_timeout_ms
    (if 0 <? pe_transaction_timeout_ms prod then pe_transaction_timeout_ms prod
     else open_txn_timeout_ms (b_txns b)) b.

Definition effective_prepared_txn_timeout_ms b : Z :=
  clamp_txn_timeout_ms (prepared_txn_timeout_ms (b_txns b)) b.

(** The time-out of an open transaction; the broker default when the producer
    is not known. *)
Definition open_timeout (pid : Z) b : Z :=
  match producer_state (b_txns b) !! pid with
  | Some p => effective_open_txn_timeout_ms p b
  | None => clamp_txn_timeout_ms (open_txn_timeout_ms (b_txns b)) b
  end.

Definition open_expired (now : Z) b (e : Z * OpenTxn) : bool :=
  let timeout := open_timeout e.1 b in
  negb (timeout =? 0) &&
  (as_i64 timeout <=?
     i64_saturating_sub now (if 0 <? ot_opened_at_ms e.2 then ot_opened_at_ms e.2 else now)).

Definition producer_epoch_or_0 (pid : Z) b : Z :=
  match producer_state (b_txns b) !! pid with Some p => pe_epoch p | None => 0 end.

Definition abort_expired_open (now : Z) b (e : Z * Z * OpenTxn) : Broker L :=
  let '(pid, epoch, txn) := e in
  let b := record_aborted_from_txn pid txn b in
  let b := append_txn_control_markers pid epoch Abort txn now b in
  mark_txn_abortable pid b.

Definition expire_timed_out_open_txns (now : Z) b : Z * Broker L :=
  let expired := filter (λ e, open_expired now b e = true)
                   (reorder (map_to_list (open_txns (b_txns b)))) in
  let es := map (λ '(pid, txn), (pid, producer_epoch_or_0 pid b, txn)) expired in
  let b := map_txns (set_open_txns
             (foldl (λ m '(pid, _), delete pid m) (open_txns (b_txns b)) expired)) b in
  let n := zlen es in
  let b := foldl (abort_expired_open now) b es in
  (n, if 0 <? n then
        map_txns (set_open_expired (u64_wrapping_add (open_txns_expired_total (b_txns b)) n))
          (persist_txn_markers b)
      else b).

Definition abort_expired_prepared (now : Z) b (p : PreparedTxn) : Broker L :=
  let b := record_aborted_from_txn (pt_producer_id p) (pt_open p) b in
  let b := append_txn_control_markers (pt_producer_id p) (pt_producer_epoch p) Abort (pt_open p) now b in
  mark_txn_abortable (pt_producer_id p) b.

Definition prepared_expired (timeout_ms now : Z) (p : PreparedTxn) : bool :=
  as_i64 timeout_ms <=? i64_saturating_sub now (pt_prepared_at_ms p).

Definition expire_timed_out_prepared_txns (now : Z) b : Z * Broker L :=
  let timeout_ms := effective_prepared_txn_timeout_ms b in
  if timeout_ms =? 0 then (0, b) else
  let expired := filter (λ e, prepared_expired timeout_ms now e.2 = true)
                   (reorder (map_to_list (prepared_txns (b_txns b)))) in
  let b := map_txns (set_prepared_txns
             (foldl (λ m '(k, _), delete k m) (prepared_txns (b_txns b)) expired)) b in
  let n := zlen expired in
  let b := foldl (abort_expired_prepared now) b (map snd expired) in
  (n, if 0 <? n then
        map_txns (set_prepared_expired (u64_wrapping_add (prepared_txns_expired_total (b_txns b)) n))
          (persist_prepared_txns b)
      else b).

Definition expire_timed_out_txns (now : Z) b : Broker L :=
  (expire_timed_out_prepared_txns now (expire_timed_out_open_txns now b).2).2.

(** ** [InitProducerId] *)

Definition force_abort_prepared (p : PreparedTxn) (now : Z) b : Broker L :=
  let b := record_aborted_from_txn (pt_producer_id p) (pt_open p) b in
  let b := append_txn_control_markers (pt_producer_id p) (pt_producer_epoch p) Abort (pt_open p) now b in
  persist_prepared_txns b.

(** Removes the open transaction of the producer and aborts its ranges. *)
Definition fence_open (pid epoch now : Z) b : Broker L :=
  match open_txns (b_txns b) !! pid with
  | None => b
  | Some txn =>
    let b := map_txns (set_open_txns (delete pid (open_txns (b_txns b)))) b in
    let b := record_aborted_from_txn pid txn b in
    append_txn_control_markers pid epoch Abort txn now b
  end.

Definition put_producer (pid : Z) (p : ProducerEpochState) b : Broker L :=
  map_txns (set_producer_state (<[pid := p]> (producer_state (b_txns b)))) b.

(** [fetch_add(1)] *)
Definition take_producer_id b : Z * Broker L :=
  let id := next_producer_id (b_txns b) in
  (id, map_txns (set_next_producer_id (u64_wrapping_add id 1)) b).

Definition allocate_producer_ids (len : Z) b : Z * Z * Broker L :=
  let start := next_producer_id (b_txns b) in
  (start, len, persist_producer_state
                 (map_txns (set_next_producer_id (u64_wrapping_add start len)) b)).

(** The prepared transaction is kept: its producer resumes. *)
Definition init_keep_prepared (tid : string) (enable_2pc : bool) (client_timeout : Z)
    (prep : PreparedTxn) (now : Z) b : InitProducerIdResult * Broker L :=
  let pid := pt_producer_id prep in
  let epoch := pt_producer_epoch prep in
  let b :=
    match producer_state (b_txns b) !! pid with
    | Some p => put_producer pid (mkProducer epoch true tid (if enable_2pc then true else pe_enable_2pc p)
                                    client_timeout (pe_partitions p)) b
    | None => put_producer pid (mkProducer epoch true tid enable_2pc client_timeout ∅) b
    end in
  let b := map_txns (set_transactional_ids (<[tid := pid]> (transactional_ids (b_txns b)))) b in
  let b := fence_open pid epoch now b in
  let b := clear_txn_abortable pid b in
  (mkInitResult 0 pid epoch (as_i64 pid) (as_i16 epoch), persist_producer_state b).

Definition next_epoch (epoch : Z) : Z :=
  let e := u16_wrapping_add epoch 1 in if e =? 0 then 1 else e.

(** A known transactional id: the epoch is bumped, sequences are forgotten. *)
Definition init_fence (tid : string) (enable_2pc : bool) (client_timeout existing : Z)
    (p : ProducerEpochState) (now : Z) b : InitProducerIdResult * Broker L :=
  let epoch := next_epoch (pe_epoch p) in
  let b := put_producer existing
             (mkProducer epoch true tid (if enable_2pc then true else pe_enable_2pc p) client_timeout ∅) b in
  let b := fence_open existing (pe_epoch p) now b in
  let b := clear_txn_abortable existing b in
  (mkInitResult 0 existing epoch (-1) (-1), persist_producer_state b).

Definition init_allocate (tid : string) (enable_2pc : bool) (client_timeout : Z) b
    : InitProducerIdResult * Broker L :=
  let '(id, b) := take_producer_id b in
  let b := put_producer id (mkProducer 0 true tid enable_2pc client_timeout ∅) b in
  let b := map_txns (set_transactional_ids (<[tid := id]> (transactional_ids (b_txns b)))) b in
  (mkInitResult 0 id 0 (-1) (-1), persist_producer_state b).

Definition init_producer_id_with_opts (tid : string) (enable_2pc keep_prepared : bool)
    (transaction_timeout_ms now : Z) b : InitProducerIdResult * Broker L :=
  let b := expire_timed_out_txns now b in
  let client_timeout := if 0 <? transaction_timeout_ms then transaction_timeout_ms else 0 in
  let max := transaction_max_timeout_ms (b_txns b) in
  if (0 <? max) && (max <? client_timeout) then (mkInitResult 50 0 0 (-1) (-1), b) else
  if String.eqb tid "" then
    let '(id, b) := take_producer_id b in
    let b := put_producer id (mkProducer 0 false "" false client_timeout ∅) b in
    (mkInitResult 0 id 0 (-1) (-1), persist_producer_state b)
  else
    match (if keep_prepared then prepared_txns (b_txns b) !! tid else None) with
    | Some prep => init_keep_prepared tid enable_2pc client_timeout prep now b
    | None =>
      let b :=
        match (if keep_prepared then None else prepared_txns (b_txns b) !! tid) with
        | None => b
        | Some prep =>
          let b := map_txns (set_prepared_txns (delete tid (prepared_txns (b_txns b)))) b in
          clear_txn_abortable (pt_producer_id prep) (force_abort_prepared prep now b)
        end in
      match transactional_ids (b_txns b) !! tid with
      | None => init_allocate tid enable_2pc client_timeout b
      | Some existing =>
        match producer_state (b_txns b) !! existing with
        | None => init_allocate tid enable_2pc client_timeout b
        | Some p => init_fence tid enable_2pc client_timeout existing p now b
        end
      end
    end.

(** ** Begin and add partitions *)

Definition has_open_txn (pid : Z) b : bool := bool_decide (is_Some (open_txns (b_txns b) !! pid)).

Definition has_prepared (tid : string) b : bool :=
  negb (String.eqb tid "") && bool_decide (is_Some (prepared_txns (b_txns b) !! tid)).

(** The producer is known, at this epoch and transactional; gives its
    transactional id. *)
Definition check_producer (pid epoch : Z) b : Z + string :=
  match producer_state (b_txns b) !! pid with
  | None => inl UnknownProducerId
  | Some p =>
    if negb (pe_epoch p =? epoch) then inl InvalidProducerEpoch else
    if negb (pe_transactional p) then inl InvalidTxnState else inr (pe_transactional_id p)
  end.

Definition put_open (pid : Z) (txn : OpenTxn) b : Broker L :=
  map_txns (set_open_txns (<[pid := txn]> (open_txns (b_txns b)))) b.

Definition begin_txn (pid epoch now : Z) b : Z * Broker L :=
  let b := expire_timed_out_txns now b in
  match check_producer pid epoch b with
  | inl code => (code, b)
  | inr tid =>
    if is_txn_abortable pid b then (TransactionAbortable, b) else
    if has_prepared tid b then (InvalidTxnState, b) else
    if has_open_txn pid b then (InvalidTxnState, b) else
    (0, put_open pid (mkOpenTxn now epoch [] [] ∅ []) b)
  end.

Definition ensure_txn_open (pid epoch now : Z) b : Z * Broker L :=
  let b := expire_timed_out_txns now b in
  match check_producer pid epoch b with
  | inl code => (code, b)
  | inr tid =>
    if is_txn_abortable pid b then (TransactionAbortable, b) else
    if has_prepared tid b then (InvalidTxnState, b) else
    if has_open_txn pid b then (0, b) else begin_txn pid epoch now b
  end.

Definition add_partition (added : list tp) (k : tp) : list tp :=
  if bool_decide (k ∈ added) then added else added ++ [k].

Definition record_txn_added_partitions (pid : Z) (partitions : list tp) b : Z * Broker L :=
  if bool_decide (partitions = []) then (0, b) else
  match open_txns (b_txns b) !! pid with
  | None => (InvalidTxnState, b)
  | Some txn =>
    let added := foldl add_partition (ot_added txn) partitions in
    (0, persist_txn_markers
          (put_open pid (mkOpenTxn (ot_opened_at_ms txn) (ot_producer_epoch txn) added (ot_written txn)
                           (ot_pending txn) (ot_deferred_offsets txn)) b))
  end.

Definition no_txn_code (pid : Z) b : Z :=
  if is_txn_abortable pid b then TransactionAbortable else InvalidTxnState.

Definition buffer_txn_offsets (pid epoch : Z) (offsets : list txn_offset) (now : Z) b : Z * Broker L :=
  let b := expire_timed_out_txns now b in
  match check_producer pid epoch b with
  | inl code => (code, b)
  | inr tid =>
    if has_prepared tid b then (InvalidTxnState, b) else
    match open_txns (b_txns b) !! pid with
    | None => (no_txn_code pid b, b)
    | Some txn =>
      (0, put_open pid (mkOpenTxn (ot_opened_at_ms txn) (ot_producer_epoch txn) (ot_added txn)
                          (ot_written txn) (ot_pending txn) (ot_deferred_offsets txn ++ offsets)) b)
    end
  end.

Definition is_transactional_producer (pid : Z) b : bool :=
  match producer_state (b_txns b) !! pid with Some p => pe_transactional p | None => false end.

(** ** Write-through produce *)

(** The sequence gate against the last batch of the partition. *)
Definition check_sequence (last : option IdempotentBatchState) (base_sequence count : Z)
    : option IdempotentCheck :=
  match last with
  | None => None
  | Some s =>
    if (base_sequence =? ib_base_sequence s) && (count =? ib_count s)
    then Some (Duplicate (ib_base_offset s) (ib_count s))
    else if negb (base_sequence =? i32_saturating_add (ib_base_sequence s) (as_i32 (ib_count s)))
    then Some (Reject OutOfOrderSequence)
    else None
  end.

(** Up to the append: [Some] is an answer, [None] goes on. *)
Definition txn_produce_check (pid epoch : Z) (topic : string) (partition base_sequence count now : Z) b
    : option IdempotentCheck * Broker L :=
  let b := expire_timed_out_txns now b in
  if count =? 0 then (Some (Reject InvalidArg), b) else
  match check_producer pid epoch b with
  | inl code => (Some (Reject code), b)
  | inr tid =>
    if has_prepared tid b then (Some (Reject InvalidTxnState), b) else
    match open_txns (b_txns b) !! pid with
    | None => (Some (Reject (no_txn_code pid b)), b)
    | Some txn =>
      let last :=
        match ot_pending txn !! (topic, partition) with
        | Some s => Some s
        | None => p ← producer_state (b_txns b) !! pid; pe_partitions p !! (topic, partition)
        end in
      (check_sequence last base_sequence count, b)
    end
  end.

(** The append, outside the lock; [inr] is the base offset. *)
Definition txn_produce_append (topic : string) (partition : Z) (messages : list Message) (now : Z) b
    : (Z + Z) * Broker L :=
  match produce_with_acks topic partition messages 1 now b with
  | (Err _, b) => (inl UnknownError, b)
  | (Ok (rs, code), b) =>
    if negb (code =? 0) then (inl code, b) else
    let '(_, b) := flush topic partition now b in
    (inr (first_offset rs), b)
  end.

(** The range is entered in the open transaction, or aborted at once when it
    has ended meanwhile. *)
Definition txn_produce_record (pid : Z) (topic : string) (partition base_sequence count base_offset : Z) b
    : IdempotentCheck * Broker L :=
  let end_offset := u64_saturating_add base_offset count in
  match open_txns (b_txns b) !! pid with
  | None =>
    let b := push_aborted_marker topic partition (mkMarker pid base_offset end_offset) b in
    let b := persist_txn_markers b in
    (Reject (no_txn_code pid b), b)
  | Some txn =>
    (Accept base_offset, persist_txn_markers
      (put_open pid (mkOpenTxn (ot_opened_at_ms txn) (ot_producer_epoch txn) (ot_added txn)
        (ot_written txn ++ [mkWritten topic partition base_offset end_offset base_sequence count])
        (<[(topic, partition) := mkBatchState base_sequence count base_offset]> (ot_pending txn))
        (ot_deferred_offsets txn)) b))
  end.

Definition buffer_txn_produce (pid epoch : Z) (topic : string) (partition base_sequence : Z)
    (messages : list Message) (now : Z) b : IdempotentCheck * Broker L :=
  let count := as_u32 (zlen messages) in
  match txn_produce_check pid epoch topic partition base_sequence count now b with
  | (Some r, b) => (r, b)
  | (None, b) =>
    match txn_produce_append topic partition messages now b with
    | (inl code, b) => (Reject code, b)
    | (inr base_offset, b) => txn_produce_record pid topic partition base_sequence count base_offset b
    end
  end.

(** ** Idempotent produce *)

Definition check_idempotent_produce (pid epoch : Z) (topic : string)
    (partition base_sequence count : Z) b : IdempotentCheck :=
  if (pid =? 0) || (base_sequence <? 0) then Accept 0 else
  if count =? 0 then Reject InvalidArg else
  match producer_state (b_txns b) !! pid with
  | None => Reject UnknownProducerId
  | Some p =>
    if negb (pe_epoch p =? epoch) then Reject InvalidProducerEpoch else
    if pe_transactional p then Reject InvalidTxnState else
    default (Accept 0) (check_sequence (pe_partitions p !! (topic, partition)) base_sequence count)
  end.

Definition record_idempotent_produce (pid epoch : Z) (topic : string)
    (partition base_sequence count base_offset : Z) b : Broker L :=
  if (pid =? 0) || (base_sequence <? 0) then b else
  match producer_state (b_txns b) !! pid with
  | None => b
  | Some p =>
    if negb (pe_epoch p =? epoch) then b else
    persist_producer_state
      (put_producer pid
        (mkProducer (pe_epoch p) (pe_transactional p) (pe_transactional_id p) (pe_enable_2pc p)
          (pe_transaction_timeout_ms p)
          (<[(topic, partition) := mkBatchState base_sequence count base_offset]> (pe_partitions p))) b)
  end.

(** ** End of a transaction *)

Definition commit_txn_offset b (o : txn_offset) : Broker L :=
  let '(group_id, topic, partition, offset, metadata) := o in
  set_groups (commit_offsets root group_id "" 0 [(topic, partition, offset, metadata)] (b_groups b)).2 b.

Definition finalize_txn (pid epoch : Z) (committed : bool) (txn : OpenTxn) (offsets : list txn_offset)
    (now : Z) b : list TxnCommitResult * Broker L :=
  if negb committed then
    let b := record_aborted_from_txn pid txn b in
    ([], append_txn_control_markers pid epoch Abort txn now b)
  else
    let b := foldl (λ b w, record_idempotent_produce pid epoch (wr_topic w) (wr_partition w)
                             (wr_base_sequence w) (wr_count w) (wr_first_offset w) b)
               b (ot_written txn) in
    let results := map (λ w, mkCommitResult (wr_topic w) (wr_partition w) (wr_first_offset w) (wr_count w))
                     (ot_written txn) in
    let b := append_txn_control_markers pid epoch Commit txn now b in
    let b := foldl commit_txn_offset b (ot_deferred_offsets txn ++ offsets) in
    (results, persist_txn_markers b).

(** The controller's index of prepared transactions; a single node is its own
    controller. *)
Definition persist_cluster_prepared_index b : Broker L :=
  map_files (set_cluster_prepared_file
    (map snd (reorder (map_to_list (cluster_prepared_index (b_txns b)))))) b.

Definition upsert_cluster_prepared_index (tid : string) (pid epoch : Z) (commit : bool) (now : Z) b
    : Broker L :=
  persist_cluster_prepared_index
    (map_txns (set_cluster_prepared (<[tid := mkClusterPrepared tid pid epoch commit now (b_node_id b)]>
                 (cluster_prepared_index (b_txns b)))) b).

Definition clear_cluster_prepared_index (tid : string) b : Broker L :=
  if String.eqb tid "" then b else
  match cluster_prepared_index (b_txns b) !! tid with
  | None => b
  | Some _ =>
    persist_cluster_prepared_index
      (map_txns (set_cluster_prepared (delete tid (cluster_prepared_index (b_txns b)))) b)
  end.

(** The first [EndTxn] of a two-phase producer, in the order of its writes. *)
Definition prepare_insert (tid : string) (pid epoch : Z) (committed : bool) (txn : OpenTxn) (now : Z) b
    : Broker L :=
  map_txns (set_prepared_txns (<[tid := mkPrepared tid pid epoch committed now txn]>
              (prepared_txns (b_txns b)))) b.

Definition prepare_txn (tid : string) (pid epoch : Z) (committed : bool) (txn : OpenTxn) (now : Z) b
    : Broker L :=
  let b := prepare_insert tid pid epoch committed txn now b in
  let b := persist_txn_markers b in
  let b := persist_prepared_txns b in
  upsert_cluster_prepared_index tid pid epoch committed now b.

Definition end_prepared (tid : string) (pid epoch : Z) (committed : bool) (prep : PreparedTxn)
    (offsets : list txn_offset) (now : Z) b : Z * list TxnCommitResult * Broker L :=
  if negb (pt_producer_id prep =? pid) then (InvalidTxnState, [], b) else
  if negb (pt_producer_epoch prep =? epoch) then (InvalidProducerEpoch, [], b) else
  if negb (Bool.eqb (pt_commit prep) committed) then (InvalidTxnState, [], b) else
  let b := map_txns (set_prepared_txns (delete tid (prepared_txns (b_txns b)))) b in
  let b := clear_txn_abortable pid b in
  let '(results, b) := finalize_txn pid epoch committed (pt_open prep) offsets now b in
  let b := persist_prepared_txns b in
  (0, results, clear_cluster_prepared_index tid b).

Definition end_open (tid : string) (enable_2pc : bool) (pid epoch : Z) (committed : bool)
    (offsets : list txn_offset) (now : Z) b : Z * list TxnCommitResult * Broker L :=
  match open_txns (b_txns b) !! pid with
  | None =>
    if is_txn_abortable pid b then (TransactionAbortable, [], clear_txn_abortable pid b)
    else (InvalidTxnState, [], b)
  | Some txn =>
    let b := map_txns (set_open_txns (delete pid (open_txns (b_txns b)))) b in
    let b := clear_txn_abortable pid b in
    if enable_2pc && negb (String.eqb tid "") then (0, [], prepare_txn tid pid epoch committed txn now b)
    else
      let '(results, b) := finalize_txn pid epoch committed txn offsets now b in
      (0, results, b)
  end.

Definition end_txn (pid epoch : Z) (committed : bool) (offsets : list txn_offset) (now : Z) b
    : Z * list TxnCommitResult * Broker L :=
  let b := expire_timed_out_txns now b in
  match producer_state (b_txns b) !! pid with
  | None => (UnknownProducerId, [], b)
  | Some p =>
    if negb (pe_epoch p =? epoch) then (InvalidProducerEpoch, [], b) else
    let tid := pe_transactional_id p in
    match (if String.eqb tid "" then None else prepared_txns (b_txns b) !! tid) with
    | Some prep => end_prepared tid pid epoch committed prep offsets now b
    | None => end_open tid (pe_enable_2pc p) pid epoch committed offsets now b
    end
  end.

Definition rollback_local_prepare (tid : string) b : Broker L :=
  match prepared_txns (b_txns b) !! tid with
  | None => b
  | Some prep =>
    let b := map_txns (set_prepared_txns (delete tid (prepared_txns (b_txns b)))) b in
    let b := put_open (pt_producer_id prep) (pt_open prep) b in
    clear_cluster_prepared_index tid (persist_txn_markers (persist_prepared_txns b))
  end.

(** ** Stability of an offset *)

(** The ranges of the open and prepared transactions. *)
Definition unstable_ranges b : list TxnWrittenRange :=
  flat_map (λ '(_, txn), ot_written txn) (reorder (map_to_list (open_txns (b_txns b)))) ++
  flat_map (λ '(_, prep), ot_written (pt_open prep)) (reorder (map_to_list (prepared_txns (b_txns b)))).

Definition last_stable_offset (topic : string) (partition now : Z) b : Z * Broker L :=
  let b := expire_timed_out_txns now b in
  let hwm := match high_watermark topic partition b with Ok h => h | Err _ => 0 end in
  (foldl (λ lso r, if String.eqb (wr_topic r) topic && (wr_partition r =? partition)
                   then Z.min lso (wr_first_offset r) else lso) hwm (unstable_ranges b), b).

Definition is_aborted_offset (topic : string) (partition offset : Z) b : bool :=
  match aborted_txns (b_txns b) !! (topic, partition) with
  | None => false
  | Some ms => existsb (marker_covers offset) ms
  end.

Definition is_unstable_offset (topic : string) (partition offset now : Z) b : bool * Broker L :=
  let b := expire_timed_out_txns now b in
  (existsb (range_covers topic partition offset) (unstable_ranges b), b).

(** Without the adjacent repetitions. *)
Fixpoint dedup (l : list (Z * Z)) : list (Z * Z) :=
  match l with
  | x :: ((y :: _) as rest) => if bool_decide (x = y) then dedup rest else x :: dedup rest
  | _ => l
  end.

Definition first_le (x y : Z * Z) : Prop := x.2 ≤ y.2.
#[local] Instance first_le_dec : RelDecision first_le.
Proof. intros x y. unfold first_le. apply _. Defined.

Definition aborted_transactions_for_fetch (topic : string) (partition fetch_offset upper_bound : Z) b
    : list (Z * Z) :=
  match aborted_txns (b_txns b) !! (topic, partition) with
  | None => []
  | Some ms =>
    dedup (merge_sort first_le
      (map (λ m, (am_producer_id m, am_first_offset m))
        (filter (λ m, (am_first_offset m <? upper_bound) && (fetch_offset <? am_end_offset m) = true) ms)))
  end.

(** ** Fetch *)

(** [retain] with a test that may change the broker. *)
Fixpoint retain_st (f : LogRecord → Broker L → bool * Broker L) (rs : list LogRecord) b
    : list LogRecord * Broker L :=
  match rs with
  | [] => ([], b)
  | r :: rs =>
    let '(keep, b) := f r b in
    let '(out, b) := retain_st f rs b in
    (if keep then r :: out else out, b)
  end.

Definition fetch_up_to (topic : string) (partition from max_messages : Z) (cap_hwm : bool)
    (isolation : FetchIsolation) (now : Z) b : result (list LogRecord) * Broker L :=
  match get_partition topic partition b with
  | Err e => (Err e, b)
  | Ok part =>
    match ls_read from max_messages (p_log part) with
    | Err e => (Err e, b)
    | Ok rs =>
      let rs := if cap_hwm then filter (λ r, rec_offset r < p_committed_hwm part) rs else rs in
      match isolation with
      | ReadUncommitted => (Ok rs, b)
      | ReadCommitted =>
        let '(lso, b) := last_stable_offset topic partition now b in
        (Ok (filter (λ r,
           (if is_txn_control_record r then rec_offset r <? lso
            else (rec_offset r <? lso) && negb (is_aborted_offset topic partition (rec_offset r) b))
           = true) rs), b)
      | CommittedOnly =>
        let '(rs, b) := retain_st (λ r b,
          if is_txn_control_record r then (false, b) else
          let '(unstable, b) := is_unstable_offset topic partition (rec_offset r) now b in
          (negb unstable && negb (is_aborted_offset topic partition (rec_offset r) b), b)) rs b in
        (Ok rs, b)
      end
    end
  end.

Definition fetch (topic : string) (partition from max_messages now : Z) b
    : result (list LogRecord) * Broker L :=
  fetch_up_to topic partition from max_messages true CommittedOnly now b.

Definition fetch_kafka (topic : string) (partition from max_messages : Z) (read_committed : bool)
    (now : Z) b : result (list LogRecord) * Broker L :=
  fetch_up_to topic partition from max_messages true
    (if read_committed then ReadCommitted else ReadUncommitted) now b.

Definition fetch_for_replica (topic : string) (partition from max_messages max_bytes : Z) b
    : result (list LogRecord) :=
  let? part := get_partition topic partition b in
  ls_read_bytes from max_messages max_bytes (p_log part).

End txn.
