(* ===== verification/LeaderEpoch.v ===== *)
(** * Leader epochs: [volant-broker/src/leader_epoch.rs] and the epoch history
      of [broker/cluster.rs]

    Per partition, the epochs of its leaders with the offset at which each
    began, kept sorted; the answer to OffsetForLeaderEpoch; and the file the
    history is kept in. *)

From Stdlib Require Import Strings.String.
From S2P Require Import Prelude Bytes Core Record SparseIndex Segment GroupCommit PartitionLog BrokerLog Messages OffsetStore Group Cluster Broker KafkaRecords Txn.
#[local] Open Scope Z_scope.

(** ** [leader_epoch.rs] *)

Definition es_le (a b : EpochStart) : Prop := es_epoch a ≤ es_epoch b.
#[export] Instance es_le_dec : RelDecision es_le.
Proof. intros a b. unfold es_le. apply _. Defined.
#[global] Typeclasses Opaque es_le.

Definition has_epoch (epoch : Z) (entries : list EpochStart) : bool :=
  existsb (λ e, es_epoch e =? epoch) entries.

Definition ensure_entry (entries : list EpochStart) (epoch start_offset : Z) : list EpochStart :=
  if has_epoch epoch entries then entries
  else merge_sort es_le (entries ++ [mkEpochStart epoch start_offset]).

(** The index of the last element that satisfies [f]. *)
Fixpoint rposition {A} (f : A → bool) (l : list A) : option nat :=
  match l with
  | [] => None
  | x :: l => match rposition f l with
              | Some i => Some (S i)
              | None => if f x then Some O else None
              end
  end.

(** The index [usize::MAX] of the source stands for an empty history and is
    the second case here. *)
Definition end_offset_for (entries : list EpochStart) (current_epoch current_hwm requested : Z)
    : option (Z * Z) :=
  if requested =? -1 then Some (as_i32 current_epoch, as_i64 current_hwm) else
  if requested <? 0 then None else
  let req := as_u32 requested in
  if current_epoch <? req then None else
  if req =? current_epoch then Some (as_i32 current_epoch, as_i64 current_hwm) else
  match rposition (λ e, es_epoch e <=? req) entries with
  | None =>
    match entries with
    | [] => Some (0, as_i64 current_hwm)
    | first :: rest =>
      let end_ := match rest with n :: _ => es_start_offset n | [] => current_hwm end in
      Some (as_i32 (es_epoch first), as_i64 end_)
    end
  | Some i =>
    match entries !! i with
    | None => None
    | Some found =>
      let end_ := if es_epoch found =? current_epoch then current_hwm
                  else match entries !! S i with
                       | Some next => es_start_offset next
                       | None => current_hwm
                       end in
      Some (as_i32 (es_epoch found), as_i64 end_)
    end
  end.

(** ** The history of the broker: [broker/cluster.rs] *)

Section epochs.
Context {L : Type} `{LogStore L} `{IterOrder}.
Implicit Types (b : Broker L).

Definition persist_leader_epochs b : Broker L :=
  map_meta (set_leader_epochs_file
    (foldl (λ f '((topic, part), entries), <[partition_key topic part := entries]> f) ∅
       (reorder (map_to_list (leader_epochs (b_meta b)))))) b.

Definition load_leader_epochs b : Broker L :=
  map_meta (set_leader_epochs
    (foldl (λ m '(key, entries),
       match parse_partition_key key with
       | Some tpk => <[tpk := merge_sort es_le entries]> m
       | None => m
       end) (leader_epochs (b_meta b)) (reorder (map_to_list (leader_epochs_file (b_meta b)))))) b.

Definition epochs_of (topic : string) (partition : Z) b : list EpochStart :=
  default [] (leader_epochs (b_meta b) !! (topic, partition)).

Definition put_epochs (topic : string) (partition : Z) (e : list EpochStart) b : Broker L :=
  map_meta (λ m, set_leader_epochs (<[(topic, partition) := e]> (leader_epochs m)) m) b.

Definition ensure_epoch_entry (topic : string) (partition epoch start_offset : Z) b : Broker L :=
  let e := epochs_of topic partition b in
  let e' := ensure_entry e epoch start_offset in
  let b := put_epochs topic partition e' b in
  if bool_decide (length e' ≠ length e) then persist_leader_epochs b else b.

(** The length is taken after epoch 0 has been entered. *)
Definition record_epoch_start (topic : string) (partition epoch start_offset : Z) b : Broker L :=
  let e := ensure_entry (epochs_of topic partition b) 0 0 in
  let had := has_epoch epoch e in
  let e' := if had then e else ensure_entry e epoch start_offset in
  let b := put_epochs topic partition e' b in
  if bool_decide (length e' ≠ length e) || negb had then persist_leader_epochs b else b.

Definition set_leader_epoch (epoch : Z) (p : Partition L) : Partition L :=
  mkPartition (p_id p) (p_log p) (p_leader p) (p_replicas p) (p_isr p) epoch
    (p_committed_hwm p) (p_follower_leo p) (p_follower_caught_up_at p).

Definition set_partition_leader_epoch (topic : string) (partition epoch : Z) b : result unit * Broker L :=
  match get_partition topic partition b with
  | Err e => (Err e, b)
  | Ok part =>
    let old_epoch := p_leader_epoch part in
    let b := put_partition topic partition (set_leader_epoch epoch part) b in
    let b := if old_epoch <? epoch
             then record_epoch_start topic partition epoch (leo part)
                    (ensure_epoch_entry topic partition old_epoch 0 b)
             else ensure_epoch_entry topic partition epoch 0 b in
    (Ok tt, map_cluster (λ c, set_assignment
              (alter_assignment (set_pa_leader_epoch epoch) topic partition (assignment c)) c) b)
  end.

Definition offset_for_leader_epoch (topic : string) (partition requested_epoch : Z) b
    : option (Z * Z) * Broker L :=
  match get_partition topic partition b with
  | Err _ => (None, b)
  | Ok part =>
    let hwm := match b_cluster b with
               | None => Z.max (p_committed_hwm part) (leo part)
               | Some _ => p_committed_hwm part
               end in
    let b := ensure_epoch_entry topic partition 0 0 b in
    (end_offset_for (epochs_of topic partition b) (p_leader_epoch part) hwm requested_epoch, b)
  end.

(** The greatest epoch of a history that is not empty. *)
Definition max_epoch (entries : list EpochStart) : option Z :=
  match entries with
  | [] => None
  | e :: es => Some (foldl (λ m x, Z.max m (es_epoch x)) (es_epoch e) es)
  end.

(** One partition of [seed_missing_leader_epochs]; the flag says that the
    history has to be written. *)
Definition seed_partition (topic : string) (st : bool * Broker L) (pid : Z) : bool * Broker L :=
  let '(dirty, b) := st in
  match get_partition topic pid b with
  | Err _ => (dirty, b)
  | Ok part =>
    let e := epochs_of topic pid b in
    let '(e, dirty) := if bool_decide (e = []) then (ensure_entry e 0 0, true) else (e, dirty) in
    match max_epoch e with
    | None => (dirty, put_epochs topic pid e b)
    | Some max =>
      if p_leader_epoch part <? max
      then (dirty, put_partition topic pid (set_leader_epoch max part) (put_epochs topic pid e b))
      else if max <? p_leader_epoch part
      then (true, put_epochs topic pid (ensure_entry e (p_leader_epoch part) (leo part)) b)
      else (dirty, put_epochs topic pid e b)
    end
  end.

Definition seed_missing_leader_epochs b : Broker L :=
  let '(dirty, b') :=
    foldl (λ st e, foldl (seed_partition e.1) st (map fst (reorder (map_to_list (t_partitions e.2)))))
      (false, b) (reorder (map_to_list (b_topics b))) in
  if dirty then persist_leader_epochs b' else b'.

(** The end of [Broker::new]. *)
Definition reload b : Broker L := seed_missing_leader_epochs (load_leader_epochs b).

End epochs.
