(* ===== verification/Replication.v ===== *)
(** * Replication of partitions: the protocol handlers of
      [volant-broker/src/broker/cluster.rs], [ensure_partition] of [topic.rs] and
      [fetch_once] of [replica/follower.rs]

    A follower asks the leader for the records from its log end; the leader
    takes the question as the follower's log end, reconciles the in-sync set and
    moves the watermark.  A broker that sees another one die shrinks the in-sync
    sets; the controller elects leaders among the rest.

    Instants are in nanoseconds and read once per locked region.  Waking the
    waiters of the watermark is left out: they look again at any later time.
    [open_log] is what opening the directory of a partition gives, and
    [configure] the effect of the durable configuration of a topic on its
    logs. *)

From Stdlib Require Import Strings.String.
From S2P Require Import Prelude Bytes Core Record SparseIndex Segment GroupCommit PartitionLog BrokerLog Messages Assignor OffsetStore Group Cluster Broker KafkaRecords Txn LeaderEpoch.
#[local] Open Scope Z_scope.

(** [ErrorCode] *)
Definition NotFoundError : Z := 2.
Definition NotControllerError : Z := 14.

(** The record of a ReplicaFetch response and back ([wire_to_record]). *)
Definition fetch_record_of (r : LogRecord) : FetchRecord :=
  mkFetchRecord (rec_offset r) (rec_timestamp_ms r) (rec_key r) (rec_value r) (rec_headers r).

Definition wire_to_record (r : FetchRecord) : LogRecord :=
  mkLogRecord (fr_offset r) (fr_key r) (fr_value r) (fr_timestamp_ms r) (fr_headers r).

Section replication.
Context {L : Type} `{LogStore L} `{IterOrder}.
Implicit Types (b : Broker L).

Definition controller_id b : Z :=
  match b_cluster b with
  | None => b_node_id b
  | Some c => match openraft_leader c with
              | Some l => default 0 l
              | None => lowest_live_id (membership c)
              end
  end.

Definition is_controller b : bool :=
  match b_cluster b with None => true | Some _ => controller_id b =? b_node_id b end.

Definition generation b : Z :=
  match b_cluster b with None => 0 | Some c => as_generation (assignment c) end.

Definition effective_replica_lag_max_ms b : Z :=
  match b_cluster b with
  | None => 0
  | Some c => match lag_max_ms_env c with Some v => v | None => replica_lag_max_ms c end
  end.

Definition count_missing (l in_ : list Z) : Z := zlen (filter (λ id, id ∉ in_) l).

Definition note_isr_delta (before after : list Z) b : Broker L :=
  map_meta (λ m, set_isr_totals (u64_wrapping_add (isr_expand_total m) (count_missing after before))
    (u64_wrapping_add (isr_shrink_total m) (count_missing before after)) (isr_time_shrink_total m) m) b.

Definition note_isr_time_shrink (n : Z) b : Broker L :=
  map_meta (λ m, set_isr_totals (isr_expand_total m) (isr_shrink_total m)
    (u64_wrapping_add (isr_time_shrink_total m) n) m) b.

(** ** Reports to the controller *)

Definition same_partition (r r' : PendingIsrReport) : bool :=
  bool_decide (ir_topic r = ir_topic r' ∧ ir_partition r = ir_partition r').

(** Replaces the first report of the same partition. *)
Fixpoint coalesce (report : PendingIsrReport) (q : list PendingIsrReport) : list PendingIsrReport :=
  match q with
  | [] => [report]
  | r :: q => if same_partition r report then report :: q else r :: coalesce report q
  end.

Definition enqueue_isr_report (report : PendingIsrReport) b : Broker L :=
  map_meta (λ m, set_pending_isr_reports (coalesce report (pending_isr_reports m)) m) b.

Definition drain_pending_isr_reports b : list PendingIsrReport * Broker L :=
  (pending_isr_reports (b_meta b), map_meta (set_pending_isr_reports []) b).

Definition isr_report (topic : string) (partition generation_hint : Z) (p : Partition L) : PendingIsrReport :=
  mkIsrReport topic partition (p_leader p) (p_leader_epoch p) (p_isr p) generation_hint.

(** ** ReplicaFetch on the leader *)

(** Stamps of the members that joined, and none of those that left. *)
Definition restamp (old isr : list Z) (leader now : Z) (stamps : gmap Z Z) : gmap Z Z :=
  filter (λ e, e.1 ∈ isr ∨ e.1 = leader)
    (foldl (λ m id, if bool_decide (id ∉ old) && negb (id =? leader) then <[id := now]> m else m) stamps isr).

(** The in-sync set after a follower was seen at [from_offset]; and how many
    members left for being late. *)
Definition update_isr (max_lag max_lag_ms replica_id from_offset now : Z) (part : Partition L)
    : Partition L * Z :=
  let leader_leo := leo part in
  let part := if saturating_sub leader_leo from_offset <=? max_lag
              then set_caught_up_at (<[replica_id := now]> (p_follower_caught_up_at part)) part else part in
  let old_isr := p_isr part in
  let '(isr, time_n) :=
    reconcile_isr (p_leader part) old_isr (p_replicas part) leader_leo (p_committed_hwm part) max_lag
      max_lag_ms now (Some (replica_id, from_offset)) (replica_leo part)
      (λ id, p_follower_caught_up_at part !! id) in
  let part := if bool_decide (isr = old_isr) then part
              else set_caught_up_at (restamp old_isr isr (p_leader part) now (p_follower_caught_up_at part)) part in
  (set_isr isr part, time_n).

(** The in-sync set of a partition goes into the assignment, and from there
    to the file on the controller, to the queue of reports elsewhere. *)
Definition publish_isr (topic : string) (partition : Z) (part : Partition L) b : Broker L :=
  match b_cluster b with
  | None => b
  | Some c =>
    match get_assignment topic partition (assignment c) with
    | None => b
    | Some pa =>
      if bool_decide (pa_isr pa = p_isr part) then b else
      let asg := alter_assignment (set_pa_isr (p_isr part)) topic partition (assignment c) in
      if is_controller b
      then map_cluster (λ c, save_assignment (set_assignment (bump_generation asg) c)) b
      else enqueue_isr_report (isr_report topic partition (as_generation asg) part)
             (map_cluster (set_assignment asg) b)
    end
  end.

Definition handle_replica_fetch (topic : string) (partition from_offset max_bytes replica_id now : Z) b
    : result (Z * Z * Z * list FetchRecord) * Broker L :=
  match get_partition topic partition b with
  | Err _ => (Ok (NotFoundError, 0, 0, []), b)
  | Ok part =>
    if negb (is_leader (b_node_id b) part)
    then (Ok (NotLeaderForPartition, p_committed_hwm part, p_leader_epoch part, []), b) else
    let part := set_follower_leo (<[replica_id := from_offset]> (p_follower_leo part)) part in
    let '(part, b) :=
      match b_cluster b with
      | None => let part := catch_up_hwm part in (part, put_partition topic partition part b)
      | Some c =>
        let old_isr := p_isr part in
        let '(part, time_n) := update_isr (replica_lag_max_messages c) (effective_replica_lag_max_ms b)
                                 replica_id from_offset now part in
        let b := note_isr_time_shrink time_n
                   (if bool_decide (p_isr part = old_isr) then b else note_isr_delta old_isr (p_isr part) b) in
        let part := recompute_hwm part in
        (part, publish_isr topic partition part (put_partition topic partition part b))
      end in
    match ls_read_bytes from_offset 10000 max_bytes (p_log part) with
    | Err e => (Err e, b)
    | Ok recs => (Ok (0, p_committed_hwm part, p_leader_epoch part, map fetch_record_of recs), b)
    end
  end.

(** ** The follower *)

Definition append_replica_records (topic : string) (partition : Z) (records : list LogRecord)
    (leader_epoch now : Z) b : result unit * Broker L :=
  if bool_decide (records = []) then (Ok tt, b) else
  match get_partition topic partition b with
  | Err e => (Err e, b)
  | Ok part =>
    if is_leader (b_node_id b) part then (Ok tt, b) else
    let part := set_leader_epoch leader_epoch part in
    let '(r, l) := ls_append_records records now (p_log part) in
    let part := set_log l part in
    match r with
    | Err e => (Err e, put_partition topic partition part b)
    | Ok _ =>
      let part := if zlen (p_isr part) <=? 1 then catch_up_hwm part else part in
      (Ok tt, put_partition topic partition part b)
    end
  end.

(** The partitions followed: topic, partition, leader and own log end. *)
Definition follower_targets b : list (string * Z * Z * Z) :=
  flat_map (λ e, omap (λ q, let '(pid, p) := q in
      if is_replica (b_node_id b) p && negb (is_leader (b_node_id b) p)
      then Some (e.1, pid, p_leader p, leo p) else None) (reorder (map_to_list (t_partitions e.2))))
    (reorder (map_to_list (b_topics b))).

(** [fetch_once] once the response is there. *)
Definition take_replica_fetch (topic : string) (partition error_code leader_epoch : Z)
    (records : list FetchRecord) (now : Z) b : result unit * Broker L :=
  if (error_code =? NotLeaderForPartition) || negb (error_code =? 0) || bool_decide (records = [])
  then (Ok tt, b)
  else append_replica_records topic partition (map wire_to_record records) leader_epoch now b.

(** ** Dead brokers *)

(** The member is gone; the watermark of a leader follows the others. *)
Definition shrink_for_dead (node_id dead_id : Z) (part : Partition L) : Partition L :=
  let isr := filter (λ id, id ≠ dead_id) (p_isr part) in
  let part' := set_caught_up_at (delete dead_id (p_follower_caught_up_at part))
                 (set_follower_leo (delete dead_id (p_follower_leo part)) (set_isr isr part)) in
  if bool_decide (length isr = length (p_isr part)) then part'
  else if is_leader node_id part' then
    if zlen isr <=? 1 then catch_up_hwm part' else recompute_hwm part'
  else part'.

Definition loses_member (dead_id : Z) (part : Partition L) : bool := bool_decide (dead_id ∈ p_isr part).

Definition map_partitions (f : Partition L → Partition L) (t : Topic L) : Topic L :=
  mkTopic (t_id t) (t_name t) (f <$> t_partitions t).

Definition all_partitions b : list (Partition L) :=
  flat_map (λ e, map snd (map_to_list (t_partitions e.2))) (map_to_list (b_topics b)).

Definition shrink_local_isr_for_dead (dead_id : Z) b : Broker L :=
  let shrink_n := zlen (filter (λ p, loses_member dead_id p = true) (all_partitions b)) in
  map_meta (λ m, set_isr_totals (isr_expand_total m) (u64_wrapping_add (isr_shrink_total m) shrink_n)
              (isr_time_shrink_total m) m)
    (set_topics (map_partitions (shrink_for_dead (b_node_id b) dead_id) <$> b_topics b) b).

(** Reports for every partition led here; the assignment takes the in-sync
    sets over without a new generation. *)
Definition enqueue_isr_reports_for_local_leaders b : Broker L :=
  match b_cluster b with
  | None => b
  | Some c =>
    let gen_hint := as_generation (assignment c) in
    let reports := flat_map (λ e, omap (λ q, let '(pid, p) := q in
        if is_leader (b_node_id b) p then Some (isr_report e.1 pid gen_hint p) else None)
        (reorder (map_to_list (t_partitions e.2)))) (reorder (map_to_list (b_topics b))) in
    let asg := foldl (λ a r, alter_assignment (set_pa_isr (ir_isr r)) (ir_topic r) (ir_partition r) a)
                 (assignment c) reports in
    foldl (λ b r, enqueue_isr_report r b) (map_cluster (set_assignment asg) b) reports
  end.

(** One partition of the assignment: whether it changed and whether it has a
    new leader. *)
Definition fail_over (dead_id : Z) (live : list Z) (pa : PartitionAssignment)
    : PartitionAssignment * bool * bool :=
  let isr := filter (λ id, id ∈ live) (pa_isr pa) in
  if bool_decide (isr = []) then (pa, false, false) else
  let changed := bool_decide (length isr ≠ length (pa_isr pa)) in
  let pa := set_pa_isr isr pa in
  if (pa_leader pa =? dead_id) || negb (bool_decide (pa_leader pa ∈ live)) then
    match elect_leader (pa_replicas pa) isr live with
    | Some new_leader =>
      if pa_leader pa =? new_leader then (pa, changed, false)
      else (mkPartitionAssignment (pa_replicas pa) new_leader
              (if bool_decide (new_leader ∈ isr) then isr else isr ++ [new_leader])
              (u32_saturating_add (pa_leader_epoch pa) 1), true, true)
    | None => (pa, changed, false)
    end
  else (pa, changed, false).

Definition map_assignment (f : PartitionAssignment → PartitionAssignment) (a : AssignmentSnapshot)
    : AssignmentSnapshot :=
  mkAssignment (as_generation a)
    ((λ t, mkTopicAssignment (ta_topic_id t) (ta_name t) (f <$> ta_partitions t)) <$> as_topics a).

(** All partitions of an assignment, with the name the topic carries. *)
Definition assigned (a : AssignmentSnapshot) : list (string * Z * PartitionAssignment) :=
  flat_map (λ e, map (λ q, (ta_name e.2, q.1, q.2)) (reorder (map_to_list (ta_partitions e.2))))
    (reorder (map_to_list (as_topics a))).

(** ** The assignment on this node *)

Section local.
Context (open_log : string → Z → result L) (configure : string → L → L).

Definition ensure_partition (node_id pid : Z) (pa : PartitionAssignment) (t : Topic L)
    : result unit * Topic L :=
  let put p := mkTopic (t_id t) (t_name t) (<[pid := p]> (t_partitions t)) in
  if negb (bool_decide (node_id ∈ pa_replicas pa))
  then (Ok tt, mkTopic (t_id t) (t_name t) (delete pid (t_partitions t))) else
  let assign := set_replication (pa_leader pa) (pa_replicas pa) (pa_isr pa) (pa_leader_epoch pa) in
  match t_partitions t !! pid with
  | Some p => (Ok tt, put (assign p))
  | None =>
    match open_log (t_name t) pid with
    | Err e => (Err e, t)
    | Ok log => let p := assign (new_single pid log node_id) in (Ok tt, put (set_hwm (leo p) p))
    end
  end.

(** A member of the previous in-sync set that is still in sync. *)
Definition still_in_sync (live : list Z) (max_lag hwm : Z) (part : Partition L) (isr : list Z) (id : Z) : bool :=
  negb (bool_decide (id ∈ isr)) && negb (id =? p_leader part) && bool_decide (id ∈ p_replicas part) &&
  bool_decide (id ∈ live) &&
  (let leo_ := default 0 (p_follower_leo part !! id) in
   (saturating_sub (leo part) leo_ <=? max_lag) && (hwm <=? leo_)).

(** What the leader makes of the in-sync set an assignment gives it. *)
Definition keep_members (live : list Z) (max_lag max_lag_ms now : Z) (prev part : Partition L)
    : Partition L * Z :=
  let part := set_caught_up_at (p_follower_caught_up_at part ∪ p_follower_caught_up_at prev)
                (set_follower_leo (p_follower_leo part ∪ p_follower_leo prev) part) in
  let hwm := Z.max (p_committed_hwm part) (p_committed_hwm prev) in
  let isr := foldl (λ isr id, if still_in_sync live max_lag hwm part isr id then isr ++ [id] else isr)
               (p_isr part) (p_isr prev) in
  let after_offset := shrink_isr (p_leader part) isr (leo part) max_lag (replica_leo part) in
  let reconciled := shrink_isr_by_time (p_leader part) after_offset max_lag_ms now
                      (λ id, p_follower_caught_up_at part !! id) in
  (set_isr reconciled part, zlen (filter (λ id, id ≠ p_leader part ∧ id ∉ reconciled) after_offset)).

(** The followers that are not in sync are forgotten, and the watermark moves. *)
Definition settle (part : Partition L) : Partition L :=
  let keep (m : gmap Z Z) := filter (λ e, e.1 ∈ p_isr part) m in
  let part := set_caught_up_at (keep (p_follower_caught_up_at part))
                (set_follower_leo (keep (p_follower_leo part)) part) in
  if zlen (p_isr part) <=? 1 then catch_up_hwm part else recompute_hwm part.

Definition assign_partition (live : list Z) (max_lag max_lag_ms now : Z) (name : string)
    (st : result unit * Broker L) (q : Z * PartitionAssignment) : result unit * Broker L :=
  let '(pid, pa) := q in
  match st with
  | (Err e, b) => (Err e, b)
  | (Ok _, b) =>
    match b_topics b !! name with
    | None => (Ok tt, b)
    | Some t =>
      let prev := t_partitions t !! pid in
      let '(r, t) := ensure_partition (b_node_id b) pid pa t in
      let b := set_topics (<[name := t]> (b_topics b)) b in
      match r, t_partitions t !! pid with
      | Err e, _ => (Err e, b)
      | Ok _, Some part =>
        if is_leader (b_node_id b) part then
          let '(part', b) :=
            match prev with
            | None => (part, b)
            | Some prev =>
              let '(part', time_n) := keep_members live max_lag max_lag_ms now prev part in
              (part', note_isr_time_shrink time_n
                 (if bool_decide (p_isr part' = p_isr part) then b
                  else note_isr_delta (p_isr part) (p_isr part') b))
            end in
          (Ok tt, put_partition name pid (settle part') b)
        else (Ok tt, b)
      | Ok _, None => (Ok tt, b)
      end
    end
  end.

Definition assign_topic (live : list Z) (max_lag max_lag_ms now : Z) (st : result unit * Broker L)
    (e : string * TopicAssignment) : result unit * Broker L :=
  let '(name, ta) := e in
  match st with
  | (Err e, b) => (Err e, b)
  | (Ok _, b) =>
    let t := match b_topics b !! name with
             | Some t => mkTopic (ta_topic_id ta) (t_name t) (t_partitions t)
             | None => mkTopic (ta_topic_id ta) name ∅
             end in
    let b := set_topics (<[name := t]> (b_topics b)) b in
    match foldl (assign_partition live max_lag max_lag_ms now name) (Ok tt, b)
            (reorder (map_to_list (ta_partitions ta))) with
    | (Err e, b) => (Err e, b)
    | (Ok _, b) =>
      (Ok tt, map_meta (λ m, match rr_counters m !! name with
                             | Some _ => m
                             | None => set_rr_counters (<[name := 0]> (rr_counters m)) m
                             end)
                (set_topics (alter (map_partitions (λ p, set_log (configure name (p_log p)) p)) name
                               (b_topics b)) b))
    end
  end.

Definition apply_local_assignment (now : Z) b : result unit * Broker L :=
  match b_cluster b with
  | None => (Ok tt, b)
  | Some c =>
    let asg := assignment c in
    match foldl (assign_topic (live_brokers (membership c)) (replica_lag_max_messages c)
                   (effective_replica_lag_max_ms b) now) (Ok tt, b)
            (reorder (map_to_list (as_topics asg))) with
    | (Err e, b) => (Err e, b)
    | (Ok _, b) =>
      let max_id := foldl (λ m e, Z.max m (ta_topic_id e.2)) 0 (map_to_list (as_topics asg)) in
      (Ok tt, map_meta (λ m, if next_topic_id m <? u32_wrapping_add max_id 1
                             then set_next_topic_id (u32_wrapping_add max_id 1) m else m) b)
    end
  end.

Definition apply_cluster_state (generation : Z) (topics : list ClusterTopicState) (now : Z) b
    : result unit * Broker L :=
  match b_cluster b with
  | None => (Ok tt, b)
  | Some c =>
    if generation <? as_generation (assignment c) then (Ok tt, b)
    else apply_local_assignment now
           (map_cluster (λ c, save_assignment (set_assignment (apply_wire generation topics (assignment c)) c)) b)
  end.

Definition cluster_state_snapshot b : Z * Z * Z * list ClusterTopicState :=
  match b_cluster b with
  | None => (0, 0, b_node_id b, [])
  | Some c => (0, as_generation (assignment c), lowest_live_id (membership c), to_wire_topics (assignment c))
  end.

(** The dead broker's partitions go to the live members of their in-sync
    sets.  The start of a new epoch is the log end of the controller's own
    copy. *)
Definition on_broker_death (dead_id now : Z) b : result unit * Broker L :=
  match b_cluster b with
  | None => (Ok tt, b)
  | Some _ =>
    let b := map_cluster (λ c, set_membership (mark_dead dead_id (membership c)) c) b in
    let b := shrink_local_isr_for_dead dead_id b in
    match b_cluster b with
    | None => (Ok tt, b)
    | Some c =>
      if negb (member_is_controller (membership c)) then (Ok tt, enqueue_isr_reports_for_local_leaders b) else
      let live := live_brokers (membership c) in
      let outcomes := map (λ '(t, pid, pa), (t, pid, fail_over dead_id live pa)) (assigned (assignment c)) in
      let changed := existsb (λ '(_, _, (_, ch, _)), ch) outcomes in
      let asg := map_assignment (λ pa, (fail_over dead_id live pa).1.1) (assignment c) in
      let bumps := omap (λ '(t, pid, (pa, _, elected)),
        if (elected : bool) then Some (t, pid, pa_leader_epoch pa,
             match get_partition t pid b with Ok p => leo p | Err _ => 0 end) else None) outcomes in
      let b := if changed
               then map_cluster (λ c, save_assignment (set_assignment (bump_generation asg) c)) b
               else map_cluster (set_assignment asg) b in
      let b := foldl (λ b '(t, pid, epoch, start), record_epoch_start t pid epoch start b) b bumps in
      if changed then apply_local_assignment now b else (Ok tt, b)
    end
  end.

Definition handle_deaths (dead : list Z) (now : Z) b : Broker L :=
  foldl (λ b d, (on_broker_death d now b).2) b dead.

Definition handle_heartbeat_broker (broker_id now : Z) b : (Z * Z * Z * list Z) * Broker L :=
  match b_cluster b with
  | None => ((0, b_node_id b, 0, [b_node_id b]), b)
  | Some c =>
    let '(dead, m) := expire now (touch_self now (heartbeat broker_id now (membership c))) in
    let b := map_cluster (set_membership m) b in
    let b := if negb (bool_decide (dead = [])) && member_is_controller m
             then handle_deaths dead now b else b in
    match b_cluster b with
    | None => ((0, b_node_id b, 0, []), b)
    | Some c => ((0, lowest_live_id (membership c), as_generation (assignment c), live_brokers (membership c)), b)
    end
  end.

Definition tick_cluster (now : Z) b : Broker L :=
  match b_cluster b with
  | None => b
  | Some c =>
    let '(dead, m) := expire now (touch_self now (membership c)) in
    handle_deaths dead now (map_cluster (set_membership m) b)
  end.

(** Ends at the first death that cannot be handled. *)
Fixpoint bury (dead : list Z) (now : Z) b : result unit * Broker L :=
  match dead with
  | [] => (Ok tt, b)
  | d :: dead =>
    match on_broker_death d now b with
    | (Err e, b) => (Err e, b)
    | (Ok _, b) => bury dead now b
    end
  end.

Definition apply_controller_alive_set (alive : list Z) (now : Z) b : result unit * Broker L :=
  match b_cluster b with
  | None => (Ok tt, b)
  | Some c =>
    let missing := filter (λ id, id ≠ b_node_id b ∧ id ∉ alive) (live_brokers (membership c)) in
    match bury missing now b with
    | (Err e, b) => (Err e, b)
    | (Ok _, b) =>
      (Ok tt, map_cluster (λ c, set_membership
                (touch_self now (foldl (λ m id, heartbeat id now m) (membership c) alive)) c) b)
    end
  end.

End local.

(** ** The leader's report on the controller *)

Definition reported_isr (leader_id : Z) (replicas isr : list Z) : list Z :=
  foldl (λ out id, if negb (id =? leader_id) && bool_decide (id ∈ replicas) && negb (bool_decide (id ∈ out))
                   then out ++ [id] else out) [leader_id] isr.

Definition apply_leader_isr_update (topic : string) (partition leader_id leader_epoch : Z) (isr : list Z) b
    : (Z * Z) * Broker L :=
  match b_cluster b with
  | None => ((0, 0), b)
  | Some c =>
    if negb (is_controller b) then ((NotControllerError, generation b), b) else
    if bool_decide (topic = ""%string) then ((InvalidArg, generation b), b) else
    if bool_decide (isr = []) || negb (bool_decide (leader_id ∈ isr)) then ((InvalidArg, generation b), b) else
    match get_assignment topic partition (assignment c) with
    | None => ((NotFoundError, generation b), b)
    | Some pa =>
      if negb (pa_leader pa =? leader_id) then ((NotLeaderForPartition, generation b), b) else
      if leader_epoch <? pa_leader_epoch pa then ((InvalidProducerEpoch, generation b), b) else
      let new_isr := reported_isr leader_id (pa_replicas pa) isr in
      if bool_decide (pa_isr pa = new_isr) then ((0, generation b), b) else
      let asg := bump_generation (alter_assignment (set_pa_isr new_isr) topic partition (assignment c)) in
      ((0, as_generation asg), map_cluster (λ c, save_assignment (set_assignment asg c)) b)
    end
  end.

(** The leader takes the controller's generation over when its report has
    been accepted. *)
Definition align_assignment_generation (controller_generation : Z) b : Broker L :=
  map_cluster (λ c, if as_generation (assignment c) =? controller_generation then c
                    else save_assignment (set_assignment (set_generation controller_generation (assignment c)) c)) b.

Definition isr_sufficient (topic : string) (partition min_isr : Z) b : bool :=
  match b_cluster b with
  | None => true
  | Some _ => match get_partition topic partition b with
              | Ok p => min_isr <=? as_u32 (zlen (p_isr p))
              | Err _ => false
              end
  end.

Definition is_partition_leader (topic : string) (partition : Z) b : bool :=
  match get_partition topic partition b with Ok p => is_leader (b_node_id b) p | Err _ => false end.

End replication.
