(* ===== verification/ReplicationProps.v ===== *)
(** * Correctness of replication

    One leader and its followers, exchanging requests and responses that may
    be lost, repeated and reordered: the followers' logs are prefixes of the
    leader's, and whatever is below the committed watermark is on every in-sync
    replica. *)

From Stdlib Require Import Strings.String.
From S2P Require Import Prelude Bytes Core Record SparseIndex Segment SegmentProps GroupCommit PartitionLog PartitionLogProps BrokerLog Messages Assignor OffsetStore Group Cluster Broker KafkaRecords Txn LeaderEpoch Replication.
#[local] Open Scope Z_scope.

(** ** What the handlers do to the partition *)

Section handlers.
Context {L : Type} `{LogStoreLaws L}.
Implicit Types (b : Broker L) (part : Partition L).

(** The partition after an operation: its role, its records with [new]
    behind them, and a watermark that moved only over what the in-sync set
    holds. *)
Record advanced (part part' : Partition L) (recs new : list LogRecord) : Prop := {
  ad_role : same_role part part';
  ad_rep : ls_rep (p_log part') (recs ++ new);
  ad_new : consecutive (leo part) new;
  ad_leo : leo part' = leo part + zlen new;
  ad_hwm : p_committed_hwm part ≤ p_committed_hwm part';
  ad_holds : p_committed_hwm part' = p_committed_hwm part ∨ isr_holds part' (p_committed_hwm part');
}.

Lemma advanced_refl part recs : ls_rep (p_log part) recs → advanced part part recs [].
Proof.
  intros R. split; [done|by rewrite app_nil_r|done|rewrite zlen_nil; lia|done|by left].
Qed.

Lemma leo_nonneg part recs : ls_rep (p_log part) recs → 0 ≤ leo part.
Proof. intros R. unfold leo. destruct (ls_offsets _ _ R). lia. Qed.

(** Follower ends are not negative. *)
Definition leos_ok part : Prop := map_Forall (λ _ o, 0 ≤ o) (p_follower_leo part).

Lemma replica_leo_nonneg part recs id : ls_rep (p_log part) recs → leos_ok part → 0 ≤ replica_leo part id.
Proof.
  intros R F. unfold replica_leo. destruct (id =? p_leader part); [by eapply leo_nonneg|].
  destruct (p_follower_leo part !! id) as [o|] eqn:E; cbn; [by apply (F id)|lia].
Qed.

(** A new log under the same role, with the watermark recomputed or at the
    end of the log of a sole member. *)
Lemma advanced_log part recs new l' part' :
  ls_rep (p_log part) recs → leos_ok part → ls_rep l' (recs ++ new) → consecutive (leo part) new →
  ls_end l' = leo part + zlen new →
  part' = recompute_hwm (set_log l' part) ∨
  (p_isr part = [p_leader part] ∧ p_committed_hwm part ≤ leo part ∧ part' = catch_up_hwm (set_log l' part)) →
  advanced part part' recs new.
Proof.
  intros R F R' Hc He Hp. pose proof (zlen_nonneg new). destruct Hp as [->|(Hi & Hh & ->)].
  - destruct (recompute_spec (set_log l' part)) as (Hr & Hl & Hm & Ho).
    { intros id _. eapply (replica_leo_nonneg (set_log l' part)); done. }
    split; [etrans; [|exact Hr]; done|by rewrite Hl|done|unfold leo; by rewrite Hl|done|].
    destruct Ho as [->|Ho]; [by left|right].
    intros id Hid. rewrite (sr_isr _ _ Hr) in Hid. etrans; [by apply Ho|].
    apply same_role_leo; [done|unfold leo; by rewrite Hl].
  - destruct (catch_up_spec (set_log l' part)) as (Hr & Hl & Hm).
    split; [etrans; [|exact Hr]; done|by rewrite Hl|done|unfold leo; by rewrite Hl|rewrite Hm; cbn; lia|]. right. rewrite Hm.
    intros id Hid. rewrite (sr_isr _ _ Hr) in Hid. cbn in Hid. rewrite Hi in Hid.
    apply list_elem_of_singleton in Hid as ->. unfold replica_leo. rewrite (sr_leader _ _ Hr). cbn.
    rewrite Z.eqb_refl. unfold leo in *. rewrite Hl. cbn in *. lia.
Qed.

Lemma sole_member part : p_leader part ∈ p_isr part → zlen (p_isr part) ≤ 1 → p_isr part = [p_leader part].
Proof.
  destruct (p_isr part) as [|x [|y l]]; intros Hin Hz.
  - by apply not_elem_of_nil in Hin.
  - by apply list_elem_of_singleton in Hin as ->.
  - rewrite !zlen_cons in Hz. pose proof (zlen_nonneg l). lia.
Qed.

(** A produce in a cluster. *)
Lemma produce_advances b t p part recs ms acks now c :
  b_cluster b = Some c → get_partition t p b = Ok part → ls_rep (p_log part) recs → leos_ok part →
  p_leader part ∈ p_isr part → p_committed_hwm part ≤ leo part →
  batch_ok ms now → ls_room (zlen ms + 2) (p_log part) →
  let b' := (produce_with_acks t p ms acks now b).2 in
  b_node_id b' = b_node_id b ∧ b_cluster b' = Some c ∧
  ∃ part' new, get_partition t p b' = Ok part' ∧ advanced part part' recs new ∧
    (is_leader (b_node_id b) part = false → part' = part ∧ new = []).
Proof.
  intros Hc Hp R F Hl Hh Hms Hroom. unfold produce_with_acks, produce_inner.
  assert (Hnone : b_node_id b = b_node_id b ∧ b_cluster b = Some c ∧
    ∃ part' new, get_partition t p b = Ok part' ∧ advanced part part' recs new ∧
      (is_leader (b_node_id b) part = false → part' = part ∧ new = [])).
  { split; [done|]. split; [done|]. exists part, []. split; [done|]. split; [by apply advanced_refl|done]. }
  destruct (zlen ms =? 0); [exact Hnone|]. rewrite Hp, Hc. cbn [bool_decide].
  rewrite bool_decide_true by done. cbn [andb].
  destruct (is_leader (b_node_id b) part) eqn:Hlead; cbn [negb]; [|exact Hnone].
  destruct ((acks =? 255) && _); [exact Hnone|].
  destruct (append_part b part recs ms now 1 R Hms) as (l' & -> & R' & Ee & Hr');
    [eapply ls_room_mono; [exact Hroom|lia]|lia|].
  set (b1 := if 1 <? zlen ms then set_coalesced _ b else b).
  assert (Hb1 : get_partition t p b1 = Ok part ∧ b_cluster b1 = Some c ∧ b_node_id b1 = b_node_id b).
  { unfold b1. by destruct (1 <? zlen ms). }
  destruct Hb1 as (Hp1 & Hc1 & Hn1). set (part1 := advance_hwm b1 acks (set_log l' part)).
  assert (A : advanced part part1 recs (batch_records (leo part) now ms)).
  { eapply (advanced_log part recs _ l'); [done..|apply consecutive_batch|by rewrite zlen_batch_records|].
    unfold part1, advance_hwm. rewrite Hc1. cbn [bool_decide orb p_isr set_log].
    destruct (Z.eqb_spec (zlen (p_isr part)) 1) as [E1|]; [|case_match; by left].
    rewrite E1. cbn [Z.leb orb]. right. split; [|done]. by apply sole_member; [|lia]. }
  assert (Hp2 : get_partition t p (put_partition t p part1 b1) = Ok part1) by by eapply get_put.
  assert (Hr1 : ls_room (1 + 0) (p_log part1)).
  { assert (E1 : p_log part1 = l'); [|by rewrite E1].
    unfold part1, advance_hwm, catch_up_hwm, recompute_hwm. by repeat case_match. }
  assert (Hfl : ∃ r b2, (if negb (acks =? 0) && b_group_commit (put_partition t p part1 b1) &&
        negb (bool_decide (batch_records (leo part) now ms = []))
      then flush t p now (put_partition t p part1 b1) else (Ok tt, put_partition t p part1 b1)) = (r, b2) ∧
      b_node_id b2 = b_node_id b ∧ b_cluster b2 = Some c ∧
      ∃ part2, get_partition t p b2 = Ok part2 ∧ advanced part part2 recs (batch_records (leo part) now ms)).
  { destruct (negb _ && _ && _); [|by eauto 10].
    destruct (flush_part _ t p part1 _ now 0 Hp2 (ad_rep _ _ _ _ A) ltac:(lia) Hr1) as (l2 & -> & R2 & E2 & _).
    do 2 eexists. split; [done|]. split; [done|]. split; [done|].
    exists (set_log l2 part1). split; [by eapply get_put|]. destruct A as [Ar An Ac Al Ah Ao].
    split; [by etrans|done|done|unfold leo in *; cbn; by rewrite E2|done|].
    destruct Ao as [?|Ao]; [by left|right]. intros id Hid. etrans; [by apply Ao|].
    apply same_role_leo; [done|]. unfold leo. cbn. by rewrite E2. }
  destruct Hfl as (r & b2 & -> & Hn2 & Hc2 & part2 & Hp2' & A2).
  assert (Hend : b_node_id b2 = b_node_id b ∧ b_cluster b2 = Some c ∧
    ∃ part' new, get_partition t p b2 = Ok part' ∧ advanced part part' recs new ∧
      (true = false → part' = part ∧ new = [])).
  { split; [done|]. split; [done|]. by exists part2, (batch_records (leo part) now ms). }
  destruct r; [case_match|]; exact Hend.
Qed.

(** ** ReplicaFetch *)

Lemma publish_isr_same t p part b :
  b_topics (publish_isr t p part b) = b_topics b ∧ b_node_id (publish_isr t p part b) = b_node_id b ∧
  ∀ c, b_cluster b = Some c → ∃ c', b_cluster (publish_isr t p part b) = Some c' ∧
    replica_lag_max_messages c' = replica_lag_max_messages c.
Proof.
  unfold publish_isr. destruct (b_cluster b) as [c|] eqn:Ec; [|done].
  assert (Hsame : b_topics b = b_topics b ∧ b_node_id b = b_node_id b ∧ ∀ c0, Some c = Some c0 →
    ∃ c', b_cluster b = Some c' ∧ replica_lag_max_messages c' = replica_lag_max_messages c0) by naive_solver.
  destruct (get_assignment _ _ _); [|done]. case_bool_decide; [done|].
  destruct (is_controller b); unfold enqueue_isr_report, map_meta, map_cluster; cbn; rewrite Ec; cbn; naive_solver.
Qed.

Lemma note_isr_same before after n b :
  let b' := note_isr_time_shrink n (if bool_decide (after = before) then b else note_isr_delta before after b) in
  b_topics b' = b_topics b ∧ b_node_id b' = b_node_id b ∧ b_cluster b' = b_cluster b.
Proof. cbn zeta. case_bool_decide; done. Qed.

(** The in-sync set and the follower ends after a ReplicaFetch. *)
Lemma update_isr_spec max_lag ms id o now part part' n :
  update_isr max_lag ms id o now part = (part', n) →
  p_log part' = p_log part ∧ p_leader part' = p_leader part ∧ p_replicas part' = p_replicas part ∧
  p_follower_leo part' = p_follower_leo part ∧ p_committed_hwm part' = p_committed_hwm part ∧
  p_leader part ∈ p_isr part' ∧
  (0 ≤ max_lag → id ∈ p_replicas part → leo part ≤ o → p_committed_hwm part ≤ o → id ∈ p_isr part') ∧
  ∀ x, x ∈ p_isr part' → x = p_leader part ∨ x ∈ p_isr part ∨
    (x = id ∧ x ∈ p_replicas part ∧ p_committed_hwm part ≤ o).
Proof.
  unfold update_isr. set (part0 := if _ <=? max_lag then _ else part).
  assert (E0 : p_log part0 = p_log part ∧ p_leader part0 = p_leader part ∧ p_replicas part0 = p_replicas part ∧
    p_follower_leo part0 = p_follower_leo part ∧ p_committed_hwm part0 = p_committed_hwm part ∧ p_isr part0 = p_isr part)
    by (unfold part0; by case_match).
  destruct E0 as (El & Elead & Er & Ef & Eh & Ei). clearbody part0.
  pose proof (reconcile_elem (p_leader part0) (p_isr part0) (p_replicas part0) (leo part) (p_committed_hwm part0)
    max_lag ms now id o (replica_leo part0) (λ x, p_follower_caught_up_at part0 !! x)) as Hx.
  destruct (reconcile_isr _ _ _ _ _ _ _ _ _ _ _) as [isr tn]. cbn [fst] in Hx.
  set (part1 := if bool_decide _ then _ else _). intros [= <- <-].
  assert (E1 : p_log part1 = p_log part0 ∧ p_leader part1 = p_leader part0 ∧ p_replicas part1 = p_replicas part0 ∧
    p_follower_leo part1 = p_follower_leo part0 ∧ p_committed_hwm part1 = p_committed_hwm part0)
    by (unfold part1; by case_bool_decide).
  destruct E1 as (E1 & E2 & E3 & E4 & E5). clearbody part1. cbn. rewrite E1, E2, E3, E4, E5, El, Elead, Er, Ef, Eh.
  do 5 (split; [done|]).
  rewrite Elead, Ei, Er, Eh in Hx. split; [apply Hx; by left|]. split.
  { intros Hlag Hr Hle Hh. apply Hx. right. right. split; [done|]. unfold isr_rejoin_eligible, saturating_sub.
    rewrite bool_decide_true by done. rewrite !Zleb_true by lia. done. }
  intros x Hin. apply Hx in Hin as [->|[(? & _)|(-> & He)]]; [by left|by auto|right; right].
  unfold isr_rejoin_eligible in He. apply andb_prop in He as [[He _]%andb_prop Hh].
  split; [done|]. split; [by apply bool_decide_eq_true in He|lia].
Qed.

(** What the leader makes of a question from [id] at [o]. *)
Record served (part part' : Partition L) (id o : Z) : Prop := {
  se_log : p_log part' = p_log part;
  se_leader : p_leader part' = p_leader part;
  se_replicas : p_replicas part' = p_replicas part;
  se_follower_leo : p_follower_leo part' = <[id := o]> (p_follower_leo part);
  se_self : p_leader part ∈ p_isr part';
  se_isr : ∀ x, x ∈ p_isr part' → x = p_leader part ∨ x ∈ p_isr part ∨
    (x = id ∧ x ∈ p_replicas part ∧ p_committed_hwm part ≤ o);
  se_hwm : p_committed_hwm part ≤ p_committed_hwm part';
  se_holds : p_committed_hwm part' = p_committed_hwm part ∨ isr_holds part' (p_committed_hwm part');
}.

Lemma replica_fetch_serves `{IterOrder} b t p part recs c o mb id now :
  b_cluster b = Some c → get_partition t p b = Ok part → ls_rep (p_log part) recs → leos_ok part →
  is_leader (b_node_id b) part = true → 0 ≤ o →
  ∃ part' rs b', handle_replica_fetch t p o mb id now b =
      (Ok (0, p_committed_hwm part', p_leader_epoch part', map fetch_record_of rs), b') ∧
    get_partition t p b' = Ok part' ∧ b_node_id b' = b_node_id b ∧
    (∃ c', b_cluster b' = Some c' ∧ replica_lag_max_messages c' = replica_lag_max_messages c) ∧
    served part part' id o ∧
    (0 ≤ replica_lag_max_messages c → id ∈ p_replicas part → leo part ≤ o → p_committed_hwm part ≤ o →
       id ∈ p_isr part') ∧
    rs `sublist_of` filter (λ r, o ≤ rec_offset r) recs ∧ head rs = head (filter (λ r, o ≤ rec_offset r) recs).
Proof.
  intros Hc Hp R F Hlead Ho. unfold handle_replica_fetch. rewrite Hp, Hlead. cbn [negb]. rewrite Hc.
  set (part0 := set_follower_leo _ part).
  destruct (update_isr _ _ id o now part0) as [part1 n] eqn:Eu.
  destruct (update_isr_spec _ _ _ _ _ _ _ _ Eu) as (El & Ele & Er & Ef & Eh & Hself & Hjoin & Hisr).
  assert (F1 : leos_ok part1) by (unfold leos_ok; rewrite Ef; by apply map_Forall_insert_2).
  destruct (recompute_spec part1) as (Hr & Hl & Hm & Hh).
  { intros x _. eapply (replica_leo_nonneg part1); [by rewrite El|done]. }
  set (b1 := note_isr_time_shrink n _). destruct (note_isr_same (p_isr part) (p_isr part1) n b) as (N1 & N2 & N3).
  cbn zeta in N1, N2, N3. change (p_isr part0) with (p_isr part) in b1. fold b1 in N1, N2, N3.
  set (part2 := recompute_hwm part1) in *.
  destruct (publish_isr_same t p part2 (put_partition t p part2 b1)) as (P1 & P2 & P3).
  set (b2 := publish_isr t p part2 _) in *.
  destruct (ls_read_bytes_ok (p_log part) recs o 10000 mb R ltac:(lia)) as (rs & E & Hs & Hhd).
  rewrite Hl, El. cbn [p_log set_follower_leo part0]. rewrite E. exists part2, rs, b2. split; [done|].
  split.
  { rewrite (get_same t p _ _ P1). apply (get_put t p part). by rewrite (get_same t p _ _ N1). }
  split; [rewrite P2; exact N2|]. split; [apply P3; change (b_cluster b1 = Some c); by rewrite N3|].
  destruct Hr as [Hrl Hrr Hri Hrf].
  split; [|split; [intros Hlag Hin Hle Hhw; rewrite Hri; by apply Hjoin|done]].
  split; [by rewrite Hl, El|by rewrite Hrl, Ele|by rewrite Hrr, Er|by rewrite Hrf, Ef|by rewrite Hri| |rewrite Eh in Hm; exact Hm|].
  - intros x Hx. rewrite Hri in Hx. by apply Hisr.
  - destruct Hh as [->|Hh]; [left; by rewrite Eh|right]. intros x Hx. rewrite Hri in Hx. etrans; [by apply Hh|].
    apply same_role_leo; [by split|unfold leo; by rewrite Hl].
Qed.

(** ** The follower *)

Lemma wire_record r : wire_to_record (fetch_record_of r) = r.
Proof. by destruct r. Qed.

Lemma in_line_consecutive rs : ∀ n, consecutive n (take (in_line n rs) rs).
Proof.
  induction rs as [|r rs IH]; intros n; cbn [in_line]; [done|].
  destruct (Z.eqb_spec (rec_offset r) n); cbn; [|done]. split; [done|apply IH].
Qed.

Lemma in_line_le rs : ∀ n, (in_line n rs ≤ length rs)%nat.
Proof. induction rs as [|r rs IH]; intros n; cbn; [lia|]. case_match; [|lia]. specialize (IH (n + 1)). lia. Qed.

(** A follower stores the records that are next in line. *)
Lemma replica_append_stores b t p part recs rs epoch now :
  get_partition t p b = Ok part → ls_rep (p_log part) recs → is_leader (b_node_id b) part = false →
  Forall record_ok rs → ls_room (zlen rs) (p_log part) → clock_ok now →
  let k := in_line (leo part) rs in
  let b' := (append_replica_records t p rs epoch now b).2 in
  b_node_id b' = b_node_id b ∧ b_cluster b' = b_cluster b ∧
  ∃ part', get_partition t p b' = Ok part' ∧ same_role part part' ∧
    ls_rep (p_log part') (recs ++ take k rs) ∧ leo part' = leo part + Z.of_nat k ∧
    ∀ n, ls_room (Z.of_nat k + n) (p_log part) → ls_room n (p_log part').
Proof.
  intros Hp R Hl HF Hroom Hnow k. unfold append_replica_records. case_bool_decide as Hn.
  { subst rs. cbn. split; [done|]. split; [done|]. exists part. rewrite app_nil_r. split_and!; [done..|lia|done]. }
  rewrite Hp, Hl. cbn [p_log set_leader_epoch].
  destruct (ls_append_records_ok (p_log part) recs rs now R HF Hroom Hnow) as (r & l' & E & R' & Ee & _ & _ & Hrm).
  rewrite E. set (part1 := set_log l' _).
  assert (S1 : same_role part part1) by done.
  assert (Hend : ∀ part2, same_role part1 part2 → p_log part2 = l' →
    ∃ part', get_partition t p (put_partition t p part2 b) = Ok part' ∧ same_role part part' ∧
      ls_rep (p_log part') (recs ++ take k rs) ∧ leo part' = leo part + Z.of_nat k ∧
      ∀ n, ls_room (Z.of_nat k + n) (p_log part) → ls_room n (p_log part')).
  { intros part2 S2 E2. exists part2. split; [by eapply get_put|]. split; [by etrans|].
    unfold leo in *. by rewrite E2. }
  destruct r; cbn [snd]; (split; [done|]; split; [done|]); apply Hend; try done.
  - case_match; [apply catch_up_spec|done].
  - case_match; [apply catch_up_spec|done].
Qed.

(** ** Dead brokers *)

Lemma shrink_for_dead_spec node dead part recs :
  ls_rep (p_log part) recs → leos_ok part → dead ≠ p_leader part → p_leader part ∈ p_isr part →
  p_committed_hwm part ≤ leo part →
  let part' := shrink_for_dead node dead part in
  p_log part' = p_log part ∧ p_leader part' = p_leader part ∧ p_replicas part' = p_replicas part ∧
  p_isr part' = filter (λ id, id ≠ dead) (p_isr part) ∧ p_follower_leo part' = delete dead (p_follower_leo part) ∧
  p_committed_hwm part ≤ p_committed_hwm part' ∧
  (p_committed_hwm part' = p_committed_hwm part ∨ isr_holds part' (p_committed_hwm part')).
Proof.
  intros R F Hd Hl Hh. cbn zeta. unfold shrink_for_dead. set (isr := filter _ _). set (part1 := set_caught_up_at _ _).
  case_bool_decide; [do 6 (split; [done|]); by left|]. destruct (is_leader node part1); [|do 6 (split; [done|]); by left].
  assert (F1 : leos_ok part1) by by apply map_Forall_delete.
  assert (Hl1 : p_leader part1 ∈ p_isr part1) by (apply list_elem_of_filter; split; [by apply not_eq_sym|exact Hl]).
  destruct (Z.leb_spec (zlen isr) 1) as [Hz|].
  - destruct (catch_up_spec part1) as ([E1 E2 E3 E4] & El & Em). rewrite El, E1, E2, E3, E4, Em.
    do 5 (split; [done|]). split; [cbn; lia|]. right.
    intros x Hx. rewrite E3, (sole_member part1 Hl1 Hz) in Hx. apply list_elem_of_singleton in Hx as ->.
    unfold replica_leo. rewrite E1, Z.eqb_refl. unfold leo in *. rewrite El. cbn in *. lia.
  - destruct (recompute_spec part1) as ([E1 E2 E3 E4] & El & Hm & Ho).
    { intros x _. by eapply (replica_leo_nonneg part1). }
    rewrite El, E1, E2, E3, E4. do 5 (split; [done|]). split; [done|]. destruct Ho as [->|Ho]; [by left|right].
    intros x Hx. rewrite E3 in Hx. etrans; [by apply Ho|]. apply same_role_leo; [by split|unfold leo; by rewrite El].
Qed.

Lemma get_map_partitions f t p b part :
  get_partition t p b = Ok part →
  get_partition t p (set_topics (map_partitions f <$> b_topics b) b) = Ok (f part).
Proof.
  intros (top & Ht & Hp)%get_partition_ok. apply get_partition_ok. exists (map_partitions f top). cbn.
  rewrite !lookup_fmap, Ht, Hp. done.
Qed.

Lemma enqueue_reports_same `{IterOrder} b :
  let b' := enqueue_isr_reports_for_local_leaders b in
  b_topics b' = b_topics b ∧ b_node_id b' = b_node_id b ∧ (is_Some (b_cluster b) → is_Some (b_cluster b')).
Proof.
  cbn zeta. unfold enqueue_isr_reports_for_local_leaders. destruct (b_cluster b) as [c|] eqn:Ec; [|by rewrite Ec].
  set (reports := flat_map _ _). set (b0 := map_cluster _ b).
  assert (Hb0 : b_topics b0 = b_topics b ∧ b_node_id b0 = b_node_id b ∧ is_Some (b_cluster b0))
    by (unfold b0, map_cluster; cbn; rewrite Ec; eauto).
  clearbody b0. clear Ec. revert b0 Hb0. induction reports as [|r rs IH]; intros b0 (? & ? & ?); cbn [foldl]; [done|].
  by apply IH.
Qed.

(** A broker that is not the controller sees another one die. *)
Lemma death_shrinks `{IterOrder} open_log configure b t p part c dead now :
  b_cluster b = Some c → member_is_controller (mark_dead dead (membership c)) = false →
  get_partition t p b = Ok part →
  let b' := (on_broker_death open_log configure dead now b).2 in
  b_node_id b' = b_node_id b ∧ is_Some (b_cluster b') ∧
  get_partition t p b' = Ok (shrink_for_dead (b_node_id b) dead part).
Proof.
  intros Hc Hm Hp. cbn zeta. unfold on_broker_death. rewrite Hc.
  set (b1 := map_cluster _ b). set (b2 := shrink_local_isr_for_dead dead b1).
  assert (Ec : b_cluster b2 = Some (set_membership (mark_dead dead (membership c)) c)).
  { unfold b2, b1, map_cluster. cbn. by rewrite Hc. }
  rewrite Ec. cbn [membership set_membership]. rewrite Hm. cbn [negb snd].
  destruct (enqueue_reports_same b2) as (E1 & E2 & E3). cbn zeta in *.
  split; [by rewrite E2|]. split; [apply E3; rewrite Ec; eauto|].
  rewrite (get_same t p _ _ E1). by apply (get_map_partitions _ t p b1).
Qed.

End handlers.

(** ** One leader and its followers *)

Section tenure.
Context {L : Type} `{LogStoreLaws L} (open_log : string → Z → result L) (configure : string → L → L).
Context (t : string) (p ldr : Z).
Implicit Types (b : Broker L) (ns : gmap Z (Broker L)) (recs : list LogRecord).

Inductive packet :=
  | Ask (replica dst from_offset : Z)
  | Reply (replica error_code epoch : Z) (records : list FetchRecord).

(** The brokers, and every request and response ever sent: each may be
    delivered at any time, any number of times. *)
Record net := mkNet {
  nodes : gmap Z (Broker L);
  wires : list packet;
}.

(** What the brokers do while the assignment of the partition stays: produce,
    the three parts of a replica fetch, and the loss of other brokers as seen by
    one that is not the controller. *)
Inductive repl_step : net → net → Prop :=
  | rp_produce ns w id b ms acks now :
      ns !! id = Some b → batch_ok ms now →
      (∀ q, get_partition t p b = Ok q → ls_room (zlen ms + 2) (p_log q)) →
      repl_step (mkNet ns w) (mkNet (<[id := (produce_with_acks t p ms acks now b).2]> ns) w)
  | rp_ask (i : IterOrder) ns w id b dst o :
      ns !! id = Some b → (t, p, dst, o) ∈ follower_targets b →
      repl_step (mkNet ns w) (mkNet ns (Ask id dst o :: w))
  | rp_serve (i : IterOrder) ns w id dst o b mb now code hwm ep rs b' :
      Ask id dst o ∈ w → ns !! dst = Some b →
      handle_replica_fetch t p o mb id now b = (Ok (code, hwm, ep, rs), b') →
      repl_step (mkNet ns w) (mkNet (<[dst := b']> ns) (Reply id code ep rs :: w))
  | rp_take ns w id code ep rs b now :
      Reply id code ep rs ∈ w → ns !! id = Some b → clock_ok now →
      (∀ q, get_partition t p b = Ok q → ls_room (zlen rs) (p_log q)) →
      repl_step (mkNet ns w) (mkNet (<[id := (take_replica_fetch t p code ep rs now b).2]> ns) w)
  | rp_death (i : IterOrder) ns w id b c dead now :
      ns !! id = Some b → b_cluster b = Some c → dead ≠ id →
      member_is_controller (mark_dead dead (membership c)) = false →
      repl_step (mkNet ns w) (mkNet (<[id := (on_broker_death open_log configure dead now b).2]> ns) w).

(** The log of a broker ends at or behind an offset. *)
Definition reaches ns (id o : Z) : Prop :=
  ∃ b q, ns !! id = Some b ∧ get_partition t p b = Ok q ∧ o ≤ leo q.

(** A replica with a prefix of the records. *)
Definition node_ok (start : Z) recs (id : Z) b : Prop :=
  ∃ q rq, get_partition t p b = Ok q ∧ b_node_id b = id ∧ is_Some (b_cluster b) ∧ p_leader q = ldr ∧
    ls_rep (p_log q) rq ∧ leo q = start + zlen rq ∧ rq `prefix_of` recs.

Record leads ns recs b (q : Partition L) : Prop := {
  ld_part : get_partition t p b = Ok q;
  ld_rep : ls_rep (p_log q) recs;
  ld_leos : leos_ok q;
  ld_self : ldr ∈ p_isr q;
  ld_hwm : 0 ≤ p_committed_hwm q;
  ld_isr : ∀ id, id ∈ p_isr q → reaches ns id (p_committed_hwm q);
  ld_known : ∀ id o, p_follower_leo q !! id = Some o → id ≠ ldr → reaches ns id o;
}.

(** The invariant of a tenure: the records of the leader, numbered from
    [start] on. *)
Record tenure (start : Z) recs (n : net) : Prop := {
  tn_records : consecutive start recs;
  tn_nodes : ∀ id b, nodes n !! id = Some b → node_ok start recs id b;
  tn_leader : ∃ b q, nodes n !! ldr = Some b ∧ leads (nodes n) recs b q;
  tn_asks : ∀ id dst o, Ask id dst o ∈ wires n → id ≠ ldr ∧ 0 ≤ o ∧ reaches (nodes n) id o;
  tn_replies : ∀ id code ep rs, Reply id code ep rs ∈ wires n → map wire_to_record rs `sublist_of` recs;
}.

Lemma reaches_mono ns id o o' : reaches ns id o → o' ≤ o → reaches ns id o'.
Proof. intros (b & q & Hb & Hq & Ho) Hle. exists b, q. split_and!; [done..|lia]. Qed.

Lemma reaches_insert ns id x o b b' q q' :
  reaches ns x o → ns !! id = Some b → get_partition t p b = Ok q → get_partition t p b' = Ok q' →
  leo q ≤ leo q' → reaches (<[id := b']> ns) x o.
Proof.
  intros (bx & qx & Hx & Hq & Ho) Hb Hp Hp' Hl. destruct (decide (x = id)) as [->|Hne].
  - exists b', q'. rewrite lookup_insert_eq. assert (qx = q) as -> by congruence. split_and!; [done..|lia].
  - exists bx, qx. by rewrite lookup_insert_ne.
Qed.

Lemma node_ok_prefix start recs recs' id b : node_ok start recs id b → recs `prefix_of` recs' → node_ok start recs' id b.
Proof. intros (q & rq & ? & ? & ? & ? & ? & ? & ?) Hp. exists q, rq. split_and!; try done. by etrans. Qed.

(** The in-sync set reaches what the leader knows it to hold. *)
Lemma holds_reaches ns b q recs h :
  ns !! ldr = Some b → get_partition t p b = Ok q → ls_rep (p_log q) recs → p_leader q = ldr →
  (∀ id, id ∈ p_isr q → reaches ns id 0) →
  (∀ id o, p_follower_leo q !! id = Some o → id ≠ ldr → reaches ns id o) →
  isr_holds q h → ∀ id, id ∈ p_isr q → reaches ns id h.
Proof.
  intros Hb Hp R Hl H0' Hk Hh id Hid. specialize (Hh id Hid). unfold replica_leo in Hh. rewrite Hl in Hh.
  destruct (Z.eqb_spec id ldr) as [Heq|Hne]; [rewrite Heq; by exists b, q|].
  destruct (p_follower_leo q !! id) as [o|] eqn:E; cbn in Hh.
  - by eapply reaches_mono; [apply Hk|].
  - by eapply reaches_mono; [apply H0'|].
Qed.

(** A broker other than the leader has changed. *)
Lemma tenure_node start recs ns w id b b' q q' rq rq' :
  tenure start recs (mkNet ns w) → id ≠ ldr → ns !! id = Some b →
  get_partition t p b = Ok q → ls_rep (p_log q) rq → leo q ≤ leo q' →
  get_partition t p b' = Ok q' → b_node_id b' = id → is_Some (b_cluster b') → p_leader q' = ldr →
  ls_rep (p_log q') rq' → leo q' = start + zlen rq' → rq' `prefix_of` recs →
  tenure start recs (mkNet (<[id := b']> ns) w).
Proof.
  intros [T1 T2 (bl & ql & Hbl & [L1 L2 L3 L4 L7 L5 L6]) T4 T5] Hne Hb Hq R Hle Hq' Hid Hc Hl R' He Hp. cbn in *.
  assert (M : ∀ x o, reaches ns x o → reaches (<[id := b']> ns) x o) by (intros; by eapply reaches_insert).
  split; cbn.
  - done.
  - intros x bx. destruct (decide (x = id)) as [->|Hx].
    + rewrite lookup_insert_eq. intros [= <-]. by exists q', rq'.
    + rewrite lookup_insert_ne by done. apply T2.
  - exists bl, ql. rewrite lookup_insert_ne by done. split; [done|]. split; eauto.
  - intros x dst o Hin. destruct (T4 _ _ _ Hin) as (? & ? & ?). auto.
  - done.
Qed.

(** The leader has changed. *)
Lemma tenure_leader start recs ns w b b' q q' new :
  tenure start recs (mkNet ns w) → ns !! ldr = Some b → get_partition t p b = Ok q →
  get_partition t p b' = Ok q' → b_node_id b' = ldr → is_Some (b_cluster b') → p_leader q' = ldr →
  ls_rep (p_log q') (recs ++ new) → consecutive (leo q) new → leo q' = leo q + zlen new →
  leos_ok q' → ldr ∈ p_isr q' →
  (∀ x, x ∈ p_isr q' → reaches ns x (p_committed_hwm q)) →
  (∀ x o, p_follower_leo q' !! x = Some o → x ≠ ldr → reaches ns x o) →
  p_committed_hwm q ≤ p_committed_hwm q' →
  p_committed_hwm q' = p_committed_hwm q ∨ isr_holds q' (p_committed_hwm q') →
  tenure start (recs ++ new) (mkNet (<[ldr := b']> ns) w).
Proof.
  intros [T1 T2 (bl & ql & Hbl & LD) T4 T5] Hb Hq Hq' Hid Hc Hl R' Hnew He F Hself Hisr Hk Hm Hh. cbn in *.
  rewrite Hb in Hbl. injection Hbl as <-. destruct LD as [L1 L2 _ _ H0' _ _]. rewrite Hq in L1. injection L1 as <-.
  assert (Hlq : leo q ≤ leo q') by (pose proof (zlen_nonneg new); lia).
  assert (M : ∀ x o, reaches ns x o → reaches (<[ldr := b']> ns) x o) by (intros; by eapply reaches_insert).
  assert (Hz : leo q = start + zlen recs).
  { destruct (T2 _ _ Hb) as (q1 & rq1 & Hq1 & _ & _ & _ & R1 & Hl1 & Hp1). rewrite Hq in Hq1. injection Hq1 as <-.
    by rewrite (ls_rep_unique _ _ _ R1 L2) in Hl1. }
  split; cbn.
  - apply consecutive_app. split; [done|]. by rewrite <- Hz.
  - intros x bx. destruct (decide (x = ldr)) as [->|Hx].
    + rewrite lookup_insert_eq. intros [= <-]. exists q', (recs ++ new). split_and!; try done. rewrite zlen_app. lia.
    + rewrite lookup_insert_ne by done. intros Hbx. eapply node_ok_prefix; [by apply T2|by apply prefix_app_r].
  - exists b', q'. rewrite lookup_insert_eq. split; [done|]. split; try done; [lia| |by eauto].
    destruct Hh as [->|Hh]; [by eauto|].
    eapply (holds_reaches _ b' q' (recs ++ new)); try done; [by rewrite lookup_insert_eq| |by eauto].
    intros x Hx. eapply reaches_mono; [by eauto|done].
  - intros x dst o Hin. destruct (T4 _ _ _ Hin) as (? & ? & ?). auto.
  - intros x code ep rs Hin. eapply transitivity; [by eapply T5|]. by apply sublist_inserts_r.
Qed.

(** ** Every step keeps the invariant *)

Lemma consecutive_lookup rs : ∀ n i r, consecutive n rs → rs !! i = Some r → rec_offset r = n + Z.of_nat i.
Proof.
  induction rs as [|x rs IH]; intros n i r Hc Hi; [done|]. destruct Hc as [Hx Hc]. destruct i as [|i]; cbn in Hi.
  - injection Hi as <-. lia.
  - rewrite (IH _ _ _ Hc Hi). lia.
Qed.

(** Records next in line after a prefix of a numbered log extend the prefix. *)
Lemma line_prefix start recs xs : ∀ rq,
  consecutive start recs → rq `prefix_of` recs → consecutive (start + zlen rq) xs →
  (∀ x, x ∈ xs → x ∈ recs) → (rq ++ xs) `prefix_of` recs.
Proof.
  induction xs as [|x xs IH]; intros rq Hc Hp Hx Hin; [by rewrite app_nil_r|].
  destruct Hx as [Hox Hx]. assert (Hxr : x ∈ recs) by (apply Hin; left).
  apply list_elem_of_lookup in Hxr as [i Hi]. pose proof (consecutive_lookup _ _ _ _ Hc Hi) as Ho.
  assert (i = length rq) as -> by (unfold zlen in *; lia).
  destruct Hp as [rest ->]. rewrite lookup_app_r, Nat.sub_diag in Hi by lia.
  destruct rest as [|y rest]; [done|]. injection Hi as ->.
  change (x :: xs) with ([x] ++ xs). rewrite app_assoc. apply IH; [done|..].
  - exists rest. by rewrite <- app_assoc.
  - rewrite zlen_app. change (zlen [x]) with 1. by rewrite Z.add_assoc.
  - intros z Hz. apply Hin. by right.
Qed.

Lemma tenure_produce start recs ns w id b ms acks now :
  tenure start recs (mkNet ns w) → ns !! id = Some b → batch_ok ms now →
  (∀ q, get_partition t p b = Ok q → ls_room (zlen ms + 2) (p_log q)) →
  ∃ new, tenure start (recs ++ new) (mkNet (<[id := (produce_with_acks t p ms acks now b).2]> ns) w).
Proof.
  intros T Hb Hms Hroom. pose proof T as [T1 T2 (bl & ql & Hbl & LD) T4 T5]. cbn in *.
  destruct (T2 _ _ Hb) as (q & rq & Hq & Hid & [c Hc] & Hl & Rq & Hleo & Hp).
  destruct (decide (id = ldr)) as [->|Hne].
  - rewrite Hb in Hbl. injection Hbl as <-. destruct LD as [L1 L2 L3 L4 L7 L5 L6]. rewrite Hq in L1. injection L1 as <-.
    assert (Hh : p_committed_hwm q ≤ leo q).
    { destruct (L5 ldr L4) as (b0 & q0 & Hb0 & Hq0 & Hle). rewrite Hb in Hb0. injection Hb0 as <-.
      rewrite Hq in Hq0. by injection Hq0 as <-. }
    destruct (produce_advances b t p q recs ms acks now c) as (Hn' & Hc' & q' & new & Hq' & [[A1 A2 A3 A4] An Ac Al Ah Ao] & _);
      [done..|by rewrite Hl|done|done|by apply Hroom|].
    exists new. eapply tenure_leader; try done.
    + by rewrite Hn'.
    + by rewrite A1.
    + unfold leos_ok. by rewrite A4.
    + by rewrite A3.
    + intros x Hx. rewrite A3 in Hx. by apply L5.
    + intros x o Hx. rewrite A4 in Hx. by apply L6.
  - exists []. rewrite app_nil_r. unfold produce_with_acks, produce_inner.
    assert (Hsame : tenure start recs (mkNet (<[id := b]> ns) w)) by (by rewrite insert_id).
    destruct (zlen ms =? 0); [done|]. rewrite Hq, Hc, bool_decide_true by done. cbn [andb].
    assert (Hf : is_leader (b_node_id b) q = false) by (unfold is_leader; rewrite Hid, Hl; by apply Z.eqb_neq).
    by rewrite Hf.
Qed.

Lemma tenure_serve `{IterOrder} start recs ns w id dst o b mb now code hwm ep rs b' :
  tenure start recs (mkNet ns w) → Ask id dst o ∈ w → ns !! dst = Some b →
  handle_replica_fetch t p o mb id now b = (Ok (code, hwm, ep, rs), b') →
  tenure start recs (mkNet (<[dst := b']> ns) (Reply id code ep rs :: w)).
Proof.
  intros T Ha Hb E. pose proof T as [T1 T2 (bl & ql & Hbl & LD) T4 T5]. cbn in *.
  destruct (T4 _ _ _ Ha) as (Hid & Ho & Hreach).
  destruct (T2 _ _ Hb) as (q & rq & Hq & Hdst & [c Hc] & Hl & Rq & Hleo & Hp).
  assert (Hadd : ∀ ns', tenure start recs (mkNet ns' w) → map wire_to_record rs `sublist_of` recs →
    tenure start recs (mkNet ns' (Reply id code ep rs :: w))).
  { intros ns' [U1 U2 U3 U4 U5] Hs. split; try done; cbn in *.
    - intros x d z [?|Hin]%elem_of_cons; [done|eauto].
    - intros x cd e zs [[= -> -> -> ->]|Hin]%elem_of_cons; [done|eauto]. }
  destruct (decide (dst = ldr)) as [->|Hne].
  - rewrite Hb in Hbl. injection Hbl as <-. destruct LD as [L1 L2 L3 L4 L7 L5 L6]. rewrite Hq in L1. injection L1 as <-.
    assert (Hlead : is_leader (b_node_id b) q = true) by (unfold is_leader; rewrite Hdst, Hl; by apply Z.eqb_eq).
    destruct (replica_fetch_serves b t p q recs c o mb id now Hc Hq L2 L3 Hlead Ho)
      as (q' & rs' & b2 & E' & Hq' & Hn' & (c' & Hc' & _) & [S1 S2 S3 S4 S5 S6 S7 S8] & _ & Hs & _).
    rewrite E in E'. injection E' as -> -> -> -> <-. apply Hadd.
    + rewrite <- (app_nil_r recs). eapply tenure_leader; try done.
      * by rewrite Hn'.
      * by rewrite S2.
      * by rewrite app_nil_r, S1.
      * unfold leo. rewrite S1, zlen_nil. lia.
      * unfold leos_ok. rewrite S4. by apply map_Forall_insert_2.
      * by rewrite <- Hl.
      * intros x Hx. apply S6 in Hx as [->|[Hx|(-> & _ & Hh)]]; [by apply L5; rewrite Hl|by apply L5|by eapply reaches_mono].
      * intros x z Hx Hxl. rewrite S4 in Hx. apply lookup_insert_Some in Hx as [[-> ->]|[_ Hx]]; [done|by apply L6].
    + rewrite map_map. erewrite map_ext; [|apply wire_record]. rewrite map_id.
      eapply transitivity; [exact Hs|apply sublist_filter].
  - assert (Hlead : is_leader (b_node_id b) q = false) by (unfold is_leader; rewrite Hdst, Hl; by apply Z.eqb_neq).
    unfold handle_replica_fetch in E. rewrite Hq, Hlead in E. injection E as <- <- <- <- <-.
    rewrite insert_id by done. apply Hadd; [done|apply sublist_nil_l].
Qed.

Lemma tenure_take start recs ns w id code ep rs b now :
  tenure start recs (mkNet ns w) → Reply id code ep rs ∈ w → ns !! id = Some b → clock_ok now →
  (∀ q, get_partition t p b = Ok q → ls_room (zlen rs) (p_log q)) →
  tenure start recs (mkNet (<[id := (take_replica_fetch t p code ep rs now b).2]> ns) w).
Proof.
  intros T Hr Hb Hnow Hroom. pose proof T as [T1 T2 (bl & ql & Hbl & LD) T4 T5]. cbn in *.
  assert (Hsame : tenure start recs (mkNet (<[id := b]> ns) w)) by (by rewrite insert_id).
  unfold take_replica_fetch. destruct (_ || _ || _); [done|].
  destruct (T2 _ _ Hb) as (q & rq & Hq & Hid & Hc & Hl & Rq & Hleo & Hp).
  destruct (decide (id = ldr)) as [->|Hne].
  { assert (Hlead : is_leader (b_node_id b) q = true) by (unfold is_leader; rewrite Hid, Hl; by apply Z.eqb_eq).
    unfold append_replica_records. case_bool_decide; [done|]. by rewrite Hq, Hlead. }
  assert (Hlead : is_leader (b_node_id b) q = false) by (unfold is_leader; rewrite Hid, Hl; by apply Z.eqb_neq).
  pose proof (T5 _ _ _ _ Hr) as Hs. set (xs := map wire_to_record rs) in *.
  assert (Hok : Forall record_ok xs).
  { apply Forall_forall. intros x Hx. pose proof (ls_records _ _ (ld_rep _ _ _ _ LD)) as HF.
    rewrite Forall_forall in HF. apply HF. by eapply elem_of_sublist. }
  destruct (replica_append_stores b t p q rq xs ep now Hq Rq Hlead Hok) as (Hn' & Hc' & q' & Hq' & [S1 S2 S3 S4] & Rq' & Hl' & _);
    [unfold xs; rewrite zlen_map; by apply Hroom|done|].
  pose proof (in_line_le xs (leo q)) as Hk. pose proof (in_line_consecutive xs (leo q)) as Hcon.
  set (k := in_line (leo q) xs) in *. clearbody k.
  eapply (tenure_node start recs ns w id b _ q q' rq); try done; [lia|by rewrite Hn'|by rewrite Hc'|by rewrite S1| |].
  - rewrite Hl', Hleo, zlen_app. unfold zlen. rewrite length_take. lia.
  - apply (line_prefix start recs); [done|done|by rewrite <- Hleo|].
    intros x Hx. eapply elem_of_sublist; [|exact Hs]. by eapply subseteq_take.
Qed.

Lemma shrink_for_dead_log node dead (q : Partition L) :
  p_log (shrink_for_dead node dead q) = p_log q ∧ p_leader (shrink_for_dead node dead q) = p_leader q.
Proof. unfold shrink_for_dead, recompute_hwm, catch_up_hwm. by repeat case_match. Qed.

Lemma tenure_death `{IterOrder} start recs ns w id b c dead now :
  tenure start recs (mkNet ns w) → ns !! id = Some b → b_cluster b = Some c → dead ≠ id →
  member_is_controller (mark_dead dead (membership c)) = false →
  tenure start recs (mkNet (<[id := (on_broker_death open_log configure dead now b).2]> ns) w).
Proof.
  intros T Hb Hc Hd Hm. pose proof T as [T1 T2 (bl & ql & Hbl & LD) T4 T5]. cbn in *.
  destruct (T2 _ _ Hb) as (q & rq & Hq & Hid & _ & Hl & Rq & Hleo & Hp).
  destruct (death_shrinks open_log configure b t p q c dead now Hc Hm Hq) as (Hn' & Hc' & Hq').
  destruct (shrink_for_dead_log (b_node_id b) dead q) as [El Ele]. destruct (decide (id = ldr)) as [->|Hne].
  - rewrite Hb in Hbl. injection Hbl as <-. destruct LD as [L1 L2 L3 L4 L7 L5 L6]. rewrite Hq in L1. injection L1 as <-.
    assert (Hh : p_committed_hwm q ≤ leo q).
    { destruct (L5 ldr L4) as (b0 & q0 & Hb0 & Hq0 & Hle). rewrite Hb in Hb0. injection Hb0 as <-.
      rewrite Hq in Hq0. by injection Hq0 as <-. }
    destruct (shrink_for_dead_spec (b_node_id b) dead q recs) as (D1 & D2 & D3 & D4 & D5 & D6 & D7);
      [done|done|by rewrite Hl|by rewrite Hl|done|].
    rewrite <- (app_nil_r recs). eapply tenure_leader; try done.
    + by rewrite Hn'.
    + by rewrite D2.
    + by rewrite app_nil_r, D1.
    + unfold leo. rewrite D1, zlen_nil. lia.
    + unfold leos_ok. rewrite D5. by apply map_Forall_delete.
    + rewrite D4. apply list_elem_of_filter. by split; [apply not_eq_sym|].
    + intros x Hx. rewrite D4 in Hx. apply list_elem_of_filter in Hx as [_ Hx]. by apply L5.
    + intros x z Hx. rewrite D5 in Hx. apply lookup_delete_Some in Hx as [_ Hx]. by apply L6.
  - eapply (tenure_node start recs ns w id b _ q (shrink_for_dead (b_node_id b) dead q) rq rq);
      try done; unfold leo in *; rewrite ?El, ?Ele, ?Hn'; done.
Qed.

Lemma tenure_ask `{IterOrder} start recs ns w id b dst o :
  tenure start recs (mkNet ns w) → ns !! id = Some b → (t, p, dst, o) ∈ follower_targets b →
  tenure start recs (mkNet ns (Ask id dst o :: w)).
Proof.
  intros [T1 T2 T3 T4 T5] Hb Ht. cbn in *. destruct (T2 _ _ Hb) as (q & rq & Hq & Hid & _ & Hl & Rq & _).
  split; try done; cbn.
  - intros x d z [[= -> -> ->]|Hin]%elem_of_cons; [|by eauto].
    unfold follower_targets in Ht. apply list_elem_of_In, in_flat_map in Ht as ([t' top] & Ht & Hin).
    apply list_elem_of_In, list_elem_of_omap in Hin as ([p' q'] & Hp' & Hf). destruct (_ && _) eqn:El; [|done].
    injection Hf as -> -> <- <-. apply list_elem_of_In in Ht. rewrite elem_of_reorder, elem_of_map_to_list in Ht.
    rewrite elem_of_reorder, elem_of_map_to_list in Hp'.
    cbn in Hp'. assert (get_partition t p b = Ok q') by (apply get_partition_ok; eauto).
    assert (q' = q) as -> by congruence. apply andb_prop in El as [_ El]. unfold is_leader in El.
    rewrite Hl, Hid in El. split; [|split; [by eapply leo_nonneg|by exists b, q]].
    apply negb_true_iff, Z.eqb_neq in El. done.
  - intros x cd e zs [?|Hin]%elem_of_cons; [done|eauto].
Qed.

Lemma tenure_step start recs n n' : tenure start recs n → repl_step n n' → ∃ new, tenure start (recs ++ new) n'.
Proof.
  intros T S. assert (Hnil : ∀ m, tenure start recs m → ∃ new, tenure start (recs ++ new) m)
    by (intros m Hm; exists []; by rewrite app_nil_r).
  destruct S.
  - by eapply tenure_produce.
  - by eapply Hnil, tenure_ask.
  - by eapply Hnil, tenure_serve.
  - by apply Hnil, (tenure_take _ _ _ _ _ code ep rs).
  - by eapply Hnil, tenure_death.
Qed.

Lemma tenure_run start recs n n' : rtc repl_step n n' → tenure start recs n → ∃ new, tenure start (recs ++ new) n'.
Proof.
  intros R. revert recs. induction R as [|x y z S _ IH]; intros recs T; [exists []; by rewrite app_nil_r|].
  destruct (tenure_step _ _ _ _ T S) as [new T']. destruct (IH _ T') as [new' T'']. exists (new ++ new').
  by rewrite app_assoc.
Qed.

End tenure.

(** * Replication: the theorems

    What an in-sync replica holds when it is elected, how a follower catches
    up and joins the in-sync set, and three courses of events in which a
    cluster loses an acknowledged record or a follower never catches up. *)

#[local] Open Scope Z_scope.

(** ** Committed records *)

Section committed.
Context {L : Type} `{LogStoreLaws L} (open_log : string → Z → result L) (configure : string → L → L).
Context (t : string) (p ldr : Z).

(** A replica whose log ends at [o] has the records below [o]. *)
Lemma node_holds start recs id (b : Broker L) q rq o r :
  consecutive start recs → node_ok t p ldr start recs id b → get_partition t p b = Ok q → ls_rep (p_log q) rq →
  o ≤ leo q → r ∈ recs → rec_offset r < o → r ∈ rq.
Proof.
  intros Hc (q0 & rq0 & Hq0 & _ & _ & _ & R0 & Hl & Hp) Hq R Ho [i Hi]%list_elem_of_lookup Hr.
  rewrite Hq in Hq0. injection Hq0 as <-. rewrite (ls_rep_unique _ _ _ R R0).
  pose proof (consecutive_lookup _ _ _ _ Hc Hi). destruct Hp as [rest ->].
  rewrite lookup_app_l in Hi by (unfold zlen in *; lia). by eapply list_elem_of_lookup_2.
Qed.

(** C6: While the assignment of a partition stays, whatever the brokers
    do and however the network delays, drops, repeats or reorders requests and
    responses: the replica a controller would elect from the in-sync set of the
    leader holds a prefix of the leader's log, with every record below the committed
    watermark in it, and so every record of a produce whose wait for all in-sync
    replicas has ended well. *)
Theorem committed_on_isr start recs n n' (bl : Broker L) ql live new :
  tenure t p ldr start recs n → rtc (repl_step open_log configure t p) n n' →
  nodes n' !! ldr = Some bl → get_partition t p bl = Ok ql →
  elect_leader (p_replicas ql) (p_isr ql) live = Some new →
  ∃ recs' b q rq, recs `prefix_of` recs' ∧ ls_rep (p_log ql) recs' ∧
    nodes n' !! new = Some b ∧ get_partition t p b = Ok q ∧ ls_rep (p_log q) rq ∧ rq `prefix_of` recs' ∧
    (∀ r, r ∈ recs' → rec_offset r < p_committed_hwm ql → r ∈ rq) ∧
    ∀ rs target timed_out, produce_wake t p rs target timed_out bl = Produced rs 0 →
      ∀ r, r ∈ recs' → rec_offset r < target → r ∈ rq.
Proof.
  intros T Hrun Hbl Hql [Hisr _]%elect_leader_elem.
  destruct (tenure_run _ _ _ _ _ _ _ _ _ Hrun T) as [more [T1 T2 (b0 & q0 & Hb0 & LD) _ _]].
  rewrite Hbl in Hb0. injection Hb0 as <-. destruct LD as [L1 L2 _ _ H0' L5 _]. rewrite Hql in L1. injection L1 as <-.
  destruct (L5 _ Hisr) as (b & q & Hb & Hq & Hle). pose proof (T2 _ _ Hb) as N.
  pose proof N as (q1 & rq & Hq1 & _ & _ & _ & R & _ & Hp). rewrite Hq in Hq1. injection Hq1 as <-.
  exists (recs ++ more), b, q, rq. split; [by apply prefix_app_r|]. do 5 (split; [done|]).
  split; [intros r Hr Ho; by eapply node_holds|].
  intros rs target timed_out Hw r Hr Ho. eapply (node_holds _ _ _ b q rq target); try done.
  unfold produce_wake, committed_hwm in Hw. rewrite Hql in Hw. cbn in Hw.
  destruct (Z.leb_spec target (p_committed_hwm ql)); [lia|]. by destruct timed_out.
Qed.

End committed.

(** ** Catching up *)

Section catching_up.
Context {L : Type} `{LogStoreLaws L} `{IterOrder} (t : string) (p : Z).
Implicit Types (bl bf : Broker L) (ql qf : Partition L).

(** One exchange of the fetch loop: the follower asks from its log end, the
    leader answers, the follower takes the answer. A round is the limit on the
    bytes and the clocks of the two. *)
Definition fetch_round (s : Broker L * Broker L) (r : Z * Z * Z) : Broker L * Broker L :=
  let '(bl, bf) := s in
  let '(mb, instant, now) := r in
  match get_partition t p bf with
  | Err _ => s
  | Ok qf =>
      match handle_replica_fetch t p (leo qf) mb (b_node_id bf) instant bl with
      | (Ok (code, _, ep, rs), bl) => (bl, (take_replica_fetch t p code ep rs now bf).2)
      | (Err _, bl) => (bl, bf)
      end
  end.

(** A leader with its records, and a follower with its own. *)
Record paired recs rf bl bf ql qf : Prop := {
  pr_part : get_partition t p bl = Ok ql;
  pr_rep : ls_rep (p_log ql) recs;
  pr_leos : leos_ok ql;
  pr_leads : is_leader (b_node_id bl) ql = true;
  pr_hwm : p_committed_hwm ql ≤ leo ql;
  pr_lag : ∃ c, b_cluster bl = Some c ∧ 0 ≤ replica_lag_max_messages c;
  pr_fpart : get_partition t p bf = Ok qf;
  pr_follows : is_leader (b_node_id bf) qf = false;
  pr_frep : ls_rep (p_log qf) rf;
}.

(** The follower is a replica with a prefix of the leader's records. *)
Record following (start : Z) recs bl bf ql qf : Prop := {
  fl_pair : ∃ rf, paired recs rf bl bf ql qf ∧ rf `prefix_of` recs ∧ leo qf = start + zlen rf;
  fl_records : consecutive start recs;
  fl_leo : leo ql = start + zlen recs;
  fl_replica : b_node_id bf ∈ p_replicas ql;
  fl_room : ls_room (leo ql - leo qf) (p_log qf);
}.

Lemma consecutive_from start recs : ∀ k,
  consecutive start recs → (k ≤ length recs)%nat → filter (λ r, start + Z.of_nat k ≤ rec_offset r) recs = drop k recs.
Proof.
  revert start. induction recs as [|r recs IH]; intros start k Hc Hk; [by rewrite drop_nil|].
  destruct Hc as [Hr Hc]. rewrite filter_cons. destruct k as [|k]; cbn [drop].
  - rewrite decide_True by lia. f_equal. apply filter_all. apply Forall_lookup_2.
    intros i x Hi. rewrite (consecutive_lookup _ _ _ _ Hc Hi). lia.
  - rewrite decide_False by (cbn in *; lia). cbn in Hk. rewrite <- (IH (start + 1) k Hc) by lia.
    replace (start + 1 + Z.of_nat k) with (start + Z.of_nat (S k)) by lia. done.
Qed.

Lemma take_appends ep rs now bf :
  (take_replica_fetch t p 0 ep (map fetch_record_of rs) now bf).2 = (append_replica_records t p rs ep now bf).2.
Proof.
  unfold take_replica_fetch. destruct rs as [|r rs]; [done|]. cbn [Z.eqb orb negb map].
  rewrite bool_decide_false by done. rewrite map_map, wire_record, (map_ext _ id (λ x, wire_record x)), map_id. done.
Qed.

(** Something next in line is in the answer, unless the follower has it all. *)
Lemma answer_in_line start recs rf rs :
  consecutive start recs → rf `prefix_of` recs → head rs = head (drop (length rf) recs) →
  zlen rf < zlen recs → (0 < in_line (start + zlen rf) rs)%nat.
Proof.
  intros Hc [rest ->] Hh Hl. rewrite drop_app_length in Hh. destruct rest as [|y rest].
  { rewrite app_nil_r in Hl. lia. }
  destruct rs as [|r rs]; [done|]. injection Hh as ->. apply consecutive_app in Hc as [_ [Hy _]].
  cbn. rewrite Hy, Z.eqb_refl. lia.
Qed.

(** What a round does to the two. *)
Lemma round_paired recs rf bl bf ql qf mb instant now :
  paired recs rf bl bf ql qf → clock_ok now →
  ls_room (zlen (filter (λ r, leo qf ≤ rec_offset r) recs)) (p_log qf) →
  ∃ bl' bf' ql' qf' rs, fetch_round (bl, bf) (mb, instant, now) = (bl', bf') ∧
    let k := in_line (leo qf) rs in
    rs `sublist_of` filter (λ r, leo qf ≤ rec_offset r) recs ∧ head rs = head (filter (λ r, leo qf ≤ rec_offset r) recs) ∧
    paired recs (rf ++ take k rs) bl' bf' ql' qf' ∧ b_node_id bf' = b_node_id bf ∧
    leo ql' = leo ql ∧ p_replicas ql' = p_replicas ql ∧ leo qf' = leo qf + Z.of_nat k ∧
    (b_node_id bf ∈ p_replicas ql → leo ql ≤ leo qf → b_node_id bf ∈ p_isr ql') ∧
    ∀ n, ls_room (Z.of_nat k + n) (p_log qf) → ls_room n (p_log qf').
Proof.
  intros [Hp R F Hlead Hh (c & Hcl & Hlag) Hfp Hff Rf] Hnow Hroom. unfold fetch_round. rewrite Hfp.
  destruct (replica_fetch_serves bl t p ql recs c (leo qf) mb (b_node_id bf) instant Hcl Hp R F Hlead)
    as (ql' & rs & bl' & E & Hp' & Hn' & (c' & Hcl' & Hlag') & [S1 S2 S3 S4 S5 S6 S7 S8] & Hjoin & Hsub & Hhead);
    [by eapply leo_nonneg|]. rewrite E, take_appends.
  assert (Hin : ∀ x, x ∈ rs → x ∈ recs).
  { intros x Hx. apply (sublist_subseteq _ _ Hsub) in Hx. by apply list_elem_of_filter in Hx as [_ ?]. }
  destruct (replica_append_stores bf t p qf rf rs (p_leader_epoch ql') now Hfp Rf Hff)
    as (Hfn & Hfc & qf' & Hfp' & [F1 F2 F3 F4] & Rf' & Hfl' & Hroom'); [| |done|].
  { apply Forall_forall. intros x Hx. pose proof (ls_records _ _ R) as HF. rewrite Forall_forall in HF. by apply HF, Hin. }
  { eapply ls_room_mono; [exact Hroom|]. apply sublist_length in Hsub. unfold zlen. lia. }
  set (bf' := (append_replica_records _ _ _ _ _ _).2) in *. clearbody bf'.
  assert (Hql : leo ql' = leo ql) by (unfold leo; by rewrite S1).
  exists bl', bf', ql', qf', rs. do 3 (split; [done|]). split; [|split_and!; try done; intros; apply Hjoin; try done; lia].
  split; try done.
  - by rewrite S1.
  - unfold leos_ok. rewrite S4. apply map_Forall_insert_2; [by eapply leo_nonneg|done].
  - by unfold is_leader in *; rewrite Hn', S2.
  - rewrite Hql. destruct S8 as [->|S8]; [done|]. specialize (S8 _ S5). unfold replica_leo in S8.
    by rewrite S2, Z.eqb_refl, Hql in S8.
  - exists c'. split; [done|lia].
  - by unfold is_leader in *; rewrite Hfn, F1.
Qed.

(** After a round the follower is further on, or a member of the in-sync
    set. *)
Lemma round_follows start recs bl bf ql qf mb instant now :
  following start recs bl bf ql qf → clock_ok now →
  ∃ bl' bf' ql' qf', fetch_round (bl, bf) (mb, instant, now) = (bl', bf') ∧ following start recs bl' bf' ql' qf' ∧
    b_node_id bf' = b_node_id bf ∧ leo ql' = leo ql ∧
    (leo qf < leo ql → leo qf < leo qf') ∧ (leo qf = leo ql → leo qf' = leo qf ∧ b_node_id bf ∈ p_isr ql').
Proof.
  intros [(rf & PR & Hpre & Hfl) Hc Hleo Hrep Hroom] Hnow. pose proof (prefix_length _ _ Hpre) as Hlen.
  assert (Hdrop : filter (λ r, leo qf ≤ rec_offset r) recs = drop (length rf) recs).
  { rewrite Hfl. unfold zlen. by apply (consecutive_from start). }
  destruct (round_paired recs rf bl bf ql qf mb instant now PR Hnow)
    as (bl' & bf' & ql' & qf' & rs & E & Hsub & Hhead & PR' & Hn & Hql & Hr & Hfl' & Hjoin & Hroom').
  { rewrite Hdrop. eapply ls_room_mono; [exact Hroom|]. unfold zlen in *. rewrite length_drop. lia. }
  rewrite Hdrop in Hsub. rewrite Hdrop in Hhead. set (k := in_line (leo qf) rs) in *.
  assert (Hk : (k ≤ length rs)%nat) by apply in_line_le.
  exists bl', bf', ql', qf'. split; [done|]. split.
  - split; [|done|by rewrite Hql|by rewrite Hn, Hr|].
    + exists (rf ++ take k rs). split; [done|]. rewrite zlen_app. split.
      * apply (line_prefix start); [done..| |].
        -- rewrite <- Hfl. apply in_line_consecutive.
        -- intros x Hx%(sublist_subseteq _ _ (sublist_take rs k)). apply (sublist_subseteq _ _ Hsub) in Hx.
           by eapply sublist_subseteq; [apply sublist_drop|].
      * unfold zlen at 2. rewrite length_take. lia.
    + apply Hroom'. rewrite Hql, Hfl'. replace (Z.of_nat k + (leo ql - (leo qf + Z.of_nat k))) with (leo ql - leo qf) by lia. done.
  - split; [done|]. split; [done|]. split.
    + intros Hlt. assert (0 < k)%nat by (unfold k; rewrite Hfl; eapply answer_in_line; [done..|lia]). lia.
    + intros Heq. apply sublist_length in Hsub. rewrite length_drop in Hsub. split; [unfold zlen in *; lia|].
      apply Hjoin; [done|lia].
Qed.

Lemma following_le start recs bl bf ql qf : following start recs bl bf ql qf → leo qf ≤ leo ql.
Proof.
  intros [(rf & _ & Hp & Hl) _ Hleo _ _]. apply prefix_length in Hp. unfold zlen in *. lia.
Qed.

Lemma following_done start recs bl bf ql qf id :
  following start recs bl bf ql qf → leo qf = leo ql → id ∈ p_isr ql →
  get_partition t p bl = Ok ql ∧ ls_rep (p_log ql) recs ∧ id ∈ p_isr ql ∧
  get_partition t p bf = Ok qf ∧ ls_rep (p_log qf) recs ∧ leo qf = leo ql.
Proof.
  intros [(rf & [Hp R _ _ _ _ Hfp _ Rf] & Hpre & Hl) _ Hleo _ _] Heq Hid.
  assert (rf = recs) as <-; [|done]. apply prefix_length_eq; [done|]. unfold zlen in *. lia.
Qed.


(** A follower whose log ends before the first record its leader
    still has never gets any further: the first record of every answer leaves a
    gap, which the log refuses, and nothing resets the follower. *)
Theorem truncated_leader_strands_follower recs rf bl bf ql qf rounds :
  paired recs rf bl bf ql qf → Forall (λ r, leo qf < rec_offset r) recs → ls_room (zlen recs) (p_log qf) →
  Forall (λ r, clock_ok r.2) rounds →
  ∃ bl' bf' ql' qf', foldl fetch_round (bl, bf) rounds = (bl', bf') ∧
    get_partition t p bl' = Ok ql' ∧ ls_rep (p_log ql') recs ∧
    get_partition t p bf' = Ok qf' ∧ ls_rep (p_log qf') rf ∧ leo qf' = leo qf.
Proof.
  intros PR Hgap Hroom Hc. revert bl bf ql qf PR Hgap Hroom.
  induction Hc as [|[[mb instant] now] rounds Hnow Hc IH]; intros bl bf ql qf PR Hgap Hroom.
  { destruct PR. by exists bl, bf, ql, qf. }
  assert (Hall : filter (λ r, leo qf ≤ rec_offset r) recs = recs).
  { apply filter_all. eapply Forall_impl; [exact Hgap|]. intros r Hr. cbn in *. lia. }
  destruct (round_paired recs rf bl bf ql qf mb instant now PR Hnow)
    as (bl' & bf' & ql' & qf' & rs & E & Hsub & Hhead & PR' & Hn & Hql & Hr & Hfl' & _ & Hroom'); [by rewrite Hall|].
  assert (Hk : in_line (leo qf) rs = 0%nat).
  { destruct rs as [|r rs]; [done|]. cbn. rewrite Hall in Hsub. rewrite Forall_forall in Hgap.
    assert (r ∈ recs) by (eapply sublist_subseteq; [done|left]). specialize (Hgap r ltac:(done)). cbn in Hgap.
    destruct (Z.eqb_spec (rec_offset r) (leo qf)); [lia|done]. }
  rewrite Hk in *. cbn [take] in PR'. rewrite app_nil_r in PR'. assert (Hq : leo qf' = leo qf) by lia.
  cbn [foldl]. rewrite E, <- Hq. apply (IH bl' bf' ql' qf'); [done|by rewrite Hq|]. apply Hroom'. by rewrite Z.add_0_l.
Qed.

End catching_up.
