(* ===== verification/TxnRecovery.v ===== *)
(** * Transaction markers across truncation and restarts: [broker/txn.rs],
      [broker/mod.rs] ([load_producer_maps], [Broker::new]), [broker/topics.rs]
      ([delete_records]), [producer_state.rs], and the produce request of
      [net/dispatch.rs]

    The soft markers follow the start of the log, and a restart rebuilds the
    transaction tables from their files: open transactions become aborted,
    prepared ones stay prepared.  The reopened topics of a restart are an
    argument (the recovery of a log is [LogRetention]). *)

From Stdlib Require Import Strings.String Strings.Ascii.
From S2P Require Import Prelude Bytes Core Record SparseIndex Segment GroupCommit PartitionLog BrokerLog Messages OffsetStore Group Broker KafkaRecords Txn.
#[local] Open Scope Z_scope.

Section recovery.
Context {L : Type} `{LogStore L} `{IterOrder} (root : path).
Implicit Types (b : Broker L).

(** ** Garbage collection of aborted markers *)

Definition clip_marker (log_start : Z) (m : AbortedTxnMarker) : AbortedTxnMarker :=
  if am_first_offset m <? log_start then mkMarker (am_producer_id m) log_start (am_end_offset m) else m.

(** Returns how many markers were dropped or clipped. *)
Definition gc_aborted_markers_below (topic : string) (partition log_start : Z) b : Z * Broker L :=
  match aborted_txns (b_txns b) !! (topic, partition) with
  | None => (0, b)
  | Some ms =>
    let kept := filter (λ m, log_start < am_end_offset m) ms in
    let dropped := zlen ms - zlen kept in
    let clipped := zlen (filter (λ m, am_first_offset m < log_start) kept) in
    let a := if bool_decide (kept = []) then delete (topic, partition) (aborted_txns (b_txns b))
             else <[(topic, partition) := map (clip_marker log_start) kept]> (aborted_txns (b_txns b)) in
    let b := map_txns (set_aborted_txns a) b in
    (dropped + clipped,
     if 0 <? dropped then map_txns (set_markers_gc
       (u64_wrapping_add (aborted_markers_gc_total (b_txns b)) dropped)) b else b)
  end.

Definition gc_and_persist_aborted_markers (topic : string) (partition log_start : Z) b : Broker L :=
  let '(n, b) := gc_aborted_markers_below topic partition log_start b in
  if 0 <? n then persist_txn_markers b else b.

(** The log starts of all partitions. *)
Definition log_starts b : list (string * Z * Z) :=
  flat_map (λ '(_, t), map (λ '(pid, part), (t_name t, pid, ls_start (p_log part)))
                         (reorder (map_to_list (t_partitions t))))
    (reorder (map_to_list (b_topics b))).

Definition gc_stale_aborted_markers_all b : Z * Broker L :=
  let '(total, b) :=
    foldl (λ '(total, b) '(topic, part, start),
             let '(n, b) := gc_aborted_markers_below topic part start b in (total + n, b))
      (0, b) (log_starts b) in
  (total, if 0 <? total then persist_txn_markers b else b).

(** [Broker::delete_records]; the low watermark and an error code. *)
Definition delete_records (topic : string) (partition before_offset now : Z) b
    : result (Z * Z) * Broker L :=
  match get_partition topic partition b with
  | Err e => (Err e, b)
  | Ok part =>
    if bool_decide (is_Some (b_cluster b)) && negb (is_leader (b_node_id b) part)
    then (Ok (0, NotLeaderForPartition), b) else
    let '(r, l) := ls_delete before_offset now (p_log part) in
    let b := put_partition topic partition (set_log l part) b in
    match r with
    | Err e => (Err e, b)
    | Ok low => (Ok (low, 0), gc_and_persist_aborted_markers topic partition low b)
    end
  end.

(** ** Markers written for a replica: [WriteTxnMarkers] *)

Definition open_abort_ranges (pid : Z) b : gmap tp (Z * Z) :=
  match open_txns (b_txns b) !! pid with
  | None => ∅
  | Some txn => collapse (ot_written txn)
  end.

Definition write_one_txn_marker (pid epoch : Z) (t : ControlMarkerType) (topic : string) (partition : Z)
    (abort_ranges : gmap tp (Z * Z)) (now : Z) b : Z * Broker L :=
  if (partition <? 0) || negb (partition_exists topic (as_u32 partition) b) then (3, b) else
  let p := as_u32 partition in
  match produce_one topic p (txn_control_message t pid epoch now) now b with
  | (Err _, b) => (3, b)
  | (Ok _, b) =>
    let '(_, b) := flush topic p now b in
    match t with
    | Commit => (0, b)
    | Abort =>
      match abort_ranges !! (topic, p) with
      | Some (first, end_) => (0, push_aborted_marker topic p (mkMarker pid first end_) b)
      | None => (0, b)
      end
    end
  end.

(** The partitions of one topic; [wrote] remembers a success. *)
Fixpoint write_topic_markers (pid epoch : Z) (t : ControlMarkerType) (topic : string) (parts : list Z)
    (abort_ranges : gmap tp (Z * Z)) (now : Z) (wrote : bool) b : list (Z * Z) * bool * Broker L :=
  match parts with
  | [] => ([], wrote, b)
  | p :: parts =>
    let '(err, b) := write_one_txn_marker pid epoch t topic p abort_ranges now b in
    let '(out, wrote, b) := write_topic_markers pid epoch t topic parts abort_ranges now
                              ((err =? 0) || wrote) b in
    ((p, err) :: out, wrote, b)
  end.

Fixpoint write_all_markers (pid epoch : Z) (t : ControlMarkerType) (topics : list (string * list Z))
    (abort_ranges : gmap tp (Z * Z)) (now : Z) (wrote : bool) b
    : list (string * list (Z * Z)) * bool * Broker L :=
  match topics with
  | [] => ([], wrote, b)
  | (name, parts) :: topics =>
    let '(rs, wrote, b) := write_topic_markers pid epoch t name parts abort_ranges now wrote b in
    let '(out, wrote, b) := write_all_markers pid epoch t topics abort_ranges now wrote b in
    ((name, rs) :: out, wrote, b)
  end.

Definition write_txn_markers (pid epoch : Z) (commit : bool) (topics : list (string * list Z)) (now : Z) b
    : list (string * list (Z * Z)) * Broker L :=
  let abort_ranges := if commit then ∅ else open_abort_ranges pid b in
  let '(rs, wrote, b) := write_all_markers pid epoch (if commit then Commit else Abort) topics
                           abort_ranges now false b in
  (rs, if wrote then persist_txn_markers b else b).

(** ** Loading the files *)

Definition push_stored b (m : StoredTxnRange) : Broker L :=
  push_aborted_marker (sr_topic m) (sr_partition m)
    (mkMarker (sr_producer_id m) (sr_first_offset m) (sr_end_offset m)) b.

(** The stored open ranges by producer, with the epoch found first. *)
Notation crashed := (gmap Z (option Z * OpenTxn)).

Definition crash_entry (m : crashed) (pid : Z) (epoch : option Z) : option Z * OpenTxn :=
  let '(e, txn) := default (epoch, mkOpenTxn 0 (default 0 epoch) [] [] ∅ []) (m !! pid) in
  (match e with None => epoch | Some _ => e end, txn).

Definition crash_range (m : crashed) (r : StoredTxnRange) : crashed :=
  let '(e, txn) := crash_entry m (sr_producer_id r) (sr_producer_epoch r) in
  <[sr_producer_id r := (e,
      mkOpenTxn (ot_opened_at_ms txn) (ot_producer_epoch txn) (ot_added txn)
        (ot_written txn ++ [mkWritten (sr_topic r) (sr_partition r) (sr_first_offset r) (sr_end_offset r) 0 0])
        (ot_pending txn) (ot_deferred_offsets txn))]> m.

Definition crash_added (m : crashed) (r : StoredAddedPartition) : crashed :=
  let '(e, txn) := crash_entry m (sa_producer_id r) (sa_producer_epoch r) in
  <[sa_producer_id r := (e,
      mkOpenTxn (ot_opened_at_ms txn) (ot_producer_epoch txn)
        (add_partition (ot_added txn) (sa_topic r, sa_partition r))
        (ot_written txn) (ot_pending txn) (ot_deferred_offsets txn))]> m.

Definition crash_abort (now : Z) b (x : Z * (option Z * OpenTxn)) : Broker L :=
  let '(pid, (stored_epoch, txn)) := x in
  let epoch := match stored_epoch with
               | Some e => Some e
               | None => pe_epoch <$> producer_state (b_txns b) !! pid
               end in
  match epoch with
  | None => b
  | Some e => append_txn_control_markers pid e Abort txn now b
  end.

Definition append_crash_abort_control_markers (open : list StoredTxnRange)
    (added : list StoredAddedPartition) (now : Z) b : Broker L :=
  let by_pid := foldl crash_added (foldl crash_range ∅ open) added in
  foldl (crash_abort now) b (reorder (map_to_list by_pid)).

Definition load_txn_markers (now : Z) b : Broker L :=
  match tf_markers (b_files b) with
  | None => (gc_stale_aborted_markers_all b).2
  | Some file =>
    let b := foldl push_stored b (mf_aborted file) in
    let b := foldl push_stored b (mf_open file) in
    let b := if negb (bool_decide (mf_open file = [])) || negb (bool_decide (mf_open_added file = []))
             then append_crash_abort_control_markers (mf_open file) (mf_open_added file) now b else b in
    let '(mutated, b) := gc_stale_aborted_markers_all b in
    if mutated =? 0 then persist_txn_markers b else b
  end.

Definition restore_prepared (now : Z) (s : StoredPreparedTxn) : PreparedTxn :=
  mkPrepared (st_transactional_id s) (st_producer_id s) (st_producer_epoch s) (st_commit s)
    (if 0 <? st_prepared_at_ms s then st_prepared_at_ms s else now)
    (mkOpenTxn 0 (st_producer_epoch s) (st_added s)
      (map (λ w, mkWritten (sw_topic w) (sw_partition w) (sw_first_offset w) (sw_end_offset w)
                   (sw_base_sequence w) (sw_count w)) (st_written s))
      (foldl (λ m p, <[(sp_topic p, sp_partition p) :=
                mkBatchState (sp_base_sequence p) (sp_count p) (sp_base_offset p)]> m) ∅ (st_pending s))
      (st_deferred_offsets s)).

Definition load_prepared_txns (now : Z) b : Broker L :=
  match tf_prepared (b_files b) with
  | None => b
  | Some prepared =>
    map_txns (set_prepared_txns
      (foldl (λ m s, <[st_transactional_id s := restore_prepared now s]> m)
         (prepared_txns (b_txns b)) prepared)) b
  end.

Definition load_cluster_prepared_index b : Broker L :=
  match tf_cluster_prepared (b_files b) with
  | None => b
  | Some es =>
    map_txns (set_cluster_prepared
      (foldl (λ m e, <[cp_transactional_id e := e]> m) (cluster_prepared_index (b_txns b)) es)) b
  end.

Definition load_partitions (l : list (string * StoredBatch)) : gmap tp IdempotentBatchState :=
  foldl (λ m '(k, batch),
    match parse_partition_key k with
    | Some tpk => <[tpk := mkBatchState (sb_base_sequence batch) (sb_count batch) (sb_base_offset batch)]> m
    | None => m
    end) ∅ l.

Definition load_producer (prod : StoredProducer) : ProducerEpochState :=
  mkProducer (spr_epoch prod) (negb (String.eqb (spr_transactional_id prod) "")) (spr_transactional_id prod)
    (spr_enable_2pc prod) (spr_transaction_timeout_ms prod)
    (load_partitions (reorder (map_to_list (spr_partitions prod)))).

(** The next id, the producers and the transactional ids. *)
Definition load_producer_maps (file : option ProducerStateFile)
    : Z * gmap Z ProducerEpochState * gmap string Z :=
  let file := default (mkProducerStateFile 1 ∅) file in
  let next := if pf_next_id file =? 0 then 1 else pf_next_id file in
  let '(map, txn_ids) :=
    foldl (λ '(m, ids) '(pid_s, prod),
      match parse_u64 pid_s with
      | None => (m, ids)
      | Some pid =>
        (<[pid := load_producer prod]> m,
         if negb (String.eqb (spr_transactional_id prod) "")
         then <[spr_transactional_id prod := pid]> ids else ids)
      end) (∅, ∅) (reorder (map_to_list (pf_producers file))) in
  (next, map, txn_ids).

(** The transaction tables of a broker that has just opened its files, with
    the time-outs of its environment. *)
Definition fresh_txns (env : Knobs) b : Txns :=
  let '(next, producers, ids) := load_producer_maps (tf_producers (b_files b)) in
  mkTxns next producers ids ∅ ∅ ∅ ∅ ∅ (kn_open_txn_timeout_ms env)
    (kn_prepared_txn_timeout_ms env) (kn_transaction_max_timeout_ms env) 0 0 0.

(** The leader epochs are read back afterwards ([LeaderEpoch.reload]). *)
Definition fresh_meta b : Meta := mkMeta (next_topic_id (b_meta b)) ∅ ∅ (leader_epochs_file (b_meta b)) [] 0 0 0.

(** [Broker::new] on the files a broker left behind, with the topics as they
    were reopened.  The time-outs altered at run time are in a file of their
    own, which is read last. *)
Definition restart (env : Knobs) (topics : gmap string (Topic L)) (now : Z) b : Broker L :=
  let altered := knobs (b_txns b) in
  let b := mkBroker (b_node_id b) (b_cluster b) (b_group_commit b) topics 0
             (mkGroupCoordinator ∅ ∅ (offsets (b_groups b))) (fresh_txns env b) (b_files b) (fresh_meta b) in
  let b := load_txn_markers now b in
  let b := load_prepared_txns now b in
  let b := load_cluster_prepared_index b in
  let b := expire_timed_out_txns now b in
  map_txns (set_knobs altered) b.

(** ** The produce request: [net/dispatch.rs] *)

Record ProduceResponse := mkProduceResponse {
  pr_base_offset : Z;
  pr_count : Z;
  pr_error_code : Z;
}.

(** The request for a given partition of a single-node broker, which neither
    checks its leadership nor waits for the watermark. *)
Definition handle_produce (topic : string) (partition acks pid epoch base_sequence : Z)
    (messages : list Message) (now : Z) b : result ProduceResponse * Broker L :=
  if bool_decide (messages = []) then (Err (InvalidArgument "empty produce batch"), b) else
  let count := as_u32 (zlen messages) in
  if negb (pid =? 0) && (0 <=? base_sequence) && is_transactional_producer pid b then
    match buffer_txn_produce pid epoch topic partition base_sequence messages now b with
    | (Reject code, b) => (Ok (mkProduceResponse 0 0 code), b)
    | (Duplicate base count, b) => (Ok (mkProduceResponse base count 0), b)
    | (Accept base, b) => (Ok (mkProduceResponse base count 0), b)
    end
  else
    match check_idempotent_produce pid epoch topic partition base_sequence count b with
    | Reject code => (Ok (mkProduceResponse 0 0 code), b)
    | Duplicate base count => (Ok (mkProduceResponse base count 0), b)
    | Accept _ =>
      match produce_with_acks topic partition messages acks now b with
      | (Err e, b) => (Err e, b)
      | (Ok (rs, code), b) =>
        if (code =? NotLeaderForPartition) || (code =? NotEnoughReplicas)
        then (Ok (mkProduceResponse 0 0 code), b) else
        let base := first_offset rs in
        let count := as_u32 (zlen rs) in
        let '(r, b) := if negb (acks =? 0) && negb (b_group_commit b)
                       then flush topic partition now b else (Ok tt, b) in
        match r with
        | Err e => (Err e, b)
        | Ok _ =>
          (Ok (mkProduceResponse base count code),
           if code =? 0 then record_idempotent_produce pid epoch topic partition base_sequence count base b
           else b)
        end
      end
    end.

End recovery.
