(* ===== verification/TxnProps.v ===== *)
(** * Transactions: what readers see

    No operation other than the commit of its producer makes a record that
    was written inside a transaction readable: an offset covered by an open or
    prepared transaction, or by an aborted marker, stays covered, through
    time-outs, fencing, truncation and restarts. *)

From Stdlib Require Import Strings.String.
From S2P Require Import Prelude Bytes Core Record SparseIndex Segment GroupCommit PartitionLog BrokerLog Messages OffsetStore Group Broker KafkaRecords Txn TxnRecovery.
#[local] Open Scope Z_scope.

(** ** Coverage of an offset *)

Section coverage.
Implicit Types (T : Txns).

Definition covered (topic : string) (partition offset : Z) (rs : list TxnWrittenRange) : Prop :=
  ∃ r, r ∈ rs ∧ range_covers topic partition offset r = true.

Definition open_at T (pid : Z) (topic : string) (partition offset : Z) : Prop :=
  ∃ txn, open_txns T !! pid = Some txn ∧ covered topic partition offset (ot_written txn).

Definition prepared_at T (pid : Z) (topic : string) (partition offset : Z) : Prop :=
  ∃ tid prep, prepared_txns T !! tid = Some prep ∧ pt_producer_id prep = pid ∧
    covered topic partition offset (ot_written (pt_open prep)).

Definition aborted_at T (topic : string) (partition offset : Z) : Prop :=
  ∃ ms m, aborted_txns T !! (topic, partition) = Some ms ∧ m ∈ ms ∧ marker_covers offset m = true.

(** Written by the producer in a transaction that has not committed. *)
Definition withheld T (pid : Z) (topic : string) (partition offset : Z) : Prop :=
  aborted_at T topic partition offset ∨ open_at T pid topic partition offset ∨
  prepared_at T pid topic partition offset.

(** The tables of transactions are the same, aborted markers may be added. *)
Record grows T T' : Prop := {
  gr_open : open_txns T' = open_txns T;
  gr_prepared : prepared_txns T' = prepared_txns T;
  gr_aborted : ∀ t p o, aborted_at T t p o → aborted_at T' t p o;
}.

#[global] Instance grows_preorder : PreOrder grows.
Proof.
  split; [done|]. intros T1 T2 T3 [O1 P1 A1] [O2 P2 A2]. split; [congruence..|eauto].
Qed.

Lemma grows_withheld T T' pid t p o : grows T T' → withheld T pid t p o → withheld T' pid t p o.
Proof.
  intros [HO HP HA] [A|[Op|P]]; [left; eauto|right; left|right; right].
  - unfold open_at. by rewrite HO.
  - unfold prepared_at. by rewrite HP.
Qed.

Lemma marker_of_range t p o r pid f e :
  range_covers t p o r = true → f ≤ wr_first_offset r → wr_end_offset r ≤ e →
  wr_key r = (t, p) ∧ marker_covers o (mkMarker pid f e) = true.
Proof.
  unfold range_covers, marker_covers, wr_key. cbn. intros Hc Hf He.
  apply andb_prop in Hc as [Hc H4]. apply andb_prop in Hc as [Hc H3].
  apply andb_prop in Hc as [H1%String.eqb_eq H2%Z.eqb_eq]. split; [by subst|].
  apply andb_true_intro. split; [apply Z.leb_le in H3; apply Z.leb_le; lia|].
  apply Z.ltb_lt in H4. apply Z.ltb_lt. lia.
Qed.
End coverage.

(** ** Operations that leave the tables alone *)

Section frame.
Context {L : Type} `{LogStoreLaws L} `{IterOrder}.
Implicit Types (b : Broker L).

(** The name of every topic and the start of every log. *)
Definition layout b : gmap string (string * gmap Z Z) :=
  (λ t, (t_name t, (λ part, ls_start (p_log part)) <$> t_partitions t)) <$> b_topics b.

(** Only the content of partitions changes. *)
Definition same_tables b b' : Prop :=
  b_txns b' = b_txns b ∧ b_files b' = b_files b ∧ b_groups b' = b_groups b ∧
  b_cluster b' = b_cluster b ∧ b_node_id b' = b_node_id b ∧ b_group_commit b' = b_group_commit b ∧
  layout b' = layout b.

#[global] Instance same_tables_preorder : PreOrder same_tables.
Proof. split; [done|]. intros x y z Hx Hy. unfold same_tables in *. intuition congruence. Qed.

Lemma put_partition_layout t p part part' b :
  get_partition t p b = Ok part → ls_start (p_log part') = ls_start (p_log part) →
  layout (put_partition t p part' b) = layout b.
Proof.
  intros (top & Ht & Hp)%get_partition_ok Hs. apply map_eq. intros k. unfold layout. cbn.
  rewrite !lookup_fmap. destruct (decide (k = t)) as [->|Hk].
  - rewrite lookup_alter_eq, Ht. cbn. do 2 f_equal. rewrite fmap_insert, Hs. apply insert_id.
    by rewrite lookup_fmap, Hp.
  - by rewrite lookup_alter_ne.
Qed.

Lemma put_partition_tables t p part part' b :
  get_partition t p b = Ok part → ls_start (p_log part') = ls_start (p_log part) →
  same_tables b (put_partition t p part' b).
Proof. intros E Hs. do 6 (split; [done|]). by eapply put_partition_layout. Qed.

Lemma flush_tables topic p now b r b' : flush topic p now b = (r, b') → same_tables b b'.
Proof.
  unfold flush. intros E. destruct (get_partition topic p b) as [part|e] eqn:Ep; [|by simplify_eq].
  match type of E with (let '(_, _) := ?x in _) = _ =>
    assert (Hs : ls_start x.2 = ls_start (p_log part)); [|destruct x as [r1 l1]] end.
  { destruct (ls_group_commit_enabled _); [|apply ls_flush_start].
    destruct (negb _); [done|apply ls_await_start]. }
  simplify_eq. by eapply put_partition_tables.
Qed.

Lemma hwm_log acks b (part : Partition L) : p_log (advance_hwm b acks part) = p_log part.
Proof.
  assert (Hc : p_log (catch_up_hwm part) = p_log part) by (unfold catch_up_hwm; by case_if).
  assert (Hr : p_log (recompute_hwm part) = p_log part).
  { unfold recompute_hwm. case_bool_decide; [done|]. by case_if. }
  unfold advance_hwm. repeat case_match; done.
Qed.

Lemma produce_inner_tables topic p ms acks w now b r b' :
  produce_inner topic p ms acks w now b = (r, b') → same_tables b b'.
Proof.
  unfold produce_inner. intros E. case_if_in E; [by simplify_eq|].
  destruct (get_partition topic p b) as [part|e] eqn:Ep; [|by simplify_eq].
  destruct (_ && _); [by simplify_eq|]. destruct (_ && _); [by simplify_eq|].
  match type of E with (let '(_, _) := ?x in _) = _ =>
    assert (Hs : ls_start x.2 = ls_start (p_log part)); [|destruct x as [[rs|e] l]] end;
    [destruct (b_group_commit b); [apply ls_append_uncommitted_start|apply ls_append_batch_start]| |
     simplify_eq; by eapply put_partition_tables].
  set (b1 := if 1 <? _ then _ else _) in E. set (b2 := put_partition _ _ _ _) in E.
  assert (S1 : same_tables b b1) by (unfold b1; by destruct (1 <? _)).
  assert (S2 : same_tables b b2).
  { etrans; [exact S1|]. apply (put_partition_tables _ _ part); [unfold b1; by destruct (1 <? _)|].
    by rewrite hwm_log. }
  match type of E with (let '(_, _) := ?x in _) = _ => destruct x as [r2 b3] eqn:E3 end.
  assert (S3 : same_tables b b3).
  { destruct (_ && _ && _) in E3; [|by simplify_eq]. etrans; [exact S2|by eapply flush_tables]. }
  destruct r2; by simplify_eq.
Qed.

Lemma produce_with_acks_tables topic p ms acks now b r b' :
  produce_with_acks topic p ms acks now b = (r, b') → same_tables b b'.
Proof.
  unfold produce_with_acks. destruct (produce_inner _ _ _ _ _ _ _) as [r1 b1] eqn:E1.
  apply produce_inner_tables in E1. intros E. repeat case_match; by simplify_eq.
Qed.

Lemma produce_one_tables topic p m now b r b' :
  produce_one topic p m now b = (r, b') → same_tables b b'.
Proof.
  unfold produce_one, produce. destruct (produce_with_acks _ _ _ _ _ _) as [r1 b1] eqn:E1.
  apply produce_with_acks_tables in E1. intros E. repeat case_match; by simplify_eq.
Qed.

Lemma write_control_tables t pid e now k b : same_tables b (write_control t pid e now k b).
Proof.
  unfold write_control. destruct (produce_one _ _ _ _ _) as [r1 b1] eqn:E1.
  destruct (flush _ _ _ _) as [r2 b2] eqn:E2.
  apply produce_one_tables in E1. apply flush_tables in E2. by etrans.
Qed.

Lemma control_markers_tables pid e t txn now b :
  same_tables b (append_txn_control_markers pid e t txn now b).
Proof.
  unfold append_txn_control_markers. generalize (∅ : gset tp).
  generalize (map wr_key (ot_written txn) ++ ot_added txn). intros ks.
  revert b. induction ks as [|k ks IH]; intros b seen; [done|]. cbn [foldl].
  case_bool_decide; [apply IH|]. etrans; [apply write_control_tables|apply IH].
Qed.

Lemma same_tables_grows b b' : same_tables b b' → grows (b_txns b) (b_txns b').
Proof. by intros [-> _]. Qed.

(** ** Aborting *)

Lemma push_aborted_grows t p m b :
  grows (b_txns b) (b_txns (push_aborted_marker t p m b)).
Proof.
  split; [done..|]. intros t' p' o (ms & m' & Hl & Hm & Hc). unfold aborted_at. cbn.
  destruct (decide ((t', p') = (t, p))) as [[= -> ->]|Hne].
  - rewrite lookup_insert_eq, Hl. cbn. eexists _, m'. split; [done|]. split; [|done].
    apply elem_of_app. by left.
  - rewrite lookup_insert_ne by done. by exists ms, m'.
Qed.

Lemma push_aborted_at t p m b o :
  marker_covers o m = true → aborted_at (b_txns (push_aborted_marker t p m b)) t p o.
Proof.
  intros Hc. unfold aborted_at. cbn. rewrite lookup_insert_eq. eexists _, m. split; [done|].
  split; [|done]. apply elem_of_app. right. left.
Qed.

Lemma push_aborted_files t p m b : b_files (push_aborted_marker t p m b) = b_files b.
Proof. done. Qed.

(** Every range is inside the collapsed range of its partition. *)
Lemma collapse_covers ws : ∀ acc r,
  (r ∈ ws ∨ ∃ f e, acc !! wr_key r = Some (f, e) ∧ f ≤ wr_first_offset r ∧ wr_end_offset r ≤ e) →
  ∃ f e, foldl collapse_range acc ws !! wr_key r = Some (f, e) ∧
    f ≤ wr_first_offset r ∧ wr_end_offset r ≤ e.
Proof.
  induction ws as [|w ws IH]; intros acc r Hr; cbn [foldl].
  { destruct Hr as [Hr|Hr]; [by apply not_elem_of_nil in Hr|done]. }
  apply IH. destruct Hr as [[->|Hr]%elem_of_cons|(f & e & Hl & Hf & He)]; [right|by left|right].
  - unfold collapse_range. destruct (default _ _) as [f e] eqn:Ed.
    rewrite lookup_insert_eq. eexists _, _. split; [done|].
    destruct (acc !! wr_key w) as [[f0 e0]|]; cbn in Ed; simplify_eq; lia.
  - unfold collapse_range. destruct (default _ _) as [f' e'] eqn:Ed.
    destruct (decide (wr_key w = wr_key r)) as [Hk|Hk].
    + rewrite Hk, lookup_insert_eq. rewrite Hk, Hl in Ed. cbn in Ed. simplify_eq.
      eexists _, _. split; [done|]. lia.
    + rewrite lookup_insert_ne by done. eauto.
Qed.

Lemma push_all_grows pid l : ∀ b,
  let b' := foldl (λ b '((topic, part), (first, end_)),
              push_aborted_marker topic part (mkMarker pid first end_) b) b l in
  grows (b_txns b) (b_txns b') ∧ b_files b' = b_files b ∧ b_groups b' = b_groups b ∧
  b_topics b' = b_topics b ∧
  (∀ t p f e o, ((t, p), (f, e)) ∈ l → marker_covers o (mkMarker pid f e) = true →
    aborted_at (b_txns b') t p o).
Proof.
  induction l as [|[[t p] [f e]] l IH]; intros b; cbn [foldl].
  - do 4 (split; [done|]). intros * Hx%not_elem_of_nil. done.
  - destruct (IH (push_aborted_marker t p (mkMarker pid f e) b)) as (G & F & Gr & Tp & A).
    split; [etrans; [apply push_aborted_grows|exact G]|]. do 3 (split; [done|]).
    intros t' p' f' e' o [Heq|Hin]%elem_of_cons Hc; [|by eapply A].
    injection Heq as -> -> -> ->. apply (gr_aborted _ _ G). by apply push_aborted_at.
Qed.

Lemma record_aborted_spec pid txn b :
  let b' := record_aborted_from_txn pid txn b in
  grows (b_txns b) (b_txns b') ∧ b_topics b' = b_topics b ∧ b_groups b' = b_groups b ∧
  (∀ t p o, covered t p o (ot_written txn) → aborted_at (b_txns b') t p o).
Proof.
  cbn zeta. unfold record_aborted_from_txn.
  destruct (push_all_grows pid (reorder (map_to_list (collapse (ot_written txn)))) b)
    as (G & F & Gr & Tp & A).
  split; [exact G|]. split; [exact Tp|]. split; [exact Gr|]. intros t p o (r & Hr & Hc).
  destruct (collapse_covers (ot_written txn) ∅ r (or_introl Hr)) as (f & e & Hl & Hf & He).
  destruct (marker_of_range t p o r pid f e Hc Hf He) as [Hk Hm].
  cbn. eapply (A t p f e o); [|exact Hm]. rewrite reorder_perm. apply elem_of_map_to_list.
  by rewrite <- Hk.
Qed.

(** ** The files *)

Definition file_at (f : TxnMarkersFile) (t : string) (p o : Z) : Prop :=
  ∃ m, m ∈ mf_open f ++ mf_aborted f ∧ sr_topic m = t ∧ sr_partition m = p ∧
    sr_first_offset m ≤ o < sr_end_offset m.

(** What is open or aborted is in the marker file. *)
Definition markers_synced b : Prop :=
  ∀ t p o, (aborted_at (b_txns b) t p o ∨ ∃ pid, open_at (b_txns b) pid t p o) →
    ∃ f, tf_markers (b_files b) = Some f ∧ file_at f t p o.

Definition stored_ranges (s : StoredPreparedTxn) : list TxnWrittenRange :=
  map (λ w, mkWritten (sw_topic w) (sw_partition w) (sw_first_offset w) (sw_end_offset w)
              (sw_base_sequence w) (sw_count w)) (st_written s).

Definition stored_in (prep : PreparedTxn) (fs : list StoredPreparedTxn) : Prop :=
  ∃ s, s ∈ fs ∧ st_transactional_id s = pt_transactional_id prep ∧
    st_producer_id s = pt_producer_id prep ∧ stored_ranges s = ot_written (pt_open prep).

(** What is prepared is in the file of prepared transactions. *)
Record prepared_synced b : Prop := {
  ps_keyed : map_Forall (λ tid prep, pt_transactional_id prep = tid) (prepared_txns (b_txns b));
  ps_nodup : ∀ fs, tf_prepared (b_files b) = Some fs → NoDup (st_transactional_id <$> fs);
  ps_stored : ∀ tid prep, prepared_txns (b_txns b) !! tid = Some prep →
    ∃ fs, tf_prepared (b_files b) = Some fs ∧ stored_in prep fs;
}.

Definition synced b : Prop := markers_synced b ∧ prepared_synced b.

Lemma range_covers_spec t p o r :
  range_covers t p o r = true ↔
  wr_topic r = t ∧ wr_partition r = p ∧ wr_first_offset r ≤ o < wr_end_offset r.
Proof.
  unfold range_covers. rewrite !andb_true_iff, String.eqb_eq, Z.eqb_eq, Z.leb_le, Z.ltb_lt. tauto.
Qed.

Lemma marker_covers_spec o m :
  marker_covers o m = true ↔ am_first_offset m ≤ o < am_end_offset m.
Proof. unfold marker_covers. by rewrite andb_true_iff, Z.leb_le, Z.ltb_lt. Qed.

Lemma persist_markers_synced b : markers_synced (persist_txn_markers b).
Proof.
  intros t p o Hc. eexists. split; [done|]. unfold file_at. cbn.
  destruct Hc as [(ms & m & Hl & Hm & Hc%marker_covers_spec)|(pid & txn & Hl & r & Hr & Hc%range_covers_spec)].
  - exists (mkStoredRange (am_producer_id m) None t p (am_first_offset m) (am_end_offset m)).
    split; [|done]. apply elem_of_app. right. unfold aborted_ranges. rewrite list_elem_of_In, in_flat_map.
    exists ((t, p), ms). rewrite <- !list_elem_of_In, reorder_perm, elem_of_map_to_list. split; [done|].
    apply list_elem_of_fmap. eauto.
  - destruct Hc as (<- & <- & Hc).
    exists (mkStoredRange pid (Some (ot_producer_epoch txn)) (wr_topic r) (wr_partition r)
              (wr_first_offset r) (wr_end_offset r)).
    split; [|done]. apply elem_of_app. left. unfold open_ranges. rewrite list_elem_of_In, in_flat_map.
    exists (pid, txn). rewrite <- !list_elem_of_In, reorder_perm, elem_of_map_to_list. split; [done|].
    apply list_elem_of_fmap. eauto.
Qed.

Lemma persist_prepared_synced b :
  map_Forall (λ tid prep, pt_transactional_id prep = tid) (prepared_txns (b_txns b)) →
  prepared_synced (persist_prepared_txns b).
Proof.
  intros Hk. split; [done|..]; cbn.
  - intros fs [= <-]. rewrite reorder_perm. rewrite <- list_fmap_compose.
    rewrite (list_fmap_ext _ fst); [apply NoDup_fst_map_to_list|].
    intros i [tid prep] Hi. cbn. apply Hk. apply elem_of_map_to_list. by eapply list_elem_of_lookup_2.
  - intros tid prep Hl. eexists. split; [done|]. exists (store_prepared prep). split.
    + apply list_elem_of_fmap. exists (tid, prep). split; [done|]. by rewrite reorder_perm, elem_of_map_to_list.
    + do 2 (split; [done|]). unfold stored_ranges. cbn. rewrite map_map. cbn.
      rewrite <- (map_id (ot_written (pt_open prep))) at 2. apply map_ext. by intros [].
Qed.

(** ** Steps that reveal nothing

    [safe_step None]: every withheld offset stays withheld; [safe_step (Some
    pid)]: those of the other producers do.  The files stay in step with the
    tables, the logs start where they did. *)
Record safe_step (c : option Z) b b' : Prop := {
  ss_withheld : ∀ pid t p o, c ≠ Some pid →
    withheld (b_txns b) pid t p o → withheld (b_txns b') pid t p o;
  ss_synced : synced b → synced b';
  ss_layout : layout b' = layout b;
}.

#[global] Instance safe_step_preorder c : PreOrder (safe_step c).
Proof.
  split; [done|]. intros b1 b2 b3 [W1 S1 L1] [W2 S2 L2]. split; [eauto|eauto|congruence].
Qed.

Lemma safe_step_weaken c b b' : safe_step None b b' → safe_step c b b'.
Proof. intros [W S L0]. split; [|done..]. intros. by apply W. Qed.

(** The tables and files of transactions are as before. *)
Definition quiet b b' : Prop :=
  open_txns (b_txns b') = open_txns (b_txns b) ∧ prepared_txns (b_txns b') = prepared_txns (b_txns b) ∧
  aborted_txns (b_txns b') = aborted_txns (b_txns b) ∧ tf_markers (b_files b') = tf_markers (b_files b) ∧
  tf_prepared (b_files b') = tf_prepared (b_files b) ∧ layout b' = layout b.

Lemma quiet_safe c b b' : quiet b b' → safe_step c b b'.
Proof.
  intros (HO & HP & HA & HM & HF & HL). split; [|intros [M P]; split|done].
  - intros pid t p o _. unfold withheld, aborted_at, open_at, prepared_at. by rewrite HO, HP, HA.
  - intros t p o. unfold aborted_at, open_at. rewrite HO, HA, HM. apply M.
  - destruct P as [K N St]. split; rewrite ?HP, ?HF; done.
Qed.

Lemma same_tables_quiet b b' : same_tables b b' → quiet b b'.
Proof. intros (HT & HF & _ & _ & _ & _ & HL). unfold quiet. by rewrite HT, HF. Qed.

Lemma control_markers_safe c pid e t txn now b :
  safe_step c b (append_txn_control_markers pid e t txn now b).
Proof. apply quiet_safe, same_tables_quiet, control_markers_tables. Qed.

End frame.
