(* ===== verification/TxnSafety.v ===== *)
(** * Transactions: every operation but the commit withholds

    Each operation of [Txn] is a [safe_step], the commit of a producer is one
    for the other producers, and so is any sequence of them, restarts
    included. *)

From Stdlib Require Import Strings.String.
From S2P Require Import Prelude Bytes Core Record SparseIndex Segment GroupCommit PartitionLog BrokerLog Messages OffsetStore Group Broker KafkaRecords Txn TxnRecovery TxnProps.
#[local] Open Scope Z_scope.

Section operations.
Context {L : Type} `{LogStoreLaws L} `{IterOrder}.
Implicit Types (b : Broker L).

(** ** Aborting what was taken out of a table *)

(** [b0] is [b] without some transactions, [b'] has their ranges aborted. *)
Record aborts (open : list (Z * OpenTxn)) (prep : list (string * PreparedTxn)) b b' : Prop := {
  ab_open : ∀ pid txn, open_txns (b_txns b) !! pid = Some txn →
    (pid, txn) ∈ open ∨ open_txns (b_txns b') !! pid = Some txn;
  ab_open_sub : ∀ pid txn, open_txns (b_txns b') !! pid = Some txn → open_txns (b_txns b) !! pid = Some txn;
  ab_prep : ∀ tid p, prepared_txns (b_txns b) !! tid = Some p →
    (tid, p) ∈ prep ∨ prepared_txns (b_txns b') !! tid = Some p;
  ab_prep_sub : ∀ tid p, prepared_txns (b_txns b') !! tid = Some p → prepared_txns (b_txns b) !! tid = Some p;
  ab_aborted : ∀ t p o, aborted_at (b_txns b) t p o → aborted_at (b_txns b') t p o;
  ab_ranges : ∀ pid txn t p o, (pid, txn) ∈ open → covered t p o (ot_written txn) →
    aborted_at (b_txns b') t p o;
  ab_prep_ranges : ∀ tid prp t p o, (tid, prp) ∈ prep → covered t p o (ot_written (pt_open prp)) →
    aborted_at (b_txns b') t p o;
}.

Lemma aborts_withheld open prep b b' pid t p o :
  aborts open prep b b' → withheld (b_txns b) pid t p o → withheld (b_txns b') pid t p o.
Proof.
  intros A [Ha|[(txn & Hl & Hc)|(tid & prp & Hl & Hp & Hc)]].
  - left. by apply (ab_aborted _ _ _ _ A).
  - destruct (ab_open _ _ _ _ A _ _ Hl); [left; by eapply (ab_ranges _ _ _ _ A)|].
    right. left. by exists txn.
  - destruct (ab_prep _ _ _ _ A _ _ Hl); [left; by eapply (ab_prep_ranges _ _ _ _ A)|].
    right. right. by exists tid, prp.
Qed.

Lemma aborts_keyed open prep b b' :
  aborts open prep b b' →
  map_Forall (λ tid prep, pt_transactional_id prep = tid) (prepared_txns (b_txns b)) →
  map_Forall (λ tid prep, pt_transactional_id prep = tid) (prepared_txns (b_txns b')).
Proof. intros A Hk tid p Hl. by apply Hk, (ab_prep_sub _ _ _ _ A). Qed.

(** When the prepared transactions are the same, so is their file. *)
Lemma prepared_synced_sub b b' :
  prepared_synced b → tf_prepared (b_files b') = tf_prepared (b_files b) →
  (∀ tid p, prepared_txns (b_txns b') !! tid = Some p → prepared_txns (b_txns b) !! tid = Some p) →
  prepared_synced b'.
Proof.
  intros [K N S] HF Hsub. split; rewrite ?HF; [|done|].
  - intros tid p Hl. by apply K, Hsub.
  - intros tid p Hl. by apply (S tid), Hsub.
Qed.

Lemma record_aborted_files pid txn b :
  tf_prepared (b_files (record_aborted_from_txn pid txn b)) = tf_prepared (b_files b).
Proof.
  unfold record_aborted_from_txn. cbn.
  destruct (push_all_grows pid (reorder (map_to_list (collapse (ot_written txn)))) b) as (_ & -> & _). done.
Qed.

Lemma record_aborted_synced pid txn b : markers_synced (record_aborted_from_txn pid txn b).
Proof. apply persist_markers_synced. Qed.

Lemma layout_topics b b' : b_topics b' = b_topics b → layout b' = layout b.
Proof. unfold layout. by intros ->. Qed.

(** The markers stay in step when the tables do not change. *)
Lemma markers_synced_quiet b b' : quiet b b' → markers_synced b → markers_synced b'.
Proof.
  intros (HO & _ & HA & HM & _) M t p o. unfold aborted_at, open_at. rewrite HO, HA, HM. apply M.
Qed.

(** Abort of one transaction: markers, then control records. *)
Lemma abort_one c pid e txn now b :
  let b' := append_txn_control_markers pid e c txn now (record_aborted_from_txn pid txn b) in
  grows (b_txns b) (b_txns b') ∧ markers_synced b' ∧ layout b' = layout b ∧
  tf_prepared (b_files b') = tf_prepared (b_files b) ∧ b_groups b' = b_groups b ∧
  (∀ t p o, covered t p o (ot_written txn) → aborted_at (b_txns b') t p o).
Proof.
  cbn zeta. destruct (record_aborted_spec pid txn b) as (G & T & Gr & A).
  pose proof (record_aborted_synced pid txn b) as M.
  pose proof (record_aborted_files pid txn b) as F.
  set (b1 := record_aborted_from_txn pid txn b) in *.
  destruct (control_markers_tables pid e c txn now b1) as (HT & HF & HG & _ & _ & _ & HL).
  set (b2 := append_txn_control_markers _ _ _ _ _ _) in *.
  assert (Q : quiet b1 b2) by (unfold quiet; rewrite HT, HF; done).
  split; [by rewrite HT|]. split; [by eapply markers_synced_quiet|].
  split; [rewrite HL; by apply layout_topics|]. split; [by rewrite HF|].
  split; [by rewrite HG|]. intros t p o Hc. rewrite HT. by apply A.
Qed.

Lemma grows_abortable b f : grows (b_txns b) (b_txns (map_txns (set_abortable f) b)).
Proof. by split. Qed.

(** ** Expiry *)

Lemma foldl_delete_lookup {K V W} `{Countable K} (l : list (K * W)) : ∀ (m : gmap K V) k,
  foldl (λ m '(k, _), delete k m) m l !! k = if bool_decide (k ∈ l.*1) then None else m !! k.
Proof.
  induction l as [|[k' w] l IH]; intros m k; cbn [foldl fmap list_fmap fst]; [done|].
  rewrite IH. destruct (decide (k = k')) as [->|Hk].
  - rewrite lookup_delete_eq, (bool_decide_true (k' ∈ k' :: l.*1)) by left. by case_bool_decide.
  - rewrite lookup_delete_ne by done.
    assert (k ∈ l.*1 ↔ k ∈ k' :: l.*1) as Hiff by (rewrite elem_of_cons; tauto).
    by rewrite (bool_decide_ext _ _ Hiff).
Qed.

Lemma abort_open_fold now es : ∀ b,
  let b' := foldl (abort_expired_open now) b es in
  grows (b_txns b) (b_txns b') ∧ (es ≠ [] → markers_synced b') ∧ layout b' = layout b ∧
  tf_prepared (b_files b') = tf_prepared (b_files b) ∧ b_groups b' = b_groups b ∧
  (∀ pid e txn t p o, (pid, e, txn) ∈ es → covered t p o (ot_written txn) → aborted_at (b_txns b') t p o).
Proof.
  induction es as [|[[pid e] txn] es IH]; intros b; cbn [foldl].
  { do 5 (split; [done|]). intros * Hx%not_elem_of_nil. done. }
  destruct (abort_one Abort pid e txn now b) as (G1 & M1 & L1 & F1 & Gr1 & A1).
  set (b1 := append_txn_control_markers _ _ _ _ _ _) in *.
  change (abort_expired_open now b (pid, e, txn)) with (mark_txn_abortable pid b1). clearbody b1.
  destruct (IH (mark_txn_abortable pid b1)) as (G2 & M2 & L2 & F2 & Gr2 & A2).
  split; [etrans; [exact G1|etrans; [apply grows_abortable|exact G2]]|]. split.
  { intros _. destruct es as [|x es]; [exact M1|by apply M2]. }
  split; [rewrite L2; exact L1|]. split; [rewrite F2; exact F1|]. split; [rewrite Gr2; exact Gr1|].
  intros pid' e' txn' t p o [Heq|Hin]%elem_of_cons Hc; [|by eapply A2].
  injection Heq as -> -> ->. apply (gr_aborted _ _ G2). by apply A1.
Qed.

Lemma expire_open_spec now b :
  let '(n, b') := expire_timed_out_open_txns now b in
  ∃ expired, aborts expired [] b b' ∧ layout b' = layout b ∧ b_groups b' = b_groups b ∧
    tf_prepared (b_files b') = tf_prepared (b_files b) ∧ (markers_synced b → markers_synced b') ∧
    (∀ pid txn, (pid, txn) ∈ expired ↔
       open_txns (b_txns b) !! pid = Some txn ∧ open_expired now b (pid, txn) = true) ∧
    (∀ pid, open_txns (b_txns b') !! pid =
       if bool_decide (pid ∈ expired.*1) then None else open_txns (b_txns b) !! pid).
Proof.
  unfold expire_timed_out_open_txns. set (expired := filter _ _). set (es := map _ expired).
  set (b1 := map_txns _ b). exists expired.
  assert (Hex : ∀ pid txn, (pid, txn) ∈ expired ↔
       open_txns (b_txns b) !! pid = Some txn ∧ open_expired now b (pid, txn) = true).
  { intros pid txn. unfold expired. rewrite list_elem_of_filter, elem_of_reorder, elem_of_map_to_list. tauto. }
  destruct (abort_open_fold now es b1) as (G & M & Ly & F & Gr & A).
  set (b2 := foldl _ b1 es) in *.
  assert (Ho : ∀ pid, open_txns (b_txns b2) !! pid =
     if bool_decide (pid ∈ expired.*1) then None else open_txns (b_txns b) !! pid).
  { intros pid. rewrite (gr_open _ _ G). apply foldl_delete_lookup. }
  assert (Hab : aborts expired [] b b2).
  { split.
    - intros pid txn Hl. destruct (decide (pid ∈ expired.*1)) as [Hin|Hin].
      + left. apply list_elem_of_fmap in Hin as ([pid' txn'] & -> & Hin). cbn in *.
        pose proof (proj1 (Hex _ _) Hin) as [Hl' _]. congruence.
      + right. by rewrite Ho, bool_decide_false.
    - intros pid txn. rewrite Ho. by case_bool_decide.
    - intros tid p Hl. right. by rewrite (gr_prepared _ _ G).
    - intros tid p. by rewrite (gr_prepared _ _ G).
    - intros t p o Ha. apply (gr_aborted _ _ G). exact Ha.
    - intros pid txn t p o Hin. apply (A pid (producer_epoch_or_0 pid b)).
      apply list_elem_of_fmap. by exists (pid, txn).
    - intros * Hx%not_elem_of_nil. done. }
  assert (Hs : es = [] → markers_synced b → markers_synced b2).
  { intros He Ms t p o Hx.
    assert (expired = []) as Hnil by by eapply fmap_nil_inv.
    unfold b2 in *. rewrite He in *. cbn [foldl] in *. unfold b1 in *. rewrite Hnil in *. cbn in *.
    by apply Ms. }
  destruct (Z.ltb_spec 0 (zlen es)) as [Hn|Hn].
  - split; [destruct Hab; by split|]. split; [exact Ly|]. split; [exact Gr|]. split; [exact F|].
    split; [|by split]. intros _. exact (persist_markers_synced b2).
  - split; [exact Hab|]. split; [exact Ly|]. split; [exact Gr|]. split; [exact F|].
    split; [|by split]. apply Hs. apply zlen_0_nil. pose proof (zlen_nonneg es). lia.
Qed.

Lemma abort_prepared_fold now ps : ∀ b,
  let b' := foldl (abort_expired_prepared now) b ps in
  grows (b_txns b) (b_txns b') ∧ (ps ≠ [] → markers_synced b') ∧ layout b' = layout b ∧
  tf_prepared (b_files b') = tf_prepared (b_files b) ∧ b_groups b' = b_groups b ∧
  (∀ prp t p o, prp ∈ ps → covered t p o (ot_written (pt_open prp)) → aborted_at (b_txns b') t p o).
Proof.
  induction ps as [|prp ps IH]; intros b; cbn [foldl].
  { do 5 (split; [done|]). intros * Hx%not_elem_of_nil. done. }
  destruct (abort_one Abort (pt_producer_id prp) (pt_producer_epoch prp) (pt_open prp) now b)
    as (G1 & M1 & L1 & F1 & Gr1 & A1).
  set (b1 := append_txn_control_markers _ _ _ _ _ _) in *.
  change (abort_expired_prepared now b prp) with (mark_txn_abortable (pt_producer_id prp) b1). clearbody b1.
  destruct (IH (mark_txn_abortable (pt_producer_id prp) b1)) as (G2 & M2 & L2 & F2 & Gr2 & A2).
  split; [etrans; [exact G1|etrans; [apply grows_abortable|exact G2]]|]. split.
  { intros _. destruct ps as [|x ps]; [exact M1|by apply M2]. }
  split; [rewrite L2; exact L1|]. split; [rewrite F2; exact F1|]. split; [rewrite Gr2; exact Gr1|].
  intros prp' t p o [->|Hin]%elem_of_cons Hc; [|by eapply A2].
  apply (gr_aborted _ _ G2). by apply A1.
Qed.

Lemma expire_prepared_spec now b :
  let '(n, b') := expire_timed_out_prepared_txns now b in
  ∃ expired, aborts [] expired b b' ∧ layout b' = layout b ∧ b_groups b' = b_groups b ∧
    (markers_synced b → markers_synced b') ∧ (prepared_synced b → prepared_synced b') ∧
    open_txns (b_txns b') = open_txns (b_txns b).
Proof.
  unfold expire_timed_out_prepared_txns. case_if.
  { exists []. split; [|done]. split; try done; [by right..| |]; intros * Hx%not_elem_of_nil; done. }
  set (expired := filter _ _). set (b1 := map_txns _ b). exists expired.
  destruct (abort_prepared_fold now (map snd expired) b1) as (G & M & Ly & F & Gr & A).
  set (b2 := foldl _ b1 (map snd expired)) in *.
  assert (Hp : ∀ tid, prepared_txns (b_txns b2) !! tid =
     if bool_decide (tid ∈ expired.*1) then None else prepared_txns (b_txns b) !! tid).
  { intros tid. rewrite (gr_prepared _ _ G). apply foldl_delete_lookup. }
  assert (Hab : aborts [] expired b b2).
  { split.
    - intros pid txn Hl. right. by rewrite (gr_open _ _ G).
    - intros pid txn. by rewrite (gr_open _ _ G).
    - intros tid p Hl. destruct (decide (tid ∈ expired.*1)) as [Hin|Hin].
      + left. apply list_elem_of_fmap in Hin as ([tid' p'] & -> & Hin). cbn in *.
        pose proof Hin as Hin'. unfold expired in Hin'.
        rewrite list_elem_of_filter, elem_of_reorder, elem_of_map_to_list in Hin'. destruct Hin'. congruence.
      + right. by rewrite Hp, bool_decide_false.
    - intros tid p. rewrite Hp. by case_bool_decide.
    - intros t p o Ha. apply (gr_aborted _ _ G). exact Ha.
    - intros * Hx%not_elem_of_nil. done.
    - intros tid prp t p o Hin. apply (A prp). apply list_elem_of_fmap. by exists (tid, prp). }
  assert (Hs : expired = [] → b2 = b1) by (intros He; unfold b2; by rewrite He).
  assert (Hk : prepared_synced b → map_Forall (λ tid prep, pt_transactional_id prep = tid) (prepared_txns (b_txns b2))).
  { intros [K _ _]. by eapply aborts_keyed. }
  destruct (Z.ltb_spec 0 (zlen expired)) as [Hn|Hn].
  - assert (Hne : map snd expired ≠ []) 
      by (intros E%(f_equal length); rewrite length_map in E; unfold zlen in Hn; cbn in E; lia).
    split; [destruct Hab; by split|]. split; [exact Ly|]. split; [exact Gr|].
    split; [intros _; exact (M Hne)|]. split; [|exact (gr_open _ _ G)].
    intros P. destruct (persist_prepared_synced b2 (Hk P)). by split.
  - assert (He : expired = []) by (apply zlen_0_nil; pose proof (zlen_nonneg expired); lia).
    split; [exact Hab|]. split; [exact Ly|]. split; [exact Gr|]. rewrite (Hs He).
    split; [|split; [|done]]; unfold b1; rewrite He.
    + done.
    + intros [K N S]. by split.
Qed.

(** ** The expiry every operation starts with *)

Lemma expire_safe c now b : safe_step c b (expire_timed_out_txns now b).
Proof.
  unfold expire_timed_out_txns. pose proof (expire_open_spec now b) as H1'.
  destruct (expire_timed_out_open_txns now b) as [n1 b1]. cbn [snd].
  destruct H1' as (ex1 & A1 & L1 & G1 & F1 & M1 & _ & _).
  pose proof (expire_prepared_spec now b1) as H2'.
  destruct (expire_timed_out_prepared_txns now b1) as [n2 b2]. cbn [snd].
  destruct H2' as (ex2 & A2 & L2 & G2 & M2 & P2 & _). split; [| |congruence].
  - intros pid t p o _ W. eapply aborts_withheld; [exact A2|]. by eapply aborts_withheld.
  - intros [M P]. split; [by apply M2, M1|]. apply P2.
    eapply prepared_synced_sub; [exact P|exact F1|]. apply (ab_prep_sub _ _ _ _ A1).
Qed.

(** ** Quiet operations *)

#[local] Instance quiet_preorder : PreOrder quiet.
Proof. split; [done|]. intros x y z Hx Hy. unfold quiet in *. intuition congruence. Qed.

Lemma put_producer_quiet pid p b : quiet b (put_producer pid p b).
Proof. done. Qed.

Lemma persist_producer_quiet b : quiet b (persist_producer_state b).
Proof. done. Qed.

Lemma clear_abortable_quiet pid b : quiet b (clear_txn_abortable pid b).
Proof. done. Qed.

Lemma record_idempotent_quiet pid e t p seq n o b : quiet b (record_idempotent_produce pid e t p seq n o b).
Proof.
  unfold record_idempotent_produce. destruct (_ || _); [done|].
  destruct (producer_state _ !! _) as [p0|]; [|done]. by destruct (negb _).
Qed.

Lemma clear_cluster_quiet tid b : quiet b (clear_cluster_prepared_index tid b).
Proof.
  unfold clear_cluster_prepared_index. destruct (String.eqb _ _); [done|].
  by destruct (cluster_prepared_index _ !! _).
Qed.

Lemma quiet_fold {A} (f : Broker L → A → Broker L) (l : list A) :
  (∀ b x, quiet b (f b x)) → ∀ b, quiet b (foldl f b l).
Proof. intros Hf. induction l as [|x l IH]; intros b; [done|]. cbn. transitivity (f b x); [apply Hf|apply IH]. Qed.

Lemma commit_offsets_quiet root os b : quiet b (foldl (commit_txn_offset root) b os).
Proof. apply quiet_fold. by intros b' [[[[g t] p] o] m]. Qed.

Lemma control_markers_quiet pid e t txn now b : quiet b (append_txn_control_markers pid e t txn now b).
Proof. apply same_tables_quiet, control_markers_tables. Qed.

(** ** A transaction is taken out *)

Definition removed_open (pid : Z) b b1 : Prop :=
  open_txns (b_txns b1) = delete pid (open_txns (b_txns b)) ∧
  prepared_txns (b_txns b1) = prepared_txns (b_txns b) ∧ aborted_txns (b_txns b1) = aborted_txns (b_txns b) ∧
  tf_markers (b_files b1) = tf_markers (b_files b) ∧ tf_prepared (b_files b1) = tf_prepared (b_files b) ∧
  layout b1 = layout b.

Definition removed_prep (tid : string) b b1 : Prop :=
  prepared_txns (b_txns b1) = delete tid (prepared_txns (b_txns b)) ∧
  open_txns (b_txns b1) = open_txns (b_txns b) ∧ aborted_txns (b_txns b1) = aborted_txns (b_txns b) ∧
  tf_markers (b_files b1) = tf_markers (b_files b) ∧ tf_prepared (b_files b1) = tf_prepared (b_files b) ∧
  layout b1 = layout b.

Lemma abort_removed_open pid q e m txn now b b1 :
  open_txns (b_txns b) !! pid = Some txn → removed_open pid b b1 →
  safe_step None b (append_txn_control_markers q e m txn now (record_aborted_from_txn q txn b1)).
Proof.
  intros Hl (HO & HP & HA & HM & HF & HL).
  destruct (abort_one m q e txn now b1) as (G & M & Ly & F & _ & A).
  set (b2 := append_txn_control_markers _ _ _ _ _ _) in *. split; [|intros [_ P]; split|congruence].
  - intros pid' t p o _ [Ha|[(txn' & Hl' & Hc)|(tid & prp & Hl' & Hp & Hc)]].
    + left. apply (gr_aborted _ _ G). unfold aborted_at in *. by rewrite HA.
    + destruct (decide (pid' = pid)) as [->|Hne]; [left; apply A; congruence|].
      right. left. exists txn'. by rewrite (gr_open _ _ G), HO, lookup_delete_ne.
    + right. right. exists tid, prp. by rewrite (gr_prepared _ _ G), HP.
  - exact M.
  - eapply prepared_synced_sub; [exact P|by rewrite F|]. intros tid prp. by rewrite (gr_prepared _ _ G), HP.
Qed.

Lemma abort_removed_prep tid q e m prp now b b1 :
  prepared_txns (b_txns b) !! tid = Some prp → removed_prep tid b b1 →
  safe_step None b
    (persist_prepared_txns (append_txn_control_markers q e m (pt_open prp) now
       (record_aborted_from_txn q (pt_open prp) b1))).
Proof.
  intros Hl (HP & HO & HA & HM & HF & HL).
  destruct (abort_one m q e (pt_open prp) now b1) as (G & M & Ly & F & _ & A).
  set (b2 := append_txn_control_markers _ _ _ _ _ _) in *.
  split; [|intros [_ P]; split|cbn; rewrite <- HL; exact Ly].
  - intros pid' t p o _ [Ha|[(txn' & Hl' & Hc)|(tid' & prp' & Hl' & Hp & Hc)]].
    + left. apply (gr_aborted _ _ G). unfold aborted_at in *. by rewrite HA.
    + right. left. exists txn'. cbn. by rewrite (gr_open _ _ G), HO.
    + destruct (decide (tid' = tid)) as [->|Hne]; [left; apply A; congruence|].
      right. right. exists tid', prp'. cbn. by rewrite (gr_prepared _ _ G), HP, lookup_delete_ne.
  - exact M.
  - apply persist_prepared_synced. rewrite (gr_prepared _ _ G), HP. intros tid' prp' [_ Hl']%lookup_delete_Some.
    by apply (ps_keyed _ P).
Qed.

(** The commit of an open, of a prepared transaction. *)
Lemma commit_removed_open pid txn b b1 b2 :
  open_txns (b_txns b) !! pid = Some txn → removed_open pid b b1 → quiet b1 b2 →
  safe_step (Some pid) b (persist_txn_markers b2).
Proof.
  intros Hl (HO & HP & HA & HM & HF & HL) (QO & QP & QA & QM & QF & QL).
  split; [|intros [_ P]; split|cbn; rewrite <- HL; exact QL].
  - intros pid' t p o Hne [Ha|[(txn' & Hl' & Hc)|(tid & prp & Hl' & Hp & Hc)]].
    + left. unfold aborted_at in *. cbn. by rewrite QA, HA.
    + right. left. exists txn'. cbn. rewrite QO, HO, lookup_delete_ne; [done|congruence].
    + right. right. exists tid, prp. cbn. by rewrite QP, HP.
  - apply persist_markers_synced.
  - eapply prepared_synced_sub; [exact P|cbn; by rewrite QF|]. intros tid prp. cbn. by rewrite QP, HP.
Qed.

Lemma commit_removed_prep tid prp b b1 b2 :
  prepared_txns (b_txns b) !! tid = Some prp → removed_prep tid b b1 → quiet b1 b2 →
  safe_step (Some (pt_producer_id prp)) b (persist_prepared_txns (persist_txn_markers b2)).
Proof.
  intros Hl (HP & HO & HA & HM & HF & HL) (QO & QP & QA & QM & QF & QL).
  split; [|intros [_ P]; split|cbn; rewrite <- HL; exact QL].
  - intros pid' t p o Hne [Ha|[(txn' & Hl' & Hc)|(tid' & prp' & Hl' & Hp & Hc)]].
    + left. unfold aborted_at in *. cbn. by rewrite QA, HA.
    + right. left. exists txn'. cbn. by rewrite QO, HO.
    + right. right. exists tid', prp'. cbn. rewrite QP, HP, lookup_delete_ne; [done|]. congruence.
  - exact (persist_markers_synced b2).
  - apply persist_prepared_synced. cbn. rewrite QP, HP. intros tid' prp' [_ Hl']%lookup_delete_Some.
    by apply (ps_keyed _ P).
Qed.

(** The first phase of a two-phase commit. *)
Lemma prepare_safe tid pid e c txn now b b1 :
  open_txns (b_txns b) !! pid = Some txn → prepared_txns (b_txns b) !! tid = None →
  removed_open pid b b1 → safe_step None b (prepare_txn tid pid e c txn now b1).
Proof.
  intros Hl Hn (HO & HP & HA & HM & HF & HL). unfold prepare_txn.
  set (b2 := prepare_insert _ _ _ _ _ _ _).
  assert (HP2 : prepared_txns (b_txns b2) = <[tid := mkPrepared tid pid e c now txn]> (prepared_txns (b_txns b))).
  { cbn. by rewrite HP. }
  split; [|intros [_ P]; split|exact HL].
  - intros pid' t p o _ [Ha|[(txn' & Hl' & Hc)|(tid' & prp' & Hl' & Hp & Hc)]].
    + left. unfold aborted_at in *. cbn. by rewrite HA.
    + destruct (decide (pid' = pid)) as [->|Hne].
      * right. right. eexists tid, _. change (prepared_txns _) with (prepared_txns (b_txns b2)).
        rewrite HP2, lookup_insert_eq. split; [done|]. split; [done|]. cbn. congruence.
      * right. left. exists txn'. cbn. by rewrite HO, lookup_delete_ne.
    + right. right. exists tid', prp'. change (prepared_txns _) with (prepared_txns (b_txns b2)).
      rewrite HP2, lookup_insert_ne; [done|]. congruence.
  - exact (persist_markers_synced b2).
  - assert (K : map_Forall (λ tid prep, pt_transactional_id prep = tid)
                  (prepared_txns (b_txns (persist_txn_markers b2)))).
    { change (prepared_txns _) with (prepared_txns (b_txns b2)). rewrite HP2.
      apply map_Forall_insert_2; [done|apply (ps_keyed _ P)]. }
    destruct (persist_prepared_synced (persist_txn_markers b2) K) as [K' N S]. by split.
Qed.

(** ** Entries of the open table *)

Lemma put_open_withheld pid txn txn' b :
  (∀ txn0, open_txns (b_txns b) !! pid = Some txn0 → ot_written txn0 ⊆ ot_written txn') →
  txn = txn' →
  ∀ pid' t p o, withheld (b_txns b) pid' t p o → withheld (b_txns (put_open pid txn b)) pid' t p o.
Proof.
  intros Hsub -> pid' t p o [Ha|[(txn0 & Hl & r & Hr & Hc)|Hp]]; [by left|right; left|by right; right].
  unfold open_at. cbn. destruct (decide (pid' = pid)) as [->|Hne].
  - rewrite lookup_insert_eq. eexists. split; [done|]. exists r. split; [by eapply Hsub|done].
  - rewrite lookup_insert_ne by done. exists txn0. split; [done|]. by exists r.
Qed.

(** A change that keeps the ranges needs no new marker file. *)
Lemma put_open_same pid txn txn' b :
  open_txns (b_txns b) !! pid = Some txn → ot_written txn' = ot_written txn →
  safe_step None b (put_open pid txn' b).
Proof.
  intros Hl Hw. split; [|intros [M P]; split|done].
  - intros pid' t p o _. apply (put_open_withheld _ _ txn'); [|done]. intros txn0 Hl0.
    rewrite Hl in Hl0. injection Hl0 as <-. by rewrite Hw.
  - intros t p o [Ha|(pid' & txn0 & Hl0 & Hc)]; apply M; [by left|right].
    cbn in Hl0. destruct (decide (pid' = pid)) as [->|Hne].
    + rewrite lookup_insert_eq in Hl0. injection Hl0 as <-. exists pid, txn. by rewrite <- Hw.
    + rewrite lookup_insert_ne in Hl0 by done. by exists pid', txn0.
  - by destruct P.
Qed.

Lemma put_open_new pid txn b :
  open_txns (b_txns b) !! pid = None → ot_written txn = [] → safe_step None b (put_open pid txn b).
Proof.
  intros Hl Hw. split; [|intros [M P]; split|done].
  - intros pid' t p o _. apply (put_open_withheld _ _ txn); [|done]. intros txn0 Hl0. congruence.
  - intros t p o [Ha|(pid' & txn0 & Hl0 & Hc)]; apply M; [by left|right].
    cbn in Hl0. destruct (decide (pid' = pid)) as [->|Hne].
    + rewrite lookup_insert_eq in Hl0. injection Hl0 as <-. rewrite Hw in Hc.
      by destruct Hc as (r & ?%not_elem_of_nil & _).
    + rewrite lookup_insert_ne in Hl0 by done. by exists pid', txn0.
  - by destruct P.
Qed.

Lemma put_open_grow pid txn txn' b :
  open_txns (b_txns b) !! pid = Some txn → ot_written txn ⊆ ot_written txn' →
  safe_step None b (persist_txn_markers (put_open pid txn' b)).
Proof.
  intros Hl Hw. split; [|intros [M P]; split|done].
  - intros pid' t p o _. apply (put_open_withheld _ _ txn'); [|done]. intros txn0 Hl0.
    rewrite Hl in Hl0. by injection Hl0 as <-.
  - apply persist_markers_synced.
  - by destruct P.
Qed.

Lemma push_persist_safe t p m b : safe_step None b (persist_txn_markers (push_aborted_marker t p m b)).
Proof.
  split; [|intros [M P]; split|done].
  - intros pid' t' p' o _. apply grows_withheld, push_aborted_grows.
  - apply persist_markers_synced.
  - by destruct P.
Qed.

(** ** The operations *)

Lemma fence_open_safe pid e now b : safe_step None b (fence_open pid e now b).
Proof.
  unfold fence_open. destruct (open_txns (b_txns b) !! pid) as [txn|] eqn:Hl; [|done].
  by apply (abort_removed_open pid).
Qed.

Lemma init_safe tid e2 kp tmo now b :
  safe_step None b (init_producer_id_with_opts tid e2 kp tmo now b).2.
Proof.
  unfold init_producer_id_with_opts. transitivity (expire_timed_out_txns now b); [apply expire_safe|].
  generalize (expire_timed_out_txns now b). clear b. intros b. destruct (_ && _); [done|].
  set (ct := if 0 <? tmo then tmo else 0). destruct (String.eqb tid ""); [by apply quiet_safe|].
  assert (Hk : ∀ prep, safe_step None b (init_keep_prepared tid e2 ct prep now b).2).
  { intros prep. unfold init_keep_prepared. cbn [snd].
    match goal with |- context [fence_open ?q ?e ?n ?x] =>
      transitivity x; [apply quiet_safe; by case_match|];
      transitivity (fence_open q e n x); [apply fence_open_safe|by apply quiet_safe] end. }
  destruct (if kp then _ else None) as [prep|]; [apply Hk|]. clear Hk.
  match goal with |- context [match (if kp then None else _) with Some _ => _ | None => _ end] => idtac end.
  set (b1 := match (if kp then None else prepared_txns (b_txns b) !! tid) with Some _ => _ | None => _ end).
  assert (S1 : safe_step None b b1).
  { unfold b1. destruct kp; [done|]. destruct (prepared_txns (b_txns b) !! tid) as [prep|] eqn:Hl; [|done].
    etrans; [apply (abort_removed_prep tid (pt_producer_id prep) (pt_producer_epoch prep) Abort prep now b
      (map_txns (set_prepared_txns (delete tid (prepared_txns (b_txns b)))) b)); done|].
    by apply quiet_safe. }
  transitivity b1; [exact S1|]. clearbody b1. clear S1.
  destruct (transactional_ids (b_txns b1) !! tid) as [ex|]; [|by apply quiet_safe].
  destruct (producer_state (b_txns b1) !! ex) as [p|]; [|by apply quiet_safe].
  unfold init_fence. cbn [snd].
  match goal with |- context [fence_open ?q ?e ?n ?x] =>
    transitivity x; [by apply quiet_safe|];
    transitivity (fence_open q e n x); [apply fence_open_safe|by apply quiet_safe] end.
Qed.

Lemma begin_safe pid e now b : safe_step None b (begin_txn pid e now b).2.
Proof.
  unfold begin_txn. transitivity (expire_timed_out_txns now b); [apply expire_safe|].
  generalize (expire_timed_out_txns now b). clear b. intros b.
  destruct (check_producer pid e b) as [code|tid]; [done|].
  destruct (is_txn_abortable pid b); [done|]. destruct (has_prepared tid b); [done|].
  unfold has_open_txn. case_bool_decide as Hl; [done|]. apply put_open_new; [|done].
  by apply eq_None_not_Some.
Qed.

Lemma ensure_safe pid e now b : safe_step None b (ensure_txn_open pid e now b).2.
Proof.
  unfold ensure_txn_open. transitivity (expire_timed_out_txns now b); [apply expire_safe|].
  generalize (expire_timed_out_txns now b). clear b. intros b.
  destruct (check_producer pid e b) as [code|tid]; [done|].
  destruct (is_txn_abortable pid b); [done|]. destruct (has_prepared tid b); [done|].
  destruct (has_open_txn pid b); [done|]. apply begin_safe.
Qed.

Lemma added_safe pid ks b : safe_step None b (record_txn_added_partitions pid ks b).2.
Proof.
  unfold record_txn_added_partitions. case_bool_decide; [done|].
  destruct (open_txns (b_txns b) !! pid) as [txn|] eqn:Hl; [|done]. by eapply put_open_grow.
Qed.

Lemma buffer_offsets_safe pid e os now b : safe_step None b (buffer_txn_offsets pid e os now b).2.
Proof.
  unfold buffer_txn_offsets. transitivity (expire_timed_out_txns now b); [apply expire_safe|].
  generalize (expire_timed_out_txns now b). clear b. intros b.
  destruct (check_producer pid e b) as [code|tid]; [done|]. destruct (has_prepared tid b); [done|].
  destruct (open_txns (b_txns b) !! pid) as [txn|] eqn:Hl; [|done]. by eapply put_open_same.
Qed.

Lemma produce_check_safe pid e t p seq n now b : safe_step None b (txn_produce_check pid e t p seq n now b).2.
Proof.
  unfold txn_produce_check. transitivity (expire_timed_out_txns now b); [apply expire_safe|].
  generalize (expire_timed_out_txns now b). clear b. intros b. case_if; [done|].
  destruct (check_producer pid e b) as [code|tid]; [done|]. destruct (has_prepared tid b); [done|].
  by destruct (open_txns (b_txns b) !! pid).
Qed.

Lemma produce_append_tables t p ms now b : same_tables b (txn_produce_append t p ms now b).2.
Proof.
  unfold txn_produce_append. destruct (produce_with_acks _ _ _ _ _ _) as [[[rs code]|e] b1] eqn:E1;
    apply produce_with_acks_tables in E1; [|done]. destruct (negb _); [done|].
  destruct (flush _ _ _ _) as [r2 b2] eqn:E2. apply flush_tables in E2. by etrans.
Qed.

Lemma produce_record_safe pid t p seq n base b : safe_step None b (txn_produce_record pid t p seq n base b).2.
Proof.
  unfold txn_produce_record. destruct (open_txns (b_txns b) !! pid) as [txn|] eqn:Hl.
  - eapply put_open_grow; [done|]. cbn. intros r Hr. apply elem_of_app. by left.
  - apply push_persist_safe.
Qed.

(** Who a call of [end_txn] may reveal records of. *)
Definition reveals (pid : Z) (committed : bool) : option Z := if committed then Some pid else None.

Lemma finalize_commit_quiet root pid e txn os now b :
  ∃ b2, quiet b b2 ∧ (finalize_txn root pid e true txn os now b).2 = persist_txn_markers b2.
Proof.
  unfold finalize_txn. cbn [negb snd]. eexists. split; [|done].
  etrans; [|apply commit_offsets_quiet]. etrans; [|apply control_markers_quiet].
  apply quiet_fold. intros. apply record_idempotent_quiet.
Qed.

Lemma end_open_safe root tid e2 pid e c os now b :
  prepared_txns (b_txns b) !! tid = None ∨ tid = "" →
  safe_step (reveals pid c) b (end_open root tid e2 pid e c os now b).2.
Proof.
  intros Hn. unfold end_open. destruct (open_txns (b_txns b) !! pid) as [txn|] eqn:Hl.
  2: { destruct (is_txn_abortable pid b); [|done]. by apply quiet_safe. }
  set (b1 := clear_txn_abortable pid _). assert (R : removed_open pid b b1) by done.
  destruct (e2 && negb (String.eqb tid "")) eqn:E2.
  - apply andb_prop in E2 as [_ E2]. apply safe_step_weaken, prepare_safe; [done| |done].
    destruct Hn as [?| ->]; [done|]. by cbn in E2.
  - destruct c.
    + destruct (finalize_commit_quiet root pid e txn os now b1) as (b2 & Q & E).
      destruct (finalize_txn _ _ _ _ _ _ _ _) as [res b3]. cbn [snd] in *. subst b3.
      by eapply commit_removed_open.
    + unfold finalize_txn. cbn [negb snd]. by apply (abort_removed_open pid).
Qed.

Lemma end_prepared_safe root tid pid e c prp os now b :
  prepared_txns (b_txns b) !! tid = Some prp →
  safe_step (reveals pid c) b (end_prepared root tid pid e c prp os now b).2.
Proof.
  intros Hl. unfold end_prepared. destruct (Z.eqb_spec (pt_producer_id prp) pid) as [Hp|]; [|done].
  cbn [negb]. destruct (negb _); [done|]. destruct (negb _); [done|].
  set (b1 := clear_txn_abortable pid _). assert (R : removed_prep tid b b1) by done.
  destruct c.
  - destruct (finalize_commit_quiet root pid e (pt_open prp) os now b1) as (b2 & Q & E).
    destruct (finalize_txn _ _ _ _ _ _ _ _) as [res b3]. cbn [snd] in *. subst b3.
    etrans; [|apply quiet_safe, clear_cluster_quiet]. cbn [reveals]. rewrite <- Hp.
    by eapply commit_removed_prep.
  - unfold finalize_txn. cbn [negb snd]. etrans; [|apply quiet_safe, clear_cluster_quiet].
    by apply (abort_removed_prep tid).
Qed.

Lemma end_txn_safe root pid e c os now b : safe_step (reveals pid c) b (end_txn root pid e c os now b).2.
Proof.
  unfold end_txn. transitivity (expire_timed_out_txns now b); [apply safe_step_weaken, expire_safe|].
  generalize (expire_timed_out_txns now b). clear b. intros b.
  destruct (producer_state (b_txns b) !! pid) as [p|]; [|done]. destruct (negb _); [done|].
  destruct (String.eqb_spec (pe_transactional_id p) "") as [E|E].
  - apply end_open_safe. by right.
  - destruct (prepared_txns (b_txns b) !! pe_transactional_id p) as [prp|] eqn:Hl.
    + by apply end_prepared_safe.
    + apply end_open_safe. by left.
Qed.

(** ** Reads *)

Lemma last_stable_safe t p now b : safe_step None b (last_stable_offset t p now b).2.
Proof. apply expire_safe. Qed.

Lemma retain_safe f rs :
  (∀ r b, safe_step None b (f r b).2) → ∀ b, safe_step None b (retain_st f rs b).2.
Proof.
  intros Hf. induction rs as [|r rs IH]; intros b; [done|]. cbn [retain_st].
  specialize (Hf r b). destruct (f r b) as [k b1]. specialize (IH b1).
  destruct (retain_st f rs b1) as [out b2]. cbn [snd] in *. by transitivity b1.
Qed.

Lemma fetch_safe t p from mm cap iso now b : safe_step None b (fetch_up_to t p from mm cap iso now b).2.
Proof.
  unfold fetch_up_to. destruct (get_partition t p b) as [part|e]; [|done].
  destruct (ls_read _ _ _) as [rs|e]; [|done]. destruct iso.
  - match goal with |- context [retain_st ?f ?rs ?b] =>
      pose proof (retain_safe f rs) as Hr; destruct (retain_st f rs b) as [out b1] eqn:E end.
    cbn [snd]. change b1 with (out, b1).2. rewrite <- E. apply Hr. intros r b0. cbn beta.
    destruct (is_txn_control_record r); [reflexivity|apply expire_safe].
  - pose proof (last_stable_safe t p now b) as Hl. by destruct (last_stable_offset t p now b).
  - done.
Qed.

Lemma write_one_marker_effect pid e m t p ranges now b :
  let '(err, b') := write_one_txn_marker pid e m t p ranges now b in
  grows (b_txns b) (b_txns b') ∧ tf_markers (b_files b') = tf_markers (b_files b) ∧
  tf_prepared (b_files b') = tf_prepared (b_files b) ∧ layout b' = layout b ∧
  (err ≠ 0 → quiet b b').
Proof.
  unfold write_one_txn_marker. destruct (_ || _); [done|].
  destruct (produce_one _ _ _ _ _) as [[r|er] b1] eqn:E1; apply produce_one_tables in E1.
  2: { destruct (same_tables_quiet _ _ E1) as (? & ? & ? & ? & ? & ?).
       split; [by apply same_tables_grows|]. done. }
  destruct (flush _ _ _ _) as [r2 b2] eqn:E2. apply flush_tables in E2.
  assert (E3 : same_tables b b2) by by etrans.
  destruct (same_tables_quiet _ _ E3) as (? & ? & ? & HM & HP & HL).
  pose proof (same_tables_grows _ _ E3) as G. destruct m; [|done].
  destruct (ranges !! _) as [[f en]|]; [|done].
  split; [etrans; [exact G|apply push_aborted_grows]|]. done.
Qed.

(** What writing markers does before the file is written. *)
Definition marked (wrote : bool) b b' : Prop :=
  grows (b_txns b) (b_txns b') ∧ tf_prepared (b_files b') = tf_prepared (b_files b) ∧
  layout b' = layout b ∧ (wrote = false → quiet b b').

Lemma marked_trans w b1 b2 b3 w' :
  marked w b1 b2 → marked w' b2 b3 → (w' = false → w = false) → marked w' b1 b3.
Proof.
  intros (G1 & F1 & L1 & Q1) (G2 & F2 & L2 & Q2) Hw. split; [by etrans|].
  split; [congruence|]. split; [congruence|]. intros Hf. etrans; [by apply Q1, Hw|by apply Q2].
Qed.

Lemma write_topic_markers_effect pid e m t ps ranges now : ∀ w b,
  let '(_, w', b') := write_topic_markers pid e m t ps ranges now w b in
  marked w' b b' ∧ (w' = false → w = false).
Proof.
  induction ps as [|p ps IH]; intros w b; cbn [write_topic_markers]; [done|].
  pose proof (write_one_marker_effect pid e m t p ranges now b) as H1'.
  destruct (write_one_txn_marker _ _ _ _ _ _ _ _) as [err b1].
  destruct H1' as (G & _ & F & Ly & Q). specialize (IH ((err =? 0) || w) b1).
  destruct (write_topic_markers _ _ _ _ _ _ _ _ _) as [[out w'] b2]. destruct IH as [M Hw].
  assert (M1 : marked ((err =? 0) || w) b b1).
  { split; [done|]. split; [done|]. split; [done|]. intros [He _]%orb_false_iff. apply Q. by apply Z.eqb_neq. }
  split; [by eapply marked_trans|]. intros Hf. apply Hw in Hf. by apply orb_false_iff in Hf as [_ ?].
Qed.

Lemma write_all_markers_effect pid e m ts ranges now : ∀ w b,
  let '(_, w', b') := write_all_markers pid e m ts ranges now w b in
  marked w' b b' ∧ (w' = false → w = false).
Proof.
  induction ts as [|[t ps] ts IH]; intros w b; cbn [write_all_markers]; [done|].
  pose proof (write_topic_markers_effect pid e m t ps ranges now w b) as H1'.
  destruct (write_topic_markers _ _ _ _ _ _ _ _ _) as [[rs w1] b1]. destruct H1' as [M1 Hw1].
  specialize (IH w1 b1). destruct (write_all_markers _ _ _ _ _ _ _ _) as [[out w'] b2].
  destruct IH as [M2 Hw2]. split; [by eapply marked_trans|]. auto.
Qed.

Lemma write_markers_safe pid e c ts now b : safe_step None b (write_txn_markers pid e c ts now b).2.
Proof.
  unfold write_txn_markers.
  match goal with |- context [write_all_markers ?a ?b ?c ?d ?e ?f ?g ?h] =>
    pose proof (write_all_markers_effect a b c d e f g h) as H1';
    destruct (write_all_markers a b c d e f g h) as [[rs w] b1] end.
  destruct H1' as [(G & F & Ly & Q) _]. cbn [snd]. destruct w; [|by apply quiet_safe, Q].
  split; [|intros [M P]; split|exact Ly].
  - intros pid' t p o _. by apply grows_withheld.
  - apply persist_markers_synced.
  - eapply prepared_synced_sub; [exact P|exact F|]. intros tid prp. cbn. by rewrite (gr_prepared _ _ G).
Qed.

End operations.
