(* ===== verification/TxnTrace.v ===== *)
(** * Transactions: traces of operations, truncations and restarts

    [txn_step] is one operation of the broker, by any client, or a truncation
    or a restart.  Along any run in which a producer does not commit, what it
    wrote in a transaction is not returned to a reader of committed data. *)

From Stdlib Require Import Strings.String.
From S2P Require Import Prelude Bytes Core Record SparseIndex Segment GroupCommit PartitionLog BrokerLog Messages OffsetStore OffsetStoreProps Group Broker KafkaRecords Txn TxnRecovery TxnProps TxnSafety.
#[local] Open Scope Z_scope.

Section trace.
Context {L : Type} `{LogStoreLaws L}.
Implicit Types (b : Broker L).

(** The start of the log of a partition. *)
Definition start_at b (t : string) (p : Z) : option Z := x ← layout b !! t; x.2 !! p.

(** The offset is below the log. *)
Definition below b (t : string) (p o : Z) : Prop := ∃ s, start_at b t p = Some s ∧ o < s.

(** Topics are stored under their names. *)
Definition named b : Prop := map_Forall (λ k x, x.1 = k) (layout b).

Definition starts_le b b' : Prop :=
  ∀ t p s, start_at b t p = Some s → ∃ s', start_at b' t p = Some s' ∧ s ≤ s'.

#[local] Instance starts_le_preorder : PreOrder starts_le.
Proof.
  split; [intros b t p s; eauto using Z.le_refl|]. intros b1 b2 b3 H1 H2 t p s Hs.
  destruct (H1 t p s Hs) as (s1 & Hs1 & ?). destruct (H2 t p s1 Hs1) as (s2 & ? & ?).
  exists s2. split; [done|lia].
Qed.

Lemma starts_le_layout b b' : layout b' = layout b → starts_le b b'.
Proof. intros E t p s Hs. exists s. unfold start_at in *. rewrite E. split; [done|lia]. Qed.

Lemma below_mono b b' t p o : starts_le b b' → below b t p o → below b' t p o.
Proof. intros Hle (s & Hs & Ho). destruct (Hle t p s Hs) as (s' & ? & ?). exists s'. split; [done|lia]. Qed.

(** A step that may truncate logs. *)
Record good_step (c : option Z) b b' : Prop := {
  gs_withheld : ∀ pid t p o, c ≠ Some pid → withheld (b_txns b) pid t p o →
    withheld (b_txns b') pid t p o ∨ below b' t p o;
  gs_starts : starts_le b b';
  gs_synced : synced b → synced b';
  gs_named : named b → named b';
}.

Lemma safe_good c b b' : safe_step c b b' → good_step c b b'.
Proof.
  intros [W S E]. split; [left; by eapply W|by apply starts_le_layout|done|]. unfold named. by rewrite E.
Qed.

Lemma good_step_trans c b1 b2 b3 : good_step c b1 b2 → good_step c b2 b3 → good_step c b1 b3.
Proof.
  intros [W1 S1 Y1 N1] [W2 S2 Y2 N2]. split; [|by etrans|auto..].
  intros pid t p o Hc W. destruct (W1 pid t p o Hc W) as [W'|B]; [by apply W2|].
  right. by eapply below_mono.
Qed.

Context `{IterOrder}.

(** ** Garbage collection *)

(** Dropping and clipping keeps exactly the coverage from the start on. *)
Lemma clip_covers s o ms :
  (∃ m, m ∈ map (clip_marker s) (filter (λ m, s < am_end_offset m) ms) ∧ marker_covers o m = true) ↔
  (∃ m, m ∈ ms ∧ marker_covers o m = true) ∧ s ≤ o.
Proof.
  split.
  - intros (m' & (m & -> & [Hs Hm]%list_elem_of_filter)%list_elem_of_fmap & Hc).
    assert (s ≤ o ∧ marker_covers o m = true) as [? ?]; [|eauto].
    rewrite marker_covers_spec in Hc |- *. unfold clip_marker in Hc.
    destruct (Z.ltb_spec (am_first_offset m) s); cbn in Hc; lia.
  - intros [(m & Hm & Hc) Hs]. rewrite marker_covers_spec in Hc. exists (clip_marker s m). split.
    + apply list_elem_of_fmap_2, list_elem_of_filter. split; [lia|done].
    + rewrite marker_covers_spec. unfold clip_marker. destruct (Z.ltb_spec (am_first_offset m) s); cbn; lia.
Qed.

(** Coverage is lost only below the start given. *)
Lemma gc_below_spec t p s b :
  let b' := (gc_aborted_markers_below t p s b).2 in
  open_txns (b_txns b') = open_txns (b_txns b) ∧ prepared_txns (b_txns b') = prepared_txns (b_txns b) ∧
  b_files b' = b_files b ∧ b_topics b' = b_topics b ∧
  (∀ t' p' o, aborted_at (b_txns b') t' p' o ↔
     aborted_at (b_txns b) t' p' o ∧ ((t', p') = (t, p) → s ≤ o)).
Proof.
  cbn zeta. unfold gc_aborted_markers_below.
  destruct (aborted_txns (b_txns b) !! (t, p)) as [ms|] eqn:Hl.
  2: { do 4 (split; [done|]). intros t' p' o. split; [|tauto]. intros Ha. split; [done|].
       intros [= -> ->]. destruct Ha as (? & ? & E & _). cbn in E. congruence. }
  set (kept := filter _ ms). set (dropped := zlen ms - zlen kept). cbn [snd].
  set (a := if bool_decide _ then _ else _). set (b1 := map_txns (set_aborted_txns a) b).
  do 4 (split; [by destruct (0 <? dropped)|]). intros t' p' o.
  transitivity (aborted_at (b_txns b1) t' p' o); [by destruct (0 <? dropped)|].
  unfold aborted_at. cbn. destruct (decide ((t', p') = (t, p))) as [[= -> ->]|Hne].
  - rewrite Hl. pose proof (clip_covers s o ms) as Hc. fold kept in Hc. split.
    + intros (ms' & m' & Hl' & Hm' & Hc'). unfold a in Hl'. case_bool_decide.
      { by rewrite lookup_delete_eq in Hl'. }
      rewrite lookup_insert_eq in Hl'. injection Hl' as <-.
      destruct (proj1 Hc) as [(m & ? & ?) ?]; [eauto|]. split; [eauto|done].
    + intros [(ms' & m & [= <-] & Hm & Hcm) Hs]. destruct (proj2 Hc) as (m' & Hm' & Hc'); [eauto|].
      exists (map (clip_marker s) kept), m'. split; [|done]. unfold a.
      rewrite bool_decide_false; [by rewrite lookup_insert_eq|].
      intros E. rewrite E in Hm'. by apply not_elem_of_nil in Hm'.
  - assert (Hla : a !! (t', p') = aborted_txns (b_txns b) !! (t', p')).
    { unfold a. case_bool_decide; [by rewrite lookup_delete_ne|by rewrite lookup_insert_ne]. }
    rewrite Hla. tauto.
Qed.

(** The same for a list of log starts. *)
Lemma gc_fold_spec l : ∀ n b,
  let b' := (foldl (λ '(total, b) '(topic, part, start),
             let '(n, b) := gc_aborted_markers_below topic part start b in (total + n, b)) (n, b) l).2 in
  open_txns (b_txns b') = open_txns (b_txns b) ∧ prepared_txns (b_txns b') = prepared_txns (b_txns b) ∧
  b_files b' = b_files b ∧ b_topics b' = b_topics b ∧
  (∀ t p o, aborted_at (b_txns b') t p o ↔
     aborted_at (b_txns b) t p o ∧ ∀ s, (t, p, s) ∈ l → s ≤ o).
Proof.
  induction l as [|[[t p] s] l IH]; intros n b; cbn [foldl].
  { do 4 (split; [done|]). intros t p o. split; [|tauto]. intros ?. split; [done|]. by intros s ?%not_elem_of_nil. }
  pose proof (gc_below_spec t p s b) as H1'. destruct (gc_aborted_markers_below t p s b) as [k b1].
  destruct H1' as (O1 & P1 & F1 & T1 & A1). destruct (IH (n + k) b1) as (O2 & P2 & F2 & T2 & A2).
  cbn [snd] in *. do 4 (split; [congruence|]). intros t' p' o. rewrite A2, A1.
  setoid_rewrite elem_of_cons. split.
  - intros [[Ha Hs] Hl]. split; [done|]. intros s' [[= -> -> ->]|Hin]; [by apply Hs|by apply Hl].
  - intros [Ha Hl]. split; [split; [done|]|auto]. intros [= -> ->]. apply Hl. by left.
Qed.

Lemma named_topic b t top : named b → b_topics b !! t = Some top → t_name top = t.
Proof.
  intros Hn Ht. eapply (Hn t (t_name top, _)). unfold layout. by rewrite lookup_fmap, Ht.
Qed.

Lemma elem_of_log_starts t p s b :
  named b → (t, p, s) ∈ log_starts b ↔ start_at b t p = Some s.
Proof.
  intros Hn. unfold log_starts, start_at, layout. rewrite list_elem_of_In, in_flat_map.
  setoid_rewrite <- list_elem_of_In. rewrite lookup_fmap. split.
  - intros ([k top] & Hk & Hx). apply list_elem_of_fmap in Hx as ([pid part] & E & Hp).
    injection E as -> -> ->.
    rewrite elem_of_reorder, elem_of_map_to_list in Hk.
    rewrite elem_of_reorder, elem_of_map_to_list in Hp.
    rewrite (named_topic b k top), Hk by done. cbn. by rewrite lookup_fmap, Hp.
  - destruct (b_topics b !! t) as [top|] eqn:Ht; [|done]. cbn. rewrite lookup_fmap.
    intros (part & Hp & ->)%fmap_Some. exists (t, top). rewrite elem_of_reorder, elem_of_map_to_list.
    split; [done|]. apply list_elem_of_fmap. exists (p, part).
    rewrite elem_of_reorder, elem_of_map_to_list. split; [|done].
    by rewrite (named_topic b t top).
Qed.

Lemma gc_all_good b : named b → good_step None b (gc_stale_aborted_markers_all b).2.
Proof.
  intros Hn. unfold gc_stale_aborted_markers_all. pose proof (gc_fold_spec (log_starts b) 0 b) as H1'.
  destruct (foldl _ _ _) as [total b1]. destruct H1' as (HO & HP & HF & HT & HA). cbn [snd] in *.
  assert (HL : layout b1 = layout b) by by apply layout_topics.
  set (b2 := if 0 <? total then _ else _).
  assert (Hw : ∀ pid t p o, withheld (b_txns b) pid t p o → withheld (b_txns b1) pid t p o ∨ below b t p o).
  { intros pid t p o [Ha|[Hx|Hx]].
    - destruct (start_at b t p) as [s|] eqn:Hs.
      + destruct (Z.lt_ge_cases o s); [right; by exists s|]. left. left. apply HA. split; [done|].
        intros s' Hs'. apply elem_of_log_starts in Hs'; [|done]. rewrite Hs in Hs'. by injection Hs' as <-.
      + left. left. apply HA. split; [done|]. intros s Hs'. apply elem_of_log_starts in Hs'; [congruence|done].
    - left. right. left. unfold open_at. by rewrite HO.
    - left. right. right. unfold prepared_at. by rewrite HP. }
  assert (HL2 : layout b2 = layout b) by (unfold b2; by destruct (0 <? total)).
  split; [| by apply starts_le_layout| |unfold named; by rewrite HL2].
  - intros pid t p o _ W. destruct (Hw pid t p o W) as [W'|(s & Hs & Ho)].
    + left. unfold b2. by destruct (0 <? total).
    + right. exists s. unfold start_at in *. by rewrite HL2.
  - intros [M P]. split.
    + unfold b2. destruct (0 <? total); [apply persist_markers_synced|]. intros t p o Hx. rewrite HF.
      apply M. destruct Hx as [[Hx _]%HA|(pid & txn & Hl & Hc)]; [by left|right]. exists pid, txn. by rewrite <- HO.
    + unfold b2. eapply prepared_synced_sub; [exact P|by destruct (0 <? total); cbn; rewrite HF|].
      intros tid prp. destruct (0 <? total); cbn; by rewrite HP.
Qed.

(** ** Truncation *)

Lemma put_partition_start t p part part' b t' p' :
  get_partition t p b = Ok part →
  start_at (put_partition t p part' b) t' p' =
  if bool_decide ((t', p') = (t, p)) then Some (ls_start (p_log part')) else start_at b t' p'.
Proof.
  intros (top & Ht & Hp)%get_partition_ok. unfold start_at, layout. cbn. rewrite !lookup_fmap.
  destruct (decide (t' = t)) as [->|Hne].
  - rewrite lookup_alter_eq, Ht. cbn. rewrite fmap_insert. case_bool_decide as Hd.
    + injection Hd as ->. by rewrite lookup_insert_eq.
    + rewrite lookup_insert_ne; [done|congruence].
  - rewrite lookup_alter_ne by done. rewrite bool_decide_false; [done|congruence].
Qed.

Lemma put_partition_named t p part b : named b → named (put_partition t p part b).
Proof.
  intros Hn t' x. unfold layout. cbn. rewrite lookup_fmap. intros (top & Ht & ->)%fmap_Some. cbn.
  destruct (decide (t' = t)) as [->|Hne].
  - rewrite lookup_alter_eq in Ht. apply fmap_Some in Ht as (top0 & Ht & ->). cbn. by apply (named_topic b).
  - rewrite lookup_alter_ne in Ht by done. by apply (named_topic b).
Qed.

Lemma gc_one_good t p s b :
  start_at b t p = Some s → good_step None b (gc_and_persist_aborted_markers t p s b).
Proof.
  intros Hs. unfold gc_and_persist_aborted_markers. pose proof (gc_below_spec t p s b) as H1'.
  destruct (gc_aborted_markers_below t p s b) as [n b1]. cbn [snd] in H1'.
  destruct H1' as (HO & HP & HF & HT & HA). set (b2 := if 0 <? n then _ else _).
  assert (HL : layout b2 = layout b).
  { transitivity (layout b1); [unfold b2; by destruct (0 <? n)|by apply layout_topics]. }
  assert (Ht2 : b_txns b2 = b_txns b1) by (unfold b2; by destruct (0 <? n)).
  split; [|by apply starts_le_layout| |unfold named; by rewrite HL].
  - intros pid t' p' o _ [Ha|[Hx|Hx]].
    + destruct (decide ((t', p') = (t, p) ∧ o < s)) as [[[= -> ->] Ho]|Hn].
      * right. exists s. unfold start_at in *. by rewrite HL.
      * left. left. rewrite Ht2. apply HA. split; [done|]. intros E. apply Z.le_ngt. intros ?. by apply Hn.
    + left. right. left. rewrite Ht2. unfold open_at. by rewrite HO.
    + left. right. right. rewrite Ht2. unfold prepared_at. by rewrite HP.
  - intros [M P]. split.
    + unfold b2. destruct (0 <? n); [apply persist_markers_synced|]. intros t' p' o Hx. rewrite HF.
      apply M. destruct Hx as [[Hx _]%HA|(pid & txn & Hl & Hc)]; [by left|right]. exists pid, txn. by rewrite <- HO.
    + eapply prepared_synced_sub; [exact P|unfold b2; destruct (0 <? n); cbn; by rewrite HF|].
      intros tid prp. by rewrite Ht2, HP.
Qed.

Definition readable b (t : string) (p : Z) : Prop :=
  ∀ part, get_partition t p b = Ok part → ∃ recs, ls_rep (p_log part) recs.

Lemma delete_good t p before now b :
  readable b t p → clock_ok now → good_step None b (delete_records t p before now b).2.
Proof.
  intros Hr Hnow. unfold delete_records. destruct (get_partition t p b) as [part|e] eqn:E; [|by apply safe_good].
  destruct (_ && _); [by apply safe_good|]. destruct (Hr part E) as (recs & R).
  destruct (ls_delete_ok (p_log part) recs before now R Hnow) as (l' & recs' & Ed & _ & Hle & _).
  rewrite Ed. cbn [snd]. set (b1 := put_partition _ _ _ _).
  assert (Hs : ∀ t' p', start_at b1 t' p' = if bool_decide ((t', p') = (t, p)) then Some (ls_start l') else start_at b t' p')
    by (intros; unfold b1; by rewrite (put_partition_start _ _ part)).
  assert (G1 : good_step None b b1).
  { split; [by left| |by intros [M []]|apply put_partition_named].
    intros t' p' s Hs'. rewrite Hs. case_bool_decide as Hd; [|eauto using Z.le_refl].
    injection Hd as -> ->. exists (ls_start l'). split; [done|].
    apply get_partition_ok in E as (top & Ht & Hp). unfold start_at, layout in Hs'.
    rewrite lookup_fmap, Ht in Hs'. cbn in Hs'. rewrite lookup_fmap, Hp in Hs'. cbn in Hs'. simplify_eq. lia. }
  eapply good_step_trans; [exact G1|]. apply gc_one_good. rewrite Hs. by rewrite bool_decide_true.
Qed.

(** ** Restart *)

Lemma push_stored_fold l : ∀ b,
  let b' := foldl push_stored b l in
  grows (b_txns b) (b_txns b') ∧ b_files b' = b_files b ∧ b_topics b' = b_topics b ∧
  (∀ m o, m ∈ l → sr_first_offset m ≤ o < sr_end_offset m →
     aborted_at (b_txns b') (sr_topic m) (sr_partition m) o).
Proof.
  induction l as [|m l IH]; intros b; cbn [foldl].
  { do 3 (split; [done|]). intros ? ? ?%not_elem_of_nil. done. }
  destruct (IH (push_stored b m)) as (G & F & T & A). split; [etrans; [apply push_aborted_grows|exact G]|].
  do 2 (split; [done|]). intros m' o [->|Hin]%elem_of_cons Ho; [|by apply A].
  apply (gr_aborted _ _ G), push_aborted_at. by rewrite marker_covers_spec.
Qed.

Lemma crash_markers_tables open added now b :
  same_tables b (append_crash_abort_control_markers open added now b).
Proof.
  unfold append_crash_abort_control_markers. generalize (reorder (map_to_list (foldl crash_added (foldl crash_range ∅ open) added))).
  intros l. revert b. induction l as [|[pid [e txn]] l IH]; intros b; cbn [foldl]; [done|].
  etrans; [|apply IH]. unfold crash_abort. destruct e as [e|]; [apply control_markers_tables|].
  destruct (pe_epoch <$> _); [apply control_markers_tables|done].
Qed.

Lemma gc_below_count t p s b : 0 ≤ (gc_aborted_markers_below t p s b).1.
Proof.
  unfold gc_aborted_markers_below. destruct (aborted_txns (b_txns b) !! (t, p)) as [ms|]; [|done]. cbn [fst].
  set (kept := filter _ ms). pose proof (zlen_nonneg (filter (λ m, am_first_offset m < s) kept)).
  assert (zlen kept ≤ zlen ms) by (unfold zlen, kept; pose proof (length_filter (λ m, s < am_end_offset m) ms); lia).
  lia.
Qed.

Lemma gc_all_synced b :
  let '(n, b') := gc_stale_aborted_markers_all b in n = 0 ∨ markers_synced b'.
Proof.
  unfold gc_stale_aborted_markers_all.
  assert (Hn : ∀ l n b, 0 ≤ n → 0 ≤ (foldl (λ '(total, b) '(topic, part, start),
             let '(n, b) := gc_aborted_markers_below topic part start b in (total + n, b)) (n, b) l).1).
  { induction l as [|[[t p] s] l IH]; intros n b0 Hn; cbn [foldl]; [done|].
    pose proof (gc_below_count t p s b0). destruct (gc_aborted_markers_below t p s b0) as [k b1].
    apply IH. cbn in *. lia. }
  specialize (Hn (log_starts b) 0 b ltac:(lia)). destruct (foldl _ _ _) as [n b1]. cbn in Hn.
  destruct (Z.ltb_spec 0 n); [right; apply persist_markers_synced|left; lia].
Qed.

Lemma gc_all_frame b :
  let b' := (gc_stale_aborted_markers_all b).2 in
  tf_prepared (b_files b') = tf_prepared (b_files b) ∧
  prepared_txns (b_txns b') = prepared_txns (b_txns b) ∧ open_txns (b_txns b') = open_txns (b_txns b) ∧
  layout b' = layout b.
Proof.
  cbn zeta. unfold gc_stale_aborted_markers_all. pose proof (gc_fold_spec (log_starts b) 0 b) as H1'.
  destruct (foldl _ _ _) as [n b1]. destruct H1' as (HO1 & HP1 & HF1 & HT1 & _). cbn [snd] in *.
  pose proof (layout_topics _ _ HT1). destruct (0 <? n); cbn; by rewrite HF1, HP1, HO1.
Qed.

(** The tables of a broker that has just been created. *)
Record blank b : Prop := {
  bl_prepared : prepared_txns (b_txns b) = ∅;
  bl_open : open_txns (b_txns b) = ∅;
  bl_aborted : aborted_txns (b_txns b) = ∅;
  bl_file : ∀ fs, tf_prepared (b_files b) = Some fs → NoDup (st_transactional_id <$> fs);
}.

Lemma blank_synced b : blank b → tf_markers (b_files b) = None → synced b.
Proof.
  intros [HP HO HA HF] Hf. split.
  - intros t p o [(ms & m & Hl & _)|(pid & txn & Hl & _)]; [by rewrite HA in Hl|by rewrite HO in Hl].
  - split; [by rewrite HP|done|]. intros tid prp. by rewrite HP.
Qed.

(** Loading the markers: what the file covers is aborted. *)
Lemma load_markers_spec now b :
  named b → blank b →
  let b' := load_txn_markers now b in
  markers_synced b' ∧ tf_prepared (b_files b') = tf_prepared (b_files b) ∧
  prepared_txns (b_txns b') = ∅ ∧ layout b' = layout b ∧
  (∀ f t p o, tf_markers (b_files b) = Some f → file_at f t p o →
     aborted_at (b_txns b') t p o ∨ below b t p o).
Proof.
  intros Hn Bl. cbn zeta. unfold load_txn_markers.
  destruct (tf_markers (b_files b)) as [f|] eqn:Hf.
  2: { destruct (gc_all_frame b) as (E1 & E2 & _ & E3). split; [|by rewrite E1, E2, (bl_prepared _ Bl)].
       apply (gs_synced _ _ _ (gc_all_good b Hn)). by apply blank_synced. }
  destruct (push_stored_fold (mf_aborted f) b) as (G1 & F1 & T1 & A1). set (b1 := foldl _ b _) in *.
  destruct (push_stored_fold (mf_open f) b1) as (G2 & F2 & T2 & A2). set (b2 := foldl _ b1 _) in *.
  set (b3 := if negb _ || negb _ then _ else b2).
  assert (S3 : same_tables b2 b3) by (unfold b3; destruct (_ || _); [apply crash_markers_tables|done]).
  destruct S3 as (HT3 & HF3 & _ & _ & _ & _ & HL3).
  assert (HL : layout b3 = layout b) by (rewrite HL3; apply layout_topics; congruence).
  assert (Hn3 : named b3) by (unfold named; by rewrite HL).
  pose proof (gc_all_good b3 Hn3) as G4. pose proof (gc_all_synced b3) as M4.
  destruct (gc_all_frame b3) as (E1 & E2 & E4 & E3). destruct (gc_stale_aborted_markers_all b3) as [n b4]. cbn [snd] in *.
  set (b5 := if n =? 0 then _ else b4).
  assert (Hb5 : b_txns b5 = b_txns b4 ∧ layout b5 = layout b4 ∧ tf_prepared (b_files b5) = tf_prepared (b_files b4))
    by (unfold b5; by destruct (n =? 0)).
  destruct Hb5 as (HT5 & HL5 & HF5).
  split; [unfold b5; destruct (Z.eqb_spec n 0); [apply persist_markers_synced|by destruct M4]|].
  assert (HP4 : prepared_txns (b_txns b4) = ∅).
  { rewrite E2, HT3, (gr_prepared _ _ G2), (gr_prepared _ _ G1). apply (bl_prepared _ Bl). }
  assert (HO4 : open_txns (b_txns b4) = ∅).
  { rewrite E4, HT3, (gr_open _ _ G2), (gr_open _ _ G1). apply (bl_open _ Bl). }
  split; [congruence|]. split; [by rewrite HT5|].
  split; [congruence|]. intros f' t p o [= <-] (m & Hm & <- & <- & Ho).
  assert (Ha : aborted_at (b_txns b3) (sr_topic m) (sr_partition m) o).
  { rewrite HT3. apply elem_of_app in Hm as [Hm|Hm]; [by apply A2|]. by apply (gr_aborted _ _ G2), A1. }
  destruct (gs_withheld _ _ _ G4 0 (sr_topic m) (sr_partition m) o ltac:(done) (or_introl Ha)) as [W|B].
  - left. rewrite HT5. destruct W as [?|[(txn & Hl & _)|(tid & prp & Hl & _)]]; [done|..].
    + by rewrite HO4 in Hl.
    + by rewrite HP4 in Hl.
  - right. destruct B as (s0 & Hs0 & ?). exists s0. unfold start_at in *. split; [congruence|done].
Qed.

Lemma foldl_insert_lookup {V W} (key : W → string) (f : W → V) l : ∀ m0 : gmap string V,
  NoDup (key <$> l) → ∀ k v, foldl (λ m x, <[key x := f x]> m) m0 l !! k = Some v ↔
  (∃ x, x ∈ l ∧ key x = k ∧ f x = v) ∨ ((∀ x, x ∈ l → key x ≠ k) ∧ m0 !! k = Some v).
Proof.
  induction l as [|x l IH]; intros m0 Hnd k v; cbn [foldl].
  { split; [intros Hl; right; split; [by intros ? ?%not_elem_of_nil|done]|].
    intros [(? & ?%not_elem_of_nil & _)|[_ ?]]; done. }
  cbn in Hnd. apply NoDup_cons in Hnd as [Hx Hnd]. rewrite IH by done. setoid_rewrite elem_of_cons.
  destruct (decide (key x = k)) as [<-|Hne].
  - rewrite lookup_insert_eq. split.
    + intros [(y & Hy & Hk & Hv)|[_ [= <-]]]; [|by eauto 10].
      destruct Hx. rewrite <- Hk. by apply list_elem_of_fmap_2.
    + intros [(y & [->|Hy] & Hk & Hv)|[Hn _]]; [right|left; eauto|by destruct (Hn x); auto].
      split; [|by rewrite Hv]. intros y Hy E. destruct Hx. rewrite <- E. by apply list_elem_of_fmap_2.
  - rewrite lookup_insert_ne by done. split.
    + intros [(y & Hy & Hk & Hv)|[Hn Hl]]; [left; eauto|right]. split; [|done]. intros y [->|Hy]; auto.
    + intros [(y & [->|Hy] & Hk & Hv)|[Hn Hl]]; [done|left; eauto|right]. split; auto.
Qed.

(** Loading the prepared transactions. *)
Lemma load_prepared_spec now b :
  prepared_txns (b_txns b) = ∅ → (∀ fs, tf_prepared (b_files b) = Some fs → NoDup (st_transactional_id <$> fs)) →
  let b' := load_prepared_txns now b in
  prepared_synced b' ∧ open_txns (b_txns b') = open_txns (b_txns b) ∧
  aborted_txns (b_txns b') = aborted_txns (b_txns b) ∧ b_files b' = b_files b ∧ layout b' = layout b ∧
  (∀ fs prp t p o, tf_prepared (b_files b) = Some fs → stored_in prp fs →
     covered t p o (ot_written (pt_open prp)) → prepared_at (b_txns b') (pt_producer_id prp) t p o).
Proof.
  intros HP Hnd. cbn zeta. unfold load_prepared_txns.
  destruct (tf_prepared (b_files b)) as [fs|] eqn:Hf.
  2: { split; [|done]. split; [by rewrite HP|by rewrite Hf|]. intros tid prp. by rewrite HP. }
  specialize (Hnd fs eq_refl).
  pose proof (foldl_insert_lookup st_transactional_id (restore_prepared now) fs (prepared_txns (b_txns b)) Hnd) as Hlk.
  split; [split; cbn|do 4 (split; [done|])].
  - intros tid prp [(s0 & _ & <- & <-)|[_ Hl]]%Hlk; [done|]. by rewrite HP in Hl.
  - rewrite Hf. intros fs' [= <-]. done.
  - intros tid prp [(s0 & Hs & <- & <-)|[_ Hl]]%Hlk; [|by rewrite HP in Hl].
    exists fs. split; [done|]. by exists s0.
  - intros fs' prp t p o [= <-] (s0 & Hs & Ht & Hp & Hw) Hc.
    exists (st_transactional_id s0), (restore_prepared now s0). cbn. split; [apply Hlk; left; eauto|].
    split; [done|]. unfold stored_ranges in Hw. by rewrite Hw.
Qed.

(** The reopened topics have the same names, and logs that start no earlier. *)
Definition reopened b (topics : gmap string (Topic L)) : Prop :=
  named (set_topics topics b) ∧ starts_le b (set_topics topics b).

Lemma restart_good env topics now b :
  synced b → reopened b topics → good_step None b (restart env topics now b).
Proof.
  intros [M P] [Hn Hst]. unfold restart. set (b0 := mkBroker _ _ _ _ _ _ _ _ _).
  assert (Hn0 : named b0) by exact Hn.
  assert (Hl0 : ∀ t p o, below b0 t p o ↔ below (set_topics topics b) t p o) by done.
  assert (Bl : blank b0).
  { unfold b0, fresh_txns. destruct (load_producer_maps _) as [[nx pr] ids]. split; [done..|]. apply (ps_nodup _ P). }
  destruct (load_markers_spec now b0 Hn0 Bl) as (M1 & F1 & P1 & L1 & A1). set (b1 := load_txn_markers now b0) in *.
  destruct (load_prepared_spec now b1 P1) as (P2 & O2 & A2 & F2 & L2 & C2).
  { rewrite F1. apply (ps_nodup _ P). }
  set (b2 := load_prepared_txns now b1) in *.
  assert (Q3 : quiet b2 (load_cluster_prepared_index b2)).
  { unfold load_cluster_prepared_index. by destruct (tf_cluster_prepared _). }
  assert (M2 : markers_synced b2).
  { intros t p o. unfold aborted_at, open_at. rewrite A2, O2, F2. apply M1. }
  assert (L12 : layout b2 = layout b0) by congruence.
  assert (S0 : starts_le b b2) by (etrans; [exact Hst|by apply (starts_le_layout b0)]).
  assert (G : good_step None b b2).
  { split; [|exact S0|by split|intros _; unfold named; by rewrite L12].
    intros pid t p o _ W.
    assert (Hx : aborted_at (b_txns b) t p o ∨ (∃ pid, open_at (b_txns b) pid t p o) ∨ prepared_at (b_txns b) pid t p o)
      by (destruct W as [?|[?|?]]; eauto).
    destruct Hx as [Hx|[Hx|(tid & prp & Hl & <- & Hc)]].
    1, 2: destruct (M t p o) as (f & Hf & Ha); [tauto|];
      destruct (A1 f t p o Hf Ha) as [?|(s0 & Hs0 & ?)];
      [left; left; unfold aborted_at; by rewrite A2|right; exists s0; unfold start_at in *; by rewrite L12].
    left. right. right. destruct (ps_stored _ P tid prp Hl) as (fs & Hf & Hin).
    apply (C2 fs); [|done..]. by rewrite F1. }
  eapply good_step_trans; [exact G|]. apply safe_good.
  etrans; [by apply quiet_safe|]. etrans; [apply expire_safe|]. by apply quiet_safe.
Qed.

End trace.

(** ** Runs *)

Section runs.
Context {L : Type} `{LogStoreLaws L} (root : path).
Implicit Types (b : Broker L).

(** What an operation may do that matters to a producer: commit its
    transaction, or hand out its id. *)
Inductive effect :=
  | Nothing
  | Commits (pid : Z)
  | Allots (r : InitProducerIdResult).

Definition commits (c : effect) : option Z := match c with Commits pid => Some pid | _ => None end.

(** One operation of the broker.  The write-through produce takes three steps;
    [ts_append] is any append to a partition. *)
Inductive txn_step : effect → Broker L → Broker L → Prop :=
  | ts_init (i : IterOrder) tid e2 keep tmo now b r b' :
      init_producer_id_with_opts tid e2 keep tmo now b = (r, b') → txn_step (Allots r) b b'
  | ts_begin (i : IterOrder) pid e now b : txn_step Nothing b (begin_txn pid e now b).2
  | ts_ensure (i : IterOrder) pid e now b : txn_step Nothing b (ensure_txn_open pid e now b).2
  | ts_add (i : IterOrder) pid ks b : txn_step Nothing b (record_txn_added_partitions pid ks b).2
  | ts_offsets (i : IterOrder) pid e os now b : txn_step Nothing b (buffer_txn_offsets pid e os now b).2
  | ts_check (i : IterOrder) pid e t p seq n now b :
      txn_step Nothing b (txn_produce_check pid e t p seq n now b).2
  | ts_append t p ms acks now b : txn_step Nothing b (produce_with_acks t p ms acks now b).2
  | ts_flush t p now b : txn_step Nothing b (flush t p now b).2
  | ts_record (i : IterOrder) pid t p seq n base b : is_u32 p →
      txn_step Nothing b (txn_produce_record pid t p seq n base b).2
  | ts_idempotent (i : IterOrder) pid e t p seq n base b : is_u32 p →
      txn_step Nothing b (record_idempotent_produce pid e t p seq n base b)
  | ts_end (i : IterOrder) pid e (c : bool) os now b :
      txn_step (if c then Commits pid else Nothing) b (end_txn root pid e c os now b).2
  | ts_markers (i : IterOrder) pid e c ts now b : txn_step Nothing b (write_txn_markers pid e c ts now b).2
  | ts_expire (i : IterOrder) now b : txn_step Nothing b (expire_timed_out_txns now b)
  | ts_fetch (i : IterOrder) t p from mm cap iso now b :
      txn_step Nothing b (fetch_up_to t p from mm cap iso now b).2
  | ts_delete (i : IterOrder) t p before now b : readable b t p → clock_ok now →
      txn_step Nothing b (delete_records t p before now b).2
  | ts_alter k b : txn_step Nothing b (map_txns (set_knobs k) b)
  | ts_restart (i : IterOrder) env topics now b : reopened b topics →
      txn_step Nothing b (restart env topics now b).

Lemma txn_step_good c b b' : txn_step c b b' → synced b → good_step (commits c) b b'.
Proof.
  intros Hs Hy. destruct Hs as [? ? ? ? ? ? ? ? ? E| | | | | | | | | | | | | | | | ].
  - pose proof (init_safe tid e2 keep tmo now b) as S. rewrite E in S. by apply safe_good.
  - apply safe_good, begin_safe.
  - apply safe_good, ensure_safe.
  - apply safe_good, added_safe.
  - apply safe_good, buffer_offsets_safe.
  - apply safe_good, produce_check_safe.
  - destruct (produce_with_acks t p ms acks now b) as [r b'] eqn:E.
    apply safe_good, quiet_safe, same_tables_quiet. by eapply produce_with_acks_tables.
  - destruct (flush t p now b) as [r b'] eqn:E.
    apply safe_good, quiet_safe, same_tables_quiet. by eapply flush_tables.
  - apply safe_good, produce_record_safe.
  - apply safe_good, quiet_safe, record_idempotent_quiet.
  - pose proof (end_txn_safe root pid e c os now b) as S. by destruct c; apply safe_good.
  - apply safe_good, write_markers_safe.
  - apply safe_good, expire_safe.
  - apply safe_good, fetch_safe.
  - by apply delete_good.
  - by apply safe_good, quiet_safe.
  - by apply restart_good.
Qed.

(** A run without a commit of the producer. *)
Inductive run (pid : Z) : Broker L → Broker L → Prop :=
  | run_nil b : run pid b b
  | run_step c b1 b2 b3 : commits c ≠ Some pid → txn_step c b1 b2 → run pid b2 b3 → run pid b1 b3.

Lemma run_withheld pid b b' t p o :
  run pid b b' → synced b →
  (withheld (b_txns b) pid t p o ∨ below b t p o) →
  withheld (b_txns b') pid t p o ∨ below b' t p o.
Proof.
  induction 1 as [b|c b1 b2 b3 Hc Hs _ IH]; intros Hy Hw; [done|].
  pose proof (txn_step_good _ _ _ Hs Hy) as G. apply IH; [by apply (gs_synced _ _ _ G)|].
  destruct Hw as [Hw|Hb]; [by apply (gs_withheld _ _ _ G)|]. right. eapply below_mono; [|done].
  apply (gs_starts _ _ _ G).
Qed.

End runs.
