(* ===== verification/TxnProducers.v ===== *)
(** * Transactions: producers

    The tables of producers and transactional ids: what every operation keeps
    true of them, that their file loads back to exactly them, and what expiry
    leaves of the open and prepared transactions. *)

From Stdlib Require Import Strings.String Strings.Ascii.
From S2P Require Import Prelude Bytes Core Record SparseIndex Segment SegmentProps GroupCommit PartitionLog PartitionLogProps BrokerLog Messages OffsetStore OffsetStoreProps Group Broker KafkaRecords Txn TxnRecovery TxnProps TxnSafety TxnTrace.
#[local] Open Scope Z_scope.

(** ** A map written under other keys and read back *)

Section recode.
Context {K V W : Type} `{Countable K} (enc : K → string) (dec : string → option K) (g : V → W) (h : W → V).
Context (m : gmap K V).
Hypothesis (Hdec : ∀ k v, m !! k = Some v → dec (enc k) = Some k ∧ h (g v) = v).

Definition recoded : list (string * W) := map (λ '(k, v), (enc k, g v)) (map_to_list m).

Lemma recoded_nodup : NoDup recoded.*1.
Proof.
  unfold recoded. rewrite <- list_fmap_compose.
  apply (NoDup_fmap_2_strong (fst ∘ (λ '(k, v), (enc k, g v)))); [|apply NoDup_map_to_list].
  intros [k v] [k' v'] Hk Hk' E. cbn in E. apply elem_of_map_to_list in Hk, Hk'.
  destruct (Hdec _ _ Hk) as [D _], (Hdec _ _ Hk') as [D' _]. rewrite E, D' in D. injection D as <-.
  f_equal. congruence.
Qed.

(** Whatever the order of writing, the file has these entries. *)
Lemma recoded_file l : l ≡ₚ recoded → map_to_list (list_to_map l : gmap string W) ≡ₚ recoded.
Proof. intros E. rewrite map_to_list_to_map; [done|]. rewrite E. apply recoded_nodup. Qed.

(** Any order of reading is the writing of some order of the map. *)
Lemma recoded_perm l : l ≡ₚ recoded →
  ∃ l0, l0 ≡ₚ map_to_list m ∧ l = map (λ '(k, v), (enc k, g v)) l0.
Proof. intros E. destruct (Permutation_map_inv _ _ E) as (l0 & -> & P). by exists l0. Qed.

Lemma decode_fold l0 : (∀ k v, (k, v) ∈ l0 → m !! k = Some v) → ∀ acc : gmap K V,
  foldl (λ m '(s, w), match dec s with Some k => <[k := h w]> m | None => m end) acc
    (map (λ '(k, v), (enc k, g v)) l0) =
  foldl (λ m '(k, v), <[k := v]> m) acc l0.
Proof.
  induction l0 as [|[k v] l0 IH]; intros Hl acc; cbn [map foldl]; [done|].
  destruct (Hdec k v) as [-> ->]; [apply Hl; left|]. apply IH. intros k' v' Hin. apply Hl. by right.
Qed.
End recode.

(** ** The file of producers *)

Lemma rsplit_digits s : str_all is_digit s = true → rsplit_colon s = None.
Proof.
  induction s as [|c s IH]; [done|]. cbn. intros [Hc Hs]%andb_prop. rewrite IH by done.
  case_bool_decide; [by subst|done].
Qed.

Lemma rsplit_last t s : str_all is_digit s = true → rsplit_colon (t ++ String ":"%char s)%string = Some (t, s).
Proof.
  intros Hs. induction t as [|c t IH].
  - change (rsplit_colon (String ":"%char s) = Some (""%string, s)). cbn [rsplit_colon]. by rewrite rsplit_digits.
  - change (rsplit_colon (String c (t ++ String ":"%char s)%string) = Some (String c t, s)).
    cbn [rsplit_colon]. by rewrite IH.
Qed.

Lemma parse_partition_key_ok t p : is_u32 p → parse_partition_key (partition_key t p) = Some (t, p).
Proof.
  intros Hp. unfold parse_partition_key, partition_key.
  pose proof (u32_to_string_digits p) as Hd. pose proof (u32_to_string_parse p Hp) as Hq.
  revert Hd Hq. generalize (u32_to_string p). intros s Hd Hq.
  change (":" +:+ s)%string with (String ":"%char s). rewrite rsplit_last by done. cbn. by rewrite Hq.
Qed.

Record producer_ok (next pid : Z) (p : ProducerEpochState) : Prop := {
  pr_pid : 1 ≤ pid < next;
  pr_epoch : 0 ≤ pe_epoch p < 65536;
  pr_transactional : pe_transactional p = negb (String.eqb (pe_transactional_id p) "");
  pr_partitions : map_Forall (λ (k : tp) _, is_u32 k.2) (pe_partitions p);
}.

Lemma load_partitions_ok (i i' : IterOrder) next pid p : producer_ok next pid p →
  load_producer (H0 := i) (store_producer (H0 := i') p) = p.
Proof.
  intros [_ _ Ht Hp]. unfold load_producer, store_producer. cbn [spr_epoch spr_transactional_id
    spr_enable_2pc spr_transaction_timeout_ms spr_partitions]. rewrite <- Ht.
  destruct p as [e t tid e2 tmo parts]. cbn in *. f_equal. unfold load_partitions.
  set (g := λ st, mkStoredBatch (ib_base_sequence st) (ib_count st) (ib_base_offset st)).
  set (h := λ st, mkBatchState (sb_base_sequence st) (sb_count st) (sb_base_offset st)).
  set (enc := λ k : tp, partition_key k.1 k.2).
  assert (Hdec : ∀ k v, parts !! k = Some v → parse_partition_key (enc k) = Some k ∧ h (g v) = v).
  { intros [tn pn] v Hl. split; [apply parse_partition_key_ok; exact (Hp _ _ Hl)|by destruct v]. }
  set (file := list_to_map _).
  assert (Ef : @reorder i _ (map_to_list file) ≡ₚ recoded enc g parts).
  { rewrite reorder_perm. unfold file. eapply recoded_file; [exact Hdec|]. rewrite <- Permutation_rev.
    rewrite (map_ext _ (λ '(k, v), (enc k, g v))) by by intros [[tn pn] v].
    unfold recoded. by rewrite reorder_perm. }
  destruct (recoded_perm enc g parts _ Ef) as (l0 & P & ->).
  rewrite (decode_fold enc parse_partition_key g h parts Hdec); [by apply foldl_insert_map|].
  intros k v. by rewrite P, elem_of_map_to_list.
Qed.

Record producers_wf (next : Z) (ps : gmap Z ProducerEpochState) (ids : gmap string Z) : Prop := {
  pw_next : 1 ≤ next ≤ u64_max;
  pw_known : map_Forall (producer_ok next) ps;
  pw_ids : ∀ tid pid, ids !! tid = Some pid ↔
    tid ≠ ""%string ∧ ∃ p, ps !! pid = Some p ∧ pe_transactional_id p = tid;
}.

Definition enter_id (ids : gmap string Z) (x : Z * ProducerEpochState) : gmap string Z :=
  if negb (String.eqb (pe_transactional_id x.2) "") then <[pe_transactional_id x.2 := x.1]> ids else ids.

Lemma enter_ids next ps ids l :
  producers_wf next ps ids → l ≡ₚ map_to_list ps → foldl enter_id ∅ l = ids.
Proof.
  intros Hw E. set (l' := filter (λ x, pe_transactional_id x.2 ≠ ""%string) l).
  assert (Hf : ∀ l acc, foldl enter_id acc l =
    foldl (λ m x, <[pe_transactional_id x.2 := x.1]> m) acc
      (filter (λ x : Z * ProducerEpochState, pe_transactional_id x.2 ≠ ""%string) l)).
  { clear. induction l as [|x l IH]; intros acc; cbn [foldl]; [done|]. rewrite filter_cons, IH.
    unfold enter_id. destruct (String.eqb_spec (pe_transactional_id x.2) ""), (decide _); done. }
  assert (Hl : ∀ pid p, (pid, p) ∈ l' ↔ pe_transactional_id p ≠ ""%string ∧ ps !! pid = Some p).
  { intros pid p. unfold l'. by rewrite list_elem_of_filter, E, elem_of_map_to_list. }
  assert (Hnd : NoDup ((λ x, pe_transactional_id x.2) <$> l')).
  { apply (NoDup_fmap_2_strong (λ x : Z * ProducerEpochState, pe_transactional_id x.2)).
    - intros [pid p] [pid' p'] Hx Hy Heq. cbn in Heq. apply Hl in Hx as [Hn Hx], Hy as [_ Hy].
      assert (ids !! pe_transactional_id p = Some pid) by (apply (pw_ids _ _ _ Hw); eauto).
      assert (ids !! pe_transactional_id p = Some pid') by (apply (pw_ids _ _ _ Hw); eauto).
      f_equal; congruence.
    - apply NoDup_filter. rewrite E. apply NoDup_map_to_list. }
  rewrite Hf. apply map_eq. intros tid. apply option_eq. intros pid.
  pose proof (foldl_insert_lookup _ fst l' ∅ Hnd tid pid) as Hk. cbn in Hk.
  rewrite (pw_ids _ _ _ Hw). etrans; [exact Hk|]. rewrite lookup_empty. split.
  - intros [([pid' p] & Hx & Ht & Hp)|[_ ?]]; [|done]. cbn in *. subst. apply Hl in Hx as [? ?]. eauto.
  - intros (Hn & p & Hp & Ht). left. exists (pid, p). subst. rewrite Hl. eauto.
Qed.

Lemma load_fold (i i' : IterOrder) (ps : gmap Z ProducerEpochState) l0 :
  (∀ pid p, ps !! pid = Some p → parse_u64 (u64_to_string pid) = Some pid ∧
    load_producer (H0 := i) (store_producer (H0 := i') p) = p) →
  (∀ x, x ∈ l0 → ps !! x.1 = Some x.2) →
  ∀ (m : gmap Z ProducerEpochState) (ids : gmap string Z),
  foldl (λ '(m, ids) '(pid_s, prod),
      match parse_u64 pid_s with
      | None => (m, ids)
      | Some pid =>
        (<[pid := load_producer (H0 := i) prod]> m,
         if negb (String.eqb (spr_transactional_id prod) "")
         then <[spr_transactional_id prod := pid]> ids else ids)
      end) (m, ids) (map (λ '(k, v), (u64_to_string k, store_producer (H0 := i') v)) l0) =
  (foldl (λ m '(k, v), <[k := v]> m) m l0, foldl enter_id ids l0).
Proof.
  intros Hdec. induction l0 as [|[pid p] l0 IH]; intros Hin m ids; cbn [map foldl]; [done|].
  destruct (Hdec pid p) as [-> ->]; [apply (Hin (pid, p)); left|].
  rewrite IH by (intros x Hx; apply Hin; by right). done.
Qed.

Lemma load_producers_ok {L} (i i' : IterOrder) (b : Broker L) :
  let T := b_txns b in
  producers_wf (next_producer_id T) (producer_state T) (transactional_ids T) →
  load_producer_maps (H0 := i) (tf_producers (b_files (persist_producer_state (H0 := i') b))) =
  (next_producer_id T, producer_state T, transactional_ids T).
Proof.
  cbn zeta. set (ps := producer_state (b_txns b)). intros Hw. 
  unfold load_producer_maps, persist_producer_state, map_files.
  cbn [set_files b_files set_producers_file tf_producers from_option id pf_next_id pf_producers].
  destruct (pw_next _ _ _ Hw) as [Hn1 Hn2]. rewrite (proj2 (Z.eqb_neq (next_producer_id (b_txns b)) 0)) by lia.
  set (file := list_to_map _).
  assert (Hdec : ∀ pid p, ps !! pid = Some p → parse_u64 (u64_to_string pid) = Some pid ∧
    load_producer (H0 := i) (store_producer (H0 := i') p) = p).
  { intros pid p Hp. pose proof (pw_known _ _ _ Hw pid p Hp) as Hk. split; [|by eapply load_partitions_ok].
    apply u64_to_string_parse. destruct (pr_pid _ _ _ Hk). lia. }
  assert (Ef : @reorder i _ (map_to_list file) ≡ₚ recoded u64_to_string (store_producer (H0 := i')) ps).
  { rewrite reorder_perm. unfold file. eapply recoded_file; [exact Hdec|]. rewrite <- Permutation_rev.
    unfold recoded. by rewrite reorder_perm. }
  destruct (recoded_perm _ _ _ _ Ef) as (l0 & P & ->).
  rewrite (load_fold i _ ps l0 Hdec) by (intros [pid p]; by rewrite P, elem_of_map_to_list).
  rewrite (foldl_insert_map l0 ps) by done. by rewrite (enter_ids _ _ _ l0 Hw).
Qed.

Section producers.
Context {L : Type} `{LogStoreLaws L} `{IterOrder}.
Implicit Types (b : Broker L).

(** ** Producers and settings are as before *)

Definition same_producers b b' : Prop :=
  producer_state (b_txns b') = producer_state (b_txns b) ∧
  transactional_ids (b_txns b') = transactional_ids (b_txns b) ∧
  next_producer_id (b_txns b') = next_producer_id (b_txns b) ∧
  open_txn_timeout_ms (b_txns b') = open_txn_timeout_ms (b_txns b) ∧
  prepared_txn_timeout_ms (b_txns b') = prepared_txn_timeout_ms (b_txns b) ∧
  transaction_max_timeout_ms (b_txns b') = transaction_max_timeout_ms (b_txns b).

#[global] Instance same_producers_preorder : PreOrder same_producers.
Proof. split; [done|]. intros x y z Hx Hy. unfold same_producers in *. intuition congruence. Qed.

(** The same, and so are the transactions and the files of both. *)
Record frame b b' : Prop := {
  fr_producers : same_producers b b';
  fr_open : open_txns (b_txns b') = open_txns (b_txns b);
  fr_prepared : prepared_txns (b_txns b') = prepared_txns (b_txns b);
  fr_prepared_file : tf_prepared (b_files b') = tf_prepared (b_files b);
  fr_producers_file : tf_producers (b_files b') = tf_producers (b_files b);
  fr_groups : b_groups b' = b_groups b;
}.

#[global] Instance frame_preorder : PreOrder frame.
Proof.
  split; [done|]. intros x y z [] []. split; [by transitivity y|congruence..].
Qed.

Lemma same_tables_frame b b' : same_tables b b' → frame b b'.
Proof. intros (E & F & G & _). split; [unfold same_producers|..]; by rewrite ?E, ?F. Qed.

Lemma fold_frame {A} (f : Broker L → A → Broker L) (l : list A) :
  (∀ b x, frame b (f b x)) → ∀ b, frame b (foldl f b l).
Proof. intros Hf. induction l as [|x l IH]; intros b; [done|]. cbn. transitivity (f b x); [apply Hf|apply IH]. Qed.

Lemma push_frame t p m b : frame b (push_aborted_marker t p m b).
Proof. done. Qed.

Lemma record_aborted_frame pid txn b : frame b (record_aborted_from_txn pid txn b).
Proof.
  unfold record_aborted_from_txn. set (b1 := foldl _ b _). transitivity b1; [|done].
  apply fold_frame. by intros b2 [[t p] [f e]].
Qed.

Lemma control_frame pid e m txn now b : frame b (append_txn_control_markers pid e m txn now b).
Proof. apply same_tables_frame, control_markers_tables. Qed.

Lemma abort_one_frame m pid e txn now b :
  frame b (append_txn_control_markers pid e m txn now (record_aborted_from_txn pid txn b)).
Proof. etrans; [apply record_aborted_frame|apply control_frame]. Qed.

(** Expiry of open transactions removes them, and no more. *)
Lemma expire_open_frame now b : ∃ es,
  frame (map_txns (set_open_txns (foldl (λ m '(pid, _), delete pid m) (open_txns (b_txns b)) es)) b)
    (expire_timed_out_open_txns now b).2 ∧
  (∀ pid txn, (pid, txn) ∈ es → open_txns (b_txns b) !! pid = Some txn).
Proof.
  unfold expire_timed_out_open_txns. set (ex := filter _ _). exists ex. set (es := map _ _). set (b1 := map_txns _ b).
  assert (S : frame b1 (foldl (abort_expired_open now) b1 es)).
  { apply fold_frame. intros b2 [[pid e] txn]. unfold abort_expired_open. etrans; [apply abort_one_frame|]. done. }
  cbn [snd]. split; [by transitivity (foldl (abort_expired_open now) b1 es); [|destruct (0 <? zlen es)]|].
  intros pid txn [_ Hin]%list_elem_of_filter. by rewrite elem_of_reorder, elem_of_map_to_list in Hin.
Qed.

(** So does expiry of prepared ones, whose file follows when there were any. *)
Lemma expire_prepared_frame now b : ∃ (ps : list (string * PreparedTxn)),
  let b1 := map_txns (set_prepared_txns (foldl (λ m '(k, _), delete k m) (prepared_txns (b_txns b)) ps)) b in
  frame (if bool_decide (ps = []) then b else persist_prepared_txns b1) (expire_timed_out_prepared_txns now b).2.
Proof.
  unfold expire_timed_out_prepared_txns. case_if; [by exists []|]. set (ps := filter _ _). exists ps.
  set (b1 := map_txns _ b). cbn zeta.
  assert (S : frame b1 (foldl (abort_expired_prepared now) b1 (map snd ps))).
  { apply fold_frame. intros b2 prp. unfold abort_expired_prepared. etrans; [apply abort_one_frame|]. done. }
  cbn [snd]. case_bool_decide as E.
  - clearbody ps. by subst.
  - assert (Hn : (0 <? zlen ps) = true) by (destruct ps; [done|apply Z.ltb_lt; unfold zlen; cbn; lia]).
    rewrite Hn. destruct S as [[] HO HP HF HG HR]. split; [done|done|done| |done..].
    cbn. by rewrite HP.
Qed.

Lemma expire_open_producers now b : same_producers b (expire_timed_out_open_txns now b).2.
Proof. destruct (expire_open_frame now b) as (es & [] & _). done. Qed.

Lemma expire_producers now b : same_producers b (expire_timed_out_txns now b).
Proof.
  unfold expire_timed_out_txns. etrans; [apply expire_open_producers|].
  destruct (expire_prepared_frame now (expire_timed_out_open_txns now b).2) as (ps & []).
  by destruct (bool_decide (ps = [])).
Qed.

Lemma expire_groups now b : b_groups (expire_timed_out_txns now b) = b_groups b.
Proof.
  unfold expire_timed_out_txns. destruct (expire_open_frame now b) as (es & F & _).
  destruct (expire_prepared_frame now (expire_timed_out_open_txns now b).2) as (ps & F').
  rewrite (fr_groups _ _ F'). transitivity (b_groups (expire_timed_out_open_txns now b).2).
  { by destruct (bool_decide (ps = [])). }
  by rewrite (fr_groups _ _ F).
Qed.

(** ** What is left after expiry *)

Lemma open_expired_same now b b' e :
  same_producers b b' → open_expired now b' e = open_expired now b e.
Proof.
  intros (HP & _ & _ & HO & _ & HM). unfold open_expired, open_timeout, effective_open_txn_timeout_ms, clamp_txn_timeout_ms.
  by rewrite HP, HO, HM.
Qed.

Lemma effective_prepared_same b b' :
  same_producers b b' → effective_prepared_txn_timeout_ms b' = effective_prepared_txn_timeout_ms b.
Proof.
  intros (_ & _ & _ & _ & HP & HM). unfold effective_prepared_txn_timeout_ms, clamp_txn_timeout_ms.
  by rewrite HP, HM.
Qed.

Lemma expire_open_left now b pid txn :
  open_txns (b_txns (expire_timed_out_txns now b)) !! pid = Some txn ↔
  open_txns (b_txns b) !! pid = Some txn ∧ open_expired now b (pid, txn) = false.
Proof.
  unfold expire_timed_out_txns. pose proof (expire_open_spec now b) as H1'.
  destruct (expire_timed_out_open_txns now b) as [n1 b1]. destruct H1' as (ex & _ & _ & _ & _ & _ & Hex & Ho).
  cbn [snd]. pose proof (expire_prepared_spec now b1) as H2'.
  destruct (expire_timed_out_prepared_txns now b1) as [n2 b2]. destruct H2' as (_ & _ & _ & _ & _ & _ & HO).
  cbn [snd]. rewrite HO, Ho. case_bool_decide as Hin.
  - apply list_elem_of_fmap in Hin as ([pid' txn'] & -> & Hin). cbn. apply Hex in Hin as [Hl He].
    split; [done|]. intros [Hl' He']. cbn in *. congruence.
  - split; [|by intros []]. intros Hl. split; [done|]. apply not_true_iff_false. intros He.
    apply Hin. apply list_elem_of_fmap. exists (pid, txn). split; [done|]. by apply Hex.
Qed.

Lemma expire_prepared_left now b tid prp :
  prepared_txns (b_txns (expire_timed_out_txns now b)) !! tid = Some prp ↔
  prepared_txns (b_txns b) !! tid = Some prp ∧
  (effective_prepared_txn_timeout_ms b = 0 ∨
   prepared_expired (effective_prepared_txn_timeout_ms b) now prp = false).
Proof.
  unfold expire_timed_out_txns. pose proof (expire_open_spec now b) as H1'.
  pose proof (expire_open_producers now b) as S1.
  destruct (expire_timed_out_open_txns now b) as [n1 b1]. destruct H1' as (ex & A & _). cbn [snd] in *.
  assert (HP : prepared_txns (b_txns b1) !! tid = Some prp ↔ prepared_txns (b_txns b) !! tid = Some prp).
  { split; [apply (ab_prep_sub _ _ _ _ A)|]. intros Hl. destruct (ab_prep _ _ _ _ A _ _ Hl) as [Hx|]; [|done].
    by apply not_elem_of_nil in Hx. }
  rewrite <- (effective_prepared_same b b1 S1), <- HP. unfold expire_timed_out_prepared_txns.
  destruct (Z.eqb_spec (effective_prepared_txn_timeout_ms b1) 0) as [E|E]; [tauto|].
  set (ps := filter _ _). set (b2 := map_txns _ b1).
  destruct (abort_prepared_fold now (map snd ps) b2) as (G & _).
  assert (Hl : prepared_txns (b_txns (foldl (abort_expired_prepared now) b2 (map snd ps))) !! tid =
    if bool_decide (tid ∈ ps.*1) then None else prepared_txns (b_txns b1) !! tid).
  { rewrite (gr_prepared _ _ G). apply foldl_delete_lookup. }
  cbn [snd]. transitivity (prepared_txns (b_txns (foldl (abort_expired_prepared now) b2 (map snd ps))) !! tid = Some prp).
  { by destruct (0 <? zlen ps). }
  assert (Hps : ∀ k q, (k, q) ∈ ps ↔ prepared_txns (b_txns b1) !! k = Some q ∧
    prepared_expired (effective_prepared_txn_timeout_ms b1) now q = true).
  { intros k q. unfold ps. rewrite list_elem_of_filter, elem_of_reorder, elem_of_map_to_list. tauto. }
  rewrite Hl. case_bool_decide as Hin.
  - apply list_elem_of_fmap in Hin as ([k q] & -> & Hin). cbn. apply Hps in Hin as [Hl' He].
    split; [done|]. intros [Hl'' [?|He']]; [done|]. cbn in *. congruence.
  - split; [|by intros []]. intros Hl'. split; [done|]. right. apply not_true_iff_false. intros He.
    apply Hin. apply list_elem_of_fmap. exists (tid, prp). split; [done|]. by apply Hps.
Qed.

(** ** The invariant *)

Definition u32_ranges (ws : list TxnWrittenRange) : Prop := Forall (λ w, is_u32 (wr_partition w)) ws.

(** A prepared transaction belongs to the producer that has its id, at its
    present epoch. *)
Definition prepared_ok (ps : gmap Z ProducerEpochState) (tid : string) (prp : PreparedTxn) : Prop :=
  pt_transactional_id prp = tid ∧ tid ≠ ""%string ∧ u32_ranges (ot_written (pt_open prp)) ∧
  ∃ p, ps !! pt_producer_id prp = Some p ∧ pe_transactional_id p = tid ∧ pe_epoch p = pt_producer_epoch prp.

Record tables_ok b : Prop := {
  to_wf : producers_wf (next_producer_id (b_txns b)) (producer_state (b_txns b)) (transactional_ids (b_txns b));
  to_prepared : map_Forall (prepared_ok (producer_state (b_txns b))) (prepared_txns (b_txns b));
  to_open : map_Forall (λ _ txn, u32_ranges (ot_written txn)) (open_txns (b_txns b));
}.

(** The file of producers loads back to the tables. *)
Definition saved b : Prop := ∀ i : IterOrder,
  load_producer_maps (H0 := i) (tf_producers (b_files b)) =
  (next_producer_id (b_txns b), producer_state (b_txns b), transactional_ids (b_txns b)).

(** All that decides the outcome of a prepared transaction. *)
Definition same_txn (prp prp' : PreparedTxn) : Prop :=
  pt_transactional_id prp = pt_transactional_id prp' ∧ pt_producer_id prp = pt_producer_id prp' ∧
  pt_producer_epoch prp = pt_producer_epoch prp' ∧ pt_commit prp = pt_commit prp' ∧
  ot_added (pt_open prp) = ot_added (pt_open prp') ∧ ot_written (pt_open prp) = ot_written (pt_open prp') ∧
  ot_pending (pt_open prp) = ot_pending (pt_open prp') ∧
  ot_deferred_offsets (pt_open prp) = ot_deferred_offsets (pt_open prp').

(** The file of prepared transactions has exactly the prepared ones. *)
Record stored b : Prop := {
  sd_nodup : ∀ fs, tf_prepared (b_files b) = Some fs → NoDup (st_transactional_id <$> fs);
  sd_only : ∀ fs s, tf_prepared (b_files b) = Some fs → s ∈ fs →
    ∃ prp, prepared_txns (b_txns b) !! st_transactional_id s = Some prp ∧ same_txn (restore_prepared 0 s) prp;
  sd_all : ∀ tid prp, prepared_txns (b_txns b) !! tid = Some prp →
    ∃ fs s, tf_prepared (b_files b) = Some fs ∧ s ∈ fs ∧ st_transactional_id s = tid ∧
      same_txn (restore_prepared 0 s) prp ∧
      (st_prepared_at_ms s = pt_prepared_at_ms prp ∨ st_prepared_at_ms s ≤ 0);
}.

Definition producers_inv b : Prop := tables_ok b ∧ saved b ∧ stored b.

Lemma tables_ok_frame b b' : frame b b' → tables_ok b → tables_ok b'.
Proof.
  intros [(E1 & E2 & E3 & _) HO HP _ _ _] []. split; rewrite ?HP, ?HO, ?E1, ?E2, ?E3; done.
Qed.

Lemma saved_frame b b' : frame b b' → saved b → saved b'.
Proof. intros [(E1 & E2 & E3 & _) _ _ _ HF _] S i. by rewrite HF, E1, E2, E3. Qed.

Lemma stored_same b b' :
  prepared_txns (b_txns b') = prepared_txns (b_txns b) → tf_prepared (b_files b') = tf_prepared (b_files b) →
  stored b → stored b'.
Proof. intros HP HF []. split; by rewrite HF, ?HP. Qed.

Lemma stored_frame b b' : frame b b' → stored b → stored b'.
Proof. intros [_ _ HP HF _ _]. by apply stored_same. Qed.

Lemma inv_frame b b' : frame b b' → producers_inv b → producers_inv b'.
Proof.
  intros F (T & S & P). split; [by eapply tables_ok_frame|]. split; [by eapply saved_frame|by eapply stored_frame].
Qed.

Lemma tables_ok_open o b :
  map_Forall (λ _ txn, u32_ranges (ot_written txn)) o → tables_ok b → tables_ok (map_txns (set_open_txns o) b).
Proof. by intros Ho []. Qed.

Lemma inv_open o b :
  map_Forall (λ _ txn, u32_ranges (ot_written txn)) o → producers_inv b →
  producers_inv (map_txns (set_open_txns o) b).
Proof. intros Ho (T & S & P). split; [by apply tables_ok_open|]. split; [done|]. by apply (stored_same b). Qed.

Lemma tables_ok_prepared m b :
  map_Forall (prepared_ok (producer_state (b_txns b))) m → tables_ok b →
  tables_ok (map_txns (set_prepared_txns m) b).
Proof. by intros Hm []. Qed.

Lemma restore_store prp : same_txn (restore_prepared 0 (store_prepared prp)) prp.
Proof.
  split_and!; try done; cbn.
  - rewrite map_map. cbn. rewrite <- (map_id (ot_written (pt_open prp))) at 2. apply map_ext. by intros [].
  - transitivity (foldl (λ (m : gmap tp IdempotentBatchState) '(k, v), <[k := v]> m) ∅
      (reorder (map_to_list (ot_pending (pt_open prp))))); [|apply foldl_insert_map, reorder_perm].
    generalize (reorder (map_to_list (ot_pending (pt_open prp)))) (∅ : gmap tp IdempotentBatchState).
    induction l as [|[[t p] [s n o]] l IH]; intros m; [done|]. apply IH.
Qed.

Lemma persist_prepared_stored b : tables_ok b → stored (persist_prepared_txns b).
Proof.
  intros T. assert (Hk : map_Forall (λ tid prep, pt_transactional_id prep = tid) (prepared_txns (b_txns b))).
  { intros tid prp Hl. apply (to_prepared _ T tid prp Hl). }
  pose proof (persist_prepared_synced b Hk) as S. split; [apply (ps_nodup _ S)|..]; cbn.
  - intros fs s [= <-] ([tid prp] & -> & Hin)%list_elem_of_fmap.
    rewrite elem_of_reorder, elem_of_map_to_list in Hin. cbn. rewrite (Hk _ _ Hin). exists prp.
    split; [done|apply restore_store].
  - intros tid prp Hl. eexists _, (store_prepared prp). split; [done|]. split_and!.
    + apply list_elem_of_fmap. exists (tid, prp). split; [done|]. by rewrite elem_of_reorder, elem_of_map_to_list.
    + exact (Hk _ _ Hl).
    + apply restore_store.
    + by left.
Qed.

Lemma persist_prepared_inv b : tables_ok b → saved b → producers_inv (persist_prepared_txns b).
Proof. intros T S. split; [by destruct T|]. split; [done|by apply persist_prepared_stored]. Qed.

Lemma persist_producers_inv b : tables_ok b → stored b → producers_inv (persist_producer_state b).
Proof.
  intros T P. split; [by destruct T|]. split; [|by apply (stored_same b)]. intros i. exact (load_producers_ok i _ b (to_wf _ T)).
Qed.

Lemma forall_delete_fold {K V W} `{Countable K} (P : K → V → Prop) (l : list (K * W)) : ∀ m : gmap K V,
  map_Forall P m → map_Forall P (foldl (λ m '(k, _), delete k m) m l).
Proof.
  intros m Hm k v. rewrite foldl_delete_lookup. case_bool_decide; [done|]. apply Hm.
Qed.

Lemma expire_inv now b : producers_inv b → producers_inv (expire_timed_out_txns now b).
Proof.
  intros I. unfold expire_timed_out_txns. destruct (expire_open_frame now b) as (es & F & _).
  assert (I1 : producers_inv (expire_timed_out_open_txns now b).2).
  { eapply inv_frame; [done|]. apply inv_open; [|done]. apply forall_delete_fold, (to_open _ (proj1 I)). }
  clear F I. set (b1 := (expire_timed_out_open_txns now b).2) in *.
  destruct (expire_prepared_frame now b1) as (ps & F). eapply inv_frame; [exact F|].
  case_bool_decide; [done|]. destruct I1 as (T & S & _). apply persist_prepared_inv; [|done].
  apply tables_ok_prepared; [|done]. apply forall_delete_fold, (to_prepared _ T).
Qed.

End producers.
