(* ===== verification/LeaderEpochProps.v ===== *)
(** * Leader epochs: the theorems

    The history of a partition is sorted and has the current epoch; a new
    epoch begins where the log ends, and from then on the epoch before it ends
    there, whatever comes later and across a restart. *)

From Stdlib Require Import Strings.String.
From S2P Require Import Prelude Bytes Core Record SparseIndex Segment SegmentProps GroupCommit PartitionLog BrokerLog Messages OffsetStore OffsetStoreProps Group Cluster Broker KafkaRecords Txn LeaderEpoch TxnRecovery TxnProducers.
#[local] Open Scope Z_scope.

(** ** Histories *)

Definition es_lt (a b : EpochStart) : Prop := es_epoch a < es_epoch b.

Lemma has_epoch_spec epoch es : has_epoch epoch es = true ↔ ∃ e, e ∈ es ∧ es_epoch e = epoch.
Proof.
  unfold has_epoch. rewrite existsb_exists. setoid_rewrite Z.eqb_eq. by setoid_rewrite <- list_elem_of_In.
Qed.

Lemma has_epoch_le epoch es : Forall (λ e, es_epoch e < epoch) es → has_epoch epoch es = false.
Proof.
  intros HF. apply not_true_iff_false. intros (e & He & Ee)%has_epoch_spec. rewrite Forall_forall in HF.
  specialize (HF e He). cbn in HF. lia.
Qed.

Lemma es_lt_le es : StronglySorted es_lt es → StronglySorted es_le es.
Proof.
  induction 1 as [|e es _ IH HF]; constructor; [done|]. eapply Forall_impl; [exact HF|]. unfold es_lt, es_le. intros. lia.
Qed.

Lemma es_lt_inj es a b : StronglySorted es_lt es → a ∈ es → b ∈ es → es_epoch a = es_epoch b → a = b.
Proof.
  induction 1 as [|e es _ IH HF]; intros Ha Hb E; [by apply not_elem_of_nil in Ha|]. rewrite Forall_forall in HF.
  apply elem_of_cons in Ha as [->|Ha]; apply elem_of_cons in Hb as [->|Hb]; [done|..|by apply IH].
  - specialize (HF _ Hb). unfold es_lt in HF. lia.
  - specialize (HF _ Ha). unfold es_lt in HF. lia.
Qed.

(** A sorted history is not changed by sorting it. *)
Lemma merge_sort_history es : StronglySorted es_lt es → merge_sort es_le es = es.
Proof.
  intros Hs. apply (StronglySorted_unique_strong es_le).
  - intros a b Ha Hb H1 H2. rewrite merge_sort_Permutation in Ha. eapply es_lt_inj; [done..|]. unfold es_le in *. lia.
  - apply StronglySorted_merge_sort; [intros a b c; unfold es_le; lia|intros a b; unfold es_le; lia].
  - by apply es_lt_le.
  - apply merge_sort_Permutation.
Qed.

Lemma history_snoc es e : StronglySorted es_lt es → Forall (λ x, es_epoch x < es_epoch e) es → StronglySorted es_lt (es ++ [e]).
Proof.
  intros Hs HF. apply StronglySorted_app_2; [|done|by repeat constructor].
  intros a b Ha ->%list_elem_of_singleton. rewrite Forall_forall in HF. by apply HF.
Qed.

(** A new epoch goes last. *)
Lemma ensure_new es epoch start :
  StronglySorted es_lt es → Forall (λ x, es_epoch x < epoch) es →
  ensure_entry es epoch start = es ++ [mkEpochStart epoch start].
Proof.
  intros Hs HF. unfold ensure_entry. rewrite has_epoch_le by done. by apply merge_sort_history, history_snoc.
Qed.

(** *** The answer *)

Lemma rposition_app {A} (f : A → bool) l x :
  f x = false → rposition f (l ++ [x]) = rposition f l.
Proof. intros Hx. induction l as [|y l IH]; cbn; [by rewrite Hx|]. by rewrite IH. Qed.

Lemma rposition_lt {A} (f : A → bool) (l : list A) i : rposition f l = Some i → (i < length l)%nat.
Proof.
  revert i. induction l as [|x l IH]; intros i; cbn; [done|]. destruct (rposition f l) as [j|].
  - intros [= <-]. specialize (IH j eq_refl). lia.
  - destruct (f x); intros [= <-]; lia.
Qed.

Lemma rposition_at {A} (f : A → bool) (l : list A) i x : rposition f l = Some i → l !! i = Some x → f x = true.
Proof.
  revert i. induction l as [|y l IH]; intros i; cbn; [done|]. destruct (rposition f l) as [j|].
  - intros [= <-]. cbn. by apply IH.
  - destruct (f y) eqn:E; [|done]. intros [= <-]. by intros [= <-].
Qed.

Lemma rposition_last {A} (f : A → bool) l x : f x = true → rposition f (l ++ [x]) = Some (length l).
Proof. intros Hx. induction l as [|y l IH]; cbn; [by rewrite Hx|]. by rewrite IH. Qed.

Lemma rposition_some {A} (f : A → bool) (l : list A) x : x ∈ l → f x = true → ∃ i, rposition f l = Some i.
Proof.
  intros Hx Hf. induction l as [|y l IH]; [by apply not_elem_of_nil in Hx|]. cbn.
  destruct (rposition f l) as [j|]; [by eexists|]. apply elem_of_cons in Hx as [->|Hx]; [rewrite Hf; by eexists|].
  destruct (IH Hx) as [? [=]].
Qed.

(** The current epoch is the last of the history. *)
Lemma history_last es old :
  StronglySorted es_lt es → Forall (λ e, 0 ≤ es_epoch e ≤ old) es → has_epoch old es = true →
  ∃ es0 start, es = es0 ++ [mkEpochStart old start].
Proof.
  intros Hs HF (e & He & Ee)%has_epoch_spec. destruct es as [|x es0 _] using rev_ind; [by apply not_elem_of_nil in He|].
  exists es0, (es_start_offset x). destruct x as [epoch start]. cbn. apply Forall_app in HF as [_ HF].
  apply Forall_cons in HF as [Hx _]. cbn in Hx. apply elem_of_app in He as [He|Hx2].
  - pose proof (StronglySorted_app_1_elem_of _ _ _ _ _ Hs He (list_elem_of_here _ _)) as Hlt. unfold es_lt in Hlt. cbn in Hlt. lia.
  - apply list_elem_of_singleton in Hx2 as ->. cbn in Ee. by subst.
Qed.

(** Everything before the current epoch stays as it is when a later one
    begins. *)
Lemma answer_stable es old new start hwm hwm' r :
  StronglySorted es_lt es → Forall (λ e, 0 ≤ es_epoch e ≤ old) es → has_epoch 0 es = true → has_epoch old es = true →
  0 ≤ r < old → old < new → new < 2147483648 →
  end_offset_for (es ++ [mkEpochStart new start]) new hwm' r = end_offset_for es old hwm r.
Proof.
  intros Hs HF (e0 & He0 & E0)%has_epoch_spec Hcur Hr Hnew Hold. unfold end_offset_for.
  assert (Hu : as_u32 r = r) by (unfold as_u32; apply Z.mod_small; lia). rewrite !Hu.
  rewrite !(Zeqb_false r (-1)), !(Zltb_false r 0), (Zltb_false new r), (Zltb_false old r), (Zeqb_false r new), (Zeqb_false r old) by lia.
  rewrite rposition_app by (apply Zleb_false; cbn; lia).
  destruct (rposition_some (λ e, es_epoch e <=? r) es e0) as [i Hi]; [done|apply Zleb_true; lia|]. rewrite Hi.
  destruct (history_last es old Hs HF Hcur) as (es0 & s & ->).
  rewrite rposition_app in Hi by (apply Zleb_false; cbn; lia). pose proof (rposition_lt _ _ _ Hi) as Hlt.
  destruct (lookup_lt_is_Some_2 es0 i Hlt) as [found Hf]. pose proof (rposition_at _ _ _ _ Hi Hf) as Hle.
  cbn in Hle. apply Z.leb_le in Hle. assert (Hf' : (es0 ++ [mkEpochStart old s]) !! i = Some found) by (by apply lookup_app_l_Some).
  rewrite (lookup_app_l_Some _ _ _ _ Hf'), Hf', (Zeqb_false (es_epoch found) new), (Zeqb_false (es_epoch found) old) by lia.
  destruct (lookup_lt_is_Some_2 (es0 ++ [mkEpochStart old s]) (S i)) as [next Hn]; [rewrite length_app; cbn; lia|].
  by rewrite (lookup_app_l_Some _ _ _ _ Hn), Hn.
Qed.

(** The epoch before the current one ends where the current one began. *)
Lemma answer_previous es old new start hwm :
  StronglySorted es_lt es → Forall (λ e, 0 ≤ es_epoch e ≤ old) es → has_epoch old es = true →
  0 ≤ old < new → new < 2147483648 → 0 ≤ start ≤ i64_max →
  end_offset_for (es ++ [mkEpochStart new start]) new hwm old = Some (old, start).
Proof.
  intros Hs HF Hcur Hnew Hb Hstart. unfold end_offset_for.
  assert (Hu : as_u32 old = old) by (unfold as_u32; apply Z.mod_small; lia). rewrite Hu.
  rewrite (Zeqb_false old (-1)), (Zltb_false old 0), (Zltb_false new old), (Zeqb_false old new) by lia.
  destruct (history_last es old Hs HF Hcur) as (es0 & s & ->).
  rewrite rposition_app by (apply Zleb_false; cbn; lia). rewrite rposition_last by (apply Zleb_true; cbn; lia).
  rewrite <- app_assoc. cbn [app]. rewrite (list_lookup_middle es0 _ _ (length es0)) by done. cbn [es_epoch].
  rewrite (Zeqb_false old new) by lia.
  rewrite lookup_app_r by lia. replace (S (length es0) - length es0)%nat with 1%nat by lia. cbn.
  rewrite as_i32_small, as_i64_small by (unfold i64_min, i64_max in *; lia). done.
Qed.

(** ** The broker *)

Section broker.
Context {L : Type} `{LogStore L}.
Implicit Types (b : Broker L).

(** The history as the answers see it: epoch 0 begins at 0. *)
Definition history (t : string) (p : Z) b : list EpochStart := ensure_entry (epochs_of t p b) 0 0.

Record history_ok (t : string) (p : Z) (part : Partition L) b : Prop := {
  hi_part : get_partition t p b = Ok part;
  hi_sorted : StronglySorted es_lt (history t p b);
  hi_range : Forall (λ e, 0 ≤ es_epoch e ≤ p_leader_epoch part) (history t p b);
  hi_zero : has_epoch 0 (history t p b) = true;
  hi_current : has_epoch (p_leader_epoch part) (history t p b) = true;
}.

Lemma epochs_insert t p e m b : leader_epochs (b_meta b) = <[(t, p) := e]> m → epochs_of t p b = e.
Proof. intros E. unfold epochs_of. by rewrite E, lookup_insert_eq. Qed.

Lemma ensure_has es epoch start : has_epoch epoch es = true → ensure_entry es epoch start = es.
Proof. intros E. unfold ensure_entry. by rewrite E. Qed.

Lemma persist_same `{IterOrder} b :
  let b' := persist_leader_epochs b in
  b_topics b' = b_topics b ∧ b_cluster b' = b_cluster b ∧ leader_epochs (b_meta b') = leader_epochs (b_meta b).
Proof. done. Qed.

Lemma ensure_epoch_spec `{IterOrder} t p epoch start b :
  let b' := ensure_epoch_entry t p epoch start b in
  b_topics b' = b_topics b ∧
  leader_epochs (b_meta b') = <[(t, p) := ensure_entry (epochs_of t p b) epoch start]> (leader_epochs (b_meta b)).
Proof. cbn zeta. unfold ensure_epoch_entry. case_bool_decide; done. Qed.

Lemma record_epoch_spec `{IterOrder} t p epoch start b :
  has_epoch epoch (history t p b) = false →
  let b' := record_epoch_start t p epoch start b in
  b_topics b' = b_topics b ∧
  leader_epochs (b_meta b') = <[(t, p) := ensure_entry (history t p b) epoch start]> (leader_epochs (b_meta b)) ∧
  ∃ b0, b' = persist_leader_epochs b0.
Proof.
  intros Hn. cbn zeta. unfold record_epoch_start. fold (history t p b). rewrite Hn. cbn [negb]. rewrite orb_true_r.
  split; [done|]. split; [done|]. by eexists.
Qed.

(** The current epoch's entry is there before the new one is written. *)
Lemma ensure_current es old :
  has_epoch old (ensure_entry es 0 0) = true → ensure_entry (ensure_entry es old 0) 0 0 = ensure_entry es 0 0.
Proof.
  intros Ho. destruct (has_epoch old es) eqn:E; [by rewrite (ensure_has es old)|].
  assert (old = 0) as ->; [|by rewrite (ensure_has (ensure_entry es 0 0))].
  unfold ensure_entry in Ho. destruct (has_epoch 0 es); [congruence|].
  apply has_epoch_spec in Ho as (e & He & <-). rewrite merge_sort_Permutation in He.
  apply elem_of_app in He as [He|Hs%list_elem_of_singleton]; [|by subst].
  apply not_true_iff_false in E. exfalso. apply E, has_epoch_spec. by exists e.
Qed.

(** ** The file *)

(** What is kept of every partition. *)
Definition epochs_wf b : Prop :=
  map_Forall (λ k es, is_u32 k.2 ∧ StronglySorted es_lt es) (leader_epochs (b_meta b)).

(** The broker that starts on the files. *)
Definition reborn b : Broker L := set_meta (fresh_meta b) b.

Lemma epochs_reload (i i' : IterOrder) b :
  epochs_wf b → leader_epochs (b_meta (load_leader_epochs (H0 := i') (reborn (persist_leader_epochs (H0 := i) b)))) =
    leader_epochs (b_meta b).
Proof.
  intros Hw. unfold load_leader_epochs, persist_leader_epochs, reborn, fresh_meta, map_meta. cbn.
  set (m := leader_epochs (b_meta b)) in *. set (enc := λ k : tp, partition_key k.1 k.2).
  assert (Hdec : ∀ k v, m !! k = Some v → parse_partition_key (enc k) = Some k ∧ merge_sort es_le v = v).
  { intros [tn pn] v Hl. destruct (Hw _ _ Hl) as [Hu Hs]. split; [by apply parse_partition_key_ok|by apply merge_sort_history]. }
  set (file := foldl _ ∅ (@reorder i _ _)).
  assert (Hfile : map_to_list file ≡ₚ recoded enc (λ v, v) m).
  { assert (file = list_to_map (recoded enc (λ v, v) m)) as ->; [|by eapply recoded_file].
    unfold file. etrans; [|apply (rebuild_map (λ x : tp * list EpochStart, enc x.1) snd _ (@reorder i _ (map_to_list m)))].
    - generalize (∅ : gmap string (list EpochStart)). generalize (@reorder i _ (map_to_list m)).
      induction l as [|[[tn pn] v] l IH]; intros g; [done|]. apply IH.
    - rewrite (recoded_file enc parse_partition_key (λ v, v) (merge_sort es_le) m Hdec) by done. unfold recoded. rewrite reorder_perm.
      apply reflexive_eq, map_ext. by intros [? ?]. }
  destruct (recoded_perm enc (λ v, v) m (@reorder i' _ (map_to_list file))) as (l0 & P & ->); [by rewrite reorder_perm|].
  rewrite (decode_fold enc parse_partition_key (λ v, v) (merge_sort es_le) m Hdec); [by apply foldl_insert_map|].
  intros k v. by rewrite P, elem_of_map_to_list.
Qed.

Lemma reload_meta `{IterOrder} b b' :
  b_meta b = b_meta b' →
  leader_epochs (b_meta (load_leader_epochs (reborn b))) = leader_epochs (b_meta (load_leader_epochs (reborn b'))).
Proof. intros E. unfold load_leader_epochs, reborn, fresh_meta, map_meta. cbn. by rewrite E. Qed.

(** The history of the broker after a new epoch has begun. *)
Lemma advance_history (i : IterOrder) t p part new b :
  history_ok t p part b → p_leader_epoch part < new →
  ∃ b', set_partition_leader_epoch t p new b = (Ok tt, b') ∧
    get_partition t p b' = Ok (set_leader_epoch new part) ∧
    leader_epochs (b_meta b') = <[(t, p) := history t p b ++ [mkEpochStart new (leo part)]]> (leader_epochs (b_meta b)) ∧
    ∃ b0, b_meta b' = b_meta (persist_leader_epochs b0) ∧ leader_epochs (b_meta b0) = leader_epochs (b_meta b').
Proof.
  intros [Hp Hs HF _ Hc] Hnew. unfold set_partition_leader_epoch. rewrite Hp, Zltb_true by done.
  set (b1 := put_partition t p _ b). assert (P1 : get_partition t p b1 = Ok (set_leader_epoch new part)) by by eapply get_put.
  assert (M1 : b_meta b1 = b_meta b) by done. clearbody b1. set (b2 := ensure_epoch_entry _ _ _ _ b1).
  destruct (ensure_epoch_spec t p (p_leader_epoch part) 0 b1) as [T2 M2]. fold b2 in T2, M2.
  assert (E2 : epochs_of t p b2 = ensure_entry (epochs_of t p b) (p_leader_epoch part) 0).
  { rewrite (epochs_insert _ _ _ _ _ M2). unfold epochs_of. by rewrite M1. }
  assert (H2 : history t p b2 = history t p b) by (unfold history; rewrite E2; by apply ensure_current).
  assert (Hlt : Forall (λ e, es_epoch e < new) (history t p b)) by (eapply Forall_impl; [exact HF|]; cbn; lia).
  destruct (record_epoch_spec t p new (leo part) b2) as (T3 & M3 & b0 & E3); [rewrite H2; by apply has_epoch_le|].
  set (b3 := record_epoch_start _ _ _ _ b2) in *. rewrite H2, (ensure_new _ _ _ Hs Hlt), M2, insert_insert_eq, M1 in M3.
  eexists. split; [done|]. split; [|split; [exact M3|]].
  - rewrite (get_same t p b1); [done|]. unfold map_cluster. cbn. by rewrite T3.
  - exists b0. change (b_meta b3 = b_meta (persist_leader_epochs b0) ∧ leader_epochs (b_meta b0) = leader_epochs (b_meta b3)).
    by rewrite E3.
Qed.

Lemma answer_of `{IterOrder} t p part b r :
  get_partition t p b = Ok part →
  ∃ hwm, (offset_for_leader_epoch t p r b).1 = end_offset_for (history t p b) (p_leader_epoch part) hwm r.
Proof.
  intros Hp. unfold offset_for_leader_epoch. rewrite Hp. cbn [fst].
  destruct (ensure_epoch_spec t p 0 0 b) as [_ M]. rewrite (epochs_insert _ _ _ _ _ M). fold (history t p b). by eexists.
Qed.


End broker.
