(* ===== verification/TxnFencing.v ===== *)
(** * Transactions: fencing, and the theorems on what readers see

    Every operation keeps the invariant of the producers and the epoch of every
    producer it does not hand out; so a producer whose id has been handed out
    again can do nothing. *)

From Stdlib Require Import Strings.String.
From S2P Require Import Prelude Bytes Core Record SparseIndex Segment SegmentProps GroupCommit PartitionLog PartitionLogProps BrokerLog Messages OffsetStore OffsetStoreProps Group Broker KafkaRecords Txn TxnRecovery TxnProps TxnSafety TxnTrace TxnProducers.
#[local] Open Scope Z_scope.

Section steps.
Context {L : Type} `{LogStoreLaws L} `{IterOrder}.
Implicit Types (b : Broker L).

(** ** Epochs *)

Definition same_identity (p p' : ProducerEpochState) : Prop :=
  pe_transactional_id p' = pe_transactional_id p ∧ pe_epoch p' = pe_epoch p.

(** Every producer is still there, with its epoch. *)
Definition kept b b' : Prop := ∀ pid p, producer_state (b_txns b) !! pid = Some p →
  ∃ p', producer_state (b_txns b') !! pid = Some p' ∧ same_identity p p'.

#[global] Instance kept_preorder : PreOrder kept.
Proof.
  split; [intros b pid p Hp; by exists p|]. intros x y z Hx Hy pid p Hp.
  destruct (Hx _ _ Hp) as (p1 & H1' & E1 & E1'), (Hy _ _ H1') as (p2 & H2' & E2 & E2'). exists p2.
  unfold same_identity. split; [done|]. by rewrite E2, E1, E2', E1'.
Qed.

Lemma frame_kept b b' : frame b b' → kept b b'.
Proof. intros [[E _] _ _ _ _ _] pid p Hp. exists p. by rewrite E. Qed.

Definition steady b b' : Prop := producers_inv b → producers_inv b' ∧ kept b b'.

#[global] Instance steady_preorder : PreOrder steady.
Proof.
  split; [done|]. intros x y z Hx Hy I. destruct (Hx I) as [I1 K1], (Hy I1) as [I2 K2].
  split; [done|]. by transitivity y.
Qed.

Lemma frame_steady b b' : frame b b' → steady b b'.
Proof. intros F I. split; [by eapply inv_frame|by apply frame_kept]. Qed.

Lemma same_tables_steady b b' : same_tables b b' → steady b b'.
Proof. intros E. by apply frame_steady, same_tables_frame. Qed.

Lemma open_steady o b :
  (producers_inv b → map_Forall (λ _ txn, u32_ranges (ot_written txn)) o) →
  steady b (map_txns (set_open_txns o) b).
Proof. intros Ho I. split; [by apply inv_open; [apply Ho|]|]. intros pid p Hp. by exists p. Qed.

Lemma expire_steady now b : steady b (expire_timed_out_txns now b).
Proof.
  intros I. split; [by apply expire_inv|]. destruct (expire_producers now b) as [E _].
  intros pid p Hp. exists p. by rewrite E.
Qed.

(** ** A producer is changed *)

Lemma tables_ok_put pid p p' b :
  tables_ok b → producer_state (b_txns b) !! pid = Some p →
  pe_transactional_id p' = pe_transactional_id p → producer_ok (next_producer_id (b_txns b)) pid p' →
  (pe_epoch p' = pe_epoch p ∨
   map_Forall (λ _ prp, pt_producer_id prp ≠ pid) (prepared_txns (b_txns b))) →
  tables_ok (put_producer pid p' b).
Proof.
  intros [[Hn Hk Hi] HP HO] Hp Ht Hok He. split; [split|..]; cbn; [done|by apply map_Forall_insert_2| | |done].
  - intros tid pid'. rewrite Hi. destruct (decide (pid' = pid)) as [->|Hne].
    + rewrite lookup_insert_eq, Hp. split; intros (Htid & q & [= <-] & Hq); split; eauto.
      * exists p'. by rewrite Ht.
      * exists p. by rewrite <- Ht.
    + by rewrite lookup_insert_ne.
  - intros tid prp Hl. destruct (HP tid prp Hl) as (E1 & E2 & E3 & q & Hq & E4 & E5).
    do 3 (split; [done|]). destruct (decide (pt_producer_id prp = pid)) as [Epid|Hne].
    + exists p'. rewrite Epid, lookup_insert_eq. split; [done|]. rewrite Epid, Hp in Hq. injection Hq as <-.
      split; [congruence|]. destruct He as [->|He]; [done|]. by destruct (He tid prp Hl).
    + exists q. by rewrite lookup_insert_ne.
Qed.

Lemma put_kept pid p p' b :
  producer_state (b_txns b) !! pid = Some p → same_identity p p' → kept b (put_producer pid p' b).
Proof.
  intros Hp Hi pid' q Hq. cbn. destruct (decide (pid' = pid)) as [->|Hne].
  - rewrite lookup_insert_eq. exists p'. split; [done|]. congruence.
  - rewrite lookup_insert_ne by done. exists q. done.
Qed.

Lemma record_idempotent_effect pid e t p seq n base b :
  is_u32 p → tables_ok b → saved b →
  let b' := record_idempotent_produce pid e t p seq n base b in
  tables_ok b' ∧ saved b' ∧ kept b b' ∧ prepared_txns (b_txns b') = prepared_txns (b_txns b) ∧
  open_txns (b_txns b') = open_txns (b_txns b) ∧ tf_prepared (b_files b') = tf_prepared (b_files b).
Proof.
  intros Hp T S. cbn zeta. unfold record_idempotent_produce. destruct (_ || _); [by split_and!|].
  destruct (producer_state (b_txns b) !! pid) as [q|] eqn:Hq; [|by split_and!].
  destruct (negb _); [by split_and!|]. set (q' := mkProducer _ _ _ _ _ _).
  assert (T1 : tables_ok (put_producer pid q' b)).
  { apply (tables_ok_put pid q); [done..| |by left].
    destruct (pw_known _ _ _ (to_wf _ T) pid q Hq). split; [done..|]. by apply map_Forall_insert_2. }
  split; [by destruct T1|]. split; [intros i; exact (load_producers_ok i _ _ (to_wf _ T1))|].
  split; [|done]. by apply (put_kept pid q).
Qed.

Lemma record_idempotent_steady pid e t p seq n base b :
  is_u32 p → steady b (record_idempotent_produce pid e t p seq n base b).
Proof.
  intros Hp (T & S & P). destruct (record_idempotent_effect pid e t p seq n base b Hp T S)
    as (T1 & S1 & K & EP & _ & EF). split; [|done]. split; [done|]. split; [done|].
  by apply (stored_same b).
Qed.

(** ** A producer is handed out *)

Lemma fence_open_frame pid e now b :
  frame (map_txns (set_open_txns (delete pid (open_txns (b_txns b)))) b) (fence_open pid e now b).
Proof.
  unfold fence_open. destruct (open_txns (b_txns b) !! pid) as [txn|] eqn:E; [apply abort_one_frame|].
  rewrite delete_id by done. by split.
Qed.

Lemma fence_open_ok pid e now b :
  tables_ok b → stored b →
  let b' := fence_open pid e now b in
  tables_ok b' ∧ stored b' ∧ producer_state (b_txns b') = producer_state (b_txns b) ∧
  open_txns (b_txns b') !! pid = None.
Proof.
  intros T P. cbn zeta. pose proof (fence_open_frame pid e now b) as F. split_and!.
  - eapply tables_ok_frame; [done|]. apply tables_ok_open; [|done]. by apply map_Forall_delete, (to_open _ T).
  - eapply stored_frame; [exact F|]. by apply (stored_same b).
  - by destruct F as [[E _] _ _ _ _ _].
  - rewrite (fr_open _ _ F). apply lookup_delete_eq.
Qed.

Lemma next_epoch_range e : 0 ≤ e < 65536 → 1 ≤ next_epoch e < 65536.
Proof.
  intros He. unfold next_epoch, u16_wrapping_add, as_u16.
  pose proof (Z.mod_pos_bound (e + 1) 65536 ltac:(done)).
  case_match; lia.
Qed.

(** The answer to [InitProducerId] is the epoch of the producer it names,
    whose transaction is gone. *)
Definition answers (tid : string) (r : InitProducerIdResult) b' : Prop :=
  ∃ p, producer_state (b_txns b') !! ir_producer_id r = Some p ∧ pe_epoch p = ir_epoch r ∧
    pe_transactional_id p = tid.

Lemma init_fence_ok tid e2 tmo pid p now b r b' :
  tables_ok b → stored b → producer_state (b_txns b) !! pid = Some p → pe_transactional_id p = tid →
  tid ≠ ""%string → map_Forall (λ _ prp, pt_producer_id prp ≠ pid) (prepared_txns (b_txns b)) →
  init_fence tid e2 tmo pid p now b = (r, b') →
  producers_inv b' ∧ answers tid r b' ∧ r = mkInitResult 0 pid (next_epoch (pe_epoch p)) (-1) (-1) ∧
  open_txns (b_txns b') !! pid = None ∧
  (∀ pid', pid' ≠ pid → producer_state (b_txns b') !! pid' = producer_state (b_txns b) !! pid').
Proof.
  intros T P Hp Htid Hne Hprep. unfold init_fence. set (p' := mkProducer _ _ _ _ _ _). intros [= <- <-].
  pose proof (pw_known _ _ _ (to_wf _ T) pid p Hp) as Hk.
  assert (T1 : tables_ok (put_producer pid p' b)).
  { apply (tables_ok_put pid p); [done|done|done| |by right]. split; cbn; [apply Hk| | |done].
    - pose proof (next_epoch_range _ (pr_epoch _ _ _ Hk)). lia.
    - by rewrite (proj2 (String.eqb_neq _ _)). }
  destruct (fence_open_ok pid (pe_epoch p) now (put_producer pid p' b) T1 (stored_same b (put_producer pid p' b) eq_refl eq_refl P)) as (T2 & P2 & E2 & O2).
  set (b2 := fence_open _ _ _ _) in *.
  split; [apply persist_producers_inv; [by destruct T2|by apply (stored_same b2)]|]. cbn [ir_producer_id].
  assert (E3 : producer_state (b_txns (persist_producer_state (clear_txn_abortable pid b2))) =
    <[pid := p']> (producer_state (b_txns b))) by done.
  split; [exists p'; rewrite E3, lookup_insert_eq; done|]. split; [done|]. split; [done|].
  intros pid' Hpid'. by rewrite E3, lookup_insert_ne.
Qed.

Lemma init_keep_ok tid e2 tmo prp now b r b' :
  tables_ok b → stored b → prepared_txns (b_txns b) !! tid = Some prp →
  init_keep_prepared tid e2 tmo prp now b = (r, b') →
  producers_inv b' ∧ answers tid r b' ∧ kept b b' ∧ open_txns (b_txns b') !! ir_producer_id r = None ∧
  ∃ p, producer_state (b_txns b) !! ir_producer_id r = Some p ∧
    r = mkInitResult 0 (ir_producer_id r) (pe_epoch p) (as_i64 (ir_producer_id r)) (as_i16 (pe_epoch p)).
Proof.
  intros T P Hprep. unfold init_keep_prepared.
  destruct (to_prepared _ T tid prp Hprep) as (Et & Hne & Hw & p & Hp & Htid & He). rewrite Hp.
  set (p' := mkProducer _ _ _ _ _ _). set (pid := pt_producer_id prp) in *. intros [= <- <-].
  pose proof (pw_known _ _ _ (to_wf _ T) pid p Hp) as Hk.
  assert (T1 : tables_ok (put_producer pid p' b)).
  { apply (tables_ok_put pid p); [done..| |by left]. split; cbn; [apply Hk| | |apply Hk].
    - rewrite <- He. apply Hk.
    - by rewrite (proj2 (String.eqb_neq _ _)). }
  assert (Hids : <[tid := pid]> (transactional_ids (b_txns b)) = transactional_ids (b_txns b)).
  { apply insert_id, (pw_ids _ _ _ (to_wf _ T)). eauto. }
  set (b1 := map_txns (set_transactional_ids _) _).
  assert (T1' : tables_ok b1).
  { destruct T1 as [[A1 A2 A3] A4 A5]. unfold b1. cbn. rewrite Hids. by split; [split|..]. }
  destruct (fence_open_ok pid (pt_producer_epoch prp) now b1 T1' (stored_same b b1 eq_refl eq_refl P)) as (T2 & P2 & E2 & O2).
  set (b2 := fence_open _ _ _ _) in *. cbn [ir_producer_id].
  split; [apply persist_producers_inv; [by destruct T2|by apply (stored_same b2)]|].
  split; [exists p'; cbn; rewrite E2; cbn; by rewrite lookup_insert_eq|]. split.
  - pose proof (put_kept pid p p' b Hp ltac:(split; cbn; congruence)) as K. intros q x Hx.
    destruct (K q x Hx) as (x' & Hx' & Hi). exists x'. split; [|done]. cbn. by rewrite E2.
  - split; [done|]. exists p. split; [done|]. by rewrite He.
Qed.

(** A new id; the transactional id, when there is one, was not known. *)
Lemma allocate_ok tid e2 tmo (transactional : bool) b :
  let id := next_producer_id (b_txns b) in
  let b1 := put_producer id (mkProducer 0 transactional tid e2 tmo ∅) (take_producer_id b).2 in
  let b2 := map_txns (set_transactional_ids (if transactional
              then <[tid := id]> (transactional_ids (b_txns b)) else transactional_ids (b_txns b))) b1 in
  id < u64_max → tables_ok b → transactional = negb (String.eqb tid "") →
  (tid ≠ ""%string → transactional_ids (b_txns b) !! tid = None) →
  tables_ok b2 ∧ producer_state (b_txns b) !! id = None ∧ kept b b2.
Proof.
  intros id b1 b2 Hid [[Hn Hk Hi] HP HO] Htr Hnew.
  assert (Hfresh : producer_state (b_txns b) !! id = None).
  { destruct (producer_state (b_txns b) !! id) as [p|] eqn:E; [|done].
    destruct (pr_pid _ _ _ (Hk _ _ E)). unfold id in *. lia. }
  assert (Hwrap : u64_wrapping_add (next_producer_id (b_txns b)) 1 = id + 1).
  { unfold u64_wrapping_add, as_u64, u64_max, id in *. apply Z.mod_small. lia. }
  split; [split; [split|..]|split; [done|]]; cbn; rewrite ?Hwrap.
  - unfold id in *. lia.
  - apply map_Forall_insert_2.
    + split; cbn; [lia|lia|done|apply map_Forall_empty].
    + intros pid p Hp. destruct (Hk _ _ Hp) as [? ? ? ?]. split; [unfold id; lia|done..].
  - intros tid' pid. destruct (decide (pid = id)) as [->|Hne].
    + setoid_rewrite lookup_insert_eq. split.
      * intros Hl. destruct transactional; [|by apply Hi in Hl as (_ & p & Hp & _); rewrite Hfresh in Hp].
        destruct (decide (tid' = tid)) as [->|Ht]; [|rewrite lookup_insert_ne in Hl by done;
          by apply Hi in Hl as (_ & p & Hp & _); rewrite Hfresh in Hp].
        split; [|by eauto]. intros ->. done.
      * intros (Ht & p & [= <-] & Hp). cbn in Hp. subst tid'. 
        rewrite (proj2 (String.eqb_neq _ _) Ht) in Htr. subst transactional. cbn. by rewrite lookup_insert_eq.
    + setoid_rewrite lookup_insert_ne; [|done]. rewrite <- Hi. destruct transactional; [|done].
      destruct (decide (tid' = tid)) as [->|Ht]; [|by rewrite lookup_insert_ne].
      rewrite lookup_insert_eq. assert (Hne' : tid ≠ ""%string) by (intros ->; done).
      rewrite (Hnew Hne'). split; congruence.
  - intros tid' prp Hl. destruct (HP _ _ Hl) as (A1 & A2 & A3 & q & Hq & A4). do 3 (split; [done|]).
    exists q. rewrite lookup_insert_ne; [done|]. intros E. by rewrite <- E, Hfresh in Hq.
  - done.
  - intros pid p Hp. exists p. cbn. rewrite lookup_insert_ne; [done|]. intros E. by rewrite E, Hp in Hfresh.
Qed.

(** What [InitProducerId] does to the producers. *)
Record init_effect (tid : string) (r : InitProducerIdResult) b b' : Prop := {
  ie_inv : producers_inv b';
  ie_other : ∀ pid p, producer_state (b_txns b) !! pid = Some p → ir_error_code r ≠ 0 ∨ pid ≠ ir_producer_id r →
    ∃ p', producer_state (b_txns b') !! pid = Some p' ∧ same_identity p p';
  ie_answer : ir_error_code r = 0 → answers tid r b';
  ie_epoch : ∀ p, ir_error_code r = 0 → producer_state (b_txns b) !! ir_producer_id r = Some p →
    pe_transactional_id p = tid ∧ open_txns (b_txns b') !! ir_producer_id r = None ∧
    (ir_epoch r = next_epoch (pe_epoch p) ∧ ir_ongoing_txn_producer_id r = -1 ∨
     ir_epoch r = pe_epoch p ∧ ir_ongoing_txn_producer_id r ≠ -1);
}.

Lemma init_allocate_effect tid e2 tmo b r b' :
  next_producer_id (b_txns b) < u64_max → tables_ok b → stored b → tid ≠ ""%string →
  transactional_ids (b_txns b) !! tid = None →
  init_allocate tid e2 tmo b = (r, b') → init_effect tid r b b'.
Proof.
  intros Hid T P Hne Hnew [= <- <-].
  destruct (allocate_ok tid e2 tmo true b Hid T) as (T1 & Hf & K).
  { by rewrite (proj2 (String.eqb_neq _ _)). }
  { done. }
  split; cbn [ir_producer_id ir_epoch ir_error_code].
  - apply persist_producers_inv; [exact T1|by apply (stored_same b)].
  - intros pid p Hp _. exact (K pid p Hp).
  - intros _. eexists. cbn. rewrite lookup_insert_eq. done.
  - intros p _ Hp. congruence.
Qed.

(** An idempotent producer has no transactional id. *)
Lemma init_plain_effect tmo b r b' :
  next_producer_id (b_txns b) < u64_max → tables_ok b → stored b →
  (let '(id, b) := take_producer_id b in
   let b := put_producer id (mkProducer 0 false "" false tmo ∅) b in
   (mkInitResult 0 id 0 (-1) (-1), persist_producer_state b)) = (r, b') → init_effect "" r b b'.
Proof.
  intros Hid T P.
  destruct (allocate_ok "" false tmo false b Hid T ltac:(done) ltac:(done)) as (T1 & Hf & K).
  cbn [take_producer_id snd] in *. set (id := next_producer_id (b_txns b)) in *.
  set (b1 := put_producer _ _ _) in *. intros [= <- <-].
  assert (T1' : tables_ok b1) by (destruct T1; by split).
  split; cbn [ir_producer_id ir_epoch ir_error_code].
  - apply persist_producers_inv; [done|by apply (stored_same b)].
  - intros pid p Hp _. exact (K pid p Hp).
  - intros _. eexists. cbn. rewrite lookup_insert_eq. done.
  - intros p _ Hp. congruence.
Qed.

(** A prepared transaction is aborted by force. *)
Lemma force_abort_ok tid prp now b :
  producers_inv b →
  let b' := clear_txn_abortable (pt_producer_id prp) (force_abort_prepared prp now
              (map_txns (set_prepared_txns (delete tid (prepared_txns (b_txns b)))) b)) in
  producers_inv b' ∧ same_producers b b' ∧ prepared_txns (b_txns b') = delete tid (prepared_txns (b_txns b)).
Proof.
  intros (T & S & P). cbn zeta. set (b1 := map_txns _ b).
  assert (T1 : tables_ok b1) by (apply tables_ok_prepared; [by apply map_Forall_delete, (to_prepared _ T)|done]).
  pose proof (abort_one_frame Abort (pt_producer_id prp) (pt_producer_epoch prp) (pt_open prp) now b1) as F.
  unfold force_abort_prepared. set (b2 := append_txn_control_markers _ _ _ _ _ _) in *. split_and!.
  - eapply inv_frame; [|apply (persist_prepared_inv b2);
      [by eapply tables_ok_frame|eapply saved_frame; [exact F|exact S]]]. by split.
  - etrans; [|exact (fr_producers _ _ F)]. done.
  - exact (fr_prepared _ _ F).
Qed.

Lemma no_prepared_of tid pid p b :
  tables_ok b → producer_state (b_txns b) !! pid = Some p → pe_transactional_id p = tid →
  prepared_txns (b_txns b) !! tid = None →
  map_Forall (λ _ prp, pt_producer_id prp ≠ pid) (prepared_txns (b_txns b)).
Proof.
  intros T Hp Ht Hn tid' prp Hl E. destruct (to_prepared _ T tid' prp Hl) as (_ & _ & _ & q & Hq & Eq & _).
  rewrite E, Hp in Hq. congruence.
Qed.

Lemma init_rest_effect tid e2 tmo now b r b' :
  next_producer_id (b_txns b) < u64_max → producers_inv b → tid ≠ ""%string →
  prepared_txns (b_txns b) !! tid = None →
  match transactional_ids (b_txns b) !! tid with
  | None => init_allocate tid e2 tmo b
  | Some existing =>
    match producer_state (b_txns b) !! existing with
    | None => init_allocate tid e2 tmo b
    | Some p => init_fence tid e2 tmo existing p now b
    end
  end = (r, b') → init_effect tid r b b'.
Proof.
  intros Hid (T & S & P) Hne Hn. destruct (transactional_ids (b_txns b) !! tid) as [pid|] eqn:Ei.
  2: { by apply init_allocate_effect. }
  pose proof Ei as Ei'. apply (pw_ids _ _ _ (to_wf _ T)) in Ei' as (_ & p & Hp & Ht). rewrite Hp. intros E.
  destruct (init_fence_ok tid e2 tmo pid p now b r b' T P Hp Ht Hne (no_prepared_of tid pid p b T Hp Ht Hn) E)
    as (I & A & -> & O & Hoth).
  split; cbn [ir_producer_id ir_epoch ir_error_code]; [done| |done|].
  - intros pid' p' Hp' [?|Hd]; [done|]. exists p'. by rewrite Hoth.
  - intros p' _ Hp'. rewrite Hp in Hp'. injection Hp' as <-. by auto.
Qed.

Lemma init_effect_from tid r b b1 b' : same_producers b b1 → init_effect tid r b1 b' → init_effect tid r b b'.
Proof. intros (E & _) [A B C D]. rewrite E in B, D. by split. Qed.

Lemma as_i64_id next pid : 1 ≤ pid < next → next ≤ u64_max → as_i64 pid ≠ -1.
Proof. unfold as_i64, signed, u64_max. intros ? ?. rewrite Z.mod_small by lia. case_match; lia. Qed.

Lemma init_ok tid e2 keep tmo now b r b' :
  next_producer_id (b_txns b) < u64_max → producers_inv b →
  init_producer_id_with_opts tid e2 keep tmo now b = (r, b') → init_effect tid r b b'.
Proof.
  intros Hid I. unfold init_producer_id_with_opts. pose proof (expire_producers now b) as SP.
  pose proof (expire_inv now b I) as I1. set (b1 := expire_timed_out_txns now b) in *.
  assert (Hid1 : next_producer_id (b_txns b1) < u64_max) by (destruct SP as (_ & _ & -> & _); done).
  intros E. eapply init_effect_from; [exact SP|]. clear I SP Hid. revert E. clearbody b1.
  case_match.
  { intros [= <- <-]. split; cbn; [done| |done|done]. intros pid p Hp _. by exists p. }
  destruct I1 as (T & S & P). destruct (String.eqb_spec tid "") as [->|Hne].
  { by apply init_plain_effect. }
  destruct keep; cbn [fst snd].
  - destruct (prepared_txns (b_txns b1) !! tid) as [prp|] eqn:Hp; [|by apply init_rest_effect].
    intros E. destruct (init_keep_ok _ _ _ _ _ _ _ _ T P Hp E) as (I & A & K & O & p & Hl & Er). split; [done| |done|].
    + intros pid q Hq _. by apply K.
    + intros q _ Hq. rewrite Hl in Hq. injection Hq as <-. destruct A as (p' & Hp' & Ee & Et).
      destruct (K _ _ Hl) as (p2 & Hp2 & Hi1 & Hi2). rewrite Hp' in Hp2. injection Hp2 as <-.
      split; [congruence|]. split; [done|]. right. split; [congruence|]. rewrite Er. cbn.
      eapply as_i64_id; [|apply (to_wf _ T)]. by apply (pw_known _ _ _ (to_wf _ T) _ _ Hl).
  - destruct (prepared_txns (b_txns b1) !! tid) as [prp|] eqn:Hp; [|by apply init_rest_effect].
    destruct (force_abort_ok tid prp now b1 (conj T (conj S P))) as (I2 & S2 & P2). set (b2 := clear_txn_abortable _ _) in *.
    intros E. eapply init_effect_from; [exact S2|]. eapply init_rest_effect; [|done|done| |exact E].
    + destruct S2 as (_ & _ & -> & _). done.
    + rewrite P2. apply lookup_delete_eq.
Qed.

(** ** Transactions *)

Lemma put_open_steady pid txn b :
  (producers_inv b → u32_ranges (ot_written txn)) → steady b (put_open pid txn b).
Proof. intros Hw. apply open_steady. intros I. apply map_Forall_insert_2; [by apply Hw|apply (to_open _ (proj1 I))]. Qed.

Lemma open_written pid txn b :
  open_txns (b_txns b) !! pid = Some txn → producers_inv b → u32_ranges (ot_written txn).
Proof. intros Hl (T & _). by apply (to_open _ T pid). Qed.

Lemma begin_steady pid e now b : steady b (begin_txn pid e now b).2.
Proof.
  unfold begin_txn. pose proof (expire_steady now b) as E. set (b1 := expire_timed_out_txns now b) in *.
  destruct (check_producer _ _ _) as [c|tid]; [done|]. do 3 (case_match; [done|]).
  etrans; [exact E|]. apply put_open_steady. intros _. apply Forall_nil_2.
Qed.

Lemma ensure_steady pid e now b : steady b (ensure_txn_open pid e now b).2.
Proof.
  unfold ensure_txn_open. pose proof (expire_steady now b) as E. set (b1 := expire_timed_out_txns now b) in *.
  destruct (check_producer _ _ _) as [c|tid]; [done|]. do 3 (case_match; [done|]).
  etrans; [exact E|apply begin_steady].
Qed.

Lemma persist_markers_frame b : frame b (persist_txn_markers b).
Proof. done. Qed.

Lemma added_steady pid ks b : steady b (record_txn_added_partitions pid ks b).2.
Proof.
  unfold record_txn_added_partitions. case_match; [done|].
  destruct (open_txns (b_txns b) !! pid) as [txn|] eqn:E; [|done]. cbn [snd].
  etrans; [|apply frame_steady, persist_markers_frame]. apply put_open_steady. exact (open_written _ _ _ E).
Qed.

Lemma offsets_steady pid e os now b : steady b (buffer_txn_offsets pid e os now b).2.
Proof.
  unfold buffer_txn_offsets. pose proof (expire_steady now b) as E. set (b1 := expire_timed_out_txns now b) in *.
  destruct (check_producer _ _ _) as [c|tid]; [done|]. case_match; [done|].
  destruct (open_txns (b_txns b1) !! pid) as [txn|] eqn:Hl; [|done].
  etrans; [exact E|]. apply put_open_steady. exact (open_written _ _ _ Hl).
Qed.

Lemma check_steady pid e t p seq n now b : steady b (txn_produce_check pid e t p seq n now b).2.
Proof.
  unfold txn_produce_check. pose proof (expire_steady now b) as E. set (b1 := expire_timed_out_txns now b) in *.
  case_match; [done|]. destruct (check_producer _ _ _) as [c|tid]; [done|]. case_match; [done|].
  by destruct (open_txns (b_txns b1) !! pid).
Qed.

Lemma record_steady pid t p seq n base b : is_u32 p → steady b (txn_produce_record pid t p seq n base b).2.
Proof.
  intros Hp. unfold txn_produce_record. destruct (open_txns (b_txns b) !! pid) as [txn|] eqn:Hl; cbn [snd].
  - etrans; [|apply frame_steady, persist_markers_frame]. apply put_open_steady. intros I.
    apply Forall_app_2; [exact (open_written _ _ _ Hl I)|]. by apply Forall_singleton.
  - etrans; [apply frame_steady, push_frame|]. apply frame_steady, persist_markers_frame.
Qed.

Lemma commit_offsets_tables root os : ∀ b,
  b_txns (foldl (commit_txn_offset root) b os) = b_txns b ∧
  b_files (foldl (commit_txn_offset root) b os) = b_files b.
Proof.
  induction os as [|[[[[g t] p] o] m] os IH]; intros b; cbn [foldl]; [done|].
  destruct (IH (commit_txn_offset root b (g, t, p, o, m))) as [-> ->]. done.
Qed.

(** The end of a transaction, up to the file of prepared ones. *)
Definition settles b b' : Prop := tables_ok b → saved b →
  tables_ok b' ∧ saved b' ∧ kept b b' ∧ prepared_txns (b_txns b') = prepared_txns (b_txns b) ∧
  tf_prepared (b_files b') = tf_prepared (b_files b).

#[global] Instance settles_preorder : PreOrder settles.
Proof.
  split; [by intros b T S; split_and!|]. intros x y z Hx Hy T S.
  destruct (Hx T S) as (T1 & S1 & K1 & P1 & F1), (Hy T1 S1) as (T2 & S2 & K2 & P2 & F2).
  split_and!; [done|done|by transitivity y|congruence..].
Qed.

Lemma frame_settles b b' : frame b b' → settles b b'.
Proof.
  intros F T S. split_and!; [by eapply tables_ok_frame|by eapply saved_frame|by apply frame_kept|apply F..].
Qed.

Lemma commit_offsets_settles root os b : settles b (foldl (commit_txn_offset root) b os).
Proof.
  destruct (commit_offsets_tables root os b) as [E F]. intros T S.
  split_and!; [by destruct T; split; rewrite E|intros i; by rewrite E, F| |by rewrite E|by rewrite F].
  intros q x Hx. exists x. by rewrite E.
Qed.

Lemma finalize_settles root pid e c txn os now b :
  u32_ranges (ot_written txn) → settles b (finalize_txn root pid e c txn os now b).2.
Proof.
  intros Hw. unfold finalize_txn. destruct c; cbn [negb snd]; [|apply frame_settles, abort_one_frame].
  set (b1 := foldl _ b (ot_written txn)). transitivity b1.
  - unfold b1. clear b1. revert b. induction Hw as [|w ws Hw Hws IH]; intros b; cbn [foldl]; [done|].
    etrans; [|apply IH]. intros T S.
    destruct (record_idempotent_effect pid e (wr_topic w) _ (wr_base_sequence w) (wr_count w) (wr_first_offset w) b Hw T S)
      as (T1 & S1 & K1 & P1 & _ & F1). done.
  - etrans; [apply frame_settles, control_frame|]. etrans; [|apply frame_settles, persist_markers_frame].
    apply commit_offsets_settles.
Qed.

Lemma settles_steady b b' : settles b b' → steady b b'.
Proof.
  intros HS (T & S & P). destruct (HS T S) as (T1 & S1 & K & E & F). split; [|done].
  split; [done|]. split; [done|]. by apply (stored_same b).
Qed.

Lemma clear_cluster_frame tid b : frame b (clear_cluster_prepared_index tid b).
Proof. unfold clear_cluster_prepared_index. case_match; [done|]. by destruct (_ !! tid). Qed.

Lemma end_open_steady root tid e2 pid e c os now p b :
  producer_state (b_txns b) !! pid = Some p → pe_transactional_id p = tid → pe_epoch p = e →
  steady b (end_open root tid e2 pid e c os now b).2.
Proof.
  intros Hp Ht He. unfold end_open. destruct (open_txns (b_txns b) !! pid) as [txn|] eqn:Hl.
  2: { by destruct (is_txn_abortable pid b); [apply frame_steady|]. }
  set (b1 := clear_txn_abortable pid _). intros I. pose proof (open_written _ _ _ Hl I) as Hw.
  assert (S1 : steady b b1).
  { transitivity (map_txns (set_open_txns (delete pid (open_txns (b_txns b)))) b); [|by apply frame_steady].
    apply open_steady. intros (T & _).
    by apply map_Forall_delete, (to_open _ T). }
  assert (Hp1 : producer_state (b_txns b1) !! pid = Some p) by done. clearbody b1.
  destruct (e2 && negb (String.eqb tid "")) eqn:E2.
  - apply andb_prop in E2 as [_ Hne%negb_true_iff%String.eqb_neq]. cbn [snd]. unfold prepare_txn.
    destruct (S1 I) as [(T1 & Sv1 & _) K1]. set (b2 := prepare_insert _ _ _ _ _ _ _).
    assert (T2 : tables_ok b2).
    { apply tables_ok_prepared; [|done]. apply map_Forall_insert_2; [|apply (to_prepared _ T1)].
      do 3 (split; [done|]). exists p. done. }
    split; [|exact K1]. eapply inv_frame; [|apply (persist_prepared_inv (persist_txn_markers b2))]; [done|by destruct T2|done].
  - destruct (finalize_txn root pid e c txn os now b1) as [rs b2] eqn:Ef. cbn [snd].
    apply (steady_preorder.(PreOrder_Transitive) b b1); [done| |done]. apply settles_steady.
    pose proof (finalize_settles root pid e c txn os now b1 Hw) as HF. by rewrite Ef in HF.
Qed.

Lemma end_prepared_steady root tid pid e c prp os now b :
  prepared_txns (b_txns b) !! tid = Some prp → steady b (end_prepared root tid pid e c prp os now b).2.
Proof.
  intros Hl. unfold end_prepared. do 3 (case_match; [done|]). set (b1 := clear_txn_abortable pid _).
  intros (T & S & P).
  assert (T1 : tables_ok b1).
  { apply (tables_ok_prepared (delete tid (prepared_txns (b_txns b)))) in T; [by destruct T|].
    by apply map_Forall_delete, (to_prepared _ T). }
  pose proof (finalize_settles root pid e c (pt_open prp) os now b1) as HF.
  destruct (finalize_txn root pid e c (pt_open prp) os now b1) as [rs b2]. cbn [snd] in *.
  destruct HF as (T2 & S2 & K2 & _); [apply (to_prepared _ T tid prp Hl)|done|done|].
  split; [eapply inv_frame; [apply clear_cluster_frame|by apply persist_prepared_inv]|].
  transitivity b2; [exact K2|]. etrans; [|apply frame_kept, clear_cluster_frame]. intros q x Hx. by exists x.
Qed.

Lemma end_steady root pid e c os now b : steady b (end_txn root pid e c os now b).2.
Proof.
  unfold end_txn. pose proof (expire_steady now b) as E. set (b1 := expire_timed_out_txns now b) in *. clearbody b1.
  destruct (producer_state (b_txns b1) !! pid) as [p|] eqn:Hp; [|done].
  destruct (Z.eqb_spec (pe_epoch p) e) as [He|]; [|done]. cbn [negb].
  etrans; [exact E|]. case_match eqn:Hc; [|by eapply end_open_steady].
  apply end_prepared_steady. by destruct (String.eqb _ _).
Qed.

Lemma produce_txn_steady pid e t p seq ms now b :
  is_u32 p → steady b (buffer_txn_produce pid e t p seq ms now b).2.
Proof.
  intros Hp. unfold buffer_txn_produce. pose proof (check_steady pid e t p seq (as_u32 (zlen ms)) now b) as S1.
  destruct (txn_produce_check _ _ _ _ _ _ _ _) as [[r|] b1]; [exact S1|]. cbn [snd] in S1.
  pose proof (produce_append_tables t p ms now b1) as S2.
  destruct (txn_produce_append _ _ _ _ _) as [[code|base] b2]; cbn [snd] in *;
    (transitivity b1; [done|]); [by apply same_tables_steady|].
  transitivity b2; [by apply same_tables_steady|by apply record_steady].
Qed.

Lemma retain_steady (f : LogRecord → Broker L → bool * Broker L) rs :
  (∀ r b, steady b (f r b).2) → ∀ b, steady b (retain_st f rs b).2.
Proof.
  intros Hf. induction rs as [|r rs IH]; intros b; cbn [retain_st]; [done|].
  specialize (Hf r b). destruct (f r b) as [k b1]. specialize (IH b1). destruct (retain_st f rs b1) as [out b2].
  by etrans.
Qed.

Lemma fetch_steady t p from mm cap iso now b : steady b (fetch_up_to t p from mm cap iso now b).2.
Proof.
  unfold fetch_up_to. destruct (get_partition t p b) as [part|e]; [|done].
  destruct (ls_read _ _ _) as [rs|e]; [|done]. destruct iso; [| |done].
  - match goal with |- context [retain_st ?f ?l ?x] =>
      pose proof (retain_steady f l ltac:(intros r1 b1; cbn; destruct (is_txn_control_record r1);
        [done|apply expire_steady]) x) as Hr; destruct (retain_st f l x) end. exact Hr.
  - apply expire_steady.
Qed.

Lemma produce_one_frame t p m now b : frame b (produce_one t p m now b).2.
Proof. destruct (produce_one t p m now b) as [r b'] eqn:E. by eapply same_tables_frame, produce_one_tables. Qed.

Lemma flush_kept t p now b : frame b (flush t p now b).2.
Proof. destruct (flush t p now b) as [r b'] eqn:E. by eapply same_tables_frame, flush_tables. Qed.

Lemma write_one_marker_frame pid e m t p ranges now b :
  frame b (write_one_txn_marker pid e m t p ranges now b).2.
Proof.
  unfold write_one_txn_marker. destruct (_ || _); [done|].
  match goal with |- context [produce_one ?t ?p ?m ?n b] => pose proof (produce_one_frame t p m n b) as F1;
    destruct (produce_one t p m n b) as [[r|er] b1] end; [|done]. cbn [snd] in F1.
  pose proof (flush_kept t (as_u32 p) now b1) as F2. destruct (flush _ _ _ b1) as [r2 b2]. cbn [snd] in F2.
  assert (F3 : frame b b2) by by transitivity b1. destruct m; [|exact F3].
  destruct (ranges !! _) as [[f en]|]; [|exact F3]. by transitivity b2.
Qed.

Lemma write_topic_markers_frame pid e m t ps ranges now : ∀ w b,
  frame b (write_topic_markers pid e m t ps ranges now w b).2.
Proof.
  induction ps as [|p ps IH]; intros w b; cbn [write_topic_markers]; [done|].
  pose proof (write_one_marker_frame pid e m t p ranges now b) as F.
  destruct (write_one_txn_marker pid e m t p ranges now b) as [err b1]. specialize (IH ((err =? 0) || w) b1).
  destruct (write_topic_markers _ _ _ _ _ _ _ _ b1) as [[out w'] b2]. by transitivity b1.
Qed.

Lemma write_markers_frame pid e c ts now b : frame b (write_txn_markers pid e c ts now b).2.
Proof.
  unfold write_txn_markers. set (ranges := if c then ∅ else _). set (m := if c then Commit else Abort).
  assert (F : ∀ ts w b, frame b (write_all_markers pid e m ts ranges now w b).2).
  { clearbody ranges m. clear ts b. induction ts as [|[t ps] ts IH]; intros w b; cbn [write_all_markers]; [done|].
    pose proof (write_topic_markers_frame pid e m t ps ranges now w b) as F.
    destruct (write_topic_markers _ _ _ _ _ _ _ _ _) as [[rs w1] b1]. specialize (IH w1 b1).
    destruct (write_all_markers _ _ _ _ _ _ _ _) as [[out w'] b2]. by transitivity b1. }
  specialize (F ts false b). destruct (write_all_markers _ _ _ _ _ _ _ _) as [[rs w] b1]. cbn [snd] in *.
  by destruct w; [transitivity b1|].
Qed.

Lemma gc_below_frame t p s b : frame b (gc_aborted_markers_below t p s b).2.
Proof.
  unfold gc_aborted_markers_below. destruct (aborted_txns (b_txns b) !! (t, p)); [|done].
  cbn [snd]. by destruct (0 <? _).
Qed.

Lemma delete_frame t p before now b : frame b (delete_records t p before now b).2.
Proof.
  unfold delete_records. destruct (get_partition t p b) as [part|e] eqn:Eg; [|done]. case_match; [done|].
  destruct (ls_delete _ _ _) as [r l]. set (b1 := put_partition _ _ _ _).
  assert (F1 : frame b b1).
  { unfold b1, put_partition. by destruct (b_topics b !! t). }
  destruct r as [low|e]; [|done]. cbn [snd]. unfold gc_and_persist_aborted_markers.
  pose proof (gc_below_frame t p low b1) as F2. destruct (gc_aborted_markers_below _ _ _ _) as [n b2].
  transitivity b1; [done|]. destruct (0 <? n); [|exact F2]. by transitivity b2.
Qed.

Lemma gc_all_frame_of b : frame b (gc_stale_aborted_markers_all b).2.
Proof.
  unfold gc_stale_aborted_markers_all.
  assert (F : ∀ l n b, frame b (foldl (λ '(total, b) '(topic, part, start),
    let '(n, b) := gc_aborted_markers_below topic part start b in (total + n, b)) (n, b) l).2).
  { clear b. induction l as [|[[t p] s] l IH]; intros n b; cbn [foldl]; [done|].
    pose proof (gc_below_frame t p s b) as F. destruct (gc_aborted_markers_below t p s b) as [k b1].
    transitivity b1; [done|apply IH]. }
  specialize (F (log_starts b) 0 b). destruct (foldl _ _ _) as [n b1]. cbn [snd] in *.
  by destruct (0 <? n); [transitivity b1|].
Qed.

Lemma load_markers_frame now b : frame b (load_txn_markers now b).
Proof.
  unfold load_txn_markers. destruct (tf_markers (b_files b)) as [f|]; [|apply gc_all_frame_of].
  set (b1 := foldl push_stored b (mf_aborted f)). set (b2 := foldl push_stored b1 (mf_open f)).
  assert (F2 : frame b b2) by (transitivity b1; by apply fold_frame).
  set (b3 := if negb _ || negb _ then _ else b2).
  assert (F3 : frame b2 b3) by (unfold b3; destruct (_ || _); [apply same_tables_frame, crash_markers_tables|done]).
  pose proof (gc_all_frame_of b3) as F4. destruct (gc_stale_aborted_markers_all b3) as [n b4]. cbn [snd] in F4.
  transitivity b2; [done|]. transitivity b3; [done|]. by destruct (n =? 0); [transitivity b4|].
Qed.

(** ** Restart *)

Lemma load_prepared_ok now b0 b :
  tables_ok b0 → stored b0 →
  tables_ok b → saved b → prepared_txns (b_txns b) = ∅ →
  producer_state (b_txns b) = producer_state (b_txns b0) → tf_prepared (b_files b) = tf_prepared (b_files b0) →
  producers_inv (load_prepared_txns now b).
Proof.
  intros T0 P0 T S Hp Ep Ef. unfold load_prepared_txns.
  destruct (tf_prepared (b_files b)) as [fs|] eqn:Hf.
  2: { split; [done|]. split; [done|]. split; [by rewrite Hf..|]. by rewrite Hp. }
  symmetry in Ef. pose proof (sd_nodup _ P0 fs Ef) as Hnd.
  pose proof (foldl_insert_lookup st_transactional_id (restore_prepared now) fs (prepared_txns (b_txns b)) Hnd) as Hlk.
  set (m := foldl _ _ _) in *.
  split; [apply tables_ok_prepared; [|done]|split; [done|]].
  - intros tid prp [(s0 & Hs & <- & <-)|[_ Hl]]%Hlk; [|by rewrite Hp in Hl].
    destruct (sd_only _ P0 fs s0 Ef Hs) as (prp0 & Hl0 & Et & Epid & Ee & _ & _ & Ew & _). rewrite Ep.
    destruct (to_prepared _ T0 _ _ Hl0) as (_ & Hne & Hw & p & Hq & Ht & He).
    cbn in *. split; [done|]. split; [done|]. cbn. split; [by rewrite Ew|].
    exists p. rewrite Epid, Ee. done.
  - split; cbn; rewrite Hf.
    + by intros fs' [= <-].
    + intros fs' s0 [= <-] Hs. exists (restore_prepared now s0). split; [apply Hlk; by left; exists s0|done].
    + intros tid prp [(s0 & Hs & <- & <-)|[_ Hl]]%Hlk; [|by rewrite Hp in Hl]. exists fs, s0.
      do 4 (split; [done|]). cbn. destruct (Z.ltb_spec 0 (st_prepared_at_ms s0)); auto with lia.
Qed.

(** A restart gives back the producers and the prepared transactions, and then
    expires what has timed out. *)
Lemma restart_spec env topics now b :
  producers_inv b → ∃ b',
    restart env topics now b = map_txns (set_knobs (knobs (b_txns b))) (expire_timed_out_txns now b') ∧
    producers_inv b' ∧ same_producers (map_txns (set_knobs env) b) b' ∧
    (∀ tid prp, prepared_txns (b_txns b) !! tid = Some prp →
      ∃ prp', prepared_txns (b_txns b') !! tid = Some prp' ∧ same_txn prp' prp ∧
        (pt_prepared_at_ms prp' = pt_prepared_at_ms prp ∨ pt_prepared_at_ms prp' = now)).
Proof.
  intros (T & S & P). unfold restart, fresh_txns. rewrite (S H1). set (b0 := mkBroker _ _ _ _ _ _ _ _ _).
  assert (T0 : tables_ok b0) by (split; cbn; [apply (to_wf _ T)|apply map_Forall_empty..]).
  pose proof (load_markers_frame now b0) as F1. set (b1 := load_txn_markers now b0) in *.
  assert (S1 : saved b1) by (eapply saved_frame; [done|exact S]).
  assert (E0 : same_producers (map_txns (set_knobs env) b) b1) by exact (fr_producers _ _ F1).
  assert (EP : prepared_txns (b_txns b1) = ∅) by exact (fr_prepared _ _ F1).
  assert (EF : tf_prepared (b_files b1) = tf_prepared (b_files b)) by exact (fr_prepared_file _ _ F1).
  assert (I2 : producers_inv (load_prepared_txns now b1)).
  { apply (load_prepared_ok now b); [done|done|by eapply tables_ok_frame|done|done|apply E0|done]. }
  assert (E2 : same_producers (map_txns (set_knobs env) b) (load_prepared_txns now b1)).
  { unfold load_prepared_txns. by destruct (tf_prepared (b_files b1)). }
  exists (load_cluster_prepared_index (load_prepared_txns now b1)). split; [done|].
  assert (F3 : frame (load_prepared_txns now b1) (load_cluster_prepared_index (load_prepared_txns now b1))).
  { unfold load_cluster_prepared_index. by destruct (tf_cluster_prepared (b_files _)). }
  split; [by eapply inv_frame|]. split; [etrans; [exact E2|apply (fr_producers _ _ F3)]|].
  intros tid prp Hl. rewrite (fr_prepared _ _ F3).
  destruct (sd_all _ P tid prp Hl) as (fs & s & Hf & Hs & <- & Hsame & Hat). unfold load_prepared_txns. rewrite EF, Hf.
  exists (restore_prepared now s). split.
  - apply (foldl_insert_lookup st_transactional_id (restore_prepared now) fs); [by apply (sd_nodup _ P)|].
    left. by exists s.
  - split; [exact Hsame|]. cbn. destruct (Z.ltb_spec 0 (st_prepared_at_ms s)); [left|by right].
    destruct Hat; [done|lia].
Qed.

Lemma knobs_steady k b : steady b (map_txns (set_knobs k) b).
Proof.
  intros (T & S & P). split; [|intros pid p Hp; by exists p]. split; [by destruct T|]. split; [done|].
  by apply (stored_same b).
Qed.

Lemma restart_steady env topics now b : steady b (restart env topics now b).
Proof.
  intros I. destruct (restart_spec env topics now b I) as (b3 & -> & I3 & [E _] & _).
  destruct (expire_steady now b3 I3) as [I4 K4]. destruct (knobs_steady (knobs (b_txns b)) _ I4) as [I5 K5].
  split; [done|]. transitivity b3; [|by etrans]. intros pid p Hp. exists p. by rewrite E.
Qed.

End steps.

(** ** The life of a producer id *)

Section life.
Context {L : Type} `{LogStoreLaws L} (root : path).
Implicit Types (b : Broker L).

(** The id that a step hands out, unless it only resumes a prepared
    transaction. *)
Definition hands_out (c : effect) : option Z :=
  match c with
  | Allots r => if (ir_error_code r =? 0) && (ir_ongoing_txn_producer_id r =? -1)
                then Some (ir_producer_id r) else None
  | _ => None
  end.

(** What a step does to the producers: it keeps them, but for the epoch of the
    one it hands out. *)
Record producers_step (c : effect) b b' : Prop := {
  st_inv : producers_inv b';
  st_kept : ∀ pid p, producer_state (b_txns b) !! pid = Some p →
    ∃ p', producer_state (b_txns b') !! pid = Some p' ∧ pe_transactional_id p' = pe_transactional_id p ∧
      pe_epoch p' = if bool_decide (hands_out c = Some pid) then next_epoch (pe_epoch p) else pe_epoch p;
}.

Lemma steady_step c b b' : hands_out c = None → producers_inv b → steady b b' → producers_step c b b'.
Proof.
  intros Hc I S. destruct (S I) as [I' K]. split; [done|]. intros pid p Hp.
  destruct (K pid p Hp) as (p' & Hp' & E1 & E2). exists p'. by rewrite Hc.
Qed.

Lemma init_step tid r b b' : init_effect tid r b b' → producers_step (Allots r) b b'.
Proof.
  intros [I Ho Ha He]. split; [done|]. intros pid p Hp. unfold hands_out.
  destruct (decide (ir_error_code r = 0)) as [E0|E0].
  2: { rewrite (proj2 (Z.eqb_neq _ _) E0). destruct (Ho pid p Hp) as (p' & Hp' & []); [by left|]. by exists p'. }
  rewrite E0. cbn [Z.eqb andb]. destruct (decide (pid = ir_producer_id r)) as [->|Hne].
  2: { destruct (Ho pid p Hp) as (p' & Hp' & []); [by right|]. exists p'. split; [done|]. split; [done|].
       rewrite bool_decide_false; [done|]. case_match; [|done]. intros [= <-]. done. }
  destruct (Ha E0) as (p' & Hp' & Ee & Et), (He p E0 Hp) as (Et' & _ & Hep). exists p'. split; [done|].
  split; [congruence|]. rewrite Ee. destruct Hep as [[Hep ->]|[Hep Hon]].
  - cbn. by rewrite bool_decide_true.
  - by rewrite (proj2 (Z.eqb_neq _ _) Hon), bool_decide_false.
Qed.

(** The broker has not run out of producer ids. *)
Definition ids_left (c : effect) b : Prop :=
  match c with Allots _ => next_producer_id (b_txns b) < u64_max | _ => True end.

Lemma txn_step_producers c b b' : txn_step root c b b' → ids_left c b → producers_inv b → producers_step c b b'.
Proof.
  intros Hs Hr I. destruct Hs as [? ? ? ? ? ? ? ? ? E| | | | | | | | | | | | | | | | ].
  - by eapply init_step, init_ok.
  - by apply steady_step; [| |apply begin_steady].
  - by apply steady_step; [| |apply ensure_steady].
  - by apply steady_step; [| |apply added_steady].
  - by apply steady_step; [| |apply offsets_steady].
  - by apply steady_step; [| |apply check_steady].
  - destruct (produce_with_acks t p ms acks now b) as [r b'] eqn:E.
    apply steady_step; [done..|]. by eapply same_tables_steady, produce_with_acks_tables.
  - by apply steady_step; [| |apply frame_steady, flush_kept].
  - by apply steady_step; [| |apply record_steady].
  - by apply steady_step; [| |apply record_idempotent_steady].
  - by apply steady_step; [destruct c| |apply end_steady].
  - by apply steady_step; [| |apply frame_steady, write_markers_frame].
  - by apply steady_step; [| |apply expire_steady].
  - by apply steady_step; [| |apply fetch_steady].
  - by apply steady_step; [| |apply frame_steady, delete_frame].
  - by apply steady_step; [| |apply knobs_steady].
  - by apply steady_step; [| |apply restart_steady].
Qed.

(** A run in which the id is handed out [n] times. *)
Inductive life (pid : Z) : nat → Broker L → Broker L → Prop :=
  | life_nil b : life pid 0 b b
  | life_step c n b1 b2 b3 : txn_step root c b1 b2 → ids_left c b1 → life pid n b2 b3 →
      life pid (if bool_decide (hands_out c = Some pid) then S n else n) b1 b3.

Lemma life_epoch pid n b b' p :
  life pid n b b' → producers_inv b → producer_state (b_txns b) !! pid = Some p →
  producers_inv b' ∧ ∃ p', producer_state (b_txns b') !! pid = Some p' ∧
    pe_transactional_id p' = pe_transactional_id p ∧ pe_epoch p' = Nat.iter n next_epoch (pe_epoch p).
Proof.
  intros Hl. revert p. induction Hl as [b|c n b1 b2 b3 Hs Hr _ IH]; intros p I Hp; [by eauto|].
  destruct (txn_step_producers _ _ _ Hs Hr I) as [I2 K2]. destruct (K2 pid p Hp) as (p2 & Hp2 & Et & Ee).
  destruct (IH p2 I2 Hp2) as (I3 & p3 & Hp3 & Et3 & Ee3). split; [done|]. exists p3. split; [done|].
  split; [congruence|]. rewrite Ee3, Ee. case_bool_decide; [|done]. by rewrite Nat.iter_succ_r.
Qed.

(** The epochs go round 65535 of the 65536 values. *)
Lemma iter_next_epoch n : ∀ e, 0 ≤ e < 65536 →
  Nat.iter n next_epoch e = if (n =? 0)%nat then e else (e + Z.of_nat n - 1) mod 65535 + 1.
Proof.
  induction n as [|n IH]; intros e He; [done|]. cbn [Nat.eqb]. rewrite Nat.iter_succ, IH by done.
  destruct n as [|n]; cbn [Nat.eqb].
  - unfold next_epoch, u16_wrapping_add, as_u16. replace (e + Z.of_nat 1 - 1) with e by lia.
    destruct (decide (e = 65535)) as [->|]; [done|]. rewrite Z.mod_small by lia.
    rewrite (proj2 (Z.eqb_neq _ _)) by lia. rewrite Z.mod_small by lia. done.
  - set (x := e + Z.of_nat (S n) - 1). replace (e + Z.of_nat (S (S n)) - 1) with (x + 1) by (unfold x; lia).
    pose proof (Z.mod_pos_bound x 65535 ltac:(done)) as Hb. unfold next_epoch, u16_wrapping_add, as_u16.
    rewrite <- (Zplus_mod_idemp_l x 1 65535). destruct (decide (x mod 65535 = 65534)) as [->|]; [done|].
    rewrite (Z.mod_small (_ + 1 + 1)) by lia. rewrite (proj2 (Z.eqb_neq _ _)) by lia.
    rewrite (Z.mod_small (_ + 1) 65535) by lia. done.
Qed.

Lemma epoch_differs n e : 0 ≤ e < 65536 → 0 < Z.of_nat n < 65535 → Nat.iter n next_epoch e ≠ e.
Proof.
  intros He Hn. rewrite iter_next_epoch by done. destruct n as [|n]; [lia|]. cbn [Nat.eqb]. intros E.
  pose proof (Z.mod_pos_bound (e + Z.of_nat (S n) - 1) 65535 ltac:(done)) as B.
  pose proof (Z.div_mod (e + Z.of_nat (S n) - 1) 65535 ltac:(done)) as D.
  set (q := (e + Z.of_nat (S n) - 1) / 65535) in *. set (r := (e + Z.of_nat (S n) - 1) mod 65535) in *. lia.
Qed.

(** A broker that has never run. *)
Definition pristine b : Prop :=
  next_producer_id (b_txns b) = 1 ∧ producer_state (b_txns b) = ∅ ∧ transactional_ids (b_txns b) = ∅ ∧
  open_txns (b_txns b) = ∅ ∧ prepared_txns (b_txns b) = ∅ ∧ aborted_txns (b_txns b) = ∅ ∧
  b_files b = mkTxnFiles None None None None.

Lemma pristine_inv b : pristine b → producers_inv b.
Proof.
  intros (E1 & E2 & E3 & E4 & E5 & _ & E7). split; [|split].
  - split; rewrite ?E1, ?E2, ?E3, ?E4, ?E5; [split|apply map_Forall_empty..].
    + unfold u64_max. lia.
    + apply map_Forall_empty.
    + intros tid pid. rewrite lookup_empty. split; [done|]. intros (_ & p & Hp & _). by rewrite lookup_empty in Hp.
  - intros i. rewrite E1, E2, E3, E7. unfold load_producer_maps. cbn.
    pose proof (@reorder_perm i (string * StoredProducer) []) as P. rewrite map_to_list_empty.
    symmetry in P. by rewrite (Permutation_nil P).
  - split; rewrite E7, ?E5; [done..|]. intros tid prp. by rewrite lookup_empty.
Qed.

Lemma pristine_synced b : pristine b → synced b.
Proof.
  intros (E1 & E2 & E3 & E4 & E5 & E6 & E7). split; [|split; rewrite ?E5, ?E7; [apply map_Forall_empty|done|]].
  - intros t p o [(ms & m & Hl & _)|(pid & txn & Hl & _)]; [by rewrite E6 in Hl|by rewrite E4 in Hl].
  - intros tid prp. by rewrite lookup_empty.
Qed.

End life.

(** ** Fencing *)

Section zombies.
Context {L : Type} `{LogStoreLaws L} (root : path).

(** C10: Zombie fencing. Once the id of a transactional producer has been handed
    out again (and fewer than 65535 times), the process that held it before is
    refused whatever it tries (begin, add, produce, send offsets, end), in
    every later state, restarts included; and a refusal changes nothing but to
    expire what has timed out. *)
Theorem zombie_fenced `{IterOrder} pid n (b b' : Broker L) p :
  producers_inv b → producer_state (b_txns b) !! pid = Some p →
  life root pid n b b' → 0 < Z.of_nat n < 65535 →
  ∀ now, let stale := pe_epoch p in let b1 := expire_timed_out_txns now b' in
  begin_txn pid stale now b' = (InvalidProducerEpoch, b1) ∧
  ensure_txn_open pid stale now b' = (InvalidProducerEpoch, b1) ∧
  (∀ os, buffer_txn_offsets pid stale os now b' = (InvalidProducerEpoch, b1)) ∧
  (∀ t part seq ms, as_u32 (zlen ms) ≠ 0 →
     buffer_txn_produce pid stale t part seq ms now b' = (Reject InvalidProducerEpoch, b1)) ∧
  (∀ c os, end_txn root pid stale c os now b' = (InvalidProducerEpoch, [], b1)).
Proof.
  intros I Hp Hl Hn now stale b1.
  destruct (life_epoch root pid n b b' p Hl I Hp) as (I' & p' & Hp' & _ & Ee).
  pose proof (epoch_differs n (pe_epoch p) (pr_epoch _ _ _ (pw_known _ _ _ (to_wf _ (proj1 I)) pid p Hp)) Hn) as Hne.
  rewrite <- Ee in Hne. assert (Hp1 : producer_state (b_txns b1) !! pid = Some p').
  { destruct (expire_producers now b') as [E _]. unfold b1. by rewrite E. }
  assert (Hc : check_producer pid stale b1 = inl InvalidProducerEpoch).
  { unfold check_producer. rewrite Hp1. unfold stale. by rewrite (proj2 (Z.eqb_neq _ _) Hne). }
  unfold begin_txn, ensure_txn_open, buffer_txn_offsets, buffer_txn_produce, txn_produce_check, end_txn. fold b1.
  rewrite Hc, Hp1. unfold stale. rewrite (proj2 (Z.eqb_neq _ _) Hne). split_and!; try done.
  intros t part seq ms Hms. by rewrite (proj2 (Z.eqb_neq _ _) Hms).
Qed.

(** Neither the time-outs of the environment nor those in force abort the
    prepared transaction. *)
Definition outlives (env : Knobs) (now : Z) (b : Broker L) (prp : PreparedTxn) : Prop :=
  ∀ k, k = env ∨ k = knobs (b_txns b) →
  let T := effective_prepared_txn_timeout_ms (map_txns (set_knobs k) b) in
  T = 0 ∨ 0 < as_i64 T ∧ prepared_expired T now prp = false.

(** C31: Two-phase commit across a crash. A prepared transaction that has not
    timed out is there again after a restart of the broker from its files, with
    its ranges, its offsets and its decision; its producer, still at the same
    epoch, can complete it with that decision and no other. *)
Theorem prepared_survives_restart `{IterOrder} tid prp env topics now (b : Broker L) :
  producers_inv b → prepared_txns (b_txns b) !! tid = Some prp → outlives env now b prp →
  let b' := restart env topics now b in
  (∃ prp', prepared_txns (b_txns b') !! tid = Some prp' ∧ same_txn prp' prp) ∧
  (∀ os, (end_txn root (pt_producer_id prp) (pt_producer_epoch prp) (negb (pt_commit prp)) os now b').1 =
         (InvalidTxnState, [])) ∧
  (∀ os, ∃ b'', end_txn root (pt_producer_id prp) (pt_producer_epoch prp) (pt_commit prp) os now b' =
     (0, if pt_commit prp
         then map (λ w, mkCommitResult (wr_topic w) (wr_partition w) (wr_first_offset w) (wr_count w))
                (ot_written (pt_open prp))
         else [], b'')).
Proof.
  intros I Hl Hex b'. destruct (restart_spec env topics now b I) as (b3 & E3 & I3 & SP & Hpr).
  destruct (Hpr tid prp Hl) as (prp' & Hl' & Hs & Hat). unfold b'. rewrite E3.
  assert (Hex' : ∀ k, k = env ∨ k = knobs (b_txns b) →
    let T := effective_prepared_txn_timeout_ms (map_txns (set_knobs k) b) in
    T = 0 ∨ prepared_expired T now prp' = false).
  { intros k Hk. specialize (Hex k Hk). cbn zeta in *. set (T := effective_prepared_txn_timeout_ms _) in *.
    clearbody T. destruct Hex as [?|[HT Hx]]; [by left|right].
    unfold prepared_expired in *. destruct Hat as [->| ->]; [done|]. apply Z.leb_gt. unfold i64_saturating_sub.
    rewrite Z.sub_diag. unfold i64_max, i64_min. lia. }
  assert (Hl1 : prepared_txns (b_txns (expire_timed_out_txns now b3)) !! tid = Some prp').
  { apply expire_prepared_left. split; [done|]. rewrite (effective_prepared_same _ b3 SP). by apply Hex'; left. }
  set (b1 := map_txns (set_knobs (knobs (b_txns b))) (expire_timed_out_txns now b3)).
  assert (Hl2 : prepared_txns (b_txns (expire_timed_out_txns now b1)) !! tid = Some prp').
  { apply expire_prepared_left. split; [done|]. exact (Hex' _ (or_intror eq_refl)). }
  destruct (knobs_steady (knobs (b_txns b)) _ (expire_inv now b3 I3)) as [I1 _]. fold b1 in I1.
  destruct (to_prepared _ (proj1 (expire_inv now b1 I1)) tid prp' Hl2) as (_ & Hne & _ & p & Hp & Ht & He).
  destruct Hs as (S1 & S2 & S3 & S4 & S5 & S6 & S7 & S8). rewrite S2 in Hp. rewrite S3 in He.
  split; [by exists prp'|]. unfold end_txn. set (b2 := expire_timed_out_txns now b1) in *. rewrite Hp, He, Z.eqb_refl.
  cbn [negb]. rewrite Ht, (proj2 (String.eqb_neq _ _) Hne), Hl2. unfold end_prepared.
  rewrite S2, S3, S4, !Z.eqb_refl. cbn [negb]. split.
  - intros os. by destruct (pt_commit prp).
  - intros os. rewrite eqb_reflx. cbn [negb]. unfold finalize_txn. destruct (pt_commit prp); cbn [negb].
    + eexists. by rewrite S6.
    + by eexists.
Qed.

End zombies.

(** * Transactions: theorems

    What a reader of committed data gets, fencing of stale producers, the
    time-outs, offsets committed with a transaction, and the windows in which
    an uncommitted record can be read. *)

#[local] Open Scope Z_scope.

Section readers.
Context {L : Type} `{LogStoreLaws L} `{IterOrder}.
Implicit Types (b : Broker L).

Lemma withheld_open_unstable b q t p o :
  open_at (b_txns b) q t p o ∨ prepared_at (b_txns b) q t p o →
  ∃ r, r ∈ unstable_ranges b ∧ range_covers t p o r = true.
Proof.
  unfold unstable_ranges. intros [(txn & Hl & r & Hr & Hc)|(tid & prp & Hl & _ & r & Hr & Hc)];
    exists r; (split; [|done]); apply elem_of_app; [left|right]; rewrite list_elem_of_In, in_flat_map.
  - exists (q, txn). by rewrite <- !list_elem_of_In, elem_of_reorder, elem_of_map_to_list.
  - exists (tid, prp). by rewrite <- !list_elem_of_In, elem_of_reorder, elem_of_map_to_list.
Qed.

Lemma withheld_hidden pid t p o b :
  withheld (b_txns b) pid t p o →
  existsb (range_covers t p o) (unstable_ranges b) = true ∨ is_aborted_offset t p o b = true.
Proof.
  intros [(ms & m & Hl & Hm & Hc)|W].
  - right. unfold is_aborted_offset. rewrite Hl. apply existsb_exists. exists m. by rewrite <- list_elem_of_In.
  - left. destruct (withheld_open_unstable b pid t p o W) as (r & Hr & Hc). apply existsb_exists.
    exists r. by rewrite <- list_elem_of_In.
Qed.

(** The last stable offset is at or below every unstable range. *)
Lemma lso_fold_le t p rs : ∀ lso r, r ∈ rs → wr_topic r = t → wr_partition r = p →
  foldl (λ lso r, if String.eqb (wr_topic r) t && (wr_partition r =? p)
                  then Z.min lso (wr_first_offset r) else lso) lso rs ≤ wr_first_offset r.
Proof.
  assert (Hle : ∀ rs lso, foldl (λ lso r, if String.eqb (wr_topic r) t && (wr_partition r =? p)
                  then Z.min lso (wr_first_offset r) else lso) lso rs ≤ lso).
  { clear. induction rs as [|r rs IH]; intros lso; cbn [foldl]; [lia|].
    etrans; [apply IH|]. destruct (_ && _); lia. }
  induction rs as [|r0 rs IH]; intros lso r Hr Ht Hp; cbn [foldl]; [by apply not_elem_of_nil in Hr|].
  apply elem_of_cons in Hr as [->|Hr]; [|by apply IH].
  etrans; [apply Hle|]. rewrite Ht, String.eqb_refl, Hp, Z.eqb_refl. cbn. lia.
Qed.

Lemma retain_elem (f : LogRecord → Broker L → bool * Broker L) (P : Broker L → Prop) rs : ∀ b,
  P b → (∀ r b, P b → P (f r b).2) →
  ∀ r, r ∈ (retain_st f rs b).1 → r ∈ rs ∧ ∃ b', P b' ∧ (f r b').1 = true.
Proof.
  induction rs as [|r0 rs IH]; intros b Hb Hf r Hr; cbn [retain_st] in Hr; [by apply not_elem_of_nil in Hr|].
  pose proof (Hf r0 b Hb) as Hb1. destruct (f r0 b) as [k b1] eqn:E1. specialize (IH b1 Hb1 Hf r).
  destruct (retain_st f rs b1) as [out b2]. cbn [fst] in *.
  destruct k; [apply elem_of_cons in Hr as [->|Hr]|].
  - split; [left|]. exists b. by rewrite E1.
  - destruct (IH Hr) as [? ?]. split; [by right|done].
  - destruct (IH Hr) as [? ?]. split; [by right|done].
Qed.

Lemma fetch_hides pid t p o from mm now b rs b' :
  withheld (b_txns b) pid t p o → fetch t p from mm now b = (Ok rs, b') →
  Forall (λ r, rec_offset r ≠ o) rs.
Proof.
  intros W. unfold fetch, fetch_up_to. destruct (get_partition t p b) as [part|e]; [|done].
  destruct (ls_read _ _ _) as [rs0|e]; [|done].
  match goal with |- context [retain_st ?f ?l ?x] =>
    pose proof (retain_elem f (λ b, withheld (b_txns b) pid t p o) l x W) as Hr;
    destruct (retain_st f l x) as [out b1] end.
  intros [= <- <-]. rewrite Forall_forall. intros r Hin Ho.
  destruct (Hr ltac:(intros r1 b2 W2; cbn; destruct (is_txn_control_record r1); [exact W2|];
    by apply (ss_withheld _ _ _ (expire_safe None now b2))) r Hin) as (_ & b2 & W2 & Hk).
  cbn in Hk. destruct (is_txn_control_record r); [done|]. cbn in Hk. rewrite Ho in Hk.
  pose proof (ss_withheld _ _ _ (expire_safe None now b2) pid t p o ltac:(done) W2) as W3.
  destruct (withheld_hidden _ _ _ _ _ W3) as [E|E]; rewrite E in Hk; [done|].
  by rewrite andb_false_r in Hk.
Qed.

Lemma fetch_committed_hides pid t p o from mm now b rs b' :
  withheld (b_txns b) pid t p o → fetch_kafka t p from mm true now b = (Ok rs, b') →
  Forall (λ r, rec_offset r = o → is_txn_control_record r = true) rs.
Proof.
  intros W. unfold fetch_kafka, fetch_up_to. destruct (get_partition t p b) as [part|e]; [|done].
  destruct (ls_read _ _ _) as [rs0|e]; [|done]. unfold last_stable_offset. intros [= <- <-].
  pose proof (ss_withheld _ _ _ (expire_safe None now b) pid t p o ltac:(done) W) as W1.
  set (b1 := expire_timed_out_txns now b) in *. rewrite Forall_forall.
  intros r [Hk _]%list_elem_of_filter Ho. destruct (is_txn_control_record r); [done|]. rewrite Ho in Hk.
  apply andb_prop in Hk as [Hlt%Z.ltb_lt Hna]. exfalso.
  destruct (withheld_hidden _ _ _ _ _ W1) as [(r' & Hin & Hc)%existsb_exists|E]; [|by rewrite E in Hna].
  apply range_covers_spec in Hc as (Ht & Hp & Hr). apply list_elem_of_In in Hin.
  pose proof (lso_fold_le t p (unstable_ranges b1)
    (match high_watermark t p b1 with Ok h => h | Err _ => 0 end) r' Hin Ht Hp). lia.
Qed.

(** Nothing below its start is read from a log. *)
Lemma fetch_below t p o from mm cap iso now b rs b' :
  below b t p o → readable b t p → 0 ≤ mm → fetch_up_to t p from mm cap iso now b = (Ok rs, b') →
  Forall (λ r, rec_offset r ≠ o) rs.
Proof.
  intros (s & Hs & Ho) Hr Hmm. unfold fetch_up_to.
  destruct (get_partition t p b) as [part|e] eqn:Ep; [|done]. destruct (Hr part Ep) as (recs & R).
  rewrite (ls_read_ok _ recs _ _ R Hmm). set (rs0 := take _ _).
  assert (Hst : s = ls_start (p_log part)).
  { apply get_partition_ok in Ep as (top & Ht & Hp). unfold start_at, layout in Hs.
    rewrite lookup_fmap, Ht in Hs. cbn in Hs. rewrite lookup_fmap, Hp in Hs. by injection Hs. }
  assert (H0' : ∀ r, r ∈ rs0 → rec_offset r ≠ o).
  { intros r Hin. destruct (ls_offsets _ _ R) as [_ HF]. rewrite Forall_forall in HF.
    apply subseteq_take, list_elem_of_filter in Hin as [_ Hin]. apply HF in Hin. lia. }
  set (rs1 := if cap then _ else rs0).
  assert (H1' : ∀ r, r ∈ rs1 → rec_offset r ≠ o).
  { intros r. unfold rs1. destruct cap; [|apply H0']. intros [_ Hin]%list_elem_of_filter. by apply H0'. }
  rewrite Forall_forall. destruct iso.
  - match goal with |- context [retain_st ?f ?l ?x] =>
      pose proof (retain_elem f (λ _, True) l x I) as Hre; destruct (retain_st f l x) as [out b1] end.
    intros [= <- <-] r Hin. apply H1'. by destruct (Hre ltac:(done) r Hin).
  - destruct (last_stable_offset t p now b) as [lso b1]. intros [= <- <-] r [_ Hin]%list_elem_of_filter.
    by apply H1'.
  - intros [= <- <-]. apply H1'.
Qed.

End readers.

(** ** Isolation *)

Section isolation.
Context {L : Type} `{LogStoreLaws L} (root : path).


End isolation.
