(* ===== verification/ProduceProps.v ===== *)
(** * Produce and fetch: properties

    Produce appends the batch to the log of the partition and moves the
    watermark over it; the same request sent again changes nothing; fetch gives
    exactly the records that are committed and visible. *)

From Stdlib Require Import Strings.String.
From S2P Require Import Prelude Bytes Core Record SparseIndex Segment SegmentProps GroupCommit PartitionLog PartitionLogProps BrokerLog Messages OffsetStore OffsetStoreProps Group Broker KafkaRecords Txn TxnRecovery TxnProps TxnSafety TxnTrace TxnProducers TxnFencing.
#[local] Open Scope Z_scope.

Lemma zlen_nonempty {A} (l : list A) : l ≠ [] → zlen l ≠ 0.
Proof. destruct l as [|x l]; [done|]. rewrite zlen_cons. pose proof (zlen_nonneg l). lia. Qed.

Section produce.
Context {L : Type} `{LogStoreLaws L}.
Implicit Types (b : Broker L).

(** A partition of a single-node broker with these records. *)
Record serves b (t : string) (p : Z) (part : Partition L) (recs : list LogRecord) : Prop := {
  sv_single : b_cluster b = None;
  sv_part : get_partition t p b = Ok part;
  sv_rep : ls_rep (p_log part) recs;
  sv_hwm : p_committed_hwm part = leo part;
}.

(** A flush keeps the records. *)
Lemma flush_serves b t p part recs now n :
  serves b t p part recs → 0 ≤ n → ls_room (1 + n) (p_log part) →
  ∃ part', flush t p now b = (Ok tt, put_partition t p part' b) ∧
    serves (put_partition t p part' b) t p part' recs ∧ leo part' = leo part ∧ ls_room n (p_log part').
Proof.
  intros [Hc Hp HR Hh] Hn Hroom. destruct (flush_part b t p part recs now n Hp HR Hn Hroom) as (l' & E & R' & Ee & Hr').
  exists (set_log l' part). split; [done|]. split; [|done]. split; [done|by eapply get_put|done|].
  unfold leo in *. cbn. by rewrite Hh, Ee.
Qed.

(** Produce appends the batch, answers its records and moves the watermark. *)
Lemma produce_serves b t p part recs ms acks now n :
  serves b t p part recs → ms ≠ [] → batch_ok ms now → 0 ≤ n → ls_room (zlen ms + 2 + n) (p_log part) →
  ∃ part' b', produce_with_acks t p ms acks now b = (Ok (batch_records (leo part) now ms, 0), b') ∧
    serves b' t p part' (recs ++ batch_records (leo part) now ms) ∧ leo part' = leo part + zlen ms ∧
    ls_room n (p_log part') ∧ same_tables b b' ∧ b_group_commit b' = b_group_commit b.
Proof.
  intros [Hc Hp HR Hh] Hne Hms Hn Hroom. pose proof (zlen_nonneg ms) as Hz.
  assert (Hz0 : (zlen ms =? 0) = false) by (by apply Z.eqb_neq, zlen_nonempty).
  destruct (produce_with_acks t p ms acks now b) as [res b'] eqn:Eb.
  pose proof (produce_with_acks_tables _ _ _ _ _ _ _ _ Eb) as ST. revert Eb.
  unfold produce_with_acks, produce_inner. rewrite Hz0, Hp, Hc, andb_false_r. cbn [bool_decide andb].
  destruct (append_part b part recs ms now (1 + n) HR Hms) as (l' & -> & R' & Ee & Hr');
    [eapply ls_room_mono; [exact Hroom|lia]|lia|]. rewrite bool_decide_false by by intros [].
  cbn [andb]. set (b1 := if 1 <? zlen ms then set_coalesced _ b else b).
  assert (Hb1 : get_partition t p b1 = Ok part ∧ b_cluster b1 = None ∧ b_group_commit b1 = b_group_commit b).
  { unfold b1. by destruct (1 <? zlen ms). }
  destruct Hb1 as (Hp1 & Hc1 & Hg1). set (part1 := advance_hwm b1 acks (set_log l' part)).
  assert (Hpart1 : part1 = set_hwm (leo (set_log l' part)) (set_log l' part)).
  { unfold part1, advance_hwm. rewrite Hc1. cbn [bool_decide orb]. unfold catch_up_hwm. cbn [p_committed_hwm set_log].
    rewrite (proj2 (Z.ltb_lt _ _)); [done|]. rewrite Hh. unfold leo in *. cbn. apply zlen_nonempty in Hne. lia. }
  assert (SV : serves (put_partition t p part1 b1) t p part1 (recs ++ batch_records (leo part) now ms)).
  { split; [by cbn|by eapply get_put|by rewrite Hpart1|]. by rewrite Hpart1. }
  assert (Hl1 : leo part1 = leo part + zlen ms) by (rewrite Hpart1; exact Ee).
  assert (Hr1 : ls_room (1 + n) (p_log part1)) by (by rewrite Hpart1).
  assert (Hnb : bool_decide (is_Some (b_cluster (put_partition t p part1 b1))) = false).
  { apply bool_decide_false. cbn. rewrite Hc1. by intros []. }
  rewrite Hnb, andb_false_r. cbn [andb].
  destruct (_ && _ && _); intros Eb.
  - destruct (flush_serves _ _ _ _ _ now n SV Hn Hr1) as (part2 & E2 & SV2 & Hl2 & Hr2). rewrite E2 in Eb.
    injection Eb as <- <-. rewrite put_put in *. exists part2. eexists. split; [done|].
    split; [done|]. split; [lia|]. split; [done|]. split; [done|]. by rewrite <- Hg1.
  - injection Eb as <- <-. exists part1. eexists. split; [done|].
    split; [done|]. split; [done|]. split; [eapply ls_room_mono; [exact Hr1|lia]|]. split; [done|]. by rewrite <- Hg1.
Qed.

(** ** Retries *)

Context `{IterOrder}.

(** An idempotent producer whose last batch on the partition was this one. *)
Definition producer_at b (pid epoch : Z) (t : string) (p : Z) (last : option IdempotentBatchState) : Prop :=
  ∃ q, producer_state (b_txns b) !! pid = Some q ∧ pe_epoch q = epoch ∧ pe_transactional q = false ∧
    pe_partitions q !! (t, p) = last.

(** A new batch is appended and entered as the last one. *)
Lemma handle_new b t p part recs acks pid epoch seq ms now last n :
  serves b t p part recs → producer_at b pid epoch t p last → pid ≠ 0 → 0 ≤ seq →
  ms ≠ [] → zlen ms ≤ 2147483647 → batch_ok ms now → check_sequence last seq (zlen ms) = None →
  0 ≤ n → ls_room (zlen ms + 3 + n) (p_log part) →
  ∃ part' b', handle_produce t p acks pid epoch seq ms now b =
      (Ok (mkProduceResponse (leo part) (zlen ms) 0), b') ∧
    serves b' t p part' (recs ++ batch_records (leo part) now ms) ∧ leo part' = leo part + zlen ms ∧
    ls_room n (p_log part') ∧ producer_at b' pid epoch t p (Some (mkBatchState seq (zlen ms) (leo part))).
Proof.
  intros SV (q & Hq & He & Ht & Hl) Hpid Hseq Hne Hlen Hms Hchk Hn Hroom. pose proof (zlen_nonneg ms) as Hz.
  unfold handle_produce. rewrite bool_decide_false by done.
  assert (Hu : as_u32 (zlen ms) = zlen ms) by (apply Z.mod_small; lia).
  assert (Hi : is_transactional_producer pid b = false) by (unfold is_transactional_producer; by rewrite Hq).
  rewrite Hi, andb_false_r, Hu.
  assert (Hck : check_idempotent_produce pid epoch t p seq (zlen ms) b = Accept 0).
  { unfold check_idempotent_produce. rewrite (proj2 (Z.eqb_neq _ _) Hpid), (proj2 (Z.ltb_ge _ _) Hseq). cbn [orb].
    rewrite (proj2 (Z.eqb_neq (zlen ms) 0)) by by apply zlen_nonempty.
    by rewrite Hq, He, Z.eqb_refl, Ht, Hl, Hchk. }
  rewrite Hck.
  destruct (produce_serves b t p part recs ms acks now (1 + n) SV Hne Hms ltac:(lia)) as (part1 & b1 & -> & SV1 & Hl1 & Hr1 & ST & Hg).
  { eapply ls_room_mono; [exact Hroom|lia]. }
  change ((0 =? NotLeaderForPartition) || (0 =? NotEnoughReplicas)) with false. cbn [fst snd].
  assert (Hf : first_offset (batch_records (leo part) now ms) = leo part) by (by destruct ms).
  rewrite Hf, zlen_batch_records, Hu. rewrite Hg.
  assert (Hfl : ∃ part2 b2, (if negb (acks =? 0) && negb (b_group_commit b) then flush t p now b1 else (Ok tt, b1)) = (Ok tt, b2) ∧
    serves b2 t p part2 (recs ++ batch_records (leo part) now ms) ∧ leo part2 = leo part + zlen ms ∧
    ls_room n (p_log part2) ∧ same_tables b b2).
  { destruct (_ && _).
    - destruct (flush_serves _ _ _ _ _ now n SV1 Hn Hr1) as (part2 & E2 & SV2 & Hl2 & Hr2). exists part2. eexists.
      split; [exact E2|]. split; [done|]. split; [lia|]. split; [done|]. etrans; [exact ST|]. by eapply flush_tables.
    - exists part1, b1. split; [done|]. split; [done|]. split; [done|]. split; [eapply ls_room_mono; [exact Hr1|lia]|done]. }
  destruct Hfl as (part2 & b2 & -> & SV2 & Hl2 & Hr2 & [ET _]). cbn [Z.eqb].
  exists part2. eexists. split; [done|]. unfold record_idempotent_produce.
  rewrite (proj2 (Z.eqb_neq _ _) Hpid), (proj2 (Z.ltb_ge _ _) Hseq), ET, Hq, He, Z.eqb_refl. cbn [orb negb].
  split; [by destruct SV2|]. split; [done|]. split; [done|].
  eexists. cbn. rewrite lookup_insert_eq. split; [done|]. cbn. by rewrite lookup_insert_eq.
Qed.

(** The last batch sent again is answered as before. *)
Lemma handle_again b t p acks pid epoch seq ms now base :
  producer_at b pid epoch t p (Some (mkBatchState seq (zlen ms) base)) → pid ≠ 0 → 0 ≤ seq →
  ms ≠ [] → zlen ms ≤ 2147483647 →
  handle_produce t p acks pid epoch seq ms now b = (Ok (mkProduceResponse base (zlen ms) 0), b).
Proof.
  intros (q & Hq & He & Ht & Hl) Hpid Hseq Hne Hlen. pose proof (zlen_nonneg ms) as Hz.
  unfold handle_produce. rewrite bool_decide_false by done.
  assert (Hu : as_u32 (zlen ms) = zlen ms) by (apply Z.mod_small; lia).
  assert (Hi : is_transactional_producer pid b = false) by (unfold is_transactional_producer; by rewrite Hq).
  rewrite Hi, andb_false_r, Hu. unfold check_idempotent_produce.
  rewrite (proj2 (Z.eqb_neq _ _) Hpid), (proj2 (Z.ltb_ge _ _) Hseq). cbn [orb].
  rewrite (proj2 (Z.eqb_neq (zlen ms) 0)) by by apply zlen_nonempty.
  rewrite Hq, He, Z.eqb_refl, Ht, Hl. cbn [negb check_sequence ib_base_sequence ib_count].
  by rewrite !Z.eqb_refl.
Qed.

(** A client sends a request again and again. *)
Fixpoint resend {A} (k : nat) (req : Broker L → A * Broker L) b : list A * Broker L :=
  match k with
  | O => ([], b)
  | S k => let '(r, b) := req b in let '(rs, b) := resend k req b in (r :: rs, b)
  end.

(** It sends its batches in order, numbered on from [seq], each once and then
    [k] times more, at the time [now]. *)
Fixpoint deliver (t : string) (p acks pid epoch seq : Z) (batches : list (list Message * nat * Z)) b
    : list (list (result ProduceResponse)) * Broker L :=
  match batches with
  | [] => ([], b)
  | (ms, k, now) :: batches =>
    let '(rs, b) := resend (S k) (handle_produce t p acks pid epoch seq ms now) b in
    let '(rss, b) := deliver t p acks pid epoch (seq + zlen ms) batches b in
    (rs :: rss, b)
  end.

(** The records of the batches, each once, and the answers. *)
Fixpoint delivered (base : Z) (batches : list (list Message * nat * Z)) : list LogRecord :=
  match batches with
  | [] => []
  | (ms, _, now) :: batches => batch_records base now ms ++ delivered (base + zlen ms) batches
  end.

Fixpoint answered (base : Z) (batches : list (list Message * nat * Z)) : list (list (result ProduceResponse)) :=
  match batches with
  | [] => []
  | (ms, k, _) :: batches =>
    replicate (S k) (Ok (mkProduceResponse base (zlen ms) 0)) :: answered (base + zlen ms) batches
  end.

(** The number that the next batch has to have. *)
Definition follows (last : option IdempotentBatchState) (seq : Z) : Prop :=
  match last with
  | None => True
  | Some s => 0 < ib_count s ∧ 0 ≤ ib_base_sequence s ∧ seq = ib_base_sequence s + ib_count s
  end.

Fixpoint budget (batches : list (list Message * nat * Z)) : Z :=
  match batches with [] => 0 | (ms, _, _) :: batches => zlen ms + 3 + budget batches end.

Fixpoint total (batches : list (list Message * nat * Z)) : Z :=
  match batches with [] => 0 | (ms, _, _) :: batches => zlen ms + total batches end.

Lemma total_nonneg batches : 0 ≤ total batches ∧ 0 ≤ budget batches.
Proof. induction batches as [|[[ms k] now] l IH]; cbn; [lia|]. pose proof (zlen_nonneg ms). lia. Qed.

Lemma follows_accepts last seq n :
  follows last seq → seq ≤ 2147483647 → check_sequence last seq n = None.
Proof.
  destruct last as [[s c o]|]; [|done]. cbn. intros (Hc & Hs & ->) Hmax.
  rewrite (proj2 (Z.eqb_neq (s + c) s)) by lia. cbn [andb]. unfold i32_saturating_add, as_i32, signed.
  rewrite Z.mod_small by lia. rewrite (proj2 (Z.ltb_lt c _)) by lia.
  rewrite Z.max_r, Z.min_r by lia. by rewrite Z.eqb_refl.
Qed.

Lemma resend_answered b t p acks pid epoch seq ms now base k :
  producer_at b pid epoch t p (Some (mkBatchState seq (zlen ms) base)) → pid ≠ 0 → 0 ≤ seq →
  ms ≠ [] → zlen ms ≤ 2147483647 →
  resend k (handle_produce t p acks pid epoch seq ms now) b =
  (replicate k (Ok (mkProduceResponse base (zlen ms) 0)), b).
Proof.
  intros. induction k as [|k IH]; [done|]. cbn [resend]. rewrite (handle_again b t p acks pid epoch seq ms now base) by done.
  by rewrite IH.
Qed.

(** C11: Exactly once. An idempotent producer that numbers its batches and sends
    each as often as it likes gets every batch into the log once, whole and in
    order, behind what was there; and every answer for a batch, first or
    repeated, is the same: the offset of its first record. *)
Theorem exactly_once b t p part recs acks pid epoch seq last batches :
  serves b t p part recs → producer_at b pid epoch t p last → pid ≠ 0 → 0 ≤ seq → follows last seq →
  Forall (λ '(ms, _, now), ms ≠ [] ∧ batch_ok ms now) batches →
  seq + total batches ≤ 2147483647 → ls_room (budget batches) (p_log part) →
  ∃ part' b', deliver t p acks pid epoch seq batches b = (answered (leo part) batches, b') ∧
    serves b' t p part' (recs ++ delivered (leo part) batches) ∧ leo part' = leo part + total batches.
Proof.
  revert b part recs seq last. induction batches as [|[[ms k] now] batches IH];
    intros b part recs seq last SV Hq Hpid Hseq Hfol HF Hmax Hroom.
  { exists part, b. cbn. rewrite app_nil_r, Z.add_0_r. done. }
  apply Forall_cons in HF as [[Hne Hms] HF]. cbn [total budget] in *.
  destruct (total_nonneg batches) as [Ht Hb]. pose proof (zlen_nonneg ms) as Hz.
  destruct (handle_new b t p part recs acks pid epoch seq ms now last (budget batches)) as
    (part1 & b1 & E1 & SV1 & Hl1 & Hr1 & Hq1); try done; [lia|apply follows_accepts; [done|lia]|].
  destruct (IH b1 part1 _ (seq + zlen ms) _ SV1 Hq1) as (part' & b' & E' & SV' & Hl'); try done; [lia| |lia|].
  { apply zlen_nonempty in Hne. cbn. lia. }
  exists part', b'. cbn [deliver resend answered delivered]. rewrite E1.
  rewrite (resend_answered b1 t p acks pid epoch seq ms now (leo part) k) by (done || lia).
  rewrite E', Hl1. split; [done|]. rewrite Hl1, <- app_assoc in SV'. split; [done|]. lia.
Qed.

(** ** Fetch *)

Lemma expire_open_idem now b :
  (∀ pid txn, open_txns (b_txns b) !! pid = Some txn → open_expired now b (pid, txn) = false) →
  (expire_timed_out_open_txns now b).2 = b.
Proof.
  intros Hn. unfold expire_timed_out_open_txns.
  assert (E : filter (λ e, open_expired now b e = true) (reorder (map_to_list (open_txns (b_txns b)))) = []).
  { apply elem_of_nil_inv. intros [pid txn] [Hx Hin]%list_elem_of_filter.
    rewrite elem_of_reorder, elem_of_map_to_list in Hin. specialize (Hn _ _ Hin). congruence. }
  rewrite E. cbn. by destruct b as [? ? ? ? ? ? []].
Qed.

Lemma expire_prepared_idem now b :
  (∀ tid prp, prepared_txns (b_txns b) !! tid = Some prp → effective_prepared_txn_timeout_ms b = 0 ∨
    prepared_expired (effective_prepared_txn_timeout_ms b) now prp = false) →
  (expire_timed_out_prepared_txns now b).2 = b.
Proof.
  intros Hn. unfold expire_timed_out_prepared_txns. destruct (Z.eqb_spec (effective_prepared_txn_timeout_ms b) 0) as [|Hne]; [done|].
  assert (E : filter (λ e, prepared_expired (effective_prepared_txn_timeout_ms b) now e.2 = true)
    (reorder (map_to_list (prepared_txns (b_txns b)))) = []).
  { apply elem_of_nil_inv. intros [tid prp] [Hx Hin]%list_elem_of_filter.
    rewrite elem_of_reorder, elem_of_map_to_list in Hin. destruct (Hn _ _ Hin); cbn in *; congruence. }
  rewrite E. cbn. by destruct b as [? ? ? ? ? ? []].
Qed.

Lemma expire_idem now b : expire_timed_out_txns now (expire_timed_out_txns now b) = expire_timed_out_txns now b.
Proof.
  pose proof (expire_producers now b) as SP. pose proof (expire_open_left now b) as HO.
  pose proof (expire_prepared_left now b) as HP. set (b1 := expire_timed_out_txns now b) in *.
  unfold expire_timed_out_txns at 1. rewrite expire_open_idem.
  - apply expire_prepared_idem. intros tid prp Hl. rewrite (effective_prepared_same b b1 SP). by apply HP in Hl as [].
  - intros pid txn Hl. rewrite (open_expired_same now b b1 _ SP). by apply HO in Hl as [].
Qed.

(** A record that a native consumer may see at the time [now]. *)
Definition visible (now : Z) b (t : string) (p : Z) (r : LogRecord) : bool :=
  let b1 := expire_timed_out_txns now b in
  negb (is_txn_control_record r) && negb (existsb (range_covers t p (rec_offset r)) (unstable_ranges b1)) &&
  negb (is_aborted_offset t p (rec_offset r) b1).

Lemma retain_visible t p now rs : ∀ b,
  (retain_st (λ r b,
     if is_txn_control_record r then (false, b) else
     let '(unstable, b) := is_unstable_offset t p (rec_offset r) now b in
     (negb unstable && negb (is_aborted_offset t p (rec_offset r) b), b)) rs b).1 =
  filter (λ r, visible now b t p r = true) rs.
Proof.
  induction rs as [|r rs IH]; intros b; cbn [retain_st]; [done|]. rewrite filter_cons.
  destruct (is_txn_control_record r) eqn:Ec.
  - specialize (IH b). destruct (retain_st _ rs b) as [out b2]. cbn [fst] in *.
    rewrite decide_False by (unfold visible; by rewrite Ec). done.
  - unfold is_unstable_offset at 1. specialize (IH (expire_timed_out_txns now b)).
    destruct (retain_st _ rs _) as [out b2]. cbn [fst] in *. rewrite IH.
    assert (Hf : filter (λ r, visible now (expire_timed_out_txns now b) t p r = true) rs =
      filter (λ r, visible now b t p r = true) rs).
    { apply list_filter_iff. intros r'. unfold visible. by rewrite expire_idem. }
    rewrite Hf. set (k := negb _ && negb _). assert (Hv : visible now b t p r = k) by (unfold visible; by rewrite Ec).
    clearbody k. subst k. case_decide as Hd; [by rewrite Hd|]. apply not_true_is_false in Hd. by rewrite Hd.
Qed.

(** The records a native fetch returns. *)
Lemma fetch_records b t p part recs from mm now :
  get_partition t p b = Ok part → ls_rep (p_log part) recs → 0 ≤ mm →
  (fetch t p from mm now b).1 =
  Ok (filter (λ r, visible now b t p r = true)
       (filter (λ r, rec_offset r < p_committed_hwm part)
         (take (Z.to_nat mm) (filter (λ r, from ≤ rec_offset r) recs)))).
Proof.
  intros Hp HR Hmm. unfold fetch, fetch_up_to. rewrite Hp, (ls_read_ok _ _ _ _ HR Hmm).
  match goal with |- context [retain_st ?f ?l ?x] => pose proof (retain_visible t p now l x) as Hr end.
  destruct (retain_st _ _ _) as [out b1]. cbn [fst] in *. by rewrite Hr.
Qed.

End produce.
