(* ===== verification/TxnOutcome.v ===== *)
(** * Transactions: outcomes

    What the end of a transaction does, on commit and on abort: to its ranges,
    to the offsets sent with it and to everybody else's; and what is left when
    all transactions have timed out. *)

From Stdlib Require Import Strings.String.
From S2P Require Import Prelude Bytes Core Record SparseIndex Segment SegmentProps GroupCommit PartitionLog PartitionLogProps BrokerLog Messages OffsetStore OffsetStoreProps Group Broker KafkaRecords Txn TxnRecovery TxnProps TxnSafety TxnTrace TxnProducers TxnFencing ProduceProps.
#[local] Open Scope Z_scope.

(** ** The collapsed ranges *)

(** Between the first and the last offset written to the partition. *)
Definition spanned (t : string) (p o : Z) (ws : list TxnWrittenRange) : Prop :=
  ∃ r1 r2, r1 ∈ ws ∧ r2 ∈ ws ∧ wr_key r1 = (t, p) ∧ wr_key r2 = (t, p) ∧
    wr_first_offset r1 ≤ o < wr_end_offset r2.

Lemma collapse_attained ws : ∀ acc k f e,
  foldl collapse_range acc ws !! k = Some (f, e) →
  ((∃ r, r ∈ ws ∧ wr_key r = k ∧ wr_first_offset r = f) ∨ ∃ e0, acc !! k = Some (f, e0)) ∧
  ((∃ r, r ∈ ws ∧ wr_key r = k ∧ wr_end_offset r = e) ∨ ∃ f0, acc !! k = Some (f0, e)).
Proof.
  induction ws as [|w ws IH]; intros acc k f e Hl; cbn [foldl] in Hl; [by split; right; eauto|].
  destruct (IH _ _ _ _ Hl) as [H1 H2]. unfold collapse_range in H1, H2.
  destruct (default _ _) as [f0 e0] eqn:Ed.
  assert (Hin : ∀ (P : TxnWrittenRange → Prop), (∃ r, r ∈ ws ∧ P r) → ∃ r, r ∈ w :: ws ∧ P r)
    by (intros P (r & Hr & HP); exists r; split; [by right|done]).
  assert (Hhere : ∀ (P : TxnWrittenRange → Prop), P w → ∃ r, r ∈ w :: ws ∧ P r) by (intros P HP; exists w; split; [left|done]).
  split; [destruct H1 as [H1|(x & Hx)]; [left; by apply Hin|]|destruct H2 as [H2|(x & Hx)]; [left; by apply Hin|]];
    (destruct (decide (wr_key w = k)) as [<-|Hne]; [|rewrite lookup_insert_ne in Hx by done; eauto]);
    rewrite lookup_insert_eq in Hx; injection Hx as <- <-.
  - destruct (Z.min_spec f0 (wr_first_offset w)) as [[_ ->]|[_ ->]]; [|left; by apply Hhere].
    destruct (acc !! wr_key w) as [[f1 e1]|]; cbn in Ed; simplify_eq; [eauto|left; by apply Hhere].
  - destruct (Z.max_spec e0 (wr_end_offset w)) as [[_ ->]|[_ ->]]; [left; by apply Hhere|].
    destruct (acc !! wr_key w) as [[f1 e1]|]; cbn in Ed; simplify_eq; [eauto|left; by apply Hhere].
Qed.

Lemma collapse_spanned t p o ws :
  (∃ f e, collapse ws !! (t, p) = Some (f, e) ∧ f ≤ o < e) ↔ spanned t p o ws.
Proof.
  split.
  - intros (f & e & Hl & Ho). destruct (collapse_attained ws ∅ (t, p) f e Hl) as [[(r1 & ? & ? & <-)|(? & Hx)] H2]; [|done].
    destruct H2 as [(r2 & ? & ? & <-)|(? & Hx)]; [|done]. by exists r1, r2.
  - intros (r1 & r2 & H1 & H2 & K1 & K2 & Ho).
    destruct (collapse_covers ws ∅ r1 (or_introl H1)) as (f & e & Hl & Hf & _).
    destruct (collapse_covers ws ∅ r2 (or_introl H2)) as (f' & e' & Hl' & _ & He).
    unfold collapse. rewrite K1 in Hl. rewrite K2, Hl in Hl'. simplify_eq. exists f', e'. split; [done|]. lia.
Qed.

Section outcome.
Context {L : Type} `{LogStoreLaws L} `{IterOrder} (root : path).
Implicit Types (b : Broker L).

Lemma push_aborted_iff t p m b t' p' o :
  aborted_at (b_txns (push_aborted_marker t p m b)) t' p' o ↔
  aborted_at (b_txns b) t' p' o ∨ (t', p') = (t, p) ∧ am_first_offset m ≤ o < am_end_offset m.
Proof.
  split.
  - intros (ms & m' & Hl & Hm & Hc). cbn in Hl. destruct (decide ((t', p') = (t, p))) as [E|Hne].
    + rewrite E, lookup_insert_eq in Hl. injection Hl as <-. apply elem_of_app in Hm as [Hm|Hm%list_elem_of_singleton].
      * left. destruct (aborted_txns (b_txns b) !! (t, p)) as [ms|] eqn:Hl; [|by apply not_elem_of_nil in Hm].
        exists ms, m'. by rewrite E.
      * subst m'. right. by apply marker_covers_spec in Hc.
    + rewrite lookup_insert_ne in Hl by done. left. by exists ms, m'.
  - intros [Ha|[[= -> ->] Ho]]; [by apply push_aborted_grows|]. apply push_aborted_at. by apply marker_covers_spec.
Qed.

(** Exactly the offsets between the first and the last one written are marked
    aborted. *)
Lemma record_aborted_iff pid txn b t p o :
  aborted_at (b_txns (record_aborted_from_txn pid txn b)) t p o ↔
  aborted_at (b_txns b) t p o ∨ spanned t p o (ot_written txn).
Proof.
  assert (Hf : ∀ l b, aborted_at (b_txns (foldl (λ b '((topic, part), (first, end_)),
    push_aborted_marker topic part (mkMarker pid first end_) b) b l)) t p o ↔
    aborted_at (b_txns b) t p o ∨ ∃ f e, ((t, p), (f, e)) ∈ l ∧ f ≤ o < e).
  { induction l as [|[[t' p'] [f e]] l IH]; intros b1; cbn [foldl].
    - split; [by left|]. intros [?|(f & e & Hx%not_elem_of_nil & _)]; done.
    - rewrite IH, push_aborted_iff. cbn. setoid_rewrite elem_of_cons. split.
      + intros [[?|[[= -> ->] Ho]]|(f' & e' & Hin & Ho)]; [by left|right; eauto|right; eauto].
      + intros [?|(f' & e' & [[= -> -> -> ->]|Hin] & Ho)]; [by do 2 left|by left; right|right; eauto]. }
  etrans; [apply Hf|]. rewrite <- collapse_spanned.
  setoid_rewrite elem_of_reorder. setoid_rewrite elem_of_map_to_list. done.
Qed.

(** ** The end of a transaction *)

(** A one-phase transaction is open for the producer at that epoch. *)
Record ending b (pid epoch now : Z) (txn : OpenTxn) : Prop := {
  en_producer : ∃ q, producer_state (b_txns b) !! pid = Some q ∧ pe_epoch q = epoch ∧
    (pe_enable_2pc q = false ∨ pe_transactional_id q = ""%string) ∧
    prepared_txns (b_txns (expire_timed_out_txns now b)) !! pe_transactional_id q = None;
  en_open : open_txns (b_txns (expire_timed_out_txns now b)) !! pid = Some txn;
}.

(** The offsets go to the group coordinator one by one. *)
Definition apply_offsets (os : list txn_offset) (g : GroupCoordinator) : GroupCoordinator :=
  foldl (λ g '(group_id, topic, partition, offset, metadata),
    (commit_offsets root group_id "" 0 [(topic, partition, offset, metadata)] g).2) g os.

Lemma apply_offsets_groups os : ∀ b, b_groups (foldl (commit_txn_offset root) b os) = apply_offsets os (b_groups b).
Proof. induction os as [|[[[[g t] p] o] m] os IH]; intros b; cbn [foldl]; [done|]. by rewrite IH. Qed.

Lemma end_txn_ending b pid epoch now txn c os :
  ending b pid epoch now txn →
  end_txn root pid epoch c os now b =
  (let b1 := expire_timed_out_txns now b in
   let b2 := clear_txn_abortable pid (map_txns (set_open_txns (delete pid (open_txns (b_txns b1)))) b1) in
   let '(results, b3) := finalize_txn root pid epoch c txn os now b2 in (0, results, b3)).
Proof.
  intros [(q & Hq & He & Hp2 & Hprep) Ho]. cbn zeta. unfold end_txn.
  destruct (expire_producers now b) as [Ep _]. set (b1 := expire_timed_out_txns now b) in *.
  rewrite Ep, Hq, He, Z.eqb_refl. cbn [negb]. rewrite Hprep.
  assert (Hn : (if String.eqb (pe_transactional_id q) "" then None else None) = @None PreparedTxn) by by destruct (String.eqb _ _).
  rewrite Hn. unfold end_open. rewrite Ho.
  assert (H2 : pe_enable_2pc q && negb (String.eqb (pe_transactional_id q) "") = false).
  { destruct Hp2 as [->| ->]; [done|]. by rewrite andb_false_r. }
  by rewrite H2.
Qed.

Lemma delete_open_at b pid q t p o :
  open_at (b_txns (map_txns (set_open_txns (delete pid (open_txns (b_txns b)))) b)) q t p o ↔
  q ≠ pid ∧ open_at (b_txns b) q t p o.
Proof.
  unfold open_at. cbn. split.
  - intros (x & Hl & Hc). destruct (decide (q = pid)) as [->|Hne]; [by rewrite lookup_delete_eq in Hl|].
    rewrite lookup_delete_ne in Hl by done. eauto.
  - intros (Hne & x & Hl & Hc). rewrite lookup_delete_ne by done. eauto.
Qed.

(** C30: A commit is atomic. It answers success with every range written, commits
    the offsets sent during the transaction and then those of the request, and
    makes all the ranges visible at once: what is withheld afterwards is
    exactly what other transactions, or aborted ones, withheld before. *)
Theorem commit_exact b pid epoch now txn os :
  ending b pid epoch now txn →
  ∃ b', end_txn root pid epoch true os now b =
    (0, map (λ w, mkCommitResult (wr_topic w) (wr_partition w) (wr_first_offset w) (wr_count w)) (ot_written txn), b') ∧
    b_groups b' = apply_offsets (ot_deferred_offsets txn ++ os) (b_groups b) ∧
    ∀ q t p o, withheld (b_txns b') q t p o ↔
      let T := b_txns (expire_timed_out_txns now b) in
      aborted_at T t p o ∨ q ≠ pid ∧ open_at T q t p o ∨ prepared_at T q t p o.
Proof.
  intros E. rewrite (end_txn_ending b pid epoch now txn true os E). cbn zeta.
  pose proof (expire_groups now b) as EG. set (b1 := expire_timed_out_txns now b) in *.
  set (b2 := clear_txn_abortable pid _). pose proof (finalize_commit_quiet root pid epoch txn os now b2) as Q.
  unfold finalize_txn in *. cbn [negb snd] in *. eexists. split; [done|].
  match goal with |- b_groups ?x = _ ∧ _ => set (b3 := x) in * end. split.
  - unfold b3. cbn. rewrite apply_offsets_groups. f_equal.
    destruct (control_markers_tables pid epoch Commit txn now (foldl (λ b w, record_idempotent_produce pid epoch (wr_topic w)
      (wr_partition w) (wr_base_sequence w) (wr_count w) (wr_first_offset w) b) b2 (ot_written txn))) as (_ & _ & -> & _).
    transitivity (b_groups b2); [|exact EG]. generalize (ot_written txn) b2. clear.
    induction l as [|w ws IH]; intros b2; cbn [foldl]; [done|]. rewrite IH. unfold record_idempotent_produce.
    by repeat case_match.
  - intros q t p o. destruct Q as (bq & (QO & QP & QA & _) & EQ). cbn zeta. rewrite EQ.
    change (b_txns (persist_txn_markers bq)) with (b_txns bq). unfold withheld, open_at, prepared_at, aborted_at.
    rewrite QO, QP, QA. pose proof (delete_open_at b1 pid q t p o) as Hd. unfold open_at in Hd. cbn in Hd |- *.
    rewrite Hd. tauto.
Qed.

(** An abort, exactly. It answers success with no range and leaves the
    committed offsets of all groups alone; every offset between the first and
    the last one the transaction wrote to a partition is aborted from then on,
    and nothing else changes its state. *)
Theorem abort_exact b pid epoch now txn os :
  ending b pid epoch now txn →
  ∃ b', end_txn root pid epoch false os now b = (0, [], b') ∧ b_groups b' = b_groups b ∧
    producer_state (b_txns b') = producer_state (b_txns b) ∧
    ∀ q t p o, withheld (b_txns b') q t p o ↔
      let T := b_txns (expire_timed_out_txns now b) in
      aborted_at T t p o ∨ spanned t p o (ot_written txn) ∨ q ≠ pid ∧ open_at T q t p o ∨ prepared_at T q t p o.
Proof.
  intros E. rewrite (end_txn_ending b pid epoch now txn false os E). cbn zeta.
  pose proof (expire_groups now b) as EG. destruct (expire_producers now b) as [EP _].
  set (b1 := expire_timed_out_txns now b) in *. set (b2 := clear_txn_abortable pid _).
  unfold finalize_txn. cbn [negb]. eexists. split; [done|].
  destruct (abort_one_frame Abort pid epoch txn now b2) as [[FP _] FO FPr _ _ FG].
  destruct (control_markers_tables pid epoch Abort txn now (record_aborted_from_txn pid txn b2)) as (CT & _).
  set (b3 := append_txn_control_markers _ _ _ _ _ _) in *.
  split; [by rewrite FG|]. split; [by rewrite FP|]. intros q t p o. cbn zeta. unfold withheld.
  assert (HA : aborted_at (b_txns b3) t p o ↔ aborted_at (b_txns b1) t p o ∨ spanned t p o (ot_written txn)).
  { rewrite CT, record_aborted_iff. done. }
  rewrite HA. unfold open_at, prepared_at. rewrite FO, FPr.
  pose proof (delete_open_at b1 pid q t p o) as Hd. unfold open_at in Hd. cbn in Hd |- *. rewrite Hd. tauto.
Qed.

(** ** Visibility *)

Lemma hidden_iff t p o b :
  existsb (range_covers t p o) (unstable_ranges b) = true ∨ is_aborted_offset t p o b = true ↔
  ∃ q, withheld (b_txns b) q t p o.
Proof.
  split; [|intros [q W]; by apply (withheld_hidden q)].
  intros [(r & Hr & Hc)%existsb_exists|Ha].
  - apply list_elem_of_In in Hr. unfold unstable_ranges in Hr. apply elem_of_app in Hr as [Hr|Hr];
      rewrite list_elem_of_In, in_flat_map in Hr; destruct Hr as ([k x] & Hk & Hr);
      rewrite <- list_elem_of_In, elem_of_reorder, elem_of_map_to_list in Hk; rewrite <- list_elem_of_In in Hr.
    + exists k. right. left. exists x. split; [done|]. by exists r.
    + exists (pt_producer_id x). right. right. exists k, x. do 2 (split; [done|]). by exists r.
  - exists 0. left. unfold is_aborted_offset in Ha. destruct (aborted_txns (b_txns b) !! (t, p)) as [ms|] eqn:Hl; [|done].
    apply existsb_exists in Ha as (m & Hm & Hc). exists ms, m. by rewrite list_elem_of_In.
Qed.

Lemma visible_iff now b t p r :
  visible now b t p r = true ↔
  is_txn_control_record r = false ∧
  ∀ q, ¬ withheld (b_txns (expire_timed_out_txns now b)) q t p (rec_offset r).
Proof.
  unfold visible. pose proof (hidden_iff t p (rec_offset r) (expire_timed_out_txns now b)) as Hh.
  rewrite !andb_true_iff, !negb_true_iff. split.
  - intros [[Hc Hu] Ha]. split; [done|]. intros q W. destruct Hh as [_ Hh]. destruct Hh; [by exists q|congruence..].
  - intros [Hc Hn]. split; [split; [done|]|]; apply not_true_is_false; intros E; destruct (proj1 Hh) as [q W]; eauto.
    + by eapply Hn.
    + by eapply Hn.
Qed.

Definition on_partition (t : string) (p : Z) (r : TxnWrittenRange) : Prop := wr_topic r = t ∧ wr_partition r = p.

Lemma lso_fold_spec t p o rs : ∀ lso,
  o < foldl (λ lso r, if String.eqb (wr_topic r) t && (wr_partition r =? p)
                      then Z.min lso (wr_first_offset r) else lso) lso rs ↔
  o < lso ∧ ∀ r, r ∈ rs → on_partition t p r → o < wr_first_offset r.
Proof.
  induction rs as [|r rs IH]; intros lso; cbn [foldl].
  { split; [intros; split; [done|]; intros r Hr; by apply not_elem_of_nil in Hr|tauto]. }
  rewrite IH. unfold on_partition. setoid_rewrite elem_of_cons.
  destruct (String.eqb_spec (wr_topic r) t), (Z.eqb_spec (wr_partition r) p); cbn [andb]; split;
    intros [Hl Hr]; (split; [try lia|]); try (by eauto); try (intros r' [->|?] [? ?]; [by (congruence || lia)|by eauto]).
  pose proof (Hr r (or_introl eq_refl)). naive_solver lia.
Qed.

Lemma aborted_at_iff t p o b : is_aborted_offset t p o b = true ↔ aborted_at (b_txns b) t p o.
Proof.
  unfold is_aborted_offset, aborted_at. destruct (aborted_txns (b_txns b) !! (t, p)) as [ms|]; [|split; [done|by intros (? & ? & ? & _)]].
  rewrite existsb_exists. split; [intros (m & Hm & Hc); exists ms, m; by rewrite list_elem_of_In|].
  intros (? & m & [= <-] & Hm & Hc). exists m. by rewrite <- list_elem_of_In.
Qed.

(** What the fetches return. Of the records of the partition from the offset
    asked for, the first [mm] are taken and those below the committed watermark
    kept. A native consumer gets, in order, exactly the ones of them that are no
    control records and that no open, prepared or aborted transaction covers; a
    Kafka consumer gets all of them when it reads uncommitted data, and when it
    reads committed data exactly those in front of every range of an open or
    prepared transaction that are control records or not aborted. *)
Theorem fetch_exact b t p part recs from mm now :
  get_partition t p b = Ok part → ls_rep (p_log part) recs → 0 ≤ mm →
  let taken := filter (λ r, rec_offset r < p_committed_hwm part)
                 (take (Z.to_nat mm) (filter (λ r, from ≤ rec_offset r) recs)) in
  let b1 := expire_timed_out_txns now b in
  (∃ rs, (fetch t p from mm now b).1 = Ok rs ∧ rs `sublist_of` taken ∧
     ∀ r, r ∈ rs ↔ r ∈ taken ∧ is_txn_control_record r = false ∧ ∀ q, ¬ withheld (b_txns b1) q t p (rec_offset r)) ∧
  (fetch_kafka t p from mm false now b).1 = Ok taken ∧
  (∃ rs, (fetch_kafka t p from mm true now b).1 = Ok rs ∧ rs `sublist_of` taken ∧
     ∀ r, r ∈ rs ↔ r ∈ taken ∧ rec_offset r < (match high_watermark t p b1 with Ok h => h | Err _ => 0 end) ∧
       (∀ w, w ∈ unstable_ranges b1 → on_partition t p w → rec_offset r < wr_first_offset w) ∧
       (is_txn_control_record r = true ∨ ¬ aborted_at (b_txns b1) t p (rec_offset r))).
Proof.
  intros Hp HR Hmm taken b1. split_and!.
  - exists (filter (λ r, visible now b t p r = true) taken). rewrite (fetch_records b t p part recs) by done.
    split; [done|]. split; [apply sublist_filter|]. intros r. rewrite list_elem_of_filter, visible_iff. tauto.
  - unfold fetch_kafka, fetch_up_to. by rewrite Hp, (ls_read_ok _ _ _ _ HR Hmm).
  - unfold fetch_kafka, fetch_up_to. rewrite Hp, (ls_read_ok _ _ _ _ HR Hmm). unfold last_stable_offset. fold b1.
    eexists. split; [done|]. split; [apply sublist_filter|]. intros r. rewrite list_elem_of_filter.
    pose proof (lso_fold_spec t p (rec_offset r) (unstable_ranges b1)
      (match high_watermark t p b1 with Ok h => h | Err _ => 0 end)) as HL.
    pose proof (aborted_at_iff t p (rec_offset r) b1) as HA. fold taken.
    destruct (is_txn_control_record r).
    + rewrite Z.ltb_lt, HL. tauto.
    + rewrite andb_true_iff, negb_true_iff, Z.ltb_lt, HL, <- HA, not_true_iff_false. intuition discriminate.
Qed.

Lemma withheld_invisible now b q t p r :
  withheld (b_txns b) q t p (rec_offset r) → visible now b t p r = false.
Proof.
  intros W. apply not_true_is_false. intros [_ Hn]%visible_iff. apply (Hn q).
  by apply (ss_withheld _ _ _ (expire_safe None now b)).
Qed.

(** A reader can be blocked. When the first [mm] records from the offset
    asked for are all aborted, a fetch of [mm] records returns none of what
    follows them, at any time; and a consumer that moves on only by the
    records it gets asks for the same offset again. *)
Theorem aborted_batch_blocks_reader b t p part recs from mm now :
  get_partition t p b = Ok part → ls_rep (p_log part) recs → 0 ≤ mm →
  Forall (λ r, aborted_at (b_txns b) t p (rec_offset r) ∨ is_txn_control_record r = true)
    (take (Z.to_nat mm) (filter (λ r, from ≤ rec_offset r) recs)) →
  (fetch t p from mm now b).1 = Ok [].
Proof.
  intros Hp HR Hmm HF. rewrite (fetch_records b t p part recs from mm now Hp HR Hmm). f_equal.
  apply elem_of_nil_inv. intros r [Hv [_ Hin]%list_elem_of_filter]%list_elem_of_filter.
  rewrite Forall_forall in HF. destruct (HF r Hin) as [Ha|Hc].
  - assert (W : withheld (b_txns b) 0 t p (rec_offset r)) by by left.
    by rewrite (withheld_invisible now b 0 t p r W) in Hv.
  - apply visible_iff in Hv as [Hc' _]. congruence.
Qed.

(** ** Time-outs *)

Lemma lso_fold_none t p rs : ∀ lso, (∀ r, r ∈ rs → ¬ on_partition t p r) →
  foldl (λ lso r, if String.eqb (wr_topic r) t && (wr_partition r =? p)
                  then Z.min lso (wr_first_offset r) else lso) lso rs = lso.
Proof.
  induction rs as [|r rs IH]; intros lso Hn; [done|]. cbn [foldl].
  assert (E : String.eqb (wr_topic r) t && (wr_partition r =? p) = false).
  { apply not_true_is_false. intros [E1%String.eqb_eq E2%Z.eqb_eq]%andb_prop. by apply (Hn r); [left|]. }
  rewrite E. apply IH. intros r' Hr'. apply Hn. by right.
Qed.

(** Time-outs release the readers. Once every open or prepared transaction
    with a range on the partition has timed out, the last stable offset is the
    high watermark: what readers of committed data may see ends at the end of
    the log, and no transaction is left that could hold them back. *)
Theorem timeouts_release_readers b t p now :
  (∀ pid txn r, open_txns (b_txns b) !! pid = Some txn → r ∈ ot_written txn → on_partition t p r →
    open_expired now b (pid, txn) = true) →
  (∀ tid prp r, prepared_txns (b_txns b) !! tid = Some prp → r ∈ ot_written (pt_open prp) → on_partition t p r →
    effective_prepared_txn_timeout_ms b ≠ 0 ∧
    prepared_expired (effective_prepared_txn_timeout_ms b) now prp = true) →
  let '(lso, b') := last_stable_offset t p now b in
  lso = match high_watermark t p b' with Ok h => h | Err _ => 0 end ∧
  ∀ q o, withheld (b_txns b') q t p o → aborted_at (b_txns b') t p o.
Proof.
  intros HO HP. unfold last_stable_offset. pose proof (expire_open_left now b) as EO.
  pose proof (expire_prepared_left now b) as EP. set (b1 := expire_timed_out_txns now b) in *. clearbody b1.
  assert (Hno : ∀ r, r ∈ unstable_ranges b1 → ¬ on_partition t p r).
  { intros r Hr On. unfold unstable_ranges in Hr. apply elem_of_app in Hr as [Hr|Hr];
      rewrite list_elem_of_In, in_flat_map in Hr; destruct Hr as ([k x] & Hk & Hr);
      rewrite <- list_elem_of_In, elem_of_reorder, elem_of_map_to_list in Hk; rewrite <- list_elem_of_In in Hr.
    - apply EO in Hk as [Hl Hx]. rewrite (HO k x r Hl Hr On) in Hx. done.
    - apply EP in Hk as [Hl Hx]. destruct (HP k x r Hl Hr On) as [Hne Hex]. destruct Hx as [?|Hx]; [done|congruence]. }
  split; [by apply lso_fold_none|].
  intros q o [?|W]; [done|]. exfalso.
  assert (Hh : existsb (range_covers t p o) (unstable_ranges b1) = true).
  { destruct (withheld_open_unstable b1 q t p o W) as (r & Hr & Hc). apply existsb_exists. exists r.
    by rewrite <- list_elem_of_In. }
  apply existsb_exists in Hh as (r & Hr & Hc%range_covers_spec). apply list_elem_of_In in Hr.
  apply (Hno r Hr). destruct Hc as (? & ? & _). done.
Qed.

(** ** The window of a transactional produce *)

Definition nothing_expired (now : Z) b : Prop :=
  (∀ pid txn, open_txns (b_txns b) !! pid = Some txn → open_expired now b (pid, txn) = false) ∧
  (∀ tid prp, prepared_txns (b_txns b) !! tid = Some prp → effective_prepared_txn_timeout_ms b = 0 ∨
     prepared_expired (effective_prepared_txn_timeout_ms b) now prp = false).

Lemma nothing_expired_id now b : nothing_expired now b → expire_timed_out_txns now b = b.
Proof.
  intros [HO HP]. unfold expire_timed_out_txns. rewrite (expire_open_idem now b HO). by apply expire_prepared_idem.
Qed.

Lemma take_all {A} (l : list A) n : zlen l ≤ n → take (Z.to_nat n) l = l.
Proof. intros Hn. apply take_ge. unfold zlen in Hn. lia. Qed.

Lemma filter_new (now : Z) l recs ms :
  ls_rep l recs →
  filter (λ r, ls_end l ≤ rec_offset r) (recs ++ batch_records (ls_end l) now ms) =
  batch_records (ls_end l) now ms.
Proof.
  intros R. rewrite filter_app. destruct (ls_offsets _ _ R) as [_ HF].
  assert (E : filter (λ r, ls_end l ≤ rec_offset r) recs = []).
  { apply elem_of_nil_inv. intros r [Hr Hin]%list_elem_of_filter. rewrite Forall_forall in HF. apply HF in Hin. lia. }
  rewrite E. cbn [app]. apply filter_all. eapply Forall_impl; [apply consecutive_range, consecutive_batch|]. cbn. lia.
Qed.

(** The write-through window. A transactional produce appends its batch, and
    moves the watermark over it, before the range is entered in the open
    transaction and in the file of markers: a fetch that comes in between gets
    the whole uncommitted batch, and the files a crash would leave then say
    nothing of it. *)
Theorem produce_window_exposes b t p part recs ms now n :
  serves b t p part recs → nothing_expired now b → ms ≠ [] → batch_ok ms now →
  0 ≤ n → ls_room (zlen ms + 3 + n) (p_log part) →
  Forall (λ r, is_txn_control_record r = false) (batch_records (leo part) now ms) →
  (∀ q o, leo part ≤ o → ¬ withheld (b_txns b) q t p o) →
  ∃ b', txn_produce_append t p ms now b = (inr (leo part), b') ∧ b_files b' = b_files b ∧
    (fetch t p (leo part) (zlen ms) now b').1 = Ok (batch_records (leo part) now ms).
Proof.
  intros SV HX Hne Hms Hn Hroom HC HW.
  destruct (produce_serves b t p part recs ms 1 now (1 + n) SV Hne Hms ltac:(lia)) as (part1 & b1 & E1 & SV1 & Hl1 & Hr1 & ST1 & _).
  { eapply ls_room_mono; [exact Hroom|lia]. }
  destruct (flush_serves b1 t p part1 _ now n SV1 Hn Hr1) as (part2 & E2 & SV2 & Hl2 & _).
  assert (ST2 : same_tables b (put_partition t p part2 b1)) by (etrans; [exact ST1|by eapply flush_tables]).
  exists (put_partition t p part2 b1). unfold txn_produce_append. rewrite E1. cbn [Z.eqb negb]. rewrite E2.
  split; [by destruct ms|]. destruct ST2 as (ET & EF & _). split; [done|].
  set (b2 := put_partition t p part2 b1) in *.
  rewrite (fetch_records b2 t p part2 _ _ _ now (sv_part _ _ _ _ _ SV2) (sv_rep _ _ _ _ _ SV2) (zlen_nonneg ms)).
  unfold leo at 1 2. rewrite filter_new by apply SV. rewrite take_all by (rewrite zlen_batch_records; lia).
  pose proof (consecutive_range _ _ (consecutive_batch ms now (leo part))) as HR. rewrite zlen_batch_records in HR.
  unfold leo in *. rewrite (filter_all (λ r, rec_offset r < p_committed_hwm part2)), filter_all; [done| |].
  - rewrite Forall_forall in *. intros r Hr. apply visible_iff. split; [by apply HC|]. intros q W.
    apply (HW q (rec_offset r)); [by apply HR|].
    rewrite nothing_expired_id in W; [by rewrite <- ET|]. unfold nothing_expired, open_expired, open_timeout,
      effective_open_txn_timeout_ms, effective_prepared_txn_timeout_ms, clamp_txn_timeout_ms in *. by rewrite ET.
  - rewrite (sv_hwm _ _ _ _ _ SV2). unfold leo. eapply Forall_impl; [exact HR|]. cbn. lia.
Qed.

End outcome.
