(* ===== verification/TxnWitnesses.v ===== *)
(** * Transactions: a broker at work

    The theorems on produce, fetch and transactions at work on a single-node
    broker with one topic, whose partition is a [PartitionLog] on an empty
    directory. *)

From Stdlib Require Import Strings.String.
From S2P Require Import Prelude Bytes Core Record SparseIndex Segment SegmentProps GroupCommit PartitionLog PartitionLogProps BrokerLog Messages OffsetStore OffsetStoreProps Group Broker KafkaRecords Txn TxnRecovery TxnProps TxnSafety TxnTrace TxnProducers TxnFencing ProduceProps TxnOutcome.
#[local] Open Scope Z_scope.

Definition shop_config : StorageConfig := mkStorageConfig 1048576 false 0 0 0 4096 None None false false.

#[local] Instance shop_store : LogStore PartitionLog := partition_log_store (H := crc_sum32) demo_plat.
#[local] Instance shop_laws : LogStoreLaws PartitionLog := partition_log_laws (H := crc_sum32) demo_plat.
#[local] Existing Instance order_id.

Definition shop_log : PartitionLog :=
  match open (H := crc_sum32) demo_plat shop_config [] 0 with
  | Ok l => l
  | Err _ => mkPartitionLog shop_config [] 0 0 (GroupCommit.new 0 1) 0
  end.

Definition shop_part : Partition PartitionLog := new_single 0 shop_log 0.

(** One topic, no producer yet, time-outs of a minute. *)
Definition shop : Broker PartitionLog :=
  mkBroker 0 None false {["orders" := mkTopic 1 "orders" {[0 := shop_part]}]} 0
    (mkGroupCoordinator ∅ ∅ (mkFs ∅ ∅))
    (mkTxns 1 ∅ ∅ ∅ ∅ ∅ ∅ ∅ 60000 60000 0 0 0 0) (mkTxnFiles None None None None)
    (mkMeta 2 ∅ ∅ ∅ [] 0 0 0).

Definition order (v : byte) : Message := mkMessage None [v] None [].

Lemma shop_rep : ls_rep shop_log [].
Proof.
  destruct (demo_open_with shop_config) as (l & E & R & G & _); [split; [range|done]|done|].
  unfold shop_log. rewrite E. split; [exact R|]. by destruct G as [? []].
Qed.

Lemma shop_log_state : log_next_offset shop_log = 0 ∧ flush_gen (state (group shop_log)) = 0.
Proof. split; vm_compute; reflexivity. Qed.

Lemma shop_leo : leo (H := shop_store) shop_part = 0.
Proof. exact (proj1 shop_log_state). Qed.

Lemma shop_room n : 0 ≤ n ≤ 1000 → ls_room n shop_log.
Proof.
  intros Hn. destruct shop_log_state as [E1 E2]. split; [rewrite E1|rewrite E2]; unfold u64_max; lia.
Qed.

Lemma order_ok vs now : 0 ≤ now ≤ 1000000 → batch_ok (map order vs) now.
Proof.
  intros Hn. split; [split; unfold i64_min, i64_max; lia|]. apply Forall_forall. intros m (v & <- & _)%list_elem_of_In%in_map_iff.
  split; [apply (bool_decide_unpack _); vm_compute; exact I|exact I].
Qed.

Lemma shop_serves b : b_cluster b = None → get_partition "orders" 0 b = Ok shop_part → serves b "orders" 0 shop_part [].
Proof. intros Hc Hp. split; [done|done|exact shop_rep|]. symmetry. exact (proj1 shop_log_state). Qed.

Lemma shop_pristine : pristine shop.
Proof. by repeat split. Qed.

(** ** Produce and fetch *)

(** An idempotent producer sends one batch three times, then another. *)
Lemma exactly_once_witness :
  ∃ b', deliver "orders" 0 1 1 0 0 [(map order [x01], 2%nat, 1000); (map order [x02; x03], 0%nat, 1001)]
          (init_producer_id_with_opts "" false false 0 1000 shop).2 =
        ([[Ok (mkProduceResponse 0 1 0); Ok (mkProduceResponse 0 1 0); Ok (mkProduceResponse 0 1 0)];
          [Ok (mkProduceResponse 1 2 0)]], b').
Proof.
  set (b := (init_producer_id_with_opts "" false false 0 1000 shop).2).
  assert (SV : serves b "orders" 0 shop_part []) by (apply shop_serves; vm_compute; reflexivity).
  destruct (exactly_once b "orders" 0 shop_part [] 1 1 0 0 None
    [(map order [x01], 2%nat, 1000); (map order [x02; x03], 0%nat, 1001)] SV) as (part' & b' & E & _).
  - eexists. split; [vm_compute; reflexivity|]. by repeat split.
  - done.
  - done.
  - exact I.
  - repeat constructor; try done; by apply order_ok.
  - vm_compute. discriminate.
  - apply shop_room. vm_compute. split; discriminate.
  - exists b'. exact E.
Defined.

Lemma fetch_exact_witness :
  ∃ (b : Broker PartitionLog) recs rs, zlen recs = 2 ∧ (fetch "orders" 0 1 10 1000 b).1 = Ok rs ∧
    ∀ r, r ∈ rs ↔ r ∈ filter (λ r, rec_offset r < 2) (take 10 (filter (λ r, 1 ≤ rec_offset r) recs)) ∧
      is_txn_control_record r = false ∧
      ∀ q, ¬ withheld (b_txns (expire_timed_out_txns 1000 b)) q "orders" 0 (rec_offset r).
Proof.
  assert (SV : serves shop "orders" 0 shop_part []) by by apply shop_serves.
  destruct (produce_serves shop "orders" 0 shop_part [] (map order [x01; x02]) 1 1000 0 SV)
    as (part & b & _ & SV' & Hl & _); [done|by apply order_ok|done|apply shop_room; vm_compute; split; discriminate|].
  destruct (fetch_exact b "orders" 0 part _ 1 10 1000 (sv_part _ _ _ _ _ SV') (sv_rep _ _ _ _ _ SV') ltac:(done))
    as ((rs & E & _ & Hrs) & _). rewrite (sv_hwm _ _ _ _ _ SV'), Hl in Hrs.
  exists b. eexists. exists rs. split; [|split; [exact E|exact Hrs]]. reflexivity.
Defined.

(** ** Fencing *)

Definition shop_a : Broker PartitionLog := (init_producer_id_with_opts "a" false false 0 1000 shop).2.

Lemma shop_a_inv : producers_inv shop_a.
Proof.
  unfold shop_a. destruct (init_producer_id_with_opts "a" false false 0 1000 shop) as [r b] eqn:E.
  exact (ie_inv _ _ _ _ (init_ok "a" false false 0 1000 shop r b eq_refl (pristine_inv shop shop_pristine) E)).
Qed.

(** A second process initialises the same transactional id. *)
Lemma zombie_fenced_witness :
  let b := (init_producer_id_with_opts "a" false false 0 2000 shop_a).2 in
  begin_txn 1 0 3000 b = (InvalidProducerEpoch, expire_timed_out_txns 3000 b).
Proof.
  cbn zeta. destruct (init_producer_id_with_opts "a" false false 0 2000 shop_a) as [r b] eqn:E.
  assert (Hr : r = mkInitResult 0 1 1 (-1) (-1)).
  { transitivity (init_producer_id_with_opts "a" false false 0 2000 shop_a).1; [by rewrite E|]. vm_compute. reflexivity. }
  cbn [snd]. assert (Hl : life [] 1 1 shop_a b).
  { change 1%nat with (if bool_decide (hands_out (Allots (mkInitResult 0 1 1 (-1) (-1))) = Some 1) then 1%nat else 0%nat).
    eapply life_step; [|vm_compute; reflexivity|apply life_nil]. rewrite <- Hr. by eapply (ts_init [] order_id). }
  destruct (zombie_fenced [] 1 1 shop_a b (mkProducer 0 true "a" false 0 ∅) shop_a_inv) with (now := 3000) as [H1 _].
  - vm_compute. reflexivity.
  - exact Hl.
  - done.
  - exact H1.
Defined.

(** A two-phase transaction, prepared to commit. *)
Definition shop_2pc : Broker PartitionLog :=
  let b := (init_producer_id_with_opts "a" true false 0 1000 shop).2 in
  let b := (begin_txn 1 0 1000 b).2 in
  let b := (buffer_txn_produce 1 0 "orders" 0 0 [order x01] 1000 b).2 in
  (end_txn [] 1 0 true [] 1000 b).2.

Lemma shop_2pc_inv : producers_inv shop_2pc.
Proof.
  unfold shop_2pc. set (b1 := (init_producer_id_with_opts "a" true false 0 1000 shop).2).
  assert (I1 : producers_inv b1).
  { unfold b1. destruct (init_producer_id_with_opts "a" true false 0 1000 shop) as [r b] eqn:E.
    exact (ie_inv _ _ _ _ (init_ok "a" true false 0 1000 shop r b eq_refl (pristine_inv shop shop_pristine) E)). }
  apply end_steady, produce_txn_steady, begin_steady; [done|exact I1].
Qed.

Definition shop_env : Knobs := mkKnobs 60000 60000 900000.

Lemma prepared_survives_restart_witness :
  ∃ b'', end_txn [] 1 0 true [] 1500 (restart shop_env (b_topics shop_2pc) 1500 shop_2pc) =
    (0, [mkCommitResult "orders" 0 0 1], b'').
Proof.
  destruct (prepared_txns (b_txns shop_2pc) !! "a"%string) as [prp|] eqn:E; [|vm_compute in E; discriminate].
  destruct (prepared_survives_restart [] "a" prp shop_env (b_topics shop_2pc) 1500 shop_2pc shop_2pc_inv E) as (_ & _ & Hend);
    vm_compute in E; injection E as <-.
  - intros k [->| ->]; right; vm_compute; split; reflexivity.
  - destruct (Hend []) as [b'' Hb]. exists b''. exact Hb.
Defined.

(** Prepared transactions are never to time out on this broker: the knob is set
    to 0 and saved. *)
Definition shop_patient : Broker PartitionLog :=
  map_txns (set_knobs (mkKnobs 60000 0 900000)) shop_2pc.

(** A restart after a minute aborts the prepared transaction all the same: what
    has timed out by the environment is expired before the saved knobs are
    read. *)
Example restart_expires_by_environment :
  let b := restart shop_env (b_topics shop_patient) 70000 shop_patient in
  effective_prepared_txn_timeout_ms shop_patient = 0 ∧ effective_prepared_txn_timeout_ms b = 0 ∧
  (end_txn [] 1 0 true [] 70000 b).1 = (TransactionAbortable, []).
Proof. vm_compute. split; [|split]; reflexivity. Qed.

(** ** Isolation *)

(** The producer has begun a transaction. *)
Definition shop_begun : Broker PartitionLog := (begin_txn 1 0 1000 shop_a).2.

(** It has produced a batch, in the three steps of the write-through. *)
Lemma shop_written : ∃ b part recs,
  synced b ∧ withheld (b_txns b) 1 "orders" 0 0 ∧ serves b "orders" 0 part recs ∧
  recs = batch_records 0 1000 [order x01].
Proof.
  assert (Hs : synced shop_begun).
  { pose proof (pristine_synced shop shop_pristine) as S0.
    apply (ss_synced _ _ _ (init_safe "a" false false 0 1000 shop)) in S0.
    exact (ss_synced _ _ _ (begin_safe 1 0 1000 _) S0). }
  assert (SV : serves shop_begun "orders" 0 shop_part []) by (apply shop_serves; vm_compute; reflexivity).
  destruct (produce_serves shop_begun "orders" 0 shop_part [] [order x01] 1 1000 0 SV)
    as (part & b & _ & SV' & Hl & _ & ST & _); [done|by apply (order_ok [x01])|done|apply shop_room; vm_compute; split; discriminate|].
  exists (txn_produce_record 1 "orders" 0 0 1 0 b).2, part, (batch_records 0 1000 [order x01]).
  assert (Hs' : synced b).
  { exact (ss_synced _ _ _ (quiet_safe None _ _ (same_tables_quiet _ _ ST)) Hs). }
  split; [exact (ss_synced _ _ _ (produce_record_safe 1 "orders" 0 0 1 0 b) Hs')|].
  destruct ST as (ET & _).
  assert (Ho : open_txns (b_txns b) !! 1 = Some (mkOpenTxn 1000 0 [] [] ∅ [])) by (rewrite ET; vm_compute; reflexivity).
  unfold txn_produce_record. rewrite Ho. cbn [snd]. split.
  - right. left. eexists. split; [apply lookup_insert_eq|]. exists (mkWritten "orders" 0 0 1 0 1). split; [left|reflexivity].
  - rewrite shop_leo in SV'. split; [by destruct SV'|done].
Qed.


(** ** Outcomes *)

(** The producer writes a record, somebody else the next one, and then the
    producer another. *)
Definition shop_interleaved : Broker PartitionLog :=
  let b := (buffer_txn_produce 1 0 "orders" 0 0 [order x01] 1000 shop_begun).2 in
  let b := (produce "orders" 0 [order x02] 1000 b).2 in
  (buffer_txn_produce 1 0 "orders" 0 1 [order x03] 1000 b).2.

Definition shop_txn : OpenTxn :=
  mkOpenTxn 1000 0 [] [mkWritten "orders" 0 0 1 0 1; mkWritten "orders" 0 2 3 1 1]
    {[("orders"%string, 0) := mkBatchState 1 1 2]} [].

Lemma shop_ending : ending shop_interleaved 1 0 1500 shop_txn.
Proof.
  split; [|vm_compute; reflexivity]. exists (mkProducer 0 true "a" false 0 ∅).
  split; [vm_compute; reflexivity|]. split; [reflexivity|]. split; [left; reflexivity|]. vm_compute. reflexivity.
Qed.

Lemma commit_exact_witness :
  ∃ b', end_txn [] 1 0 true [] 1500 shop_interleaved =
    (0, [mkCommitResult "orders" 0 0 1; mkCommitResult "orders" 0 2 1], b').
Proof.
  destruct (commit_exact [] shop_interleaved 1 0 1500 shop_txn [] shop_ending) as (b' & E & _). exists b'. exact E.
Defined.

(** The abort hides the record of the other producer, which is committed. *)
Lemma abort_exact_witness :
  ∃ b', end_txn [] 1 0 false [] 1500 shop_interleaved = (0, [], b') ∧ withheld (b_txns b') 2 "orders" 0 1.
Proof.
  destruct (abort_exact [] shop_interleaved 1 0 1500 shop_txn [] shop_ending) as (b' & E & _ & _ & HW).
  exists b'. split; [exact E|]. apply HW. right. left.
  exists (mkWritten "orders" 0 0 1 0 1), (mkWritten "orders" 0 2 3 1 1).
  split; [left|]. split; [right; left|]. split; [reflexivity|]. split; [reflexivity|]. cbn. lia.
Defined.

Lemma aborted_batch_blocks_reader_witness :
  ∃ b recs, zlen recs = 2 ∧ (∃ part, get_partition "orders" 0 b = Ok part ∧ ls_rep (p_log part) recs) ∧
    (fetch "orders" 0 0 1 1500 b).1 = Ok [].
Proof.
  assert (SV : serves shop "orders" 0 shop_part []) by by apply shop_serves.
  destruct (produce_serves shop "orders" 0 shop_part [] (map order [x01; x02]) 1 1000 0 SV)
    as (part & b & _ & SV' & Hl & _); [done|by apply order_ok|done|apply shop_room; vm_compute; split; discriminate|].
  rewrite shop_leo in SV'.
  exists (push_aborted_marker "orders" 0 (mkMarker 7 0 1) b), (batch_records 0 1000 (map order [x01; x02])).
  split; [done|]. split; [exists part; split; [apply SV'|exact (sv_rep _ _ _ _ _ SV')]|].
  apply (aborted_batch_blocks_reader _ "orders" 0 part (batch_records 0 1000 (map order [x01; x02])) 0 1);
    [apply SV'|exact (sv_rep _ _ _ _ _ SV')|done|].
  constructor; [|constructor]. left. by apply push_aborted_at.
Defined.

Lemma timeouts_release_readers_witness :
  let b := put_open 1 (mkOpenTxn 1000 0 [] [mkWritten "orders" 0 0 1 0 1] ∅ []) shop in
  (last_stable_offset "orders" 0 61000 b).1 =
  match high_watermark "orders" 0 (last_stable_offset "orders" 0 61000 b).2 with Ok h => h | Err _ => 0 end.
Proof.
  cbn zeta. set (b := put_open 1 _ shop).
  pose proof (timeouts_release_readers b "orders" 0 61000) as HT.
  destruct (last_stable_offset "orders" 0 61000 b) as [lso b']. destruct HT as [E _].
  - intros pid txn r Hl _ _. unfold b, put_open in Hl. cbn in Hl. apply lookup_insert_Some in Hl as [[<- <-]|[_ Hl]]; [vm_compute; reflexivity|by rewrite lookup_empty in Hl].
  - intros tid prp r Hl. cbn in Hl. by rewrite lookup_empty in Hl.
  - exact E.
Defined.

Lemma produce_window_exposes_witness :
  ∃ b', txn_produce_append "orders" 0 [order x01] 1500 shop = (inr 0, b') ∧ b_files b' = b_files shop ∧
    (fetch "orders" 0 0 1 1500 b').1 = Ok (batch_records 0 1500 [order x01]).
Proof.
  assert (SV : serves shop "orders" 0 shop_part []) by by apply shop_serves.
  destruct (produce_window_exposes shop "orders" 0 shop_part [] [order x01] 1500 0 SV) as (b' & E & F & G).
  - split; intros k x Hl; cbn in Hl; by rewrite lookup_empty in Hl.
  - done.
  - by apply (order_ok [x01]).
  - done.
  - apply shop_room. vm_compute. split; discriminate.
  - repeat constructor.
  - intros q o _ [(ms & m & Hl & _)|[(txn & Hl & _)|(tid & prp & Hl & _)]]; cbn in Hl; by rewrite lookup_empty in Hl.
  - rewrite shop_leo in *. exists b'. split; [exact E|]. split; [exact F|exact G].
Defined.
