(* ===== verification/ReplicationWitnesses.v ===== *)
(** * Replication: clusters at work

    Three brokers with one topic on [PartitionLog]s: the theorems on committed
    records and on catching up at work, and two failovers that lose a record
    every in-sync replica was said to have. *)

From Stdlib Require Import Strings.String.
From S2P Require Import Prelude Bytes Core Record SparseIndex Segment SegmentProps GroupCommit PartitionLog PartitionLogProps BrokerLog Messages Assignor OffsetStore OffsetStoreProps Group Cluster Broker KafkaRecords Txn LeaderEpoch Replication ReplicationProps TxnProducers LeaderEpochProps TxnWitnesses.
#[local] Open Scope Z_scope.

#[local] Instance fleet_store : LogStore PartitionLog := partition_log_store (H := crc_sum32) demo_plat.
#[local] Instance fleet_laws : LogStoreLaws PartitionLog := partition_log_laws (H := crc_sum32) demo_plat.
#[local] Existing Instance order_id.

(** Every partition is on an empty directory. *)
Definition fleet_open (topic : string) (pid : Z) : result PartitionLog := Ok shop_log.
Definition fleet_configure (topic : string) (l : PartitionLog) : PartitionLog := l.

Definition fleet_assignment (replicas : list Z) (leader : Z) : AssignmentSnapshot :=
  mkAssignment 1 {["orders" := mkTopicAssignment 1 "orders"
    {[0 := mkPartitionAssignment replicas leader replicas 0]}]}.

Definition fleet_part (replicas : list Z) (leader : Z) : Partition PartitionLog :=
  mkPartition 0 shop_log leader replicas replicas 0 0 ∅ ∅.

(** Node [id] of three, a follower in sync up to [lag] messages behind. *)
Definition fleet_node (replicas : list Z) (leader lag id : Z) : Broker PartitionLog :=
  mkBroker id
    (Some (mkCluster 1 lag 0 None None (new_membership id 60000 [1; 2; 3] 0)
       (fleet_assignment replicas leader) (fleet_assignment replicas leader))) false
    {["orders" := mkTopic 1 "orders" {[0 := fleet_part replicas leader]}]} 0
    (mkGroupCoordinator ∅ ∅ (mkFs ∅ ∅))
    (mkTxns 1 ∅ ∅ ∅ ∅ ∅ ∅ ∅ 60000 60000 0 0 0 0) (mkTxnFiles None None None None)
    (mkMeta 2 ∅ ∅ ∅ [] 0 0 0).

Definition fleet_exchange (bl bf : Broker PartitionLog) : Broker PartitionLog * Broker PartitionLog :=
  fetch_round "orders" 0 (bl, bf) (1048576, 0, 1000).

(** The broker sees another die. *)
Definition fleet_sees (dead : Z) (b : Broker PartitionLog) : Broker PartitionLog :=
  (on_broker_death fleet_open fleet_configure dead 1000 b).2.

(** The broker takes the assignment of the controller. *)
Definition fleet_learns (controller b : Broker PartitionLog) : Broker PartitionLog :=
  let '(_, generation, _, topics) := cluster_state_snapshot controller in
  (apply_cluster_state fleet_open fleet_configure generation topics 1000 b).2.

Definition values (r : result (list LogRecord)) : list (list byte) :=
  match r with Ok rs => map rec_value rs | Err _ => [] end.

(** ** Failovers that lose acknowledged records *)

(** Broker 1 leads; record [x] reaches broker 3 only. Broker 1 dies and 2 is
    elected. Record [y], asked for on all in-sync replicas, is acknowledged once
    broker 3 asks from its own log end, which counts as having [y]. Broker 2
    dies too. *)
Definition divergence : list (list byte) * ProduceOutcome * list (list byte) :=
  let b1 := fleet_node [1; 2; 3] 1 10 1 in
  let b2 := fleet_node [1; 2; 3] 1 10 2 in
  let b3 := fleet_node [1; 2; 3] 1 10 3 in
  let '(x, b1) := produce_with_acks "orders" 0 [order x01] 1 1000 b1 in
  let '(b1, b3) := fleet_exchange b1 b3 in
  let b2 := fleet_sees 1 b2 in
  let b3 := fleet_learns b2 (fleet_sees 1 b3) in
  let '(y, b2) := produce_inner "orders" 0 [order x02] 255 true 1000 b2 in
  let '(b2, b3) := fleet_exchange b2 b3 in
  let ack := match y with
             | Ok (AwaitHwm rs target) => produce_wake "orders" 0 rs target false b2
             | Ok o => o
             | Err _ => Produced [] 0
             end in
  let b3 := fleet_sees 2 b3 in
  (values (fetch "orders" 0 0 10 1000 b2).1, ack, values (fetch "orders" 0 0 10 1000 b3).1).

(** With three replicas and an in-sync set of all of them, a record
    is acknowledged as being on every in-sync replica of its leader, broker 2,
    and readable there; when broker 2 dies, the next leader serves another record
    at the same offset. The follower's log is never cut back to its new leader's. *)
Theorem failover_diverges : ∃ rs, divergence = ([[x02]], Produced rs 0, [[x01]]).
Proof. eexists. vm_compute. reflexivity. Qed.

(** Broker 2 leads and broker 1 is the controller. Two records reach broker 1;
    broker 3, two behind, leaves the in-sync set of the leader, which
    acknowledges them and dies before its report of the new set is sent. *)
Definition stale_isr : ProduceOutcome * list Z * list Z * result Z * Z :=
  let b1 := fleet_node [2; 3; 1] 2 1 1 in
  let b2 := fleet_node [2; 3; 1] 2 1 2 in
  let b3 := fleet_node [2; 3; 1] 2 1 3 in
  let '(y, b2) := produce_inner "orders" 0 [order x01; order x02] 255 true 1000 b2 in
  let '(b2, b1) := fleet_exchange b2 b1 in
  let '(b2, b1) := fleet_exchange b2 b1 in
  let ack := match y with
             | Ok (AwaitHwm rs target) => produce_wake "orders" 0 rs target false b2
             | Ok o => o
             | Err _ => Produced [] 0
             end in
  let b1 := fleet_sees 2 b1 in
  let b3 := fleet_learns b1 (fleet_sees 2 b3) in
  (ack, match get_partition "orders" 0 b2 with Ok q => p_isr q | Err _ => [] end,
   map ir_partition (pending_isr_reports (b_meta b2)),
   log_end_offset "orders" 0 b3, match get_partition "orders" 0 b3 with Ok q => p_leader q | Err _ => 0 end).

(** A leader that drops a slow replica from its in-sync set
    acknowledges records the rest have before the controller has heard of the
    new set: the controller then elects the dropped replica, whose log is
    empty. *)
Theorem stale_isr_elects_laggard : ∃ rs, stale_isr = (Produced rs 0, [2; 1], [0], Ok 0, 3) ∧ length rs = 2%nat.
Proof. eexists. split; vm_compute; reflexivity. Qed.

(** ** The theorems at work *)

(** Two replicas, broker 1 leading. *)
Definition duo (id : Z) : Broker PartitionLog := fleet_node [1; 2] 1 10 id.
Definition duo_nodes : gmap Z (Broker PartitionLog) := {[1 := duo 1; 2 := duo 2]}.

Lemma duo_part id : get_partition "orders" 0 (duo id) = Ok (fleet_part [1; 2] 1).
Proof. vm_compute. reflexivity. Qed.

Lemma fleet_leo replicas leader : leo (H := fleet_store) (fleet_part replicas leader) = 0.
Proof. exact (proj1 shop_log_state). Qed.

Lemma duo_node id : node_ok "orders" 0 1 0 [] id (duo id).
Proof.
  exists (fleet_part [1; 2] 1), []. split; [apply duo_part|]. split; [done|]. split; [by eexists|]. split; [done|].
  split; [exact shop_rep|]. split; [by rewrite fleet_leo|done].
Qed.

Lemma duo_reaches id : id ∈ [1; 2] → reaches "orders" 0 duo_nodes id 0.
Proof.
  intros Hid. exists (duo id), (fleet_part [1; 2] 1). split; [|split; [apply duo_part|by rewrite fleet_leo]].
  apply elem_of_cons in Hid as [->|Hid]; [|apply list_elem_of_singleton in Hid as ->]; reflexivity.
Qed.

Lemma duo_tenure : tenure "orders" 0 1 0 [] (mkNet duo_nodes []).
Proof.
  split; cbn [nodes wires].
  - exact I.
  - intros id b Hb. unfold duo_nodes in Hb. apply lookup_insert_Some in Hb as [[<- <-]|[_ Hb]]; [apply duo_node|].
    apply lookup_singleton_Some in Hb as [<- <-]. apply duo_node.
  - exists (duo 1), (fleet_part [1; 2] 1). split; [reflexivity|]. split.
    + apply duo_part.
    + exact shop_rep.
    + apply map_Forall_empty.
    + by left.
    + reflexivity.
    + intros id Hid. by apply duo_reaches.
    + intros id o Ho. change ((∅ : gmap Z Z) !! id = Some o) in Ho. by rewrite lookup_empty in Ho.
  - intros id dst o Ho. by apply not_elem_of_nil in Ho.
  - intros id code ep rs Ho. by apply not_elem_of_nil in Ho.
Qed.

(** The leader after a produce, the answer to the first fetch of the follower,
    and the follower and the leader after it and after the second fetch. *)
Definition duo_led : Broker PartitionLog := (produce_with_acks "orders" 0 [order x01] 255 1000 (duo 1)).2.
Definition duo_serve (o : Z) (b : Broker PartitionLog) :=
  handle_replica_fetch "orders" 0 o 1048576 2 0 b.
Definition duo_records : list FetchRecord :=
  match (duo_serve 0 duo_led).1 with Ok (_, _, _, rs) => rs | Err _ => [] end.
Definition duo_follower : Broker PartitionLog := (take_replica_fetch "orders" 0 0 0 duo_records 1000 (duo 2)).2.
Definition duo_leader : Broker PartitionLog := (duo_serve 1 (duo_serve 0 duo_led).2).2.

Lemma duo_run : ∃ n, rtc (repl_step fleet_open fleet_configure "orders" 0) (mkNet duo_nodes []) n ∧
  nodes n !! 1 = Some duo_leader.
Proof.
  eexists. split.
  - eapply rtc_l.
    { apply (rp_produce _ _ _ _ _ _ 1 (duo 1) [order x01] 255 1000); [reflexivity|by apply (order_ok [x01])|].
      intros q Hq. rewrite duo_part in Hq. injection Hq as <-. apply shop_room. vm_compute. split; discriminate. }
    eapply rtc_l.
    { apply (rp_ask _ _ _ _ order_id _ _ 2 (duo 2) 1 0); [reflexivity|]. vm_compute. left. }
    eapply rtc_l.
    { apply (rp_serve _ _ _ _ order_id _ _ 2 1 0 duo_led 1048576 0 0 0 0 duo_records (duo_serve 0 duo_led).2);
        [left|reflexivity|vm_compute; reflexivity]. }
    eapply rtc_l.
    { apply (rp_take _ _ _ _ _ _ 2 0 0 duo_records (duo 2) 1000); [left|reflexivity|split; vm_compute; discriminate|].
      intros q Hq. rewrite duo_part in Hq. injection Hq as <-. apply shop_room. vm_compute. split; discriminate. }
    eapply rtc_l.
    { apply (rp_ask _ _ _ _ order_id _ _ 2 duo_follower 1 1); [reflexivity|]. vm_compute. left. }
    apply rtc_once.
    apply (rp_serve _ _ _ _ order_id _ _ 2 1 1 (duo_serve 0 duo_led).2 1048576 0 0 1 0 [] duo_leader);
      [left|reflexivity|vm_compute; reflexivity].
  - reflexivity.
Qed.

(** The record is on broker 2 when it may be elected. *)
Lemma committed_on_isr_witness :
  ∃ n b q rq, rtc (repl_step fleet_open fleet_configure "orders" 0) (mkNet duo_nodes []) n ∧
    nodes n !! 2 = Some b ∧ get_partition "orders" 0 b = Ok q ∧ ls_rep (p_log q) rq ∧
    mkLogRecord 0 None [x01] 1000 [] ∈ rq.
Proof.
  destruct duo_run as (n & Hrun & Hn).
  assert (Hq : ∃ ql, get_partition "orders" 0 duo_leader = Ok ql ∧ p_committed_hwm ql = 1 ∧
    elect_leader (p_replicas ql) (p_isr ql) [2] = Some 2 ∧ ls_read 0 1 (p_log ql) = Ok [mkLogRecord 0 None [x01] 1000 []]).
  { eexists. split; [vm_compute; reflexivity|]. split; [reflexivity|]. split; vm_compute; reflexivity. }
  destruct Hq as (ql & Hql & Hh & He & Hread).
  destruct (committed_on_isr fleet_open fleet_configure "orders" 0 1 0 [] _ n duo_leader ql [2] 2 duo_tenure Hrun Hn Hql He)
    as (recs & b & q & rq & _ & R & Hb & Hq & Rq & _ & Hin & _).
  exists n, b, q, rq. do 4 (split; [done|]). apply Hin; [|by rewrite Hh].
  rewrite (ls_read_ok _ _ 0 1 R ltac:(done)) in Hread. injection Hread as Hread.
  assert (Hx : mkLogRecord 0 None [x01] 1000 [] ∈ take (Z.to_nat 1) (filter (λ r, 0 ≤ rec_offset r) recs))
    by (rewrite Hread; left).
  eapply subseteq_take in Hx. by apply list_elem_of_filter in Hx as [_ ?].
Defined.

(** The partition of the leader after a produce, and its records. *)
Definition duo_part_led : Partition PartitionLog :=
  mkPartition 0 (ls_append_batch [order x01] 1000 shop_log).2 1 [1; 2] [1; 2] 0 0 ∅ ∅.

Lemma duo_led_part : get_partition "orders" 0 duo_led = Ok duo_part_led.
Proof. vm_compute. reflexivity. Qed.

Lemma duo_led_rep : ls_rep (p_log duo_part_led) (batch_records 0 1000 [order x01]).
Proof.
  destruct (ls_append_batch_ok (H := fleet_store) shop_log [] [order x01] 1000 shop_rep) as (l' & E & R & _);
    [apply shop_room; vm_compute; split; discriminate|by apply (order_ok [x01])|].
  unfold duo_part_led. cbn [p_log]. rewrite E. cbn [snd].
  change (ls_end shop_log) with (log_next_offset shop_log) in R. by rewrite (proj1 shop_log_state) in R.
Qed.


(** A leader with segments of one record each, whose first record is deleted,
    and a follower that has none. *)
Definition short_config : StorageConfig := mkStorageConfig 32 false 0 0 0 4096 None None false false.
Definition short_log : PartitionLog :=
  match open (H := crc_sum32) demo_plat short_config [] 0 with
  | Ok l => l
  | Err _ => mkPartitionLog short_config [] 0 0 (GroupCommit.new 0 1) 0
  end.
Definition short_two : PartitionLog :=
  (ls_append_batch [order x02] 1000 (ls_append_batch [order x01] 1000 short_log).2).2.
Definition short_cut : PartitionLog := (ls_delete 1 1000 short_two).2.

Lemma short_room n : 0 ≤ n ≤ 1000 → ls_room n short_log.
Proof.
  intros Hn. assert (E : log_next_offset short_log = 0 ∧ flush_gen (state (group short_log)) = 0) by (split; vm_compute; reflexivity).
  destruct E as [E1 E2]. split; [rewrite E1|rewrite E2]; unfold u64_max; lia.
Qed.

Lemma short_cut_rep : ∃ recs, ls_rep short_cut recs ∧ zlen recs ≤ 2 ∧ ls_start short_cut = 1.
Proof.
  assert (R : ls_rep short_log []).
  { destruct (demo_open_with short_config) as (l & E & R & G & _); [split; [split; vm_compute; discriminate|done]|done|].
    unfold short_log. rewrite E. split; [exact R|]. by destruct G as [? []]. }
  destruct (ls_append_batch_ok short_log [] [order x01] 1000 R) as (l1 & E1 & R1 & _ & Hr1);
    [apply short_room; split; vm_compute; discriminate|by apply (order_ok [x01])|].
  destruct (ls_append_batch_ok l1 _ [order x02] 1000 R1) as (l2 & E2 & R2 & _);
    [apply Hr1, short_room; split; vm_compute; discriminate|by apply (order_ok [x02])|].
  destruct (ls_delete_ok l2 _ 1 1000 R2) as (l3 & recs & E3 & R3 & _ & Hs & _); [split; vm_compute; discriminate|].
  assert (short_cut = l3) as Hc by (unfold short_cut, short_two; rewrite E1; cbn [snd]; rewrite E2; cbn [snd]; rewrite E3; reflexivity).
  exists recs. split; [by rewrite Hc|]. split; [|vm_compute; reflexivity].
  apply suffix_length in Hs. unfold zlen. cbn in Hs. lia.
Qed.

Definition short_leader : Broker PartitionLog :=
  put_partition "orders" 0 (set_log short_cut (fleet_part [1; 2] 1)) (duo 1).

Lemma truncated_leader_strands_follower_witness :
  ∃ bl' bf' qf', foldl (fetch_round "orders" 0) (short_leader, duo 2) [(1048576, 0, 1000); (1048576, 0, 1001)] = (bl', bf') ∧
    get_partition "orders" 0 bf' = Ok qf' ∧ leo qf' = 0.
Proof.
  destruct short_cut_rep as (recs & R & Hz & Hs). pose proof (fleet_leo [1; 2] 1) as Hf.
  destruct (truncated_leader_strands_follower "orders" 0 recs [] short_leader (duo 2)
    (set_log short_cut (fleet_part [1; 2] 1)) (fleet_part [1; 2] 1) [(1048576, 0, 1000); (1048576, 0, 1001)])
    as (bl' & bf' & ql' & qf' & E & _ & _ & Hqf & _ & Hl).
  - split.
    + eapply get_put, duo_part.
    + exact R.
    + apply map_Forall_empty.
    + reflexivity.
    + vm_compute. discriminate.
    + eexists. split; [vm_compute; reflexivity|]. vm_compute. discriminate.
    + apply duo_part.
    + reflexivity.
    + exact shop_rep.
  - rewrite Hf. pose proof (proj2 (ls_offsets _ _ R)) as HF. rewrite Hs in HF.
    eapply Forall_impl; [exact HF|]. intros r Hr. cbn in *. lia.
  - apply shop_room. pose proof (zlen_nonneg recs). lia.
  - do 2 (constructor; [split; vm_compute; discriminate|]). constructor.
  - exists bl', bf', qf'. rewrite Hf in Hl. exact (conj E (conj Hqf Hl)).
Defined.

