(* ===== verification/Acl.v ===== *)
(** * Access control: [volant-broker/src/acl.rs]

    The bindings, their file, the authorizer and the shared state; the admin
    operations of [broker/admin.rs] that change them on the controller and
    copy them to the other brokers; the generations of [cluster_admin.rs];
    and the gate [authorize_request] of [net/dispatch.rs].  serde_json is an
    interface; a file is the text last written to it. *)

From Stdlib Require Import Strings.String.
From S2P Require Import Prelude Bytes Text Wire Messages Request Response.
#[local] Open Scope Z_scope.

(** ** Bindings *)

Inductive ResourceType := Topic | Group | Cluster | User | TransactionalId.

Inductive AclOperation := All | Read | Write | Create | Delete | Describe | Alter | ClusterAction.

Inductive AclPermission := Deny | Allow.

#[export] Instance ResourceType_eq_dec : EqDecision ResourceType.
Proof. solve_decision. Defined.
#[export] Instance AclOperation_eq_dec : EqDecision AclOperation.
Proof. solve_decision. Defined.
#[export] Instance AclPermission_eq_dec : EqDecision AclPermission.
Proof. solve_decision. Defined.

Definition resource_type_from_u8 (v : Z) : option ResourceType :=
  match v with
  | 0 => Some Topic
  | 1 => Some Group
  | 2 => Some Cluster
  | 3 => Some User
  | 4 => Some TransactionalId
  | _ => None
  end.

Definition resource_type_as_u8 (t : ResourceType) : Z :=
  match t with Topic => 0 | Group => 1 | Cluster => 2 | User => 3 | TransactionalId => 4 end.

Definition resource_type_parse (s : string) : result ResourceType :=
  let s := to_ascii_lowercase s in
  if String.eqb s "topic" then Ok Topic
  else if String.eqb s "group" then Ok Group
  else if String.eqb s "cluster" then Ok Cluster
  else if String.eqb s "user" then Ok User
  else if String.eqb s "transactionalid" then Ok TransactionalId
  else Err (InvalidArgument "unknown resource_type").

Definition resource_type_as_str (t : ResourceType) : string :=
  match t with
  | Topic => "Topic"
  | Group => "Group"
  | Cluster => "Cluster"
  | User => "User"
  | TransactionalId => "TransactionalId"
  end.

Definition operation_from_u8 (v : Z) : option AclOperation :=
  match v with
  | 0 => Some All
  | 1 => Some Read
  | 2 => Some Write
  | 3 => Some Create
  | 4 => Some Delete
  | 5 => Some Describe
  | 6 => Some Alter
  | 7 => Some ClusterAction
  | _ => None
  end.

Definition operation_as_u8 (o : AclOperation) : Z :=
  match o with
  | All => 0 | Read => 1 | Write => 2 | Create => 3 | Delete => 4 | Describe => 5 | Alter => 6 | ClusterAction => 7
  end.

Definition operation_parse (s : string) : result AclOperation :=
  let s := to_ascii_lowercase s in
  if String.eqb s "all" then Ok All
  else if String.eqb s "read" then Ok Read
  else if String.eqb s "write" then Ok Write
  else if String.eqb s "create" then Ok Create
  else if String.eqb s "delete" then Ok Delete
  else if String.eqb s "describe" then Ok Describe
  else if String.eqb s "alter" then Ok Alter
  else if String.eqb s "clusteraction" || String.eqb s "cluster_action" then Ok ClusterAction
  else Err (InvalidArgument "unknown operation").

Definition operation_as_str (o : AclOperation) : string :=
  match o with
  | All => "All"
  | Read => "Read"
  | Write => "Write"
  | Create => "Create"
  | Delete => "Delete"
  | Describe => "Describe"
  | Alter => "Alter"
  | ClusterAction => "ClusterAction"
  end.

Definition operation_matches (self required : AclOperation) : bool :=
  bool_decide (self = All) || bool_decide (self = required).

Definition permission_from_u8 (v : Z) : option AclPermission :=
  match v with 0 => Some Deny | 1 => Some Allow | _ => None end.

Definition permission_as_u8 (p : AclPermission) : Z := match p with Deny => 0 | Allow => 1 end.

Definition permission_parse (s : string) : result AclPermission :=
  let s := to_ascii_lowercase s in
  if String.eqb s "deny" then Ok Deny
  else if String.eqb s "allow" then Ok Allow
  else Err (InvalidArgument "unknown permission").

Definition permission_as_str (p : AclPermission) : string :=
  match p with Deny => "Deny" | Allow => "Allow" end.

Record AclEntry := mkAclEntry {
  e_principal : string;
  e_resource_type : ResourceType;
  e_resource : string;
  e_operation : AclOperation;
  e_permission : AclPermission;
}.

#[export] Instance AclEntry_eq_dec : EqDecision AclEntry.
Proof. solve_decision. Defined.

Definition principal_matches (e : AclEntry) (principal : string) : bool :=
  String.eqb (e_principal e) "*" || String.eqb (e_principal e) principal.

Definition resource_matches (e : AclEntry) (name : string) : bool :=
  String.eqb (e_resource e) "*" || String.eqb (e_resource e) name.

Definition entry_matches (e : AclEntry) (principal : string) (resource_type : ResourceType) (resource : string)
    (operation : AclOperation) : bool :=
  principal_matches e principal && bool_decide (e_resource_type e = resource_type) &&
  resource_matches e resource && operation_matches (e_operation e) operation.

Definition CLUSTER_RESOURCE : string := "volant".

Record AclSnapshot := mkAclSnapshot {
  snap_enabled : bool;
  snap_entries : list AclEntry;
}.

#[export] Instance AclSnapshot_eq_dec : EqDecision AclSnapshot.
Proof. solve_decision. Defined.

Definition default_snapshot : AclSnapshot := mkAclSnapshot false [].

(** ** Generations: [cluster_admin.rs] *)

Record ClusterAdminFile := mkClusterAdminFile {
  caf_version : Z;
  caf_config_generation : Z;
  caf_applied_config_generation : Z;
  caf_acl_generation : Z;
  caf_applied_acl_generation : Z;
}.

Definition CLUSTER_ADMIN_FILE_VERSION : Z := 1.

(** serde_json on these records, and on the bare array of bindings. *)
Class AdminJson := {
  snapshot_to_string : AclSnapshot → option bytes;
  snapshot_from_str : bytes → option AclSnapshot;
  snapshot_to_vec : AclSnapshot → option bytes;
  snapshot_from_slice : bytes → option AclSnapshot;
  entries_from_str : bytes → option (list AclEntry);
  admin_to_string : ClusterAdminFile → option bytes;
  admin_from_str : bytes → option ClusterAdminFile;
}.

Section acl.
Context `{AdminJson}.

(** ** [AclStore] *)

Definition starts_with_bracket (b : bytes) : bool :=
  match trim_start_bytes b with c :: _ => byte_val c =? 91 | [] => false end.

Definition load (store : TextFile) : result AclSnapshot :=
  match text store with
  | None => Ok default_snapshot
  | Some buf =>
    if negb (utf8_valid buf) then Err (Storage "read acl store: ")
    else match trim_bytes buf with
    | [] => Ok default_snapshot
    | _ :: _ =>
      if starts_with_bracket buf then
        match entries_from_str buf with
        | Some entries => Ok (mkAclSnapshot (negb (bool_decide (entries = []))) entries)
        | None => Err (Storage "parse acl array: ")
        end
      else match snapshot_from_str buf with
      | Some snap => Ok snap
      | None => Err (Storage "parse acl store: ")
      end
    end
  end.

Definition save (snap : AclSnapshot) (store : TextFile) : result unit * TextFile :=
  match snapshot_to_string snap with
  | Some json => write_file "acl store" json store
  | None => (Err (Storage "encode acl store: "), store)
  end.

(** ** [AclAuthorizer] *)

Record AclAuthorizer := mkAclAuthorizer {
  enabled : bool;
  super_users : gset string;
  entries : list AclEntry;
}.

Definition new_authorizer : AclAuthorizer := mkAclAuthorizer false ∅ [].

Definition set_enabled (b : bool) (a : AclAuthorizer) : AclAuthorizer :=
  mkAclAuthorizer b (super_users a) (entries a).

Definition set_super_users (users : list string) (a : AclAuthorizer) : AclAuthorizer :=
  mkAclAuthorizer (enabled a) (list_to_set (filter (λ s, s ≠ ""%string) users)) (entries a).

Definition apply_snapshot (snap : AclSnapshot) (a : AclAuthorizer) : AclAuthorizer :=
  mkAclAuthorizer (snap_enabled snap) (super_users a) (snap_entries snap).

Definition snapshot (a : AclAuthorizer) : AclSnapshot := mkAclSnapshot (enabled a) (entries a).

(** [content] is the text at the path, if it can be read. *)
Definition load_file (content : option bytes) (a : AclAuthorizer) : result unit * AclAuthorizer :=
  match content with
  | Some t =>
    if negb (utf8_valid t) then (Err (InvalidArgument "read acl file "), a)
    else if starts_with_bracket t then
      match entries_from_str t with
      | Some l => (Ok tt, mkAclAuthorizer true (super_users a) l)
      | None => (Err (InvalidArgument "parse acl file "), a)
      end
    else match snapshot_from_str t with
    | Some snap => (Ok tt, set_enabled true (apply_snapshot snap a))
    | None => (Err (InvalidArgument "parse acl file "), a)
    end
  | None => (Err (InvalidArgument "read acl file "), a)
  end.

Definition push_new (es : list AclEntry) (e : AclEntry) : list AclEntry :=
  if bool_decide (e ∈ es) then es else es ++ [e].

Definition create (new_entries : list AclEntry) (a : AclAuthorizer) : AclAuthorizer :=
  mkAclAuthorizer true (super_users a) (foldl push_new (entries a) new_entries).

Definition delete (victims : list AclEntry) (a : AclAuthorizer) : Z * AclAuthorizer :=
  let kept := filter (λ e, e ∉ victims) (entries a) in
  (zlen (entries a) - zlen kept, mkAclAuthorizer (enabled a) (super_users a) kept).

Definition listed (principal : option string) (resource_type : option ResourceType) (resource : option string)
    (e : AclEntry) : bool :=
  match principal with Some p => String.eqb p "" || String.eqb (e_principal e) p | None => true end &&
  match resource_type with Some rt => bool_decide (e_resource_type e = rt) | None => true end &&
  match resource with Some r => String.eqb r "" || String.eqb (e_resource e) r | None => true end.

Definition list_entries (principal : option string) (resource_type : option ResourceType) (resource : option string)
    (a : AclAuthorizer) : list AclEntry :=
  filter (λ e, listed principal resource_type resource e = true) (entries a).

(** The loop of [authorize]. *)
Fixpoint authorize_from (es : list AclEntry) (p : string) (resource_type : ResourceType) (resource : string)
    (operation : AclOperation) (allowed : bool) : bool :=
  match es with
  | [] => allowed
  | e :: es =>
    if negb (entry_matches e p resource_type resource operation) then
      authorize_from es p resource_type resource operation allowed
    else if bool_decide (e_permission e = Deny) then false
    else authorize_from es p resource_type resource operation true
  end.

Definition authorize (principal : option string) (resource_type : ResourceType) (resource : string)
    (operation : AclOperation) (a : AclAuthorizer) : bool :=
  if negb (enabled a) then true
  else
    let p := default ""%string principal in
    if bool_decide (p ∈ super_users a) then true
    else authorize_from (entries a) p resource_type resource operation false.

(** ** [AclState] *)

Record AclState := mkAclState {
  inner : AclAuthorizer;
  auth_principal : string;
  store : option TextFile;
}.

Definition new_state : AclState := mkAclState new_authorizer "token" None.

(** On the directory's file. *)
Definition open_state (f : TextFile) : result AclState :=
  let? snap := load f in
  Ok (mkAclState (apply_snapshot snap new_authorizer) "token" (Some f)).

Definition persist (a : AclAuthorizer) (s : AclState) : result unit * AclState :=
  match store s with
  | Some f =>
    let '(r, f) := save (snapshot a) f in
    (r, mkAclState a (auth_principal s) (Some f))
  | None => (Ok tt, mkAclState a (auth_principal s) None)
  end.

Definition configure (enable : bool) (file : option (option bytes)) (users : list string) (principal : string)
    (s : AclState) : result unit * AclState :=
  let a := set_super_users users (inner s) in
  let done s := (Ok tt, mkAclState (inner s) (if String.eqb principal "" then "token"%string else principal) (store s)) in
  match file with
  | Some content =>
    match load_file content a with
    | (Ok _, a) => let! (_, s) := persist a s in done s
    | (Err e, a) => (Err e, mkAclState a (auth_principal s) (store s))
    end
  | None =>
    if enable then let! (_, s) := persist (set_enabled true a) s in done s
    else done (mkAclState a (auth_principal s) (store s))
  end.

Definition state_create (es : list AclEntry) (s : AclState) : result unit * AclState :=
  persist (create es (inner s)) s.

Definition state_delete (es : list AclEntry) (s : AclState) : result Z * AclState :=
  let '(n, a) := delete es (inner s) in
  let! (_, s) := persist a s in (Ok n, s).

Definition install_snapshot (snap : AclSnapshot) (s : AclState) : result unit * AclState :=
  persist (apply_snapshot snap (inner s)) s.

Definition encode_snapshot_bytes (s : AclState) : result bytes :=
  match snapshot_to_vec (snapshot (inner s)) with
  | Some b => Ok b
  | None => Err (Storage "encode acl snapshot: ")
  end.

Definition decode_snapshot_bytes (b : bytes) : result AclSnapshot :=
  match b with
  | [] => Ok default_snapshot
  | _ =>
    match snapshot_from_slice b with
    | Some s => Ok s
    | None => Err (Storage "decode acl snapshot: ")
    end
  end.

(** ** The bindings in a cluster: [broker/admin.rs] *)

Definition InvalidArgError : Z := 3.
Definition StorageError : Z := 4.
Definition NotControllerError : Z := 14.
Definition AuthorizationFailed : Z := 23.

(** The fields of [Broker] these operations use: whether it runs in a
    cluster, whether it is the controller, the four generations and the file
    that keeps them. *)
Record AdminBroker := mkAdminBroker {
  acls : AclState;
  in_cluster : bool;
  controller : bool;
  config_generation : Z;
  applied_config_generation : Z;
  acl_generation : Z;
  applied_acl_generation : Z;
  admin_file : TextFile;
}.

Definition with_acls (s : AclState) (b : AdminBroker) : AdminBroker :=
  mkAdminBroker s (in_cluster b) (controller b) (config_generation b) (applied_config_generation b)
    (acl_generation b) (applied_acl_generation b) (admin_file b).

Definition with_acl_generations (gen applied : Z) (b : AdminBroker) : AdminBroker :=
  mkAdminBroker (acls b) (in_cluster b) (controller b) (config_generation b) (applied_config_generation b)
    gen applied (admin_file b).

(** [ClusterAdminStore::load], [save] *)
Definition load_admin (f : TextFile) : result ClusterAdminFile :=
  let empty := mkClusterAdminFile CLUSTER_ADMIN_FILE_VERSION 0 0 0 0 in
  match text f with
  | None => Ok empty
  | Some buf =>
    if negb (utf8_valid buf) then Err (Storage "read cluster admin: ")
    else match trim_bytes buf with
    | [] => Ok empty
    | _ :: _ =>
      match admin_from_str buf with
      | Some g =>
        Ok (if caf_version g =? 0 then
              mkClusterAdminFile CLUSTER_ADMIN_FILE_VERSION (caf_config_generation g)
                (caf_applied_config_generation g) (caf_acl_generation g) (caf_applied_acl_generation g)
            else g)
      | None => Err (Storage "parse cluster admin: ")
      end
    end
  end.

Definition save_admin (state : ClusterAdminFile) (f : TextFile) : result unit * TextFile :=
  let out := mkClusterAdminFile CLUSTER_ADMIN_FILE_VERSION (caf_config_generation state)
    (caf_applied_config_generation state) (caf_acl_generation state) (caf_applied_acl_generation state) in
  match admin_to_string out with
  | Some json => write_file "cluster admin" json f
  | None => (Err (Storage "encode cluster admin: "), f)
  end.

Definition persist_cluster_admin_gens (b : AdminBroker) : AdminBroker :=
  let file := mkClusterAdminFile CLUSTER_ADMIN_FILE_VERSION (config_generation b) (applied_config_generation b)
    (acl_generation b) (applied_acl_generation b) in
  mkAdminBroker (acls b) (in_cluster b) (controller b) (config_generation b) (applied_config_generation b)
    (acl_generation b) (applied_acl_generation b) (save_admin file (admin_file b)).2.

Definition load_cluster_admin_gens (b : AdminBroker) : result AdminBroker :=
  let? g := load_admin (admin_file b) in
  Ok (mkAdminBroker (acls b) (in_cluster b) (controller b) (caf_config_generation g) (caf_applied_config_generation g)
    (caf_acl_generation g) (caf_applied_acl_generation g) (admin_file b)).

Definition handle_cluster_acl_snapshot (generation : Z) (snapshot : bytes) (b : AdminBroker) : (Z * Z) * AdminBroker :=
  let applied := applied_acl_generation b in
  if generation <=? applied then (0, applied, b)
  else match decode_snapshot_bytes snapshot with
  | Err _ => (InvalidArgError, applied, b)
  | Ok snap =>
    match install_snapshot snap (acls b) with
    | (Err _, s) => (StorageError, applied, with_acls s b)
    | (Ok _, s) =>
      let cur := acl_generation b in
      let b := with_acl_generations (if cur <? generation then generation else cur) generation (with_acls s b) in
      (0, generation, persist_cluster_admin_gens b)
    end
  end.

Definition bump_acl_generation_if_cluster (b : AdminBroker) : option Z * AdminBroker :=
  if negb (in_cluster b) then (None, b)
  else
    let gen := u64_wrapping_add (acl_generation b) 1 in
    (Some gen, persist_cluster_admin_gens (with_acl_generations gen gen b)).

(** The two halves of the operations below: the change under the lock of the
    bindings, and the generation that announces it. *)
Definition create_acls_locked (es : list AclEntry) (b : AdminBroker) : result unit * AdminBroker :=
  if in_cluster b && negb (controller b) then (Err (InvalidArgument "not controller"), b)
  else let '(r, s) := state_create es (acls b) in (r, with_acls s b).

Definition delete_acls_locked (es : list AclEntry) (b : AdminBroker) : result Z * AdminBroker :=
  if in_cluster b && negb (controller b) then (Err (InvalidArgument "not controller"), b)
  else let '(r, s) := state_delete es (acls b) in (r, with_acls s b).

Definition create_acls_admin (es : list AclEntry) (b : AdminBroker) : result (option Z) * AdminBroker :=
  let! (_, b) := create_acls_locked es b in
  let '(gen, b) := bump_acl_generation_if_cluster b in (Ok gen, b).

Definition delete_acls_admin (es : list AclEntry) (b : AdminBroker) : result (Z * option Z) * AdminBroker :=
  let! (n, b) := delete_acls_locked es b in
  let '(gen, b) := if 0 <? n then bump_acl_generation_if_cluster b else (None, b) in
  (Ok (n, gen), b).

Definition acl_snapshot_wire_bytes (b : AdminBroker) : result bytes := encode_snapshot_bytes (acls b).

(** The second component of [peer_admin_gens_lag]. *)
Definition peer_acl_gen_lags (peer_applied_acl : Z) (b : AdminBroker) : bool :=
  (0 <? acl_generation b) && (peer_applied_acl <? acl_generation b).

(** A broker started again on its files ([open_with_cluster]). *)
Definition restart_admin (b : AdminBroker) : result AdminBroker :=
  let f := default (mkTextFile None true) (store (acls b)) in
  let? s := open_state f in
  load_cluster_admin_gens (with_acls s b).

(** ** The handlers of [net/dispatch.rs] *)

Definition wire_to_acl_entry (e : AclBinding) : result AclEntry :=
  match resource_type_from_u8 (acl_resource_type e) with
  | None => Err (InvalidArgument "invalid resource_type ")
  | Some resource_type =>
    match operation_from_u8 (acl_operation e) with
    | None => Err (InvalidArgument "invalid operation ")
    | Some operation =>
      match permission_from_u8 (acl_permission e) with
      | None => Err (InvalidArgument "invalid permission ")
      | Some permission =>
        if String.eqb (acl_principal e) "" then Err (InvalidArgument "empty principal")
        else if String.eqb (acl_resource e) "" then Err (InvalidArgument "empty resource")
        else Ok (mkAclEntry (acl_principal e) resource_type (acl_resource e) operation permission)
      end
    end
  end.

Fixpoint wire_to_acl_entries (es : list AclBinding) : result (list AclEntry) :=
  match es with
  | [] => Ok []
  | e :: es =>
    let? x := wire_to_acl_entry e in
    let? xs := wire_to_acl_entries es in
    Ok (x :: xs)
  end.

Definition acl_entry_to_wire (e : AclEntry) : AclBinding :=
  mkAclBinding (e_principal e) (resource_type_as_u8 (e_resource_type e)) (e_resource e)
    (operation_as_u8 (e_operation e)) (permission_as_u8 (e_permission e)).

(** The error of a refused change: the message tells a follower from a disk. *)
Definition admin_error (e : Prelude.Error) : Z :=
  match e with
  | InvalidArgument m => if String.prefix "not controller" m then NotControllerError else StorageError
  | _ => StorageError
  end.

(** The answer, and the generation whose snapshot is fanned out. *)
Definition handle_create_acls (es : list AclBinding) (b : AdminBroker) : (Response * option Z) * AdminBroker :=
  match wire_to_acl_entries es with
  | Err _ => (Response.CreateAcls InvalidArgError, None, b)
  | Ok parsed =>
    match create_acls_admin parsed b with
    | (Ok gen, b) => (Response.CreateAcls 0, gen, b)
    | (Err e, b) => (Response.CreateAcls (admin_error e), None, b)
    end
  end.

Definition handle_delete_acls (es : list AclBinding) (b : AdminBroker) : (Response * option Z) * AdminBroker :=
  match wire_to_acl_entries es with
  | Err _ => (Response.DeleteAcls InvalidArgError 0, None, b)
  | Ok parsed =>
    match delete_acls_admin parsed b with
    | (Ok (removed, gen), b) => (Response.DeleteAcls 0 (as_u32 removed), gen, b)
    | (Err e, b) => (Response.DeleteAcls (admin_error e) 0, None, b)
    end
  end.

Definition handle_list_acls (principal : string) (resource_type : Z) (resource : string) (b : AdminBroker) : Response :=
  let rt := if resource_type =? 255 then None else resource_type_from_u8 resource_type in
  if negb (resource_type =? 255) && bool_decide (rt = None) then Response.ListAcls InvalidArgError []
  else
    let p := if String.eqb principal "" then None else Some principal in
    let r := if String.eqb resource "" then None else Some resource in
    Response.ListAcls 0 (map acl_entry_to_wire (list_entries p rt r (inner (acls b)))).

(** The requests of other brokers and of the handshake. *)
Definition not_gated (req : Request) : bool :=
  match req with
  | Request.ReplicaFetch _ _ _ _ _ | Request.HeartbeatBroker _ _ _ _ _ _ | Request.ClusterState _
  | Request.ReplicaDeleteRecords _ _ _ _ | Request.ClusterBrokerConfig _ _ | Request.ClusterAclSnapshot _ _
  | Request.TxnParticipantOpen _ _ _ _ _ _ | Request.TxnParticipantPrepare _ _ _ _
  | Request.TxnParticipantComplete _ _ _ _ | Request.KafkaFetchForward _ _ _ | Request.KafkaTxnForward _ _ _ _
  | Request.FetchSessionMirrorPut _ _ | Request.FetchSessionMirrorDelete _ | Request.IsrUpdate _ _ _ _ _ _
  | Request.AssignmentConsensusNote _ _ _ | Request.MetadataRaftAppend _ _ _ _ _ _ | Request.MembershipPut _ _
  | Request.OpenraftAppend _ | Request.OpenraftVote _ | Request.OpenraftInstallSnapshot _
  | Request.Auth _ | Request.ScramFirst _ _ _ | Request.ScramFinal _ _ _ => true
  | _ => false
  end.

Definition request_allowed (req : Request) (principal : option string) (s : AclState) : bool :=
  let check rt resource op := authorize principal rt resource op (inner s) in
  match req with
  | Request.Produce topic _ _ _ _ _ _ => check Topic topic Write
  | Request.Fetch topic _ _ _ _ _ _ _ | Request.ListOffsets topic _ _ _ => check Topic topic Read
  | Request.CreateTopic name _ _ => check Topic name Create
  | Request.DeleteTopic name | Request.DeleteRecords name _ _ _ => check Topic name Delete
  | Request.Metadata topics =>
    match topics with
    | [] => check Cluster CLUSTER_RESOURCE Describe
    | _ => forallb (λ t, check Topic t Describe) topics
    end
  | Request.DescribeConfigs topic => check Topic topic Describe
  | Request.AlterConfigs topic _ | Request.CreatePartitions topic _ => check Topic topic Alter
  | Request.OffsetCommit group_id _ _ _ | Request.OffsetFetch group_id _ | Request.JoinGroup group_id _ _ _ _ _
  | Request.Heartbeat group_id _ _ | Request.SyncGroup group_id _ _ _ | Request.LeaveGroup group_id _ =>
    check Group group_id Read
  | Request.DescribeGroup group_id => check Group group_id Describe
  | Request.DeleteOffsets group_id _ => check Group group_id Delete
  | Request.ListGroups => check Cluster CLUSTER_RESOURCE Describe
  | Request.InitProducerId transactional_id =>
    check Cluster CLUSTER_RESOURCE Write &&
    (String.eqb transactional_id "" || check TransactionalId transactional_id Write)
  | Request.BeginTxn _ _ | Request.EndTxn _ _ _ _ => check Cluster CLUSTER_RESOURCE Write
  | Request.CreateAcls _ | Request.DeleteAcls _ | Request.AddBroker _ _ _ _ | Request.RemoveBroker _
  | Request.ReassignPartitions _ _ _ => check Cluster CLUSTER_RESOURCE Alter
  | Request.ListAcls _ _ _ | Request.ListMembers => check Cluster CLUSTER_RESOURCE Describe
  | Request.CreateScramUser _ _ _ | Request.DeleteScramUser _ => check Cluster CLUSTER_RESOURCE Alter
  | Request.ListScramUsers => check Cluster CLUSTER_RESOURCE Describe
  | Request.TruncateJournalNote _ _ _ _ | Request.TruncateJournalPush _ _ =>
    match principal with Some p => String.eqb p (auth_principal s) | None => false end ||
    check Cluster CLUSTER_RESOURCE Alter
  | _ => true
  end.

Definition deny (msg : string) : Response := Response.Error AuthorizationFailed msg.

Definition authorize_request (req : Request) (principal : option string) (s : AclState) : option Response :=
  if not_gated req then None
  else if negb (enabled (inner s)) then None
  else if request_allowed req principal s then None
  else Some (deny ("principal '" +:+ default ""%string principal +:+ "' not authorized")).

End acl.
