(* ===== verification/AclProps.v ===== *)
(** * Access control: what the gate decides, and copies in a cluster

    The gate is the reading of the bindings in which a deny overrides; the
    brokers of a cluster that do not lag enforce the same bindings. *)

From Stdlib Require Import Strings.String.
From stdpp Require Import relations.
From S2P Require Import Prelude Bytes Text Wire Messages Request Response Acl.
#[local] Open Scope Z_scope.

(** ** Decisions *)

(** A binding applies. *)
Definition applies (e : AclEntry) (p : string) (rt : ResourceType) (r : string) (op : AclOperation) : Prop :=
  (e_principal e = "*"%string ∨ e_principal e = p) ∧ e_resource_type e = rt ∧
  (e_resource e = "*"%string ∨ e_resource e = r) ∧ (e_operation e = All ∨ e_operation e = op).

(** Some binding that applies allows, and none denies. *)
Definition permits (a : AclAuthorizer) (p : string) (rt : ResourceType) (r : string) (op : AclOperation) : Prop :=
  p ∈ super_users a ∨
  (∃ e, e ∈ entries a ∧ applies e p rt r op ∧ e_permission e = Allow) ∧
  (∀ e, e ∈ entries a → applies e p rt r op → e_permission e ≠ Deny).

(** What a client request needs. *)
Definition needs (req : Request) : list (ResourceType * string * AclOperation) :=
  match req with
  | Request.Produce topic _ _ _ _ _ _ => [(Topic, topic, Write)]
  | Request.Fetch topic _ _ _ _ _ _ _ | Request.ListOffsets topic _ _ _ => [(Topic, topic, Read)]
  | Request.CreateTopic name _ _ => [(Topic, name, Create)]
  | Request.DeleteTopic name | Request.DeleteRecords name _ _ _ => [(Topic, name, Delete)]
  | Request.Metadata [] => [(Cluster, CLUSTER_RESOURCE, Describe)]
  | Request.Metadata topics => map (λ t, (Topic, t, Describe)) topics
  | Request.DescribeConfigs topic => [(Topic, topic, Describe)]
  | Request.AlterConfigs topic _ | Request.CreatePartitions topic _ => [(Topic, topic, Alter)]
  | Request.OffsetCommit group_id _ _ _ | Request.OffsetFetch group_id _ | Request.JoinGroup group_id _ _ _ _ _
  | Request.Heartbeat group_id _ _ | Request.SyncGroup group_id _ _ _ | Request.LeaveGroup group_id _ =>
    [(Group, group_id, Read)]
  | Request.DescribeGroup group_id => [(Group, group_id, Describe)]
  | Request.DeleteOffsets group_id _ => [(Group, group_id, Delete)]
  | Request.InitProducerId tid =>
    (Cluster, CLUSTER_RESOURCE, Write) :: (if String.eqb tid "" then [] else [(TransactionalId, tid, Write)])
  | Request.BeginTxn _ _ | Request.EndTxn _ _ _ _ => [(Cluster, CLUSTER_RESOURCE, Write)]
  | Request.CreateAcls _ | Request.DeleteAcls _ | Request.AddBroker _ _ _ _ | Request.RemoveBroker _
  | Request.ReassignPartitions _ _ _ | Request.CreateScramUser _ _ _ | Request.DeleteScramUser _
  | Request.TruncateJournalNote _ _ _ _ | Request.TruncateJournalPush _ _ => [(Cluster, CLUSTER_RESOURCE, Alter)]
  | Request.ListGroups | Request.ListAcls _ _ _ | Request.ListMembers | Request.ListScramUsers =>
    [(Cluster, CLUSTER_RESOURCE, Describe)]
  | _ => []
  end.

(** The journal requests, which the brokers' own principal may send. *)
Definition of_journal (req : Request) : bool :=
  match req with Request.TruncateJournalNote _ _ _ _ | Request.TruncateJournalPush _ _ => true | _ => false end.

Lemma eqb_iff (a b : string) : String.eqb a b = true ↔ a = b.
Proof. apply String.eqb_eq. Qed.

Lemma entry_matches_iff e p rt r op : entry_matches e p rt r op = true ↔ applies e p rt r op.
Proof.
  unfold entry_matches, principal_matches, resource_matches, operation_matches, applies.
  rewrite !andb_true_iff, !orb_true_iff, !eqb_iff, !bool_decide_eq_true. tauto.
Qed.

#[export] Instance applies_dec e p rt r op : Decision (applies e p rt r op).
Proof. unfold applies. apply _. Defined.

Lemma authorize_from_iff es p rt r op allowed :
  authorize_from es p rt r op allowed = true ↔
  (allowed = true ∨ ∃ e, e ∈ es ∧ applies e p rt r op ∧ e_permission e = Allow) ∧
  (∀ e, e ∈ es → applies e p rt r op → e_permission e ≠ Deny).
Proof.
  revert allowed. induction es as [|e es IH]; intros allowed; cbn [authorize_from].
  - split; [intros ->; split; [by left|set_solver]|]. intros [[?|(e & He & _)] _]; [done|set_solver].
  - setoid_rewrite elem_of_cons.
    destruct (entry_matches e p rt r op) eqn:Em; cbn [negb].
    + apply entry_matches_iff in Em. destruct (e_permission e) eqn:Ep.
      * rewrite bool_decide_true by done. split; [done|]. intros [_ Hd]. destruct (Hd e); auto.
      * rewrite bool_decide_false by done. rewrite IH. split; intros [Ha Hd].
        -- split; [right; eauto|]. intros e' [->|?]; [by rewrite Ep|auto].
        -- split; [by left|auto].
    + assert (Hn : ¬ applies e p rt r op) by (rewrite <- entry_matches_iff; congruence).
      rewrite IH. split; intros [Ha Hd]; (split; [|naive_solver]); destruct Ha as [|(e' & ? & ? & ?)]; naive_solver.
Qed.

Lemma authorize_iff principal rt r op a :
  enabled a = true → authorize principal rt r op a = true ↔ permits a (default ""%string principal) rt r op.
Proof.
  intros He. unfold authorize, permits. rewrite He. cbn [negb]. case_bool_decide as Hs; [naive_solver|].
  rewrite authorize_from_iff. naive_solver.
Qed.

Lemma request_allowed_iff req principal s :
  enabled (inner s) = true →
  not_gated req = false →
  request_allowed req principal s = true ↔
  (of_journal req = true ∧ principal = Some (auth_principal s)) ∨
  Forall (λ '(rt, r, op), permits (inner s) (default ""%string principal) rt r op) (needs req).
Proof.
  intros He Hg. destruct req; try discriminate Hg; cbn [request_allowed needs of_journal];
    rewrite ?Forall_singleton, ?authorize_iff by done; try (intuition discriminate).
  - (* Metadata *) destruct topics as [|t ts].
    + rewrite Forall_singleton, authorize_iff by done. intuition discriminate.
    + rewrite forallb_forall, Forall_map, Forall_forall. setoid_rewrite list_elem_of_In.
      setoid_rewrite authorize_iff; [|done]. cbn. intuition discriminate.
  - (* InitProducerId *)
    rewrite andb_true_iff, orb_true_iff, !authorize_iff by done.
    destruct (String.eqb transactional_id "") eqn:E; rewrite Forall_cons, ?Forall_singleton, ?Forall_nil; intuition discriminate.
  - rewrite orb_true_iff, authorize_iff by done. destruct principal as [p|]; [rewrite eqb_iff|]; naive_solver.
  - rewrite orb_true_iff, authorize_iff by done. destruct principal as [p|]; [rewrite eqb_iff|]; naive_solver.
Qed.

(** C13: The gate lets a request through exactly when the request is not a client's, access control is off, a broker
    reports to the journal, or for everything the request needs some binding allows and none denies (super users
    aside); otherwise it answers AuthorizationFailed. *)
Theorem gate_is_deny_overrides req principal s :
  (authorize_request req principal s = None ↔
   not_gated req = true ∨ enabled (inner s) = false ∨ (of_journal req = true ∧ principal = Some (auth_principal s)) ∨
   Forall (λ '(rt, r, op), permits (inner s) (default ""%string principal) rt r op) (needs req)) ∧
  (∀ resp, authorize_request req principal s = Some resp → ∃ msg, resp = Response.Error AuthorizationFailed msg).
Proof.
  unfold authorize_request. destruct (not_gated req) eqn:Hg; [naive_solver|].
  destruct (enabled (inner s)) eqn:He; cbn [negb]; [|naive_solver].
  pose proof (request_allowed_iff req principal s He Hg) as Hr.
  destruct (request_allowed req principal s); unfold deny; naive_solver.
Qed.

(** ** Copies in a cluster *)

(** What is written in JSON is read back; the text of a snapshot is an object. *)
Class AdminJsonLaws `{AdminJson} := {
  snapshot_string s : ∃ b, snapshot_to_string s = Some b ∧ snapshot_from_str b = Some s ∧ utf8_valid b = true ∧
    trim_bytes b ≠ [] ∧ starts_with_bracket b = false;
  snapshot_vec s : ∃ b, snapshot_to_vec s = Some b ∧ snapshot_from_slice b = Some s ∧ b ≠ [];
  admin_string f : ∃ b, admin_to_string f = Some b ∧ admin_from_str b = Some f ∧ utf8_valid b = true ∧ trim_bytes b ≠ [];
}.

Section cluster.
Context `{AdminJsonLaws}.

Definition bindings (b : AdminBroker) : AclSnapshot := snapshot (inner (acls b)).

(** The controller, the other brokers, the number of changes whose generation
    is not announced yet, the generations whose snapshot is about to be read,
    and the snapshots sent: any of them may arrive late, again or never. *)
Record Net := mkNet {
  ctl : AdminBroker;
  peers : gmap Z AdminBroker;
  busy : nat;
  fanouts : list Z;
  wire : list (Z * bytes);
}.

Inductive acl_step : Net → Net → Prop :=
  | as_create c c' ps n fs w es :
      create_acls_locked es c = (Ok tt, c') → acl_step (mkNet c ps n fs w) (mkNet c' ps (S n) fs w)
  | as_delete c c' ps n fs w es k :
      delete_acls_locked es c = (Ok k, c') →
      acl_step (mkNet c ps n fs w) (mkNet c' ps (if 0 <? k then S n else n) fs w)
  | as_bump c c' ps n fs w g :
      acl_generation c < u64_max → bump_acl_generation_if_cluster c = (Some g, c') →
      acl_step (mkNet c ps (S n) fs w) (mkNet c' ps n (g :: fs) w)
  | as_catch_up c ps n fs w p i :
      ps !! i = Some p → peer_acl_gen_lags (applied_acl_generation p) c = true →
      acl_step (mkNet c ps n fs w) (mkNet c ps n (acl_generation c :: fs) w)
  | as_send c ps n fs w g b :
      g ∈ fs → acl_snapshot_wire_bytes c = Ok b → acl_step (mkNet c ps n fs w) (mkNet c ps n fs ((g, b) :: w))
  | as_deliver c ps n fs w g b i p :
      (g, b) ∈ w → ps !! i = Some p →
      acl_step (mkNet c ps n fs w) (mkNet c (<[i := (handle_cluster_acl_snapshot g b p).2]> ps) n fs w)
  | as_restart_peer c ps n fs w i p p' :
      ps !! i = Some p → restart_admin p = Ok p' → acl_step (mkNet c ps n fs w) (mkNet c (<[i := p']> ps) n fs w)
  | as_restart_ctl c c' ps fs w :
      restart_admin c = Ok c' → acl_step (mkNet c ps 0 fs w) (mkNet c' ps 0 fs w).

(** The files hold what the memory does. *)
Definition on_disk (b : AdminBroker) : Prop :=
  (∃ f, store (acls b) = Some f ∧ disk_ok f = true ∧ load f = Ok (bindings b)) ∧
  disk_ok (admin_file b) = true ∧
  ∃ g, load_admin (admin_file b) = Ok g ∧
    caf_acl_generation g = acl_generation b ∧ caf_applied_acl_generation g = applied_acl_generation b.

(** Brokers with any bindings, before the first change in a cluster. *)
Definition started (n : Net) : Prop :=
  let fresh b := on_disk b ∧ acl_generation b = 0 ∧ applied_acl_generation b = 0 in
  fresh (ctl n) ∧ map_Forall (λ _, fresh) (peers n) ∧ busy n = 0%nat ∧ fanouts n = [] ∧ wire n = [].

(** A copy made at generation [g] is current unless a later change has a
    later generation, or will have. *)
Definition current (n : Net) (g : Z) (s : AclSnapshot) : Prop :=
  g = acl_generation (ctl n) → busy n = 0%nat → s = bindings (ctl n).

Definition net_inv (n : Net) : Prop :=
  on_disk (ctl n) ∧ 0 ≤ acl_generation (ctl n) ∧
  (∀ g, g ∈ fanouts n → 0 < g ≤ acl_generation (ctl n)) ∧
  (∀ g b, (g, b) ∈ wire n →
    0 < g ≤ acl_generation (ctl n) ∧ ∃ s, decode_snapshot_bytes b = Ok s ∧ current n g s) ∧
  map_Forall (λ _ p, on_disk p ∧ 0 ≤ applied_acl_generation p ≤ acl_generation (ctl n) ∧
    (0 < applied_acl_generation p → current n (applied_acl_generation p) (bindings p))) (peers n).

Lemma save_load snap f :
  disk_ok f = true → ∃ f', save snap f = (Ok tt, f') ∧ disk_ok f' = true ∧ load f' = Ok snap.
Proof.
  intros Hd. unfold save, write_file. destruct (snapshot_string snap) as (b & -> & Hb & Hu & Ht & Hbr). rewrite Hd.
  eexists. split; [done|]. split; [done|]. unfold load. cbn [text]. rewrite Hu, Hbr, Hb. cbn [negb].
  by destruct (trim_bytes b).
Qed.

Lemma persist_on_disk b a :
  on_disk b → ∃ s, persist a (acls b) = (Ok tt, s) ∧ inner s = a ∧ on_disk (with_acls s b).
Proof.
  intros ((f & Hf & Hd & Hl) & Ha & Hg). unfold persist. rewrite Hf.
  destruct (save_load (snapshot a) f Hd) as (f' & -> & Hd' & Hl'). eexists. split; [done|]. split; [done|].
  split; [eauto|]. split; [done|]. exact Hg.
Qed.

Lemma gens_on_disk b gen applied :
  on_disk b → on_disk (persist_cluster_admin_gens (with_acl_generations gen applied b)).
Proof.
  intros (Hf & Hd & _). unfold persist_cluster_admin_gens, save_admin. cbn.
  destruct (admin_string (mkClusterAdminFile CLUSTER_ADMIN_FILE_VERSION (config_generation b) (applied_config_generation b) gen applied))
    as (t & -> & Ht & Hu & Hn). unfold write_file. rewrite Hd. split; [exact Hf|]. split; [done|].
  unfold load_admin. cbn. rewrite Hu. cbn [negb]. destruct (trim_bytes t); [done|]. rewrite Ht. cbn. eauto.
Qed.

Lemma restart_on_disk b b' :
  on_disk b → restart_admin b = Ok b' →
  on_disk b' ∧ bindings b' = bindings b ∧ acl_generation b' = acl_generation b ∧
  applied_acl_generation b' = applied_acl_generation b.
Proof.
  intros ((f & Hf & Hd & Hl) & Ha & (g & Hg & Eg & Eap)). unfold restart_admin, open_state. rewrite Hf. cbn [default from_option id].
  rewrite Hl. unfold load_cluster_admin_gens. cbn. rewrite Hg. intros [= <-]. unfold bindings. cbn.
  split; [|done]. split; [exists f; split_and!; try done; by rewrite Hl|]. split; [done|]. exists g. split_and!; done.
Qed.

Lemma wire_bytes_decode b : ∃ w, acl_snapshot_wire_bytes b = Ok w ∧ decode_snapshot_bytes w = Ok (bindings b).
Proof.
  unfold acl_snapshot_wire_bytes, encode_snapshot_bytes. destruct (snapshot_vec (bindings b)) as (w & Hw & Hr & Hn).
  unfold bindings in Hw. rewrite Hw. eexists. split; [done|]. unfold decode_snapshot_bytes. destruct w; [done|]. by rewrite Hr.
Qed.

(** A push at a later generation makes the broker a copy at that generation. *)
Lemma push_installs g b p s :
  on_disk p → applied_acl_generation p < g → decode_snapshot_bytes b = Ok s →
  ∃ p', handle_cluster_acl_snapshot g b p = (0, g, p') ∧ on_disk p' ∧ bindings p' = s ∧ applied_acl_generation p' = g ∧
    super_users (inner (acls p')) = super_users (inner (acls p)).
Proof.
  intros Hp Hg Hb. unfold handle_cluster_acl_snapshot. rewrite Zleb_false, Hb by lia. unfold install_snapshot.
  destruct (persist_on_disk p (apply_snapshot s (inner (acls p))) Hp) as (st & -> & Hi & Hd).
  eexists. split; [done|]. split; [by apply gens_on_disk|]. split; [|split; [done|]].
  - unfold bindings. cbn. rewrite Hi. by destruct s.
  - cbn. by rewrite Hi.
Qed.

Lemma delete_nothing es a : (delete es a).1 ≤ 0 → snapshot (delete es a).2 = snapshot a.
Proof.
  cbn. unfold snapshot. cbn. intros Hn. f_equal.
  assert (Hl : length (filter (λ e, e ∉ es) (entries a)) = length (entries a)).
  { pose proof (length_filter (λ e, e ∉ es) (entries a)). unfold zlen in Hn. lia. }
  revert Hl. generalize (entries a). clear. induction l as [|e l IH]; [done|]. rewrite filter_cons.
  pose proof (length_filter (λ e, e ∉ es) l). case_decide; cbn; intros; [f_equal; apply IH; lia|lia].
Qed.

Lemma bump_spec c g c' :
  on_disk c → 0 ≤ acl_generation c < u64_max → bump_acl_generation_if_cluster c = (Some g, c') →
  on_disk c' ∧ bindings c' = bindings c ∧ g = acl_generation c + 1 ∧ acl_generation c' = g.
Proof.
  intros Hc Hlt. unfold bump_acl_generation_if_cluster. destruct (in_cluster c); [|done]. cbn [negb].
  rewrite u64_wrapping_add_small by lia. intros [= <- <-]. split; [by apply gens_on_disk|done].
Qed.

Lemma create_locked_spec es c c' :
  on_disk c → create_acls_locked es c = (Ok tt, c') → on_disk c' ∧ acl_generation c' = acl_generation c.
Proof.
  intros Hc. unfold create_acls_locked. destruct (in_cluster c && negb (controller c)); [done|]. unfold state_create.
  destruct (persist_on_disk c (create es (inner (acls c))) Hc) as (s & -> & Hi & Hd). by intros [= <-].
Qed.

Lemma delete_locked_spec es c k c' :
  on_disk c → delete_acls_locked es c = (Ok k, c') →
  on_disk c' ∧ acl_generation c' = acl_generation c ∧ (k ≤ 0 → bindings c' = bindings c).
Proof.
  intros Hc. unfold delete_acls_locked. destruct (in_cluster c && negb (controller c)); [done|]. unfold state_delete.
  destruct (delete es (inner (acls c))) as [m a] eqn:Ed.
  destruct (persist_on_disk c a Hc) as (s & -> & Hi & Hd). cbn. intros [= -> <-]. split; [done|]. split; [done|].
  intros Hk. unfold bindings. cbn. rewrite Hi. pose proof (delete_nothing es (inner (acls c))) as Hn. rewrite Ed in Hn. by apply Hn.
Qed.

(** The invariant when the controller's generation is unchanged and either a
    change waits for its generation or the bindings are the same. *)
Lemma inv_same_gen n c' k :
  net_inv n → on_disk c' → acl_generation c' = acl_generation (ctl n) →
  (k = 0%nat → busy n = 0%nat ∧ bindings c' = bindings (ctl n)) →
  net_inv (mkNet c' (peers n) k (fanouts n) (wire n)).
Proof.
  intros (Hc & Hz & Hf & Hw & Hp) Hc' Eg Hk.
  assert (Hcur : ∀ g s, current n g s → current (mkNet c' (peers n) k (fanouts n) (wire n)) g s).
  { intros g s Hs Hg Hb. cbn in *. destruct (Hk Hb) as [? ->]. apply Hs; congruence. }
  unfold net_inv. cbn. rewrite Eg. split_and!; try done.
  - intros g b Hin. destruct (Hw g b Hin) as (? & s & ? & ?). split; [done|]. exists s. auto.
  - intros i p Hi. destruct (Hp i p Hi) as (? & ? & ?). auto.
Qed.

Lemma inv_bump n c' g k :
  net_inv n → on_disk c' → g = acl_generation (ctl n) + 1 → acl_generation c' = g →
  net_inv (mkNet c' (peers n) k (g :: fanouts n) (wire n)).
Proof.
  intros (Hc & Hz & Hf & Hw & Hp) Hc' Eg Eg'. unfold net_inv. cbn. rewrite Eg'. split_and!; try done; [lia|..].
  - intros h [->|Hh]%elem_of_cons; [lia|]. apply Hf in Hh. lia.
  - intros h b Hin. destruct (Hw h b Hin) as (? & s & ? & ?). split; [lia|]. exists s. split; [done|].
    intros E. cbn in E. lia.
  - intros i p Hi. destruct (Hp i p Hi) as (? & ? & ?). split_and!; [done|lia|lia|]. intros _ E. cbn in E. lia.
Qed.

Lemma inv_peer n i p' :
  net_inv n → on_disk p' → 0 ≤ applied_acl_generation p' ≤ acl_generation (ctl n) →
  (0 < applied_acl_generation p' → current n (applied_acl_generation p') (bindings p')) →
  net_inv (mkNet (ctl n) (<[i := p']> (peers n)) (busy n) (fanouts n) (wire n)).
Proof.
  intros (Hc & Hz & Hf & Hw & Hp) Hd Hr Hcur. split_and!; try done. cbn [peers]. apply map_Forall_insert_2; [auto|exact Hp].
Qed.

Lemma inv_deliver n g b i p :
  net_inv n → (g, b) ∈ wire n → peers n !! i = Some p →
  net_inv (mkNet (ctl n) (<[i := (handle_cluster_acl_snapshot g b p).2]> (peers n)) (busy n) (fanouts n) (wire n)).
Proof.
  intros Hn Hin Hi. pose proof Hn as (_ & _ & _ & Hw & Hp). destruct (Hw g b Hin) as (Hg & s & Hs & Hcur).
  destruct (Hp i p Hi) as (Hd & Hr & Hpc). destruct (Z.le_gt_cases g (applied_acl_generation p)).
  - unfold handle_cluster_acl_snapshot. rewrite Zleb_true by done. by apply inv_peer.
  - destruct (push_installs g b p s) as (p' & -> & ? & Eb & Ea & _); [done..|]. cbn [snd].
    apply inv_peer; rewrite ?Ea, ?Eb; try done. lia.
Qed.

Lemma acl_step_inv n n' : acl_step n n' → net_inv n → net_inv n'.
Proof.
  destruct 1 as [c c' ps n fs w es E|c c' ps n fs w es k E|c c' ps n fs w g Hlt E|c ps n fs w p i Hi Hlag|c ps n fs w g b Hg E
    |c ps n fs w g b i p Hin Hi|c ps n fs w i p p' Hi E|c c' ps fs w E]; intros Hn; pose proof Hn as (Hc & Hz & Hf & Hw & Hp); cbn in *.
  - destruct (create_locked_spec _ _ _ Hc E). by apply (inv_same_gen (mkNet c ps n fs w)).
  - destruct (delete_locked_spec _ _ _ _ Hc E) as (? & ? & Hb). apply (inv_same_gen (mkNet c ps n fs w)); [done..|].
    destruct (Z.ltb_spec 0 k); [done|]. intros ->. split; [done|]. by apply Hb.
  - destruct (bump_spec c g c') as (? & ? & ? & ?); [done|lia|done|]. by apply (inv_bump (mkNet c ps (S n) fs w)).
  - split_and!; try done. cbn. intros g [->|Hg]%elem_of_cons; [|auto]. apply andb_true_iff in Hlag as [?%Z.ltb_lt _]. lia.
  - split_and!; try done. cbn. intros g' b' [[= -> ->]|Hin]%elem_of_cons; [|by apply Hw]. split; [by apply Hf|].
    destruct (wire_bytes_decode c) as (b' & Eb & Hdec). rewrite Eb in E. injection E as ->. exists (bindings c). split; [done|]. by intros ? ?.
  - by apply (inv_deliver (mkNet c ps n fs w)).
  - destruct (Hp i p Hi) as (Hd & Hr & Hpc). destruct (restart_on_disk p p' Hd E) as (? & Eb & _ & Ea).
    apply (inv_peer (mkNet c ps n fs w)); try done; cbn; rewrite Ea, ?Eb; done.
  - destruct (restart_on_disk c c' Hc E) as (? & Eb & Eg & _). by apply (inv_same_gen (mkNet c ps 0 fs w)).
Qed.

Lemma started_inv n : started n → net_inv n.
Proof.
  intros ((Hd & Hg & _) & Hp & _ & Hf & Hw). unfold net_inv. rewrite Hf, Hw, Hg. split_and!; try done.
  - intros g ?%elem_of_nil. done.
  - intros g b ?%elem_of_nil. done.
  - intros i p Hi. destruct (Hp i p Hi) as (? & ? & Ha). rewrite Ha. split_and!; [done|lia|lia|lia].
Qed.

Lemma acl_reachable_inv n0 n : started n0 → rtc acl_step n0 n → net_inv n.
Proof. intros Hs%started_inv Hr. induction Hr; eauto using acl_step_inv. Qed.


(** A broker that lags when no change waits for its generation catches up by one push, which the controller can send:
    it then has the controller's bindings and generation, in memory and on its disk. *)
Theorem acl_replica_catches_up n0 n i p :
  started n0 → rtc acl_step n0 n → peers n !! i = Some p → busy n = 0%nat →
  peer_acl_gen_lags (applied_acl_generation p) (ctl n) = true →
  ∃ n' p', rtc acl_step n n' ∧ ctl n' = ctl n ∧ peers n' = <[i := p']> (peers n) ∧ on_disk p' ∧
    bindings p' = bindings (ctl n) ∧ applied_acl_generation p' = acl_generation (ctl n).
Proof.
  intros Hs Hr Hi Hb Hlag. destruct (acl_reachable_inv _ _ Hs Hr) as (_ & _ & _ & _ & Hp). destruct (Hp i p Hi) as (Hd & _ & _).
  destruct (wire_bytes_decode (ctl n)) as (b & Eb & Hdec). destruct n as [c ps k fs w]. cbn in *.
  pose proof Hlag as [_ Hlt%Z.ltb_lt]%andb_true_iff.
  destruct (push_installs (acl_generation c) b p (bindings c)) as (p' & Eh & ? & ? & ? & _); [done..|].
  exists (mkNet c (<[i := p']> ps) k (acl_generation c :: fs) ((acl_generation c, b) :: w)), p'. split; [|done].
  eapply rtc_l; [by eapply as_catch_up|]. eapply rtc_l; [eapply as_send; [left|exact Eb]|]. apply rtc_once.
  change p' with (0, acl_generation c, p').2. rewrite <- Eh. apply as_deliver; [left|done].
Qed.

End cluster.

(** * Concrete inputs for the theorems on access control

    A text form of the snapshots in place of JSON, a controller with one
    other broker, and the theorems at them. *)

From stdpp Require Import relations countable.
From S2P Require Import FetchSessionTheorems.
#[local] Open Scope Z_scope.

#[local] Instance ClusterAdminFile_eq_dec : EqDecision ClusterAdminFile.
Proof. solve_decision. Defined.

#[local] Instance AclEntry_countable : Countable AclEntry.
Proof.
  refine (inj_countable (λ e, (e_principal e, resource_type_as_u8 (e_resource_type e), e_resource e,
      operation_as_u8 (e_operation e), permission_as_u8 (e_permission e)))
    (λ '(p, t, r, o, a), t ← resource_type_from_u8 t; o ← operation_from_u8 o; a ← permission_from_u8 a;
       Some (mkAclEntry p t r o a)) _).
  intros [p t r o a]. by destruct t, o, a.
Defined.
#[local] Instance AclSnapshot_countable : Countable AclSnapshot.
Proof.
  refine (inj_countable' (λ s, (snap_enabled s, snap_entries s)) (λ '(a, b), mkAclSnapshot a b) _). by intros [].
Defined.
#[local] Instance ClusterAdminFile_countable : Countable ClusterAdminFile.
Proof.
  refine (inj_countable' (λ f, (caf_version f, caf_config_generation f, caf_applied_config_generation f,
    caf_acl_generation f, caf_applied_acl_generation f)) (λ '(a, b, c, d, e), mkClusterAdminFile a b c d e) _). by intros [].
Defined.

#[local] Instance text_admin_json : AdminJson := {
  snapshot_to_string := write_text; snapshot_from_str := read_text; snapshot_to_vec := write_text;
  snapshot_from_slice := read_text; entries_from_str := read_text; admin_to_string := write_text;
  admin_from_str := read_text }.

Lemma digits_utf8 p : utf8_valid (digits p) = true.
Proof. by induction p. Qed.

Lemma text_starts b : starts_with_bracket (x31 :: b) = false.
Proof.
  unfold starts_with_bracket, trim_start_bytes. cbn [length strip_all].
  change (strip_any white_space (x31 :: b)) with (@None bytes). done.
Qed.

#[local] Instance text_admin_laws : AdminJsonLaws.
Proof.
  split; intros x; destruct (text_roundtrip x) as (b & Eb & Er & Et); exists b; pose proof Eb as Eb';
    unfold write_text in Eb'; injection Eb' as <-; split_and!; try done; try exact (digits_utf8 _); apply text_starts.
Qed.

Definition no_file : TextFile := mkTextFile None true.
Definition broker (is_controller : bool) : AdminBroker :=
  mkAdminBroker (mkAclState new_authorizer "token" (Some no_file)) true is_controller 0 0 0 0 no_file.
Definition net0 : Net := mkNet (broker true) {[ 2 := broker false ]} 0 [] [].

Definition entry0 : AclEntry := mkAclEntry "alice" Topic "orders" Read Allow.

Lemma broker_on_disk c : on_disk (broker c).
Proof. split; [by exists no_file|]. split; [done|]. by eexists. Qed.

Lemma net0_started : started net0.
Proof.
  split_and!; try done; [apply broker_on_disk|]. apply map_Forall_singleton. split_and!; try done. apply broker_on_disk.
Qed.

Definition created : AdminBroker := (create_acls_locked [entry0] (broker true)).2.
Definition bumped : AdminBroker := (bump_acl_generation_if_cluster created).2.
Definition net1 : Net := mkNet bumped {[ 2 := broker false ]} 0 [1] [].
Definition sent : bytes := default [] (write_text (bindings bumped)).
Definition net2 : Net :=
  mkNet bumped (<[2 := (handle_cluster_acl_snapshot 1 sent (broker false)).2]> {[ 2 := broker false ]}) 0 [1] [(1, sent)].

Lemma net1_reached : rtc acl_step net0 net1.
Proof.
  eapply rtc_l; [apply (as_create _ created _ _ _ _ [entry0]); reflexivity|]. apply rtc_once.
  apply as_bump; [done|reflexivity].
Qed.

Lemma net2_reached : rtc acl_step net0 net2.
Proof.
  etransitivity; [apply net1_reached|].
  eapply rtc_l; [apply (as_send _ _ _ _ _ 1 sent); [left|reflexivity]|]. apply rtc_once. apply as_deliver; [left|reflexivity].
Qed.


Lemma acl_replica_catches_up_witness :
  ∃ n' p', rtc acl_step net1 n' ∧ peers n' !! 2 = Some p' ∧ bindings p' = mkAclSnapshot true [entry0].
Proof.
  destruct (acl_replica_catches_up net0 net1 2 (broker false) net0_started net1_reached eq_refl eq_refl eq_refl)
    as (n' & p' & Hr & _ & Ep & _ & Eb & _).
  exists n', p'. split; [done|]. rewrite Ep, Eb. split; [apply lookup_insert_eq|reflexivity].
Defined.
