(* ===== verification/Scram.v ===== *)
(** * Users and passwords: [volant-broker/src/scram.rs], [kafka/sasl.rs]

    The SCRAM credentials of the broker with their file, the exchange at the
    server, the proof the client computes ([volant-client/src/scram.rs] has
    the same computation), and the SASL state machine of a Kafka connection.
    Hashes, HMAC, PBKDF2 and Base64 are interfaces; random bytes are
    arguments. *)

From Stdlib Require Import Strings.String.
From S2P Require Import Prelude Bytes Text Assignor OffsetStore.
#[local] Open Scope Z_scope.

Definition DEFAULT_ITERATIONS : Z := 4096.

Inductive ScramHash := Sha256 | Sha512.

#[export] Instance ScramHash_eq_dec : EqDecision ScramHash.
Proof. solve_decision. Defined.

Definition digest_len (h : ScramHash) : Z := match h with Sha256 => 32 | Sha512 => 64 end.

Definition sasl_name (h : ScramHash) : string :=
  match h with Sha256 => "SCRAM-SHA-256" | Sha512 => "SCRAM-SHA-512" end.

Record ScramCredential := mkScramCredential {
  salt_b64 : string;
  stored_key_b64 : string;
  server_key_b64 : string;
  iterations : Z;
}.

Record UserCreds := mkUserCreds {
  sha256 : option ScramCredential;
  sha512 : option ScramCredential;
}.

Definition no_creds : UserCreds := mkUserCreds None None.

Definition creds_get (h : ScramHash) (u : UserCreds) : option ScramCredential :=
  match h with Sha256 => sha256 u | Sha512 => sha512 u end.

Definition creds_set (h : ScramHash) (c : ScramCredential) (u : UserCreds) : UserCreds :=
  match h with Sha256 => mkUserCreds (Some c) (sha512 u) | Sha512 => mkUserCreds (sha256 u) (Some c) end.

Definition creds_remove (h : ScramHash) (u : UserCreds) : option ScramCredential * UserCreds :=
  match h with
  | Sha256 => (sha256 u, mkUserCreds None (sha512 u))
  | Sha512 => (sha512 u, mkUserCreds (sha256 u) None)
  end.

Definition creds_is_empty (u : UserCreds) : bool :=
  match sha256 u, sha512 u with None, None => true | _, _ => false end.

Definition infos (u : UserCreds) : list (ScramHash * Z) :=
  match sha256 u with Some c => [(Sha256, iterations c)] | None => [] end ++
  match sha512 u with Some c => [(Sha512, iterations c)] | None => [] end.

Inductive ScramUserRecord := Legacy (c : ScramCredential) | Multi (u : UserCreds).

Definition into_creds (r : ScramUserRecord) : UserCreds :=
  match r with Legacy c => mkUserCreds (Some c) None | Multi u => u end.

Record ScramChallenge := mkScramChallenge {
  ch_username : string;
  ch_client_nonce : string;
  ch_combined_nonce : string;
  ch_salt : bytes;
  ch_iterations : Z;
  ch_user_known : bool;
  ch_stored_key : bytes;
  ch_server_key : bytes;
  ch_hash : ScramHash;
}.

(** The crates [sha2], [hmac], [pbkdf2] and [base64], and serde_json on the
    file of users. *)
Class ScramCrypto := {
  digest : ScramHash → bytes → bytes;
  hmac : ScramHash → bytes → bytes → option bytes;
  pbkdf2 : ScramHash → bytes → bytes → Z → bytes;
  b64_encode : bytes → string;
  b64_decode : string → option bytes;
}.

Class ScramJson := {
  users_to_string : gmap string ScramUserRecord → option bytes;
  users_from_str : bytes → option (gmap string ScramUserRecord);
}.

Definition xor_bytes (a b : bytes) : bytes := zip_with (λ x y, byte_of (Z.lxor (byte_val x) (byte_val y))) a b.

Section scram.
Context `{ScramCrypto, ScramJson}.

Definition b64 (msg s : string) : result bytes :=
  match b64_decode s with Some b => Ok b | None => Err (Storage msg) end.

Definition cred_salt (c : ScramCredential) : result bytes := b64 "scram salt b64: " (salt_b64 c).
Definition cred_stored_key (c : ScramCredential) : result bytes := b64 "scram stored_key b64: " (stored_key_b64 c).
Definition cred_server_key (c : ScramCredential) : result bytes := b64 "scram server_key b64: " (server_key_b64 c).

(** ** Key derivation *)

Definition hash_digest (h : ScramHash) (data : bytes) : bytes := digest h data.

Definition hmac_hash (h : ScramHash) (key data : bytes) : result bytes :=
  match hmac h key data with Some m => Ok m | None => Err (InvalidArgument "hmac key: ") end.

Definition hi (password salt : bytes) (iterations : Z) (h : ScramHash) : bytes := pbkdf2 h password salt iterations.

Definition keys_from_salted (salted_password : bytes) (h : ScramHash) : result (bytes * bytes) :=
  let? client_key := hmac_hash h salted_password (as_bytes "Client Key") in
  let stored_key := hash_digest h client_key in
  let? server_key := hmac_hash h salted_password (as_bytes "Server Key") in
  Ok (stored_key, server_key).

Definition derive_keys (password : string) (salt : bytes) (iterations : Z) (h : ScramHash) : result (bytes * bytes) :=
  keys_from_salted (hi (as_bytes password) salt iterations h) h.

Definition salted_password_for (password : string) (salt : bytes) (iterations : Z) (h : ScramHash) : bytes :=
  hi (as_bytes password) salt iterations h.

Definition build_auth_message (username client_nonce combined_nonce : string) (salt : bytes) (iterations : Z) : string :=
  let client_first_bare := "n=" +:+ username +:+ ",r=" +:+ client_nonce in
  let server_first := "r=" +:+ combined_nonce +:+ ",s=" +:+ b64_encode salt +:+ ",i=" +:+ u32_to_string iterations in
  let client_final_wo_proof := "c=biws,r=" +:+ combined_nonce in
  client_first_bare +:+ "," +:+ server_first +:+ "," +:+ client_final_wo_proof.

(** [buf] is what the generator filled in. *)
Definition random_nonce (buf : bytes) : string := of_bytes (replace "," "A" (as_bytes (b64_encode buf))).

Definition hash_password_for (salt : bytes) (password : string) (iterations : Z) (h : ScramHash) : result ScramCredential :=
  let? (stored_key, server_key) := derive_keys password salt iterations h in
  Ok (mkScramCredential (b64_encode salt) (b64_encode stored_key) (b64_encode server_key) iterations).

(** ** The client *)

Definition client_proof_and_server_sig_for (h : ScramHash) (username password client_nonce combined_nonce : string)
    (salt : bytes) (iterations : Z) : result (bytes * bytes) :=
  let salted := hi (as_bytes password) salt iterations h in
  let? client_key := hmac_hash h salted (as_bytes "Client Key") in
  let stored_key := hash_digest h client_key in
  let? server_key := hmac_hash h salted (as_bytes "Server Key") in
  let auth_message := as_bytes (build_auth_message username client_nonce combined_nonce salt iterations) in
  let? client_signature := hmac_hash h stored_key auth_message in
  let proof := xor_bytes client_key client_signature in
  let? server_sig := hmac_hash h server_key auth_message in
  Ok (proof, server_sig).

(** ** The store *)

Record ScramStore := mkScramStore {
  users : gmap string UserCreds;
  users_file : TextFile;
}.

Definition open_users (f : TextFile) : result ScramStore :=
  match text f with
  | None => Ok (mkScramStore ∅ f)
  | Some buf =>
    if negb (utf8_valid buf) then Err (Storage "read scram store: ")
    else match trim_bytes buf with
    | [] => Ok (mkScramStore ∅ f)
    | _ :: _ =>
      match users_from_str buf with
      | Some file => Ok (mkScramStore (into_creds <$> file) f)
      | None => Err (Storage "parse scram store: ")
      end
    end
  end.

Definition persist_users (s : ScramStore) : result unit * ScramStore :=
  match users_to_string (Multi <$> users s) with
  | Some json =>
    let '(r, f) := Text.write_file "scram store" json (users_file s) in
    (r, mkScramStore (users s) f)
  | None => (Err (Storage "encode scram store: "), s)
  end.

Definition with_users (u : gmap string UserCreds) (s : ScramStore) : ScramStore := mkScramStore u (users_file s).

Definition has_users (s : ScramStore) : bool := negb (bool_decide (users s = ∅)).

Definition list_usernames (s : ScramStore) : list string := merge_sort str_le (map fst (map_to_list (users s))).

(** [username.is_empty() || username.contains(',') || username.contains('=')] *)
Definition bad_username (username : string) : bool :=
  String.eqb username "" || existsb (λ b, (byte_val b =? 44) || (byte_val b =? 61)) (as_bytes username).

Definition invalid_username : Error := InvalidArgument "invalid SCRAM username (empty or contains ,=)".

(** [salt256] and [salt512] are the salts drawn. *)
Definition upsert_user (salt256 salt512 : bytes) (username password : string) (iterations : Z) (s : ScramStore)
    : result unit * ScramStore :=
  if bad_username username then (Err invalid_username, s)
  else if String.eqb password "" then (Err (InvalidArgument "empty SCRAM password"), s)
  else
    let iter := if iterations =? 0 then DEFAULT_ITERATIONS else iterations in
    match hash_password_for salt256 password iter Sha256 with
    | Err e => (Err e, s)
    | Ok c256 =>
      match hash_password_for salt512 password iter Sha512 with
      | Err e => (Err e, s)
      | Ok c512 =>
        let entry := creds_set Sha512 c512 (creds_set Sha256 c256 no_creds) in
        persist_users (with_users (<[username := entry]> (users s)) s)
      end
    end.

Definition delete_user (username : string) (s : ScramStore) : result bool * ScramStore :=
  match users s !! username with
  | Some _ => let! (_, s) := persist_users (with_users (delete username (users s)) s) in (Ok true, s)
  | None => (Ok false, s)
  end.

Definition describe_user (username : string) (s : ScramStore) : option (list (ScramHash * Z)) :=
  infos <$> users s !! username.

Definition describe_all (s : ScramStore) : list (string * list (ScramHash * Z)) :=
  omap (λ n, (λ c, (n, infos c)) <$> users s !! n) (list_usernames s).

Definition has_mechanism (username : string) (h : ScramHash) (s : ScramStore) : bool :=
  match users s !! username ≫= creds_get h with Some _ => true | None => false end.

Definition upsert_from_salted (username : string) (h : ScramHash) (iterations : Z) (salt salted_password : bytes)
    (s : ScramStore) : result unit * ScramStore :=
  if bad_username username then (Err invalid_username, s)
  else if iterations =? 0 then (Err (InvalidArgument "invalid SCRAM iterations (must be > 0)"), s)
  else if bool_decide (salt = []) || bool_decide (salted_password = []) then
    (Err (InvalidArgument "empty SCRAM salt or saltedPassword"), s)
  else match keys_from_salted salted_password h with
  | Err e => (Err e, s)
  | Ok (stored_key, server_key) =>
    let cred := mkScramCredential (b64_encode salt) (b64_encode stored_key) (b64_encode server_key) iterations in
    let entry := creds_set h cred (default no_creds (users s !! username)) in
    persist_users (with_users (<[username := entry]> (users s)) s)
  end.

Definition delete_mechanism (username : string) (h : ScramHash) (s : ScramStore) : result bool * ScramStore :=
  match users s !! username with
  | None => (Ok false, s)
  | Some entry =>
    match creds_remove h entry with
    | (None, _) => (Ok false, s)
    | (Some _, entry) =>
      let us := if creds_is_empty entry then delete username (users s) else <[username := entry]> (users s) in
      let! (_, s) := persist_users (with_users us s) in (Ok true, s)
    end
  end.

(** ** The exchange *)

Definition bad_nonce (client_nonce : string) : bool :=
  String.eqb client_nonce "" ||
  existsb (λ b, (byte_val b =? 44) || negb (in_range 33 126 b)) (as_bytes client_nonce).

(** [server_random] and [fake_salt] are the 18 and 16 bytes drawn. *)
Definition begin_with_hash (server_random fake_salt : bytes) (username client_nonce : string) (h : ScramHash)
    (s : ScramStore) : result ScramChallenge :=
  if bad_nonce client_nonce then Err (InvalidArgument "invalid client_nonce")
  else
    let combined_nonce := client_nonce +:+ random_nonce server_random in
    let zeros := replicate (Z.to_nat (digest_len h)) x00 in
    match users s !! username ≫= creds_get h with
    | Some cred =>
      let? salt := cred_salt cred in
      let? stored_key := cred_stored_key cred in
      let? server_key := cred_server_key cred in
      Ok (mkScramChallenge username client_nonce combined_nonce salt (iterations cred) true stored_key server_key h)
    | None =>
      Ok (mkScramChallenge username client_nonce combined_nonce fake_salt DEFAULT_ITERATIONS false zeros zeros h)
    end.

(** One turn of the loop of [verify_password]. *)
Definition verify_hash (password : string) (creds : UserCreds) (h : ScramHash) : bool :=
  match creds_get h creds with
  | None => false
  | Some cred =>
    match cred_salt cred, cred_stored_key cred with
    | Ok salt, Ok stored_key =>
      match derive_keys password salt (iterations cred) h with
      | Ok (derived, _) => bool_decide (derived = stored_key)
      | Err _ => false
      end
    | _, _ => false
    end
  end.

Definition verify_password (username password : string) (s : ScramStore) : bool :=
  if String.eqb username "" || String.eqb password "" then false
  else match users s !! username with
  | None => false
  | Some creds => verify_hash password creds Sha256 || verify_hash password creds Sha512
  end.

(** [for i in 0..dig]: the two operands have the length of the digest, the
    first by the guard and the second as the output of HMAC. *)
Definition finish (challenge : ScramChallenge) (username combined_nonce : string) (client_proof : bytes) : result bytes :=
  if negb (String.eqb username (ch_username challenge)) || negb (String.eqb combined_nonce (ch_combined_nonce challenge)) then
    Err (InvalidArgument "scram nonce/user mismatch")
  else if negb (ch_user_known challenge) then Err (InvalidArgument "authentication failed")
  else if negb (zlen client_proof =? digest_len (ch_hash challenge)) then
    Err (InvalidArgument "invalid client_proof length")
  else
    let auth_message := as_bytes (build_auth_message (ch_username challenge) (ch_client_nonce challenge)
      (ch_combined_nonce challenge) (ch_salt challenge) (ch_iterations challenge)) in
    let? client_signature := hmac_hash (ch_hash challenge) (ch_stored_key challenge) auth_message in
    let client_key := xor_bytes client_proof client_signature in
    if negb (bool_decide (hash_digest (ch_hash challenge) client_key = ch_stored_key challenge)) then
      Err (InvalidArgument "authentication failed")
    else hmac_hash (ch_hash challenge) (ch_server_key challenge) auth_message.

(** ** Kafka connections: [kafka/sasl.rs] *)

(** [to_string] of an error of [volant_core]. *)
Definition error_to_string (e : Error) : string :=
  match e with
  | Io m => "io error: " +:+ m
  | Protocol m => "protocol error: " +:+ m
  | Storage m => "storage error: " +:+ m
  | NotFound m => "not found: " +:+ m
  | InvalidArgument m => "invalid argument: " +:+ m
  | NotImplemented m => "not implemented: " +:+ m
  end.

Inductive SaslMechanism := Plain | ScramSha256 | ScramSha512.

Definition mechanism_parse (name : string) : option SaslMechanism :=
  if String.eqb name "PLAIN" then Some Plain
  else if String.eqb name "SCRAM-SHA-256" then Some ScramSha256
  else if String.eqb name "SCRAM-SHA-512" then Some ScramSha512
  else None.

Definition mechanism_as_str (m : SaslMechanism) : string :=
  match m with Plain => "PLAIN" | ScramSha256 => "SCRAM-SHA-256" | ScramSha512 => "SCRAM-SHA-512" end.

Inductive SaslState := Idle | Selected (m : SaslMechanism) | ScramPending (c : ScramChallenge) | Done.

Record AuthStep := mkAuthStep {
  auth_bytes : bytes;
  principal : option string;
  failed : bool;
  error_message : option string;
}.

Definition step_failed (b : string) (msg : string) : AuthStep := mkAuthStep (as_bytes b) None true (Some msg).

Definition plain_check (s : ScramStore) (user pass : bytes) : AuthStep :=
  match from_utf8 user with
  | None | Some ""%string => step_failed "" "invalid PLAIN username"
  | Some username =>
    match from_utf8 pass with
    | None => step_failed "" "invalid PLAIN password"
    | Some password =>
      if verify_password username password s then mkAuthStep [] (Some username) false None
      else step_failed "" "authentication failed"
    end
  end.

Definition plain_authenticate (s : ScramStore) (auth : bytes) : AuthStep :=
  match split_byte 0 auth with
  | [_; user; pass] => plain_check s user pass
  | [user; pass] => plain_check s user pass
  | _ => step_failed "" "invalid PLAIN message"
  end.

Definition sasl_decode_name (s : bytes) : bytes := replace "=3D" "=" (replace "=2C" "," s).

(** The attributes of a client-first message; the last of a name counts. *)
Definition first_attr (acc : option bytes * option bytes) (part : bytes) : option bytes * option bytes :=
  match strip_str "n=" part with
  | Some u => (Some (sasl_decode_name u), acc.2)
  | None => match strip_str "r=" part with Some r => (acc.1, Some r) | None => acc end
  end.

(** From the attributes on. *)
Definition scram_begin (server_random fake_salt : bytes) (s : ScramStore) (bare : bytes) (h : ScramHash) : AuthStep * SaslState :=
  match foldl first_attr (None, None) (split_byte 44 bare) with
  | (Some ((_ :: _) as u), Some ((_ :: _) as r)) =>
    match begin_with_hash server_random fake_salt (of_bytes u) (of_bytes r) h s with
    | Ok chal =>
      let server_first := "r=" +:+ ch_combined_nonce chal +:+ ",s=" +:+ b64_encode (ch_salt chal) +:+ ",i=" +:+
        u32_to_string (ch_iterations chal) in
      (mkAuthStep (as_bytes server_first) None false None, ScramPending chal)
    | Err e => (step_failed "e=invalid-encoding" (error_to_string e), Idle)
    end
  | _ => (step_failed "e=invalid-encoding" "invalid SCRAM client-first", Idle)
  end.

Definition scram_client_first (server_random fake_salt : bytes) (s : ScramStore) (auth : bytes) (h : ScramHash)
    : result (AuthStep * SaslState) :=
  match from_utf8 auth with
  | None => Err (Protocol "SCRAM client-first not utf8")
  | Some _ =>
    match strip_str "n,," auth with
    | Some rest => Ok (scram_begin server_random fake_salt s rest h)
    | None =>
      match strip_str "y,," auth, strip_str "p=" auth with
      | None, None => Ok (scram_begin server_random fake_salt s auth h)
      | _, _ => Ok (step_failed "e=channel-binding-not-supported" "channel binding not supported", Idle)
      end
    end
  end.

Definition final_attr (acc : option bytes * option bytes) (part : bytes) : option bytes * option bytes :=
  match strip_str "r=" part with
  | Some r => (Some r, acc.2)
  | None => match strip_str "p=" part with Some p => (acc.1, Some p) | None => acc end
  end.

Definition scram_client_final (chal : ScramChallenge) (auth : bytes) : AuthStep :=
  match from_utf8 auth with
  | None => step_failed "e=invalid-encoding" "invalid SCRAM client-final"
  | Some _ =>
    match foldl final_attr (None, None) (split_byte 44 auth) with
    | (Some combined_nonce, Some proof_b64) =>
      match b64_decode (of_bytes proof_b64) with
      | None => step_failed "e=invalid-encoding" "invalid client proof encoding"
      | Some proof =>
        match finish chal (ch_username chal) (of_bytes combined_nonce) proof with
        | Ok server_sig => mkAuthStep (as_bytes ("v=" +:+ b64_encode server_sig)) (Some (ch_username chal)) false None
        | Err _ => step_failed "e=invalid-proof" "authentication failed"
        end
      end
    | _ => step_failed "e=invalid-encoding" "invalid SCRAM client-final"
    end
  end.

Definition authenticate_step (server_random fake_salt : bytes) (s : ScramStore) (state : SaslState) (auth : bytes)
    : result AuthStep * SaslState :=
  match state with
  | Idle | Done => (Ok (step_failed "" "SASL handshake required first"), state)
  | Selected Plain =>
    let result := plain_authenticate s auth in
    (Ok result, match principal result with Some _ => Done | None => state end)
  | Selected ScramSha256 =>
    match scram_client_first server_random fake_salt s auth Sha256 with
    | Ok (step, next) => (Ok step, next)
    | Err e => (Err e, state)
    end
  | Selected ScramSha512 =>
    match scram_client_first server_random fake_salt s auth Sha512 with
    | Ok (step, next) => (Ok step, next)
    | Err e => (Err e, state)
    end
  | ScramPending chal =>
    let step := scram_client_final chal auth in
    (Ok step, match principal step with Some _ => Done | None => if failed step then Idle else state end)
  end.

(** A Kafka connection: [SaslHandshake] and [SaslAuthenticate] of
    [kafka/handler.rs] on the decoded mechanism and bytes. *)
Record KafkaConnState := mkKafkaConnState {
  conn_principal : option string;
  sasl : SaslState;
}.

Definition new_conn : KafkaConnState := mkKafkaConnState None Idle.

Definition sasl_handshake (mechanism : string) (conn : KafkaConnState) : bool * KafkaConnState :=
  match mechanism_parse mechanism with
  | Some m => (true, mkKafkaConnState (conn_principal conn) (Selected m))
  | None => (false, conn)
  end.

Definition sasl_authenticate (server_random fake_salt : bytes) (s : ScramStore) (auth : bytes) (conn : KafkaConnState)
    : result AuthStep * KafkaConnState :=
  match authenticate_step server_random fake_salt s (sasl conn) auth with
  | (Err e, st) => (Err e, mkKafkaConnState (conn_principal conn) st)
  | (Ok step, st) =>
    if failed step then (Ok step, mkKafkaConnState (conn_principal conn) st)
    else (Ok step, mkKafkaConnState (match principal step with Some p => Some p | None => conn_principal conn end) st)
  end.

(** [auth_gate] of [dispatch_kafka]: the request is refused. *)
Definition kafka_auth_gate (s : ScramStore) (conn : KafkaConnState) : bool :=
  has_users s && match conn_principal conn with Some _ => false | None => true end.

End scram.
