(* ===== verification/ScramProps.v ===== *)
(** * Logging in with SCRAM and SASL

    Who has the password logs in, and learns that the broker has the
    credential; who logs in holds a preimage of the stored key. *)

From Stdlib Require Import Strings.String.
From stdpp Require Import relations.
From S2P Require Import Prelude Bytes Text OffsetStore OffsetStoreProps Scram.
#[local] Open Scope Z_scope.

(** ** Text *)

Lemma as_bytes_app (a b : string) : as_bytes (a +:+ b) = as_bytes a ++ as_bytes b.
Proof. induction a as [|c a IH]; [done|]. exact (f_equal (cons _) IH). Qed.

Lemma utf8_valid_app a b : utf8_valid a = true → utf8_valid b = true → utf8_valid (a ++ b) = true.
Proof.
  intros Ha Hb. remember (length a) as n eqn:Hn. assert (Hle : (length a ≤ n)%nat) by lia. clear Hn. revert a Hle Ha.
  induction n as [|n IH]; intros a Hle Ha; [by destruct a; [|cbn in Hle; lia]|].
  destruct a as [|b0 l1]; [done|]. cbn [utf8_valid app] in *.
  destruct (in_range 0 127 b0); [apply IH; [cbn in Hle; lia|done]|].
  destruct l1 as [|b1 l2]; [done|]. cbn [app]. destruct (in_range 194 223 b0).
  { apply andb_prop in Ha as [-> Ha]. apply IH; [cbn in Hle; lia|done]. }
  destruct l2 as [|b2 l3]; [done|]. cbn [app]. destruct (in_range 224 239 b0).
  { apply andb_prop in Ha as [-> Ha]. apply IH; [cbn in Hle; lia|done]. }
  destruct l3 as [|b3 l4]; [done|]. cbn [app]. destruct (in_range 240 244 b0); [|done].
  apply andb_prop in Ha as [-> Ha]. apply IH; [cbn in Hle; lia|done].
Qed.

(** ASCII text without commas. *)
Definition plain_byte (b : byte) : bool := in_range 33 126 b && negb (byte_val b =? 44).

Lemma plain_utf8 l : forallb plain_byte l = true → utf8_valid l = true.
Proof.
  induction l as [|b l IH]; [done|]. cbn [forallb]. intros [Hb Hl]%andb_prop. cbn [utf8_valid].
  assert (in_range 0 127 b = true) as ->; [|auto]. unfold plain_byte, in_range in *. lia.
Qed.

Lemma plain_no_comma l : forallb plain_byte l = true → forallb (λ b, negb (byte_val b =? 44)) l = true.
Proof.
  rewrite !forallb_forall. intros Hl b Hb. specialize (Hl b Hb). unfold plain_byte in Hl. by apply andb_prop in Hl as [_ ?].
Qed.

Lemma split_byte_one c l : forallb (λ b, negb (byte_val b =? c)) l = true → split_byte c l = [l].
Proof.
  induction l as [|b l IH]; [done|]. cbn [forallb split_byte]. intros [Hb Hl]%andb_prop.
  apply negb_true_iff in Hb as ->. by rewrite IH.
Qed.

Lemma split_byte_cons c l s k :
  forallb (λ b, negb (byte_val b =? c)) l = true → byte_val s = c → split_byte c (l ++ s :: k) = l :: split_byte c k.
Proof.
  intros Hl Hs. induction l as [|b l IH]; cbn [app split_byte].
  - by rewrite Hs, Z.eqb_refl.
  - cbn [forallb] in Hl. apply andb_prop in Hl as [->%negb_true_iff Hl]. by rewrite (IH Hl).
Qed.

Lemma replace_none pat to c p l :
  map byte_val (as_bytes pat) = c :: p → forallb (λ b, negb (byte_val b =? c)) l = true → replace pat to l = l.
Proof.
  intros Hp Hl. unfold replace. assert (∀ n, replace_from n pat to l = l) as Hn; [|done].
  induction l as [|b l IH]; intros n; destruct n as [|n]; try done. cbn [replace_from forallb] in *.
  apply andb_prop in Hl as [Hb%negb_true_iff Hl]. unfold strip_str. rewrite Hp. cbn [strip_prefix]. rewrite Hb. by rewrite IH.
Qed.

Lemma xor_cancel a b : length a = length b → xor_bytes (xor_bytes a b) b = a.
Proof.
  unfold xor_bytes. revert b. induction a as [|x a IH]; intros [|y b] Hl; try done. cbn in Hl. cbn [zip_with]. f_equal; [|by apply IH; lia].
  rewrite byte_val_of. rewrite Z.mod_small.
  - rewrite Z.lxor_assoc, Z.lxor_nilpotent, Z.lxor_0_r. apply byte_of_val.
  - pose proof (byte_val_range x). pose proof (byte_val_range y). split; [by apply Z.lxor_nonneg; lia|].
    change 256 with (2 ^ 8). destruct (Z.eq_dec (Z.lxor (byte_val x) (byte_val y)) 0) as [->|Hne]; [done|].
    apply Z.log2_lt_pow2; [pose proof (Z.lxor_nonneg (byte_val x) (byte_val y)); lia|].
    eapply Z.le_lt_trans; [by apply Z.log2_lxor; lia|].
    assert (∀ z, 0 ≤ z < 256 → Z.log2 z < 8) as Hlog; [|by apply Z.max_lub_lt; apply Hlog].
    intros z Hz. destruct (Z.eq_dec z 0) as [->|]; [done|]. apply Z.log2_lt_pow2; lia.
Qed.

(** ** The libraries *)

(** HMAC takes keys of any length and has the length of its hash; Base64 is
    decoded to what was encoded and is made of graphic characters other than
    the comma; the file of users is read as it was written. *)
Class ScramLaws `{ScramCrypto, ScramJson} := {
  hmac_total h k d : ∃ m, hmac h k d = Some m ∧ zlen m = digest_len h;
  b64_roundtrip b : b64_decode (b64_encode b) = Some b;
  b64_alphabet b : forallb plain_byte (as_bytes (b64_encode b)) = true;
  users_json u : ∃ t, users_to_string u = Some t ∧ users_from_str t = Some u ∧ utf8_valid t = true ∧ trim_bytes t ≠ [];
}.

Section scram.
Context `{ScramLaws}.

Lemma hmac_ok h k d : ∃ m, hmac_hash h k d = Ok m ∧ zlen m = digest_len h.
Proof. unfold hmac_hash. destruct (hmac_total h k d) as (m & -> & ?). eauto. Qed.

Lemma b64_ok msg b : b64 msg (b64_encode b) = Ok b.
Proof. unfold b64. by rewrite b64_roundtrip. Qed.

(** A credential made from a password. *)
Definition made_from (pw : string) (h : ScramHash) (c : ScramCredential) : Prop :=
  ∃ salt, hash_password_for salt pw (iterations c) h = Ok c.

Lemma made_from_keys pw h c :
  made_from pw h c → ∃ salt stored server,
    cred_salt c = Ok salt ∧ cred_stored_key c = Ok stored ∧ cred_server_key c = Ok server ∧
    derive_keys pw salt (iterations c) h = Ok (stored, server).
Proof.
  intros (salt & Hc). unfold hash_password_for in Hc. destruct (derive_keys pw salt (iterations c) h) as [[stored server]|] eqn:Ed; [|done].
  injection Hc as <-. exists salt, stored, server. unfold cred_salt, cred_stored_key, cred_server_key. cbn in *. by rewrite !b64_ok.
Qed.

(** The client of [user] with the password, on the challenge, is accepted. *)
Lemma proof_accepted pw h c chal salt stored server :
  derive_keys pw salt (iterations c) h = Ok (stored, server) →
  ch_salt chal = salt → ch_iterations chal = iterations c → ch_user_known chal = true →
  ch_stored_key chal = stored → ch_server_key chal = server → ch_hash chal = h →
  ∃ proof sig, zlen proof = digest_len h ∧
    client_proof_and_server_sig_for h (ch_username chal) pw (ch_client_nonce chal) (ch_combined_nonce chal) salt (iterations c) = Ok (proof, sig) ∧
    finish chal (ch_username chal) (ch_combined_nonce chal) proof = Ok sig.
Proof.
  intros Hk <- Hit Hkn <- <- <-. unfold derive_keys, keys_from_salted in Hk. unfold client_proof_and_server_sig_for, finish.
  rewrite <- Hit in *. set (salted := hi _ _ _ _) in *. set (msg := as_bytes (build_auth_message _ _ _ _ _)).
  destruct (hmac_ok (ch_hash chal) salted (as_bytes "Client Key")) as (ck & Eck & Lck). rewrite Eck in *.
  destruct (hmac_ok (ch_hash chal) salted (as_bytes "Server Key")) as (sk & Esk & _). rewrite Esk in *.
  injection Hk as Est Esv. rewrite Est, Esv.
  destruct (hmac_ok (ch_hash chal) (ch_stored_key chal) msg) as (cs & Ecs & Lcs). rewrite Ecs.
  destruct (hmac_ok (ch_hash chal) (ch_server_key chal) msg) as (sg & Esg & _). rewrite Esg.
  assert (Lp : zlen (xor_bytes ck cs) = digest_len (ch_hash chal)).
  { unfold zlen, xor_bytes in *. rewrite length_zip_with. lia. }
  exists (xor_bytes ck cs), sg. split; [done|]. split; [done|].
  rewrite !String.eqb_refl, Hkn, Lp, Z.eqb_refl. cbn [negb orb]. rewrite xor_cancel by (unfold zlen in *; lia).
  by rewrite bool_decide_true.
Qed.

Lemma begin_known r f user nonce h s c :
  bad_nonce nonce = false → users s !! user ≫= creds_get h = Some c →
  begin_with_hash r f user nonce h s =
  (let? salt := cred_salt c in let? stored := cred_stored_key c in let? server := cred_server_key c in
   Ok (mkScramChallenge user nonce (nonce +:+ random_nonce r) salt (iterations c) true stored server h)).
Proof. intros Hn Hc. unfold begin_with_hash. by rewrite Hn, Hc. Qed.

(** A user whose credential was made from the password logs in with it. *)
Lemma login pw h user c s nonce r f :
  users s !! user ≫= creds_get h = Some c → made_from pw h c → bad_nonce nonce = false →
  ∃ chal proof sig, begin_with_hash r f user nonce h s = Ok chal ∧
    ch_username chal = user ∧ ch_client_nonce chal = nonce ∧ ch_combined_nonce chal = nonce +:+ random_nonce r ∧
    ch_iterations chal = iterations c ∧ zlen proof = digest_len h ∧
    client_proof_and_server_sig_for h user pw nonce (ch_combined_nonce chal) (ch_salt chal) (ch_iterations chal) = Ok (proof, sig) ∧
    finish chal user (ch_combined_nonce chal) proof = Ok sig.
Proof.
  intros Hc Hm Hn. destruct (made_from_keys pw h c Hm) as (salt & stored & server & E1 & E2 & E3 & Ek).
  rewrite (begin_known _ _ _ _ _ _ c) by done. rewrite E1, E2, E3.
  set (chal := mkScramChallenge _ _ _ _ _ _ _ _ _). destruct (proof_accepted pw h c chal salt stored server) as (p & sg & ? & ? & ?); try done.
  exists chal, p, sg. done.
Qed.

Lemma verify_made_from pw h user c s :
  user ≠ ""%string → pw ≠ ""%string →
  users s !! user ≫= creds_get h = Some c → made_from pw h c → verify_password user pw s = true.
Proof.
  intros Hu Hp Hc Hm. destruct (made_from_keys pw h c Hm) as (salt & stored & server & E1 & E2 & _ & Ek).
  unfold verify_password. rewrite (proj2 (String.eqb_neq user "")), (proj2 (String.eqb_neq pw "")) by done. cbn [orb].
  destruct (users s !! user) as [u|]; [|done]. cbn in Hc. unfold verify_hash.
  destruct h; rewrite Hc, E1, E2, Ek, bool_decide_true by done; [done|apply orb_true_r].
Qed.

(** ** The file of users *)

Lemma persist_restores s s' :
  persist_users s = (Ok tt, s') → users s' = users s ∧ open_users (users_file s') = Ok s'.
Proof.
  unfold persist_users. destruct (users_json (Multi <$> users s)) as (t & -> & Ht & Hu & Hn). unfold Text.write_file.
  destruct (disk_ok (users_file s)); [|done]. intros [= <-]. split; [done|]. unfold open_users. cbn [text users_file].
  rewrite Hu. cbn [negb]. destruct (trim_bytes t) eqn:E; [done|]. rewrite Ht, <- map_fmap_compose.
  change (into_creds ∘ Multi) with (@id UserCreds). by rewrite map_fmap_id.
Qed.

Lemma upsert_user_spec salt256 salt512 user pw it s s' h :
  upsert_user salt256 salt512 user pw it s = (Ok tt, s') →
  user ≠ ""%string ∧ pw ≠ ""%string ∧ open_users (users_file s') = Ok s' ∧
  ∃ c, users s' !! user ≫= creds_get h = Some c ∧ made_from pw h c.
Proof.
  unfold upsert_user, bad_username. destruct (String.eqb_spec user ""); [done|]. destruct (existsb _ _); [done|]. cbn [orb].
  destruct (String.eqb_spec pw ""); [done|]. set (iter := if it =? 0 then _ else _).
  destruct (hash_password_for salt256 pw iter Sha256) as [c1|] eqn:E1; [|done].
  destruct (hash_password_for salt512 pw iter Sha512) as [c2|] eqn:E2; [|done].
  intros [Hu Ho]%persist_restores. split_and!; [done..|]. rewrite Hu. cbn [users with_users]. rewrite lookup_insert_eq. cbn [mbind option_bind].
  assert (Hit : ∀ salt h c, hash_password_for salt pw iter h = Ok c → made_from pw h c).
  { intros salt h' c Hc. exists salt. pose proof Hc as Hc'. unfold hash_password_for in Hc'.
    destruct (derive_keys pw salt iter h') as [[a b]|]; [|done]. injection Hc' as <-. exact Hc. }
  destruct h; cbn; eauto.
Qed.

Lemma upsert_user_ok salt256 salt512 user pw it s :
  bad_username user = false → pw ≠ ""%string → disk_ok (users_file s) = true →
  ∃ s', upsert_user salt256 salt512 user pw it s = (Ok tt, s').
Proof.
  intros Hu Hp Hd. unfold upsert_user. rewrite Hu, (proj2 (String.eqb_neq pw "")) by done.
  assert (Hh : ∀ salt n h, ∃ c, hash_password_for salt pw n h = Ok c).
  { intros salt n h. unfold hash_password_for, derive_keys, keys_from_salted.
    destruct (hmac_ok h (hi (as_bytes pw) salt n h) (as_bytes "Client Key")) as (ck & -> & _).
    destruct (hmac_ok h (hi (as_bytes pw) salt n h) (as_bytes "Server Key")) as (sk & -> & _). eauto. }
  set (iter := if it =? 0 then _ else _). destruct (Hh salt256 iter Sha256) as (c1 & ->). destruct (Hh salt512 iter Sha512) as (c2 & ->).
  unfold persist_users. cbn [users with_users users_file]. destruct (users_json (Multi <$> <[user := creds_set Sha512 c2 (creds_set Sha256 c1 no_creds)]> (users s))) as (t & -> & _).
  unfold Text.write_file. rewrite Hd. eauto.
Qed.

(** C28: A user created with a password logs in with it by either hash, also after the broker restarts: the broker accepts
    the proof the client computes from the challenge and answers with the signature the client expects; the password
    itself is accepted too (PLAIN). *)
Theorem password_login salt256 salt512 user pw it s s1 h nonce r f :
  upsert_user salt256 salt512 user pw it s = (Ok tt, s1) → bad_nonce nonce = false →
  ∃ s2, open_users (users_file s1) = Ok s2 ∧ verify_password user pw s2 = true ∧
    ∃ chal proof sig, begin_with_hash r f user nonce h s2 = Ok chal ∧
      client_proof_and_server_sig_for h user pw nonce (ch_combined_nonce chal) (ch_salt chal) (ch_iterations chal) = Ok (proof, sig) ∧
      finish chal user (ch_combined_nonce chal) proof = Ok sig.
Proof.
  intros Hup Hn. destruct (upsert_user_spec _ _ _ _ _ _ _ h Hup) as (Hu & Hp & Ho & c & Hc & Hm).
  exists s1. split; [done|]. split; [by eapply verify_made_from|].
  destruct (login pw h user c s1 nonce r f Hc Hm Hn) as (chal & proof & sg & ? & _ & _ & _ & _ & _ & ? & ?). eauto 10.
Qed.

(** ** The SASL exchange *)

Definition client_first (user nonce : string) : bytes := as_bytes ("n,,n=" +:+ user +:+ ",r=" +:+ nonce).
Definition client_final (combined : string) (proof : bytes) : bytes :=
  as_bytes ("c=biws,r=" +:+ combined +:+ ",p=" +:+ b64_encode proof).

Lemma bad_nonce_plain nonce : bad_nonce nonce = false → forallb plain_byte (as_bytes nonce) = true ∧ nonce ≠ ""%string.
Proof.
  unfold bad_nonce. intros [Hn He]%orb_false_iff. split; [|by apply String.eqb_neq].
  rewrite forallb_forall. intros b Hb. destruct (plain_byte b) eqn:E; [done|]. rewrite <- He. apply existsb_exists.
  exists b. split; [done|]. unfold plain_byte in E. apply andb_false_iff in E as [->|E%negb_false_iff]; [apply orb_true_r|by rewrite E].
Qed.

Lemma random_nonce_plain r : forallb plain_byte (as_bytes (random_nonce r)) = true.
Proof.
  unfold random_nonce. rewrite as_of_bytes. rewrite (replace_none _ _ 44 []); [apply b64_alphabet|done|].
  apply plain_no_comma, b64_alphabet.
Qed.

Lemma name_no_escapes user :
  bad_username user = false → sasl_decode_name (as_bytes user) = as_bytes user ∧
  forallb (λ b, negb (byte_val b =? 44)) (as_bytes user) = true ∧ user ≠ ""%string.
Proof.
  unfold bad_username. intros [Hn He]%orb_false_iff. apply String.eqb_neq in Hn.
  assert (Hall : ∀ c, c = 44 ∨ c = 61 → forallb (λ b, negb (byte_val b =? c)) (as_bytes user) = true).
  { intros c Hc. rewrite forallb_forall. intros b Hb. destruct (negb (byte_val b =? c)) eqn:E; [done|]. rewrite <- He.
    apply existsb_exists. exists b. split; [done|]. apply negb_false_iff in E. destruct Hc as [->| ->]; rewrite E; [done|apply orb_true_r]. }
  split_and!; [|apply Hall; by left|done]. unfold sasl_decode_name.
  rewrite (replace_none "=2C" _ 61 [50; 67]); [|done|apply Hall; by right].
  apply (replace_none _ _ 61 [51; 68]); [done|apply Hall; by right].
Qed.

Lemma from_utf8_ok b : utf8_valid b = true → from_utf8 b = Some (of_bytes b).
Proof. unfold from_utf8. by intros ->. Qed.

Lemma strip_str_app p s : strip_str p (as_bytes p ++ s) = Some s.
Proof. unfold strip_str. induction (as_bytes p) as [|b l IH]; [done|]. cbn. by rewrite Z.eqb_refl. Qed.

Lemma first_attr_n acc u : first_attr acc (as_bytes "n=" ++ u) = (Some (sasl_decode_name u), acc.2).
Proof. unfold first_attr. by rewrite strip_str_app. Qed.
Lemma first_attr_r acc r : first_attr acc (as_bytes "r=" ++ r) = (acc.1, Some r).
Proof. reflexivity. Qed.

(** The broker reads the two attributes of a client-first message. *)
Lemma client_first_read user nonce :
  str_valid user = true → bad_username user = false → bad_nonce nonce = false →
  from_utf8 (client_first user nonce) = Some (of_bytes (client_first user nonce)) ∧
  ∃ rest, strip_str "n,," (client_first user nonce) = Some rest ∧
    foldl first_attr (None, None) (split_byte 44 rest) = (Some (as_bytes user), Some (as_bytes nonce)).
Proof.
  intros Hv Hu Hn. destruct (bad_nonce_plain nonce Hn) as [Hp _]. destruct (name_no_escapes user Hu) as (Hd & Hc & _).
  unfold client_first. rewrite !as_bytes_app. split.
  - apply from_utf8_ok. repeat apply utf8_valid_app; [done|done|done|by apply plain_utf8].
  - exists (as_bytes "n=" ++ as_bytes user ++ as_bytes ",r=" ++ as_bytes nonce). split; [apply (strip_str_app "n,,")|].
    change (as_bytes ",r=" ++ as_bytes nonce) with (x2c :: as_bytes "r=" ++ as_bytes nonce).
    rewrite (app_assoc (as_bytes "n=")), split_byte_cons; [|by rewrite forallb_app, Hc|done].
    rewrite split_byte_one by (rewrite forallb_app; apply andb_true_intro; split; [done|by apply plain_no_comma]).
    cbn [foldl]. rewrite first_attr_n, first_attr_r. by rewrite Hd.
Qed.

Lemma client_final_read combined proof :
  forallb plain_byte (as_bytes combined) = true →
  from_utf8 (client_final combined proof) = Some (of_bytes (client_final combined proof)) ∧
  foldl final_attr (None, None) (split_byte 44 (client_final combined proof)) =
    (Some (as_bytes combined), Some (as_bytes (b64_encode proof))).
Proof.
  intros Hc. pose proof (b64_alphabet proof) as Hb. unfold client_final. rewrite !as_bytes_app. split.
  - apply from_utf8_ok. repeat apply utf8_valid_app; try done; by apply plain_utf8.
  - change (as_bytes "c=biws,r=" ++ as_bytes combined ++ as_bytes ",p=" ++ as_bytes (b64_encode proof))
      with (as_bytes "c=biws" ++ x2c :: as_bytes "r=" ++ as_bytes combined ++ x2c :: as_bytes "p=" ++ as_bytes (b64_encode proof)).
    rewrite split_byte_cons, (app_assoc (as_bytes "r=")), split_byte_cons, split_byte_one; try done.
    + rewrite forallb_app. apply andb_true_intro. split; [done|by apply plain_no_comma].
    + rewrite forallb_app. apply andb_true_intro. split; [done|by apply plain_no_comma].
Qed.

(** A Kafka client that has the password logs in: it selects the mechanism, sends its name and nonce, gets the
    challenge, and sends the proof; the connection then has its name, and the last answer carries the signature it
    expects.  The credential is read when the exchange begins. *)
Theorem sasl_login pw h user c s s' nonce r f r' f' conn :
  users s !! user ≫= creds_get h = Some c → made_from pw h c → str_valid user = true → bad_username user = false →
  bad_nonce nonce = false →
  ∃ salt combined proof sig step1 conn1 step2 conn2,
    sasl_authenticate r f s (client_first user nonce) (sasl_handshake (sasl_name h) conn).2 = (Ok step1, conn1) ∧
    failed step1 = false ∧
    auth_bytes step1 = as_bytes ("r=" +:+ combined +:+ ",s=" +:+ b64_encode salt +:+ ",i=" +:+ u32_to_string (iterations c)) ∧
    client_proof_and_server_sig_for h user pw nonce combined salt (iterations c) = Ok (proof, sig) ∧
    sasl_authenticate r' f' s' (client_final combined proof) conn1 = (Ok step2, conn2) ∧
    auth_bytes step2 = as_bytes ("v=" +:+ b64_encode sig) ∧ conn_principal conn2 = Some user ∧ sasl conn2 = Done.
Proof.
  intros Hc Hm Hv Hu Hn. destruct (login pw h user c s nonce r f Hc Hm Hn) as (chal & proof & sg & Hb & En & _ & Ecn & Ei & _ & Ep & Ef).
  destruct (client_first_read user nonce Hv Hu Hn) as (E1 & rest & E2 & E3).
  destruct (name_no_escapes user Hu) as (_ & _ & Hne). destruct (bad_nonce_plain nonce Hn) as [Hpl Hnn].
  assert (Hcp : forallb plain_byte (as_bytes (ch_combined_nonce chal)) = true)
    by (rewrite Ecn, as_bytes_app, forallb_app, Hpl; apply random_nonce_plain).
  destruct (client_final_read _ proof Hcp) as (E4 & E5).
  set (step1 := mkAuthStep (as_bytes ("r=" +:+ ch_combined_nonce chal +:+ ",s=" +:+ b64_encode (ch_salt chal) +:+ ",i=" +:+
    u32_to_string (ch_iterations chal))) None false None).
  assert (Hfirst : scram_client_first r f s (client_first user nonce) h = Ok (step1, ScramPending chal)).
  { unfold scram_client_first, scram_begin. rewrite E1, E2, E3. rewrite <- (of_as_bytes user), <- (of_as_bytes nonce) in Hb.
    destruct (as_bytes user) as [|? ?] eqn:Eu; [by rewrite <- (of_as_bytes user), Eu in Hne|].
    destruct (as_bytes nonce) as [|? ?] eqn:Enn; [by rewrite <- (of_as_bytes nonce), Enn in Hnn|].
    cbn beta iota zeta. by rewrite Hb. }
  assert (Hfinal : scram_client_final chal (client_final (ch_combined_nonce chal) proof) =
    mkAuthStep (as_bytes ("v=" +:+ b64_encode sg)) (Some user) false None).
  { unfold scram_client_final. rewrite E4, E5, !of_as_bytes, b64_roundtrip, En, Ef. done. }
  rewrite <- Ei. eexists (ch_salt chal), (ch_combined_nonce chal), proof, sg, step1, (mkKafkaConnState (conn_principal conn) (ScramPending chal)), _, _.
  split_and!; [|done|done|done|unfold sasl_authenticate; cbn [sasl authenticate_step]; rewrite Hfinal; reflexivity|done..].
  unfold sasl_authenticate. destruct h; cbn [sasl_handshake sasl_name mechanism_parse]; cbn; by rewrite Hfirst.
Qed.

End scram.

(** ** Who logs in *)

Section sound.
Context `{ScramCrypto, ScramJson}.

(** The bytes [proof], with the client's signature removed, are a preimage of
    the stored key the user has in [s]. *)
Definition unlocks (s : ScramStore) (user : string) (h : ScramHash) (nonce combined : string) (proof : bytes) : Prop :=
  ∃ c salt stored cs, users s !! user ≫= creds_get h = Some c ∧ cred_salt c = Ok salt ∧ cred_stored_key c = Ok stored ∧
    hmac h stored (as_bytes (build_auth_message user nonce combined salt (iterations c))) = Some cs ∧
    digest h (xor_bytes proof cs) = stored.

(** A challenge made from the credentials in [s], if the user is known. *)
Definition challenge_of (s : ScramStore) (chal : ScramChallenge) : Prop :=
  ch_user_known chal = true → ∃ c, users s !! ch_username chal ≫= creds_get (ch_hash chal) = Some c ∧
    cred_salt c = Ok (ch_salt chal) ∧ cred_stored_key c = Ok (ch_stored_key chal) ∧ ch_iterations chal = iterations c.

Lemma begin_challenge r f user nonce h s chal :
  begin_with_hash r f user nonce h s = Ok chal → ch_username chal = user ∧ ch_client_nonce chal = nonce ∧ challenge_of s chal.
Proof.
  unfold begin_with_hash. destruct (bad_nonce nonce); [done|]. destruct (users s !! user ≫= creds_get h) as [c|] eqn:Ec.
  - destruct (cred_salt c) eqn:E1; [|done]. destruct (cred_stored_key c) eqn:E2; [|done]. destruct (cred_server_key c); [|done].
    intros [= <-]. split; [done|]. split; [done|]. intros _. by exists c.
  - intros [= <-]. by repeat split.
Qed.

Lemma finish_unlocks s chal user combined proof sig :
  challenge_of s chal → finish chal user combined proof = Ok sig →
  user = ch_username chal ∧ combined = ch_combined_nonce chal ∧
  unlocks s user (ch_hash chal) (ch_client_nonce chal) combined proof.
Proof.
  intros Hch. unfold finish. destruct (String.eqb_spec user (ch_username chal)) as [->|]; [|done].
  destruct (String.eqb_spec combined (ch_combined_nonce chal)) as [->|]; [|done]. cbn [negb orb].
  destruct (ch_user_known chal) eqn:Hk; [|done]. destruct (Hch Hk) as (c & Hc & Es & Ek & Ei). cbn [negb].
  destruct (negb (zlen proof =? _)); [done|]. unfold hmac_hash at 1. destruct (hmac _ _ _) as [cs|] eqn:Ecs; [|done].
  case_bool_decide as Hd; [|done]. intros _. split; [done|]. split; [done|]. rewrite Ei in Ecs.
  exists c, (ch_salt chal), (ch_stored_key chal), cs. done.
Qed.

(** What was presented on a Kafka connection, with the users of that moment:
    a password that is right, or a proof that unlocks the user's key. *)
Definition presented (hist : list (ScramStore * bytes)) (p : string) : Prop :=
  (∃ s b pw, (s, b) ∈ hist ∧ verify_password p pw s = true ∧
     ([as_bytes p; as_bytes pw] = split_byte 0 b ∨ ∃ z, [z; as_bytes p; as_bytes pw] = split_byte 0 b)) ∨
  (∃ s1 b1 s2 b2 h nonce combined proof t, (s1, b1) ∈ hist ∧ (s2, b2) ∈ hist ∧ unlocks s1 p h nonce combined proof ∧
     as_bytes "p=" ++ t ∈ split_byte 44 b2 ∧ b64_decode (of_bytes t) = Some proof).

(** The SASL requests of a connection, each with the users of its moment. *)
Inductive sasl_run : list (ScramStore * bytes) → KafkaConnState → Prop :=
  | sr_start : sasl_run [] new_conn
  | sr_handshake hist conn m : sasl_run hist conn → sasl_run hist (sasl_handshake m conn).2
  | sr_authenticate hist conn r f s b :
      sasl_run hist conn → sasl_run ((s, b) :: hist) (sasl_authenticate r f s b conn).2.

Lemma strip_prefix_inv p s rest : strip_prefix (map byte_val p) s = Some rest → s = p ++ rest.
Proof.
  revert s. induction p as [|c p IH]; intros s; cbn; [by intros [= ->]|]. destruct s as [|b s]; [done|].
  destruct (Z.eqb_spec (byte_val b) (byte_val c)) as [E%byte_val_inj|]; [|done]. intros ->%IH. by rewrite E.
Qed.

Lemma final_attr_proof parts acc r t :
  foldl final_attr acc parts = (r, Some t) → acc.2 = Some t ∨ as_bytes "p=" ++ t ∈ parts.
Proof.
  revert acc. induction parts as [|x parts IH]; intros acc; cbn [foldl]; [intros ->; by left|].
  intros [Ha|Hin]%IH; [|right; by right]. unfold final_attr in Ha. destruct (strip_str "r=" x); [by left|].
  destruct (strip_str "p=" x) eqn:E; [|by left]. cbn in Ha. injection Ha as ->. right. apply strip_prefix_inv in E as ->. left.
Qed.

Lemma plain_sound s b p : principal (plain_authenticate s b) = Some p →
  ∃ pw, verify_password p pw s = true ∧
    ([as_bytes p; as_bytes pw] = split_byte 0 b ∨ ∃ z, [z; as_bytes p; as_bytes pw] = split_byte 0 b).
Proof.
  assert (Hcheck : ∀ user pass, principal (plain_check s user pass) = Some p →
    ∃ pw, verify_password p pw s = true ∧ as_bytes p = user ∧ as_bytes pw = pass).
  { intros user pass. unfold plain_check. destruct (from_utf8 user) as [u|] eqn:Eu; [|done]. apply from_utf8_valid in Eu as [_ Eu].
    destruct u as [|a u]; [done|]. destruct (from_utf8 pass) as [pw|] eqn:Ep; [|done]. apply from_utf8_valid in Ep as [_ Ep].
    destruct (verify_password _ pw s) eqn:Ev; [|done]. intros [= <-]. eauto. }
  unfold plain_authenticate. destruct (split_byte 0 b) as [|x1 [|x2 [|x3 [|? ?]]]] eqn:Es; try done.
  all: intros (pw & Hv & <- & <-)%Hcheck; eauto 6.
Qed.

Lemma client_first_sound r f s b h step st :
  scram_client_first r f s b h = Ok (step, st) → principal step = None ∧ ∀ chal, st = ScramPending chal → challenge_of s chal.
Proof.
  assert (Hb : ∀ bare, scram_begin r f s bare h = (step, st) →
    principal step = None ∧ ∀ chal, st = ScramPending chal → challenge_of s chal).
  { intros bare. unfold scram_begin. destruct (foldl _ _ _) as [[[|? ?]|] [[|? ?]|]]; try by intros [= <- <-].
    destruct (begin_with_hash _ _ _ _ _ _) as [chal|e] eqn:E; [|by intros [= <- <-]].
    intros [= <- <-]. split; [done|]. intros ? [= <-]. by apply begin_challenge in E as (_ & _ & ?). }
  unfold scram_client_first. destruct (from_utf8 b); [|done]. destruct (strip_str "n,," b) as [rest|].
  - intros [= E]. by eapply Hb.
  - destruct (strip_str "y,," b), (strip_str "p=" b); try (by intros [= <- <-]). intros [= E]. by eapply Hb.
Qed.

Lemma client_final_sound s1 chal b p : challenge_of s1 chal → principal (scram_client_final chal b) = Some p →
  ∃ h nonce combined proof t, unlocks s1 p h nonce combined proof ∧ as_bytes "p=" ++ t ∈ split_byte 44 b ∧
    b64_decode (of_bytes t) = Some proof.
Proof.
  intros Hch. unfold scram_client_final. destruct (from_utf8 b); [|done].
  destruct (foldl _ _ _) as [[combined|] [t|]] eqn:Ef; try done. destruct (b64_decode (of_bytes t)) as [proof|] eqn:Et; [|done].
  destruct (finish _ _ _ _) eqn:E; [|done]. intros [= <-]. apply (finish_unlocks s1) in E as (_ & _ & Hu); [|done].
  apply final_attr_proof in Ef as [?|Hin]; [done|]. eauto 10.
Qed.

Lemma presented_more x hist p : presented hist p → presented (x :: hist) p.
Proof.
  intros [(s & b & pw & Hin & Hr)|(s1 & b1 & s2 & b2 & h & nonce & combined & proof & t & H1' & H2' & Hr)].
  - left. exists s, b, pw. split; [by right|done].
  - right. exists s1, b1, s2, b2, h, nonce, combined, proof, t. split; [by right|]. split; [by right|done].
Qed.

Definition sasl_inv (hist : list (ScramStore * bytes)) (conn : KafkaConnState) : Prop :=
  (∀ p, conn_principal conn = Some p → presented hist p) ∧
  (∀ chal, sasl conn = ScramPending chal → ∃ s b, (s, b) ∈ hist ∧ challenge_of s chal).

Lemma authenticate_step_sound r f s st b res st' :
  authenticate_step r f s st b = (res, st') →
  (∀ chal, st' = ScramPending chal → st = ScramPending chal ∨ challenge_of s chal) ∧
  (∀ step p, res = Ok step → principal step = Some p →
    (∃ pw, verify_password p pw s = true ∧
      ([as_bytes p; as_bytes pw] = split_byte 0 b ∨ ∃ z, [z; as_bytes p; as_bytes pw] = split_byte 0 b)) ∨
    ∃ chal, st = ScramPending chal ∧ principal (scram_client_final chal b) = Some p).
Proof.
  destruct st as [|[| |]|chal|]; cbn [authenticate_step].
  - intros [= <- <-]. split; [naive_solver|]. by intros ? ? [= <-].
  - intros [= <- <-]. split; [destruct (principal _); naive_solver|]. intros ? p [= <-] Hp. left. by apply plain_sound.
  - destruct (scram_client_first _ _ _ _ _) as [[step next]|e] eqn:E; intros [= <- <-]; [|naive_solver].
    apply client_first_sound in E as [Hn Hc]. split; [naive_solver|]. intros ? p [= <-]. by rewrite Hn.
  - destruct (scram_client_first _ _ _ _ _) as [[step next]|e] eqn:E; intros [= <- <-]; [|naive_solver].
    apply client_first_sound in E as [Hn Hc]. split; [naive_solver|]. intros ? p [= <-]. by rewrite Hn.
  - intros [= <- <-]. split.
    + intros chal'. destruct (principal _); [done|]. destruct (failed _); naive_solver.
    + intros ? p [= <-] Hp. right. eauto.
  - intros [= <- <-]. split; [naive_solver|]. by intros ? ? [= <-].
Qed.

Lemma sasl_run_inv hist conn : sasl_run hist conn → sasl_inv hist conn.
Proof.
  induction 1 as [|hist conn m _ [Hp Hc]|hist conn r f s b _ [Hp Hc]].
  - done.
  - unfold sasl_handshake. destruct (mechanism_parse m); [|done]. by split.
  - unfold sasl_authenticate. destruct (authenticate_step r f s (sasl conn) b) as [res st'] eqn:E.
    apply authenticate_step_sound in E as [Hst Hpr].
    assert (Hc' : ∀ chal, st' = ScramPending chal → ∃ s' b', (s', b') ∈ (s, b) :: hist ∧ challenge_of s' chal).
    { intros chal [(s' & b' & ? & ?)%Hc|?]%Hst; [exists s', b'; split; [by right|done]|exists s, b; split; [left|done]]. }
    destruct res as [step|e]; cbn; [destruct (failed step)|]; (split; [|exact Hc']); cbn; [eauto using presented_more| |eauto using presented_more].
    intros p. destruct (principal step) as [q|] eqn:Eq; [|eauto using presented_more]. intros [= ->].
    destruct (Hpr step p eq_refl Eq) as [(pw & Hv & Hs)|(chal & Hpend & Hf)].
    + left. exists s, b, pw. split; [left|done].
    + destruct (Hc chal Hpend) as (s1 & b1 & Hin & Hch). destruct (client_final_sound s1 chal b p Hch Hf) as (h & nonce & comb & proof & t & ?).
      right. exists s1, b1, s, b, h, nonce, comb, proof, t. split; [by right|]. split; [left|done].
Qed.

(** C29: A Kafka connection has the name of a user only if the client presented on it a password the user's credential
    verifies, or a SCRAM proof that unlocks the stored key the user had when the exchange began. *)
Theorem sasl_needs_credentials hist conn p : sasl_run hist conn → conn_principal conn = Some p → presented hist p.
Proof. intros Hr%sasl_run_inv Hp. by apply Hr. Qed.

End sound.
