(* ===== verification/Auth.v ===== *)
(** * Authentication of a native connection: [net/dispatch.rs]

    [dispatch_with_auth] with the handshake of tokens and SCRAM, the gate of
    [Acl] behind it, and the handlers of the remaining requests as a
    parameter.  Who reaches a handler has presented credentials. *)

From Stdlib Require Import Strings.String.
From S2P Require Import Prelude Bytes Text Wire Messages Request Response RequestProps Frame Acl AclProps Scram ScramProps.
#[local] Open Scope Z_scope.

Definition NotFoundCode : Z := 2.
Definition ProtocolError : Z := 5.
Definition IoError : Z := 6.
Definition UnsupportedError : Z := 8.
Definition AuthenticationFailed : Z := 17.
Definition AuthenticationRequired : Z := 18.

(** The fields of the broker that the connection reads. *)
Class AuthBroker (St : Type) := {
  auth_token : St → option string;
  scram_of : St → ScramStore;
  acls_of : St → AclState;
}.

(** [authenticated], [principal] and [scram_challenge] of [handle_connection]. *)
Record ConnAuth := mkConnAuth {
  authenticated : bool;
  who : option string;
  scram_challenge : option ScramChallenge;
}.

Definition map_error (e : Prelude.Error) : Response :=
  match e with
  | NotFound m => Response.Error NotFoundCode m
  | InvalidArgument m => Response.Error InvalidArgError m
  | Storage m => Response.Error StorageError m
  | Protocol m => Response.Error ProtocolError m
  | Io m => Response.Error IoError m
  | NotImplemented m => Response.Error UnsupportedError m
  end.

Section auth.
Context `{ScramCrypto, ScramJson}.
Context {St : Type} `{AuthBroker St}.
(** [handle_request] *)
Context (handle_request : Request → St → result Response * St).

Definition auth_required (st : St) : bool :=
  match auth_token st with Some _ => true | None => false end || has_users (scram_of st).

(** The state of a new connection. *)
Definition accept_connection (st : St) : ConnAuth := mkConnAuth (negb (auth_required st)) None None.

Definition dispatch_request_as (req : Request) (principal : option string) (st : St) : Response * St :=
  match authorize_request req principal (acls_of st) with
  | Some denied => (denied, st)
  | None =>
    match handle_request req st with
    | (Ok resp, st) => (resp, st)
    | (Err e, st) => (map_error e, st)
    end
  end.

Definition scram_refused : Response := Response.ScramFirst InvalidArgError "" [] 0.

Definition handle_scram_first (server_random fake_salt : bytes) (username client_nonce : string) (hash : Z) (st : St)
    (c : ConnAuth) : Response * ConnAuth :=
  let refused := (scram_refused, mkConnAuth (authenticated c) (who c) None) in
  let start alg :=
    match begin_with_hash server_random fake_salt username client_nonce alg (scram_of st) with
    | Ok chal =>
      (Response.ScramFirst 0 (ch_combined_nonce chal) (ch_salt chal) (ch_iterations chal),
       mkConnAuth (authenticated c) (who c) (Some chal))
    | Err _ => refused
    end in
  if (hash =? 0) || (hash =? 1) then start Sha256
  else if hash =? 2 then start Sha512
  else refused.

Definition handle_scram_final (username combined_nonce : string) (client_proof : bytes) (c : ConnAuth) : Response * ConnAuth :=
  match scram_challenge c with
  | None => (Response.ScramFinal AuthenticationFailed [], c)
  | Some chal =>
    match finish chal username combined_nonce client_proof with
    | Ok server_sig => (Response.ScramFinal 0 server_sig, mkConnAuth true (Some username) None)
    | Err _ => (Response.ScramFinal AuthenticationFailed [], mkConnAuth false None None)
    end
  end.

Definition handle_auth (token : string) (st : St) (c : ConnAuth) : Response * ConnAuth :=
  let accepted := (Response.Auth 0, mkConnAuth true (Some (auth_principal (acls_of st))) (scram_challenge c)) in
  match auth_token st with
  | None => accepted
  | Some expected =>
    if String.eqb expected token then accepted
    else (Response.Auth AuthenticationFailed, mkConnAuth false None (scram_challenge c))
  end.

(** The request of a frame that decodes. *)
Definition dispatch_decoded (server_random fake_salt : bytes) (req : Request) (c : ConnAuth) (st : St) : Response * (ConnAuth * St) :=
  let run := let '(r, st) := dispatch_request_as req (who c) st in (r, (c, st)) in
  match req with
  | Request.Auth token => let '(r, c) := handle_auth token st c in (r, (c, st))
  | Request.ScramFirst username client_nonce hash =>
    let '(r, c) := handle_scram_first server_random fake_salt username client_nonce hash st c in (r, (c, st))
  | Request.ScramFinal username combined_nonce client_proof =>
    let '(r, c) := handle_scram_final username combined_nonce client_proof c in (r, (c, st))
  | _ =>
    let bootstrap := match req with Request.CreateScramUser _ _ _ => negb (has_users (scram_of st)) | _ => false end in
    if bootstrap then run
    else if auth_required st && negb (authenticated c) then
      (Response.Error AuthenticationRequired "authentication required; send Auth or ScramFirst/ScramFinal first", (c, st))
    else run
  end.

(** The decoder does not panic ([RequestProps.decode_request_safe]). *)
Definition dispatch_with_auth (server_random fake_salt : bytes) (frame : Frame) (c : ConnAuth) (st : St) : Response * (ConnAuth * St) :=
  match decode_request (fh_opcode (header frame)) (payload frame) with
  | Got req _ => dispatch_decoded server_random fake_salt req c st
  | Bad e => (Response.Error ProtocolError (error_to_string e), (c, st))
  | Panic => (Response.Error ProtocolError "", (c, st))
  end.

(** ** Who is served *)

(** The request of a frame, with the broker of that moment. *)
Definition request_of (frame : Frame) (st : St) : list (Request * St) :=
  match decode_request (fh_opcode (header frame)) (payload frame) with Got req _ => [(req, st)] | _ => [] end.

(** A connection of a broker whose token is [t]: it is accepted, its frames
    are dispatched, and meanwhile the broker changes. *)
Inductive conn_run (t : string) : list (Request * St) → ConnAuth → St → Prop :=
  | cr_accept st : auth_token st = Some t → conn_run t [] (accept_connection st) st
  | cr_other hist c st st' : conn_run t hist c st → auth_token st' = Some t → conn_run t hist c st'
  | cr_frame hist c st r f frame resp c' st' :
      conn_run t hist c st → dispatch_with_auth r f frame c st = (resp, (c', st')) → auth_token st' = Some t →
      conn_run t (request_of frame st ++ hist) c' st'.

(** The client sent the token, and has the broker's name for it, or a proof
    that unlocks the key [p] had when the exchange began. *)
Definition proved (t : string) (hist : list (Request * St)) (p : string) : Prop :=
  (∃ st, (Request.Auth t, st) ∈ hist ∧ p = auth_principal (acls_of st)) ∨
  (∃ st1 st2 n h nonce combined proof, (Request.ScramFirst p nonce n, st1) ∈ hist ∧
     (Request.ScramFinal p combined proof, st2) ∈ hist ∧ unlocks (scram_of st1) p h nonce combined proof).

Lemma proved_more t hist l p : proved t hist p → proved t (l ++ hist) p.
Proof.
  intros [(st & Hin & ?)|(st1 & st2 & n & h & nonce & comb & proof & H1' & H2' & ?)].
  - left. exists st. rewrite elem_of_app. auto.
  - right. exists st1, st2, n, h, nonce, comb, proof. rewrite !elem_of_app. auto.
Qed.

Definition conn_inv (t : string) (hist : list (Request * St)) (c : ConnAuth) : Prop :=
  (authenticated c = true → is_Some (who c)) ∧
  (∀ p, who c = Some p → proved t hist p) ∧
  (∀ chal, scram_challenge c = Some chal →
     ∃ st n, (Request.ScramFirst (ch_username chal) (ch_client_nonce chal) n, st) ∈ hist ∧ challenge_of (scram_of st) chal).

Lemma conn_inv_more t hist l c : conn_inv t hist c → conn_inv t (l ++ hist) c.
Proof.
  intros (Ha & Hp & Hc). split_and!; [done|eauto using proved_more|].
  intros chal (st & n & Hin & ?)%Hc. exists st, n. rewrite elem_of_app. auto.
Qed.

Lemma handle_auth_inv t hist token st c r c' :
  auth_token st = Some t → conn_inv t hist c → handle_auth token st c = (r, c') → conn_inv t ((Request.Auth token, st) :: hist) c'.
Proof.
  intros Ht Hi%(conn_inv_more _ _ [(Request.Auth token, st)]) E. unfold handle_auth in E. rewrite Ht in E.
  destruct (String.eqb_spec t token) as [<-|]; cbn zeta in E; simplify_eq; destruct Hi as (_ & _ & Hc); split_and!; try done; cbn.
  intros p [= <-]. left. exists st. split; [left|done].
Qed.

Lemma handle_scram_first_inv t hist r f user nonce n st c resp c' :
  conn_inv t hist c → handle_scram_first r f user nonce n st c = (resp, c') →
  conn_inv t ((Request.ScramFirst user nonce n, st) :: hist) c'.
Proof.
  intros Hi%(conn_inv_more _ _ [(Request.ScramFirst user nonce n, st)]) E. destruct Hi as (Ha & Hp & _).
  assert (Hnone : conn_inv t ((Request.ScramFirst user nonce n, st) :: hist) (mkConnAuth (authenticated c) (who c) None)) by done.
  unfold handle_scram_first in E.
  assert (Hs : ∀ alg, (match begin_with_hash r f user nonce alg (scram_of st) with
      | Ok chal => (Response.ScramFirst 0 (ch_combined_nonce chal) (ch_salt chal) (ch_iterations chal), mkConnAuth (authenticated c) (who c) (Some chal))
      | Err _ => (scram_refused, mkConnAuth (authenticated c) (who c) None) end) = (resp, c') →
    conn_inv t ((Request.ScramFirst user nonce n, st) :: hist) c').
  { clear E. intros alg. destruct (begin_with_hash _ _ _ _ _ _) as [chal|] eqn:Eb; intros Er; simplify_eq; [|done].
    split_and!; [done..|]. intros ? [= <-]. apply begin_challenge in Eb as (<- & <- & ?). exists st, n. split; [left|done]. }
  cbn zeta in E. destruct ((n =? 0) || (n =? 1)); [eauto|]. destruct (n =? 2); [eauto|]. by simplify_eq.
Qed.

Lemma handle_scram_final_inv t hist user comb proof st c resp c' :
  conn_inv t hist c → handle_scram_final user comb proof c = (resp, c') →
  conn_inv t ((Request.ScramFinal user comb proof, st) :: hist) c'.
Proof.
  intros Hi E. pose proof Hi as (_ & _ & Hc). apply (conn_inv_more _ _ [(Request.ScramFinal user comb proof, st)]) in Hi.
  unfold handle_scram_final in E. destruct (scram_challenge c) as [chal|] eqn:Ech; [|by simplify_eq].
  destruct (finish chal user comb proof) as [sig|] eqn:Ef; simplify_eq; [|done].
  destruct (Hc chal eq_refl) as (st1 & n & Hin & Hch). apply (finish_unlocks (scram_of st1)) in Ef as (-> & -> & Hu); [|done].
  split_and!; [done|..|done]. intros p [= <-]. right. exists st1, st, n, (ch_hash chal), (ch_client_nonce chal), (ch_combined_nonce chal), proof.
  split; [by right|]. split; [left|done].
Qed.

(** Every request but those of the handshake leaves the connection as it is. *)
Lemma dispatch_decoded_inv t hist r f req c st resp c' st' :
  auth_token st = Some t → conn_inv t hist c → dispatch_decoded r f req c st = (resp, (c', st')) →
  conn_inv t ((req, st) :: hist) c'.
Proof.
  intros Ht Hi E. assert (Hsame : c' = c → conn_inv t ((req, st) :: hist) c') by (intros ->; by apply (conn_inv_more _ _ [(req, st)])).
  unfold dispatch_decoded in E. destruct req; cbn [negb andb orb] in E;
    try (apply Hsame; destruct (dispatch_request_as _ _ _); repeat case_match; congruence).
  - destruct (handle_auth token st c) as [r0 c0] eqn:E0. simplify_eq. by eapply handle_auth_inv.
  - destruct (handle_scram_first _ _ _ _ _ _ _) as [r0 c0] eqn:E0. simplify_eq. by eapply handle_scram_first_inv.
  - destruct (handle_scram_final _ _ _ _) as [r0 c0] eqn:E0. simplify_eq. by eapply handle_scram_final_inv.
Qed.

Lemma conn_run_inv t hist c st : conn_run t hist c st → auth_token st = Some t ∧ conn_inv t hist c.
Proof.
  induction 1 as [st Ht|hist c st st' _ [_ ?] Ht|hist c st r f frame resp c' st' _ [Ht Hi] E Ht'].
  - split; [done|]. unfold accept_connection, auth_required. rewrite Ht. by split_and!.
  - done.
  - split; [done|]. unfold dispatch_with_auth in E. unfold request_of. destruct (decode_request _ _) as [req rest|e|].
    + by eapply dispatch_decoded_inv.
    + by simplify_eq.
    + by simplify_eq.
Qed.

(** Answers of the handshake and refusals. *)
Definition not_served (resp : Response) : bool :=
  match resp with
  | Response.Auth _ | Response.ScramFirst _ _ _ _ | Response.ScramFinal _ _ => true
  | Response.Error code _ =>
    (code =? ProtocolError) || (code =? AuthenticationRequired) || (code =? AuthorizationFailed)
  | _ => false
  end.

Definition creates_user (req : Request) : bool := match req with Request.CreateScramUser _ _ _ => true | _ => false end.

Lemma authorize_request_denies req principal s resp :
  authorize_request req principal s = Some resp → not_served resp = true.
Proof.
  unfold authorize_request. destruct (not_gated req); [done|]. destruct (negb _); [done|].
  destruct (request_allowed _ _ _); [done|]. by intros [= <-].
Qed.

Lemma dispatch_as_cases req principal st :
  (∃ resp, dispatch_request_as req principal st = (resp, st) ∧ not_served resp = true) ∨
  authorize_request req principal (acls_of st) = None ∧
  dispatch_request_as req principal st =
    (match (handle_request req st).1 with Ok resp => resp | Err e => map_error e end, (handle_request req st).2).
Proof.
  unfold dispatch_request_as. destruct (authorize_request _ _ _) as [resp|] eqn:E.
  - left. exists resp. split; [done|]. by eapply authorize_request_denies.
  - right. split; [done|]. by destruct (handle_request req st) as [[]].
Qed.

Lemma andb_negb_false a b : a && negb b = false → a = false ∨ b = true.
Proof. destruct a, b; auto. Qed.

Lemma dispatch_decoded_cases r f req c st resp c' st' :
  dispatch_decoded r f req c st = (resp, (c', st')) →
  (st' = st ∧ not_served resp = true) ∨
  ((resp, st') = dispatch_request_as req (who c) st ∧
   (creates_user req && negb (has_users (scram_of st)) = true ∨ auth_required st = false ∨ authenticated c = true)).
Proof.
  unfold dispatch_decoded. destruct (dispatch_request_as req (who c) st) as [r0 st0] eqn:Ed.
  destruct req; cbn [creates_user andb];
    try (destruct (auth_required st && negb (authenticated c)) eqn:Ea; intros E; simplify_eq; [by left|];
         right; split; [done|]; right; by apply andb_negb_false).
  - unfold handle_auth. intros E. left. repeat case_match; by simplify_eq.
  - unfold handle_scram_first, scram_refused. intros E. left. cbn zeta in E. repeat case_match; by simplify_eq.
  - unfold handle_scram_final. intros E. left. repeat case_match; by simplify_eq.
  - destruct (negb (has_users (scram_of st))); [intros E; simplify_eq; by auto|].
    destruct (auth_required st && negb (authenticated c)) eqn:Ea; intros E; simplify_eq; [by left|].
    right; split; [done|]; right; by apply andb_negb_false.
Qed.

(** C12: On a broker with a token, a frame of a connection is either answered by the handshake or refused, and changes
    nothing, or it is a request that its handler answered: then the gate of access control passed it for the
    connection's principal, and the client had proved that principal on this connection with the token or with a
    SCRAM proof, unless the request creates the first user of a broker that has none. *)
Theorem served_requests_are_authorized t hist c st r f frame resp c' st' :
  conn_run t hist c st → dispatch_with_auth r f frame c st = (resp, (c', st')) →
  (st' = st ∧ not_served resp = true) ∨
  ∃ req rest, decode_request (fh_opcode (header frame)) (payload frame) = Got req rest ∧
    st' = (handle_request req st).2 ∧
    resp = match (handle_request req st).1 with Ok answer => answer | Err e => map_error e end ∧
    authorize_request req (who c) (acls_of st) = None ∧
    ((∃ p, who c = Some p ∧ proved t hist p) ∨ (creates_user req = true ∧ has_users (scram_of st) = false)).
Proof.
  intros (Ht & Ha & Hp & _)%conn_run_inv. unfold dispatch_with_auth. destruct (decode_request _ _) as [req rest|e|].
  2,3: intros E; simplify_eq; by left.
  intros [?|[E Hwhy]]%dispatch_decoded_cases; [by left|].
  destruct (dispatch_as_cases req (who c) st) as [(resp' & E' & Hn)|[Hg E']]; rewrite E' in E; simplify_eq; [by left|].
  right. exists req, rest. split_and!; [done..|]. destruct Hwhy as [[Hc Hu]%andb_true_iff|[Hr|Hau]].
  - right. split; [done|]. by apply negb_true_iff.
  - unfold auth_required in Hr. by rewrite Ht in Hr.
  - left. destruct (Ha Hau) as [p Hw]. eauto.
Qed.

(** A broker with SCRAM users and no token authenticates a connection that sends any token, under the name kept for
    the token. *)
Theorem any_token_authenticates st token c :
  auth_token st = None →
  auth_required st = has_users (scram_of st) ∧
  handle_auth token st c = (Response.Auth 0, mkConnAuth true (Some (auth_principal (acls_of st))) (scram_challenge c)).
Proof. intros Ht. unfold auth_required, handle_auth. by rewrite Ht. Qed.

End auth.

(** * Concrete inputs for the theorems on authentication

    A checksum in place of the hashes, hexadecimal text in place of Base64,
    a user, and the theorems at them. *)

From stdpp Require Import countable.
From S2P Require Import Assignor KafkaWire FetchSession FetchSessionProps FetchSessionTheorems.
#[local] Open Scope Z_scope.

#[local] Instance sum_crypto : ScramCrypto := {
  digest h d := le_bytes (Z.to_nat (digest_len h)) (sum32 d);
  hmac h k d := Some (le_bytes (Z.to_nat (digest_len h)) (sum32 (k ++ d)));
  pbkdf2 h p s i := le_bytes (Z.to_nat (digest_len h)) (sum32 (p ++ s) + i);
  b64_encode := hex_encode;
  b64_decode s := hex_pairs (as_bytes s);
}.

#[local] Instance ScramCredential_eq_dec : EqDecision ScramCredential.
Proof. solve_decision. Defined.
#[local] Instance UserCreds_eq_dec : EqDecision UserCreds.
Proof. solve_decision. Defined.
#[local] Instance ScramUserRecord_eq_dec : EqDecision ScramUserRecord.
Proof. solve_decision. Defined.
#[local] Instance ScramCredential_countable : Countable ScramCredential.
Proof.
  refine (inj_countable' (λ c, (salt_b64 c, stored_key_b64 c, server_key_b64 c, iterations c))
    (λ '(a, b, c, d), mkScramCredential a b c d) _). by intros [].
Defined.
#[local] Instance UserCreds_countable : Countable UserCreds.
Proof. refine (inj_countable' (λ u, (sha256 u, sha512 u)) (λ '(a, b), mkUserCreds a b) _). by intros []. Defined.
#[local] Instance ScramUserRecord_countable : Countable ScramUserRecord.
Proof.
  refine (inj_countable' (λ r, match r with Legacy c => inl c | Multi u => inr u end)
    (λ x, match x with inl c => Legacy c | inr u => Multi u end) _). by intros [].
Defined.

#[local] Instance text_users : ScramJson := { users_to_string := write_text; users_from_str := read_text }.

Lemma hex_plain u : forallb plain_byte (as_bytes (hex_encode u)) = true.
Proof.
  unfold hex_encode. rewrite as_of_bytes. induction u as [|b u IH]; [done|]. cbn [flat_map app forallb]. rewrite IH. by destruct b.
Qed.

Lemma hex_decodes u : hex_pairs (as_bytes (hex_encode u)) = Some u.
Proof.
  unfold hex_encode. rewrite as_of_bytes. induction u as [|b u IH]; [done|]. cbn [flat_map app]. by rewrite hex_byte, IH.
Qed.

#[local] Instance sum_laws : ScramLaws.
Proof.
  split.
  - intros h k d. eexists. split; [done|]. rewrite zlen_le_bytes. by destruct h.
  - exact hex_decodes.
  - exact hex_plain.
  - intros u. destruct (text_roundtrip u) as (b & Eb & Er & Et). exists b. split_and!; try done.
    unfold write_text in Eb. injection Eb as <-. exact (digits_utf8 _).
Qed.

Definition no_users : ScramStore := mkScramStore ∅ no_file.

Lemma alice_created : ∃ s, upsert_user [x61] [x62] "alice" "secret" 0 no_users = (Ok tt, s).
Proof. by apply upsert_user_ok. Qed.

Lemma password_login_witness :
  ∃ s1 s2 chal proof sig, upsert_user [x61] [x62] "alice" "secret" 0 no_users = (Ok tt, s1) ∧ open_users (users_file s1) = Ok s2 ∧
    begin_with_hash [x01] [x02] "alice" "nonce" Sha512 s2 = Ok chal ∧ finish chal "alice" (ch_combined_nonce chal) proof = Ok sig.
Proof.
  destruct alice_created as (s1 & E1).
  destruct (password_login [x61] [x62] "alice" "secret" 0 no_users s1 Sha512 "nonce" [x01] [x02] E1 eq_refl)
    as (s2 & Ho & _ & chal & proof & sig & Eb & _ & Ef).
  exists s1, s2, chal, proof, sig. done.
Defined.

Lemma sasl_login_witness :
  ∃ s conn1 conn2 combined proof step1 step2,
    sasl_authenticate [x01] [x02] s (client_first "alice" "nonce") (sasl_handshake "SCRAM-SHA-256" new_conn).2 = (Ok step1, conn1) ∧
    sasl_authenticate [] [] no_users (client_final combined proof) conn1 = (Ok step2, conn2) ∧ conn_principal conn2 = Some "alice"%string.
Proof.
  destruct alice_created as (s1 & E1). destruct (upsert_user_spec _ _ _ _ _ _ _ Sha256 E1) as (_ & _ & _ & c & Hc & Hm).
  destruct (sasl_login "secret" Sha256 "alice" c s1 no_users "nonce" [x01] [x02] [] [] new_conn Hc Hm eq_refl eq_refl eq_refl)
    as (salt & combined & proof & sig & step1 & conn1 & step2 & conn2 & Ef & _ & _ & _ & El & _ & Ep & _).
  exists s1, conn1, conn2, combined, proof, step1, step2. done.
Defined.

(** The PLAIN message of alice. *)
Definition plain_alice : bytes := x00 :: as_bytes "alice" ++ x00 :: as_bytes "secret".

Lemma sasl_needs_credentials_witness :
  ∃ s conn, sasl_run [(s, plain_alice)] conn ∧ conn_principal conn = Some "alice"%string ∧ presented [(s, plain_alice)] "alice".
Proof.
  destruct alice_created as (s1 & E1). destruct (upsert_user_spec _ _ _ _ _ _ _ Sha256 E1) as (_ & _ & _ & c & Hc & Hm).
  assert (Hv : verify_password "alice" "secret" s1 = true) by (by eapply verify_made_from).
  set (conn := (sasl_authenticate [] [] s1 plain_alice (sasl_handshake "PLAIN" new_conn).2).2).
  assert (Hr : sasl_run [(s1, plain_alice)] conn) by (apply sr_authenticate, sr_handshake, sr_start).
  assert (Hp : conn_principal conn = Some "alice"%string).
  { unfold conn, sasl_authenticate. cbn [sasl_handshake mechanism_parse sasl snd]. unfold authenticate_step, plain_authenticate.
    change (split_byte 0 plain_alice) with [[]; as_bytes "alice"; as_bytes "secret"]. cbn iota beta. unfold plain_check.
    rewrite !from_utf8_as_bytes by reflexivity. cbn iota. by rewrite Hv. }
  exists s1, conn. split; [done|]. split; [done|]. exact (sasl_needs_credentials _ _ _ Hr Hp).
Defined.

(** ** A native connection *)

Definition World : Type := option string * ScramStore * AclState.
#[local] Instance world_auth : AuthBroker World := {
  auth_token w := w.1.1; scram_of w := w.1.2; acls_of w := w.2 }.

Definition world0 : World := (Some "t0ken"%string, no_users, new_state).
Definition answer (req : Request) (w : World) : result Response * World := (Ok (Response.LeaveGroup 0), w).

Definition frame_of (op : Z) (p : bytes) : Frame := mkFrame (mkFrameHeader 1 op 1 (zlen p) 0) p.
Definition auth_frame : Frame := frame_of (Request.opcode (Request.Auth "t0ken")) (u16_le 5 ++ as_bytes "t0ken").
Definition list_frame : Frame := frame_of (Request.opcode Request.ListGroups) [].

Lemma auth_frame_decodes : decode_request (fh_opcode (header auth_frame)) (payload auth_frame) = Got (Request.Auth "t0ken") [].
Proof. vm_compute. reflexivity. Qed.

Lemma list_frame_decodes : decode_request (fh_opcode (header list_frame)) (payload list_frame) = Got Request.ListGroups [].
Proof. vm_compute. reflexivity. Qed.

Lemma served_requests_are_authorized_witness :
  ∃ c c', conn_run answer "t0ken" [(Request.Auth "t0ken", world0)] c world0 ∧
    dispatch_with_auth answer [] [] list_frame c world0 = (Response.LeaveGroup 0, (c', world0)) ∧
    ∃ p, who c = Some p ∧ proved "t0ken" [(Request.Auth "t0ken", world0)] p.
Proof.
  set (c := mkConnAuth true (Some "token"%string) None).
  assert (Hr : conn_run answer "t0ken" [(Request.Auth "t0ken", world0)] c world0).
  { assert (Hq : request_of auth_frame world0 ++ [] = [(Request.Auth "t0ken", world0)])
      by (unfold request_of; by rewrite auth_frame_decodes).
    rewrite <- Hq. eapply (cr_frame answer _ _ _ _ [] [] auth_frame (Response.Auth 0)); [by apply cr_accept| |reflexivity].
    unfold dispatch_with_auth. by rewrite auth_frame_decodes. }
  assert (Hd : dispatch_with_auth answer [] [] list_frame c world0 = (Response.LeaveGroup 0, (c, world0)))
    by (unfold dispatch_with_auth; by rewrite list_frame_decodes).
  exists c, c. split; [done|]. split; [done|].
  destruct (served_requests_are_authorized answer "t0ken" _ c world0 [] [] list_frame _ c world0 Hr Hd)
    as [[_ Hn]|(req & rest & Hdec & _ & _ & _ & [Hp|[Hc _]])]; [done|done|].
  rewrite list_frame_decodes in Hdec. injection Hdec as <- _. done.
Defined.
