(* ===== verification/StreamState.v ===== *)
(** * State of stream operators: [volant-stream/src/state]

    The trait [KeyValueStore] with its stores, in memory and on disk, the
    checkpoints of the latter, and the changelog.  The database [redb] is an
    interface: a table whose write transactions commit or fail as a whole. *)

From Stdlib Require Import Strings.String.
From S2P Require Import Prelude Bytes Core.
#[local] Open Scope Z_scope.

(** ** Keys *)

(** The order of byte strings, that of [BTreeMap<Vec<u8>, _>] and of the
    database. *)
Fixpoint bytes_leb (a b : bytes) : bool :=
  match a, b with
  | [], _ => true
  | _ :: _, [] => false
  | x :: a, y :: b => (byte_val x <? byte_val y) || ((byte_val x =? byte_val y) && bytes_leb a b)
  end.

Definition entry_le (a b : bytes * bytes) : Prop := bytes_leb a.1 b.1 = true.
#[export] Instance entry_le_dec : RelDecision entry_le.
Proof. intros a b. unfold entry_le. apply _. Defined.
#[global] Typeclasses Opaque entry_le.

(** ** [KeyValueStore] *)

Class KeyValueStore (S : Type) := {
  kv_get : bytes → S → option bytes;
  kv_put : bytes → bytes → S → S;
  kv_delete : bytes → S → S;
  kv_iter : S → list (bytes * bytes);
  kv_begin_checkpoint : S → S;
  kv_commit_checkpoint : S → result unit * S;
  kv_abort_checkpoint : S → S;
  kv_staged_changelog : S → list (bytes * option bytes);
}.

Definition kv_apply_changelog {S} `{KeyValueStore S} (key : bytes) (value : option bytes) (s : S) : S :=
  match value with Some v => kv_put key v s | None => kv_delete key s end.

(** What an operator may rely on: a store that is in use is a map. *)
Class KeyValueLaws (S : Type) `{KeyValueStore S} := {
  kv_usable : S → Prop;
  kv_view : S → gmap bytes bytes;
  kv_put_usable k v s : kv_usable s → kv_usable (kv_put k v s);
  kv_delete_usable k s : kv_usable s → kv_usable (kv_delete k s);
  kv_get_view k s : kv_usable s → kv_get k s = kv_view s !! k;
  kv_put_view k v s : kv_usable s → kv_view (kv_put k v s) = <[k := v]> (kv_view s);
  kv_delete_view k s : kv_usable s → kv_view (kv_delete k s) = delete k (kv_view s);
  kv_iter_view s : kv_usable s → kv_iter s ≡ₚ map_to_list (kv_view s);
}.

(** ** [MemoryStore] *)

Definition MemoryStore : Type := gmap bytes bytes.

#[export] Instance memory_store : KeyValueStore MemoryStore := {
  kv_get k s := s !! k;
  kv_put k v s := <[k := v]> s;
  kv_delete k s := delete k s;
  kv_iter s := merge_sort entry_le (map_to_list s);
  kv_begin_checkpoint s := s;
  kv_commit_checkpoint s := (Ok tt, s);
  kv_abort_checkpoint s := s;
  kv_staged_changelog s := [];
}.

#[export] Program Instance memory_laws : KeyValueLaws MemoryStore := {
  kv_usable _ := True; kv_view s := s }.
Next Obligation. done. Qed.
Next Obligation. done. Qed.
Next Obligation. done. Qed.
Next Obligation. done. Qed.
Next Obligation. done. Qed.
Next Obligation. intros s _. apply merge_sort_Permutation. Qed.

(** ** [DurableStore] *)

(** A table of [redb]: reads, and a write transaction that removes and inserts
    in the given order and commits, or fails. *)
Class Redb := {
  Db : Type;
  db_get : bytes → Db → option bytes;
  db_iter : Db → list (bytes * bytes);
  db_write : list (bytes * option bytes) → Db → option Db;
}.

Definition apply_delta (m : gmap bytes bytes) (d : bytes * option bytes) : gmap bytes bytes :=
  match d.2 with Some v => <[d.1 := v]> m | None => delete d.1 m end.

Class RedbLaws `{Redb} := {
  db_content : Db → gmap bytes bytes;
  db_get_content k d : db_get k d = db_content d !! k;
  db_iter_content d : db_iter d ≡ₚ map_to_list (db_content d);
  db_write_content ws d d' : db_write ws d = Some d' → db_content d' = foldl apply_delta (db_content d) ws;
}.

Record Staging := mkStaging {
  puts : gmap bytes bytes;
  deletes : gset bytes;
}.

(** [panicked] marks a write outside a checkpoint that failed: the process
    panics there. *)
Record DurableStore `{Redb} := mkDurableStore {
  db : Db;
  staging : option Staging;
  panicked : bool;
}.

Section durable.
Context `{Redb}.

Definition open_store (d : Db) : DurableStore := mkDurableStore _ d None false.

Definition write_immediate (k : bytes) (v : option bytes) (s : DurableStore) : DurableStore :=
  match db_write [(k, v)] (db s) with
  | Some d => mkDurableStore _ d (staging s) (panicked s)
  | None => mkDurableStore _ (db s) (staging s) true
  end.

Definition durable_get (k : bytes) (s : DurableStore) : option bytes :=
  match staging s with
  | Some st =>
    if bool_decide (k ∈ deletes st) then None
    else match puts st !! k with Some v => Some v | None => db_get k (db s) end
  | None => db_get k (db s)
  end.

Definition durable_put (k v : bytes) (s : DurableStore) : DurableStore :=
  match staging s with
  | Some st => mkDurableStore _ (db s) (Some (mkStaging (<[k := v]> (puts st)) (deletes st ∖ {[k]}))) (panicked s)
  | None => write_immediate k (Some v) s
  end.

Definition durable_delete (k : bytes) (s : DurableStore) : DurableStore :=
  match staging s with
  | Some st => mkDurableStore _ (db s) (Some (mkStaging (delete k (puts st)) ({[k]} ∪ deletes st))) (panicked s)
  | None => write_immediate k None s
  end.

(** [disk_iter_map] with the overlay. *)
Definition durable_map (s : DurableStore) : gmap bytes bytes :=
  let disk := list_to_map (db_iter (db s)) in
  match staging s with
  | Some st => puts st ∪ set_fold (λ k m, delete k m) disk (deletes st)
  | None => disk
  end.

(** Deletions, then insertions, each in key order. *)
Definition staged_changelog (st : Staging) : list (bytes * option bytes) :=
  map (λ e, (e.1, None)) (merge_sort entry_le (map (λ k, (k, [])) (elements (deletes st)))) ++
  map (λ e, (e.1, Some e.2)) (merge_sort entry_le (map_to_list (puts st))).

Definition apply_staging (st : Staging) (d : Db) : option Db :=
  match staged_changelog st with
  | [] => Some d
  | ws => db_write ws d
  end.

Definition durable_commit (s : DurableStore) : result unit * DurableStore :=
  match staging s with
  | None => (Ok tt, s)
  | Some st =>
    match apply_staging st (db s) with
    | Some d => (Ok tt, mkDurableStore _ d None (panicked s))
    | None => (Err (Storage "stream state commit: "), mkDurableStore _ (db s) None (panicked s))
    end
  end.

#[export] Instance durable_store : KeyValueStore DurableStore := {
  kv_get := durable_get;
  kv_put := durable_put;
  kv_delete := durable_delete;
  kv_iter s := merge_sort entry_le (map_to_list (durable_map s));
  kv_begin_checkpoint s :=
    match staging s with
    | Some _ => s
    | None => mkDurableStore _ (db s) (Some (mkStaging ∅ ∅)) (panicked s)
    end;
  kv_commit_checkpoint := durable_commit;
  kv_abort_checkpoint s := mkDurableStore _ (db s) None (panicked s);
  kv_staged_changelog s := match staging s with Some st => staged_changelog st | None => [] end;
}.

(** ** The changelog *)

Definition CHANGELOG_HEADER : string := "volant-changelog".
Definition CHANGELOG_VERSION : bytes := as_bytes "1".

Definition changelog_message (key : bytes) (value : option bytes) : Message :=
  mkMessage (Some key) (default [] value) None [(CHANGELOG_HEADER, CHANGELOG_VERSION)].

Definition decode_changelog_record (key : option bytes) (value : bytes) : option (bytes * option bytes) :=
  match key with
  | None => None
  | Some k => match value with [] => Some (k, None) | _ => Some (k, Some value) end
  end.

(** The messages of a transaction, and a topic replayed onto a store. *)
Definition changelog_messages (deltas : list (bytes * option bytes)) : list Message :=
  map (λ d, changelog_message d.1 d.2) deltas.

Definition changelog_deltas (log : list Message) : list (bytes * option bytes) :=
  omap (λ m, decode_changelog_record (msg_key m) (msg_value m)) log.

Definition replay_changelog {S} `{KeyValueStore S} (log : list Message) (s : S) : S :=
  foldl (λ s d, kv_apply_changelog d.1 d.2 s) s (changelog_deltas log).

(** ** The store is a map while a checkpoint is open *)

Context `{!RedbLaws}.

(** No key is both put and deleted. *)
Definition staging_ok (st : Staging) : Prop := ∀ k, k ∈ deletes st → puts st !! k = None.

Definition overlay (st : Staging) (m : gmap bytes bytes) : gmap bytes bytes :=
  puts st ∪ filter (λ e, e.1 ∉ deletes st) m.

Lemma overlay_lookup st m k :
  staging_ok st → overlay st m !! k = if bool_decide (k ∈ deletes st) then None else match puts st !! k with Some v => Some v | None => m !! k end.
Proof.
  intros Hok. unfold overlay. rewrite lookup_union, map_lookup_filter.
  case_bool_decide as Hd; [rewrite (Hok k Hd)|destruct (puts st !! k)]; destruct (m !! k) as [v|]; cbn; try case_guard; done.
Qed.

Lemma disk_map (s : DurableStore) : list_to_map (db_iter (db s)) = db_content (db s).
Proof.
  pose proof (db_iter_content (db s)) as Hp.
  rewrite (list_to_map_proper _ (map_to_list (db_content (db s)))); [apply list_to_map_to_list| |done].
  rewrite Hp. apply NoDup_fst_map_to_list.
Qed.

Lemma filter_lookup {C} `{ElemOf bytes C} `{!RelDecision (∈@{C})} (X : C) (m : gmap bytes bytes) k :
  filter (λ e, e.1 ∉ X) m !! k = if bool_decide (k ∉ X) then m !! k else None.
Proof. rewrite map_lookup_filter. destruct (m !! k); cbn; repeat case_guard; case_bool_decide; done. Qed.

Lemma delete_set_filter (ds : gset bytes) (m : gmap bytes bytes) :
  set_fold (λ k m, delete k m) m ds = filter (λ e, e.1 ∉ ds) m.
Proof.
  apply map_eq. intros j. rewrite filter_lookup.
  assert (Hf : (j ∈ ds → set_fold (λ k m, delete k m) m ds !! j = None) ∧
               (j ∉ ds → set_fold (λ k m, delete k m) m ds !! j = m !! j)).
  { apply (set_fold_ind_L (λ (r : gmap bytes bytes) X, (j ∈ X → r !! j = None) ∧ (j ∉ X → r !! j = m !! j))); [set_solver|].
    intros k X r Hk [Hx Hy]. rewrite lookup_delete. destruct (decide (k = j)); set_solver. }
  destruct Hf as [Hin Hout]. case_bool_decide as Hj; [auto|]. by apply Hin.
Qed.

Definition durable_usable (s : DurableStore) : Prop := ∃ st, staging s = Some st ∧ staging_ok st.

Definition durable_view (s : DurableStore) : gmap bytes bytes :=
  match staging s with Some st => overlay st (db_content (db s)) | None => db_content (db s) end.

#[export] Program Instance durable_laws : KeyValueLaws DurableStore := {
  kv_usable := durable_usable; kv_view := durable_view }.
Next Obligation.
  intros k v s (st & Hst & Hok). unfold kv_put, durable_store, durable_put. rewrite Hst. eexists. split; [done|].
  intros j Hj. cbn in *. rewrite lookup_insert_ne by set_solver. apply Hok. set_solver.
Qed.
Next Obligation.
  intros k s (st & Hst & Hok). unfold kv_delete, durable_store, durable_delete. rewrite Hst. eexists. split; [done|].
  intros j Hj. cbn in *. rewrite lookup_delete. destruct (decide (k = j)) as [->|]; [done|]. apply Hok. set_solver.
Qed.
Next Obligation.
  intros k s (st & Hst & Hok). unfold kv_get, durable_store, durable_get, durable_view. rewrite Hst, overlay_lookup by done.
  by rewrite db_get_content.
Qed.
Next Obligation.
  intros k v s (st & Hst & Hok). unfold kv_put, durable_store, durable_put, durable_view. rewrite Hst. cbn [staging db].
  apply map_eq. intros j. rewrite lookup_insert, !overlay_lookup; [|done|].
  - cbn. rewrite lookup_insert. destruct (decide (k = j)) as [->|Hne]; [by rewrite bool_decide_false by set_solver|].
    by rewrite (bool_decide_ext (j ∈ deletes st ∖ {[k]}) (j ∈ deletes st)) by set_solver.
  - intros i Hi. cbn in *. rewrite lookup_insert_ne by set_solver. apply Hok. set_solver.
Qed.
Next Obligation.
  intros k s (st & Hst & Hok). unfold kv_delete, durable_store, durable_delete, durable_view. rewrite Hst. cbn [staging db].
  apply map_eq. intros j. rewrite lookup_delete, !overlay_lookup; [|done|].
  - cbn. rewrite lookup_delete. destruct (decide (k = j)) as [->|Hne]; [by rewrite bool_decide_true by set_solver|].
    by rewrite (bool_decide_ext (j ∈ {[k]} ∪ deletes st) (j ∈ deletes st)) by set_solver.
  - intros i Hi. cbn in *. rewrite lookup_delete. destruct (decide (k = i)); [done|]. apply Hok. set_solver.
Qed.
Next Obligation.
  intros s (st & Hst & Hok). unfold kv_iter, durable_store. rewrite merge_sort_Permutation. unfold durable_map, durable_view.
  by rewrite Hst, disk_map, delete_set_filter.
Qed.

(** ** Checkpoints and their changelog *)

Lemma foldl_deletes (ks : list bytes) (m : gmap bytes bytes) :
  foldl apply_delta m (map (λ k, (k, None)) ks) = filter (λ e, e.1 ∉ ks) m.
Proof.
  revert m. induction ks as [|k ks IH]; intros m; cbn [foldl map].
  - apply map_eq. intros j. rewrite filter_lookup. by rewrite bool_decide_true by set_solver.
  - rewrite IH. unfold apply_delta. cbn. apply map_eq. intros j. rewrite !filter_lookup, lookup_delete.
    destruct (decide (k = j)) as [->|Hne]; [rewrite (bool_decide_false (j ∉ j :: ks)) by set_solver; by case_bool_decide|].
    by rewrite (bool_decide_ext (j ∉ ks) (j ∉ k :: ks)) by set_solver.
Qed.

Lemma foldl_puts (l : list (bytes * bytes)) (m : gmap bytes bytes) :
  NoDup l.*1 → foldl apply_delta m (map (λ e, (e.1, Some e.2)) l) = list_to_map l ∪ m.
Proof.
  revert m. induction l as [|[k v] l IH]; intros m Hnd; [symmetry; apply (left_id_L ∅ (∪))|].
  cbn [fmap list_fmap fst] in Hnd. apply NoDup_cons in Hnd as [Hk Hnd]. cbn [foldl map list_to_map fst snd]. rewrite IH by done. unfold apply_delta. cbn.
  rewrite <- insert_union_r by by apply not_elem_of_list_to_map_1. by rewrite insert_union_l.
Qed.

(** The deltas of a checkpoint, on what was on disk, are the overlay. *)
Lemma staged_changelog_overlay st m : foldl apply_delta m (staged_changelog st) = overlay st m.
Proof.
  unfold staged_changelog. rewrite foldl_app.
  set (ks := merge_sort entry_le (map (λ k, (k, [])) (elements (deletes st)))).
  assert (Hks : map (λ e, (e.1, @None bytes)) ks = map (λ k, (k, None)) (map fst ks)) by by rewrite map_map.
  rewrite Hks, foldl_deletes. assert (Hp : merge_sort entry_le (map_to_list (puts st)) ≡ₚ map_to_list (puts st)) by apply merge_sort_Permutation.
  rewrite foldl_puts by (rewrite Hp; apply NoDup_fst_map_to_list).
  rewrite (list_to_map_proper _ (map_to_list (puts st))), list_to_map_to_list; [|rewrite Hp; apply NoDup_fst_map_to_list|done].
  unfold overlay. f_equal. apply map_filter_ext. intros i x _. cbn.
  assert (Hin : i ∈ map fst ks ↔ i ∈ deletes st); [|by rewrite Hin].
  rewrite <- (elem_of_elements (deletes st)). unfold ks. change (map fst) with (fmap (M := list) (@fst bytes bytes)).
  rewrite merge_sort_Permutation. change (map (λ k, (k, [])) (elements (deletes st))) with ((λ k, (k, [] : bytes)) <$> elements (deletes st)).
  rewrite <- list_fmap_compose. change (fst ∘ λ k, (k, [])) with (@id bytes). by rewrite list_fmap_id.
Qed.

Lemma commit_content s s' :
  durable_usable s → durable_commit s = (Ok tt, s') →
  staging s' = None ∧ panicked s' = panicked s ∧ db_content (db s') = durable_view s.
Proof.
  intros (st & Hst & _). unfold durable_commit, apply_staging, durable_view. rewrite Hst, <- staged_changelog_overlay.
  destruct (staged_changelog st) as [|w ws] eqn:E; [by intros [= <-]|].
  destruct (db_write (w :: ws) (db s)) as [d|] eqn:Ew; [|done]. intros [= <-]. cbn. split_and!; [done..|]. exact (db_write_content _ _ _ Ew).
Qed.

(** A replay outside a checkpoint that does not panic has written the deltas. *)
Lemma replay_content log (s : DurableStore) :
  staging s = None → panicked (replay_changelog log s) = false →
  staging (replay_changelog log s) = None ∧
  db_content (db (replay_changelog log s)) = foldl apply_delta (db_content (db s)) (changelog_deltas log).
Proof.
  unfold replay_changelog. generalize (changelog_deltas log). intros ds Hs. revert s Hs.
  assert (Hpan : ∀ (ds : list (bytes * option bytes)) (s : DurableStore), staging s = None → panicked s = true →
    panicked (foldl (λ (s : DurableStore) d, kv_apply_changelog d.1 d.2 s) s ds) = true).
  { clear ds. induction ds as [|[k v] ds IH]; intros s Hs Hp; [done|]. cbn [foldl]. apply IH.
    - destruct v; cbn; unfold durable_put, durable_delete, write_immediate; rewrite Hs; by destruct (db_write _ _).
    - destruct v; cbn; unfold durable_put, durable_delete, write_immediate; rewrite Hs; by destruct (db_write _ _). }
  induction ds as [|[k v] ds IH]; intros s Hs Hp; [done|]. cbn [foldl] in *.
  assert (Hstep : kv_apply_changelog k v s = write_immediate k v s)
    by (destruct v; cbn; unfold durable_put, durable_delete; by rewrite Hs).
  cbn [fst snd] in *. rewrite Hstep in *. unfold write_immediate in *. destruct (db_write [(k, v)] (db s)) as [d|] eqn:Ew.
  - destruct (IH (mkDurableStore _ d (staging s) (panicked s)) Hs Hp) as [? ->]. split; [done|]. cbn. by rewrite (db_write_content _ _ _ Ew).
  - rewrite Hpan in Hp; done.
Qed.

End durable.

(** Deltas are read back from the messages of the changelog, except that an
    empty value is read as a deletion. *)
Lemma changelog_roundtrip ds :
  Forall (λ d, d.2 ≠ Some []) ds → changelog_deltas (changelog_messages ds) = ds.
Proof.
  unfold changelog_deltas, changelog_messages. induction 1 as [|[k v] ds Hv _ IH]; [done|]. cbn in *. rewrite IH.
  by destruct v as [[|? ?]|].
Qed.
