(* ===== verification/StreamOps.v ===== *)
(** * Stream operators: [volant-stream/src]

    The trait [Operator] with its implementations: the stateless ones, the
    keyed reduce and the tumbling window over any [KeyValueStore], and the
    pipeline of boxed operators.  The closures of the application are
    functions. *)

From Stdlib Require Import Strings.String.
From S2P Require Import Prelude Bytes Core OffsetStore StreamState.
#[local] Open Scope Z_scope.

(** ** The trait *)

Class Operator (O : Type) := {
  op_process : LogRecord → O → result (list LogRecord) * O;
  op_punctuate : Z → O → result (list LogRecord) * O;
  op_begin_checkpoint : O → O;
  op_commit_checkpoint : O → result unit * O;
  op_abort_checkpoint : O → O;
  op_staged_changelog : O → list (bytes * option bytes);
  op_apply_changelog : bytes → option bytes → O → O;
}.

(** The operators without state, with the default methods of the trait. *)
Definition stateless {F} (process : LogRecord → F → result (list LogRecord)) : Operator F := {|
  op_process r f := (process r f, f);
  op_punctuate _ f := (Ok [], f);
  op_begin_checkpoint f := f;
  op_commit_checkpoint f := (Ok tt, f);
  op_abort_checkpoint f := f;
  op_staged_changelog _ := [];
  op_apply_changelog _ _ f := f;
|}.

Record MapOp := mkMapOp { map_f : LogRecord → result LogRecord }.
#[export] Instance map_operator : Operator MapOp :=
  stateless (λ r f, match map_f f r with Ok x => Ok [x] | Err e => Err e end).

Record FilterOp := mkFilterOp { pred : LogRecord → bool }.
#[export] Instance filter_operator : Operator FilterOp :=
  stateless (λ r f, if pred f r then Ok [r] else Ok []).

Record FlatMapOp := mkFlatMapOp { flat_f : LogRecord → result (list LogRecord) }.
#[export] Instance flat_map_operator : Operator FlatMapOp := stateless (λ r f, flat_f f r).

(** ** Counts *)

Definition parse_count (v : bytes) : Z :=
  match v with
  | [] => 1
  | _ => default 1 (from_utf8 v ≫= parse_u64)
  end.

Definition key_of (r : LogRecord) : bytes := default [] (rec_key r).

(** An empty key is written as no key. *)
Definition keyed (k : bytes) : option bytes := match k with [] => None | _ => Some k end.

(** ** [Reduce] *)

Record Reduce (S : Type) := mkReduce {
  reduce_store : S;
  reduce_init : bytes;
  reduce_add : bytes → LogRecord → result bytes;
}.
Arguments mkReduce {S}.
Arguments reduce_store {S}.
Arguments reduce_init {S}.
Arguments reduce_add {S}.

Definition count_init : bytes := as_bytes "0".
Definition count_add (agg : bytes) (r : LogRecord) : result bytes :=
  Ok (as_bytes (u64_to_string (as_u64 (parse_count agg + parse_count (rec_value r))))).

Definition count_reduce_with_store {S} (s : S) : Reduce S := mkReduce s count_init count_add.

Section operators.
Context {S : Type} `{KeyValueStore S}.

Definition with_reduce_store (s : S) (o : Reduce S) : Reduce S := mkReduce s (reduce_init o) (reduce_add o).

Definition reduce_process (r : LogRecord) (o : Reduce S) : result (list LogRecord) * Reduce S :=
  let current := default (reduce_init o) (kv_get (key_of r) (reduce_store o)) in
  match reduce_add o current r with
  | Err e => (Err e, o)
  | Ok next =>
    (Ok [mkLogRecord 0 (keyed (key_of r)) next (rec_timestamp_ms r) (rec_headers r)],
     with_reduce_store (kv_put (key_of r) next (reduce_store o)) o)
  end.

#[export] Instance reduce_operator : Operator (Reduce S) := {|
  op_process := reduce_process;
  op_punctuate _ o := (Ok [], o);
  op_begin_checkpoint o := with_reduce_store (kv_begin_checkpoint (reduce_store o)) o;
  op_commit_checkpoint o :=
    let '(r, s) := kv_commit_checkpoint (reduce_store o) in (r, with_reduce_store s o);
  op_abort_checkpoint o := with_reduce_store (kv_abort_checkpoint (reduce_store o)) o;
  op_staged_changelog o := kv_staged_changelog (reduce_store o);
  op_apply_changelog k v o := with_reduce_store (kv_apply_changelog k v (reduce_store o)) o;
|}.

(** ** [TumblingWindow] *)

Record TumblingWindow := mkTumblingWindow {
  size_ms : Z;
  window_store : S;
}.

Definition META_MAX_EVENT : bytes := x00 :: as_bytes "max_event_ms".
Definition META_SIZE : bytes := x00 :: as_bytes "size_ms".
Definition BUCKET_PREFIX : byte := x01.

Definition window_start (size ts : Z) : Z := if ts <? 0 then 0 else Z.quot ts size * size.

Definition bucket_key (start : Z) (key : bytes) : bytes := BUCKET_PREFIX :: be_bytes 8 start ++ key.

Definition parse_bucket_key (raw : bytes) : option (Z * bytes) :=
  match raw with
  | p :: rest =>
    if negb (bool_decide (p = BUCKET_PREFIX)) || (zlen raw <? 9) then None
    else Some (as_i64 (be_val (ztake 8 rest)), zdrop 8 rest)
  | [] => None
  end.

Definition encode_u64 (n : Z) : bytes := be_bytes 8 n.
Definition decode_u64 (v : bytes) : option Z := if zlen v =? 8 then Some (be_val v) else None.
Definition encode_i64 (n : Z) : bytes := be_bytes 8 n.
Definition decode_i64 (v : bytes) : option Z := if zlen v =? 8 then Some (as_i64 (be_val v)) else None.

Definition with_window_store (s : S) (w : TumblingWindow) : TumblingWindow := mkTumblingWindow (size_ms w) s.

Definition max_event_ms (w : TumblingWindow) : Z :=
  default 0 (kv_get META_MAX_EVENT (window_store w) ≫= decode_i64).

Definition set_max_event_ms (ts : Z) (w : TumblingWindow) : TumblingWindow :=
  with_window_store (kv_put META_MAX_EVENT (encode_i64 ts) (window_store w)) w.

Definition bind_size_ms (w : TumblingWindow) : result unit * TumblingWindow :=
  match kv_get META_SIZE (window_store w) with
  | None => (Ok tt, with_window_store (kv_put META_SIZE (encode_i64 (size_ms w)) (window_store w)) w)
  | Some v =>
    match decode_i64 v with
    | None => (Err (Storage "corrupt window size metadata"), w)
    | Some stored =>
      if negb (stored =? size_ms w) then (Err (Storage "stream state window size mismatch"), w) else (Ok tt, w)
    end
  end.

(** A closed bucket: window start, key, count. *)
Definition closed_bucket (size up_to_exclusive : Z) (e : bytes * bytes) : option (Z * bytes * Z) :=
  match parse_bucket_key e.1 with
  | None => None
  | Some (start, key) =>
    if as_i64 (start + size) <=? up_to_exclusive then
      match decode_u64 e.2 with Some count => Some (start, key, count) | None => None end
    else None
  end.

Definition bucket_le (a b : Z * bytes * Z) : Prop :=
  (a.1.1 <? b.1.1) || ((a.1.1 =? b.1.1) && bytes_leb a.1.2 b.1.2) = true.
#[export] Instance bucket_le_dec : RelDecision bucket_le.
Proof. intros a b. unfold bucket_le. apply _. Defined.

Definition closed_record (b : Z * bytes * Z) : LogRecord :=
  mkLogRecord 0 (keyed b.1.2) (as_bytes (u64_to_string b.2)) b.1.1 [].

Definition emit_closed (up_to_exclusive : Z) (w : TumblingWindow) : list LogRecord * TumblingWindow :=
  let closed := merge_sort bucket_le (omap (closed_bucket (size_ms w) up_to_exclusive) (kv_iter (window_store w))) in
  (map closed_record closed,
   with_window_store (foldl (λ s b, kv_delete (bucket_key b.1.1 b.1.2) s) (window_store w) closed) w).

(** The event time of a record, in a window that has seen [max_event]. *)
Definition event_time (max_event : Z) (r : LogRecord) : Z :=
  if 0 <? rec_timestamp_ms r then rec_timestamp_ms r else max_event.

Definition add_to_bucket (start : Z) (key : bytes) (delta : Z) (s : S) : S :=
  let bk := bucket_key start key in
  let prev := default 0 (kv_get bk s ≫= decode_u64) in
  kv_put bk (encode_u64 (as_u64 (prev + delta))) s.

Definition window_process (r : LogRecord) (w : TumblingWindow) : result (list LogRecord) * TumblingWindow :=
  let! (_, w) := bind_size_ms w in
  let max_event := max_event_ms w in
  let ts := event_time max_event r in
  let w := if max_event <? ts then set_max_event_ms ts w else w in
  let '(out, w) := emit_closed ts w in
  (Ok out, with_window_store (add_to_bucket (window_start (size_ms w) ts) (key_of r) (parse_count (rec_value r)) (window_store w)) w).

Definition i64_saturating_add (a b : Z) : Z := Z.max i64_min (Z.min i64_max (a + b)).

Definition window_punctuate (now_ms : Z) (w : TumblingWindow) : result (list LogRecord) * TumblingWindow :=
  let! (_, w) := bind_size_ms w in
  let watermark := Z.max now_ms (max_event_ms w) in
  let '(out, w) := emit_closed (i64_saturating_add watermark 1) w in
  (Ok out, w).

#[export] Instance window_operator : Operator TumblingWindow := {|
  op_process := window_process;
  op_punctuate := window_punctuate;
  op_begin_checkpoint w := with_window_store (kv_begin_checkpoint (window_store w)) w;
  op_commit_checkpoint w :=
    let '(r, s) := kv_commit_checkpoint (window_store w) in (r, with_window_store s w);
  op_abort_checkpoint w := with_window_store (kv_abort_checkpoint (window_store w)) w;
  op_staged_changelog w := kv_staged_changelog (window_store w);
  op_apply_changelog k v w := with_window_store (kv_apply_changelog k v (window_store w)) w;
|}.

End operators.
Arguments TumblingWindow S : clear implicits.

(** ** [Pipeline] *)

(** [Box<dyn Operator>] *)
Record Boxed := box {
  carrier : Type;
  methods : Operator carrier;
  operator : carrier;
}.

Definition rebox (b : Boxed) (o : carrier b) : Boxed := box (carrier b) (methods b) o.

#[export] Instance boxed_operator : Operator Boxed := {|
  op_process r b := let '(x, o) := @op_process _ (methods b) r (operator b) in (x, rebox b o);
  op_punctuate t b := let '(x, o) := @op_punctuate _ (methods b) t (operator b) in (x, rebox b o);
  op_begin_checkpoint b := rebox b (@op_begin_checkpoint _ (methods b) (operator b));
  op_commit_checkpoint b := let '(x, o) := @op_commit_checkpoint _ (methods b) (operator b) in (x, rebox b o);
  op_abort_checkpoint b := rebox b (@op_abort_checkpoint _ (methods b) (operator b));
  op_staged_changelog b := @op_staged_changelog _ (methods b) (operator b);
  op_apply_changelog k v b := rebox b (@op_apply_changelog _ (methods b) k v (operator b));
|}.

Definition Pipeline : Type := list Boxed.

(** [for record in records { next.extend(op.process(record)?) }] *)
Fixpoint process_each {O} `{Operator O} (records : list LogRecord) (o : O) : result (list LogRecord) * O :=
  match records with
  | [] => (Ok [], o)
  | r :: rs =>
    let! (out, o) := op_process r o in
    let! (outs, o) := process_each rs o in
    (Ok (out ++ outs), o)
  end.

Fixpoint pipeline_process (records : list LogRecord) (p : Pipeline) : result (list LogRecord) * Pipeline :=
  match p with
  | [] => (Ok records, [])
  | op :: p =>
    match process_each records op with
    | (Err e, op) => (Err e, op :: p)
    | (Ok next, op) => let '(r, p) := pipeline_process next p in (r, op :: p)
    end
  end.

(** [fuel] is the number of operators from the current one on. *)
Fixpoint punctuate_from (fuel : nat) (now_ms : Z) (p : Pipeline) : result (list LogRecord) * Pipeline :=
  match fuel, p with
  | S fuel, op :: p =>
    match op_punctuate now_ms op with
    | (Err e, op) => (Err e, op :: p)
    | (Ok punctuated, op) =>
      match pipeline_process punctuated p with
      | (Err e, p) => (Err e, op :: p)
      | (Ok records, p) =>
        match punctuate_from fuel now_ms p with
        | (Err e, p) => (Err e, op :: p)
        | (Ok rest, p) => (Ok (records ++ rest), op :: p)
        end
      end
    end
  | _, _ => (Ok [], p)
  end.

Definition pipeline_punctuate (now_ms : Z) (p : Pipeline) : result (list LogRecord) * Pipeline :=
  punctuate_from (length p) now_ms p.

Definition pipeline_begin (p : Pipeline) : Pipeline := map op_begin_checkpoint p.
Definition pipeline_abort (p : Pipeline) : Pipeline := map op_abort_checkpoint p.

Fixpoint pipeline_commit (p : Pipeline) : result unit * Pipeline :=
  match p with
  | [] => (Ok tt, [])
  | op :: p =>
    match op_commit_checkpoint op with
    | (Err e, op) => (Err e, op :: p)
    | (Ok _, op) => let '(r, p) := pipeline_commit p in (r, op :: p)
    end
  end.

Definition pipeline_staged (p : Pipeline) : list (bytes * option bytes) := flat_map op_staged_changelog p.
Definition pipeline_apply (k : bytes) (v : option bytes) (p : Pipeline) : Pipeline := map (op_apply_changelog k v) p.

(** * Tumbling windows

    Over any store: a window neither loses nor repeats a count, and emits a
    window only when it has ended. *)

From S2P Require Import OffsetStoreProps ScramProps.
#[local] Open Scope Z_scope.

Definition is_i64 (z : Z) : Prop := i64_min ≤ z ≤ i64_max.

(** ** Encodings *)

Lemma be_bytes_as_i64 z : be_bytes 8 (as_i64 z) = be_bytes 8 z.
Proof.
  unfold be_bytes. f_equal. rewrite <- (le_bytes_mod 8 (as_i64 z)), <- (le_bytes_mod 8 z). f_equal.
  change (256 ^ Z.of_nat 8) with (2 ^ 64). unfold as_i64, signed. cbv zeta.
  destruct (z mod 2 ^ 64 <? 2 ^ (64 - 1)); [by rewrite Z.mod_mod by lia|].
  rewrite <- (Z.mod_add (z mod 2 ^ 64 - 2 ^ 64) 1 (2 ^ 64)) by lia. rewrite Z.mul_1_l, Z.sub_add. by rewrite Z.mod_mod by lia.
Qed.

Lemma i64_be z : is_i64 z → as_i64 (be_val (be_bytes 8 z)) = z.
Proof.
  intros Hz. rewrite be_val_bytes. change (256 ^ Z.of_nat 8) with (2 ^ 64).
  rewrite <- (as_i64_small z) at 2 by done. unfold as_i64, signed. by rewrite Z.mod_mod by lia.
Qed.

Lemma decode_encode_i64 z : is_i64 z → decode_i64 (encode_i64 z) = Some z.
Proof. intros Hz. unfold decode_i64, encode_i64. by rewrite zlen_be_bytes, i64_be. Qed.

Lemma decode_encode_u64 z : 0 ≤ z ≤ u64_max → decode_u64 (encode_u64 z) = Some z.
Proof. intros Hz. unfold decode_u64, encode_u64. rewrite zlen_be_bytes, be_val_small; [done|]. unfold u64_max in Hz. cbn. lia. Qed.

Lemma decode_u64_range v n : decode_u64 v = Some n → 0 ≤ n ≤ u64_max.
Proof.
  unfold decode_u64. destruct (Z.eqb_spec (zlen v) 8) as [Hl|]; [|done]. intros [= <-]. pose proof (be_val_range v) as Hr.
  rewrite Hl in Hr. unfold u64_max. cbn in Hr. lia.
Qed.

Lemma parse_bucket_key_of start key : is_i64 start → parse_bucket_key (bucket_key start key) = Some (start, key).
Proof.
  intros Hs. unfold parse_bucket_key, bucket_key. rewrite bool_decide_true by done.
  assert (Hl : zlen (be_bytes 8 start) = 8) by apply zlen_be_bytes. rewrite Zltb_false by (rewrite zlen_cons, zlen_app, Hl; pose proof (zlen_nonneg key); lia).
  cbn [negb orb]. by rewrite ztake_app_exact, zdrop_app_exact, i64_be by done.
Qed.

Lemma parse_bucket_key_inv raw start key :
  parse_bucket_key raw = Some (start, key) → raw = bucket_key start key ∧ is_i64 start.
Proof.
  unfold parse_bucket_key, bucket_key. destruct raw as [|p rest]; [done|]. case_bool_decide as Hp; [subst p|done]. cbn [negb orb].
  rewrite zlen_cons. destruct (Z.ltb_spec (1 + zlen rest) 9) as [|Hl]; [done|]. intros [= <- <-]. split.
  - f_equal. rewrite be_bytes_as_i64. unfold be_bytes, be_val.
    assert (Hz : length (rev (ztake 8 rest)) = 8%nat).
    { rewrite length_rev. pose proof (zlen_ztake 8 rest). unfold zlen in *. lia. }
    rewrite <- Hz, le_bytes_val, rev_involutive. by rewrite ztake_zdrop.
  - unfold is_i64. pose proof (be_val_range (ztake 8 rest)). unfold as_i64, signed, i64_min, i64_max. cbv zeta.
    destruct (Z.ltb_spec (be_val (ztake 8 rest) mod 2 ^ 64) (2 ^ (64 - 1))); pose proof (Z.mod_pos_bound (be_val (ztake 8 rest)) (2 ^ 64)); lia.
Qed.

Lemma bucket_key_inj s k s' k' : is_i64 s → is_i64 s' → bucket_key s k = bucket_key s' k' → s = s' ∧ k = k'.
Proof. intros Hs Hs' E. apply (f_equal parse_bucket_key) in E. rewrite !parse_bucket_key_of in E by done. by injection E. Qed.

(** A count is read back from its text. *)
Lemma decimal_bytes fuel z acc :
  forallb plain_byte (as_bytes acc) = true → forallb plain_byte (as_bytes (decimal fuel z acc)) = true.
Proof.
  revert z acc. induction fuel as [|fuel IH]; intros z acc Ha; [done|]. cbn [decimal].
  assert (Hd : forallb plain_byte (as_bytes (String (digit (z mod 10)) acc)) = true).
  { change (as_bytes (String (digit (z mod 10)) acc)) with (Ascii.byte_of_ascii (digit (z mod 10)) :: as_bytes acc). cbn [forallb]. rewrite Ha, andb_true_r.
    assert (Hr : 0 ≤ z mod 10 < 10) by by apply Z.mod_pos_bound. generalize dependent (z mod 10). intros d Hd.
    assert (Hcases : d = 0 ∨ d = 1 ∨ d = 2 ∨ d = 3 ∨ d = 4 ∨ d = 5 ∨ d = 6 ∨ d = 7 ∨ d = 8 ∨ d = 9) by lia.
    by repeat destruct Hcases as [->|Hcases]; try rewrite Hcases. }
  destruct (z <? 10); [done|]. by apply IH.
Qed.

Lemma parse_count_text n : 0 ≤ n ≤ u64_max → parse_count (as_bytes (u64_to_string n)) = n.
Proof.
  intros Hn. unfold parse_count. destruct (as_bytes (u64_to_string n)) as [|b l] eqn:E.
  - pose proof (u64_to_string_parse n Hn) as Hp. rewrite <- (of_as_bytes (u64_to_string n)), E in Hp. done.
  - rewrite <- E, from_utf8_as_bytes by (unfold str_valid; apply plain_utf8; by apply decimal_bytes).
    cbn [mbind option_bind]. by rewrite u64_to_string_parse.
Qed.

Lemma parse_count_range v : 0 ≤ parse_count v ≤ u64_max.
Proof.
  unfold parse_count. destruct v as [|b v]; [done|]. destruct (from_utf8 (b :: v)) as [s|]; [|done]. cbn [mbind option_bind].
  destruct (parse_u64 s) as [n|] eqn:E; [|done]. cbn. unfold parse_u64, parse_uint in E.
  assert (Hd : ∀ s acc n, 0 ≤ acc ≤ u64_max → parse_digits u64_max s acc = Some n → 0 ≤ n ≤ u64_max).
  { clear. induction s as [|c s IH]; intros acc n Ha; cbn [parse_digits]; [by intros [= <-]|].
    destruct (digit_val c) as [d|] eqn:Ed; [|done]. destruct (Z.ltb_spec u64_max (10 * acc + d)); [done|]. apply IH.
    unfold digit_val in Ed. destruct (_ && _) eqn:Eb in Ed; [|done]. injection Ed as <-. lia. }
  destruct s as [|c s]; [done|]. destruct (bool_decide _); [destruct s; [done|]|]; by apply Hd in E.
Qed.

(** ** Closing windows *)

(** The open count of a window and key. *)
Definition bucket (m : gmap bytes bytes) (w : Z) (k : bytes) : Z := default 0 (m !! bucket_key w k ≫= decode_u64).

(** What a list of closed buckets, or of records, counts for a window and key. *)
Definition counted (w : Z) (k : bytes) (closed : list (Z * bytes * Z)) : Z :=
  foldr (λ b acc, (if bool_decide (b.1 = (w, k)) then b.2 else 0) + acc) 0 closed.

Definition emitted (w : Z) (k : bytes) (out : list LogRecord) : Z :=
  foldr (λ r acc, (if bool_decide (rec_timestamp_ms r = w ∧ key_of r = k) then parse_count (rec_value r) else 0) + acc) 0 out.

Lemma emitted_app w k a b : emitted w k (a ++ b) = emitted w k a + emitted w k b.
Proof. unfold emitted. induction a as [|r a IH]; cbn; [done|]. rewrite IH. lia. Qed.

Lemma counted_perm w k a b : a ≡ₚ b → counted w k a = counted w k b.
Proof. unfold counted. induction 1; cbn; lia. Qed.

Lemma emitted_closed w k closed :
  Forall (λ b, 0 ≤ b.2 ≤ u64_max) closed → emitted w k (map closed_record closed) = counted w k closed.
Proof.
  unfold emitted, counted. induction 1 as [|[[s ky] c] l Hc _ IH]; [done|]. cbn [map foldr]. rewrite IH.
  unfold closed_record. cbn [fst snd rec_timestamp_ms rec_value] in *. rewrite parse_count_text by done.
  assert (Hk : key_of (closed_record (s, ky, c)) = ky) by (unfold key_of; cbn; by destruct ky).
  unfold closed_record in Hk. cbn [fst snd] in Hk. rewrite Hk. f_equal.
  rewrite (bool_decide_ext (s = w ∧ ky = k) ((s, ky) = (w, k))); [done|]. split; [by intros [-> ->]|by intros [= -> ->]].
Qed.

(** With one bucket per window and key, what is counted is that bucket. *)
Lemma counted_notin w k closed : (w, k) ∉ map fst closed → counted w k closed = 0.
Proof.
  unfold counted. induction closed as [|b l IH]; [done|]. cbn [map foldr]. intros [Hb Hl]%not_elem_of_cons.
  rewrite bool_decide_false by congruence. by rewrite IH.
Qed.

Lemma counted_in w k c closed : NoDup (map fst closed) → (w, k, c) ∈ closed → counted w k closed = c.
Proof.
  induction closed as [|b l IH]; [by intros _ ?%elem_of_nil|]. cbn [map]. intros [Hb Hnd]%NoDup_cons [<-|Hin]%elem_of_cons.
  - unfold counted. cbn [foldr fst snd]. rewrite bool_decide_true by done. fold (counted w k l). rewrite counted_notin; [lia|done].
  - unfold counted. cbn [foldr]. rewrite bool_decide_false; [by apply IH|]. intros Eb. apply Hb. rewrite Eb.
    apply list_elem_of_fmap. by exists (w, k, c).
Qed.

Section window.
Context {S : Type} `{KeyValueLaws S}.
Context (size : Z).

Definition closes (w b : Z) : bool := as_i64 (w + size) <=? b.

Definition closed_of (b : Z) (m : gmap bytes bytes) : list (Z * bytes * Z) := omap (closed_bucket size b) (map_to_list m).

Lemma closed_of_elem (b : Z) (m : gmap bytes bytes) (w : Z) (k : bytes) (c : Z) :
  (w, k, c) ∈ closed_of b m ↔ is_i64 w ∧ closes w b = true ∧ m !! bucket_key w k ≫= decode_u64 = Some c.
Proof.
  unfold closed_of, closes. rewrite list_elem_of_omap. split.
  - intros ([raw v] & Hin%elem_of_map_to_list & Hc). unfold closed_bucket in Hc. cbn [fst snd] in Hc.
    destruct (parse_bucket_key raw) as [[w' k']|] eqn:Ep; [|done]. apply parse_bucket_key_inv in Ep as [-> Hw].
    destruct (as_i64 (w' + size) <=? b) eqn:Ec; [|done]. destruct (decode_u64 v) as [c'|] eqn:Ed; [|done]. injection Hc as <- <- <-.
    split; [done|]. split; [done|]. by rewrite Hin.
  - intros (Hw & Hc & Hm). destruct (m !! bucket_key w k) as [v|] eqn:Ev; [|done]. cbn in Hm.
    exists (bucket_key w k, v). split; [by apply elem_of_map_to_list|]. unfold closed_bucket. cbn [fst snd].
    by rewrite parse_bucket_key_of, Hc, Hm.
Qed.

Lemma closed_of_nodup (b : Z) (m : gmap bytes bytes) : NoDup (map fst (closed_of b m)).
Proof.
  unfold closed_of. pose proof (NoDup_fst_map_to_list m) as Hnd. revert Hnd. generalize (map_to_list m). induction l as [|e l IH]; [constructor|].
  change ((e :: l).*1) with (e.1 :: l.*1). intros [He Hnd]%NoDup_cons. cbn [omap list_omap]. destruct (closed_bucket size b e) as [x|] eqn:Ex; [|auto].
  cbn [map]. apply NoDup_cons. split; [|auto]. intros (y & Ey & Hy)%list_elem_of_fmap. apply He.
  apply list_elem_of_omap in Hy as (e' & He' & Hy). unfold closed_bucket in *.
  destruct (parse_bucket_key e.1) as [[w1 k1]|] eqn:E1; [|done]. destruct (parse_bucket_key e'.1) as [[w2 k2]|] eqn:E2; [|done].
  apply parse_bucket_key_inv in E1 as [E1 _], E2 as [E2 _]. destruct (as_i64 _ <=? b); [|done]. destruct (as_i64 (w2 + size) <=? b); [|done].
  destruct (decode_u64 e.2); [|done]. destruct (decode_u64 e'.2); [|done]. injection Ex as <-. injection Hy as <-. injection Ey as -> ->.
  rewrite E1, <- E2. apply list_elem_of_fmap. by exists e'.
Qed.

Lemma counted_closed (b : Z) (m : gmap bytes bytes) (w : Z) (k : bytes) :
  is_i64 w → counted w k (closed_of b m) = if closes w b then bucket m w k else 0.
Proof.
  intros Hw. unfold bucket. destruct (m !! bucket_key w k ≫= decode_u64) as [c|] eqn:Em.
  - destruct (closes w b) eqn:Ec.
    + apply counted_in; [apply closed_of_nodup|]. by apply closed_of_elem.
    + apply counted_notin. intros ([[w' k'] c'] & [= <- <-] & (_ & Hc & _)%closed_of_elem)%list_elem_of_fmap. congruence.
  - rewrite counted_notin; [by destruct (closes w b)|].
    intros ([[w' k'] c'] & [= <- <-] & (_ & _ & Hm)%closed_of_elem)%list_elem_of_fmap. congruence.
Qed.

(** Deleting buckets. *)
Lemma delete_buckets (closed : list (Z * bytes * Z)) (s : S) :
  kv_usable s →
  let s' := foldl (λ s b, kv_delete (bucket_key b.1.1 b.1.2) s) s closed in
  kv_usable s' ∧ ∀ raw, kv_view s' !! raw = if bool_decide (raw ∈ map (λ b, bucket_key b.1.1 b.1.2) closed) then None else kv_view s !! raw.
Proof.
  revert s. induction closed as [|b l IH]; intros s Hs; cbn [foldl map].
  - split; [done|]. intros raw. by rewrite bool_decide_false by apply not_elem_of_nil.
  - destruct (IH (kv_delete (bucket_key b.1.1 b.1.2) s)) as [Hu Hv]; [by apply kv_delete_usable|]. split; [done|].
    intros raw. rewrite Hv, kv_delete_view, lookup_delete by done.
    destruct (decide (bucket_key b.1.1 b.1.2 = raw)) as [<-|Hne].
    + rewrite (bool_decide_true (_ ∈ _ :: _)) by left. by case_bool_decide.
    + by rewrite (bool_decide_ext (raw ∈ bucket_key b.1.1 b.1.2 :: map (λ b, bucket_key b.1.1 b.1.2) l) (raw ∈ map (λ b, bucket_key b.1.1 b.1.2) l))
        by (rewrite elem_of_cons; naive_solver).
Qed.

(** What closing the windows that end by [b] emits and leaves. *)
Lemma emit_closed_spec (b : Z) (s : S) (out : list LogRecord) w' :
  kv_usable s → emit_closed b (mkTumblingWindow size s) = (out, w') →
  size_ms w' = size ∧ kv_usable (window_store w') ∧
  (∀ raw, parse_bucket_key raw = None → kv_view (window_store w') !! raw = kv_view s !! raw) ∧
  (∀ w k, is_i64 w →
    emitted w k out = (if closes w b then bucket (kv_view s) w k else 0) ∧
    bucket (kv_view (window_store w')) w k = if closes w b then 0 else bucket (kv_view s) w k) ∧
  (∀ r, r ∈ out → closes (rec_timestamp_ms r) b = true).
Proof.
  intros Hs. unfold emit_closed. cbn [window_store size_ms]. intros [= <- <-].
  set (closed := merge_sort bucket_le _).
  assert (Hp : closed ≡ₚ closed_of b (kv_view s)).
  { unfold closed, closed_of. rewrite merge_sort_Permutation. apply omap_Permutation. by apply kv_iter_view. }
  destruct (delete_buckets closed s Hs) as [Hu Hv]. cbn [window_store size_ms with_window_store].
  assert (Hin : ∀ w k c, (w, k, c) ∈ closed ↔ is_i64 w ∧ closes w b = true ∧ kv_view s !! bucket_key w k ≫= decode_u64 = Some c)
    by (intros w k c; rewrite Hp; apply closed_of_elem).
  split; [done|]. split; [done|]. split; [|split].
  - intros raw Hraw. rewrite Hv, bool_decide_false; [done|]. intros ([[w k] c] & -> & (Hw & _)%Hin)%list_elem_of_fmap.
    cbn [fst snd] in Hraw. by rewrite parse_bucket_key_of in Hraw.
  - intros w k Hw. split.
    + rewrite emitted_closed, (counted_perm _ _ _ _ Hp); [by apply counted_closed|]. apply Forall_forall.
      intros [[w' k'] c] (_ & _ & Hm)%Hin. cbn. destruct (kv_view s !! _); [|done]. by eapply decode_u64_range.
    + unfold bucket. rewrite Hv. case_bool_decide as Hk.
      * apply list_elem_of_fmap in Hk as ([[w' k'] c] & E & (Hw' & Hc & Hm)%Hin). cbn [fst snd] in E.
        apply bucket_key_inj in E as [<- <-]; [|done..]. by rewrite Hc.
      * destruct (closes w b) eqn:Ec; [|done]. destruct (kv_view s !! bucket_key w k ≫= decode_u64) as [c|] eqn:Em; [|done].
        exfalso. apply Hk. apply list_elem_of_fmap. exists (w, k, c). split; [done|]. by apply Hin.
  - intros r ([[w k] c] & -> & (_ & Hc & _)%Hin)%list_elem_of_fmap. done.
Qed.

(** ** Runs *)

Inductive Input := In (r : LogRecord) | Tick (now_ms : Z).

Definition window_input (i : Input) (w : TumblingWindow S) : result (list LogRecord) * TumblingWindow S :=
  match i with In r => window_process r w | Tick now => window_punctuate now w end.

Fixpoint window_run (ins : list Input) (w : TumblingWindow S) : result (list LogRecord) * TumblingWindow S :=
  match ins with
  | [] => (Ok [], w)
  | i :: ins =>
    let! (out, w) := window_input i w in
    let! (outs, w) := window_run ins w in
    (Ok (out ++ outs), w)
  end.

Definition max_seen (m : gmap bytes bytes) : Z := default 0 (m !! META_MAX_EVENT ≫= decode_i64).

(** What the records count for a window and key, by their event times. *)
Definition contributes (w : Z) (k : bytes) (max_event : Z) (r : LogRecord) : Z :=
  if bool_decide (window_start size (event_time max_event r) = w ∧ key_of r = k) then parse_count (rec_value r) else 0.

Fixpoint received (w : Z) (k : bytes) (max_event : Z) (ins : list Input) : Z :=
  match ins with
  | [] => 0
  | In r :: ins => contributes w k max_event r + received w k (Z.max max_event (event_time max_event r)) ins
  | Tick _ :: ins => received w k max_event ins
  end.

(** A store in use, not written by a window of another size. *)
Definition ready (s : S) : Prop :=
  kv_usable s ∧ (kv_view s !! META_SIZE = None ∨ kv_view s !! META_SIZE = Some (encode_i64 size)).

Context (Hsize : 0 < size ≤ i64_max).

Lemma size_i64 : is_i64 size.
Proof. unfold is_i64, i64_min, i64_max in *. lia. Qed.

Lemma max_seen_i64 m : is_i64 (max_seen m).
Proof.
  unfold max_seen. destruct (m !! META_MAX_EVENT) as [v|]; cbn; [|done]. unfold decode_i64. destruct (zlen v =? 8); cbn; [|done].
  unfold is_i64, as_i64, signed, i64_min, i64_max. cbv zeta. pose proof (Z.mod_pos_bound (be_val v) (2 ^ 64)).
  destruct (Z.ltb_spec (be_val v mod 2 ^ 64) (2 ^ (64 - 1))); lia.
Qed.

Lemma window_start_bounds ts : 0 ≤ ts ≤ i64_max →
  0 ≤ window_start size ts ≤ ts ∧ ts < window_start size ts + size ∧ (size | window_start size ts).
Proof.
  intros Hts. unfold window_start. rewrite Zltb_false by lia. pose proof (Z.quot_rem' ts size). pose proof (Z.rem_bound_pos ts size).
  pose proof (Z.quot_pos ts size). split; [nia|]. split; [nia|]. by exists (Z.quot ts size).
Qed.

Lemma window_start_i64 ts : is_i64 ts → is_i64 (window_start size ts).
Proof.
  intros Hts. destruct (Z.ltb_spec ts 0); [unfold window_start; rewrite Zltb_true by done; done|].
  pose proof (window_start_bounds ts). unfold is_i64, i64_min in *. lia.
Qed.

Lemma meta_not_bucket : parse_bucket_key META_SIZE = None ∧ parse_bucket_key META_MAX_EVENT = None ∧ META_SIZE ≠ META_MAX_EVENT.
Proof. split_and!; [reflexivity|reflexivity|done]. Qed.

Lemma bucket_not_meta w k : bucket_key w k ≠ META_SIZE ∧ bucket_key w k ≠ META_MAX_EVENT.
Proof. by split. Qed.

Lemma bucket_frame m m' w k : (m' !! bucket_key w k = m !! bucket_key w k) → bucket m' w k = bucket m w k.
Proof. unfold bucket. by intros ->. Qed.

Lemma bucket_range m w k : 0 ≤ bucket m w k ≤ u64_max.
Proof.
  unfold bucket. destruct (m !! bucket_key w k) as [v|]; cbn; [|done].
  destruct (decode_u64 v) eqn:E; cbn; [by eapply decode_u64_range|done].
Qed.

Lemma bind_size_ready (s : S) :
  ready s → ∃ s', bind_size_ms (mkTumblingWindow size s) = (Ok tt, mkTumblingWindow size s') ∧ ready s' ∧
    ∀ raw, raw ≠ META_SIZE → kv_view s' !! raw = kv_view s !! raw.
Proof.
  intros [Hu Hm]. unfold bind_size_ms. cbn [window_store size_ms]. rewrite kv_get_view by done. destruct Hm as [Hm|Hm]; rewrite Hm.
  - eexists. split; [done|]. split.
    + split; [by apply kv_put_usable|]. right. rewrite kv_put_view by done. by rewrite lookup_insert_eq.
    + intros raw Hr. rewrite kv_put_view by done. by rewrite lookup_insert_ne.
  - rewrite decode_encode_i64, Z.eqb_refl by apply size_i64. cbn. eexists. split; [done|]. split; [|done]. split; [done|]. by right.
Qed.

Lemma set_max_spec (s : S) ts :
  ready s → is_i64 ts → let s' := if max_seen (kv_view s) <? ts then kv_put META_MAX_EVENT (encode_i64 ts) s else s in
  ready s' ∧ max_seen (kv_view s') = Z.max (max_seen (kv_view s)) ts ∧ ∀ w k, bucket (kv_view s') w k = bucket (kv_view s) w k.
Proof.
  intros [Hu Hm] Hts. cbv zeta. destruct (Z.ltb_spec (max_seen (kv_view s)) ts).
  - split; [split; [by apply kv_put_usable|]|split].
    + rewrite kv_put_view by done. by rewrite lookup_insert_ne.
    + unfold max_seen at 1. rewrite kv_put_view, lookup_insert_eq by done. cbn. rewrite decode_encode_i64 by done. cbn. lia.
    + intros w k. apply bucket_frame. rewrite kv_put_view by done. by rewrite lookup_insert_ne by (symmetry; apply bucket_not_meta).
  - split; [done|]. split; [lia|done].
Qed.

Lemma add_to_bucket_spec (s : S) w k delta :
  ready s → is_i64 w → 0 ≤ delta →
  let s' := add_to_bucket w k delta s in
  ready s' ∧ max_seen (kv_view s') = max_seen (kv_view s) ∧
  ∀ w' k', is_i64 w' → bucket (kv_view s) w' k' + (if bool_decide (w = w' ∧ k = k') then delta else 0) ≤ u64_max →
    bucket (kv_view s') w' k' = bucket (kv_view s) w' k' + (if bool_decide (w = w' ∧ k = k') then delta else 0).
Proof.
  intros [Hu Hm] Hw Hd. cbv zeta. unfold add_to_bucket. rewrite kv_get_view by done. set (v := encode_u64 _).
  destruct (bucket_not_meta w k) as [Hn1 Hn2]. split; [split; [by apply kv_put_usable|]|split].
  - rewrite kv_put_view by done. by rewrite lookup_insert_ne.
  - unfold max_seen. rewrite kv_put_view by done. by rewrite lookup_insert_ne.
  - intros w' k' Hw' Hle. case_bool_decide as Heq.
    + destruct Heq as [<- <-]. unfold bucket at 1. rewrite kv_put_view, lookup_insert_eq by done. cbn [mbind option_bind]. unfold v.
      fold (bucket (kv_view s) w k). pose proof (bucket_range (kv_view s) w k).
      unfold as_u64. rewrite Z.mod_small by (unfold u64_max in *; lia). rewrite decode_encode_u64 by lia. done.
    + rewrite Z.add_0_r. apply bucket_frame. rewrite kv_put_view by done. rewrite lookup_insert_ne; [done|].
      intros E%bucket_key_inj; [|done..]. by apply Heq.
Qed.

Lemma emit_ready b (s : S) :
  ready s → ∃ out s', emit_closed b (mkTumblingWindow size s) = (out, mkTumblingWindow size s') ∧ ready s' ∧
    max_seen (kv_view s') = max_seen (kv_view s) ∧
    (∀ w k, is_i64 w → emitted w k out + bucket (kv_view s') w k = bucket (kv_view s) w k ∧
      (closes w b = true → bucket (kv_view s') w k = 0)) ∧
    (∀ w k, is_i64 w → 0 ≤ emitted w k out) ∧ (∀ r, r ∈ out → closes (rec_timestamp_ms r) b = true).
Proof.
  intros [Hu Hm]. destruct (emit_closed b (mkTumblingWindow size s)) as [out w'] eqn:E.
  destruct (emit_closed_spec b s out w' Hu E) as (Hsz & Hu' & Hraw & Hbk & Hcl). destruct w' as [sz s']. cbn [size_ms window_store] in *. subst sz.
  destruct meta_not_bucket as (Hn1 & Hn2 & _). exists out, s'. split; [done|]. split; [|split; [|split; [|split]]].
  - split; [done|]. by rewrite Hraw.
  - unfold max_seen. by rewrite Hraw.
  - intros w k Hw. destruct (Hbk w k Hw) as [-> ->]. destruct (closes w b); [lia|]. split; [lia|done].
  - intros w k Hw. destruct (Hbk w k Hw) as [-> _]. pose proof (bucket_range (kv_view s) w k). destruct (closes w b); lia.
  - done.
Qed.

Lemma max_event_ms_ready (s : S) : ready s → max_event_ms (mkTumblingWindow size s) = max_seen (kv_view s).
Proof. intros [Hu _]. unfold max_event_ms, max_seen. cbn [window_store]. by rewrite kv_get_view. Qed.

Lemma bind_ready (s : S) :
  ready s → ∃ s', bind_size_ms (mkTumblingWindow size s) = (Ok tt, mkTumblingWindow size s') ∧ ready s' ∧
    max_seen (kv_view s') = max_seen (kv_view s) ∧ ∀ w k, bucket (kv_view s') w k = bucket (kv_view s) w k.
Proof.
  intros Hr. destruct (bind_size_ready s Hr) as (s' & E & Hr' & Hv). exists s'. split; [done|]. split; [done|]. split.
  - unfold max_seen. by rewrite Hv.
  - intros w k. apply bucket_frame, Hv, bucket_not_meta.
Qed.

Lemma event_time_i64 m r : is_i64 (rec_timestamp_ms r) → is_i64 (event_time (max_seen m) r).
Proof. intros Hr. unfold event_time. destruct (0 <? _); [done|apply max_seen_i64]. Qed.

Lemma parse_count_nonneg v : 0 ≤ parse_count v ≤ u64_max.
Proof. apply parse_count_range. Qed.

Lemma process_spec r (s : S) :
  ready s → is_i64 (rec_timestamp_ms r) → let ts := event_time (max_seen (kv_view s)) r in
  ∃ out s', window_process r (mkTumblingWindow size s) = (Ok out, mkTumblingWindow size s') ∧ ready s' ∧
    max_seen (kv_view s') = Z.max (max_seen (kv_view s)) ts ∧
    (∀ w k, is_i64 w → bucket (kv_view s) w k + contributes w k (max_seen (kv_view s)) r ≤ u64_max →
      emitted w k out + bucket (kv_view s') w k = bucket (kv_view s) w k + contributes w k (max_seen (kv_view s)) r) ∧
    (∀ o, o ∈ out → closes (rec_timestamp_ms o) ts = true).
Proof.
  intros Hr Hts ts. unfold window_process. destruct (bind_ready s Hr) as (s1 & E1 & Hr1 & Hm1 & Hb1). rewrite E1. cbn [bind_st].
  cbv zeta. rewrite max_event_ms_ready, Hm1 by done. fold ts. pose proof (event_time_i64 (kv_view s) r Hts) as Hi. fold ts in Hi.
  destruct (set_max_spec s1 ts Hr1 Hi) as (Hr2 & Hm2 & Hb2). rewrite Hm1 in Hr2, Hm2, Hb2.
  set (s2 := if _ <? ts then _ else s1) in Hr2, Hm2, Hb2.
  assert (E2 : (if max_seen (kv_view s) <? ts then set_max_event_ms ts (mkTumblingWindow size s1) else mkTumblingWindow size s1) =
    mkTumblingWindow size s2) by (unfold s2; by destruct (_ <? ts)).
  rewrite E2. destruct (emit_ready ts s2 Hr2) as (out & s3 & E3 & Hr3 & Hm3 & Hb3 & Hp3 & Hc3). rewrite E3. cbn [size_ms window_store].
  destruct (add_to_bucket_spec s3 (window_start size ts) (key_of r) (parse_count (rec_value r)) Hr3) as (Hr4 & Hm4 & Hb4);
    [by apply window_start_i64|apply parse_count_nonneg|].
  exists out. eexists. split; [done|]. split; [done|]. split; [by rewrite Hm4, Hm3, Hm2|]. split; [|done].
  intros w k Hw. unfold contributes. fold ts. intros Hle. destruct (Hb3 w k Hw) as [Hc _]. rewrite Hb2, Hb1 in Hc. pose proof (Hp3 w k Hw).
  rewrite Hb4; [lia|done|]. etrans; [|exact Hle]. lia.
Qed.

Lemma punctuate_spec now (s : S) :
  ready s → let b := i64_saturating_add (Z.max now (max_seen (kv_view s))) 1 in
  ∃ out s', window_punctuate now (mkTumblingWindow size s) = (Ok out, mkTumblingWindow size s') ∧ ready s' ∧
    max_seen (kv_view s') = max_seen (kv_view s) ∧
    (∀ w k, is_i64 w → emitted w k out + bucket (kv_view s') w k = bucket (kv_view s) w k ∧
      (closes w b = true → bucket (kv_view s') w k = 0)) ∧
    (∀ o, o ∈ out → closes (rec_timestamp_ms o) b = true).
Proof.
  intros Hr b. unfold window_punctuate. destruct (bind_ready s Hr) as (s1 & E1 & Hr1 & Hm1 & Hb1). rewrite E1. cbn [bind_st]. cbv zeta.
  rewrite max_event_ms_ready, Hm1 by done. fold b. destruct (emit_ready b s1 Hr1) as (out & s2 & E2 & Hr2 & Hm2 & Hb2 & _ & Hc2).
  rewrite E2. exists out, s2. split; [done|]. split; [done|]. split; [by rewrite Hm2|]. split; [|done].
  intros w k Hw. rewrite <- Hb1. by apply Hb2.
Qed.

Definition timestamp_ok (i : Input) : Prop := match i with In r => is_i64 (rec_timestamp_ms r) | Tick _ => True end.

(** The time up to which an input closes windows. *)
Definition closing_time (m : gmap bytes bytes) (i : Input) : Z :=
  match i with
  | In r => event_time (max_seen m) r
  | Tick now => i64_saturating_add (Z.max now (max_seen m)) 1
  end.

Lemma contributes_nonneg w k m r : 0 ≤ contributes w k m r.
Proof. unfold contributes. case_bool_decide; [apply parse_count_nonneg|done]. Qed.

Lemma received_nonneg w k m ins : 0 ≤ received w k m ins.
Proof.
  revert m. induction ins as [|[r|now] ins IH]; intros m; cbn; [done| |done].
  pose proof (contributes_nonneg w k m r). pose proof (IH (Z.max m (event_time m r))). lia.
Qed.

Lemma emitted_nonneg w k out : 0 ≤ emitted w k out.
Proof.
  unfold emitted. induction out as [|r out IH]; cbn [foldr]; [done|]. pose proof (parse_count_nonneg (rec_value r)).
  case_bool_decide; lia.
Qed.

(** A run never fails, and conserves every count. *)
Lemma run_conserves w k ins (s : S) :
  ready s → Forall timestamp_ok ins → is_i64 w →
  bucket (kv_view s) w k + received w k (max_seen (kv_view s)) ins ≤ u64_max →
  ∃ outs s', window_run ins (mkTumblingWindow size s) = (Ok outs, mkTumblingWindow size s') ∧ ready s' ∧
    0 ≤ emitted w k outs ∧
    emitted w k outs + bucket (kv_view s') w k = bucket (kv_view s) w k + received w k (max_seen (kv_view s)) ins.
Proof.
  intros Hr Hts Hw. revert s Hr. induction Hts as [|[r|now] ins Hi _ IH]; intros s Hr Hle; cbn [window_run received] in *.
  - eexists [], s. split; [done|]. split; [done|]. split; [done|]. cbn. lia.
  - destruct (process_spec r s Hr Hi) as (out & s1 & E & Hr1 & Hm & Hb & _). unfold window_input. rewrite E. cbn [bind_st].
    pose proof (received_nonneg w k (Z.max (max_seen (kv_view s)) (event_time (max_seen (kv_view s)) r)) ins).
    specialize (Hb w k Hw ltac:(lia)). rewrite <- Hm in *. pose proof (emitted_nonneg w k out).
    destruct (IH s1 Hr1) as (outs & s2 & E2 & Hr2 & Hp2 & Hc2); [lia|]. rewrite E2. cbn [bind_st].
    exists (out ++ outs), s2. split; [done|]. split; [done|]. rewrite emitted_app. split; lia.
  - destruct (punctuate_spec now s Hr) as (out & s1 & E & Hr1 & Hm & Hb & _). unfold window_input. rewrite E. cbn [bind_st].
    destruct (Hb w k Hw) as [Hb1 _]. rewrite <- Hm in *. pose proof (emitted_nonneg w k out).
    destruct (IH s1 Hr1) as (outs & s2 & E2 & Hr2 & Hp2 & Hc2); [lia|]. rewrite E2. cbn [bind_st].
    exists (out ++ outs), s2. split; [done|]. split; [done|]. rewrite emitted_app. split; lia.
Qed.

Lemma run_app a b (w : TumblingWindow S) outs w1 :
  window_run a w = (Ok outs, w1) →
  window_run (a ++ b) w = let! (outs', w2) := window_run b w1 in (Ok (outs ++ outs'), w2).
Proof.
  revert w outs. induction a as [|i a IH]; intros w outs; cbn [window_run app].
  - intros [= <- <-]. destruct (window_run b w) as [[o|e] w2]; cbn; done.
  - destruct (window_input i w) as [[o|e] w2]; cbn [bind_st]; [|done].
    destruct (window_run a w2) as [[o2|e] w3] eqn:E; cbn [bind_st]; [|done]. intros [= <- ->]. rewrite (IH _ _ E).
    destruct (window_run b w1) as [[o3|e] w4]; cbn [bind_st]; [|done]. by rewrite app_assoc.
Qed.


(** A record is counted in the one window that contains its event time, whose
    start is a multiple of the window's size; and an input emits a window only
    when its end is not after the time the input brings. *)
Theorem window_bounds i (s : S) :
  ready s → timestamp_ok i → 0 ≤ max_seen (kv_view s) →
  (∀ r, i = In r → let ts := event_time (max_seen (kv_view s)) r in
    0 ≤ window_start size ts ≤ ts ∧ ts < window_start size ts + size ∧ (size | window_start size ts)) ∧
  (∃ out s', window_input i (mkTumblingWindow size s) = (Ok out, mkTumblingWindow size s') ∧
    ∀ o, o ∈ out → rec_timestamp_ms o + size ≤ i64_max → i64_min ≤ rec_timestamp_ms o →
      rec_timestamp_ms o + size ≤ closing_time (kv_view s) i).
Proof.
  intros Hr Hts Hmax. split.
  - intros r -> ts. apply window_start_bounds. pose proof (event_time_i64 (kv_view s) r Hts) as Hi. unfold ts, event_time, is_i64 in *.
    destruct (Z.ltb_spec 0 (rec_timestamp_ms r)); lia.
  - assert (∃ out s', window_input i (mkTumblingWindow size s) = (Ok out, mkTumblingWindow size s') ∧
      ∀ o, o ∈ out → closes (rec_timestamp_ms o) (closing_time (kv_view s) i) = true) as (out & s' & E & Hc).
    { destruct i as [r|now]; cbn [window_input closing_time].
      - destruct (process_spec r s Hr Hts) as (out & s' & E & _ & _ & _ & Hc). eauto.
      - destruct (punctuate_spec now s Hr) as (out & s' & E & _ & _ & _ & Hc). eauto. }
    exists out, s'. split; [done|]. intros o Ho Hle Hge. specialize (Hc o Ho). unfold closes in Hc. apply Z.leb_le in Hc.
    rewrite as_i64_small in Hc by lia. done.
Qed.

End window.

(** ** Witnesses, over a memory store *)

Definition sample_inputs : list Input :=
  [In (mkLogRecord 0 (Some (as_bytes "k")) (as_bytes "2") 15 []); In (mkLogRecord 1 (Some (as_bytes "k")) (as_bytes "3") 25 []);
   In (mkLogRecord 2 (Some (as_bytes "k")) [] 12 [])].

Lemma empty_ready : ready 10 (∅ : MemoryStore).
Proof. split; [done|]. by left. Qed.


Lemma window_bounds_witness :
  0 ≤ window_start 10 (event_time 0 (mkLogRecord 0 None [] 15 [])) ≤ 15.
Proof.
  destruct (window_bounds 10 ltac:(done) (In (mkLogRecord 0 None [] 15 [])) (∅ : MemoryStore)) as [Hb _];
    [apply empty_ready|done|done|]. exact (proj1 (Hb _ eq_refl)).
Defined.
