(* ===== verification/Client.v ===== *)
(** * The client library: [volant-client/src/client.rs]

    Every method of [Client] over a network that answers requests, or fails
    to, as it likes: the retries of transient failures, the redirections to
    the leader of a partition and to the controller, authentication on each
    connection, the sequence numbers of an idempotent producer and its
    transactions.  The loops of the code end because each turn spends a retry
    or a redirection, so they are recursive in the two budgets. *)

From Stdlib Require Import Strings.String.
From S2P Require Import Prelude Bytes Text OffsetStore Messages Request Response Core Scram.
#[local] Open Scope Z_scope.

(** ** Error codes *)

Definition RebalanceInProgress : Z := 9.
Definition UnknownMemberId : Z := 10.
Definition IllegalGeneration : Z := 11.
Definition NotLeaderForPartition : Z := 13.
Definition NotController : Z := 14.

Definition error_from_code (code : Z) (message : string) : Prelude.Error :=
  match code with
  | 2 => NotFound message
  | 3 => InvalidArgument message
  | 4 => Storage message
  | 6 | 7 => Io message
  | 8 => NotImplemented "unsupported operation"
  | _ => Protocol message
  end.

(** [Io], [Timeout], [NotEnoughReplicas] and [BrokerNotAvailable]. *)
Definition is_transient_error_code (code : Z) : bool :=
  (code =? 6) || (code =? 7) || (code =? 15) || (code =? 16).

Definition is_join_retryable_error_code (code : Z) : bool :=
  is_transient_error_code code || (code =? RebalanceInProgress).

Definition is_transient_transport (e : Prelude.Error) : bool := match e with Io _ => true | _ => false end.

Definition failed_with (op : string) (error_code : Z) : string :=
  op ++ " failed with error_code=" ++ u64_to_string error_code.

Definition check_ok (error_code : Z) (op : string) : result unit :=
  if error_code =? 0 then Ok tt else Err (error_from_code error_code (failed_with op error_code)).

Definition unexpected (op : string) : Prelude.Error := Protocol ("unexpected response for " ++ op).

(** ** Text *)

(** What follows the first occurrence of a pattern. *)
Fixpoint after_first (pat : string) (s : bytes) : option bytes :=
  match strip_str pat s with
  | Some rest => Some rest
  | None => match s with [] => None | _ :: s => after_first pat s end
  end.

Definition is_digit (c : byte) : bool := (48 <=? byte_val c) && (byte_val c <=? 57).

Fixpoint leading_digits (s : bytes) : bytes :=
  match s with c :: s => if is_digit c then c :: leading_digits s else [] | [] => [] end.

(** The digits end before another occurrence of the pattern could begin. *)
Definition parse_controller_id (message : string) : option Z :=
  rest ← after_first "controller_id=" (as_bytes message);
  match leading_digits rest with [] => None | digits => parse_u32 (of_bytes digits) end.

(** ** Partitions *)

Definition u32_wrapping_mul (a b : Z) : Z := as_u32 (a * b).

Definition MURMUR_M : Z := 0x5bd1e995.

Definition murmur_mix (k : Z) : Z :=
  let k := u32_wrapping_mul k MURMUR_M in
  let k := Z.lxor k (Z.shiftr k 24) in
  u32_wrapping_mul k MURMUR_M.

(** The words of four bytes, then the bytes that remain. *)
Fixpoint murmur_words (h : Z) (data : bytes) : Z * bytes :=
  match data with
  | a :: b :: c :: d :: rest =>
    let k := Z.lor (Z.lor (Z.lor (byte_val a) (Z.shiftl (byte_val b) 8)) (Z.shiftl (byte_val c) 16)) (Z.shiftl (byte_val d) 24) in
    murmur_words (Z.lxor (u32_wrapping_mul h MURMUR_M) (murmur_mix k)) rest
  | rest => (h, rest)
  end.

Definition murmur_tail (h : Z) (rest : bytes) : Z :=
  match rest with
  | [a] => u32_wrapping_mul (Z.lxor h (byte_val a)) MURMUR_M
  | [a; b] => u32_wrapping_mul (Z.lxor (Z.lxor h (Z.shiftl (byte_val b) 8)) (byte_val a)) MURMUR_M
  | [a; b; c] =>
    u32_wrapping_mul (Z.lxor (Z.lxor (Z.lxor h (Z.shiftl (byte_val c) 16)) (Z.shiftl (byte_val b) 8)) (byte_val a)) MURMUR_M
  | _ => h
  end.

Definition client_murmur2 (data : bytes) : Z :=
  let '(h, rest) := murmur_words (Z.lxor 0x9747b28c (as_u32 (zlen data))) data in
  let h := murmur_tail h rest in
  let h := Z.lxor h (Z.shiftr h 13) in
  let h := u32_wrapping_mul h MURMUR_M in
  Z.lxor h (Z.shiftr h 15).

Definition partition_for_key (key : bytes) (num_partitions : Z) : Z :=
  if num_partitions =? 0 then 0 else Z.rem (Z.land (client_murmur2 key) 0x7fffffff) num_partitions.

(** ** The client *)

Record ClientConfig := mkClientConfig {
  brokers : list string;
  cfg_acks : Z;
  cfg_fetch_max_messages : Z;
  cfg_fetch_max_bytes : Z;
  cfg_fetch_max_wait_ms : Z;
  delete_records_wait : Z;
  cfg_auth_token : option string;
  scram_username : option string;
  scram_password : option string;
  scram_hash : Z;
  max_redirects : Z;
  enable_idempotence : bool;
  transactional_id : option string;
  max_retries : Z;
}.

Definition default_config : ClientConfig :=
  mkClientConfig ["127.0.0.1:9092"%string] 1 128 4194304 0 0 None None None 0 1 false None 0.

Record IdempotentState := mkIdempotentState {
  producer_id : Z;
  epoch : Z;
  initialized : bool;
  in_transaction : bool;
  seq_at_begin : gmap (string * Z) Z;
  next_seq : gmap (string * Z) Z;
}.

Definition no_producer : IdempotentState := mkIdempotentState 0 0 false false ∅ ∅.

Record Client := mkClient {
  config : ClientConfig;
  current_addr : string;
  idempotent : IdempotentState;
}.

Definition set_addr (a : string) (c : Client) : Client := mkClient (config c) a (idempotent c).
Definition set_idempotent (i : IdempotentState) (c : Client) : Client := mkClient (config c) (current_addr c) i.

(** One request over the current connection ([round_trip] is [Frame]'s), a new
    connection, and the two kinds of random names. *)
Class Network (W : Type) := {
  round_trip : Request → W → result Response * W;
  connect_to : string → W → result unit * W;
  draw_uuid : W → string * W;
  draw_nonce : W → string * W;
}.

Record MetadataReply := mkMetadata { md_brokers : list BrokerInfo; md_topics : list TopicInfo; md_controller_id : Z }.
Record MembershipList := mkMembershipList { ml_generation : Z; ml_brokers : list MembershipBroker; ml_live : list Z }.

Section client.
Context {W : Type} `{Network W} `{ScramCrypto}.

(** The client and the network. *)
Definition CS : Type := Client * W.
Definition cfg (s : CS) : ClientConfig := config s.1.
Definition with_idempotent (f : IdempotentState → IdempotentState) (s : CS) : CS :=
  (set_idempotent (f (idempotent s.1)) s.1, s.2).

Definition call (req : Request) (s : CS) : result Response * CS :=
  let '(r, w) := round_trip req s.2 in (r, (s.1, w)).

Definition retries (s : CS) : nat := Z.to_nat (max_retries (cfg s)).
Definition redirects (s : CS) : nat := Z.to_nat (max_redirects (cfg s)).

(** [loop { .. retry_attempt += 1; continue .. }] around one request; [code_of]
    is the error code that the loop looks at. *)
Fixpoint retrying (code_of : Response → option Z) (req : Request) (n : nat) (s : CS) : result Response * CS :=
  match call req s with
  | (Err e, s) =>
    if is_transient_transport e then match n with O => (Err e, s) | S n => retrying code_of req n s end
    else (Err e, s)
  | (Ok resp, s) =>
    match code_of resp with
    | None => (Ok resp, s)
    | Some code =>
      if is_transient_error_code code then match n with O => (Ok resp, s) | S n => retrying code_of req n s end
      else (Ok resp, s)
    end
  end.

(** *** Authentication *)

Definition auth_code (resp : Response) : option Z :=
  match resp with Response.Auth c => Some c | Response.Error c _ => Some c | _ => None end.

Definition authenticate (token : string) (s : CS) : result unit * CS :=
  let! (resp, s) := retrying auth_code (Request.Auth token) (retries s) s in
  match resp with
  | Response.Auth 0 => (Ok tt, s)
  | Response.Auth c => (Err (error_from_code c (failed_with "auth" c)), s)
  | Response.Error c m => (Err (error_from_code c m), s)
  | _ => (Err (unexpected "auth"), s)
  end.

(** The two steps of a handshake, with what ends it or starts it again. *)
Inductive Handshake := Finished (r : result unit) | Again (r : result unit).

Definition scram_failed (op : string) (code : Z) : Handshake :=
  let r := Err (error_from_code code (op ++ " failed error_code=" ++ u64_to_string code)) in
  if is_transient_error_code code then Again r else Finished r.

Definition scram_error (code : Z) (message : string) : Handshake :=
  let r := Err (error_from_code code message) in
  if is_transient_error_code code then Again r else Finished r.

Definition scram_transport (e : Prelude.Error) : Handshake :=
  if is_transient_transport e then Again (Err e) else Finished (Err e).

Definition client_hash (h : Z) : ScramHash := if h =? 2 then Sha512 else Sha256.

Definition scram_finish (expected_sig : bytes) (resp : result Response) : Handshake :=
  match resp with
  | Err e => scram_transport e
  | Ok (Response.ScramFinal 0 sig) =>
    if bool_decide (sig = expected_sig) then Finished (Ok tt)
    else Finished (Err (Protocol "scram server signature mismatch"))
  | Ok (Response.ScramFinal code _) => scram_failed "scram final" code
  | Ok (Response.Error code m) => scram_error code m
  | Ok _ => Finished (Err (unexpected "scram final"))
  end.

Definition scram_handshake (username password : string) (s : CS) : Handshake * CS :=
  let '(client_nonce, w) := draw_nonce s.2 in
  let hash := scram_hash (cfg s) in
  let '(first, s) := call (Request.ScramFirst username client_nonce hash) (s.1, w) in
  match first with
  | Err e => (scram_transport e, s)
  | Ok (Response.ScramFirst 0 combined_nonce salt iterations) =>
    match client_proof_and_server_sig_for (client_hash hash) username password client_nonce combined_nonce salt iterations with
    | Err e => (Finished (Err e), s)
    | Ok (proof, expected_sig) =>
      let '(final, s) := call (Request.ScramFinal username combined_nonce proof) s in
      (scram_finish expected_sig final, s)
    end
  | Ok (Response.ScramFirst code _ _ _) => (scram_failed "scram first" code, s)
  | Ok (Response.Error code m) => (scram_error code m, s)
  | Ok _ => (Finished (Err (unexpected "scram first")), s)
  end.

Fixpoint authenticate_scram (username password : string) (n : nat) (s : CS) : result unit * CS :=
  match scram_handshake username password s with
  | (Finished r, s) => (r, s)
  | (Again r, s) => match n with O => (r, s) | S n => authenticate_scram username password n s end
  end.

Definition maybe_authenticate (s : CS) : result unit * CS :=
  match cfg_auth_token (cfg s) with
  | Some token => authenticate token s
  | None =>
    match scram_username (cfg s), scram_password (cfg s) with
    | Some user, Some pass => authenticate_scram user pass (retries s) s
    | None, None => (Ok tt, s)
    | _, _ => (Err (InvalidArgument "scram_username and scram_password must both be set"), s)
    end
  end.

Definition reconnect (addr : string) (s : CS) : result unit * CS :=
  match connect_to addr s.2 with
  | (Err e, w) => (Err e, (s.1, w))
  | (Ok _, w) => maybe_authenticate (set_addr addr s.1, w)
  end.

Definition connect (c : ClientConfig) (w : W) : result unit * CS :=
  match brokers c with
  | [] => (Err (InvalidArgument "no brokers configured"), (mkClient c "" no_producer, w))
  | addr :: _ =>
    match connect_to addr w with
    | (Err e, w) => (Err e, (mkClient c addr no_producer, w))
    | (Ok _, w) => maybe_authenticate (mkClient c addr no_producer, w)
    end
  end.

(** *** Metadata and redirection *)

Definition metadata_code (resp : Response) : option Z :=
  match resp with
  | Response.ListMembers c _ _ _ => Some c
  | Response.Error c _ => Some c
  | _ => None
  end.

Definition metadata_list_members_round_trip (req : Request) (s : CS) : result Response * CS :=
  retrying metadata_code req (retries s) s.

Definition metadata_from_response (resp : Response) : result MetadataReply :=
  match resp with
  | Response.Metadata bs ts c => Ok (mkMetadata bs ts c)
  | Response.Error c m => Err (error_from_code c m)
  | _ => Err (unexpected "metadata")
  end.

Definition membership_list_from_response (resp : Response) : result MembershipList :=
  match resp with
  | Response.ListMembers c g bs live => let? _ := check_ok c "list_members" in Ok (mkMembershipList g bs live)
  | Response.Error c m => Err (error_from_code c m)
  | _ => Err (unexpected "list_members")
  end.

Definition metadata_rpc (topics : list string) (s : CS) : result MetadataReply * CS :=
  let! (resp, s) := metadata_list_members_round_trip (Request.Metadata topics) s in
  (metadata_from_response resp, s).

Definition list_members_rpc (s : CS) : result MembershipList * CS :=
  let! (resp, s) := metadata_list_members_round_trip Request.ListMembers s in
  (membership_list_from_response resp, s).

Definition host_port (host : string) (port : Z) : string := host ++ ":" ++ u64_to_string port.

Definition find_broker (id : Z) (bs : list BrokerInfo) : option BrokerInfo :=
  List.find (λ b, bi_node_id b =? id) bs.

(** The address of the controller to try, if there is one. *)
Definition controller_addr (hint : option Z) (meta : MetadataReply) (s : CS) : option (string * Z) * CS :=
  let known := match hint with
               | Some id => Some id
               | None => if negb (md_controller_id meta =? 0) then Some (md_controller_id meta) else None
               end in
  match known with
  | Some id =>
    match find_broker id (md_brokers meta) with
    | Some b => (Some (bi_host b, bi_port b), s)
    | None =>
      match list_members_rpc s with
      | (Err _, s) => (None, s)
      | (Ok members, s) =>
        (match List.find (λ b, mb_id b =? id) (ml_brokers members) with
         | Some b => Some (mb_host b, mb_port b)
         | None => None
         end, s)
      end
    end
  | None =>
    (match List.find (λ b, negb (String.eqb (bi_host b) "") &&
                           negb (String.eqb (host_port (bi_host b) (bi_port b)) (current_addr s.1))) (md_brokers meta) with
     | Some b => Some (bi_host b, bi_port b)
     | None => None
     end, s)
  end.

Definition redirect_to_controller (hint : option Z) (s : CS) : bool * CS :=
  match metadata_rpc [] s with
  | (Err _, s) => (false, s)
  | (Ok meta, s) =>
    match controller_addr hint meta s with
    | (None, s) => (false, s)
    | (Some (host, port), s) =>
      if String.eqb host "" then (false, s) else
      let addr := host_port host port in
      if String.eqb addr (current_addr s.1) then (true, s)
      else match reconnect addr s with (Ok _, s) => (true, s) | (Err _, s) => (false, s) end
    end
  end.

(** A request that only the controller serves: error 14 spends a redirection,
    transient errors a retry. *)
Definition controlled (code_of : Response → option (Z * option Z)) (retryable : Z → bool) (req : Request) :
    nat → nat → CS → result Response * CS :=
  fix redirecting (d : nat) := fix again (n : nat) (s : CS) :=
    match call req s with
    | (Err e, s) =>
      if is_transient_transport e then match n with O => (Err e, s) | S n => again n s end else (Err e, s)
    | (Ok resp, s) =>
      match code_of resp with
      | None => (Ok resp, s)
      | Some (code, hint) =>
        let stay (s : CS) :=
          if retryable code then match n with O => (Ok resp, s) | S n => again n s end else (Ok resp, s) in
        if code =? NotController then
          match d with
          | O => stay s
          | S d =>
            match redirect_to_controller hint s with
            | (true, s) => redirecting d n s
            | (false, s) => stay s
            end
          end
        else stay s
      end
    end.

(** [metadata_topics]: the retries begin anew after each redirection. *)
Fixpoint metadata_loop (topics : list string) (d : nat) (s : CS) : result MetadataReply * CS :=
  let! (resp, s) := metadata_list_members_round_trip (Request.Metadata topics) s in
  match resp, d with
  | Response.Error code message, S d =>
    if code =? NotController then
      match redirect_to_controller (parse_controller_id message) s with
      | (true, s) => metadata_loop topics d s
      | (false, s) => (metadata_from_response resp, s)
      end
    else (metadata_from_response resp, s)
  | _, _ => (metadata_from_response resp, s)
  end.

Definition metadata_topics (topics : list string) (s : CS) : result MetadataReply * CS :=
  metadata_loop topics (redirects s) s.
Definition metadata (s : CS) : result MetadataReply * CS := metadata_topics [] s.

Definition list_members_code (resp : Response) : option (Z * option Z) :=
  match resp with
  | Response.Error c m => Some (c, parse_controller_id m)
  | Response.ListMembers c _ _ _ => Some (c, None)
  | _ => None
  end.

Fixpoint list_members_loop (d : nat) (s : CS) : result MembershipList * CS :=
  let! (resp, s) := metadata_list_members_round_trip Request.ListMembers s in
  match list_members_code resp, d with
  | Some (code, hint), S d =>
    if code =? NotController then
      match redirect_to_controller hint s with
      | (true, s) => list_members_loop d s
      | (false, s) => (membership_list_from_response resp, s)
      end
    else (membership_list_from_response resp, s)
  | _, _ => (membership_list_from_response resp, s)
  end.

Definition list_members (s : CS) : result MembershipList * CS := list_members_loop (redirects s) s.

Definition leader_of (topic : string) (partition : Z) (meta : MetadataReply) : option Z :=
  t ← List.find (λ t, String.eqb (ti_name t) topic) (md_topics meta);
  p ← List.find (λ p, pi_partition_id p =? partition) (ti_partitions t);
  Some (pi_leader p).

Definition redirect_to_leader (topic : string) (partition : Z) (s : CS) : result unit * CS :=
  let! (meta, s) := metadata s in
  match leader_of topic partition meta with
  | None => (Err (NotFound "metadata missing topic or partition for redirect"), s)
  | Some leader_id =>
    match find_broker leader_id (md_brokers meta) with
    | None => (Err (NotFound "metadata missing broker"), s)
    | Some b =>
      let addr := host_port (bi_host b) (bi_port b) in
      if String.eqb (current_addr s.1) addr then (Ok tt, s) else reconnect addr s
    end
  end.

(** *** Administration *)

Definition admin_code (resp : Response) : option (Z * option Z) :=
  match resp with
  | Response.Error c m => Some (c, parse_controller_id m)
  | Response.CreateTopic _ _ _ c | Response.DeleteTopic _ c | Response.CreatePartitions c _ _
  | Response.ReassignPartitions c _ | Response.CreateAcls c | Response.DeleteAcls c _ | Response.CreateScramUser c
  | Response.DeleteScramUser c | Response.ListScramUsers c _ | Response.ListAcls c _ | Response.AddBroker c _
  | Response.RemoveBroker c _ | Response.DescribeConfigs c _ _ _ _ | Response.AlterConfigs c _ => Some (c, None)
  | _ => None
  end.

Definition admin_round_trip (req : Request) (s : CS) : result Response * CS :=
  controlled admin_code is_transient_error_code req (redirects s) (retries s) s.

(** The reply of an operation: its own fields, the broker's error, or another
    message. *)
Definition reply {A} (op : string) (pick : Response → option (Z * A)) (resp : Response) : result A :=
  match pick resp with
  | Some (code, a) => let? _ := check_ok code op in Ok a
  | None => match resp with Response.Error c m => Err (error_from_code c m) | _ => Err (unexpected op) end
  end.

Definition scram_reply {A} (op : string) (pick : Response → option (Z * A)) (resp : Response) : result A :=
  match pick resp with
  | Some (0, a) => Ok a
  | Some (code, _) => Err (error_from_code code (op ++ " failed error_code=" ++ u64_to_string code))
  | None => match resp with Response.Error c m => Err (error_from_code c m) | _ => Err (unexpected op) end
  end.

Definition create_scram_user (username password : string) (iterations : Z) (s : CS) : result unit * CS :=
  let! (resp, s) := admin_round_trip (Request.CreateScramUser username password iterations) s in
  (scram_reply "create_scram_user" (λ r, match r with Response.CreateScramUser c => Some (c, tt) | _ => None end) resp, s).

Definition delete_scram_user (username : string) (s : CS) : result unit * CS :=
  let! (resp, s) := admin_round_trip (Request.DeleteScramUser username) s in
  (scram_reply "delete_scram_user" (λ r, match r with Response.DeleteScramUser c => Some (c, tt) | _ => None end) resp, s).

Definition list_scram_users (s : CS) : result (list string) * CS :=
  let! (resp, s) := admin_round_trip Request.ListScramUsers s in
  (scram_reply "list_scram_users" (λ r, match r with Response.ListScramUsers c us => Some (c, us) | _ => None end) resp, s).

Definition create_topic_with_configs (name : string) (partitions : Z) (configs : list (string * string)) (s : CS)
    : result Z * CS :=
  let! (resp, s) := admin_round_trip (Request.CreateTopic name partitions configs) s in
  (reply "create_topic" (λ r, match r with Response.CreateTopic id _ _ c => Some (c, id) | _ => None end) resp, s).

Definition create_topic (name : string) (partitions : Z) (s : CS) : result Z * CS :=
  create_topic_with_configs name partitions [] s.

Definition describe_configs (topic : string) (s : CS) : result (string * Z * Z * list (string * string)) * CS :=
  let! (resp, s) := admin_round_trip (Request.DescribeConfigs topic) s in
  (reply "describe_configs"
     (λ r, match r with Response.DescribeConfigs c t id n cs => Some (c, (t, id, n, cs)) | _ => None end) resp, s).

Definition alter_configs (topic : string) (configs : list (string * string)) (s : CS) : result unit * CS :=
  let! (resp, s) := admin_round_trip (Request.AlterConfigs topic configs) s in
  (reply "alter_configs" (λ r, match r with Response.AlterConfigs c _ => Some (c, tt) | _ => None end) resp, s).

Definition create_partitions (topic : string) (total_count : Z) (s : CS) : result Z * CS :=
  let! (resp, s) := admin_round_trip (Request.CreatePartitions topic total_count) s in
  (reply "create_partitions" (λ r, match r with Response.CreatePartitions c _ n => Some (c, n) | _ => None end) resp, s).

Definition delete_topic (name : string) (s : CS) : result unit * CS :=
  let! (resp, s) := admin_round_trip (Request.DeleteTopic name) s in
  (reply "delete_topic" (λ r, match r with Response.DeleteTopic _ c => Some (c, tt) | _ => None end) resp, s).

Definition create_acls (entries : list AclBinding) (s : CS) : result unit * CS :=
  let! (resp, s) := admin_round_trip (Request.CreateAcls entries) s in
  (reply "create_acls" (λ r, match r with Response.CreateAcls c => Some (c, tt) | _ => None end) resp, s).

Definition delete_acls (entries : list AclBinding) (s : CS) : result Z * CS :=
  let! (resp, s) := admin_round_trip (Request.DeleteAcls entries) s in
  (reply "delete_acls" (λ r, match r with Response.DeleteAcls c n => Some (c, n) | _ => None end) resp, s).

Definition list_acls (principal : string) (resource_type : Z) (resource : string) (s : CS) : result (list AclBinding) * CS :=
  let! (resp, s) := admin_round_trip (Request.ListAcls principal resource_type resource) s in
  (reply "list_acls" (λ r, match r with Response.ListAcls c es => Some (c, es) | _ => None end) resp, s).

Definition add_broker (id : Z) (host : string) (port : Z) (rack : option string) (s : CS) : result Z * CS :=
  let! (resp, s) := admin_round_trip (Request.AddBroker id host port rack) s in
  (reply "add_broker" (λ r, match r with Response.AddBroker c g => Some (c, g) | _ => None end) resp, s).

Definition remove_broker (id : Z) (s : CS) : result Z * CS :=
  let! (resp, s) := admin_round_trip (Request.RemoveBroker id) s in
  (reply "remove_broker" (λ r, match r with Response.RemoveBroker c g => Some (c, g) | _ => None end) resp, s).

Definition REASSIGN_ALL_PARTITIONS : Z := u32_max.

Definition reassign_partitions (topic : string) (partition : option Z) (replicas : list Z) (s : CS) : result Z * CS :=
  let! (resp, s) := admin_round_trip (Request.ReassignPartitions topic (default REASSIGN_ALL_PARTITIONS partition) replicas) s in
  (reply "reassign_partitions" (λ r, match r with Response.ReassignPartitions c g => Some (c, g) | _ => None end) resp, s).

(** *** Producing *)

Record ProduceResult := mkProduceResult { pr_topic : string; pr_partition : Z; pr_base_offset : Z; pr_count : Z }.

Definition init_code (resp : Response) : option Z :=
  match resp with Response.InitProducerId _ _ c => Some c | Response.Error c _ => Some c | _ => None end.

Definition ensure_producer_id (s : CS) : result unit * CS :=
  if initialized (idempotent s.1) then (Ok tt, s) else
  let! (resp, s) := retrying init_code (Request.InitProducerId (default "" (transactional_id (cfg s)))) (retries s) s in
  match resp with
  | Response.InitProducerId pid e c =>
    match check_ok c "init_producer_id" with
    | Err err => (Err err, s)
    | Ok _ => (Ok tt, with_idempotent (λ i, mkIdempotentState pid e true false (seq_at_begin i) ∅) s)
    end
  | Response.Error c m => (Err (error_from_code c m), s)
  | _ => (Err (unexpected "init_producer_id"), s)
  end.

Definition resolve_partition (topic : string) (key : option bytes) (s : CS) : result Z * CS :=
  let! (meta, s) := metadata s in
  match List.find (λ t, String.eqb (ti_name t) topic) (md_topics meta) with
  | None => (Err (NotFound ("topic '" ++ topic ++ "' not found in metadata")), s)
  | Some t =>
    let n := as_u32 (zlen (ti_partitions t)) in
    if n =? 0 then (Err (NotFound ("topic '" ++ topic ++ "' has no partitions")), s)
    else (Ok (match key with Some k => partition_for_key k n | None => 0 end), s)
  end.

Definition wire_message (m : Message) : ProduceMessage :=
  mkProduceMessage (msg_key m) (msg_value m) (default (-1) (msg_timestamp_ms m)) (msg_headers m).

Definition is_idempotent (s : CS) : bool :=
  enable_idempotence (cfg s) || bool_decide (is_Some (transactional_id (cfg s))).

(** After a success: the number of the next batch. *)
Definition advance_seq (idem : bool) (topic : string) (partition base_sequence count : Z) (s : CS) : CS :=
  if idem && (0 <=? base_sequence) then
    with_idempotent (λ i, mkIdempotentState (producer_id i) (epoch i) (initialized i) (in_transaction i) (seq_at_begin i)
      (<[(topic, partition) := Z.max (-2147483648) (Z.min 2147483647 (base_sequence + as_i32 count))]> (next_seq i))) s
  else s.

(** The loop, in the redirections and the retries that are left. *)
Definition produce_loop (topic : string) (acks : Z) (wire : list ProduceMessage) (pid ep seq : Z) (idem : bool) :
    nat → nat → Z → CS → result ProduceResult * CS :=
  fix redirecting (d : nat) := fix again (n : nat) (part : Z) (s : CS) :=
    match call (Request.Produce topic part acks wire pid ep seq) s with
    | (Err e, s) =>
      if is_transient_transport e then match n with O => (Err e, s) | S n => again n part s end else (Err e, s)
    | (Ok (Response.Produce t p base count code), s) =>
      let stay (s : CS) :=
        match check_ok code "produce" with
        | Err e => if is_transient_error_code code then match n with O => (Err e, s) | S n => again n part s end else (Err e, s)
        | Ok _ => (Ok (mkProduceResult t p base count), advance_seq idem t p seq count s)
        end in
      if code =? NotLeaderForPartition then
        match d with
        | O => stay s
        | S d => let! (_, s) := redirect_to_leader t p s in redirecting d n (as_i32 p) s
        end
      else stay s
    | (Ok (Response.Error code message), s) =>
      let e := error_from_code code message in
      let stay (s : CS) :=
        if is_transient_error_code code then match n with O => (Err e, s) | S n => again n part s end else (Err e, s) in
      if code =? NotLeaderForPartition then
        match d with
        | O => stay s
        | S d =>
          if 0 <=? part then let! (_, s) := redirect_to_leader topic (as_u32 part) s in redirecting d n part s
          else let '(_, s) := metadata s in redirecting d n part s
        end
      else stay s
    | (Ok _, s) => (Err (unexpected "produce"), s)
    end.

Definition produce_with_acks (topic : string) (partition : option Z) (messages : list Message) (acks : Z) (s : CS)
    : result ProduceResult * CS :=
  match messages with
  | [] => (Err (InvalidArgument "empty produce batch"), s)
  | m :: _ =>
    let wire := map wire_message messages in
    let idem := is_idempotent s in
    let! (part, s) :=
      (if idem then
         match partition with
         | Some p => (Ok (as_i32 p), s)
         | None => let! (p, s) := resolve_partition topic (msg_key m) s in (Ok (as_i32 p), s)
         end
       else (Ok (match partition with Some p => as_i32 p | None => -1 end), s)) in
    let! (ids, s) :=
      (if idem then
         let! (_, s) := ensure_producer_id s in
         let i := idempotent s.1 in
         (Ok (producer_id i, epoch i, default 0 (next_seq i !! (topic, as_u32 part))), s)
       else (Ok (0, 0, -1), s)) in
    let '(pid, ep, seq) := ids in
    produce_loop topic acks wire pid ep seq idem (redirects s) (retries s) part s
  end.

Definition produce (topic : string) (partition : option Z) (messages : list Message) (s : CS) : result ProduceResult * CS :=
  produce_with_acks topic partition messages (cfg_acks (cfg s)) s.

(** *** Transactions *)

Definition begin_code (resp : Response) : option Z :=
  match resp with Response.BeginTxn c => Some c | Response.Error c _ => Some c | _ => None end.

Definition begin_transaction (s : CS) : result unit * CS :=
  match transactional_id (cfg s) with
  | None => (Err (InvalidArgument "transactional_id not configured"), s)
  | Some _ =>
    let! (_, s) := ensure_producer_id s in
    let i := idempotent s.1 in
    let! (resp, s) := retrying begin_code (Request.BeginTxn (producer_id i) (epoch i)) (retries s) s in
    match resp with
    | Response.BeginTxn c =>
      match check_ok c "begin_txn" with
      | Err e => (Err e, s)
      | Ok _ => (Ok tt, with_idempotent (λ i, mkIdempotentState (producer_id i) (epoch i) (initialized i) true (next_seq i) (next_seq i)) s)
      end
    | Response.Error c m => (Err (error_from_code c m), s)
    | _ => (Err (unexpected "begin_txn"), s)
    end
  end.

Definition end_code (resp : Response) : option Z :=
  match resp with Response.EndTxn c _ => Some c | Response.Error c _ => Some c | _ => None end.

(** An abort rewinds the sequence numbers to the start of the transaction. *)
Definition end_transaction (committed : bool) (offsets : list TxnOffsetCommit) (s : CS) : result (list TxnProduceResult) * CS :=
  let i := idempotent s.1 in
  if negb (initialized i) then (Err (InvalidArgument "producer id not initialized"), s) else
  let! (resp, s) := retrying end_code (Request.EndTxn (producer_id i) (epoch i) committed offsets) (retries s) s in
  match resp with
  | Response.EndTxn c results =>
    match check_ok c "end_txn" with
    | Err e => (Err e, s)
    | Ok _ =>
      (Ok results, with_idempotent (λ i, mkIdempotentState (producer_id i) (epoch i) (initialized i) false ∅
         (if committed then next_seq i else seq_at_begin i)) s)
    end
  | Response.Error c m => (Err (error_from_code c m), s)
  | _ => (Err (unexpected "end_txn"), s)
  end.

Definition commit_transaction (offsets : list TxnOffsetCommit) (s : CS) : result (list TxnProduceResult) * CS :=
  end_transaction true offsets s.

Definition abort_transaction (s : CS) : result unit * CS :=
  let! (_, s) := end_transaction false [] s in (Ok tt, s).

(** *** Reading *)

Record FetchResult := mkFetchResult { ft_topic : string; ft_partition : Z; ft_high_watermark : Z; ft_records : list FetchRecord }.

(** Redirections, no retries. *)
Fixpoint fetch_loop (req : Request) (topic : string) (partition : Z) (d : nat) (s : CS) : result FetchResult * CS :=
  let! (resp, s) := call req s in
  match resp with
  | Response.Fetch t p hwm code records =>
    match d with
    | S d =>
      if code =? NotLeaderForPartition then let! (_, s) := redirect_to_leader t p s in fetch_loop req topic partition d s
      else (let? _ := check_ok code "fetch" in Ok (mkFetchResult t p hwm records), s)
    | O => (let? _ := check_ok code "fetch" in Ok (mkFetchResult t p hwm records), s)
    end
  | Response.Error code message =>
    match d with
    | S d =>
      if code =? NotLeaderForPartition then let! (_, s) := redirect_to_leader topic partition s in fetch_loop req topic partition d s
      else (Err (error_from_code code message), s)
    | O => (Err (error_from_code code message), s)
    end
  | _ => (Err (unexpected "fetch"), s)
  end.

Definition fetch_opts_for (group_id member_id topic : string) (partition from max_messages max_wait_ms max_bytes : Z) (s : CS)
    : result FetchResult * CS :=
  fetch_loop (Request.Fetch topic partition from max_messages max_bytes max_wait_ms group_id member_id) topic partition (redirects s) s.

Definition fetch_opts (topic : string) (partition from max_messages max_wait_ms max_bytes : Z) (s : CS) : result FetchResult * CS :=
  fetch_opts_for "" "" topic partition from max_messages max_wait_ms max_bytes s.
Definition fetch (topic : string) (partition from max_messages max_wait_ms : Z) (s : CS) : result FetchResult * CS :=
  fetch_opts topic partition from max_messages max_wait_ms (cfg_fetch_max_bytes (cfg s)) s.
Definition fetch_default (topic : string) (partition from : Z) (s : CS) : result FetchResult * CS :=
  fetch_opts topic partition from (cfg_fetch_max_messages (cfg s)) (cfg_fetch_max_wait_ms (cfg s)) (cfg_fetch_max_bytes (cfg s)) s.

(** A request that only the leader serves; [move] is what error 13 does. *)
Definition led (code_of : Response → option Z) (move : Response → CS → bool * CS) (req : Request) :
    nat → nat → CS → result Response * CS :=
  fix redirecting (d : nat) := fix again (n : nat) (s : CS) :=
    match call req s with
    | (Err e, s) =>
      if is_transient_transport e then match n with O => (Err e, s) | S n => again n s end else (Err e, s)
    | (Ok resp, s) =>
      match code_of resp with
      | None => (Ok resp, s)
      | Some code =>
        let stay (s : CS) :=
          if is_transient_error_code code then match n with O => (Ok resp, s) | S n => again n s end else (Ok resp, s) in
        if code =? NotLeaderForPartition then
          match d with
          | O => stay s
          | S d => match move resp s with (true, s) => redirecting d n s | (false, s) => stay s end
          end
        else stay s
      end
    end.

Definition list_offsets_code (resp : Response) : option Z :=
  match resp with Response.ListOffsets c _ _ => Some c | Response.Error c _ => Some c | _ => None end.

Definition list_offsets_at_isolated (topic : string) (partitions : list Z) (timestamp_ms isolation : Z) (s : CS)
    : result (string * list OffsetListing) * CS :=
  let move (_ : Response) (s : CS) :=
    match redirect_to_leader topic (default 0 (head partitions)) s with (Ok _, s) => (true, s) | (Err _, s) => (false, s) end in
  let! (resp, s) := led list_offsets_code move (Request.ListOffsets topic partitions timestamp_ms isolation) (redirects s) (retries s) s in
  (reply "list_offsets" (λ r, match r with Response.ListOffsets c t es => Some (c, (t, es)) | _ => None end) resp, s).

Definition list_offsets_at (topic : string) (partitions : list Z) (timestamp_ms : Z) (s : CS) :=
  list_offsets_at_isolated topic partitions timestamp_ms 0 s.
Definition list_offsets (topic : string) (partitions : list Z) (s : CS) := list_offsets_at topic partitions (-1) s.
Definition list_offsets_committed (topic : string) (partitions : list Z) (s : CS) :=
  list_offsets_at_isolated topic partitions (-1) 1 s.

Definition delete_records_code (resp : Response) : option Z :=
  match resp with Response.DeleteRecords c _ _ _ => Some c | Response.Error c _ => Some c | _ => None end.

(** Only a redirection that changes the address counts. *)
Definition delete_records_with_wait_flag (topic : string) (partition before_offset wait_majority : Z) (s : CS)
    : result (string * Z * Z) * CS :=
  let move (resp : Response) (s : CS) :=
    let '(t, p) := match resp with Response.DeleteRecords _ t p _ => (t, p) | _ => (topic, partition) end in
    let before := current_addr s.1 in
    match redirect_to_leader t p s with
    | (Ok _, s) => (negb (String.eqb (current_addr s.1) before), s)
    | (Err _, s) => (false, s)
    end in
  let! (resp, s) := led delete_records_code move (Request.DeleteRecords topic partition before_offset wait_majority)
                        (redirects s) (retries s) s in
  (reply "delete_records" (λ r, match r with Response.DeleteRecords c t p low => Some (c, (t, p, low)) | _ => None end) resp, s).

Definition delete_records (topic : string) (partition before_offset : Z) (s : CS) : result (string * Z * Z) * CS :=
  delete_records_with_wait_flag topic partition before_offset (delete_records_wait (cfg s)) s.

(** *** Groups *)

Record JoinGroupResult := mkJoinResult {
  jr_generation : Z;
  jr_member_id : string;
  jr_assignment : list Assignment;
  jr_revoked : list Assignment;
  jr_members : list string;
}.

Definition join_code (resp : Response) : option (Z * option Z) :=
  match resp with
  | Response.JoinGroup c _ _ _ _ _ => Some (c, None)
  | Response.Error c m => Some (c, parse_controller_id m)
  | _ => None
  end.

(** A first join names itself, so that it can be sent again. *)
Definition join_group_with_instance (group_id member_id : string) (session_timeout_ms : Z) (topics : list string)
    (group_instance_id : string) (s : CS) : result JoinGroupResult * CS :=
  let '(member_id, s) :=
    if String.eqb member_id "" && String.eqb group_instance_id ""
    then let '(id, w) := draw_uuid s.2 in (id, (s.1, w)) else (member_id, s) in
  let req := Request.JoinGroup group_id member_id session_timeout_ms topics group_instance_id 0 in
  let! (resp, s) :=
    (if String.eqb member_id "" && String.eqb group_instance_id "" then call req s
     else controlled join_code is_join_retryable_error_code req (redirects s) (retries s) s) in
  (reply "join_group"
     (λ r, match r with Response.JoinGroup c g m a rv ms => Some (c, mkJoinResult g m a rv ms) | _ => None end) resp, s).

Definition heartbeat_code (resp : Response) : option (Z * option Z) :=
  match resp with
  | Response.Heartbeat c => Some (c, None)
  | Response.Error c m => Some (c, parse_controller_id m)
  | _ => None
  end.

(** The code of the answer is the result. *)
Definition heartbeat (group_id member_id : string) (generation : Z) (s : CS) : result Z * CS :=
  let! (resp, s) := controlled heartbeat_code is_transient_error_code (Request.Heartbeat group_id member_id generation)
                               (redirects s) (retries s) s in
  (match resp with
   | Response.Heartbeat c => Ok c
   | Response.Error c m => Err (error_from_code c m)
   | _ => Err (unexpected "heartbeat")
   end, s).

Definition needs_rebalance (error_code : Z) : bool :=
  (error_code =? RebalanceInProgress) || (error_code =? IllegalGeneration) || (error_code =? UnknownMemberId).

Definition sync_code (resp : Response) : option (Z * option Z) :=
  match resp with
  | Response.SyncGroup c _ => Some (c, None)
  | Response.Error c m => Some (c, parse_controller_id m)
  | _ => None
  end.

Definition sync_group (group_id member_id : string) (generation : Z) (s : CS) : result (list Assignment) * CS :=
  let! (resp, s) := controlled sync_code is_transient_error_code (Request.SyncGroup group_id member_id generation [])
                               (redirects s) (retries s) s in
  (reply "sync_group" (λ r, match r with Response.SyncGroup c a => Some (c, a) | _ => None end) resp, s).

(** A member that is unknown has left. *)
Definition leave_code (resp : Response) : option (Z * option Z) :=
  match resp with
  | Response.LeaveGroup c => if c =? UnknownMemberId then None else Some (c, None)
  | Response.Error c m => if c =? UnknownMemberId then None else Some (c, parse_controller_id m)
  | _ => None
  end.

Definition leave_group (group_id member_id : string) (s : CS) : result unit * CS :=
  let! (resp, s) := controlled leave_code is_transient_error_code (Request.LeaveGroup group_id member_id)
                               (redirects s) (retries s) s in
  (match resp with
   | Response.LeaveGroup c => if c =? UnknownMemberId then Ok tt else check_ok c "leave_group"
   | Response.Error c m => if c =? UnknownMemberId then Ok tt else Err (error_from_code c m)
   | _ => Err (unexpected "leave_group")
   end, s).

Definition describe_list_code (resp : Response) : option (Z * option Z) :=
  match resp with
  | Response.Error c m => Some (c, parse_controller_id m)
  | Response.DescribeGroup c _ _ _ | Response.ListGroups c _ => Some (c, None)
  | _ => None
  end.

Definition describe_list_groups_round_trip (req : Request) (s : CS) : result Response * CS :=
  controlled describe_list_code is_transient_error_code req (redirects s) (retries s) s.

Definition describe_group (group_id : string) (s : CS) : result (string * Z * list GroupMemberInfo) * CS :=
  let! (resp, s) := describe_list_groups_round_trip (Request.DescribeGroup group_id) s in
  (reply "describe_group" (λ r, match r with Response.DescribeGroup c g gen ms => Some (c, (g, gen, ms)) | _ => None end) resp, s).

Definition list_groups (s : CS) : result (list GroupListing) * CS :=
  let! (resp, s) := describe_list_groups_round_trip Request.ListGroups s in
  (reply "list_groups" (λ r, match r with Response.ListGroups c gs => Some (c, gs) | _ => None end) resp, s).

(** *** Offsets *)

Definition offset_admin_code (resp : Response) : option (Z * option Z) :=
  match resp with
  | Response.Error c m => Some (c, parse_controller_id m)
  | Response.OffsetCommit c | Response.OffsetFetch c _ | Response.DeleteOffsets c _ => Some (c, None)
  | _ => None
  end.

Definition offset_admin_round_trip (req : Request) (s : CS) : result Response * CS :=
  controlled offset_admin_code is_transient_error_code req (redirects s) (retries s) s.

Definition commit_offsets (group_id member_id : string) (generation : Z) (entries : list OffsetCommitEntry) (s : CS)
    : result unit * CS :=
  let! (resp, s) := offset_admin_round_trip (Request.OffsetCommit group_id member_id generation entries) s in
  (reply "commit_offsets" (λ r, match r with Response.OffsetCommit c => Some (c, tt) | _ => None end) resp, s).

Definition fetch_offsets (group_id : string) (entries : list OffsetEntry) (s : CS) : result (list OffsetFetchEntry) * CS :=
  let! (resp, s) := offset_admin_round_trip (Request.OffsetFetch group_id entries) s in
  (reply "fetch_offsets" (λ r, match r with Response.OffsetFetch c es => Some (c, es) | _ => None end) resp, s).

Definition fetch_offsets_for_topic (group_id topic : string) (s : CS) : result (list OffsetFetchEntry) * CS :=
  let! (es, s) := fetch_offsets group_id [] s in
  (Ok (List.filter (λ e, String.eqb (ofe_topic e) topic) es), s).

Definition delete_offsets (group_id : string) (entries : list OffsetEntry) (s : CS) : result Z * CS :=
  let! (resp, s) := offset_admin_round_trip (Request.DeleteOffsets group_id entries) s in
  (reply "delete_offsets" (λ r, match r with Response.DeleteOffsets c n => Some (c, n) | _ => None end) resp, s).

End client.
