(* ===== verification/Dispatch.v ===== *)
(** * The native request handlers: [handle_request] of [net/dispatch.rs]

    The requests that produce, read, coordinate groups and run transactions,
    each as the handler composes the operations of the broker; with
    [select_partition] and [list_offsets_isolated] of [broker/topics.rs].  What
    happens to the broker while a handler sleeps is a parameter, and the
    fan-outs to other brokers are left out. *)

From Stdlib Require Import Strings.String.
From S2P Require Import Prelude Bytes Core Record SparseIndex Segment GroupCommit PartitionLog BrokerLog Messages Request Response Assignor OffsetStore Group Cluster Broker Txn TxnRecovery Replication.
#[local] Open Scope Z_scope.

(** ** [murmur2] *)

Definition byte_at (data : bytes) (i : nat) : Z := match data !! i with Some c => byte_val c | None => 0 end.

Definition word_at (data : bytes) (i : nat) : Z :=
  let i4 := (i * 4)%nat in
  Z.lor (Z.lor (Z.lor (byte_at data i4) (Z.shiftl (byte_at data (i4 + 1)) 8)) (Z.shiftl (byte_at data (i4 + 2)) 16))
    (Z.shiftl (byte_at data (i4 + 3)) 24).

Definition wrapping_mul (a b : Z) : Z := as_u32 (a * b).

Definition murmur_step (data : bytes) (h : Z) (i : nat) : Z :=
  let k := wrapping_mul (word_at data i) 0x5bd1e995 in
  let k := Z.lxor k (Z.shiftr k 24) in
  let k := wrapping_mul k 0x5bd1e995 in
  Z.lxor (wrapping_mul h 0x5bd1e995) k.

Definition murmur2 (data : bytes) : Z :=
  let n := length data in
  let h := foldl (murmur_step data) (Z.lxor 0x9747b28c (as_u32 (zlen data))) (seq 0 (n / 4)) in
  let rem := (n mod 4)%nat in
  let offset := (n / 4 * 4)%nat in
  let h := if bool_decide (rem = 3%nat) then Z.lxor h (Z.shiftl (byte_at data (offset + 2)) 16) else h in
  let h := if bool_decide (2 ≤ rem)%nat then Z.lxor h (Z.shiftl (byte_at data (offset + 1)) 8) else h in
  let h := if bool_decide (1 ≤ rem)%nat then wrapping_mul (Z.lxor h (byte_at data offset)) 0x5bd1e995 else h in
  let h := Z.lxor h (Z.shiftr h 13) in
  let h := wrapping_mul h 0x5bd1e995 in
  Z.lxor h (Z.shiftr h 15).

Section dispatch.
Context {L : Type} `{LogStore L} `{IterOrder}.
Implicit Types (b : Broker L).

(** [offsets.root] of the coordinator. *)
Context (root : path).

(** ** Routing *)

Definition partition_count (topic : string) b : result Z :=
  match (c ← b_cluster b; as_topics (assignment c) !! topic) with
  | Some t => Ok (as_u32 (Z.of_nat (base.size (ta_partitions t))))
  | None =>
    match b_topics b !! topic with
    | Some t => Ok (as_u32 (Z.of_nat (base.size (t_partitions t))))
    | None => Err (NotFound ("topic " ++ topic))
    end
  end.

Definition partition_count_opt (topic : string) b : option nat :=
  match partition_count topic b with Ok n => Some (Z.to_nat n) | Err _ => None end.

Definition select_partition (topic : string) (key : option bytes) b : result Z * Broker L :=
  match partition_count topic b with
  | Err e => (Err e, b)
  | Ok n =>
    if n =? 0 then (Err (InvalidArgument "topic has zero partitions"), b) else
    match key with
    | Some k => (Ok (Z.rem (Z.land (murmur2 k) 0x7fffffff) n), b)
    | None =>
      let c := default 0 (rr_counters (b_meta b) !! topic) in
      (Ok (as_u32 (Z.rem c n)), map_meta (λ m, set_rr_counters (<[topic := u64_wrapping_add c 1]> (rr_counters m)) m) b)
    end
  end.

(** ** Produce *)

(** The broker at the end of a wait for the watermark, and whether the
    watermark got there before the deadline. *)
Context (await_hwm : string → Z → Z → Broker L → bool * Broker L).

Definition message_of_wire (m : ProduceMessage) : Message :=
  mkMessage (pm_key m) (pm_value m) (if pm_timestamp_ms m <? 0 then None else Some (pm_timestamp_ms m)) (pm_headers m).

Definition produce_reply (topic : string) (p base count code : Z) : Response := Response.Produce topic p base count code.

Definition produce_transactional (topic : string) (p pid epoch seq : Z) (messages : list Message) (now : Z) b
    : Response * Broker L :=
  match buffer_txn_produce pid epoch topic p seq messages now b with
  | (Reject code, b) => (produce_reply topic p 0 0 code, b)
  | (Duplicate base count, b) => (produce_reply topic p base count 0, b)
  | (Accept base, b) => (produce_reply topic p base (as_u32 (zlen messages)) 0, b)
  end.

(** After the append: wait for the in-sync replicas, flush, and enter the
    sequence number unless the wait failed. *)
Definition produce_settle (topic : string) (p acks pid epoch seq : Z) (rs : list LogRecord) (error_code now : Z) b
    : result Response * Broker L :=
  let base := first_offset rs in
  let count := as_u32 (zlen rs) in
  let '(final, b) :=
    if (acks =? 255) && bool_decide (is_Some (b_cluster b)) && (0 <? count)
    then let '(reached, b) := await_hwm topic p (base + count) b in (if reached then error_code else TimeoutError, b)
    else (error_code, b) in
  let '(flushed, b) := if negb (acks =? 0) && negb (b_group_commit b) then flush topic p now b else (Ok tt, b) in
  match flushed with
  | Err e => (Err e, b)
  | Ok _ =>
    (Ok (produce_reply topic p base count final),
     if final =? 0 then record_idempotent_produce pid epoch topic p seq count base b else b)
  end.

Definition produce_idempotent (topic : string) (p acks pid epoch seq : Z) (messages : list Message) (now : Z) b
    : result Response * Broker L :=
  match check_idempotent_produce pid epoch topic p seq (as_u32 (zlen messages)) b with
  | Reject code => (Ok (produce_reply topic p 0 0 code), b)
  | Duplicate base count => (Ok (produce_reply topic p base count 0), b)
  | Accept _ =>
    match produce_with_acks topic p messages acks now b with
    | (Err e, b) => (Err e, b)
    | (Ok (rs, code), b) =>
      if (code =? NotLeaderForPartition) || (code =? NotEnoughReplicas) then (Ok (produce_reply topic p 0 0 code), b)
      else produce_settle topic p acks pid epoch seq rs code now b
    end
  end.

Definition handle_produce_request (topic : string) (partition acks : Z) (wire : list ProduceMessage)
    (pid epoch seq now : Z) b : result Response * Broker L :=
  match wire with
  | [] => (Err (InvalidArgument "empty produce batch"), b)
  | m :: _ =>
    let! (p, b) := (if partition <? 0 then select_partition topic (pm_key m) b else (Ok (as_u32 partition), b)) in
    if bool_decide (is_Some (b_cluster b)) && partition_exists topic p b && negb (is_partition_leader topic p b)
    then (Ok (produce_reply topic p 0 0 NotLeaderForPartition), b) else
    let messages := map message_of_wire wire in
    if negb (pid =? 0) && (0 <=? seq) && is_transactional_producer pid b
    then let '(r, b) := produce_transactional topic p pid epoch seq messages now b in (Ok r, b)
    else produce_idempotent topic p acks pid epoch seq messages now b
  end.

(** ** Fetch *)

(** Not asked to wait. *)
Definition handle_fetch_request (topic : string) (partition from max_messages : Z) (group_id member_id : string) (now : Z) b
    : result Response * Broker L :=
  let refused code := (Ok (Response.Fetch topic partition 0 code []), b) in
  match (if negb (String.eqb group_id "") && negb (String.eqb member_id "")
         then member_owns group_id member_id topic (Z.to_nat partition) (b_groups b) else Allow) with
  | UnknownMember => refused UnknownMemberId
  | NotAssigned => refused RebalanceInProgress
  | Allow =>
    let! (rs, b) := fetch topic partition from max_messages now b in
    let hwm := match high_watermark topic partition b with Ok h => h | Err _ => 0 end in
    (Ok (Response.Fetch topic partition hwm 0 (map fetch_record_of rs)), b)
  end.

(** ** Offsets by time *)

(** The scans read 512 records at a time; each round moves the cursor. *)
Fixpoint scan_at_or_after (fuel : nat) (timestamp_ms cursor end_ : Z) (log : L) : result (option Z) :=
  match fuel with
  | O => Ok None
  | S fuel =>
    if cursor <? end_ then
      let? batch := ls_read cursor 512 log in
      match List.find (λ r, timestamp_ms <=? rec_timestamp_ms r) batch, last batch with
      | _, None => Ok None
      | Some r, _ => Ok (Some (rec_offset r))
      | None, Some r =>
        let next := u64_saturating_add (rec_offset r) 1 in
        if next <=? cursor then Ok None else scan_at_or_after fuel timestamp_ms next end_ log
      end
    else Ok None
  end.

Definition first_offset_at_or_after (timestamp_ms : Z) (log : L) : result (option Z) :=
  if ls_end log <=? ls_start log then Ok None
  else scan_at_or_after (Z.to_nat (ls_end log - ls_start log)) timestamp_ms (ls_start log) (ls_end log) log.

Definition LIST_OFFSETS_EARLIEST : Z := -2.
Definition LIST_OFFSETS_READ_COMMITTED : Z := 1.

(** The partitions asked for, or all of the topic. *)
Definition listed_partitions (topic : string) (partitions : list Z) b : result (list Z) :=
  match partitions with
  | _ :: _ => Ok partitions
  | [] =>
    match b_cluster b with
    | Some c =>
      match as_topics (Broker.assignment c) !! topic with
      | Some t => Ok (merge_sort Z.le (map fst (reorder (map_to_list (ta_partitions t)))))
      | None => Err (NotFound ("topic " ++ topic))
      end
    | None =>
      match b_topics b !! topic with
      | Some t => Ok (merge_sort Z.le (map fst (reorder (map_to_list (t_partitions t)))))
      | None => Err (NotFound ("topic " ++ topic))
      end
    end
  end.

Definition list_one (topic : string) (timestamp_ms pid : Z) b : result (Z * Z * Z) :=
  match (t ← b_topics b !! topic; t_partitions t !! pid) with
  | None => Ok (pid, 0, 0)
  | Some part =>
    let earliest := ls_start (p_log part) in
    let? latest :=
      (if timestamp_ms =? LIST_OFFSETS_LATEST then Ok (leo part)
       else if timestamp_ms =? LIST_OFFSETS_EARLIEST then Ok earliest
       else let? found := first_offset_at_or_after timestamp_ms (p_log part) in Ok (default (leo part) found)) in
    Ok (pid, earliest, latest)
  end.

Fixpoint list_each (topic : string) (timestamp_ms : Z) (pids : list Z) b : result (list (Z * Z * Z)) :=
  match pids with
  | [] => Ok []
  | pid :: pids =>
    let? e := list_one topic timestamp_ms pid b in
    let? es := list_each topic timestamp_ms pids b in Ok (e :: es)
  end.

(** Read committed: nothing at or above the last stable offset. *)
Fixpoint cap_at_lso (topic : string) (timestamp_ms now : Z) (es : list (Z * Z * Z)) b : list (Z * Z * Z) * Broker L :=
  match es with
  | [] => ([], b)
  | (pid, earliest, latest) :: es =>
    let '(lso, b) := last_stable_offset topic pid now b in
    let latest := if timestamp_ms =? LIST_OFFSETS_LATEST then lso
                  else if 0 <=? timestamp_ms then Z.min latest lso else latest in
    let '(es, b) := cap_at_lso topic timestamp_ms now es b in
    ((pid, earliest, latest) :: es, b)
  end.

Definition list_offsets_isolated (topic : string) (partitions : list Z) (timestamp_ms isolation now : Z) b
    : result (list (Z * Z * Z)) * Broker L :=
  if timestamp_ms <? LIST_OFFSETS_EARLIEST then (Err (InvalidArgument "invalid list offsets timestamp"), b) else
  if LIST_OFFSETS_READ_COMMITTED <? isolation then (Err (InvalidArgument "invalid list offsets isolation"), b) else
  match listed_partitions topic partitions b with
  | Err e => (Err e, b)
  | Ok pids =>
    let known := match b_cluster b with
                 | Some c => bool_decide (is_Some (as_topics (Broker.assignment c) !! topic))
                 | None => bool_decide (is_Some (b_topics b !! topic))
                 end in
    if negb known then (Err (NotFound ("topic " ++ topic)), b) else
    match list_each topic timestamp_ms pids b with
    | Err e => (Err e, b)
    | Ok es =>
      if isolation =? LIST_OFFSETS_READ_COMMITTED
      then let '(es, b) := cap_at_lso topic timestamp_ms now es b in (Ok es, b)
      else (Ok es, b)
    end
  end.

Definition handle_list_offsets_request (topic : string) (partitions : list Z) (timestamp_ms isolation now : Z) b
    : result Response * Broker L :=
  match list_offsets_isolated topic partitions timestamp_ms isolation now b with
  | (Ok es, b) => (Ok (Response.ListOffsets 0 topic (map (λ e, mkOffsetListing e.1.1 e.1.2 e.2) es)), b)
  | (Err (NotFound _), b) => (Ok (Response.ListOffsets NotFoundError topic []), b)
  | (Err (InvalidArgument _), b) => (Ok (Response.ListOffsets InvalidArg topic []), b)
  | (Err e, b) => (Err e, b)
  end.

(** ** Groups and offsets *)

Definition wire_assignment (tp : TopicPartition) : Assignment := Messages.mkAssignment tp.1 (Z.of_nat tp.2).

Definition join_reply (r : JoinResult) : Response :=
  Response.JoinGroup (jr_error_code r) (jr_generation r) (jr_member_id r) (map wire_assignment (jr_assignment r))
    (map wire_assignment (jr_revoked r)) (jr_members r).

(** A join that has to wait is answered when it is resumed. *)
Definition handle_join_request (now : Z) (uuid : string) (rq : JoinRequest) b : (Response + Waiter) * Broker L :=
  match join now uuid rq (λ t, partition_count_opt t b) (b_groups b) with
  | (JoinDone r, co) => (inl (join_reply r), set_groups co b)
  | (JoinParked w, co) => (inr w, set_groups co b)
  end.

Definition handle_heartbeat_request (now : Z) (group_id member_id : string) (generation : Z) b : Response * Broker L :=
  let '(code, co) := Group.heartbeat now group_id member_id generation (b_groups b) in
  (Response.Heartbeat code, set_groups co b).

Definition handle_sync_request (now : Z) (group_id member_id : string) (generation : Z) (assignment_bytes : bytes) b
    : Response * Broker L :=
  let applied := match decode_native_assignment_list assignment_bytes with
                 | Some parts => [(member_id, parts)]
                 | None => []
                 end in
  let '(r, co) := sync_group_with_assignments now group_id member_id generation applied (b_groups b) in
  (if negb (sr_error_code r =? 0) then Response.SyncGroup (sr_error_code r) []
   else Response.SyncGroup 0 (map wire_assignment (sr_assignment r)), set_groups co b).

Definition handle_leave_request (group_id member_id : string) b : Response * Broker L :=
  let '(code, co) := Group.leave group_id member_id (λ t, partition_count_opt t b) (b_groups b) in
  (Response.LeaveGroup code, set_groups co b).

Definition handle_offset_commit_request (group_id member_id : string) (generation : Z) (entries : list OffsetCommitEntry) b
    : result Response * Broker L :=
  let '(r, co) := commit_offsets root group_id member_id generation
    (map (λ e, (oce_topic e, oce_partition e, oce_offset e, oce_metadata e)) entries) (b_groups b) in
  (match r with Ok code => Ok (Response.OffsetCommit code) | Err e => Err e end, set_groups co b).

Definition handle_offset_fetch_request (group_id : string) (entries : list OffsetEntry) b : result Response * Broker L :=
  (match fetch_offsets root group_id (map (λ e, (oe_topic e, oe_partition e)) entries) (b_groups b) with
   | Err e => Err e
   | Ok es => Ok (Response.OffsetFetch 0 (map (λ e, mkOffsetFetchEntry (so_topic e) (so_partition e) (so_offset e) (so_metadata e)) es))
   end, b).

Definition handle_delete_offsets_request (group_id : string) (entries : list OffsetEntry) b : result Response * Broker L :=
  let '(r, co) := delete_offsets root group_id (map (λ e, (oe_topic e, oe_partition e)) entries) (b_groups b) in
  (match r with Ok n => Ok (Response.DeleteOffsets 0 n) | Err e => Err e end, set_groups co b).

Definition handle_describe_group_request (group_id : string) b : Response :=
  match describe_group group_id (b_groups b) with
  | Some d =>
    Response.DescribeGroup 0 (gd_group_id d) (gd_generation d)
      (map (λ m, mkGroupMemberInfo (gmd_member_id m) (gmd_topics m) (map wire_assignment (gmd_assignment m))) (gd_members d))
  | None => Response.DescribeGroup NotFoundError group_id 0 []
  end.

Definition handle_list_groups_request b : Response :=
  Response.ListGroups 0
    (map (λ g, mkGroupListing (gle_group_id g) (gle_state g) (gle_member_count g) (gle_generation g)) (list_groups root (b_groups b))).

(** ** Transactions *)

Definition handle_init_request (tid : string) (now : Z) b : Response * Broker L :=
  let '(r, b) := init_producer_id_with_opts tid false false 0 now b in
  (Response.InitProducerId (ir_producer_id r) (ir_epoch r) 0, b).

Definition handle_begin_request (pid epoch now : Z) b : Response * Broker L :=
  let '(code, b) := begin_txn pid epoch now b in (Response.BeginTxn code, b).

Definition handle_end_request (pid epoch : Z) (committed : bool) (offsets : list TxnOffsetCommit) (now : Z) b
    : Response * Broker L :=
  let '(code, results, b) := end_txn root pid epoch committed
    (map (λ o, (toc_group_id o, toc_topic o, toc_partition o, toc_offset o, toc_metadata o)) offsets) now b in
  (Response.EndTxn code
     (map (λ r, mkTxnProduceResult (cr_topic r) (cr_partition r) (cr_base_offset r) (cr_count r)) results), b).

(** ** [handle_request] *)

(** A join that is parked, and the requests of the other components. *)
Context (resume_join : Waiter → Broker L → result Response * Broker L).
Context (other : Request → Z → Broker L → result Response * Broker L).

Definition ok (p : Response * Broker L) : result Response * Broker L := (Ok p.1, p.2).

Definition handle_request (now : Z) (uuid : string) (req : Request) b : result Response * Broker L :=
  match req with
  | Request.Produce t p acks ms pid ep seq => handle_produce_request t p acks ms pid ep seq now b
  | Request.Fetch t p from mm _ _ g m => handle_fetch_request t p from mm g m now b
  | Request.JoinGroup g m st ts inst rt =>
    match handle_join_request now uuid (mkJoinRequest g m st rt ts inst) b with
    | (inl r, b) => (Ok r, b)
    | (inr w, b) => resume_join w b
    end
  | Request.Heartbeat g m gen => ok (handle_heartbeat_request now g m gen b)
  | Request.SyncGroup g m gen bs => ok (handle_sync_request now g m gen bs b)
  | Request.LeaveGroup g m => ok (handle_leave_request g m b)
  | Request.OffsetCommit g m gen es => handle_offset_commit_request g m gen es b
  | Request.OffsetFetch g es => handle_offset_fetch_request g es b
  | Request.DeleteOffsets g es => handle_delete_offsets_request g es b
  | Request.DescribeGroup g => (Ok (handle_describe_group_request g b), b)
  | Request.ListGroups => (Ok (handle_list_groups_request b), b)
  | Request.ListOffsets t ps ts iso => handle_list_offsets_request t ps ts iso now b
  | Request.InitProducerId tid => ok (handle_init_request tid now b)
  | Request.BeginTxn pid ep => ok (handle_begin_request pid ep now b)
  | Request.EndTxn pid ep c os => ok (handle_end_request pid ep c os now b)
  | _ => other req now b
  end.

End dispatch.

(** * The request handlers: properties

    The client and the broker route a key alike; an offset is found by its
    time; an answer of [Timeout] does not mean that the batch was refused. *)

From S2P Require Import SegmentProps PartitionLogProps Scram Client TxnProps ProduceProps.
#[local] Open Scope Z_scope.

(** ** Routing *)

Lemma byte_at_app pre data i : byte_at (pre ++ data) (length pre + i) = byte_at data i.
Proof. unfold byte_at. rewrite lookup_app_r by lia. by replace (length pre + i - length pre)%nat with i by lia. Qed.

Lemma word_at_app pre data i j : length pre = (4 * j)%nat → word_at (pre ++ data) (j + i) = word_at data i.
Proof.
  intros Hl. unfold word_at. replace ((j + i) * 4)%nat with (length pre + i * 4)%nat by lia.
  rewrite <- !Nat.add_assoc, !byte_at_app. done.
Qed.

(** The words left, and the bytes after them, by either formulation. *)
Lemma murmur_words_spec n : ∀ data pre j h, (length data < n)%nat → length pre = (4 * j)%nat →
  murmur_words h data =
  (foldl (murmur_step (pre ++ data)) h (seq j (length data / 4)), drop (length data / 4 * 4) data).
Proof.
  induction n as [|n IH]; intros data pre j h Hn Hl; [lia|].
  destruct data as [|a [|b [|c [|d rest]]]]; [done..|]. cbn [murmur_words].
  assert (Hd : (length (a :: b :: c :: d :: rest) / 4 = S (length rest / 4))%nat).
  { cbn [length]. replace (S (S (S (S (length rest))))) with (length rest + 1 * 4)%nat by lia. rewrite Nat.div_add by lia. lia. }
  rewrite (IH rest (pre ++ [a; b; c; d]) (S j)) by (rewrite ?length_app; cbn [length] in *; lia).
  rewrite Hd. cbn [seq foldl]. rewrite <- app_assoc. cbn [app]. f_equal. f_equal. unfold murmur_step, murmur_mix.
  replace (word_at (pre ++ a :: b :: c :: d :: rest) j) with (word_at (a :: b :: c :: d :: rest) 0) by (rewrite <- (word_at_app pre _ 0 j Hl); f_equal; lia). done.
Qed.

Lemma murmur_tail_spec h data :
  murmur_tail h (drop (length data / 4 * 4) data) =
  let rem := (length data mod 4)%nat in
  let offset := (length data / 4 * 4)%nat in
  let h := if bool_decide (rem = 3%nat) then Z.lxor h (Z.shiftl (byte_at data (offset + 2)) 16) else h in
  let h := if bool_decide (2 ≤ rem)%nat then Z.lxor h (Z.shiftl (byte_at data (offset + 1)) 8) else h in
  if bool_decide (1 ≤ rem)%nat then wrapping_mul (Z.lxor h (byte_at data offset)) 0x5bd1e995 else h.
Proof.
  cbv zeta. pose proof (Nat.div_mod_eq (length data) 4) as Hdm. pose proof (Nat.mod_upper_bound (length data) 4 ltac:(lia)) as Hb.
  set (o := (length data / 4 * 4)%nat) in *. set (r := (length data mod 4)%nat) in *.
  assert (Hlen : length data = (o + r)%nat) by lia.
  assert (Hr : length (drop o data) = r) by (rewrite length_drop; lia).
  assert (Hat : ∀ i, byte_at data (o + i) = byte_at (drop o data) i) by (intros i; unfold byte_at; by rewrite lookup_drop).
  assert (Hat0 : byte_at data o = byte_at (drop o data) 0) by (rewrite <- Hat; f_equal; lia). rewrite !Hat, Hat0. clear Hat Hat0.
  destruct (drop o data) as [|x [|y [|z [|u l]]]]; cbn [length] in Hr; clearbody r o; subst r; try done. lia.
Qed.

Lemma murmur_same data : murmur2 data = client_murmur2 data.
Proof.
  unfold murmur2, client_murmur2. rewrite (murmur_words_spec (S (length data)) data [] 0) by (done || lia). cbn [app].
  rewrite murmur_tail_spec. done.
Qed.

Section routing.
Context {L W : Type} `{LogStore L} `{Network W} `{ScramCrypto}.

(** C34: A keyed message goes where it belongs, whoever decides: from metadata that
    lists the partitions of the topic, the client pins it to the partition that
    the broker selects for it, and there is such a partition. *)
Theorem client_routes_as_broker t k (s s' : Client * W) meta ti (b : Broker L) :
  metadata s = (Ok meta, s') → List.find (λ x, String.eqb (ti_name x) t) (md_topics meta) = Some ti →
  partition_count t b = Ok (as_u32 (zlen (ti_partitions ti))) → as_u32 (zlen (ti_partitions ti)) ≠ 0 →
  ∃ q, resolve_partition t (Some k) s = (Ok q, s') ∧ select_partition t (Some k) b = (Ok q, b) ∧
    0 ≤ q < as_u32 (zlen (ti_partitions ti)).
Proof.
  intros Hm Ht Hc Hn. set (n := as_u32 _) in *. exists (partition_for_key k n).
  assert (Hpos : 0 < n) by (assert (0 ≤ n) by (apply Z.mod_pos_bound; lia); lia).
  unfold resolve_partition, select_partition. rewrite Hm, Hc. cbn [bind_st]. rewrite Ht. fold n.
  rewrite (proj2 (Z.eqb_neq n 0) Hn). unfold partition_for_key. rewrite (proj2 (Z.eqb_neq n 0) Hn), murmur_same.
  split; [done|]. split; [done|]. apply Z.rem_bound_pos; [|done]. apply Z.land_nonneg. by right.
Qed.

End routing.

(** ** Offsets by time *)

Section by_time.
Context {L : Type} `{LogStoreLaws L}.

Lemma find_app {A} (f : A → bool) l l' : List.find f (l ++ l') = match List.find f l with Some x => Some x | None => List.find f l' end.
Proof. induction l as [|x l IH]; [done|]. cbn. by destruct (f x). Qed.

(** What is read next, after the last record of a batch. *)
Lemma next_read pre batch rest r :
  StronglySorted off_lt (pre ++ batch ++ rest) → last batch = Some r →
  filter (λ x, rec_offset r + 1 ≤ rec_offset x) (pre ++ batch ++ rest) = rest.
Proof.
  intros Hs Hl. apply last_Some in Hl as [l ->]. rewrite app_assoc in *.
  rewrite filter_app, (filter_none_below rec_offset (pre ++ l ++ [r])), app_nil_l.
  - apply filter_all. rewrite app_assoc in Hs. rewrite <- (app_assoc (pre ++ l)) in Hs. apply StronglySorted_app in Hs as (_ & _ & Hs).
    cbn in Hs. apply StronglySorted_inv in Hs as [_ Hs]. eapply Forall_impl; [exact Hs|]. intros x Hx. unfold off_lt in Hx. lia.
  - rewrite app_assoc in *. apply Forall_app. split; [|repeat constructor; lia].
    apply Forall_forall. intros x Hx. rewrite <- app_assoc in Hs.
    pose proof (StronglySorted_app_1_elem_of _ _ _ x r Hs Hx ltac:(by left)) as Hlt. unfold off_lt in Hlt. lia.
Qed.

Lemma scan_spec fuel ts (log : L) recs : ls_rep log recs → ls_room 0 log →
  ∀ pre tail cursor, recs = pre ++ tail → List.find (λ r, ts <=? rec_timestamp_ms r) pre = None →
    filter (λ r, cursor ≤ rec_offset r) recs = tail → ls_end log - cursor ≤ Z.of_nat fuel →
    scan_at_or_after fuel ts cursor (ls_end log) log = Ok (rec_offset <$> List.find (λ r, ts <=? rec_timestamp_ms r) recs).
Proof.
  intros HR Hroom. destruct (ls_offsets _ _ HR) as [_ Hoff]. pose proof (ls_sorted _ _ HR) as Hsorted. apply ls_room_end in Hroom.
  assert (Hend : ∀ pre tail cursor, recs = pre ++ tail → List.find (λ r, ts <=? rec_timestamp_ms r) pre = None →
    filter (λ r, cursor ≤ rec_offset r) recs = tail → ls_end log ≤ cursor →
    List.find (λ r, ts <=? rec_timestamp_ms r) recs = None).
  { intros pre tail cursor Hrecs Hpre Ht Hle. assert (tail = []) as ->; [|by rewrite Hrecs, app_nil_r].
    rewrite <- Ht. apply filter_none_below. eapply Forall_impl; [exact Hoff|]. intros r Hr. cbn in Hr. lia. }
  induction fuel as [|fuel IH]; intros pre tail cursor Hrecs Hpre Ht Hf; cbn [scan_at_or_after].
  { by rewrite (Hend pre tail cursor) by (done || lia). }
  destruct (Z.ltb_spec cursor (ls_end log)); [|by rewrite (Hend pre tail cursor) by (done || lia)].
  rewrite (ls_read_ok _ _ cursor 512 HR) by lia. rewrite Ht. set (batch := take _ tail).
  rewrite Hrecs at 1. rewrite find_app, Hpre. rewrite <- (take_drop (Z.to_nat 512) tail) at 1. fold batch. rewrite find_app.
  destruct (last batch) as [r|] eqn:El.
  - destruct (List.find _ batch) as [x|] eqn:Ef; [done|].
    assert (Hr : r ∈ tail) by (apply last_Some in El as [l El]; rewrite <- (take_drop (Z.to_nat 512) tail); fold batch; rewrite El; set_solver).
    assert (Hge : cursor ≤ rec_offset r) by (rewrite <- Ht in Hr; by apply list_elem_of_filter in Hr as [? _]).
    assert (Hlt : rec_offset r < ls_end log) by (eapply (Forall_forall (λ r, ls_start log ≤ rec_offset r < ls_end log)) in Hoff; [apply Hoff|]; rewrite Hrecs; set_solver).
    unfold u64_saturating_add. rewrite Z.min_l by lia. rewrite (proj2 (Z.leb_gt _ _)) by lia.
    rewrite (IH (pre ++ batch) (drop (Z.to_nat 512) tail)); [| | | |lia].
    + by rewrite Hrecs at 1; rewrite find_app, Hpre, <- (take_drop (Z.to_nat 512) tail) at 1; fold batch; rewrite find_app, Ef.
    + by rewrite <- app_assoc; unfold batch; rewrite take_drop.
    + by rewrite find_app, Hpre.
    + rewrite Hrecs in Hsorted |- *. rewrite <- (take_drop (Z.to_nat 512) tail) in Hsorted |- * at 1. fold batch in Hsorted |- *. by apply next_read.
  - apply last_None in El. assert (tail = []) as ->; [|done]. destruct tail; [done|]. by cbn in El.
Qed.

(** C35: The offset found for a time is that of the first record of the log that is
    not older, however many batches the scan has to read; and there is none
    only when all records are older. *)
Theorem first_offset_by_time ts (log : L) recs :
  ls_rep log recs → ls_room 0 log →
  first_offset_at_or_after ts log = Ok (rec_offset <$> List.find (λ r, ts <=? rec_timestamp_ms r) recs).
Proof.
  intros HR Hroom. unfold first_offset_at_or_after. destruct (ls_offsets _ _ HR) as [Hs Hoff].
  destruct (Z.leb_spec (ls_end log) (ls_start log)).
  - destruct recs as [|r recs]; [done|]. apply Forall_cons in Hoff as [Hr _]. lia.
  - apply (scan_spec _ ts log recs HR Hroom [] recs); [done|done| |lia]. apply filter_all.
    eapply Forall_impl; [exact Hoff|]. intros r Hr. cbn in Hr. lia.
Qed.

End by_time.
