(* ===== verification/ClientBroker.v ===== *)
(** * A producer and its broker, over a network that loses messages

    The client of [Client] against the handlers of [Dispatch].  A batch that is
    sent again because its answer did not come is stored once. *)

From Stdlib Require Import Strings.String.
From S2P Require Import Prelude Bytes Core Record SparseIndex Segment SegmentProps GroupCommit PartitionLog PartitionLogProps BrokerLog Messages Request Response OffsetStore Group Scram Acl Auth Client Broker Txn TxnRecovery TxnProps ProduceProps Dispatch.
#[local] Open Scope Z_scope.

(** What becomes of a request: answered, executed but its answer lost, lost. *)
Inductive Delivery :=
| Exchanged (now : Z) (uuid : string)
| ReplyLost (now : Z) (uuid : string)
| RequestLost.

Record Line (L : Type) := mkLine {
  ln_broker : Broker L;
  ln_events : list Delivery;
  ln_names : list string;
}.
Arguments mkLine {L}.
Arguments ln_broker {L}.
Arguments ln_events {L}.
Arguments ln_names {L}.

Section line.
Context {L : Type} `{LogStore L} `{IterOrder} `{ScramCrypto}.
Context (root : path) (await_hwm : string → Z → Z → Broker L → bool * Broker L).
Context (resume_join : Waiter → Broker L → result Response * Broker L).
Context (other : Request → Z → Broker L → result Response * Broker L).

Definition answer (now : Z) (uuid : string) (req : Request) (b : Broker L) : Response * Broker L :=
  match handle_request root await_hwm resume_join other now uuid req b with
  | (Ok resp, b) => (resp, b)
  | (Err e, b) => (map_error e, b)
  end.

(** When the events are used up the network is down. *)
Definition line_round_trip (req : Request) (w : Line L) : result Response * Line L :=
  match ln_events w with
  | [] => (Err (Io "connection closed"), w)
  | RequestLost :: es => (Err (Io "connection closed"), mkLine (ln_broker w) es (ln_names w))
  | Exchanged now uuid :: es =>
    let '(resp, b) := answer now uuid req (ln_broker w) in (Ok resp, mkLine b es (ln_names w))
  | ReplyLost now uuid :: es =>
    let '(_, b) := answer now uuid req (ln_broker w) in
    (Err (Io "connection closed while waiting for response"), mkLine b es (ln_names w))
  end.

Definition next_name (w : Line L) : string * Line L :=
  match ln_names w with
  | [] => (""%string, w)
  | n :: ns => (n, mkLine (ln_broker w) (ln_events w) ns)
  end.

#[export] Instance line_network : Network (Line L) := {|
  round_trip := line_round_trip;
  connect_to _ w := (Ok tt, w);
  draw_uuid := next_name;
  draw_nonce := next_name;
|}.

End line.

(** ** One batch *)

Section produce.
Context {L : Type} `{LogStoreLaws L} `{IterOrder} `{ScramCrypto}.
Context (root : path) (await_hwm : string → Z → Z → Broker L → bool * Broker L).
Context (resume_join : Waiter → Broker L → result Response * Broker L).
Context (other : Request → Z → Broker L → result Response * Broker L).
#[local] Existing Instance line_network.
#[local] Instance net : Network (Line L) := line_network root await_hwm resume_join other.

(** A time that the wire can carry. *)
Definition sendable (m : Message) : Prop := match msg_timestamp_ms m with Some t => 0 ≤ t | None => True end.

Lemma wire_roundtrip m : sendable m → message_of_wire (wire_message m) = m.
Proof.
  destruct m as [k v [t|] hs]; unfold sendable, message_of_wire, wire_message; cbn; [|done]. intros Ht. by rewrite Zltb_false by lia.
Qed.

Lemma wire_roundtrip_all ms : Forall sendable ms → map message_of_wire (map wire_message ms) = ms.
Proof. induction 1 as [|m ms Hm _ IH]; [done|]. cbn. by rewrite wire_roundtrip, IH. Qed.

(** On a single node the request is [handle_produce]. *)
Lemma request_single t p acks pid ep seq ms now (b : Broker L) :
  b_cluster b = None → 0 ≤ p < 2147483648 → ms ≠ [] → Forall sendable ms →
  handle_produce_request await_hwm t p acks (map wire_message ms) pid ep seq now b =
  match handle_produce t p acks pid ep seq ms now b with
  | (Ok r, b') => (Ok (Response.Produce t p (TxnRecovery.pr_base_offset r) (TxnRecovery.pr_count r) (pr_error_code r)), b')
  | (Err e, b') => (Err e, b')
  end.
Proof.
  intros Hc Hp Hne Hms. unfold handle_produce_request. rewrite wire_roundtrip_all by done.
  destruct ms as [|m ms]; [done|]. cbn [map]. rewrite Zltb_false by lia. cbn [bind_st]. rewrite Hc. cbn [bool_decide andb].
  assert (Hu : as_u32 p = p) by (apply Z.mod_small; lia). rewrite Hu. rewrite bool_decide_false by by intros []. cbn [andb].
  unfold handle_produce. rewrite bool_decide_false by done.
  destruct (negb (pid =? 0) && (0 <=? seq) && is_transactional_producer pid b).
  - unfold produce_transactional. by destruct (buffer_txn_produce _ _ _ _ _ _ _ _) as [[] b'].
  - unfold produce_idempotent. destruct (check_idempotent_produce _ _ _ _ _ _ _); [|done..].
    destruct (produce_with_acks t p (m :: ms) acks now b) as [[[rs code]|e] b1] eqn:E; [|done].
    apply produce_with_acks_tables in E as (_ & _ & _ & Ec & _). rewrite Hc in Ec.
    destruct (_ || _) eqn:Eo; [done|]. unfold produce_settle. rewrite Ec. rewrite bool_decide_false by by intros [].
    rewrite andb_false_r. cbn [andb].
    destruct (if negb (acks =? 0) && negb (b_group_commit b1) then flush t p now b1 else (Ok tt, b1)) as [[[]|e] b2]; [|done].
    by destruct (code =? 0).
Qed.

Lemma answer_new b t p part recs acks pid epoch seq ms now uuid last n :
  serves b t p part recs → producer_at b pid epoch t p last → pid ≠ 0 → 0 ≤ seq ≤ 2147483647 → follows last seq →
  0 ≤ p < 2147483648 → ms ≠ [] → zlen ms ≤ 2147483647 → batch_ok ms now → Forall sendable ms →
  0 ≤ n → ls_room (zlen ms + 3 + n) (p_log part) →
  ∃ part' b', answer root await_hwm resume_join other now uuid (Request.Produce t p acks (map wire_message ms) pid epoch seq) b =
      (Response.Produce t p (leo part) (zlen ms) 0, b') ∧
    serves b' t p part' (recs ++ batch_records (leo part) now ms) ∧ leo part' = leo part + zlen ms ∧
    ls_room n (p_log part') ∧ producer_at b' pid epoch t p (Some (mkBatchState seq (zlen ms) (leo part))).
Proof.
  intros SV Hq Hpid Hseq Hf Hp Hne Hlen Hms Hs Hn Hroom. unfold answer, handle_request.
  rewrite request_single by (done || by destruct SV).
  destruct (handle_new b t p part recs acks pid epoch seq ms now last n) as (part' & b' & -> & ?); try done; [lia|apply follows_accepts; [done|lia]|].
  by exists part', b'.
Qed.

Lemma answer_again b t p acks pid epoch seq ms now uuid base :
  b_cluster b = None → producer_at b pid epoch t p (Some (mkBatchState seq (zlen ms) base)) → pid ≠ 0 → 0 ≤ seq →
  0 ≤ p < 2147483648 → ms ≠ [] → zlen ms ≤ 2147483647 → Forall sendable ms →
  answer root await_hwm resume_join other now uuid (Request.Produce t p acks (map wire_message ms) pid epoch seq) b =
    (Response.Produce t p base (zlen ms) 0, b).
Proof.
  intros. unfold answer, handle_request. rewrite request_single by done. by rewrite (handle_again b t p acks pid epoch seq ms now base) by done.
Qed.

(** One turn of the loop: the network fails, or the batch is acknowledged. *)
Lemma loop_lost t acks wire pid ep seq idem d n part (c : Client) (w w' : Line L) m :
  round_trip (Request.Produce t part acks wire pid ep seq) w = (Err (Io m), w') →
  produce_loop t acks wire pid ep seq idem d n part (c, w) =
  match n with O => (Err (Io m), (c, w')) | S n => produce_loop t acks wire pid ep seq idem d n part (c, w') end.
Proof. intros E. destruct d, n; cbn; unfold call; cbn [fst snd]; by rewrite E. Qed.

Lemma loop_acked t acks wire pid ep seq idem d n part (c : Client) (w w' : Line L) t' p' base count :
  round_trip (Request.Produce t part acks wire pid ep seq) w = (Ok (Response.Produce t' p' base count 0), w') →
  produce_loop t acks wire pid ep seq idem d n part (c, w) =
  (Ok (mkProduceResult t' p' base count), advance_seq idem t' p' seq count (c, w')).
Proof. intros E. destruct d, n; cbn; unfold call; cbn [fst snd]; by rewrite E. Qed.

(** What the network does with a request, given what the broker answers. *)
Lemma line_cases req (w : Line L) :
  (∃ m es, round_trip req w = (Err (Io m), mkLine (ln_broker w) es (ln_names w)) ∧ ∀ e, e ∈ es → e ∈ ln_events w) ∨
  (∃ now uuid es, (Exchanged now uuid ∈ ln_events w ∨ ReplyLost now uuid ∈ ln_events w) ∧ (∀ e, e ∈ es → e ∈ ln_events w) ∧
    let '(resp, b) := answer root await_hwm resume_join other now uuid req (ln_broker w) in
    (round_trip req w = (Ok resp, mkLine b es (ln_names w)) ∨ ∃ m, round_trip req w = (Err (Io m), mkLine b es (ln_names w)))).
Proof.
  unfold round_trip, net, line_network, line_round_trip. destruct w as [b [|[now uuid|now uuid|] es] ns]; cbn [ln_broker ln_events ln_names].
  - left. eexists _, []. split; [done|]. by intros e ?.
  - right. exists now, uuid, es. split; [left; left|]. split; [by right|]. destruct (answer _ _ _ _ _ _ _ _). by left.
  - right. exists now, uuid, es. split; [right; left|]. split; [by right|]. destruct (answer _ _ _ _ _ _ _ _). right. by eexists.
  - left. eexists _, es. split; [done|]. by right.
Qed.

Lemma advance_pair idem t p seq n (c : Client) (w : Line L) :
  advance_seq idem t p seq n (c, w) = ((advance_seq idem t p seq n (c, w)).1, w).
Proof. unfold advance_seq. by destruct (idem && (0 <=? seq)). Qed.

Definition timed (es : list Delivery) : Prop :=
  ∀ now uuid, Exchanged now uuid ∈ es ∨ ReplyLost now uuid ∈ es → clock_ok now.

Lemma timed_sub es es' : (∀ e, e ∈ es' → e ∈ es) → timed es → timed es'.
Proof. intros Hs Ht now uuid [Hx|Hx]; apply (Ht now uuid); [left|right]; by apply Hs. Qed.

Section batch.
Context (t : string) (p acks pid ep seq : Z) (ms : list Message).
Context (Hp : 0 ≤ p < 2147483648) (Hpid : pid ≠ 0) (Hseq : 0 ≤ seq ≤ 2147483647).
Context (Hne : ms ≠ []) (Hlen : zlen ms ≤ 2147483647) (Hok : Forall message_ts_ok ms) (Hsend : Forall sendable ms).

Definition batch_loop (d n : nat) (s : Client * Line L) : result ProduceResult * (Client * Line L) :=
  produce_loop t acks (map wire_message ms) pid ep seq true d n p s.

(** How a call can end once the batch is stored at [base]: acknowledged, the
    next number noted; or not acknowledged, the client as before. *)
Definition settled (base : Z) (c : Client) (r : result ProduceResult) (c' : Client) : Prop :=
  (r = Ok (mkProduceResult t p base (zlen ms)) ∧ ∃ w, c' = (advance_seq true t p seq (zlen ms) (c, w : Line L)).1) ∨
  (∃ e, r = Err e) ∧ c' = c.

Lemma loop_stored base d n (c : Client) (w : Line L) :
  b_cluster (ln_broker w) = None → producer_at (ln_broker w) pid ep t p (Some (mkBatchState seq (zlen ms) base)) →
  ∃ r c' w', batch_loop d n (c, w) = (r, (c', w')) ∧ ln_broker w' = ln_broker w ∧
    (∀ e, e ∈ ln_events w' → e ∈ ln_events w) ∧ settled base c r c'.
Proof.
  unfold batch_loop. revert w. induction n as [|n IH]; intros w Hc Hq.
  all: destruct (line_cases (Request.Produce t p acks (map wire_message ms) pid ep seq) w)
    as [(m & es & E & Hes)|(now & uuid & es & _ & Hes & E)].
  2, 4: rewrite (answer_again _ _ _ _ _ _ _ _ _ _ base) in E by (done || lia); destruct E as [E|[m E]].
  all: try (rewrite (loop_acked _ _ _ _ _ _ _ _ _ _ _ _ _ _ _ _ _ E), advance_pair; eexists _, _, _; split; [done|];
            split; [done|]; split; [done|]; left; split; [done|]; by eexists).
  all: rewrite (loop_lost _ _ _ _ _ _ _ _ _ _ _ _ _ _ E).
  1, 2: eexists _, c, _; split; [done|]; split; [done|]; split; [done|]; right; split; [by eexists|done].
  all: destruct (IH (mkLine (ln_broker w) es (ln_names w)) Hc Hq) as (r & c' & w' & E' & Hb & Hev & Hset);
    exists r, c', w'; split; [done|]; split; [done|]; split; [|done]; intros e He; apply Hes, Hev, He.
Qed.

Lemma loop_new part recs last k d n (c : Client) (w : Line L) :
  serves (ln_broker w) t p part recs → producer_at (ln_broker w) pid ep t p last → follows last seq →
  timed (ln_events w) → 0 ≤ k → ls_room (zlen ms + 3 + k) (p_log part) →
  ∃ r c' w', batch_loop d n (c, w) = (r, (c', w')) ∧ (∀ e, e ∈ ln_events w' → e ∈ ln_events w) ∧
    ((∃ e, r = Err e) ∧ c' = c ∧ ln_broker w' = ln_broker w ∨
     ∃ now part', settled (leo part) c r c' ∧
       serves (ln_broker w') t p part' (recs ++ batch_records (leo part) now ms) ∧ leo part' = leo part + zlen ms ∧
       ls_room k (p_log part') ∧ producer_at (ln_broker w') pid ep t p (Some (mkBatchState seq (zlen ms) (leo part)))).
Proof.
  intros SV Hq Hf. unfold batch_loop. destruct w as [b es ns]. cbn [ln_broker] in SV, Hq. revert es. induction n as [|n IH]; intros es Ht Hk Hroom.
  all: destruct (line_cases (Request.Produce t p acks (map wire_message ms) pid ep seq) (mkLine b es ns))
    as [(m & es' & E & Hes)|(now & uuid & es' & Hev & Hes & E)]; cbn [ln_broker ln_events ln_names] in *.
  1: rewrite (loop_lost _ _ _ _ _ _ _ _ _ _ _ _ _ _ E); eexists _, c, _; split; [done|]; split; [done|]; left; split; [by eexists|done].
  2: rewrite (loop_lost _ _ _ _ _ _ _ _ _ _ _ _ _ _ E); destruct (IH es' (timed_sub _ _ Hes Ht) Hk Hroom) as (r & c' & w' & E' & Hsub & Hx);
    exists r, c', w'; split; [done|]; split; [intros e He; apply Hes, Hsub, He|done].
  all: destruct (answer_new b t p part recs acks pid ep seq ms now uuid last k) as (part' & b' & Ea & SV' & Hl' & Hr' & Hq');
    try done; [by split; [eapply Ht|]|]; rewrite Ea in E; destruct E as [E|[m E]].
  1, 3: rewrite (loop_acked _ _ _ _ _ _ _ _ _ _ _ _ _ _ _ _ _ E), advance_pair; eexists _, _, _; split; [done|];
    split; [done|]; right; exists now, part'; split; [left; split; [done|by eexists]|done].
  - rewrite (loop_lost _ _ _ _ _ _ _ _ _ _ _ _ _ _ E). eexists _, c, _. split; [done|]. split; [done|]. right. exists now, part'.
    split; [right; split; [by eexists|done]|done].
  - rewrite (loop_lost _ _ _ _ _ _ _ _ _ _ _ _ _ _ E).
    destruct (loop_stored (leo part) d n c (mkLine b' es' ns)) as (r & c' & w' & E' & Hb & Hsub & Hset); [by destruct SV'|done|].
    exists r, c', w'. split; [done|]. split; [intros e He; apply Hes, Hsub, He|]. right. exists now, part'. rewrite Hb. done.
Qed.

End batch.

(** ** A sequence of batches *)

(** The client has its producer id, and its next number on the partition. *)
Record numbered (c : Client) (t : string) (p pid ep seq : Z) : Prop := {
  nb_idempotent : enable_idempotence (config c) = true;
  nb_ready : initialized (idempotent c) = true;
  nb_pid : producer_id (idempotent c) = pid;
  nb_epoch : epoch (idempotent c) = ep;
  nb_seq : default 0 (next_seq (idempotent c) !! (t, p)) = seq;
}.

Lemma produce_is_loop c (w : Line L) t p acks pid ep seq ms :
  numbered c t p pid ep seq → 0 ≤ p < 2147483648 → ms ≠ [] →
  Client.produce_with_acks t (Some p) ms acks (c, w) =
  batch_loop t p acks pid ep seq ms (redirects (c, w)) (retries (c, w)) (c, w).
Proof.
  intros [Hi Hr Hpid He Hs] Hp Hne. unfold Client.produce_with_acks. destruct ms as [|m ms]; [done|].
  assert (Hid : is_idempotent (c, w) = true) by (unfold is_idempotent, cfg; cbn; by rewrite Hi). rewrite Hid.
  assert (H32 : as_i32 p = p) by (unfold as_i32, signed; rewrite Z.mod_small by lia; by rewrite Zltb_true by lia).
  assert (Hu : as_u32 p = p) by (apply Z.mod_small; lia).
  cbn [bind_st]. unfold ensure_producer_id. cbn [fst]. rewrite Hr. cbn [bind_st fst]. rewrite H32, Hu, Hpid, He, Hs. done.
Qed.

Lemma settled_numbered c c' t p pid ep seq ms base r :
  numbered c t p pid ep seq → 0 ≤ seq → seq + zlen ms ≤ 2147483647 →
  settled t p seq ms base c r c' →
  (r = Ok (mkProduceResult t p base (zlen ms)) ∧ numbered c' t p pid ep (seq + zlen ms)) ∨ ∃ e, r = Err e.
Proof.
  intros Hn Hs Hle [[-> [w ->]]|[[e ->] _]]; [left|right; by eexists]. split; [done|]. destruct Hn as [Hi Hr Hpid He _].
  pose proof (zlen_nonneg ms). unfold advance_seq. rewrite (proj2 (Z.leb_le 0 seq)) by lia. cbn [andb].
  split; try done. cbn. rewrite lookup_insert_eq. cbn. unfold as_i32, signed. rewrite Z.mod_small by lia. rewrite Zltb_true by lia. lia.
Qed.

(** Batch after batch, until a call fails. *)
Fixpoint produce_all (t : string) (p acks : Z) (batches : list (list Message)) (s : Client * Line L)
    : list ProduceResult * option Prelude.Error * (Client * Line L) :=
  match batches with
  | [] => ([], None, s)
  | ms :: batches =>
    match Client.produce_with_acks t (Some p) ms acks s with
    | (Err e, s) => ([], Some e, s)
    | (Ok r, s) => let '(rs, e, s) := produce_all t p acks batches s in (r :: rs, e, s)
    end
  end.

(** The batches with the times they were stored at. *)
Definition at_times (batches : list (list Message)) (nows : list Z) : list (list Message * nat * Z) :=
  zip_with (λ ms now, (ms, O, now)) batches nows.

Fixpoint acknowledged (t : string) (p base : Z) (batches : list (list Message)) : list ProduceResult :=
  match batches with [] => [] | ms :: batches => mkProduceResult t p base (zlen ms) :: acknowledged t p (base + zlen ms) batches end.

Fixpoint room_for (batches : list (list Message)) : Z :=
  match batches with [] => 0 | ms :: batches => zlen ms + 3 + room_for batches end.

Fixpoint messages_in (batches : list (list Message)) : Z :=
  match batches with [] => 0 | ms :: batches => zlen ms + messages_in batches end.

Lemma counts_nonneg batches : 0 ≤ room_for batches ∧ 0 ≤ messages_in batches.
Proof. induction batches as [|ms l IH]; cbn; [lia|]. pose proof (zlen_nonneg ms). lia. Qed.

(** C7: Exactly once, from the client to the log. An idempotent producer hands its
    batches to the client library one after the other, over a network that
    loses requests and answers, with whatever number of retries. The log then
    has what it had and behind it a prefix of the batches, each of them whole,
    once and in order: all those that were acknowledged, with the offsets that
    were acknowledged, and at most one more, the batch whose call failed. *)
Theorem client_exactly_once t p acks pid ep seq last part recs batches (c : Client) (w : Line L) :
  numbered c t p pid ep seq → serves (ln_broker w) t p part recs → producer_at (ln_broker w) pid ep t p last →
  follows last seq → pid ≠ 0 → 0 ≤ seq → 0 ≤ p < 2147483648 → timed (ln_events w) →
  Forall (λ ms, ms ≠ [] ∧ Forall message_ts_ok ms ∧ Forall sendable ms) batches →
  seq + messages_in batches ≤ 2147483647 → ls_room (room_for batches) (p_log part) →
  let '(rs, err, (_, w')) := produce_all t p acks batches (c, w) in
  ∃ stored nows part', length nows = stored ∧
    rs = acknowledged t p (leo part) (take (length rs) batches) ∧
    serves (ln_broker w') t p part' (recs ++ delivered (leo part) (at_times (take stored batches) nows)) ∧
    match err with
    | None => length rs = length batches ∧ stored = length batches
    | Some _ => (length rs < length batches)%nat ∧ (stored = length rs ∨ stored = S (length rs))
    end.
Proof.
  revert c w part recs seq last. induction batches as [|ms batches IH];
    intros c w part recs seq last Hn SV Hq Hf Hpid Hseq Hp Ht HF Hmax Hroom.
  { exists 0%nat, [], part. cbn. by rewrite app_nil_r. }
  apply Forall_cons in HF as [(Hne & Hok & Hsend) HF]. cbn [messages_in room_for produce_all] in *.
  destruct (counts_nonneg batches) as [Hr0 Hm0]. pose proof (zlen_nonneg ms) as Hz.
  rewrite (produce_is_loop c w t p acks pid ep seq ms) by done.
  destruct (loop_new t p acks pid ep seq ms Hp Hpid ltac:(lia) Hne ltac:(lia) Hok Hsend part recs last (room_for batches)
    (redirects (c, w)) (retries (c, w)) c w SV Hq Hf Ht Hr0 Hroom) as (r & c' & w' & -> & Hev & [([e ->] & -> & Hb)|Hst]).
  { exists 0%nat, [], part. cbn. rewrite app_nil_r, Hb. split_and!; [done|done|done|lia|by left]. }
  destruct Hst as (now & part' & Hset & SV' & Hl' & Hr' & Hq').
  destruct (settled_numbered c c' t p pid ep seq ms (leo part) r Hn Hseq ltac:(lia) Hset) as [[-> Hn']|[e ->]].
  - specialize (IH c' w' part' _ (seq + zlen ms) _ Hn' SV' Hq'). destruct (produce_all t p acks batches (c', w')) as [[rs err] [c2 w2]] eqn:Ea.
    destruct IH as (stored & nows & part2 & Hlen & Hrs & SV2 & Herr); try done; [|lia|by eapply timed_sub|lia|].
    { apply zlen_nonempty in Hne. cbn. lia. }
    exists (S stored), (now :: nows), part2. rewrite Hl' in *. split; [cbn; by rewrite Hlen|]. split; [cbn; by rewrite Hrs at 1|].
    split; [cbn; by rewrite <- app_assoc in SV2|]. destruct err; cbn; lia.
  - exists 1%nat, [now], part'. cbn. rewrite app_nil_r. split_and!; [done|done|done|lia|by right].
Qed.

(** ** The batch after a failed call

    A call that failed leaves the number of its batch to the next call. When
    the batch had been stored and only its answer was lost, another batch with
    as many messages is taken for a repetition: it is acknowledged, with the
    offset of the first, and not stored. *)
Lemma failed_call_loses_next_batch t p acks pid ep seq last part recs ms ms' now now' u u' es ns (c : Client) (b : Broker L) :
  numbered c t p pid ep seq → serves b t p part recs → producer_at b pid ep t p last → follows last seq →
  pid ≠ 0 → 0 ≤ seq ≤ 2147483647 → 0 ≤ p < 2147483648 → max_retries (config c) = 0 →
  ms ≠ [] → zlen ms ≤ 2147483647 → batch_ok ms now → Forall sendable ms → Forall sendable ms' → zlen ms' = zlen ms →
  ls_room (zlen ms + 3) (p_log part) →
  ∃ e c' b' part',
    Client.produce_with_acks t (Some p) ms acks (c, mkLine b (ReplyLost now u :: Exchanged now' u' :: es) ns) =
      (Err e, (c, mkLine b' (Exchanged now' u' :: es) ns)) ∧
    Client.produce_with_acks t (Some p) ms' acks (c, mkLine b' (Exchanged now' u' :: es) ns) =
      (Ok (mkProduceResult t p (leo part) (zlen ms')), (c', mkLine b' es ns)) ∧
    serves b' t p part' (recs ++ batch_records (leo part) now ms).
Proof.
  intros Hn SV Hq Hf Hpid Hseq Hp Hr Hne Hlen Hms Hs Hs' Hl Hroom.
  assert (Hne' : ms' ≠ []) by (intros ->; apply zlen_nonempty in Hne; by rewrite <- Hl in Hne).
  destruct (answer_new b t p part recs acks pid ep seq ms now u last 0) as (part' & b' & Ea & SV' & _ & _ & Hq'); try done.
  { eapply ls_room_mono; [exact Hroom|lia]. }
  assert (Hret : ∀ w : Line L, retries (c, w) = O) by (intros w; unfold retries, cfg; cbn; by rewrite Hr).
  eexists _, _, b', part'. split; [|split; [|done]].
  - rewrite (produce_is_loop c _ t p acks pid ep seq ms), Hret by done. unfold batch_loop.
    erewrite loop_lost; [done|]. unfold round_trip, net, line_network, line_round_trip. cbn [ln_events ln_broker]. by rewrite Ea.
  - rewrite (produce_is_loop c _ t p acks pid ep seq ms'), Hret by done. unfold batch_loop.
    erewrite loop_acked; [by rewrite advance_pair|]. unfold round_trip, net, line_network, line_round_trip. cbn [ln_events ln_broker].
    rewrite (answer_again b' t p acks pid ep seq ms' now' u' (leo part)); try done; [by destruct SV'|by rewrite Hl|lia|lia].
Qed.

End produce.

(** * The client and the broker: a concrete exchange *)

From S2P Require Import TxnWitnesses ReplicationWitnesses.
#[local] Open Scope Z_scope.

#[local] Existing Instance shop_store.
#[local] Existing Instance shop_laws.
#[local] Existing Instance order_id.
#[local] Existing Instance sum_crypto.

Definition shop_producer : Broker PartitionLog := (init_producer_id_with_opts "" false false 0 1000 shop).2.

Definition shop_client : Client :=
  mkClient (mkClientConfig ["a:1"%string] 1 128 4194304 0 0 None None None 0 1 true None 2) "a:1"
    (mkIdempotentState 1 0 true false ∅ ∅).

(** The first answer is lost, then a request. *)
Definition shop_line : Line PartitionLog :=
  mkLine shop_producer [ReplyLost 1000 ""; RequestLost; Exchanged 1001 ""; RequestLost; Exchanged 1002 ""] [].

Definition no_wait (t : string) (p target : Z) (b : Broker PartitionLog) : bool * Broker PartitionLog := (true, b).
Definition no_join (w : Waiter) (b : Broker PartitionLog) : result Response * Broker PartitionLog :=
  (Err (Io "parked"), b).
Definition no_other (r : Request) (now : Z) (b : Broker PartitionLog) : result Response * Broker PartitionLog :=
  (Err (NotImplemented "unsupported operation"), b).

Lemma orders_sendable vs : Forall sendable (map order vs).
Proof. induction vs; by constructor. Qed.

Lemma client_exactly_once_witness :
  ∃ rs part' nows,
    (produce_all [] no_wait no_join no_other "orders" 0 1 [map order [x01]; map order [x02; x03]] (shop_client, shop_line)).1 = (rs, None) ∧
    rs = [mkProduceResult "orders" 0 0 1; mkProduceResult "orders" 0 1 2] ∧
    serves (ln_broker (produce_all [] no_wait no_join no_other "orders" 0 1 [map order [x01]; map order [x02; x03]] (shop_client, shop_line)).2.2)
      "orders" 0 part' (delivered 0 (at_times [map order [x01]; map order [x02; x03]] nows)).
Proof.
  assert (SV : serves shop_producer "orders" 0 shop_part []) by (apply shop_serves; vm_compute; reflexivity).
  assert (E : (produce_all [] no_wait no_join no_other "orders" 0 1 [map order [x01]; map order [x02; x03]] (shop_client, shop_line)).1 =
    ([mkProduceResult "orders" 0 0 1; mkProduceResult "orders" 0 1 2], None)) by (vm_compute; reflexivity).
  pose proof (client_exactly_once [] no_wait no_join no_other "orders" 0 1 1 0 0 None shop_part []
    [map order [x01]; map order [x02; x03]] shop_client shop_line) as T.
  destruct (produce_all _ _ _ _ _ _ _ _ _) as [[rs err] [c' w']]. cbn [fst snd] in *. injection E as -> ->.
  destruct T as (stored & nows & part' & _ & _ & SV' & _ & ->).
  - by split.
  - exact SV.
  - eexists. split; [vm_compute; reflexivity|]. by repeat split.
  - exact I.
  - done.
  - done.
  - done.
  - intros now u [Hi|Hi]; cbn in Hi; repeat (apply elem_of_cons in Hi as [Hi|Hi]; [try discriminate; injection Hi as -> ->; done|]); by apply elem_of_nil in Hi.
  - repeat (constructor; [split; [done|split; [apply (order_ok _ 0); lia|apply orders_sendable]]|]). constructor.
  - vm_compute. discriminate.
  - apply shop_room. vm_compute. split; discriminate.
  - eexists _, part', nows. split; [done|]. split; [done|]. exact SV'.
Defined.

(** ** A retry after [Timeout]

    Broker 1 leads, broker 2 is in sync and slow: the produce with all
    acknowledgements stores its batch, waits in vain and answers [Timeout]
    without entering the sequence number.  The client takes the answer for a
    transient failure and sends the batch again, which is stored again. *)
Definition duo_producer : Broker PartitionLog := (init_producer_id_with_opts "" false false 0 1000 (duo 1)).2.

Definition slow_follower (t : string) (p target : Z) (b : Broker PartitionLog) : bool * Broker PartitionLog :=
  (match committed_hwm t p b with Ok h => target <=? h | Err _ => false end, b).

Definition retried_timeout : result ProduceResult * list (list byte) :=
  let '(r, (_, w)) :=
    Client.produce_with_acks (H := line_network [] slow_follower no_join no_other) "orders" (Some 0) [order x01] 255
      (shop_client, mkLine duo_producer [Exchanged 1000 ""; Exchanged 11000 ""; Exchanged 21000 ""] []) in
  (r, match get_partition "orders" 0 (ln_broker w) with
      | Ok part => values (ls_read 0 10 (p_log part))
      | Err _ => []
      end).

Lemma timeout_retry_stores_again : ∃ e, retried_timeout = (Err e, [[x01]; [x01]; [x01]]).
Proof. eexists. vm_compute. reflexivity. Qed.

(** ** Routing and searching *)

Definition stock : Broker PartitionLog :=
  mkBroker 0 None false {["orders"%string := mkTopic 1 "orders" {[0 := shop_part; 1 := shop_part; 2 := shop_part]}]} 0
    (mkGroupCoordinator ∅ ∅ (mkFs ∅ ∅))
    (mkTxns 1 ∅ ∅ ∅ ∅ ∅ ∅ ∅ 60000 60000 0 0 0 0) (mkTxnFiles None None None None)
    (mkMeta 2 ∅ ∅ ∅ [] 0 0 0).

Definition stock_info : TopicInfo :=
  mkTopicInfo "orders" 1 0 (map (λ p, mkPartitionInfo p 0 0 [0] [0] 0) [0; 1; 2]).

Definition stock_metadata (r : Request) (now : Z) (b : Broker PartitionLog) : result Response * Broker PartitionLog :=
  (match r with
   | Request.Metadata _ => Ok (Response.Metadata [] [stock_info] 0)
   | _ => Err (NotImplemented "unsupported operation")
   end, b).

Definition stock_line : Line PartitionLog := mkLine stock [Exchanged 1000 ""] [].

Lemma client_routes_as_broker_witness : ∃ q, select_partition "orders" (Some [x61; x62; x63; x64; x65]) stock = (Ok q, stock) ∧ 0 ≤ q < 3.
Proof.
  destruct (client_routes_as_broker (H0 := line_network [] no_wait no_join stock_metadata) "orders" [x61; x62; x63; x64; x65]
    (shop_client, stock_line) (metadata (H := line_network [] no_wait no_join stock_metadata) (shop_client, stock_line)).2
    (mkMetadata [] [stock_info] 0) stock_info stock) as (q & _ & Hq & Hb).
  - vm_compute. reflexivity.
  - reflexivity.
  - vm_compute. reflexivity.
  - discriminate.
  - exists q. split; [exact Hq|exact Hb].
Defined.

Lemma first_offset_by_time_witness :
  first_offset_at_or_after 900 (p_log duo_part_led) = Ok (Some 0).
Proof.
  refine (eq_trans (first_offset_by_time 900 (p_log duo_part_led) _ duo_led_rep _) eq_refl). split; vm_compute; first [reflexivity|discriminate].
Defined.
