(* ===== verification/ClientProps.v ===== *)
(** * The client library: its calls come to an end

    Whatever the network answers, a call sends a bounded number of requests:
    each turn of its loop spends a retry or a redirection, and a redirection a
    bounded number of requests for metadata and authentication. *)

From Stdlib Require Import Strings.String.
From S2P Require Import Prelude Bytes Text OffsetStore Messages Request Response Core Scram Client.

(** The requests are counted. *)
#[export] Instance counting {W} `{Network W} : Network (W * nat) := {|
  round_trip req w := let '(r, w') := round_trip req w.1 in (r, (w', S w.2));
  connect_to addr w := let '(r, w') := connect_to addr w.1 in (r, (w', w.2));
  draw_uuid w := let '(x, w') := draw_uuid w.1 in (x, (w', w.2));
  draw_nonce w := let '(x, w') := draw_nonce w.1 in (x, (w', w.2));
|}.

#[local] Open Scope nat_scope.

Section bounds.
Context {W : Type} `{Network W} `{ScramCrypto}.
Implicit Types (s : Client * (W * nat)).

(** At most [k] requests, and the settings as before. *)
Definition spends (k : nat) s s' : Prop := config s'.1 = config s.1 ∧ (s'.2.2 ≤ s.2.2 + k)%nat.

Lemma spends_weaken k k' s s' : (k ≤ k')%nat → spends k s s' → spends k' s s'.
Proof. intros Hk [Hc Hl]. split; [done|]. lia. Qed.
Lemma spends_refl k s : spends k s s.
Proof. split; [done|]. lia. Qed.
Lemma spends_trans j k s1 s2 s3 : spends j s1 s2 → spends k s2 s3 → spends (j + k) s1 s3.
Proof. intros [Hc1 Hl1] [Hc2 Hl2]. split; [congruence|]. lia. Qed.
Lemma spends_retries k s s' : spends k s s' → retries s' = retries s ∧ redirects s' = redirects s.
Proof. intros [Hc _]. unfold retries, redirects, cfg. by rewrite Hc. Qed.

Lemma call_spends req s r s' : call req s = (r, s') → spends 1 s s'.
Proof.
  unfold call, round_trip, counting. destruct s as [c [w k]]. cbn [fst snd]. destruct (round_trip req w) as [x w'].
  intros [= <- <-]. split; [done|]. cbn. lia.
Qed.

Lemma retrying_spends code_of req n s r s' : retrying code_of req n s = (r, s') → spends (1 + n) s s'.
Proof.
  revert s. induction n as [|n IH]; intros s; cbn [retrying]; destruct (call req s) as [[resp|e] s1] eqn:E; apply call_spends in E.
  all: repeat case_match; intros Hx; try (injection Hx as <- <-); try (by eapply spends_weaken; [|exact E]; lia).
  all: apply IH in Hx; exact (spends_trans _ _ _ _ _ E Hx).
Qed.

Lemma scram_handshake_spends u p s h s' : scram_handshake u p s = (h, s') → spends 2 s s'.
Proof.
  unfold scram_handshake. unfold draw_nonce, counting. destruct s as [c [w k]]. cbn [fst snd]. destruct (draw_nonce w) as [x w'].
  destruct (call _ (c, (w', k))) as [r s1] eqn:E. apply call_spends in E.
  assert (E1 : spends 1 (c, (w, k)) s1) by done. clear E.
  repeat case_match; intros Hx; simplify_eq; try (by eapply spends_weaken; [|exact E1]; lia).
  all: match goal with Hc : call _ _ = _ |- _ => apply call_spends in Hc; exact (spends_trans 1 1 _ _ _ E1 Hc) end.
Qed.

Lemma authenticate_scram_spends u p n s r s' : authenticate_scram u p n s = (r, s') → spends (2 * (1 + n)) s s'.
Proof.
  revert s. induction n as [|n IH]; intros s; cbn [authenticate_scram]; destruct (scram_handshake u p s) as [[x|x] s1] eqn:E;
    apply scram_handshake_spends in E; intros Hx.
  all: try (injection Hx as <- <-; eapply spends_weaken; [|exact E]; lia).
  apply IH in Hx. eapply spends_weaken; [|exact (spends_trans _ _ _ _ _ E Hx)]. lia.
Qed.

(** A call and its retries. *)
Definition R s : nat := 1 + retries s.

Lemma spends_R k s s' : spends k s s' → R s' = R s.
Proof. intros Hs. unfold R. by rewrite (proj1 (spends_retries _ _ _ Hs)). Qed.

Lemma maybe_authenticate_spends s r s' : maybe_authenticate s = (r, s') → spends (2 * R s) s s'.
Proof.
  unfold maybe_authenticate. destruct (cfg_auth_token _) as [token|].
  - unfold authenticate. destruct (retrying _ _ _ _) as [[resp|e] s1] eqn:E; apply retrying_spends in E; cbn [bind_st]; intros Hx;
      repeat case_match; simplify_eq; (eapply spends_weaken; [|exact E]; unfold R; lia).
  - destruct (scram_username _), (scram_password _); intros Hx; simplify_eq; try apply spends_refl.
    by apply authenticate_scram_spends in Hx.
Qed.

Lemma reconnect_spends a s r s' : reconnect a s = (r, s') → spends (2 * R s) s s'.
Proof.
  unfold reconnect, connect_to, counting. destruct s as [c [w k]]. cbn [fst snd]. destruct (connect_to a w) as [[[]|e] w'].
  - intros Hx. apply maybe_authenticate_spends in Hx. exact Hx.
  - intros [= <- <-]. split; [done|]. cbn. lia.
Qed.

Lemma metadata_rpc_spends ts s r s' : metadata_rpc ts s = (r, s') → spends (R s) s s'.
Proof.
  unfold metadata_rpc, metadata_list_members_round_trip. destruct (retrying _ _ _ _) as [[resp|e] s1] eqn:E; apply retrying_spends in E;
    cbn [bind_st]; intros Hx; by simplify_eq.
Qed.

Lemma list_members_rpc_spends s r s' : list_members_rpc s = (r, s') → spends (R s) s s'.
Proof.
  unfold list_members_rpc, metadata_list_members_round_trip. destruct (retrying _ _ _ _) as [[resp|e] s1] eqn:E; apply retrying_spends in E;
    cbn [bind_st]; intros Hx; by simplify_eq.
Qed.

Lemma controller_addr_spends hint meta s x s' : controller_addr hint meta s = (x, s') → spends (R s) s s'.
Proof.
  unfold controller_addr. destruct (match hint with Some id => Some id | None => _ end) as [id|]; [|intros Hx; simplify_eq; apply spends_refl].
  destruct (find_broker id _); [intros Hx; simplify_eq; apply spends_refl|].
  destruct (list_members_rpc s) as [[ml|e] s1] eqn:E; apply list_members_rpc_spends in E; intros Hx; by simplify_eq.
Qed.

Lemma redirect_to_controller_spends hint s x s' : redirect_to_controller hint s = (x, s') → spends (4 * R s) s s'.
Proof.
  unfold redirect_to_controller. destruct (metadata_rpc [] s) as [[meta|e] s1] eqn:E1; apply metadata_rpc_spends in E1.
  2: intros Hx; simplify_eq; eapply spends_weaken; [|exact E1]; lia.
  destruct (controller_addr hint meta s1) as [[[host port]|] s2] eqn:E2; apply controller_addr_spends in E2; rewrite (spends_R _ _ _ E1) in E2;
    pose proof (spends_trans _ _ _ _ _ E1 E2) as E12.
  2: intros Hx; simplify_eq; eapply spends_weaken; [|exact E12]; lia.
  repeat case_match; intros Hx; simplify_eq; try (eapply spends_weaken; [|exact E12]; lia).
  all: match goal with Hc : reconnect _ _ = _ |- _ => apply reconnect_spends in Hc; rewrite (spends_R _ _ _ E12) in Hc;
    eapply spends_weaken; [|exact (spends_trans _ _ _ _ _ E12 Hc)]; lia end.
Qed.

(** A call with its retries at each broker it is redirected to. *)
Definition M s : nat := (1 + redirects s) * (5 * R s).

Lemma spends_M k s s' : spends k s s' → M s' = M s.
Proof. intros Hs. unfold M. by rewrite (spends_R _ _ _ Hs), (proj2 (spends_retries _ _ _ Hs)). Qed.

Lemma metadata_loop_spends ts d s r s' : metadata_loop ts d s = (r, s') → spends ((1 + d) * (5 * R s)) s s'.
Proof.
  revert s. induction d as [|d IH]; intros s; cbn [metadata_loop]; unfold metadata_list_members_round_trip;
    destruct (retrying _ _ _ _) as [[resp|e] s1] eqn:E; apply retrying_spends in E; cbn [bind_st].
  all: try (intros Hx; repeat case_match; simplify_eq; eapply spends_weaken; [|exact E]; unfold R; nia).
  all: destruct resp; try (intros [= <- <-]; eapply spends_weaken; [|exact E]; unfold R; nia).
  destruct (code =? NotController)%Z; [|intros [= <- <-]; eapply spends_weaken; [|exact E]; unfold R; nia].
  destruct (redirect_to_controller _ s1) as [b s2] eqn:E2. apply redirect_to_controller_spends in E2.
  pose proof (spends_trans _ _ _ _ _ E E2) as E12. pose proof (spends_R _ _ _ E) as HR.
  pose proof (spends_R _ _ _ E12) as HR2. rewrite HR in E12. destruct b.
  - intros Hx. apply IH in Hx. rewrite HR2 in Hx. eapply spends_weaken; [|exact (spends_trans _ _ _ _ _ E12 Hx)]. unfold R. nia.
  - intros [= <- <-]. eapply spends_weaken; [|exact E12]. unfold R. nia.
Qed.

Lemma metadata_spends s r s' : metadata s = (r, s') → spends (M s) s s'.
Proof. apply metadata_loop_spends. Qed.

(** A change of leader. *)
Definition L s : nat := M s + 2 * R s.

Lemma spends_L k s s' : spends k s s' → L s' = L s.
Proof. intros Hs. unfold L. by rewrite (spends_M _ _ _ Hs), (spends_R _ _ _ Hs). Qed.

Lemma redirect_to_leader_spends t p s r s' : redirect_to_leader t p s = (r, s') → spends (L s) s s'.
Proof.
  unfold redirect_to_leader. destruct (metadata s) as [[meta|e] s1] eqn:E; apply metadata_spends in E; cbn [bind_st].
  2: intros [= <- <-]; eapply spends_weaken; [|exact E]; unfold L; lia.
  repeat case_match; intros Hx; simplify_eq; try (eapply spends_weaken; [|exact E]; unfold L; lia).
  apply reconnect_spends in Hx. rewrite (spends_R _ _ _ E) in Hx. exact (spends_trans _ _ _ _ _ E Hx).
Qed.

(** Each turn of a loop sends the request, and may move to another broker; it
    spends a retry or a redirection. *)
Definition turns (n d move : nat) : nat := (1 + n + d) * (1 + move).

Lemma turns_one n d k s s' : spends 1 s s' → spends (turns n d k) s s'.
Proof. apply spends_weaken. unfold turns. nia. Qed.
Lemma turns_moved n d k s s1 s2 : spends 1 s s1 → spends k s1 s2 → spends (turns n d k) s s2.
Proof. intros E1 E2. eapply spends_weaken; [|exact (spends_trans _ _ _ _ _ E1 E2)]. unfold turns. nia. Qed.
Lemma turns_retry n d k s s1 s2 : spends 1 s s1 → spends (turns n d k) s1 s2 → spends (turns (S n) d k) s s2.
Proof. intros E1 E2. eapply spends_weaken; [|exact (spends_trans _ _ _ _ _ E1 E2)]. unfold turns. nia. Qed.
Lemma turns_moved_retry n d k s s1 s2 s3 : spends 1 s s1 → spends k s1 s2 → spends (turns n d k) s2 s3 → spends (turns (S n) d k) s s3.
Proof. intros E1 E2 E3. eapply spends_weaken; [|exact (spends_trans _ _ _ _ _ (spends_trans _ _ _ _ _ E1 E2) E3)]. unfold turns. nia. Qed.
Lemma turns_redirect n d k s s1 s2 s3 : spends 1 s s1 → spends k s1 s2 → spends (turns n d k) s2 s3 → spends (turns n (S d) k) s s3.
Proof. intros E1 E2 E3. eapply spends_weaken; [|exact (spends_trans _ _ _ _ _ (spends_trans _ _ _ _ _ E1 E2) E3)]. unfold turns. nia. Qed.

Lemma controlled_spends code_of retryable req d n s r s' :
  controlled code_of retryable req d n s = (r, s') → spends (turns n d (4 * R s)) s s'.
Proof.
  revert n s. induction d as [|d IHd]; intros n; induction n as [|n IHn]; intros s; cbn [controlled];
    destruct (call req s) as [[resp|e] s1] eqn:E; apply call_spends in E.
  all: try (destruct (code_of resp) as [[code hint]|]; [|intros [= <- <-]; by apply turns_one]).
  all: cbn zeta; repeat case_match; intros Hx; simplify_eq; try (by apply turns_one).
  all: pose proof (spends_R _ _ _ E) as HR.
  all: try (apply IHn in Hx; rewrite HR in Hx; by eapply turns_retry).
  all: match goal with Hc : redirect_to_controller _ _ = _ |- _ => apply redirect_to_controller_spends in Hc;
         rewrite HR in Hc; pose proof (spends_R _ _ _ Hc) as HR2; rewrite HR in HR2 end.
  all: try (by eapply turns_moved).
  all: first [ apply IHd in Hx; rewrite HR2 in Hx; by eapply turns_redirect
             | apply IHn in Hx; rewrite HR2 in Hx; by eapply turns_moved_retry ].
Qed.

Lemma advance_seq_spends idem t p seq cnt s : spends 0 s (advance_seq idem t p seq cnt s).
Proof. unfold advance_seq, with_idempotent. case_match; (split; [done|cbn; lia]). Qed.

Lemma produce_loop_spends topic acks wire pid ep seq idem d n part s r s' :
  produce_loop topic acks wire pid ep seq idem d n part s = (r, s') → spends (turns n d (L s)) s s'.
Proof.
  revert n part s. induction d as [|d IHd]; intros n; induction n as [|n IHn]; intros part s; cbn [produce_loop];
    destruct (call _ s) as [[resp|e] s1] eqn:E; apply call_spends in E; pose proof (spends_L _ _ _ E) as HL.
  all: try (destruct resp; try (intros [= <- <-]; by apply turns_one)).
  all: cbn zeta; repeat case_match; intros Hx.
  all: try (injection Hx as <- <-; first [by apply turns_one |
         apply turns_one; exact (spends_trans _ _ _ _ _ E (advance_seq_spends _ _ _ _ _ _))]).
  all: try (apply IHn in Hx; rewrite HL in Hx; by eapply turns_retry).
  all: try (match goal with Hc : metadata _ = _ |- _ => apply metadata_spends in Hc;
         pose proof (spends_L _ _ _ Hc) as HL2; apply IHd in Hx; rewrite HL2, HL in Hx;
         rewrite (spends_M _ _ _ E) in Hc; assert (M s ≤ L s) as HM by (unfold L; lia);
         eapply turns_redirect; [exact E | exact (spends_weaken _ _ _ _ HM Hc) | exact Hx] end).
  all: destruct (redirect_to_leader _ _ s1) as [[[]|e] s2] eqn:E2; cbn [bind_st] in Hx; apply redirect_to_leader_spends in E2;
         rewrite HL in E2; pose proof (spends_L _ _ _ E2) as HL2.
  all: first [ apply IHd in Hx; rewrite HL2, HL in Hx; by eapply turns_redirect
             | injection Hx as <- <-; by eapply turns_moved ].
Qed.

Lemma resolve_partition_spends topic key s r s' : resolve_partition topic key s = (r, s') → spends (M s) s s'.
Proof.
  unfold resolve_partition. destruct (metadata s) as [[meta|e] s1] eqn:E; apply metadata_spends in E; cbn [bind_st].
  - repeat case_match; intros [= <- <-]; exact E.
  - intros [= <- <-]. exact E.
Qed.

Lemma ensure_producer_id_spends s r s' : ensure_producer_id s = (r, s') → spends (R s) s s'.
Proof.
  unfold ensure_producer_id. case_match; [intros [= <- <-]; apply spends_refl|].
  destruct (retrying _ _ _ _) as [[resp|e] s1] eqn:E; apply retrying_spends in E; cbn [bind_st]; [|intros [= <- <-]; exact E].
  destruct resp; try (intros [= <- <-]; exact E). case_match; intros [= <- <-]; exact E.
Qed.

Lemma produce_spends topic partition messages acks s r s' :
  produce_with_acks topic partition messages acks s = (r, s') →
  spends (M s + R s + turns (retries s) (redirects s) (L s)) s s'.
Proof.
  unfold produce_with_acks. destruct messages as [|m ms]; [intros [= <- <-]; apply spends_refl|]. cbn zeta.
  set (rp := if is_idempotent s then _ else _). destruct rp as [[part|e] s1] eqn:E; cbn [bind_st].
  all: assert (E1 : spends (M s) s s1) by
    (subst rp; destruct (is_idempotent s), partition; simplify_eq; try apply spends_refl;
     destruct (resolve_partition _ _ s) as [[p|e'] s2] eqn:Er; cbn [bind_st] in E; simplify_eq; by apply resolve_partition_spends in Er).
  2: intros [= <- <-]; eapply spends_weaken; [|exact E1]; lia.
  clear E rp. set (rp := if is_idempotent s then _ else _). destruct rp as [[[[pid ep] seq]|e] s2] eqn:E; cbn [bind_st].
  all: assert (E2 : spends (R s) s1 s2) by
    (rewrite <- (spends_R _ _ _ E1); subst rp; destruct (is_idempotent s); simplify_eq; try apply spends_refl;
     destruct (ensure_producer_id s1) as [[u|e'] s3] eqn:Er; cbn [bind_st] in E; simplify_eq; by apply ensure_producer_id_spends in Er).
  all: pose proof (spends_trans _ _ _ _ _ E1 E2) as E12.
  - intros Hx. apply produce_loop_spends in Hx. rewrite (spends_L _ _ _ E12) in Hx.
    destruct (spends_retries _ _ _ E12) as [Hn Hd]; rewrite Hn, Hd in Hx. exact (spends_trans _ _ _ _ _ E12 Hx).
  - intros [= <- <-]. eapply spends_weaken; [|exact E12]. lia.
Qed.

Lemma fetch_loop_spends req topic partition d s r s' :
  fetch_loop req topic partition d s = (r, s') → spends (turns 0 d (L s)) s s'.
Proof.
  revert s. induction d as [|d IHd]; intros s; cbn [fetch_loop];
    destruct (call _ s) as [[resp|e] s1] eqn:E; apply call_spends in E; pose proof (spends_L _ _ _ E) as HL; cbn [bind_st].
  all: try (destruct resp; try (intros [= <- <-]; by apply turns_one)).
  all: try (case_match; [|intros [= <- <-]; by apply turns_one]).
  all: try (intros [= <- <-]; by apply turns_one).
  all: destruct (redirect_to_leader _ _ s1) as [[[]|e] s2] eqn:E2; cbn [bind_st]; intros Hx; apply redirect_to_leader_spends in E2;
         rewrite HL in E2; pose proof (spends_L _ _ _ E2) as HL2.
  all: first [ apply IHd in Hx; rewrite HL2, HL in Hx; by eapply turns_redirect
             | injection Hx as <- <-; by eapply turns_moved ].
Qed.

(** C36: Every call of the client ends after a bounded number of requests, whatever
    the brokers answer and however the connections fail. With [n] retries and
    [d] redirections allowed, a request for the controller (the
    administration, the groups and the offsets) is sent at most [1 + n + d]
    times with [4 (1 + n)] requests around each; a fetch and a produce have
    their own bounds, the partition and the producer id of a produce
    included. *)
Theorem client_calls_bounded (c : Client) (w : W) (k : nat) :
  let s := (c, (w, k)) in
  let n := Z.to_nat (max_retries (config c)) in
  let d := Z.to_nat (max_redirects (config c)) in
  let lookup := (1 + d) * (5 * (1 + n)) in
  let move := lookup + 2 * (1 + n) in
  (∀ code_of retryable req, (controlled code_of retryable req d n s).2.2.2 ≤ k + (1 + n + d) * (1 + 4 * (1 + n))) ∧
  (∀ req topic partition, (fetch_loop req topic partition d s).2.2.2 ≤ k + (1 + d) * (1 + move)) ∧
  (∀ topic partition messages acks,
     (produce_with_acks topic partition messages acks s).2.2.2 ≤ k + (lookup + (1 + n) + (1 + n + d) * (1 + move))).
Proof.
  intros s n d lookup move. split_and!.
  - intros code_of retryable req. destruct (controlled code_of retryable req d n s) as [r s'] eqn:E.
    apply controlled_spends in E as [_ E]. exact E.
  - intros req topic partition. destruct (fetch_loop req topic partition d s) as [r s'] eqn:E.
    apply fetch_loop_spends in E as [_ E]. exact E.
  - intros topic partition messages acks. destruct (produce_with_acks topic partition messages acks s) as [r s'] eqn:E.
    apply produce_spends in E as [_ E]. exact E.
Qed.
End bounds.
