(* ===== verification/ClientTraffic.v ===== *)
(** * The client library: what its calls send

    A call of the client is an exchange of its own request, of the requests for
    metadata and of those that authenticate a connection; what it returns is
    an answer to its own request. *)

From Stdlib Require Import Strings.String.
From S2P Require Import Prelude Bytes Text OffsetStore Messages Request Response Core Scram Client.
#[local] Open Scope Z_scope.

(** The requests that the client makes for itself. *)
Definition service (req : Request) : bool :=
  match req with
  | Request.Auth _ | Request.ScramFirst _ _ _ | Request.ScramFinal _ _ _ | Request.Metadata _ | Request.ListMembers => true
  | _ => false
  end.

(** Exchanges of requests that satisfy [Q]. *)
Inductive talks {W} `{Network W} (Q : Request → Prop) : W → W → Prop :=
| talk_none w : talks Q w w
| talk_request req r w w1 w2 : Q req → round_trip req w = (r, w1) → talks Q w1 w2 → talks Q w w2
| talk_connect addr r w w1 w2 : connect_to addr w = (r, w1) → talks Q w1 w2 → talks Q w w2
| talk_uuid x w w1 w2 : draw_uuid w = (x, w1) → talks Q w1 w2 → talks Q w w2
| talk_nonce x w w1 w2 : draw_nonce w = (x, w1) → talks Q w1 w2 → talks Q w w2.

Section traffic.
Context {W : Type} `{Network W} `{ScramCrypto}.
Implicit Types (s : Client * W) (Q : Request → Prop).

Lemma talks_trans Q w1 w2 w3 : talks Q w1 w2 → talks Q w2 w3 → talks Q w1 w3.
Proof. induction 1; intros Ht; [done|eapply talk_request; eauto|eapply talk_connect; eauto|eapply talk_uuid; eauto|eapply talk_nonce; eauto]. Qed.

Lemma talks_weaken Q Q' w w' : (∀ req, Q req → Q' req) → talks Q w w' → talks Q' w w'.
Proof. intros HQ. induction 1; [constructor|eapply talk_request; eauto|eapply talk_connect; eauto|eapply talk_uuid; eauto|eapply talk_nonce; eauto]. Qed.

(** The request of a call, or one of the client's own. *)
Definition mine (req q : Request) : Prop := q = req ∨ service q = true.

Lemma service_mine req w w' : talks (λ q, service q = true) w w' → talks (mine req) w w'.
Proof. apply talks_weaken. by right. Qed.

Lemma call_talks Q req s r s' : Q req → call req s = (r, s') → talks Q s.2 s'.2.
Proof.
  unfold call. intros HQ. destruct (round_trip req s.2) as [x w] eqn:E. intros [= <- <-]. eapply talk_request; [done|exact E|constructor].
Qed.

Lemma retrying_talks Q code_of req n s r s' : Q req → retrying code_of req n s = (r, s') → talks Q s.2 s'.2.
Proof.
  intros HQ. revert s. induction n as [|n IH]; intros s; cbn [retrying]; destruct (call req s) as [[resp|e] s1] eqn:E;
    apply (call_talks Q) in E; try done.
  all: repeat case_match; intros Hx; try (by injection Hx as <- <-).
  all: apply IH in Hx; exact (talks_trans _ _ _ _ E Hx).
Qed.

Notation serviced s s' := (talks (λ q, service q = true) s.2 s'.2).

Lemma scram_handshake_talks u p s h s' : scram_handshake u p s = (h, s') → serviced s s'.
Proof.
  unfold scram_handshake. destruct s as [c w]. cbn [fst snd]. destruct (draw_nonce w) as [x w'] eqn:Ed.
  destruct (call _ (c, w')) as [r s1] eqn:E. apply (call_talks (λ q, service q = true)) in E; [|done].
  assert (E1 : talks (λ q, service q = true) w s1.2) by (eapply talk_nonce; [exact Ed|exact E]).
  repeat case_match; intros Hx; simplify_eq; try exact E1.
  all: match goal with Hc : call _ _ = _ |- _ => apply (call_talks (λ q, service q = true)) in Hc; [exact (talks_trans _ _ _ _ E1 Hc)|done] end.
Qed.

Lemma authenticate_scram_talks u p n s r s' : authenticate_scram u p n s = (r, s') → serviced s s'.
Proof.
  revert s. induction n as [|n IH]; intros s; cbn [authenticate_scram]; destruct (scram_handshake u p s) as [[x|x] s1] eqn:E;
    apply scram_handshake_talks in E; intros Hx; try (by injection Hx as <- <-).
  apply IH in Hx. exact (talks_trans _ _ _ _ E Hx).
Qed.

Lemma maybe_authenticate_talks s r s' : maybe_authenticate s = (r, s') → serviced s s'.
Proof.
  unfold maybe_authenticate. destruct (cfg_auth_token _) as [token|].
  - unfold authenticate. destruct (retrying _ _ _ _) as [[resp|e] s1] eqn:E; apply (retrying_talks (λ q, service q = true)) in E; try done;
      cbn [bind_st]; intros Hx; repeat case_match; by simplify_eq.
  - destruct (scram_username _), (scram_password _); intros Hx; simplify_eq; try constructor.
    by apply authenticate_scram_talks in Hx.
Qed.

Lemma reconnect_talks a s r s' : reconnect a s = (r, s') → serviced s s'.
Proof.
  unfold reconnect. destruct (connect_to a s.2) as [[u|e] w] eqn:E.
  - intros Hx. apply maybe_authenticate_talks in Hx. eapply talk_connect; [exact E|exact Hx].
  - intros [= <- <-]. eapply talk_connect; [exact E|constructor].
Qed.

Lemma metadata_rpc_talks ts s r s' : metadata_rpc ts s = (r, s') → serviced s s'.
Proof.
  unfold metadata_rpc, metadata_list_members_round_trip. destruct (retrying _ _ _ _) as [[resp|e] s1] eqn:E;
    apply (retrying_talks (λ q, service q = true)) in E; try done; cbn [bind_st]; intros Hx; by simplify_eq.
Qed.

Lemma list_members_rpc_talks s r s' : list_members_rpc s = (r, s') → serviced s s'.
Proof.
  unfold list_members_rpc, metadata_list_members_round_trip. destruct (retrying _ _ _ _) as [[resp|e] s1] eqn:E;
    apply (retrying_talks (λ q, service q = true)) in E; try done; cbn [bind_st]; intros Hx; by simplify_eq.
Qed.

Lemma controller_addr_talks hint meta s x s' : controller_addr hint meta s = (x, s') → serviced s s'.
Proof.
  unfold controller_addr. destruct (match hint with Some id => Some id | None => _ end) as [id|]; [|intros Hx; simplify_eq; constructor].
  destruct (find_broker id _); [intros Hx; simplify_eq; constructor|].
  destruct (list_members_rpc s) as [[ml|e] s1] eqn:E; apply list_members_rpc_talks in E; intros Hx; by simplify_eq.
Qed.

Lemma redirect_to_controller_talks hint s x s' : redirect_to_controller hint s = (x, s') → serviced s s'.
Proof.
  unfold redirect_to_controller. destruct (metadata_rpc [] s) as [[meta|e] s1] eqn:E1; apply metadata_rpc_talks in E1.
  2: intros Hx; by simplify_eq.
  destruct (controller_addr hint meta s1) as [[[host port]|] s2] eqn:E2; apply controller_addr_talks in E2;
    pose proof (talks_trans _ _ _ _ E1 E2) as E12.
  2: intros Hx; by simplify_eq.
  repeat case_match; intros Hx; simplify_eq; try exact E12.
  all: match goal with Hc : reconnect _ _ = _ |- _ => apply reconnect_talks in Hc; exact (talks_trans _ _ _ _ E12 Hc) end.
Qed.

Lemma metadata_talks s r s' : metadata s = (r, s') → serviced s s'.
Proof.
  unfold metadata, metadata_topics. generalize (redirects s) as d. intros d. revert s. induction d as [|d IH]; intros s; cbn [metadata_loop];
    unfold metadata_list_members_round_trip; destruct (retrying _ _ _ _) as [[resp|e] s1] eqn:E;
    apply (retrying_talks (λ q, service q = true)) in E; try done; cbn [bind_st].
  all: try (intros [= <- <-]; exact E).
  all: destruct resp; try (intros [= <- <-]; exact E).
  destruct (code =? NotController); [|intros [= <- <-]; exact E].
  destruct (redirect_to_controller _ s1) as [b s2] eqn:E2. apply redirect_to_controller_talks in E2.
  pose proof (talks_trans _ _ _ _ E E2) as E12. destruct b; [|intros [= <- <-]; exact E12].
  intros Hx. apply IH in Hx. exact (talks_trans _ _ _ _ E12 Hx).
Qed.

Lemma redirect_to_leader_talks t p s r s' : redirect_to_leader t p s = (r, s') → serviced s s'.
Proof.
  unfold redirect_to_leader. destruct (metadata s) as [[meta|e] s1] eqn:E; apply metadata_talks in E; cbn [bind_st].
  2: intros [= <- <-]; exact E.
  repeat case_match; intros Hx; simplify_eq; try exact E.
  apply reconnect_talks in Hx. exact (talks_trans _ _ _ _ E Hx).
Qed.

(** [resp] answers the request at some point of the exchange. *)
Definition answers (req : Request) (resp : Response) (w w' : W) : Prop :=
  ∃ w1 w2, talks (mine req) w w1 ∧ round_trip req w1 = (Ok resp, w2) ∧ talks (mine req) w2 w'.

Definition exchange (req : Request) (r : result Response) (w w' : W) : Prop :=
  talks (mine req) w w' ∧ ∀ resp, r = Ok resp → answers req resp w w'.

Lemma exchange_call req s r s' : call req s = (r, s') → exchange req r s.2 s'.2.
Proof.
  intros E. split; [apply (call_talks (mine req) _ _ _ _ (or_introl eq_refl) E)|]. intros resp ->. unfold call in E.
  destruct (round_trip req s.2) as [x w] eqn:Er. injection E as -> <-. exists s.2, w. split; [constructor|]. split; [done|constructor].
Qed.

Lemma exchange_then req r w w1 w2 : exchange req r w w1 → talks (mine req) w1 w2 → exchange req r w w2.
Proof.
  intros [Ht Ha] H2. split; [exact (talks_trans _ _ _ _ Ht H2)|]. intros resp Hr. destruct (Ha resp Hr) as (x & y & Hx & Hc & Hy).
  exists x, y. split; [done|]. split; [done|]. exact (talks_trans _ _ _ _ Hy H2).
Qed.

Lemma exchange_after req r w w1 w2 : talks (mine req) w w1 → exchange req r w1 w2 → exchange req r w w2.
Proof.
  intros H1 [Ht Ha]. split; [exact (talks_trans _ _ _ _ H1 Ht)|]. intros resp Hr. destruct (Ha resp Hr) as (x & y & Hx & Hc & Hy).
  exists x, y. split; [exact (talks_trans _ _ _ _ H1 Hx)|]. done.
Qed.

Lemma controlled_exchange code_of retryable req d n s r s' :
  controlled code_of retryable req d n s = (r, s') → exchange req r s.2 s'.2.
Proof.
  revert n s. induction d as [|d IHd]; intros n; induction n as [|n IHn]; intros s; cbn [controlled];
    destruct (call req s) as [[resp|e] s1] eqn:E; apply exchange_call in E.
  all: try (destruct (code_of resp) as [[code hint]|]; [|intros [= <- <-]; exact E]).
  all: cbn zeta; repeat case_match; intros Hx; simplify_eq; try exact E.
  all: try (apply IHn in Hx; exact (exchange_after _ _ _ _ _ (proj1 E) Hx)).
  all: match goal with Hc : redirect_to_controller _ _ = _ |- _ => apply redirect_to_controller_talks, (service_mine req) in Hc end.
  all: try (by eapply exchange_then).
  all: first [ apply IHd in Hx | apply IHn in Hx ]; eapply exchange_after; [exact (proj1 E)|]; by eapply exchange_after.
Qed.

Lemma led_exchange code_of move req d n s r s' :
  (∀ resp x b y, move resp x = (b, y) → talks (λ q, service q = true) x.2 y.2) →
  led code_of move req d n s = (r, s') → exchange req r s.2 s'.2.
Proof.
  intros Hmove. revert n s. induction d as [|d IHd]; intros n; induction n as [|n IHn]; intros s; cbn [led];
    destruct (call req s) as [[resp|e] s1] eqn:E; apply exchange_call in E.
  all: try (destruct (code_of resp) as [code|]; [|intros [= <- <-]; exact E]).
  all: cbn zeta; repeat case_match; intros Hx; simplify_eq; try exact E.
  all: try (apply IHn in Hx; exact (exchange_after _ _ _ _ _ (proj1 E) Hx)).
  all: match goal with Hc : ?f _ _ = (_, _) |- _ => apply Hmove, (service_mine req) in Hc end.
  all: try (by eapply exchange_then).
  all: first [ apply IHd in Hx | apply IHn in Hx ]; eapply exchange_after; [exact (proj1 E)|]; by eapply exchange_after.
Qed.

Lemma check_ok_zero c op u : check_ok c op = Ok u → c = 0.
Proof. unfold check_ok. destruct (Z.eqb_spec c 0); [done|]. discriminate. Qed.

Lemma fetch_exchange req topic partition d s r s' :
  fetch_loop req topic partition d s = (r, s') →
  talks (mine req) s.2 s'.2 ∧
  ∀ f, r = Ok f → answers req (Response.Fetch (ft_topic f) (ft_partition f) (ft_high_watermark f) 0 (ft_records f)) s.2 s'.2.
Proof.
  revert s. induction d as [|d IHd]; intros s; cbn [fetch_loop];
    destruct (call _ s) as [[resp|e] s1] eqn:E; apply exchange_call in E as [Ht Ha]; cbn [bind_st].
  all: try (intros [= <- <-]; split; [exact Ht|discriminate]).
  all: destruct resp; try (intros [= <- <-]; split; [exact Ht|discriminate]).
  all: try (case_match; [|intros [= <- <-]; split; [exact Ht|]; try discriminate]).
  all: try (destruct (redirect_to_leader _ _ s1) as [[[]|e] s2] eqn:E2; cbn [bind_st]; intros Hx;
            apply redirect_to_leader_talks, (service_mine req) in E2;
            [ apply IHd in Hx as [Ht' Ha']; split;
              [exact (talks_trans _ _ _ _ Ht (talks_trans _ _ _ _ E2 Ht'))|];
              intros f Hf; destruct (Ha' f Hf) as (x & y & Hx & Hc & Hy); exists x, y;
              split; [exact (talks_trans _ _ _ _ Ht (talks_trans _ _ _ _ E2 Hx))|done]
            | injection Hx as <- <-; split; [exact (talks_trans _ _ _ _ Ht E2)|discriminate] ]).
  all: try (intros [= <- <-]; split; [exact Ht|]).
  all: intros f; destruct (check_ok _ _) eqn:Hc; [|discriminate]; intros [= <-]; apply check_ok_zero in Hc as ->; by apply Ha.
Qed.
End traffic.
