(* ===== verification/Consumer.v ===== *)
(** * The group consumer: [volant-client/src/group.rs]

    [GroupConsumer] over the client: joining and joining again, with the
    confirmation of the assignment and the local range assignor; the positions
    that a new partition starts from; [poll], the commits and [leave]; and one
    turn of the task that sends heartbeats.  The lock makes each of these one
    step.  The order of a [HashMap] or [HashSet] is an [IterOrder]; the clock is
    an argument. *)

From Stdlib Require Import Strings.String Strings.Ascii.
From S2P Require Import Prelude Bytes Text OffsetStore Messages Request Response Core Scram Assignor Client.
#[local] Open Scope Z_scope.

Definition OFFSET_UNKNOWN : Z := u64_max.

(** ** Settings *)

Inductive AutoOffsetReset := Earliest | Latest | NoReset.
Inductive AssignorKind := BrokerAssignor | RangeAssignor.

#[global] Instance assignor_kind_eq : EqDecision AssignorKind.
Proof. solve_decision. Defined.

Definition quoted (s : string) : string :=
  let q := String "034"%char EmptyString in q ++ s ++ q.

Definition parse_auto_offset_reset (name : string) : result AutoOffsetReset :=
  if String.eqb name "" || String.eqb name "earliest" then Ok Earliest
  else if String.eqb name "latest" then Ok Latest
  else if String.eqb name "none" then Ok NoReset
  else Err (InvalidArgument ("unknown auto_offset_reset: " ++ quoted name)).

Definition parse_assignor (name : string) : result AssignorKind :=
  if String.eqb name "" || String.eqb name "broker" then Ok BrokerAssignor
  else if String.eqb name "range" then Ok RangeAssignor
  else Err (InvalidArgument ("unknown assignor: " ++ quoted name)).

Definition POLL_MAX_MESSAGES : Z := 100.
Definition POLL_MAX_BYTES : Z := 4 * 1024 * 1024.

Definition clamp_fetch_max_messages (n : Z) : Z := if n =? 0 then POLL_MAX_MESSAGES else n.
Definition clamp_fetch_max_bytes (n : Z) : Z := if n =? 0 then POLL_MAX_BYTES else n.

(** In milliseconds. *)
Definition heartbeat_interval (session_timeout_ms : Z) : Z := Z.max 100 (Z.min 3000 (session_timeout_ms / 3)).

(** ** State *)

Notation TP := (string * Z)%type.

Record JoinState := mkJoinState {
  js_member_id : string;
  js_generation : Z;
  js_assignment : list TP;
  js_last_revoked : list TP;
  js_positions : gmap TP Z;
  js_last_auto_commit : option Z;
  js_dirty : bool;
}.

Record GroupConsumer := mkGroupConsumer {
  gc_group_id : string;
  gc_topics : list string;
  gc_session_timeout_ms : Z;
  gc_group_instance_id : string;
  gc_auto_commit : bool;
  gc_auto_commit_interval : Z;
  gc_auto_offset_reset : AutoOffsetReset;
  gc_assignor : AssignorKind;
  gc_fetch_max_messages : Z;
  gc_fetch_max_bytes : Z;
  gc_heartbeat_task : bool;
  gc_heartbeat_count : Z;
  gc_state : JoinState;
}.

Definition with_state (f : JoinState → JoinState) (g : GroupConsumer) : GroupConsumer :=
  mkGroupConsumer (gc_group_id g) (gc_topics g) (gc_session_timeout_ms g) (gc_group_instance_id g) (gc_auto_commit g)
    (gc_auto_commit_interval g) (gc_auto_offset_reset g) (gc_assignor g) (gc_fetch_max_messages g) (gc_fetch_max_bytes g)
    (gc_heartbeat_task g) (gc_heartbeat_count g) (f (gc_state g)).

Definition count_heartbeat (g : GroupConsumer) : GroupConsumer :=
  mkGroupConsumer (gc_group_id g) (gc_topics g) (gc_session_timeout_ms g) (gc_group_instance_id g) (gc_auto_commit g)
    (gc_auto_commit_interval g) (gc_auto_offset_reset g) (gc_assignor g) (gc_fetch_max_messages g) (gc_fetch_max_bytes g)
    (gc_heartbeat_task g) (u64_wrapping_add (gc_heartbeat_count g) 1) (gc_state g).

Definition with_positions (f : gmap TP Z → gmap TP Z) (st : JoinState) : JoinState :=
  mkJoinState (js_member_id st) (js_generation st) (js_assignment st) (js_last_revoked st) (f (js_positions st))
    (js_last_auto_commit st) (js_dirty st).

Definition set_dirty (st : JoinState) : JoinState :=
  mkJoinState (js_member_id st) (js_generation st) (js_assignment st) (js_last_revoked st) (js_positions st)
    (js_last_auto_commit st) true.

Definition set_committed (now : Z) (st : JoinState) : JoinState :=
  mkJoinState (js_member_id st) (js_generation st) (js_assignment st) (js_last_revoked st) (js_positions st) (Some now) false.

Definition no_state : JoinState := mkJoinState "" 0 [] [] ∅ None false.

Record FetchedRecord := mkFetchedRecord { fd_topic : string; fd_partition : Z; fd_record : FetchRecord }.

(** ** Errors *)

(** What follows the last occurrence of a pattern. *)
Fixpoint after_last (pat : string) (s : bytes) : option bytes :=
  match s with
  | [] => strip_str pat []
  | _ :: rest => match after_last pat rest with Some r => Some r | None => strip_str pat s end
  end.

Definition join_protocol_error_code (msg : string) : option Z :=
  rest ← after_last "error_code=" (as_bytes msg);
  n ← match leading_digits rest with [] => None | digits => parse_u32 (of_bytes digits) end;
  if n <=? 65535 then Some n else None.

Definition is_rebalance_in_progress (e : Prelude.Error) : bool :=
  match e with
  | Protocol msg => bool_decide (join_protocol_error_code msg = Some RebalanceInProgress)
  | _ => false
  end.

Definition due_for_auto_commit (auto_commit : bool) (interval : Z) (last : option Z) (now : Z) : bool :=
  auto_commit &&
  match last with
  | None => true
  | Some t => (interval =? 0) || (interval <=? Z.max 0 (now - t))
  end.

(** Order of [(String, u32)] pairs. *)
Definition topic_partition_le (a b : TP) : Prop := (a.1 ≠ b.1 ∧ str_le a.1 b.1) ∨ (a.1 = b.1 ∧ a.2 ≤ b.2).

#[export] Instance topic_partition_le_dec a b : Decision (topic_partition_le a b).
Proof. unfold topic_partition_le. apply _. Defined.
#[global] Typeclasses Opaque topic_partition_le.

Definition assigned_tp (a : Assignment) : TP := (as_topic a, as_partition a).

(** ** Operations *)

Section consumer.
Context {W : Type} `{Network W} `{ScramCrypto} `{IterOrder}.

Notation CS := (Client * W)%type.
Notation G := (GroupConsumer * CS)%type.

(** *** The range assignor *)

Definition range_members_from_describe (group_id self_id : string) (self_topics : list string) (s : CS)
    : option (list string * list (list string)) * CS :=
  match describe_group group_id s with
  | (Err _, s) => (None, s)
  | (Ok (_, _, members), s) =>
    let seen := existsb (λ m, String.eqb (gmi_member_id m) self_id) members in
    let ids := map gmi_member_id members ++ (if seen then [] else [self_id]) in
    let topics := map gmi_topics members ++ (if seen then [] else [self_topics]) in
    (if bool_decide (ids = []) || negb (existsb (String.eqb self_id) ids) then None else Some (ids, topics), s)
  end.

Definition partition_counts_from_metadata (meta : MetadataReply) : gmap string nat :=
  foldl (λ m t, <[ti_name t := Z.to_nat (as_u32 (zlen (ti_partitions t)))]> m) ∅ (md_topics meta).

Definition range_members_from_join (join_members self_topics : list string) : option (list string * list (list string)) :=
  match join_members with
  | [] => None
  | _ => Some (join_members, replicate (length join_members) self_topics)
  end.

(** The first index of a member. *)
Fixpoint position_of (id : string) (ids : list string) : option nat :=
  match ids with
  | [] => None
  | x :: ids => if String.eqb x id then Some O else S <$> position_of id ids
  end.

Definition range_of (i : nat) (ids : list string) (topics : list (list string)) (counts : gmap string nat) : list TP :=
  map (λ tp, (tp.1, Z.of_nat tp.2)) (default [] (range_assign_multi ids topics counts !! i)).

Definition apply_range_override (group_id : string) (self_topics : list string) (self_id : string)
    (join_assignment : list TP) (join_members : list string) (s : CS) : list TP * CS :=
  let alone := bool_decide (join_assignment = []) in
  let '(members, s) :=
    match range_members_from_join join_members self_topics with
    | Some ms => (Some ms, s)
    | None =>
      match range_members_from_describe group_id self_id self_topics s with
      | (Some ms, s) => (Some ms, s)
      | (None, s) => (if alone then Some ([self_id], [self_topics]) else None, s)
      end
    end in
  match members with
  | None => (join_assignment, s)
  | Some (ids, member_topics) =>
    match metadata s with
    | (Err _, s) => (join_assignment, s)
    | (Ok meta, s) =>
      let counts := partition_counts_from_metadata meta in
      (match position_of self_id ids with
       | Some i => range_of i ids member_topics counts
       | None => if alone then range_of 0 [self_id] [self_topics] counts else join_assignment
       end, s)
    end
  end.

(** *** Positions of new partitions *)

Definition group_by_topic (partitions : list TP) : gmap string (list Z) :=
  foldl (λ m tp, <[tp.1 := default [] (m !! tp.1) ++ [tp.2]]> m) ∅ partitions.

Fixpoint pick_offsets (topic : string) (got : gmap Z Z) (parts : list Z) : result (list (TP * Z)) :=
  match parts with
  | [] => Ok []
  | p :: parts =>
    match got !! p with
    | None => Err (InvalidArgument ("list_offsets missing partition " ++ topic ++ "-" ++ u64_to_string p))
    | Some pos => let? rest := pick_offsets topic got parts in Ok (((topic, p), pos) :: rest)
    end
  end.

Fixpoint reset_topics (use_earliest : bool) (by_topic : list (string * list Z)) (s : CS) : result (list (TP * Z)) * CS :=
  match by_topic with
  | [] => (Ok [], s)
  | (topic, parts) :: by_topic =>
    let! (listing, s) := list_offsets topic parts s in
    let got := foldl (λ m e, <[ol_partition e := if use_earliest then ol_earliest e else ol_latest e]> m) ∅ listing.2 in
    match pick_offsets topic got parts with
    | Err e => (Err e, s)
    | Ok out => let! (rest, s) := reset_topics use_earliest by_topic s in (Ok (out ++ rest), s)
    end
  end.

Definition apply_reset (policy : AutoOffsetReset) (partitions : list TP) (s : CS) : result (list (TP * Z)) * CS :=
  match partitions with
  | [] => (Ok [], s)
  | (topic, partition) :: _ =>
    match policy with
    | NoReset =>
      (Err (InvalidArgument ("no committed offset for " ++ topic ++ "-" ++ u64_to_string partition ++
                             " and auto_offset_reset=" ++ quoted "none")), s)
    | Earliest => reset_topics true (reorder (map_to_list (group_by_topic partitions))) s
    | Latest => reset_topics false (reorder (map_to_list (group_by_topic partitions))) s
    end
  end.

(** *** Joining *)

Fixpoint join_retrying (group_id member_id : string) (session_timeout_ms : Z) (topics : list string)
    (group_instance_id : string) (n : nat) (s : CS) : result JoinGroupResult * CS :=
  match join_group_with_instance group_id member_id session_timeout_ms topics group_instance_id s with
  | (Ok r, s) => (Ok r, s)
  | (Err e, s) =>
    if is_rebalance_in_progress e
    then match n with O => (Err e, s) | S n => join_retrying group_id member_id session_timeout_ms topics group_instance_id n s end
    else (Err e, s)
  end.

(** What the join and its confirmation assign. *)
Definition confirmed_assignment (g : GroupConsumer) (r : JoinGroupResult) (s : CS) : list TP * CS :=
  let joined := map assigned_tp (jr_assignment r) in
  let '(join_assignment, s) :=
    match sync_group (gc_group_id g) (jr_member_id r) (jr_generation r) s with
    | (Ok ((_ :: _) as peeked), s) => (map assigned_tp peeked, s)
    | (_, s) => (joined, s)
    end in
  match gc_assignor g with
  | RangeAssignor => apply_range_override (gc_group_id g) (gc_topics g) (jr_member_id r) join_assignment (jr_members r) s
  | BrokerAssignor => (join_assignment, s)
  end.

Definition revoked_partitions (g : GroupConsumer) (r : JoinGroupResult) (previous new_assignment : list TP) : list TP :=
  let gone := reorder (elements (list_to_set previous ∖ list_to_set new_assignment : gset TP)) in
  let told := match gc_assignor g with RangeAssignor => [] | BrokerAssignor => map assigned_tp (jr_revoked r) end in
  merge_sort topic_partition_le
    (foldl (λ revoked tp, if bool_decide (tp ∈ revoked) then revoked else revoked ++ [tp]) gone told).

Definition partitions_to_fetch (st : JoinState) (previous new_assignment : list TP) : list TP :=
  let added := reorder (elements (list_to_set new_assignment ∖ list_to_set previous : gset TP)) in
  if bool_decide (added ≠ []) || bool_decide (js_positions st = ∅) && bool_decide (new_assignment ≠ [])
  then (if bool_decide (previous = []) then new_assignment else added)
  else [].

Definition install_assignment (r : JoinGroupResult) (new_assignment revoked : list TP) (fetched : list OffsetFetchEntry)
    (st : JoinState) : JoinState :=
  let kept := foldl (λ m tp, delete tp m) (js_positions st) revoked in
  let positions :=
    foldl (λ m e, if ofe_offset e =? OFFSET_UNKNOWN then m else <[(ofe_topic e, ofe_partition e) := ofe_offset e]> m) kept fetched in
  mkJoinState (jr_member_id r) (jr_generation r) new_assignment revoked positions (js_last_auto_commit st) (js_dirty st).

Definition without_position (st : JoinState) : list TP := filter (λ tp, js_positions st !! tp = None) (js_assignment st).

Definition seed (reset : list (TP * Z)) (positions : gmap TP Z) : gmap TP Z :=
  foldl (λ m e, if bool_decide (m !! e.1 = None) then <[e.1 := e.2]> m else m) positions reset.

Definition do_join (gs : G) : result unit * G :=
  let '(g, s) := gs in
  let st := gc_state g in
  let previous := js_assignment st in
  match join_retrying (gc_group_id g) (js_member_id st) (gc_session_timeout_ms g) (gc_topics g) (gc_group_instance_id g)
                      (retries s) s with
  | (Err e, s) => (Err e, (g, s))
  | (Ok r, s) =>
    let '(new_assignment, s) := confirmed_assignment g r s in
    let revoked := revoked_partitions g r previous new_assignment in
    let to_fetch := partitions_to_fetch st previous new_assignment in
    match (match to_fetch with
           | [] => (Ok [], s)
           | _ => fetch_offsets (gc_group_id g) (map (λ tp, mkOffsetEntry tp.1 tp.2) to_fetch) s
           end) with
    | (Err e, s) => (Err e, (g, s))
    | (Ok fetched, s) =>
      let g := with_state (install_assignment r new_assignment revoked fetched) g in
      match apply_reset (gc_auto_offset_reset g) (without_position (gc_state g)) s with
      | (Err e, s) => (Err e, (g, s))
      | (Ok reset, s) => (Ok tt, (with_state (with_positions (seed reset)) g, s))
      end
    end
  end.

Definition join_with_fetch_knobs (group_id : string) (topics : list string) (session_timeout_ms : Z) (group_instance_id : string)
    (heartbeat auto_commit : bool) (auto_commit_interval : Z) (auto_offset_reset assignor : string)
    (fetch_max_messages fetch_max_bytes : Z) (s : CS) : result GroupConsumer * CS :=
  match parse_assignor assignor with
  | Err e => (Err e, s)
  | Ok assignor =>
    match parse_auto_offset_reset auto_offset_reset with
    | Err e => (Err e, s)
    | Ok reset =>
      let g := mkGroupConsumer group_id topics (if session_timeout_ms =? 0 then 10000 else session_timeout_ms) group_instance_id
                 auto_commit auto_commit_interval reset assignor (clamp_fetch_max_messages fetch_max_messages)
                 (clamp_fetch_max_bytes fetch_max_bytes) heartbeat 0 no_state in
      match do_join (g, s) with
      | (Err e, (_, s)) => (Err e, s)
      | (Ok _, (g, s)) => (Ok g, s)
      end
    end
  end.

Definition join (group_id : string) (topics : list string) (session_timeout_ms : Z) (s : CS) : result GroupConsumer * CS :=
  join_with_fetch_knobs group_id topics session_timeout_ms "" true false 0 "earliest" "broker" POLL_MAX_MESSAGES POLL_MAX_BYTES s.

(** *** Commits *)

Definition commit_entries (st : JoinState) : list OffsetCommitEntry :=
  map (λ e, mkOffsetCommitEntry e.1.1 e.1.2 e.2 "") (reorder (map_to_list (js_positions st))).

Definition commit_unlocked (now : Z) (gs : G) : result unit * G :=
  let '(g, s) := gs in
  let st := gc_state g in
  if bool_decide (js_positions st = ∅) then (Ok tt, gs) else
  match commit_offsets (gc_group_id g) (js_member_id st) (js_generation st) (commit_entries st) s with
  | (Err e, s) => (Err e, (g, s))
  | (Ok _, s) => (Ok tt, (with_state (set_committed now) g, s))
  end.

Definition maybe_auto_commit (now : Z) (gs : G) : result unit * G :=
  if due_for_auto_commit (gc_auto_commit gs.1) (gc_auto_commit_interval gs.1) (js_last_auto_commit (gc_state gs.1)) now
  then commit_unlocked now gs else (Ok tt, gs).

(** *** Reading *)

(** One partition: its position moves with each record. *)
Definition take_records (tp : TP) (rs : list FetchRecord) (g : GroupConsumer) : GroupConsumer :=
  foldl (λ g r, with_state (with_positions (<[tp := u64_saturating_add (fr_offset r) 1]>)) g) g rs.

Definition fetched_from (tp : TP) (rs : list FetchRecord) : list FetchedRecord := map (mkFetchedRecord tp.1 tp.2) rs.

Fixpoint poll_partitions (member_id : string) (assignment : list TP) (gs : G) : result (list FetchedRecord) * G :=
  match assignment with
  | [] => (Ok [], gs)
  | tp :: assignment =>
    let '(g, s) := gs in
    let from := default 0 (js_positions (gc_state g) !! tp) in
    match fetch_opts_for (gc_group_id g) member_id tp.1 tp.2 from (clamp_fetch_max_messages (gc_fetch_max_messages g)) 0
            (clamp_fetch_max_bytes (gc_fetch_max_bytes g)) s with
    | (Err e, s) => (Err e, (g, s))
    | (Ok r, s) =>
      let! (out, gs) := poll_partitions member_id assignment (take_records tp (ft_records r) g, s) in
      (Ok (fetched_from tp (ft_records r) ++ out), gs)
    end
  end.

(** The heartbeat of a consumer, and the join it may call for. *)
Definition heartbeat_once (gs : G) : result unit * G :=
  let '(g, s) := gs in
  let g := count_heartbeat g in
  match heartbeat (gc_group_id g) (js_member_id (gc_state g)) (js_generation (gc_state g)) s with
  | (Err e, s) => (Err e, (g, s))
  | (Ok code, s) => if needs_rebalance code then do_join (g, s) else (Ok tt, (g, s))
  end.

Definition poll (now : Z) (gs : G) : result (list FetchedRecord) * G :=
  let! (_, gs) := heartbeat_once gs in
  let st := gc_state gs.1 in
  let! (out, gs) := poll_partitions (js_member_id st) (js_assignment st) gs in
  match out with
  | [] => (Ok [], gs)
  | _ =>
    let! (_, gs) := maybe_auto_commit now (with_state set_dirty gs.1, gs.2) in
    (Ok out, gs)
  end.

Definition commit (now : Z) (gs : G) : result unit * G := commit_unlocked now gs.

Definition leave (now : Z) (gs : G) : result unit * G :=
  let gs := if gc_auto_commit gs.1 && js_dirty (gc_state gs.1) then (commit_unlocked now gs).2 else gs in
  let '(r, s) := leave_group (gc_group_id gs.1) (js_member_id (gc_state gs.1)) gs.2 in
  (r, (gs.1, s)).

(** One turn of [heartbeat_loop]: what fails is ignored. *)
Definition heartbeat_tick (gs : G) : G := (heartbeat_once gs).2.

End consumer.
