(* ===== verification/ConsumerProps.v ===== *)
(** * The group consumer: what it skips

    A consumer group reads a partition through positions: those that its
    members hold and the one committed at the broker.  Against what a broker
    promises (a fetch returns the next records there are, an offset fetched is
    one that was committed, an earliest offset has nothing before it), no
    position of a group passes a record that none of its members has
    delivered. *)

From Stdlib Require Import Strings.String.
From S2P Require Import Prelude Bytes Text OffsetStore Messages Request Response Core Scram Assignor Client ClientTraffic Consumer.
#[local] Open Scope Z_scope.

(** ** What a broker promises to the members of a group *)

(** The requests of a member, and the positions they may commit. *)
Definition member_request (grp : string) (req : Request) : bool :=
  service req ||
  match req with
  | Request.JoinGroup g _ _ _ _ _ | Request.Heartbeat g _ _ | Request.SyncGroup g _ _ [] | Request.LeaveGroup g _
  | Request.OffsetFetch g _ | Request.DescribeGroup g => String.eqb g grp
  | Request.OffsetCommit g _ _ es => String.eqb g grp && forallb (λ e, String.eqb (oce_metadata e) "") es
  | Request.Fetch _ _ from mm _ _ _ _ => 0 <=? mm
  | Request.ListOffsets _ _ ts iso => (ts =? -1) && (iso =? 0)
  | _ => false
  end.

Definition entries_of (req : Request) : list (TP * Z) :=
  match req with
  | Request.OffsetCommit _ _ _ es => map (λ e, ((oce_topic e, oce_partition e), oce_offset e)) es
  | _ => []
  end.

(** The state of the brokers, as the group sees it: the records that can be
    read, an offset that later records do not precede, the positions
    committed; and the partitions whose positions are kept apart. *)
Record GroupView (W : Type) := mkGroupView {
  gv_ok : W → Prop;
  gv_log : W → TP → list FetchRecord;
  gv_end : W → TP → Z;
  gv_committed : W → TP → option Z;
  gv_name : TP → Prop;
}.
Arguments gv_name {W}. Arguments gv_ok {W}. Arguments gv_log {W}. Arguments gv_end {W}. Arguments gv_committed {W}.

(** Records are added at the end, or go away. *)
Definition evolves {W} (V : GroupView W) (w w' : W) : Prop :=
  ∀ tp, gv_end V w tp ≤ gv_end V w' tp ∧
        ∀ r, r ∈ gv_log V w' tp → r ∈ gv_log V w tp ∨ gv_end V w tp ≤ fr_offset r.

(** No position of a partition with such a name is committed but those given. *)
Definition commits_only {W} (V : GroupView W) (es : list (TP * Z)) (w w' : W) : Prop :=
  ∀ tp q, gv_name V tp → gv_committed V w' tp = Some q → gv_committed V w tp = Some q ∨ (tp, q) ∈ es.

Definition preserves {W} (V : GroupView W) (es : list (TP * Z)) (w w' : W) : Prop :=
  gv_ok V w' ∧ evolves V w w' ∧ commits_only V es w w'.

Definition entries_ok {W} (V : GroupView W) (es : list (TP * Z)) : Prop :=
  Forall (λ e, gv_name V e.1 ∧ 0 ≤ e.2 ≤ u64_max) es.

Class GroupServer {W} (N : Network W) (V : GroupView W) (grp : string) : Prop := {
  gs_round req r w w' : gv_ok V w → member_request grp req = true → entries_ok V (entries_of req) → round_trip req w = (r, w') →
    preserves V (entries_of req) w w';
  gs_connect addr r w w' : gv_ok V w → connect_to addr w = (r, w') → preserves V [] w w';
  gs_uuid x w w' : gv_ok V w → draw_uuid w = (x, w') → preserves V [] w w';
  gs_nonce x w w' : gv_ok V w → draw_nonce w = (x, w') → preserves V [] w w';
  gs_log w tp : gv_ok V w →
    StronglySorted (λ r r', fr_offset r < fr_offset r') (gv_log V w tp) ∧
    Forall (λ r, 0 ≤ fr_offset r < gv_end V w tp) (gv_log V w tp) ∧ gv_end V w tp ≤ u64_max;
  gs_fetch t p from mm mb wait g m t' p' hwm rs w w' : gv_ok V w → 0 ≤ mm →
    round_trip (Request.Fetch t p from mm mb wait g m) w = (Ok (Response.Fetch t' p' hwm 0 rs), w') →
    ∃ rest, filter (λ r, from ≤ fr_offset r) (gv_log V w' (t, p)) = rs ++ rest;
  gs_offsets es out w w' : gv_ok V w → es ≠ [] →
    round_trip (Request.OffsetFetch grp es) w = (Ok (Response.OffsetFetch 0 out), w') →
    Forall (λ e, gv_name V (ofe_topic e, ofe_partition e) → ofe_offset e ≠ OFFSET_UNKNOWN →
      gv_committed V w' (ofe_topic e, ofe_partition e) = Some (ofe_offset e)) out;
  gs_earliest t ps t' es w w' : gv_ok V w →
    round_trip (Request.ListOffsets t ps (-1) 0) w = (Ok (Response.ListOffsets 0 t' es), w') →
    Forall (λ e, 0 ≤ ol_earliest e ≤ gv_end V w' (t, ol_partition e) ∧
      Forall (λ r, ol_earliest e ≤ fr_offset r) (gv_log V w' (t, ol_partition e))) es;
}.

(** ** Positions that skip nothing *)

Notation Delivered := (gset (TP * Z)).

Section positions.
Context {W : Type} {N : Network W} {V : GroupView W} {grp : string} `{HS : !GroupServer N V grp} `{ScramCrypto} `{IterOrder}.
Implicit Types (D : Delivered) (w : W) (s : Client * W) (g : GroupConsumer).

Definition reached D w (tp : TP) (q : Z) : Prop :=
  0 ≤ q ≤ gv_end V w tp ∧ ∀ r, r ∈ gv_log V w tp → fr_offset r < q → (tp, fr_offset r) ∈ D.

Definition sound D w : Prop := gv_ok V w ∧ ∀ tp q, gv_name V tp → gv_committed V w tp = Some q → reached D w tp q.

Definition held D w (ps : gmap TP Z) : Prop := ∀ tp q, gv_name V tp → ps !! tp = Some q → reached D w tp q.

Lemma view_evolves_refl w : evolves V w w.
Proof. intros tp. split; [done|]. intros r Hr. by left. Qed.

Lemma evolves_trans w1 w2 w3 : evolves V w1 w2 → evolves V w2 w3 → evolves V w1 w3.
Proof.
  intros H1 H2 tp. destruct (H1 tp) as [He1 Hl1], (H2 tp) as [He2 Hl2]. split; [lia|].
  intros r Hr. destruct (Hl2 r Hr) as [Hr2|?]; [|right; lia]. by apply Hl1.
Qed.

Lemma reached_evolves D w w' tp q : evolves V w w' → reached D w tp q → reached D w' tp q.
Proof.
  intros He [Hq Hr]. destruct (He tp) as [Hend Hlog]. split; [lia|].
  intros r Hin Hlt. destruct (Hlog r Hin) as [Hin'|?]; [by apply Hr|lia].
Qed.

Lemma reached_more D D' w tp q : D ⊆ D' → reached D w tp q → reached D' w tp q.
Proof. intros HD [Hq Hr]. split; [done|]. intros r Hin Hlt. by apply HD, Hr. Qed.

Lemma held_evolves D w w' ps : evolves V w w' → held D w ps → held D w' ps.
Proof. intros He Hh tp q Hn Hq. by eapply reached_evolves, Hh. Qed.

Lemma sound_more D D' w : D ⊆ D' → sound D w → sound D' w.
Proof. intros HD [Hok Hs]. split; [done|]. intros tp q Hn Hq. by eapply reached_more, Hs. Qed.

(** An exchange that commits only such positions. *)
Lemma preserves_sound D es w w' : Forall (λ e, reached D w e.1 e.2) es → sound D w → preserves V es w w' → sound D w' ∧ evolves V w w'.
Proof.
  intros Hes [Hok Hs] (Hok' & He & Hc). split; [|done]. split; [done|]. intros tp q Hn Hq.
  eapply reached_evolves; [exact He|]. destruct (Hc tp q Hn Hq) as [Hq'|Hin]; [by apply Hs|].
  exact (proj1 (Forall_forall _ _) Hes (tp, q) Hin).
Qed.

Lemma reached_ok D w es : gv_ok V w → Forall (λ e, gv_name V e.1 ∧ reached D w e.1 e.2) es → entries_ok V es.
Proof.
  intros Hok HF. eapply Forall_impl; [exact HF|]. intros [tp q] [Hn [Hq _]]. split; [done|]. pose proof (proj2 (proj2 (gs_log w tp Hok))). cbn [fst snd] in *. lia.
Qed.

Lemma talks_sound D Q w w' : talks Q w w' →
  (∀ req, Q req → member_request grp req = true) → (∀ req, Q req → Forall (λ e, gv_name V e.1 ∧ reached D w e.1 e.2) (entries_of req)) →
  sound D w → sound D w' ∧ evolves V w w'.
Proof.
  intros Ht HQ. induction Ht as [w|req r w w1 w2 Hreq E Ht IH|addr r w w1 w2 E Ht IH|x w w1 w2 E Ht IH|x w w1 w2 E Ht IH]; intros Hes Hs.
  { split; [done|apply view_evolves_refl]. }
  all: assert (Hstep : sound D w1 ∧ evolves V w w1) by
    (eapply preserves_sound; [|exact Hs|first [by eapply gs_round; [apply Hs|apply HQ|eapply reached_ok; [apply Hs|by apply Hes]|] |
       by eapply gs_connect; [apply Hs|] | by eapply gs_uuid; [apply Hs|] | by eapply gs_nonce; [apply Hs|]]];
     first [eapply Forall_impl; [by apply Hes|by intros e [_ He]]|constructor]).
  all: destruct Hstep as [Hs1 He1]; destruct IH as [Hs2 He2]; [|done|split; [done|by eapply evolves_trans]].
  all: intros req' Hreq'; eapply Forall_impl; [by apply Hes|]; intros e [Hn He]; split; [done|]; by eapply reached_evolves.
Qed.

(** A call that commits nothing. *)
Lemma quiet_sound D req w w' : talks (mine req) w w' → member_request grp req = true → entries_of req = [] → sound D w →
  sound D w' ∧ evolves V w w'.
Proof.
  intros Ht Hreq Hes. eapply talks_sound; [exact Ht| |].
  - intros q [->|Hq]; [done|]. unfold member_request. by rewrite Hq.
  - intros q [->|Hq]; [rewrite Hes; constructor|]. destruct q; try discriminate; constructor.
Qed.

Lemma serviced_sound D w w' : talks (λ q, service q = true) w w' → sound D w → sound D w' ∧ evolves V w w'.
Proof.
  intros Ht. eapply talks_sound; [exact Ht| |].
  - intros q Hq. unfold member_request. by rewrite Hq.
  - intros q Hq. destruct q; try discriminate; constructor.
Qed.

(** ** The calls of a consumer *)

Lemma join_sound D mid st ts inst s r s' :
  join_group_with_instance grp mid st ts inst s = (r, s') → sound D s.2 → sound D s'.2 ∧ evolves V s.2 s'.2.
Proof.
  unfold join_group_with_instance. intros E Hs.
  destruct (if String.eqb mid "" && String.eqb inst "" then _ else _) as [mid' s1] eqn:E1.
  assert (H1 : sound D s1.2 ∧ evolves V s.2 s1.2).
  { destruct (String.eqb mid "" && String.eqb inst ""); [|injection E1 as <- <-; split; [done|apply view_evolves_refl]].
    destruct (draw_uuid s.2) as [id w] eqn:Eu. injection E1 as <- <-.
    eapply preserves_sound; [constructor|exact Hs|]. eapply gs_uuid; [apply Hs|exact Eu]. }
  destruct H1 as [Hs1 He1]. cbn zeta in E.
  destruct (if String.eqb mid' "" && String.eqb inst "" then _ else _) as [resp s2] eqn:E2.
  assert (Ht : talks (mine (Request.JoinGroup grp mid' st ts inst 0)) s1.2 s2.2).
  { destruct (String.eqb mid' "" && String.eqb inst ""); [by apply exchange_call in E2 as [? _]|by apply controlled_exchange in E2 as [? _]]. }
  apply (quiet_sound D) in Ht as [Hs2 He2]; [|cbn; apply String.eqb_refl|done|done].
  assert (s' = s2) as -> by (destruct resp; cbn [bind_st] in E; by injection E as _ <-).
  split; [done|]. by eapply evolves_trans.
Qed.

Lemma join_retrying_sound D mid st ts inst n s r s' :
  join_retrying grp mid st ts inst n s = (r, s') → sound D s.2 → sound D s'.2 ∧ evolves V s.2 s'.2.
Proof.
  revert s. induction n as [|n IH]; intros s; cbn [join_retrying]; destruct (join_group_with_instance _ _ _ _ _ s) as [[x|e] s1] eqn:E; intros Hx Hs;
    apply (join_sound D) in E as [Hs1 He1]; try done.
  all: repeat case_match; simplify_eq; try done.
  destruct (IH _ Hx Hs1) as [Hs2 He2]. split; [done|]. by eapply evolves_trans.
Qed.

Lemma controlled_sound D code_of retryable req d n s r s' :
  controlled code_of retryable req d n s = (r, s') → member_request grp req = true → entries_of req = [] → sound D s.2 →
  sound D s'.2 ∧ evolves V s.2 s'.2.
Proof. intros [Ht _]%controlled_exchange. by apply quiet_sound. Qed.

Lemma heartbeat_sound D mid gen s r s' : heartbeat grp mid gen s = (r, s') → sound D s.2 → sound D s'.2 ∧ evolves V s.2 s'.2.
Proof.
  unfold heartbeat. intros E Hs. destruct (controlled _ _ _ _ _ s) as [x s1] eqn:E1.
  apply (controlled_sound D) in E1; [|cbn; apply String.eqb_refl|done|done].
  by assert (s' = s1) as -> by (destruct x; cbn [bind_st] in E; by injection E as _ <-).
Qed.

Lemma sync_sound D mid gen s r s' : sync_group grp mid gen s = (r, s') → sound D s.2 → sound D s'.2 ∧ evolves V s.2 s'.2.
Proof.
  unfold sync_group. intros E Hs. destruct (controlled _ _ _ _ _ s) as [x s1] eqn:E1.
  apply (controlled_sound D) in E1; [|cbn; apply String.eqb_refl|done|done].
  by assert (s' = s1) as -> by (destruct x; cbn [bind_st] in E; by injection E as _ <-).
Qed.

Lemma describe_sound D s r s' : describe_group grp s = (r, s') → sound D s.2 → sound D s'.2 ∧ evolves V s.2 s'.2.
Proof.
  unfold describe_group, describe_list_groups_round_trip. intros E Hs. destruct (controlled _ _ _ _ _ s) as [x s1] eqn:E1.
  apply (controlled_sound D) in E1; [|cbn; apply String.eqb_refl|done|done].
  by assert (s' = s1) as -> by (destruct x; cbn [bind_st] in E; by injection E as _ <-).
Qed.

Lemma leave_sound D mid s r s' : leave_group grp mid s = (r, s') → sound D s.2 → sound D s'.2 ∧ evolves V s.2 s'.2.
Proof.
  unfold leave_group. intros E Hs. destruct (controlled _ _ _ _ _ s) as [x s1] eqn:E1.
  apply (controlled_sound D) in E1; [|cbn; apply String.eqb_refl|done|done].
  by assert (s' = s1) as -> by (destruct x; cbn [bind_st] in E; by injection E as _ <-).
Qed.

(** Positions that are committed. *)
Lemma commit_sound D mid gen es s r s' : commit_offsets grp mid gen es s = (r, s') → sound D s.2 →
  Forall (λ e, gv_name V (oce_topic e, oce_partition e) ∧ reached D s.2 (oce_topic e, oce_partition e) (oce_offset e)) es →
  forallb (λ e, String.eqb (oce_metadata e) "") es = true →
  sound D s'.2 ∧ evolves V s.2 s'.2.
Proof.
  unfold commit_offsets, offset_admin_round_trip. intros E Hs Hes Hmd. destruct (controlled _ _ _ _ _ s) as [x s1] eqn:E1.
  apply controlled_exchange in E1 as [Ht _].
  assert (s' = s1) as -> by (destruct x; cbn [bind_st] in E; by injection E as _ <-).
  eapply talks_sound; [exact Ht| | |exact Hs].
  - intros q [->|Hq]; [cbn; by rewrite String.eqb_refl, Hmd|]. unfold member_request. by rewrite Hq.
  - intros q [->|Hq]; [|destruct q; try discriminate; constructor]. cbn [entries_of]. by apply Forall_map.
Qed.

(** The answer, and what the brokers did before and after it. *)
Lemma answers_sound D req resp w w' : answers req resp w w' → member_request grp req = true → entries_of req = [] → sound D w →
  ∃ w1 w2, sound D w1 ∧ round_trip req w1 = (Ok resp, w2) ∧ sound D w2 ∧ evolves V w2 w' ∧ evolves V w w2.
Proof.
  intros (w1 & w2 & T1 & E & T2) Hm He Hs. exists w1, w2.
  destruct (quiet_sound D req w w1 T1 Hm He Hs) as [Hs1 He1].
  destruct (preserves_sound D (entries_of req) w1 w2) as [Hs2 He2]; [rewrite He; constructor|done|by eapply gs_round; [apply Hs1| |rewrite He; constructor|]|].
  destruct (quiet_sound D req w2 w' T2 Hm He Hs2) as [Hs3 He3].
  split; [done|]. split; [done|]. split; [done|]. split; [done|]. by eapply evolves_trans.
Qed.

Lemma fetch_offsets_sound D es s r s' : es ≠ [] → fetch_offsets grp es s = (r, s') → sound D s.2 →
  (sound D s'.2 ∧ evolves V s.2 s'.2) ∧
  ∀ out, r = Ok out → Forall (λ e, gv_name V (ofe_topic e, ofe_partition e) → ofe_offset e ≠ OFFSET_UNKNOWN → reached D s'.2 (ofe_topic e, ofe_partition e) (ofe_offset e)) out.
Proof.
  unfold fetch_offsets, offset_admin_round_trip. intros Hne E Hs. destruct (controlled _ _ _ _ _ s) as [x s1] eqn:E1.
  pose proof (controlled_sound D _ _ _ _ _ _ _ _ E1 ltac:(cbn; apply String.eqb_refl) eq_refl Hs) as Hs1.
  assert (s' = s1) as -> by (destruct x; cbn [bind_st] in E; by injection E as _ <-).
  split; [done|]. intros out ->. destruct x as [resp|]; [|discriminate]. cbn [bind_st] in E. injection E as E.
  unfold reply in E. destruct resp; try discriminate.
  destruct (check_ok _ _) as [[]|] eqn:Hc; [|discriminate]. apply check_ok_zero in Hc as ->. injection E as ->.
  apply controlled_exchange in E1 as [_ Ha]. specialize (Ha _ eq_refl).
  destruct (answers_sound D _ _ _ _ Ha ltac:(cbn; apply String.eqb_refl) eq_refl Hs) as (w1 & w2 & [Hok1 _] & Hrt & [_ Hs2] & He & _).
  pose proof (gs_offsets _ _ _ _ Hok1 Hne Hrt) as Hout. eapply Forall_impl; [exact Hout|]. intros e Hcm Hname Hknown.
  eapply reached_evolves; [exact He|]. by apply Hs2, Hcm.
Qed.

Lemma list_offsets_sound D t ps s r s' : list_offsets t ps s = (r, s') → sound D s.2 →
  (sound D s'.2 ∧ evolves V s.2 s'.2) ∧
  ∀ l, r = Ok l → Forall (λ e, reached D s'.2 (t, ol_partition e) (ol_earliest e)) l.2.
Proof.
  unfold list_offsets, list_offsets_at, list_offsets_at_isolated. intros E Hs. destruct (led _ _ _ _ _ s) as [x s1] eqn:E1.
  apply led_exchange in E1 as [Ht Ha].
  2: { intros resp [] b y Hm. destruct (redirect_to_leader _ _ _) as [[]] eqn:E2; apply redirect_to_leader_talks in E2; by injection Hm as <- <-. }
  pose proof (quiet_sound D _ _ _ Ht ltac:(done) eq_refl Hs) as Hs1.
  assert (s' = s1) as -> by (destruct x; cbn [bind_st] in E; by injection E as _ <-).
  split; [done|]. intros l ->. destruct x as [resp|]; [|discriminate]. cbn [bind_st] in E. injection E as E.
  unfold reply in E. destruct resp; try discriminate.
  destruct (check_ok _ _) as [[]|] eqn:Hc; [|discriminate]. apply check_ok_zero in Hc as ->. injection E as <-. cbn [snd].
  destruct (answers_sound D _ _ _ _ (Ha _ eq_refl) ltac:(done) eq_refl Hs) as (w1 & w2 & [Hok1 _] & Hrt & _ & He & _).
  pose proof (gs_earliest _ _ _ _ _ _ Hok1 Hrt) as Hout. eapply Forall_impl; [exact Hout|]. intros e [Hend Hlog].
  eapply reached_evolves; [exact He|]. split; [done|]. intros y Hy Hlt. apply (proj1 (Forall_forall _ _) Hlog) in Hy. lia.
Qed.

Lemma pick_offsets_got t got parts out : pick_offsets t got parts = Ok out → Forall (λ e, e.1.1 = t ∧ got !! e.1.2 = Some e.2) out.
Proof.
  revert out. induction parts as [|p parts IH]; intros out; cbn [pick_offsets]; [intros [= <-]; constructor|].
  destruct (got !! p) as [q|] eqn:Eq; [|discriminate]. destruct (pick_offsets t got parts) as [rest|]; [|discriminate].
  intros [= <-]. constructor; [done|by apply IH].
Qed.

(** The last entry for a key of a map that is built from a list. *)
Lemma foldl_insert_some {A} (f : A → Z) (h : A → Z) l : ∀ (m : gmap Z Z) k v,
  foldl (λ m e, <[f e := h e]> m) m l !! k = Some v → m !! k = Some v ∨ ∃ e, e ∈ l ∧ f e = k ∧ h e = v.
Proof.
  induction l as [|e l IH]; intros m k v; cbn; [by left|]. intros [Hm|(e' & He' & Hk)]%IH.
  - apply lookup_insert_Some in Hm as [[? ?]|[_ ?]]; [right; exists e; split; [left|done]|by left].
  - right. exists e'. split; [by right|done].
Qed.

Lemma reset_topics_sound D by_topic : ∀ s r s', reset_topics true by_topic s = (r, s') → sound D s.2 →
  (sound D s'.2 ∧ evolves V s.2 s'.2) ∧ ∀ out, r = Ok out → Forall (λ e, reached D s'.2 e.1 e.2) out.
Proof.
  induction by_topic as [|[t parts] by_topic IH]; intros s r s'; cbn [reset_topics]; intros E Hs.
  { injection E as <- <-. split; [split; [done|apply view_evolves_refl]|]. intros out [= <-]. constructor. }
  destruct (list_offsets t parts s) as [[l|e] s1] eqn:E1; cbn [bind_st] in E.
  2: { injection E as <- <-. split; [|discriminate]. by apply (list_offsets_sound D) in E1 as [? _]. }
  apply (list_offsets_sound D) in E1 as [[Hs1 He1] Hl]; [|done]. specialize (Hl l eq_refl).
  destruct (pick_offsets _ _ _) as [out|e] eqn:Ep; [|injection E as <- <-; split; [done|discriminate]].
  destruct (reset_topics true by_topic s1) as [r1 s2] eqn:E2. destruct (IH _ _ _ E2 Hs1) as [[Hs2 He2] Hr1].
  assert (He : evolves V s.2 s2.2) by (by eapply evolves_trans).
  destruct r1 as [rest|e]; cbn [bind_st] in E; injection E as <- <-; split; try done. intros all [= <-].
  apply Forall_app. split; [|by apply Hr1]. apply pick_offsets_got in Ep. eapply Forall_impl; [exact Ep|].
  intros [[t' p] q] [Ht Hgot]. cbn [fst snd] in *. subst t'. apply foldl_insert_some in Hgot as [Hn|(e & Hin & <- & <-)]; [by rewrite lookup_empty in Hn|].
  eapply reached_evolves; [exact He2|]. exact (proj1 (Forall_forall _ _) Hl e Hin).
Qed.

Lemma apply_reset_sound D ps s r s' : apply_reset Earliest ps s = (r, s') → sound D s.2 →
  (sound D s'.2 ∧ evolves V s.2 s'.2) ∧ ∀ out, r = Ok out → Forall (λ e, reached D s'.2 e.1 e.2) out.
Proof.
  unfold apply_reset. destruct ps as [|[t p] ps]; [|apply reset_topics_sound].
  intros [= <- <-] Hs. split; [split; [done|apply view_evolves_refl]|]. intros out [= <-]. constructor.
Qed.

(** *** Positions of a member *)

Lemma held_delete D w ps revoked : held D w ps → held D w (foldl (λ m tp, delete tp m) ps revoked).
Proof.
  revert ps. induction revoked as [|x revoked IH]; intros ps Hh; [done|]. cbn. apply IH. intros tp q Hn Hq.
  apply lookup_delete_Some in Hq as [_ Hq]. by apply Hh.
Qed.

Lemma held_fetched D w ps (fetched : list OffsetFetchEntry) :
  Forall (λ e, gv_name V (ofe_topic e, ofe_partition e) → ofe_offset e ≠ OFFSET_UNKNOWN → reached D w (ofe_topic e, ofe_partition e) (ofe_offset e)) fetched → held D w ps →
  held D w (foldl (λ m e, if ofe_offset e =? OFFSET_UNKNOWN then m else <[(ofe_topic e, ofe_partition e) := ofe_offset e]> m) ps fetched).
Proof.
  revert ps. induction fetched as [|e fetched IH]; intros ps HF Hh; [done|]. apply Forall_cons in HF as [He HF]. cbn. apply IH; [done|].
  destruct (Z.eqb_spec (ofe_offset e) OFFSET_UNKNOWN) as [|Hne]; [done|]. intros tp q Hn [[<- <-]|[_ Hq]]%lookup_insert_Some; [by apply He|by apply Hh].
Qed.

Lemma held_seed D w ps reset : Forall (λ e, reached D w e.1 e.2) reset → held D w ps → held D w (seed reset ps).
Proof.
  unfold seed. revert ps. induction reset as [|e reset IH]; intros ps HF Hh; [done|]. apply Forall_cons in HF as [He HF]. cbn. apply IH; [done|].
  case_bool_decide; [|done]. intros tp q Hn [[<- <-]|[_ Hq]]%lookup_insert_Some; [done|by apply Hh].
Qed.

Record fine D g w : Prop := {
  fn_group : gc_group_id g = grp;
  fn_policy : gc_auto_offset_reset g = Earliest;
  fn_knob : 0 ≤ gc_fetch_max_messages g;
  fn_held : held D w (js_positions (gc_state g));
}.

(** What an operation of a consumer leaves behind. *)
Record leaves D (gs gs' : GroupConsumer * (Client * W)) : Prop := {
  lv_sound : sound D gs'.2.2;
  lv_evolves : evolves V gs.2.2 gs'.2.2;
  lv_fine : fine D gs'.1 gs'.2.2;
  lv_auto : gc_auto_commit gs'.1 = gc_auto_commit gs.1;
}.

Lemma leaves_trans D gs1 gs2 gs3 : leaves D gs1 gs2 → leaves D gs2 gs3 → leaves D gs1 gs3.
Proof. intros [_ He1 _ Ha1] [Hs He2 Hf Ha2]. split; [done|by eapply evolves_trans|done|congruence]. Qed.

(** The consumer as it was, the brokers moved on. *)
Lemma leaves_same D g s s' : fine D g s.2 → sound D s'.2 → evolves V s.2 s'.2 → leaves D (g, s) (g, s').
Proof. intros [F1 F2 F3 F4] Hs He. split; [done|done| |done]. split; [done|done|done|]. by eapply held_evolves. Qed.

Lemma leaves_positions D g st s s' :
  fine D g s.2 → sound D s'.2 → evolves V s.2 s'.2 → held D s'.2 (js_positions (st (gc_state g))) → leaves D (g, s) (with_state st g, s').
Proof. intros [F1 F2 F3 F4] Hs He Hh. by split. Qed.

(** *** Joining *)

Lemma override_sound D topics self joined members s x s' :
  apply_range_override grp topics self joined members s = (x, s') → sound D s.2 → sound D s'.2 ∧ evolves V s.2 s'.2.
Proof.
  unfold apply_range_override. intros E Hs. cbn zeta in E.
  set (found := match range_members_from_join members topics with Some _ => _ | None => _ end) in E.
  destruct found as [ms s1] eqn:E1.
  assert (H1 : sound D s1.2 ∧ evolves V s.2 s1.2).
  { subst found. destruct (range_members_from_join members topics); [injection E1 as <- <-; split; [done|apply view_evolves_refl]|].
    unfold range_members_from_describe in E1. destruct (describe_group grp s) as [[[[gid gen] mems]|e] s2] eqn:E2;
      apply (describe_sound D) in E2; try done; cbn zeta in E1; repeat case_match; by simplify_eq. }
  destruct H1 as [Hs1 He1]. destruct ms as [[ids mt]|]; [|by injection E as <- <-].
  destruct (metadata s1) as [[meta|e] s2] eqn:E2; apply metadata_talks in E2; apply (serviced_sound D) in E2 as [Hs2 He2]; try done;
    injection E as <- <-; (split; [done|by eapply evolves_trans]).
Qed.

Lemma confirmed_sound D g r s x s' :
  gc_group_id g = grp → confirmed_assignment g r s = (x, s') → sound D s.2 → sound D s'.2 ∧ evolves V s.2 s'.2.
Proof.
  unfold confirmed_assignment. intros Hg E Hs. rewrite Hg in E. cbn zeta in E.
  destruct (sync_group grp (jr_member_id r) (jr_generation r) s) as [y s1] eqn:E1. apply (sync_sound D) in E1 as [Hs1 He1]; [|done].
  set (ja := match y with Ok (_ :: _) => _ | _ => _ end) in E. destruct ja as [joined s2] eqn:E2.
  assert (s2 = s1) as -> by (subst ja; repeat case_match; by simplify_eq).
  destruct (gc_assignor g); [by injection E as <- <-|]. apply (override_sound D) in E as [Hs2 He2]; [|done].
  split; [done|]. by eapply evolves_trans.
Qed.

Lemma do_join_sound D g s r gs' : do_join (g, s) = (r, gs') → sound D s.2 → fine D g s.2 → leaves D (g, s) gs'.
Proof.
  unfold do_join. intros E Hs Hf. pose proof Hf as [Hg Hp _ Hh]. rewrite Hg in E.
  destruct (join_retrying _ _ _ _ _ _ s) as [[jr|e] s1] eqn:E1; apply (join_retrying_sound D) in E1 as [Hs1 He1]; try done.
  2: { injection E as <- <-. by apply leaves_same. }
  destruct (confirmed_assignment g jr s1) as [na s2] eqn:E2. apply (confirmed_sound D) in E2 as [Hs2 He2]; [|done|done].
  pose proof (evolves_trans _ _ _ He1 He2) as He12.
  set (ff := match partitions_to_fetch _ _ _ with [] => _ | _ => _ end) in E. destruct ff as [fetched s3] eqn:E3.
  assert (H3 : (sound D s3.2 ∧ evolves V s2.2 s3.2) ∧ ∀ out, fetched = Ok out →
    Forall (λ e, gv_name V (ofe_topic e, ofe_partition e) → ofe_offset e ≠ OFFSET_UNKNOWN → reached D s3.2 (ofe_topic e, ofe_partition e) (ofe_offset e)) out).
  { subst ff. destruct (partitions_to_fetch _ _ _); [|by eapply fetch_offsets_sound; [|exact E3|]].
    injection E3 as <- <-. split; [split; [done|apply view_evolves_refl]|]. intros out [= <-]. constructor. }
  destruct H3 as [[Hs3 He3] Hfe]. pose proof (evolves_trans _ _ _ He12 He3) as He13.
  destruct fetched as [fetched|e]; [|injection E as <- <-; by apply leaves_same]. specialize (Hfe fetched eq_refl).
  set (st := install_assignment _ _ _ _) in E. change (gc_auto_offset_reset (with_state st g)) with (gc_auto_offset_reset g) in E. rewrite Hp in E.
  assert (Hh3 : held D s3.2 (js_positions (st (gc_state g)))).
  { apply held_fetched; [done|]. apply held_delete. by eapply held_evolves. }
  destruct (apply_reset _ _ s3) as [reset s4] eqn:E4. destruct (apply_reset_sound D _ _ _ _ E4 Hs3) as [[Hs4 He4] Hr].
  pose proof (evolves_trans _ _ _ He13 He4) as He14. pose proof (held_evolves D _ _ _ He4 Hh3) as Hh4.
  assert (L1 : leaves D (g, s) (with_state st g, s4)) by (by apply leaves_positions).
  destruct reset as [reset|e]; injection E as <- <-; [|done].
  eapply leaves_trans; [exact L1|]. apply leaves_positions; [apply L1|done|apply view_evolves_refl|]. apply held_seed; [by apply Hr|exact Hh4].
Qed.

(** *** Commits *)

(** The positions that may be committed. *)
Definition named g : Prop := ∀ tp q, js_positions (gc_state g) !! tp = Some q → gv_name V tp.

Lemma commit_positions now g s r gs' : commit_unlocked now (g, s) = (r, gs') → js_positions (gc_state gs'.1) = js_positions (gc_state g).
Proof.
  unfold commit_unlocked. case_bool_decide; [by intros [= <- <-]|]. destruct (commit_offsets _ _ _ _ s) as [[u|e] s1]; by intros [= <- <-].
Qed.

Lemma commit_unlocked_sound D now g s r gs' : commit_unlocked now (g, s) = (r, gs') → named g → sound D s.2 → fine D g s.2 → leaves D (g, s) gs'.
Proof.
  unfold commit_unlocked. intros E Hn Hs Hf. pose proof Hf as [Hg _ _ Hh]. rewrite Hg in E.
  case_bool_decide; [injection E as <- <-; apply leaves_same; [done|done|apply view_evolves_refl]|].
  destruct (commit_offsets _ _ _ _ s) as [[u|e] s1] eqn:E1.
  all: apply (commit_sound D) in E1 as [Hs1 He1]; [|done| |].
  all: try (apply Forall_map, Forall_forall; intros [[t p] q] Hin; rewrite elem_of_reorder in Hin;
    apply elem_of_map_to_list in Hin; split; [by eapply Hn|apply Hh; [by eapply Hn|done]]).
  all: try (apply forallb_forall; intros ? [x [<- _]]%in_map_iff; reflexivity).
  - injection E as <- <-. apply leaves_positions; [done..|]. by eapply held_evolves.
  - injection E as <- <-. by apply leaves_same.
Qed.

(** *** Reading *)

Definition keys (out : list FetchedRecord) : Delivered :=
  list_to_set (map (λ f, ((fd_topic f, fd_partition f), fr_offset (fd_record f))) out).

Lemma take_records_state tp rs g :
  take_records tp rs g = g ∧ rs = [] ∨
  ∃ r, last rs = Some r ∧ take_records tp rs g = with_state (with_positions (<[tp := u64_saturating_add (fr_offset r) 1]>)) g.
Proof.
  unfold take_records. induction rs as [|r rs IH] using rev_ind; [by left|]. right. exists r. rewrite last_snoc, foldl_snoc. split; [done|].
  destruct IH as [[-> _]|(r' & _ & ->)]; [done|]. unfold with_state, with_positions. cbn. by rewrite insert_insert_eq.
Qed.

Lemma sorted_filter {A} (R : A → A → Prop) (P : A → Prop) `{∀ x, Decision (P x)} l : StronglySorted R l → StronglySorted R (filter P l).
Proof.
  induction 1 as [|x l Hs IH Hx]; [constructor|]. rewrite filter_cons. case_decide; [|done]. constructor; [done|].
  apply Forall_forall. intros y [_ Hy]%list_elem_of_filter. by apply (proj1 (Forall_forall _ _) Hx).
Qed.

(** A read from a position moves it over the records that it returns. *)
Lemma reached_read D w tp from rs rest r : gv_ok V w →
  filter (λ x, from ≤ fr_offset x) (gv_log V w tp) = rs ++ rest → last rs = Some r →
  (from = 0 ∨ reached D w tp from) →
  reached (D ∪ list_to_set (map (λ x, (tp, fr_offset x)) rs)) w tp (u64_saturating_add (fr_offset r) 1).
Proof.
  intros Hok Hf Hl Hfrom. destruct (gs_log w tp Hok) as (Hsort & Hoff & Hmax).
  assert (Hsub : ∀ x, x ∈ rs ++ rest ↔ from ≤ fr_offset x ∧ x ∈ gv_log V w tp) by (intros x; rewrite <- Hf; by rewrite list_elem_of_filter).
  apply last_Some in Hl as [l ->].
  assert (Hr : 0 ≤ fr_offset r < gv_end V w tp).
  { assert (Hin : r ∈ gv_log V w tp) by (apply Hsub; set_solver). by apply (proj1 (Forall_forall _ _) Hoff) in Hin. }
  unfold u64_saturating_add. rewrite Z.min_l by lia. split; [lia|]. intros x Hx Hlt. rewrite elem_of_union, elem_of_list_to_set.
  destruct (decide (fr_offset x < from)) as [Hb|Hb].
  - left. destruct Hfrom as [->|[_ Hre]]; [apply (proj1 (Forall_forall _ _) Hoff) in Hx; lia|by apply Hre].
  - right. assert (Hin : x ∈ (l ++ [r]) ++ rest) by (apply Hsub; split; [lia|done]). apply elem_of_app in Hin as [Hin|Hin].
    + apply list_elem_of_In, in_map_iff. exists x. split; [done|by apply list_elem_of_In].
    + pose proof (sorted_filter _ (λ x, from ≤ fr_offset x) _ Hsort) as HsF. rewrite Hf in HsF.
      pose proof (StronglySorted_app_1_elem_of _ _ _ r x HsF ltac:(set_solver) Hin) as Hlt'. cbn in Hlt'. lia.
Qed.

Lemma fetch_quiet D gid mid tp from mm wait mb s r s' : 0 ≤ mm →
  fetch_opts_for gid mid tp.1 tp.2 from mm wait mb s = (r, s') → sound D s.2 →
  (sound D s'.2 ∧ evolves V s.2 s'.2) ∧
  ∀ f, r = Ok f → ∃ w2 rest, sound D w2 ∧ evolves V w2 s'.2 ∧ evolves V s.2 w2 ∧
    filter (λ x, from ≤ fr_offset x) (gv_log V w2 tp) = ft_records f ++ rest.
Proof.
  unfold fetch_opts_for. intros Hmm E Hs. apply fetch_exchange in E as [Ht Ha].
  assert (Hm : member_request grp (Request.Fetch tp.1 tp.2 from mm mb wait gid mid) = true) by (cbn; by apply Z.leb_le).
  split; [by eapply quiet_sound|]. intros f Hf.
  destruct (answers_sound D _ _ _ _ (Ha f Hf) Hm eq_refl Hs) as (w1 & w2 & [Hok1 _] & Hrt & Hs2 & He2 & He).
  destruct (gs_fetch _ _ _ _ _ _ _ _ _ _ _ _ _ _ Hok1 Hmm Hrt) as [rest Hrest]. exists w2, rest. destruct tp. by split_and!.
Qed.

Lemma clamp_nonneg n : 0 ≤ n → 0 ≤ clamp_fetch_max_messages n.
Proof. unfold clamp_fetch_max_messages, POLL_MAX_MESSAGES. case_match; lia. Qed.

Lemma take_records_settings tp rs g :
  gc_group_id (take_records tp rs g) = gc_group_id g ∧ gc_auto_offset_reset (take_records tp rs g) = gc_auto_offset_reset g ∧
  gc_fetch_max_messages (take_records tp rs g) = gc_fetch_max_messages g ∧ gc_auto_commit (take_records tp rs g) = gc_auto_commit g.
Proof. by destruct (take_records_state tp rs g) as [[-> _]|(r & _ & ->)]. Qed.

(** Reading commits nothing, whatever becomes of it. *)
Lemma poll_partitions_quiet D mid assignment : ∀ g s r gs', poll_partitions mid assignment (g, s) = (r, gs') →
  0 ≤ gc_fetch_max_messages g → sound D s.2 → sound D gs'.2.2 ∧ evolves V s.2 gs'.2.2 ∧ gc_auto_commit gs'.1 = gc_auto_commit g.
Proof.
  induction assignment as [|tp assignment IH]; intros g s r gs'; cbn [poll_partitions]; intros E Hk Hs.
  { injection E as <- <-. split; [done|]. split; [apply view_evolves_refl|done]. }
  destruct (fetch_opts_for _ _ _ _ _ _ _ _ s) as [[f|e] s1] eqn:E1; apply (fetch_quiet D) in E1 as [[Hs1 He1] _]; try done; try by apply clamp_nonneg.
  2: { injection E as <- <-. done. }
  destruct (poll_partitions mid assignment _) as [x gs2] eqn:E2. destruct (take_records_settings tp (ft_records f) g) as (_ & _ & Hk' & Ha').
  apply IH in E2 as (Hs2 & He2 & Ha2); [|by rewrite Hk'|done].
  assert (gs' = gs2) as -> by (destruct x; cbn [bind_st] in E; by injection E as _ <-).
  split; [done|]. split; [by eapply evolves_trans|congruence].
Qed.

Lemma fine_more D D' g w : D ⊆ D' → fine D g w → fine D' g w.
Proof. intros HD [F1 F2 F3 F4]. split; [done..|]. intros tp q Hn Hq. by eapply reached_more, F4. Qed.

Lemma fine_evolves D g w w' : evolves V w w' → fine D g w → fine D g w'.
Proof. intros He [F1 F2 F3 F4]. split; [done..|]. by eapply held_evolves. Qed.

Lemma keys_from tp rs : keys (fetched_from tp rs) = list_to_set (map (λ x, (tp, fr_offset x)) rs).
Proof. unfold keys, fetched_from. rewrite map_map. by destruct tp. Qed.

Lemma keys_app out out' : keys (out ++ out') = keys out ∪ keys out'.
Proof. unfold keys. by rewrite map_app, list_to_set_app_L. Qed.

(** The records of one partition are taken. *)
Lemma take_fine D g tp rs rest w : gv_ok V w → fine D g w →
  filter (λ x, default 0 (js_positions (gc_state g) !! tp) ≤ fr_offset x) (gv_log V w tp) = rs ++ rest →
  fine (D ∪ keys (fetched_from tp rs)) (take_records tp rs g) w.
Proof.
  intros Hok Hf Hlog. destruct (take_records_state tp rs g) as [[-> _]|(r & Hl & ->)].
  { eapply fine_more; [|exact Hf]. set_solver. }
  pose proof Hf as [F1 F2 F3 F4]. split; [done..|]. intros tp' q Hn Hq. cbn [js_positions gc_state with_state with_positions] in Hq.
  apply lookup_insert_Some in Hq as [[<- <-]|[_ Hq]].
  - rewrite keys_from. eapply reached_read; [done|exact Hlog|done|].
    destruct (js_positions (gc_state g) !! tp) as [q|] eqn:Eq; [right; by apply F4|by left].
  - eapply reached_more; [|by apply F4]. set_solver.
Qed.

Lemma poll_partitions_sound mid assignment : ∀ D g s out gs', poll_partitions mid assignment (g, s) = (Ok out, gs') →
  sound D s.2 → fine D g s.2 → leaves (D ∪ keys out) (g, s) gs'.
Proof.
  induction assignment as [|tp assignment IH]; intros D g s out gs'; cbn [poll_partitions]; intros E Hs Hf.
  { injection E as <- <-. assert (HD : D ⊆ D ∪ keys []) by set_solver.
    apply leaves_same; [by eapply fine_more|by eapply sound_more|apply view_evolves_refl]. }
  destruct (fetch_opts_for _ _ _ _ _ _ _ _ s) as [[f|e] s1] eqn:E1; [|discriminate].
  apply (fetch_quiet D) in E1 as [[Hs1 He1] Hrec]; [|apply clamp_nonneg, Hf|done].
  destruct (Hrec f eq_refl) as (w2 & rest & Hs2 & He2 & He02 & Hlog).
  destruct (poll_partitions mid assignment _) as [[out2|] gs2] eqn:E2; cbn [bind_st] in E; [|discriminate]. injection E as <- <-.
  set (D1 := D ∪ keys (fetched_from tp (ft_records f))).
  assert (F1 : fine D1 (take_records tp (ft_records f) g) s1.2).
  { eapply fine_evolves; [exact He2|]. eapply take_fine; [apply Hs2| |exact Hlog]. by eapply fine_evolves. }
  apply (IH D1) in E2; [|eapply sound_more; [|exact Hs1]; set_solver|done].
  destruct E2 as [L1 L2 L3 L4]. rewrite keys_app. replace (D ∪ _) with (D1 ∪ keys out2) by set_solver.
  split; [done|exact (evolves_trans _ _ _ He1 L2)|done|]. cbn [fst] in *. by rewrite L4, (proj2 (proj2 (proj2 (take_records_settings _ _ _)))).
Qed.

Lemma heartbeat_once_sound D g s r gs' : heartbeat_once (g, s) = (r, gs') → sound D s.2 → fine D g s.2 → leaves D (g, s) gs'.
Proof.
  unfold heartbeat_once. intros E Hs Hf. pose proof Hf as [Hg _ _ _]. change (gc_group_id (count_heartbeat g)) with (gc_group_id g) in E.
  rewrite Hg in E. destruct (heartbeat _ _ _ s) as [[code|e] s1] eqn:E1; apply (heartbeat_sound D) in E1 as [Hs1 He1]; try done.
  all: assert (L1 : leaves D (g, s) (count_heartbeat g, s1)) by
    (destruct Hf as [F1 F2 F3 F4]; split; [done|done| |done]; split; [done..|]; by eapply held_evolves).
  - destruct (needs_rebalance code); [|by injection E as <- <-]. eapply leaves_trans; [exact L1|].
    eapply do_join_sound; [exact E|done|apply L1].
  - by injection E as <- <-.
Qed.

Lemma auto_commit_sound D now g s r gs' : maybe_auto_commit now (g, s) = (r, gs') → named gs'.1 → sound D s.2 → fine D g s.2 → leaves D (g, s) gs'.
Proof.
  unfold maybe_auto_commit. case_match; [|intros [= <- <-] _ Hs Hf].
  { intros E Hn. eapply commit_unlocked_sound; [exact E|]. unfold named. by rewrite <- (commit_positions _ _ _ _ _ E). }
  apply leaves_same; [done|done|apply view_evolves_refl].
Qed.

Lemma poll_sound D now g s out gs' : poll now (g, s) = (Ok out, gs') → named gs'.1 → sound D s.2 → fine D g s.2 →
  leaves (D ∪ keys out) (g, s) gs'.
Proof.
  unfold poll. intros E Hn Hs Hf. destruct (heartbeat_once (g, s)) as [[u|e] [g1 s1]] eqn:E1; cbn [bind_st] in E; [|discriminate].
  apply (heartbeat_once_sound D) in E1; [|done|done]. pose proof E1 as [S1 _ F1 _]. cbn zeta in E. cbn [fst snd] in *.
  destruct (poll_partitions _ _ (g1, s1)) as [[out1|e] [g2 s2]] eqn:E2; cbn [bind_st] in E; [|discriminate].
  apply (poll_partitions_sound _ _ D) in E2; [|done|done].
  assert (L1 : leaves (D ∪ keys out1) (g, s) (g1, s1)).
  { destruct E1 as [L1 L2 L3 L4]. split; [eapply sound_more; [|exact L1]; set_solver|done|eapply fine_more; [|exact L3]; set_solver|done]. }
  pose proof (leaves_trans _ _ _ _ L1 E2) as L2. destruct out1 as [|x out1].
  { by injection E as <- <-. }
  cbn [fst snd] in E. destruct (maybe_auto_commit now _) as [[u'|e] gs3] eqn:E3; cbn [bind_st] in E; [|discriminate].
  injection E as <- <-. eapply leaves_trans; [exact L2|]. destruct L2 as [M1 _ [F2 F3 F4 F5] _]. cbn [fst snd] in *.
  eapply leaves_trans; [|eapply auto_commit_sound; [exact E3|done|done|by split]]. by apply leaves_positions; [split| |apply view_evolves_refl|].
Qed.

(** A poll that fails commits nothing, unless it failed at an automatic commit. *)
Lemma poll_failed_sound D now g s e gs' : poll now (g, s) = (Err e, gs') → gc_auto_commit g = false →
  sound D s.2 → fine D g s.2 → sound D gs'.2.2 ∧ evolves V s.2 gs'.2.2.
Proof.
  unfold poll. intros E Ha Hs Hf. destruct (heartbeat_once (g, s)) as [[u|e1] [g1 s1]] eqn:E1; cbn [bind_st] in E;
    apply (heartbeat_once_sound D) in E1; try done; destruct E1 as [S1 V1 F1 A1]; cbn [fst snd] in *.
  2: by injection E as <- <-.
  cbn zeta in E. destruct (poll_partitions _ _ (g1, s1)) as [[out1|e1] [g2 s2]] eqn:E2; cbn [bind_st] in E;
    apply (poll_partitions_quiet D) in E2 as (S2 & V2 & A2); try done; try apply F1; cbn [fst snd] in *.
  2: { injection E as <- <-. split; [done|]. by eapply evolves_trans. }
  destruct out1 as [|x out1]; [discriminate|]. unfold maybe_auto_commit, due_for_auto_commit in E.
  change (gc_auto_commit (with_state set_dirty g2, s2).1) with (gc_auto_commit g2) in E. rewrite A2, A1, Ha in E. discriminate.
Qed.

Lemma leave_consumer_sound D now g s r gs' : leave now (g, s) = (r, gs') → named g → sound D s.2 → fine D g s.2 →
  sound D gs'.2.2 ∧ evolves V s.2 gs'.2.2.
Proof.
  unfold leave. intros E Hn Hs Hf. cbn zeta in E. cbn [fst snd] in E.
  set (x := if gc_auto_commit g && js_dirty (gc_state g) then _ else _) in E.
  assert (L1 : leaves D (g, s) x).
  { subst x. destruct (gc_auto_commit g && js_dirty (gc_state g)); [|apply leaves_same; [done|done|apply view_evolves_refl]].
    destruct (commit_unlocked now (g, s)) as [r1 gs1] eqn:E1. by apply (commit_unlocked_sound D) in E1. }
  destruct L1 as [S1 V1 [F1 _ _ _] _]. clearbody x. destruct x as [g1 s1]. cbn [fst snd] in *. rewrite F1 in E.
  destruct (leave_group _ _ s1) as [r2 s2] eqn:E2. injection E as <- <-. apply (leave_sound D) in E2 as [S2 V2]; [|done].
  split; [done|]. by eapply evolves_trans.
Qed.

End positions.

(** ** Positions after a join *)

Section joined.
Context {W : Type} `{Network W} `{ScramCrypto} `{IterOrder}.
Implicit Types (s : Client * W).

Lemma group_by_topic_spec (l : list TP) : ∀ tp, tp ∈ l → ∃ ps, group_by_topic l !! tp.1 = Some ps ∧ tp.2 ∈ ps.
Proof.
  unfold group_by_topic. induction l as [|x l IH] using rev_ind; intros tp Hin; [by apply not_elem_of_nil in Hin|].
  rewrite foldl_snoc. set (m := foldl _ _ l) in *. apply elem_of_app in Hin as [Hin|Hin].
  - destruct (IH tp Hin) as (ps & Hm & Hp). destruct (decide (x.1 = tp.1)) as [E|E].
    + exists (ps ++ [x.2]). rewrite E, Hm, lookup_insert_eq. split; [done|]. apply elem_of_app. by left.
    + exists ps. by rewrite lookup_insert_ne.
  - apply list_elem_of_singleton in Hin as ->. eexists. rewrite lookup_insert_eq. split; [done|]. apply elem_of_app. right. by apply list_elem_of_singleton.
Qed.

Lemma pick_offsets_all t got parts out : pick_offsets t got parts = Ok out → ∀ p, p ∈ parts → ∃ q, ((t, p), q) ∈ out.
Proof.
  revert out. induction parts as [|x parts IH]; intros out; cbn [pick_offsets]; [intros _ p Hp; by apply not_elem_of_nil in Hp|].
  destruct (got !! x) as [q|]; [|discriminate]. destruct (pick_offsets t got parts) as [rest|]; [|discriminate]. intros [= <-] p.
  rewrite elem_of_cons. intros [->|Hp]; [exists q; by left|]. destruct (IH rest eq_refl p Hp) as [q' Hq']. exists q'. by right.
Qed.

Lemma reset_topics_all early by_topic : ∀ s out s', reset_topics early by_topic s = (Ok out, s') →
  ∀ t ps p, (t, ps) ∈ by_topic → p ∈ ps → ∃ q, ((t, p), q) ∈ out.
Proof.
  induction by_topic as [|[t0 ps0] by_topic IH]; intros s out s'; cbn [reset_topics]; intros E t ps p Hin Hp; [by apply not_elem_of_nil in Hin|].
  destruct (list_offsets t0 ps0 s) as [[l|e] s1]; cbn [bind_st] in E; [|discriminate].
  destruct (pick_offsets _ _ _) as [o|] eqn:Ep; [|discriminate]. destruct (reset_topics early by_topic s1) as [[rest|] s2] eqn:E2; cbn [bind_st] in E; [|discriminate].
  injection E as <- <-. apply elem_of_cons in Hin as [[= -> ->]|Hin].
  - destruct (pick_offsets_all _ _ _ _ Ep p Hp) as [q Hq]. exists q. apply elem_of_app. by left.
  - destruct (IH _ _ _ E2 t ps p Hin Hp) as [q Hq]. exists q. apply elem_of_app. by right.
Qed.

Lemma apply_reset_all policy ps s out s' : apply_reset policy ps s = (Ok out, s') → ∀ tp, tp ∈ ps → ∃ q, (tp, q) ∈ out.
Proof.
  unfold apply_reset. destruct ps as [|[t0 p0] ps]; [intros _ tp Hin; by apply not_elem_of_nil in Hin|]. set (l := (t0, p0) :: ps). intros E [t p] Hin.
  destruct (group_by_topic_spec l (t, p) Hin) as (parts & Hm & Hp). cbn [fst snd] in *.
  destruct policy; [| |discriminate]; (eapply reset_topics_all; [exact E| |exact Hp]); apply elem_of_reorder; by apply elem_of_map_to_list.
Qed.

Lemma seed_keeps reset : ∀ m (tp : TP), is_Some (m !! tp) → is_Some (seed reset m !! tp).
Proof.
  unfold seed. induction reset as [|e reset IH]; intros m tp Hm; cbn [foldl]; [done|]. apply IH. case_bool_decide; [|done].
  destruct (decide (e.1 = tp)) as [->|]; [by rewrite lookup_insert_eq|by rewrite lookup_insert_ne].
Qed.

Lemma seed_all reset : ∀ m (tp : TP) q, (tp, q) ∈ reset → is_Some (seed reset m !! tp).
Proof.
  unfold seed. induction reset as [|e reset IH]; intros m tp q Hin; [by apply not_elem_of_nil in Hin|]. cbn [foldl].
  apply elem_of_cons in Hin as [<-|Hin]; [|by eapply IH]. cbn [fst snd]. apply seed_keeps.
  case_bool_decide as Hn; [by rewrite lookup_insert_eq|]. by destruct (m !! tp).
Qed.

(** No partition starts at an offset that nobody chose. After a join that
    succeeds, the first or one that a rebalance calls for, every partition of the
    assignment has a position: one kept, one committed, or one that the reset
    policy asked the broker for. *)
Theorem join_seeds_positions g s g' s' :
  do_join (g, s) = (Ok tt, (g', s')) → ∀ tp, tp ∈ js_assignment (gc_state g') → is_Some (js_positions (gc_state g') !! tp).
Proof.
  unfold do_join. intros E tp. destruct (join_retrying _ _ _ _ _ _ s) as [[jr|e] s1]; [|discriminate].
  destruct (confirmed_assignment g jr s1) as [na s2]. destruct (match partitions_to_fetch _ _ _ with [] => _ | _ => _ end) as [[fetched|e] s3]; [|discriminate].
  set (st := install_assignment _ _ _ _) in E. destruct (apply_reset _ _ s3) as [[reset|e] s4] eqn:E4; [|discriminate]. injection E as <- <-.
  intros Hin. change (tp ∈ js_assignment (st (gc_state g))) in Hin. change (is_Some (seed reset (js_positions (st (gc_state g))) !! tp)).
  destruct (js_positions (st (gc_state g)) !! tp) as [q|] eqn:Eq; [apply seed_keeps; eauto|].
  destruct (apply_reset_all _ _ _ _ _ E4 tp) as [q Hq]; [|by eapply seed_all]. by apply list_elem_of_filter.
Qed.

End joined.

(** ** A group *)

Section group.
Context {W : Type} (net : nat → Network W) (V : GroupView W) (grp : string) `{HS : ∀ i, GroupServer (net i) V grp} `{ScramCrypto}.

(** The members, each with its client; the brokers; what the members' polls
    have returned. *)
Record GroupSystem := mkGroupSystem {
  gy_members : gmap nat (GroupConsumer * Client);
  gy_world : W;
  gy_delivered : Delivered;
}.

(** Members join, poll, commit, send heartbeats, leave and crash in any order,
    while others produce and the brokers retire what is old.  The partitions they
    read have names that the brokers keep apart.  A member whose poll has failed
    is given up; a failed poll of a member that commits by itself is not
    covered. *)
Inductive group_step : GroupSystem → GroupSystem → Prop :=
| gt_environment m w w' D : preserves V [] w w' → group_step (mkGroupSystem m w D) (mkGroupSystem m w' D)
| gt_join (o : IterOrder) i m w D c topics timeout inst hb auto interval reset assignor mm mb g s' :
    m !! i = None → 0 ≤ mm → parse_auto_offset_reset reset = Ok Earliest →
    join_with_fetch_knobs (H := net i) grp topics timeout inst hb auto interval reset assignor mm mb (c, w) = (Ok g, s') → named (V := V) g →
    group_step (mkGroupSystem m w D) (mkGroupSystem (<[i := (g, s'.1)]> m) s'.2 D)
| gt_join_failed (o : IterOrder) i m w D c topics timeout inst hb auto interval reset assignor mm mb e s' :
    m !! i = None → 0 ≤ mm → parse_auto_offset_reset reset = Ok Earliest →
    join_with_fetch_knobs (H := net i) grp topics timeout inst hb auto interval reset assignor mm mb (c, w) = (Err e, s') →
    group_step (mkGroupSystem m w D) (mkGroupSystem m s'.2 D)
| gt_poll (o : IterOrder) i m w D g c now out g' s' :
    m !! i = Some (g, c) → poll (H := net i) now (g, (c, w)) = (Ok out, (g', s')) → named (V := V) g' →
    group_step (mkGroupSystem m w D) (mkGroupSystem (<[i := (g', s'.1)]> m) s'.2 (D ∪ keys out))
| gt_poll_failed (o : IterOrder) i m w D g c now e g' s' :
    m !! i = Some (g, c) → gc_auto_commit g = false → poll (H := net i) now (g, (c, w)) = (Err e, (g', s')) →
    group_step (mkGroupSystem m w D) (mkGroupSystem (delete i m) s'.2 D)
| gt_commit (o : IterOrder) i m w D g c now r g' s' :
    m !! i = Some (g, c) → commit (H := net i) now (g, (c, w)) = (r, (g', s')) →
    group_step (mkGroupSystem m w D) (mkGroupSystem (<[i := (g', s'.1)]> m) s'.2 D)
| gt_tick (o : IterOrder) i m w D g c g' s' :
    m !! i = Some (g, c) → heartbeat_tick (H := net i) (g, (c, w)) = (g', s') → named (V := V) g' →
    group_step (mkGroupSystem m w D) (mkGroupSystem (<[i := (g', s'.1)]> m) s'.2 D)
| gt_leave (o : IterOrder) i m w D g c now r g' s' :
    m !! i = Some (g, c) → leave (H := net i) now (g, (c, w)) = (r, (g', s')) →
    group_step (mkGroupSystem m w D) (mkGroupSystem (delete i m) s'.2 D)
| gt_crash i m w D : group_step (mkGroupSystem m w D) (mkGroupSystem (delete i m) w D).

Record group_inv (y : GroupSystem) : Prop := {
  gi_sound : sound (V := V) (gy_delivered y) (gy_world y);
  gi_fine i g c : gy_members y !! i = Some (g, c) → fine (V := V) (grp := grp) (gy_delivered y) g (gy_world y) ∧ named (V := V) g;
}.

(** One member has moved, the others see the brokers as they are now. *)
Lemma inv_member D D' m w i g w' (c : Client) :
  group_inv (mkGroupSystem m w D) → D ⊆ D' → sound (V := V) D' w' → evolves V w w' → fine (V := V) (grp := grp) D' g w' → named (V := V) g →
  group_inv (mkGroupSystem (<[i := (g, c)]> m) w' D').
Proof.
  intros [_ HF] HD Hs He Hf Hn. split; [done|]. cbn [gy_members gy_world gy_delivered] in *.
  intros j g' c' [[<- [= <- <-]]|[_ Hj]]%lookup_insert_Some; [done|].
  destruct (HF j g' c' Hj) as [Hf' Hn']. split; [|done]. eapply fine_more; [exact HD|]. by eapply fine_evolves.
Qed.

Lemma inv_without D m m' w w' :
  group_inv (mkGroupSystem m w D) → m' ⊆ m → sound (V := V) D w' → evolves V w w' → group_inv (mkGroupSystem m' w' D).
Proof.
  intros [_ HF] Hm Hs He. split; [done|]. cbn [gy_members gy_world gy_delivered] in *. intros j g c Hj.
  destruct (HF j g c (lookup_weaken _ _ _ _ Hj Hm)) as [Hf Hn]. split; [|done]. by eapply fine_evolves.
Qed.

Lemma join_fresh (o : IterOrder) i D c w topics timeout inst hb auto interval reset assignor mm mb r s' :
  sound (V := V) D w → 0 ≤ mm → parse_auto_offset_reset reset = Ok Earliest →
  join_with_fetch_knobs (H := net i) grp topics timeout inst hb auto interval reset assignor mm mb (c, w) = (r, s') →
  sound (V := V) D s'.2 ∧ evolves V w s'.2 ∧ ∀ g, r = Ok g → fine (V := V) (grp := grp) D g s'.2.
Proof.
  intros Hs Hmm Hp. unfold join_with_fetch_knobs. rewrite Hp.
  destruct (parse_assignor assignor) as [a|e]; [|intros [= <- <-]; split; [done|]; split; [apply view_evolves_refl|discriminate]].
  cbn zeta. set (g0 := mkGroupConsumer _ _ _ _ _ _ _ _ _ _ _ _ _). destruct (do_join (g0, (c, w))) as [r1 [g1 s1]] eqn:E1.
  apply (do_join_sound (HS := HS i) D) in E1; [|done|].
  - destruct E1 as [L1 L2 L3 _]. cbn [fst snd] in *. destruct r1; intros [= <- <-]; (split; [done|]; split; [done|]); [by intros g [= <-]|discriminate].
  - split; [done|done|by apply clamp_nonneg|]. intros tp q _ Hq. change ((∅ : gmap TP Z) !! tp = Some q) in Hq. by rewrite lookup_empty in Hq.
Qed.

Lemma group_step_inv y y' : group_step y y' → group_inv y → group_inv y'.
Proof.
  intros Hstep HI. pose proof HI as [Hs HF].
  destruct Hstep as [m w w' D Hp|o i m w D c ts to inst hb au iv rs a mm mb g s' _ Hmm Hr E Hn|o i m w D c ts to inst hb au iv rs a mm mb e s' _ Hmm Hr E
    |o i m w D g c now out g' s' Hi E Hn|o i m w D g c now e g' s' Hi Ha E|o i m w D g c now r g' s' Hi E|o i m w D g c g' s' Hi E Hn
    |o i m w D g c now r g' s' Hi E|i m w D]; cbn [gy_members gy_world gy_delivered] in *; try destruct (HF i g c Hi) as [Hf Hn0].
  - destruct (preserves_sound (V := V) D [] w w') as [Hs' He]; [constructor|done|done|]. by eapply inv_without.
  - eapply join_fresh in E as (Hs' & He & Hf); [|done..]. eapply inv_member; [exact HI|done|done|done|by apply Hf|done].
  - eapply join_fresh in E as (Hs' & He & _); [|done..]. by eapply inv_without.
  - apply (poll_sound (HS := HS i) D) in E as [L1 L2 L3 _]; [|done..]. eapply inv_member; [exact HI|set_solver|done..].
  - apply (poll_failed_sound (HS := HS i) D) in E as [L1 L2]; [|done..]. eapply inv_without; [exact HI|apply delete_subseteq|done..].
  - pose proof (commit_positions _ _ _ _ _ E) as Hq. apply (commit_unlocked_sound (HS := HS i) D) in E as [L1 L2 L3 _]; [|done..].
    eapply inv_member; [done..|]. cbn [fst] in Hq. unfold named. by rewrite Hq.
  - unfold heartbeat_tick in E. destruct (heartbeat_once (g, (c, w))) as [r gs'] eqn:E1. cbn [snd] in E. subst gs'.
    apply (heartbeat_once_sound (HS := HS i) D) in E1 as [L1 L2 L3 _]; [|done..]. by eapply inv_member.
  - apply (leave_consumer_sound (HS := HS i) D) in E as [L1 L2]; [|done..]. eapply inv_without; [exact HI|apply delete_subseteq|done..].
  - eapply inv_without; [exact HI|apply delete_subseteq|done|apply view_evolves_refl].
Qed.


End group.
