(* ===== verification/ConsumerBroker.v ===== *)
(** * A group and its broker

    The broker of [Dispatch] keeps the promises of [ConsumerProps] to the
    members of a group: one broker without transactions, whose offset store
    holds what was committed. *)

From Stdlib Require Import Strings.String.
From S2P Require Import Prelude Bytes Core Record SparseIndex Segment SegmentProps GroupCommit PartitionLog PartitionLogProps BrokerLog Messages Request Response Assignor OffsetStore OffsetStoreProps Group GroupProps Scram Auth Client ClientTraffic Cluster KafkaRecords Broker Txn TxnRecovery TxnProps ProduceProps Replication Dispatch ClientBroker Consumer ConsumerProps.
#[local] Open Scope Z_scope.

(** ** The coordinator's files *)

Section offsets.
Context `{IterOrder}.

Lemma park_enter_offsets now co rq : offsets (park_enter now co rq).2 = offsets co.
Proof. unfold park_enter. by repeat case_match. Qed.

Lemma join_second_offsets now uuid rq pc co synced : offsets (join_second now uuid rq pc co synced).2 = offsets co.
Proof. unfold join_second. by destruct synced. Qed.

Lemma join_fence_offsets now uuid rq pc co : offsets (join_fence now uuid rq pc co).2 = offsets co.
Proof.
  unfold join_fence. pose proof (park_enter_offsets now co rq) as Hp. destruct (park_enter now co rq) as [[[synced|] dl] co1]; [|done].
  by rewrite join_second_offsets.
Qed.

Lemma join_first_offsets now uuid rq pc changed co synced : offsets (join_first now uuid rq pc changed co synced).2 = offsets co.
Proof.
  unfold join_first. destruct synced; [|done]. destruct (groups co !! _) as [g|]; [|apply join_fence_offsets].
  destruct (members g !! _) as [m|]; [|apply join_fence_offsets]. by destruct (rejoin _ _ _ _ _ _).
Qed.

Lemma join_offsets now uuid rq pc co : offsets (Group.join now uuid rq pc co).2 = offsets co.
Proof.
  unfold Group.join, join_locked. change (offsets co) with (offsets (expire_sessions_inner now co)).
  set (co0 := expire_sessions_inner now co). cbn zeta. destruct (if String.eqb _ "" then _ else _) as [m|]; [|apply join_fence_offsets].
  destruct (negb _); [|apply join_first_offsets]. pose proof (park_enter_offsets now co0 rq) as Hp.
  destruct (park_enter now co0 rq) as [[[synced|] dl] co1]; [|done]. by rewrite join_first_offsets.
Qed.

Lemma heartbeat_offsets now gid mid gen co : offsets (Group.heartbeat now gid mid gen co).2 = offsets co.
Proof. unfold Group.heartbeat, heartbeat_locked. by repeat case_match. Qed.

Lemma sync_offsets now gid mid gen a co : offsets (sync_group_with_assignments now gid mid gen a co).2 = offsets co.
Proof. unfold sync_group_with_assignments, sync_group_locked. by repeat case_match. Qed.

Lemma leave_offsets gid mid pc co : offsets (Group.leave gid mid pc co).2 = offsets co.
Proof. unfold Group.leave. cbn zeta. repeat (case_match || case_bool_decide); done. Qed.

End offsets.

(** ** The broker *)

Section broker.
Context {L : Type} `{LogStoreLaws L} `{IterOrder} `{ScramCrypto}.
Context (root : path) (await_hwm : string → Z → Z → Broker L → bool * Broker L).
Context (resume_join : Waiter → Broker L → result Response * Broker L).
Context (other : Request → Z → Broker L → result Response * Broker L).
Implicit Types (b : Broker L).

(** What the group sees is untouched. *)
Record quiet b b' : Prop := {
  qt_cluster : b_cluster b' = b_cluster b;
  qt_topics : b_topics b' = b_topics b;
  qt_open : open_txns (b_txns b') = open_txns (b_txns b);
  qt_prepared : prepared_txns (b_txns b') = prepared_txns (b_txns b);
  qt_aborted : aborted_txns (b_txns b') = aborted_txns (b_txns b);
  qt_offsets : offsets (b_groups b') = offsets (b_groups b);
}.

Lemma quiet_refl b : quiet b b.
Proof. by split. Qed.
Lemma quiet_trans b1 b2 b3 : quiet b1 b2 → quiet b2 b3 → quiet b1 b3.
Proof. intros [] []. split; congruence. Qed.

Lemma quiet_groups co b : offsets co = offsets (b_groups b) → quiet b (set_groups co b).
Proof. by split. Qed.

Record node_ok b : Prop := {
  nk_single : b_cluster b = None;
  nk_open : open_txns (b_txns b) = ∅;
  nk_prepared : prepared_txns (b_txns b) = ∅;
  nk_aborted : aborted_txns (b_txns b) = ∅;
  nk_parts t p part : get_partition t p b = Ok part →
    ∃ recs, ls_rep (p_log part) recs ∧ p_committed_hwm part = ls_end (p_log part) ∧ ls_end (p_log part) ≤ u64_max;
  nk_store : ∃ m, store_rep root (offsets (b_groups b)) m;
}.

Definition node_log b (tp : TP) : list FetchRecord :=
  match get_partition tp.1 tp.2 b with
  | Ok part =>
    match ls_read 0 (ls_end (p_log part)) (p_log part) with
    | Ok rs => map fetch_record_of (filter (λ r, is_txn_control_record r = false) rs)
    | Err _ => []
    end
  | Err _ => []
  end.

Definition node_end b (tp : TP) : Z :=
  match get_partition tp.1 tp.2 b with Ok part => ls_end (p_log part) | Err _ => 0 end.

Definition node_committed (grp : string) b (tp : TP) : option Z :=
  match OffsetStore.fetch root (offsets (b_groups b)) grp tp.1 tp.2 with
  | Ok (q, _, _) => if q =? OFFSET_UNKNOWN then None else Some q
  | Err _ => None
  end.

(** Names that the files of the offset store keep apart. *)
Definition broker_view (grp : string) : GroupView (Line L) := {|
  gv_ok w := node_ok (ln_broker w);
  gv_log w := node_log (ln_broker w);
  gv_end w := node_end (ln_broker w);
  gv_committed w := node_committed grp (ln_broker w);
  gv_name tp := clean tp.1 ∧ is_u32 tp.2;
|}.

Lemma quiet_partition b b' t p : quiet b b' → get_partition t p b' = get_partition t p b.
Proof. intros Q. unfold get_partition. by rewrite (qt_topics _ _ Q). Qed.

Lemma quiet_node b b' : quiet b b' → node_ok b → node_ok b'.
Proof.
  intros Q [N1 N2 N3 N4 N5 N6]. destruct Q as [Q1 Q2 Q3 Q4 Q5 Q6] eqn:EQ. split; [congruence..| |].
  - intros t p part. rewrite (quiet_partition b b' t p Q). apply N5.
  - rewrite Q6. done.
Qed.

Lemma quiet_view b b' tp : quiet b b' → node_log b' tp = node_log b tp ∧ node_end b' tp = node_end b tp.
Proof. intros Q. unfold node_log, node_end. by rewrite (quiet_partition b b' _ _ Q). Qed.

Lemma quiet_preserves grp w w' : node_ok (ln_broker w) → quiet (ln_broker w) (ln_broker w') → preserves (broker_view grp) [] w w'.
Proof.
  intros Hn Q. split; [by eapply quiet_node|]. split.
  - intros tp. cbn [gv_end gv_log broker_view]. destruct (quiet_view _ _ tp Q) as [-> ->]. split; [done|]. intros r Hr. by left.
  - intros tp q _ Hq. left. cbn [gv_committed broker_view] in *. unfold node_committed in *. by rewrite (qt_offsets _ _ Q) in Hq.
Qed.

(** Without transactions nothing expires. *)
Lemma expire_quiet now b : node_ok b → quiet b (expire_timed_out_txns now b).
Proof.
  intros Hn. unfold expire_timed_out_txns. set (b1 := (expire_timed_out_open_txns now b).2).
  assert (Hnil : ∀ (K V : Type) `{Countable K} (m : gmap K V), m = ∅ → reorder (map_to_list m) = []).
  { intros K V ? ? m ->. rewrite map_to_list_empty. apply Permutation_nil_r, reorder_perm. }
  assert (Q1 : quiet b b1).
  { unfold b1, expire_timed_out_open_txns. rewrite (Hnil _ _ _ _ _ (nk_open _ Hn)). by split. }
  eapply quiet_trans; [exact Q1|]. unfold expire_timed_out_prepared_txns. case_match; [apply quiet_refl|].
  rewrite (Hnil _ _ _ _ (prepared_txns (b_txns b1))); [by split|]. by rewrite (qt_prepared _ _ Q1), (nk_prepared _ Hn).
Qed.

(** *** Fetch *)

Lemma node_visible now b t p r : node_ok b → visible now b t p r = negb (is_txn_control_record r).
Proof.
  intros Hn. pose proof (expire_quiet now b Hn) as Q. pose proof (quiet_node _ _ Q Hn) as Hn'. unfold visible.
  set (b1 := expire_timed_out_txns now b) in *.
  assert (Hu : unstable_ranges b1 = []).
  { unfold unstable_ranges. rewrite (nk_open _ Hn'), (nk_prepared _ Hn'), !map_to_list_empty.
    by rewrite !(proj1 (Permutation_nil_r _) (reorder_perm [])). }
  unfold is_aborted_offset. rewrite Hu, (nk_aborted _ Hn'), lookup_empty. cbn. by rewrite !andb_true_r.
Qed.

Lemma retain_quiet t p now rs : ∀ b, node_ok b →
  quiet b (retain_st (λ r b,
     if is_txn_control_record r then (false, b) else
     let '(unstable, b) := is_unstable_offset t p (rec_offset r) now b in
     (negb unstable && negb (is_aborted_offset t p (rec_offset r) b), b)) rs b).2.
Proof.
  induction rs as [|r rs IH]; intros b Hn; cbn [retain_st]; [apply quiet_refl|]. unfold is_unstable_offset at 1.
  destruct (is_txn_control_record r).
  - specialize (IH b Hn). by destruct (retain_st _ rs b) as [out b2].
  - pose proof (expire_quiet now b Hn) as Q. specialize (IH _ (quiet_node _ _ Q Hn)).
    destruct (retain_st _ rs _) as [out b2]. by eapply quiet_trans.
Qed.

Lemma fetch_quiet_node t p from mm now b : node_ok b → quiet b (Txn.fetch t p from mm now b).2.
Proof.
  intros Hn. unfold Txn.fetch, fetch_up_to. destruct (get_partition t p b) as [part|]; [|apply quiet_refl].
  destruct (ls_read from mm (p_log part)) as [rs|]; [|apply quiet_refl]. cbn zeta.
  pose proof (retain_quiet t p now (filter (λ r, rec_offset r < p_committed_hwm part) rs) b Hn) as Q.
  by destruct (retain_st _ _ b) as [out b2].
Qed.

Lemma fetch_request_quiet t p from mm g m now b : node_ok b → quiet b (handle_fetch_request t p from mm g m now b).2.
Proof.
  intros Hn. unfold handle_fetch_request. cbn zeta. destruct (if negb _ && negb _ then _ else _); try apply quiet_refl.
  pose proof (fetch_quiet_node t p from mm now b Hn) as Q. by destruct (Txn.fetch t p from mm now b) as [[rs|e] b1].
Qed.

Lemma sorted_fits recs : ∀ a z, StronglySorted off_lt recs → Forall (λ r, a ≤ rec_offset r < z) recs → a ≤ z → zlen recs ≤ z - a.
Proof.
  induction recs as [|r recs IH]; intros a z Hs HF Haz; [unfold zlen; cbn; lia|]. apply StronglySorted_inv in Hs as [Hs Hr].
  apply Forall_cons in HF as [Hra HF]. rewrite zlen_cons.
  assert (zlen recs ≤ z - (rec_offset r + 1)); [|lia]. apply IH; [done| |lia]. apply Forall_forall. intros x Hx. apply (proj1 (Forall_forall _ _) Hr) in Hx as Hlt. apply (proj1 (Forall_forall _ _) HF) in Hx.
  unfold off_lt in Hlt. lia.
Qed.

(** The records of a partition, as its members read them. *)
Lemma node_records b t p part : node_ok b → get_partition t p b = Ok part →
  ∃ recs, ls_rep (p_log part) recs ∧ p_committed_hwm part = ls_end (p_log part) ∧ ls_end (p_log part) ≤ u64_max ∧
    node_log b (t, p) = map fetch_record_of (filter (λ r, is_txn_control_record r = false) recs).
Proof.
  intros Hn Hp. destruct (nk_parts _ Hn t p part Hp) as (recs & HR & Hh & Hmax). exists recs. split; [done|]. split; [done|]. split; [done|].
  unfold node_log. cbn [fst snd]. rewrite Hp. destruct (ls_offsets _ _ HR) as [Hs Hoff].
  rewrite (ls_read_ok _ recs 0 (ls_end (p_log part)) HR) by lia. rewrite (filter_all (λ r, 0 ≤ rec_offset r)).
  - rewrite take_ge; [done|]. pose proof (sorted_fits recs _ _ (ls_sorted _ _ HR) Hoff ltac:(lia)). unfold zlen in *. lia.
  - eapply Forall_impl; [exact Hoff|]. intros r Hr. cbn in Hr |- *. lia.
Qed.

Lemma map_filter_offset from (l : list LogRecord) :
  map fetch_record_of (filter (λ r, from ≤ rec_offset r) l) = filter (λ r, from ≤ fr_offset r) (map fetch_record_of l).
Proof.
  induction l as [|r l IH]; [done|]. cbn [map]. rewrite !filter_cons. change (fr_offset (fetch_record_of r)) with (rec_offset r).
  case_decide; cbn [map]; by rewrite IH.
Qed.

Lemma fetch_contiguous t p from mm now b rs : node_ok b → 0 ≤ mm → (Txn.fetch t p from mm now b).1 = Ok rs →
  ∃ rest, filter (λ r, from ≤ fr_offset r) (node_log b (t, p)) = map fetch_record_of rs ++ rest.
Proof.
  intros Hn Hmm E. destruct (get_partition t p b) as [part|e] eqn:Hp.
  2: { unfold Txn.fetch, fetch_up_to in E. by rewrite Hp in E. }
  destruct (node_records b t p part Hn Hp) as (recs & HR & Hh & _ & ->).
  rewrite (fetch_records b t p part recs from mm now Hp HR Hmm) in E. injection E as <-.
  rewrite <- map_filter_offset.
  set (X := filter (λ r, from ≤ rec_offset r) recs).
  assert (Hx : filter (λ r, from ≤ rec_offset r) (filter (λ r, is_txn_control_record r = false) recs) = filter (λ r, is_txn_control_record r = false) X).
  { unfold X. rewrite !list_filter_filter. apply list_filter_iff. tauto. }
  assert (HX : Forall (λ r, rec_offset r < p_committed_hwm part) X).
  { apply Forall_forall. intros r [_ Hr]%list_elem_of_filter. rewrite Hh. destruct (ls_offsets _ _ HR) as [_ Hoff].
    by apply (proj1 (Forall_forall _ _) Hoff r). }
  rewrite Hx. clearbody X. exists (map fetch_record_of (filter (λ r, is_txn_control_record r = false) (drop (Z.to_nat mm) X))).
  rewrite (filter_all (λ r, rec_offset r < p_committed_hwm part)) by (by apply Forall_take).
  rewrite <- map_app. f_equal. rewrite <- (take_drop (Z.to_nat mm) X) at 1. rewrite filter_app. f_equal.
  apply list_filter_iff. intros r. rewrite (node_visible now b t p r Hn). by destruct (is_txn_control_record r).
Qed.

(** *** Offsets *)

Context (Hroot : Forall simple root) (grp : string) (Hgrp : usable grp).
Context (Hresume : ∀ w b, node_ok b → quiet b (resume_join w b).2).
Context (Hother : ∀ req now b, service req = true → node_ok b → quiet b (other req now b).2).

Notation V := (broker_view grp).

Lemma node_committed_spec b m tp : store_rep root (offsets (b_groups b)) m → clean tp.1 → is_u32 tp.2 →
  node_committed grp b tp =
  let q := default OFFSET_UNKNOWN ((λ v, v.1.1) <$> m !! (sanitize grp, tp.1, tp.2)) in if q =? OFFSET_UNKNOWN then None else Some q.
Proof.
  intros R Hc Hp. unfold node_committed. rewrite (fetch_spec root Hroot _ m) by (done || by apply clean_usable).
  rewrite (clean_sanitize tp.1 Hc). by destruct (m !! _) as [[[q md] ep]|].
Qed.

Lemma insert_entries_lookup gid es : ∀ m k v, insert_entries gid es m !! k = Some v → m !! k = Some v ∨
  ∃ e, e ∈ es ∧ k = (sanitize gid, sanitize (so_topic e), so_partition e) ∧ v = (so_offset e, so_metadata e, so_leader_epoch e).
Proof.
  unfold insert_entries. induction es as [|e es IH]; intros m k v; cbn [foldl]; [by left|]. intros [Hm|(e' & He' & Hk)]%IH.
  - apply lookup_insert_Some in Hm as [[<- <-]|[_ Hm]]; [right; exists e; split; [left|done]|by left].
  - right. exists e'. split; [by right|done].
Qed.

(** The broker with other files. *)
Lemma files_preserve w w' co m es :
  node_ok (ln_broker w) → ln_broker w' = set_groups co (ln_broker w) → store_rep root (offsets co) m →
  commits_only V es w w' → preserves V es w w'.
Proof.
  intros [N1 N2 N3 N4 N5 N6] Hw R Hc. split; [|split; [|done]].
  - unfold broker_view, gv_ok. rewrite Hw. split; [done..|]. by exists m.
  - intros tp. unfold broker_view, gv_end, gv_log. rewrite Hw. split; [done|]. intros r Hr. by left.
Qed.

Lemma commit_request_preserves mid gen es w w' :
  node_ok (ln_broker w) → forallb (λ e, String.eqb (oce_metadata e) "") es = true →
  entries_ok V (entries_of (Request.OffsetCommit grp mid gen es)) →
  ln_broker w' = (handle_offset_commit_request root grp mid gen es (ln_broker w)).2 →
  preserves V (entries_of (Request.OffsetCommit grp mid gen es)) w w'.
Proof.
  intros Hn Hmd Hes Hw. destruct (nk_store _ Hn) as [m R]. unfold handle_offset_commit_request in Hw.
  set (stored := map (λ '(t, p, o, md), mkStoredOffset t p o md LEADER_EPOCH_UNKNOWN)
                   (map (λ e, (oce_topic e, oce_partition e, oce_offset e, oce_metadata e)) es)).
  assert (Hst : Forall entry_ok stored ∧ ∀ e, e ∈ stored → clean (so_topic e) ∧
    ((so_topic e, so_partition e), so_offset e) ∈ entries_of (Request.OffsetCommit grp mid gen es)).
  { unfold stored. rewrite map_map. split.
    - apply Forall_map, Forall_forall. intros e He. unfold entries_ok in Hes. cbn [entries_of] in Hes. rewrite Forall_map in Hes.
      apply (proj1 (Forall_forall _ _) Hes) in He as Hok. cbn [fst snd gv_name broker_view] in Hok. destruct Hok as [[Hc Hp] Hq].
      apply forallb_forall with (x := e) in Hmd; [|by apply list_elem_of_In]. apply String.eqb_eq in Hmd.
      split; [by apply clean_usable|]. split; [done|]. cbn. rewrite Hmd. split; [exact Hq|]. split; [done|]. split; [done|].
      cbn. unfold is_i32, LEADER_EPOCH_UNKNOWN. lia.
    - intros x Hx. apply list_elem_of_In, in_map_iff in Hx as (e & <- & He%list_elem_of_In). cbn [so_topic so_partition so_offset].
      unfold entries_ok in Hes. cbn [entries_of] in Hes |- *. rewrite Forall_map in Hes. apply (proj1 (Forall_forall _ _) Hes) in He as Hok.
      split; [apply Hok|]. apply list_elem_of_In, in_map_iff. exists e. split; [done|by apply list_elem_of_In]. }
  destruct Hst as [Hst Hin]. unfold Group.commit_offsets in Hw. fold stored in Hw. unfold commit_offsets_with_epoch in Hw.
  destruct (negb _) in Hw.
  - cbn [snd] in Hw. eapply (files_preserve w w' (b_groups (ln_broker w)) m); [done|done|done|]. intros tp q _ Hq. left.
    unfold broker_view, gv_committed in *. by rewrite Hw in Hq.
  - destruct (commit_entries_spec root grp stored (b_groups (ln_broker w)) m Hroot Hgrp R Hst) as (co' & E & _ & R').
    rewrite E in Hw. cbn [snd] in Hw. eapply (files_preserve w w' co'); [done|done|exact R'|].
    intros tp q [Hc Hp] Hq. unfold broker_view, gv_committed in Hq |- *. rewrite Hw in Hq.
    rewrite (node_committed_spec (set_groups co' (ln_broker w)) _ tp R' Hc Hp) in Hq. rewrite (node_committed_spec _ _ tp R Hc Hp).
    destruct (insert_entries grp stored m !! _) as [v|] eqn:El; [|done].
    apply insert_entries_lookup in El as [->|(e & He & Hk & ->)]; [by left|]. right.
    cbn zeta in Hq. cbn in Hq. destruct (Z.eqb_spec (so_offset e) OFFSET_UNKNOWN); [done|]. injection Hq as <-.
    destruct (Hin e He) as [Hce Hee]. rewrite (clean_sanitize _ Hce) in Hk. injection Hk as Ht Hp'. destruct tp as [t p]. cbn in *. by subst.
Qed.

(** *** Every request of a member *)

Lemma request_quiet now uuid req b : node_ok b → member_request grp req = true → entries_of req = [] →
  (∀ g m gen es, req ≠ Request.OffsetCommit g m gen es) →
  quiet b (handle_request root await_hwm resume_join other now uuid req b).2.
Proof.
  intros Hn Hm _ Hno. unfold member_request in Hm. destruct (service req) eqn:Hs.
  { destruct req; try discriminate; by apply Hother. }
  destruct req; try discriminate; cbn [handle_request]; try apply quiet_refl; try by apply fetch_request_quiet.
  all: try (exfalso; by eapply Hno).
  - unfold handle_join_request. match goal with |- context [Group.join ?n ?u ?rq ?pc ?c] => pose proof (join_offsets n u rq pc c) as Ho end.
    destruct (Group.join _ _ _ _ _) as [[r|w] co]; cbn [snd] in *; [by apply quiet_groups|].
    eapply quiet_trans; [by apply quiet_groups|]. apply Hresume. by eapply quiet_node; [apply quiet_groups|].
  - unfold handle_heartbeat_request. match goal with |- context [Group.heartbeat ?a ?g ?m ?x ?c] => pose proof (heartbeat_offsets a g m x c) as Ho end.
    destruct (Group.heartbeat _ _ _ _ _) as [c co]. by apply quiet_groups.
  - unfold handle_leave_request. match goal with |- context [Group.leave ?g ?m ?pc ?c] => pose proof (leave_offsets g m pc c) as Ho end.
    destruct (Group.leave _ _ _ _) as [c co]. by apply quiet_groups.
  - unfold handle_list_offsets_request, list_offsets_isolated. apply andb_prop in Hm as [_ Hi%Z.eqb_eq].
    repeat case_match; simplify_eq; apply quiet_refl.
  - unfold handle_sync_request. match goal with |- context [sync_group_with_assignments ?a ?g ?m ?x ?l ?c] => pose proof (sync_offsets a g m x l c) as Ho end.
    destruct (sync_group_with_assignments _ _ _ _ _ _) as [c co]. by apply quiet_groups.
Qed.

Lemma answer_state now uuid req b : (answer root await_hwm resume_join other now uuid req b).2 = (handle_request root await_hwm resume_join other now uuid req b).2.
Proof. unfold answer. by destruct (handle_request _ _ _ _ _ _ _ _) as [[]]. Qed.

Lemma answer_preserves now uuid req w w' : node_ok (ln_broker w) → member_request grp req = true → entries_ok V (entries_of req) →
  ln_broker w' = (answer root await_hwm resume_join other now uuid req (ln_broker w)).2 → preserves V (entries_of req) w w'.
Proof.
  intros Hn Hm He Hw. rewrite answer_state in Hw.
  assert (Hcase : (∃ g m gen es, req = Request.OffsetCommit g m gen es) ∨
    entries_of req = [] ∧ ∀ g m gen es, req ≠ Request.OffsetCommit g m gen es) by (destruct req; eauto 10).
  destruct Hcase as [(g & m & gen & es & ->)|[He0 Hno]].
  - cbn in Hm. apply andb_prop in Hm as [->%String.eqb_eq Hmd]. by apply commit_request_preserves.
  - rewrite He0. apply quiet_preserves; [done|]. rewrite Hw. by apply request_quiet.
Qed.

(** *** The promises *)

Lemma round_trip_cases req r (w w' : Line L) : line_round_trip root await_hwm resume_join other req w = (r, w') →
  ln_broker w' = ln_broker w ∧ (∀ resp, r ≠ Ok resp) ∨
  ∃ now uuid, ln_broker w' = (answer root await_hwm resume_join other now uuid req (ln_broker w)).2 ∧
    ∀ resp, r = Ok resp → resp = (answer root await_hwm resume_join other now uuid req (ln_broker w)).1.
Proof.
  unfold line_round_trip. destruct (ln_events w) as [|[now uuid|now uuid|] es].
  - intros [= <- <-]. by left.
  - destruct (answer _ _ _ _ now uuid req _) as [resp b] eqn:E. intros [= <- <-]. right. exists now, uuid. rewrite E. split; [done|]. by intros ? [= <-].
  - destruct (answer _ _ _ _ now uuid req _) as [resp b] eqn:E. intros [= <- <-]. right. exists now, uuid. by rewrite E.
  - intros [= <- <-]. by left.
Qed.

Lemma map_error_is_error e : ∃ c m, map_error e = Response.Error c m.
Proof. unfold map_error. destruct e; eauto. Qed.

(** An answer that is no error comes from the handler. *)
Lemma answer_handled now uuid req b resp : (answer root await_hwm resume_join other now uuid req b).1 = resp →
  (∀ c m, resp ≠ Response.Error c m) → (handle_request root await_hwm resume_join other now uuid req b).1 = Ok resp.
Proof.
  unfold answer. destruct (handle_request _ _ _ _ _ _ _ _) as [[x|e] b']; cbn; [by intros ->|].
  destruct (map_error_is_error e) as (c & m & ->). intros <- Hne. by destruct (Hne c m).
Qed.

Lemma node_log_ok b tp : node_ok b →
  StronglySorted (λ r r', fr_offset r < fr_offset r') (node_log b tp) ∧
  Forall (λ r, 0 ≤ fr_offset r < node_end b tp) (node_log b tp) ∧ node_end b tp ≤ u64_max.
Proof.
  intros Hn. destruct tp as [t p]. destruct (get_partition t p b) as [part|e] eqn:Hp.
  2: { unfold node_log, node_end. cbn [fst snd]. rewrite Hp. split; [constructor|]. split; [constructor|]. unfold u64_max. lia. }
  destruct (node_records b t p part Hn Hp) as (recs & HR & _ & Hmax & ->). unfold node_end. cbn [fst snd]. rewrite Hp.
  destruct (ls_offsets _ _ HR) as [Hs Hoff]. split_and!; [| |done].
  - pose proof (sorted_filter _ (λ r, is_txn_control_record r = false) _ (ls_sorted _ _ HR)) as Hsort.
    induction Hsort as [|r l Hl IH Hr]; cbn [map]; [constructor|]. constructor; [done|]. apply Forall_map. eapply Forall_impl; [exact Hr|]. done.
  - apply Forall_map, Forall_forall. intros r [_ Hr]%list_elem_of_filter. apply (proj1 (Forall_forall _ _) Hoff) in Hr. cbn. lia.
Qed.

Lemma list_each_start t pids : ∀ b es, node_ok b → list_each t (-1) pids b = Ok es →
  Forall (λ e, 0 ≤ e.1.2 ≤ node_end b (t, e.1.1) ∧ Forall (λ r, e.1.2 ≤ fr_offset r) (node_log b (t, e.1.1))) es.
Proof.
  induction pids as [|p pids IH]; intros b es Hn; cbn [list_each]; [intros [= <-]; constructor|].
  unfold list_one. destruct (t0 ← b_topics b !! t; t_partitions t0 !! p) as [part|] eqn:Ep; cbn.
  all: destruct (list_each t (-1) pids b) as [es'|] eqn:E; [|discriminate]; intros [= <-]; constructor; [|by apply IH].
  - assert (Hp : get_partition t p b = Ok part).
    { unfold get_partition. destruct (b_topics b !! t) as [tt|]; [|done]. cbn in Ep. by rewrite Ep. }
    destruct (node_records b t p part Hn Hp) as (recs & HR & _ & _ & Hlog). cbn [fst snd]. unfold node_end. cbn [fst snd]. rewrite Hp, Hlog.
    destruct (ls_offsets _ _ HR) as [Hs Hoff]. split; [lia|]. apply Forall_map, Forall_forall. intros r [_ Hr]%list_elem_of_filter.
    apply (proj1 (Forall_forall _ _) Hoff) in Hr. cbn. lia.
  - assert (Hp : ∃ e, get_partition t p b = Err e).
    { unfold get_partition. destruct (b_topics b !! t) as [tt|]; [cbn in Ep; rewrite Ep|]; eauto. }
    destruct Hp as [e Hp]. cbn [fst snd]. unfold node_end, node_log. cbn [fst snd]. rewrite Hp. split; [lia|constructor].
Qed.

Notation N := (line_network root await_hwm resume_join other).

Lemma broker_round req r (w w' : Line L) : node_ok (ln_broker w) → member_request grp req = true → entries_ok V (entries_of req) →
  round_trip (Network := N) req w = (r, w') → preserves V (entries_of req) w w'.
Proof.
  intros Hn Hm He E. apply round_trip_cases in E as [[Hb _]|(now & uuid & Hb & _)]; [|by eapply answer_preserves].
  assert (Hq : preserves V [] w w') by (apply quiet_preserves; [done|]; rewrite Hb; apply quiet_refl).
  destruct Hq as (H1' & H2' & H3'). split; [done|]. split; [done|]. intros tp q Hnm Hq. destruct (H3' tp q Hnm Hq) as [?|[]%not_elem_of_nil]. by left.
Qed.

Lemma broker_names (w w' : Line L) x : node_ok (ln_broker w) → next_name w = (x, w') → preserves V [] w w'.
Proof. intros Hn E. apply quiet_preserves; [done|]. unfold next_name in E. destruct (ln_names w); injection E as <- <-; apply quiet_refl. Qed.

Lemma broker_fetch t p from mm mb wait g m t' p' hwm rs (w w' : Line L) : node_ok (ln_broker w) → 0 ≤ mm →
  round_trip (Network := N) (Request.Fetch t p from mm mb wait g m) w = (Ok (Response.Fetch t' p' hwm 0 rs), w') →
  ∃ rest, filter (λ r, from ≤ fr_offset r) (node_log (ln_broker w') (t, p)) = rs ++ rest.
Proof.
  intros Hn Hmm E. apply round_trip_cases in E as [[_ Hno]|(now & uuid & Hb & Ha)]; [by destruct (Hno _ eq_refl)|].
  specialize (Ha _ eq_refl). symmetry in Ha. apply answer_handled in Ha; [|done]. rewrite answer_state in Hb. cbn [handle_request] in *.
  pose proof (fetch_request_quiet t p from mm g m now _ Hn) as Q. rewrite <- Hb in Q.
  destruct (quiet_view _ _ (t, p) Q) as [-> _]. unfold handle_fetch_request in Ha. cbn zeta in Ha.
  destruct (if negb _ && negb _ then _ else _) in Ha; try discriminate.
  destruct (Txn.fetch t p from mm now (ln_broker w)) as [[out|e] b1] eqn:Ef; cbn in Ha; [|discriminate]. injection Ha as _ _ _ <-.
  eapply fetch_contiguous; [done|done|by rewrite Ef].
Qed.

Lemma broker_offsets es out (w w' : Line L) : node_ok (ln_broker w) → es ≠ [] →
  round_trip (Network := N) (Request.OffsetFetch grp es) w = (Ok (Response.OffsetFetch 0 out), w') →
  Forall (λ e, gv_name V (ofe_topic e, ofe_partition e) → ofe_offset e ≠ OFFSET_UNKNOWN →
    gv_committed V w' (ofe_topic e, ofe_partition e) = Some (ofe_offset e)) out.
Proof.
  intros Hn Hne E. apply round_trip_cases in E as [[_ Hno]|(now & uuid & Hb & Ha)]; [by destruct (Hno _ eq_refl)|].
  specialize (Ha _ eq_refl). symmetry in Ha. apply answer_handled in Ha; [|done]. rewrite answer_state in Hb. cbn [handle_request] in *.
  unfold handle_offset_fetch_request in *. cbn [fst snd] in *. destruct (Group.fetch_offsets _ _ _ _) as [sos|e] eqn:Ef; [|discriminate].
  injection Ha as <-. apply Forall_map. unfold gv_committed, broker_view. rewrite Hb.
  assert (Hes : map (λ e, (oe_topic e, oe_partition e)) es ≠ []) by (by destruct es).
  unfold Group.fetch_offsets in Ef. destruct (map _ es) as [|k ks] eqn:Ek; [done|]. clear Hes Hne Ek. rename k into k0. revert Ef.
  generalize (k0 :: ks). intros l. clear k0 ks. revert sos. induction l as [|[t p] l IH]; intros sos; cbn [fetch_entries]; [intros [= <-]; constructor|].
  destruct (OffsetStore.fetch root (offsets (b_groups (ln_broker w))) grp t p) as [[[q md] ep]|] eqn:Ef1; [|discriminate].
  destruct (fetch_entries root grp l _) as [sos'|] eqn:E2; [|discriminate]. intros [= <-]. constructor; [|by apply IH].
  intros _ Hk. unfold node_committed. cbn in *. rewrite Ef1. by rewrite (proj2 (Z.eqb_neq q _) Hk).
Qed.

Lemma broker_earliest t ps t' es (w w' : Line L) : node_ok (ln_broker w) →
  round_trip (Network := N) (Request.ListOffsets t ps (-1) 0) w = (Ok (Response.ListOffsets 0 t' es), w') →
  Forall (λ e, 0 ≤ ol_earliest e ≤ gv_end V w' (t, ol_partition e) ∧
    Forall (λ r, ol_earliest e ≤ fr_offset r) (gv_log V w' (t, ol_partition e))) es.
Proof.
  intros Hn E. apply round_trip_cases in E as [[_ Hno]|(now & uuid & Hb & Ha)]; [by destruct (Hno _ eq_refl)|].
  specialize (Ha _ eq_refl). symmetry in Ha. apply answer_handled in Ha; [|done]. rewrite answer_state in Hb.
  cbn [handle_request] in *. unfold handle_list_offsets_request, list_offsets_isolated in *. cbn [Z.ltb Z.compare] in *.
  unfold gv_end, gv_log, broker_view.
  destruct (listed_partitions t ps (ln_broker w)) as [pids|e] eqn:El; [|destruct e; discriminate]. cbn zeta in *.
  destruct (negb _) in Ha, Hb; [discriminate|]. destruct (list_each t (-1) pids (ln_broker w)) as [out|e] eqn:Ee; [|destruct e; discriminate].
  cbn in Ha, Hb. injection Ha as _ <-. rewrite Hb. apply Forall_map. by apply (list_each_start t pids).
Qed.

(** The broker keeps the promises of a group's members. *)
#[export] Instance broker_serves_group : GroupServer N V grp.
Proof.
  split.
  - intros req r w w' Hn Hm He E. by eapply broker_round.
  - intros addr r w w' Hn [= <- <-]. apply quiet_preserves; [done|apply quiet_refl].
  - intros x w w' Hn E. by eapply broker_names.
  - intros x w w' Hn E. by eapply broker_names.
  - intros w tp Hn. by apply node_log_ok.
  - intros t p from mm mb wait g m t' p' hwm rs w w' Hn Hmm E. exact (broker_fetch _ _ _ _ _ _ _ _ _ _ _ _ _ _ Hn Hmm E).
  - intros es out w w' Hn Hne E. exact (broker_offsets _ _ _ _ Hn Hne E).
  - intros t ps t' es w w' Hn E. exact (broker_earliest _ _ _ _ _ _ Hn E).
Qed.

End broker.

(** * A group and its broker: concrete runs *)

From S2P Require Import TxnWitnesses ReplicationWitnesses.
#[local] Open Scope Z_scope.

#[local] Existing Instance shop_store.
#[local] Existing Instance shop_laws.
#[local] Existing Instance order_id.
#[local] Existing Instance sum_crypto.

(** ** A broker with two records, and a member *)

Definition shelf_log : PartitionLog := (ls_append_batch [order x01; order x02] 1000 shop_log).2.
Definition shelf_part : Partition PartitionLog := mkPartition 0 shelf_log 0 [0] [0] 0 2 ∅ ∅.

Definition shelf_of (parts : gmap Z (Partition PartitionLog)) : Broker PartitionLog :=
  mkBroker 0 None false {["orders"%string := mkTopic 1 "orders" parts]} 0
    (mkGroupCoordinator ∅ ∅ demo_fs)
    (mkTxns 1 ∅ ∅ ∅ ∅ ∅ ∅ ∅ 60000 60000 0 0 0 0) (mkTxnFiles None None None None)
    (mkMeta 2 ∅ ∅ ∅ [] 0 0 0).

Definition shelf : Broker PartitionLog := shelf_of {[0 := shelf_part]}.

Lemma shelf_rep : ls_rep shelf_log (batch_records 0 1000 [order x01; order x02]).
Proof.
  destruct (ls_append_batch_ok shop_log [] [order x01; order x02] 1000 shop_rep) as (l' & E & R & _);
    [apply shop_room; vm_compute; split; discriminate|by apply (order_ok [x01; x02])|].
  unfold shelf_log. rewrite E. cbn [snd]. change (ls_end shop_log) with (log_next_offset shop_log) in R. by rewrite (proj1 shop_log_state) in R.
Qed.

Lemma shelf_ok : node_ok demo_root shelf.
Proof.
  split; [done..| |].
  - intros t p part Hp. assert (part = shelf_part) as ->.
    { revert Hp. unfold get_partition. destruct (b_topics shelf !! t) as [tt|] eqn:Et; [|discriminate].
      change (({["orders"%string := mkTopic 1 "orders" {[0 := shelf_part]}]} : gmap string (Topic PartitionLog)) !! t = Some tt) in Et.
      apply lookup_singleton_Some in Et as [_ <-]. cbn [t_partitions]. destruct (_ !! p) as [q|] eqn:Eq; [|discriminate].
      apply lookup_singleton_Some in Eq as [_ <-]. by intros [= <-]. }
    exists (batch_records 0 1000 [order x01; order x02]). split; [apply shelf_rep|]. vm_compute. split; [done|discriminate].
  - exists ∅. apply demo_store.
Qed.

#[local] Instance shelf_network : Network (Line PartitionLog) := line_network demo_root no_wait no_join no_other.
Definition shelf_view : GroupView (Line PartitionLog) := broker_view demo_root "readers".

Lemma shelf_server : GroupServer shelf_network shelf_view "readers".
Proof.
  apply broker_serves_group; [apply demo_root_simple|by vm_compute|..].
  - intros w b _. apply quiet_refl.
  - intros req now b _ _. apply quiet_refl.
Qed.

Definition reader : Client :=
  mkClient (mkClientConfig ["a:1"%string] 1 128 4194304 0 0 None None None 0 1 false None 2) "a:1"
    (mkIdempotentState 0 0 false false ∅ ∅).

(** Every request is answered. *)
Definition shelf_line : Line PartitionLog := mkLine shelf (replicate 12 (Exchanged 1000 "")) ["m1"%string].

Definition joined := join_with_fetch_knobs "readers" ["orders"%string] 10000 "" true false 0 "earliest" "broker" 100 4096 (reader, shelf_line).
Definition value_or {A} (d : A) (r : result A) : A := match r with Ok a => a | Err _ => d end.

(** A run that succeeds, from its parts. *)
Lemma run_parts {A B} (d : A) (x : result A * B) : negb (is_err x.1) = true → x = (Ok (value_or d x.1), x.2).
Proof. destruct x as [[a|e] b]; by cbn. Qed.

Definition nobody : GroupConsumer := mkGroupConsumer "" [] 0 "" false 0 Earliest BrokerAssignor 0 0 false 0 no_state.
Definition reader1 : GroupConsumer := value_or nobody joined.1.
Definition polled := poll 1000 (reader1, joined.2).
Definition committed_run := commit 2000 polled.2.

Definition delivered_by_poll : list FetchedRecord := value_or [] polled.1.

Lemma orders_name : gv_name shelf_view ("orders"%string, 0).
Proof. split; [|by vm_compute]. split; [reflexivity|]. by split_and!. Qed.

Lemma orders_named g q : js_positions (gc_state g) = {[("orders"%string, 0) := q]} → named (V := shelf_view) g.
Proof.
  intros Hp tp q'. rewrite Hp. intros [<- _]%lookup_singleton_Some. exact orders_name.
Qed.

(** No file has been written. *)
Lemma shelf_nothing tp : gv_committed shelf_view shelf_line tp = None.
Proof.
  unfold shelf_view, gv_committed, broker_view, node_committed. cbn [ln_broker shelf_line].
  unfold OffsetStore.fetch. destruct (resolve _ _) as [q|]; [|done]. destruct (is_dir _ q); [done|]. cbn [b_groups shelf shelf_of offsets demo_fs fs_files].
  by rewrite lookup_empty.
Qed.

Lemma join_run : joined = (Ok reader1, joined.2).
Proof. exact (run_parts nobody joined ltac:(vm_compute; reflexivity)). Qed.

Lemma poll_run : polled = (Ok delivered_by_poll, polled.2).
Proof. exact (run_parts [] polled ltac:(vm_compute; reflexivity)). Qed.

Lemma join_position : js_positions (gc_state reader1) = {[("orders"%string, 0) := 0]}.
Proof. vm_compute. reflexivity. Qed.

Lemma poll_position : js_positions (gc_state polled.2.1) = {[("orders"%string, 0) := 2]}.
Proof. vm_compute. reflexivity. Qed.

(** The member joins, polls and commits. *)
Definition shelf_end : GroupSystem (W := Line PartitionLog) :=
  mkGroupSystem (<[0%nat := (committed_run.2.1, committed_run.2.2.1)]>
                  (<[0%nat := (polled.2.1, polled.2.2.1)]> (<[0%nat := (reader1, joined.2.1)]> ∅)))
    committed_run.2.2.2 (∅ ∪ keys delivered_by_poll).

Lemma step_poll m (cs : Client * Line PartitionLog) D g now out gs' :
  m !! 0%nat = Some (g, cs.1) → poll now (g, cs) = (Ok out, gs') → named (V := shelf_view) gs'.1 →
  group_step (λ _, shelf_network) shelf_view "readers" (mkGroupSystem m cs.2 D)
    (mkGroupSystem (<[0%nat := (gs'.1, gs'.2.1)]> m) gs'.2.2 (D ∪ keys out)).
Proof. destruct cs as [c w], gs' as [g' [c' w']]. intros Hm E Hn. exact (gt_poll _ _ _ order_id 0 m w D g c now out g' (c', w') Hm E Hn). Qed.

Lemma step_commit m (gs : GroupConsumer * (Client * Line PartitionLog)) D now x :
  m !! 0%nat = Some (gs.1, gs.2.1) → commit now gs = x →
  group_step (λ _, shelf_network) shelf_view "readers" (mkGroupSystem m gs.2.2 D)
    (mkGroupSystem (<[0%nat := (x.2.1, x.2.2.1)]> m) x.2.2.2 D).
Proof. destruct gs as [g [c w]], x as [r [g' [c' w']]]. intros Hm E. exact (gt_commit _ _ _ order_id 0 m w D g c now r g' (c', w') Hm E). Qed.

Lemma shelf_run : rtc (group_step (λ _, shelf_network) shelf_view "readers") (mkGroupSystem ∅ shelf_line ∅) shelf_end.
Proof.
  eapply rtc_l.
  { eapply (gt_join _ _ _ order_id 0 ∅ shelf_line ∅ reader ["orders"%string] 10000 "" true false 0 "earliest" "broker" 100 4096 reader1 joined.2);
      [done|lia|done|exact join_run|exact (orders_named _ 0 join_position)]. }
  eapply rtc_l.
  { eapply (step_poll _ joined.2 ∅ reader1 1000 delivered_by_poll polled.2);
      [apply lookup_insert_eq|exact poll_run|exact (orders_named _ 2 poll_position)]. }
  eapply rtc_l; [|apply rtc_refl]. eapply (step_commit _ polled.2 _ 2000 committed_run); [apply lookup_insert_eq|reflexivity].
Qed.


Definition newcomer : GroupConsumer :=
  mkGroupConsumer "readers" ["orders"%string] 10000 "" false 0 Earliest BrokerAssignor 100 4096 true 0 no_state.
Definition newcomer_run := do_join (newcomer, (reader, shelf_line)).

Lemma join_seeds_positions_witness : is_Some (js_positions (gc_state newcomer_run.2.1) !! ("orders"%string, 0)).
Proof.
  assert (E : newcomer_run = (Ok tt, (newcomer_run.2.1, newcomer_run.2.2))).
  { assert (Hr : newcomer_run.1 = Ok tt) by (vm_compute; reflexivity). revert Hr. generalize newcomer_run. intros [r [g s]] Hr. cbn in Hr. by subst r. }
  apply (join_seeds_positions _ _ _ _ E). vm_compute. apply list_elem_of_here.
Defined.

(** ** A poll that fails

    Two partitions; the answer to the second fetch does not come.  The records of
    the first are dropped with the error, its position has moved all the same,
    and the next commit passes them. *)
Definition shelves : Broker PartitionLog := shelf_of {[0 := shelf_part; 1 := shelf_part]}.

Definition lossy_line : Line PartitionLog :=
  mkLine shelves (replicate 4 (Exchanged 1000 "") ++ [Exchanged 1000 ""; Exchanged 1000 ""; RequestLost] ++ replicate 8 (Exchanged 1000 ""))
    ["m1"%string].

Definition partitions_of (r : result (list FetchedRecord)) : result (list (Z * Z)) :=
  match r with Ok out => Ok (map (λ f, (fd_partition f, fr_offset (fd_record f))) out) | Err e => Err e end.

Definition lossy_run : result (list (Z * Z)) * result (list (Z * Z)) * option Z :=
  let '(j, s) := join "readers" ["orders"%string] 10000 (reader, lossy_line) in
  let '(first, gs) := poll 1000 (value_or nobody j, s) in
  let '(second, gs) := poll 1000 gs in
  let '(_, (_, (_, w))) := commit 2000 gs in
  (partitions_of first, partitions_of second, node_committed demo_root "readers" (ln_broker w) ("orders"%string, 0)).

Lemma failed_poll_skips_records : ∃ e, lossy_run = (Err e, Ok [(1, 0); (1, 1)], Some 2).
Proof. eexists. vm_compute. reflexivity. Qed.

(** ** An open transaction

    A fetch leaves out the records of an open transaction and returns the one
    behind them: a consumer moves to the offset 2.  When the transaction is
    committed its first record can be read, but not from there. *)
Definition offsets_read (from : Z) (b : Broker PartitionLog) : result (list Z) :=
  match (Txn.fetch "orders" 0 from 10 1000 b).1 with Ok rs => Ok (map rec_offset rs) | Err e => Err e end.

Lemma open_transaction_is_passed :
  offsets_read 0 shop_interleaved = Ok [1] ∧
  let b := (end_txn [] 1 0 true [] 1000 shop_interleaved).2 in
  offsets_read 2 b = Ok [2] ∧ offsets_read 0 b = Ok [0; 1; 2].
Proof. vm_compute. split; [|split]; reflexivity. Qed.
